(* ===== verification/_CoqProject ===== *)
-Q . S2P
Prelude.v
Art.v
ArtNode.v
ArtTree.v
ArtInsert.v
ArtMap.v
ArtDelete.v
ArtTheorems.v
Heap.v
RbTree.v
RbTreeRep.v
RbTreeAdd.v
RbTreeMap.v
Comparators.v
RbTreeTheorems.v
LinkedList.v
LinkedListRep.v
LinkedListSpec.v
ListSort.v
ListSortTheorems.v
ListTheorems.v
TaggedList.v
BinFile.v
Metadata.v
OnDiskIndex.v
FileTheorems.v
InMemIndex.v
Mdb.v
IndexInv.v
IndexAdd.v
IndexRun.v
IndexTheorems.v
Hdf5.v
Hdf5Rep.v
Hdf52Index.v
Hdf5Theorems.v
MdbDump.v
MdbLoad.v
MdbTheorems.v
StringUtils.v
QueryUtils.v
FsOps.v
FsTheorems.v
Driver.v
DriverTheorems.v
ThreadPool.v
ThreadPoolInv.v
ThreadPoolTheorems.v
SkipList.v
SkipListRep.v
SkipListInsert.v
SkipListTheorems.v
BinHeap.v
BinHeapRep.v
BinHeapOps.v
BinHeapTheorems.v
PQueue.v
FBuf.v
FBufRep.v
FBufOps.v
FBufTheorems.v
RingBuffer.v
RingBufferRep.v
RingBufferTheorems.v
SparseArray.v
SparseArrayTheorems.v
Trie.v
TrieRep.v
TrieRemove.v
TrieTheorems.v
HashTable.v
HashTableRep.v
HashTableOps.v
HashTableTheorems.v
HashTableIter.v
HashTableSync.v
Spi.v
SpiTheorems.v
NumberSpi.v
NumberSpiTheorems.v
