(* ===== verification/Prelude.v ===== *)
(** * MIQS: a verification of the metadata index

    MIQS indexes the attributes of self-describing data files.  Each attribute
    value (an int, a double or a string, under an attribute name) is entered
    with the path of its file and of the object that carries it, and a query
    for a name and a value returns those paths.  This development models the
    index and everything it is built from as executable functions, down to the
    pointers of its trees and lists and the bytes of its files, and proves what
    the code does.

    ** The program and its models

    - src/index/art/art.c, the adaptive radix tree that maps attribute names
      (and string values) to leaves.  [Art]: the four node layouts with their
      key and child arrays, search, insertion with node growth and path
      compression, deletion with shrinking, iteration.  [ArtNode], [ArtTree]:
      one node against a finite map, and the well-formedness [wf] of trees;
      [ArtInsert], [ArtMap]: insertion and iteration, also over a prefix;
      [ArtDelete]: deletion with its changes of layout and the merging of
      paths; [ArtTheorems].
    - src/index/libhl/rbtree.c, the red-black tree of numeric values.  [RbTree]
      is a pointer-level model in the heap monad of [Heap]; [RbTreeRep] gives
      the representation by functional trees with zippers, [RbTreeAdd] the
      correspondence of insertion, [RbTreeMap] the map, the balance and the
      walks; [RbTreeTheorems].  [Comparators] models
      comparators.h, doubles through the Standard Library's IEEE 754 floats.
    - src/index/libhl/linklist.c, the doubly linked list with its cursor
      cache, which holds paths and (file, object) pairs.  [LinkedList] (pointer
      level), [LinkedListRep], [LinkedListSpec], [ListTheorems]; the in-place
      quicksort: [ListSort], [ListSortTheorems]; tagged values, nested lists
      and slices as objects that are allocated and freed: [TaggedList].
    - src/index/storage/bin_file_ops.c, typed fields of binary files:
      [BinFile].  Files are byte lists; reads consume a prefix.
    - src/metadata/miqs_metadata.h and src/utils/hash_utils.c: [Metadata].  The
      djb2 hash picks the partition of a name.
    - src/index/on_disk_index.c, first half, the records of the append-only
      file: [OnDiskIndex], [FileTheorems].
    - src/index/in_mem_index.c, the anchor of the index: [InMemIndex].  Its
      state is the record [index_anchor]: an array of radix trees and two
      arrays of path lists, one entry per partition, and the attribute leaves
      and value leaves, which the program shares by pointer and which are
      therefore two heaps.  indexing_attr, create_in_mem_index_for_attr,
      indexing_numeric, indexing_string, insert_tagged_value, write_aof and
      load_aof are operations on it.
    - src/miqs_querying.c, exact-match queries: the end of [InMemIndex].
    - src/metadata/hdf5_meta_extractor.c and miqs_meta_collector.c, which walk
      the objects of an HDF5 file and collect their attributes in linked lists:
      [Hdf5]; [Hdf5Rep] relates the lists to the file.  src/hdf52index.c, which
      enters what was collected into the index: [Hdf52Index], [Hdf5Theorems].
    - src/utils/fs_ops.c, directories and paths: [FsOps], [FsTheorems].
    - src/miqs_indexing.c, the driver that gives each MPI rank its share of the
      files of a directory, indexes, dumps and recovers: [Driver],
      [DriverTheorems].
    - the MDB file (second half of on_disk_index.c, dump_mdb_index_to_disk and
      load_mdb_file_to_index of in_mem_index.c): [Mdb].
    - src/utils/string_utils.c and query_utils.c, star patterns and tag lists:
      [StringUtils], [QueryUtils].
    - src/utils/thread/thpool.c, the thread pool.  [ThreadPool]: the job queue
      and semaphore as functions, the pool as a step relation: [work_step] for
      the sections of thread_do between two lock operations, [client_step] for
      the calls of one client and for spurious wake-ups.  [ThreadPoolInv]: the
      queue's representation and the invariant; [ThreadPoolTheorems].
    - src/index/libhl/skiplist.c over the TAILQ macros of bsd_queue.h:
      [SkipList] (pointer level), [SkipListRep] (what the macros do to the
      chains, well-formed states and search), [SkipListInsert],
      [SkipListTheorems], which also holds the plug-in
      src/index/spi/skiplist_number_index.c.
    - src/index/libhl/rbuf.c, the ring buffer of bytes: [RingBuffer] (the memory
      and the offsets), [RingBufferRep] (the bytes held, each operation against
      a bounded queue), [RingBufferTheorems].
    - src/index/libhl/fbuf.c, the growing buffer of bytes: [FBuf] (structures and
      blocks in one store), [FBufRep] (contents, growth and shrinking),
      [FBufOps] (each operation, scripts against a byte string),
      [FBufTheorems].
    - src/index/libhl/binheap.c, the binomial heap: [BinHeap] (nodes and heaps in
      one store, since a node points to its heap and heaps can be merged),
      [BinHeapRep] (heap-ordered forests and the rules of the store),
      [BinHeapOps] (removal of a node, insertion), [BinHeapTheorems];
      src/index/libhl/pqueue.c, the priority queue on top of it: [PQueue].
    - src/index/libhl/sparse_array.c, cells of linked lists, and its plug-in
      sparse_array_number_index.c: [SparseArray], [SparseArrayTheorems].
    - src/index/libhl/trie.c: [Trie] (pointer level), [TrieRep] (nodes as ends
      of paths, insertion), [TrieRemove] (removal and iteration), [TrieTheorems].
    - src/index/libhl/hashtable.c: [HashTable] (buckets as a heap of item lists,
      allocation failures, copied data), [HashTableRep] (representation and
      growth), [HashTableOps] (each operation against an abstract store),
      [HashTableTheorems], [HashTableIter] (destruction, iteration, listing and
      the cases in which the map is left); [HashTableSync]: the status word by
      which threads share the table, as a step relation.
    - src/index/spi, the plug-in interface.  [Spi], [SpiTheorems]: string
      indexes on a hash table, a red-black tree, a trie or a radix tree;
      [NumberSpi], [NumberSpiTheorems]: number indexes on a sparse array, a
      red-black tree or a skip list, and the fallback to tsearch.  The structure
      is chosen on every call by an environment variable.

    ** How code is modelled

    C code that can dereference a null or dangling pointer, or leave defined
    behaviour in another way, returns [outcome]: [Ret] or [Fault].  Stateful
    code is in the state monad [st S] over [outcome], with the weakest
    precondition [wp].  Integers are [Z] with the wrap-around of their C type
    written out ([u8], [u64], [i32]); bytes are integers below 256, memory is
    little-endian.  Loops that are not structural take fuel: the size of the
    heap for walks over linked nodes (a path visits each node at most once),
    the length of the input for loops over files and strings.  The theorems
    show that the code returns, so that this fuel is enough.

    What the sources read beyond their objects is a parameter: [oob] is the
    byte found behind a key of the radix tree, [pointer_bytes] the memory at
    the string pointers that write_aof passes, [beyond] the memory behind a
    block that substring returned and behind a string key of a red-black tree, [junk] the memory that the buffer of a trie
    iteration grows into, [mem] the fresh memory of a ring buffer.  So are the
    allocations that succeed ([granted], [realloc], [malloc_ok]) and the results
    of random().  The properties hold for all of them, or state what they need.
    The HDF5 library is the data that it reports for a file; the file system is
    a record of operations, [fs_ops], with what POSIX says of the empty path
    ([FsLaws]) and of the names in a directory ([DirLaws]); the barrier of MPI is a function of the rank's state.

    ** The theorems

    [IndexTheorems]: the index refines a log ([index_refines_log]): for every
    interleaving of indexing and of queries that have an answer, on keys the
    comparators order, the answers are those of a list of entries that is
    filtered.  The proof goes through the invariant [index_is]
    of [IndexInv], which [IndexAdd] and [IndexRun] preserve and queries
    read; it uses the trees only through the class [MapStore], of which the
    radix tree and the red-black tree are instances.  A query without an answer
    and string attributes are the cases in which the code fails; the
    append-only file is treated as well.
    [MdbTheorems]: numeric attributes on one partition survive dump and load
    ([mdb_round_trip], by way of [MdbDump] and [MdbLoad], which relate
    the bytes to a document of the index); with more partitions the
    file cannot be loaded.
    [Hdf5Theorems]: the lists collected from a file hold exactly the attributes
    its objects report, in order ([scan_collects]), and a query after indexing a
    file finds them ([hdf5_query_answers]).  [FsTheorems]: collect_dir returns
    and lists the regular files of a tree.  [DriverTheorems]: the ranks share one
    list of files, which has every file once; the paths of the driver that index, dump or recover
    nothing.
    [RingBufferTheorems]: every admissible script of writes and reads against a
    bounded queue of bytes; moving and copying between buffers, and where they overrun.
    [FBufTheorems]: every script of the operations [fop] on a growing buffer
    against a byte string with a limit, while allocation succeeds; concatenation, handing over the block, reading lines; leaks,
    overruns and lost contents.
    [BinHeapTheorems]: every script of operations against a bag of pairs, by way
    of trees that stay well formed and ordered; walking; merging, by what walks
    find before and after; what the other end of a heap, deletion by key and
    merged heaps do not deliver.
    [PQueue]: every script against a bounded bag of entries, and what is freed.
    [ArtTheorems]: every script of insertions, deletions and searches against
    the finite map of the keys that are C strings ([art_refines_map]);
    iteration, and prefix iteration where some key has the prefix.  [RbTreeTheorems]: lookup, insertion, walks
    and destruction against the finite map, the depth bound, the limits of the
    comparators, and the defects of removal, size and stopping.
    [ListTheorems]: every sequence of list operations against a list.
    [ListSortTheorems]: list_sort returns a rearrangement for any comparator,
    sorted for a total preorder.  [TaggedList]: access by tag, slices, and the
    destruction of nested lists, which frees every object once but the copies of
    empty strings.
    [FileTheorems]: fields and records round-trip; record search.
    [ThreadPoolTheorems]: jobs start once and in order, thpool_wait returns only
    when all jobs have finished, the workers come to rest within a bound on
    their steps, and at rest nothing is left to do.
    [SkipListTheorems]: insertion scrambles the upper layers,
    but search needs only that their chains end and that layer 0 is sorted;
    this holds until a new minimum is inserted or a key removed.
    [SparseArrayTheorems]: a multimap from absolute values; ranges.
    [TrieTheorems]: insertion and lookup as a map on ASCII keys, removal of
    whole subtrees, the values and keys that iteration reports.
    [HashTableTheorems], [HashTableIter]: every run of operations against an
    abstract store; keys set after ht_unset, failed copies and removal by
    iteration are the cases in which the table is no map.  [HashTableSync]: a
    writer excludes everybody, a reader alone finishes, but its bucket may be
    the one of the old size.
    [SpiTheorems], [NumberSpiTheorems]: the classes [StringStore] and
    [NumberStore] state what a plug-in promises, the structures are instances,
    and the theorems about clients are proved from the classes.  A red-black tree
    of strings works only while a NUL byte happens to lie behind its keys.

    The comparators order only some keys (their difference must fit an int;
    doubles must be at least one apart): theorems about red-black trees are
    for keys [P] on which the comparator is an order, class [KeyOrder].  List
    lengths and counts are bounded by [MAX_LEN] = 2^31 - 1, since positions
    pass through an int.

    ** Not modelled

    Locks, timers and memory counters of the index and of its lists (operations
    run one at a time); pausing of the thread pool by POSIX signals and the flag
    that all pools of a process share; the spin locks of single
    buckets; what is behind the interfaces of MPI, the file system and the HDF5
    library; the containers AVL tree, lock-free queues, graph and
    reference counter, which no indexing or querying code reaches; heap keys
    that are floats; printing and random strings.  Allocation is assumed to succeed, except in the hash table, the
    ring buffer and for the growth of sparse arrays.

    ** Plan

    The string regions of the MDB file; the other containers of libhl. *)
From stdpp Require Export prelude list gmap fin_maps sorting.
From Stdlib Require Export ZArith Lia.

Declare Scope miqs_scope.
Delimit Scope miqs_scope with miqs.

(** ** Outcomes of C code

    [Ret a] is a normal return; [Fault] is the point at which the C program
    dereferences a null or invalid pointer (or otherwise leaves defined
    behaviour), after which nothing is claimed about it. *)
Inductive outcome (A : Type) : Type :=
| Ret (a : A)
| Fault.
Arguments Ret {A} a.
Arguments Fault {A}.

#[export] Instance outcome_ret : MRet outcome := λ _ a, Ret a.
#[export] Instance outcome_bind : MBind outcome :=
  λ _ _ k m, match m with Ret a => k a | Fault => Fault end.
#[export] Instance outcome_fmap : FMap outcome :=
  λ _ _ f m, match m with Ret a => Ret (f a) | Fault => Fault end.

(** Dereferencing a pointer that may be null. *)
Definition deref {A} (p : option A) : outcome A :=
  match p with Some a => Ret a | None => Fault end.

Lemma bind_Ret {A B} (m : outcome A) (k : A → outcome B) b :
  m ≫= k = Ret b → ∃ a, m = Ret a ∧ k a = Ret b.
Proof. destruct m; simpl; [eauto | discriminate]. Qed.

(** ** A state monad over outcomes

    Pointer-manipulating code is written in [st S]; [wp m Q s] says that [m]
    run in state [s] returns (no fault, fuel enough) with a result satisfying
    [Q]. *)
Definition st (S A : Type) : Type := S → outcome (A * S).

#[export] Instance st_ret S : MRet (st S) := λ _ a s, Ret (a, s).
#[export] Instance st_bind S : MBind (st S) :=
  λ _ _ k m s, match m s with Ret (a, s) => k a s | Fault => Fault end.

Definition st_fault {S A} : st S A := λ _, Fault.
Definition st_get {S} : st S S := λ s, Ret (s, s).
Definition st_modify {S} (f : S → S) : st S unit := λ s, Ret (tt, f s).

Definition wp {S A} (m : st S A) (Q : A → S → Prop) (s : S) : Prop :=
  match m s with Ret (a, s) => Q a s | Fault => False end.

Section Wp.
Context {S A B : Type}.
Implicit Types (s : S).

Lemma wp_ret (a : A) (Q : A → S → Prop) s : Q a s → wp (mret a) Q s.
Proof. done. Qed.

Lemma wp_bind (m : st S A) (k : A → st S B) Q s :
  wp m (λ a, wp (k a) Q) s → wp (m ≫= k) Q s.
Proof. unfold wp, mbind, st_bind. by destruct (m s) as [[a s']|]. Qed.

Lemma wp_mono (m : st S A) (P Q : A → S → Prop) s :
  wp m P s → (∀ a s, P a s → Q a s) → wp m Q s.
Proof. unfold wp. destruct (m s) as [[a s']|]; eauto. Qed.

Lemma wp_get (Q : S → S → Prop) s : Q s s → wp st_get Q s.
Proof. done. Qed.

Lemma wp_modify f (Q : unit → S → Prop) s : Q tt (f s) → wp (st_modify f) Q s.
Proof. done. Qed.

Lemma wp_run (m : st S A) (Q : A → S → Prop) s :
  wp m Q s → ∃ a s', m s = Ret (a, s') ∧ Q a s'.
Proof. unfold wp. destruct (m s) as [[a s']|]; naive_solver. Qed.

Lemma wp_Ret (m : st S A) (Q : A → S → Prop) s a s' :
  m s = Ret (a, s') → Q a s' → wp m Q s.
Proof. unfold wp. by intros ->. Qed.
End Wp.

(** ** Machine integers: wrap-around at the widths of the C types *)
Definition u8 (x : Z) : Z := x `mod` 2 ^ 8.
Definition u32 (x : Z) : Z := x `mod` 2 ^ 32.
Definition u64 (x : Z) : Z := x `mod` 2 ^ 64.
Definition i32 (x : Z) : Z := (x + 2 ^ 31) `mod` 2 ^ 32 - 2 ^ 31.

Definition in_u8 (x : Z) : Prop := (0 ≤ x < 2 ^ 8)%Z.
Definition in_u64 (x : Z) : Prop := (0 ≤ x < 2 ^ 64)%Z.
Definition in_i32 (x : Z) : Prop := (- 2 ^ 31 ≤ x < 2 ^ 31)%Z.
#[export] Instance in_u8_dec x : Decision (in_u8 x).
Proof. unfold in_u8; apply _. Defined.
#[export] Instance in_u64_dec x : Decision (in_u64 x).
Proof. unfold in_u64; apply _. Defined.
#[export] Instance in_i32_dec x : Decision (in_i32 x).
Proof. unfold in_i32; apply _. Defined.

(** A signed sum that must fit an int. *)
Definition cint (z : Z) : outcome Z := if decide (in_i32 z) then Ret z else Fault.
Lemma cint_ok z : in_i32 z → cint z = Ret z.
Proof. intros Hz. unfold cint. by rewrite decide_True. Qed.

Create HintDb miqs.

Lemma u8_id x : in_u8 x → u8 x = x.
Proof. unfold in_u8, u8. intros. by rewrite Z.mod_small. Qed.
Lemma u64_id x : in_u64 x → u64 x = x.
Proof. unfold in_u64, u64. intros. by rewrite Z.mod_small. Qed.
Lemma i32_id x : in_i32 x → i32 x = x.
Proof. unfold in_i32, i32. intros. rewrite Z.mod_small; lia. Qed.
Lemma u8_range x : in_u8 (u8 x).
Proof. unfold in_u8, u8. apply Z.mod_pos_bound. lia. Qed.
Lemma u64_range x : in_u64 (u64 x).
Proof. unfold in_u64, u64. apply Z.mod_pos_bound. lia. Qed.
Lemma i32_range x : in_i32 (i32 x).
Proof.
  unfold in_i32, i32. pose proof (Z.mod_pos_bound (x + 2 ^ 31) (2 ^ 32)). lia.
Qed.
#[export] Hint Resolve u8_range u64_range i32_range : miqs.

(** ** Bytes, little-endian integers and C strings *)

(** The little-endian bytes of an [n]-byte integer and back (x86-64). *)
Fixpoint le_split (n : nat) (w : Z) : list Z :=
  match n with
  | O => []
  | S n => u8 w :: le_split n (Z.shiftr w 8)
  end.

Fixpoint le_combine (l : list Z) : Z :=
  match l with
  | [] => 0
  | b :: l => Z.lor b (Z.shiftl (le_combine l) 8)
  end.

Lemma length_le_split n w : length (le_split n w) = n.
Proof. revert w. induction n; intros w; simpl; auto. Qed.

Lemma le_split_bytes n w : Forall in_u8 (le_split n w).
Proof. revert w. induction n; intros w; simpl; constructor; auto with miqs. Qed.

Lemma lor_byte_shift (b x : Z) : in_u8 b → Z.lor b (Z.shiftl x 8) = (b + 256 * x)%Z.
Proof.
  unfold in_u8. intros Hb. rewrite Z.shiftl_mul_pow2 by lia.
  pose proof (Z.add_lor_land b (x * 2 ^ 8)) as Hadd.
  assert (Z.land b (x * 2 ^ 8) = 0%Z) as Hl; [|rewrite Hl in Hadd; lia].
  clear Hadd.
  apply Z.bits_inj'. intros i Hi. rewrite Z.land_spec, Z.bits_0.
  destruct (decide (i < 8)%Z).
  - rewrite Z.mul_pow2_bits_low by lia. apply andb_false_r.
  - assert (Z.testbit b i = false) as ->; [|done].
    apply Z.testbit_false; [lia|]. rewrite Z.div_small; [done|].
    split; [lia|]. eapply Z.lt_le_trans; [apply Hb|]. apply Z.pow_le_mono_r; lia.
Qed.

Lemma le_combine_split n w :
  le_combine (le_split n w) = (w `mod` 2 ^ (8 * Z.of_nat n))%Z.
Proof.
  revert w. induction n as [|n IH]; intros w; simpl.
  - by rewrite Z.mod_1_r.
  - rewrite lor_byte_shift by apply u8_range. rewrite IH, Z.shiftr_div_pow2 by lia.
    unfold u8. change 256%Z with (2 ^ 8)%Z.
    replace (8 * Z.of_nat (S n))%Z with (8 + 8 * Z.of_nat n)%Z by lia.
    rewrite Z.pow_add_r by lia.
    rewrite Z.rem_mul_r by lia. lia.
Qed.

(** A [bits]-bit two's complement pattern read as a signed number. *)
Definition signed (bits : Z) (w : Z) : Z :=
  if bool_decide (w < 2 ^ (bits - 1))%Z then w else (w - 2 ^ bits)%Z.

(** The four bytes of an [int] in memory. *)
Definition int_bytes (x : Z) : list Z := le_split 4 (x `mod` 2 ^ 32)%Z.

Lemma int_bytes_decode x : in_i32 x → signed 32 (le_combine (take 4 (int_bytes x))) = x.
Proof.
  unfold in_i32. intros Hx. unfold int_bytes. rewrite take_ge by (by rewrite length_le_split).
  rewrite le_combine_split. change (8 * Z.of_nat 4)%Z with 32%Z. rewrite Z.mod_mod by lia.
  unfold signed. change (32 - 1)%Z with 31%Z. case_bool_decide as H.
  - destruct (decide (0 ≤ x)%Z); [rewrite Z.mod_small; lia|].
    rewrite <-(Z_mod_plus_full x 1), Z.mod_small in H by lia. lia.
  - destruct (decide (0 ≤ x)%Z); [rewrite Z.mod_small in H; lia|].
    rewrite <-(Z_mod_plus_full x 1), Z.mod_small by lia. lia.
Qed.

#[global] Arguments le_split : simpl never.
#[global] Arguments int_bytes : simpl never.

(** The C string found at the start of a buffer: the bytes before the first
    NUL. *)
Fixpoint cstr_of (l : list Z) : list Z :=
  match l with
  | [] => []
  | b :: l => if bool_decide (b = 0%Z) then [] else b :: cstr_of l
  end.

(** The contents of a C string: non-NUL bytes. *)
Definition cstr (s : list Z) : Prop := Forall (λ b, (0 < b < 256)%Z) s.
#[export] Instance cstr_dec s : Decision (cstr s).
Proof. unfold cstr; apply _. Defined.

Lemma cstr_of_id s : cstr s → cstr_of s = s.
Proof.
  induction 1 as [|b s Hb _ IH]; simpl; [done|].
  rewrite bool_decide_eq_false_2 by lia. by rewrite IH.
Qed.

Lemma cstr_of_cstr s : Forall in_u8 s → cstr (cstr_of s).
Proof.
  unfold in_u8. induction 1 as [|b s Hb Hs IH]; simpl; [constructor|].
  case_bool_decide; constructor; [lia|done].
Qed.

(** ** Arrays: C's memmove / memcpy into a fixed array *)
Definition blit {A} (dst : nat) (src arr : list A) : list A :=
  take dst arr ++ src ++ drop (dst + length src) arr.

Lemma length_blit {A} dst (src arr : list A) :
  dst + length src ≤ length arr → length (blit dst src arr) = length arr.
Proof.
  intros. unfold blit. rewrite !length_app, length_take, length_drop. lia.
Qed.

Lemma lookup_blit {A} dst (src arr : list A) i :
  dst ≤ length arr →
  blit dst src arr !! i
  = if decide (i < dst) then arr !! i
    else if decide (i < dst + length src) then src !! (i - dst)
    else arr !! i.
Proof.
  intros Hd. unfold blit. rewrite lookup_app, lookup_take. case_decide as Hi.
  - assert (is_Some (arr !! i)) as [x Hx] by (apply lookup_lt_is_Some; lia). by rewrite Hx.
  - rewrite length_take, lookup_app, Nat.min_l by done. case_decide as Hj.
    + assert (is_Some (src !! (i - dst))) as [x Hx] by (apply lookup_lt_is_Some; lia).
      by rewrite Hx.
    + rewrite (lookup_ge_None_2 src) by lia. rewrite lookup_drop. f_equal. lia.
Qed.

Lemma take_blit0 {A} n (src arr : list A) :
  n ≤ length src → take n (blit 0 src arr) = take n src.
Proof. intros. unfold blit. simpl. by rewrite take_app_le. Qed.

(** The source and the destination of memcpy; a length or a position outside
    the object is undefined. *)
Definition mem_read (src : list Z) (off n : Z) : outcome (list Z) :=
  if bool_decide (0 <= off ∧ 0 <= n ∧ off + n <= Z.of_nat (length src))%Z
  then Ret (take (Z.to_nat n) (drop (Z.to_nat off) src)) else Fault.

Definition mem_write (dst : list Z) (off : Z) (bs : list Z) : outcome (list Z) :=
  if bool_decide (0 <= off ∧ off + Z.of_nat (length bs) <= Z.of_nat (length dst))%Z
  then Ret (blit (Z.to_nat off) bs dst) else Fault.

Definition memcpy (dst : list Z) (doff : Z) (src : list Z) (soff n : Z) : outcome (list Z) :=
  bs ← mem_read src soff n; mem_write dst doff bs.

(** The byte [b[i]]. *)
Definition get_cell (b : list Z) (i : Z) : outcome Z :=
  if bool_decide (0 <= i)%Z then deref (b !! Z.to_nat i) else Fault.

Lemma mem_read_ok src off n :
  (0 <= off)%Z → (0 <= n)%Z → (off + n <= Z.of_nat (length src))%Z →
  mem_read src off n = Ret (take (Z.to_nat n) (drop (Z.to_nat off) src)).
Proof. intros. unfold mem_read. by rewrite bool_decide_eq_true_2. Qed.

Lemma mem_write_ok dst off bs :
  (0 <= off)%Z → (off + Z.of_nat (length bs) <= Z.of_nat (length dst))%Z →
  ∃ b, mem_write dst off bs = Ret b ∧ length b = length dst ∧
    ∀ i : nat, b !! i = if decide (off <= Z.of_nat i < off + Z.of_nat (length bs))%Z
                        then bs !! (i - Z.to_nat off) else dst !! i.
Proof.
  intros. unfold mem_write. rewrite bool_decide_eq_true_2 by done.
  eexists. split; [done|]. split; [apply length_blit; lia|]. intros i.
  rewrite lookup_blit by lia. repeat case_decide; first [done | lia].
Qed.

(** Shift the tail of the first [num] elements up by one and store [x] at
    [idx]: the array insertion idiom of art.c. *)
Definition arr_insert {A} (num idx : nat) (x : A) (a : list A) : list A :=
  <[idx := x]> (blit (idx + 1) (take (num - idx) (drop idx a)) a).

Lemma length_arr_insert {A} num idx (x : A) a :
  idx ≤ num → num < length a → length (arr_insert num idx x a) = length a.
Proof.
  intros. unfold arr_insert. rewrite length_insert, length_blit; [done|].
  rewrite length_take, length_drop. lia.
Qed.

Lemma lookup_arr_insert {A} num idx (x : A) a i :
  idx ≤ num → num < length a →
  arr_insert num idx x a !! i
  = if decide (i < idx) then a !! i
    else if decide (i = idx) then Some x
    else if decide (i ≤ num) then a !! (i - 1) else a !! i.
Proof.
  intros. unfold arr_insert.
  assert (length (take (num - idx) (drop idx a)) = num - idx) as Hl
    by (rewrite length_take, length_drop; lia).
  destruct (decide (i = idx)) as [->|Hne].
  - rewrite decide_False by lia.
    apply list_lookup_insert_eq. rewrite length_blit; [lia|]. rewrite Hl. lia.
  - rewrite list_lookup_insert_ne by done. rewrite lookup_blit by lia. rewrite Hl.
    repeat case_decide; try lia; try done.
    rewrite lookup_take_lt, lookup_drop by lia. f_equal. lia.
Qed.

Lemma take_arr_insert {A} num idx (x : A) a :
  idx ≤ num → num < length a →
  take (num + 1) (arr_insert num idx x a) = take idx a ++ x :: drop idx (take num a).
Proof.
  intros. apply list_eq. intros i.
  destruct (decide (i < num + 1)).
  - rewrite lookup_take_lt by done. rewrite lookup_arr_insert by done.
    rewrite lookup_app, lookup_take.
    repeat case_decide; subst; try lia.
    + assert (is_Some (a !! i)) as [y Hy] by (apply lookup_lt_is_Some; lia). by rewrite Hy.
    + rewrite length_take, Nat.min_l by lia. by rewrite Nat.sub_diag.
    + rewrite length_take, Nat.min_l by lia.
      replace (i - idx) with (S (i - idx - 1)) by lia. simpl.
      rewrite lookup_drop, lookup_take_lt by lia. f_equal. lia.
  - rewrite lookup_take_ge by lia. symmetry. apply lookup_ge_None.
    rewrite length_app, length_take. simpl. rewrite length_drop, length_take. lia.
Qed.

Lemma take_arr_insert_perm {A} num idx (x : A) a :
  idx ≤ num → num < length a →
  take (num + 1) (arr_insert num idx x a) ≡ₚ x :: take num a.
Proof.
  intros. rewrite take_arr_insert by done. rewrite <-Permutation_middle.
  apply perm_skip. rewrite <-(take_drop idx (take num a)) at 2.
  by rewrite take_take, Nat.min_l by lia.
Qed.

(** A filtering map over the elements of a list that share its indices. *)
Lemma omap_NoDup_fst {A B C} (f : A → option (B * C)) (g : A → B) (l : list A) :
  (∀ a bc, f a = Some bc → bc.1 = g a) → Inj (=) (=) g → NoDup l → NoDup (omap f l).*1.
Proof.
  intros Hf Hg. induction 1 as [|a l Ha _ IH]; simpl; [constructor|].
  destruct (f a) as [bc|] eqn:Hfa; simpl; [|done]. constructor; [|done].
  intros ([b c] & Hb & (a' & Ha' & Hfa')%list_elem_of_omap)%list_elem_of_fmap.
  apply Hf in Hfa, Hfa'. simpl in *. rewrite Hfa, Hfa' in Hb.
  apply Hg in Hb as ->. done.
Qed.

(** ** Comparators

    The search structures order byte keys by a comparator; [KeyOrder P cmp]
    says that it is a strict order on the keys [P]. *)
Class KeyOrder (P : list Z → Prop) (cmp : list Z → list Z → Z) : Prop := {
  ko_refl a : P a → cmp a a = 0%Z;
  ko_eq a b : P a → P b → cmp a b = 0%Z → a = b;
  ko_gt a b : P a → P b → (cmp a b > 0)%Z ↔ (cmp b a < 0)%Z;
  ko_trans a b c : P a → P b → P c → (cmp a b < 0)%Z → (cmp b c < 0)%Z → (cmp a c < 0)%Z
}.

Section Ascending.
Context (cmp : list Z → list Z → Z) (P : list Z → Prop).
Definition ascending (l : list (list Z)) : Prop :=
  StronglySorted (λ a b, (cmp a b < 0)%Z) l ∧ Forall P l.

Lemma ascending_app l1 l2 :
  ascending (l1 ++ l2) ↔
  ascending l1 ∧ ascending l2 ∧ ∀ a b, a ∈ l1 → b ∈ l2 → (cmp a b < 0)%Z.
Proof. unfold ascending. rewrite StronglySorted_app, Forall_app. naive_solver. Qed.

(** The pairs of the map in ascending key order. *)
Definition sorted_pairs {V} (l : list (list Z * V)) (m : gmap (list Z) V) : Prop :=
  StronglySorted (λ a b, (cmp a b < 0)%Z) l.*1 ∧ list_to_map l = m.

Context `{!KeyOrder P cmp}.
Lemma ascending_NoDup l : ascending l → NoDup l.
Proof.
  intros [Hss HP]. induction Hss as [|a l Hss IH Hfa]; [constructor|].
  inversion HP; subst. constructor; [|by apply IH]. intros Hin.
  rewrite Forall_forall in Hfa. apply Hfa in Hin. rewrite ko_refl in Hin by done. lia.
Qed.

(** [a < b ≤ c] and [a ≤ b < c]. *)
Lemma ko_lt_le a b c : P a → P b → P c → (cmp a b < 0)%Z → (cmp b c <= 0)%Z → (cmp a c < 0)%Z.
Proof.
  intros Ha Hb Hc Hab Hbc. destruct (decide (cmp b c = 0%Z)) as [->%ko_eq|Hne]; [done..|].
  apply (ko_trans a b c); try done; lia.
Qed.
Lemma ko_le_lt a b c : P a → P b → P c → (cmp a b <= 0)%Z → (cmp b c < 0)%Z → (cmp a c < 0)%Z.
Proof.
  intros Ha Hb Hc Hab Hbc. destruct (decide (cmp a b = 0%Z)) as [<-%ko_eq|Hne]; [done..|].
  apply (ko_trans a b c); try done; lia.
Qed.

(** A key splits an ascending list at the first key above it, or at the first
    key not below it. *)
Lemma ascending_split_at {A} (f : A → list Z) (l : list A) (T : list Z → Prop) `{∀ k, Decision (T k)} :
  ascending (f <$> l) → (∀ a b, P a → P b → (cmp a b < 0)%Z → T b → T a) →
  ∃ l1 l2, l = l1 ++ l2 ∧ (∀ x, x ∈ l1 → T (f x)) ∧ (∀ x, x ∈ l2 → ¬ T (f x)).
Proof.
  intros Hs HT. induction l as [|a l IH].
  { exists [], []. split; [done|]. split; intros x Hx; by apply not_elem_of_nil in Hx. }
  destruct Hs as [Hss HP]. cbn in Hss, HP. inversion Hss as [|? ? Hss' Hfa]; subst. inversion HP as [|? ? Ha HP']; subst.
  destruct (decide (T (f a))) as [Hle|Hgt].
  - destruct (IH (conj Hss' HP')) as (l1 & l2 & -> & H1 & H2). exists (a :: l1), l2. split; [done|]. split; [|done].
    intros x [->|Hx]%elem_of_cons; auto.
  - exists [], (a :: l). split; [done|]. split; [intros x Hx; by apply not_elem_of_nil in Hx|].
    intros x [->|Hx]%elem_of_cons; [done|]. apply (list_elem_of_fmap_2 f) in Hx.
    rewrite Forall_forall in Hfa, HP'. intros Hx'. apply Hgt, (HT _ (f x)); auto.
Qed.
Lemma ascending_split {A} (f : A → list Z) (l : list A) k :
  ascending (f <$> l) → P k →
  ∃ l1 l2, l = l1 ++ l2 ∧ (∀ x, x ∈ l1 → (cmp (f x) k <= 0)%Z) ∧ (∀ x, x ∈ l2 → (cmp (f x) k > 0)%Z).
Proof.
  intros Hs Hk. destruct (ascending_split_at f l (λ k', cmp k' k <= 0)%Z Hs) as (l1 & l2 & Hl & H1 & H2).
  - intros a b Ha Hb Hab Hbk. apply Z.lt_le_incl, (ko_lt_le a b k); done.
  - exists l1, l2. split; [done|]. split; [done|]. intros x Hx%H2. lia.
Qed.
Lemma ascending_split_lt {A} (f : A → list Z) (l : list A) k :
  ascending (f <$> l) → P k →
  ∃ l1 l2, l = l1 ++ l2 ∧ (∀ x, x ∈ l1 → (cmp (f x) k < 0)%Z) ∧ (∀ x, x ∈ l2 → (cmp (f x) k >= 0)%Z).
Proof.
  intros Hs Hk. destruct (ascending_split_at f l (λ k', cmp k' k < 0)%Z Hs) as (l1 & l2 & Hl & H1 & H2).
  - intros a b Ha Hb Hab Hbk. by apply (ko_trans a b k).
  - exists l1, l2. split; [done|]. split; [done|]. intros x Hx%H2. lia.
Qed.
End Ascending.

(** ** Automation shared by the components *)
Ltac inv H := inversion H; clear H; simplify_eq/=.
Ltac des := repeat (case_match || case_bool_decide || case_decide); simplify_eq/=.

(** ** Counting the threads of a system: [cnt P ts] of the states [ts] satisfy [P], [has P ts] says that one does *)
Section Counting.
Context {A : Type}.
Implicit Types (P : A → bool) (ts : list A).
Definition cnt P ts : nat := length (filter (λ b, b = true) (P <$> ts)).
Definition has P ts : Prop := true ∈ (P <$> ts).

Lemma has_at P ts i x : ts !! i = Some x → P x = true → has P ts.
Proof. intros Hi Hx. unfold has. rewrite <-Hx. by apply list_elem_of_fmap_2, list_elem_of_lookup_2 with i. Qed.
Lemma has_inv P ts : has P ts → ∃ i x, ts !! i = Some x ∧ P x = true.
Proof. intros (x & Hx & [i Hi]%list_elem_of_lookup_1)%list_elem_of_fmap_1. eauto. Qed.
Lemma has_insert P ts i x y :
  ts !! i = Some x → (P x = true → P y = true) → has P ts → has P (<[i := y]> ts).
Proof.
  intros Hi Hxy (j & z & Hj & Hz)%has_inv. destruct (decide (i = j)) as [<-|Hne].
  - simplify_eq. eapply (has_at _ _ i y); [|auto]. apply list_lookup_insert_eq. by eapply lookup_lt_Some.
  - eapply (has_at _ _ j z); [|done]. by rewrite list_lookup_insert_ne.
Qed.
Lemma has_new P ts i x y : ts !! i = Some x → P y = true → has P (<[i := y]> ts).
Proof. intros Hi Hy. eapply has_at; [|done]. apply list_lookup_insert_eq. by eapply lookup_lt_Some. Qed.

Lemma split_at ts i x : ts !! i = Some x → ts = take i ts ++ x :: drop (S i) ts.
Proof. intros. symmetry. by apply take_drop_middle. Qed.
Lemma cnt_insert P ts i x y :
  ts !! i = Some x → cnt P (<[i := y]> ts) + Nat.b2n (P x) = cnt P ts + Nat.b2n (P y).
Proof.
  intros Hi. unfold cnt. rewrite (split_at ts i x Hi) at 2. rewrite insert_take_drop by (by eapply lookup_lt_Some).
  rewrite !fmap_app, !filter_app, !length_app, !fmap_cons, !filter_cons.
  destruct (P x), (P y); rewrite ?decide_True, ?decide_False by done; simpl; lia.
Qed.
Lemma cnt_zero P ts i x : cnt P ts = 0 → ts !! i = Some x → P x = false.
Proof.
  intros H0 Hi. destruct (P x) eqn:Hx; [|done].
  assert (true ∈ filter (λ b, b = true) (P <$> ts)) as Hin.
  { apply list_elem_of_filter. split; [done|]. by apply (has_at P ts i x). }
  unfold cnt in H0. apply nil_length_inv in H0. rewrite H0 in Hin. by apply not_elem_of_nil in Hin.
Qed.
Lemma cnt_has P ts : cnt P ts ≠ 0 → has P ts.
Proof.
  intros Hc. unfold cnt in Hc. destruct (filter _ _) as [|b l] eqn:Hf; [done|].
  assert (b ∈ filter (λ b, b = true) (P <$> ts)) as Hin by (rewrite Hf; by left).
  apply list_elem_of_filter in Hin as [-> Hin]. done.
Qed.
Lemma cnt_le P ts : cnt P ts ≤ length ts.
Proof. unfold cnt. etrans; [apply length_filter|]. by rewrite length_fmap. Qed.
Lemma cnt_none P ts : Forall (λ x, P x = false) ts → cnt P ts = 0.
Proof. unfold cnt. induction 1 as [|x ts Hx _ IH]; [done|]. cbn. by rewrite Hx. Qed.
End Counting.
