(* ===== verification/Art.v ===== *)
(** * Adaptive radix tree: data and operations (src/index/art/art.c)

    The four node layouts of art.h are one constructor [Node] carrying the
    header (the C [type] tag included), the raw [keys] array and the raw
    [children] array at their C lengths, stale entries included.  [NULL] is
    [None]; a leaf pointer (low bit tagged in C) is the constructor [Leaf].
    The operations that update [*ref] return the node that [*ref] points to
    afterwards.  Reads the C code performs without a bounds or null check are
    [outcome]s, so that "does not fault" is part of the theorems.

    The parameter [oob] stands for the bytes of the caller's memory behind
    the terminating NUL of a key: [art_search] can read [key[depth]] there. *)
From S2P Require Import Prelude.

Definition MAX_PREFIX_LEN : nat := 10.

Inductive node_type := NODE4 | NODE16 | NODE48 | NODE256.
#[export] Instance node_type_eq_dec : EqDecision node_type.
Proof. solve_decision. Defined.

(** Lengths of the [keys] and [children] arrays of each layout. *)
Definition keys_cap (t : node_type) : nat :=
  match t with NODE4 => 4 | NODE16 => 16 | NODE48 => 256 | NODE256 => 0 end.
Definition children_cap (t : node_type) : nat :=
  match t with NODE4 => 4 | NODE16 => 16 | NODE48 => 48 | NODE256 => 256 end.

(** struct art_node: the header shared by all node sizes. *)
Record art_hdr := mk_hdr {
  type : node_type;
  num_children : nat;
  partial_len : nat;
  partial : list Z
}.

(** uint8_t arithmetic on [num_children]. *)
Definition incr8 (n : nat) : nat := (n + 1) `mod` 256.
Definition decr8 (n : nat) : nat := (n + 255) `mod` 256.

(** for (; idx < idx + n; idx++) if (f[idx] != g[idx]) return idx; *)
Fixpoint mismatch (f g : nat → Z) (idx n : nat) : nat :=
  match n with
  | O => idx
  | S n => if bool_decide (f idx = g idx) then mismatch f g (S idx) n else idx
  end.

(** Index of the first element satisfying [p]. *)
Fixpoint index_of {A} (p : A → bool) (l : list A) : option nat :=
  match l with
  | [] => None
  | x :: l => if p x then Some 0 else S <$> index_of p l
  end.

(** _mm_movemask_epi8 of a lane-wise comparison: bit i is [p keys[i]]. *)
Fixpoint movemask (p : Z → bool) (keys : list Z) : Z :=
  match keys with
  | [] => 0
  | k :: keys => Z.lor (Z.b2z (p k)) (Z.shiftl (movemask p keys) 1)
  end.

(** __builtin_ctz on a non-zero operand. *)
Fixpoint ctz_pos (p : positive) : nat :=
  match p with xO p => S (ctz_pos p) | _ => 0 end.
Definition ctz (x : Z) : nat :=
  match x with Zpos p => ctz_pos p | _ => 0 end.

(** A byte read as a signed char, as _mm_cmplt_epi8 does. *)
Definition schar (c : Z) : Z := if bool_decide (c < 128)%Z then c else (c - 256)%Z.

(** The loop body applied to children[i]: [d] for a null pointer. *)
Definition at_child {A B} (f : A → B) (d : B) :=
  fix at_child (l : list (option A)) (i : nat) {struct l} : B :=
    match l, i with
    | [], _ => d
    | None :: _, O => d
    | Some a :: _, O => f a
    | _ :: l, S i => at_child l i
    end.

Section Art.
Context {V : Type}.

Record art_leaf := make_leaf { leaf_value : V; leaf_key : list Z }.

Inductive art_node :=
| Leaf (l : art_leaf)
| Node (n : art_hdr) (keys : list Z) (children : list (option art_node)).

Record art_tree := mk_tree { root : option art_node; tree_size : Z }.

Definition alloc_node (t : node_type) : art_hdr * list Z * list (option art_node) :=
  (mk_hdr t 0 0 (replicate MAX_PREFIX_LEN 0%Z),
   replicate (keys_cap t) 0%Z,
   replicate (children_cap t) None).

Definition art_tree_init : art_tree := mk_tree None 0.
Definition art_size (t : art_tree) : Z := tree_size t.

(** ** Child lookup *)
Definition find_child (n : art_hdr) (keys : list Z) (children : list (option art_node))
    (c : Z) : option nat :=
  match type n with
  | NODE4 => index_of (λ k, bool_decide (k = c)) (take (num_children n) keys)
  | NODE16 =>
      let mask := (Z.shiftl 1 (Z.of_nat (num_children n)) - 1)%Z in
      let bitfield := Z.land (movemask (λ k, bool_decide (c = k)) keys) mask in
      if bool_decide (bitfield = 0%Z) then None else Some (ctz bitfield)
  | NODE48 =>
      let i := nth (Z.to_nat c) keys 0%Z in
      if bool_decide (i = 0%Z) then None else Some (Z.to_nat (i - 1))
  | NODE256 =>
      match children !! Z.to_nat c with
      | Some (Some _) => Some (Z.to_nat c)
      | _ => None
      end
  end.

(** ** Key bytes *)
Context (oob : list Z → nat → Z).

(** key[i] for a NUL-terminated key of length key_len. *)
Definition key_at (key : list Z) (i : nat) : Z :=
  if bool_decide (i < length key) then nth i key 0%Z
  else if bool_decide (i = length key) then 0%Z
  else u8 (oob key i).

(** l->key[i]; the bytes behind the key in a leaf are zero (calloc). *)
Definition leaf_at (l : art_leaf) (i : nat) : Z := nth i (leaf_key l) 0%Z.

Definition check_prefix (n : art_hdr) (key : list Z) (depth : nat) : nat :=
  let max_cmp := min (min (partial_len n) MAX_PREFIX_LEN) (length key - depth) in
  mismatch (λ i, nth i (partial n) 0%Z) (λ i, key_at key (depth + i)) 0 max_cmp.

(** leaf_matches returns 0 (here [true]) on success. *)
Definition leaf_matches (l : art_leaf) (key : list Z) : bool :=
  bool_decide (length (leaf_key l) = length key) && bool_decide (leaf_key l = key).

(** ** Search: the while loop of art_search, one iteration per node *)
Fixpoint search_loop (n : art_node) (key : list Z) (depth : nat) : option V :=
  match n with
  | Leaf l => if leaf_matches l key then Some (leaf_value l) else None
  | Node n keys children =>
      if bool_decide (partial_len n ≠ 0)
         && bool_decide (check_prefix n key depth ≠ min MAX_PREFIX_LEN (partial_len n))
      then None
      else
        let depth := depth + partial_len n in
        match find_child n keys children (key_at key depth) with
        | Some i => at_child (λ m : art_node, search_loop m key (S depth)) None children i
        | None => None
        end
  end.

Definition art_search (t : art_tree) (key : list Z) : option V :=
  match root t with
  | None => None
  | Some n => search_loop n key 0
  end.

(** ** Minimum and maximum leaves *)
Fixpoint minimum (n : art_node) : option art_leaf :=
  match n with
  | Leaf l => Some l
  | Node n keys children =>
      match type n with
      | NODE4 | NODE16 => at_child minimum None children 0
      | NODE48 =>
          match index_of (λ k, bool_decide (k ≠ 0%Z)) keys with
          | Some idx =>
              at_child minimum None children (Z.to_nat (nth idx keys 0%Z - 1))
          | None => None
          end
      | NODE256 =>
          match index_of (λ o : option art_node, if o then true else false) children with
          | Some idx => at_child minimum None children idx
          | None => None
          end
      end
  end.

(** Index of the last element satisfying [p]. *)
Definition last_index_of {A} (p : A → bool) (l : list A) : option nat :=
  (λ i, length l - 1 - i) <$> index_of p (reverse l).

Fixpoint maximum (n : art_node) : option art_leaf :=
  match n with
  | Leaf l => Some l
  | Node n keys children =>
      match type n with
      | NODE4 | NODE16 => at_child maximum None children (num_children n - 1)
      | NODE48 =>
          match last_index_of (λ k, bool_decide (k ≠ 0%Z)) keys with
          | Some idx =>
              at_child maximum None children (Z.to_nat (nth idx keys 0%Z - 1))
          | None => None
          end
      | NODE256 =>
          match last_index_of (λ o : option art_node, if o then true else false) children with
          | Some idx => at_child maximum None children idx
          | None => None
          end
      end
  end.

Definition art_minimum (t : art_tree) : option art_leaf := root t ≫= minimum.
Definition art_maximum (t : art_tree) : option art_leaf := root t ≫= maximum.

(** ** Insertion *)
Definition longest_common_prefix (l1 l2 : art_leaf) (depth : nat) : nat :=
  let max_cmp := min (length (leaf_key l1)) (length (leaf_key l2)) - depth in
  mismatch (λ i, leaf_at l1 (depth + i)) (λ i, leaf_at l2 (depth + i)) 0 max_cmp.

(** copy_header into a freshly allocated (zeroed) node of type [t]. *)
Definition copy_header (dest src : art_hdr) : art_hdr :=
  mk_hdr (type dest) (num_children src) (partial_len src)
    (blit 0 (take (min MAX_PREFIX_LEN (partial_len src)) (partial src)) (partial dest)).

Definition set_num (n : art_hdr) (k : nat) : art_hdr :=
  mk_hdr (type n) k (partial_len n) (partial n).

Definition add_child256 (n : art_hdr) (keys : list Z) (children : list (option art_node))
    (c : Z) (child : art_node) : outcome art_node :=
  Ret (Node (set_num n (incr8 (num_children n))) keys
         (<[Z.to_nat c := Some child]> children)).

Definition add_child48 (n : art_hdr) (keys : list Z) (children : list (option art_node))
    (c : Z) (child : art_node) : outcome art_node :=
  if bool_decide (num_children n < 48) then
    pos ← deref (index_of (λ o : option art_node, if o then false else true) children);
    Ret (Node (set_num n (incr8 (num_children n)))
           (<[Z.to_nat c := (Z.of_nat pos + 1)%Z]> keys)
           (<[pos := Some child]> children))
  else
    let '(hd, ks, cs) := alloc_node NODE256 in
    let cs := imap (λ i o,
      let k := nth i keys 0%Z in
      if bool_decide (k = 0%Z) then o else nth (Z.to_nat (k - 1)) children None) cs in
    add_child256 (copy_header hd n) ks cs c child.

Definition add_child16 (n : art_hdr) (keys : list Z) (children : list (option art_node))
    (c : Z) (child : art_node) : outcome art_node :=
  let num := num_children n in
  if bool_decide (num < 16) then
    let mask := (Z.shiftl 1 (Z.of_nat num) - 1)%Z in
    let bitfield :=
      Z.land (movemask (λ k, bool_decide (schar c < schar k)%Z) keys) mask in
    let idx := if bool_decide (bitfield ≠ 0%Z) then ctz bitfield else num in
    let keys := if bool_decide (bitfield ≠ 0%Z)
      then blit (idx + 1) (take (num - idx) (drop idx keys)) keys else keys in
    let children := if bool_decide (bitfield ≠ 0%Z)
      then blit (idx + 1) (take (num - idx) (drop idx children)) children else children in
    Ret (Node (set_num n (incr8 num)) (<[idx := c]> keys) (<[idx := Some child]> children))
  else
    let '(hd, ks, cs) := alloc_node NODE48 in
    let cs := blit 0 (take num children) cs in
    let ks := foldl (λ ks i, <[Z.to_nat (nth i keys 0%Z) := (Z.of_nat i + 1)%Z]> ks)
                ks (seq 0 num) in
    add_child48 (copy_header hd n) ks cs c child.

Definition add_child4 (n : art_hdr) (keys : list Z) (children : list (option art_node))
    (c : Z) (child : art_node) : outcome art_node :=
  let num := num_children n in
  if bool_decide (num < 4) then
    let idx := default num (index_of (λ k, bool_decide (c < k)%Z) (take num keys)) in
    let keys := blit (idx + 1) (take (num - idx) (drop idx keys)) keys in
    let children := blit (idx + 1) (take (num - idx) (drop idx children)) children in
    Ret (Node (set_num n (incr8 num)) (<[idx := c]> keys) (<[idx := Some child]> children))
  else
    let '(hd, ks, cs) := alloc_node NODE16 in
    let cs := blit 0 (take num children) cs in
    let ks := blit 0 (take num keys) ks in
    add_child16 (copy_header hd n) ks cs c child.

Definition add_child (n : art_hdr) (keys : list Z) (children : list (option art_node))
    (c : Z) (child : art_node) : outcome art_node :=
  match type n with
  | NODE4 => add_child4 n keys children c child
  | NODE16 => add_child16 n keys children c child
  | NODE48 => add_child48 n keys children c child
  | NODE256 => add_child256 n keys children c child
  end.

(** Index at which the key leaves the compressed path of an inner node. *)
Definition prefix_mismatch (n : art_hdr) (keys : list Z) (children : list (option art_node))
    (key : list Z) (depth : nat) : outcome nat :=
  let max_cmp := min (min MAX_PREFIX_LEN (partial_len n)) (length key - depth) in
  let idx := mismatch (λ i, nth i (partial n) 0%Z) (λ i, key_at key (depth + i)) 0 max_cmp in
  if bool_decide (idx < max_cmp) then Ret idx
  else if bool_decide (MAX_PREFIX_LEN < partial_len n) then
    l ← deref (minimum (Node n keys children));
    let max_cmp := min (length (leaf_key l)) (length key) - depth in
    Ret (mismatch (λ i, leaf_at l (i + depth)) (λ i, key_at key (depth + i))
           idx (max_cmp - idx))
  else Ret idx.

(** add_child4 on a freshly built inner node given as an [art_node]. *)
Definition add_child4_node (n : art_node) (c : Z) (child : art_node) : outcome art_node :=
  match n with
  | Node n keys children => add_child4 n keys children c child
  | Leaf _ => Fault
  end.

Definition set_partial (n : art_hdr) (len : nat) (p : list Z) : art_hdr :=
  mk_hdr (type n) (num_children n) len p.

(** Splitting a leaf whose key differs into a NODE4 holding both leaves. *)
Definition split_leaf (l : art_leaf) (key : list Z) (value : V) (depth : nat)
    : outcome art_node :=
  let '(hd, ks, cs) := alloc_node NODE4 in
  let l2 := make_leaf value key in
  let longest_prefix := longest_common_prefix l l2 depth in
  let hd := set_partial hd longest_prefix
    (blit 0 (take (min MAX_PREFIX_LEN longest_prefix) (drop depth key)) (partial hd)) in
  new_node ← add_child4 hd ks cs (leaf_at l (depth + longest_prefix)) (Leaf l);
  add_child4_node new_node (leaf_at l2 (depth + longest_prefix)) (Leaf l2).

(** Splitting the compressed path of an inner node at [prefix_diff]. *)
Definition split_prefix (n : art_hdr) (keys : list Z) (children : list (option art_node))
    (key : list Z) (value : V) (depth prefix_diff : nat) : outcome art_node :=
  let '(hd, ks, cs) := alloc_node NODE4 in
  let hd := set_partial hd prefix_diff
    (blit 0 (take (min MAX_PREFIX_LEN prefix_diff) (partial n)) (partial hd)) in
  let len' := partial_len n - (prefix_diff + 1) in
  new_node ←
    (if bool_decide (partial_len n ≤ MAX_PREFIX_LEN) then
       let n' := set_partial n len'
         (blit 0 (take (min MAX_PREFIX_LEN len') (drop (prefix_diff + 1) (partial n)))
            (partial n)) in
       add_child4 hd ks cs (nth prefix_diff (partial n) 0%Z) (Node n' keys children)
     else
       l ← deref (minimum (Node n keys children));
       let n' := set_partial n len'
         (blit 0 (take (min MAX_PREFIX_LEN len') (drop (depth + prefix_diff + 1) (leaf_key l)))
            (partial n)) in
       add_child4 hd ks cs (leaf_at l (depth + prefix_diff)) (Node n' keys children));
  add_child4_node new_node (key_at key (depth + prefix_diff)) (Leaf (make_leaf value key)).

(** recursive_insert on a non-null node: the node [*ref] points to
    afterwards, and the replaced value ([Some] iff [*old] was set). *)
Fixpoint recursive_insert (n : art_node) (key : list Z) (value : V) (depth : nat)
    : outcome (art_node * option V) :=
  match n with
  | Leaf l =>
      if leaf_matches l key then
        Ret (Leaf (make_leaf value (leaf_key l)), Some (leaf_value l))
      else
        new_node ← split_leaf l key value depth;
        Ret (new_node, None)
  | Node n keys children =>
      prefix_diff ← (if bool_decide (partial_len n ≠ 0)
                     then prefix_mismatch n keys children key depth else Ret 0);
      if bool_decide (partial_len n ≠ 0) && bool_decide (prefix_diff < partial_len n) then
        new_node ← split_prefix n keys children key value depth prefix_diff;
        Ret (new_node, None)
      else
        let depth := depth + partial_len n in
        match find_child n keys children (key_at key depth) with
        | Some i =>
            '(child, old) ←
              at_child (λ m : art_node, recursive_insert m key value (S depth))
                (Ret (Leaf (make_leaf value key), None)) children i;
            Ret (Node n keys (<[i := Some child]> children), old)
        | None =>
            n' ← add_child n keys children (key_at key depth) (Leaf (make_leaf value key));
            Ret (n', None)
        end
  end.

Definition art_insert (t : art_tree) (key : list Z) (value : V)
    : outcome (art_tree * option V) :=
  match root t with
  | None => Ret (mk_tree (Some (Leaf (make_leaf value key))) (u64 (tree_size t + 1)), None)
  | Some n =>
      '(n', old) ← recursive_insert n key value 0;
      Ret (mk_tree (Some n')
             (match old with Some _ => tree_size t | None => u64 (tree_size t + 1) end), old)
  end.

(** ** Iteration *)

(** The (byte, index into children) pairs a node's loops visit, in order. *)
Definition child_slots (n : art_hdr) (keys : list Z) (children : list (option art_node))
    : list (Z * nat) :=
  match type n with
  | NODE4 | NODE16 => imap (λ i k, (k, i)) (take (num_children n) keys)
  | NODE48 =>
      omap (λ i, let k := nth i keys 0%Z in
                 if bool_decide (k = 0%Z) then None
                 else Some (Z.of_nat i, Z.to_nat (k - 1))) (seq 0 256)
  | NODE256 =>
      omap (λ i, match children !! i with
                 | Some (Some _) => Some (Z.of_nat i, i)
                 | _ => None
                 end) (seq 0 256)
  end.

(** recursive_iter: the callback threads the caller's data and stops the
    iteration by returning a non-zero value. *)
Fixpoint recursive_iter {D} (cb : D → list Z → V → D * Z) (n : art_node) (data : D) : D * Z :=
  match n with
  | Leaf l => cb data (leaf_key l) (leaf_value l)
  | Node n keys children =>
      (fix loop (slots : list (Z * nat)) (data : D) : D * Z :=
         match slots with
         | [] => (data, 0%Z)
         | (_, i) :: slots =>
             let '(data, res) := at_child (λ m : art_node, recursive_iter cb m data) (data, 0%Z) children i in
             if bool_decide (res ≠ 0%Z) then (data, res) else loop slots data
         end) (child_slots n keys children) data
  end.

Definition art_iter {D} (t : art_tree) (cb : D → list Z → V → D * Z) (data : D) : D * Z :=
  match root t with
  | None => (data, 0%Z)
  | Some n => recursive_iter cb n data
  end.

Definition leaf_prefix_matches (l : art_leaf) (prefix : list Z) : bool :=
  bool_decide (length prefix ≤ length (leaf_key l))
  && bool_decide (take (length prefix) (leaf_key l) = prefix).

Fixpoint iter_prefix_loop {D} (cb : D → list Z → V → D * Z) (n : art_node)
    (key : list Z) (depth : nat) (data : D) : outcome (D * Z) :=
  match n with
  | Leaf l =>
      Ret (if leaf_prefix_matches l key then cb data (leaf_key l) (leaf_value l)
           else (data, 0%Z))
  | Node n keys children =>
      let descend := λ depth,
        match find_child n keys children (key_at key depth) with
        | Some i =>
            at_child (λ m : art_node, iter_prefix_loop cb m key (S depth) data)
              (Ret (data, 0%Z)) children i
        | None => Ret (data, 0%Z)
        end in
      if bool_decide (depth = length key) then
        l ← deref (minimum (Node n keys children));
        Ret (if leaf_prefix_matches l key then recursive_iter cb (Node n keys children) data
             else (data, 0%Z))
      else if bool_decide (partial_len n ≠ 0) then
        prefix_len ← prefix_mismatch n keys children key depth;
        let prefix_len := min prefix_len (partial_len n) in
        if bool_decide (prefix_len = 0) then Ret (data, 0%Z)
        else if bool_decide (depth + prefix_len = length key) then
          Ret (recursive_iter cb (Node n keys children) data)
        else descend (depth + partial_len n)
      else descend depth
  end.

Definition art_iter_prefix {D} (t : art_tree) (key : list Z)
    (cb : D → list Z → V → D * Z) (data : D) : outcome (D * Z) :=
  match root t with
  | None => Ret (data, 0%Z)
  | Some n => iter_prefix_loop cb n key 0 data
  end.

Definition size_incr (size : Z) (key : list Z) (value : V) : Z * Z := (u64 (size + 1), 0%Z).
Definition art_iter_size (t : art_tree) : Z := (art_iter t size_incr 0%Z).1.
Definition art_iter_prefix_size (t : art_tree) (prefix : list Z) : outcome Z :=
  '(size, _) ← art_iter_prefix t prefix size_incr 0%Z; Ret size.

(** ** Deletion *)
Definition remove_child256 (n : art_hdr) (keys : list Z) (children : list (option art_node))
    (c : Z) : art_node :=
  let children := <[Z.to_nat c := None]> children in
  let n := set_num n (decr8 (num_children n)) in
  if bool_decide (num_children n = 37) then
    let '(hd, ks, cs) := alloc_node NODE48 in
    let '(ks, cs, _) :=
      foldl (λ '(ks, cs, pos) i,
        match children !! i with
        | Some (Some m) => (<[i := (Z.of_nat pos + 1)%Z]> ks, <[pos := Some m]> cs, S pos)
        | _ => (ks, cs, pos)
        end) (ks, cs, 0) (seq 0 256) in
    Node (copy_header hd n) ks cs
  else Node n keys children.

Definition remove_child48 (n : art_hdr) (keys : list Z) (children : list (option art_node))
    (c : Z) : art_node :=
  let pos := nth (Z.to_nat c) keys 0%Z in
  let keys := <[Z.to_nat c := 0%Z]> keys in
  let children := <[Z.to_nat (pos - 1) := None]> children in
  let n := set_num n (decr8 (num_children n)) in
  if bool_decide (num_children n = 12) then
    let '(hd, ks, cs) := alloc_node NODE16 in
    let '(ks, cs, _) :=
      foldl (λ '(ks, cs, child) i,
        let pos := nth i keys 0%Z in
        if bool_decide (pos = 0%Z) then (ks, cs, child)
        else (<[child := Z.of_nat i]> ks,
              <[child := nth (Z.to_nat (pos - 1)) children None]> cs, S child))
        (ks, cs, 0) (seq 0 256) in
    Node (copy_header hd n) ks cs
  else Node n keys children.

(** memmove(a+pos, a+pos+1, num-1-pos) *)
Definition shift_down {A} (num pos : nat) (a : list A) : list A :=
  blit pos (take (num - 1 - pos) (drop (pos + 1) a)) a.

Definition remove_child16 (n : art_hdr) (keys : list Z) (children : list (option art_node))
    (pos : nat) : art_node :=
  let keys := shift_down (num_children n) pos keys in
  let children := shift_down (num_children n) pos children in
  let n := set_num n (decr8 (num_children n)) in
  if bool_decide (num_children n = 3) then
    let '(hd, ks, cs) := alloc_node NODE4 in
    Node (copy_header hd n) (blit 0 (take 4 keys) ks) (blit 0 (take 4 children) cs)
  else Node n keys children.

(** The compressed path of the only remaining child of a NODE4, extended by
    the node's own path and the byte leading to it. *)
Definition concat_prefix (n child : art_hdr) (key0 : Z) : art_hdr :=
  let prefix := partial_len n in
  let p := partial n in
  let '(p, prefix) := if bool_decide (prefix < MAX_PREFIX_LEN)
    then (<[prefix := key0]> p, prefix + 1) else (p, prefix) in
  let '(p, prefix) := if bool_decide (prefix < MAX_PREFIX_LEN)
    then let sub_prefix := min (partial_len child) (MAX_PREFIX_LEN - prefix) in
         (blit prefix (take sub_prefix (partial child)) p, prefix + sub_prefix)
    else (p, prefix) in
  set_partial child (partial_len child + (partial_len n + 1))
    (blit 0 (take (min prefix MAX_PREFIX_LEN) p) (partial child)).

Definition remove_child4 (n : art_hdr) (keys : list Z) (children : list (option art_node))
    (pos : nat) : outcome art_node :=
  let keys := shift_down (num_children n) pos keys in
  let children := shift_down (num_children n) pos children in
  let n := set_num n (decr8 (num_children n)) in
  if bool_decide (num_children n = 1) then
    child ← deref (mjoin (children !! 0));
    match child with
    | Leaf l => Ret (Leaf l)
    | Node m ks cs => Ret (Node (concat_prefix n m (nth 0 keys 0%Z)) ks cs)
    end
  else Ret (Node n keys children).

Definition remove_child (n : art_hdr) (keys : list Z) (children : list (option art_node))
    (c : Z) (l : nat) : outcome art_node :=
  match type n with
  | NODE4 => remove_child4 n keys children l
  | NODE16 => Ret (remove_child16 n keys children l)
  | NODE48 => Ret (remove_child48 n keys children c)
  | NODE256 => Ret (remove_child256 n keys children c)
  end.

(** recursive_delete on a non-null node: the node [*ref] points to
    afterwards ([None] for null) and the detached leaf, if any. *)
Fixpoint recursive_delete (n : art_node) (key : list Z) (depth : nat)
    : outcome (option art_node * option art_leaf) :=
  match n with
  | Leaf l => Ret (if leaf_matches l key then (None, Some l) else (Some (Leaf l), None))
  | Node n keys children =>
      if bool_decide (partial_len n ≠ 0)
         && bool_decide (check_prefix n key depth ≠ min MAX_PREFIX_LEN (partial_len n))
      then Ret (Some (Node n keys children), None)
      else
        let depth := depth + partial_len n in
        match find_child n keys children (key_at key depth) with
        | None => Ret (Some (Node n keys children), None)
        | Some i =>
            at_child (λ m : art_node,
              match m with
              | Leaf l =>
                  if leaf_matches l key then
                    n' ← remove_child n keys children (key_at key depth) i;
                    Ret (Some n', Some l)
                  else Ret (Some (Node n keys children), None)
              | Node _ _ _ =>
                  '(child, l) ← recursive_delete m key (S depth);
                  Ret (Some (Node n keys (<[i := child]> children)), l)
              end) (Ret (Some (Node n keys children), None)) children i
        end
  end.

Definition art_delete (t : art_tree) (key : list Z) : outcome (art_tree * option V) :=
  match root t with
  | None => Ret (t, None)
  | Some n =>
      '(n', l) ← recursive_delete n key 0;
      match l with
      | Some l => Ret (mk_tree n' (u64 (tree_size t - 1)), Some (leaf_value l))
      | None => Ret (mk_tree n' (tree_size t), None)
      end
  end.

(** ** Destruction: the nodes handed to free, in order *)
Fixpoint destroy_node (n : art_node) : list art_node :=
  match n with
  | Leaf l => [Leaf l]
  | Node n keys children =>
      mjoin ((λ s : Z * nat, at_child destroy_node [] children s.2) <$> child_slots n keys children) ++ [Node n keys children]
  end.
Definition art_tree_destroy (t : art_tree) : list art_node * Z :=
  (match root t with None => [] | Some n => destroy_node n end, 0%Z).

End Art.

Arguments art_leaf : clear implicits.
Arguments art_node : clear implicits.
Arguments art_tree : clear implicits.
