(* ===== verification/ArtNode.v ===== *)
(** * Adaptive radix tree: the node layouts implement byte-indexed maps

    [entries] lists the (byte, child) pairs of an inner node in the order
    [recursive_iter] visits them; [node_ok] is the representation invariant of
    the four layouts.  The lemmas state what [find_child], the in-place child
    update, [add_child] (with its growth 4 -> 16 -> 48 -> 256) and
    [remove_child] (with its shrinking) do to [entries]. *)
From S2P Require Import Prelude Art.

(** ** Bit scans: SSE mask plus ctz is a first-index search *)

Lemma testbit_movemask p keys (i : nat) :
  Z.testbit (movemask p keys) (Z.of_nat i)
  = match keys !! i with Some k => p k | None => false end.
Proof.
  revert i. induction keys as [|k keys IH]; intros i.
  - simpl. apply Z.bits_0.
  - simpl movemask. rewrite Z.lor_spec. destruct i as [|i]; simpl lookup.
    + rewrite Z.shiftl_spec_low by lia. destruct (p k); done.
    + rewrite Z.shiftl_spec by lia.
      replace (Z.of_nat (S i) - 1)%Z with (Z.of_nat i) by lia. rewrite IH.
      assert (Z.testbit (Z.b2z (p k)) (Z.of_nat (S i)) = false) as ->; [|done].
      destruct (p k); [|apply Z.bits_0].
      replace (Z.of_nat (S i)) with (Z.succ (Z.of_nat i)) by lia.
      change (Z.b2z true) with (2 * 0 + 1)%Z.
      rewrite Z.testbit_odd_succ by lia. apply Z.bits_0.
Qed.

Lemma ctz_pos_spec p :
  Pos.testbit p (N.of_nat (ctz_pos p)) = true
  ∧ ∀ j, j < ctz_pos p → Pos.testbit p (N.of_nat j) = false.
Proof.
  induction p as [p _|p [IH1 IH2]|]; simpl; [split; [done|lia]| |split; [done|lia]].
  split.
  - replace (Pos.of_succ_nat (ctz_pos p)) with (N.succ_pos (N.of_nat (ctz_pos p))) by lia.
    rewrite N.pos_pred_succ. done.
  - intros [|j] Hj; [done|]. simpl.
    replace (Pos.of_succ_nat j) with (N.succ_pos (N.of_nat j)) by lia.
    rewrite N.pos_pred_succ. apply IH2. lia.
Qed.

Lemma ctz_spec x :
  (0 < x)%Z →
  Z.testbit x (Z.of_nat (ctz x)) = true
  ∧ ∀ j, j < ctz x → Z.testbit x (Z.of_nat j) = false.
Proof.
  intros Hx. destruct x as [|p|p]; try lia.
  destruct (ctz_pos_spec p) as [H1 H2].
  assert (Htb : ∀ n, Z.testbit (Zpos p) (Z.of_nat n) = Pos.testbit p (N.of_nat n)).
  { intros n. rewrite <-nat_N_Z. apply (Z.testbit_of_N (Npos p)). }
  simpl ctz. split; [by rewrite Htb|]. intros j Hj. rewrite Htb. auto.
Qed.

Lemma index_of_Some {A} (p : A → bool) l i :
  index_of p l = Some i ↔
  (∃ x, l !! i = Some x ∧ p x = true) ∧ ∀ j x, j < i → l !! j = Some x → p x = false.
Proof.
  revert i. induction l as [|y l IH]; intros i; simpl.
  - split; [done|]. intros [(x & Hx & _) _]. done.
  - destruct (p y) eqn:Hy.
    + split.
      * intros [= <-]. split; [by exists y|]. intros j x Hj. lia.
      * intros [_ H]. destruct i as [|i]; [done|].
        exfalso. specialize (H 0 y). rewrite H in Hy; [done|lia|done].
    + split.
      * intros (i' & Hi & ->)%fmap_Some. apply IH in Hi as [(x & Hx & Hpx) H].
        split; [by exists x|]. intros [|j] z Hj Hz; simplify_eq/=; [done|].
        apply (H j); [lia|done].
      * intros [(x & Hx & Hpx) H]. destruct i as [|i]; simplify_eq/=; [congruence|].
        assert (index_of p l = Some i) as ->; [|done].
        apply IH. split; [by exists x|]. intros j z Hj Hz. apply (H (S j)); [lia|done].
Qed.

Lemma index_of_None {A} (p : A → bool) l :
  index_of p l = None ↔ ∀ x, x ∈ l → p x = false.
Proof.
  induction l as [|y l IH]; simpl.
  - split; [|done]. intros _ x Hx. by apply not_elem_of_nil in Hx.
  - destruct (p y) eqn:Hy; split.
    + done.
    + intros H. specialize (H y). rewrite H in Hy; [done|left].
    + intros H%fmap_None x [->|Hx]%elem_of_cons; [done|]. by apply IH.
    + intros H. apply fmap_None, IH. intros x Hx. apply H. by right.
Qed.

Lemma index_of_lt {A} (p : A → bool) l i : index_of p l = Some i → i < length l.
Proof. intros [(x & Hx & _) _]%index_of_Some. by eapply lookup_lt_Some. Qed.

(** The masked bit field of [find_child] / [add_child16] scanned with ctz. *)
Lemma testbit_masked p keys (n i : nat) :
  Z.testbit (Z.land (movemask p keys) (Z.shiftl 1 (Z.of_nat n) - 1)) (Z.of_nat i)
  = match take n keys !! i with Some k => p k | None => false end.
Proof.
  rewrite Z.land_spec, testbit_movemask, Z.shiftl_1_l, Z.sub_1_r, <-Z.ones_equiv.
  destruct (decide (i < n)).
  - rewrite Z.ones_spec_low by lia. rewrite lookup_take_lt by done.
    by rewrite andb_true_r.
  - rewrite Z.ones_spec_high by lia. rewrite lookup_take_ge by lia.
    by rewrite andb_false_r.
Qed.

Lemma masked_ctz p keys (n : nat) :
  let bitfield := Z.land (movemask p keys) (Z.shiftl 1 (Z.of_nat n) - 1) in
  (if bool_decide (bitfield = 0%Z) then None else Some (ctz bitfield))
  = index_of p (take n keys).
Proof.
  intros b. pose proof (testbit_masked p keys n) as Hb. fold b in Hb.
  assert (0 ≤ b)%Z as Hpos.
  { subst b. apply Z.land_nonneg. right. rewrite Z.shiftl_1_l.
    pose proof (Z.pow_pos_nonneg 2 (Z.of_nat n)). lia. }
  case_bool_decide as H0.
  - symmetry. apply index_of_None. intros x [i Hi]%list_elem_of_lookup.
    specialize (Hb i). by rewrite Hi, H0, Z.bits_0 in Hb.
  - symmetry. destruct (ctz_spec b) as [H1 H2]; [lia|].
    apply index_of_Some. split.
    + rewrite Hb in H1. destruct (take n keys !! ctz b) as [k|]; [by exists k|done].
    + intros j x Hj Hx. specialize (H2 j Hj). rewrite Hb, Hx in H2. done.
Qed.

Section Node.
Context {V : Type}.
Implicit Types (n : art_hdr) (keys : list Z) (children : list (option (art_node V))).

(** ** The abstract view of an inner node *)
Definition slot_entry children (s : Z * nat) : option (Z * art_node V) :=
  match children !! s.2 with Some (Some m) => Some (s.1, m) | _ => None end.
Definition entries n keys children : list (Z * art_node V) :=
  omap (slot_entry children) (child_slots n keys children).

(** Representation invariant of the four layouts. *)
Record node_ok n keys children : Prop := {
  ok_keys : length keys = keys_cap (type n);
  ok_children : length children = children_cap (type n);
  ok_partial : length (partial n) = MAX_PREFIX_LEN;
  ok_num : num_children n = length (child_slots n keys children) `mod` 256;
  ok_le : match type n with NODE256 => True | t => num_children n ≤ children_cap t end;
  ok_fst : NoDup (child_slots n keys children).*1;
  ok_snd : NoDup (child_slots n keys children).*2;
  ok_slot : ∀ c i, (c, i) ∈ child_slots n keys children →
    in_u8 c ∧ ∃ m, children !! i = Some (Some m);
  ok_48 : type n = NODE48 → Forall (λ k, (0 ≤ k ≤ 48)%Z) keys ∧
    ∀ p m, children !! p = Some (Some m) → p ∈ (child_slots n keys children).*2
}.

Definition slot_spec n keys children (c : Z) (i : nat) : Prop :=
  match type n with
  | NODE4 | NODE16 => take (num_children n) keys !! i = Some c
  | NODE48 => in_u8 c ∧ nth (Z.to_nat c) keys 0%Z ≠ 0%Z
              ∧ i = Z.to_nat (nth (Z.to_nat c) keys 0%Z - 1)
  | NODE256 => in_u8 c ∧ i = Z.to_nat c ∧ ∃ m, children !! i = Some (Some m)
  end.

Lemma elem_child_slots n keys children c i :
  (c, i) ∈ child_slots n keys children ↔ slot_spec n keys children c i.
Proof.
  unfold child_slots, slot_spec, in_u8. destruct (type n).
  1,2: rewrite elem_of_lookup_imap; split;
    [intros (j & k & [= -> ->] & Hk); done | intros H; by exists i, c].
  - rewrite list_elem_of_omap. setoid_rewrite elem_of_seq. split.
    + intros (j & Hj & H). case_bool_decide; simplify_eq. rewrite Nat2Z.id. split_and!; [lia|lia|done|done].
    + intros (Hc & Hk & ->). exists (Z.to_nat c). split; [lia|].
      rewrite bool_decide_eq_false_2 by done. by rewrite Z2Nat.id by lia.
  - rewrite list_elem_of_omap. setoid_rewrite elem_of_seq. split.
    + intros (j & Hj & H). repeat case_match; simplify_eq. rewrite Nat2Z.id. split_and!; [lia|lia|done|eauto].
    + intros (Hc & -> & m & Hm). exists (Z.to_nat c). split; [lia|]. rewrite Hm.
      by rewrite Z2Nat.id by lia.
Qed.

Lemma elem_entries n keys children c m :
  (c, m) ∈ entries n keys children ↔
  ∃ i, (c, i) ∈ child_slots n keys children ∧ children !! i = Some (Some m).
Proof.
  unfold entries, slot_entry. rewrite list_elem_of_omap. split.
  - intros ([c' i] & Hin & H). simpl in H. repeat case_match; simplify_eq. eauto.
  - intros (i & Hin & H). exists (c, i). simpl. by rewrite H.
Qed.

Lemma entries_fst_slots n keys children :
  (∀ c i, (c, i) ∈ child_slots n keys children →
    in_u8 c ∧ ∃ m, children !! i = Some (Some m)) →
  (entries n keys children).*1 = (child_slots n keys children).*1.
Proof.
  intros H. unfold entries.
  induction (child_slots n keys children) as [|[c i] l IH]; [done|].
  destruct (H c i) as [_ [m Hm]]; [left|]. simpl.
  unfold slot_entry at 1. simpl. rewrite Hm. simpl. f_equal.
  apply IH. intros c' i' Hin. apply (H c' i'). by right.
Qed.

Lemma entries_fst n keys children :
  node_ok n keys children →
  (entries n keys children).*1 = (child_slots n keys children).*1.
Proof. intros Hok. by apply entries_fst_slots, ok_slot. Qed.

Lemma entries_NoDup n keys children :
  node_ok n keys children → NoDup (entries n keys children).*1.
Proof. intros Hok. rewrite entries_fst by done. by apply ok_fst. Qed.

Lemma length_entries n keys children :
  node_ok n keys children →
  length (entries n keys children) = length (child_slots n keys children).
Proof. intros Hok. rewrite <-!(length_fmap fst). f_equal. by apply entries_fst. Qed.

(** Two pair lists with unique keys and the same elements are permutations. *)
Lemma perm_by_fst {A B} (l1 l2 : list (A * B)) :
  NoDup l1.*1 → NoDup l2.*1 → (∀ a b, (a, b) ∈ l1 ↔ (a, b) ∈ l2) → l1 ≡ₚ l2.
Proof.
  intros H1 H2 H. apply NoDup_Permutation.
  - by eapply NoDup_fmap_1.
  - by eapply NoDup_fmap_1.
  - intros [a b]. apply H.
Qed.

Lemma find_child_slot n keys children c i :
  node_ok n keys children → in_u8 c →
  find_child n keys children c = Some i ↔ (c, i) ∈ child_slots n keys children.
Proof.
  intros Hok Hc. rewrite elem_child_slots. unfold find_child, slot_spec, in_u8 in *.
  pose proof (ok_fst _ _ _ Hok) as Hnd. unfold child_slots in Hnd.
  destruct (type n) eqn:Ht.
  1,2: assert (NoDup (take (num_children n) keys)) as Hnd'
    by (revert Hnd; by rewrite fmap_imap, (imap_const id), list_fmap_id).
  - rewrite index_of_Some. split.
    + intros [(x & Hx & Hp) _]. apply bool_decide_eq_true in Hp as ->. done.
    + intros H. split; [exists c; by rewrite bool_decide_eq_true|].
      intros j x Hj Hx. apply bool_decide_eq_false. intros ->.
      assert (j = i) by (by eapply NoDup_lookup). lia.
  - rewrite masked_ctz, index_of_Some. split.
    + intros [(x & Hx & Hp) _]. apply bool_decide_eq_true in Hp as ->. done.
    + intros H. split; [exists c; by rewrite bool_decide_eq_true|].
      intros j x Hj Hx. apply bool_decide_eq_false. intros ->.
      assert (j = i) by (by eapply NoDup_lookup). lia.
  - case_bool_decide as H0; split.
    + done.
    + by intros (_ & ? & _).
    + by intros [= <-].
    + by intros (_ & _ & ->).
  - split.
    + destruct (children !! Z.to_nat c) as [[m|]|] eqn:Hm; intros [= <-].
      split_and!; [lia|lia|done|by exists m].
    + intros (_ & -> & m & Hm). by rewrite Hm.
Qed.

Lemma find_child_Some n keys children c i :
  node_ok n keys children → in_u8 c → find_child n keys children c = Some i →
  ∃ m, children !! i = Some (Some m) ∧ (c, m) ∈ entries n keys children.
Proof.
  intros Hok Hc Hf. apply find_child_slot in Hf; [|done..].
  destruct (ok_slot _ _ _ Hok _ _ Hf) as [_ [m Hm]].
  exists m. split; [done|]. apply elem_entries. eauto.
Qed.

Lemma find_child_None n keys children c :
  node_ok n keys children → in_u8 c → find_child n keys children c = None →
  c ∉ (entries n keys children).*1.
Proof.
  intros Hok Hc Hf ([c' m] & -> & (i & Hin & _)%elem_entries)%list_elem_of_fmap.
  simpl in *. apply find_child_slot in Hin; [|done..]. by rewrite Hf in Hin.
Qed.

(** In every non-full slot table the entry of a byte is unique. *)
Lemma entries_unique n keys children c m m' :
  node_ok n keys children →
  (c, m) ∈ entries n keys children → (c, m') ∈ entries n keys children → m = m'.
Proof.
  intros Hok H1 H2. pose proof (entries_NoDup _ _ _ Hok) as Hnd.
  apply list_elem_of_lookup in H1 as [i Hi], H2 as [j Hj].
  assert (i = j) as ->; [|congruence].
  eapply NoDup_lookup; [apply Hnd| |]; rewrite list_lookup_fmap; [by rewrite Hi|by rewrite Hj].
Qed.
(** ** In-place child update *)
Lemma child_slots_update n keys children i m m' :
  children !! i = Some (Some m) →
  child_slots n keys (<[i := Some m']> children) = child_slots n keys children.
Proof.
  intros Hi. unfold child_slots. destruct (type n); try done.
  apply list_omap_ext. apply Forall_Forall2_diag, Forall_forall. intros j _.
  destruct (decide (i = j)) as [->|Hne].
  - rewrite list_lookup_insert_eq by (by eapply lookup_lt_Some). by rewrite Hi.
  - by rewrite list_lookup_insert_ne.
Qed.

Lemma update_child_ok n keys children c i m m' :
  node_ok n keys children → (c, i) ∈ child_slots n keys children →
  children !! i = Some (Some m) →
  node_ok n keys (<[i := Some m']> children).
Proof.
  intros Hok Hin Hi. pose proof (child_slots_update n keys children i m m' Hi) as Hsl.
  assert (Hlk : ∀ j x, <[i := Some m']> children !! j = Some (Some x) →
                  ∃ y, children !! j = Some (Some y)).
  { intros j x Hj. destruct (decide (i = j)) as [->|]; [by eexists|].
    rewrite list_lookup_insert_ne in Hj by done. eauto. }
  destruct Hok. split; rewrite ?Hsl, ?length_insert; try done.
  - intros c' i' Hin'. destruct (ok_slot0 c' i' Hin') as [? [x Hx]]. split; [done|].
    destruct (decide (i = i')) as [->|].
    + eexists. apply list_lookup_insert_eq. by eapply lookup_lt_Some.
    + exists x. by rewrite list_lookup_insert_ne.
  - intros Ht. destruct (ok_49 Ht) as [? H]. split; [done|].
    intros p x Hp. apply Hlk in Hp as [y Hy]. eauto.
Qed.

Lemma update_child_entries n keys children c i m m' :
  node_ok n keys children → (c, i) ∈ child_slots n keys children →
  children !! i = Some (Some m) →
  ∃ rest, entries n keys children ≡ₚ (c, m) :: rest
        ∧ entries n keys (<[i := Some m']> children) ≡ₚ (c, m') :: rest.
Proof.
  intros Hok Hin Hi. unfold entries. rewrite (child_slots_update _ _ _ _ _ _ Hi).
  pose proof (ok_snd _ _ _ Hok) as Hnd.
  apply list_elem_of_split in Hin as (l1 & l2 & Hl). rewrite Hl in Hnd |- *.
  rewrite fmap_app, fmap_cons in Hnd. simpl in Hnd.
  apply NoDup_app in Hnd as (_ & Hd1 & [Hd2 _]%NoDup_cons).
  exists (omap (slot_entry children) l1 ++ omap (slot_entry children) l2).
  assert (Hsame : ∀ l, i ∉ l.*2 →
    omap (slot_entry (<[i := Some m']> children)) l = omap (slot_entry children) l).
  { intros l Hl'. apply list_omap_ext. apply Forall_Forall2_diag, Forall_forall.
    intros [c' j] Hj. unfold slot_entry. simpl. rewrite list_lookup_insert_ne; [done|].
    intros ->. apply Hl'. apply list_elem_of_fmap. by exists (c', j). }
  assert (Hi' : slot_entry children (c, i) = Some (c, m))
    by (unfold slot_entry; simpl; by rewrite Hi).
  assert (Hi2 : slot_entry (<[i := Some m']> children) (c, i) = Some (c, m')).
  { unfold slot_entry. simpl.
    by rewrite list_lookup_insert_eq by (by eapply lookup_lt_Some). }
  rewrite !omap_app. simpl. rewrite Hi', Hi2.
  rewrite Hsame, Hsame by (try done; intros Hc; apply (Hd1 i Hc); left).
  split; symmetry; apply Permutation_middle.
Qed.

(** ** Adding a child *)

(** The compressed path is unchanged up to the bytes that are stored. *)
Definition same_path n n' : Prop :=
  partial_len n' = partial_len n ∧
  take (min MAX_PREFIX_LEN (partial_len n)) (partial n')
  = take (min MAX_PREFIX_LEN (partial_len n)) (partial n).

Lemma same_path_refl n : same_path n n.
Proof. done. Qed.
Lemma same_path_trans n1 n2 n3 : same_path n1 n2 → same_path n2 n3 → same_path n1 n3.
Proof. intros [H1 H2] [H3 H4]. rewrite H1 in *. split; congruence. Qed.

(** The occupancy below which [remove_child] changes to the next smaller
    layout. *)
Definition min_children (t : node_type) : nat :=
  match t with NODE4 => 2 | NODE16 => 4 | NODE48 => 13 | NODE256 => 38 end.

(** What adding the entry (c, child) to a node means. *)
Definition adds n keys children (c : Z) (child : art_node V) (r : outcome (art_node V)) : Prop :=
  ∃ n' keys' children',
    r = Ret (Node n' keys' children') ∧ node_ok n' keys' children' ∧ same_path n n' ∧
    entries n' keys' children' ≡ₚ (c, child) :: entries n keys children ∧
    (type n' = type n ∨ min_children (type n') ≤ length (entries n keys children)).

Lemma slots_small_fst n keys children :
  type n = NODE4 ∨ type n = NODE16 →
  (child_slots n keys children).*1 = take (num_children n) keys.
Proof.
  intros H. unfold child_slots.
  destruct H as [-> | ->]; by rewrite fmap_imap, (imap_const id), list_fmap_id.
Qed.

Lemma slots_small_snd n keys children :
  type n = NODE4 ∨ type n = NODE16 →
  (child_slots n keys children).*2 = seq 0 (length (take (num_children n) keys)).
Proof.
  intros H. unfold child_slots.
  destruct H as [-> | ->]; by rewrite fmap_imap, (imap_seq_0 _ id), list_fmap_id.
Qed.

Lemma slots_big_NoDup n keys children :
  type n = NODE48 ∨ type n = NODE256 → NoDup (child_slots n keys children).*1.
Proof.
  intros H. unfold child_slots.
  destruct H as [-> | ->]; (apply (omap_NoDup_fst _ Z.of_nat); [|apply _|apply NoDup_seq]).
  - intros i [c j]. cbv zeta. case_bool_decide; naive_solver.
  - intros i [c j]. repeat case_match; naive_solver.
Qed.
Lemma slot_small n keys children c i :
  type n = NODE4 ∨ type n = NODE16 →
  (c, i) ∈ child_slots n keys children ↔ take (num_children n) keys !! i = Some c.
Proof. intros H. rewrite elem_child_slots. unfold slot_spec. by destruct H as [-> | ->]. Qed.

Lemma small_num n keys children :
  node_ok n keys children → type n = NODE4 ∨ type n = NODE16 →
  num_children n ≤ length keys ∧ num_children n ≤ length children ∧ num_children n ≤ 16.
Proof.
  intros Hok H. pose proof (ok_le _ _ _ Hok). pose proof (ok_keys _ _ _ Hok).
  pose proof (ok_children _ _ _ Hok).
  destruct H as [H|H]; rewrite H in *; simpl in *; lia.
Qed.

Lemma length_entries_small n keys children :
  node_ok n keys children → type n = NODE4 ∨ type n = NODE16 →
  length (entries n keys children) = num_children n.
Proof.
  intros Hok Ht. rewrite length_entries by done.
  rewrite <-(length_fmap fst), slots_small_fst, length_take by done.
  pose proof (small_num _ _ _ Hok Ht). lia.
Qed.

Section AddSmall.
Context n keys children (c : Z) (child : art_node V) (idx : nat).
Context (Hok : node_ok n keys children) (Ht : type n = NODE4 ∨ type n = NODE16).
Context (Hnum : num_children n < children_cap (type n)) (Hidx : idx ≤ num_children n).
Context (Hc : in_u8 c) (Hfresh : c ∉ (entries n keys children).*1).

Let n' := set_num n (incr8 (num_children n)).
Let keys' := arr_insert (num_children n) idx c keys.
Let children' := arr_insert (num_children n) idx (Some child) children.

#[local] Lemma add_small_num :
  num_children n' = num_children n + 1 ∧ num_children n < length keys
  ∧ num_children n < length children ∧ num_children n < 16.
Proof.
  pose proof (ok_keys _ _ _ Hok) as Hk. pose proof (ok_children _ _ _ Hok) as Hch.
  assert (num_children n < length keys ∧ num_children n < length children
          ∧ num_children n < 16) as (?&?&?).
  { destruct Ht as [H|H]; rewrite H in *; simpl in *; lia. }
  split; [|done]. simpl. unfold incr8. apply Nat.mod_small. lia.
Qed.

#[local] Lemma add_small_slot c' j :
  (c', j) ∈ child_slots n' keys' children' ↔
  (j < idx ∧ (c', j) ∈ child_slots n keys children) ∨ (j = idx ∧ c' = c)
  ∨ (idx < j ∧ (c', j - 1) ∈ child_slots n keys children).
Proof.
  destruct add_small_num as (Hn & Hlk & Hlc & _).
  rewrite !slot_small by done. rewrite Hn. subst keys'.
  rewrite !lookup_take. rewrite lookup_arr_insert by done.
  repeat case_decide; try lia; split; intros; naive_solver lia.
Qed.

#[local] Lemma add_small_fst :
  (child_slots n' keys' children').*1 ≡ₚ c :: (child_slots n keys children).*1.
Proof.
  destruct add_small_num as (Hn & Hlk & Hlc & _).
  rewrite !slots_small_fst by done. rewrite Hn. by apply take_arr_insert_perm.
Qed.

#[local] Lemma add_small_node : node_ok n' keys' children'.
Proof.
  destruct add_small_num as (Hn & Hlk & Hlc & H16).
  pose proof add_small_fst as Hfst. destruct (Hok) as [Hk Hch Hp Hnm Hle Hf Hs Hsl H48].
  assert (length (child_slots n keys children) = num_children n) as Hlen.
  { rewrite <-(length_fmap fst), slots_small_fst, length_take by done. lia. }
  split.
  - subst keys'. rewrite length_arr_insert by done. done.
  - subst children'. rewrite length_arr_insert by done. done.
  - done.
  - rewrite Hn, <-(length_fmap fst), Hfst, length_cons, length_fmap, Hlen.
    rewrite Nat.mod_small; lia.
  - simpl type. rewrite Hn. destruct Ht as [H|H]; rewrite H in *; simpl in *; lia.
  - rewrite Hfst. constructor; [|done]. by rewrite <-entries_fst.
  - rewrite slots_small_snd by done. apply NoDup_seq.
  - intros c' j Hin. apply add_small_slot in Hin. subst children'.
    rewrite lookup_arr_insert by done.
    destruct Hin as [[Hj Hin]|[[-> ->]|[Hj Hin]]].
    + rewrite decide_True by done. by apply Hsl.
    + rewrite decide_False, decide_True by lia. eauto.
    + rewrite !decide_False by lia. rewrite decide_True; [by apply Hsl|].
      apply slot_small in Hin; [|done]. apply lookup_lt_Some in Hin.
      rewrite length_take in Hin. lia.
  - intros H. simpl in H. destruct Ht; congruence.
Qed.

Lemma add_small_ok : adds n keys children c child (Ret (Node n' keys' children')).
Proof.
  destruct add_small_num as (Hn & Hlk & Hlc & H16).
  exists n', keys', children'. split; [done|]. split; [apply add_small_node|].
  split; [done|]. split; [|by left]. apply perm_by_fst.
  - apply entries_NoDup, add_small_node.
  - simpl. constructor; [done|]. by apply entries_NoDup.
  - intros c' m. rewrite elem_of_cons, !elem_entries. setoid_rewrite add_small_slot.
    subst children'. split.
    + intros (j & Hj & Hm). rewrite lookup_arr_insert in Hm by done.
      destruct Hj as [[Hj Hin]|[[-> ->]|[Hj Hin]]].
      * rewrite decide_True in Hm by done. right. eauto.
      * rewrite decide_False, decide_True in Hm by lia. left. congruence.
      * rewrite !decide_False in Hm by lia.
        apply slot_small in Hin as Hin'; [|done]. apply lookup_lt_Some in Hin'.
        rewrite length_take in Hin'. rewrite decide_True in Hm by lia. right. eauto.
    + intros [[= -> ->]|(i & Hin & Hm)].
      * exists idx. rewrite lookup_arr_insert by done.
        rewrite decide_False, decide_True by lia. auto.
      * assert (i < num_children n).
        { apply slot_small in Hin as Hin'; [|done]. apply lookup_lt_Some in Hin'.
          rewrite length_take in Hin'. lia. }
        destruct (decide (i < idx)).
        -- exists i. rewrite lookup_arr_insert, decide_True by done. auto.
        -- exists (S i). rewrite lookup_arr_insert by done. rewrite !decide_False by lia.
           rewrite decide_True by lia. simpl. rewrite Nat.sub_0_r. split; [|done].
           right; right. split; [lia|done].
Qed.
End AddSmall.

(** Adding one slot to the slot table: what remains to be shown about the
    arrays of the two byte-indexed layouts. *)
Lemma adds_by_slot n keys children n' keys' children' c j child :
  node_ok n keys children → in_u8 c → c ∉ (entries n keys children).*1 →
  type n' = type n → type n' = NODE48 ∨ type n' = NODE256 →
  length keys' = keys_cap (type n') → length children' = children_cap (type n') →
  length (partial n') = MAX_PREFIX_LEN →
  num_children n' = incr8 (num_children n) → same_path n n' →
  (type n' = NODE48 → num_children n' ≤ 48) →
  (∀ c' i, (c', i) ∈ child_slots n' keys' children' ↔
     (c', i) = (c, j) ∨ (c', i) ∈ child_slots n keys children) →
  j ∉ (child_slots n keys children).*2 →
  children' = <[j := Some child]> children → j < length children →
  (type n' = NODE48 → Forall (λ k, (0 ≤ k ≤ 48)%Z) keys' ∧
    ∀ p m, children !! p = Some (Some m) → p ∈ (child_slots n keys children).*2) →
  adds n keys children c child (Ret (Node n' keys' children')).
Proof.
  intros Hok Hc Hfresh Htt Ht Hk Hch Hp Hnum Hsp H48 Hslot Hj Hset Hjlt Hchk.
  assert (child_slots n' keys' children' ≡ₚ (c, j) :: child_slots n keys children) as Hperm.
  { apply perm_by_fst.
    - by apply slots_big_NoDup.
    - simpl. constructor; [by rewrite <-entries_fst|by apply ok_fst].
    - intros. rewrite Hslot, elem_of_cons. done. }
  assert (Hlk : ∀ i m, i ∈ (child_slots n keys children).*2 →
     children' !! i = Some (Some m) ↔ children !! i = Some (Some m)).
  { intros i m Hi. rewrite Hset, list_lookup_insert_ne; [done|]. by intros ->. }
  assert (node_ok n' keys' children') as Hok'.
  { split; try done.
    - rewrite Hnum, (ok_num _ _ _ Hok), Hperm, length_cons. unfold incr8.
      rewrite Nat.Div0.add_mod_idemp_l. f_equal. lia.
    - destruct Ht as [H|H]; rewrite H in *; simpl; auto.
    - by apply slots_big_NoDup.
    - rewrite Hperm. simpl. constructor; [done|by apply ok_snd].
    - intros c' i [[= -> ->]|Hin]%Hslot.
      + split; [done|]. exists child. rewrite Hset. by apply list_lookup_insert_eq.
      + destruct (ok_slot _ _ _ Hok _ _ Hin) as [? [m Hm]]. split; [done|]. exists m.
        apply Hlk; [|done]. apply list_elem_of_fmap. by exists (c', i).
    - intros H. destruct (Hchk H) as [Hka Hall]. split; [done|].
      intros p m Hpm. rewrite Hperm. simpl. apply elem_of_cons.
      destruct (decide (p = j)); [by left|right].
      rewrite Hset, list_lookup_insert_ne in Hpm by done. eauto. }
  exists n', keys', children'. split_and!; [done|done|done| |by left].
  apply perm_by_fst.
  - by apply entries_NoDup.
  - simpl. constructor; [done|by apply entries_NoDup].
  - intros c' m. rewrite elem_of_cons, !elem_entries. setoid_rewrite Hslot. split.
    + intros (i & [[= -> ->]|Hin] & Hm).
      * left. rewrite Hset, list_lookup_insert_eq in Hm by done. congruence.
      * right. exists i. split; [done|]. apply Hlk; [|done].
        apply list_elem_of_fmap. by exists (c', i).
    + intros [[= -> ->]|(i & Hin & Hm)].
      * exists j. split; [by left|]. rewrite Hset. by apply list_lookup_insert_eq.
      * exists i. split; [by right|]. apply Hlk; [|done].
        apply list_elem_of_fmap. by exists (c', i).
Qed.

Lemma add_child256_ok n keys children c child :
  node_ok n keys children → type n = NODE256 → in_u8 c →
  c ∉ (entries n keys children).*1 →
  adds n keys children c child (add_child256 n keys children c child).
Proof.
  intros Hok Ht Hc Hfresh. pose proof (ok_children _ _ _ Hok) as Hch.
  rewrite Ht in Hch. simpl in Hch. assert (Hlt : Z.to_nat c < length children).
  { unfold in_u8 in Hc. lia. }
  assert (Hslot0 : ∀ c' i, (c', i) ∈ child_slots n keys children ↔
     in_u8 c' ∧ i = Z.to_nat c' ∧ ∃ m, children !! i = Some (Some m)).
  { intros. rewrite elem_child_slots. unfold slot_spec. by rewrite Ht. }
  unfold add_child256. apply adds_by_slot with (j := Z.to_nat c); simpl; try done; auto.
  - by apply (ok_keys _ _ _ Hok).
  - rewrite length_insert. by rewrite Ht.
  - by apply (ok_partial _ _ _ Hok).
  - intros H. congruence.
  - intros c' i. rewrite Hslot0, elem_child_slots. unfold slot_spec. simpl. rewrite Ht.
    split.
    + intros (Hc' & -> & m & Hm). destruct (decide (c' = c)) as [->|Hne]; [by left|right].
      split_and!; [done|done|]. exists m.
      rewrite list_lookup_insert_ne in Hm; [done|]. unfold in_u8 in *. lia.
    + intros [[= -> ->]|(Hc' & -> & m & Hm)].
      * split_and!; [done|done|]. exists child. by apply list_lookup_insert_eq.
      * split_and!; [done|done|]. destruct (decide (c' = c)) as [->|Hne].
        { exists child. by apply list_lookup_insert_eq. }
        exists m. rewrite list_lookup_insert_ne; [done|]. unfold in_u8 in *. lia.
  - intros ([c' i] & Hi & Hin)%list_elem_of_fmap. simpl in Hi. subst i.
    apply Hslot0 in Hin as Hin'. destruct Hin' as (Hc' & Heq & _).
    assert (c' = c) as -> by (unfold in_u8 in *; lia).
    apply Hfresh. rewrite entries_fst by done. apply list_elem_of_fmap. by exists (c, Z.to_nat c).
  - congruence.
Qed.

Lemma slots48_length n keys children :
  node_ok n keys children → type n = NODE48 →
  length (child_slots n keys children) ≤ 48
  ∧ num_children n = length (child_slots n keys children).
Proof.
  intros Hok Ht. assert (length (child_slots n keys children) ≤ 48) as Hle.
  { rewrite <-(length_fmap snd). change 48 with (length (seq 0 48)).
    apply submseteq_length, NoDup_submseteq; [by apply ok_snd|].
    intros i ([c j] & -> & Hin)%list_elem_of_fmap.
    destruct (ok_slot _ _ _ Hok _ _ Hin) as [_ [m Hm]].
    apply lookup_lt_Some in Hm. rewrite (ok_children _ _ _ Hok), Ht in Hm.
    apply elem_of_seq. simpl in *. lia. }
  split; [done|]. rewrite (ok_num _ _ _ Hok). apply Nat.mod_small. lia.
Qed.

Lemma nonfull48 n keys children :
  node_ok n keys children → type n = NODE48 → num_children n < 48 →
  ∃ pos, index_of (λ o : option (art_node V), if o then false else true) children = Some pos
       ∧ children !! pos = Some None.
Proof.
  intros Hok Ht Hnum. destruct (index_of _ _) as [pos|] eqn:Hidx.
  - exists pos. split; [done|].
    apply index_of_Some in Hidx as [([m|] & Hm & Hp) _]; done.
  - exfalso. destruct (slots48_length _ _ _ Hok Ht) as [_ Heq].
    assert (48 ≤ length (child_slots n keys children)); [|lia].
    rewrite <-(length_fmap snd). change 48 with (length (seq 0 48)).
    apply submseteq_length, NoDup_submseteq; [apply NoDup_seq|].
    intros i Hi%elem_of_seq. destruct (ok_48 _ _ _ Hok Ht) as [_ Hall].
    assert (is_Some (children !! i)) as [o Ho].
    { apply lookup_lt_is_Some. rewrite (ok_children _ _ _ Hok), Ht. simpl. lia. }
    destruct o as [m|]; [by eapply Hall|].
    eapply index_of_None with (x := None) in Hidx; [done|].
    by eapply list_elem_of_lookup_2.
Qed.

Lemma keys48_nth n keys children c :
  node_ok n keys children → type n = NODE48 → in_u8 c →
  keys !! Z.to_nat c = Some (nth (Z.to_nat c) keys 0%Z)
  ∧ (0 ≤ nth (Z.to_nat c) keys 0 ≤ 48)%Z.
Proof.
  intros Hok Ht Hc. destruct (ok_48 _ _ _ Hok Ht) as [Hf _].
  assert (is_Some (keys !! Z.to_nat c)) as [k Hk].
  { apply lookup_lt_is_Some. rewrite (ok_keys _ _ _ Hok), Ht. unfold in_u8 in Hc. simpl. lia. }
  rewrite (nth_lookup_Some _ _ _ _ Hk). split; [done|].
  by eapply Forall_lookup_1 in Hf.
Qed.

Lemma add_child48_inplace n keys children c child :
  node_ok n keys children → type n = NODE48 → num_children n < 48 → in_u8 c →
  c ∉ (entries n keys children).*1 →
  adds n keys children c child (add_child48 n keys children c child).
Proof.
  intros Hok Ht Hnum Hc Hfresh. unfold add_child48. rewrite bool_decide_eq_true_2 by done.
  destruct (nonfull48 _ _ _ Hok Ht Hnum) as (pos & -> & Hpos). simpl.
  assert (Hposlt : pos < 48).
  { apply lookup_lt_Some in Hpos. by rewrite (ok_children _ _ _ Hok), Ht in Hpos. }
  destruct (keys48_nth _ _ _ c Hok Ht Hc) as [Hkc _].
  assert (Hslot0 : ∀ c' i, (c', i) ∈ child_slots n keys children ↔
     in_u8 c' ∧ nth (Z.to_nat c') keys 0%Z ≠ 0%Z
     ∧ i = Z.to_nat (nth (Z.to_nat c') keys 0%Z - 1)).
  { intros. rewrite elem_child_slots. unfold slot_spec. by rewrite Ht. }
  assert (Hnth : ∀ c', in_u8 c' →
    nth (Z.to_nat c') (<[Z.to_nat c := (Z.of_nat pos + 1)%Z]> keys) 0%Z
    = if decide (c' = c) then (Z.of_nat pos + 1)%Z else nth (Z.to_nat c') keys 0%Z).
  { intros c' Hc'. rewrite !nth_lookup. case_decide as H.
    - subst. rewrite list_lookup_insert_eq; [done|]. by eapply lookup_lt_Some.
    - rewrite list_lookup_insert_ne; [done|]. unfold in_u8 in *. lia. }
  assert (Hc0 : nth (Z.to_nat c) keys 0%Z = 0%Z).
  { apply dec_stable. intros Hne. apply Hfresh. rewrite entries_fst by done.
    apply list_elem_of_fmap. eexists (c, _). split; [done|]. by apply Hslot0. }
  apply adds_by_slot with (j := pos); simpl; try done; auto.
  - rewrite length_insert. by apply (ok_keys _ _ _ Hok).
  - rewrite length_insert. by apply (ok_children _ _ _ Hok).
  - by apply (ok_partial _ _ _ Hok).
  - intros _. unfold incr8. rewrite Nat.mod_small; lia.
  - intros c' i. rewrite Hslot0, elem_child_slots. unfold slot_spec. simpl. rewrite Ht. split.
    + intros (Hc' & Hne & ->). rewrite Hnth in * by done. case_decide as H.
      * left. subst. f_equal. lia.
      * by right.
    + intros [[= -> ->]|(Hc' & Hne & ->)].
      * split; [done|]. rewrite Hnth, decide_True by done. lia.
      * split; [done|]. rewrite Hnth by done. rewrite decide_False by congruence. done.
  - intros ([c' i] & Hi & Hin)%list_elem_of_fmap. simpl in Hi. subst i.
    destruct (ok_slot _ _ _ Hok _ _ Hin) as [_ [m Hm]]. congruence.
  - rewrite (ok_children _ _ _ Hok), Ht. done.
  - intros _. destruct (ok_48 _ _ _ Hok Ht) as [Hf Hall]. split; [|done].
    apply Forall_insert; [done|lia].
Qed.

(** ** Growth of a full node *)

(** Re-laying out a node without changing its entries. *)
Definition relayout n keys children n' keys' children' : Prop :=
  node_ok n' keys' children' ∧ same_path n n' ∧ num_children n' = num_children n ∧
  entries n' keys' children' ≡ₚ entries n keys children ∧
  min_children (type n') ≤ length (entries n keys children).

Lemma adds_relayout n keys children n' keys' children' c child r :
  relayout n keys children n' keys' children' →
  adds n' keys' children' c child r → adds n keys children c child r.
Proof.
  intros (Hok & Hsp & Hn & He & Hmin) (n2 & k2 & c2 & -> & Hok2 & Hsp2 & He2 & Ht2).
  exists n2, k2, c2. split_and!; [done|done|by eapply same_path_trans|by rewrite He2, He|].
  right. destruct Ht2 as [-> |Ht2]; [done|]. by rewrite He in Ht2.
Qed.

Lemma relayout_fresh n keys children n' keys' children' c :
  relayout n keys children n' keys' children' →
  c ∉ (entries n keys children).*1 → c ∉ (entries n' keys' children').*1.
Proof. intros (_ & _ & _ & He & _). by rewrite He. Qed.

Lemma relayout_big n keys children n' keys' children' :
  node_ok n keys children → type n' = NODE48 ∨ type n' = NODE256 →
  length keys' = keys_cap (type n') → length children' = children_cap (type n') →
  length (partial n') = MAX_PREFIX_LEN → num_children n' = num_children n →
  same_path n n' → (type n' = NODE48 → num_children n' ≤ 48) →
  (∀ c i, (c, i) ∈ child_slots n' keys' children' →
    in_u8 c ∧ ∃ m, children' !! i = Some (Some m)) →
  NoDup (child_slots n' keys' children').*2 →
  (∀ c m, (c, m) ∈ entries n' keys' children' ↔ (c, m) ∈ entries n keys children) →
  (type n' = NODE48 → Forall (λ k, (0 ≤ k ≤ 48)%Z) keys' ∧
    ∀ p m, children' !! p = Some (Some m) → p ∈ (child_slots n' keys' children').*2) →
  min_children (type n') ≤ length (entries n keys children) →
  relayout n keys children n' keys' children'.
Proof.
  intros Hok Ht Hk Hch Hp Hnum Hsp H48 Hsl Hnd He Hchk Hmin.
  pose proof (entries_fst_slots _ _ _ Hsl) as Hfst.
  assert (entries n' keys' children' ≡ₚ entries n keys children) as Hperm.
  { apply perm_by_fst; [|by apply entries_NoDup|done].
    rewrite Hfst. by apply slots_big_NoDup. }
  split_and!; [|done|done|done|done]. split; try done.
  - rewrite Hnum, (ok_num _ _ _ Hok). f_equal.
    by rewrite <-!(length_fmap fst), <-Hfst, <-(entries_fst _ _ _ Hok), Hperm.
  - destruct Ht as [H|H]; rewrite H in *; simpl; auto.
  - by apply slots_big_NoDup.
Qed.

Lemma length_copy_header t n :
  length (partial n) = MAX_PREFIX_LEN →
  length (partial (copy_header (mk_hdr t 0 0 (replicate MAX_PREFIX_LEN 0%Z)) n)) = MAX_PREFIX_LEN.
Proof.
  intros Hp. unfold copy_header. cbn [partial partial_len].
  rewrite length_blit; rewrite length_replicate; [done|].
  rewrite length_take. unfold MAX_PREFIX_LEN in *. lia.
Qed.

Lemma same_path_copy_header t n :
  length (partial n) = MAX_PREFIX_LEN →
  same_path n (copy_header (mk_hdr t 0 0 (replicate MAX_PREFIX_LEN 0%Z)) n).
Proof.
  intros Hp. split; [done|]. unfold copy_header. cbn [partial]. rewrite take_blit0.
  - rewrite take_take. f_equal. unfold MAX_PREFIX_LEN. lia.
  - rewrite length_take, Hp. unfold MAX_PREFIX_LEN. lia.
Qed.

(** NODE4 -> NODE16 and NODE16 -> NODE4: the arrays are copied. *)
Lemma relayout_small n keys children n' keys' children' :
  node_ok n keys children → type n = NODE4 ∨ type n = NODE16 →
  type n' = NODE4 ∨ type n' = NODE16 →
  length keys' = keys_cap (type n') → length children' = children_cap (type n') →
  length (partial n') = MAX_PREFIX_LEN → num_children n' = num_children n →
  same_path n n' → num_children n ≤ children_cap (type n') →
  take (num_children n) keys' = take (num_children n) keys →
  take (num_children n) children' = take (num_children n) children →
  min_children (type n') ≤ num_children n →
  relayout n keys children n' keys' children'.
Proof.
  intros Hok Ht Ht' Hk Hch Hp Hnum Hsp Hle Htk Htc Hmin.
  assert (child_slots n' keys' children' = child_slots n keys children) as Hsl.
  { unfold child_slots. destruct Ht as [-> | ->], Ht' as [-> | ->]; by rewrite Hnum, Htk. }
  assert (Hlk : ∀ c i, (c, i) ∈ child_slots n keys children → children' !! i = children !! i).
  { intros c i Hin. apply slot_small in Hin; [|done]. apply lookup_lt_Some in Hin.
    rewrite length_take in Hin. rewrite <-(lookup_take_lt children' (num_children n)) by lia.
    rewrite Htc. apply lookup_take_lt. lia. }
  split_and!; [|done|done| |by erewrite length_entries_small].
  - destruct Hok. split; rewrite ?Hsl; try done; [congruence| | |].
    + rewrite Hnum. destruct Ht' as [H|H]; rewrite H in *; done.
    + intros c i Hin. rewrite (Hlk c i Hin). eauto.
    + intros H. destruct Ht'; congruence.
  - unfold entries. rewrite Hsl. apply reflexive_eq, list_omap_ext.
    apply Forall_Forall2_diag, Forall_forall. intros [c i] Hin.
    unfold slot_entry. simpl. by rewrite (Hlk c i Hin).
Qed.

Lemma add_child16_inplace n keys children c child :
  node_ok n keys children → type n = NODE16 → num_children n < 16 → in_u8 c →
  c ∉ (entries n keys children).*1 →
  adds n keys children c child (add_child16 n keys children c child).
Proof.
  intros Hok Ht Hnum Hc Hfresh. unfold add_child16. rewrite bool_decide_eq_true_2 by done.
  set (p := λ k, bool_decide (schar c < schar k)%Z).
  pose proof (masked_ctz p keys (num_children n)) as Hm. cbv zeta in Hm.
  set (b := Z.land _ _) in *.
  assert (∀ idx, idx ≤ num_children n → adds n keys children c child
    (Ret (Node (set_num n (incr8 (num_children n)))
      (arr_insert (num_children n) idx c keys)
      (arr_insert (num_children n) idx (Some child) children)))) as Hadd.
  { intros idx Hidx. apply add_small_ok; auto. by rewrite Ht. }
  destruct (decide (b = 0%Z)) as [H0|H0].
  2: { rewrite bool_decide_eq_false_2 in Hm by done.
    rewrite !bool_decide_eq_true_2 by done.
    apply (Hadd (ctz b)). symmetry in Hm. apply index_of_lt in Hm.
    rewrite length_take in Hm. lia. }
  - rewrite !(bool_decide_eq_false_2 (b ≠ 0%Z)) by auto. specialize (Hadd (num_children n) (le_n _)). unfold arr_insert in Hadd.
    rewrite !Nat.sub_diag in Hadd. simpl in Hadd. unfold blit in Hadd.
    simpl in Hadd. rewrite !Nat.add_0_r, !take_drop in Hadd. done.
Qed.

Lemma add_child4_inplace n keys children c child :
  node_ok n keys children → type n = NODE4 → num_children n < 4 → in_u8 c →
  c ∉ (entries n keys children).*1 →
  adds n keys children c child (add_child4 n keys children c child).
Proof.
  intros Hok Ht Hnum Hc Hfresh. unfold add_child4. rewrite bool_decide_eq_true_2 by done.
  apply add_small_ok; auto; [by rewrite Ht|].
  destruct (index_of _ _) as [i|] eqn:Hi; simpl; [|done].
  apply index_of_lt in Hi. rewrite length_take in Hi. lia.
Qed.

Lemma add_child4_ok n keys children c child :
  node_ok n keys children → type n = NODE4 → in_u8 c →
  c ∉ (entries n keys children).*1 →
  adds n keys children c child (add_child4 n keys children c child).
Proof.
  intros Hok Ht Hc Hfresh. destruct (decide (num_children n < 4)) as [Hlt|Hge].
  { by apply add_child4_inplace. }
  pose proof (small_num _ _ _ Hok (or_introl Ht)) as (Hlk & Hlc & _).
  pose proof (ok_keys _ _ _ Hok) as Hk. pose proof (ok_children _ _ _ Hok) as Hch.
  rewrite Ht in Hk, Hch. simpl in Hk, Hch.
  pose proof (ok_partial _ _ _ Hok) as Hp.
  unfold add_child4. rewrite bool_decide_eq_false_2 by done. cbn [alloc_node].
  assert (num_children n = 4) as Hn by lia.
  match goal with |- adds _ _ _ _ _ (add_child16 ?n' ?k' ?c' _ _) =>
    assert (relayout n keys children n' k' c') as Hr end.
  { apply relayout_small; auto using same_path_copy_header, length_copy_header; simpl.
    - rewrite length_blit; [done|]. rewrite length_take. simpl. lia.
    - rewrite length_blit; [done|]. rewrite length_take. simpl. lia.
    - lia.
    - rewrite take_blit0 by (rewrite length_take; lia). by rewrite take_take, Nat.min_id.
    - rewrite take_blit0 by (rewrite length_take; lia). by rewrite take_take, Nat.min_id.
    - lia. }
  eapply adds_relayout; [done|]. destruct (Hr) as (Hok' & _ & Hn' & _).
  apply add_child16_inplace; [done|done|simpl; lia|done|by eapply relayout_fresh].
Qed.

(** NODE16 -> NODE48: the key map is populated in index order. *)
Lemma fold_keys48 keys num :
  num ≤ length keys → Forall in_u8 (take num keys) → NoDup (take num keys) →
  let ks := foldl (λ ks i, <[Z.to_nat (nth i keys 0%Z) := (Z.of_nat i + 1)%Z]> ks)
              (replicate 256 0%Z) (seq 0 num) in
  length ks = 256
  ∧ (∀ i c, take num keys !! i = Some c → nth (Z.to_nat c) ks 0%Z = (Z.of_nat i + 1)%Z)
  ∧ (∀ c, in_u8 c → c ∉ take num keys → nth (Z.to_nat c) ks 0%Z = 0%Z).
Proof.
  induction num as [|num IH]; intros Hlen Hb Hnd.
  - cbn [foldl seq]. split_and!; [by rewrite length_replicate|done|].
    intros c Hc _. rewrite nth_lookup, lookup_replicate_2; [done|]. unfold in_u8 in Hc. lia.
  - assert (is_Some (keys !! num)) as [k Hk] by (apply lookup_lt_is_Some; lia).
    rewrite (take_S_r _ _ _ Hk) in *.
    apply Forall_app in Hb as [Hb Hk1]. rewrite Forall_singleton in Hk1.
    apply NoDup_app in Hnd as (Hnd & Hdisj & _).
    destruct IH as (IHl & IH1 & IH2); [lia|done|done|].
    rewrite seq_S, foldl_app. cbn [foldl Nat.add].
    rewrite (nth_lookup_Some _ _ _ _ Hk).
    set (ks := foldl _ _ _) in *.
    assert (Hnth : ∀ c, in_u8 c →
      nth (Z.to_nat c) (<[Z.to_nat k := (Z.of_nat num + 1)%Z]> ks) 0%Z
      = if decide (c = k) then (Z.of_nat num + 1)%Z else nth (Z.to_nat c) ks 0%Z).
    { intros c Hc. rewrite !nth_lookup. case_decide as H.
      - subst. rewrite list_lookup_insert_eq; [done|]. unfold in_u8 in *. lia.
      - rewrite list_lookup_insert_ne; [done|]. unfold in_u8 in *. lia. }
    split_and!.
    + by rewrite length_insert.
    + intros i c Hi. assert (in_u8 c) as Hc.
      { apply list_elem_of_lookup_2 in Hi. apply elem_of_app in Hi as [Hi| ->%list_elem_of_singleton]; [|done].
        rewrite Forall_forall in Hb. auto. }
      rewrite Hnth by done. apply lookup_app_Some in Hi as [Hi|[Hge Hi]].
      * rewrite decide_False; [by apply IH1|]. intros ->.
        apply (Hdisj k); [by eapply list_elem_of_lookup_2|left].
      * apply lookup_lt_Some in Hi as Hlt. rewrite length_take, Nat.min_l in * by lia.
        simpl in Hlt. assert (i = num) as -> by lia. rewrite Nat.sub_diag in Hi.
        simpl in Hi. injection Hi as ->. by rewrite decide_True.
    + intros c Hc Hnin. rewrite Hnth by done. rewrite not_elem_of_app in Hnin.
      destruct Hnin as [Hnin Hne]. rewrite decide_False by set_solver. by apply IH2.
Qed.

Lemma grow16 n keys children :
  node_ok n keys children → type n = NODE16 → num_children n = 16 →
  relayout n keys children
    (copy_header (mk_hdr NODE48 0 0 (replicate MAX_PREFIX_LEN 0%Z)) n)
    (foldl (λ ks i, <[Z.to_nat (nth i keys 0%Z) := (Z.of_nat i + 1)%Z]> ks)
       (replicate 256 0%Z) (seq 0 (num_children n)))
    (blit 0 (take (num_children n) children) (replicate 48 None)).
Proof.
  intros Hok Ht Hn. assert (Hs : type n = NODE4 ∨ type n = NODE16) by auto.
  pose proof (small_num _ _ _ Hok Hs) as (Hlk & Hlc & _).
  pose proof (ok_keys _ _ _ Hok) as Hk. pose proof (ok_children _ _ _ Hok) as Hch.
  rewrite Ht in Hk, Hch. cbn in Hk, Hch.
  assert (Hbytes : Forall in_u8 (take (num_children n) keys)).
  { apply Forall_forall. intros c [i Hi]%list_elem_of_lookup.
    apply (slot_small n keys children) in Hi; [|done]. by destruct (ok_slot _ _ _ Hok _ _ Hi). }
  assert (Hnd : NoDup (take (num_children n) keys)).
  { rewrite <-(slots_small_fst n keys children) by done. by apply ok_fst. }
  destruct (fold_keys48 keys (num_children n) Hlk Hbytes Hnd) as (Hl & H1 & H2).
  set (ks := foldl _ _ _) in *. set (cs := blit _ _ _).
  set (n' := copy_header _ _).
  assert (Hcs : ∀ i, i < 16 → cs !! i = children !! i).
  { intros i Hi. subst cs. rewrite lookup_blit by (simpl; lia).
    rewrite length_take. rewrite decide_False, decide_True by lia.
    rewrite Nat.sub_0_r, lookup_take_lt by lia. done. }
  assert (Hcs2 : ∀ i m, cs !! i = Some (Some m) → i < 16).
  { intros i m. subst cs. rewrite lookup_blit by (simpl; lia). rewrite length_take.
    rewrite decide_False by lia. case_decide as Hd; [lia|].
    intros Hr%lookup_replicate. by destruct Hr. }
  assert (Hslot : ∀ c i, (c, i) ∈ child_slots n' ks cs ↔ (c, i) ∈ child_slots n keys children).
  { intros c i. rewrite (slot_small n) by done. rewrite elem_child_slots.
    unfold slot_spec. cbn [n' copy_header type]. split.
    - intros (Hc & Hne & ->). destruct (decide (c ∈ take (num_children n) keys)) as [Hin|Hnin].
      + apply list_elem_of_lookup in Hin as [j Hj]. rewrite (H1 _ _ Hj).
        replace (Z.to_nat (Z.of_nat j + 1 - 1)) with j by lia. done.
      + by rewrite H2 in Hne.
    - intros Hi. split; [|rewrite (H1 _ _ Hi); split; lia].
      rewrite Forall_forall in Hbytes. apply Hbytes. by eapply list_elem_of_lookup_2. }
  assert (Hlt : ∀ c i, (c, i) ∈ child_slots n keys children → i < 16).
  { intros c i Hin. apply slot_small in Hin; [|done]. apply lookup_lt_Some in Hin.
    rewrite length_take in Hin. lia. }
  pose proof (ok_partial _ _ _ Hok) as Hp.
  apply relayout_big; [done|by left|done| |by apply length_copy_header|done
    |by apply same_path_copy_header| | | | | |
    rewrite length_entries_small by auto; cbn; lia].
  - subst cs. rewrite length_blit; rewrite length_replicate; [done|].
    rewrite length_take. lia.
  - intros _. cbn. lia.
  - intros c i Hin. apply Hslot in Hin. rewrite Hcs by eauto. by eapply ok_slot.
  - apply NoDup_alt. intros i j x Hi Hj. rewrite list_lookup_fmap in Hi, Hj.
    destruct (child_slots n' ks cs !! i) as [[c p]|] eqn:Hei; [|done].
    destruct (child_slots n' ks cs !! j) as [[c' p']|] eqn:Hej; [|done].
    simpl in *. simplify_eq.
    apply list_elem_of_lookup_2 in Hei as H3, Hej as H4.
    apply Hslot, slot_small in H3, H4; [|done..]. assert (c = c') as <- by congruence.
    eapply NoDup_lookup; [apply (slots_big_NoDup n' ks cs); by left| |];
      rewrite list_lookup_fmap; [by rewrite Hei|by rewrite Hej].
  - intros c m. rewrite !elem_entries. setoid_rewrite Hslot.
    split; intros (i & Hin & Hm); exists i; (split; [done|]);
      [rewrite Hcs in Hm|rewrite Hcs]; eauto.
  - intros _. split.
    + apply Forall_lookup. intros i k Hi.
      assert (i < 256) by (apply lookup_lt_Some in Hi; lia).
      assert (nth i ks 0%Z = k) as <- by (by apply nth_lookup_Some).
      replace i with (Z.to_nat (Z.of_nat i)) by lia.
      destruct (decide (Z.of_nat i ∈ take (num_children n) keys)) as [Hin|Hnin].
      * apply list_elem_of_lookup in Hin as [j Hj]. rewrite (H1 _ _ Hj).
        apply lookup_lt_Some in Hj. rewrite length_take in Hj. lia.
      * rewrite H2; [lia| |done]. unfold in_u8. lia.
    + intros p m Hpm. apply Hcs2 in Hpm as Hp'.
      assert (is_Some (take (num_children n) keys !! p)) as [c Hc].
      { apply lookup_lt_is_Some. rewrite length_take. lia. }
      apply list_elem_of_fmap. exists (c, p). split; [done|]. apply Hslot.
      by apply slot_small.
Qed.

(** NODE48 -> NODE256: children are moved to the slot of their byte. *)
Lemma grow48 n keys children :
  node_ok n keys children → type n = NODE48 → num_children n = 48 →
  relayout n keys children
    (copy_header (mk_hdr NODE256 0 0 (replicate MAX_PREFIX_LEN 0%Z)) n) []
    (imap (λ i o, let k := nth i keys 0%Z in
       if bool_decide (k = 0%Z) then o else nth (Z.to_nat (k - 1)) children None)
       (replicate 256 None)).
Proof.
  intros Hok Ht Hn. pose proof (ok_partial _ _ _ Hok) as Hp.
  set (cs := imap _ _). set (n' := copy_header _ _).
  assert (Hcs : ∀ c, in_u8 c → cs !! Z.to_nat c = Some
    (if bool_decide (nth (Z.to_nat c) keys 0%Z = 0%Z) then None
     else nth (Z.to_nat (nth (Z.to_nat c) keys 0%Z - 1)) children None)).
  { intros c Hc. subst cs. rewrite list_lookup_imap, lookup_replicate_2; [done|].
    unfold in_u8 in Hc. lia. }
  assert (Hent : ∀ c i m, (c, i) ∈ child_slots n' [] cs → cs !! i = Some (Some m) →
     (c, m) ∈ entries n keys children).
  { intros c i m Hin Hm. apply elem_child_slots in Hin. unfold slot_spec in Hin.
    cbn [n' copy_header type] in Hin. destruct Hin as (Hc & -> & _).
    rewrite Hcs in Hm by done. case_bool_decide as H0; [done|]. injection Hm as Hm.
    apply elem_entries. eexists. split; [apply elem_child_slots|].
    - unfold slot_spec. rewrite Ht. split_and!; [done|done|reflexivity].
    - rewrite nth_lookup in Hm. destruct (children !! _); naive_solver. }
  apply relayout_big; [done|by right|done| |by apply length_copy_header|done
    |by apply same_path_copy_header|done| | | |done
    |destruct (slots48_length _ _ _ Hok Ht); rewrite length_entries by done; cbn; lia].
  - subst cs. by rewrite length_imap, length_replicate.
  - intros c i Hin. apply elem_child_slots in Hin. unfold slot_spec in Hin.
    cbn [n' copy_header type] in Hin. destruct Hin as (Hc & -> & Hm). done.
  - apply NoDup_alt. intros i j x Hi Hj. rewrite list_lookup_fmap in Hi, Hj.
    destruct (child_slots n' [] cs !! i) as [[c p]|] eqn:Hei; [|done].
    destruct (child_slots n' [] cs !! j) as [[c' p']|] eqn:Hej; [|done].
    simpl in *. simplify_eq.
    apply list_elem_of_lookup_2 in Hei as H3, Hej as H4.
    apply elem_child_slots in H3, H4.
    unfold slot_spec in H3, H4. cbn [n' copy_header type] in H3, H4.
    assert (c = c') as <- by (unfold in_u8 in *; lia).
    eapply NoDup_lookup; [apply (slots_big_NoDup n' [] cs); by right| |];
      rewrite list_lookup_fmap; [by rewrite Hei|by rewrite Hej].
  - intros c m. rewrite elem_entries. split.
    + intros (i & Hin & Hm). eauto.
    + intros (i & Hin & Hm)%elem_entries. exists (Z.to_nat c).
      apply elem_child_slots in Hin as Hs. unfold slot_spec in Hs. rewrite Ht in Hs.
      destruct Hs as (Hc & Hne & ->).
      assert (cs !! Z.to_nat c = Some (Some m)) as Hcm.
      { rewrite Hcs by done. rewrite bool_decide_eq_false_2 by done.
        rewrite nth_lookup, Hm. done. }
      split; [|done]. apply elem_child_slots. unfold slot_spec.
      cbn [n' copy_header type]. eauto.
Qed.

Lemma add_child48_ok n keys children c child :
  node_ok n keys children → type n = NODE48 → in_u8 c →
  c ∉ (entries n keys children).*1 →
  adds n keys children c child (add_child48 n keys children c child).
Proof.
  intros Hok Ht Hc Hfresh. destruct (decide (num_children n < 48)) as [Hlt|Hge].
  { by apply add_child48_inplace. }
  assert (num_children n = 48) as Hn.
  { pose proof (ok_le _ _ _ Hok) as Hle. rewrite Ht in Hle. cbn in Hle. lia. }
  pose proof (grow48 n keys children Hok Ht Hn) as Hr.
  unfold add_child48. rewrite bool_decide_eq_false_2 by done.
  eapply adds_relayout; [exact Hr|]. destruct (Hr) as (Hok' & _).
  apply add_child256_ok; [done|done|done|by eapply relayout_fresh].
Qed.

Lemma add_child16_ok n keys children c child :
  node_ok n keys children → type n = NODE16 → in_u8 c →
  c ∉ (entries n keys children).*1 →
  adds n keys children c child (add_child16 n keys children c child).
Proof.
  intros Hok Ht Hc Hfresh. destruct (decide (num_children n < 16)) as [Hlt|Hge].
  { by apply add_child16_inplace. }
  assert (num_children n = 16) as Hn.
  { pose proof (small_num _ _ _ Hok (or_intror Ht)). lia. }
  pose proof (grow16 n keys children Hok Ht Hn) as Hr.
  unfold add_child16. rewrite bool_decide_eq_false_2 by done.
  eapply adds_relayout; [exact Hr|]. destruct (Hr) as (Hok' & _).
  apply add_child48_ok; [done|done|done|by eapply relayout_fresh].
Qed.

(** Adding a child under a byte that has none succeeds on every layout, full
    or not, and adds exactly that entry. *)
Lemma add_child_ok n keys children c child :
  node_ok n keys children → in_u8 c → c ∉ (entries n keys children).*1 →
  adds n keys children c child (add_child n keys children c child).
Proof.
  intros Hok Hc Hfresh. unfold add_child.
  destruct (type n) eqn:Ht; auto using add_child4_ok, add_child16_ok, add_child48_ok, add_child256_ok.
Qed.
End Node.
