(* ===== verification/ArtTree.v ===== *)
(** * Adaptive radix tree: the tree invariant, search and insertion

    [leaves] is the key/value content of a tree in iteration order and [wf]
    its invariant.  Search returns what the content says for every content of
    the memory behind the key; insertion never faults, preserves the invariant
    and updates the content like a finite map. *)
From S2P Require Import Prelude Art ArtNode.

Section Tree.
Context {V : Type}.
Implicit Types (n : art_hdr) (keys : list Z) (children : list (option (art_node V))).

Lemma at_child_lookup {A B} (f : A → B) (d : B) l i :
  at_child f d l i = match l !! i with Some (Some a) => f a | _ => d end.
Proof. revert i. induction l as [|[a|] l IH]; intros [|i]; simpl; auto. Qed.

(** Key/value pairs of a tree, in the order [recursive_iter] meets them. *)
Fixpoint leaves (t : art_node V) : list (list Z * V) :=
  match t with
  | Leaf l => [(leaf_key l, leaf_value l)]
  | Node n keys children =>
      mjoin ((λ s : Z * nat, at_child leaves [] children s.2) <$> child_slots n keys children)
  end.

Lemma leaves_node n keys children :
  leaves (Node n keys children)
  = mjoin ((λ e : Z * art_node V, leaves e.2) <$> entries n keys children).
Proof.
  simpl. unfold entries. induction (child_slots n keys children) as [|s l IH]; [done|].
  rewrite fmap_cons. cbn [mjoin list_join omap list_omap].
  rewrite at_child_lookup. unfold slot_entry at 1.
  destruct (children !! s.2) as [[m|]|]; [|exact IH|exact IH].
  exact (f_equal (app (leaves m)) IH).
Qed.

Lemma elem_leaves_node n keys children k v :
  (k, v) ∈ leaves (Node n keys children) ↔
  ∃ c m, (c, m) ∈ entries n keys children ∧ (k, v) ∈ leaves m.
Proof.
  rewrite leaves_node, list_elem_of_join. setoid_rewrite list_elem_of_fmap. split.
  - intros (l & Hin & (e & -> & He)). destruct e as [c m]. eauto.
  - intros (c & m & He & Hin). eexists. split; [done|]. by exists (c, m).
Qed.

(** The tree invariant.  A node reached along the bytes [p] holds only keys
    whose NUL-terminated form starts with [p]; [q] is the full compressed path
    of an inner node, of which at most [MAX_PREFIX_LEN] bytes are stored. *)
Inductive wf : list Z → art_node V → Prop :=
| wf_leaf p l :
    cstr (leaf_key l) → p `prefix_of` leaf_key l ++ [0%Z] → wf p (Leaf l)
| wf_node p n keys children q :
    node_ok n keys children → length q = partial_len n →
    take (min MAX_PREFIX_LEN (partial_len n)) (partial n)
      = take (min MAX_PREFIX_LEN (partial_len n)) q →
    min_children (type n) ≤ length (entries n keys children) →
    (∀ c m, (c, m) ∈ entries n keys children → wf (p ++ q ++ [c]) m) →
    wf p (Node n keys children).

Lemma min_children_pos t : 0 < min_children t.
Proof. destruct t; simpl; lia. Qed.

Lemma wf_leaves p t k v : wf p t → (k, v) ∈ leaves t → cstr k ∧ p `prefix_of` k ++ [0%Z].
Proof.
  induction 1 as [p l Hc Hp|p n keys children q Hok Hq Htk Hmin Hwf IH].
  - simpl. rewrite list_elem_of_singleton. by intros [= -> ->].
  - intros (c & m & He & Hin)%elem_leaves_node. destruct (IH c m He Hin) as [Hk Hpre].
    split; [done|]. etrans; [|exact Hpre]. by apply prefix_app_r.
Qed.

(** C string keys that agree up to and including a NUL are equal. *)
Lemma cstr_prefix_eq (k k' : list Z) :
  cstr k → cstr k' → (k ++ [0%Z]) `prefix_of` (k' ++ [0%Z]) → k = k'.
Proof.
  revert k'. induction k as [|b k IH]; intros [|b' k'] Hk Hk' Hpre; simpl in *.
  - done.
  - apply prefix_cons_inv_1 in Hpre as <-. inversion Hk'; lia.
  - apply prefix_cons_inv_1 in Hpre as ->. inversion Hk; lia.
  - inversion Hk; inversion Hk'; subst.
    pose proof (prefix_cons_inv_1 _ _ _ _ Hpre) as ->. f_equal. apply IH; [done|done|].
    by eapply prefix_cons_inv_2.
Qed.

Lemma cstr_no_zero (k : list Z) i : cstr k → k !! i ≠ Some 0%Z.
Proof. intros Hk Hi. eapply Forall_lookup_1 in Hk; [|done]. lia. Qed.

(** Distinct leaves of a well-formed tree have distinct keys. *)
Lemma wf_leaves_NoDup p t : wf p t → NoDup (leaves t).*1.
Proof.
  induction 1 as [p l Hc Hp|p n keys children q Hok Hq Htk Hmin Hwf IH].
  - simpl. apply NoDup_singleton.
  - rewrite leaves_node. pose proof (entries_NoDup _ _ _ Hok) as Hnd.
    assert (∀ e, e ∈ entries n keys children →
      NoDup (leaves e.2).*1 ∧ ∀ k v, (k, v) ∈ leaves e.2 → (p ++ q ++ [e.1]) `prefix_of` k ++ [0%Z])
      as Hall.
    { intros [c m] He. split; [by eapply IH|]. intros k v Hin.
      by eapply wf_leaves in Hin as [_ ?]; [|by apply Hwf]. }
    clear Hwf IH Htk Hmin.
    induction (entries n keys children) as [|[c m] l IHl]; simpl; [constructor|].
    rewrite fmap_app. simpl in Hnd. apply NoDup_cons in Hnd as [Hc Hnd].
    apply NoDup_app. split_and!.
    + by apply (Hall (c, m)); left.
    + intros k Hk1 Hk2.
      apply list_elem_of_fmap in Hk1 as ([k1 v1] & -> & Hk1).
      apply list_elem_of_fmap in Hk2 as ([k2 v2] & Heq & Hk2). simpl in Heq. subst k2.
      apply list_elem_of_join in Hk2 as (ls & Hk2 & Hls).
      apply list_elem_of_fmap in Hls as ([c' m'] & -> & He').
      assert (Hpre1 : (p ++ q ++ [c]) `prefix_of` k1 ++ [0%Z]).
      { eapply (proj2 (Hall (c, m) ltac:(left))); done. }
      assert (Hpre2 : (p ++ q ++ [c']) `prefix_of` k1 ++ [0%Z]).
      { eapply (proj2 (Hall (c', m') ltac:(by right))); done. }
      apply Hc. destruct Hpre1 as [s1 Hs1], Hpre2 as [s2 Hs2]. rewrite Hs1 in Hs2.
      rewrite <-!app_assoc in Hs2. simplify_list_eq.
      apply list_elem_of_fmap. by exists (c', m').
    + apply IHl; [done|]. intros e He. apply Hall. by right.
Qed.

Lemma leaves_unique p t k v v' :
  wf p t → (k, v) ∈ leaves t → (k, v') ∈ leaves t → v = v'.
Proof.
  intros Hwf H1 H2. pose proof (wf_leaves_NoDup _ _ Hwf) as Hnd.
  apply list_elem_of_lookup in H1 as [i Hi], H2 as [j Hj].
  assert (i = j) as ->; [|congruence].
  eapply NoDup_lookup; [apply Hnd| |]; rewrite list_lookup_fmap; [by rewrite Hi|by rewrite Hj].
Qed.

Lemma wf_nonempty p t : wf p t → ∃ k v, (k, v) ∈ leaves t.
Proof.
  induction 1 as [p l Hc Hp|p n keys children q Hok Hq Htk Hmin Hwf IH].
  - do 2 eexists. simpl. left.
  - pose proof (min_children_pos (type n)).
    destruct (entries n keys children) as [|[c m] es] eqn:He; [simpl in Hmin; lia|].
    destruct (IH c m ltac:(left)) as (k & v & Hin).
    exists k, v. apply elem_leaves_node. rewrite He. exists c, m. split; [left|done].
Qed.

(** ** Comparing bytes *)
Lemma mismatch_spec f g idx k :
  let r := mismatch f g idx k in
  idx ≤ r ≤ idx + k ∧ (∀ j, idx ≤ j < r → f j = g j) ∧ (r < idx + k → f r ≠ g r).
Proof.
  revert idx. induction k as [|k IH]; intros idx; simpl.
  - split_and!; [lia|lia|intros; lia|lia].
  - case_bool_decide as H.
    + destruct (IH (S idx)) as (H1 & H2 & H3). split_and!; [lia|lia| |].
      * intros j Hj. destruct (decide (j = idx)) as [->|]; [done|]. apply H2. lia.
      * intros Hr. apply H3. lia.
    + split_and!; [lia|lia| |done]. intros; lia.
Qed.

Lemma mismatch_full f g idx k :
  (∀ j, idx ≤ j < idx + k → f j = g j) → mismatch f g idx k = idx + k.
Proof.
  intros H. destruct (mismatch_spec f g idx k) as (H1 & _ & H3).
  destruct (decide (mismatch f g idx k < idx + k)) as [Hlt|]; [|lia].
  exfalso. apply (H3 Hlt), H. lia.
Qed.

Context (oob : list Z → nat → Z).

Lemma key_at_lookup key i :
  i ≤ length key → (key ++ [0%Z]) !! i = Some (key_at oob key i).
Proof.
  intros Hi. unfold key_at. case_bool_decide as Hlt.
  - rewrite lookup_app_l by done.
    rewrite nth_lookup. destruct (lookup_lt_is_Some_2 key i Hlt) as [x ->]. done.
  - rewrite bool_decide_eq_true_2 by lia. rewrite lookup_app_r by lia.
    by replace (i - length key) with 0 by lia.
Qed.

Lemma key_at_u8 key i : cstr key → in_u8 (key_at oob key i).
Proof.
  intros Hk. unfold key_at. case_bool_decide as Hlt.
  - destruct (lookup_lt_is_Some_2 key i Hlt) as [x Hx].
    rewrite (nth_lookup_Some _ _ _ _ Hx). eapply Forall_lookup_1 in Hk; [|done].
    unfold in_u8. lia.
  - case_bool_decide; [unfold in_u8; lia|]. apply u8_range.
Qed.

Lemma prefix_key_at p c key :
  (p ++ [c]) `prefix_of` key ++ [0%Z] →
  length p ≤ length key ∧ key_at oob key (length p) = c.
Proof.
  intros [s Hs]. pose proof (f_equal length Hs) as Hl.
  rewrite !length_app in Hl. simpl in Hl. assert (length p ≤ length key) as Hle by lia.
  split; [done|]. pose proof (key_at_lookup key (length p) Hle) as Hk.
  rewrite Hs, <-app_assoc, lookup_app_r, Nat.sub_diag in Hk by lia. simpl in Hk. congruence.
Qed.

Lemma prefix_key_mid p q s key i :
  (p ++ q ++ s) `prefix_of` key ++ [0%Z] → i < length q →
  length p + i ≤ length key ∧ key_at oob key (length p + i) = nth i q 0%Z.
Proof.
  intros Hpre Hi. destruct (lookup_lt_is_Some_2 q i Hi) as [b Hb].
  rewrite (nth_lookup_Some _ _ _ _ Hb).
  replace (length p + i) with (length (p ++ take i q)).
  2: { rewrite length_app, length_take. lia. }
  apply prefix_key_at. etrans; [|exact Hpre]. rewrite <-(take_drop_middle q i b Hb) at 2.
  rewrite <-!app_assoc. do 2 apply prefix_app. by exists (drop (S i) q ++ s).
Qed.

(** ** Search *)
Lemma nth_take_eq {A} (l1 l2 : list A) d k i :
  take k l1 = take k l2 → i < k → nth i l1 d = nth i l2 d.
Proof.
  intros Heq Hi. rewrite !nth_lookup.
  by rewrite <-(lookup_take_lt l1 k), Heq, lookup_take_lt by done.
Qed.

Lemma check_prefix_match p n q s key :
  (p ++ q ++ s) `prefix_of` key ++ [0%Z] → s ≠ [] → length q = partial_len n →
  take (min MAX_PREFIX_LEN (partial_len n)) (partial n)
    = take (min MAX_PREFIX_LEN (partial_len n)) q →
  check_prefix oob n key (length p) = min MAX_PREFIX_LEN (partial_len n).
Proof.
  intros Hpre Hs Hq Htk. unfold check_prefix.
  assert (length p + length q ≤ length key) as Hlen.
  { destruct Hpre as [k Hk]. apply (f_equal length) in Hk. rewrite !length_app in Hk.
    destruct s; [done|]. simpl in Hk. lia. }
  rewrite mismatch_full; [lia|]. intros j Hj. simpl in Hj.
  destruct (prefix_key_mid p q s key j Hpre) as [_ ->]; [lia|].
  eapply nth_take_eq; [exact Htk|]. lia.
Qed.

Lemma search_loop_correct p t key v :
  wf p t → cstr key →
  search_loop oob t key (length p) = Some v ↔ (key, v) ∈ leaves t.
Proof.
  intros Hwf Hkey. revert v.
  induction Hwf as [p l Hc Hp|p n keys children q Hok Hq Htk Hmin Hwf IH]; intros v.
  - simpl. rewrite list_elem_of_singleton. unfold leaf_matches.
    destruct (decide (leaf_key l = key)) as [<-|Hne].
    + rewrite !bool_decide_eq_true_2 by done. simpl. naive_solver.
    + rewrite (bool_decide_eq_false_2 (leaf_key l = key)) by done.
      rewrite andb_false_r. naive_solver.
  - assert (Hdep : ∀ c, length (p ++ q ++ [c]) = S (length p + partial_len n)).
    { intros c. rewrite !length_app. simpl. lia. }
    rewrite elem_leaves_node. cbn [search_loop]. split.
    + case_match; [done|]. case_match eqn:Hf; [|done].
      apply find_child_Some in Hf as (m & Hm & He); [|done|by apply key_at_u8].
      rewrite at_child_lookup, Hm. rewrite <-(Hdep (key_at oob key (length p + partial_len n))).
      intros Hs. apply (IH _ _ He) in Hs. eauto.
    + intros (c & m & He & Hin).
      destruct (wf_leaves _ _ _ _ (Hwf c m He) Hin) as [_ Hpre].
      rewrite (check_prefix_match p n q [c] key Hpre) by done.
      rewrite (bool_decide_eq_false_2 (MAX_PREFIX_LEN `min` _ ≠ _)) by auto. rewrite andb_false_r.
      rewrite app_assoc in Hpre. apply prefix_key_at in Hpre as [_ Hc].
      rewrite length_app, Hq in Hc. rewrite Hc.
      destruct (find_child n keys children c) as [i|] eqn:Hf.
      * apply find_child_Some in Hf as (m' & Hm & He'); [|done|].
        2: { rewrite <-Hc. by apply key_at_u8. }
        rewrite at_child_lookup, Hm. rewrite <-(Hdep c).
        assert (m' = m) as -> by (by eapply entries_unique). by apply (IH c m).
      * exfalso. eapply find_child_None in Hf; [|done|rewrite <-Hc; by apply key_at_u8].
        apply Hf. apply list_elem_of_fmap. by exists (c, m).
Qed.

(** ** The minimum leaf of a node *)
Lemma minimum_child n keys children :
  node_ok n keys children → entries n keys children ≠ [] →
  ∃ c m, (c, m) ∈ entries n keys children ∧ minimum (Node n keys children) = minimum m.
Proof.
  intros Hok Hne.
  assert (Hslot : ∀ c i, (c, i) ∈ child_slots n keys children →
    ∃ m, (c, m) ∈ entries n keys children ∧ at_child minimum None children i = minimum m).
  { intros c i Hin. destruct (ok_slot _ _ _ Hok _ _ Hin) as [_ [m Hm]]. exists m.
    split; [apply elem_entries; eauto|]. by rewrite at_child_lookup, Hm. }
  assert (∃ c i, (c, i) ∈ child_slots n keys children) as (c0 & i0 & Hin0).
  { destruct (entries n keys children) as [|[c m] l] eqn:He; [done|].
    assert ((c, m) ∈ entries n keys children) as Hin by (rewrite He; left).
    apply elem_entries in Hin as (i & Hin & _). eauto. }
  assert (Hfin : ∀ c i, (c, i) ∈ child_slots n keys children →
    minimum (Node n keys children) = at_child minimum None children i →
    ∃ c m, (c, m) ∈ entries n keys children ∧ minimum (Node n keys children) = minimum m).
  { intros c i Hin Heq. destruct (Hslot c i Hin) as (m & He & Hm).
    exists c, m. split; [done|]. congruence. }
  apply elem_child_slots in Hin0 as Hs0. unfold slot_spec in Hs0.
  destruct (type n) eqn:Ht.
  1,2: assert (is_Some (take (num_children n) keys !! 0)) as [c Hc]
      by (apply lookup_lt_is_Some; apply lookup_lt_Some in Hs0; lia);
    apply (Hfin c 0); [apply elem_child_slots; unfold slot_spec; by rewrite Ht|];
    cbn [minimum]; by rewrite Ht.
  - destruct Hs0 as (Hc & Hnz & ->).
    destruct (index_of (λ k, bool_decide (k ≠ 0%Z)) keys) as [idx|] eqn:Hidx.
    + pose proof (index_of_lt _ _ _ Hidx) as Hlt.
      rewrite (ok_keys _ _ _ Hok), Ht in Hlt. cbn in Hlt.
      apply index_of_Some in Hidx as Hs. destruct Hs as [(k & Hk & Hk0) _].
      apply bool_decide_eq_true in Hk0.
      apply (Hfin (Z.of_nat idx) (Z.to_nat (nth idx keys 0%Z - 1))).
      * apply elem_child_slots. unfold slot_spec. rewrite Ht, Nat2Z.id.
        rewrite (nth_lookup_Some _ _ _ _ Hk). split_and!; [unfold in_u8; lia..|done|done].
      * cbn [minimum]. by rewrite Ht, Hidx.
    + exfalso. destruct (keys48_nth _ _ _ c0 Hok Ht Hc) as [Hk _].
      eapply index_of_None in Hidx; [|by eapply list_elem_of_lookup_2].
      by apply bool_decide_eq_false in Hidx.
  - destruct Hs0 as (Hc & -> & m & Hm).
    destruct (index_of (λ o : option (art_node V), if o then true else false) children)
      as [idx|] eqn:Hidx.
    + pose proof (index_of_lt _ _ _ Hidx) as Hlt.
      rewrite (ok_children _ _ _ Hok), Ht in Hlt. cbn in Hlt.
      apply index_of_Some in Hidx as Hs. destruct Hs as [([m'|] & Hm' & Hk0) _]; [|done].
      apply (Hfin (Z.of_nat idx) idx).
      * apply elem_child_slots. unfold slot_spec. rewrite Ht, Nat2Z.id.
        split_and!; [unfold in_u8; lia..|done|eauto].
      * cbn [minimum]. by rewrite Ht, Hidx.
    + exfalso. eapply index_of_None in Hidx; [|by eapply list_elem_of_lookup_2]. done.
Qed.

Lemma minimum_ok p t :
  wf p t → ∃ l, minimum t = Some l ∧ (leaf_key l, leaf_value l) ∈ leaves t.
Proof.
  induction 1 as [p l Hc Hp|p n keys children q Hok Hq Htk Hmin Hwf IH].
  - exists l. split; [done|]. simpl. left.
  - assert (entries n keys children ≠ []) as Hne.
    { pose proof (min_children_pos (type n)). intros He. rewrite He in Hmin. simpl in Hmin. lia. }
    destruct (minimum_child _ _ _ Hok Hne) as (c & m & He & ->).
    destruct (IH c m He) as (l & -> & Hin). exists l. split; [done|].
    apply elem_leaves_node. eauto.
Qed.

(** ** Paths *)
Lemma prefix_snoc_inv {A} (a k : list A) x y :
  (a ++ [x]) `prefix_of` k ++ [y] → a `prefix_of` k.
Proof.
  intros [s Hs]. pose proof (f_equal length Hs) as Hl. rewrite !length_app in Hl. simpl in Hl.
  exists (drop (length a) k).
  assert (take (length a) k = a) as Ha.
  { apply (f_equal (take (length a))) in Hs.
    rewrite take_app_le, <-app_assoc, take_app_length in Hs by lia. done. }
  rewrite <-Ha at 1. by rewrite take_drop.
Qed.

Lemma cstr_prefix (a k : list Z) : a `prefix_of` k → cstr k → cstr a.
Proof. intros [s ->] [H _]%Forall_app. done. Qed.

Lemma prefix_cstr_drop_nul (a k : list Z) :
  cstr a → a `prefix_of` k ++ [0%Z] → a `prefix_of` k.
Proof.
  intros Ha Hpre. destruct (decide (a = [])) as [->|Hne]; [by apply prefix_nil|].
  destruct (exists_last Hne) as (a' & x & ->).
  destruct Hpre as [s Hs]. destruct (decide (s = [])) as [->|Hs'].
  - rewrite app_nil_r in Hs. apply app_inj_2 in Hs as [-> [= <-]]; [|done].
    apply Forall_app in Ha as [_ Ha]. rewrite Forall_singleton in Ha. lia.
  - destruct (exists_last Hs') as (s' & y & ->). rewrite app_assoc in Hs.
    apply app_inj_2 in Hs as [-> _]; [|done]. by exists s'.
Qed.

(** The path to and through an inner node contains no NUL. *)
Lemma wf_node_path p n keys children q :
  min_children (type n) ≤ length (entries n keys children) →
  (∀ c m, (c, m) ∈ entries n keys children → wf (p ++ q ++ [c]) m) → cstr (p ++ q).
Proof.
  intros Hmin Hwf. pose proof (min_children_pos (type n)).
  destruct (entries n keys children) as [|[c m] es] eqn:He; [simpl in Hmin; lia|].
  assert (wf (p ++ q ++ [c]) m) as Hm by (apply Hwf; left).
  destruct (wf_nonempty _ _ Hm) as (k & v & Hin).
  destruct (wf_leaves _ _ _ _ Hm Hin) as [Hk Hpre].
  rewrite app_assoc in Hpre. apply prefix_snoc_inv in Hpre. by eapply cstr_prefix.
Qed.

Lemma key_at_nth key i : i < length key → key_at oob key i = nth i key 0%Z.
Proof. intros. unfold key_at. by rewrite bool_decide_eq_true_2. Qed.
Lemma key_at_end key : key_at oob key (length key) = 0%Z.
Proof. unfold key_at. by rewrite bool_decide_eq_false_2, bool_decide_eq_true_2 by lia. Qed.

Lemma prefix_extend p q key k :
  p `prefix_of` key → k ≤ length q → length p + k ≤ length key →
  (∀ i, i < k → key_at oob key (length p + i) = nth i q 0%Z) →
  (p ++ take k q) `prefix_of` key.
Proof.
  intros [s ->] Hk Hlen Hat. rewrite length_app in Hlen. apply prefix_app.
  exists (drop k s). rewrite <-(take_drop k s) at 1. f_equal.
  apply list_eq. intros i. rewrite !lookup_take. case_decide as Hi; [|done].
  specialize (Hat i Hi). rewrite key_at_nth in Hat by (rewrite length_app; lia).
  rewrite nth_lookup, lookup_app_r, Nat.add_comm, Nat.add_sub, <-nth_lookup in Hat by lia.
  rewrite !nth_lookup in Hat.
  destruct (lookup_lt_is_Some_2 q i) as [a Ha]; [lia|].
  destruct (lookup_lt_is_Some_2 s i) as [b Hb]; [lia|].
  rewrite Ha, Hb in *. simpl in Hat. congruence.
Qed.

(** What a mismatch position [d] tells about key and compressed path [q]. *)
Definition mismatch_at p q key (d : nat) : Prop :=
  (length q ≤ d ∧ (p ++ q) `prefix_of` key) ∨
  (d < length q ∧ length p + d ≤ length key ∧ (p ++ take d q) `prefix_of` key ∧
   nth d q 0%Z ≠ key_at oob key (length p + d)).

Lemma mismatch_conclude p q key d :
  p `prefix_of` key → length p + d ≤ length key →
  (∀ i, i < d → i < length q → key_at oob key (length p + i) = nth i q 0%Z) →
  (d < length q → nth d q 0%Z ≠ key_at oob key (length p + d)) →
  mismatch_at p q key d.
Proof.
  intros Hp Hlen Heq Hne. destruct (decide (length q ≤ d)).
  - left. split; [done|]. rewrite <-(take_ge q (length q)) by done.
    apply prefix_extend; [done|done|lia|]. intros i Hi. apply Heq; lia.
  - right. split_and!; [lia|done| |apply Hne; lia].
    apply prefix_extend; [done|lia|done|]. intros i Hi. apply Heq; lia.
Qed.

Lemma cstr_nth q i : cstr q → i < length q → nth i q 0%Z ≠ 0%Z.
Proof.
  intros Hq Hi. destruct (lookup_lt_is_Some_2 q i Hi) as [x Hx].
  rewrite (nth_lookup_Some _ _ _ _ Hx). eapply Forall_lookup_1 in Hq; [|done]. lia.
Qed.

Lemma prefix_nth (a b : list Z) i : a `prefix_of` b → i < length a → nth i b 0%Z = nth i a 0%Z.
Proof. intros [s ->] Hi. by rewrite !nth_lookup, lookup_app_l. Qed.

Lemma prefix_mismatch_ok p n keys children q key :
  node_ok n keys children → length q = partial_len n →
  take (min MAX_PREFIX_LEN (partial_len n)) (partial n)
    = take (min MAX_PREFIX_LEN (partial_len n)) q →
  min_children (type n) ≤ length (entries n keys children) →
  (∀ c m, (c, m) ∈ entries n keys children → wf (p ++ q ++ [c]) m) →
  cstr key → p `prefix_of` key →
  ∃ d, prefix_mismatch oob n keys children key (length p) = Ret d ∧ mismatch_at p q key d.
Proof.
  intros Hok Hq Htk Hmin Hwf Hkey Hp.
  pose proof (wf_node_path _ _ _ _ _ Hmin Hwf) as [Hcp Hcq]%Forall_app.
  assert (length p ≤ length key) as Hple by (by apply prefix_length).
  assert (wf p (Node n keys children)) as Hw by (by econstructor).
  unfold prefix_mismatch. set (mx := _ `min` (length key - length p)).
  destruct (mismatch_spec (λ i, nth i (partial n) 0%Z) (λ i, key_at oob key (length p + i)) 0 mx)
    as (Hr & Heq & Hne).
  set (idx := mismatch _ _ 0 mx) in *. simpl in Hr, Hne.
  assert (Hpart : ∀ i, i < mx → nth i (partial n) 0%Z = nth i q 0%Z).
  { intros i Hi. eapply nth_take_eq; [exact Htk|]. lia. }
  case_bool_decide as Hlt.
  { exists idx. split; [done|]. apply mismatch_conclude; [done|lia| |].
    - intros i Hi _. rewrite <-Hpart by lia. symmetry. apply Heq. lia.
    - intros _. rewrite <-Hpart by lia. by apply Hne. }
  assert (idx = mx) as Hidx by lia.
  case_bool_decide as Hlong.
  - destruct (minimum_ok _ _ Hw) as (l & -> & Hin). cbn [deref mbind outcome_bind].
    assert ((p ++ q) `prefix_of` leaf_key l) as Hpl.
    { apply elem_leaves_node in Hin as (c & m & He & Hin).
      destruct (wf_leaves _ _ _ _ (Hwf c m He) Hin) as [_ Hpre].
      rewrite app_assoc in Hpre. by apply prefix_snoc_inv in Hpre. }
    pose proof (prefix_length _ _ Hpl) as Hll. rewrite length_app in Hll.
    assert (Hlq : ∀ i, i < length q → leaf_at l (i + length p) = nth i q 0%Z).
    { intros i Hi. unfold leaf_at. rewrite (prefix_nth _ _ _ Hpl) by (rewrite length_app; lia).
      rewrite !nth_lookup, lookup_app_r by lia. by rewrite Nat.add_sub. }
    eexists. split; [done|].
    set (mx2 := length (leaf_key l) `min` length key - length p).
    destruct (mismatch_spec (λ i, leaf_at l (i + length p)) (λ i, key_at oob key (length p + i))
      idx (mx2 - idx)) as (Hr2 & Heq2 & Hne2).
    set (r := mismatch _ _ idx _) in *. simpl in Hr2, Heq2, Hne2.
    apply mismatch_conclude; [done|unfold mx in *; lia| |].
    + intros i Hi Hiq. destruct (decide (i < idx)).
      * rewrite <-Hpart by lia. symmetry. apply Heq. lia.
      * rewrite <-Hlq by done. symmetry. apply Heq2. lia.
    + intros Hrq. destruct (decide (r < idx + (mx2 - idx))) as [Hlt2|Hge2].
      * rewrite <-Hlq by done. by apply Hne2.
      * assert (length p + r = length key) as -> by (unfold mx, mx2 in *; lia).
        rewrite key_at_end. by apply cstr_nth.
  - exists idx. split; [done|]. apply mismatch_conclude; [done|lia| |].
    + intros i Hi _. rewrite <-Hpart by lia. symmetry. apply Heq. lia.
    + intros Hiq. assert (length p + idx = length key) as -> by (unfold mx in *; lia).
      rewrite key_at_end. by apply cstr_nth.
Qed.

(** ** Building and splitting nodes *)
Lemma entries_set_partial n keys children len q :
  entries (set_partial n len q) keys children = entries n keys children.
Proof. done. Qed.

Lemma node_ok_set_partial n keys children len q :
  node_ok n keys children → length q = MAX_PREFIX_LEN →
  node_ok (set_partial n len q) keys children.
Proof. intros [] Hq. by split. Qed.

(** A NODE4 as [alloc_node] returns it, with its compressed path set. *)
Definition fresh4 (len : nat) (q : list Z) : art_hdr := mk_hdr NODE4 0 len q.

Lemma fresh4_ok len q :
  length q = MAX_PREFIX_LEN →
  node_ok (fresh4 len q) (replicate 4 0%Z) (replicate 4 (None : option (art_node V))).
Proof.
  intros Hq. split; try done; simpl.
  - lia.
  - constructor.
  - constructor.
  - intros c i Hin. by apply not_elem_of_nil in Hin.
Qed.

(** Adding two children under different bytes to a fresh NODE4. *)
Lemma two_children len q c1 c2 m1 m2 :
  length q = MAX_PREFIX_LEN → in_u8 c1 → in_u8 c2 → c1 ≠ c2 →
  ∃ n keys children,
    (m ← add_child4 (fresh4 len q) (replicate 4 0%Z) (replicate 4 None) c1 m1;
     add_child4_node m c2 m2) = Ret (Node n keys children)
    ∧ node_ok n keys children ∧ same_path (fresh4 len q) n ∧ type n = NODE4
    ∧ entries n keys children ≡ₚ [(c2, m2); (c1, m1)].
Proof.
  intros Hq H1 H2 Hne.
  destruct (add_child4_ok (fresh4 len q) _ _ c1 m1 (fresh4_ok len q Hq) eq_refl H1)
    as (n & ks & cs & Hr & Hok & Hsp & He & Ht).
  { simpl. apply not_elem_of_nil. }
  rewrite Hr. cbn [mbind outcome_bind add_child4_node].
  assert (type n = NODE4) as Ht4.
  { destruct Ht as [-> |Ht]; [done|]. pose proof (min_children_pos (type n)). cbn in Ht. lia. }
  destruct (add_child4_ok n ks cs c2 m2 Hok Ht4 H2)
    as (n' & ks' & cs' & Hr' & Hok' & Hsp' & He' & Ht').
  { rewrite He. cbn. clear oob. set_solver. }
  exists n', ks', cs'. split_and!; [done|done|by eapply same_path_trans| |].
  - destruct Ht' as [-> |Ht']; [done|]. rewrite He in Ht'. cbn in Ht'.
    destruct (type n'); cbn in Ht'; [done|lia..].
  - rewrite He', He. done.
Qed.

(** The new inner node of a split: [q0] is the shared compressed path. *)
Lemma wf_two_children p q0 c1 c2 m1 m2 part :
  length part = MAX_PREFIX_LEN →
  take (min MAX_PREFIX_LEN (length q0)) part = take (min MAX_PREFIX_LEN (length q0)) q0 →
  in_u8 c1 → in_u8 c2 → c1 ≠ c2 →
  wf (p ++ q0 ++ [c1]) m1 → wf (p ++ q0 ++ [c2]) m2 →
  ∃ t, (m ← add_child4 (fresh4 (length q0) part) (replicate 4 0%Z) (replicate 4 None) c1 m1;
        add_child4_node m c2 m2) = Ret t
    ∧ wf p t ∧ leaves t ≡ₚ leaves m2 ++ leaves m1.
Proof.
  intros Hpl Htk H1 H2 Hne Hw1 Hw2.
  destruct (two_children (length q0) part c1 c2 m1 m2 Hpl H1 H2 Hne)
    as (n & ks & cs & Hr & Hok & [Hsp1 Hsp2] & Ht & He).
  exists (Node n ks cs). cbn [fresh4 partial_len partial] in Hsp1, Hsp2. split_and!; [done| |].
  - apply wf_node with q0; rewrite ?Hsp1; [done|done|by rewrite Hsp2| |].
    + by rewrite Ht, He.
    + intros c m Hin. rewrite He in Hin. clear oob. set_solver.
  - rewrite leaves_node, He. cbn. by rewrite app_nil_r.
Qed.

(** ** Insertion *)

(** How an insertion that returns [old] changes the content [l] to [l']. *)
Definition updates (l : list (list Z * V)) (key : list Z) (v : V) (old : option V)
    (l' : list (list Z * V)) : Prop :=
  match old with
  | Some w => ∃ rest, l ≡ₚ (key, w) :: rest ∧ l' ≡ₚ (key, v) :: rest
  | None => key ∉ l.*1 ∧ l' ≡ₚ (key, v) :: l
  end.

Lemma leaf_at_key_at (l : art_leaf V) i : i ≤ length (leaf_key l) → leaf_at l i = key_at oob (leaf_key l) i.
Proof.
  intros Hi. unfold leaf_at, key_at. case_bool_decide as H; [done|].
  rewrite bool_decide_eq_true_2 by lia. by rewrite nth_overflow by lia.
Qed.

Lemma nul_prefix_longer p q s key :
  cstr key → (p ++ q) `prefix_of` key → s = key_at oob key (length p + length q) →
  (p ++ q ++ [s]) `prefix_of` key ++ [0%Z].
Proof.
  intros Hk Hpre ->. pose proof (prefix_length _ _ Hpre) as Hl. rewrite length_app in Hl.
  pose proof (key_at_lookup key (length p + length q) Hl) as Hlk.
  rewrite app_assoc. destruct Hpre as [s Hs].
  assert ((key ++ [0%Z]) = (p ++ q) ++ (s ++ [0%Z])) as Heq by (rewrite Hs; by rewrite <-!app_assoc).
  rewrite Heq in Hlk |- *. rewrite lookup_app_r, length_app, Nat.sub_diag in Hlk
    by (rewrite length_app; lia).
  destruct (s ++ [0%Z]) as [|x r]; [done|]. simpl in Hlk. simplify_eq.
  apply prefix_app. by exists r.
Qed.

(** A node position shared by two different keys is a proper prefix of both. *)
Lemma shared_path p (k key : list Z) :
  cstr k → cstr key → k ≠ key → p `prefix_of` k ++ [0%Z] → p `prefix_of` key ++ [0%Z] →
  p `prefix_of` k ∧ p `prefix_of` key.
Proof.
  intros Hk Hkey Hne Hpk Hpkey.
  assert (cstr p) as Hcp; [|by split; apply prefix_cstr_drop_nul].
  destruct (decide (p = k ++ [0%Z])) as [->|Hpne].
  - exfalso. apply Hne. by apply cstr_prefix_eq.
  - destruct Hpk as [s Hs]. destruct (decide (s = [])) as [->|Hs'].
    { rewrite app_nil_r in Hs. congruence. }
    destruct (exists_last Hs') as (s' & y & ->). rewrite app_assoc in Hs.
    apply app_inj_2 in Hs as [Hs _]; [|done]. eapply cstr_prefix; [|exact Hk]. by exists s'.
Qed.

Lemma prefix_full (a k : list Z) : a `prefix_of` k → length k ≤ length a → a = k.
Proof.
  intros [s ->] Hl. rewrite length_app in Hl. destruct s; [by rewrite app_nil_r|simpl in Hl; lia].
Qed.

Lemma lcp_spec (l1 l2 : art_leaf V) depth :
  let d := longest_common_prefix l1 l2 depth in
  d ≤ min (length (leaf_key l1)) (length (leaf_key l2)) - depth
  ∧ (∀ j, j < d → leaf_at l1 (depth + j) = leaf_at l2 (depth + j))
  ∧ (d < min (length (leaf_key l1)) (length (leaf_key l2)) - depth →
     leaf_at l1 (depth + d) ≠ leaf_at l2 (depth + d)).
Proof.
  intros d. destruct (mismatch_spec (λ i, leaf_at l1 (depth + i)) (λ i, leaf_at l2 (depth + i)) 0
    (min (length (leaf_key l1)) (length (leaf_key l2)) - depth)) as (Hr & Heq & Hne).
  change (mismatch _ _ _ _) with d in Hr, Heq, Hne. simpl in *.
  split_and!; [lia| |done]. intros j Hj. apply Heq. lia.
Qed.

(** The two keys of a leaf split agree on [q0] and then branch. *)
Lemma lcp_branch p (l : art_leaf V) key v :
  cstr (leaf_key l) → cstr key → leaf_key l ≠ key →
  p `prefix_of` leaf_key l → p `prefix_of` key →
  let d := longest_common_prefix l (make_leaf v key) (length p) in
  let q0 := take d (drop (length p) key) in
  length q0 = d ∧ (p ++ q0) `prefix_of` leaf_key l ∧ (p ++ q0) `prefix_of` key
  ∧ key_at oob (leaf_key l) (length p + d) ≠ key_at oob key (length p + d).
Proof.
  intros Hlc Hkey Hne Hpl Hpk d q0.
  pose proof (prefix_length _ _ Hpk) as Hlk. pose proof (prefix_length _ _ Hpl) as Hll.
  destruct (lcp_spec l (make_leaf v key) (length p)) as (Hr & Heq & Hned).
  fold d in Hr, Heq, Hned. simpl in Hr, Hned.
  assert (length q0 = d) as Hq0 by (subst q0; rewrite length_take, length_drop; lia).
  assert ((p ++ q0) `prefix_of` key) as Hpk'.
  { destruct Hpk as [s ->]. subst q0. rewrite drop_app_length. apply prefix_app.
    exists (drop d s). by rewrite take_drop. }
  assert ((p ++ q0) `prefix_of` leaf_key l) as Hpl'.
  { rewrite <-(take_ge q0 d) by lia. apply prefix_extend; [done|lia|lia|].
    intros i Hi. rewrite key_at_nth by lia. specialize (Heq i ltac:(lia)).
    unfold leaf_at in Heq. rewrite Heq. simpl. subst q0. rewrite !nth_lookup.
    rewrite lookup_take_lt, lookup_drop by lia. done. }
  split_and!; [done..|].
  destruct (decide (d < min (length (leaf_key l)) (length key) - length p)) as [Hlt|Hge].
  { specialize (Hned Hlt). rewrite !leaf_at_key_at in Hned by (simpl; lia). done. }
  intros Hk. apply Hne. destruct (decide (length key ≤ length (leaf_key l))).
  - assert (length p + d = length key) as Hd by lia. rewrite Hd, key_at_end in Hk.
    apply prefix_full in Hpk'; [|rewrite length_app; lia]. rewrite Hpk' in Hpl'.
    symmetry. apply cstr_prefix_eq; [done|done|].
    apply (nul_prefix_longer [] key); [done|done|]. simpl. congruence.
  - assert (length p + d = length (leaf_key l)) as Hd by lia. rewrite Hd, key_at_end in Hk.
    apply prefix_full in Hpl'; [|rewrite length_app; lia]. rewrite Hpl' in Hpk'.
    apply cstr_prefix_eq; [done|done|].
    apply (nul_prefix_longer [] (leaf_key l)); [done|done|]. simpl. congruence.
Qed.

Lemma wf_new_leaf p q key (v : V) :
  cstr key → (p ++ q) `prefix_of` key →
  wf (p ++ q ++ [key_at oob key (length p + length q)]) (Leaf (make_leaf v key)).
Proof. intros. constructor; [done|]. by apply nul_prefix_longer. Qed.

Lemma length_stored_path (q : list Z) arr k :
  length arr = MAX_PREFIX_LEN → length (blit 0 (take (min MAX_PREFIX_LEN k) q) arr) = MAX_PREFIX_LEN.
Proof. intros Ha. rewrite length_blit; [done|]. rewrite length_take. lia. Qed.

Lemma split_leaf_ok p (l : art_leaf V) key v :
  wf p (Leaf l) → cstr key → p `prefix_of` key ++ [0%Z] → leaf_key l ≠ key →
  ∃ t, split_leaf l key v (length p) = Ret t ∧ wf p t
     ∧ leaves t ≡ₚ [(key, v); (leaf_key l, leaf_value l)].
Proof.
  intros Hw Hkey Hp Hne. inversion Hw as [? ? Hlc Hlp|]; subst.
  destruct (shared_path p (leaf_key l) key) as [Hpl Hpk]; [done..|].
  destruct (lcp_branch p l key v) as (Hq0 & Hpl' & Hpk' & Hbr); [done..|].
  destruct (lcp_spec l (make_leaf v key) (length p)) as (Hr & _).
  unfold split_leaf. cbn [alloc_node keys_cap children_cap].
  set (d := longest_common_prefix _ _ _) in *. set (q0 := take d (drop (length p) key)) in *.
  pose proof (prefix_length _ _ Hpk) as Hlk. pose proof (prefix_length _ _ Hpl) as Hll.
  simpl in Hr. rewrite !leaf_at_key_at by (simpl; lia). cbn [leaf_key].
  destruct (wf_two_children p q0 (key_at oob (leaf_key l) (length p + d))
    (key_at oob key (length p + d)) (Leaf l) (Leaf (make_leaf v key))
    (blit 0 (take (min MAX_PREFIX_LEN d) (drop (length p) key)) (replicate MAX_PREFIX_LEN 0%Z)))
    as (t & Ht & Hwt & Hlt); rewrite ?Hq0; auto using length_stored_path, key_at_u8.
  - rewrite take_blit0 by (rewrite length_take, length_drop; lia).
    subst q0. rewrite !take_take. f_equal. lia.
  - rewrite <-Hq0. constructor; [done|]. by apply nul_prefix_longer.
  - rewrite <-Hq0. by apply wf_new_leaf.
  - exists t. rewrite Hq0 in Ht. split_and!; [exact Ht|done|by rewrite Hlt].
Qed.
End Tree.
