(* ===== verification/ArtInsert.v ===== *)
(** * Adaptive radix tree: insertion

    [recursive_insert] splits a leaf, splits a compressed path, descends or
    adds a child.  On every branch it returns without a fault, preserves the
    invariant [wf] and changes the content of the tree exactly at the key. *)
From S2P Require Import Prelude Art ArtNode ArtTree.

Section Insert.
Context {V : Type} (oob : list Z → nat → Z).
Implicit Types (n : art_hdr) (keys : list Z) (children : list (option (art_node V))).

(** An inner node whose compressed path [q] is cut after byte [d]. *)
Lemma wf_shortened p n keys children q d part :
  node_ok n keys children → length q = partial_len n →
  min_children (type n) ≤ length (entries n keys children) →
  (∀ c m, (c, m) ∈ entries n keys children → wf (p ++ q ++ [c]) m) →
  d < length q → length part = MAX_PREFIX_LEN →
  take (min MAX_PREFIX_LEN (partial_len n - (d + 1))) part
    = take (min MAX_PREFIX_LEN (partial_len n - (d + 1))) (drop (d + 1) q) →
  wf (p ++ take d q ++ [nth d q 0%Z])
    (Node (set_partial n (partial_len n - (d + 1)) part) keys children).
Proof.
  intros Hok Hq Hmin Hwf Hd Hpl Htk. apply wf_node with (drop (d + 1) q); try done.
  - by apply node_ok_set_partial.
  - rewrite length_drop. cbn. lia.
  - intros c m Hin. rewrite entries_set_partial in Hin. apply Hwf in Hin.
    destruct (lookup_lt_is_Some_2 q d Hd) as [b Hb].
    rewrite (nth_lookup_Some _ _ _ _ Hb), <-!app_assoc. cbn [app].
    rewrite <-(take_drop_middle q d b Hb), <-app_assoc in Hin.
    by replace (d + 1) with (S d) by lia.
Qed.

Lemma leaves_set_partial n keys children len q :
  leaves (Node (set_partial n len q) keys children) = leaves (Node n keys children).
Proof. done. Qed.

(** Every key below an inner node contains the node's full path. *)
Lemma leaf_has_path p n keys children q k v :
  (∀ c m, (c, m) ∈ entries n keys children → wf (p ++ q ++ [c]) m) →
  (k, v) ∈ leaves (Node n keys children) → (p ++ q) `prefix_of` k.
Proof.
  intros Hwf (c & m & He & Hin)%elem_leaves_node.
  destruct (wf_leaves _ _ _ _ (Hwf c m He) Hin) as [_ Hpre].
  rewrite app_assoc in Hpre. by apply prefix_snoc_inv in Hpre.
Qed.

Lemma split_prefix_ok p n keys children q key v d :
  node_ok n keys children → length q = partial_len n →
  take (min MAX_PREFIX_LEN (partial_len n)) (partial n)
    = take (min MAX_PREFIX_LEN (partial_len n)) q →
  min_children (type n) ≤ length (entries n keys children) →
  (∀ c m, (c, m) ∈ entries n keys children → wf (p ++ q ++ [c]) m) →
  cstr key → d < length q → (p ++ take d q) `prefix_of` key →
  nth d q 0%Z ≠ key_at oob key (length p + d) →
  ∃ t, split_prefix oob n keys children key v (length p) d = Ret t ∧ wf p t
     ∧ leaves t ≡ₚ (key, v) :: leaves (Node n keys children).
Proof.
  intros Hok Hq Htk Hmin Hwf Hkey Hd Hpre Hne.
  pose proof (wf_node_path _ _ _ _ _ Hmin Hwf) as [_ Hcq]%Forall_app.
  pose proof (ok_partial _ _ _ Hok) as Hpart.
  assert (wf p (Node n keys children)) as Hw by (by econstructor).
  assert (length (take d q) = d) as Hld by (rewrite length_take; lia).
  assert (Hsplit : ∀ part, length part = MAX_PREFIX_LEN →
    take (min MAX_PREFIX_LEN (partial_len n - (d + 1))) part
      = take (min MAX_PREFIX_LEN (partial_len n - (d + 1))) (drop (d + 1) q) →
    ∃ t, (m ← add_child4 (fresh4 d (blit 0 (take (min MAX_PREFIX_LEN d) (partial n))
                                      (replicate MAX_PREFIX_LEN 0%Z)))
              (replicate 4 0%Z) (replicate 4 None) (nth d q 0%Z)
              (Node (set_partial n (partial_len n - (d + 1)) part) keys children);
          add_child4_node m (key_at oob key (length p + d)) (Leaf (make_leaf v key))) = Ret t
      ∧ wf p t ∧ leaves t ≡ₚ (key, v) :: leaves (Node n keys children)).
  { intros part Hl Hpt.
    destruct (wf_two_children p (take d q) (nth d q 0%Z) (key_at oob key (length p + d))
      (Node (set_partial n (partial_len n - (d + 1)) part) keys children)
      (Leaf (make_leaf v key))
      (blit 0 (take (min MAX_PREFIX_LEN d) (partial n)) (replicate MAX_PREFIX_LEN 0%Z)))
      as (t & Ht & Hwt & Hlt); rewrite ?Hld; auto using length_stored_path, key_at_u8.
    - rewrite take_blit0 by (rewrite length_take; lia).
      rewrite !take_take. replace (min _ (min _ d)) with (min (min MAX_PREFIX_LEN d)
        (min MAX_PREFIX_LEN (partial_len n))) by lia.
      rewrite <-take_take, Htk, !take_take. f_equal. lia.
    - destruct (lookup_lt_is_Some_2 q d Hd) as [b Hb]. rewrite (nth_lookup_Some _ _ _ _ Hb).
      eapply Forall_lookup_1 in Hcq; [|done]. unfold in_u8. lia.
    - by apply wf_shortened.
    - rewrite <-Hld at 2. by apply wf_new_leaf.
    - exists t. rewrite Hld in Ht. split_and!; [done|done|by rewrite Hlt]. }
  unfold split_prefix. cbn [alloc_node keys_cap children_cap].
  case_bool_decide as Hlong.
  - rewrite (nth_take_eq (partial n) q 0%Z _ d Htk) by lia. apply Hsplit.
    + by apply length_stored_path.
    + rewrite take_blit0 by (rewrite length_take, length_drop; lia).
      rewrite take_take, Nat.min_id. apply list_eq. intros i. rewrite !lookup_take.
      case_decide; [|done]. rewrite !lookup_drop.
      rewrite <-(lookup_take_lt q (min MAX_PREFIX_LEN (partial_len n))) by lia.
      rewrite <-Htk, lookup_take_lt by lia. done.
  - destruct (minimum_ok _ _ Hw) as (l & -> & Hin). cbn [deref mbind outcome_bind].
    pose proof (leaf_has_path _ _ _ _ _ _ _ Hwf Hin) as [s Hs].
    replace (leaf_at l (length p + d)) with (nth d q 0%Z).
    2: { unfold leaf_at. rewrite !nth_lookup, Hs, <-app_assoc, lookup_app_r by lia.
         replace (length p + d - length p) with d by lia. by rewrite lookup_app_l by done. }
    apply Hsplit.
    + by apply length_stored_path.
    + rewrite Hs, take_blit0.
      2: { rewrite length_take, length_drop, !length_app. lia. }
      rewrite take_take, Nat.min_id.
      rewrite <-!app_assoc, drop_app_ge by lia.
      replace (length p + d + 1 - length p) with (d + 1) by lia.
      rewrite drop_app_le by lia. rewrite take_app_le by (rewrite length_drop; lia). done.
Qed.

(** ** Descending into a child *)
Lemma leaves_perm (es es' : list (Z * art_node V)) :
  es ≡ₚ es' →
  mjoin ((λ e : Z * art_node V, leaves e.2) <$> es)
  ≡ₚ mjoin ((λ e : Z * art_node V, leaves e.2) <$> es').
Proof. intros H. by rewrite H. Qed.

Lemma leaves_update n keys children c i m m' :
  node_ok n keys children → (c, i) ∈ child_slots n keys children →
  children !! i = Some (Some m) →
  ∃ rest, entries n keys children ≡ₚ (c, m) :: rest
    ∧ entries n keys (<[i := Some m']> children) ≡ₚ (c, m') :: rest
    ∧ leaves (Node n keys children) ≡ₚ leaves m ++ mjoin ((λ e : Z * art_node V, leaves e.2) <$> rest)
    ∧ leaves (Node n keys (<[i := Some m']> children))
        ≡ₚ leaves m' ++ mjoin ((λ e : Z * art_node V, leaves e.2) <$> rest).
Proof.
  intros Hok Hin Hm. destruct (update_child_entries n keys children c i m m') as (rest & H1 & H2);
    [done..|].
  exists rest. split_and!; [done|done| |].
  - rewrite leaves_node, H1. done.
  - rewrite leaves_node, H2. done.
Qed.

Lemma updates_app l key (v : V) old l' r :
  key ∉ r.*1 → updates l key v old l' → updates (l ++ r) key v old (l' ++ r).
Proof.
  intros Hr. unfold updates. destruct old as [w|].
  - intros (rest & H1 & H2). exists (rest ++ r). by rewrite H1, H2.
  - intros [Hl ->]. split; [|done]. rewrite fmap_app, not_elem_of_app. done.
Qed.

Lemma updates_perm l key (v : V) old l' k k' :
  l ≡ₚ k → l' ≡ₚ k' → updates k key v old k' → updates l key v old l'.
Proof.
  intros H1 H2. unfold updates. destruct old as [w|].
  - intros (rest & Hr1 & Hr2). exists rest. by rewrite H1, H2.
  - intros [Hl Hr]. rewrite H1, H2. done.
Qed.

(** A key whose next byte is [c] does not occur under another byte. *)
Lemma other_child_fresh p q c key (rest : list (Z * art_node V)) :
  (p ++ q ++ [c]) `prefix_of` key ++ [0%Z] → c ∉ rest.*1 →
  (∀ c m, (c, m) ∈ rest → wf (p ++ q ++ [c]) m) →
  key ∉ (mjoin ((λ e : Z * art_node V, leaves e.2) <$> rest)).*1.
Proof.
  intros [s1 Hs1] Hc Hwf ([k v] & -> & Hk)%list_elem_of_fmap.
  apply list_elem_of_join in Hk as (ls & Hk & Hls).
  apply list_elem_of_fmap in Hls as ([c' m] & -> & He). simpl in *.
  destruct (wf_leaves _ _ _ _ (Hwf c' m He) Hk) as [_ [s2 Hs2]].
  rewrite Hs1, <-!app_assoc in Hs2. simplify_list_eq.
  apply Hc, list_elem_of_fmap. by exists (c', m).
Qed.

Lemma wf_update p n keys children q c i m m' :
  node_ok n keys children → length q = partial_len n →
  take (min MAX_PREFIX_LEN (partial_len n)) (partial n)
    = take (min MAX_PREFIX_LEN (partial_len n)) q →
  min_children (type n) ≤ length (entries n keys children) →
  (∀ c m, (c, m) ∈ entries n keys children → wf (p ++ q ++ [c]) m) →
  (c, i) ∈ child_slots n keys children → children !! i = Some (Some m) →
  wf (p ++ q ++ [c]) m' → wf p (Node n keys (<[i := Some m']> children)).
Proof.
  intros Hok Hq Htk Hmin Hwf Hin Hm Hm'.
  destruct (update_child_entries n keys children c i m m') as (rest & H1 & H2); [done..|].
  apply wf_node with q; [by eapply update_child_ok|done|done| |].
  - rewrite H1 in Hmin. by rewrite H2.
  - intros c' m'' He. rewrite H2 in He. apply elem_of_cons in He as [[= -> ->]|He]; [done|].
    apply Hwf. rewrite H1. by right.
Qed.

Lemma wf_adds p n keys children q c child t :
  adds n keys children c child (Ret t) →
  length q = partial_len n →
  take (min MAX_PREFIX_LEN (partial_len n)) (partial n)
    = take (min MAX_PREFIX_LEN (partial_len n)) q →
  min_children (type n) ≤ length (entries n keys children) →
  (∀ c m, (c, m) ∈ entries n keys children → wf (p ++ q ++ [c]) m) →
  wf (p ++ q ++ [c]) child →
  wf p t ∧ leaves t ≡ₚ leaves child ++ leaves (Node n keys children).
Proof.
  intros (n' & ks & cs & [= ->] & Hok & [Hs1 Hs2] & He & Ht) Hq Htk Hmin Hwf Hc. split.
  - apply wf_node with q; rewrite ?Hs1; [done|done|congruence| |].
    + rewrite He. simpl. destruct Ht as [-> |Ht]; lia.
    + intros c' m Hin. rewrite He in Hin.
      apply elem_of_cons in Hin as [[= -> ->]|Hin]; [done|by apply Hwf].
  - rewrite !leaves_node. by rewrite He.
Qed.

Lemma leaf_insert_ok p l key (v : V) :
  wf p (Leaf l) → cstr key → p `prefix_of` key ++ [0%Z] →
  ∃ t' old, recursive_insert oob (Leaf l) key v (length p) = Ret (t', old)
    ∧ wf p t' ∧ updates (leaves (Leaf l)) key v old (leaves t').
Proof.
  intros Hw Hkey Hp. cbn [recursive_insert]. unfold leaf_matches.
  destruct (decide (leaf_key l = key)) as [<-|Hne].
  - rewrite !bool_decide_eq_true_2 by done. simpl. do 2 eexists. split; [done|].
    split; [by inversion Hw; subst; constructor|]. exists []. done.
  - rewrite (bool_decide_eq_false_2 (leaf_key l = key)), andb_false_r by done.
    destruct (split_leaf_ok oob p l key v) as (t & -> & Hwt & Hlt); [done..|].
    do 2 eexists. split; [done|]. split; [done|]. split; [|done]. set_solver.
Qed.

Lemma recursive_insert_ok p (t : art_node V) key v :
  wf p t → cstr key → p `prefix_of` key ++ [0%Z] →
  ∃ t' old, recursive_insert oob t key v (length p) = Ret (t', old)
    ∧ wf p t' ∧ updates (leaves t) key v old (leaves t').
Proof.
  intros Hw Hkey. induction Hw as [p l Hc Hp|p n keys children q Hok Hq Htk Hmin Hwf IH];
    intros Hpk; [by apply leaf_insert_ok; [constructor|..]|].
  assert (p `prefix_of` key) as Hpre.
  { apply prefix_cstr_drop_nul; [|done].
    pose proof (wf_node_path _ _ _ _ _ Hmin Hwf) as [? _]%Forall_app. done. }
  (* the compressed path is followed to its end *)
  assert (Hdesc : (p ++ q) `prefix_of` key →
    ∃ t' old, match find_child n keys children (key_at oob key (length p + partial_len n)) with
      | Some i =>
          '(child, old) ← at_child (λ m, recursive_insert oob m key v (S (length p + partial_len n)))
              (Ret (Leaf (make_leaf v key), None)) children i;
          Ret (Node n keys (<[i := Some child]> children), old)
      | None =>
          n' ← add_child n keys children (key_at oob key (length p + partial_len n))
                 (Leaf (make_leaf v key)); Ret (n', None)
      end = Ret (t', old) ∧ wf p t' ∧ updates (leaves (Node n keys children)) key v old (leaves t')).
  { intros Hpq. rewrite <-Hq. set (c := key_at oob key (length p + length q)).
    assert (in_u8 c) as Hc8 by (by apply key_at_u8).
    pose proof (nul_prefix_longer oob p q c key Hkey Hpq eq_refl) as Hpc.
    destruct (find_child n keys children c) as [i|] eqn:Hf.
    - apply find_child_Some in Hf as Hfs; [|done..]. destruct Hfs as (m & Hm & He).
      apply find_child_slot in Hf; [|done..]. rewrite at_child_lookup, Hm.
      destruct (IH c m He Hpc) as (m' & old & Hr & Hw' & Hu).
      replace (S (length p + length q)) with (length (p ++ q ++ [c]))
        by (rewrite !length_app; simpl; lia).
      rewrite Hr. do 2 eexists. split; [done|]. split; [by eapply wf_update|].
      destruct (leaves_update n keys children c i m m') as (rest & H1 & _ & H3 & H4); [done..|].
      eapply updates_perm; [exact H3|exact H4|]. apply updates_app; [|done].
      pose proof (entries_NoDup _ _ _ Hok) as Hnd. rewrite H1 in Hnd.
      apply NoDup_cons in Hnd as [Hnd _]. eapply other_child_fresh; [done|done|].
      intros c' m'' Hin. apply Hwf. rewrite H1. by right.
    - apply find_child_None in Hf; [|done..].
      pose proof (add_child_ok n keys children c (Leaf (make_leaf v key)) Hok Hc8 Hf) as Hadd.
      destruct (Hadd) as (n' & ks & cs & Hr & _). rewrite Hr in Hadd |- *.
      destruct (wf_adds p n keys children q c (Leaf (make_leaf v key)) (Node n' ks cs))
        as [Hw' Hl']; [done..|by apply wf_new_leaf|].
      do 2 eexists. split; [done|]. split; [done|]. split; [|done].
      rewrite leaves_node. by eapply other_child_fresh. }
  cbn [recursive_insert]. destruct (decide (partial_len n = 0)) as [H0|H0].
  - rewrite (bool_decide_eq_false_2 (partial_len n ≠ 0)) by auto. apply Hdesc.
    destruct q; [by rewrite app_nil_r|simpl in Hq; lia].
  - rewrite (bool_decide_eq_true_2 (partial_len n ≠ 0)) by done.
    destruct (prefix_mismatch_ok oob p n keys children q key) as (d & -> & Hd); [done..|].
    cbn [mbind outcome_bind andb]. destruct Hd as [[Hd Hpq]|(Hd & _ & Hpd & Hne)].
    + rewrite bool_decide_eq_false_2 by lia. by apply Hdesc.
    + rewrite bool_decide_eq_true_2 by lia.
      destruct (split_prefix_ok p n keys children q key v d) as (t & -> & Hwt & Hlt); [done..|].
      do 2 eexists. split; [done|]. split; [done|]. split; [|done].
      intros ([k w] & -> & Hin)%list_elem_of_fmap. simpl in *.
      apply Hne. pose proof (leaf_has_path _ _ _ _ _ _ _ Hwf Hin) as Hpq.
      pose proof (prefix_length _ _ Hpq) as Hl. rewrite length_app in Hl.
      destruct (prefix_key_mid oob p q [] k d) as [_ ->]; [|done|done].
      rewrite app_nil_r. by apply prefix_app_r.
Qed.
End Insert.
