(* ===== verification/ArtMap.v ===== *)
(** * Adaptive radix tree: the tree as a finite map

    The contract of art.h for whole trees: [art_search], [art_insert],
    [art_size] and the iterators against the map from keys to values that the
    tree represents. *)
From S2P Require Import Prelude Art ArtNode ArtTree ArtInsert.

Section Map.
Context {V : Type} (oob : list Z → nat → Z).
Implicit Types (t : art_tree V).

(** Key/value pairs of a tree in iteration order. *)
Definition contents t : list (list Z * V) :=
  match root t with None => [] | Some n => leaves n end.
Definition art_map t : gmap (list Z) V := list_to_map (contents t).

(** Invariant of a tree: a well-formed root and an exact size counter. *)
Definition art_ok t : Prop :=
  match root t with None => True | Some n => wf [] n end
  ∧ tree_size t = u64 (Z.of_nat (length (contents t))).

Lemma art_ok_init : art_ok art_tree_init.
Proof. by split. Qed.

Lemma contents_NoDup t : art_ok t → NoDup (contents t).*1.
Proof.
  intros [Hw _]. unfold contents. destruct (root t); [|constructor].
  by eapply wf_leaves_NoDup.
Qed.

Lemma art_map_lookup t key v :
  art_ok t → art_map t !! key = Some v ↔ (key, v) ∈ contents t.
Proof. intros Hok. symmetry. by apply elem_of_list_to_map, contents_NoDup. Qed.

Lemma contents_cstr t k v : art_ok t → (k, v) ∈ contents t → cstr k.
Proof.
  intros [Hw _]. unfold contents. destruct (root t); [|by intros ?%not_elem_of_nil].
  intros Hin. by eapply wf_leaves in Hin as [? _].
Qed.

Lemma length_contents t : art_ok t → length (contents t) = size (art_map t).
Proof.
  intros Hok. rewrite <-length_map_to_list. apply Permutation_length. symmetry.
  apply map_to_list_to_map. by apply contents_NoDup.
Qed.

Lemma art_map_updates t key v old t' :
  NoDup (contents t).*1 → NoDup (contents t').*1 →
  updates (contents t) key v old (contents t') →
  old = art_map t !! key ∧ art_map t' = <[key := v]> (art_map t)
  ∧ length (contents t') = (match old with Some _ => 0 | None => 1 end) + length (contents t).
Proof.
  intros Hnd Hnd' Hu. unfold art_map. destruct old as [w|]; simpl in Hu.
  - destruct Hu as (rest & H1 & H2). rewrite H1 in Hnd.
    rewrite (list_to_map_proper _ _ Hnd' H2), (list_to_map_proper (contents t) _ ltac:(by rewrite H1) H1).
    rewrite H1, H2. simpl. by rewrite lookup_insert_eq, insert_insert_eq.
  - destruct Hu as [Hk H2].
    rewrite (list_to_map_proper _ _ Hnd' H2), H2. simpl.
    by rewrite (not_elem_of_list_to_map_1 (contents t) key Hk).
Qed.

Lemma u64_succ_length k : u64 (u64 (Z.of_nat k) + 1) = u64 (Z.of_nat (1 + k)).
Proof. unfold u64. rewrite Zplus_mod_idemp_l. f_equal. lia. Qed.

Lemma art_search_map t key : art_ok t → cstr key → art_search oob t key = art_map t !! key.
Proof.
  intros Hok Hkey. apply option_eq. intros v. rewrite art_map_lookup by done.
  unfold art_search, contents. destruct Hok as [Hw _]. destruct (root t) as [n|].
  - apply (search_loop_correct oob [] n key v); done.
  - split; [done|]. by intros ?%not_elem_of_nil.
Qed.

Lemma art_insert_map t key v :
  art_ok t → cstr key →
  ∃ t', art_insert oob t key v = Ret (t', art_map t !! key)
      ∧ art_ok t' ∧ art_map t' = <[key := v]> (art_map t).
Proof.
  intros Hok Hkey. pose proof (contents_NoDup t Hok) as Hnd. destruct Hok as [Hw Hs].
  assert (∃ n' old, art_insert oob t key v
      = Ret (mk_tree (Some n') (match old with Some _ => tree_size t
                                | None => u64 (tree_size t + 1) end), old)
    ∧ wf [] n' ∧ updates (contents t) key v old (leaves n')) as (n' & old & -> & Hw' & Hu).
  { unfold art_insert, contents. destruct (root t) as [n|].
    - destruct (recursive_insert_ok oob [] n key v) as (n' & old & Hr & Hw' & Hu);
        [done|done|by apply prefix_nil|]. simpl in Hr. rewrite Hr. eauto.
    - exists (Leaf (make_leaf v key)), None. split; [done|]. split; [constructor; [done|by apply prefix_nil]|].
      split; [apply not_elem_of_nil|done]. }
  destruct (art_map_updates t key v old (mk_tree (Some n')
    (match old with Some _ => tree_size t | None => u64 (tree_size t + 1) end)))
    as (-> & Hmap & Hlen); [done|by eapply wf_leaves_NoDup|done|].
  eexists. split; [done|]. split; [|done]. split; [done|]. rewrite Hlen. cbn [tree_size].
  rewrite Hs. destruct (art_map t !! key); [done|]. apply u64_succ_length.
Qed.

(** ** Iteration *)

(** Running a callback over a list of pairs until it returns non-zero. *)
Fixpoint iter_list {D} (cb : D → list Z → V → D * Z) (l : list (list Z * V)) (data : D) : D * Z :=
  match l with
  | [] => (data, 0%Z)
  | (k, v) :: l =>
      let '(data, res) := cb data k v in
      if bool_decide (res ≠ 0%Z) then (data, res) else iter_list cb l data
  end.

Lemma iter_list_app {D} (cb : D → list Z → V → D * Z) l1 l2 data :
  iter_list cb (l1 ++ l2) data
  = let '(data, res) := iter_list cb l1 data in
    if bool_decide (res ≠ 0%Z) then (data, res) else iter_list cb l2 data.
Proof.
  revert data. induction l1 as [|[k v] l1 IH]; intros data; simpl; [done|].
  destruct (cb data k v) as [d r]. destruct (bool_decide (r ≠ 0%Z)) eqn:Hr; [|apply IH].
  by rewrite Hr.
Qed.

Lemma recursive_iter_list {D} (cb : D → list Z → V → D * Z) p n data :
  wf p n → recursive_iter cb n data = iter_list cb (leaves n) data.
Proof.
  intros Hw. revert data.
  induction Hw as [p l Hc Hp|p n keys children q Hok Hq Htk Hmin Hwf IH]; intros data.
  - simpl. destruct (cb data (leaf_key l) (leaf_value l)) as [d r].
    case_bool_decide as Hr; [done|]. by assert (r = 0%Z) as -> by lia.
  - cbn [recursive_iter leaves].
    assert (Hsl : ∀ c i, (c, i) ∈ child_slots n keys children →
      ∃ m, (c, m) ∈ entries n keys children ∧ children !! i = Some (Some m)).
    { intros c i Hin. destruct (ok_slot _ _ _ Hok _ _ Hin) as [_ [m Hm]].
      exists m. split; [|done]. apply elem_entries. eauto. }
    clear Hmin. revert data. induction (child_slots n keys children) as [|[c i] sl IHs];
      intros data; [done|]. rewrite fmap_cons. cbn [mjoin list_join snd].
    rewrite iter_list_app. destruct (Hsl c i) as (m & He & Hm); [left|].
    rewrite !at_child_lookup, Hm, (IH c m He).
    destruct (iter_list cb (leaves m) data) as [d r]. case_bool_decide; [done|].
    apply IHs. intros c' i' Hin. apply Hsl. by right.
Qed.

Lemma art_iter_list {D} t (cb : D → list Z → V → D * Z) data :
  art_ok t → art_iter t cb data = iter_list cb (contents t) data.
Proof.
  intros [Hw _]. unfold art_iter, contents. destruct (root t); [|done].
  by eapply recursive_iter_list.
Qed.

Lemma iter_size_list (l : list (list Z * V)) s :
  iter_list size_incr l (u64 s) = (u64 (s + Z.of_nat (length l)), 0%Z).
Proof.
  revert s. induction l as [|[k v] l IH]; intros s; simpl; [by rewrite Z.add_0_r|].
  replace (u64 (u64 s + 1)) with (u64 (s + 1)) by (unfold u64; by rewrite Zplus_mod_idemp_l).
  rewrite IH. f_equal. f_equal. lia.
Qed.
End Map.

(** ** Iteration over a prefix *)
Section Prefix.
Context {V : Type} (oob : list Z → nat → Z).
Implicit Types (t : art_tree V) (key : list Z).

(** The pairs whose key starts with [key]. *)
Notation matching key l := (filter (λ kv : list Z * V, key `prefix_of` kv.1) (l : list (list Z * V))).

Lemma matching_all key l : (∀ kv, kv ∈ l → key `prefix_of` kv.1) → matching key l = l.
Proof.
  induction l as [|x l IH]; intros H; [done|]. rewrite filter_cons_True by (apply H; left). f_equal. apply IH. intros kv Hin. apply H. by right.
Qed.
Lemma matching_none key l : (∀ kv, kv ∈ l → ¬ key `prefix_of` kv.1) → matching key l = [].
Proof.
  induction l as [|x l IH]; intros H; [done|]. rewrite filter_cons_False by (apply H; left). apply IH. intros kv Hin. apply H. by right.
Qed.
Lemma matching_NoDup key (l : list (list Z * V)) : NoDup l.*1 → NoDup (matching key l).*1.
Proof.
  induction l as [|[k v] l IH]; intros Hnd; [constructor|]. cbn in Hnd. apply NoDup_cons in Hnd as [Hni Hnd].
  rewrite filter_cons. case_decide; [|by apply IH]. cbn. constructor; [|by apply IH].
  intros (x & -> & [_ Hx]%list_elem_of_filter)%list_elem_of_fmap. apply Hni, list_elem_of_fmap. by exists x.
Qed.
Lemma leaf_prefix_matches_true (l : art_leaf V) key : key `prefix_of` leaf_key l → leaf_prefix_matches l key = true.
Proof.
  intros [s Hs]. unfold leaf_prefix_matches. rewrite Hs, length_app, take_app_length.
  by rewrite !bool_decide_eq_true_2 by (done || lia).
Qed.

(** All leaves below a node lie under its path. *)
Lemma node_leaves_path p q n keys (children : list (option (art_node V))) k v :
  (∀ c m, (c, m) ∈ entries n keys children → wf (p ++ q ++ [c]) m) → (k, v) ∈ leaves (Node n keys children) → (p ++ q) `prefix_of` k.
Proof.
  intros Hwf (c & m & He & Hin)%elem_leaves_node. destruct (wf_leaves _ _ _ _ (Hwf c m He) Hin) as [_ Hpre].
  rewrite app_assoc in Hpre. by apply prefix_snoc_inv in Hpre.
Qed.

(** Only one child can hold keys with the prefix. *)
Lemma matching_other p q c c' key k :
  (p ++ q ++ [c]) `prefix_of` key → (p ++ q ++ [c']) `prefix_of` k ++ [0%Z] → key `prefix_of` k → c = c'.
Proof.
  intros H1 H2 H3. assert ((p ++ q ++ [c]) `prefix_of` k ++ [0%Z]) as H4 by (etrans; [exact H1|]; by apply prefix_app_r).
  rewrite !app_assoc in *. destruct H2 as [a Ha], H4 as [b Hb]. rewrite Ha in Hb. rewrite <-!app_assoc in Hb.
  do 2 apply app_inv_head in Hb. by simplify_eq/=.
Qed.
Lemma join_mid {A} (xs ys : list (list A)) x : mjoin (xs ++ x :: ys) = mjoin xs ++ x ++ mjoin ys.
Proof.
  induction xs as [|y xs IH]; [done|]. change (y ++ mjoin (xs ++ x :: ys) = (y ++ mjoin xs) ++ x ++ mjoin ys).
  by rewrite IH, app_assoc.
Qed.
Lemma matching_child p q n keys (children : list (option (art_node V))) key c m :
  node_ok n keys children → (∀ c m, (c, m) ∈ entries n keys children → wf (p ++ q ++ [c]) m) →
  (p ++ q ++ [c]) `prefix_of` key → (c, m) ∈ entries n keys children →
  matching key (leaves (Node n keys children)) = matching key (leaves m).
Proof.
  intros Hok Hwf Hpre Hin. pose proof (entries_NoDup _ _ _ Hok) as Hnd. rewrite leaves_node.
  apply list_elem_of_split in Hin as (E1 & E2 & HE). rewrite HE in *. rewrite fmap_app, fmap_cons in Hnd. cbn in Hnd.
  rewrite <-Permutation_middle in Hnd. apply NoDup_cons in Hnd as [Hni _].
  assert (∀ E, (∀ e, e ∈ E → e ∈ E1 ++ E2) → matching key (mjoin ((λ e : Z * art_node V, leaves e.2) <$> E)) = []) as Hnone.
  { intros E HE'. apply matching_none. intros [k v] (l & Hl & Hk)%list_elem_of_join Hkey. cbn in Hkey.
    apply list_elem_of_fmap in Hk as ([c' m'] & -> & He). cbn in Hl. specialize (HE' _ He).
    assert ((c', m') ∈ E1 ++ (c, m) :: E2) as He' by (rewrite elem_of_app, elem_of_cons; rewrite elem_of_app in HE'; tauto).
    destruct (wf_leaves _ _ _ _ (Hwf c' m' He') Hl) as [_ Hp'].
    assert (c = c') as -> by by eapply matching_other.
    apply Hni. rewrite <-fmap_app. apply list_elem_of_fmap. by exists (c', m'). }
  rewrite fmap_app, fmap_cons, join_mid, !filter_app. cbn [snd].
  rewrite (Hnone E1), (Hnone E2), app_nil_r; [done|intros; rewrite elem_of_app; auto..].
Qed.

Lemma iter_list_one {D} (cb : D → list Z → V → D * Z) k v data : iter_list cb [(k, v)] data = cb data k v.
Proof. cbn. destruct (cb data k v) as [d r]. case_bool_decide; [done|]. by assert (r = 0%Z) as -> by lia. Qed.

(** How far the prefix follows the path of a node that has a key with it. *)
Lemma mismatch_prefix p q key d k :
  mismatch_at oob p q key d → key `prefix_of` k → (p ++ q) `prefix_of` k → length p < length key → cstr key →
  (key `prefix_of` p ++ q ∧ length p + min d (length q) = length key ∧ min d (length q) ≠ 0)
  ∨ ((p ++ q) `prefix_of` key ∧ length (p ++ q) < length key ∧ min d (length q) = length q).
Proof.
  intros Hm Hk Hpq Hlt Hkey. destruct (decide (length key ≤ length (p ++ q))) as [Hle|Hgt].
  - assert (key `prefix_of` p ++ q) as Hkp.
    { destruct (prefix_weak_total key (p ++ q) k Hk Hpq) as [|H]; [done|]. assert (p ++ q = key) as ->; [|done]. by apply prefix_full. }
    left. rewrite length_app in Hle. split; [done|]. destruct Hm as [[Hd H]|(Hd & Hd2 & H & Hne)].
    + apply prefix_length in H. rewrite length_app in H. lia.
    + assert (length p + d = length key) as Heq; [|lia]. destruct (decide (length p + d = length key)) as [|Hne']; [done|]. exfalso. apply Hne.
      rewrite key_at_nth by lia. rewrite <-(prefix_nth key (p ++ q)) by (done || lia).
      by rewrite !nth_lookup, lookup_app_r, Nat.add_comm, Nat.add_sub by lia.
  - assert ((p ++ q) `prefix_of` key) as Hkp.
    { destruct (prefix_weak_total key (p ++ q) k Hk Hpq) as [H|]; [|done]. apply prefix_length in H. lia. }
    right. split_and!; [done|lia|]. destruct Hm as [[Hd _]|(Hd & Hd2 & H & Hne)]; [lia|]. exfalso. apply Hne.
    rewrite length_app in Hgt. rewrite key_at_nth by lia. rewrite (prefix_nth (p ++ q) key) by (done || rewrite length_app; lia).
    by rewrite !nth_lookup, lookup_app_r, Nat.add_comm, Nat.add_sub by lia.
Qed.

Lemma iter_prefix_loop_ok {D} (cb : D → list Z → V → D * Z) p n key data :
  wf p n → cstr key → p `prefix_of` key → (∃ k v, (k, v) ∈ leaves n ∧ key `prefix_of` k) →
  iter_prefix_loop oob cb n key (length p) data = Ret (iter_list cb (matching key (leaves n)) data).
Proof.
  intros Hw Hkey. induction Hw as [p l Hc Hp|p n keys children q Hok Hq Htk Hmin Hwf IH]; intros Hpre (k & v & Hin & Hk).
  { cbn in Hin. apply list_elem_of_singleton in Hin. simplify_eq. cbn [iter_prefix_loop leaves].
    rewrite leaf_prefix_matches_true by done. rewrite filter_cons_True by done. cbn [filter list_filter]. by rewrite iter_list_one. }
  assert (wf p (Node n keys children)) as Hw by (by econstructor).
  pose proof (node_leaves_path p q n keys children k v Hwf Hin) as Hpq.
  assert (key `prefix_of` p ++ q → matching key (leaves (Node n keys children)) = leaves (Node n keys children)) as Hall.
  { intros Hkp. apply matching_all. intros [k' v'] Hin'. cbn. etrans; [exact Hkp|]. by eapply node_leaves_path. }
  set (descend := λ depth : nat,
    match find_child n keys children (key_at oob key depth) with
    | Some i => at_child (λ m : art_node V, iter_prefix_loop oob cb m key (S depth) data) (Ret (data, 0%Z)) children i
    | None => Ret (data, 0%Z)
    end).
  assert ((p ++ q) `prefix_of` key → length (p ++ q) < length key →
    descend (length p + partial_len n) = Ret (iter_list cb (matching key (leaves (Node n keys children))) data)) as Hdesc.
  { intros [s Hs] Hlt. destruct s as [|c s]; [rewrite Hs, app_nil_r in Hlt; lia|].
    assert ((p ++ q ++ [c]) `prefix_of` key) as Hpc by (exists s; rewrite Hs, <-!app_assoc; done).
    assert (key_at oob key (length p + partial_len n) = c) as Hc.
    { rewrite key_at_nth by (rewrite length_app in Hlt; lia). rewrite Hs, <-Hq, <-length_app, nth_lookup.
      by rewrite lookup_app_r, Nat.sub_diag by lia. }
    apply elem_leaves_node in Hin as (c' & m & He & Hin).
    destruct (wf_leaves _ _ _ _ (Hwf c' m He) Hin) as [_ Hp']. assert (c = c') as <- by by eapply matching_other.
    assert (in_u8 c) as Hu by (rewrite <-Hc; by apply key_at_u8). unfold descend. rewrite Hc.
    destruct (find_child n keys children c) as [i|] eqn:Hf.
    - apply find_child_Some in Hf as (m' & Hm & He'); [|done|done]. assert (m' = m) as -> by (by eapply entries_unique).
      rewrite at_child_lookup, Hm. replace (S (length p + partial_len n)) with (length (p ++ q ++ [c])) by (rewrite !length_app; cbn; lia).
      rewrite (IH c m He Hpc) by eauto. by rewrite (matching_child p q n keys children key c m).
    - exfalso. eapply find_child_None in Hf; [|done|done]. apply Hf. apply list_elem_of_fmap. by exists (c, m). }
  cbn [iter_prefix_loop]. fold descend. case_bool_decide as Hd.
  - destruct (minimum_ok _ _ Hw) as (l & -> & Hl). cbn [deref mbind outcome_bind].
    assert (p = key) as -> by (destruct Hpre as [s ->]; rewrite length_app in Hd; destruct s; [by rewrite app_nil_r|cbn in Hd; lia]).
    rewrite leaf_prefix_matches_true; [|etrans; [|by eapply (node_leaves_path key q)]; by apply prefix_app_r].
    rewrite Hall by (by apply prefix_app_r). by rewrite (recursive_iter_list cb key).
  - pose proof (prefix_length _ _ Hpre) as Hlen. case_bool_decide as H0.
    + destruct (prefix_mismatch_ok oob p n keys children q key) as (d & -> & Hm); [done..|]. cbn [mbind outcome_bind].
      destruct (mismatch_prefix p q key d k Hm Hk Hpq) as [(Hkp & Hd' & Hd0)|(Hkp & Hlt & Hd')]; [lia|done| |].
      * rewrite bool_decide_false by lia. rewrite bool_decide_true by lia. rewrite Hall by done. by rewrite (recursive_iter_list cb p).
      * rewrite length_app in Hlt. rewrite (bool_decide_false (_ = 0)), bool_decide_false by lia. apply Hdesc; [done|]. rewrite length_app. lia.
    + assert (q = []) as -> by (apply nil_length_inv; lia). rewrite app_nil_r in *.
      replace (length p) with (length p + partial_len n) by lia. apply Hdesc; [done|lia].
Qed.

(** A prefix of some key of the tree: the iteration calls the callback on
    exactly the pairs whose key starts with it. *)
Lemma art_iter_prefix_list {D} (cb : D → list Z → V → D * Z) t key data :
  art_ok t → cstr key → (∃ k, is_Some (art_map t !! k) ∧ key `prefix_of` k) →
  art_iter_prefix oob t key cb data = Ret (iter_list cb (matching key (contents t)) data).
Proof.
  intros Hok Hkey (k & [v Hv] & Hpre). pose proof (proj1 (art_map_lookup t k v Hok) Hv) as Hin.
  destruct Hok as [Hw _]. unfold art_iter_prefix, contents in *. destruct (root t) as [n|]; [|by apply not_elem_of_nil in Hin].
  apply (iter_prefix_loop_ok cb [] n key data Hw Hkey); [apply prefix_nil|eauto].
Qed.
End Prefix.
