(* ===== verification/ArtDelete.v ===== *)
(** * Adaptive radix tree: deletion

    A node is laid out from a list of entries in one way per layout
    ([layout_small], [layout48]); removing a child deletes one entry and, at the
    occupancy where art.c shrinks, lays the rest out in the next smaller layout.
    A node of the smallest layout that is left with one child gives way to it. *)
From S2P Require Import Prelude Art ArtNode ArtTree ArtInsert ArtMap.

Section Delete.
Context {V : Type}.
Implicit Types (n : art_hdr) (keys : list Z) (children : list (option (art_node V))) (L : list (Z * art_node V)).

Definition small n : Prop := type n = NODE4 ∨ type n = NODE16.

(** ** Laying out a list of entries *)
Lemma entries_snd_slots n keys children :
  node_ok n keys children →
  Some <$> (entries n keys children).*2 = (λ s, mjoin (children !! s.2)) <$> child_slots n keys children.
Proof.
  intros Hok. pose proof (ok_slot _ _ _ Hok) as H. unfold entries.
  induction (child_slots n keys children) as [|[c i] l IH]; [done|].
  destruct (H c i) as [_ [m Hm]]; [left|]. simpl. unfold slot_entry at 1. simpl. rewrite Hm. simpl. f_equal.
  apply IH. intros c' i' Hin. apply (H c' i'). by right.
Qed.

Lemma small_entries n keys children :
  node_ok n keys children → small n →
  (entries n keys children).*1 = take (num_children n) keys
  ∧ Some <$> (entries n keys children).*2 = take (num_children n) children.
Proof.
  intros Hok Hs. pose proof (small_num _ _ _ Hok Hs) as (Hk & Hc & _). split.
  - by rewrite entries_fst, slots_small_fst.
  - rewrite entries_snd_slots by done. change ((λ i, mjoin (children !! i)) ∘ snd <$> child_slots n keys children = take (num_children n) children).
    rewrite list_fmap_compose, slots_small_snd by done. rewrite length_take, Nat.min_l by done. apply list_eq. intros i.
    rewrite list_lookup_fmap, lookup_take. case_decide as Hi.
    + rewrite lookup_seq_lt by done. cbn. destruct (children !! i) as [o|] eqn:Ho; [done|].
      apply lookup_ge_None in Ho. lia.
    + by rewrite lookup_seq_ge by lia.
Qed.

Lemma layout_entries children L off :
  (∀ i x, L !! i = Some x → children !! (off + i) = Some (Some x.2)) →
  omap (slot_entry children) (imap (λ i k, (k, off + i)) L.*1) = L.
Proof.
  revert off. induction L as [|[c m] L IH]; intros off H; [done|]. cbn.
  unfold slot_entry at 1. cbn. rewrite (H 0 (c, m) eq_refl). f_equal.
  rewrite (imap_ext _ (λ i k, (k, S off + i))) by (intros; cbn; f_equal; lia).
  apply IH. intros i x Hi. rewrite <-(H (S i) x Hi). f_equal. lia.
Qed.

Lemma layout_small n keys children L :
  small n → length keys = keys_cap (type n) → length children = children_cap (type n) →
  length (partial n) = MAX_PREFIX_LEN → num_children n = length L → length L ≤ children_cap (type n) →
  take (length L) keys = L.*1 → take (length L) children = Some <$> L.*2 → NoDup L.*1 → Forall in_u8 L.*1 →
  node_ok n keys children ∧ entries n keys children = L.
Proof.
  intros Hs Hk Hch Hp Hn Hle Htk Htc Hnd Hu8.
  assert (Hsl : child_slots n keys children = imap (λ i k, (k, i)) L.*1).
  { unfold child_slots. destruct Hs as [-> | ->]; by rewrite Hn, Htk. }
  assert (Hlk : ∀ i x, L !! i = Some x → children !! i = Some (Some x.2)).
  { intros i x Hi. rewrite <-(lookup_take_lt children (length L)) by (by eapply lookup_lt_Some).
    rewrite Htc, !list_lookup_fmap, Hi. done. }
  split; [|unfold entries; rewrite Hsl; by apply (layout_entries children L 0)].
  assert (length L < 256) as H256 by (destruct Hs as [H|H]; rewrite H in Hle; cbn in Hle; lia).
  split; try done; rewrite ?Hsl.
  - rewrite length_imap, length_fmap. by rewrite Nat.mod_small.
  - rewrite Hn. by destruct Hs as [H|H]; rewrite H in *.
  - by rewrite fmap_imap, (imap_const id), list_fmap_id.
  - rewrite fmap_imap, (imap_seq_0 _ id), list_fmap_id. apply NoDup_seq.
  - intros c i (j & k & [= -> ->] & Hk')%elem_of_lookup_imap. split.
    + rewrite Forall_forall in Hu8. apply Hu8. by eapply list_elem_of_lookup_2.
    + rewrite list_lookup_fmap in Hk'. destruct (L !! j) as [x|] eqn:Hx; [|done]. eauto.
  - intros H. destruct Hs; congruence.
Qed.

(** The key map of a NODE48 filled from a list of bytes. *)
Definition key_map (bytes : list Z) : list Z :=
  foldl (λ ks i, <[Z.to_nat (nth i bytes 0%Z) := (Z.of_nat i + 1)%Z]> ks) (replicate 256 0%Z) (seq 0 (length bytes)).

Lemma key_map_ok bytes :
  Forall in_u8 bytes → NoDup bytes →
  length (key_map bytes) = 256
  ∧ (∀ i c, bytes !! i = Some c → nth (Z.to_nat c) (key_map bytes) 0%Z = (Z.of_nat i + 1)%Z)
  ∧ (∀ c, in_u8 c → c ∉ bytes → nth (Z.to_nat c) (key_map bytes) 0%Z = 0%Z).
Proof.
  intros Hb Hnd. pose proof (fold_keys48 bytes (length bytes) (le_n _)) as H. rewrite firstn_all in H. by apply H.
Qed.

Lemma layout48 n L :
  type n = NODE48 → length (partial n) = MAX_PREFIX_LEN → num_children n = length L → length L ≤ 48 →
  NoDup L.*1 → Forall in_u8 L.*1 →
  let ks := key_map L.*1 in let cs := (Some <$> L.*2) ++ replicate (48 - length L) None in
  node_ok n ks cs ∧ entries n ks cs ≡ₚ L.
Proof.
  intros Ht Hp Hn Hle Hnd Hu8 ks cs. destruct (key_map_ok L.*1 Hu8 Hnd) as (Hl & H1 & H2). fold ks in Hl, H1, H2.
  assert (Hslot : ∀ c i, (c, i) ∈ child_slots n ks cs ↔ L.*1 !! i = Some c).
  { intros c i. rewrite elem_child_slots. unfold slot_spec. rewrite Ht. split.
    - intros (Hc & Hne & ->). destruct (decide (c ∈ L.*1)) as [[j Hj]%list_elem_of_lookup|Hnin].
      + rewrite (H1 _ _ Hj). by replace (Z.to_nat (Z.of_nat j + 1 - 1)) with j by lia.
      + by rewrite H2 in Hne.
    - intros Hi. rewrite (H1 _ _ Hi). split_and!; [|lia|lia]. rewrite Forall_forall in Hu8. apply Hu8.
      by eapply list_elem_of_lookup_2. }
  assert (Hcs : ∀ i m, cs !! i = Some (Some m) ↔ L.*2 !! i = Some m).
  { intros i m. unfold cs. rewrite lookup_app, list_lookup_fmap. destruct (L.*2 !! i) as [m'|]; cbn; [naive_solver|].
    split; [|done]. intros [? _]%lookup_replicate. done. }
  assert (Hsnd : NoDup (child_slots n ks cs).*2).
  { apply NoDup_alt. intros i j x Hi Hj. rewrite list_lookup_fmap in Hi, Hj.
    destruct (child_slots n ks cs !! i) as [[c p]|] eqn:Hei; [|done].
    destruct (child_slots n ks cs !! j) as [[c' p']|] eqn:Hej; [|done]. cbn in *. simplify_eq.
    apply list_elem_of_lookup_2 in Hei as H3, Hej as H4. apply Hslot in H3, H4. assert (c = c') as <- by congruence.
    eapply NoDup_lookup; [apply (slots_big_NoDup n ks cs); by left| |]; rewrite list_lookup_fmap; [by rewrite Hei|by rewrite Hej]. }
  assert (Hsl : ∀ c i, (c, i) ∈ child_slots n ks cs → in_u8 c ∧ ∃ m, cs !! i = Some (Some m)).
  { intros c i Hin%Hslot. split; [rewrite Forall_forall in Hu8; apply Hu8; by eapply list_elem_of_lookup_2|].
    rewrite list_lookup_fmap in Hin. destruct (L !! i) as [[c' m]|] eqn:Hx; [|done]. exists m. apply Hcs.
    by rewrite list_lookup_fmap, Hx. }
  assert (entries n ks cs ≡ₚ L) as Hent.
  { apply perm_by_fst; [rewrite entries_fst_slots by done; apply slots_big_NoDup; by left|done|].
    intros c m. rewrite elem_entries, list_elem_of_lookup. setoid_rewrite Hslot. setoid_rewrite Hcs.
    setoid_rewrite list_lookup_fmap. split.
    - intros (i & Hc & Hm). exists i. destruct (L !! i) as [[]|]; cbn in *; congruence.
    - intros [i Hi]. exists i. by rewrite Hi. }
  split; [|done]. split; try done; rewrite ?Ht.
  - exact Hl.
  - unfold cs. rewrite length_app, !length_fmap, length_replicate. cbn. lia.
  - rewrite <-(length_fmap fst), <-entries_fst_slots, length_fmap, Hent, Hn by done. rewrite Nat.mod_small; lia.
  - cbn. lia.
  - apply slots_big_NoDup. by left.
  - intros _. split.
    + apply Forall_lookup. intros i k Hi. assert (i < 256) by (apply lookup_lt_Some in Hi; lia).
      assert (nth i ks 0%Z = k) as <- by (by apply nth_lookup_Some). replace i with (Z.to_nat (Z.of_nat i)) by lia.
      destruct (decide (Z.of_nat i ∈ L.*1)) as [[j Hj]%list_elem_of_lookup|Hnin].
      * rewrite (H1 _ _ Hj). apply lookup_lt_Some in Hj. rewrite length_fmap in Hj. lia.
      * rewrite H2; [lia| |done]. unfold in_u8. lia.
    + intros p m Hpm%Hcs. rewrite list_lookup_fmap in Hpm. destruct (L !! p) as [[c m']|] eqn:Hx; [|done].
      apply list_elem_of_fmap. exists (c, p). split; [done|]. apply Hslot. by rewrite list_lookup_fmap, Hx.
Qed.

(** ** The copying loops of the shrinking layouts *)
Lemma foldl_omap {A B S} (f : A → option B) (g : S → B → S) (h : S → A → S) (s : S) l :
  (∀ s a, h s a = match f a with Some b => g s b | None => s end) → foldl h s l = foldl g s (omap f l).
Proof. intros H. revert s. induction l as [|a l IH]; intros s; [done|]. cbn. rewrite H, IH. by destruct (f a). Qed.

Lemma insert_fill {A} (l : list A) k x d : <[length l := x]> (l ++ replicate (S k) d) = (l ++ [x]) ++ replicate k d.
Proof. rewrite <-(Nat.add_0_r (length l)) at 1. rewrite insert_app_r, <-app_assoc. done. Qed.

Lemma key_map_snoc bytes c : key_map (bytes ++ [c]) = <[Z.to_nat c := (Z.of_nat (length bytes) + 1)%Z]> (key_map bytes).
Proof.
  unfold key_map. rewrite length_app. cbn [length]. rewrite Nat.add_1_r, seq_S, foldl_app. cbn.
  rewrite app_nth2, Nat.sub_diag by lia. cbn. f_equal.
  assert (∀ l (ks : list Z), Forall (λ i, i < length bytes) l →
    foldl (λ (ks : list Z) i, <[Z.to_nat (nth i (bytes ++ [c]) 0%Z) := (Z.of_nat i + 1)%Z]> ks) ks l
    = foldl (λ (ks : list Z) i, <[Z.to_nat (nth i bytes 0%Z) := (Z.of_nat i + 1)%Z]> ks) ks l) as H.
  { intros l ks Hl. revert ks. induction Hl as [|i l Hi _ IH]; intros ks; [done|]. cbn. by rewrite IH, app_nth1. }
  apply H. apply Forall_forall. intros i Hi%elem_of_seq. lia.
Qed.

(** Bytes and children side by side (NODE48 to NODE16). *)
Lemma fold_fill {A B C} (f : A → B) (g : A → C) d e k (l : list A) :
  length l ≤ k →
  foldl (λ '(ks, cs, i) x, (<[i := f x]> ks, <[i := g x]> cs, S i)) (replicate k d, replicate k e, 0) l
  = ((f <$> l) ++ replicate (k - length l) d, (g <$> l) ++ replicate (k - length l) e, length l).
Proof.
  induction l as [|x l IH] using rev_ind; intros Hl; [by rewrite Nat.sub_0_r|]. rewrite length_app in Hl |- *. cbn [length] in *.
  rewrite foldl_app, IH by lia. cbn. replace (k - length l) with (S (k - (length l + 1))) by lia.
  rewrite <-(length_fmap f l) at 1. rewrite <-(length_fmap g l) at 2. rewrite !insert_fill, !fmap_app. f_equal. lia.
Qed.
(** A key map and children (NODE256 to NODE48). *)
Lemma fold_keys {C} (f : Z * nat → C) e k (l : list (Z * nat)) :
  length l ≤ k →
  foldl (λ '(ks, cs, i) x, (<[Z.to_nat x.1 := (Z.of_nat i + 1)%Z]> ks, <[i := f x]> cs, S i)) (replicate 256 0%Z, replicate k e, 0) l
  = (key_map l.*1, (f <$> l) ++ replicate (k - length l) e, length l).
Proof.
  induction l as [|x l IH] using rev_ind; intros Hl; [by rewrite Nat.sub_0_r|]. rewrite length_app in Hl |- *. cbn [length] in *.
  rewrite foldl_app, IH by lia. cbn. replace (k - length l) with (S (k - (length l + 1))) by lia.
  rewrite <-(length_fmap f l) at 2. rewrite insert_fill, !fmap_app. cbn. rewrite key_map_snoc, length_fmap. f_equal. lia.
Qed.

(** ** Removing a slot in place *)
Lemma decr8_mod k : decr8 (S k `mod` 256) = k `mod` 256.
Proof.
  unfold decr8. rewrite Nat.Div0.add_mod_idemp_l. replace (S k + 255) with (k + 1 * 256) by lia. by rewrite Nat.Div0.mod_add.
Qed.
Lemma decr8_S k : k < 255 → decr8 (S k) = k.
Proof. intros Hk. rewrite <-(Nat.mod_small (S k) 256), decr8_mod by lia. by rewrite Nat.mod_small by lia. Qed.

Lemma removed_by_slot n keys children n' keys' children' c j m :
  node_ok n keys children → (c, j) ∈ child_slots n keys children → children !! j = Some (Some m) →
  type n' = type n → type n' = NODE48 ∨ type n' = NODE256 →
  length keys' = keys_cap (type n') → length children' = children_cap (type n') →
  partial n' = partial n → num_children n' = decr8 (num_children n) →
  (∀ c' i, (c', i) ∈ child_slots n' keys' children' ↔ (c', i) ∈ child_slots n keys children ∧ c' ≠ c) →
  children' = <[j := None]> children → (type n' = NODE48 → Forall (λ k, (0 ≤ k ≤ 48)%Z) keys') →
  node_ok n' keys' children' ∧ entries n keys children ≡ₚ (c, m) :: entries n' keys' children'.
Proof.
  intros Hok Hin Hm Htt Ht Hk Hch Hp Hnum Hslot Hset H48. pose proof (slots_big_NoDup n' keys' children' Ht) as Hfst.
  assert (child_slots n keys children ≡ₚ (c, j) :: child_slots n' keys' children') as Hperm.
  { apply perm_by_fst; [by apply ok_fst| |].
    - cbn. constructor; [|done]. intros ([c' i] & -> & Hi)%list_elem_of_fmap. by apply Hslot in Hi as [_ ?].
    - intros c' i. rewrite elem_of_cons, Hslot. split; [|by intros [[= -> ->]|[? _]]]. intros Hi.
      destruct (decide (c' = c)) as [->|Hne]; [left|by right]. f_equal. pose proof (ok_fst _ _ _ Hok) as Hnd.
      apply list_elem_of_lookup in Hin as [a Ha], Hi as [b Hb]. assert (a = b) as ->; [|congruence].
      eapply NoDup_lookup; [apply Hnd| |]; rewrite list_lookup_fmap; [by rewrite Ha|by rewrite Hb]. }
  assert (Hlk : ∀ c' i, (c', i) ∈ child_slots n' keys' children' → children' !! i = children !! i).
  { intros c' i Hi. rewrite Hset, list_lookup_insert_ne; [done|]. intros <-. pose proof (ok_snd _ _ _ Hok) as Hnd.
    rewrite Hperm in Hnd. cbn in Hnd. apply NoDup_cons in Hnd as [Hnd _]. apply Hnd, list_elem_of_fmap. by exists (c', j). }
  assert (Hsl : ∀ c' i, (c', i) ∈ child_slots n' keys' children' → in_u8 c' ∧ ∃ x, children' !! i = Some (Some x)).
  { intros c' i Hi. rewrite (Hlk c' i Hi). apply Hslot in Hi as [Hi _]. by eapply ok_slot. }
  split.
  - split; try done.
    + rewrite Hp. by apply (ok_partial _ _ _ Hok).
    + rewrite Hnum, (ok_num _ _ _ Hok), Hperm, length_cons. by rewrite decr8_mod.
    + destruct Ht as [H|H]; rewrite H; [|done]. rewrite Hnum. destruct (slots48_length n keys children Hok) as [Hl Hn]; [congruence|].
      rewrite Hperm in Hl, Hn. cbn [length children_cap] in *. rewrite Hn, decr8_S; lia.
    + pose proof (ok_snd _ _ _ Hok) as Hnd. rewrite Hperm in Hnd. by apply NoDup_cons in Hnd as [_ ?].
    + intros H. split; [auto|]. intros p x Hpx. destruct (decide (p = j)) as [->|Hne].
      { rewrite Hset, list_lookup_insert_eq in Hpx; [done|]. by eapply lookup_lt_Some. }
      rewrite Hset, list_lookup_insert_ne in Hpx by done. destruct (ok_48 _ _ _ Hok ltac:(congruence)) as [_ Hall].
      apply Hall in Hpx. rewrite Hperm in Hpx. cbn in Hpx. by apply elem_of_cons in Hpx as [?|?].
  - unfold entries at 1. rewrite Hperm. cbn. unfold slot_entry at 1. cbn. rewrite Hm. apply perm_skip. apply reflexive_eq.
    apply list_omap_ext, Forall_Forall2_diag, Forall_forall. intros [c' i] Hi. unfold slot_entry. cbn. by rewrite (Hlk c' i Hi).
Qed.

(** ** Removing a child *)
(** The node without the entry of byte [c], in a layout that fits. *)
Definition removes n keys children (c : Z) (r : art_node V) : Prop :=
  ∃ n' keys' children' m,
    r = Node n' keys' children' ∧ node_ok n' keys' children' ∧ same_path n n' ∧
    entries n keys children ≡ₚ (c, m) :: entries n' keys' children' ∧
    min_children (type n') ≤ length (entries n' keys' children').

Lemma entries_u8 n keys children : node_ok n keys children → Forall in_u8 (entries n keys children).*1.
Proof.
  intros Hok. rewrite entries_fst by done. apply Forall_forall. intros c ([c' i] & -> & Hin)%list_elem_of_fmap.
  by destruct (ok_slot _ _ _ Hok _ _ Hin).
Qed.
#[local] Hint Resolve entries_u8 entries_NoDup : core.

Lemma take_shift_down {A} num i (a : list A) :
  i < num → num ≤ length a → take (num - 1) (shift_down num i a) = delete i (take num a) ∧ length (shift_down num i a) = length a.
Proof.
  intros Hi Hn. unfold shift_down. assert (length (take (num - 1 - i) (drop (i + 1) a)) = num - 1 - i) as Hl.
  { rewrite length_take, length_drop. lia. }
  split; [|rewrite length_blit; [done|rewrite Hl; lia]]. rewrite delete_take_drop. unfold blit. rewrite Hl, app_assoc.
  rewrite take_app_le by (rewrite length_app, length_take, Hl; lia).
  rewrite take_ge by (rewrite length_app, length_take, Hl; lia). f_equal.
  - rewrite take_take. f_equal. lia.
  - rewrite skipn_firstn_comm. f_equal; [lia|]. f_equal. lia.
Qed.

Lemma remove_small n keys children c i :
  node_ok n keys children → small n → (c, i) ∈ child_slots n keys children →
  let n' := set_num n (decr8 (num_children n)) in
  let keys' := shift_down (num_children n) i keys in let children' := shift_down (num_children n) i children in
  node_ok n' keys' children' ∧ num_children n' = num_children n - 1
  ∧ ∃ m, entries n keys children ≡ₚ (c, m) :: entries n' keys' children'.
Proof.
  intros Hok Hs Hin n' keys' children'. pose proof (small_num _ _ _ Hok Hs) as (Hk & Hc & H16).
  destruct (small_entries n keys children Hok Hs) as [H1 H2]. apply slot_small in Hin; [|done].
  assert (i < num_children n) as Hi by (apply lookup_lt_Some in Hin; rewrite length_take in Hin; lia).
  destruct (take_shift_down (num_children n) i keys Hi Hk) as [Hk1 Hk2].
  destruct (take_shift_down (num_children n) i children Hi Hc) as [Hc1 Hc2].
  set (L := entries n keys children) in *. assert (length L = num_children n) as HL by (by apply length_entries_small).
  assert (∃ m, L !! i = Some (c, m)) as [m Hm].
  { rewrite <-H1, list_lookup_fmap in Hin. destruct (L !! i) as [[c' m]|]; cbn in Hin; [|done]. exists m. congruence. }
  assert (num_children n' = num_children n - 1) as Hn'.
  { change (num_children n') with (decr8 (num_children n)). destruct (num_children n) as [|k] eqn:Hnum; [lia|]. rewrite decr8_S; lia. }
  assert (length (delete i L) = num_children n') as HL' by (rewrite length_delete by (by eexists); lia).
  assert (node_ok n' keys' children' ∧ entries n' keys' children' = delete i L) as [Hok' Hent].
  { apply layout_small; [done|unfold keys'; by rewrite Hk2, (ok_keys _ _ _ Hok)|unfold children'; by rewrite Hc2, (ok_children _ _ _ Hok)|by apply (ok_partial _ _ _ Hok)
      |done| | | | |].
    - rewrite HL', Hn'. cbn. pose proof (ok_le _ _ _ Hok) as Hle. destruct Hs as [Ht|Ht]; rewrite Ht in *; lia.
    - rewrite HL', Hn', list_fmap_delete, H1. exact Hk1.
    - rewrite HL', Hn', !list_fmap_delete, H2. exact Hc1.
    - pose proof (entries_NoDup _ _ _ Hok) as Hnd. fold L in Hnd. rewrite (delete_Permutation L i _ Hm) in Hnd. by apply NoDup_cons in Hnd as [_ ?].
    - rewrite list_fmap_delete. apply Forall_delete. by apply entries_u8. }
  split; [done|]. split; [done|]. exists m. rewrite Hent. by apply delete_Permutation.
Qed.

Lemma same_path_copy n k t :
  length (partial n) = MAX_PREFIX_LEN →
  same_path n (copy_header (mk_hdr t 0 0 (replicate MAX_PREFIX_LEN 0%Z)) (set_num n k)).
Proof. intros Hp. exact (same_path_copy_header t (set_num n k) Hp). Qed.

Lemma remove_child16_ok n keys children c i :
  node_ok n keys children → type n = NODE16 → (c, i) ∈ child_slots n keys children →
  min_children (type n) ≤ length (entries n keys children) →
  removes n keys children c (remove_child16 n keys children i).
Proof.
  intros Hok Ht Hin Hmin. assert (Hs : small n) by (by right). pose proof (ok_partial _ _ _ Hok) as Hp.
  destruct (remove_small n keys children c i Hok Hs Hin) as (Hok' & Hnum & m & Hent).
  rewrite length_entries_small, Ht in Hmin by done. unfold remove_child16. cbn [min_children] in Hmin.
  set (n' := set_num n _) in *. set (ks := shift_down _ _ keys) in *. set (cs := shift_down _ _ children) in *.
  assert (Hlen : length (entries n' ks cs) = num_children n') by (apply length_entries_small; [done|by right]).
  case_bool_decide as H3.
  - destruct (small_entries n' ks cs Hok' ltac:(by right)) as [E1 E2]. rewrite H3 in E1, E2, Hlen.
    pose proof (ok_keys _ _ _ Hok') as Hk. pose proof (ok_children _ _ _ Hok') as Hch. cbn in Hk, Hch. rewrite Ht in Hk, Hch. cbn in Hk, Hch.
    cbn [alloc_node]. set (n2 := copy_header _ _).
    assert (node_ok n2 (blit 0 (take 4 ks) (replicate (keys_cap NODE4) 0%Z)) (blit 0 (take 4 cs) (replicate (children_cap NODE4) None))
      ∧ entries n2 (blit 0 (take 4 ks) (replicate (keys_cap NODE4) 0%Z)) (blit 0 (take 4 cs) (replicate (children_cap NODE4) None))
        = entries n' ks cs) as [Hok2 He2].
    { apply layout_small; [by left| | |by apply length_copy_header|by rewrite Hlen|rewrite Hlen; cbn; lia| | |by apply entries_NoDup|by apply entries_u8].
      - rewrite length_blit; [done|]. rewrite length_take, Hk. done.
      - rewrite length_blit; [done|]. rewrite length_take, Hch. done.
      - rewrite Hlen, E1. rewrite take_blit0 by (rewrite length_take; lia). by rewrite take_take.
      - rewrite Hlen, E2. rewrite take_blit0 by (rewrite length_take; lia). by rewrite take_take. }
    eexists _, _, _, m. split; [reflexivity|]. split; [exact Hok2|]. split; [by apply same_path_copy|].
    rewrite He2. split; [done|]. rewrite Hlen. cbn. lia.
  - eexists _, _, _, m. split; [reflexivity|]. split; [exact Hok'|]. split; [done|]. split; [done|].
    change (type n') with (type n). rewrite Hlen, Ht, Hnum. cbn [min_children]. rewrite Hnum in H3. lia.
Qed.

Lemma remove48_inplace n keys children c i m :
  node_ok n keys children → type n = NODE48 → (c, i) ∈ child_slots n keys children → children !! i = Some (Some m) →
  let n' := set_num n (decr8 (num_children n)) in
  let keys' := <[Z.to_nat c := 0%Z]> keys in let children' := <[i := None]> children in
  node_ok n' keys' children' ∧ entries n keys children ≡ₚ (c, m) :: entries n' keys' children'.
Proof.
  intros Hok Ht Hin Hm n' keys' children'. destruct (ok_slot _ _ _ Hok _ _ Hin) as [Hc _].
  destruct (keys48_nth n keys children c Hok Ht Hc) as [Hkc _].
  apply (removed_by_slot n keys children n' keys' children' c i m); try done.
  - by left.
  - unfold keys'. rewrite length_insert. by apply (ok_keys _ _ _ Hok).
  - unfold children'. rewrite length_insert. by apply (ok_children _ _ _ Hok).
  - intros c' j. rewrite !elem_child_slots. unfold slot_spec. cbn [type n' set_num]. rewrite Ht.
    assert (in_u8 c' → nth (Z.to_nat c') keys' 0%Z = if decide (c' = c) then 0%Z else nth (Z.to_nat c') keys 0%Z) as Hnth.
    { intros Hc'. unfold keys'. rewrite !nth_lookup. case_decide as H.
      - subst. rewrite list_lookup_insert_eq; [done|]. by eapply lookup_lt_Some.
      - rewrite list_lookup_insert_ne; [done|]. unfold in_u8 in *. lia. }
    split.
    + intros (Hc' & Hne & ->). rewrite Hnth in * by done. case_decide; [done|]. done.
    + intros [(Hc' & Hne & ->) Hcc]. by rewrite Hnth, decide_False.
  - intros _. destruct (ok_48 _ _ _ Hok Ht) as [Hf _]. apply Forall_insert; [done|lia].
Qed.

Lemma fold_slots48 n keys children N :
  type n = NODE48 → length (child_slots n keys children) ≤ N →
  foldl (λ '(ks, cs, child) i,
      if bool_decide (nth i keys 0%Z = 0%Z) then (ks, cs, child)
      else (<[child := Z.of_nat i]> ks, <[child := nth (Z.to_nat (nth i keys 0%Z - 1)) children None]> cs, S child))
    (replicate N 0%Z, replicate N None, 0) (seq 0 256)
  = ((child_slots n keys children).*1 ++ replicate (N - length (child_slots n keys children)) 0%Z,
     ((λ s, nth s.2 children None) <$> child_slots n keys children) ++ replicate (N - length (child_slots n keys children)) None,
     length (child_slots n keys children)).
Proof.
  intros Ht Hle. rewrite <-fold_fill by done. unfold child_slots. rewrite Ht.
  apply (foldl_omap _ (λ '(ks, cs, i) (x : Z * nat), (<[i := x.1]> ks, <[i := nth x.2 children None]> cs, S i))).
  intros [[ks cs] j] a. cbv zeta. by case_bool_decide.
Qed.

Lemma remove_child48_ok n keys children c i :
  node_ok n keys children → type n = NODE48 → (c, i) ∈ child_slots n keys children →
  min_children (type n) ≤ length (entries n keys children) →
  removes n keys children c (remove_child48 n keys children c).
Proof.
  intros Hok Ht Hin Hmin. pose proof (ok_partial _ _ _ Hok) as Hp. destruct (ok_slot _ _ _ Hok _ _ Hin) as [_ [m Hm]].
  destruct (remove48_inplace n keys children c i m Hok Ht Hin Hm) as [Hok' Hent].
  apply elem_child_slots in Hin as Hspec. unfold slot_spec in Hspec. rewrite Ht in Hspec. destruct Hspec as (Hc & Hne & Hi).
  unfold remove_child48. rewrite <-Hi. set (n' := set_num n _) in *. set (ks := <[_ := 0%Z]> keys) in *. set (cs := <[i := None]> children) in *.
  destruct (slots48_length n' ks cs Hok' Ht) as [Hle Hn']. rewrite <-length_entries in Hle, Hn' by done.
  rewrite Hent, Ht in Hmin. cbn [min_children length] in Hmin.
  case_bool_decide as H12.
  - cbn [alloc_node]. assert (length (child_slots n' ks cs) = 12) as Hlen by (rewrite <-length_entries by done; lia).
    change (keys_cap NODE16) with 16. change (children_cap NODE16) with 16. rewrite (fold_slots48 n' ks cs 16 Ht) by (rewrite Hlen; lia).
    set (n2 := copy_header _ _). set (k2 := _ ++ replicate _ 0%Z). set (c2 := _ ++ replicate _ None).
    assert (node_ok n2 k2 c2 ∧ entries n2 k2 c2 = entries n' ks cs) as [Hok2 He2].
    { apply layout_small; [by right| | |by apply length_copy_header|done|rewrite <-Hn', H12; cbn; lia| | |by apply entries_NoDup|by apply entries_u8].
      - unfold k2. rewrite length_app, length_fmap, length_replicate, Hlen. done.
      - unfold c2. rewrite length_app, length_fmap, length_replicate, Hlen. done.
      - rewrite length_entries by done. unfold k2. rewrite take_app_length' by (by rewrite length_fmap). by rewrite entries_fst.
      - rewrite length_entries by done. unfold c2. rewrite take_app_length' by (by rewrite length_fmap). rewrite entries_snd_slots by done.
        apply list_fmap_ext. intros j [c' x] _. cbn. rewrite nth_lookup. by destruct (cs !! x). }
    eexists _, _, _, m. split; [reflexivity|]. split; [exact Hok2|]. split; [by apply same_path_copy|].
    rewrite He2. split; [done|]. rewrite <-Hn', H12. cbn. lia.
  - eexists _, _, _, m. split; [reflexivity|]. split; [exact Hok'|]. split; [done|]. split; [done|].
    cbn [type n' set_num]. rewrite Ht. cbn [min_children]. lia.
Qed.

Lemma fold_slots256 n keys children N :
  type n = NODE256 → length (child_slots n keys children) ≤ N →
  foldl (λ '(ks, cs, pos) i,
      match children !! i with
      | Some (Some m) => (<[i := (Z.of_nat pos + 1)%Z]> ks, <[pos := Some m]> cs, S pos)
      | _ => (ks, cs, pos)
      end) (replicate 256 0%Z, replicate N None, 0) (seq 0 256)
  = (key_map (child_slots n keys children).*1,
     ((λ s, mjoin (children !! s.2)) <$> child_slots n keys children) ++ replicate (N - length (child_slots n keys children)) None,
     length (child_slots n keys children)).
Proof.
  intros Ht Hle. rewrite <-fold_keys by done. unfold child_slots. rewrite Ht.
  apply (foldl_omap _ (λ '(ks, cs, i) (x : Z * nat), (<[Z.to_nat x.1 := (Z.of_nat i + 1)%Z]> ks, <[i := mjoin (children !! x.2)]> cs, S i))).
  intros [[ks cs] j] a. destruct (children !! a) as [[m|]|] eqn:Ha; [|done..]. cbn. by rewrite Ha, Nat2Z.id.
Qed.

Lemma remove256_inplace n keys children c i m :
  node_ok n keys children → type n = NODE256 → (c, i) ∈ child_slots n keys children → children !! i = Some (Some m) →
  let n' := set_num n (decr8 (num_children n)) in let children' := <[i := None]> children in
  i = Z.to_nat c ∧ node_ok n' keys children' ∧ entries n keys children ≡ₚ (c, m) :: entries n' keys children'.
Proof.
  intros Hok Ht Hin Hm n' children'. apply elem_child_slots in Hin as Hspec. unfold slot_spec in Hspec. rewrite Ht in Hspec.
  destruct Hspec as (Hc & Hi & _). split; [done|].
  apply (removed_by_slot n keys children n' keys children' c i m); try done.
  - by right.
  - by apply (ok_keys _ _ _ Hok).
  - unfold children'. rewrite length_insert. by apply (ok_children _ _ _ Hok).
  - intros c' j. rewrite !elem_child_slots. unfold slot_spec. cbn [type n' set_num]. rewrite Ht. split.
    + intros (Hc' & -> & x & Hx). unfold children' in Hx. destruct (decide (c' = c)) as [->|Hne].
      * rewrite <-Hi, list_lookup_insert_eq in Hx; [done|]. by eapply lookup_lt_Some.
      * rewrite list_lookup_insert_ne in Hx by (unfold in_u8 in *; lia). eauto.
    + intros [(Hc' & -> & x & Hx) Hne]. split_and!; [done|done|]. exists x. unfold children'.
      rewrite list_lookup_insert_ne; [done|]. unfold in_u8 in *; lia.
  - intros H. cbn in H. congruence.
Qed.

Lemma slots256_length n keys children : type n = NODE256 → length (child_slots n keys children) ≤ 256.
Proof.
  intros Ht. unfold child_slots. rewrite Ht. rewrite <-(length_seq 256 0) at 2.
  induction (seq 0 256) as [|a l IH]; [done|]. cbn. destruct (children !! a) as [[]|]; cbn; lia.
Qed.

Lemma remove_child256_ok n keys children c i :
  node_ok n keys children → type n = NODE256 → (c, i) ∈ child_slots n keys children →
  min_children (type n) ≤ length (entries n keys children) →
  removes n keys children c (remove_child256 n keys children c).
Proof.
  intros Hok Ht Hin Hmin. pose proof (ok_partial _ _ _ Hok) as Hp. destruct (ok_slot _ _ _ Hok _ _ Hin) as [_ [m Hm]].
  destruct (remove256_inplace n keys children c i m Hok Ht Hin Hm) as (Hi & Hok' & Hent).
  unfold remove_child256. rewrite <-Hi. set (n' := set_num n _) in *. set (cs := <[i := None]> children) in *.
  assert (num_children n' = length (entries n' keys cs)) as Hn'.
  { rewrite (ok_num _ _ _ Hok'), length_entries by done. apply Nat.mod_small. pose proof (slots256_length n keys children Ht) as Hle.
    rewrite <-length_entries, Hent in Hle by done. cbn in Hle. rewrite <-length_entries by done. lia. }
  rewrite Hent, Ht in Hmin. cbn [min_children length] in Hmin. case_bool_decide as H37.
  - cbn [alloc_node]. assert (length (child_slots n' keys cs) = 37) as Hlen by (rewrite <-length_entries by done; lia).
    change (keys_cap NODE48) with 256. change (children_cap NODE48) with 48. rewrite (fold_slots256 n' keys cs 48 Ht) by (rewrite Hlen; lia).
    rewrite <-entries_fst, <-entries_snd_slots, <-length_entries by done. set (n2 := copy_header _ _).
    destruct (layout48 n2 (entries n' keys cs)) as [Hok2 He2]; [done|by apply length_copy_header|done|lia|by apply entries_NoDup|by apply entries_u8|].
    eexists _, _, _, m. split; [reflexivity|]. split; [exact Hok2|]. split; [by apply same_path_copy|].
    rewrite He2. split; [done|]. rewrite <-Hn', H37. cbn. lia.
  - eexists _, _, _, m. split; [reflexivity|]. split; [exact Hok'|]. split; [done|]. split; [done|].
    cbn [type n' set_num]. rewrite Ht. cbn [min_children]. lia.
Qed.

(** ** A node with one child left *)
Lemma concat_path n m c q q2 :
  length (partial n) = MAX_PREFIX_LEN → length (partial m) = MAX_PREFIX_LEN → length q = partial_len n → length q2 = partial_len m →
  take (min MAX_PREFIX_LEN (partial_len n)) (partial n) = take (min MAX_PREFIX_LEN (partial_len n)) q →
  take (min MAX_PREFIX_LEN (partial_len m)) (partial m) = take (min MAX_PREFIX_LEN (partial_len m)) q2 →
  let r := concat_prefix n m c in
  length (partial r) = MAX_PREFIX_LEN ∧ partial_len r = length (q ++ c :: q2)
  ∧ take (min MAX_PREFIX_LEN (partial_len r)) (partial r) = take (min MAX_PREFIX_LEN (partial_len r)) (q ++ c :: q2).
Proof.
  intros Hn Hm Hq Hq2 Htn Htm r.
  assert (Hqn : ∀ j, j < min MAX_PREFIX_LEN (partial_len n) → partial n !! j = q !! j).
  { intros j Hj. by rewrite <-(lookup_take_lt (partial n) _ j Hj), Htn, lookup_take_lt. }
  assert (Hqm : ∀ j, j < min MAX_PREFIX_LEN (partial_len m) → partial m !! j = q2 !! j).
  { intros j Hj. by rewrite <-(lookup_take_lt (partial m) _ j Hj), Htm, lookup_take_lt. }
  assert (∃ p, r = set_partial m (length (q ++ c :: q2)) (blit 0 (take (min MAX_PREFIX_LEN (length (q ++ c :: q2))) p) (partial m))
    ∧ length p = MAX_PREFIX_LEN ∧ ∀ j, j < min MAX_PREFIX_LEN (length (q ++ c :: q2)) → p !! j = (q ++ c :: q2) !! j) as (p & -> & Hp & Hj).
  { unfold r, concat_prefix. rewrite length_app, length_cons, Hq, Hq2.
    replace (partial_len m + (partial_len n + 1)) with (partial_len n + S (partial_len m)) by lia.
    destruct (decide (partial_len n < MAX_PREFIX_LEN)) as [Hk|Hk].
    2: { rewrite (bool_decide_eq_false_2 (partial_len n < MAX_PREFIX_LEN)) by done. rewrite bool_decide_eq_false_2 by done. exists (partial n).
         split; [do 2 f_equal; f_equal; lia|]. split; [done|]. intros j Hj. rewrite Hqn by lia. by rewrite lookup_app_l by lia. }
    rewrite (bool_decide_eq_true_2 (partial_len n < MAX_PREFIX_LEN)) by done.
    assert (∀ j, j ≤ partial_len n → <[partial_len n := c]> (partial n) !! j = (q ++ c :: q2) !! j) as Hfirst.
    { intros j Hj. destruct (decide (j = partial_len n)) as [->|].
      - rewrite list_lookup_insert_eq by lia. by rewrite <-Hq, list_lookup_middle.
      - rewrite list_lookup_insert_ne, Hqn, lookup_app_l by lia. done. }
    case_bool_decide as Hk1.
    - eexists. split; [do 2 f_equal; f_equal; lia|]. split.
      { rewrite length_blit; rewrite length_insert; [done|]. rewrite length_take. lia. }
      intros j Hj. rewrite lookup_blit by (rewrite length_insert; lia). case_decide as Hj1; [apply Hfirst; lia|].
      rewrite length_take, Hm. rewrite decide_True by lia. rewrite lookup_take_lt, Hqm by lia.
      rewrite lookup_app_r by lia. rewrite Hq. by replace (j - partial_len n) with (S (j - (partial_len n + 1))) by lia.
    - eexists. split; [do 2 f_equal; f_equal; lia|]. rewrite length_insert. split; [done|]. intros j Hj. apply Hfirst. lia. }
  cbn [partial partial_len set_partial]. split; [|split; [done|]].
  - rewrite length_blit; [done|]. rewrite length_take. lia.
  - rewrite take_blit0 by (rewrite length_take; lia). rewrite take_take, Nat.min_id. apply list_eq. intros j. rewrite !lookup_take.
    case_decide; [by apply Hj|done].
Qed.

(** The inner node of a well-formed tree at path [p], with its compressed path [q]. *)
Record inner p n keys children (q : list Z) : Prop := {
  in_ok : node_ok n keys children;
  in_len : length q = partial_len n;
  in_path : take (min MAX_PREFIX_LEN (partial_len n)) (partial n) = take (min MAX_PREFIX_LEN (partial_len n)) q;
  in_min : min_children (type n) ≤ length (entries n keys children);
  in_wf : ∀ c m, (c, m) ∈ entries n keys children → wf (p ++ q ++ [c]) m
}.

(** The tree [r] that is left when the child [m] is taken out. *)
Definition leaves_without p n keys children (m r : art_node V) : Prop :=
  wf p r ∧ leaves (Node n keys children) ≡ₚ leaves m ++ leaves r.

Lemma removes_wf p n keys children q c i m r :
  inner p n keys children q → (c, i) ∈ child_slots n keys children → children !! i = Some (Some m) →
  removes n keys children c r → leaves_without p n keys children m r.
Proof.
  intros [Hok Hq Htk Hmin Hwf] Hin Hm (n' & ks & cs & m' & -> & Hok' & [Hs1 Hs2] & He & Hmin').
  assert (m' = m) as ->.
  { eapply entries_unique; [exact Hok|rewrite He; left|apply elem_entries; eauto]. }
  split.
  - apply wf_node with q; rewrite ?Hs1; [done|done|congruence|done|]. intros c' x Hx. apply Hwf. rewrite He. by right.
  - rewrite !leaves_node, He. done.
Qed.

Lemma concat_wf p n m q c ks (cs : list (option (art_node V))) :
  length (partial n) = MAX_PREFIX_LEN → length q = partial_len n →
  take (min MAX_PREFIX_LEN (partial_len n)) (partial n) = take (min MAX_PREFIX_LEN (partial_len n)) q →
  wf (p ++ q ++ [c]) (Node m ks cs) → wf p (Node (concat_prefix n m c) ks cs).
Proof.
  intros Hp Hq Htk Hw. inversion Hw as [|? ? ? ? q2 Hok2 Hq2 Htk2 Hmin2 Hwf2]; subst.
  destruct (concat_path n m c q q2) as (Hl & Hlen & Hpath); [done|by apply (ok_partial _ _ _ Hok2)|done..|].
  assert (∃ len part, concat_prefix n m c = set_partial m len part) as (len & part & Heq).
  { unfold concat_prefix. repeat case_bool_decide; by eexists _, _. }
  apply wf_node with (q ++ c :: q2); [|done|done|..].
  - rewrite Heq in Hl |- *. by apply node_ok_set_partial.
  - rewrite Heq. done.
  - intros c' x Hx. rewrite Heq in Hx. apply Hwf2 in Hx. rewrite <-!app_assoc in Hx |- *. rewrite <-app_assoc in Hx. exact Hx.
Qed.

Lemma remove_child4_ok p n keys children q c i m :
  inner p n keys children q → type n = NODE4 → (c, i) ∈ child_slots n keys children → children !! i = Some (Some m) →
  ∃ r, remove_child4 n keys children i = Ret r ∧ leaves_without p n keys children m r.
Proof.
  intros Hinn Ht Hin Hm. pose proof Hinn as [Hok Hq Htk Hmin Hwf]. assert (Hs : small n) by (by left).
  destruct (remove_small n keys children c i Hok Hs Hin) as (Hok' & Hnum & m' & Hent). pose proof (ok_partial _ _ _ Hok) as Hp.
  assert (m' = m) as ->. { eapply entries_unique; [exact Hok|rewrite Hent; left|apply elem_entries; eauto]. }
  unfold remove_child4. set (n' := set_num n _) in *. set (ks := shift_down _ _ keys) in *. set (cs := shift_down _ _ children) in *.
  assert (Hlen : length (entries n' ks cs) = num_children n') by (apply length_entries_small; [done|by left]).
  case_bool_decide as H1.
  - destruct (small_entries n' ks cs Hok' ltac:(by left)) as [E1 E2]. rewrite H1 in E1, E2, Hlen.
    destruct (entries n' ks cs) as [|[c1 m1] [|]] eqn:He; try done. cbn in E1, E2.
    destruct ks as [|k0 ks0]; [done|]. destruct cs as [|o cs0]; [done|]. cbn in E1, E2. simplify_eq. cbn [lookup list_lookup mjoin option_join deref mbind outcome_bind nth].
    assert (wf (p ++ q ++ [k0]) m1) as Hw1 by (apply Hwf; rewrite Hent; right; left).
    assert (leaves (Node n keys children) ≡ₚ leaves m ++ leaves m1) as Hl.
    { rewrite leaves_node, Hent. cbn. by rewrite app_nil_r. }
    destruct m1 as [l|m1 ks1 cs1].
    + exists (Leaf l). split; [done|]. split; [|done]. inversion Hw1; subst. constructor; [done|]. etrans; [|done]. by apply prefix_app_r.
    + eexists. split; [reflexivity|]. split; [by apply (concat_wf p n' m1 q k0)|]. rewrite Hl.
      assert (∃ len part, concat_prefix n' m1 k0 = set_partial m1 len part) as (len & part & ->).
      { unfold concat_prefix. repeat case_bool_decide; by eexists _, _. }
      by rewrite leaves_set_partial.
  - eexists. split; [reflexivity|]. apply (removes_wf p n keys children q c i m); [done..|].
    eexists _, _, _, m. split; [reflexivity|]. split; [exact Hok'|]. split; [done|]. split; [done|].
    change (type n') with (type n). rewrite Ht. cbn [min_children].
    rewrite Hent, Ht in Hmin. cbn in Hmin. lia.
Qed.

Lemma remove_child_ok p n keys children q c i m :
  inner p n keys children q → (c, i) ∈ child_slots n keys children → children !! i = Some (Some m) →
  ∃ r, remove_child n keys children c i = Ret r ∧ leaves_without p n keys children m r.
Proof.
  intros Hinn Hin Hm. pose proof Hinn as [Hok Hq Htk Hmin Hwf]. unfold remove_child. destruct (type n) eqn:Ht.
  - by apply (remove_child4_ok p n keys children q c i m).
  - eexists. split; [done|]. apply (removes_wf p n keys children q c i m); [done..|]. by apply remove_child16_ok; rewrite ?Ht.
  - eexists. split; [done|]. apply (removes_wf p n keys children q c i m); [done..|]. by apply (remove_child48_ok n keys children c i); rewrite ?Ht.
  - eexists. split; [done|]. apply (removes_wf p n keys children q c i m); [done..|]. by apply (remove_child256_ok n keys children c i); rewrite ?Ht.
Qed.

(** ** Descending *)
Context (oob : list Z → nat → Z).

(** What a deletion on a tree [t] at path [p] leaves behind; an inner node never vanishes. *)
Definition deleted p (t : art_node V) key (r : option (art_node V) * option (art_leaf V)) : Prop :=
  match r.2, r.1 with
  | None, t' => t' = Some t ∧ key ∉ (leaves t).*1
  | Some l, None => t = Leaf l ∧ leaf_key l = key
  | Some l, Some t' => leaf_key l = key ∧ wf p t' ∧ leaves t ≡ₚ (key, leaf_value l) :: leaves t'
  end.

Lemma leaf_matches_eq (l : art_leaf V) key : leaf_matches l key = bool_decide (leaf_key l = key).
Proof.
  unfold leaf_matches. destruct (decide (leaf_key l = key)) as [<-|Hne]; [by rewrite !bool_decide_eq_true_2|].
  by rewrite (bool_decide_eq_false_2 (leaf_key l = key)), andb_false_r.
Qed.

(** A key below an inner node is reached through its compressed path and its byte. *)
Lemma inner_key p n keys children q key :
  inner p n keys children q → cstr key → key ∈ (leaves (Node n keys children)).*1 →
  check_prefix oob n key (length p) = min MAX_PREFIX_LEN (partial_len n)
  ∧ ∃ i m, find_child n keys children (key_at oob key (length p + partial_len n)) = Some i
    ∧ children !! i = Some (Some m) ∧ key ∈ (leaves m).*1.
Proof.
  intros [Hok Hq Htk Hmin Hwf] Hkey ([k v] & -> & Hin)%list_elem_of_fmap. cbn [fst] in *.
  apply elem_leaves_node in Hin as (c & m & He & Hin). destruct (wf_leaves _ _ _ _ (Hwf c m He) Hin) as [_ Hpre].
  split; [by apply (check_prefix_match oob p n q [c])|].
  rewrite app_assoc in Hpre. apply (prefix_key_at oob) in Hpre as [_ Hc]. rewrite length_app, Hq in Hc. rewrite Hc.
  assert (in_u8 c) as Hc8 by (rewrite <-Hc; by apply key_at_u8).
  apply elem_entries in He as (i & Hs & Hm). exists i, m. split; [by apply find_child_slot|]. split; [done|].
  apply list_elem_of_fmap. by exists (k, v).
Qed.

Lemma deleted_child p n keys children q c i m m' key l :
  inner p n keys children q → (c, i) ∈ child_slots n keys children → children !! i = Some (Some m) →
  deleted (p ++ q ++ [c]) m key (Some m', Some l) →
  deleted p (Node n keys children) key (Some (Node n keys (<[i := Some m']> children)), Some l).
Proof.
  intros [Hok Hq Htk Hmin Hwf] Hin Hm (Hl & Hw & Hp). split; [done|]. split; [by eapply wf_update|].
  destruct (leaves_update n keys children c i m m' Hok Hin Hm) as (rest & _ & _ & -> & ->). by rewrite Hp.
Qed.

Lemma recursive_delete_ok p t key :
  wf p t → cstr key → ∃ r, recursive_delete oob t key (length p) = Ret r ∧ deleted p t key r.
Proof.
  intros Hw Hkey. induction Hw as [p l Hc Hp|p n keys children q Hok Hq Htk Hmin Hwf IH].
  - cbn. rewrite leaf_matches_eq. case_bool_decide as Hl; eexists; (split; [done|]); [done|].
    split; [done|]. cbn. by intros ->%list_elem_of_singleton.
  - assert (Hinn : inner p n keys children q) by done.
    assert (Hnone : (key ∈ (leaves (Node n keys children)).*1 → False) →
      deleted p (Node n keys children) key (Some (Node n keys children), None)) by done.
    cbn [recursive_delete]. destruct (bool_decide (partial_len n ≠ 0) && _) eqn:Hcheck.
    { eexists. split; [done|]. apply Hnone. intros (Hpre & _)%(inner_key p n keys children q); [|done..].
      apply andb_true_iff in Hcheck as [_ Hc%bool_decide_eq_true]. done. }
    clear Hcheck. set (c := key_at oob key (length p + partial_len n)).
    destruct (find_child n keys children c) as [i|] eqn:Hf.
    2: { eexists. split; [done|]. apply Hnone. intros (_ & i & m & Hfc & _)%(inner_key p n keys children q); [|done..]. fold c in Hfc. congruence. }
    assert (in_u8 c) as Hc8 by (by apply key_at_u8).
    apply find_child_Some in Hf as Hfs; [|done..]. destruct Hfs as (m & Hm & He). apply find_child_slot in Hf as Hin; [|done..].
    assert (Hrest : key ∈ (leaves (Node n keys children)).*1 → key ∈ (leaves m).*1).
    { intros (_ & i' & m' & Hfc & Hm' & Hk)%(inner_key p n keys children q); [|done..]. fold c in Hfc. congruence. }
    rewrite at_child_lookup, Hm. destruct m as [l|mn mk mc] eqn:Hnode.
    + rewrite leaf_matches_eq. case_bool_decide as Hl.
      * destruct (remove_child_ok p n keys children q c i (Leaf l)) as (r & Hr & Hwr & Hlr); [done..|].
        rewrite Hr. eexists. split; [done|]. split; [done|]. split; [done|]. rewrite Hlr. cbn. by rewrite Hl.
      * eexists. split; [done|]. apply Hnone. intros Hk%Hrest. cbn in Hk. by apply list_elem_of_singleton in Hk.
    + rewrite <-Hnode in *. destruct (IH c m He) as ([t' l] & Hr & Hd).
      replace (length (p ++ q ++ [c])) with (S (length p + partial_len n)) in Hr by (rewrite !length_app; cbn; lia).
      rewrite Hr. cbn. eexists. split; [done|]. destruct l as [l|].
      * destruct t' as [t'|]; [|destruct Hd; congruence]. by eapply deleted_child.
      * destruct Hd as [Heq Hd]. cbn in Heq. subst t'. rewrite list_insert_id by done. apply Hnone. auto.
Qed.

Lemma u64_pred_length k : u64 (u64 (Z.of_nat (S k)) - 1) = u64 (Z.of_nat k).
Proof. unfold u64. rewrite Zminus_mod_idemp_l. f_equal. lia. Qed.

(** Deletion on trees, against the map. *)
Lemma art_delete_map (t : art_tree V) key :
  art_ok t → cstr key →
  ∃ t', art_delete oob t key = Ret (t', art_map t !! key) ∧ art_ok t' ∧ art_map t' = delete key (art_map t).
Proof.
  intros Hok Hkey. pose proof (contents_NoDup t Hok) as Hnd. unfold art_delete. destruct (root t) as [n|] eqn:Hroot.
  2: { exists t. unfold art_map, contents. rewrite Hroot. cbn. by rewrite delete_empty. }
  destruct Hok as [Hw Hs]. rewrite Hroot in Hw. assert (Hc : contents t = leaves n) by (unfold contents; by rewrite Hroot).
  destruct (recursive_delete_ok [] n key Hw Hkey) as ([n' l] & Hr & Hd). cbn [length] in Hr. rewrite Hr. cbn.
  unfold art_map. rewrite Hc in Hnd, Hs |- *. destruct l as [l|].
  - assert (leaves n ≡ₚ (key, leaf_value l) :: contents (mk_tree n' (u64 (tree_size t - 1))) ∧
      match n' with Some x => wf [] x | None => True end) as [Hperm Hw'].
    { destruct n' as [n'|]; [by destruct Hd as (_ & ? & ?)|]. destruct Hd as [-> <-]. done. }
    rewrite Hperm in Hnd. cbn in Hnd. pose proof Hnd as [Hnin Hnd']%NoDup_cons.
    rewrite (list_to_map_proper (leaves n) _ ltac:(by rewrite Hperm) Hperm). cbn. rewrite lookup_insert_eq.
    eexists. split; [done|]. split; [split; [done|]|].
    + cbn. rewrite Hs, Hperm. cbn [length]. apply u64_pred_length.
    + rewrite delete_insert_eq. rewrite delete_id; [done|]. by apply not_elem_of_list_to_map_1.
  - destruct Hd as [Heq Hd]. cbn in Heq. subst n'. rewrite (not_elem_of_list_to_map_1 (leaves n) key Hd). eexists. split; [done|].
    split; [split; [done|by unfold contents; cbn]|]. cbn. rewrite delete_id; [done|]. by apply not_elem_of_list_to_map_1.
Qed.
End Delete.
