(* ===== verification/ArtTheorems.v ===== *)
(** * Properties of the adaptive radix tree (art.c) *)
From S2P Require Import Prelude Art ArtNode ArtTree ArtInsert ArtMap ArtDelete.

Section Theorems.
Context {V : Type} (oob : list Z → nat → Z).
Implicit Types (t : art_tree V) (kvs : list (list Z * V)).

(** On a well-formed tree and a C-string key, [art_search] returns exactly
    the value the tree's map holds for the key, NULL when there is none,
    whatever lies in memory behind the key. *)
Theorem art_search_correct t key : art_ok t → cstr key → art_search oob t key = art_map t !! key.
Proof. apply art_search_map. Qed.

(** [art_insert] of a C-string key into a well-formed tree does not fault,
    returns the value that was stored under the key before (NULL if none),
    keeps the tree well formed with an exact size counter, and updates the
    map at that key only. *)
Theorem art_insert_correct t key v :
  art_ok t → cstr key →
  ∃ t', art_insert oob t key v = Ret (t', art_map t !! key)
      ∧ art_ok t' ∧ art_map t' = <[key := v]> (art_map t)
      ∧ art_size t' = u64 (Z.of_nat (size (<[key := v]> (art_map t)))).
Proof.
  intros Hok Hk. destruct (art_insert_map oob t key v Hok Hk) as (t' & Hr & Hok' & Hm).
  exists t'. split; [done|]. split; [done|]. split; [done|]. rewrite <-Hm, <-length_contents by done.
  apply Hok'.
Qed.

(** A sequence of insertions, from the first to the last. *)
Fixpoint insert_all t kvs : outcome (art_tree V) :=
  match kvs with
  | [] => Ret t
  | (k, v) :: kvs => '(t, _) ← art_insert oob t k v; insert_all t kvs
  end.
(** The map after the same updates. *)
Definition updated (m : gmap (list Z) V) kvs : gmap (list Z) V :=
  foldl (λ m kv, <[kv.1 := kv.2]> m) m kvs.

Lemma insert_all_map t kvs :
  art_ok t → Forall cstr kvs.*1 →
  ∃ t', insert_all t kvs = Ret t' ∧ art_ok t' ∧ art_map t' = updated (art_map t) kvs.
Proof.
  revert t. induction kvs as [|[k v] kvs IH]; intros t Hok Hc; [by exists t|].
  inversion Hc; subst. destruct (art_insert_map oob t k v) as (t1 & Hr & Hok1 & Hm1); [done|done|].
  simpl. rewrite Hr. simpl. rewrite <-Hm1. by apply IH.
Qed.

(** ** Scripts of operations *)
Inductive art_op := DoInsert (k : list Z) (v : V) | DoDelete (k : list Z) | DoSearch (k : list Z) | DoSize.
Inductive art_answer := Value (o : option V) | Size (n : Z).
Definition op_key (o : art_op) : list Z :=
  match o with DoInsert k _ | DoDelete k | DoSearch k => k | DoSize => [] end.

Definition art_do (o : art_op) t : outcome (art_tree V * art_answer) :=
  match o with
  | DoInsert k v => '(t, old) ← art_insert oob t k v; Ret (t, Value old)
  | DoDelete k => '(t, old) ← art_delete oob t k; Ret (t, Value old)
  | DoSearch k => Ret (t, Value (art_search oob t k))
  | DoSize => Ret (t, Size (art_size t))
  end.
Fixpoint art_run (os : list art_op) t : outcome (art_tree V * list art_answer) :=
  match os with
  | [] => Ret (t, [])
  | o :: os => '(t, a) ← art_do o t; '(t, l) ← art_run os t; Ret (t, a :: l)
  end.

(** The same script on a finite map. *)
Definition map_do (o : art_op) (m : gmap (list Z) V) : gmap (list Z) V * art_answer :=
  match o with
  | DoInsert k v => (<[k := v]> m, Value (m !! k))
  | DoDelete k => (delete k m, Value (m !! k))
  | DoSearch k => (m, Value (m !! k))
  | DoSize => (m, Size (u64 (Z.of_nat (size m))))
  end.
Fixpoint map_run (os : list art_op) (m : gmap (list Z) V) : gmap (list Z) V * list art_answer :=
  match os with
  | [] => (m, [])
  | o :: os => let '(m, a) := map_do o m in let '(m, l) := map_run os m in (m, a :: l)
  end.

Lemma art_do_map o t :
  art_ok t → cstr (op_key o) → ∃ t', art_do o t = Ret (t', (map_do o (art_map t)).2) ∧ art_ok t' ∧ art_map t' = (map_do o (art_map t)).1.
Proof.
  intros Hok Hk. destruct o as [k v|k|k|]; cbn in Hk |- *.
  - destruct (art_insert_map oob t k v Hok Hk) as (t' & -> & ? & ?). by exists t'.
  - destruct (art_delete_map oob t k Hok Hk) as (t' & -> & ? & ?). by exists t'.
  - exists t. by rewrite art_search_map.
  - exists t. split; [|done]. do 3 f_equal. rewrite <-length_contents by done. apply Hok.
Qed.
Lemma art_run_map os t :
  art_ok t → Forall cstr (op_key <$> os) →
  ∃ t', art_run os t = Ret (t', (map_run os (art_map t)).2) ∧ art_ok t' ∧ art_map t' = (map_run os (art_map t)).1.
Proof.
  revert t. induction os as [|o os IH]; intros t Hok Hk; [by exists t|]. rewrite fmap_cons in Hk. apply Forall_cons in Hk as [Ho Hk].
  destruct (art_do_map o t Hok Ho) as (t1 & H1 & Hok1 & Hm1). destruct (IH t1 Hok1 Hk) as (t2 & H2 & Hok2 & Hm2).
  exists t2. cbn. rewrite H1. cbn. rewrite H2. cbn. rewrite Hm1 in *. destruct (map_do o (art_map t)) as [m a]. cbn in *.
  by destruct (map_run os m).
Qed.

(** C3: the radix tree refines a finite map.  Any script of insertions,
    deletions, searches and size queries with C-string keys on an empty tree
    runs without a fault, whatever lies in memory behind the keys, and every
    call answers what it answers on a finite map: the previous value, the value
    removed, the value found, the number of keys. *)
Theorem art_refines_map os :
  Forall cstr (op_key <$> os) →
  ∃ t, art_run os art_tree_init = Ret (t, (map_run os ∅).2) ∧ art_ok t ∧ art_map t = (map_run os ∅).1.
Proof. intros Hk. exact (art_run_map os art_tree_init art_ok_init Hk). Qed.

(** C10: [art_delete] of a C-string key does not fault, returns the value that
    was stored under it (NULL if none), keeps the tree well formed with an exact
    size counter, through all node sizes and the merging of compressed paths,
    and removes that key only. *)
Theorem art_delete_correct t key :
  art_ok t → cstr key →
  ∃ t', art_delete oob t key = Ret (t', art_map t !! key)
      ∧ art_ok t' ∧ art_map t' = delete key (art_map t)
      ∧ art_size t' = u64 (Z.of_nat (size (delete key (art_map t)))).
Proof.
  intros Hok Hk. destruct (art_delete_map oob t key Hok Hk) as (t' & Hr & Hok' & Hm).
  exists t'. split; [done|]. split; [done|]. split; [done|]. rewrite <-Hm, <-length_contents by done. apply Hok'.
Qed.

(** Destruction frees the leaves of the map, each once, and with them every inner node on the way up. *)
Definition freed_leaf (n : art_node V) : option (list Z * V) :=
  match n with Leaf l => Some (leaf_key l, leaf_value l) | Node _ _ _ => None end.
Lemma destroy_leaves p n : wf p n → omap freed_leaf (destroy_node n) = leaves n.
Proof.
  induction 1 as [p l Hc Hp|p n keys children q Hok Hq Htk Hmin Hwf IH]; [done|].
  cbn [destroy_node leaves]. rewrite omap_app. cbn. rewrite app_nil_r.
  assert (Hsl : ∀ c i, (c, i) ∈ child_slots n keys children → ∃ m, (c, m) ∈ entries n keys children ∧ children !! i = Some (Some m)).
  { intros c i Hin. destruct (ok_slot _ _ _ Hok _ _ Hin) as [_ [m Hm]]. exists m. split; [apply elem_entries; eauto|done]. }
  clear Hmin. induction (child_slots n keys children) as [|[c i] sl IHs]; [done|]. cbn. rewrite omap_app.
  destruct (Hsl c i) as (m & He & Hm); [left|]. rewrite !at_child_lookup, Hm, (IH c m He). f_equal. apply IHs.
  intros c' i' Hin. apply Hsl. by right.
Qed.
Theorem art_destroy_frees t : art_ok t → omap freed_leaf (art_tree_destroy t).1 = contents t.
Proof. intros [Hw _]. unfold art_tree_destroy, contents. destruct (root t); [|done]. by eapply destroy_leaves. Qed.

(** Any sequence of insertions of C-string keys into an empty tree runs
    without a fault; afterwards every lookup of a C string answers with the
    last value inserted under it, and [art_size] is the number of distinct
    keys (modulo 2^64). *)
Theorem art_build_correct kvs :
  Forall cstr kvs.*1 →
  ∃ t, insert_all art_tree_init kvs = Ret t
     ∧ (∀ key, cstr key → art_search oob t key = updated ∅ kvs !! key)
     ∧ art_size t = u64 (Z.of_nat (size (updated ∅ kvs))).
Proof.
  intros Hc. destruct (insert_all_map art_tree_init kvs art_ok_init Hc) as (t & Hr & Hok & Hm).
  change (art_map art_tree_init) with (∅ : gmap (list Z) V) in Hm. exists t. split; [done|]. split.
  - intros key Hk. rewrite art_search_map by done. by rewrite Hm.
  - destruct Hok as [Hw Hs]. rewrite <-Hm, <-length_contents by done. apply Hs.
Qed.

(** C25: [art_iter] on a well-formed tree calls the callback on every key/value
    pair of the map exactly once, in one fixed order, stopping at the first
    non-zero result, which it returns. *)
Theorem art_iter_correct {D} t (cb : D → list Z → V → D * Z) data :
  art_ok t →
  ∃ l, art_iter t cb data = iter_list cb l data ∧ NoDup l.*1 ∧ list_to_map l = art_map t.
Proof.
  intros Hok. exists (contents t). split; [by apply art_iter_list|]. split; [by apply contents_NoDup|done].
Qed.

(** Counting by iteration, [art_iter_size], agrees with the size counter
    that insertions maintain. *)
Theorem art_iter_size_correct t : art_ok t → art_iter_size t = art_size t.
Proof.
  intros Hok. unfold art_iter_size. rewrite art_iter_list by done.
  change 0%Z with (u64 0) at 1. rewrite iter_size_list. simpl. symmetry. apply Hok.
Qed.

(** For a prefix of some key of the tree, [art_iter_prefix] calls the
    callback on exactly the pairs whose key starts with the prefix, once each,
    stopping at the first non-zero result, which it returns. *)
Theorem art_iter_prefix_correct {D} t (cb : D → list Z → V → D * Z) key data :
  art_ok t → cstr key → (∃ k, is_Some (art_map t !! k) ∧ key `prefix_of` k) →
  ∃ l, art_iter_prefix oob t key cb data = Ret (iter_list cb l data) ∧ NoDup l.*1
    ∧ ∀ k v, (k, v) ∈ l ↔ art_map t !! k = Some v ∧ key `prefix_of` k.
Proof.
  intros Hok Hkey Hex. eexists. split; [by apply art_iter_prefix_list|]. split.
  - apply matching_NoDup. exact (contents_NoDup t Hok).
  - intros k v. rewrite list_elem_of_filter, art_map_lookup by done. cbn. tauto.
Qed.
End Theorems.

(** ** Witnesses *)
Definition no_memory : list Z → nat → Z := λ _ _, 0%Z.
Definition keys3 : list (list Z * nat) := [([97; 98]%Z, 1); ([97; 99]%Z, 2); ([97]%Z, 3)].
Definition tree3 : art_tree nat :=
  match insert_all no_memory art_tree_init keys3 with Ret t => t | Fault => art_tree_init end.

Lemma tree3_ok : art_ok tree3.
Proof.
  destruct (insert_all_map no_memory art_tree_init keys3 art_ok_init) as (t & Hr & Hok & _).
  - repeat constructor; lia.
  - unfold tree3. by rewrite Hr.
Qed.
Lemma cstr_ac : cstr [97; 99]%Z.
Proof. repeat constructor; lia. Qed.

Lemma art_search_correct_witness :
  art_search no_memory tree3 [97; 99]%Z = art_map tree3 !! [97; 99]%Z
  ∧ art_search no_memory tree3 [97; 99]%Z = Some 2.
Proof. split; [apply (art_search_correct no_memory tree3 _ tree3_ok cstr_ac)|reflexivity]. Defined.

Lemma art_insert_correct_witness :
  ∃ t', art_insert no_memory tree3 [97; 99]%Z 5 = Ret (t', art_map tree3 !! [97; 99]%Z)
      ∧ art_ok t' ∧ art_map t' = <[[97; 99]%Z := 5]> (art_map tree3)
      ∧ art_size t' = u64 (Z.of_nat (size (<[[97; 99]%Z := 5]> (art_map tree3)))).
Proof. apply (art_insert_correct no_memory tree3 _ 5 tree3_ok cstr_ac). Defined.

Definition script5 : list (@art_op nat) :=
  [DoInsert [97; 98]%Z 1; DoInsert [97; 99]%Z 2; DoDelete [97; 98]%Z; DoSearch [97; 99]%Z; DoSize].
Lemma art_refines_map_witness :
  (∃ t, art_run no_memory script5 art_tree_init = Ret (t, (map_run script5 ∅).2) ∧ art_ok t ∧ art_map t = (map_run script5 ∅).1)
  ∧ (map_run script5 ∅).2 = [Value None; Value None; Value (Some 1); Value (Some 2); Size 1].
Proof. split; [apply (art_refines_map no_memory script5); repeat constructor; lia|vm_compute; reflexivity]. Defined.

Lemma art_delete_correct_witness :
  ∃ t', art_delete no_memory tree3 [97; 99]%Z = Ret (t', art_map tree3 !! [97; 99]%Z)
      ∧ art_ok t' ∧ art_map t' = delete [97; 99]%Z (art_map tree3)
      ∧ art_size t' = u64 (Z.of_nat (size (delete [97; 99]%Z (art_map tree3)))).
Proof. apply (art_delete_correct no_memory tree3 _ tree3_ok cstr_ac). Defined.

Lemma art_build_correct_witness :
  ∃ t, insert_all no_memory art_tree_init keys3 = Ret t
     ∧ (∀ key, cstr key → art_search no_memory t key = updated ∅ keys3 !! key)
     ∧ art_size t = u64 (Z.of_nat (size (updated ∅ keys3))).
Proof. apply (art_build_correct no_memory keys3). repeat constructor; lia. Defined.

Lemma art_iter_correct_witness :
  ∃ l, art_iter tree3 (λ n _ _, (n + 1, 0%Z)) 0 = iter_list (λ n _ _, (n + 1, 0%Z)) l 0
     ∧ NoDup l.*1 ∧ list_to_map l = art_map tree3.
Proof. apply (art_iter_correct tree3 (λ n _ _, (n + 1, 0%Z)) 0 tree3_ok). Defined.

Lemma art_iter_size_correct_witness : art_iter_size tree3 = art_size tree3 ∧ art_size tree3 = 3%Z.
Proof. split; [apply (art_iter_size_correct tree3 tree3_ok)|reflexivity]. Defined.

(** ** A prefix that no key has *)
Definition keys_xy : list (list Z * nat) :=
  [([97; 98; 99; 100; 120; 121; 49]%Z, 1); ([97; 98; 99; 100; 120; 121; 50]%Z, 2); ([97; 98; 99; 101]%Z, 3)].
Definition tree_xy : art_tree nat :=
  match insert_all no_memory art_tree_init keys_xy with Ret t => t | Fault => art_tree_init end.

(** [art_iter_prefix] goes on below a node whose compressed path agrees
    with the prefix in its first byte only: in the tree of "abcdxy1", "abcdxy2"
    and "abce" the iteration over the prefix "aqcdx", which no key has, calls
    the callback on the first two keys. *)
Theorem art_iter_prefix_overmatches :
  art_iter_prefix no_memory tree_xy [97; 113; 99; 100; 120]%Z (λ d k _, (d ++ [k], 0%Z)) []
  = Ret ([[97; 98; 99; 100; 120; 121; 49]; [97; 98; 99; 100; 120; 121; 50]]%Z, 0%Z).
Proof. vm_compute. reflexivity. Qed.

Lemma art_iter_prefix_correct_witness :
  ∃ l, art_iter_prefix no_memory tree3 [97]%Z (λ (d : nat) _ v, (d + v, 0%Z)) 0 = Ret (iter_list (λ (d : nat) _ v, (d + v, 0%Z)) l 0) ∧ NoDup l.*1
    ∧ ∀ k v, (k, v) ∈ l ↔ art_map tree3 !! k = Some v ∧ [97]%Z `prefix_of` k.
Proof.
  apply (art_iter_prefix_correct no_memory tree3 _ [97]%Z 0 tree3_ok).
  - repeat constructor; lia.
  - exists [97; 98]%Z. split; [vm_compute; by eexists|]. by exists [98]%Z.
Defined.
