(* ===== verification/Heap.v ===== *)
(** * Heaps as lists of cells

    Pointer structures keep their nodes in a finite map from addresses.
    [heap_is h L] says that the heap holds exactly the cells [L]; the tactics
    below permute cell lists, so that symbolic execution can bring the cell an
    instruction touches to the front. *)
From S2P Require Import Prelude.

Notation loc := positive.

Section Heap.
Context {N : Type}.

Definition heap_is (h : gmap loc (N)) (L : list (loc * N)) : Prop :=
  NoDup L.*1 ∧ h = list_to_map L.

#[export] Instance heap_is_perm h : Proper ((≡ₚ) ==> iff) (heap_is h).
Proof.
  assert (∀ L L', L ≡ₚ L' → heap_is h L → heap_is h L') as H.
  { intros L L' HL [Hnd ->]. split; [by rewrite <-HL|]. by apply list_to_map_proper. }
  intros L L' HL. split; apply H; [done|by symmetry].
Qed.

Lemma heap_is_cons h l n L :
  heap_is h ((l, n) :: L) →
  h !! l = Some n ∧ (∀ n', heap_is (<[l := n']> h) ((l, n') :: L)) ∧ heap_is (delete l h) L.
Proof.
  intros [Hnd ->]. simpl in *. apply NoDup_cons in Hnd as [Hl Hnd]. split_and!.
  - apply lookup_insert_eq.
  - intros n'. split; [by constructor|]. simpl. by rewrite insert_insert_eq.
  - split; [done|]. rewrite delete_insert_id; [done|]. by apply not_elem_of_list_to_map_1.
Qed.

Lemma heap_is_nil h : heap_is h [] → h = ∅.
Proof. by intros [_ ->]. Qed.

Lemma heap_is_size h L : heap_is h L → size h = length L.
Proof.
  intros [Hnd ->]. rewrite <-length_map_to_list. by rewrite map_to_list_to_map.
Qed.

End Heap.

(** ** Automation: permutations of cell lists *)
Section Front.
Context {A : Type}.
Implicit Types (x y : A) (L R X Y : list A).
Lemma front_cons x y L R : L ≡ₚ y :: R → x :: L ≡ₚ y :: x :: R.
Proof. intros ->. apply perm_swap. Qed.
Lemma front_app_l y X Y R : X ≡ₚ y :: R → X ++ Y ≡ₚ y :: R ++ Y.
Proof. by intros ->. Qed.
Lemma front_app_r y X Y R : Y ≡ₚ y :: R → X ++ Y ≡ₚ y :: X ++ R.
Proof. intros ->. symmetry. apply Permutation_middle. Qed.
Lemma atom_self X : X ≡ₚ X ++ [].
Proof. by rewrite app_nil_r. Qed.
Lemma atom_cons x X L R : L ≡ₚ X ++ R → x :: L ≡ₚ X ++ x :: R.
Proof. intros ->. apply Permutation_middle. Qed.
Lemma atom_app_l X Y L R : L ≡ₚ X ++ R → L ++ Y ≡ₚ X ++ R ++ Y.
Proof. intros ->. by rewrite app_assoc. Qed.
Lemma atom_app_r X Y L R : L ≡ₚ X ++ R → Y ++ L ≡ₚ X ++ Y ++ R.
Proof. intros ->. rewrite !app_assoc. apply Permutation_app_tail, Permutation_app_comm. Qed.
Lemma front_trans y L R R' : L ≡ₚ y :: R' → R' ≡ₚ R → L ≡ₚ y :: R.
Proof. by intros -> ->. Qed.
Lemma atom_trans X L R R' : L ≡ₚ X ++ R' → R' ≡ₚ R → L ≡ₚ X ++ R.
Proof. by intros -> ->. Qed.
End Front.

(** Solves [L ≡ₚ y :: ?R]. *)
Ltac perm_front :=
  lazymatch goal with
  | |- _ :: _ ≡ₚ _ => first [reflexivity | apply front_cons; perm_front]
  | |- _ ++ _ ≡ₚ _ => first [apply front_app_l; perm_front | apply front_app_r; perm_front]
  end.
(** Solves [L ≡ₚ X ++ ?R] for an opaque list [X]. *)
Ltac perm_atom :=
  lazymatch goal with
  | |- _ :: _ ≡ₚ _ => apply atom_cons; perm_atom
  | |- _ ++ _ ≡ₚ _ => first [reflexivity | apply atom_app_l; perm_atom | apply atom_app_r; perm_atom]
  | |- _ => apply atom_self
  end.
(** Solves permutations of lists built from cells and opaque lists. *)
Ltac perm :=
  simpl; rewrite <-?app_assoc, ?app_nil_r; simpl;
  lazymatch goal with
  | |- ?L ≡ₚ ?L => reflexivity
  | |- _ ≡ₚ _ :: _ => eapply front_trans; [perm_front | perm]
  | |- _ ≡ₚ _ ++ _ => eapply atom_trans; [perm_atom | perm]
  end.

