(* ===== verification/RbTree.v ===== *)
(** * Red-black tree: data and operations (src/index/libhl/rbtree.c)

    Nodes live in a heap, so that parent pointers, aliasing and [free] are
    those of the C code: reading or writing a freed or null node is a fault.
    A key is the byte string [memcpy]ed into the node ([klen] is its length).
    The recursive C functions take fuel; each public operation passes one more
    than the number of allocated nodes.  Timers and memory counters are not
    modelled; allocation does not fail. *)
From S2P Require Import Prelude Heap.

Inductive rbt_color := RED | BLACK.
#[export] Instance rbt_color_eq_dec : EqDecision rbt_color.
Proof. solve_decision. Defined.

Section Rbt.
Context {V : Type} `{EqDecision V}.

Record rbt_node := mk_node {
  color : rbt_color;
  key : list Z;
  value : V;
  left : option loc;
  right : option loc;
  parent : option loc
}.

(** struct _rbt_s with the heap its nodes are allocated in; [freed] logs the
    values passed to free_value_cb and [prevnext] is the static counter of
    rbt_remove. *)
Record rbt := mk_rbt {
  heap : gmap loc rbt_node;
  next : loc;
  rroot : option loc;
  rsize : Z;
  freed : list V;
  prevnext : Z
}.

Definition rbt_create : rbt := mk_rbt ∅ 1 None 0 [] 0.

(** ** Memory access *)
Definition set_heap (f : gmap loc rbt_node → gmap loc rbt_node) (s : rbt) : rbt :=
  mk_rbt (f (heap s)) (next s) (rroot s) (rsize s) (freed s) (prevnext s).
Definition set_root (p : option loc) (s : rbt) : rbt :=
  mk_rbt (heap s) (next s) p (rsize s) (freed s) (prevnext s).
Definition set_size (z : Z) (s : rbt) : rbt :=
  mk_rbt (heap s) (next s) (rroot s) z (freed s) (prevnext s).
Definition add_freed (v : V) (s : rbt) : rbt :=
  mk_rbt (heap s) (next s) (rroot s) (rsize s) (freed s ++ [v]) (prevnext s).

Definition ld (l : loc) : st rbt rbt_node :=
  λ s, match heap s !! l with Some n => Ret (n, s) | None => Fault end.
Definition upd (l : loc) (f : rbt_node → rbt_node) : st rbt unit :=
  λ s, match heap s !! l with
       | Some n => Ret (tt, set_heap <[l := f n]> s)
       | None => Fault
       end.
Definition alloc (n : rbt_node) : st rbt loc :=
  λ s, Ret (next s, mk_rbt (<[next s := n]> (heap s)) (Pos.succ (next s)) (rroot s) (rsize s) (freed s) (prevnext s)).
Definition free_node (l : loc) : st rbt unit :=
  λ s, match heap s !! l with
       | Some n => Ret (tt, set_heap (delete l) s)
       | None => Fault
       end.
(** p->...: dereference a pointer that must not be null. *)
Definition ptr_of (p : option loc) : st rbt loc :=
  match p with Some l => mret l | None => st_fault end.
Definition when_ (b : bool) (m : st rbt unit) : st rbt unit := if b then m else mret tt.
(** if (p) m(p) *)
Definition if_ptr (p : option loc) (m : loc → st rbt unit) : st rbt unit :=
  match p with Some l => m l | None => mret tt end.

Definition set_color (c : rbt_color) (n : rbt_node) : rbt_node :=
  mk_node c (key n) (value n) (left n) (right n) (parent n).
Definition set_left (p : option loc) (n : rbt_node) : rbt_node :=
  mk_node (color n) (key n) (value n) p (right n) (parent n).
Definition set_right (p : option loc) (n : rbt_node) : rbt_node :=
  mk_node (color n) (key n) (value n) (left n) p (parent n).
Definition set_parent (p : option loc) (n : rbt_node) : rbt_node :=
  mk_node (color n) (key n) (value n) (left n) (right n) p.
Definition set_kv (k : list Z) (v : V) (n : rbt_node) : rbt_node :=
  mk_node (color n) k v (left n) (right n) (parent n).

Definition IS_BLACK (p : option loc) : st rbt bool :=
  match p with
  | None => mret true
  | Some l => n ← ld l; mret (bool_decide (color n = BLACK))
  end.
Definition IS_RED (p : option loc) : st rbt bool :=
  match p with
  | None => mret false
  | Some l => n ← ld l; mret (bool_decide (color n = RED))
  end.
Definition PAINT_BLACK (p : option loc) : st rbt unit := if_ptr p (λ l, upd l (set_color BLACK)).
Definition PAINT_RED (p : option loc) : st rbt unit := if_ptr p (λ l, upd l (set_color RED)).

(** ** Comparing keys *)

(** memcmp over the first [n] bytes, as the difference of the first bytes
    that differ. *)
Fixpoint memcmp (k1 k2 : list Z) (n : nat) : Z :=
  match n, k1, k2 with
  | S n, b1 :: k1, b2 :: k2 => if bool_decide (b1 = b2) then memcmp k1 k2 n else (b1 - b2)%Z
  | _, _, _ => 0%Z
  end.

Context (cmp_keys_cb : option (list Z → list Z → Z)) (free_value_cb : bool).

Definition rbt_compare_keys (k1 k2 : list Z) : Z :=
  match cmp_keys_cb with
  | Some cmp => cmp k1 k2
  | None =>
      let l1 := Z.of_nat (length k1) in
      let l2 := Z.of_nat (length k2) in
      if bool_decide (l1 ≠ l2) then
        if bool_decide (l1 < l2)%Z
        then i32 (memcmp k1 k2 (length k1) - (l2 - l1))
        else i32 (memcmp k1 k2 (length k2) + (l1 - l2))
      else memcmp k1 k2 (length k1)
  end.

(** ** Insertion *)
Definition rbt_grandparent (node : loc) : st rbt (option loc) :=
  n ← ld node;
  match parent n with
  | Some p => pn ← ld p; mret (parent pn)
  | None => mret None
  end.

Definition rbt_uncle (node : loc) : st rbt (option loc) :=
  gp ← rbt_grandparent node;
  match gp with
  | None => mret None
  | Some g =>
      n ← ld node; gn ← ld g;
      mret (if bool_decide (parent n = left gn) then right gn else left gn)
  end.

(** The branch of rbt_add_internal for a matching key: [new_node] takes the
    place of [cur_node], which is freed. *)
Definition replace_node (cur_node new_node : loc) : st rbt unit :=
  c ← ld cur_node;
  _ ← upd new_node (λ n, set_color (color c) (set_parent (parent c) n));
  _ ← if_ptr (parent c) (λ p,
        pn ← ld p;
        if bool_decide (left pn = Some cur_node)
        then upd p (set_left (Some new_node))
        else upd p (set_right (Some new_node)));
  _ ← upd new_node (λ n, set_right (right c) (set_left (left c) n));
  _ ← if_ptr (left c) (λ l, upd l (set_parent (Some new_node)));
  _ ← if_ptr (right c) (λ l, upd l (set_parent (Some new_node)));
  n ← ld new_node;
  _ ← when_ (bool_decide (value n ≠ value c) && free_value_cb) (st_modify (add_freed (value c)));
  free_node cur_node.

Fixpoint rbt_add_internal (fuel : nat) (cur_node new_node : loc) : st rbt Z :=
  match fuel with
  | O => st_fault
  | S fuel =>
      c ← ld cur_node; n ← ld new_node;
      let rc := rbt_compare_keys (key c) (key n) in
      if bool_decide (rc = 0%Z) then
        _ ← replace_node cur_node new_node;
        mret 1%Z
      else if bool_decide (rc > 0)%Z then
        match left c with
        | Some l => rbt_add_internal fuel l new_node
        | None =>
            _ ← upd cur_node (set_left (Some new_node));
            _ ← upd new_node (set_parent (Some cur_node));
            mret 0%Z
        end
      else
        match right c with
        | Some l => rbt_add_internal fuel l new_node
        | None =>
            _ ← upd cur_node (set_right (Some new_node));
            _ ← upd new_node (set_parent (Some cur_node));
            mret 0%Z
        end
  end.

Definition rbt_rotate_right (node : loc) : st rbt unit :=
  n ← ld node;
  let p := left n in
  pr ← match p with Some p => pn ← ld p; mret (right pn) | None => mret None end;
  _ ← upd node (set_left pr);
  _ ← if_ptr p (λ p, upd p (set_right (Some node)));
  _ ← if_ptr pr (λ l, upd l (set_parent (Some node)));
  n ← ld node;
  let par := parent n in
  _ ← upd node (set_parent p);
  match p with
  | Some p =>
      _ ← upd p (set_parent par);
      match par with
      | None => st_modify (set_root (Some p))
      | Some q =>
          qn ← ld q;
          if bool_decide (left qn = Some node) then upd q (set_left (Some p))
          else upd q (set_right (Some p))
      end
  | None => st_modify (set_root (Some node))
  end.

Definition rbt_rotate_left (node : loc) : st rbt unit :=
  n ← ld node;
  let p := right n in
  pl ← match p with Some p => pn ← ld p; mret (left pn) | None => mret None end;
  _ ← upd node (set_right pl);
  _ ← if_ptr p (λ p, upd p (set_left (Some node)));
  _ ← if_ptr pl (λ l, upd l (set_parent (Some node)));
  n ← ld node;
  let par := parent n in
  _ ← upd node (set_parent p);
  match p with
  | Some p =>
      _ ← upd p (set_parent par);
      match par with
      | None => st_modify (set_root (Some p))
      | Some q =>
          qn ← ld q;
          if bool_decide (left qn = Some node) then upd q (set_left (Some p))
          else upd q (set_right (Some p))
      end
  | None => st_modify (set_root (Some node))
  end.

(** Cases 4 and 5 of rbt_add: rotations around the parent and grandparent;
    [false] is the "Corrupted tree" exit. *)
Definition add_rotate (node grandparent : loc) : st rbt bool :=
  n ← ld node; p ← ptr_of (parent n); pn ← ld p; gn ← ld grandparent;
  node ← (if bool_decide (right pn = Some node) && bool_decide (left gn = Some p) then
            _ ← rbt_rotate_left p; n ← ld node; ptr_of (left n)
          else if bool_decide (left pn = Some node) && bool_decide (right gn = Some p) then
            _ ← rbt_rotate_right p; n ← ld node; ptr_of (right n)
          else mret node);
  gp ← rbt_grandparent node; n ← ld node;
  match parent n with
  | Some p =>
      _ ← PAINT_BLACK (Some p); _ ← PAINT_RED gp;
      pn ← ld p; g ← ptr_of gp;
      _ ← (if bool_decide (left pn = Some node) then rbt_rotate_right g else rbt_rotate_left g);
      mret true
  | None => mret false
  end.

(** The end of rbt_add: count the node if it is new. *)
Definition add_finish (rc : Z) : st rbt Z :=
  _ ← when_ (bool_decide (rc = 0%Z)) (st_modify (λ s, set_size (u64 (rsize s + 1)) s));
  mret rc.

(** rbt_add after rbt_add_internal returned [rc]; [readd] is the recursive
    call that inserts a copy of the grandparent in case 3. *)
Definition add_repair (readd : list Z → V → st rbt Z) (node : loc) (rc : Z) : st rbt Z :=
  black ← IS_BLACK (Some node);
  n ← ld node;
  if black : bool then
    _ ← when_ (bool_decide (parent n = None)) (st_modify (set_root (Some node)));
    mret 1%Z
  else
    match parent n with
    | None => _ ← PAINT_BLACK (Some node); _ ← st_modify (set_root (Some node)); add_finish rc
    | Some p =>
        pblack ← IS_BLACK (Some p);
        if pblack : bool then mret rc
        else
          uncle ← rbt_uncle node; grandparent ← rbt_grandparent node;
          ured ← IS_RED uncle;
          if ured : bool then
            _ ← PAINT_BLACK (Some p); _ ← PAINT_BLACK uncle;
            match grandparent with
            | Some g =>
                _ ← PAINT_RED (Some g); gn ← ld g; _ ← readd (key gn) (value gn);
                add_finish rc
            | None => add_finish rc
            end
          else
            match grandparent with
            | Some g =>
                ok ← add_rotate node g;
                if ok : bool then add_finish rc else mret (-1)%Z
            | None => add_finish rc
            end
    end.

Fixpoint rbt_add_fuel (fuel : nat) (k : list Z) (v : V) : st rbt Z :=
  match fuel with
  | O => st_fault
  | S fuel =>
      node ← alloc (mk_node RED k v None None None);
      s ← st_get;
      match rroot s with
      | None =>
          _ ← PAINT_BLACK (Some node); _ ← st_modify (set_root (Some node)); add_finish 0%Z
      | Some r =>
          rc ← rbt_add_internal (S (size (heap s))) r node;
          add_repair (rbt_add_fuel fuel) node rc
      end
  end.

Definition rbt_add (k : list Z) (v : V) : st rbt Z :=
  s ← st_get; rbt_add_fuel (2 + size (heap s)) k v.

(** ** Lookup *)
Fixpoint rbt_find_internal (fuel : nat) (node : option loc) (k : list Z) : st rbt (option loc) :=
  match node, fuel with
  | None, _ => mret None
  | Some _, O => st_fault
  | Some l, S fuel =>
      n ← ld l;
      let rc := rbt_compare_keys (key n) k in
      if bool_decide (rc = 0%Z) then mret (Some l)
      else if bool_decide (rc > 0)%Z then rbt_find_internal fuel (left n) k
      else rbt_find_internal fuel (right n) k
  end.

(** The return code and, on success, the value stored through [v]. *)
Definition rbt_find (k : list Z) : st rbt (Z * option V) :=
  s ← st_get;
  node ← rbt_find_internal (S (size (heap s))) (rroot s) k;
  match node with
  | None => mret ((-1)%Z, None)
  | Some l => n ← ld l; mret (0%Z, Some (value n))
  end.

Definition rbt_size : st rbt Z := s ← st_get; mret (rsize s).

(** ** Removal *)
Definition rbt_sibling (node : loc) : st rbt (option loc) :=
  n ← ld node; p ← ptr_of (parent n); pn ← ld p;
  mret (if bool_decide (left pn = Some node) then right pn else left pn).

(** while (next->left) next = next->left; and its mirror image. *)
Fixpoint leftmost (fuel : nat) (l : loc) : st rbt loc :=
  match fuel with
  | O => st_fault
  | S fuel => n ← ld l; match left n with Some l' => leftmost fuel l' | None => mret l end
  end.
Fixpoint rightmost (fuel : nat) (l : loc) : st rbt loc :=
  match fuel with
  | O => st_fault
  | S fuel => n ← ld l; match right n with Some l' => rightmost fuel l' | None => mret l end
  end.
Definition rbt_find_next (node : loc) : st rbt (option loc) :=
  n ← ld node; s ← st_get;
  match right n with Some l => l ← leftmost (size (heap s)) l; mret (Some l) | None => mret None end.
Definition rbt_find_prev (node : loc) : st rbt (option loc) :=
  n ← ld node; s ← st_get;
  match left n with Some l => l ← rightmost (size (heap s)) l; mret (Some l) | None => mret None end.

(** sibling && IS_BLACK(sibling) && IS_BLACK(sibling->left) && IS_BLACK(sibling->right) *)
Definition black_with_black_children (sibling : option loc) : st rbt bool :=
  match sibling with
  | None => mret false
  | Some sb =>
      b ← IS_BLACK (Some sb); sn ← ld sb;
      bl ← IS_BLACK (left sn); br ← IS_BLACK (right sn);
      mret (b && bl && br)
  end.

(** Delete cases 5 and 6. *)
Definition paint_case56 (node : loc) (sibling : option loc) : st rbt unit :=
  n ← ld node; p ← ptr_of (parent n); pn ← ld p;
  sblack ← IS_BLACK sibling;
  _ ← when_ sblack
        match sibling with
        | None => mret tt
        | Some sb =>
            sn ← ld sb;
            lb ← IS_BLACK (left sn); rb ← IS_BLACK (right sn);
            lr ← IS_RED (left sn); rr ← IS_RED (right sn);
            if bool_decide (left pn = Some node) && rb && lr then
              _ ← PAINT_RED sibling; _ ← PAINT_BLACK (left sn); rbt_rotate_right sb
            else if bool_decide (right pn = Some node) && lb && rr then
              _ ← PAINT_RED sibling; _ ← PAINT_BLACK (right sn); rbt_rotate_left sb
            else mret tt
        end;
  n ← ld node; p ← ptr_of (parent n); pn ← ld p;
  _ ← if_ptr sibling (λ sb, upd sb (set_color (color pn)));
  _ ← PAINT_BLACK (Some p);
  pn ← ld p;
  if bool_decide (left pn = Some node) then
    _ ← if_ptr sibling (λ sb, sn ← ld sb; PAINT_BLACK (right sn));
    n ← ld node; p ← ptr_of (parent n); rbt_rotate_left p
  else
    _ ← if_ptr sibling (λ sb, sn ← ld sb; PAINT_BLACK (left sn));
    n ← ld node; p ← ptr_of (parent n); rbt_rotate_right p.

Fixpoint rbt_paint_onremove (fuel : nat) (node : option loc) : st rbt unit :=
  match node, fuel with
  | None, _ => mret tt
  | Some _, O => st_fault
  | Some node, S fuel =>
      n ← ld node;
      match parent n with
      | None => mret tt
      | Some p =>
          sibling ← rbt_sibling node;
          sred ← IS_RED sibling;
          _ ← when_ sred
                (_ ← PAINT_RED (Some p); _ ← PAINT_BLACK sibling; pn ← ld p;
                 if bool_decide (left pn = Some node) then rbt_rotate_left p
                 else rbt_rotate_right p);
          n ← ld node;
          pblack ← IS_BLACK (parent n);
          sbb ← black_with_black_children sibling;
          if pblack && sbb then
            _ ← PAINT_RED sibling; n ← ld node; rbt_paint_onremove fuel (parent n)
          else
            pred ← IS_RED (parent n);
            if pred && sbb then
              _ ← PAINT_RED sibling; PAINT_BLACK (parent n)
            else paint_case56 node sibling
      end
  end.

(** free_value_cb on the value of a removed node, unless the caller takes it
    through [v]. *)
Definition release (take_v : bool) (v : V) : st rbt unit :=
  when_ (negb take_v && free_value_cb) (st_modify (add_freed v)).
Definition decr_size : st rbt unit := st_modify (λ s, set_size (u64 (rsize s - 1)) s).

(** Two children: the predecessor or successor [n], in turns, moves into
    [node] and is unlinked.  [node->klen] keeps its old value, so a longer key
    is cut and a shorter one would be read past its buffer. *)
Definition remove_two_children (node : loc) (take_v : bool) : st rbt (Z * option V) :=
  s ← st_get;
  let isprev := bool_decide (Z.rem (prevnext s) 2 = 0%Z) in
  _ ← st_modify (λ s, mk_rbt (heap s) (next s) (rroot s) (rsize s) (freed s) (i32 (prevnext s + 1)));
  n ← (if isprev then rbt_find_prev node else rbt_find_next node);
  n ← ptr_of n;
  nn ← ld n; nd ← ld node;
  _ ← (if bool_decide (length (key nd) ≤ length (key nn))
       then upd node (set_kv (take (length (key nd)) (key nn)) (value nn)) else st_fault);
  let prev_value := value nd in
  _ ← (if isprev then
         _ ← (if bool_decide (left nd = Some n) then upd node (set_left (left nn))
              else p ← ptr_of (parent nn); upd p (set_right (left nn)));
         if_ptr (left nn) (λ l, upd l (set_parent (Some node)))
       else
         _ ← (if bool_decide (right nd = Some n) then upd node (set_right (right nn))
              else p ← ptr_of (parent nn); upd p (set_left (right nn)));
         if_ptr (right nn) (λ l, upd l (set_parent (Some node))));
  _ ← release take_v prev_value;
  _ ← free_node n; _ ← decr_size;
  mret (0%Z, Some prev_value).

(** One child: it replaces [node]. *)
Definition remove_one_child (node child : loc) (take_v : bool) : st rbt (Z * option V) :=
  nd ← ld node;
  _ ← upd child (set_parent (parent nd));
  _ ← if_ptr (parent nd) (λ p, pn ← ld p;
        if bool_decide (left pn = Some node) then upd p (set_left (Some child))
        else upd p (set_right (Some child)));
  nblack ← IS_BLACK (Some node);
  _ ← when_ nblack
        (cred ← IS_RED (Some child);
         if cred : bool then PAINT_BLACK (Some child)
         else s ← st_get; rbt_paint_onremove (S (size (heap s))) (Some child));
  nd ← ld node;
  _ ← release take_v (value nd);
  _ ← free_node node; _ ← decr_size;
  mret (0%Z, Some (value nd)).

Definition remove_leaf (node : loc) (take_v : bool) : st rbt (Z * option V) :=
  nd ← ld node;
  _ ← if_ptr (parent nd) (λ p, pn ← ld p;
        if bool_decide (left pn = Some node) then upd p (set_left None)
        else upd p (set_right None));
  _ ← release take_v (value nd);
  _ ← free_node node; _ ← decr_size;
  mret (0%Z, Some (value nd)).

(** The return code and the value of the removed node; [take_v] is "v is not
    null".  Values are not null here. *)
Definition rbt_remove (k : list Z) (take_v : bool) : st rbt (Z * option V) :=
  s ← st_get;
  node ← rbt_find_internal (S (size (heap s))) (rroot s) k;
  match node with
  | None => mret ((-1)%Z, None)
  | Some node =>
      nd ← ld node;
      match left nd, right nd with
      | Some _, Some _ => remove_two_children node take_v
      | _, Some child | Some child, None => remove_one_child node child take_v
      | None, None => remove_leaf node take_v
      end
  end.

(** ** Destruction: children first, then the node. *)
Fixpoint rbt_destroy_internal (fuel : nat) (node : option loc) : st rbt unit :=
  match node, fuel with
  | None, _ => mret tt
  | Some _, O => st_fault
  | Some l, S fuel =>
      n ← ld l; _ ← rbt_destroy_internal fuel (left n);
      n ← ld l; _ ← rbt_destroy_internal fuel (right n);
      n ← ld l; _ ← when_ free_value_cb (st_modify (add_freed (value n)));
      free_node l
  end.
(** The tree structure itself is freed too: its root is not used again. *)
Definition rbt_destroy : st rbt unit :=
  s ← st_get; rbt_destroy_internal (S (size (heap s))) (rroot s).

(** ** Walking *)
Definition RBT_WALK_STOP : Z := 0.
Definition RBT_WALK_CONTINUE : Z := 1.
Definition RBT_WALK_DELETE_AND_CONTINUE : Z := -1.
Definition RBT_WALK_DELETE_AND_STOP : Z := -2.

Section Walk.
Context {D : Type} (cb : D → list Z → V → D * Z).

(** Visit a subtree: [walk] on a non-null child, whose result 0 makes the
    caller return rc + 1. *)
Definition walk_child (walk : loc → D → st rbt (D * Z)) (child : option loc) (rc : Z) (data : D)
    (k : Z → D → st rbt (D * Z)) : st rbt (D * Z) :=
  match child with
  | None => k rc data
  | Some c =>
      '(data, rrc) ← walk c data;
      if bool_decide (rrc = 0%Z) then mret (data, rc + 1)%Z else k (rc + rrc)%Z data
  end.

(** What the switch on the callback's return code does; [again] restarts the
    walk at a node. *)
Definition walk_switch (node : loc) (cbrc : Z) (data : D) (again : loc → D → st rbt (D * Z))
    (continue : st rbt (D * Z)) : st rbt (D * Z) :=
  if bool_decide (cbrc = RBT_WALK_DELETE_AND_STOP) then
    n ← ld node; _ ← rbt_remove (key n) false; mret (data, 0%Z)
  else if bool_decide (cbrc = RBT_WALK_DELETE_AND_CONTINUE) then
    n ← ld node;
    match left n, right n with
    | Some _, Some _ => _ ← rbt_remove (key n) false; again node data
    | Some c, None | None, Some c => again c data
    | None, None => mret (data, 1%Z)
    end
  else if bool_decide (cbrc = RBT_WALK_STOP) then mret (data, 0%Z)
  else continue.

Fixpoint rbt_walk_internal (fuel : nat) (sorted : bool) (node : loc) (data : D) : st rbt (D * Z) :=
  match fuel with
  | O => st_fault
  | S fuel =>
      let walk := rbt_walk_internal fuel sorted in
      n ← ld node;
      walk_child walk (if sorted then left n else None) 1 data (λ rc data,
        n ← ld node;
        let '(data, cbrc) := cb data (key n) (value n) in
        walk_switch node cbrc data walk (
          n ← ld node;
          walk_child walk (if sorted then None else left n) rc data (λ rc data,
            n ← ld node;
            walk_child walk (right n) rc data (λ rc data, mret (data, rc)))))
  end.

(** Range walks call cmp_keys_cb directly: a null callback is a fault. *)
Fixpoint rbt_range_walk_internal (fuel : nat) (begin_key end_key : list Z) (sorted : bool)
    (node : loc) (data : D) : st rbt (D * Z) :=
  match fuel, cmp_keys_cb with
  | O, _ | _, None => st_fault
  | S fuel, Some cmp =>
      let walk := rbt_range_walk_internal fuel begin_key end_key sorted in
      if bool_decide (cmp begin_key end_key >= 0)%Z then mret (data, 0%Z)
      else
        n ← ld node;
        walk_child walk (if sorted then left n else None) 1 data (λ rc data,
          n ← ld node;
          let '(data, cbrc) :=
            if bool_decide (cmp (key n) begin_key = 0%Z) then cb data (key n) (value n)
            else if bool_decide (cmp (key n) begin_key > 0)%Z
                    && bool_decide (cmp (key n) end_key < 0)%Z
                 then cb data (key n) (value n)
            else (data, 1%Z) in
          walk_switch node cbrc data walk (
            n ← ld node;
            walk_child walk (if sorted then None else left n) rc data (λ rc data,
              n ← ld node;
              walk_child walk (right n) rc data (λ rc data, mret (data, rc)))))
  end.

(** The four public walks; the fuel covers every node once more. *)
Definition walk_root (walk : nat → loc → D → st rbt (D * Z)) (data : D) : st rbt (D * Z) :=
  s ← st_get;
  match rroot s with
  | Some r => walk (S (size (heap s))) r data
  | None => mret (data, 0%Z)
  end.
Definition rbt_walk : D → st rbt (D * Z) := walk_root (λ fuel, rbt_walk_internal fuel false).
Definition rbt_walk_sorted : D → st rbt (D * Z) := walk_root (λ fuel, rbt_walk_internal fuel true).
Definition rbt_range_walk (b e : list Z) : D → st rbt (D * Z) :=
  walk_root (λ fuel, rbt_range_walk_internal fuel b e false).
Definition rbt_range_walk_sorted (b e : list Z) : D → st rbt (D * Z) :=
  walk_root (λ fuel, rbt_range_walk_internal fuel b e true).
End Walk.

End Rbt.
Arguments rbt_node : clear implicits.
Arguments rbt : clear implicits.
