(* ===== verification/RbTreeRep.v ===== *)
(** * Red-black tree: the heap as a tree, and the rotations

    [tree] is the shape a heap represents, node addresses included; a [frame]
    list is the path from a node up to the root.  [sat s L ...] says that the
    heap of [s] holds exactly the cells [L], so the theorems below also show
    that nothing leaks and nothing is used after it is freed. *)
From S2P Require Import Prelude Heap RbTree.

Section Rep.
Context {V : Type} `{EqDecision V}.

Inductive tree :=
| E
| T (l : loc) (c : rbt_color) (k : list Z) (v : V) (a b : tree).

Inductive frame :=
| FL (l : loc) (c : rbt_color) (k : list Z) (v : V) (sib : tree)
| FR (l : loc) (c : rbt_color) (k : list Z) (v : V) (sib : tree).

Definition fill (f : frame) (t : tree) : tree :=
  match f with FL l c k v b => T l c k v t b | FR l c k v a => T l c k v a t end.
Fixpoint plug (ctx : list frame) (t : tree) : tree :=
  match ctx with [] => t | f :: ctx => plug ctx (fill f t) end.

Definition ptr (t : tree) : option loc := match t with E => None | T l _ _ _ _ _ => Some l end.
Definition floc (f : frame) : loc := match f with FL l _ _ _ _ | FR l _ _ _ _ => l end.
Definition par (ctx : list frame) : option loc := floc <$> head ctx.

(** Heap cells of a tree under a parent pointer, and of a context around a
    subtree whose root pointer is [p]. *)
Fixpoint cells (q : option loc) (t : tree) : list (loc * rbt_node V) :=
  match t with
  | E => []
  | T l c k v a b => (l, mk_node c k v (ptr a) (ptr b) q) :: cells (Some l) a ++ cells (Some l) b
  end.
Definition fcell (f : frame) (p q : option loc) : loc * rbt_node V :=
  match f with
  | FL l c k v b => (l, mk_node c k v p (ptr b) q)
  | FR l c k v a => (l, mk_node c k v (ptr a) p q)
  end.
Definition fsib (f : frame) : tree := match f with FL _ _ _ _ b => b | FR _ _ _ _ a => a end.
Fixpoint cells_ctx (ctx : list frame) (p : option loc) : list (loc * rbt_node V) :=
  match ctx with
  | [] => []
  | f :: ctx =>
      fcell f p (par ctx) :: cells (Some (floc f)) (fsib f) ++ cells_ctx ctx (Some (floc f))
  end.

Lemma cells_plug ctx t :
  cells None (plug ctx t) ≡ₚ cells (par ctx) t ++ cells_ctx ctx (ptr t).
Proof.
  revert t. induction ctx as [|f ctx IH]; intros t; simpl; [by rewrite app_nil_r|].
  rewrite IH. destruct f as [l c k v b|l c k v a]; simpl.
  - rewrite <-Permutation_middle, <-app_assoc. done.
  - rewrite <-Permutation_middle. rewrite !app_assoc, (Permutation_app_comm (cells _ a)). done.
Qed.

Lemma ptr_plug ctx t t' :
  match ctx with [] => ptr t = ptr t' | _ => True end → ptr (plug ctx t) = ptr (plug ctx t').
Proof.
  revert t t'. induction ctx as [|f ctx IH]; intros t t' H; simpl; [done|].
  apply IH. destruct ctx; [|done]. by destruct f.
Qed.

(** The state [s], field by field. *)
Record sat (s : rbt V) (L : list (loc * rbt_node V)) (nx : loc) (rt : option loc) (sz : Z)
    (fr : list V) : Prop := {
  sat_heap : heap_is (heap s) L;
  sat_next : next s = nx;
  sat_root : rroot s = rt;
  sat_size : rsize s = sz;
  sat_freed : freed s = fr
}.

Section WpRules.
Context (s : rbt V) (L : list (loc * rbt_node V)) (nx : loc) (rt : option loc) (sz : Z) (fr : list V).
Context (Hs : sat s L nx rt sz fr).

Lemma sat_perm L' : L ≡ₚ L' → sat s L' nx rt sz fr.
Proof using Hs. intros HL. destruct Hs. split; [by rewrite <-HL|done..]. Qed.

Lemma wp_ld l n R Q : L ≡ₚ (l, n) :: R → Q n s → wp (ld l) Q s.
Proof using Hs.
  intros HL HQ. destruct Hs as [Hh _ _ _ _]. rewrite HL in Hh.
  apply heap_is_cons in Hh as [Hl _]. unfold wp, ld. by rewrite Hl.
Qed.

Lemma wp_upd l n f R Q :
  L ≡ₚ (l, n) :: R → (∀ s, sat s ((l, f n) :: R) nx rt sz fr → Q tt s) → wp (upd l f) Q s.
Proof using Hs.
  intros HL HQ. destruct Hs as [Hh ? ? ? ?]. rewrite HL in Hh.
  apply heap_is_cons in Hh as (Hl & Hi & _). unfold wp, upd. rewrite Hl. apply HQ.
  split; try done. apply Hi.
Qed.

Lemma wp_free l n R Q :
  L ≡ₚ (l, n) :: R → (∀ s, sat s R nx rt sz fr → Q tt s) → wp (free_node l) Q s.
Proof using Hs.
  intros HL HQ. destruct Hs as [Hh ? ? ? ?]. rewrite HL in Hh.
  apply heap_is_cons in Hh as (Hl & _ & Hd). unfold wp, free_node. rewrite Hl. apply HQ.
  split; done.
Qed.

Lemma wp_alloc n Q :
  Forall (λ l, (l < nx)%positive) L.*1 →
  (∀ s, sat s ((nx, n) :: L) (Pos.succ nx) rt sz fr → Q nx s) → wp (alloc n) Q s.
Proof using Hs.
  intros Hlt HQ. destruct Hs as [[Hnd Hh] Hn ? ? ?]. unfold wp, alloc. rewrite Hn.
  apply HQ. split; try done. simpl. split; simpl; [|by rewrite Hh].
  constructor; [|done]. intros Hin. rewrite Forall_forall in Hlt. apply Hlt in Hin. lia.
Qed.

Lemma wp_set_root p (Q : unit → rbt V → Prop) :
  (∀ s, sat s L nx p sz fr → Q tt s) → wp (st_modify (set_root p)) Q s.
Proof using Hs. intros HQ. apply HQ. destruct Hs. by split. Qed.

Lemma wp_incr_size (Q : unit → rbt V → Prop) :
  (∀ s, sat s L nx rt (u64 (sz + 1)) fr → Q tt s) →
  wp (st_modify (λ s, set_size (u64 (rsize s + 1)) s)) Q s.
Proof using Hs. intros HQ. apply HQ. destruct Hs. split; simpl; congruence. Qed.

Lemma wp_add_freed v (Q : unit → rbt V → Prop) :
  (∀ s, sat s L nx rt sz (fr ++ [v]) → Q tt s) → wp (st_modify (add_freed v)) Q s.
Proof using Hs. intros HQ. apply HQ. destruct Hs. split; simpl; congruence. Qed.
End WpRules.
End Rep.
Arguments tree : clear implicits.
Arguments frame : clear implicits.
Arguments T {V} l c k v a b.

(** ** Automation: symbolic execution over cells *)

(** One step of symbolic execution in the current goal. *)
Ltac wstep :=
  lazymatch goal with
  | |- wp (mbind _ _) _ _ => apply wp_bind
  | |- wp (mret _) _ _ => apply wp_ret
  | |- wp (st_ret _ _ _) _ _ => apply wp_ret
  | |- wp st_get _ _ => apply wp_get
  | |- wp (when_ _ _) _ _ => unfold when_
  | |- wp (if bool_decide (RED = RED) then _ else _) _ _ => change (bool_decide (RED = RED)) with true
  | |- wp (if bool_decide (RED = BLACK) then _ else _) _ _ => change (bool_decide (RED = BLACK)) with false
  | |- wp (if bool_decide (BLACK = RED) then _ else _) _ _ => change (bool_decide (BLACK = RED)) with false
  | |- wp (if bool_decide (BLACK = BLACK) then _ else _) _ _ =>
      change (bool_decide (BLACK = BLACK)) with true
  | |- wp (if bool_decide (@None loc = None) then _ else _) _ _ =>
      change (bool_decide (@None loc = None)) with true
  | |- wp (if bool_decide (Some ?l = None) then _ else _) _ _ =>
      change (bool_decide (Some l = None)) with false
  | |- wp (if_ptr None _) _ _ => cbn [if_ptr]
  | |- wp (if_ptr (Some _) _) _ _ => cbn [if_ptr]
  | |- wp (ptr_of (Some _)) _ _ => cbn [ptr_of]
  | |- wp (PAINT_BLACK _) _ _ => unfold PAINT_BLACK
  | |- wp (PAINT_RED _) _ _ => unfold PAINT_RED
  | |- wp (IS_BLACK (Some _)) _ _ => cbn [IS_BLACK]
  | |- wp (IS_RED (Some _)) _ _ => cbn [IS_RED]
  | |- wp (IS_BLACK None) _ _ => cbn [IS_BLACK]
  | |- wp (IS_RED None) _ _ => cbn [IS_RED]
  | Hs : sat ?s _ _ _ _ _ |- wp (ld _) _ ?s => eapply wp_ld; [exact Hs | perm_front |]
  | Hs : sat ?s _ _ _ _ _ |- wp (upd _ _) _ ?s =>
      eapply wp_upd; [exact Hs | perm_front |]; clear Hs; clear s; intros s Hs
  | Hs : sat ?s _ _ _ _ _ |- wp (free_node _) _ ?s =>
      eapply wp_free; [exact Hs | perm_front |]; clear Hs; clear s; intros s Hs
  | Hs : sat ?s _ _ _ _ _ |- wp (st_modify (set_root _)) _ ?s =>
      eapply wp_set_root; [exact Hs |]; clear Hs; clear s; intros s Hs
  | Hs : sat ?s _ _ _ _ _ |- wp (st_modify (add_freed _)) _ ?s =>
      eapply wp_add_freed; [exact Hs |]; clear Hs; clear s; intros s Hs
  | Hs : sat ?s _ _ _ _ _ |- wp (st_modify (λ s, set_size _ s)) _ ?s =>
      eapply wp_incr_size; [exact Hs |]; clear Hs; clear s; intros s Hs
  end;
  cbn [color key value left right parent set_color set_left set_right set_parent fcell floc
       fsib ptr par head fmap option_fmap option_map app] in *.
Ltac wsteps := repeat wstep.

Section Focus.
Context {V : Type} `{EqDecision V}.
Implicit Types (ctx : list (frame V)) (t : tree V).

(** The state holds exactly the tree [plug ctx t]. *)
Definition at_ s ctx t nx sz (fr : list V) : Prop :=
  sat s (cells (par ctx) t ++ cells_ctx ctx (ptr t)) nx (ptr (plug ctx t)) sz fr.

Lemma at_plug s ctx t nx sz fr : at_ s [] (plug ctx t) nx sz fr ↔ at_ s ctx t nx sz fr.
Proof.
  unfold at_. cbn [par head fmap option_fmap option_map cells_ctx plug]. rewrite app_nil_r.
  split; (intros H; eapply sat_perm; [exact H|]); [|symmetry]; apply cells_plug.
Qed.

Lemma at_fill s f ctx t nx sz fr : at_ s ctx (fill f t) nx sz fr ↔ at_ s (f :: ctx) t nx sz fr.
Proof. rewrite <-(at_plug s ctx), <-(at_plug s (f :: ctx)). done. Qed.

Lemma ptr_fresh s (L : list (loc * rbt_node V)) nx rt sz fr l n q t R :
  sat s L nx rt sz fr → L ≡ₚ (l, n) :: cells q t ++ R → ptr t ≠ Some l.
Proof.
  intros [[Hnd _] _ _ _ _] HL. rewrite HL in Hnd. simpl in Hnd.
  apply NoDup_cons in Hnd as [Hl _]. destruct t; simpl; [done|]. intros [= ->]. set_solver.
Qed.

Lemma cell_ne s (L : list (loc * rbt_node V)) nx rt sz fr l n l' n' R :
  sat s L nx rt sz fr → L ≡ₚ (l, n) :: (l', n') :: R → Some l ≠ Some l'.
Proof.
  intros [[Hnd _] _ _ _ _] HL [= ->]. rewrite HL in Hnd. simpl in Hnd.
  apply NoDup_cons in Hnd as [Hl _]. apply Hl. left.
Qed.
End Focus.

(** [left qn = Some l] for the two kinds of context frames. *)
Ltac wlink :=
  lazymatch goal with
  | |- context [bool_decide (Some ?l = None)] =>
      change (bool_decide (Some l = None)) with false; cbn iota
  | |- context [bool_decide (Some ?l = Some ?l)] =>
      rewrite (bool_decide_eq_true_2 (Some l = Some l)) by done
  | Hs : sat ?s _ _ _ _ _ |- context [bool_decide (ptr ?t = Some ?l)] =>
      rewrite (bool_decide_eq_false_2 (ptr t = Some l))
        by (eapply ptr_fresh; [exact Hs|]; eapply front_trans; [perm_front | perm_atom])
  | Hs : sat ?s _ _ _ _ _ |- context [bool_decide (Some ?l = ptr ?t)] =>
      rewrite (bool_decide_eq_false_2 (Some l = ptr t))
        by (apply not_eq_sym; eapply ptr_fresh; [exact Hs|]; eapply front_trans; [perm_front | perm_atom])
  | Hs : sat ?s _ _ _ _ _ |- context [bool_decide (Some ?l = Some ?l')] =>
      rewrite (bool_decide_eq_false_2 (Some l = Some l'))
        by (eapply cell_ne; [exact Hs|]; eapply front_trans; [perm_front | perm_front])
  end.
(** The cells are those of the expected tree, the root pointer included. *)
Ltac wsat :=
  unfold at_; lazymatch goal with
  | Hs : sat ?s _ _ _ _ _ |- sat ?s _ _ ?rt _ _ =>
      lazymatch type of Hs with
      | sat _ _ _ ?rt' _ _ =>
          first [ change rt with rt'
                | replace rt with rt' by (simpl; apply ptr_plug; repeat case_match; done) ]
      end; eapply sat_perm; [exact Hs|]; perm
  end.
Ltac wdone HQ := apply HQ; wsat.

Section Rotations.
Context {V : Type} `{EqDecision V}.
Implicit Types (ctx : list (frame V)) (t : tree V).

Lemma rotate_right_ok s ctx l c k v pl pc pk pv a b d nx sz fr Q :
  at_ s ctx (T l c k v (T pl pc pk pv a b) d) nx sz fr →
  (∀ s, at_ s ctx (T pl pc pk pv a (T l c k v b d)) nx sz fr → Q tt s) →
  wp (rbt_rotate_right l) Q s.
Proof.
  unfold at_. intros Hs HQ. unfold rbt_rotate_right. simpl in Hs.
  destruct b as [|bl bc bk bv b1 b2], ctx as [|[q qc qk qv sib|q qc qk qv sib] ctx];
    simpl in Hs; wsteps; try (wlink; wsteps); wdone HQ.
Qed.

Lemma rotate_left_ok s ctx l c k v pl pc pk pv a b d nx sz fr Q :
  at_ s ctx (T l c k v d (T pl pc pk pv a b)) nx sz fr →
  (∀ s, at_ s ctx (T pl pc pk pv (T l c k v d a) b) nx sz fr → Q tt s) →
  wp (rbt_rotate_left l) Q s.
Proof.
  unfold at_. intros Hs HQ. unfold rbt_rotate_left. simpl in Hs.
  destruct a as [|bl bc bk bv b1 b2], ctx as [|[q qc qk qv sib|q qc qk qv sib] ctx];
    simpl in Hs; wsteps; try (wlink; wsteps); wdone HQ.
Qed.
End Rotations.
