(* ===== verification/RbTreeAdd.v ===== *)
(** * Red-black tree: insertion refines a functional insertion

    [fadd] is [rbt_add] on trees with a zipper in place of the parent
    pointers.  The heap program computes it, address for address. *)
From S2P Require Import Prelude Heap RbTree RbTreeRep.

Section Functional.
Context {V : Type} `{EqDecision V} (cmp : option (list Z → list Z → Z)) (fcb : bool).
Implicit Types (ctx : list (frame V)) (t : tree V).
Notation compare := (rbt_compare_keys cmp).

(** The position rbt_add_internal descends to. *)
Fixpoint locate ctx t (k : list Z) : list (frame V) * tree V :=
  match t with
  | E => (ctx, E)
  | T l c k' v a b =>
      let rc := compare k' k in
      if bool_decide (rc = 0%Z) then (ctx, t)
      else if bool_decide (rc > 0)%Z then locate (FL l c k' v b :: ctx) a k
      else locate (FR l c k' v a :: ctx) b k
  end.

Definition fcolor (f : frame V) : rbt_color := match f with FL _ c _ _ _ | FR _ c _ _ _ => c end.
Definition tcolor t : rbt_color := match t with E => BLACK | T _ c _ _ _ _ => c end.
Definition paint (c : rbt_color) t : tree V :=
  match t with E => E | T l _ k v a b => T l c k v a b end.
Definition paint_frame (c : rbt_color) (f : frame V) : frame V :=
  match f with FL l _ k v b => FL l c k v b | FR l _ k v a => FR l c k v a end.
(** The frame at another address, with another sibling. *)
Definition move_frame (l : loc) (sib : tree V) (f : frame V) : frame V :=
  match f with FL _ c k v _ => FL l c k v sib | FR _ c k v _ => FR l c k v sib end.

(** Cases 4 and 5: parent frame [f] is red, grandparent frame [g]. *)
Definition rotated (f g : frame V) t : tree V :=
  match t with
  | E => E
  | T n _ nk nv a b =>
      match f, g with
      | FL p _ pk pv s, FL q _ qk qv u =>
          T p BLACK pk pv (T n RED nk nv a b) (T q RED qk qv s u)
      | FR p _ pk pv s, FL q _ qk qv u =>
          T n BLACK nk nv (T p RED pk pv s a) (T q RED qk qv b u)
      | FR p _ pk pv s, FR q _ qk qv u =>
          T p BLACK pk pv (T q RED qk qv u s) (T n RED nk nv a b)
      | FL p _ pk pv s, FR q _ qk qv u =>
          T n BLACK nk nv (T q RED qk qv u a) (T p RED pk pv b s)
      end
  end.

(** The repair loop above the red node [t]; [nx] is the next free address:
    the grandparent moves there when it is inserted again. *)
Fixpoint fixup ctx t (nx : loc) : tree V * loc :=
  match ctx with
  | [] => (paint BLACK t, nx)
  | f :: ctx1 =>
      if bool_decide (fcolor f = BLACK) then (plug ctx t, nx)
      else
        match ctx1 with
        | [] => (plug ctx t, nx)
        | g :: ctx2 =>
            if bool_decide (tcolor (fsib g) = RED)
            then fixup ctx2 (fill (move_frame nx (paint BLACK (fsib g)) (paint_frame RED g))
                                  (fill (paint_frame BLACK f) t)) (Pos.succ nx)
            else (plug ctx2 (rotated f g t), nx)
        end
  end.

(** ** Replacing a node by a fresh copy *)
Lemma replace_ok s ctx new new_n l c k0 v0 a b k v nx rt sz fr Q :
  new_n = mk_node RED k v None None None →
  sat s ((new, new_n) :: cells (par ctx) (T l c k0 v0 a b) ++ cells_ctx ctx (Some l)) nx rt sz fr →
  (∀ s, sat s (cells (par ctx) (T new c k v a b) ++ cells_ctx ctx (Some new)) nx rt sz
          (if bool_decide (v ≠ v0) && fcb then fr ++ [v0] else fr) → Q tt s) →
  wp (replace_node fcb l new) Q s.
Proof.
  intros -> Hs HQ. unfold replace_node. simpl in Hs.
  destruct ctx as [|[q qc qk qv sib|q qc qk qv sib] ctx], a, b; simpl in Hs; wsteps;
    try (wlink; wsteps); unfold when_;
    (destruct (bool_decide (v ≠ v0) && fcb); wsteps; wdone HQ).
Qed.

Lemma locate_plug ctx t k ctx' t' : locate ctx t k = (ctx', t') → plug ctx' t' = plug ctx t.
Proof.
  revert ctx. induction t as [|l c k' v a IHa b IHb]; intros ctx; simpl; [by intros [= <- <-]|].
  des; intros Hl.
  - by injection Hl as <- <-.
  - by rewrite (IHa _ Hl).
  - by rewrite (IHb _ Hl).
Qed.

Fixpoint depth t : nat :=
  match t with E => 0 | T _ _ _ _ a b => S (max (depth a) (depth b)) end.
Fixpoint count t : nat :=
  match t with E => 0 | T _ _ _ _ a b => S (count a + count b) end.
Lemma depth_count t : depth t ≤ count t.
Proof. induction t; simpl; lia. Qed.
Lemma length_cells q t : length (cells q t) = count t.
Proof. revert q. induction t; intros q; simpl; [done|]. rewrite length_app. congruence. Qed.

(** rbt_add_internal from the node [t] in context [ctx]. *)
Lemma add_internal_ok fuel s ctx t l new k v nx rt sz fr Q :
  ptr t = Some l → depth t ≤ fuel →
  sat s ((new, mk_node RED k v None None None) :: cells (par ctx) t ++ cells_ctx ctx (Some l))
    nx rt sz fr →
  match locate ctx t k with
  | (ctx', E) => ∀ s,
      sat s (cells (par ctx') (T new RED k v E E) ++ cells_ctx ctx' (Some new)) nx rt sz fr → Q 0%Z s
  | (ctx', T l c k0 v0 a b) => ∀ s,
      sat s (cells (par ctx') (T new c k v a b) ++ cells_ctx ctx' (Some new)) nx rt sz
        (if bool_decide (v ≠ v0) && fcb then fr ++ [v0] else fr) → Q 1%Z s
  end →
  wp (rbt_add_internal cmp fcb fuel l new) Q s.
Proof.
  revert fuel s ctx l. induction t as [|l0 c k0 v0 a IHa b IHb]; intros fuel s ctx l Hp Hd Hs HQ;
    simpl in Hp; [done|]. injection Hp as <-. destruct fuel as [|fuel]; [simpl in Hd; lia|].
  cbn [rbt_add_internal]. simpl in Hd, HQ. wstep. simpl in Hs. wsteps.
  destruct (decide (compare k0 k = 0%Z)) as [H0|H0].
  { rewrite bool_decide_eq_true_2 in HQ |- * by done. wstep.
    eapply replace_ok; [done|exact Hs|]. clear Hs. intros s' Hs'. wsteps. by apply HQ. }
  rewrite bool_decide_eq_false_2 in HQ |- * by done.
  destruct (decide (compare k0 k > 0)%Z) as [H1|H1].
  - rewrite bool_decide_eq_true_2 in HQ |- * by done. destruct a as [|al ac ak av a1 a2].
    + simpl in Hs, HQ |- *. wsteps. apply HQ. eapply sat_perm; [exact Hs|]. perm.
    + cbn [ptr]. eapply IHa with (ctx := FL l0 c k0 v0 b :: ctx); [done|lia| |exact HQ].
      eapply sat_perm; [exact Hs|]. perm.
  - rewrite bool_decide_eq_false_2 in HQ |- * by done. destruct b as [|al ac ak av a1 a2].
    + simpl in Hs, HQ |- *. wsteps. apply HQ. eapply sat_perm; [exact Hs|]. perm.
    + cbn [ptr]. eapply IHb with (ctx := FR l0 c k0 v0 a :: ctx); [done|lia| |exact HQ].
      eapply sat_perm; [exact Hs|]. perm.
Qed.

(** ** Cases 4 and 5 *)
Ltac enter Hs := unfold at_ in Hs; simpl in Hs.
Ltac wlinks := repeat (wlink; cbn [andb]); wsteps.
(** Rotate at the focus [t] in context [ctx]. *)
Ltac wrotate lem ctx t :=
  lazymatch goal with
  | Hs : sat ?s _ ?nx _ ?sz ?fr |- wp _ _ ?s =>
      let Ha := fresh in
      assert (at_ s ctx t nx sz fr) as Ha by wsat;
      eapply lem; [exact Ha|]; clear Ha Hs; clear s; intros s Hs; enter Hs
  end.

Lemma add_rotate_ok s f g ctx n nk nv a b nx sz fr Q :
  at_ s (f :: g :: ctx) (T n RED nk nv a b) nx sz fr → fcolor f = RED →
  (∀ s, at_ s ctx (rotated f g (T n RED nk nv a b)) nx sz fr → Q true s) →
  wp (add_rotate n (floc g)) Q s.
Proof.
  intros Hs Hf HQ. unfold add_rotate, rbt_grandparent.
  destruct f as [p pc pk pv s0|p pc pk pv s0], g as [q qc qk qv u|q qc qk qv u];
    simpl in Hf; subst pc; enter Hs; wsteps; wlinks; wlinks.
  - wrotate @rotate_right_ok ctx (T q RED qk qv (T p BLACK pk pv (T n RED nk nv a b) s0) u).
    wsteps. wdone HQ.
  - wrotate @rotate_right_ok (FR q qc qk qv u :: ctx) (T p RED pk pv (T n RED nk nv a b) s0).
    wsteps; wlinks.
    wrotate @rotate_left_ok ctx (T q RED qk qv u (T n BLACK nk nv a (T p RED pk pv b s0))).
    wsteps. wdone HQ.
  - wrotate @rotate_left_ok (FL q qc qk qv u :: ctx) (T p RED pk pv s0 (T n RED nk nv a b)).
    wsteps; wlinks.
    wrotate @rotate_right_ok ctx (T q RED qk qv (T n BLACK nk nv (T p RED pk pv s0 a) b) u).
    wsteps. wdone HQ.
  - wrotate @rotate_left_ok ctx (T q RED qk qv u (T p BLACK pk pv s0 (T n RED nk nv a b))).
    wsteps. wdone HQ.
Qed.

(** ** The functional insertion *)
Definition fadd t (k : list Z) (v : V) (nx : loc) : tree V * loc :=
  match locate [] t k with
  | (ctx, E) => fixup ctx (T nx RED k v E E) (Pos.succ nx)
  | (ctx, T _ BLACK _ _ a b) => (plug ctx (T nx BLACK k v a b), Pos.succ nx)
  | (ctx, T _ RED _ _ a b) => fixup ctx (T nx RED k v a b) (Pos.succ nx)
  end.

(** The return code, and the [size] counter: it is not incremented when the
    new node lands under a black parent. *)
Definition fadd_rc t k : Z :=
  match locate [] t k with (_, E) => 0%Z | (_, T _ _ _ _ _ _) => 1%Z end.
Definition fadd_size t k (sz : Z) : Z :=
  match locate [] t k with
  | ([], E) => u64 (sz + 1)
  | (f :: _, E) => if bool_decide (fcolor f = BLACK) then sz else u64 (sz + 1)
  | _ => sz
  end.
Definition fadd_freed t k (v : V) (fr : list V) : list V :=
  match locate [] t k with
  | (_, T _ _ _ v0 _ _) => if bool_decide (v ≠ v0) && fcb then fr ++ [v0] else fr
  | _ => fr
  end.

(** ** In-order contents *)
Fixpoint inorder t : list (list Z * V) :=
  match t with E => [] | T _ _ k v a b => inorder a ++ (k, v) :: inorder b end.
Fixpoint pre ctx : list (list Z * V) :=
  match ctx with
  | [] => []
  | FL _ _ _ _ _ :: ctx => pre ctx
  | FR _ _ k v a :: ctx => pre ctx ++ inorder a ++ [(k, v)]
  end.
Fixpoint post ctx : list (list Z * V) :=
  match ctx with
  | [] => []
  | FL _ _ k v b :: ctx => (k, v) :: inorder b ++ post ctx
  | FR _ _ _ _ _ :: ctx => post ctx
  end.

Lemma inorder_plug ctx t : inorder (plug ctx t) = pre ctx ++ inorder t ++ post ctx.
Proof.
  revert t. induction ctx as [|[l c k v b|l c k v a] ctx IH]; intros t; simpl.
  - by rewrite app_nil_r.
  - rewrite IH. simpl. by rewrite <-!app_assoc.
  - rewrite IH. simpl. by rewrite <-!app_assoc.
Qed.

Lemma inorder_paint c t : inorder (paint c t) = inorder t.
Proof. by destruct t. Qed.

Lemma inorder_rotated f g n c k v a b :
  inorder (rotated f g (T n c k v a b)) = inorder (fill g (fill f (T n c k v a b))).
Proof.
  destruct f, g; simpl; rewrite <-?app_assoc; simpl; rewrite <-?app_assoc; simpl;
    rewrite <-?app_assoc; done.
Qed.

Lemma inorder_fixup ctx t nx : t ≠ E → inorder (fixup ctx t nx).1 = inorder (plug ctx t).
Proof.
  revert t nx. induction ctx as [ctx IH] using (induction_ltof1 _ length). unfold ltof in IH.
  intros t nx Ht. destruct ctx as [|f [|g ctx]]; cbn [fixup].
  - cbn [fst]. by rewrite inorder_paint.
  - by case_bool_decide.
  - case_bool_decide; [done|]. case_bool_decide.
    + rewrite IH; [|simpl; lia|by destruct g]. cbn [plug]. rewrite !inorder_plug. f_equal. f_equal.
      destruct f, g; simpl; by rewrite inorder_paint.
    + cbn [fst plug]. rewrite !inorder_plug. f_equal. f_equal.
      destruct t; [done|]. apply inorder_rotated.
Qed.

(** ** Ordered trees *)
Context (P : list Z → Prop) `{!KeyOrder P compare}.

Notation ascending := (ascending compare P).
Definition ordered t : Prop := ascending (inorder t).*1.

(** The frames of a path send the key [k] towards the hole. *)
Definition agrees (k : list Z) (f : frame V) : Prop :=
  match f with
  | FL _ _ k' _ _ => (compare k' k > 0)%Z
  | FR _ _ k' _ _ => (compare k' k < 0)%Z
  end.

Lemma locate_agrees ctx t k ctx' t' :
  locate ctx t k = (ctx', t') → Forall (agrees k) ctx →
  Forall (agrees k) ctx' ∧
  match t' with E => True | T _ _ k' _ _ _ => compare k' k = 0%Z end.
Proof.
  revert ctx. induction t as [|l c k' v a IHa b IHb]; intros ctx; simpl; [by intros [= <- <-]|].
  case_bool_decide; [by intros [= <- <-]|]. case_bool_decide; intros Hl Hc.
  - apply (IHa _ Hl). by constructor.
  - apply (IHb _ Hl). constructor; [simpl; lia|done].
Qed.

Lemma locate_focus c0 ctx t k :
  Forall (agrees k) ctx → locate c0 (plug ctx t) k = locate (ctx ++ c0) t k.
Proof.
  revert t. induction ctx as [|f ctx IH]; intros t Hc; simpl; [done|].
  inversion Hc as [|? ? Hf Hc']; subst. rewrite IH by done.
  destruct f as [l c k' v b|l c k' v a]; simpl in *.
  - rewrite bool_decide_eq_false_2, bool_decide_eq_true_2 by lia. done.
  - rewrite !bool_decide_eq_false_2 by lia. done.
Qed.

(** In an ordered tree the path to a node agrees with the node's key. *)
Lemma ordered_agrees ctx l c k v a b :
  ordered (plug ctx (T l c k v a b)) → Forall (agrees k) ctx ∧ P k.
Proof.
  intros Ho. assert (P k) as Hk.
  { destruct Ho as [_ Ho]. rewrite inorder_plug in Ho. simpl in Ho.
    rewrite !fmap_app, !Forall_app in Ho. simpl in Ho. rewrite Forall_cons in Ho. tauto. }
  split; [|done]. unfold ordered in Ho. rewrite inorder_plug in Ho.
  assert (k ∈ (inorder (T l c k v a b)).*1) as Hin
    by (simpl; rewrite fmap_app; apply elem_of_app; right; left).
  revert Ho Hin. generalize (inorder (T l c k v a b)) as m. clear l c v a b.
  induction ctx as [|f ctx IH]; intros m Ho Hin; [constructor|].
  constructor.
  - destruct f as [l c k' v b|l c k' v a]; simpl in Ho |- *.
    + rewrite !fmap_app in Ho. apply ascending_app in Ho as (_ & Ho & _).
      apply ascending_app in Ho as (_ & Ho2 & Hlt). simpl in Hlt, Ho2.
      apply ko_gt; [|done|apply Hlt; [done|left]]. destruct Ho2 as [_ Ho2]. by inversion Ho2.
    + rewrite !fmap_app in Ho. apply ascending_app in Ho as (_ & _ & Hlt).
      apply Hlt; [apply elem_of_app; right; apply elem_of_app; right; left|].
      apply elem_of_app. by left.
  - destruct f as [l c k' v b|l c k' v a]; simpl in Ho.
    + apply (IH (m ++ (k', v) :: inorder b)); [|rewrite fmap_app; apply elem_of_app; by left].
      by rewrite <-app_assoc.
    + apply (IH (inorder a ++ (k', v) :: m)); [|rewrite fmap_app; apply elem_of_app; right; by right].
      by rewrite <-!app_assoc in *.
Qed.

Lemma agrees_bounds ctx k m :
  ascending ((pre ctx).*1 ++ m ++ (post ctx).*1) → P k → Forall (agrees k) ctx →
  (∀ x, x ∈ (pre ctx).*1 → (compare x k < 0)%Z) ∧ (∀ x, x ∈ (post ctx).*1 → (compare k x < 0)%Z).
Proof.
  intros Ho Hk. revert m Ho. induction ctx as [|f ctx IH]; intros m Ho Hc.
  { split; intros x []%not_elem_of_nil. }
  inversion Hc as [|? ? Hf Hc']; subst.
  destruct f as [l c k' v b|l c k' v a]; simpl in *.
  - rewrite fmap_app in *. destruct (IH (m ++ k' :: (inorder b).*1)) as [Hpre Hpost];
      [by rewrite <-app_assoc|done|]. split; [done|].
    apply ascending_app in Ho as (_ & Ho & _). apply ascending_app in Ho as (_ & Ho & _).
    destruct Ho as [Hss HP]. inversion Hss as [|? ? Hss' Hfa]; subst.
    inversion HP as [|? ? HPk' HPs]; subst.
    intros x [->|[Hx|Hx]%elem_of_app]%elem_of_cons; [by apply ko_gt| |by apply Hpost].
    rewrite Forall_forall in Hfa, HPs.
    apply (ko_trans k k' x); [done|done| |by apply ko_gt|];
      [apply HPs|apply Hfa]; apply elem_of_app; by left.
  - rewrite !fmap_app in *. destruct (IH ((inorder a).*1 ++ [k'] ++ m)) as [Hpre Hpost];
      [by rewrite <-!app_assoc in *|done|]. split; [|done].
    apply ascending_app in Ho as (Ho & _ & _). rewrite app_assoc in Ho.
    apply ascending_app in Ho as ([_ HP1] & [_ HP2] & Hlt). rewrite Forall_forall in HP1, HP2.
    intros x Hx. rewrite app_assoc in Hx. apply elem_of_app in Hx as [Hx|Hx].
    + apply (ko_trans x k' k); [by apply HP1|apply HP2; left|done| |done].
      apply Hlt; [done|left].
    + apply list_elem_of_singleton in Hx as ->. done.
Qed.

(** The tree after the descent and before the repair: the new node is in
    place and the keys are ordered. *)
Lemma ordered_attach t k v ctx l c :
  ordered t → P k → locate [] t k = (ctx, E) →
  ordered (plug ctx (T l c k v E E)).
Proof.
  intros Ho Hk Hl. destruct (locate_agrees _ _ _ _ _ Hl (Forall_nil_2 _)) as [Hag _].
  apply locate_plug in Hl. simpl in Hl. unfold ordered in *. subst t.
  rewrite inorder_plug in Ho |- *. rewrite !fmap_app in Ho |- *. simpl in Ho |- *.
  destruct (agrees_bounds ctx k [] Ho Hk Hag) as [Hpre Hpost].
  apply ascending_app in Ho as (H1 & [H2 H2'] & H12). apply ascending_app. split; [done|]. split.
  - split; [|by constructor]. constructor; [done|]. by apply Forall_forall.
  - intros a b Ha [->|Hb]%elem_of_cons; [by apply Hpre|by apply H12].
Qed.

Lemma ordered_replace t k ctx l c k0 v0 a b v l' c' :
  ordered t → P k → locate [] t k = (ctx, T l c k0 v0 a b) →
  k0 = k ∧ ordered (plug ctx (T l' c' k v a b)).
Proof.
  intros Ho Hk Hl. destruct (locate_agrees _ _ _ _ _ Hl (Forall_nil_2 _)) as [Hag Heq].
  apply locate_plug in Hl. simpl in Hl. unfold ordered in *. subst t.
  destruct (ordered_agrees _ _ _ _ _ _ _ Ho) as [_ Hk0].
  assert (k0 = k) as -> by (by apply ko_eq). split; [done|].
  rewrite inorder_plug in Ho |- *. rewrite !fmap_app in Ho |- *. simpl in Ho |- *.
  by rewrite !fmap_app in Ho |- *.
Qed.

Lemma length_locate t k : length (locate [] t k).1 ≤ depth t.
Proof.
  enough (∀ ctx, length (locate ctx t k).1 ≤ length ctx + depth t) as H by apply (H []).
  induction t as [|l c k' v a IHa b IHb]; intros ctx; simpl; [lia|].
  des; [simpl; lia| |].
  - specialize (IHa (FL l c k' v b :: ctx)). simpl in IHa. lia.
  - specialize (IHb (FR l c k' v a :: ctx)). simpl in IHb. lia.
Qed.

(** ** rbt_add *)
Lemma finish_ok s (L : list (loc * rbt_node V)) nx rt sz fr rc Q :
  sat s L nx rt sz fr →
  (∀ s, sat s L nx rt (if bool_decide (rc = 0%Z) then u64 (sz + 1) else sz) fr → Q rc s) →
  wp (add_finish rc) Q s.
Proof. intros Hs HQ. unfold add_finish. wsteps. case_bool_decide; wsteps; by apply HQ. Qed.

(** The addresses of a tree; the next free address is above all of them. *)
Fixpoint tlocs t : list loc :=
  match t with E => [] | T l _ _ _ a b => l :: tlocs a ++ tlocs b end.
Fixpoint clocs ctx : list loc :=
  match ctx with [] => [] | f :: ctx => floc f :: tlocs (fsib f) ++ clocs ctx end.
Definition below (nx : loc) t : Prop := Forall (λ l, (l < nx)%positive) (tlocs t).

Lemma cells_locs q t : (cells q t).*1 = tlocs t.
Proof. revert q. induction t; intros q; simpl; [done|]. rewrite fmap_app. congruence. Qed.

Lemma tlocs_fill f t : tlocs (fill f t) ≡ₚ floc f :: tlocs t ++ tlocs (fsib f).
Proof. destruct f; simpl; [done|]. apply perm_skip, Permutation_app_comm. Qed.
Lemma tlocs_plug ctx t : tlocs (plug ctx t) ≡ₚ tlocs t ++ clocs ctx.
Proof.
  revert t. induction ctx as [|f ctx IH]; intros t; simpl; [by rewrite app_nil_r|].
  rewrite IH, tlocs_fill. perm.
Qed.
Lemma tlocs_paint c t : tlocs (paint c t) = tlocs t.
Proof. by destruct t. Qed.
Lemma tlocs_rotated f g n c k v a b :
  tlocs (rotated f g (T n c k v a b)) ≡ₚ tlocs (fill g (fill f (T n c k v a b))).
Proof. destruct f, g; perm. Qed.

Lemma below_perm nx t t' : tlocs t ≡ₚ tlocs t' → below nx t → below nx t'.
Proof. unfold below. by intros ->. Qed.
Lemma below_mono nx nx' t : (nx ≤ nx')%positive → below nx t → below nx' t.
Proof. intros Hle Hb. eapply Forall_impl; [exact Hb|]. intros l Hl. simpl in *. lia. Qed.

Definition fkey (f : frame V) : list Z := match f with FL _ _ k _ _ | FR _ _ k _ _ => k end.
Definition fvalue (f : frame V) : V := match f with FL _ _ _ v _ | FR _ _ _ v _ => v end.

(** The grandparent is painted red, parent and uncle black. *)
Definition recolored (f g : frame V) t : tree V :=
  fill (move_frame (floc g) (paint BLACK (fsib g)) (paint_frame RED g)) (fill (paint_frame BLACK f) t).

Lemma repair_red s readd f ctx n k v a b nx sz fr rc Q :
  at_ s (f :: ctx) (T n RED k v a b) nx sz fr → fcolor f = RED →
  match ctx with
  | [] => ∀ s, at_ s [f] (T n RED k v a b) nx (if bool_decide (rc = 0%Z) then u64 (sz + 1) else sz) fr
               → Q rc s
  | g :: ctx =>
      if bool_decide (tcolor (fsib g) = RED)
      then ∀ s, at_ s ctx (recolored f g (T n RED k v a b)) nx sz fr →
             wp (readd (fkey g) (fvalue g)) (λ _, wp (add_finish rc) Q) s
      else ∀ s, at_ s ctx (rotated f g (T n RED k v a b)) nx
                  (if bool_decide (rc = 0%Z) then u64 (sz + 1) else sz) fr → Q rc s
  end →
  wp (add_repair readd n rc) Q s.
Proof.
  intros Hs Hf HQ. unfold add_repair, rbt_uncle, rbt_grandparent. enter Hs.
  destruct ctx as [|g ctx].
  - destruct f as [p pc pk pv s0|p pc pk pv s0]; simpl in Hf; subst pc; simpl in Hs; wsteps;
      (eapply finish_ok; [exact Hs|]; clear Hs; clear s; intros s Hs; wdone HQ).
  - destruct (decide (tcolor (fsib g) = RED)) as [Hu|Hu].
    + rewrite bool_decide_eq_true_2 in HQ by done.
      destruct g as [q qc qk qv [|u uc uk uv ua ub]|q qc qk qv [|u uc uk uv ua ub]]; try done;
        destruct f as [p pc pk pv s0|p pc pk pv s0]; simpl in Hf, Hu; subst pc uc; simpl in Hs; wsteps;
        wlinks; wlinks; wdone HQ.
    + rewrite bool_decide_eq_false_2 in HQ by done.
      assert (∀ s, at_ s (f :: g :: ctx) (T n RED k v a b) nx sz fr →
        wp (add_rotate n (floc g)) (λ ok : bool, wp (if ok then add_finish rc else mret (-1)%Z) Q) s)
        as Hrot.
      { clear Hs. clear s. intros s Hs. eapply add_rotate_ok; [exact Hs|done|]. clear Hs. clear s.
        intros s Hs. eapply finish_ok; [exact Hs|]. clear Hs. clear s. intros s Hs. by apply HQ. }
      clear HQ.
      destruct g as [q qc qk qv [|u [] uk uv ua ub]|q qc qk qv [|u [] uk uv ua ub]]; try done;
        destruct f as [p pc pk pv s0|p pc pk pv s0]; simpl in Hf; subst pc; simpl in Hs; wsteps;
        wlinks; wlinks; try wstep; wdone Hrot.
Qed.

Lemma repair_black s readd ctx n k v a b nx rt sz fr rc Q :
  sat s (cells (par ctx) (T n BLACK k v a b) ++ cells_ctx ctx (Some n)) nx rt sz fr →
  match ctx with [] => True | _ => rt = ptr (plug ctx (T n BLACK k v a b)) end →
  (∀ s, at_ s ctx (T n BLACK k v a b) nx sz fr → Q 1%Z s) →
  wp (add_repair readd n rc) Q s.
Proof.
  intros Hs Hrt HQ. unfold add_repair. simpl in Hs.
  destruct ctx as [|[q qc qk qv sib|q qc qk qv sib] ctx]; simpl in Hs; subst; wsteps; wdone HQ.
Qed.

Lemma repair_root s readd n k v (a b : tree V) nx rt sz fr rc Q :
  sat s (cells None (T n RED k v a b)) nx rt sz fr →
  (∀ s, at_ s [] (T n BLACK k v a b) nx (if bool_decide (rc = 0%Z) then u64 (sz + 1) else sz) fr
        → Q rc s) →
  wp (add_repair readd n rc) Q s.
Proof.
  intros Hs HQ. unfold add_repair. simpl in Hs. wsteps.
  eapply finish_ok; [exact Hs|]. clear Hs. clear s. intros s Hs. wdone HQ.
Qed.

Lemma repair_under_black s readd f ctx n k v a b nx sz fr rc Q :
  at_ s (f :: ctx) (T n RED k v a b) nx sz fr → fcolor f = BLACK →
  (∀ s, at_ s (f :: ctx) (T n RED k v a b) nx sz fr → Q rc s) →
  wp (add_repair readd n rc) Q s.
Proof.
  intros Hs Hf HQ. unfold add_repair. enter Hs.
  destruct f as [p pc pk pv s0|p pc pk pv s0]; simpl in Hf; subst pc; simpl in Hs; wsteps; wdone HQ.
Qed.

(** The re-insertion of the grandparent finds the grandparent. *)
Lemma locate_recolored f g ctx t :
  ordered (plug ctx (recolored f g t)) →
  locate [] (plug ctx (recolored f g t)) (fkey g) = (ctx, recolored f g t) ∧ P (fkey g).
Proof.
  intros Ho.
  assert (∃ a b, recolored f g t = T (floc g) RED (fkey g) (fvalue g) a b) as (a & b & Hr).
  { destruct g; simpl; by do 2 eexists. }
  rewrite Hr in Ho |- *. destruct (ordered_agrees _ _ _ _ _ _ _ Ho) as [Hag Hk].
  split; [|done]. rewrite locate_focus by done. simpl. rewrite app_nil_r.
  by rewrite ko_refl, bool_decide_eq_true_2.
Qed.

Lemma fadd_recolored f g ctx t nx :
  ordered (plug ctx (recolored f g t)) →
  fadd (plug ctx (recolored f g t)) (fkey g) (fvalue g) nx
  = fixup ctx (fill (move_frame nx (paint BLACK (fsib g)) (paint_frame RED g))
                    (fill (paint_frame BLACK f) t)) (Pos.succ nx).
Proof.
  intros Ho. destruct (locate_recolored f g ctx t Ho) as [Hl _]. unfold fadd. rewrite Hl.
  unfold recolored. by destruct g.
Qed.

Lemma tlocs_recolored f g t : tlocs (recolored f g t) ≡ₚ tlocs (fill g (fill f t)).
Proof. destruct f, g; simpl; by rewrite tlocs_paint. Qed.

Lemma inorder_recolored f g t : inorder (recolored f g t) = inorder (fill g (fill f t)).
Proof. destruct f, g; simpl; by rewrite inorder_paint. Qed.

(** [rbt_add_fuel fuel] computes [fadd]. *)
Definition add_computes (fuel : nat) : Prop := ∀ s t k v nx sz fr Q,
  at_ s [] t nx sz fr → below nx t → ordered t → P k → length (locate [] t k).1 < fuel →
  (∀ s, at_ s [] (fadd t k v nx).1 (fadd t k v nx).2 (fadd_size t k sz) (fadd_freed t k v fr) →
        below (fadd t k v nx).2 (fadd t k v nx).1 → Q (fadd_rc t k) s) →
  wp (rbt_add_fuel cmp fcb fuel k v) Q s.

Definition repair_size ctx (rc sz : Z) : Z :=
  match ctx with
  | f :: _ => if bool_decide (fcolor f = BLACK) then sz
              else if bool_decide (rc = 0%Z) then u64 (sz + 1) else sz
  | [] => if bool_decide (rc = 0%Z) then u64 (sz + 1) else sz
  end.

Lemma readd_ok fuel s f g ctx t nx sz fr rc Q :
  add_computes fuel → length ctx < fuel →
  at_ s ctx (recolored f g t) nx sz fr → below nx (plug ctx (recolored f g t)) →
  ordered (plug ctx (recolored f g t)) →
  (∀ r s, r = fixup ctx (fill (move_frame nx (paint BLACK (fsib g)) (paint_frame RED g))
                    (fill (paint_frame BLACK f) t)) (Pos.succ nx) →
     at_ s [] r.1 r.2 (if bool_decide (rc = 0%Z) then u64 (sz + 1) else sz) fr → below r.2 r.1 → Q rc s) →
  wp (rbt_add_fuel cmp fcb fuel (fkey g) (fvalue g)) (λ _, wp (add_finish rc) Q) s.
Proof.
  intros IH Hf Hs Hb Ho HQ. destruct (locate_recolored f g ctx t Ho) as [Hl Hk].
  eapply IH; [by apply at_plug|done|done|done|by rewrite Hl|]. clear Hs. clear s. intros s Hs Hb'.
  rewrite fadd_recolored in Hs, Hb' by done.
  assert (fadd_freed (plug ctx (recolored f g t)) (fkey g) (fvalue g) fr = fr) as Hfr.
  { unfold fadd_freed. rewrite Hl. destruct g; simpl; by rewrite bool_decide_eq_false_2 by tauto. }
  assert (fadd_size (plug ctx (recolored f g t)) (fkey g) sz = sz) as Hsz.
  { unfold fadd_size. rewrite Hl. destruct g; simpl; by destruct ctx. }
  rewrite Hfr, Hsz in Hs. eapply finish_ok; [exact Hs|]. clear Hs. clear s. intros s Hs.
  by eapply HQ.
Qed.

Lemma repair_fixup fuel s ctx n k v a b nx rt sz fr rc Q :
  add_computes fuel → length ctx ≤ fuel →
  sat s (cells (par ctx) (T n RED k v a b) ++ cells_ctx ctx (Some n)) nx rt sz fr →
  (ctx ≠ [] → rt = ptr (plug ctx (T n RED k v a b))) →
  below nx (plug ctx (T n RED k v a b)) → ordered (plug ctx (T n RED k v a b)) →
  (∀ r s, r = fixup ctx (T n RED k v a b) nx →
     at_ s [] r.1 r.2 (repair_size ctx rc sz) fr → below r.2 r.1 → Q rc s) →
  wp (add_repair (rbt_add_fuel cmp fcb fuel) n rc) Q s.
Proof.
  intros IH Hfuel Hs Hrt Hb Ho HQ. destruct ctx as [|f ctx].
  { eapply repair_root; [by rewrite app_nil_r in Hs|]. clear Hs. clear s. intros s Hs.
    by apply (HQ _ s eq_refl). }
  rewrite Hrt in Hs by done. change (at_ s (f :: ctx) (T n RED k v a b) nx sz fr) in Hs.
  unfold repair_size in HQ. cbn [fixup] in HQ.
  destruct (decide (fcolor f = BLACK)) as [Hf|Hf].
  { rewrite bool_decide_eq_true_2 in HQ by done.
    eapply repair_under_black; [exact Hs|done|]. clear Hs. clear s. intros s Hs.
    apply (HQ _ s eq_refl); [by apply at_plug in Hs|done]. }
  rewrite (bool_decide_eq_false_2 (fcolor f = BLACK)) in HQ by done.
  eapply repair_red; [exact Hs|by destruct (fcolor f)|]. clear Hs. clear s. destruct ctx as [|g ctx].
  { intros s Hs. apply (HQ _ s eq_refl); [by apply at_plug in Hs|done]. }
  cbn [plug] in Hb, Ho. case_bool_decide as Hu; intros s Hs.
  - simpl in Hfuel. eapply readd_ok; [done| |exact Hs| | |exact HQ].
    + lia.
    + eapply below_perm; [|exact Hb]. by rewrite !tlocs_plug, tlocs_recolored.
    + unfold ordered in Ho |- *. rewrite inorder_plug in Ho |- *. by rewrite inorder_recolored.
  - apply (HQ _ s eq_refl); [by apply at_plug in Hs|].
    eapply below_perm; [|exact Hb]. cbn [fst]. by rewrite !tlocs_plug, tlocs_rotated.
Qed.

Lemma add_fuel_ok fuel : add_computes fuel.
Proof.
  induction fuel as [|fuel IH]; intros s t k v nx sz fr Q Hs Hb Ho Hk Hd HQ; [lia|].
  cbn [rbt_add_fuel]. wstep.
  eapply wp_alloc; [exact Hs|by rewrite fmap_app, cells_locs, app_nil_r|].
  clear Hs. clear s. intros s Hs.
  wstep. apply wp_get. rewrite (sat_root _ _ _ _ _ _ Hs). cbn [plug].
  destruct (ptr t) as [r|] eqn:Hr.
  2: { destruct t; [|done]. simpl in Hs |- *. wsteps. eapply finish_ok; [exact Hs|].
       clear Hs. clear s. intros s Hs. apply HQ; [exact Hs|]. repeat constructor. simpl. lia. }
  wstep. eapply add_internal_ok with (ctx := []) (t := t); [done| |exact Hs|].
  { rewrite (heap_is_size _ _ (sat_heap _ _ _ _ _ _ Hs)). simpl.
    rewrite length_app, length_cells. pose proof (depth_count t). lia. }
  clear Hs. clear s. unfold fadd, fadd_size, fadd_freed, fadd_rc in HQ.
  destruct (locate [] t k) as [ctx t0] eqn:Hl. cbn [fst] in Hd.
  pose proof (locate_plug _ _ _ _ _ Hl) as Hp. cbn [plug] in Hp.
  assert (Hroot : ∀ t1, ctx ≠ [] → ptr (plug [] t) = ptr (plug ctx t1)).
  { intros t1 Hne. cbn [plug]. rewrite <-Hp. apply ptr_plug. by destruct ctx. }
  assert (Hbel : ∀ t1, tlocs t1 ⊆ nx :: tlocs t0 → below (Pos.succ nx) (plug ctx t1)).
  { intros t1 Hsub. rewrite <-Hp in Hb. unfold below in *. rewrite tlocs_plug in Hb |- *.
    apply Forall_app in Hb as [Hb1 Hb2]. apply Forall_app. rewrite !Forall_forall in *. split.
    - intros x Hx. apply Hsub, elem_of_cons in Hx as [->|Hx]; [lia|]. apply Hb1 in Hx. lia.
    - intros x Hx. apply Hb2 in Hx. lia. }
  destruct t0 as [|l c k0 v0 a b].
  - intros s Hs. pose proof (ordered_attach t k v ctx nx RED Ho Hk Hl) as Ho'.
    eapply (repair_fixup fuel _ ctx); [exact IH|lia|exact Hs|auto|by apply Hbel|done|].
    intros r' s' -> Hs' Hb'. apply HQ; [|done]. by destruct ctx.
  - intros s Hs. destruct (ordered_replace t k ctx l c k0 v0 a b v nx c Ho Hk Hl) as [-> Ho'].
    assert (below (Pos.succ nx) (plug ctx (T nx c k v a b))) as Hb'.
    { apply Hbel. simpl. set_solver. }
    destruct c.
    + eapply (repair_fixup fuel _ ctx); [exact IH|lia|exact Hs|auto|done|done|].
      intros r' s' -> Hs' Hb''. apply HQ; [|done]. destruct ctx; [done|].
      unfold repair_size in Hs'. by case_bool_decide.
    + eapply repair_black; [exact Hs|destruct ctx; [done|]; by apply Hroot|].
      clear Hs. clear s. intros s Hs. apply HQ; [|done]. apply at_plug in Hs. by destruct ctx.
Qed.
End Functional.
