(* ===== verification/RbTreeMap.v ===== *)
(** * Red-black tree: balance, and the tree as an ordered map

    Insertion preserves the red-black conditions, so lookups are logarithmic;
    [rbt_add] and [rbt_find] implement the update and the lookup of a finite
    map, and the heap holds exactly the nodes of the tree. *)
From Stdlib Require Import FunctionalExtensionality.
From S2P Require Import Prelude Heap RbTree RbTreeRep RbTreeAdd.

Section Balance.
Context {V : Type}.
Implicit Types (ctx : list (frame V)) (t : tree V).

(** [rb t c n]: root colour [c], black height [n], no red node with a red
    child. *)
Inductive rb : tree V → rbt_color → nat → Prop :=
| rb_E : rb E BLACK 0
| rb_red l k v a b n : rb a BLACK n → rb b BLACK n → rb (T l RED k v a b) RED n
| rb_black l k v a b ca cb n : rb a ca n → rb b cb n → rb (T l BLACK k v a b) BLACK (S n).
Hint Constructors rb : core.

(** Contexts that accept a subtree of colour [c] and black height [n]. *)
Inductive rb_ctx : list (frame V) → rbt_color → nat → Prop :=
| rb_top n : rb_ctx [] BLACK n
| rb_FL_red l k v b ctx n : rb b BLACK n → rb_ctx ctx RED n → rb_ctx (FL l RED k v b :: ctx) BLACK n
| rb_FR_red l k v a ctx n : rb a BLACK n → rb_ctx ctx RED n → rb_ctx (FR l RED k v a :: ctx) BLACK n
| rb_FL_black l k v b cb ctx c n :
    rb b cb n → rb_ctx ctx BLACK (S n) → rb_ctx (FL l BLACK k v b :: ctx) c n
| rb_FR_black l k v a ca ctx c n :
    rb a ca n → rb_ctx ctx BLACK (S n) → rb_ctx (FR l BLACK k v a :: ctx) c n.
Hint Constructors rb_ctx : core.

Definition valid t : Prop := ∃ n, rb t BLACK n.

Lemma rb_plug ctx t c n : rb t c n → rb_ctx ctx c n → valid (plug ctx t).
Proof.
  revert t c n. induction ctx as [|f ctx IH]; intros t c n Ht Hc; simpl.
  - inversion Hc; subst. by exists n.
  - inversion Hc; subst; simpl; eapply IH; eauto.
Qed.

Lemma rb_unplug ctx t n : rb (plug ctx t) BLACK n → ∃ c m, rb t c m ∧ rb_ctx ctx c m.
Proof.
  revert t. induction ctx as [|f ctx IH]; intros t; simpl; [eauto|].
  intros (c & m & Hf & Hc)%IH. destruct f; simpl in Hf; inversion Hf; subst; eauto 6.
Qed.

Lemma rb_paint t c n : rb t c n → c = RED → rb (paint BLACK t) BLACK (S n).
Proof. destruct 1; simpl; intros; try done; eauto. Qed.

Lemma rb_color t c n : rb t c n → tcolor t = c.
Proof. by destruct 1. Qed.

Lemma rb_rotated f g ctx n k v a b m :
  rb a BLACK m → rb b BLACK m → rb_ctx (f :: g :: ctx) BLACK m → fcolor f = RED →
  tcolor (fsib g) ≠ RED → valid (plug ctx (rotated f g (T n RED k v a b))).
Proof.
  intros Ha Hb Hc Hf Hu.
  assert (∃ u, fsib g = u ∧ rb u BLACK m ∧ rb (fsib f) BLACK m ∧ rb_ctx ctx BLACK (S m))
    as (u & <- & H1 & H2 & H3).
  { inversion Hc as [|? ? ? ? ? ? Hs Hg|? ? ? ? ? ? Hs Hg| |]; subst; try done;
      inversion Hg as [| | |? ? ? ? cb ? ? ? Hs'|? ? ? ? cb ? ? ? Hs']; subst; simpl in *;
      pose proof (rb_color _ _ _ Hs'); destruct cb; try congruence; eauto 6. }
  eapply (rb_plug ctx _ BLACK (S m)); [|done].
  destruct f, g; simpl in *; eauto.
Qed.

Lemma rb_fixup ctx n k v a b m nx :
  rb a BLACK m → rb b BLACK m → rb_ctx ctx BLACK m → valid (fixup ctx (T n RED k v a b) nx).1.
Proof.
  revert n k v a b m nx. induction ctx as [ctx IH] using (induction_ltof1 _ length).
  unfold ltof in IH. intros n k v a b m nx Ha Hb Hc.
  destruct ctx as [|f ctx]; cbn [fixup]; [exists (S m); simpl; eauto|].
  case_bool_decide as Hf.
  { eapply rb_plug with (c := RED) (n := m); [eauto|]. inversion Hc; subst; simpl in *; done || eauto. }
  destruct ctx as [|g ctx].
  { exfalso. inversion Hc as [|? ? ? ? ? ? Hs Hg|? ? ? ? ? ? Hs Hg| |]; subst; try done; inversion Hg. }
  case_bool_decide as Hu; [|cbn [fst]; eapply rb_rotated; eauto; by destruct (fcolor f)].
  assert (rb (fill (paint_frame BLACK f) (T n RED k v a b)) BLACK (S m)) as Hf'.
  { inversion Hc as [|? ? ? ? ? ? Hs Hg|? ? ? ? ? ? Hs Hg| |]; subst; simpl; try done; eauto. }
  assert (rb (paint BLACK (fsib g)) BLACK (S m) ∧ rb_ctx ctx BLACK (S m)) as [Hu' Hc'].
  { inversion Hc as [|? ? ? ? ? ? Hs Hg|? ? ? ? ? ? Hs Hg| |]; subst; try done;
      inversion Hg as [| | |? ? ? ? cb ? ? ? Hs'|? ? ? ? cb ? ? ? Hs']; subst; simpl in *;
      (split; [eapply rb_paint; [done|]; by rewrite <-(rb_color _ _ _ Hs')|done]). }
  destruct g; simpl; (eapply IH; [simpl; lia|done|done|done]).
Qed.

(** Height bound of a red-black tree. *)
Lemma rb_depth t c n : rb t c n → depth t ≤ 2 * n + (if c is RED then 1 else 0).
Proof.
  induction 1 as [|? ? ? ? ? ? ? IHa ? IHb|? ? ? ? ? ca cb ? ? IHa ? IHb]; simpl in *; [lia|lia|].
  destruct ca, cb; lia.
Qed.

Lemma rb_count t c n : rb t c n → 2 ^ n ≤ S (count t).
Proof.
  induction 1 as [|? ? ? ? ? ? ? IHa ? IHb|? ? ? ? ? ca cb ? ? IHa ? IHb]; simpl in *; lia.
Qed.

Lemma valid_depth t : valid t → 2 ^ depth t ≤ (S (count t)) ^ 2.
Proof.
  intros [n Hn]. pose proof (rb_depth _ _ _ Hn) as Hd. pose proof (rb_count _ _ _ Hn) as Hc.
  etrans; [apply (Nat.pow_le_mono_r 2 _ (n * 2)); [done|simpl in Hd; lia]|].
  rewrite Nat.pow_mul_r. by apply Nat.pow_le_mono_l.
Qed.
End Balance.

Section Map.
Context {V : Type} `{EqDecision V} (cmp : option (list Z → list Z → Z)) (fcb : bool).
Context (P : list Z → Prop) `{!KeyOrder P (rbt_compare_keys cmp)}.
Implicit Types (ctx : list (frame V)) (t : tree V) (s : rbt V).
Notation compare := (rbt_compare_keys cmp).

(** The state [s] holds exactly the ordered red-black tree [t]. *)
Record rbt_rep s t : Prop := {
  rep_at : at_ s [] t (next s) (rsize s) (freed s);
  rep_below : below (next s) t;
  rep_ordered : ordered cmp P t;
  rep_valid : valid t
}.

Definition tree_map t : gmap (list Z) V := list_to_map (inorder t).
(** The state [s] represents the map [m]. *)
Definition rbt_is s (m : gmap (list Z) V) : Prop := ∃ t, rbt_rep s t ∧ tree_map t = m.

Lemma rbt_is_create : rbt_is rbt_create ∅.
Proof.
  exists E. split; [|done]. split; [by repeat split; try constructor|constructor| |by exists 0; constructor].
  split; constructor.
Qed.

Lemma ordered_NoDup t : ordered cmp P t → NoDup (inorder t).*1.
Proof. by apply ascending_NoDup. Qed.

Lemma tree_map_lookup t k v :
  ordered cmp P t → tree_map t !! k = Some v ↔ (k, v) ∈ inorder t.
Proof. intros Ho. symmetry. by apply elem_of_list_to_map, ordered_NoDup. Qed.

(** The position of a key tells whether the map has it. *)
Lemma locate_lookup t k ctx t0 :
  ordered cmp P t → P k → locate cmp [] t k = (ctx, t0) →
  tree_map t !! k = match t0 with E => None | T _ _ _ v _ _ => Some v end.
Proof.
  intros Ho Hk Hl. destruct t0 as [|l c k0 v0 a b].
  - pose proof (ordered_attach cmp P t k) as Hatt. destruct (tree_map t !! k) as [v|] eqn:Hv; [|done].
    apply tree_map_lookup in Hv; [|done]. exfalso.
    specialize (Hatt v ctx 1%positive RED Ho Hk Hl). apply ordered_NoDup in Hatt.
    apply locate_plug in Hl. simpl in Hl. subst t. rewrite inorder_plug in Hatt, Hv.
    simpl in Hatt, Hv. rewrite fmap_app in Hatt. simpl in Hatt.
    apply NoDup_app in Hatt as (_ & Hd & Hnd). apply NoDup_cons in Hnd as [Hnd _].
    apply elem_of_app in Hv as [Hv|Hv]; apply (list_elem_of_fmap_2 fst) in Hv; simpl in Hv; [|done].
    apply (Hd k Hv). left.
  - destruct (ordered_replace cmp P t k ctx l c k0 v0 a b v0 1%positive RED Ho Hk Hl) as [-> _].
    apply tree_map_lookup; [done|]. apply locate_plug in Hl. simpl in Hl. subst t.
    rewrite inorder_plug. simpl. rewrite !elem_of_app, elem_of_cons. tauto.
Qed.

(** ** rbt_find *)
Lemma find_internal_ok fuel s L nx rt sz fr q t R k ctx (Q : option loc → rbt V → Prop) :
  sat s L nx rt sz fr → L ≡ₚ cells q t ++ R → depth t ≤ fuel →
  Q (ptr (locate cmp ctx t k).2) s → wp (rbt_find_internal cmp fuel (ptr t) k) Q s.
Proof.
  intros Hs. revert fuel q R ctx. induction t as [|l c k0 v0 a IHa b IHb];
    intros fuel q R ctx HL Hd HQ; [by destruct fuel|].
  destruct fuel as [|fuel]; [simpl in Hd; lia|]. simpl in HL, Hd. cbn [ptr rbt_find_internal].
  apply wp_bind. eapply wp_ld; [exact Hs|exact HL|]. cbn [key left right]. simpl in HQ.
  case_bool_decide; [done|]. case_bool_decide.
  - eapply IHa; [|lia|exact HQ]. rewrite HL.
    by rewrite <-app_assoc, Permutation_middle.
  - eapply IHb; [|lia|exact HQ]. rewrite HL.
    rewrite <-app_assoc. rewrite (Permutation_app_swap_app (cells _ a)).
    by rewrite Permutation_middle.
Qed.

Lemma rbt_find_rep s t k :
  rbt_rep s t → P k →
  rbt_find cmp k s
  = Ret (match tree_map t !! k with Some v => (0%Z, Some v) | None => ((-1)%Z, None) end, s).
Proof.
  intros [Hs Hb Ho Hv] Hk.
  assert (wp (rbt_find cmp k) (λ r s', r = match tree_map t !! k with
     Some v => (0%Z, Some v) | None => ((-1)%Z, None) end ∧ s' = s) s) as Hwp.
  { unfold rbt_find. apply wp_bind, wp_get. apply wp_bind.
    destruct (locate cmp [] t k) as [ctx t0] eqn:Hl.
    pose proof (locate_plug _ _ _ _ _ _ Hl) as Hp. simpl in Hp.
    pose proof (locate_lookup t k ctx t0 Ho Hk Hl) as ->.
    rewrite (sat_root _ _ _ _ _ _ Hs). cbn [plug].
    eapply (find_internal_ok _ _ _ _ _ _ _ _ t [] k []); [exact Hs|done| |].
    - rewrite (heap_is_size _ _ (sat_heap _ _ _ _ _ _ Hs)). rewrite length_app, length_cells.
      pose proof (depth_count t). lia.
    - rewrite Hl. cbn [snd]. destruct t0 as [|l c k0 v0 a b]; [done|]. cbn [ptr].
      apply wp_bind. unfold at_ in Hs. simpl in Hs. rewrite app_nil_r in Hs.
      eapply wp_ld; [exact Hs| |]; [rewrite <-Hp, cells_plug; simpl; reflexivity|done]. }
  apply wp_run in Hwp as (r & s' & -> & -> & ->). done.
Qed.

(** ** rbt_add *)
Lemma fadd_inorder t k v nx ctx t0 :
  locate cmp [] t k = (ctx, t0) →
  ∃ a b, inorder (fadd cmp t k v nx).1 = pre ctx ++ a ++ (k, v) :: b ++ post ctx
    ∧ match t0 with E => a = [] ∧ b = []
      | T _ _ _ _ x y => a = inorder x ∧ b = inorder y end.
Proof.
  intros Hl. unfold fadd. rewrite Hl. destruct t0 as [|l [] k0 v0 a b].
  - exists [], []. split; [|done]. rewrite inorder_fixup, inorder_plug by done. done.
  - exists (inorder a), (inorder b). split; [|done]. rewrite inorder_fixup, inorder_plug by done.
    simpl. by rewrite <-app_assoc.
  - exists (inorder a), (inorder b). split; [|done]. cbn [fst]. rewrite inorder_plug.
    simpl. by rewrite <-app_assoc.
Qed.

Lemma fadd_ordered t k v nx : ordered cmp P t → P k → ordered cmp P (fadd cmp t k v nx).1.
Proof.
  intros Ho Hk. unfold fadd. destruct (locate cmp [] t k) as [ctx t0] eqn:Hl.
  destruct t0 as [|l c k0 v0 a b].
  - unfold ordered. rewrite inorder_fixup by done. by eapply ordered_attach.
  - destruct c.
    + unfold ordered. rewrite inorder_fixup by done. by eapply ordered_replace.
    + by eapply ordered_replace.
Qed.

Lemma fadd_valid t k v nx : valid t → valid (fadd cmp t k v nx).1.
Proof.
  intros [n Hn]. unfold fadd. destruct (locate cmp [] t k) as [ctx t0] eqn:Hl.
  apply locate_plug in Hl. simpl in Hl. subst t. apply rb_unplug in Hn as (c & m & Ht & Hc).
  destruct t0 as [|l c0 k0 v0 a b]; inversion Ht; subst.
  - eapply rb_fixup; [constructor|constructor|done].
  - inversion Hc; subst; simpl; (eapply rb_plug; [|eassumption]); econstructor; eauto using rb_red.
  - eapply rb_plug; [econstructor; eassumption|done].
Qed.

Lemma fadd_map t k v nx :
  ordered cmp P t → P k → tree_map (fadd cmp t k v nx).1 = <[k := v]> (tree_map t).
Proof.
  intros Ho Hk. destruct (locate cmp [] t k) as [ctx t0] eqn:Hl.
  destruct (fadd_inorder t k v nx ctx t0 Hl) as (a & b & Hin & Hab).
  pose proof (fadd_ordered t k v nx Ho Hk) as Ho'. apply ordered_NoDup in Ho' as Hnd'.
  apply ordered_NoDup in Ho as Hnd. unfold tree_map. rewrite Hin in Hnd' |- *.
  assert (pre ctx ++ a ++ (k, v) :: b ++ post ctx ≡ₚ (k, v) :: pre ctx ++ a ++ b ++ post ctx) as Hp
    by (rewrite !app_assoc, <-Permutation_middle; by rewrite !app_assoc).
  rewrite (list_to_map_proper _ _ Hnd' Hp). simpl. destruct t0 as [|l c k0 v0 x y].
  - destruct Hab as [-> ->]. apply locate_plug in Hl. simpl in Hl. subst t.
    by rewrite inorder_plug.
  - destruct Hab as [-> ->].
    destruct (ordered_replace cmp P t k ctx l c k0 v0 x y v 1%positive RED Ho Hk Hl) as [-> _].
    apply locate_plug in Hl. simpl in Hl. subst t. rewrite inorder_plug in Hnd |- *.
    assert (pre ctx ++ inorder (T l c k v0 x y) ++ post ctx
      ≡ₚ (k, v0) :: pre ctx ++ inorder x ++ inorder y ++ post ctx) as Hp'.
    { simpl. rewrite <-app_assoc. simpl. rewrite !app_assoc, <-Permutation_middle.
      by rewrite !app_assoc. }
    rewrite (list_to_map_proper _ _ Hnd Hp'). simpl. by rewrite insert_insert_eq.
Qed.

Lemma rbt_add_rep s t k v :
  rbt_rep s t → P k →
  ∃ s' t', rbt_add cmp fcb k v s = Ret (match tree_map t !! k with Some _ => 1%Z | None => 0%Z end, s')
    ∧ rbt_rep s' t' ∧ t' = (fadd cmp t k v (next s)).1
    ∧ freed s' = match tree_map t !! k with
                 | Some w => if bool_decide (v ≠ w) && fcb then freed s ++ [w] else freed s
                 | None => freed s end
    ∧ rsize s' = fadd_size cmp t k (rsize s).
Proof.
  intros [Hs Hb Ho Hv] Hk.
  assert (wp (rbt_add cmp fcb k v) (λ rc s', rc = fadd_rc cmp t k ∧ rbt_rep s' (fadd cmp t k v (next s)).1
     ∧ freed s' = fadd_freed cmp fcb t k v (freed s) ∧ rsize s' = fadd_size cmp t k (rsize s)) s) as Hwp.
  { unfold rbt_add. apply wp_bind, wp_get.
    eapply add_fuel_ok; [done|exact Hs|done|done|done| |].
    - rewrite (heap_is_size _ _ (sat_heap _ _ _ _ _ _ Hs)), length_app, length_cells.
      pose proof (depth_count t). pose proof (length_locate cmp t k). lia.
    - intros s' Hs' Hb'. split; [done|]. destruct (Hs') as [Hh Hnx Hrt Hsz Hfr]. split; [|done].
      split; rewrite ?Hnx, ?Hsz, ?Hfr; [done|done|by apply fadd_ordered|by apply fadd_valid]. }
  apply wp_run in Hwp as (rc & s' & Hr & -> & Hrep & Hfr & Hsz). rewrite Hr.
  destruct (locate cmp [] t k) as [ctx t0] eqn:Hl.
  pose proof (locate_lookup t k ctx t0 Ho Hk Hl) as ->.
  exists s', (fadd cmp t k v (next s)).1. unfold fadd_rc, fadd_freed in *. rewrite Hl in *.
  destruct t0; done.
Qed.
End Map.

(** ** Walks: a walk whose callback continues visits every node once, a range walk the keys of its range *)
Section Walk.
Context {V : Type} `{EqDecision V} (cmp : list Z → list Z → Z) (fcb : bool).
Context {D : Type} (cb : D → list Z → V → D * Z).
Implicit Types (t : tree V) (s : rbt V).

Fixpoint preorder t : list (list Z * V) :=
  match t with E => [] | T _ _ k v a b => (k, v) :: preorder a ++ preorder b end.
Definition visit (sorted : bool) t : list (list Z * V) := if sorted then inorder t else preorder t.

(** The caller's data after the callback ran over a list of pairs. *)
Definition run (d : D) (l : list (list Z * V)) : D := foldl (λ d kv, (cb d kv.1 kv.2).1) d l.

Lemma run_app d l1 l2 : run d (l1 ++ l2) = run (run d l1) l2.
Proof. apply foldl_app. Qed.

Lemma visit_perm sorted t : visit sorted t ≡ₚ inorder t.
Proof.
  destruct sorted; [done|]. induction t as [|l c k v a IHa b IHb]; simpl in *; [done|].
  rewrite IHa, IHb. apply Permutation_middle.
Qed.

Lemma length_inorder t : length (inorder t) = count t.
Proof. induction t; simpl; [done|]. rewrite length_app. simpl. lia. Qed.

(** The callback never stops the walk and never deletes. *)
Definition continues : Prop := ∀ d k v, (cb d k v).2 = RBT_WALK_CONTINUE.

Section Continue.
Context (Hcb : continues).

(** [W f t] : walking the non-empty subtree [t] applies the callback to the
    pairs of [f t] and returns the node count. *)
Definition walks s (walk : loc → D → st (rbt V) (D * Z)) (f : tree V → list (list Z * V)) t : Prop :=
  ∀ l d, ptr t = Some l → walk l d s = Ret ((run d (f t), Z.of_nat (count t)), s).

Lemma walk_child_ok s walk f t rc d k Q :
  (ptr t ≠ None → walks s walk f t) → f E = [] →
  wp (k (rc + Z.of_nat (count t))%Z (run d (f t))) Q s →
  wp (walk_child walk (ptr t) rc d k) Q s.
Proof.
  intros Hw HE HQ. destruct t as [|l c ky v a b]; simpl in *.
  - rewrite HE, Z.add_0_r in HQ. done.
  - apply wp_bind. eapply wp_Ret; [by apply Hw|]. cbv beta iota.
    rewrite bool_decide_eq_false_2 by (simpl; lia). exact HQ.
Qed.

Lemma walk_internal_ok fuel sorted s L nx rt sz fr q t R :
  sat s L nx rt sz fr → L ≡ₚ cells q t ++ R → depth t ≤ fuel → t ≠ E →
  walks s (rbt_walk_internal (Some cmp) fcb cb fuel sorted) (visit sorted) t.
Proof using Hcb.
  intros Hs. revert fuel q R. induction t as [|l c k v a IHa b IHb]; intros fuel q R HL Hd _; [done|].
  destruct fuel as [|fuel]; [simpl in Hd; lia|]. simpl in HL, Hd.
  assert (Ha : ptr a ≠ None → walks s (rbt_walk_internal (Some cmp) fcb cb fuel sorted) (visit sorted) a).
  { intros Hne. eapply (IHa fuel (Some l)); [|lia|by destruct a]. rewrite HL.
    by rewrite <-app_assoc, Permutation_middle. }
  assert (Hb : ptr b ≠ None → walks s (rbt_walk_internal (Some cmp) fcb cb fuel sorted) (visit sorted) b).
  { intros Hne. eapply (IHb fuel (Some l)); [|lia|by destruct b]. rewrite HL.
    rewrite <-app_assoc, (Permutation_app_swap_app (cells _ a)). by rewrite Permutation_middle. }
  intros l' d [= <-].
  enough (wp (rbt_walk_internal (Some cmp) fcb cb (S fuel) sorted l d)
    (λ r s', r = (run d (visit sorted (T l c k v a b)), Z.of_nat (count (T l c k v a b))) ∧ s' = s) s)
    as (r & s' & -> & -> & ->)%wp_run by done.
  assert (Hld : ∀ (Q : rbt_node V → rbt V → Prop),
    Q (mk_node c k v (ptr a) (ptr b) q) s → wp (ld l) Q s)
    by (intros Q HQ; eapply wp_ld; [exact Hs|exact HL|done]).
  cbn [rbt_walk_internal]. apply wp_bind, Hld. cbn [left right key value].
  assert (Hend : ∀ rc d,
    wp (n ← ld l; walk_child (rbt_walk_internal (Some cmp) fcb cb fuel sorted) (right n) rc d
          (λ rc d, mret (d, rc)))
      (λ r s', r = (run d (visit sorted b), rc + Z.of_nat (count b))%Z ∧ s' = s) s).
  { intros rc d'. apply wp_bind, Hld. cbn [right]. eapply walk_child_ok; [done|by destruct sorted|].
    by apply wp_ret. }
  assert (Hsw : ∀ d again kont Q, wp (kont (cb d k v).1) Q s →
    wp (let '(d, cbrc) := cb d k v in walk_switch (Some cmp) fcb l cbrc d again (kont d)) Q s).
  { intros d' again kont Q HQ. destruct (cb d' k v) as [d2 rc2] eqn:Hc.
    pose proof (Hcb d' k v) as Hrc. rewrite Hc in Hrc. simpl in Hrc, HQ. subst rc2. done. }
  destruct sorted; simpl visit in *.
  - eapply walk_child_ok; [done|done|]. apply wp_bind, Hld. cbn [key value]. apply Hsw.
    apply wp_bind, Hld. cbn [walk_child]. eapply wp_mono; [apply Hend|].
    intros r s' [-> ->]. split; [|done]. rewrite run_app. simpl. f_equal. lia.
  - cbn [walk_child]. apply wp_bind, Hld. cbn [key value]. apply Hsw.
    apply wp_bind, Hld. cbn [left]. eapply walk_child_ok; [done|done|].
    eapply wp_mono; [apply Hend|]. intros r s' [-> ->]. split; [|done].
    simpl. rewrite run_app. f_equal. lia.
Qed.

Lemma walk_root_ok sorted s t d :
  at_ s [] t (next s) (rsize s) (freed s) →
  walk_root (λ fuel, rbt_walk_internal (Some cmp) fcb cb fuel sorted) d s
  = Ret ((run d (visit sorted t), Z.of_nat (count t)), s).
Proof using Hcb.
  intros Hs. unfold walk_root, mbind, st_bind, st_get. rewrite (sat_root _ _ _ _ _ _ Hs). cbn [plug].
  destruct t as [|l c k v a b] eqn:Ht; [by destruct sorted|]. cbn [ptr]. rewrite <-Ht in *.
  eapply (walk_internal_ok _ sorted s _ _ _ _ _ None t []); [exact Hs|done| |by subst|by subst].
  rewrite (heap_is_size _ _ (sat_heap _ _ _ _ _ _ Hs)), length_app, length_cells.
  pose proof (depth_count t). lia.
Qed.
End Continue.

(** A range walk is a walk whose callback ignores the other keys. *)
Definition in_range (b e k : list Z) : bool :=
  bool_decide (cmp k b = 0%Z) || (bool_decide (cmp k b > 0)%Z && bool_decide (cmp k e < 0)%Z).
End Walk.

Section Range.
Context {V : Type} `{EqDecision V} (cmp : list Z → list Z → Z) (fcb : bool).
Context {D : Type} (cb : D → list Z → V → D * Z).

Definition range_cb (b e : list Z) (d : D) (k : list Z) (v : V) : D * Z :=
  if in_range cmp b e k then cb d k v else (d, 1%Z).

Lemma range_walk_internal_eq fuel b e sorted :
  (cmp b e < 0)%Z →
  rbt_range_walk_internal (Some cmp) fcb cb fuel b e sorted
  = rbt_walk_internal (Some cmp) fcb (range_cb b e) fuel sorted.
Proof.
  intros Hbe. induction fuel as [|fuel IH]; [done|].
  cbn [rbt_range_walk_internal rbt_walk_internal]. rewrite IH.
  rewrite (bool_decide_eq_false_2 (cmp b e >= 0)%Z) by lia.
  assert (Heq : ∀ k v d,
    (if bool_decide (cmp k b = 0%Z) then cb d k v
     else if bool_decide (cmp k b > 0)%Z && bool_decide (cmp k e < 0)%Z then cb d k v
     else (d, 1%Z)) = range_cb b e d k v).
  { intros k v d. unfold range_cb, in_range. by destruct (bool_decide (cmp k b = 0%Z)). }
  apply functional_extensionality. intros node. apply functional_extensionality. intros d.
  f_equal. apply functional_extensionality. intros n. f_equal.
  apply functional_extensionality. intros rc. apply functional_extensionality. intros d'.
  f_equal. apply functional_extensionality. intros n'. by rewrite Heq.
Qed.

Lemma range_continues b e : continues cb → continues (range_cb b e).
Proof. intros H d k v. unfold range_cb. by destruct (in_range cmp b e k). Qed.

Lemma run_range b e d l :
  run (range_cb b e) d l = run cb d (filter (λ kv, in_range cmp b e kv.1) l).
Proof.
  revert d. induction l as [|[k v] l IH]; intros d; [done|].
  rewrite filter_cons. change (run (range_cb b e) d ((k, v) :: l))
    with (run (range_cb b e) (range_cb b e d k v).1 l). rewrite IH. unfold range_cb.
  case_decide as Hr; cbn [fst] in Hr; by destruct (in_range cmp b e k).
Qed.
End Range.
