(* ===== verification/Comparators.v ===== *)
(** * Key comparators (src/index/libhl/comparators.h)

    A key is its byte string; the comparators decode it (little endian), take
    a difference and return it as an [int].  Where C leaves the result undefined,
    on signed overflow and on the conversion of an out-of-range double, the model
    has what x86-64 computes (wrap-around, cvttsd2si); [KeyOrder] is only claimed
    for keys without overflow.  The
    [int] comparator is an order on the values whose differences fit an [int];
    the double comparator identifies distinct keys. *)
From Stdlib Require Import SpecFloat.
From S2P Require Import Prelude RbTree RbTreeAdd.

Inductive DATA_TYPE :=
| INT | LONG | INT16 | INT32 | INT64 | UINT16 | UINT32 | UINT64 | SIZE_T | FLOAT | DOUBLE | STRING.

(** ** Decoding *)
(** An IEEE 754 number from its bit pattern: [prec - 1] bits of mantissa and
    [ebits] bits of exponent. *)
Definition float_of_bits (mbits ebits : Z) (w : Z) : spec_float :=
  let s := Z.testbit w (mbits + ebits) in
  let e := (Z.shiftr w mbits `mod` 2 ^ ebits)%Z in
  let m := (w `mod` 2 ^ mbits)%Z in
  let emin := (3 - 2 ^ (ebits - 1) - (mbits + 1))%Z in
  if bool_decide (e = 0%Z) then
    match m with Zpos p => S754_finite s p emin | _ => S754_zero s end
  else if bool_decide (e = 2 ^ ebits - 1)%Z then
    match m with Z0 => S754_infinity s | _ => S754_nan end
  else
    match (m + 2 ^ mbits)%Z with Zpos p => S754_finite s p (emin + e - 1) | _ => S754_nan end.

(** (int)x for a floating-point x: truncation, and cvttsd2si's result for a
    value that does not fit. *)
Definition int_of_float (x : spec_float) : Z :=
  match x with
  | S754_finite s m e =>
      let a := if bool_decide (0 ≤ e)%Z then (Zpos m * 2 ^ e)%Z else (Zpos m `div` 2 ^ (- e))%Z in
      let z := if s then (- a)%Z else a in
      if bool_decide (in_i32 z) then z else (- 2 ^ 31)%Z
  | S754_zero _ => 0
  | _ => - 2 ^ 31
  end.

(** ** The comparators: LIBHL_CMP_KEYS_TYPE for a type of [size] bytes *)
Definition LIBHL_CMP_KEYS_TYPE (size : nat) (diff : Z → Z → Z) (k1 k2 : list Z) : Z :=
  let s1 := length k1 in
  let s2 := length k2 in
  if bool_decide (s1 < size) || bool_decide (s2 < size) || bool_decide (s1 ≠ s2)
  then i32 (Z.of_nat s1 - Z.of_nat s2)
  else diff (le_combine (take size k1)) (le_combine (take size k2)).

Definition libhl_cmp_keys_int : list Z → list Z → Z :=
  LIBHL_CMP_KEYS_TYPE 4 (λ a b, i32 (signed 32 a - signed 32 b)).
Definition libhl_cmp_keys_long : list Z → list Z → Z :=
  LIBHL_CMP_KEYS_TYPE 8 (λ a b, i32 (signed 64 a - signed 64 b)).
Definition libhl_cmp_keys_int16 : list Z → list Z → Z :=
  LIBHL_CMP_KEYS_TYPE 2 (λ a b, signed 16 a - signed 16 b)%Z.
Definition libhl_cmp_keys_int32 : list Z → list Z → Z := libhl_cmp_keys_int.
Definition libhl_cmp_keys_int64 : list Z → list Z → Z := libhl_cmp_keys_long.
Definition libhl_cmp_keys_uint16 : list Z → list Z → Z :=
  LIBHL_CMP_KEYS_TYPE 2 (λ a b, a - b)%Z.
Definition libhl_cmp_keys_uint32 : list Z → list Z → Z :=
  LIBHL_CMP_KEYS_TYPE 4 (λ a b, i32 (a - b)).
Definition libhl_cmp_keys_uint64 : list Z → list Z → Z :=
  LIBHL_CMP_KEYS_TYPE 8 (λ a b, i32 (a - b)).
Definition libhl_cmp_keys_float : list Z → list Z → Z :=
  LIBHL_CMP_KEYS_TYPE 4 (λ a b,
    int_of_float (SFsub 24 128 (float_of_bits 23 8 a) (float_of_bits 23 8 b))).
Definition libhl_cmp_keys_double : list Z → list Z → Z :=
  LIBHL_CMP_KEYS_TYPE 8 (λ a b,
    int_of_float (SFsub 53 1024 (float_of_bits 52 11 a) (float_of_bits 52 11 b))).

(** strcmp on NUL-terminated keys: the sign of the first difference. *)
Fixpoint strcmp (k1 k2 : list Z) : Z :=
  match k1, k2 with
  | [], [] => 0
  | [], b2 :: _ => - b2
  | b1 :: _, [] => b1
  | b1 :: k1, b2 :: k2 => if bool_decide (b1 = b2) then strcmp k1 k2 else b1 - b2
  end.
Definition libhl_cmp_keys_string : list Z → list Z → Z := strcmp.

(** ** LIBHL_CAST_KEYS: the absolute value of a key as an [int] *)
Definition int_abs (rst : Z) : Z := if bool_decide (rst >= 0)%Z then rst else i32 (- rst).
Definition cast_int_key (size : nat) (k1 : list Z) : Z :=
  int_abs (i32 (signed (8 * Z.of_nat size) (le_combine (take size k1)))).
(** Reads four bytes also of the two-byte keys of UINT16; the bytes behind such
    a key count as zero here. *)
Definition libhl_cast_any_to_int : list Z → Z := cast_int_key 4.
Definition libhl_cast_int_to_int : list Z → Z := cast_int_key 4.
Definition libhl_cast_long_to_int : list Z → Z := cast_int_key 8.
Definition libhl_cast_int16_to_int : list Z → Z := cast_int_key 2.
Definition libhl_cast_int32_to_int : list Z → Z := cast_int_key 4.
Definition libhl_cast_int64_to_int : list Z → Z := cast_int_key 8.
Definition libhl_cast_float_to_int (k : list Z) : Z :=
  int_abs (int_of_float (float_of_bits 23 8 (le_combine (take 4 k)))).
Definition libhl_cast_double_to_int (k : list Z) : Z :=
  int_abs (int_of_float (float_of_bits 52 11 (le_combine (take 8 k)))).

(** LIBHL_CHOOSE_CMP_CB: the comparator and the locator of a key type. *)
Definition LIBHL_CHOOSE_CMP_CB (dt : DATA_TYPE) : option ((list Z → list Z → Z) * (list Z → Z)) :=
  match dt with
  | INT => Some (libhl_cmp_keys_int, libhl_cast_int_to_int)
  | LONG => Some (libhl_cmp_keys_long, libhl_cast_long_to_int)
  | FLOAT => Some (libhl_cmp_keys_float, libhl_cast_float_to_int)
  | DOUBLE => Some (libhl_cmp_keys_double, libhl_cast_double_to_int)
  | INT16 => Some (libhl_cmp_keys_int16, libhl_cast_int16_to_int)
  | INT32 => Some (libhl_cmp_keys_int32, libhl_cast_int32_to_int)
  | INT64 => Some (libhl_cmp_keys_int64, libhl_cast_int64_to_int)
  | UINT16 => Some (libhl_cmp_keys_uint16, libhl_cast_any_to_int)
  | UINT32 => Some (libhl_cmp_keys_uint32, libhl_cast_any_to_int)
  | UINT64 => Some (libhl_cmp_keys_uint64, libhl_cast_any_to_int)
  | SIZE_T | STRING => None
  end.

(** ** The [int] comparator as an order *)
Lemma cmp_int_sub x y :
  in_i32 x → in_i32 y → libhl_cmp_keys_int (int_bytes x) (int_bytes y) = i32 (x - y).
Proof.
  intros Hx Hy. unfold libhl_cmp_keys_int, LIBHL_CMP_KEYS_TYPE.
  assert (∀ z, length (int_bytes z) = 4) as Hl by (intros; apply length_le_split).
  rewrite !Hl. rewrite !bool_decide_eq_false_2 by lia. cbn [orb].
  by rewrite !int_bytes_decode.
Qed.

(** Keys whose pairwise differences fit an [int]. *)
Definition small_int (x : Z) : Prop := (- 2 ^ 30 ≤ x < 2 ^ 30)%Z.
Definition int_key (k : list Z) : Prop := ∃ x, small_int x ∧ k = int_bytes x.

Lemma cmp_small x y :
  small_int x → small_int y → libhl_cmp_keys_int (int_bytes x) (int_bytes y) = (x - y)%Z.
Proof.
  unfold small_int. intros Hx Hy. rewrite cmp_int_sub by (unfold in_i32; lia).
  apply i32_id. unfold in_i32. lia.
Qed.

#[export] Instance int_key_order : KeyOrder int_key (rbt_compare_keys (Some libhl_cmp_keys_int)).
Proof.
  split; unfold rbt_compare_keys.
  - intros a (x & Hx & ->). rewrite cmp_small by done. lia.
  - intros a b (x & Hx & ->) (y & Hy & ->). rewrite cmp_small by done. intros H. f_equal. lia.
  - intros a b (x & Hx & ->) (y & Hy & ->). rewrite !cmp_small by done. lia.
  - intros a b c (x & Hx & ->) (y & Hy & ->) (z & Hz & ->). rewrite !cmp_small by done. lia.
Qed.

(** Bit pattern of a double as the key bytes [double] has in memory. *)
Definition key_of_double (bits : Z) : list Z := le_split 8 bits.

(** ** Comparators on a finite set of keys *)
Definition orders (cmp : list Z → list Z → Z) (keys : list (list Z)) : Prop :=
  Forall (λ a, cmp a a = 0%Z ∧ Forall (λ b,
    (cmp a b = 0%Z → a = b) ∧ ((cmp a b > 0)%Z ↔ (cmp b a < 0)%Z)
    ∧ Forall (λ c, (cmp a b < 0)%Z → (cmp b c < 0)%Z → (cmp a c < 0)%Z) keys) keys) keys.
#[export] Instance orders_dec cmp keys : Decision (orders cmp keys).
Proof. unfold orders. apply _. Defined.

Lemma orders_KeyOrder cmp keys : orders cmp keys → KeyOrder (λ k, k ∈ keys) cmp.
Proof.
  unfold orders. rewrite Forall_forall. intros H. split.
  - intros a Ha. by apply H.
  - intros a b Ha Hb. destruct (H a Ha) as [_ H']. rewrite Forall_forall in H'. by apply H'.
  - intros a b Ha Hb. destruct (H a Ha) as [_ H']. rewrite Forall_forall in H'. by apply H'.
  - intros a b c Ha Hb Hc. destruct (H a Ha) as [_ H']. rewrite Forall_forall in H'.
    destruct (H' b Hb) as (_ & _ & H''). rewrite Forall_forall in H''. by apply H''.
Qed.
