(* ===== verification/RbTreeTheorems.v ===== *)
(** * Properties of the red-black tree (rbtree.c) and its comparators *)
From S2P Require Import Prelude Heap RbTree RbTreeRep RbTreeAdd RbTreeMap Comparators.

Section Theorems.
Context {V : Type} `{EqDecision V} (cmp : option (list Z → list Z → Z)) (fcb : bool).
Context (P : list Z → Prop) `{!KeyOrder P (rbt_compare_keys cmp)}.
Implicit Types (s : rbt V) (t : tree V).

Lemma size_tree_map t : ordered cmp P t → size (tree_map t) = count t.
Proof.
  intros Ho. unfold tree_map. rewrite <-length_inorder, <-(length_map fst).
  rewrite <-size_dom, dom_list_to_map_L, size_list_to_set; [done|]. by apply ordered_NoDup with cmp P.
Qed.

(** On a tree that represents the map [m], with a comparator that orders
    the keys, [rbt_find] returns 0 and the stored value for a key of [m], -1
    for any other key, and does not change the tree. *)
Theorem rbt_find_correct s m k :
  rbt_is cmp P s m → P k →
  rbt_find cmp k s = Ret (match m !! k with Some v => (0%Z, Some v) | None => ((-1)%Z, None) end, s).
Proof. intros (t & Hr & <-) Hk. by apply (rbt_find_rep cmp P). Qed.

Lemma rbt_add_is s m k v :
  rbt_is cmp P s m → P k →
  ∃ s', rbt_add cmp fcb k v s = Ret (match m !! k with Some _ => 1%Z | None => 0%Z end, s') ∧ rbt_is cmp P s' (<[k := v]> m).
Proof.
  intros (t & Hr & <-) Hk. destruct (rbt_add_rep cmp fcb P s t k v Hr Hk) as (s' & t' & Hrun & Hr' & -> & _ & _).
  exists s'. split; [done|]. eexists. split; [done|]. apply (fadd_map cmp P); [|done]. by destruct Hr.
Qed.

(** C6: [rbt_add] terminates without a fault, returns 1 for a key that was
    present and 0 for a new one, updates the map at that key, keeps the
    red-black conditions and the ordering (they are part of [rbt_is]), and
    calls free_value_cb on the replaced value only when it differs from the
    new one. *)
Theorem rbt_add_correct s m k v :
  rbt_is cmp P s m → P k →
  ∃ s', rbt_add cmp fcb k v s = Ret (match m !! k with Some _ => 1%Z | None => 0%Z end, s')
    ∧ rbt_is cmp P s' (<[k := v]> m)
    ∧ freed s' = match m !! k with
                 | Some w => if bool_decide (v ≠ w) && fcb then freed s ++ [w] else freed s
                 | None => freed s end.
Proof.
  intros (t & Hr & <-) Hk.
  destruct (rbt_add_rep cmp fcb P s t k v Hr Hk) as (s' & t' & Hrun & Hr' & -> & Hfr & _).
  exists s'. split; [done|]. split; [|done]. eexists. split; [done|].
  apply (fadd_map cmp P); [|done]. by destruct Hr.
Qed.

Fixpoint add_all (kvs : list (list Z * V)) : st (rbt V) unit :=
  match kvs with
  | [] => mret tt
  | (k, v) :: kvs => _ ← rbt_add cmp fcb k v; add_all kvs
  end.

Lemma add_all_is s m kvs :
  rbt_is cmp P s m → Forall P kvs.*1 →
  ∃ s', add_all kvs s = Ret (tt, s')
      ∧ rbt_is cmp P s' (foldl (λ m kv, <[kv.1 := kv.2]> m) m kvs).
Proof.
  revert s m. induction kvs as [|[k v] kvs IH]; intros s m (t & Hr & <-) HP; [by exists s; split; [|exists t]|].
  inversion HP; subst. destruct (rbt_add_rep cmp fcb P s t k v) as (s1 & t1 & Hrun & Hr1 & -> & _); [done|done|].
  simpl. unfold mbind, st_bind. rewrite Hrun. apply IH; [|done]. exists (fadd cmp t k v (next s)).1.
  split; [done|]. apply (fadd_map cmp P); [|done]. by destruct Hr.
Qed.

(** C26: after any sequence of insertions into an empty tree, the heap holds
    exactly the nodes of an ordered tree of the inserted map, whose depth is
    logarithmic: 2^depth is at most (n+1)^2 for n keys. *)
Theorem rbt_build_balanced kvs :
  Forall P kvs.*1 →
  ∃ s t, add_all kvs rbt_create = Ret (tt, s) ∧ rbt_rep cmp P s t
    ∧ tree_map t = foldl (λ m kv, <[kv.1 := kv.2]> m) ∅ kvs
    ∧ size (heap s) = count t ∧ count t = size (tree_map t)
    ∧ 2 ^ depth t ≤ S (count t) ^ 2.
Proof.
  intros HP. destruct (add_all_is rbt_create ∅ kvs) as (s & Hrun & t & Hr & Hm);
    [apply rbt_is_create; exact _|done|].
  exists s, t. split; [done|]. split; [done|]. split; [done|]. destruct Hr as [Hat Hb Ho Hv]. split.
  - rewrite (heap_is_size _ _ (sat_heap _ _ _ _ _ _ Hat)), length_app, length_cells. simpl. lia.
  - split; [|by apply valid_depth]. by rewrite size_tree_map.
Qed.

(** [rbt_size] counts a new key only when it is attached at the root or
    under a red node: under a black parent [rbt_add] returns before the
    counter is incremented, so [rbt_size] is not the number of nodes that
    rbtree.h promises. *)
Theorem rbt_size_after_add s t k v ctx :
  rbt_rep cmp P s t → P k → locate cmp [] t k = (ctx, E) →
  ∃ s' t', rbt_add cmp fcb k v s = Ret (0%Z, s') ∧ rbt_rep cmp P s' t' ∧ count t' = S (count t)
    ∧ rbt_size s' = Ret (match ctx with
                         | f :: _ => if bool_decide (fcolor f = BLACK) then rsize s else u64 (rsize s + 1)
                         | [] => u64 (rsize s + 1)
                         end, s').
Proof.
  intros Hr Hk Hl. pose proof (rep_ordered _ _ _ _ Hr) as Ho.
  pose proof (locate_lookup cmp P t k ctx E Ho Hk Hl) as Hnone.
  destruct (rbt_add_rep cmp fcb P s t k v Hr Hk) as (s' & t' & Hrun & Hr' & -> & _ & Hsz).
  rewrite Hnone in Hrun. exists s', (fadd cmp t k v (next s)).1. split; [done|]. split; [done|]. split.
  - rewrite <-(size_tree_map _ (rep_ordered _ _ _ _ Hr')), (fadd_map cmp P) by done.
    rewrite map_size_insert_None by done. by rewrite size_tree_map.
  - unfold rbt_size, mbind, st_bind, st_get. simpl. rewrite Hsz. unfold fadd_size. by rewrite Hl.
Qed.

(** ** Destruction *)
Fixpoint postorder t : list V :=
  match t with E => [] | T _ _ _ v a b => postorder a ++ postorder b ++ [v] end.

Lemma postorder_perm t : postorder t ≡ₚ (inorder t).*2.
Proof.
  induction t as [|l c k v a IHa b IHb]; simpl; [done|]. rewrite IHa, IHb, fmap_app. simpl.
  by rewrite <-Permutation_cons_append.
Qed.

Lemma destroy_internal_ok fuel s nx rt sz fr q t R (Q : unit → rbt V → Prop) :
  sat s (cells q t ++ R) nx rt sz fr → depth t ≤ fuel →
  (∀ s', sat s' R nx rt sz (if fcb then fr ++ postorder t else fr) → Q tt s') →
  wp (rbt_destroy_internal fcb fuel (ptr t)) Q s.
Proof.
  revert fuel s fr q R Q. induction t as [|l c k v a IHa b IHb]; intros fuel s fr q R Q Hs Hd HQ.
  { destruct fuel; apply wp_ret, HQ; simpl in *; destruct fcb; by rewrite ?app_nil_r. }
  destruct fuel as [|fuel]; [simpl in Hd; lia|]. simpl in Hd, Hs. cbn [ptr rbt_destroy_internal].
  apply wp_bind. eapply wp_ld; [exact Hs|done|]. cbn [left right value]. apply wp_bind.
  eapply (IHa fuel s fr (Some l) ((l, mk_node c k v (ptr a) (ptr b) q) :: cells (Some l) b ++ R)); [|lia|].
  { eapply sat_perm; [exact Hs|]. rewrite <-app_assoc. by rewrite Permutation_middle. }
  clear Hs. clear s. intros s Hs.
  apply wp_bind. eapply wp_ld; [exact Hs|done|]. cbn [left right value]. apply wp_bind.
  eapply (IHb fuel s _ (Some l) ((l, mk_node c k v (ptr a) (ptr b) q) :: R)); [|lia|].
  { eapply sat_perm; [exact Hs|]. by rewrite Permutation_middle. }
  clear Hs. clear s. intros s Hs.
  apply wp_bind. eapply wp_ld; [exact Hs|done|]. cbn [value].
  apply wp_bind. destruct fcb; cbn [when_].
  - eapply wp_add_freed; [exact Hs|]. clear Hs. clear s. intros s Hs. eapply wp_free; [exact Hs|done|].
    clear Hs. clear s. intros s Hs. apply HQ. simpl. by rewrite !app_assoc.
  - apply wp_ret. eapply wp_free; [exact Hs|done|]. intros s' Hs'. by apply HQ.
Qed.

(** C27: [rbt_destroy] frees every node of the tree once, no other memory, and
    hands every stored value to free_value_cb exactly once if there is one. *)
Theorem rbt_destroy_correct s m :
  rbt_is cmp P s m →
  ∃ s', rbt_destroy fcb s = Ret (tt, s') ∧ heap s' = ∅
    ∧ ∃ vs, freed s' = freed s ++ (if fcb then vs else []) ∧ vs ≡ₚ (map_to_list m).*2.
Proof.
  intros (t & [Hat Hb Ho Hv] & <-).
  enough (wp (rbt_destroy fcb) (λ _ s', heap s' = ∅
    ∧ ∃ vs, freed s' = freed s ++ (if fcb then vs else []) ∧ vs ≡ₚ (map_to_list (tree_map t)).*2) s) as Hwp.
  { apply wp_run in Hwp as ([] & s' & Hr & H1 & H2). eauto. }
  unfold rbt_destroy. apply wp_bind, wp_get. rewrite (sat_root _ _ _ _ _ _ Hat).
  eapply destroy_internal_ok; [exact Hat| |].
  - rewrite (heap_is_size _ _ (sat_heap _ _ _ _ _ _ Hat)), length_app, length_cells.
    pose proof (depth_count t). simpl. lia.
  - intros s' Hs'. split; [by apply heap_is_nil; destruct Hs'|].
    exists (postorder t). split; [destruct Hs' as [_ _ _ _ ->]; destruct fcb; by rewrite ?app_nil_r|].
    rewrite postorder_perm. unfold tree_map. rewrite map_to_list_to_map; [done|].
    by apply ordered_NoDup with cmp P.
Qed.
End Theorems.

(** ** Walks *)
Section Walks.
Context {V : Type} `{EqDecision V} (cmp : list Z → list Z → Z) (fcb : bool).
Context (P : list Z → Prop) `{!KeyOrder P (rbt_compare_keys (Some cmp))}.
Context {D : Type} (cb : D → list Z → V → D * Z).
Implicit Types (s : rbt V).

Notation sorted_pairs := (sorted_pairs cmp).

Lemma rbt_is_sorted s m :
  rbt_is (Some cmp) P s m →
  ∃ t, at_ s [] t (next s) (rsize s) (freed s) ∧ sorted_pairs (inorder t) m ∧ count t = size m.
Proof.
  intros (t & [Hat Hb Ho Hv] & <-). exists t. split; [done|]. split; [split; [apply Ho|done]|].
  by rewrite (size_tree_map (Some cmp) P).
Qed.

(** A sorted walk whose callback always continues calls it on every pair
    of the map once, in ascending key order, returns the number of nodes and
    leaves the tree as it was. *)
Theorem rbt_walk_sorted_correct s m d :
  rbt_is (Some cmp) P s m → continues cb →
  ∃ l, rbt_walk_sorted (Some cmp) fcb cb d s = Ret ((run cb d l, Z.of_nat (size m)), s)
     ∧ sorted_pairs l m.
Proof.
  intros His Hc. destruct (rbt_is_sorted s m His) as (t & Hat & Hl & <-). exists (inorder t).
  split; [|done]. by apply (walk_root_ok cmp fcb cb Hc true s t d).
Qed.

(** An unsorted walk whose callback always continues calls it on every
    pair of the map once, in some order, and returns the number of nodes. *)
Theorem rbt_walk_correct s m d :
  rbt_is (Some cmp) P s m → continues cb →
  ∃ l, rbt_walk (Some cmp) fcb cb d s = Ret ((run cb d l, Z.of_nat (size m)), s)
     ∧ l ≡ₚ map_to_list m.
Proof.
  intros (t & Hr & <-) Hc. assert (rbt_is (Some cmp) P s (tree_map t)) as His by (by exists t).
  destruct Hr as [Hat Hb Ho Hv]. exists (preorder t). split.
  - rewrite (size_tree_map (Some cmp) P t Ho). by apply (walk_root_ok cmp fcb cb Hc false s t d).
  - rewrite (visit_perm false t). unfold tree_map. rewrite map_to_list_to_map; [done|].
    by apply ordered_NoDup with (Some cmp) P.
Qed.

(** A range walk that is not empty, sorted or not. *)
Lemma range_walk_root s t b e d sorted :
  at_ s [] t (next s) (rsize s) (freed s) → continues cb → (cmp b e < 0)%Z →
  walk_root (λ fuel, rbt_range_walk_internal (Some cmp) fcb cb fuel b e sorted) d s
  = Ret ((run cb d (filter (λ kv, in_range cmp b e kv.1) (visit sorted t)), Z.of_nat (count t)), s).
Proof.
  intros Hat Hc Hbe.
  assert (walk_root (λ fuel, rbt_range_walk_internal (Some cmp) fcb cb fuel b e sorted) d s
    = walk_root (λ fuel, rbt_walk_internal (Some cmp) fcb (range_cb cmp cb b e) fuel sorted) d s) as ->.
  { unfold walk_root, mbind, st_bind, st_get. destruct (rroot s); [|done].
    by rewrite (range_walk_internal_eq cmp fcb cb _ b e sorted Hbe). }
  rewrite (walk_root_ok cmp fcb _ (range_continues cmp cb b e Hc) sorted s t d Hat). by rewrite run_range.
Qed.
Lemma range_walk_unsorted s m b e d :
  rbt_is (Some cmp) P s m → continues cb → (cmp b e < 0)%Z →
  ∃ l n, rbt_range_walk (Some cmp) fcb cb b e d s = Ret ((run cb d (filter (λ kv, in_range cmp b e kv.1) l), n), s)
    ∧ l ≡ₚ map_to_list m ∧ ∀ k, is_Some (m !! k) → P k.
Proof.
  intros (t & [Hat Hb Ho Hv] & <-) Hc Hbe. exists (preorder t). eexists. split; [by apply (range_walk_root s t b e d false)|].
  split; [rewrite (visit_perm false t); unfold tree_map; rewrite map_to_list_to_map; [done|by apply ordered_NoDup with (Some cmp) P]|].
  intros k [v Hk]. unfold tree_map in Hk. apply elem_of_list_to_map_2 in Hk. destruct Ho as [_ HP].
  rewrite Forall_forall in HP. apply HP. apply list_elem_of_fmap. by exists (k, v).
Qed.

End Walks.

(** ** Comparators *)

(** [libhl_cmp_keys_int] has the sign of the comparison exactly when the
    difference of the two ints does not overflow. *)
Theorem cmp_keys_int_sign x y :
  in_i32 x → in_i32 y →
  (((libhl_cmp_keys_int (int_bytes x) (int_bytes y) < 0)%Z ↔ (x < y)%Z) ↔ in_i32 (x - y)).
Proof.
  intros Hx Hy. rewrite cmp_int_sub by done. split.
  - intros H. destruct (decide (in_i32 (x - y))) as [|Hn]; [done|]. exfalso. revert H Hn. unfold in_i32, i32 in *.
    intros H Hn. destruct (decide (x < y)%Z).
    + replace ((x - y + 2 ^ 31) `mod` 2 ^ 32)%Z with (x - y + 2 ^ 31 + 2 ^ 32)%Z in H; [lia|].
      symmetry. rewrite <-(Z.mod_add _ 1) by lia. apply Z.mod_small. lia.
    + replace ((x - y + 2 ^ 31) `mod` 2 ^ 32)%Z with (x - y + 2 ^ 31 - 2 ^ 32)%Z in H; [lia|].
      symmetry. rewrite <-(Z.mod_add _ (-1)) by lia. apply Z.mod_small. lia.
  - intros H. rewrite i32_id by done. lia.
Qed.

(** Among ints in [-2^30, 2^30) the comparator of integer attributes is a
    strict total order that identifies equal keys only: the order the
    red-black tree relies on. *)
Theorem cmp_keys_int_order x y z :
  small_int x → small_int y → small_int z →
  let cmp a b := libhl_cmp_keys_int (int_bytes a) (int_bytes b) in
  ((cmp x y = 0 ↔ int_bytes x = int_bytes y) ∧ (cmp x y > 0 ↔ cmp y x < 0)
   ∧ (cmp x y < 0 → cmp y z < 0 → cmp x z < 0))%Z.
Proof.
  intros Hx Hy Hz cmp. unfold cmp. rewrite !cmp_small by done. split; [|lia]. split.
  - intros Heq. f_equal. lia.
  - intros Heq. assert (x = y); [|lia]. unfold small_int in *.
    rewrite <-(int_bytes_decode x), <-(int_bytes_decode y) by (unfold in_i32; lia). by rewrite Heq.
Qed.

(** The doubles 1.25 and 1.5. *)
Definition d125 : list Z := key_of_double 0x3FF4000000000000.
Definition d150 : list Z := key_of_double 0x3FF8000000000000.

(** [libhl_cmp_keys_double] returns the difference truncated to an int, so
    that distinct doubles less than 1 apart are the same key: a tree that
    holds only 1.25 finds it under 1.5. *)
Theorem cmp_keys_double_conflates :
  d125 ≠ d150 ∧ libhl_cmp_keys_double d125 d150 = 0%Z
  ∧ ∀ v : nat, ∃ s, rbt_add (Some libhl_cmp_keys_double) true d125 v rbt_create = Ret (0%Z, s)
      ∧ rbt_find (Some libhl_cmp_keys_double) d150 s = Ret ((0%Z, Some v), s).
Proof.
  split; [by vm_compute|]. split; [by vm_compute|]. intros v. eexists.
  split; [vm_compute; reflexivity|]. by vm_compute.
Qed.

(** ** Stopping and removing *)
Definition ints (l : list Z) : list (list Z * nat) := (λ x, (int_bytes x, Z.to_nat x)) <$> l.
Definition int_tree (l : list Z) : rbt nat :=
  match add_all (Some libhl_cmp_keys_int) false (ints l) rbt_create with
  | Ret (_, s) => s | Fault => rbt_create
  end.

(** A callback that returns RBT_WALK_STOP two levels below the root does
    not stop the walk: the stop code 0 becomes a positive count one level up,
    and the sorted walk of 1, 2, 4, 6 whose callback stops at once still
    calls it for 4 after 1. *)
Theorem rbt_walk_stop_ignored :
  ∃ rc s, rbt_walk_sorted (Some libhl_cmp_keys_int) false
      (λ d _ v, (d ++ [v], RBT_WALK_STOP)) [] (int_tree [4; 2; 6; 1]%Z) = Ret (([1; 4], rc), s).
Proof. eexists _, _. vm_compute. reflexivity. Qed.

#[local] Opaque libhl_cmp_keys_int int_bytes.
(** Removing the last key leaves the root pointer of the tree pointing to
    the freed node: the next lookup is a use after free. *)
Theorem rbt_remove_root_dangles (x y : Z) :
  small_int x → small_int y →
  ∃ s, rbt_remove (Some libhl_cmp_keys_int) false (int_bytes x) false (int_tree [x])
      = Ret ((0%Z, Some (Z.to_nat x)), s)
    ∧ rroot s = Some 1%positive ∧ heap s = ∅
    ∧ rbt_find (Some libhl_cmp_keys_int) (int_bytes y) s = Fault.
Proof.
  intros Hx Hy. assert (int_tree [x] = mk_rbt {[1%positive := mk_node BLACK (int_bytes x) (Z.to_nat x) None None None]}
    2 (Some 1%positive) 1 [] 0) as ->.
  { unfold int_tree. simpl. reflexivity. }
  unfold rbt_remove, mbind, st_bind, st_get. cbn [rroot rbt_find_internal]. unfold mbind, st_bind, ld at 1.
  cbn [heap]. rewrite lookup_singleton_eq. cbn [rbt_compare_keys key]. rewrite cmp_small by done.
  rewrite Z.sub_diag, bool_decide_eq_true_2 by done. cbv [mret st_ret]. unfold ld at 1. cbn [heap].
  rewrite lookup_singleton_eq. cbn [left right]. unfold remove_leaf, mbind, st_bind, ld at 1.
  cbn [heap]. rewrite lookup_singleton_eq. cbn. unfold free_node. cbn [heap].
  rewrite lookup_singleton_eq. cbn. eexists. split; [reflexivity|]. done.
Qed.

(** ** Witnesses *)
Notation int_cmp := (Some libhl_cmp_keys_int) (only parsing).
Definition int_map (l : list Z) : gmap (list Z) nat := foldl (λ m kv, <[kv.1 := kv.2]> m) ∅ (ints l).

Lemma int_keys l : Forall small_int l → Forall int_key (ints l).*1.
Proof. induction 1; simpl; constructor; [by eexists|done]. Qed.
Lemma int_tree_is l : Forall small_int l → rbt_is int_cmp int_key (int_tree l) (int_map l).
Proof.
  intros Hl. destruct (add_all_is int_cmp false int_key rbt_create ∅ (ints l)) as (s & Hr & His).
  - apply rbt_is_create.
  - by apply int_keys.
  - unfold int_tree. by rewrite Hr.
Qed.
Lemma four_small : Forall small_int [4; 2; 6; 1]%Z.
Proof. repeat constructor; unfold small_int; lia. Qed.
Lemma int_key_3 : int_key (int_bytes 3).
Proof. exists 3%Z. split; [unfold small_int; lia|done]. Qed.

Lemma rbt_find_correct_witness :
  rbt_find int_cmp (int_bytes 3) (int_tree [4; 2; 6; 1]%Z)
  = Ret (match int_map [4; 2; 6; 1]%Z !! int_bytes 3 with
         | Some v => (0%Z, Some v) | None => ((-1)%Z, None) end, int_tree [4; 2; 6; 1]%Z).
Proof.
  apply (rbt_find_correct int_cmp int_key _ _ _ (int_tree_is _ four_small) int_key_3).
Defined.

Lemma rbt_add_correct_witness :
  ∃ s', rbt_add int_cmp true (int_bytes 3) 9 (int_tree [4; 2; 6; 1]%Z)
      = Ret (match int_map [4; 2; 6; 1]%Z !! int_bytes 3 with Some _ => 1%Z | None => 0%Z end, s')
    ∧ rbt_is int_cmp int_key s' (<[int_bytes 3 := 9]> (int_map [4; 2; 6; 1]%Z))
    ∧ freed s' = match int_map [4; 2; 6; 1]%Z !! int_bytes 3 with
                 | Some w => if bool_decide (9 ≠ w) && true then freed (int_tree [4; 2; 6; 1]%Z) ++ [w]
                             else freed (int_tree [4; 2; 6; 1]%Z)
                 | None => freed (int_tree [4; 2; 6; 1]%Z) end.
Proof.
  apply (rbt_add_correct int_cmp true int_key _ _ _ 9 (int_tree_is _ four_small) int_key_3).
Defined.

Lemma rbt_build_balanced_witness :
  ∃ s t, add_all int_cmp false (ints [4; 2; 6; 1]%Z) rbt_create = Ret (tt, s)
    ∧ rbt_rep int_cmp int_key s t
    ∧ tree_map t = foldl (λ m kv, <[kv.1 := kv.2]> m) ∅ (ints [4; 2; 6; 1]%Z)
    ∧ size (heap s) = count t ∧ count t = size (tree_map t)
    ∧ 2 ^ depth t ≤ S (count t) ^ 2.
Proof.
  apply (rbt_build_balanced int_cmp false int_key (ints [4; 2; 6; 1]%Z) (int_keys _ four_small)).
Defined.

Lemma rbt_destroy_correct_witness :
  ∃ s', rbt_destroy true (int_tree [4; 2; 6; 1]%Z) = Ret (tt, s') ∧ heap s' = ∅
    ∧ ∃ vs, freed s' = freed (int_tree [4; 2; 6; 1]%Z) ++ vs
         ∧ vs ≡ₚ (map_to_list (int_map [4; 2; 6; 1]%Z)).*2.
Proof.
  apply (rbt_destroy_correct int_cmp true int_key _ _ (int_tree_is _ four_small)).
Defined.

Definition collect (d : list nat) (k : list Z) (v : nat) : list nat * Z := (d ++ [v], RBT_WALK_CONTINUE).
Lemma collect_continues : continues collect.
Proof. by intros d k v. Qed.

Lemma rbt_walk_sorted_correct_witness :
  ∃ l, rbt_walk_sorted int_cmp false collect [] (int_tree [4; 2; 6; 1]%Z)
      = Ret ((run collect [] l, Z.of_nat (size (int_map [4; 2; 6; 1]%Z))), int_tree [4; 2; 6; 1]%Z)
    ∧ sorted_pairs libhl_cmp_keys_int l (int_map [4; 2; 6; 1]%Z).
Proof.
  apply (rbt_walk_sorted_correct libhl_cmp_keys_int false int_key collect _ _ []
    (int_tree_is _ four_small) collect_continues).
Defined.

Lemma rbt_walk_correct_witness :
  ∃ l, rbt_walk int_cmp false collect [] (int_tree [4; 2; 6; 1]%Z)
      = Ret ((run collect [] l, Z.of_nat (size (int_map [4; 2; 6; 1]%Z))), int_tree [4; 2; 6; 1]%Z)
    ∧ l ≡ₚ map_to_list (int_map [4; 2; 6; 1]%Z).
Proof.
  apply (rbt_walk_correct libhl_cmp_keys_int false int_key collect _ _ []
    (int_tree_is _ four_small) collect_continues).
Defined.


(** One black node; a second key goes under it. *)
Definition tree1 : rbt nat :=
  mk_rbt {[1%positive := mk_node BLACK (int_bytes 1) 1 None None None]} 2 (Some 1%positive) 1 [] 0.
Lemma tree1_rep : rbt_rep int_cmp int_key tree1 (T 1%positive BLACK (int_bytes 1) 1 E E).
Proof.
  split.
  - split; try done. split; [repeat constructor; by intros ?%not_elem_of_nil|done].
  - repeat constructor.
  - split; [repeat constructor|]. constructor; [|constructor]. exists 1%Z. by split.
  - exists 1. econstructor; constructor.
Qed.

Lemma rbt_size_after_add_witness :
  ∃ s' t', rbt_add int_cmp true (int_bytes 3) 3 tree1 = Ret (0%Z, s') ∧ rbt_rep int_cmp int_key s' t'
    ∧ count t' = 2 ∧ rbt_size s' = Ret (1%Z, s').
Proof.
  apply (rbt_size_after_add int_cmp true int_key tree1 (T 1%positive BLACK (int_bytes 1) 1 E E) (int_bytes 3) 3
    [FR 1%positive BLACK (int_bytes 1) 1 E]); [exact tree1_rep|exact int_key_3|].
  unfold locate. cbn [rbt_compare_keys]. rewrite cmp_small by (unfold small_int; lia). reflexivity.
Defined.

Lemma cmp_keys_int_sign_witness :
  ((libhl_cmp_keys_int (int_bytes (-2147483648)) (int_bytes 1) < 0)%Z ↔ (-2147483648 < 1)%Z)
  ↔ in_i32 (-2147483648 - 1).
Proof. apply (cmp_keys_int_sign (-2147483648) 1); unfold in_i32; lia. Defined.

Lemma cmp_keys_int_order_witness :
  let cmp a b := libhl_cmp_keys_int (int_bytes a) (int_bytes b) in
  ((cmp 1 2 = 0 ↔ int_bytes 1 = int_bytes 2) ∧ (cmp 1 2 > 0 ↔ cmp 2 1 < 0)
   ∧ (cmp 1 2 < 0 → cmp 2 3 < 0 → cmp 1 3 < 0))%Z.
Proof. apply (cmp_keys_int_order 1 2 3); unfold small_int; lia. Defined.

Lemma rbt_remove_root_dangles_witness :
  ∃ s, rbt_remove int_cmp false (int_bytes 7) false (int_tree [7]%Z) = Ret ((0%Z, Some 7), s)
    ∧ rroot s = Some 1%positive ∧ heap s = ∅
    ∧ rbt_find int_cmp (int_bytes 8) s = Fault.
Proof. apply (rbt_remove_root_dangles 7 8); unfold small_int; lia. Defined.
