(* ===== verification/LinkedList.v ===== *)
(** * Doubly linked list with a cursor: data and operations
    (src/index/libhl/linklist.c)

    Entries live in a heap private to the list; [cur]/[pos] cache the last
    position visited, as in the C code.  A value is [None] for NULL.  One
    thread uses the list: the mutex that every operation takes (the build turns
    LIBHL_THREAD_SAFE on) is then always free and is left out.  Allocation does
    not fail, and [size_t] arithmetic wraps at 64 bits. *)
From S2P Require Import Prelude Heap.

Section List.
Context {V : Type}.

(** struct _list_entry_s; [e_list] is "entry->list is not null". *)
Record list_entry := mk_entry {
  e_list : bool;
  e_prev : option loc;
  e_next : option loc;
  e_value : option V;
  e_tagged : bool
}.

Record linked_list := mk_list {
  l_heap : gmap loc list_entry;
  l_fresh : loc;
  l_head : option loc;
  l_tail : option loc;
  l_cur : option loc;
  l_pos : Z;
  l_length : Z
}.

Definition list_create : linked_list := mk_list ∅ 1 None None None 0 0.

(** ** Memory access *)
Definition set_lheap (f : gmap loc list_entry → gmap loc list_entry) (s : linked_list) : linked_list :=
  mk_list (f (l_heap s)) (l_fresh s) (l_head s) (l_tail s) (l_cur s) (l_pos s) (l_length s).
Definition set_head (p : option loc) (s : linked_list) : linked_list :=
  mk_list (l_heap s) (l_fresh s) p (l_tail s) (l_cur s) (l_pos s) (l_length s).
Definition set_tail (p : option loc) (s : linked_list) : linked_list :=
  mk_list (l_heap s) (l_fresh s) (l_head s) p (l_cur s) (l_pos s) (l_length s).
Definition set_cur (p : option loc) (s : linked_list) : linked_list :=
  mk_list (l_heap s) (l_fresh s) (l_head s) (l_tail s) p (l_pos s) (l_length s).
Definition set_pos (z : Z) (s : linked_list) : linked_list :=
  mk_list (l_heap s) (l_fresh s) (l_head s) (l_tail s) (l_cur s) z (l_length s).
Definition set_length (z : Z) (s : linked_list) : linked_list :=
  mk_list (l_heap s) (l_fresh s) (l_head s) (l_tail s) (l_cur s) (l_pos s) z.

Definition eld (l : loc) : st linked_list list_entry :=
  λ s, match l_heap s !! l with Some e => Ret (e, s) | None => Fault end.
Definition eupd (l : loc) (f : list_entry → list_entry) : st linked_list unit :=
  λ s, match l_heap s !! l with
       | Some e => Ret (tt, set_lheap <[l := f e]> s)
       | None => Fault
       end.
Definition ealloc (e : list_entry) : st linked_list loc :=
  λ s, Ret (l_fresh s, mk_list (<[l_fresh s := e]> (l_heap s)) (Pos.succ (l_fresh s)) (l_head s)
                         (l_tail s) (l_cur s) (l_pos s) (l_length s)).
Definition efree (l : loc) : st linked_list unit :=
  λ s, match l_heap s !! l with
       | Some _ => Ret (tt, set_lheap (delete l) s)
       | None => Fault
       end.
Definition eptr (p : option loc) : st linked_list loc :=
  match p with Some l => mret l | None => st_fault end.
Definition eif (p : option loc) (m : loc → st linked_list unit) : st linked_list unit :=
  match p with Some l => m l | None => mret tt end.
Definition ewhen (b : bool) (m : st linked_list unit) : st linked_list unit :=
  if b then m else mret tt.
Definition modify : (linked_list → linked_list) → st linked_list unit := st_modify.

Definition set_e_list (b : bool) (e : list_entry) : list_entry :=
  mk_entry b (e_prev e) (e_next e) (e_value e) (e_tagged e).
Definition set_e_prev (p : option loc) (e : list_entry) : list_entry :=
  mk_entry (e_list e) p (e_next e) (e_value e) (e_tagged e).
Definition set_e_next (p : option loc) (e : list_entry) : list_entry :=
  mk_entry (e_list e) (e_prev e) p (e_value e) (e_tagged e).
Definition set_e_value (v : option V) (e : list_entry) : list_entry :=
  mk_entry (e_list e) (e_prev e) (e_next e) v (e_tagged e).
Definition unlink (e : list_entry) : list_entry :=
  mk_entry false None None (e_value e) (e_tagged e).

(** ** Entry-based operations *)
Definition create_entry : st linked_list loc := ealloc (mk_entry false None None None false).

Definition reset_if_empty : st linked_list unit :=
  s ← st_get;
  ewhen (bool_decide (l_length s = 0%Z)) (_ ← modify (set_tail None); modify (set_head None)).

Definition pop_entry : st linked_list (option loc) :=
  s ← st_get;
  _ ← eif (l_tail s) (λ entry,
        en ← eld entry;
        _ ← modify (set_tail (e_prev en));
        _ ← eif (e_prev en) (λ t, eupd t (set_e_next None));
        s ← st_get; _ ← modify (set_length (u64 (l_length s - 1)));
        _ ← eupd entry unlink;
        s ← st_get;
        ewhen (bool_decide (l_cur s = Some entry)) (modify (set_cur None)));
  _ ← reset_if_empty;
  mret (l_tail s).

Definition push_entry (entry : option loc) : st linked_list Z :=
  match entry with
  | None => mret (-1)%Z
  | Some entry =>
      s ← st_get;
      _ ← (if bool_decide (l_length s = 0%Z) then
             _ ← modify (set_tail (Some entry)); modify (set_head (Some entry))
           else
             p ← eptr (l_tail s);
             _ ← eupd p (set_e_next (Some entry));
             _ ← eupd entry (λ e, set_e_next None (set_e_prev (Some p) e));
             modify (set_tail (Some entry)));
      s ← st_get; _ ← modify (set_length (u64 (l_length s + 1)));
      _ ← eupd entry (set_e_list true);
      mret 0%Z
  end.

Definition shift_entry : st linked_list (option loc) :=
  s ← st_get;
  _ ← eif (l_head s) (λ entry,
        en ← eld entry;
        _ ← modify (set_head (e_next en));
        _ ← eif (e_next en) (λ h, eupd h (set_e_prev None));
        s ← st_get; _ ← modify (set_length (u64 (l_length s - 1)));
        _ ← eupd entry unlink;
        s ← st_get;
        if bool_decide (l_cur s = Some entry) then modify (set_cur None)
        else ewhen (bool_decide (l_pos s ≠ 0%Z)) (modify (set_pos (l_pos s - 1)%Z)));
  _ ← reset_if_empty;
  mret (l_head s).

Definition unshift_entry (entry : option loc) : st linked_list Z :=
  match entry with
  | None => mret (-1)%Z
  | Some entry =>
      s ← st_get;
      _ ← (if bool_decide (l_length s = 0%Z) then
             _ ← modify (set_tail (Some entry)); modify (set_head (Some entry))
           else
             p ← eptr (l_head s);
             _ ← eupd p (set_e_prev (Some entry));
             _ ← eupd entry (λ e, set_e_next (Some p) (set_e_prev None e));
             modify (set_head (Some entry)));
      s ← st_get; _ ← modify (set_length (u64 (l_length s + 1)));
      _ ← eupd entry (set_e_list true);
      s ← st_get;
      _ ← eif (l_cur s) (λ _, modify (set_pos (u64 (l_pos s + 1))));
      mret 0%Z
  end.

(** for (...) entry = entry->next, and the same with prev; [entry] may become
    null only after the last step. *)
Fixpoint follow (field : list_entry → option loc) (n : nat) (entry : option loc)
    : st linked_list (option loc) :=
  match n with
  | O => mret entry
  | S n => l ← eptr entry; e ← eld l; follow field n (field e)
  end.

Definition pick_entry (pos : Z) : st linked_list (option loc) :=
  s ← st_get;
  if bool_decide (l_length s ≤ pos)%Z then mret None
  else
    let half_length := Z.shiftr (l_length s) 1 in
    entry ←
      (if bool_decide (l_cur s ≠ None)
          && bool_decide (Z.abs (i32 (l_pos s - pos)) < half_length)%Z then
         if bool_decide (l_pos s < pos)%Z
         then follow e_next (Z.to_nat (pos - l_pos s)) (l_cur s)
         else follow e_prev (Z.to_nat (l_pos s - pos)) (l_cur s)
       else if bool_decide (half_length < pos)%Z
            then follow e_prev (Z.to_nat (l_length s - 1 - pos)) (l_tail s)
       else follow e_next (Z.to_nat pos) (l_head s));
    _ ← eif entry (λ _, _ ← modify (set_pos pos); modify (set_cur entry));
    mret entry.

Fixpoint push_empty (n : nat) : st linked_list unit :=
  match n with
  | O => mret tt
  | S n => e ← create_entry; _ ← push_entry (Some e); push_empty n
  end.

Definition insert_entry (entry : option loc) (pos : Z) : st linked_list Z :=
  s ← st_get;
  ret ← (if bool_decide (pos = 0%Z) then unshift_entry entry
         else if bool_decide (pos = l_length s) then push_entry entry
         else if bool_decide (l_length s < pos)%Z then
           _ ← push_empty (Z.to_nat (pos - l_length s)); push_entry entry
         else mret (-1)%Z);
  if bool_decide (ret = 0%Z) then mret ret
  else
    prev ← pick_entry (u64 (pos - 1));
    match prev with
    | None => mret ret
    | Some prev =>
        pn ← eld prev;
        let next := e_next pn in
        _ ← eupd prev (set_e_next entry);
        entry ← eptr entry;
        _ ← eupd entry (λ e, set_e_next next (set_e_prev (Some prev) e));
        _ ← eif next (λ n, eupd n (set_e_prev (Some entry)));
        s ← st_get; _ ← modify (set_length (u64 (l_length s + 1)));
        mret 0%Z
    end.

Definition remove_entry (pos : Z) : st linked_list (option loc) :=
  entry ← pick_entry pos;
  _ ← eif entry (λ entry,
        en ← eld entry;
        let prev := e_prev en in let next := e_next en in
        s ← st_get;
        _ ← (if bool_decide (pos = 0%Z) then modify (set_head next)
             else ewhen (bool_decide (pos = u64 (l_length s - 1))) (modify (set_tail prev)));
        _ ← eif prev (λ p, eupd p (set_e_next next));
        _ ← eif next (λ n, eupd n (set_e_prev prev));
        s ← st_get; _ ← modify (set_length (u64 (l_length s - 1)));
        _ ← eupd entry unlink;
        s ← st_get;
        if bool_decide (l_cur s = Some entry) then
          _ ← modify (set_cur None); modify (set_pos 0%Z)
        else ewhen (bool_decide (pos < l_pos s)%Z) (modify (set_pos (l_pos s - 1)%Z)));
  mret entry.

Definition fetch_entry (pos : Z) : st linked_list (option loc) :=
  s ← st_get;
  if bool_decide (pos = 0%Z) then shift_entry
  else if bool_decide (pos = u64 (l_length s - 1)) then pop_entry
  else remove_entry pos.

Definition subst_entry (pos : Z) (entry : option loc) : st linked_list (option loc) :=
  old ← fetch_entry pos;
  match old with
  | None => mret None
  | Some _ => _ ← insert_entry entry pos; mret old
  end.

(** The scan of get_entry_position over the entries after [p]. *)
Fixpoint position_from (fuel : nat) (p : option loc) (entry : loc) (i : Z) : st linked_list Z :=
  match p, fuel with
  | None, _ => mret (-1)%Z
  | Some _, O => st_fault
  | Some l, S fuel =>
      if bool_decide (l = entry) then mret i
      else e ← eld l; position_from fuel (e_next e) entry (i + 1)%Z
  end.
Definition get_entry_position (entry : loc) : st linked_list Z :=
  e ← eld entry;
  if e_list e then s ← st_get; position_from (size (l_heap s)) (l_head s) entry 0
  else mret (-1)%Z.

Definition destroy_entry (entry : loc) : st linked_list unit :=
  e ← eld entry;
  _ ← ewhen (e_list e)
        (pos ← get_entry_position entry;
         ewhen (bool_decide (pos >= 0)%Z) (_ ← remove_entry pos; mret tt));
  efree entry.

Definition move_entry (srcPos dstPos : Z) : st linked_list Z :=
  e ← fetch_entry srcPos;
  match e with
  | None => mret (-1)%Z
  | Some _ =>
      rc ← insert_entry e dstPos;
      if bool_decide (rc = 0%Z) then mret 0%Z
      else _ ← insert_entry e srcPos; mret (-1)%Z
  end.

Definition swap_entries (pos1 pos2 : Z) : st linked_list Z :=
  if bool_decide (pos1 < pos2)%Z then
    e2 ← fetch_entry pos2; _ ← insert_entry e2 pos1;
    e1 ← fetch_entry (u64 (pos1 + 1)); _ ← insert_entry e1 pos2;
    mret 0%Z
  else if bool_decide (pos2 < pos1)%Z then
    e1 ← fetch_entry pos1; _ ← insert_entry e1 pos2;
    e2 ← fetch_entry (u64 (pos2 + 1)); _ ← insert_entry e2 pos1;
    mret 0%Z
  else mret (-1)%Z.

(** ** Value-based operations *)
Definition list_count : st linked_list Z := s ← st_get; mret (l_length s).

(** The value of a detached entry, which is destroyed. *)
Definition take_value (entry : option loc) : st linked_list (option V) :=
  match entry with
  | None => mret None
  | Some e => en ← eld e; _ ← destroy_entry e; mret (e_value en)
  end.
Definition list_pop_value : st linked_list (option V) := e ← pop_entry; take_value e.
Definition list_shift_value : st linked_list (option V) := e ← shift_entry; take_value e.
Definition list_fetch_value (pos : Z) : st linked_list (option V) := e ← fetch_entry pos; take_value e.

(** A new entry handed to [link]; it is destroyed if [link] fails. *)
Definition add_value (tagged : bool) (val : option V) (link : option loc → st linked_list Z)
    : st linked_list Z :=
  new_entry ← create_entry;
  _ ← eupd new_entry (λ e, mk_entry (e_list e) (e_prev e) (e_next e) val tagged);
  res ← link (Some new_entry);
  _ ← ewhen (bool_decide (res ≠ 0%Z)) (destroy_entry new_entry);
  mret res.
Definition list_push_value (val : option V) : st linked_list Z := add_value false val push_entry.
Definition list_unshift_value (val : option V) : st linked_list Z := add_value false val unshift_entry.
Definition list_insert_value (val : option V) (pos : Z) : st linked_list Z :=
  add_value false val (λ e, insert_entry e pos).

Definition list_pick_value (pos : Z) : st linked_list (option V) :=
  entry ← pick_entry pos;
  match entry with Some e => en ← eld e; mret (e_value en) | None => mret None end.

Definition list_move_value (srcPos dstPos : Z) : st linked_list Z := move_entry srcPos dstPos.
Definition list_swap_values (pos1 pos2 : Z) : st linked_list Z := swap_entries pos1 pos2.

Definition list_subst_value (pos : Z) (newval : option V) : st linked_list (option V) :=
  entry ← pick_entry pos;
  match entry with
  | Some e => en ← eld e; _ ← eupd e (set_e_value newval); mret (e_value en)
  | None => mret None
  end.
Definition list_set_value (pos : Z) (newval : option V) : st linked_list (option V) :=
  entry ← pick_entry pos;
  match entry with
  | Some e => en ← eld e; _ ← eupd e (set_e_value newval); mret (e_value en)
  | None => _ ← list_insert_value newval pos; mret None
  end.

(** list_clear; the result are the values given to the release callbacks, in
    order, with their [tagged] flags. *)
Fixpoint clear_entries (fuel : nat) (acc : list (bool * option V)) : st linked_list (list (bool * option V)) :=
  e ← shift_entry;
  match e, fuel with
  | None, _ => mret acc
  | Some _, O => st_fault
  | Some e, S fuel =>
      en ← eld e; _ ← destroy_entry e;
      clear_entries fuel (acc ++ [(e_tagged en, e_value en)])
  end.
Definition list_clear : st linked_list (list (bool * option V)) :=
  s ← st_get; clear_entries (S (size (l_heap s))) [].

(** ** Iteration: slice_foreach_value *)
Section Foreach.
Context {D : Type} (item_handler : D → option V → Z → D * Z).

(** Unlinking the entry [d] during the iteration; [e] is its successor. *)
Definition foreach_drop (d : loc) : st linked_list unit :=
  _ ← eupd d (set_e_list false);
  s ← st_get;
  _ ← ewhen (bool_decide (l_cur s = Some d)) (modify (set_cur None));
  s ← st_get; _ ← modify (set_length (u64 (l_length s - 1)));
  destroy_entry d.
Definition foreach_unlink (d : loc) (e : option loc) : st linked_list unit :=
  s ← st_get; dn ← eld d;
  _ ← (if bool_decide (l_head s = l_tail s) && bool_decide (l_tail s = Some d) then
         _ ← modify (set_tail None); modify (set_head None)
       else if bool_decide (l_head s = Some d) then
         _ ← modify (set_head (e_next dn)); h ← eptr (e_next dn); eupd h (set_e_prev None)
       else if bool_decide (l_tail s = Some d) then
         _ ← modify (set_tail (e_prev dn)); t ← eptr (e_prev dn); eupd t (set_e_next None)
       else
         n ← eptr e; _ ← eupd n (set_e_prev (e_prev dn));
         p ← eptr (e_prev dn); eupd p (set_e_next e));
  foreach_drop d.

(** The while loop; [len] is slice->length. *)
Fixpoint foreach_loop (fuel : nat) (e : option loc) (idx len : Z) (data : D) : st linked_list (D * Z) :=
  match e with
  | None => mret (data, idx)
  | Some l =>
      if bool_decide (idx < len)%Z then
        match fuel with
        | O => st_fault
        | S fuel =>
            en ← eld l;
            let '(data, rc) := item_handler data (e_value en) idx in
            let idx := (idx + 1)%Z in
            if bool_decide (rc = 0%Z) then mret (data, idx)
            else if bool_decide (rc = (-1)%Z) || bool_decide (rc = (-2)%Z) then
              _ ← foreach_unlink l (e_next en);
              if bool_decide (rc = (-2)%Z) then mret (data, idx)
              else foreach_loop fuel (e_next en) idx (u64 (len - 1)) data
            else foreach_loop fuel (e_next en) idx len data
        end
      else mret (data, idx)
  end.
Definition slice_foreach_value (offset len : Z) (data : D) : st linked_list (D * Z) :=
  e ← pick_entry offset; s ← st_get;
  foreach_loop (S (size (l_heap s))) e 0 len data.
Definition list_foreach_value (data : D) : st linked_list (D * Z) :=
  s ← st_get; slice_foreach_value 0 (l_length s) data.
End Foreach.
End List.
Arguments list_entry : clear implicits.
Arguments linked_list : clear implicits.

(** ** Tagged values *)
Inductive tagged_value_type := TV_TYPE_STRING | TV_TYPE_BINARY | TV_TYPE_LIST.
Record tagged_value := mk_tagged {
  tag : list Z;
  tv_value : list Z;
  vlen : nat;
  tv_type : tagged_value_type
}.

(** list_create_tagged_value for non-null tag and value: [vlen] bytes are
    copied, or the C string if [vlen] is 0. *)
Definition list_create_tagged_value (tag_ val : list Z) (vlen_ : nat) : tagged_value :=
  if bool_decide (vlen_ ≠ 0)
  then mk_tagged (cstr_of tag_) (take vlen_ val) vlen_ TV_TYPE_BINARY
  else mk_tagged (cstr_of tag_) (cstr_of val) (length (cstr_of val)) TV_TYPE_STRING.

Definition list_push_tagged_value (tval : option tagged_value) : st (linked_list tagged_value) Z :=
  match tval with Some _ => add_value true tval push_entry | None => mret 0%Z end.
Definition list_unshift_tagged_value (tval : option tagged_value) : st (linked_list tagged_value) Z :=
  match tval with Some _ => add_value true tval unshift_entry | None => mret 0%Z end.
Definition list_insert_tagged_value (tval : option tagged_value) (pos : Z)
    : st (linked_list tagged_value) Z :=
  match tval with Some _ => add_value true tval (λ e, insert_entry e pos) | None => mret 0%Z end.
Definition list_pick_tagged_value (pos : Z) : st (linked_list tagged_value) (option tagged_value) :=
  list_pick_value pos.
Definition list_fetch_tagged_value (pos : Z) : st (linked_list tagged_value) (option tagged_value) :=
  list_fetch_value pos.
Definition list_pop_tagged_value : st (linked_list tagged_value) (option tagged_value) := list_pop_value.
Definition shift_tagged_value : st (linked_list tagged_value) (option tagged_value) := list_shift_value.

(** for (i = 0; i < (int)list_count(list); i++); [n] bounds the iterations. *)
Fixpoint get_tagged_loop (n : nat) (i : Z) (tag_ : list Z)
    : st (linked_list tagged_value) (option tagged_value) :=
  c ← list_count;
  if bool_decide (i < i32 c)%Z then
    match n with
    | O => st_fault
    | S n =>
        tval ← list_pick_tagged_value i;
        match tval with
        | Some tv => if bool_decide (tag tv = tag_) then mret tval else get_tagged_loop n (i + 1)%Z tag_
        | None => get_tagged_loop n (i + 1)%Z tag_
        end
    end
  else mret None.
Definition list_get_tagged_value (tag_ : list Z) : st (linked_list tagged_value) (option tagged_value) :=
  c ← list_count; get_tagged_loop (Z.to_nat c) 0 tag_.
