(* ===== verification/LinkedListRep.v ===== *)
(** * Linked list: the heap as a sequence

    [lrep s xs X] says that the heap of the list [s] holds exactly the doubly
    linked entries [xs] and the detached entries [X], and that head, tail,
    length and the cursor are consistent.  Every operation preserves it. *)
From S2P Require Import Prelude Heap LinkedList.

(** What an entry holds besides its links: list flag, value, tagged flag. *)
Record item (V : Type) := mk_item { i_list : bool; i_value : option V; i_tagged : bool }.
Arguments mk_item {V} _ _ _.
Arguments i_list {V} _.
Arguments i_value {V} _.
Arguments i_tagged {V} _.

Section Rep.
Context {V : Type}.
Notation state := (linked_list V).
Notation cell := (loc * list_entry V)%type.
Implicit Types (s : state) (xs : list (loc * item V)).

Definition ecell (p : option loc) (x : loc * item V) (n : option loc) : cell :=
  (x.1, mk_entry (i_list x.2) p n (i_value x.2) (i_tagged x.2)).
Definition first_ xs (n : option loc) : option loc :=
  match xs with x :: _ => Some x.1 | [] => n end.
Definition last_ (p : option loc) xs : option loc :=
  match last xs with Some x => Some x.1 | None => p end.
Fixpoint dseg (p : option loc) xs (n : option loc) : list cell :=
  match xs with
  | [] => []
  | x :: xs => ecell p x (first_ xs n) :: dseg (Some x.1) xs n
  end.

Lemma last_snoc_ p xs x : last_ p (xs ++ [x]) = Some x.1.
Proof. unfold last_. by rewrite last_snoc. Qed.
Lemma last_cons_ p xs x : last_ p (x :: xs) = last_ (Some x.1) xs.
Proof. unfold last_. rewrite last_cons. by destruct (last xs). Qed.
Lemma first_app xs ys n : first_ (xs ++ ys) n = first_ xs (first_ ys n).
Proof. by destruct xs. Qed.

Lemma dseg_app p xs ys n :
  dseg p (xs ++ ys) n = dseg p xs (first_ ys n) ++ dseg (last_ p xs) ys n.
Proof.
  revert p. induction xs as [|x xs IH]; intros p; simpl; [done|].
  rewrite first_app, IH. by rewrite last_cons_.
Qed.

Lemma dseg_locs p xs n : (dseg p xs n).*1 = xs.*1.
Proof. revert p. induction xs as [|x xs IH]; intros p; simpl; [done|]. by rewrite IH. Qed.
Lemma length_dseg p xs n : length (dseg p xs n) = length xs.
Proof. revert p. induction xs; intros p; simpl; congruence. Qed.

(** The state [s], field by field. *)
Record lsat s (L : list cell) (fr : loc) (hd tl cu : option loc) (po ln : Z) : Prop := {
  ls_heap : heap_is (l_heap s) L;
  ls_fresh : l_fresh s = fr;
  ls_head : l_head s = hd;
  ls_tail : l_tail s = tl;
  ls_cur : l_cur s = cu;
  ls_pos : l_pos s = po;
  ls_length : l_length s = ln
}.

Section WpRules.
Context s (L : list cell) fr hd tl cu po ln (Hs : lsat s L fr hd tl cu po ln).

Lemma lsat_perm L' : L ≡ₚ L' → lsat s L' fr hd tl cu po ln.
Proof using Hs. intros HL. destruct Hs. split; [by rewrite <-HL|done..]. Qed.

Lemma wp_eld l n R Q : L ≡ₚ (l, n) :: R → Q n s → wp (eld l) Q s.
Proof using Hs.
  intros HL HQ. destruct Hs as [Hh _ _ _ _ _ _]. rewrite HL in Hh.
  apply heap_is_cons in Hh as [Hl _]. unfold wp, eld. by rewrite Hl.
Qed.
Lemma wp_eupd l n f R Q :
  L ≡ₚ (l, n) :: R → (∀ s, lsat s ((l, f n) :: R) fr hd tl cu po ln → Q tt s) → wp (eupd l f) Q s.
Proof using Hs.
  intros HL HQ. destruct Hs as [Hh ? ? ? ? ? ?]. rewrite HL in Hh.
  apply heap_is_cons in Hh as (Hl & Hi & _). unfold wp, eupd. rewrite Hl. apply HQ.
  split; try done. apply Hi.
Qed.
Lemma wp_efree l n R Q :
  L ≡ₚ (l, n) :: R → (∀ s, lsat s R fr hd tl cu po ln → Q tt s) → wp (efree l) Q s.
Proof using Hs.
  intros HL HQ. destruct Hs as [Hh ? ? ? ? ? ?]. rewrite HL in Hh.
  apply heap_is_cons in Hh as (Hl & _ & Hd). unfold wp, efree. rewrite Hl. apply HQ. split; done.
Qed.
Lemma wp_ealloc e Q :
  Forall (λ l, (l < fr)%positive) L.*1 →
  (∀ s, lsat s ((fr, e) :: L) (Pos.succ fr) hd tl cu po ln → Q fr s) → wp (ealloc e) Q s.
Proof using Hs.
  intros Hlt HQ. destruct Hs as [[Hnd Hh] Hn ? ? ? ? ?]. unfold wp, ealloc. rewrite Hn.
  apply HQ. split; try done. simpl. split; simpl; [|by rewrite Hh].
  constructor; [|done]. intros Hin. rewrite Forall_forall in Hlt. apply Hlt in Hin. lia.
Qed.
Lemma wp_set_head p (Q : unit → state → Prop) :
  (∀ s, lsat s L fr p tl cu po ln → Q tt s) → wp (modify (set_head p)) Q s.
Proof using Hs. intros HQ. apply HQ. destruct Hs. by split. Qed.
Lemma wp_set_tail p (Q : unit → state → Prop) :
  (∀ s, lsat s L fr hd p cu po ln → Q tt s) → wp (modify (set_tail p)) Q s.
Proof using Hs. intros HQ. apply HQ. destruct Hs. by split. Qed.
Lemma wp_set_cur p (Q : unit → state → Prop) :
  (∀ s, lsat s L fr hd tl p po ln → Q tt s) → wp (modify (set_cur p)) Q s.
Proof using Hs. intros HQ. apply HQ. destruct Hs. by split. Qed.
Lemma wp_set_pos z (Q : unit → state → Prop) :
  (∀ s, lsat s L fr hd tl cu z ln → Q tt s) → wp (modify (set_pos z)) Q s.
Proof using Hs. intros HQ. apply HQ. destruct Hs. by split. Qed.
Lemma wp_set_length z (Q : unit → state → Prop) :
  (∀ s, lsat s L fr hd tl cu po z → Q tt s) → wp (modify (set_length z)) Q s.
Proof using Hs. intros HQ. apply HQ. destruct Hs. by split. Qed.
End WpRules.
End Rep.

(** One step of symbolic execution. *)
Ltac lstep :=
  lazymatch goal with
  | |- wp (mbind _ _) _ _ => apply wp_bind
  | |- wp (mret _) _ _ => apply wp_ret
  | Hs : lsat ?s _ _ _ _ _ _ _ |- wp st_get _ ?s =>
      apply wp_get;
      rewrite ?(ls_head _ _ _ _ _ _ _ _ Hs), ?(ls_tail _ _ _ _ _ _ _ _ Hs),
        ?(ls_cur _ _ _ _ _ _ _ _ Hs), ?(ls_pos _ _ _ _ _ _ _ _ Hs),
        ?(ls_length _ _ _ _ _ _ _ _ Hs)
  | |- wp (eif None _) _ _ => cbn [eif]
  | |- wp (eif (Some _) _) _ _ => cbn [eif]
  | |- wp (eptr (Some _)) _ _ => cbn [eptr]
  | Hs : lsat ?s _ _ _ _ _ _ _ |- wp (eld _) _ ?s => eapply wp_eld; [exact Hs | perm_front |]
  | Hs : lsat ?s _ _ _ _ _ _ _ |- wp (eupd _ _) _ ?s =>
      eapply wp_eupd; [exact Hs | perm_front |]; clear Hs; clear s; intros s Hs
  | Hs : lsat ?s _ _ _ _ _ _ _ |- wp (efree _) _ ?s =>
      eapply wp_efree; [exact Hs | perm_front |]; clear Hs; clear s; intros s Hs
  | Hs : lsat ?s _ _ _ _ _ _ _ |- wp (modify (set_head _)) _ ?s =>
      eapply wp_set_head; [exact Hs |]; clear Hs; clear s; intros s Hs
  | Hs : lsat ?s _ _ _ _ _ _ _ |- wp (modify (set_tail _)) _ ?s =>
      eapply wp_set_tail; [exact Hs |]; clear Hs; clear s; intros s Hs
  | Hs : lsat ?s _ _ _ _ _ _ _ |- wp (modify (set_cur _)) _ ?s =>
      eapply wp_set_cur; [exact Hs |]; clear Hs; clear s; intros s Hs
  | Hs : lsat ?s _ _ _ _ _ _ _ |- wp (modify (set_pos _)) _ ?s =>
      eapply wp_set_pos; [exact Hs |]; clear Hs; clear s; intros s Hs
  | Hs : lsat ?s _ _ _ _ _ _ _ |- wp (modify (set_length _)) _ ?s =>
      eapply wp_set_length; [exact Hs |]; clear Hs; clear s; intros s Hs
  end; cbn [e_list e_prev e_next e_value e_tagged ecell fst snd app eif] in *.
Ltac lsteps := repeat lstep.

Section Ops.
Context {V : Type}.
Notation state := (linked_list V).
Implicit Types (s : state) (xs : list (loc * item V)).

(** Largest number of entries considered: positions fit an [int]. *)
Definition MAX_LEN : Z := 2 ^ 31 - 1.

(** The cursor, if set, is at the position it claims. *)
Definition cursor_ok xs (cu : option loc) (po : Z) : Prop :=
  (0 ≤ po < 2 ^ 64)%Z ∧ ∀ l, cu = Some l → xs.*1 !! Z.to_nat po = Some l ∧ (po < Z.of_nat (length xs))%Z.

Record lrep s xs (X : list (loc * list_entry V)) : Prop := {
  lr_sat : lsat s (dseg None xs None ++ X) (l_fresh s) (first_ xs None) (last_ None xs)
             (l_cur s) (l_pos s) (Z.of_nat (length xs));
  lr_cur : cursor_ok xs (l_cur s) (l_pos s);
  lr_fresh : Forall (λ l, (l < l_fresh s)%positive) (xs.*1 ++ X.*1);
  lr_max : (Z.of_nat (length xs) ≤ MAX_LEN)%Z
}.

Lemma lrep_intro s xs X L fr hd tl cu po ln :
  lsat s L fr hd tl cu po ln → L ≡ₚ dseg None xs None ++ X →
  hd = first_ xs None → tl = last_ None xs → ln = Z.of_nat (length xs) → cursor_ok xs cu po →
  Forall (λ l, (l < fr)%positive) (xs.*1 ++ X.*1) → (Z.of_nat (length xs) ≤ MAX_LEN)%Z →
  lrep s xs X.
Proof.
  intros Hs HL -> -> -> Hc Hf Hm. destruct (Hs) as [? ? ? ? Hcu Hpo ?]. split.
  - destruct Hs. split; try done. by rewrite <-HL.
  - by rewrite Hcu, Hpo.
  - by rewrite ls_fresh0.
  - done.
Qed.

Lemma lrep_elim s xs X :
  lrep s xs X → ∃ fr cu po,
    lsat s (dseg None xs None ++ X) fr (first_ xs None) (last_ None xs) cu po (Z.of_nat (length xs))
    ∧ cursor_ok xs cu po ∧ Forall (λ l, (l < fr)%positive) (xs.*1 ++ X.*1)
    ∧ (Z.of_nat (length xs) ≤ MAX_LEN)%Z.
Proof. intros [Hs Hc Hf Hm]. by exists (l_fresh s), (l_cur s), (l_pos s). Qed.

Lemma lrep_length s xs X : lrep s xs X → l_length s = Z.of_nat (length xs).
Proof. intros [Hs _ _ _]. apply (ls_length _ _ _ _ _ _ _ _ Hs). Qed.

Lemma lrep_NoDup s xs X : lrep s xs X → NoDup (xs.*1 ++ X.*1).
Proof.
  intros [Hs _ _ _]. destruct (ls_heap _ _ _ _ _ _ _ _ Hs) as [Hnd _].
  by rewrite fmap_app, dseg_locs in Hnd.
Qed.

(** The entry at position [i]. *)
Lemma lrep_lookup s xs X i x :
  lrep s xs X → xs !! i = Some x →
  l_heap s !! x.1 = Some (mk_entry (i_list x.2) (match i with O => None | S j => xs.*1 !! j end)
                       (xs.*1 !! S i) (i_value x.2) (i_tagged x.2)).
Proof.
  intros [Hs _ _ _] Hx. pose proof (ls_heap _ _ _ _ _ _ _ _ Hs) as Hh.
  rewrite <-(take_drop_middle xs i x Hx) in Hh at 1. rewrite dseg_app in Hh. simpl in Hh.
  rewrite <-app_assoc in Hh. simpl in Hh. rewrite <-Permutation_middle in Hh.
  apply heap_is_cons in Hh as [-> _]. unfold ecell. simpl. f_equal. f_equal.
  - unfold last_. destruct i as [|j]; [done|].
    destruct (lookup_lt_is_Some_2 xs j) as [y Hy].
    { apply lookup_lt_Some in Hx. lia. }
    rewrite (take_S_r _ _ _ Hy), last_snoc, list_lookup_fmap, Hy. done.
  - rewrite list_lookup_fmap. destruct (drop (S i) xs) as [|y ys] eqn:Hd; simpl.
    + assert (length xs ≤ S i) by (apply (f_equal length) in Hd; rewrite length_drop in Hd; simpl in Hd; lia).
      by rewrite (lookup_ge_None_2 xs) by done.
    + assert (xs !! S i = Some y) as ->; [|done].
      replace (S i) with (S i + 0) by lia. rewrite <-lookup_drop, Hd. done.
Qed.

Lemma follow_next_ok s xs X n i l :
  lrep s xs X → xs.*1 !! i = Some l → i + n < length xs →
  follow e_next n (Some l) s = Ret (xs.*1 !! (i + n), s).
Proof.
  intros Hr. revert i l. induction n as [|n IH]; intros i l Hl Hn; cbn [follow].
  { rewrite Nat.add_0_r, Hl. done. }
  rewrite list_lookup_fmap_Some in Hl. destruct Hl as (x & -> & Hx).
  cbn [eptr mbind st_bind mret st_ret]. unfold mbind, st_bind, mret, st_ret, eld.
  rewrite (lrep_lookup s xs X i x Hr Hx). cbn [e_next].
  destruct (lookup_lt_is_Some_2 xs (S i)) as [y Hy]; [lia|].
  rewrite (list_lookup_fmap _ _ (S i)), Hy. cbn.
  rewrite (IH (S i) y.1); [|by rewrite list_lookup_fmap, Hy|lia]. do 3 f_equal. lia.
Qed.

Lemma follow_prev_ok s xs X n i l :
  lrep s xs X → xs.*1 !! i = Some l → n ≤ i →
  follow e_prev n (Some l) s = Ret (xs.*1 !! (i - n), s).
Proof.
  intros Hr. revert i l. induction n as [|n IH]; intros i l Hl Hn; cbn [follow].
  { rewrite Nat.sub_0_r, Hl. done. }
  rewrite list_lookup_fmap_Some in Hl. destruct Hl as (x & -> & Hx).
  cbn [eptr mbind st_bind mret st_ret]. unfold mbind, st_bind, mret, st_ret, eld.
  rewrite (lrep_lookup s xs X i x Hr Hx). cbn [e_prev].
  destruct i as [|i]; [lia|].
  destruct (lookup_lt_is_Some_2 xs i) as [y Hy]; [apply lookup_lt_Some in Hx; lia|].
  rewrite (list_lookup_fmap _ _ i), Hy. cbn.
  rewrite (IH i y.1); [done|by rewrite list_lookup_fmap, Hy|lia].
Qed.

Lemma last_lookup_ xs : xs ≠ [] → last_ None xs = xs.*1 !! (length xs - 1).
Proof.
  intros Hne. unfold last_. rewrite last_lookup, list_lookup_fmap.
  replace (pred (length xs)) with (length xs - 1) by lia. by destruct (xs !! _).
Qed.
Lemma first_lookup_ xs : first_ xs None = xs.*1 !! 0.
Proof. by destruct xs. Qed.

Lemma lrep_set_cursor s xs X l i :
  lrep s xs X → xs.*1 !! i = Some l → lrep (set_cur (Some l) (set_pos (Z.of_nat i) s)) xs X.
Proof.
  intros [Hs Hc Hf Hm] Hl. pose proof (lookup_lt_Some _ _ _ Hl) as Hlt. rewrite length_fmap in Hlt.
  destruct Hs as [Hh ? ? ? ? ? ?]. split; try done.
  unfold MAX_LEN in Hm. split; [simpl; lia|]. simpl. intros l' [= <-]. rewrite Nat2Z.id. split; [done|lia].
Qed.

Lemma pick_ok s xs X i (Q : option loc → state → Prop) :
  lrep s xs X →
  (∀ s', lrep s' xs X → (∀ l, xs.*1 !! i = Some l → l_cur s' = Some l ∧ l_pos s' = Z.of_nat i) →
         Q (xs.*1 !! i) s') →
  wp (pick_entry (Z.of_nat i)) Q s.
Proof.
  intros Hr HQ. destruct (Hr) as [Hs [Hp Hc] Hf Hm]. unfold pick_entry. apply wp_bind, wp_get.
  rewrite (lrep_length _ _ _ Hr). case_bool_decide as Hge.
  { assert (xs.*1 !! i = None) as Hn by (apply lookup_ge_None; rewrite length_fmap; lia).
    apply wp_ret. rewrite <-Hn. apply HQ; [done|]. rewrite Hn. done. }
  destruct (lookup_lt_is_Some_2 xs i) as [x Hx]; [lia|].
  assert (xs ≠ []) as Hne by (intros ->; simpl in *; lia).
  assert (xs.*1 !! i = Some x.1) as Hl by (by rewrite list_lookup_fmap, Hx).
  apply wp_bind. eapply (wp_Ret _ _ _ (Some x.1) s).
  - rewrite <-Hl. case_match eqn:Hcond.
    + apply andb_true_iff in Hcond as [Hcur%bool_decide_eq_true _].
      destruct (l_cur s) as [l|] eqn:Hcu; [|done]. destruct (Hc l eq_refl) as [Hli Hlt].
      case_bool_decide.
      * rewrite (follow_next_ok s xs X _ (Z.to_nat (l_pos s)) l); [|done|done|lia]. do 3 f_equal. lia.
      * rewrite (follow_prev_ok s xs X _ (Z.to_nat (l_pos s)) l); [|done|done|lia]. do 3 f_equal. lia.
    + clear Hcond. case_bool_decide.
      * rewrite (ls_tail _ _ _ _ _ _ _ _ Hs), last_lookup_ by done.
        destruct (lookup_lt_is_Some_2 xs (length xs - 1)) as [y Hy]; [lia|].
        rewrite (list_lookup_fmap _ _ (length xs - 1)), Hy. change (fst <$> Some y) with (Some y.1).
        rewrite (follow_prev_ok s xs X _ (length xs - 1) y.1);
          [|done|by rewrite list_lookup_fmap, Hy|lia]. do 3 f_equal. lia.
      * rewrite (ls_head _ _ _ _ _ _ _ _ Hs), first_lookup_.
        destruct (lookup_lt_is_Some_2 xs 0) as [y Hy]; [lia|].
        rewrite (list_lookup_fmap _ _ 0), Hy. change (fst <$> Some y) with (Some y.1).
        rewrite (follow_next_ok s xs X _ 0 y.1); [|done|by rewrite list_lookup_fmap, Hy|lia].
        do 3 f_equal. lia.
  - cbn [eif]. apply wp_bind, wp_bind, wp_modify, wp_modify, wp_ret.
    pose proof (lrep_set_cursor s xs X x.1 i Hr Hl) as Hr'. rewrite <-Hl at 1.
    apply HQ; [done|]. intros l. rewrite Hl. by intros [= <-].
Qed.

(** Cursor facts under changes of the sequence. *)
Lemma cursor_none xs po : (0 ≤ po < 2 ^ 64)%Z → cursor_ok xs None po.
Proof. by split. Qed.
Lemma cursor_app xs ys cu po : cursor_ok xs cu po → cursor_ok (xs ++ ys) cu po.
Proof.
  intros [Hp Hc]. split; [done|]. intros l Hl. apply Hc in Hl as [Hl Hlt]. rewrite fmap_app, length_app.
  split; [by apply lookup_app_l_Some|lia].
Qed.
Lemma cursor_cons xs x cu po :
  (Z.of_nat (length xs) ≤ MAX_LEN)%Z → cursor_ok xs cu po → cursor_ok (x :: xs) cu
    (match cu with Some _ => u64 (po + 1) | None => po end).
Proof.
  unfold MAX_LEN. intros Hm [Hp Hc]. destruct cu as [l|]; [|by apply cursor_none].
  destruct (Hc l eq_refl) as [Hl Hlt]. rewrite u64_id by (unfold in_u64; lia).
  split; [lia|]. intros l' [= <-]. replace (Z.to_nat (po + 1)) with (S (Z.to_nat po)) by lia.
  simpl. split; [done|lia].
Qed.
Lemma u64_len n : (Z.of_nat n ≤ MAX_LEN)%Z → u64 (Z.of_nat n + 1) = Z.of_nat (n + 1).
Proof. unfold MAX_LEN. intros. rewrite u64_id; [lia|]. unfold in_u64. lia. Qed.
Lemma u64_len_pred n : (Z.of_nat (S n) ≤ MAX_LEN)%Z → u64 (Z.of_nat (S n) - 1) = Z.of_nat n.
Proof. unfold MAX_LEN. intros. rewrite u64_id; [lia|]. unfold in_u64. lia. Qed.

(** ** Linking an entry at either end *)
Definition detached (l : loc) (v : option V) (tg : bool) : loc * list_entry V :=
  (l, mk_entry false None None v tg).

End Ops.

Ltac lopen Hr := apply lrep_elim in Hr as (fr & cu & po & Hs & Hc & Hf & Hm).

(** Rebuild the representation from the cells at hand. *)
Ltac lclose HQ := apply HQ; eapply lrep_intro;
  [eassumption | perm | try done | try done | try done | try done | try done | try done].

Section Links.
Context {V : Type}.
Notation state := (linked_list V).
Implicit Types (s : state) (xs : list (loc * item V)).

Lemma push_ok s xs X l v tg (Q : Z → state → Prop) :
  lrep s xs (detached l v tg :: X) → (Z.of_nat (length xs) < MAX_LEN)%Z →
  (∀ s', lrep s' (xs ++ [(l, mk_item true v tg)]) X → Q 0%Z s') →
  wp (push_entry (Some l)) Q s.
Proof.
  intros Hr Hlt HQ. lopen Hr. cbn [push_entry].
  assert (Forall (λ l, (l < fr)%positive) ((xs ++ [(l, mk_item true v tg)]).*1 ++ X.*1)) as Hf'
    by (by rewrite fmap_app, <-app_assoc).
  assert (Z.of_nat (length (xs ++ [(l, mk_item true v tg)])) = u64 (Z.of_nat (length xs) + 1)
    ∧ (Z.of_nat (length (xs ++ [(l, mk_item true v tg)])) ≤ MAX_LEN)%Z) as [Hlen Hmax].
  { rewrite u64_len, length_app by done. simpl. lia. }
  pose proof (cursor_app xs [(l, mk_item true v tg)] cu po Hc) as Hc'.
  unfold detached in Hs. destruct xs as [|x xs _] using rev_ind.
  - simpl in Hs. lsteps. simpl. lsteps. lclose HQ.
  - rewrite dseg_app in Hs. rewrite last_snoc_ in Hs. simpl in Hs. unfold ecell in Hs. lsteps.
    rewrite bool_decide_eq_false_2 by (rewrite length_app; simpl; lia). lsteps.
    apply HQ. eapply lrep_intro; [exact Hs| |by rewrite first_app; destruct xs| | |done|done|done].
    + rewrite !dseg_app, last_snoc_. simpl. perm.
    + by rewrite last_snoc_.
    + done.
Qed.

Lemma fresh_perm (fr : loc) (L L' : list loc) :
  Forall (λ l, (l < fr)%positive) L → L ≡ₚ L' → Forall (λ l, (l < fr)%positive) L'.
Proof. intros H HL. by rewrite <-HL. Qed.

Lemma unshift_ok s xs X l v tg (Q : Z → state → Prop) :
  lrep s xs (detached l v tg :: X) → (Z.of_nat (length xs) < MAX_LEN)%Z →
  (∀ s', lrep s' ((l, mk_item true v tg) :: xs) X → Q 0%Z s') →
  wp (unshift_entry (Some l)) Q s.
Proof.
  intros Hr Hlt HQ. lopen Hr. cbn [unshift_entry].
  assert (Forall (λ l, (l < fr)%positive) (((l, mk_item true v tg) :: xs).*1 ++ X.*1)) as Hf'.
  { eapply fresh_perm; [exact Hf|]. simpl. by rewrite Permutation_middle. }
  assert (Z.of_nat (length ((l, mk_item true v tg) :: xs)) = u64 (Z.of_nat (length xs) + 1)
    ∧ (Z.of_nat (length ((l, mk_item true v tg) :: xs)) ≤ MAX_LEN)%Z) as [Hlen Hmax].
  { rewrite u64_len by done. simpl. lia. }
  pose proof (cursor_cons xs (l, mk_item true v tg) cu po Hm Hc) as Hc'.
  unfold detached in Hs. destruct xs as [|x xs].
  - simpl in Hs. lsteps. simpl. lsteps. destruct cu; lsteps; lclose HQ.
  - simpl in Hs. unfold ecell in Hs. lsteps.
    rewrite bool_decide_eq_false_2 by (simpl; lia). lsteps.
    rewrite last_cons_ in Hs.
    destruct cu; lsteps; (apply HQ; eapply lrep_intro;
      [exact Hs| |done|by rewrite !last_cons_|done|done|done|done]; simpl; unfold ecell; perm).
Qed.

Lemma cursor_init xs x cu po :
  cursor_ok (xs ++ [x]) cu po → cu ≠ Some x.1 → cursor_ok xs cu po.
Proof.
  intros [Hp Hc] Hne. split; [done|]. intros l ->. destruct (Hc l eq_refl) as [Hl Hlt].
  rewrite fmap_app in Hl. rewrite length_app in Hlt. simpl in Hl, Hlt.
  apply lookup_app_Some in Hl as [Hl|[Hge Hl]].
  - split; [done|]. apply lookup_lt_Some in Hl. rewrite length_fmap in Hl. lia.
  - rewrite length_fmap in Hge, Hl. replace (Z.to_nat po - length xs) with 0 in Hl by lia.
    simpl in Hl. congruence.
Qed.

Lemma cursor_tail xs x cu po :
  cursor_ok (x :: xs) cu po → cu ≠ Some x.1 →
  cursor_ok xs cu (if bool_decide (po ≠ 0%Z) then po - 1 else po)%Z.
Proof.
  intros [Hp Hc] Hne. split; [case_bool_decide; lia|]. intros l ->.
  destruct (Hc l eq_refl) as [Hl Hlt]. simpl in Hlt.
  destruct (Z.to_nat po) as [|i] eqn:Hi; simpl in Hl; [congruence|].
  rewrite bool_decide_eq_true_2 by lia. replace (Z.to_nat (po - 1)) with i by lia.
  split; [done|lia].
Qed.

Lemma pop_ok s xs x X (Q : option loc → state → Prop) :
  lrep s (xs ++ [x]) X →
  (∀ s', lrep s' xs (detached x.1 (i_value x.2) (i_tagged x.2) :: X) → Q (Some x.1) s') →
  wp pop_entry Q s.
Proof.
  intros Hr HQ. lopen Hr. unfold pop_entry.
  rewrite dseg_app, last_snoc_, first_app in Hs. simpl in Hs. unfold ecell in Hs.
  rewrite length_app, Nat.add_1_r in Hs, Hm. rewrite fmap_app, <-app_assoc in Hf.
  assert (Hclose : ∀ s cu' hd tl,
    lsat s ((x.1, unlink (mk_entry (i_list x.2) (last_ None xs) None (i_value x.2) (i_tagged x.2)))
             :: dseg None xs None ++ X)
      fr hd tl cu' po (Z.of_nat (length xs)) →
    hd = first_ xs None → tl = last_ None xs → cursor_ok xs cu' po → Q (Some x.1) s).
  { intros s0 cu' hd tl Hs0 Hhd Htl Hc0. apply HQ.
    eapply lrep_intro; [exact Hs0|unfold detached, unlink; simpl; perm|done|done|done|done|done|lia]. }
  assert (Hcur : ∀ s hd tl,
    lsat s ((x.1, unlink (mk_entry (i_list x.2) (last_ None xs) None (i_value x.2) (i_tagged x.2)))
             :: dseg None xs None ++ X) fr hd tl cu po (Z.of_nat (length xs)) →
    (xs ≠ [] → hd = first_ xs None ∧ tl = last_ None xs) →
    wp (ewhen (bool_decide (cu = Some x.1)) (modify (set_cur None)))
      (λ _, wp (_ ← reset_if_empty; mret (Some x.1)) Q) s).
  { clear Hs. clear s. intros s hd tl Hs Hends. unfold ewhen.
    assert (∀ s cu', lsat s ((x.1, unlink (mk_entry (i_list x.2) (last_ None xs) None (i_value x.2)
         (i_tagged x.2))) :: dseg None xs None ++ X) fr hd tl cu' po (Z.of_nat (length xs)) →
      cursor_ok xs cu' po → wp reset_if_empty (λ _, wp (mret (Some x.1)) Q) s) as Hend.
    { clear Hs. clear s. intros s cu' Hs Hc'. unfold reset_if_empty, ewhen. lsteps. case_bool_decide.
      - lsteps. destruct xs; [|simpl in *; lia]. by eapply Hclose.
      - lsteps. destruct Hends as [-> ->]; [by intros ->|]. by eapply Hclose. }
    case_bool_decide.
    - lsteps. eapply Hend; [exact Hs|]. apply cursor_none. apply Hc.
    - lsteps. eapply Hend; [exact Hs|]. by eapply cursor_init. }
  destruct xs as [|y ys _] using rev_ind.
  - simpl in Hs. change (@last_ V None []) with (@None loc) in Hs. lsteps.
    eapply Hcur; [exact Hs|done].
  - rewrite last_snoc_, dseg_app in Hs. simpl in Hs. unfold ecell in Hs. lsteps.
    rewrite u64_len_pred in Hs by done. eapply (Hcur _ _ _).
    + eapply lsat_perm; [exact Hs|]. rewrite dseg_app, last_snoc_. simpl. unfold ecell. perm.
    + intros _. rewrite last_snoc_. split; [|done]. by destruct ys.
Qed.

Lemma shift_ok s xs x X (Q : option loc → state → Prop) :
  lrep s (x :: xs) X →
  (∀ s', lrep s' xs (detached x.1 (i_value x.2) (i_tagged x.2) :: X) → Q (Some x.1) s') →
  wp shift_entry Q s.
Proof.
  intros Hr HQ. lopen Hr. unfold shift_entry. simpl in Hs. unfold ecell in Hs.
  rewrite last_cons_ in Hs. simpl in Hm, Hf.
  set (u := unlink (mk_entry (i_list x.2) None (first_ xs None) (i_value x.2) (i_tagged x.2))) in *.
  assert (Hend : ∀ s cu' po' hd tl,
    lsat s ((x.1, u) :: dseg None xs None ++ X) fr hd tl cu' po' (Z.of_nat (length xs)) →
    (xs ≠ [] → hd = first_ xs None ∧ tl = last_ None xs) → cursor_ok xs cu' po' →
    wp reset_if_empty (λ _, wp (mret (Some x.1)) Q) s).
  { clear Hs. clear s. intros s cu' po' hd tl Hs Hends Hc'. unfold reset_if_empty, ewhen.
    assert (Hclose : ∀ s hd tl,
      lsat s ((x.1, u) :: dseg None xs None ++ X) fr hd tl cu' po' (Z.of_nat (length xs)) →
      hd = first_ xs None → tl = last_ None xs → Q (Some x.1) s).
    { clear Hs. clear s. intros s hd' tl' Hs Hhd Htl. apply HQ.
      eapply lrep_intro; [exact Hs|unfold detached, u, unlink; simpl; perm|done|done|done|done| |lia].
      eapply fresh_perm; [exact Hf|]. simpl. by rewrite Permutation_middle. }
    lsteps. case_bool_decide.
    - lsteps. destruct xs; [|simpl in *; lia]. by eapply Hclose.
    - lsteps. destruct Hends as [-> ->]; [by intros ->|]. by eapply Hclose. }
  assert (Hcur : ∀ s hd tl,
    lsat s ((x.1, u) :: dseg None xs None ++ X) fr hd tl cu po (Z.of_nat (length xs)) →
    (xs ≠ [] → hd = first_ xs None ∧ tl = last_ None xs) →
    wp (if bool_decide (cu = Some x.1) then modify (set_cur None)
        else ewhen (bool_decide (po ≠ 0%Z)) (modify (set_pos (po - 1)%Z)))
      (λ _, wp (_ ← reset_if_empty; mret (Some x.1)) Q) s).
  { clear Hs. clear s. intros s hd tl Hs Hends. case_bool_decide as Hcu.
    - lsteps. eapply Hend; [exact Hs|done|]. apply cursor_none. apply Hc.
    - pose proof (cursor_tail _ _ _ _ Hc Hcu) as Hc'. unfold ewhen.
      destruct (bool_decide (po ≠ 0%Z)); lsteps; (eapply Hend; [exact Hs|done|done]). }
  destruct xs as [|y ys].
  - simpl in Hs. lsteps. eapply Hcur; [exact Hs|done].
  - simpl in Hs. unfold ecell in Hs. lsteps.
    rewrite u64_len_pred in Hs by done. eapply Hcur.
    + eapply lsat_perm; [exact Hs|]. simpl. unfold ecell. perm.
    + intros _. split; [done|]. by rewrite !last_cons_.
Qed.

Lemma destroy_ok s xs l v tg X (Q : unit → state → Prop) :
  lrep s xs (detached l v tg :: X) → (∀ s', lrep s' xs X → Q tt s') → wp (destroy_entry l) Q s.
Proof.
  intros Hr HQ. lopen Hr. unfold destroy_entry, detached in *. lsteps. cbn [ewhen]. lsteps.
  apply HQ. eapply lrep_intro; [exact Hs|done|done|done|done|done| |done].
  apply Forall_app in Hf as [? [_ ?]%Forall_cons]. by apply Forall_app.
Qed.

(** ** Linking and unlinking in the middle *)
Lemma insert_mid_ok s xs y z zs X l v tg (Q : Z → state → Prop) :
  lrep s (xs ++ y :: z :: zs) (detached l v tg :: X) →
  (Z.of_nat (length (xs ++ y :: z :: zs)) < MAX_LEN)%Z →
  (∀ s', lrep s' (xs ++ y :: (l, mk_item false v tg) :: z :: zs) X → Q 0%Z s') →
  wp (insert_entry (Some l) (Z.of_nat (S (length xs)))) Q s.
Proof.
  intros Hr Hlt HQ. unfold insert_entry. apply wp_bind, wp_get. rewrite (lrep_length _ _ _ Hr).
  rewrite length_app in *. simpl in Hlt.
  rewrite !bool_decide_eq_false_2 by (simpl; lia). apply wp_bind, wp_ret.
  rewrite bool_decide_eq_false_2 by lia. apply wp_bind.
  replace (u64 (Z.of_nat (S (length xs)) - 1)) with (Z.of_nat (length xs))
    by (rewrite u64_len_pred by (unfold MAX_LEN in *; lia); done).
  eapply pick_ok; [exact Hr|]. clear Hr. clear s. intros s Hr Hcur.
  assert ((xs ++ y :: z :: zs).*1 !! length xs = Some y.1) as Hy.
  { rewrite list_lookup_fmap, lookup_app_r, Nat.sub_diag by lia. done. }
  destruct (Hcur _ Hy) as [Hcu Hpo]. rewrite Hy. lopen Hr.
  assert (cu = Some y.1 ∧ po = Z.of_nat (length xs)) as [-> ->].
  { rewrite <-(ls_cur _ _ _ _ _ _ _ _ Hs), <-(ls_pos _ _ _ _ _ _ _ _ Hs). done. }
  clear Hcur Hcu Hpo. rewrite dseg_app in Hs. simpl in Hs. unfold ecell, detached in Hs. lsteps.
  apply HQ. eapply lrep_intro; [exact Hs| | | | | | |].
  - rewrite dseg_app. simpl. unfold ecell. perm.
  - by rewrite !first_app.
  - unfold last_. rewrite !last_app. simpl. done.
  - rewrite u64_len by (rewrite length_app; simpl; lia). rewrite !length_app. simpl. lia.
  - split; [unfold MAX_LEN in *; lia|]. intros l' [= <-]. rewrite Nat2Z.id. split.
    + by rewrite list_lookup_fmap, lookup_app_r, Nat.sub_diag by lia.
    + rewrite length_app. simpl. lia.
  - eapply fresh_perm; [exact Hf|]. rewrite !fmap_app, !fmap_cons. unfold detached. cbn [fst]. perm.
  - rewrite length_app in *. simpl in *. lia.
Qed.

Lemma remove_mid_ok s xs y x z zs X (Q : option loc → state → Prop) :
  lrep s (xs ++ y :: x :: z :: zs) X →
  (∀ s', lrep s' (xs ++ y :: z :: zs) (detached x.1 (i_value x.2) (i_tagged x.2) :: X) →
         Q (Some x.1) s') →
  wp (remove_entry (Z.of_nat (S (length xs)))) Q s.
Proof.
  intros Hr HQ. unfold remove_entry. apply wp_bind. eapply pick_ok; [exact Hr|].
  clear Hr. clear s. intros s Hr Hcur.
  assert ((xs ++ y :: x :: z :: zs).*1 !! S (length xs) = Some x.1) as Hx.
  { rewrite list_lookup_fmap, lookup_app_r by lia.
    by replace (S (length xs) - length xs) with 1 by lia. }
  destruct (Hcur _ Hx) as [Hcu Hpo]. rewrite Hx. lopen Hr.
  assert (cu = Some x.1 ∧ po = Z.of_nat (S (length xs))) as [-> ->].
  { rewrite <-(ls_cur _ _ _ _ _ _ _ _ Hs), <-(ls_pos _ _ _ _ _ _ _ _ Hs). done. }
  clear Hcur Hcu Hpo Hx. rewrite dseg_app in Hs. simpl in Hs. unfold ecell in Hs.
  rewrite length_app in Hs, Hm. simpl in Hm.
  replace (length xs + length (y :: x :: z :: zs)) with (S (S (S (length xs + length zs)))) in Hs
    by (simpl; lia).
  lsteps. rewrite bool_decide_eq_false_2 by lia. rewrite u64_len_pred by lia. unfold ewhen.
  rewrite bool_decide_eq_false_2 by lia. lsteps. rewrite bool_decide_eq_true_2 by done. lsteps.
  rewrite u64_len_pred in Hs by lia.
  apply HQ. eapply lrep_intro; [exact Hs| | | | | | |].
  - rewrite dseg_app. simpl. unfold ecell, detached, unlink. simpl. perm.
  - by rewrite !first_app.
  - unfold last_. rewrite !last_app. simpl. done.
  - rewrite length_app. simpl. lia.
  - by apply cursor_none.
  - eapply fresh_perm; [exact Hf|]. rewrite !fmap_app, !fmap_cons. unfold detached. cbn [fst]. perm.
  - rewrite length_app. simpl. lia.
Qed.
End Links.
