(* ===== verification/LinkedListSpec.v ===== *)
(** * Linked list: the operations against sequences of values

    [list_is s vs] says that the list [s] holds the values [vs] in order.
    Each operation of the value-based interface implements the corresponding
    operation on sequences, whatever the cursor was. *)
From S2P Require Import Prelude Heap LinkedList LinkedListRep.

Section Spec.
Context {V : Type}.
Notation state := (linked_list V).
Implicit Types (s : state) (xs : list (loc * item V)) (vs : list (option V)).

Definition values xs : list (option V) := (λ x, i_value x.2) <$> xs.
Definition list_is s vs : Prop := ∃ xs, lrep s xs [] ∧ values xs = vs.

Lemma length_values xs : length (values xs) = length xs.
Proof. apply length_fmap. Qed.
Lemma values_app xs ys : values (xs ++ ys) = values xs ++ values ys.
Proof. apply fmap_app. Qed.
Lemma values_cons x xs : values (x :: xs) = i_value x.2 :: values xs.
Proof. done. Qed.
Lemma values_lookup xs i : values xs !! i = (λ x, i_value x.2) <$> xs !! i.
Proof. apply list_lookup_fmap. Qed.

Lemma list_is_create : list_is list_create [].
Proof.
  exists []. split; [|done]. eapply lrep_intro with (L := []) (po := 0%Z) (cu := None) (fr := 1%positive).
  - by repeat split; try constructor.
  - done.
  - done.
  - done.
  - done.
  - by apply cursor_none.
  - constructor.
  - by unfold MAX_LEN.
Qed.

Lemma list_is_length s vs : list_is s vs → l_length s = Z.of_nat (length vs) ∧ (Z.of_nat (length vs) ≤ MAX_LEN)%Z.
Proof.
  intros (xs & Hr & <-). rewrite length_values. split; [by eapply lrep_length|]. by destruct Hr.
Qed.

(** ** Adding *)
Lemma add_value_ok s xs tg v link (Q : Z → state → Prop) :
  lrep s xs [] →
  (∀ s l, lrep s xs [detached l v tg] →
     wp (link (Some l)) (λ rc s, rc = 0%Z ∧ Q 0%Z s) s) →
  wp (add_value tg v link) Q s.
Proof.
  intros Hr Hlink. lopen Hr. rewrite app_nil_r in Hs. unfold add_value, create_entry.
  apply wp_bind. eapply wp_ealloc; [exact Hs| |].
  { rewrite dseg_locs. by rewrite app_nil_r in Hf. }
  clear Hs. clear s. intros s Hs. lsteps.
  eapply wp_mono; [apply (Hlink s fr)|].
  - eapply lrep_intro; [exact Hs| |done|done|done|done| |done].
    + unfold detached. simpl. perm.
    + simpl in *. rewrite app_nil_r in Hf. apply Forall_app. split.
      * eapply Forall_impl; [exact Hf|]. simpl. intros. lia.
      * constructor; [lia|constructor].
  - intros rc s' [-> HQ]. apply wp_bind. cbn [ewhen]. by apply wp_ret.
Qed.

Lemma push_value_wp s xs tg v :
  lrep s xs [] → (Z.of_nat (length xs) < MAX_LEN)%Z →
  wp (add_value tg v push_entry) (λ rc s', rc = 0%Z ∧ ∃ xs', lrep s' xs' [] ∧ values xs' = values xs ++ [v]) s.
Proof.
  intros Hr Hlt. eapply add_value_ok; [done|]. clear Hr. clear s. intros s l Hr.
  eapply push_ok; [exact Hr|done|]. intros s' Hr'. split; [done|]. split; [done|].
  eexists. split; [exact Hr'|]. by rewrite values_app.
Qed.

Lemma list_push_value_is s vs v :
  list_is s vs → (Z.of_nat (length vs) < MAX_LEN)%Z →
  ∃ s', list_push_value v s = Ret (0%Z, s') ∧ list_is s' (vs ++ [v]).
Proof.
  intros (xs & Hr & <-) Hlt. rewrite length_values in Hlt.
  destruct (wp_run _ _ _ (push_value_wp s xs false v Hr Hlt)) as (rc & s' & Hrun & -> & Hl).
  exists s'. split; [exact Hrun|]. exact Hl.
Qed.

Lemma list_unshift_value_is s vs v :
  list_is s vs → (Z.of_nat (length vs) < MAX_LEN)%Z →
  ∃ s', list_unshift_value v s = Ret (0%Z, s') ∧ list_is s' (v :: vs).
Proof.
  intros (xs & Hr & <-) Hlt. rewrite length_values in Hlt.
  assert (wp (list_unshift_value v) (λ rc s', rc = 0%Z ∧ list_is s' (v :: values xs)) s) as Hwp.
  { eapply add_value_ok; [done|]. clear Hr. clear s. intros s l Hr.
    eapply unshift_ok; [exact Hr|done|]. intros s' Hr'. split; [done|]. split; [done|].
    eexists. split; [exact Hr'|]. done. }
  apply wp_run in Hwp as (rc & s' & Hrun & -> & Hl). by exists s'.
Qed.

(** Inserting at a position: shifting the tail, or padding with NULLs. *)
Definition insert_at (vs : list (option V)) (i : nat) (v : option V) : list (option V) :=
  take i vs ++ replicate (i - length vs) None ++ v :: drop i vs.

Lemma push_empty_ok n s xs X (Q : unit → state → Prop) :
  lrep s xs X → (Z.of_nat (length xs + n) ≤ MAX_LEN)%Z →
  (∀ s' xs', lrep s' (xs ++ xs') X → length xs' = n → values xs' = replicate n None → Q tt s') →
  wp (push_empty n) Q s.
Proof.
  revert s xs. induction n as [|n IH]; intros s xs Hr Hlt HQ; cbn [push_empty].
  { apply wp_ret. apply (HQ s []); [by rewrite app_nil_r|done|done]. }
  apply wp_bind. unfold create_entry. lopen Hr. eapply wp_ealloc; [exact Hs|by rewrite fmap_app, dseg_locs|].
  clear Hs. clear s. intros s Hs. apply wp_bind.
  eapply (push_ok s xs X fr None false).
  { eapply lrep_intro; [exact Hs| |done|done|done|done| |done].
    - unfold detached. simpl. perm.
    - simpl. eapply (fresh_perm _ (fr :: xs.*1 ++ X.*1)); [|by rewrite Permutation_middle].
      constructor; [lia|]. eapply Forall_impl; [exact Hf|]. simpl. intros. lia. }
  { lia. }
  intros s' Hr'. apply IH with (xs := xs ++ [(fr, mk_item true None false)]); [done| |].
  { rewrite length_app. simpl. lia. }
  intros s2 xs2 Hr2 Hl2 Hv2. apply (HQ s2 ((fr, mk_item true None false) :: xs2)).
  - by rewrite <-app_assoc in Hr2.
  - simpl. lia.
  - simpl. by rewrite <-Hv2.
Qed.

Lemma insert_ok s xs l v tg i (Q : Z → state → Prop) :
  lrep s xs [detached l v tg] → (Z.of_nat (max i (length xs)) < MAX_LEN)%Z →
  (∀ s' xs', lrep s' xs' [] → values xs' = insert_at (values xs) i v → Q 0%Z s') →
  wp (insert_entry (Some l) (Z.of_nat i)) Q s.
Proof.
  intros Hr Hlt HQ. unfold insert_at in HQ. rewrite length_values in HQ.
  destruct (decide (i = 0)) as [->|Hi0].
  { unfold insert_entry. apply wp_bind, wp_get. rewrite bool_decide_eq_true_2 by done. apply wp_bind.
    eapply unshift_ok; [exact Hr|lia|]. intros s' Hr'. by eapply HQ; [exact Hr'|]. }
  destruct (decide (i < length xs)) as [Hmid|Hge].
  { destruct (lookup_lt_is_Some_2 xs (i - 1)) as [y Hy]; [lia|].
    destruct (drop i xs) as [|z zs] eqn:Hd.
    { apply (f_equal length) in Hd. rewrite length_drop in Hd. simpl in Hd. lia. }
    pose proof (take_drop_middle xs (i - 1) y Hy) as Heq.
    replace (S (i - 1)) with i in Heq by lia. rewrite Hd in Heq.
    assert (length (take (i - 1) xs) = i - 1) as Hl1 by (rewrite length_take; lia).
    remember (take (i - 1) xs) as ys eqn:Hys. clear Hys.
    rewrite <-Heq in Hr. replace (Z.of_nat i) with (Z.of_nat (S (length ys))) by lia.
    eapply insert_mid_ok; [exact Hr|rewrite Heq; lia|]. intros s' Hr'. eapply HQ; [exact Hr'|].
    replace (i - length xs) with 0 by lia. rewrite <-Heq, !values_app, !values_cons.
    rewrite take_app_ge, drop_app_ge by (rewrite length_values; lia). rewrite length_values, Hl1.
    replace (i - (i - 1)) with 1 by lia. cbn. by rewrite <-app_assoc. }
  unfold insert_entry. apply wp_bind, wp_get. rewrite (lrep_length _ _ _ Hr).
  rewrite bool_decide_eq_false_2 by lia. apply wp_bind.
  assert (take i (values xs) = values xs ∧ drop i (values xs) = []) as [Ht Hdr].
  { split; [apply take_ge|apply drop_ge]; rewrite length_values; lia. }
  rewrite Ht, Hdr in HQ. case_bool_decide as Heq.
  - eapply push_ok; [exact Hr|lia|]. intros s' Hr'. eapply HQ; [exact Hr'|].
    replace (i - length xs) with 0 by lia. by rewrite values_app.
  - rewrite bool_decide_eq_true_2 by lia. apply wp_bind.
    eapply (push_empty_ok _ _ _ _ _ Hr); [lia|]. intros s' xs' Hr' Hl Hvs.
    eapply push_ok; [exact Hr'|rewrite length_app; lia|]. intros s2 Hr2. eapply HQ; [exact Hr2|].
    rewrite !values_app, Hvs. replace (Z.to_nat _) with (i - length xs) by lia.
    simpl. by rewrite <-app_assoc.
Qed.

Lemma insert_value_wp s xs tg v i :
  lrep s xs [] → (Z.of_nat (max i (length xs)) < MAX_LEN)%Z →
  wp (add_value tg v (λ e, insert_entry e (Z.of_nat i)))
    (λ rc s', rc = 0%Z ∧ list_is s' (insert_at (values xs) i v)) s.
Proof.
  intros Hr Hlt. eapply add_value_ok; [done|]. clear Hr. clear s. intros s l Hr.
  eapply insert_ok; [exact Hr|done|]. intros s' xs' Hr' Hv. split; [done|]. split; [done|]. by exists xs'.
Qed.

(** ** Reading *)
Lemma pick_value_ok s xs i (Q : option V → state → Prop) :
  lrep s xs [] → (∀ s', lrep s' xs [] → Q (mjoin (values xs !! i)) s') →
  wp (list_pick_value (Z.of_nat i)) Q s.
Proof.
  intros Hr HQ. unfold list_pick_value. apply wp_bind. eapply pick_ok; [exact Hr|].
  clear Hr. clear s. intros s Hr _. rewrite values_lookup in HQ. rewrite list_lookup_fmap.
  destruct (xs !! i) as [x|] eqn:Hx; simpl; [|by apply wp_ret, HQ].
  apply wp_bind. eapply wp_Ret; [unfold eld; by rewrite (lrep_lookup _ _ _ _ _ Hr Hx)|].
  apply wp_ret. by apply HQ.
Qed.

Lemma list_pick_value_is s vs i :
  list_is s vs →
  ∃ s', list_pick_value (Z.of_nat i) s = Ret (mjoin (vs !! i), s') ∧ list_is s' vs.
Proof.
  intros (xs & Hr & <-).
  assert (wp (list_pick_value (Z.of_nat i)) (λ r s', r = mjoin (values xs !! i) ∧ list_is s' (values xs)) s)
    as Hwp.
  { eapply pick_value_ok; [exact Hr|]. intros s' Hr'. split; [done|]. by exists xs. }
  apply wp_run in Hwp as (r & s' & Hrun & -> & Hl). by exists s'.
Qed.

(** A list has one sequence of values. *)
Lemma list_is_inj s vs ws : list_is s vs → list_is s ws → vs = ws.
Proof.
  intros Hv Hw. destruct (list_is_length _ _ Hv) as [H1 _], (list_is_length _ _ Hw) as [H2 _].
  assert (length vs = length ws) as Hlen by lia. apply (list_eq_same_length _ _ (length ws)); [done|done|].
  intros i x y _ Hx Hy. destruct (list_pick_value_is s vs i Hv) as (s1 & Hp & _).
  destruct (list_pick_value_is s ws i Hw) as (s2 & Hq & _). rewrite Hx in Hp. rewrite Hy in Hq.
  simpl in *. congruence.
Qed.

(** ** Removing *)
Lemma take_value_ok s xs x (Q : option V → state → Prop) :
  lrep s xs [detached x.1 (i_value x.2) (i_tagged x.2)] →
  (∀ s', lrep s' xs [] → Q (i_value x.2) s') → wp (take_value (Some x.1)) Q s.
Proof.
  intros Hr HQ. cbn [take_value]. apply wp_bind.
  eapply wp_Ret with (a := (detached x.1 (i_value x.2) (i_tagged x.2)).2).
  - pose proof Hr as Hr'. lopen Hr'. pose proof (ls_heap _ _ _ _ _ _ _ _ Hs) as Hh.
    rewrite (Permutation_app_comm (dseg _ _ _)) in Hh. simpl in Hh. unfold detached in Hh.
    apply heap_is_cons in Hh as [Hl _]. unfold eld. by rewrite Hl.
  - apply wp_bind. eapply destroy_ok; [exact Hr|]. intros s' Hr'. by apply wp_ret, HQ.
Qed.

Lemma list_pop_value_is s vs v :
  list_is s (vs ++ [v]) → ∃ s', list_pop_value s = Ret (v, s') ∧ list_is s' vs.
Proof.
  intros (xs & Hr & Hv). destruct xs as [|x xs _] using rev_ind.
  { apply (f_equal length) in Hv. rewrite length_app in Hv. simpl in Hv. lia. }
  rewrite values_app in Hv. simpl in Hv. apply app_inj_tail in Hv as [<- <-].
  assert (wp list_pop_value (λ r s', r = i_value x.2 ∧ list_is s' (values xs)) s) as Hwp.
  { unfold list_pop_value. apply wp_bind. eapply pop_ok; [exact Hr|]. intros s1 Hr1.
    eapply take_value_ok; [exact Hr1|]. intros s2 Hr2. split; [done|]. by exists xs. }
  apply wp_run in Hwp as (r & s' & Hrun & -> & Hl). by exists s'.
Qed.

Lemma list_shift_value_is s vs v :
  list_is s (v :: vs) → ∃ s', list_shift_value s = Ret (v, s') ∧ list_is s' vs.
Proof.
  intros (xs & Hr & Hv). destruct xs as [|x xs]; [done|]. simpl in Hv. injection Hv as <- <-.
  assert (wp list_shift_value (λ r s', r = i_value x.2 ∧ list_is s' (values xs)) s) as Hwp.
  { unfold list_shift_value. apply wp_bind. eapply shift_ok; [exact Hr|]. intros s1 Hr1.
    eapply take_value_ok; [exact Hr1|]. intros s2 Hr2. split; [done|]. by exists xs. }
  apply wp_run in Hwp as (r & s' & Hrun & -> & Hl). by exists s'.
Qed.

(** Removing from an empty list. *)
Lemma empty_state s : list_is s [] → l_head s = None ∧ l_tail s = None ∧ l_length s = 0%Z.
Proof.
  intros (xs & Hr & Hv). destruct xs; [|done]. lopen Hr. destruct Hs. simpl in *. by split.
Qed.

Lemma empty_reset s : l_head s = None → l_tail s = None → set_head None (set_tail None s) = s.
Proof. destruct s. simpl. by intros -> ->. Qed.

Lemma list_pop_empty s : list_is s [] → list_pop_value s = Ret (None, s).
Proof.
  intros Hl. destruct (empty_state s Hl) as (Hh & Ht & Hn).
  unfold list_pop_value, pop_entry, reset_if_empty, mbind, st_bind, st_get. rewrite Ht. simpl. rewrite Hn.
  rewrite bool_decide_eq_true_2 by done. simpl. unfold mbind, st_bind, modify, st_modify. simpl.
  by rewrite empty_reset.
Qed.
Lemma list_shift_empty s : list_is s [] → list_shift_value s = Ret (None, s).
Proof.
  intros Hl. destruct (empty_state s Hl) as (Hh & Ht & Hn).
  unfold list_shift_value, shift_entry, reset_if_empty, mbind, st_bind, st_get. rewrite Hh. simpl. rewrite Hn.
  rewrite bool_decide_eq_true_2 by done. simpl. unfold mbind, st_bind, modify, st_modify. simpl.
  by rewrite empty_reset.
Qed.

Lemma list_fetch_value_is s vs i v :
  list_is s vs → vs !! i = Some v →
  ∃ s', list_fetch_value (Z.of_nat i) s = Ret (v, s') ∧ list_is s' (take i vs ++ drop (S i) vs).
Proof.
  intros (xs & Hr & <-) Hi. rewrite values_lookup in Hi.
  destruct (xs !! i) as [x|] eqn:Hx; [|done]. injection Hi as <-.
  pose proof (take_drop_middle xs i x Hx) as Heq.
  pose proof (lookup_lt_Some _ _ _ Hx) as Hlt.
  assert (length (take i xs) = i) as Hl1 by (rewrite length_take; lia).
  assert (take i (values xs) ++ drop (S i) (values xs) = values (take i xs ++ drop (S i) xs)) as ->.
  { unfold values. by rewrite fmap_app, fmap_take, fmap_drop. }
  destruct (list_is_length s (values xs)) as [Hlen Hmax]; [by exists xs|]. rewrite length_values in Hlen, Hmax.
  remember (take i xs) as ys eqn:Hys. remember (drop (S i) xs) as zs eqn:Hzs. clear Hys Hzs.
  assert (wp (list_fetch_value (Z.of_nat i))
    (λ r s', r = i_value x.2 ∧ list_is s' (values (ys ++ zs))) s) as Hwp.
  { unfold list_fetch_value. apply wp_bind.
    assert (∀ s1, lrep s1 (ys ++ zs) [detached x.1 (i_value x.2) (i_tagged x.2)] →
      wp (take_value (Some x.1)) (λ r s', r = i_value x.2 ∧ list_is s' (values (ys ++ zs))) s1) as Hend.
    { intros s1 Hr1. eapply take_value_ok; [exact Hr1|]. intros s2 Hr2. split; [done|].
      by exists (ys ++ zs). }
    unfold fetch_entry. apply wp_bind, wp_get. rewrite Hlen. subst xs. rewrite length_app in *. simpl in *.
    destruct ys as [|y ys _] using rev_ind.
    { rewrite bool_decide_eq_true_2 by (simpl in *; lia). eapply shift_ok; [exact Hr|]. exact Hend. }
    rewrite length_app in *. simpl in *. rewrite bool_decide_eq_false_2 by lia.
    replace (length ys + 1 + S (length zs)) with (S (length ys + 1 + length zs)) by lia.
    rewrite u64_len_pred by (simpl in *; lia). destruct zs as [|z zs].
    - rewrite bool_decide_eq_true_2 by (simpl; lia). eapply pop_ok; [exact Hr|].
      intros s1 Hr1. apply Hend. by rewrite app_nil_r.
    - rewrite bool_decide_eq_false_2 by (simpl; lia).
      rewrite <-app_assoc in Hr. simpl in Hr.
      replace i with (S (length ys)) by lia. eapply remove_mid_ok; [exact Hr|].
      intros s1 Hr1. apply Hend. by rewrite <-app_assoc. }
  apply wp_run in Hwp as (r & s' & Hrun & -> & Hl). by exists s'.
Qed.

(** ** Iteration with handlers that do not delete *)
Section Foreach.
Context {D : Type} (h : D → option V → Z → D * Z).

Fixpoint foreach_spec (vs : list (option V)) (idx : Z) (d : D) : D * Z :=
  match vs with
  | [] => (d, idx)
  | v :: vs =>
      let '(d, rc) := h d v idx in
      if bool_decide (rc = 0%Z) then (d, idx + 1)%Z else foreach_spec vs (idx + 1)%Z d
  end.

Definition keeps : Prop := ∀ d v idx, (h d v idx).2 ≠ (-1)%Z ∧ (h d v idx).2 ≠ (-2)%Z.

Lemma foreach_loop_ok fuel s xs i d :
  keeps → lrep s xs [] → i ≤ length xs → length xs - i ≤ fuel →
  foreach_loop h fuel (xs.*1 !! i) (Z.of_nat i) (Z.of_nat (length xs)) d s
  = Ret (foreach_spec (drop i (values xs)) (Z.of_nat i) d, s).
Proof.
  intros Hk Hr. revert i d. induction fuel as [|fuel IH]; intros i d Hi Hf.
  { assert (i = length xs) as -> by lia. rewrite (lookup_ge_None_2 xs.*1) by (by rewrite length_fmap).
    rewrite drop_ge by (by rewrite length_values). done. }
  destruct (xs !! i) as [x|] eqn:Hx.
  2: { apply lookup_ge_None in Hx. rewrite (lookup_ge_None_2 xs.*1) by (by rewrite length_fmap).
       rewrite drop_ge by (by rewrite length_values). done. }
  pose proof (lookup_lt_Some _ _ _ Hx) as Hlt.
  rewrite (list_lookup_fmap _ _ i), Hx. change (fst <$> Some x) with (Some x.1). cbn [foreach_loop].
  rewrite bool_decide_eq_true_2 by lia. unfold mbind at 1, st_bind at 1, eld.
  rewrite (lrep_lookup _ _ _ _ _ Hr Hx). cbn [e_value e_next].
  assert (drop i (values xs) = i_value x.2 :: drop (S i) (values xs)) as ->.
  { apply drop_S. by rewrite values_lookup, Hx. }
  cbn [foreach_spec]. destruct (Hk d (i_value x.2) (Z.of_nat i)) as [H1 H2].
  destruct (h d (i_value x.2) (Z.of_nat i)) as [d' rc]. simpl in H1, H2.
  case_bool_decide; [done|]. rewrite !bool_decide_eq_false_2 by done. cbn [orb].
  replace (Z.of_nat i + 1)%Z with (Z.of_nat (S i)) by lia. apply IH; lia.
Qed.

Lemma list_foreach_value_is s vs d :
  list_is s vs → keeps →
  ∃ s', list_foreach_value h d s = Ret (foreach_spec vs 0 d, s') ∧ list_is s' vs.
Proof.
  intros (xs & Hr & <-) Hk.
  assert (wp (list_foreach_value h d)
    (λ r s', r = foreach_spec (values xs) 0 d ∧ list_is s' (values xs)) s) as Hwp.
  { unfold list_foreach_value, slice_foreach_value. apply wp_bind, wp_get. apply wp_bind.
    rewrite (lrep_length _ _ _ Hr). change 0%Z with (Z.of_nat 0) at 1.
    eapply pick_ok; [exact Hr|]. clear Hr. clear s. intros s Hr _. apply wp_bind, wp_get.
    eapply wp_Ret; [apply (foreach_loop_ok _ s xs 0 d); [done|done|lia|]|].
    - destruct Hr as [Hs _ _ _]. rewrite (heap_is_size _ _ (ls_heap _ _ _ _ _ _ _ _ Hs)).
      rewrite app_nil_r, length_dseg. lia.
    - split; [done|]. by exists xs. }
  apply wp_run in Hwp as (r & s' & Hrun & -> & Hl). by exists s'.
Qed.
End Foreach.

(** ** Iteration that removes one value and stops *)
Lemma foreach_drop_ok s L R l en fr hd tl c po n :
  lsat s L fr hd tl (Some c) po (Z.of_nat (S n)) → L ≡ₚ (l, en) :: R → (Z.of_nat (S n) ≤ MAX_LEN)%Z →
  wp (foreach_drop l)
    (λ _ s', lsat s' R fr hd tl (if bool_decide (c = l) then None else Some c) po (Z.of_nat n)) s.
Proof.
  intros Hs HL Hm. apply (lsat_perm _ _ _ _ _ _ _ _ Hs) in HL. clear Hs. rename HL into Hs.
  pose proof (u64_len_pred _ Hm) as Hu. unfold foreach_drop. lsteps. unfold destroy_entry.
  destruct (decide (c = l)) as [->|Hne].
  - rewrite bool_decide_eq_true_2 by done. cbn [ewhen]. lsteps. rewrite Hu in Hs. cbn [ewhen set_e_list e_list].
    lsteps. by rewrite bool_decide_eq_true_2.
  - rewrite bool_decide_eq_false_2 by congruence. cbn [ewhen]. lsteps. rewrite Hu in Hs. cbn [ewhen set_e_list e_list].
    lsteps. by rewrite bool_decide_eq_false_2.
Qed.

Lemma last_mid p xs y ys : last_ p (xs ++ y :: ys) = last_ (Some y.1) ys.
Proof. unfold last_. rewrite last_app, last_cons. by destruct (last ys). Qed.
Lemma last_not_in (z : loc * item V) zs l : l ∉ (z :: zs).*1 → last_ (Some z.1) zs ≠ Some l.
Proof.
  intros Hl He. apply Hl. unfold last_ in He. simpl. destruct (last zs) as [w|] eqn:Hw; injection He as <-; [|left].
  right. apply list_elem_of_fmap_2. by apply last_Some_elem_of.
Qed.

Lemma foreach_unlink_ok s ys x zs :
  lrep s (ys ++ x :: zs) [] → l_cur s = first_ (ys ++ x :: zs) None → l_pos s = 0%Z →
  wp (foreach_unlink x.1 (first_ zs None)) (λ _ s', lrep s' (ys ++ zs) []) s.
Proof.
  intros Hr Hcu0 Hpo0. pose proof (lrep_NoDup _ _ _ Hr) as Hnd. lopen Hr.
  rewrite (ls_cur _ _ _ _ _ _ _ _ Hs) in Hcu0. rewrite (ls_pos _ _ _ _ _ _ _ _ Hs) in Hpo0. subst cu po.
  assert (Hlen : length (ys ++ x :: zs) = S (length (ys ++ zs))) by (rewrite !length_app; simpl; lia).
  rewrite app_nil_r, Hlen, fmap_app in *. simpl in Hf, Hnd.
  assert (Hclose : ∀ s cu hd tl, lsat s (dseg None (ys ++ zs) None) fr hd tl cu 0 (Z.of_nat (length (ys ++ zs))) →
    hd = first_ (ys ++ zs) None → tl = last_ None (ys ++ zs) →
    cu = (if bool_decide (default x.1 (first_ ys None) = x.1) then None else first_ ys None) → lrep s (ys ++ zs) []).
  { intros s' cu hd tl Hs' Hhd Htl ->. eapply lrep_intro;
      [exact Hs'|by rewrite app_nil_r|done|done|done| | |lia].
    - destruct ys as [|y ys]; simpl; [rewrite bool_decide_eq_true_2 by done; by apply cursor_none|].
      destruct (decide (y.1 = x.1)); [rewrite bool_decide_eq_true_2 by done; by apply cursor_none|].
      rewrite bool_decide_eq_false_2 by done. split; [done|]. intros l [= <-]. simpl. split; [done|lia].
    - rewrite app_nil_r, fmap_app. rewrite <-Permutation_middle in Hf. by inv Hf. }
  remember (length (ys ++ zs)) as ln eqn:Hln.
  unfold foreach_unlink. rewrite dseg_app, first_app in Hs. cbn [dseg first_] in Hs. unfold ecell in Hs.
  destruct ys as [|y ys _] using rev_ind.
  - simpl in Hs, Hnd. rewrite last_cons_ in Hs. apply NoDup_cons in Hnd as [Hx Hnd]. destruct zs as [|z zs].
    + lsteps. rewrite !bool_decide_eq_true_2 by done. cbn [andb]. lsteps.
      eapply wp_mono; [eapply foreach_drop_ok; [exact Hs|reflexivity|done]|]. intros [] s' Hs'.
      eapply Hclose; [exact Hs'|done|done|by rewrite !bool_decide_eq_true_2].
    + rewrite last_cons_ in Hs. simpl in Hs. unfold ecell in Hs. lsteps.
      pose proof (last_not_in z zs x.1 Hx) as Hne.
      rewrite (bool_decide_eq_false_2 (_ = last_ _ _)) by congruence. cbn [andb].
      rewrite bool_decide_eq_true_2 by done. lsteps.
      eapply wp_mono; [eapply foreach_drop_ok; [exact Hs|perm_front|done]|]. intros [] s' Hs'.
      eapply Hclose; [eapply lsat_perm; [exact Hs'|simpl; unfold ecell; perm]|done|simpl; by rewrite last_cons_|by rewrite !bool_decide_eq_true_2].
  - rewrite last_snoc_ in Hs.
    assert (∃ f, (∀ n, first_ (ys ++ [y]) n = Some f) ∧ f ≠ x.1) as (f & Hfst & Hne).
    { apply NoDup_app in Hnd as (_ & Hni & _).
      assert (∀ w, w ∈ (ys ++ [y]).*1 → w ≠ x.1) as Hw by (intros w Hw ->; apply (Hni _ Hw); left).
      destruct ys as [|y0 ys]; (eexists; split; [intros; reflexivity|apply Hw; left]). }
    rewrite !Hfst in *. cbn [default] in Hclose. rewrite bool_decide_eq_false_2 in Hclose by done.
    destruct zs as [|z zs].
    + rewrite last_snoc_, dseg_app in Hs. cbn [dseg first_] in Hs. unfold ecell in Hs. lsteps.
      rewrite bool_decide_eq_false_2 by congruence. cbn [andb].
      rewrite (bool_decide_eq_true_2 (Some x.1 = _)) by done. lsteps.
      eapply wp_mono; [eapply foreach_drop_ok; [exact Hs|perm_front|done]|]. intros [] s' Hs'.
      rewrite bool_decide_eq_false_2 in Hs' by done. rewrite app_nil_r in *.
      eapply Hclose; [eapply lsat_perm; [exact Hs'|]|by rewrite Hfst|by rewrite last_snoc_|done].
      rewrite dseg_app. simpl. unfold ecell, set_e_next. simpl. perm.
    + rewrite last_mid, last_cons_, dseg_app in Hs. cbn [dseg first_] in Hs. unfold ecell in Hs.
      assert (last_ (Some z.1) zs ≠ Some x.1) as Hlast.
      { apply last_not_in. apply NoDup_app in Hnd as (_ & _ & Hnd). by apply NoDup_cons in Hnd as [Hx _]. }
      lsteps. rewrite (bool_decide_eq_false_2 (_ = Some x.1)) by done. rewrite andb_false_r.
      rewrite bool_decide_eq_false_2 by congruence. cbn [first_]. lsteps.
      eapply wp_mono; [eapply foreach_drop_ok; [exact Hs|perm_front|done]|]. intros [] s' Hs'.
      rewrite bool_decide_eq_false_2 in Hs' by done.
      eapply Hclose; [eapply lsat_perm; [exact Hs'|]|by rewrite first_app, Hfst|by rewrite last_mid|done].
      rewrite !dseg_app, last_snoc_. simpl. unfold ecell, set_e_next, set_e_prev. simpl. perm.
Qed.

Section Remove.
Context {D : Type} (h : D → option V → Z → D * Z) (d : D).

Lemma foreach_loop_removes fuel s xs i k x :
  lrep s xs [] → l_cur s = first_ xs None → l_pos s = 0%Z → xs !! k = Some x → i ≤ k → k - i < fuel →
  (∀ j v, i ≤ j < k → values xs !! j = Some v → h d v (Z.of_nat j) = (d, 1%Z)) →
  h d (i_value x.2) (Z.of_nat k) = (d, (-2)%Z) →
  wp (foreach_loop h fuel (xs.*1 !! i) (Z.of_nat i) (Z.of_nat (length xs)) d)
    (λ r s', r = (d, Z.of_nat (S k)) ∧ lrep s' (delete k xs) []) s.
Proof.
  intros Hr Hcu Hpo Hx. revert i. induction fuel as [|fuel IH]; intros i Hi Hf Hkeep Hhit; [lia|].
  pose proof (lookup_lt_Some _ _ _ Hx) as Hlt.
  destruct (lookup_lt_is_Some_2 xs i) as [y Hy]; [lia|].
  rewrite (list_lookup_fmap _ _ i), Hy. change (fst <$> Some y) with (Some y.1). cbn [foreach_loop].
  rewrite bool_decide_eq_true_2 by lia.
  apply wp_bind. eapply wp_Ret; [unfold eld; by rewrite (lrep_lookup _ _ _ _ _ Hr Hy)|]. cbn [e_value e_next].
  replace (Z.of_nat i + 1)%Z with (Z.of_nat (S i)) by lia.
  destruct (decide (i = k)) as [->|Hne].
  - assert (y = x) as -> by congruence. rewrite Hhit.
    rewrite (bool_decide_eq_false_2 ((-2)%Z = 0%Z)), (bool_decide_eq_true_2 ((-2)%Z = (-2)%Z)), orb_true_r by done.
    apply wp_bind. pose proof (take_drop_middle xs k x Hx) as Heq.
    assert (xs.*1 !! S k = first_ (drop (S k) xs) None) as ->.
    { rewrite list_lookup_fmap. destruct (drop (S k) xs) as [|z zs] eqn:Hd; simpl.
      - apply (f_equal length) in Hd. rewrite length_drop in Hd. simpl in Hd. by rewrite (lookup_ge_None_2 xs) by lia.
      - pose proof (lookup_drop xs (S k) 0) as Hz. rewrite Hd, Nat.add_0_r in Hz. by rewrite <-Hz. }
    rewrite <-Heq in Hr, Hcu.
    eapply wp_mono; [exact (foreach_unlink_ok _ _ _ _ Hr Hcu Hpo)|]. intros [] s' Hr'. apply wp_ret.
    split; [done|]. by rewrite delete_take_drop.
  - rewrite (Hkeep i (i_value y.2)); [|lia|by rewrite values_lookup, Hy].
    rewrite !bool_decide_eq_false_2 by done. cbn [orb].
    apply IH; [lia|lia| |done]. intros j v Hj. apply Hkeep. lia.
Qed.

Lemma list_foreach_removes s vs k v :
  list_is s vs → vs !! k = Some v →
  (∀ j w, j < k → vs !! j = Some w → h d w (Z.of_nat j) = (d, 1%Z)) →
  h d v (Z.of_nat k) = (d, (-2)%Z) →
  ∃ s', list_foreach_value h d s = Ret ((d, Z.of_nat (S k)), s') ∧ list_is s' (delete k vs).
Proof.
  intros (xs & Hr & <-) Hk Hkeep Hhit. rewrite values_lookup in Hk.
  destruct (xs !! k) as [x|] eqn:Hx; [|done]. injection Hk as <-.
  assert (wp (list_foreach_value h d)
    (λ r s', r = (d, Z.of_nat (S k)) ∧ list_is s' (delete k (values xs))) s) as Hwp.
  { unfold list_foreach_value, slice_foreach_value. apply wp_bind, wp_get. apply wp_bind.
    rewrite (lrep_length _ _ _ Hr). change 0%Z with (Z.of_nat 0) at 1.
    eapply pick_ok; [exact Hr|]. clear Hr. clear s. intros s Hr Hcur. apply wp_bind, wp_get.
    destruct (lookup_lt_is_Some_2 xs 0) as [y Hy]; [apply lookup_lt_Some in Hx; lia|].
    destruct (Hcur y.1) as [Hcu Hpo]; [by rewrite list_lookup_fmap, Hy|].
    eapply wp_mono; [eapply (foreach_loop_removes _ s xs 0 k x); [done| |done|done|lia| | |done]|].
    - by rewrite first_lookup_, list_lookup_fmap, Hy.
    - destruct Hr as [Hs _ _ _]. rewrite (heap_is_size _ _ (ls_heap _ _ _ _ _ _ _ _ Hs)).
      rewrite app_nil_r, length_dseg. apply lookup_lt_Some in Hx. lia.
    - intros j w Hj. apply Hkeep. lia.
    - intros r s' [-> Hr']. split; [done|]. exists (delete k xs). split; [done|].
      unfold values. by rewrite !delete_take_drop, fmap_app, fmap_take, fmap_drop. }
  apply wp_run in Hwp as (r & s' & Hrun & -> & Hl). by exists s'.
Qed.
End Remove.
End Spec.

(** ** Tagged values *)
Section Tagged.
Implicit Types (s : linked_list tagged_value) (tvs : list tagged_value).

(** The first value with a tag. *)
Definition find_tag (t : list Z) tvs : option tagged_value :=
  (list_find (λ tv, tag tv = t) tvs) ≫= (λ p, Some p.2).

Lemma find_tag_drop t tvs i tv :
  tvs !! i = Some tv →
  find_tag t (drop i tvs) = if bool_decide (tag tv = t) then Some tv else find_tag t (drop (S i) tvs).
Proof.
  intros Hi. rewrite (drop_S tvs tv i Hi). unfold find_tag. simpl. case_decide as Ht.
  - by rewrite bool_decide_eq_true_2.
  - rewrite bool_decide_eq_false_2 by done. by destruct (list_find _ _) as [[]|].
Qed.

Lemma get_tagged_loop_ok n s xs tvs i t (Q : option tagged_value → linked_list tagged_value → Prop) :
  lrep s xs [] → values xs = Some <$> tvs → length tvs - i ≤ n →
  (∀ s', lrep s' xs [] → Q (find_tag t (drop i tvs)) s') →
  wp (get_tagged_loop n (Z.of_nat i) t) Q s.
Proof.
  intros Hr Hv. revert s i Hr. induction n as [|n IH]; intros s i Hr Hn HQ;
    cbn [get_tagged_loop]; apply wp_bind; unfold list_count; apply wp_bind, wp_get, wp_ret;
    rewrite (lrep_length _ _ _ Hr);
    (assert (length xs = length tvs) as Hlen by (rewrite <-length_values, Hv; apply length_fmap));
    (rewrite i32_id by (destruct Hr; unfold in_i32, MAX_LEN in *; lia)).
  - rewrite bool_decide_eq_false_2 by lia. rewrite drop_ge in HQ by lia. by apply wp_ret, HQ.
  - case_bool_decide as Hlt; [|rewrite drop_ge in HQ by lia; by apply wp_ret, HQ].
    destruct (lookup_lt_is_Some_2 tvs i) as [tv Htv]; [lia|].
    rewrite (find_tag_drop t tvs i tv Htv) in HQ.
    apply wp_bind. eapply pick_value_ok; [exact Hr|]. clear Hr. clear s. intros s Hr.
    rewrite Hv, list_lookup_fmap, Htv. simpl. case_bool_decide; [by apply wp_ret, HQ|].
    replace (Z.of_nat i + 1)%Z with (Z.of_nat (S i)) by lia. apply IH; [done|lia|done].
Qed.

Lemma list_get_tagged_value_is s tvs t :
  list_is s (Some <$> tvs) →
  ∃ s', list_get_tagged_value t s = Ret (find_tag t tvs, s') ∧ list_is s' (Some <$> tvs).
Proof.
  intros (xs & Hr & Hv).
  assert (wp (list_get_tagged_value t) (λ r s', r = find_tag t tvs ∧ list_is s' (Some <$> tvs)) s) as Hwp.
  { unfold list_get_tagged_value, list_count. apply wp_bind, wp_bind, wp_get, wp_ret.
    rewrite (lrep_length _ _ _ Hr). change 0%Z with (Z.of_nat 0).
    eapply get_tagged_loop_ok; [exact Hr|exact Hv| |].
    - rewrite <-(length_values xs), Hv, length_fmap. lia.
    - intros s' Hr'. split; [done|]. by exists xs. }
  apply wp_run in Hwp as (r & s' & Hrun & -> & Hl). by exists s'.
Qed.
End Tagged.
