(* ===== verification/ListSort.v ===== *)
(** * Sorting of the linked list: list_sort (src/index/libhl/linklist.c)

    [list_quick_sort] partitions the stretch of the list from [head] to
    [tail] around [pivot] in place: it exchanges values of entries on both
    sides and, once one side is used up, relinks entries of the other side
    across the pivot; it then recurses on both sides.  The comparator orders
    the greater values first.  Loops carry a bound in iterations and fault
    when it is exceeded, so that a result also shows that they end.  The code
    is followed by the effect of its steps on the sequence of entries: reads,
    exchanges of values, the scans and the two moves across the pivot. *)
From S2P Require Import Prelude Heap LinkedList LinkedListRep LinkedListSpec.

(** ** The code *)
Section Sort.
Context {V : Type}.
Context (comparator : option V → option V → Z).
Notation state := (linked_list V).

Definition swap_entry_node_val (p1 p2 : option loc) : st state unit :=
  match p1, p2 with
  | Some p1, Some p2 =>
      e1 ← eld p1; e2 ← eld p2;
      _ ← eupd p1 (set_e_value (e_value e2));
      eupd p2 (set_e_value (e_value e1))
  | _, _ => mret tt
  end.

(** while (p && p != pivot && test(p->value)) p = p->field *)
Fixpoint sort_scan (field : list_entry V → option loc) (test : option V → bool) (pivot : loc)
    (fuel : nat) (p : option loc) : st state (option loc) :=
  match p with
  | None => mret None
  | Some l =>
      if bool_decide (l = pivot) then mret p
      else
        e ← eld l;
        if test (e_value e) then
          match fuel with O => st_fault | S fuel => sort_scan field test pivot fuel (field e) end
        else mret p
  end.

(** pivot->list, which must not be null. *)
Definition list_of (entry : loc) : st state unit :=
  e ← eld entry; if e_list e then mret tt else st_fault.

(** p1 == pivot: the entry [p2] is moved before the pivot.  The results are
    the new head and tail of the stretch and the entry before [p2]. *)
Definition sort_move_left (pivot p2 : loc) (head tail : option loc)
    : st state (option loc * option loc * option loc) :=
  n ← eld p2;
  _ ← eif (e_prev n) (λ q, eupd q (set_e_next (e_next n)));
  n ← eld p2;
  _ ← eif (e_next n) (λ q, eupd q (set_e_prev (e_prev n)));
  pv ← eld pivot;
  _ ← match e_prev pv with
      | Some q => eupd q (set_e_next (Some p2))
      | None =>
          _ ← list_of pivot; s ← st_get;
          ewhen (bool_decide (l_head s = Some pivot)) (modify (set_head (Some p2)))
      end;
  _ ← list_of pivot; s ← st_get; n ← eld p2;
  _ ← ewhen (bool_decide (l_tail s = Some p2)) (modify (set_tail (e_prev n)));
  let tmp := e_prev n in
  pv ← eld pivot;
  _ ← eupd p2 (set_e_prev (e_prev pv));
  _ ← eupd pivot (set_e_prev (Some p2));
  n ← eld p2;
  _ ← eif (e_prev n) (λ q, eupd q (set_e_next (Some p2)));
  _ ← eupd p2 (set_e_next (Some pivot));
  mret (if bool_decide (Some pivot = head) then Some p2 else head,
        if bool_decide (Some p2 = tail) then tmp else tail,
        tmp).

(** p2 == pivot: the entry [p1] is moved after the pivot. *)
Definition sort_move_right (pivot p1 : loc) (head tail : option loc)
    : st state (option loc * option loc * option loc) :=
  n ← eld p1;
  _ ← eif (e_prev n) (λ q, eupd q (set_e_next (e_next n)));
  n ← eld p1;
  _ ← eif (e_next n) (λ q, eupd q (set_e_prev (e_prev n)));
  pv ← eld pivot;
  _ ← match e_next pv with
      | Some q => eupd q (set_e_prev (Some p1))
      | None =>
          _ ← list_of pivot; s ← st_get;
          ewhen (bool_decide (l_tail s = Some pivot)) (modify (set_tail (Some p1)))
      end;
  _ ← list_of pivot; s ← st_get; n ← eld p1;
  _ ← ewhen (bool_decide (l_head s = Some p1)) (modify (set_head (e_next n)));
  let tmp := e_next n in
  pv ← eld pivot;
  _ ← eupd p1 (set_e_next (e_next pv));
  _ ← eupd pivot (set_e_next (Some p1));
  n ← eld p1;
  _ ← eif (e_next n) (λ q, eupd q (set_e_prev (Some p1)));
  _ ← eupd p1 (set_e_prev (Some pivot));
  mret (if bool_decide (Some p1 = head) then tmp else head,
        if bool_decide (Some pivot = tail) then Some p1 else tail,
        tmp).

(** if (p != pivot) p = p->field *)
Definition sort_next (field : list_entry V → option loc) (pivot p : loc) : st state (option loc) :=
  if bool_decide (p = pivot) then mret (Some p) else e ← eld p; mret (field e).

(** The for (;;) loop; the results are the new head and tail. *)
Fixpoint sort_partition (fuel : nat) (pivot : loc) (pvalue : option V)
    (head tail p1 p2 : option loc) : st state (option loc * option loc) :=
  s ← st_get;
  p1 ← sort_scan e_next (λ v, bool_decide (comparator v pvalue > 0)%Z) pivot (size (l_heap s)) p1;
  p2 ← sort_scan e_prev (λ v, bool_decide (comparator v pvalue < 0)%Z) pivot (size (l_heap s)) p2;
  match p1, p2 with
  | Some q1, Some q2 =>
      if bool_decide (q1 = q2) then mret (head, tail)
      else
        match fuel with
        | O => st_fault
        | S fuel =>
            if bool_decide (q1 = pivot) then
              r ← sort_move_left pivot q2 head tail;
              p1 ← sort_next e_next pivot q1;
              sort_partition fuel pivot pvalue r.1.1 r.1.2 p1 r.2
            else if bool_decide (q2 = pivot) then
              r ← sort_move_right pivot q1 head tail;
              p2 ← sort_next e_prev pivot q2;
              sort_partition fuel pivot pvalue r.1.1 r.1.2 r.2 p2
            else
              _ ← swap_entry_node_val p1 p2;
              p1 ← sort_next e_next pivot q1;
              p2 ← sort_next e_prev pivot q2;
              sort_partition fuel pivot pvalue head tail p1 p2
        end
  | _, _ => mret (head, tail)
  end.

(** while (p1 != pivot) { p1 = p1->next; l1++; } *)
Fixpoint sort_count (fuel : nat) (pivot : loc) (p1 : option loc) (l1 : Z) : st state Z :=
  if bool_decide (p1 = Some pivot) then mret l1
  else
    l ← eptr p1; e ← eld l;
    match fuel with O => st_fault | S fuel => sort_count fuel pivot (e_next e) (l1 + 1)%Z end.

(** for (i = 0; pv && pv->field && i < n; ++i) pv = pv->field *)
Fixpoint sort_advance (field : list_entry V → option loc) (n : nat) (pv : option loc)
    : st state (option loc) :=
  match pv with
  | None => mret None
  | Some l =>
      e ← eld l;
      match field e, n with
      | Some _, S n => sort_advance field n (field e)
      | _, _ => mret pv
      end
  end.

Fixpoint list_quick_sort (fuel : nat) (head tail pivot : option loc) (length : Z) : st state unit :=
  match head, tail, pivot with
  | Some h, Some t, Some pv =>
      if bool_decide (length < 2)%Z then mret tt
      else if bool_decide (length = 2)%Z then
        a ← eld h; b ← eld t;
        ewhen (bool_decide (comparator (e_value a) (e_value b) < 0)%Z) (swap_entry_node_val head tail)
      else
        match fuel with
        | O => st_fault
        | S fuel =>
            pe ← eld pv; s ← st_get;
            r ← sort_partition (size (l_heap s)) pv (e_value pe) head tail head tail;
            let head := r.1 in let tail := r.2 in
            l1 ← sort_count (size (l_heap s)) pv head 0;
            let l2 := (length - (l1 + 1))%Z in
            pv1 ← sort_advance e_next (Z.to_nat (l1 `quot` 2)) head;
            pv2 ← sort_advance e_prev (Z.to_nat (l2 `quot` 2)) tail;
            pe ← eld pv;
            _ ← ewhen (bool_decide (l1 > 1)%Z && bool_decide (e_prev pe ≠ None)
                       && bool_decide (head ≠ e_prev pe))
                  (list_quick_sort fuel head (e_prev pe) pv1 l1);
            pe ← eld pv;
            ewhen (bool_decide (l2 > 1)%Z && bool_decide (e_next pe ≠ None)
                   && bool_decide (tail ≠ e_next pe))
              (list_quick_sort fuel (e_next pe) tail pv2 l2)
        end
  | _, _, _ => mret tt
  end.

Definition list_sort : st state unit :=
  s ← st_get;
  pivot ← pick_entry (u64 (l_length s `div` 2 - 1));
  s ← st_get;
  _ ← list_quick_sort (Z.to_nat (l_length s)) (l_head s) (l_tail s) pivot (i32 (l_length s));
  _ ← modify (set_cur None);
  modify (set_pos 0%Z).
End Sort.

(** ** Stretches of the list *)
Section Stretch.
Context {V : Type} (X : list (loc * list_entry V)) (fr : loc) (cu : option loc) (po ln : Z).
Notation state := (linked_list V).
Notation elem := (loc * item V)%type.
Implicit Types (s : state) (A B M xs : list elem) (x y p : elem).

(** The heap holds the entries [xs], linked from head to tail; the cursor is
    not constrained. *)
Definition qrep s xs : Prop :=
  lsat s (dseg None xs None ++ X) fr (first_ xs None) (last_ None xs) cu po ln.

Lemma qrep_NoDup s xs : qrep s xs → NoDup xs.*1.
Proof.
  intros Hs. destruct (ls_heap _ _ _ _ _ _ _ _ Hs) as [Hnd _].
  rewrite fmap_app, dseg_locs in Hnd. by apply NoDup_app in Hnd as [? _].
Qed.
Lemma qrep_intro s L hd tl xs :
  lsat s L fr hd tl cu po ln → hd = first_ xs None → tl = last_ None xs →
  L ≡ₚ dseg None xs None ++ X → qrep s xs.
Proof. intros Hs -> -> HL. by eapply lsat_perm. Qed.
Lemma qrep_size s xs : qrep s xs → length xs ≤ size (l_heap s).
Proof.
  intros Hs. rewrite (heap_is_size _ _ (ls_heap _ _ _ _ _ _ _ _ Hs)), length_app, length_dseg. lia.
Qed.

Lemma wp_qread s A x B (Q : list_entry V → state → Prop) :
  qrep s (A ++ x :: B) →
  Q (mk_entry (i_list x.2) (last_ None A) (first_ B None) (i_value x.2) (i_tagged x.2)) s →
  wp (eld x.1) Q s.
Proof.
  intros Hs HQ. unfold qrep in Hs. rewrite dseg_app in Hs. cbn [dseg] in Hs. unfold ecell in Hs.
  eapply wp_eld; [exact Hs|perm_front|done].
Qed.

(** An entry with another value. *)
Definition set_val (v : option V) x : elem := (x.1, mk_item (i_list x.2) v (i_tagged x.2)).

Lemma last_set_val q A v x B : last_ q (A ++ set_val v x :: B) = last_ q (A ++ x :: B).
Proof. unfold last_. rewrite !last_app_cons. destruct B as [|b B]; [done|]. by rewrite !last_cons_cons. Qed.

Lemma wp_qset s A x B v (Q : unit → state → Prop) :
  qrep s (A ++ x :: B) → (∀ s', qrep s' (A ++ set_val v x :: B) → Q tt s') →
  wp (eupd x.1 (set_e_value v)) Q s.
Proof.
  intros Hs HQ. unfold qrep in *. rewrite dseg_app in Hs. cbn [dseg] in Hs. unfold ecell in Hs.
  eapply wp_eupd; [exact Hs|perm_front|]. intros s' Hs'. apply HQ.
  rewrite last_set_val, first_app, dseg_app. rewrite first_app in Hs'. cbn [first_] in *.
  eapply lsat_perm; [exact Hs'|]. cbn [dseg first_]. unfold ecell, set_e_value. perm.
Qed.

Lemma wp_qswap s A x M y B (Q : unit → state → Prop) :
  qrep s (A ++ x :: M ++ y :: B) →
  (∀ s', qrep s' (A ++ set_val (i_value y.2) x :: M ++ set_val (i_value x.2) y :: B) → Q tt s') →
  wp (swap_entry_node_val (Some x.1) (Some y.1)) Q s.
Proof.
  intros Hs HQ. cbn [swap_entry_node_val]. apply wp_bind. eapply wp_qread; [exact Hs|].
  apply wp_bind. eapply (wp_qread _ (A ++ x :: M)); [by rewrite <-app_assoc|]. cbn [e_value].
  apply wp_bind. eapply wp_qset; [exact Hs|]. clear Hs. intros s1 Hs.
  eapply (wp_qset _ (A ++ set_val (i_value y.2) x :: M)); [by rewrite <-app_assoc|].
  intros s2 Hs2. apply HQ. by rewrite <-app_assoc in Hs2.
Qed.

(** The two scans. *)
Lemma scan_next_ok test p B s M : ∀ A fuel,
  qrep s (A ++ M ++ p :: B) → length M ≤ fuel →
  wp (sort_scan e_next test p.1 fuel (first_ M (Some p.1))) (λ r s', s' = s ∧ ∃ M1 M2,
    M = M1 ++ M2 ∧ r = first_ M2 (Some p.1) ∧ Forall (λ x, test (i_value x.2) = true) M1
    ∧ ∀ y, head M2 = Some y → test (i_value y.2) = false) s.
Proof.
  induction M as [|x M IH]; intros A fuel Hs Hf.
  - assert (sort_scan e_next test p.1 fuel (Some p.1) = mret (Some p.1)) as Hm.
    { destruct fuel; cbn [sort_scan]; by rewrite bool_decide_eq_true_2. }
    cbn [first_]. rewrite Hm. apply wp_ret. split; [done|]. by exists [], [].
  - cbn [first_]. pose proof (qrep_NoDup _ _ Hs) as Hnd. rewrite !fmap_app in Hnd.
    apply NoDup_app in Hnd as (_ & _ & Hnd). simpl in Hnd.
    apply NoDup_cons in Hnd as [Hx _]. destruct fuel as [|fuel]; [simpl in Hf; lia|]. cbn [sort_scan].
    rewrite bool_decide_eq_false_2. 2: { intros Heq. apply Hx. rewrite Heq. set_solver. }
    apply wp_bind. eapply wp_qread; [exact Hs|]. cbn [e_value e_next].
    destruct (test (i_value x.2)) eqn:Ht.
    + replace (first_ _ None) with (first_ M (Some p.1)) by (by destruct M). simpl in Hf.
      eapply wp_mono; [apply (IH (A ++ [x])); [by rewrite <-app_assoc|lia]|].
      intros r s' (-> & M1 & M2 & -> & -> & HM1 & HM2). split; [done|].
      exists (x :: M1), M2. repeat split; try done. by constructor.
    + apply wp_ret. split; [done|]. exists [], (x :: M). repeat split; try done. by intros y [= ->].
Qed.

Lemma scan_prev_ok test p A s M : ∀ B fuel,
  qrep s (A ++ p :: M ++ B) → length M ≤ fuel →
  wp (sort_scan e_prev test p.1 fuel (last_ (Some p.1) M)) (λ r s', s' = s ∧ ∃ M1 M2,
    M = M1 ++ M2 ∧ r = last_ (Some p.1) M1 ∧ Forall (λ x, test (i_value x.2) = true) M2
    ∧ ∀ y, last M1 = Some y → test (i_value y.2) = false) s.
Proof.
  induction M as [|x M IH] using rev_ind; intros B fuel Hs Hf.
  - assert (sort_scan e_prev test p.1 fuel (Some p.1) = mret (Some p.1)) as Hm.
    { destruct fuel; cbn [sort_scan]; by rewrite bool_decide_eq_true_2. }
    cbn [last_]. unfold last_ at 1. simpl. rewrite Hm. apply wp_ret. split; [done|]. by exists [], [].
  - rewrite last_snoc_. pose proof (qrep_NoDup _ _ Hs) as Hnd. rewrite !fmap_app in Hnd.
    apply NoDup_app in Hnd as (_ & _ & Hnd). cbn [fmap list_fmap] in Hnd.
    apply NoDup_cons in Hnd as [Hx _]. rewrite length_app in Hf. simpl in Hf.
    destruct fuel as [|fuel]; [lia|]. cbn [sort_scan].
    rewrite bool_decide_eq_false_2. 2: { intros Heq. apply Hx. rewrite <-Heq. set_solver. }
    rewrite <-app_assoc in Hs. simpl in Hs. rewrite app_comm_cons, app_assoc in Hs.
    apply wp_bind. eapply wp_qread; [exact Hs|]. cbn [e_value e_prev].
    destruct (test (i_value x.2)) eqn:Ht.
    + rewrite <-app_assoc in Hs. 
      assert (last_ None (A ++ p :: M) = last_ (Some p.1) M) as ->.
      { unfold last_. rewrite last_app_cons, last_cons. by destruct (last M). }
      eapply wp_mono; [apply (IH (x :: B)); [done|lia]|].
      intros r s' (-> & M1 & M2 & -> & -> & HM1 & HM2). split; [done|].
      exists M1, (M2 ++ [x]). rewrite app_assoc. repeat split; try done. apply Forall_app. by repeat constructor.
    + apply wp_ret. split; [done|]. exists (M ++ [x]), []. rewrite app_nil_r, last_snoc_.
      repeat split; try done. rewrite last_snoc. by intros y [= ->].
Qed.

End Stretch.

(** Symbolic execution of the code that moves an entry across the pivot,
    whose list field is set ([Hp]). *)
Ltac qstep Hp :=
  first
    [ lstep
    | progress cbn [set_e_list set_e_next set_e_prev e_list e_prev e_next e_value e_tagged ewhen] in *
    | rewrite Hp
    | match goal with |- context [bool_decide (?a = ?b)] =>
        first [ rewrite (bool_decide_eq_true_2 (a = b)) by done
              | rewrite (bool_decide_eq_false_2 (a = b)) by congruence ] end ].
Ltac qsteps Hp := repeat qstep Hp.
(** Unfolds the cells around the ends of the stretches. *)
Ltac qcells Hs :=
  cbn [app first_] in Hs; rewrite ?first_app, ?dseg_app, ?last_snoc_ in Hs; cbn [dseg app] in Hs;
  rewrite ?dseg_app, ?last_snoc_ in Hs; cbn [dseg app first_] in Hs; unfold ecell in Hs;
  rewrite ?last_cons_ in Hs.
(** Rebuilds the representation after the moves. *)
Ltac qclose Hs :=
  split; [by rewrite ?last_snoc_|];
  rewrite ?app_nil_r;
  eapply qrep_intro;
    [ exact Hs | by rewrite ?first_app
    | cbn [app]; by rewrite ?last_mid, ?last_cons_, ?last_snoc_, ?last_mid, ?last_cons_
    | cbn [app]; rewrite ?dseg_app, ?last_snoc_; cbn [dseg app]; rewrite ?dseg_app, ?last_snoc_; cbn [dseg app];
      unfold ecell, set_e_next, set_e_prev; rewrite ?first_app, ?last_cons_;
      cbn [first_ e_list e_prev e_next e_value e_tagged]; perm ].

Section Moves.
Context {V : Type} (X : list (loc * list_entry V)) (fr : loc) (cu : option loc) (po ln : Z).
Notation state := (linked_list V).
Notation elem := (loc * item V)%type.
Notation Qrep := (qrep X fr cu po ln).
Implicit Types (s : state) (A B M xs : list elem) (x y p : elem).

Lemma sort_move_left_ok s A p M y B hd tl :
  Qrep s (A ++ p :: M ++ y :: B) → i_list p.2 = true →
  wp (sort_move_left p.1 y.1 hd tl) (λ r s',
    r = (if bool_decide (Some p.1 = hd) then Some y.1 else hd,
         if bool_decide (Some y.1 = tl) then last_ (Some p.1) M else tl, last_ (Some p.1) M)
    ∧ Qrep s' (A ++ y :: p :: M ++ B)) s.
Proof.
  intros Hs Hp. pose proof (qrep_NoDup _ _ _ _ _ _ _ Hs) as Hnd.
  unfold qrep, sort_move_left, list_of in *.
  rewrite app_comm_cons, app_assoc, last_mid, <-app_assoc in Hs.
  assert (∀ b B', B = b :: B' → last_ (Some b.1) B' ≠ Some y.1) as Htl.
  { intros b B' ->. apply last_not_in. rewrite !fmap_app in Hnd. cbn in Hnd.
    rewrite fmap_app in Hnd. apply NoDup_app in Hnd as (_ & _ & Hnd).
    apply NoDup_cons in Hnd as [_ Hnd]. apply NoDup_app in Hnd as (_ & _ & Hnd).
    by apply NoDup_cons in Hnd as [? _]. }
  destruct A as [|a A _] using rev_ind; destruct M as [|m M _] using rev_ind; destruct B as [|b B];
    try specialize (Htl _ _ eq_refl).
  all: qcells Hs; try change (last_ (Some y.1) []) with (Some y.1) in Hs; qsteps Hp.
  all: qclose Hs.
Qed.

Lemma sort_move_right_ok s A x M p B hd tl :
  Qrep s (A ++ x :: M ++ p :: B) → i_list p.2 = true →
  wp (sort_move_right p.1 x.1 hd tl) (λ r s',
    r = (if bool_decide (Some x.1 = hd) then first_ M (Some p.1) else hd,
         if bool_decide (Some p.1 = tl) then Some x.1 else tl, first_ M (Some p.1))
    ∧ Qrep s' (A ++ M ++ p :: x :: B)) s.
Proof.
  intros Hs Hp. pose proof (qrep_NoDup _ _ _ _ _ _ _ Hs) as Hnd.
  unfold qrep, sort_move_right, list_of in *.
  rewrite app_comm_cons, app_assoc, last_mid, <-app_assoc in Hs.
  assert (∀ a A', A = A' ++ [a] → first_ A' (Some a.1) ≠ Some x.1) as Hhd.
  { intros a A' ->. rewrite !fmap_app in Hnd. apply NoDup_app in Hnd as (_ & Hn & _).
    assert (∀ l, l ∈ A'.*1 ++ [a].*1 → l ≠ x.1) as Hne by (intros l Hl ->; apply (Hn _ Hl); left).
    destruct A' as [|a' A']; simpl; intros [= Heq]; refine (Hne _ _ Heq); set_solver. }
  destruct A as [|a A _] using rev_ind; destruct M as [|m M]; destruct B as [|b B];
    try specialize (Hhd _ _ eq_refl).
  all: qcells Hs; try change (last_ (Some p.1) []) with (Some p.1) in Hs; qsteps Hp.
  all: qclose Hs.
Qed.
End Moves.
