(* ===== verification/ListSortTheorems.v ===== *)
(** * Properties of list_sort (src/index/libhl/linklist.c)

    What one iteration of the partition does to the sequence of entries, the
    partition, the recursion and [list_sort]: the values are rearranged for
    any comparator and sorted for a total preorder. *)
From S2P Require Import Prelude Heap LinkedList LinkedListRep LinkedListSpec ListSort.

(** ** Rearrangements *)
Section Shuffle.
Context {V : Type}.
Notation elem := (loc * item V)%type.
Implicit Types (xs ys : list elem) (x y p : elem).

(** The entries keep their flags and are relinked; their values are
    exchanged. *)
Definition flags x : loc * (bool * bool) := (x.1, (i_list x.2, i_tagged x.2)).
Definition shuffle xs ys : Prop := flags <$> xs ≡ₚ flags <$> ys ∧ values xs ≡ₚ values ys.

#[export] Instance shuffle_equivalence : Equivalence shuffle.
Proof.
  split; [by split| |].
  - intros xs ys [H1 H2]. by split.
  - intros xs ys zs [H1 H2] [H3 H4]. split; by etrans.
Qed.
#[export] Instance shuffle_app : Proper (shuffle ==> shuffle ==> shuffle) (@app elem).
Proof.
  intros xs ys [H1 H2] xs' ys' [H3 H4]. split; [by rewrite !fmap_app, H1, H3|].
  by rewrite !values_app, H2, H4.
Qed.
#[export] Instance shuffle_cons : Proper (eq ==> shuffle ==> shuffle) (@cons elem).
Proof. intros x ? <- xs ys H. by apply (shuffle_app [x] [x]). Qed.
#[export] Instance shuffle_perm : subrelation (≡ₚ) shuffle.
Proof. intros xs ys H. split; [by rewrite H|]. unfold values. by rewrite H. Qed.
Lemma shuffle_swap x y xs :
  shuffle (set_val (i_value y.2) x :: set_val (i_value x.2) y :: xs) (x :: y :: xs).
Proof. split; [done|]. simpl. apply perm_swap. Qed.
Lemma shuffle_swap_mid x y xs ys zs ws :
  shuffle ((xs ++ [set_val (i_value y.2) x]) ++ ys ++ zs ++ set_val (i_value x.2) y :: ws)
          ((xs ++ x :: ys) ++ zs ++ y :: ws).
Proof.
  etrans; [|etrans; [apply (shuffle_swap x y (xs ++ ys ++ zs ++ ws))|]]; apply shuffle_perm; perm.
Qed.
Lemma shuffle_length xs ys : shuffle xs ys → length xs = length ys.
Proof. intros [_ H]. by rewrite <-!length_values, H. Qed.
Lemma shuffle_linked xs ys :
  shuffle xs ys → Forall (λ x, i_list x.2 = true) ys → Forall (λ x, i_list x.2 = true) xs.
Proof.
  intros [H _] HF. apply (Forall_fmap flags (λ f, f.2.1 = true)). rewrite H. by apply Forall_fmap.
Qed.
Lemma shuffle_values (P : option V → Prop) xs ys :
  shuffle xs ys → Forall (λ x, P (i_value x.2)) ys → Forall (λ x, P (i_value x.2)) xs.
Proof.
  intros [_ H] HF. apply (Forall_fmap (λ x : elem, i_value x.2) P). change (Forall P (values xs)).
  rewrite H. by apply Forall_fmap.
Qed.
Lemma shuffle_locs xs ys : shuffle xs ys → xs.*1 ≡ₚ ys.*1.
Proof.
  intros [H _]. assert (∀ zs, zs.*1 = (flags <$> zs).*1) as Hf by (intros; by rewrite <-list_fmap_compose).
  by rewrite !Hf, H.
Qed.

(** The ends of a stretch after a move. *)
Lemma first_replace p y xs :
  p.1 ∉ xs.*1 →
  (if bool_decide (Some p.1 = first_ xs (Some p.1)) then Some y.1 else first_ xs (Some p.1))
  = first_ (xs ++ [y]) (Some p.1).
Proof.
  intros Hl. destruct xs as [|x xs]; cbn [first_ app]; [by rewrite bool_decide_eq_true_2|].
  rewrite bool_decide_eq_false_2; [done|]. intros [= Heq]. apply Hl. rewrite Heq. left.
Qed.
Lemma last_replace p x xs :
  p.1 ∉ xs.*1 →
  (if bool_decide (Some p.1 = last_ (Some p.1) xs) then Some x.1 else last_ (Some p.1) xs)
  = last_ (Some p.1) (x :: xs).
Proof.
  intros Hl. destruct xs as [|z xs]; [by rewrite bool_decide_eq_true_2|].
  rewrite !last_cons_, bool_decide_eq_false_2; [done|]. by intros Heq%symmetry%last_not_in.
Qed.
Lemma first_drop x xs ys n :
  x.1 ∉ xs.*1 →
  (if bool_decide (Some x.1 = first_ (xs ++ x :: ys) n) then first_ ys n else first_ (xs ++ x :: ys) n)
  = first_ (xs ++ ys) n.
Proof.
  intros Hl. destruct xs as [|z xs]; cbn [first_ app]; [by rewrite bool_decide_eq_true_2|].
  rewrite bool_decide_eq_false_2; [done|]. intros [= Heq]. apply Hl. rewrite Heq. left.
Qed.
Lemma last_drop y xs ys n :
  y.1 ∉ ys.*1 →
  (if bool_decide (Some y.1 = last_ n (xs ++ y :: ys)) then last_ n xs else last_ n (xs ++ y :: ys))
  = last_ n (xs ++ ys).
Proof.
  intros Hl. rewrite last_mid. destruct ys as [|z ys].
  - rewrite app_nil_r. by rewrite bool_decide_eq_true_2.
  - rewrite last_mid, last_cons_, bool_decide_eq_false_2; [done|]. by intros Heq%symmetry%last_not_in.
Qed.
End Shuffle.

(** ** Partitioning *)
Section Partition.
Context {V : Type} (X : list (loc * list_entry V)) (fr : loc) (cu : option loc) (po ln : Z).
Context (comparator : option V → option V → Z).
Notation state := (linked_list V).
Notation elem := (loc * item V)%type.
Notation Qrep := (qrep X fr cu po ln).
Implicit Types (s : state) (A B L M R : list elem) (x y p : elem).

(** The values that belong before and after the value [pv]. *)
Definition before_ok (pv : option V) x : Prop := (0 ≤ comparator (i_value x.2) pv)%Z.
Definition after_ok (pv : option V) x : Prop := (comparator (i_value x.2) pv ≤ 0)%Z.

(** What the partition of the stretch [L ++ p :: R] between [A] and [B]
    establishes. *)
Definition partitioned A B p (xs : list elem) (r : option loc * option loc) s : Prop :=
  ∃ L R, Qrep s (A ++ L ++ p :: R ++ B) ∧ r = (first_ L (Some p.1), last_ (Some p.1) R)
    ∧ Forall (before_ok (i_value p.2)) L ∧ Forall (after_ok (i_value p.2)) R ∧ shuffle (L ++ R) xs.

Lemma partitioned_shuffle A B p xs ys r s :
  shuffle xs ys → partitioned A B p xs r s → partitioned A B p ys r s.
Proof. intros H (L & R & ? & ? & ? & ? & HS). exists L, R. split_and!; try done. by etrans. Qed.

(** Both scans at the start of an iteration. *)
Lemma partition_scan fuel s A B p L M1 M2 R (k : option loc → option loc → st state (option loc * option loc)) Q :
  Qrep s (A ++ (L ++ M1) ++ p :: (M2 ++ R) ++ B) →
  length M1 ≤ fuel → length M2 ≤ fuel →
  Forall (before_ok (i_value p.2)) L → Forall (after_ok (i_value p.2)) R →
  (∀ L' N1 N2 R', L ++ M1 = L' ++ N1 → M2 ++ R = N2 ++ R' →
     length N1 ≤ length M1 → length N2 ≤ length M2 →
     Forall (before_ok (i_value p.2)) L' → Forall (after_ok (i_value p.2)) R' →
     (∀ x, head N1 = Some x → after_ok (i_value p.2) x) →
     (∀ y, last N2 = Some y → before_ok (i_value p.2) y) →
     wp (k (first_ N1 (Some p.1)) (last_ (Some p.1) N2)) Q s) →
  wp (p1 ← sort_scan e_next (λ v, bool_decide (comparator v (i_value p.2) > 0)%Z) p.1 fuel (first_ M1 (Some p.1));
      p2 ← sort_scan e_prev (λ v, bool_decide (comparator v (i_value p.2) < 0)%Z) p.1 fuel (last_ (Some p.1) M2);
      k p1 p2) Q s.
Proof.
  intros Hs Hf1 Hf2 HL HR Hk. apply wp_bind.
  assert (A ++ (L ++ M1) ++ p :: (M2 ++ R) ++ B = (A ++ L) ++ M1 ++ p :: (M2 ++ R ++ B)) as Heq1
    by (by rewrite <-!app_assoc).
  assert (A ++ (L ++ M1) ++ p :: (M2 ++ R) ++ B = (A ++ L ++ M1) ++ p :: M2 ++ R ++ B) as Heq2
    by (by rewrite <-!app_assoc).
  pose proof Hs as Hs1. rewrite Heq1 in Hs1. rewrite Heq2 in Hs. clear Heq1 Heq2.
  eapply wp_mono; [eapply scan_next_ok; [exact Hs1|done]|].
  intros r1 ? (-> & L1 & N1 & -> & -> & HL1 & HN1). apply wp_bind.
  eapply wp_mono; [eapply scan_prev_ok; [exact Hs|done]|].
  intros r2 ? (-> & N2 & R1 & -> & -> & HR1 & HN2). rewrite !length_app in *.
  eapply (Hk (L ++ L1) N1 N2 (R1 ++ R)); rewrite <-?app_assoc; try done; try lia.
  - apply Forall_app. split; [done|]. eapply Forall_impl; [exact HL1|]. intros x Hx.
    apply bool_decide_eq_true in Hx. unfold before_ok. lia.
  - apply Forall_app. split; [|done]. eapply Forall_impl; [exact HR1|]. intros x Hx.
    apply bool_decide_eq_true in Hx. unfold after_ok. lia.
  - intros x Hx%HN1%bool_decide_eq_false. unfold after_ok. lia.
  - intros x Hx%HN2%bool_decide_eq_false. unfold before_ok. lia.
Qed.

Lemma stretch_NoDup s A p L R B :
  Qrep s (A ++ L ++ p :: R ++ B) →
  NoDup L.*1 ∧ NoDup R.*1 ∧ p.1 ∉ L.*1 ∧ p.1 ∉ R.*1 ∧ (∀ l, l ∈ L.*1 → l ∈ R.*1 → False).
Proof.
  intros Hs. apply qrep_NoDup in Hs. rewrite !fmap_app in Hs. apply NoDup_app in Hs as (_ & _ & Hs).
  apply NoDup_app in Hs as (HL & HLR & HR). cbn in HR. apply NoDup_cons in HR as [Hp HR].
  rewrite fmap_app in HR. apply NoDup_app in HR as (HR & _ & _). cbn in HLR, Hp.
  rewrite fmap_app in HLR, Hp. split_and!; set_solver.
Qed.

(** The three kinds of iterations. *)
Notation cont := (option loc → option loc → option loc → option loc → st state (option loc * option loc)).

Lemma move_left_step s A B p L N y R (k : cont) Q :
  Qrep s (A ++ L ++ p :: (N ++ y :: R) ++ B) → i_list p.2 = true →
  (∀ s', Qrep s' (A ++ ((L ++ [y]) ++ []) ++ p :: (N ++ R) ++ B) →
     wp (k (first_ ((L ++ [y]) ++ []) (Some p.1)) (last_ (Some p.1) (N ++ R))
           (first_ (V := V) [] (Some p.1)) (last_ (Some p.1) N)) Q s') →
  wp (r ← sort_move_left p.1 y.1 (first_ L (Some p.1)) (last_ (Some p.1) (N ++ y :: R));
      p1 ← sort_next e_next p.1 p.1; k r.1.1 r.1.2 p1 r.2) Q s.
Proof.
  intros Hs Hp Hk. destruct (stretch_NoDup _ _ _ _ _ _ Hs) as (_ & HdR & HpL & _ & _).
  rewrite fmap_app in HdR. apply NoDup_app in HdR as (_ & _ & [Hy _]%NoDup_cons).
  rewrite app_nil_r, <-(first_replace p y), <-(last_drop y) in Hk by done.
  rewrite <-app_assoc in Hs. cbn [app] in Hs. rewrite (app_assoc A L) in Hs.
  apply wp_bind. eapply wp_mono; [by apply (sort_move_left_ok _ _ _ _ _ _ _ _ _ _ _ _ _ Hs)|].
  intros r s' [-> Hs']. cbn [fst snd]. unfold sort_next. rewrite (bool_decide_eq_true_2 (p.1 = p.1)) by done.
  apply wp_bind, wp_ret, Hk. by rewrite <-!app_assoc in *.
Qed.

Lemma move_right_step s A B p L x N R (k : cont) Q :
  Qrep s (A ++ (L ++ x :: N) ++ p :: R ++ B) → i_list p.2 = true →
  (∀ s', Qrep s' (A ++ (L ++ N) ++ p :: ([] ++ x :: R) ++ B) →
     wp (k (first_ (L ++ N) (Some p.1)) (last_ (Some p.1) ([] ++ x :: R))
           (first_ N (Some p.1)) (last_ (V := V) (Some p.1) [])) Q s') →
  wp (r ← sort_move_right p.1 x.1 (first_ (L ++ x :: N) (Some p.1)) (last_ (Some p.1) R);
      p2 ← sort_next e_prev p.1 p.1; k r.1.1 r.1.2 r.2 p2) Q s.
Proof.
  intros Hs Hp Hk. destruct (stretch_NoDup _ _ _ _ _ _ Hs) as (HdL & _ & _ & HpR & _).
  rewrite fmap_app in HdL. apply NoDup_app in HdL as (_ & Hx & _).
  assert (x.1 ∉ L.*1) as Hx' by (intros H; apply (Hx _ H); left).
  cbn [app] in Hk. rewrite <-(last_replace p x), <-(first_drop x) in Hk by done.
  rewrite <-(app_assoc L), (app_assoc A L) in Hs. cbn [app] in Hs.
  apply wp_bind. eapply wp_mono; [by apply (sort_move_right_ok _ _ _ _ _ _ _ _ _ _ _ _ _ Hs)|].
  intros r s' [-> Hs']. cbn [fst snd]. unfold sort_next. rewrite (bool_decide_eq_true_2 (p.1 = p.1)) by done.
  apply wp_bind, wp_ret, Hk. by rewrite <-!app_assoc in *.
Qed.

Lemma swap_step s A B p L x N1 N2 y R (k : option loc → option loc → st state (option loc * option loc)) Q :
  Qrep s (A ++ (L ++ x :: N1) ++ p :: (N2 ++ y :: R) ++ B) →
  (∀ s', Qrep s' (A ++ ((L ++ [set_val (i_value y.2) x]) ++ N1)
                    ++ p :: (N2 ++ set_val (i_value x.2) y :: R) ++ B) →
     wp (k (first_ N1 (Some p.1)) (last_ (Some p.1) N2)) Q s') →
  wp (_ ← swap_entry_node_val (Some x.1) (Some y.1);
      p1 ← sort_next e_next p.1 x.1; p2 ← sort_next e_prev p.1 y.1; k p1 p2) Q s.
Proof.
  intros Hs Hk. destruct (stretch_NoDup _ _ _ _ _ _ Hs) as (_ & _ & HpL & HpR & _).
  rewrite fmap_app in HpL, HpR.
  assert (A ++ (L ++ x :: N1) ++ p :: (N2 ++ y :: R) ++ B
    = (A ++ L) ++ x :: (N1 ++ p :: N2) ++ y :: R ++ B) as Heq by (by rewrite <-!app_assoc).
  rewrite Heq in Hs. apply wp_bind. eapply wp_qswap; [exact Hs|]. clear Hs Heq. clear s. intros s Hs.
  unfold sort_next. rewrite (bool_decide_eq_false_2 (x.1 = _)), (bool_decide_eq_false_2 (y.1 = _)) by set_solver.
  apply wp_bind, wp_bind. change x.1 with (set_val (i_value y.2) x).1.
  eapply wp_qread; [exact Hs|]. apply wp_ret. cbn [e_next].
  assert ((A ++ L) ++ set_val (i_value y.2) x :: (N1 ++ p :: N2) ++ set_val (i_value x.2) y :: R ++ B
    = (A ++ L ++ set_val (i_value y.2) x :: N1 ++ p :: N2) ++ set_val (i_value x.2) y :: R ++ B) as Heq
    by (by rewrite <-!app_assoc; cbn; rewrite <-!app_assoc).
  rewrite Heq in Hs. apply wp_bind, wp_bind. change y.1 with (set_val (i_value x.2) y).1.
  eapply wp_qread; [exact Hs|]. apply wp_ret. cbn [e_prev].
  rewrite (app_assoc A L), last_mid, last_mid. rewrite <-Heq in Hs.
  replace (first_ _ None) with (first_ N1 (Some p.1)) by (by destruct N1).
  apply Hk. rewrite <-!app_assoc in *. cbn [app] in *. by rewrite <-!app_assoc in *.
Qed.

(** Both scans have reached the pivot. *)
Lemma partition_exit s A B p L R (k : st state (option loc * option loc)) :
  Qrep s (A ++ (L ++ []) ++ p :: ([] ++ R) ++ B) →
  Forall (before_ok (i_value p.2)) L → Forall (after_ok (i_value p.2)) R →
  wp (if bool_decide (p.1 = p.1) then mret (first_ (L ++ []) (Some p.1), last_ (Some p.1) ([] ++ R)) else k)
     (partitioned A B p ((L ++ []) ++ [] ++ R)) s.
Proof.
  intros Hs HL HR. rewrite bool_decide_eq_true_2 by done. apply wp_ret. rewrite !app_nil_r in *.
  exists L, R. by split_and!.
Qed.

Lemma sort_partition_ok p A B fuel : ∀ L M1 M2 R s,
  Qrep s (A ++ (L ++ M1) ++ p :: (M2 ++ R) ++ B) → i_list p.2 = true →
  length M1 + length M2 ≤ fuel →
  Forall (before_ok (i_value p.2)) L → Forall (after_ok (i_value p.2)) R →
  wp (sort_partition comparator fuel p.1 (i_value p.2) (first_ (L ++ M1) (Some p.1))
        (last_ (Some p.1) (M2 ++ R)) (first_ M1 (Some p.1)) (last_ (Some p.1) M2))
     (partitioned A B p (L ++ M1 ++ M2 ++ R)) s.
Proof.
  induction fuel as [|fuel IH]; intros L M1 M2 R s Hs Hp Hf HL HR;
    cbn [sort_partition]; apply wp_bind, wp_get;
    (assert (length M1 ≤ size (l_heap s) ∧ length M2 ≤ size (l_heap s)) as [Hz1 Hz2]
      by (pose proof (qrep_size _ _ _ _ _ _ _ Hs) as Hz; rewrite !length_app in Hz; simpl in Hz;
          rewrite !length_app in Hz; lia));
    (eapply partition_scan; [exact Hs|done|done|done|done|]).
  all: clear HL HR Hz1 Hz2; intros L' N1 N2 R' Heq1 Heq2 HN1 HN2 HL HR Hx Hy.
  all: rewrite Heq1, Heq2 in *; rewrite (app_assoc L), Heq1.
  - destruct N1; [|simpl in *; lia]. destruct N2; [|simpl in *; lia]. by apply partition_exit.
  - pose proof (stretch_NoDup _ _ _ _ _ _ Hs) as (HdL & HdR & HpL & HpR & HLR).
    destruct N1 as [|x N1]; destruct N2 as [|y N2 _] using rev_ind.
    + by apply partition_exit.
    + cbn [first_]. rewrite last_snoc_. cbv beta iota. rewrite app_nil_r in *.
      rewrite <-(app_assoc N2) in *. cbn [app] in *. rewrite fmap_app in *. rewrite length_app in HN2.
      rewrite bool_decide_eq_false_2 by set_solver. rewrite bool_decide_eq_true_2 by done.
      eapply (move_left_step s A B p L' N2 y R' (sort_partition comparator fuel p.1 (i_value p.2)));
        [done|done|].
      intros s' Hs'. eapply wp_mono; [apply IH; [done|done|simpl in *; lia| |done]|].
      * apply Forall_app. split; [done|]. repeat constructor. apply Hy. by rewrite last_snoc.
      * intros r s''. apply partitioned_shuffle, shuffle_perm. perm.
    + cbn [first_]. change (last_ (Some p.1) []) with (Some p.1). cbv beta iota. cbn [app] in *.
      rewrite fmap_app in *. cbn [length] in HN1.
      rewrite !(bool_decide_eq_false_2 (x.1 = p.1)) by set_solver. rewrite bool_decide_eq_true_2 by done.
      eapply (move_right_step s A B p L' x N1 R' (sort_partition comparator fuel p.1 (i_value p.2)));
        [done|done|].
      intros s' Hs'. eapply wp_mono; [apply IH; [done|done|simpl in *; lia|done|]|].
      * constructor; [by apply Hx|done].
      * intros r s''. apply partitioned_shuffle, shuffle_perm. perm.
    + cbn [first_]. rewrite last_snoc_. cbv beta iota.
      rewrite <-(app_assoc N2) in *. cbn [app] in *. rewrite !fmap_app in *. rewrite length_app in HN2.
      cbn [length] in *. rewrite !(bool_decide_eq_false_2 (x.1 = _)) by set_solver.
      rewrite (bool_decide_eq_false_2 (y.1 = _)) by set_solver.
      eapply (swap_step s A B p L' x N1 N2 y R'); [done|]. intros s' Hs'.
      replace (first_ (L' ++ x :: N1) (Some p.1)) with
        (first_ ((L' ++ [set_val (i_value y.2) x]) ++ N1) (Some p.1)) by (by destruct L').
      replace (last_ (Some p.1) (N2 ++ y :: R')) with
        (last_ (Some p.1) (N2 ++ set_val (i_value x.2) y :: R')) by (by rewrite !last_mid).
      eapply wp_mono; [apply IH; [done|done|lia| |]|].
      * apply Forall_app. split; [done|]. repeat constructor. exact (Hy y (last_snoc _ _)).
      * constructor; [exact (Hx x eq_refl)|done].
      * intros r s''. apply partitioned_shuffle, shuffle_swap_mid.
Qed.
End Partition.

(** ** Sorting *)
(** What the comparator must promise for the result to be sorted: comparing
    the other way round reverses the sign, and "not smaller" is transitive. *)
Class ListOrder {V : Type} (comparator : option V → option V → Z) : Prop := {
  lo_total a b : (comparator a b ≤ 0 → 0 ≤ comparator b a)%Z;
  lo_trans a b c : (0 ≤ comparator a b → 0 ≤ comparator b c → 0 ≤ comparator a c)%Z
}.

Section QuickSort.
Context {V : Type} (X : list (loc * list_entry V)) (fr : loc) (cu : option loc) (po ln : Z).
Context (comparator : option V → option V → Z).
Notation state := (linked_list V).
Notation elem := (loc * item V)%type.
Notation Qrep := (qrep X fr cu po ln).
Implicit Types (s : state) (A B L M R W : list elem) (x y p : elem).

Lemma sort_count_ok s p B L : ∀ A fuel z,
  Qrep s (A ++ L ++ p :: B) → length L ≤ fuel →
  wp (sort_count fuel p.1 (first_ L (Some p.1)) z) (λ r s', s' = s ∧ r = (z + Z.of_nat (length L))%Z) s.
Proof.
  induction L as [|x L IH]; intros A fuel z Hs Hf; cbn [first_].
  - assert (sort_count (V := V) fuel p.1 (Some p.1) z = mret z) as Hm.
    { destruct fuel; cbn [sort_count]; by rewrite bool_decide_eq_true_2. }
    rewrite Hm. apply wp_ret. simpl. split; [done|lia].
  - destruct fuel as [|fuel]; [simpl in Hf; lia|]. cbn [sort_count].
    destruct (stretch_NoDup X fr cu po ln s A p (x :: L) B [] ) as (_ & _ & Hp & _); [by rewrite app_nil_r|].
    rewrite bool_decide_eq_false_2 by (intros [= Heq]; apply Hp; rewrite <-Heq; left).
    apply wp_bind. cbn [eptr]. apply wp_ret, wp_bind. eapply wp_qread; [exact Hs|]. cbn [e_next].
    replace (first_ _ None) with (first_ L (Some p.1)) by (by destruct L). simpl in Hf.
    eapply wp_mono; [apply (IH (A ++ [x])); [by rewrite <-app_assoc|lia]|].
    intros r s' [-> ->]. split; [done|]. simpl. lia.
Qed.

(** The choice of the pivots of both sides. *)
Lemma advance_next_ok s B n : ∀ A x M,
  Qrep s (A ++ x :: M ++ B) → n ≤ length M →
  wp (sort_advance e_next n (Some x.1)) (λ r s', s' = s ∧ ∃ y, y ∈ x :: M ∧ r = Some y.1) s.
Proof.
  induction n as [|n IH]; intros A x M Hs Hn; cbn [sort_advance];
    (apply wp_bind; eapply wp_qread; [exact Hs|]; cbn [e_next]).
  - destruct (first_ _ _); apply wp_ret; (split; [done|]; exists x; split; [left|done]).
  - destruct M as [|m M]; [simpl in Hn; lia|]. cbn [app first_]. simpl in Hn.
    eapply wp_mono; [apply (IH (A ++ [x]) m M); [by rewrite <-app_assoc|lia]|].
    intros r s' (-> & y & Hy & ->). split; [done|]. exists y. split; [by right|done].
Qed.
Lemma advance_prev_ok s A n : ∀ M x B,
  Qrep s (A ++ M ++ x :: B) → n ≤ length M →
  wp (sort_advance e_prev n (Some x.1)) (λ r s', s' = s ∧ ∃ y, y ∈ M ++ [x] ∧ r = Some y.1) s.
Proof.
  induction n as [|n IH]; intros M x B Hs Hn; cbn [sort_advance];
    (rewrite app_assoc in Hs; apply wp_bind; eapply wp_qread; [exact Hs|]; cbn [e_prev]).
  - destruct (last_ _ _); apply wp_ret; (split; [done|]; exists x; split; [set_solver|done]).
  - destruct M as [|m M _] using rev_ind; [simpl in Hn; lia|]. rewrite length_app in Hn. simpl in Hn.
    rewrite app_assoc, last_snoc_.
    eapply wp_mono; [apply (IH M m (x :: B)); [by rewrite <-!app_assoc in *|lia]|].
    intros r s' (-> & y & Hy & ->). split; [done|]. exists y. split; [set_solver|done].
Qed.

(** The order of the sorted list, greater values first. *)
Definition desc (a b : option V) : Prop := (0 ≤ comparator a b)%Z.

Definition sorted_stretch A W B s : Prop :=
  ∃ W', Qrep s (A ++ W' ++ B) ∧ shuffle W' W ∧ (ListOrder comparator → StronglySorted desc (values W')).

Lemma sorted_join p L R :
  ListOrder comparator → StronglySorted desc (values L) → StronglySorted desc (values R) →
  Forall (before_ok comparator (i_value p.2)) L → Forall (after_ok comparator (i_value p.2)) R →
  StronglySorted desc (values (L ++ p :: R)).
Proof.
  intros HO HL HR HbL HaR. rewrite values_app, values_cons.
  assert (∀ v, v ∈ values L → desc v (i_value p.2)) as H1.
  { intros v (x & -> & Hx)%list_elem_of_fmap. rewrite Forall_forall in HbL. by apply HbL. }
  assert (∀ v, v ∈ values R → desc (i_value p.2) v) as H2.
  { intros v (x & -> & Hx)%list_elem_of_fmap. rewrite Forall_forall in HaR. by apply lo_total, HaR. }
  apply StronglySorted_app. split_and!; [|done|].
  - intros a b Ha [->|Hb]%elem_of_cons; [by apply H1|]. unfold desc. eapply lo_trans; [by apply H1|by apply H2].
  - constructor; [done|]. by apply Forall_forall.
Qed.

(** The ends of a stretch of two or more entries differ. *)
Lemma ends_differ W : NoDup W.*1 → 2 ≤ length W → first_ W None ≠ last_ None W.
Proof.
  intros Hnd Hl. destruct W as [|x [|y W]]; simpl in Hl; [lia|lia|]. rewrite !last_cons_. cbn [first_].
  apply NoDup_cons in Hnd as [Hx _]. by intros Heq%symmetry%last_not_in.
Qed.

(** Sorting one side of the pivot, given that sorting works for it. *)
Lemma side_ok fuel s A L B (c1 c2 : bool) hd tl pv :
  (∀ y, y ∈ L → 2 ≤ length L →
     wp (list_quick_sort comparator fuel (first_ L None) (last_ None L) (Some y.1) (Z.of_nat (length L)))
        (λ _, sorted_stretch A L B) s) →
  Qrep s (A ++ L ++ B) →
  (2 ≤ length L → c1 = true ∧ c2 = true ∧ hd = first_ L None ∧ tl = last_ None L
                  ∧ ∃ y, y ∈ L ∧ pv = Some y.1) →
  wp (ewhen (bool_decide (Z.of_nat (length L) > 1)%Z && c1 && c2)
        (list_quick_sort comparator fuel hd tl pv (Z.of_nat (length L))))
     (λ _, sorted_stretch A L B) s.
Proof.
  intros Hq Hs Hc. case_bool_decide as Hl.
  - destruct Hc as (-> & -> & -> & -> & y & Hy & ->); [lia|]. apply Hq; [done|lia].
  - apply wp_ret. exists L. split_and!; [done|done|]. intros _.
    destruct L as [|x [|y L]]; [constructor|by repeat constructor|simpl in Hl; lia].
Qed.

(** A stretch of two entries. *)
Lemma two_ok s A x y B :
  Qrep s (A ++ [x; y] ++ B) →
  wp (a ← eld x.1; b ← eld y.1;
      ewhen (bool_decide (comparator (e_value a) (e_value b) < 0)%Z)
        (swap_entry_node_val (Some x.1) (Some y.1)))
     (λ _, sorted_stretch A [x; y] B) s.
Proof.
  intros Hs. apply wp_bind. eapply wp_qread; [exact Hs|]. apply wp_bind.
  eapply (wp_qread _ _ _ _ _ _ (A ++ [x])); [rewrite <-app_assoc; exact Hs|]. cbn [e_value]. case_bool_decide as Hc; cbn [ewhen].
  - eapply (wp_qswap _ _ _ _ _ s A x []); [exact Hs|]. intros s' Hs'.
    exists [set_val (i_value y.2) x; set_val (i_value x.2) y].
    split_and!; [exact Hs'|apply shuffle_swap|]. intros HO. repeat constructor.
    unfold desc. simpl. apply lo_total. lia.
  - apply wp_ret. exists [x; y]. split_and!; [done|done|]. intros _. repeat constructor. unfold desc. simpl. lia.
Qed.

(** Sorting both sides of the pivot, given that shorter stretches are sorted. *)
Definition sorts (fuel : nat) : Prop := ∀ A W B s y,
  Qrep s (A ++ W ++ B) → Forall (λ x, i_list x.2 = true) W → y ∈ W → length W ≤ fuel →
  wp (list_quick_sort comparator fuel (first_ W None) (last_ None W) (Some y.1) (Z.of_nat (length W)))
     (λ _, sorted_stretch A W B) s.

Lemma left_ok fuel s A L p B pv :
  sorts fuel → Qrep s (A ++ L ++ p :: B) → Forall (λ x, i_list x.2 = true) L → length L ≤ fuel →
  (L ≠ [] → ∃ y, y ∈ L ∧ pv = Some y.1) →
  wp (eld p.1) (λ pe, wp
      (ewhen (bool_decide (Z.of_nat (length L) > 1)%Z && bool_decide (e_prev pe ≠ None)
             && bool_decide (first_ L (Some p.1) ≠ e_prev pe))
        (list_quick_sort comparator fuel (first_ L (Some p.1)) (e_prev pe) pv (Z.of_nat (length L))))
     (λ _, sorted_stretch A L (p :: B))) s.
Proof.
  intros IH Hs Hi Hf Hpv. pose proof (qrep_NoDup _ _ _ _ _ _ _ Hs) as Hnd.
  eapply (wp_qread _ _ _ _ _ _ (A ++ L)); [rewrite <-app_assoc; exact Hs|]. cbn [e_prev].
  apply side_ok; [by intros; apply IH|done|]. intros Hl.
  destruct L as [|x L _] using rev_ind; [simpl in Hl; lia|].
  assert (first_ (L ++ [x]) (Some p.1) = first_ (L ++ [x]) None) as -> by (by destruct L).
  rewrite app_assoc, last_snoc_. rewrite <-(last_snoc_ None L x).
  rewrite bool_decide_eq_true_2 by (by rewrite last_snoc_). rewrite bool_decide_eq_true_2.
  - split_and!; try done. apply Hpv. by destruct L.
  - apply ends_differ; [|done]. rewrite !fmap_app in *. rewrite <-!app_assoc in *.
    apply NoDup_app in Hnd as (_ & _ & Hnd). rewrite app_assoc in Hnd. by apply NoDup_app in Hnd as [? _].
Qed.

Lemma right_ok fuel s A p R B pv :
  sorts fuel → Qrep s (A ++ p :: R ++ B) → Forall (λ x, i_list x.2 = true) R → length R ≤ fuel →
  (R ≠ [] → ∃ y, y ∈ R ∧ pv = Some y.1) →
  wp (eld p.1) (λ pe, wp
      (ewhen (bool_decide (Z.of_nat (length R) > 1)%Z && bool_decide (e_next pe ≠ None)
             && bool_decide (last_ (Some p.1) R ≠ e_next pe))
        (list_quick_sort comparator fuel (e_next pe) (last_ (Some p.1) R) pv (Z.of_nat (length R))))
     (λ _, sorted_stretch (A ++ [p]) R B)) s.
Proof.
  intros IH Hs Hi Hf Hpv. pose proof (qrep_NoDup _ _ _ _ _ _ _ Hs) as Hnd.
  eapply wp_qread; [exact Hs|]. cbn [e_next].
  assert (Qrep s ((A ++ [p]) ++ R ++ B)) as Hs' by (by rewrite <-app_assoc).
  apply side_ok; [by intros; apply IH|done|]. intros Hl.
  destruct R as [|x R]; [simpl in Hl; lia|]. cbn [app first_].
  assert (last_ (Some p.1) (x :: R) = last_ None (x :: R)) as -> by (by rewrite !last_cons_).
  rewrite bool_decide_eq_true_2 by done. rewrite bool_decide_eq_true_2.
  - split_and!; try done. by apply Hpv.
  - change (Some x.1) with (first_ (x :: R) None). apply not_eq_sym, ends_differ; [|done].
    rewrite !fmap_app in Hnd. apply NoDup_app in Hnd as (_ & _ & Hnd). cbn in Hnd. rewrite fmap_app in Hnd.
    apply NoDup_cons in Hnd as [_ Hnd]. change (NoDup ((x :: R).*1 ++ B.*1)) in Hnd. by apply NoDup_app in Hnd as [? _].
Qed.

Lemma pivot_left_ok s A L p B :
  Qrep s (A ++ L ++ p :: B) →
  wp (sort_advance e_next (Z.to_nat (Z.of_nat (length L) `quot` 2)) (first_ L (Some p.1)))
     (λ r s', s' = s ∧ (L ≠ [] → ∃ y, y ∈ L ∧ r = Some y.1)) s.
Proof.
  intros Hs. destruct L as [|x L]; cbn [first_].
  - eapply wp_mono; [eapply (advance_next_ok s B _ A p []); [exact Hs|by vm_compute; lia]|].
    by intros r s' [-> _].
  - eapply wp_mono; [eapply (advance_next_ok s (p :: B)); [exact Hs|]|by intros r s' [-> ?]].
    cbn [length]. rewrite Z.quot_div_nonneg by lia.
    assert (Z.of_nat (S (length L)) `div` 2 < Z.of_nat (S (length L)))%Z by (apply Z.div_lt; lia). lia.
Qed.
Lemma pivot_right_ok s A p R B :
  Qrep s (A ++ p :: R ++ B) →
  wp (sort_advance e_prev (Z.to_nat (Z.of_nat (length R) `quot` 2)) (last_ (Some p.1) R))
     (λ r s', s' = s ∧ (R ≠ [] → ∃ y, y ∈ R ∧ r = Some y.1)) s.
Proof.
  intros Hs. destruct R as [|x R _] using rev_ind.
  - eapply wp_mono; [eapply (advance_prev_ok s A _ [] p); [exact Hs|by vm_compute; lia]|].
    by intros r s' [-> _].
  - rewrite last_snoc_, length_app. eapply wp_mono; [eapply (advance_prev_ok s (A ++ [p]) _ R x B)|by intros r s' [-> ?]].
    + by rewrite <-!app_assoc in *.
    + cbn [length]. rewrite Z.quot_div_nonneg by lia.
      assert (Z.of_nat (length R + 1) `div` 2 < Z.of_nat (length R + 1))%Z by (apply Z.div_lt; lia). lia.
Qed.

Lemma sides_ok fuel m s A L p R B :
  sorts fuel → Qrep s (A ++ L ++ p :: R ++ B) → Forall (λ x, i_list x.2 = true) (L ++ R) →
  length L + length R ≤ fuel → length L ≤ m →
  Forall (before_ok comparator (i_value p.2)) L → Forall (after_ok comparator (i_value p.2)) R →
  wp (l1 ← sort_count m p.1 (first_ L (Some p.1)) 0;
      let l2 := (Z.of_nat (length L + S (length R)) - (l1 + 1))%Z in
      pv1 ← sort_advance e_next (Z.to_nat (l1 `quot` 2)) (first_ L (Some p.1));
      pv2 ← sort_advance e_prev (Z.to_nat (l2 `quot` 2)) (last_ (Some p.1) R);
      pe ← eld p.1;
      _ ← ewhen (bool_decide (l1 > 1)%Z && bool_decide (e_prev pe ≠ None)
                 && bool_decide (first_ L (Some p.1) ≠ e_prev pe))
            (list_quick_sort comparator fuel (first_ L (Some p.1)) (e_prev pe) pv1 l1);
      pe ← eld p.1;
      ewhen (bool_decide (l2 > 1)%Z && bool_decide (e_next pe ≠ None)
             && bool_decide (last_ (Some p.1) R ≠ e_next pe))
        (list_quick_sort comparator fuel (e_next pe) (last_ (Some p.1) R) pv2 l2))
     (λ _, sorted_stretch A (L ++ p :: R) B) s.
Proof.
  intros IH Hs Hi Hf Hm HL HR. apply Forall_app in Hi as [HiL HiR].
  apply wp_bind. eapply wp_mono; [by apply (sort_count_ok s p (R ++ B) L A m 0%Z)|].
  intros l1 ? [-> ->]. cbv zeta. rewrite Z.add_0_l.
  replace (Z.of_nat (length L + S (length R)) - (Z.of_nat (length L) + 1))%Z with (Z.of_nat (length R)) by lia.
  apply wp_bind. eapply wp_mono; [by eapply pivot_left_ok|]. intros pv1 ? [-> Hpv1].
  apply wp_bind. eapply wp_mono; [eapply (pivot_right_ok s (A ++ L)); by rewrite <-app_assoc|]. intros pv2 ? [-> Hpv2].
  apply wp_bind. eapply wp_mono; [eapply left_ok; [exact IH|exact Hs|done|lia|exact Hpv1]|].
  intros pe s1 Hleft. apply wp_bind. eapply wp_mono; [exact Hleft|]. clear Hleft Hs.
  intros _ s2 (L' & Hs & HshL & HsL). apply wp_bind. rewrite app_assoc in Hs.
  eapply wp_mono; [eapply right_ok; [exact IH|exact Hs|done|lia|exact Hpv2]|].
  intros pe' s3 Hright. eapply wp_mono; [exact Hright|]. clear Hright Hs.
  intros _ s4 (R' & Hs & HshR & HsR). exists (L' ++ p :: R'). split_and!.
  - by rewrite <-!app_assoc in *.
  - by rewrite HshL, HshR.
  - intros HO. apply sorted_join; [done|by apply HsL|by apply HsR| |].
    + by apply (shuffle_values (λ v, 0 ≤ comparator v (i_value p.2))%Z L' L).
    + by apply (shuffle_values (λ v, comparator v (i_value p.2) ≤ 0)%Z R' R).
Qed.

Lemma list_quick_sort_ok fuel : sorts fuel.
Proof.
  induction fuel as [|fuel IH]; intros A W B s p Hs Hi Hp Hf.
  { destruct W; [set_solver|simpl in Hf; lia]. }
  destruct (decide (length W < 3)) as [Hl|Hl].
  { destruct W as [|x [|y [|z W]]]; [set_solver| | |simpl in Hl; lia].
    - cbn [list_quick_sort length first_]. apply wp_ret. exists [x]. split_and!; [done|done|]. by repeat constructor.
    - by apply two_ok. }
  apply list_elem_of_split in Hp as (L0 & R0 & ->).
  rewrite first_app, last_mid. cbn [first_].
  assert (∃ h t, first_ L0 (Some p.1) = Some h ∧ last_ (Some p.1) R0 = Some t) as (h & t & Hh & Ht).
  { unfold last_. destruct L0, (last R0); by eexists _, _. }
  rewrite Hh, Ht. cbn [list_quick_sort]. rewrite !bool_decide_eq_false_2 by lia. rewrite <-Hh, <-Ht.
  rewrite <-app_assoc in Hs. cbn [app] in Hs. apply Forall_app in Hi as [HiL HiR].
  apply Forall_cons in HiR as [Hip HiR].
  apply wp_bind. eapply (wp_qread _ _ _ _ _ _ (A ++ L0)); [rewrite <-app_assoc; exact Hs|]. cbn [e_value].
  apply wp_bind, wp_get, wp_bind. rewrite length_app in *. cbn [length] in *.
  pose proof (qrep_size _ _ _ _ _ _ _ Hs) as Hz. rewrite !length_app in Hz. cbn [length] in Hz.
  rewrite !length_app in Hz.
  pose proof (sort_partition_ok X fr cu po ln comparator p A B (size (l_heap s)) [] L0 R0 [] s) as Hpart.
  rewrite !app_nil_r in Hpart. cbn [app] in Hpart.
  eapply wp_mono; [apply Hpart; [done|done|lia|done|done]|]. clear Hpart Hs.
  intros r s1 (L & R & Hs & -> & HL & HR & Hsh). cbn [fst snd].
  pose proof (shuffle_length _ _ Hsh) as Hlen. rewrite !length_app in Hlen.
  replace (length L0 + S (length R0)) with (length L + S (length R)) by lia.
  pose proof (sides_ok fuel (size (l_heap s)) s1 A L p R B IH Hs) as Hside.
  eapply wp_mono; [apply Hside; [|lia|lia|done|done]|].
  - eapply shuffle_linked; [exact Hsh|]. by apply Forall_app.
  - intros _ s2 (W' & Hs2 & HshW & HsW). exists W'. split_and!; [done| |done].
    rewrite HshW. etrans; [apply shuffle_perm; symmetry; apply Permutation_middle|].
    rewrite Hsh. apply shuffle_perm, Permutation_middle.
Qed.
End QuickSort.

(** ** list_sort *)
Section ListSort.
Context {V : Type} (comparator : option V → option V → Z).
Implicit Types (s : linked_list V) (vs : list (option V)).

(** Every entry names its list: what list_sort relies on. *)
Definition all_linked s : Prop := map_Forall (λ _ e, e_list e = true) (l_heap s).

Lemma all_linked_items s xs :
  lrep s xs [] → all_linked s ↔ Forall (λ x, i_list x.2 = true) xs.
Proof.
  intros Hr. split.
  - intros Hl. apply Forall_lookup. intros i x Hx. exact (Hl _ _ (lrep_lookup _ _ _ _ _ Hr Hx)).
  - intros Hi l e He. destruct Hr as [Hs _ _ _]. destruct (ls_heap _ _ _ _ _ _ _ _ Hs) as [Hnd Hh].
    rewrite app_nil_r in Hh, Hnd. rewrite Hh in He. apply elem_of_list_to_map in He; [|done].
    clear -Hi He. revert He. generalize (@None loc) at 1. induction Hi as [|x xs Hx Hi IH]; intros q He; [by apply not_elem_of_nil in He|].
    cbn [dseg] in He. apply elem_of_cons in He as [[= -> ->]|He]; [done|]. by apply (IH _ He).
Qed.

(** The pivot of the first call: NULL for fewer than two entries. *)
Lemma sort_pick_ok s xs (Q : option loc → linked_list V → Prop) :
  lrep s xs [] →
  (length xs < 2 → Q None s) →
  (∀ s' y, lrep s' xs [] → y ∈ xs → Q (Some y.1) s') →
  wp (pick_entry (u64 (l_length s `div` 2 - 1))) Q s.
Proof.
  intros Hr H0 H2. rewrite (lrep_length _ _ _ Hr). pose proof (lr_max _ _ _ Hr) as Hm. unfold MAX_LEN in Hm.
  destruct (decide (length xs < 2)) as [Hl|Hl].
  - replace (Z.of_nat (length xs) `div` 2)%Z with 0%Z by (symmetry; apply Z.div_small; lia).
    unfold pick_entry. apply wp_bind, wp_get. rewrite (lrep_length _ _ _ Hr).
    change (u64 (0 - 1)) with (2 ^ 64 - 1)%Z.
    rewrite bool_decide_eq_true_2 by lia. apply wp_ret. by apply H0.
  - assert (1 ≤ Z.of_nat (length xs) `div` 2)%Z by (apply Z.div_le_lower_bound; lia).
    assert (Z.of_nat (length xs) `div` 2 < Z.of_nat (length xs))%Z by (apply Z.div_lt; lia).
    rewrite u64_id by (unfold in_u64; lia).
    rewrite <-(Z2Nat.id (Z.of_nat (length xs) `div` 2 - 1)) by lia.
    eapply pick_ok; [exact Hr|]. intros s' Hr' _.
    destruct (lookup_lt_is_Some_2 xs (Z.to_nat (Z.of_nat (length xs) `div` 2 - 1))) as [y Hy]; [lia|].
    rewrite list_lookup_fmap, Hy. apply H2; [done|]. by eapply list_elem_of_lookup_2.
Qed.

(** The cursor is reset at the end. *)
Lemma sort_end_ok s fr cu po xs ys :
  qrep [] fr cu po (Z.of_nat (length xs)) s ys → shuffle ys xs →
  Forall (λ l, (l < fr)%positive) (xs.*1 ++ []) → (Z.of_nat (length xs) ≤ MAX_LEN)%Z →
  wp (_ ← modify (set_cur None); modify (set_pos 0%Z)) (λ _ s', lrep s' ys []) s.
Proof.
  intros Hs Hsh Hf Hm. unfold qrep in Hs. pose proof (shuffle_length _ _ Hsh) as Hlen. lsteps.
  eapply lrep_intro; [exact Hs|done|done|done|by rewrite Hlen|by apply cursor_none| |by rewrite Hlen].
  by rewrite (shuffle_locs _ _ Hsh).
Qed.

Lemma list_sort_ok s xs :
  lrep s xs [] → Forall (λ x, i_list x.2 = true) xs →
  wp (list_sort comparator) (λ _ s', ∃ ys, lrep s' ys [] ∧ shuffle ys xs
    ∧ (ListOrder comparator → StronglySorted (desc comparator) (values ys))) s.
Proof.
  intros Hr Hi. unfold list_sort. apply wp_bind, wp_get, wp_bind.
  eapply sort_pick_ok; [exact Hr| |].
  - intros Hl. apply wp_bind, wp_get, wp_bind.
    assert (list_quick_sort comparator (Z.to_nat (l_length s)) (l_head s) (l_tail s) None
      (i32 (l_length s)) = mret tt) as ->.
    { by destruct (Z.to_nat (l_length s)), (l_head s), (l_tail s). }
    apply wp_ret. lopen Hr. eapply wp_mono; [by eapply (sort_end_ok s fr cu po xs xs)|].
    intros [] s' Hr'. exists xs. split_and!; [done|done|]. intros _.
    destruct xs as [|x [|y xs]]; [constructor|by repeat constructor|simpl in Hl; lia].
  - clear s Hr. intros s y Hr Hy. apply wp_bind, wp_get, wp_bind. rewrite (lrep_length _ _ _ Hr).
    lopen Hr. rewrite (ls_head _ _ _ _ _ _ _ _ Hs), (ls_tail _ _ _ _ _ _ _ _ Hs), Nat2Z.id.
    rewrite i32_id by (unfold in_i32, MAX_LEN in *; lia).
    assert (qrep [] fr cu po (Z.of_nat (length xs)) s ([] ++ xs ++ [])) as Hq by (by rewrite app_nil_r).
    eapply wp_mono; [by eapply (list_quick_sort_ok [] fr cu po _ comparator (length xs) [] xs [])|].
    intros [] s' (ys & Hq' & Hsh & Hso). rewrite app_nil_r in Hq'.
    eapply wp_mono; [by eapply (sort_end_ok s' fr cu po xs ys)|]. intros [] s'' Hr'. by exists ys.
Qed.

(** C9: [list_sort] on a list all of whose entries know their list returns
    without a fault for every comparator, whatever it answers: the values of
    the list are rearranged, no entry is lost and all still know their list;
    if the comparator is a total preorder, the list is then sorted with the
    greater values first. *)
Theorem list_sort_sorts s vs :
  list_is s vs → all_linked s →
  ∃ s' vs', list_sort comparator s = Ret (tt, s') ∧ list_is s' vs' ∧ all_linked s' ∧ vs' ≡ₚ vs
    ∧ (ListOrder comparator → StronglySorted (desc comparator) vs').
Proof.
  intros (xs & Hr & <-) Hl. rewrite (all_linked_items s xs Hr) in Hl.
  destruct (wp_run _ _ _ (list_sort_ok s xs Hr Hl)) as ([] & s' & Hrun & ys & Hr' & Hsh & Hso).
  exists s', (values ys). split_and!; [done|by exists ys| |by destruct Hsh|done].
  apply (all_linked_items s' ys Hr'). by eapply shuffle_linked.
Qed.
End ListSort.

(** ** Where sorting goes wrong, and witnesses *)
(** A list of numbers by pushing (false) or pushing tagged (true), and an
    insertion; the comparator orders numbers. *)
Definition num_cmp (a b : option Z) : Z := (default 0 a - default 0 b)%Z.
#[export] Instance num_cmp_order : ListOrder num_cmp.
Proof. split; unfold num_cmp; intros; lia. Qed.

Fixpoint push_all (vs : list (bool * Z)) : st (linked_list Z) unit :=
  match vs with
  | [] => mret tt
  | (tg, v) :: vs => _ ← add_value tg (Some v) push_entry; push_all vs
  end.
Definition numbers (vs : list (bool * Z)) : linked_list Z :=
  match push_all vs list_create with Ret (_, s) => s | Fault => list_create end.
Definition flagged (s : linked_list Z) : list (bool * option Z) :=
  match list_clear s with Ret (l, _) => l | Fault => [] end.

(** Two defects of the sort.  An entry that [list_insert_value] linked in
    the middle does not know its list, so that sorting with such an entry as
    pivot dereferences a null pointer; and since values are exchanged without
    their tagged flag, sorting a list that holds plain and tagged values
    leaves plain values flagged as tagged and the other way round. *)
Theorem list_sort_defects :
  (∃ s, list_insert_value (Some 9%Z) 1 (numbers [(false, 1); (false, 2); (false, 3); (false, 4)])%Z = Ret (0%Z, s)
     ∧ list_sort num_cmp s = Fault)
  ∧ ∃ s, list_sort num_cmp (numbers [(true, 1); (false, 2)])%Z = Ret (tt, s)
     ∧ flagged s = [(true, Some 2); (false, Some 1)]%Z.
Proof.
  split; eexists; (split; [vm_compute; reflexivity|vm_compute; reflexivity]).
Qed.

Lemma push_all_is vs : ∀ s ws,
  list_is s ws → (Z.of_nat (length ws + length vs) ≤ MAX_LEN)%Z →
  ∃ s', push_all (pair false <$> vs) s = Ret (tt, s') ∧ list_is s' (ws ++ (Some <$> vs)).
Proof.
  induction vs as [|v vs IH]; intros s ws Hl Hm.
  - exists s. split; [done|]. simpl. by rewrite app_nil_r.
  - simpl in Hm. destruct (list_push_value_is s ws (Some v) Hl) as (s1 & H1 & L1); [lia|].
    destruct (IH s1 _ L1) as (s2 & H2 & L2); [rewrite length_app; simpl; lia|]. exists s2.
    cbn [push_all fmap list_fmap]. unfold list_push_value in H1. unfold mbind, st_bind. rewrite H1.
    split; [exact H2|]. by rewrite <-app_assoc in L2.
Qed.

Definition three : linked_list Z := numbers (pair false <$> [1; 3; 2]%Z).
Lemma three_is : list_is three (Some <$> [1; 3; 2]%Z).
Proof.
  destruct (push_all_is [1; 3; 2]%Z list_create [] list_is_create) as (s & Hs & Hl); [done|].
  unfold three, numbers. by rewrite Hs.
Qed.

Lemma list_sort_sorts_witness :
  ∃ s' vs', list_sort num_cmp three = Ret (tt, s') ∧ list_is s' vs' ∧ all_linked s'
    ∧ vs' ≡ₚ (Some <$> [1; 3; 2]%Z) ∧ (ListOrder num_cmp → StronglySorted (desc num_cmp) vs').
Proof.
  apply (list_sort_sorts num_cmp three (Some <$> [1; 3; 2]%Z) three_is).
  refine (bool_decide_unpack (map_Forall (λ _ e, e_list e = true) (l_heap three)) _). vm_compute. exact I.
Defined.
