(* ===== verification/ListTheorems.v ===== *)
(** * Properties of the linked list (linklist.c)

    The value interface against sequences: a script of calls returns on the
    linked list what it returns on a sequence. *)
From S2P Require Import Prelude Heap LinkedList LinkedListRep LinkedListSpec.

Section Empty.
Context {V : Type}.
Implicit Types (s : linked_list V).

(** Fetching past the end. *)
Lemma list_fetch_beyond s vs i :
  list_is s vs → length vs ≤ i → (Z.of_nat i < 2 ^ 32)%Z →
  ∃ s', list_fetch_value (Z.of_nat i) s = Ret (None, s') ∧ list_is s' vs.
Proof.
  intros Hl Hi Hmax. destruct (list_is_length s vs Hl) as [Hlen Hm].
  unfold list_fetch_value, fetch_entry, mbind, st_bind, st_get. rewrite Hlen. case_bool_decide as H0.
  { assert (vs = []) as -> by (apply length_zero_iff_nil; lia). exists s. split; [|done].
    by apply (list_shift_empty s Hl). }
  rewrite bool_decide_eq_false_2.
  2: { unfold u64, MAX_LEN in *. intros H. destruct (decide (length vs = 0)) as [Hz|].
       - rewrite Hz in H. change (Z.of_nat 0 - 1)%Z with (-1)%Z in H.
         change ((-1) `mod` 2 ^ 64)%Z with (2 ^ 64 - 1)%Z in H. lia.
       - rewrite Z.mod_small in H by lia. lia. }
  destruct Hl as (xs & Hr & Hv).
  assert (wp (remove_entry (Z.of_nat i)) (λ r s', r = None ∧ list_is s' vs) s) as Hwp.
  { unfold remove_entry. apply wp_bind. eapply pick_ok; [exact Hr|]. intros s' Hr' _.
    rewrite lookup_ge_None_2 by (rewrite length_fmap, <-(length_values xs), Hv; done).
    apply wp_bind, wp_ret, wp_ret. split; [done|]. by exists xs. }
  apply wp_run in Hwp as (r & s' & Hrun & -> & Hl'). rewrite Hrun. by exists s'.
Qed.
End Empty.

Section Scripts.
Context {V : Type}.
Implicit Types (s : linked_list V) (vs : list (option V)).

(** Calls of the value interface. *)
Inductive list_op :=
| Push (v : option V) | Unshift (v : option V) | Insert (v : option V) (pos : nat)
| Pop | Shift | Fetch (pos : nat) | Pick (pos : nat) | Count.
(** What a call returns: a code, a value or a size. *)
Inductive list_res := Code (rc : Z) | Value (v : option V).

Definition run_op (o : list_op) : st (linked_list V) list_res :=
  match o with
  | Push v => rc ← list_push_value v; mret (Code rc)
  | Unshift v => rc ← list_unshift_value v; mret (Code rc)
  | Insert v i => rc ← list_insert_value v (Z.of_nat i); mret (Code rc)
  | Pop => v ← list_pop_value; mret (Value v)
  | Shift => v ← list_shift_value; mret (Value v)
  | Fetch i => v ← list_fetch_value (Z.of_nat i); mret (Value v)
  | Pick i => v ← list_pick_value (Z.of_nat i); mret (Value v)
  | Count => c ← list_count; mret (Code c)
  end.

(** The same calls on a sequence. *)
Definition spec_op (o : list_op) vs : list_res * list (option V) :=
  match o with
  | Push v => (Code 0, vs ++ [v])
  | Unshift v => (Code 0, v :: vs)
  | Insert v i => (Code 0, insert_at vs i v)
  | Pop => (Value (mjoin (last vs)), take (length vs - 1) vs)
  | Shift => (Value (mjoin (head vs)), tail vs)
  | Fetch i => (Value (mjoin (vs !! i)), take i vs ++ drop (S i) vs)
  | Pick i => (Value (mjoin (vs !! i)), vs)
  | Count => (Code (Z.of_nat (length vs)), vs)
  end.

(** Positions are machine-sized and the list stays within the limit. *)
Definition op_ok (o : list_op) vs : Prop :=
  match o with
  | Push _ | Unshift _ => (Z.of_nat (length vs) < MAX_LEN)%Z
  | Insert _ i => (Z.of_nat (max i (length vs)) < MAX_LEN)%Z
  | Fetch i => (Z.of_nat i < 2 ^ 32)%Z
  | _ => True
  end.

Fixpoint run_script (os : list list_op) : st (linked_list V) (list list_res) :=
  match os with
  | [] => mret []
  | o :: os => r ← run_op o; rs ← run_script os; mret (r :: rs)
  end.
Fixpoint spec_script (os : list list_op) vs : list list_res * list (option V) :=
  match os with
  | [] => ([], vs)
  | o :: os => let '(r, vs) := spec_op o vs in let '(rs, vs) := spec_script os vs in (r :: rs, vs)
  end.
Fixpoint script_ok (os : list list_op) vs : Prop :=
  match os with [] => True | o :: os => op_ok o vs ∧ script_ok os (spec_op o vs).2 end.

Lemma run_op_is o s vs :
  list_is s vs → op_ok o vs →
  ∃ s', run_op o s = Ret ((spec_op o vs).1, s') ∧ list_is s' (spec_op o vs).2.
Proof.
  intros Hl Hok. destruct o as [v|v|v i| | |i|i|]; simpl in Hok; unfold run_op, mbind, st_bind; cbn [spec_op fst snd].
  - destruct (list_push_value_is s vs v Hl Hok) as (s' & -> & Hl'). by exists s'.
  - destruct (list_unshift_value_is s vs v Hl Hok) as (s' & -> & Hl'). by exists s'.
  - destruct Hl as (xs & Hr & <-). rewrite length_values in Hok.
    destruct (wp_run _ _ _ (insert_value_wp s xs false v i Hr Hok)) as (rc & s' & Hrun & -> & Hl').
    unfold list_insert_value. rewrite Hrun. by exists s'.
  - destruct vs as [|v vs _] using rev_ind.
    + rewrite (list_pop_empty s Hl). by exists s.
    + destruct (list_pop_value_is s vs v Hl) as (s' & -> & Hl'). exists s'.
      rewrite last_snoc, length_app. simpl. rewrite Nat.add_sub, take_app_length. done.
  - destruct vs as [|v vs].
    + rewrite (list_shift_empty s Hl). by exists s.
    + destruct (list_shift_value_is s vs v Hl) as (s' & -> & Hl'). by exists s'.
  - destruct (vs !! i) as [v|] eqn:Hi.
    + destruct (list_fetch_value_is s vs i v Hl Hi) as (s' & -> & Hl'). by exists s'.
    + apply lookup_ge_None in Hi. destruct (list_fetch_beyond s vs i Hl Hi Hok) as (s' & -> & Hl').
      exists s'. rewrite take_ge, drop_ge by lia. by rewrite app_nil_r.
  - destruct (list_pick_value_is s vs i Hl) as (s' & -> & Hl'). by exists s'.
  - destruct (list_is_length s vs Hl) as [Hlen _].
    unfold list_count, mbind, st_bind, st_get. simpl. rewrite Hlen. by exists s.
Qed.

(** C8: every script of push, unshift, insert, pop, shift, fetch, pick and
    count calls on a linked list returns exactly what it returns on a
    sequence (NULL for positions and ends that do not exist, insertion beyond
    the end pads with NULL values), and the list then holds that sequence;
    no call faults, whatever the cached cursor was. *)
Theorem list_refines_sequence os s vs :
  list_is s vs → script_ok os vs →
  ∃ s', run_script os s = Ret ((spec_script os vs).1, s') ∧ list_is s' (spec_script os vs).2.
Proof.
  revert s vs. induction os as [|o os IH]; intros s vs Hl Hok; [by exists s|]. destruct Hok as [Ho Hos].
  destruct (run_op_is o s vs Hl Ho) as (s1 & Hr1 & Hl1).
  destruct (IH s1 _ Hl1 Hos) as (s2 & Hr2 & Hl2). exists s2. simpl.
  unfold mbind, st_bind. rewrite Hr1, Hr2. destruct (spec_op o vs) as [r vs1]. simpl in *.
  by destruct (spec_script os vs1).
Qed.

(** [list_foreach_value] with a handler that never asks for a deletion
    calls it on the values in order with their indices, until it returns 0 or
    the list ends, and leaves the list as it was. *)
Theorem list_foreach_correct {D} (h : D → option V → Z → D * Z) s vs d :
  list_is s vs → keeps h →
  ∃ s', list_foreach_value h d s = Ret (foreach_spec h vs 0 d, s') ∧ list_is s' vs.
Proof. apply list_foreach_value_is. Qed.
End Scripts.
Arguments list_op : clear implicits.
Arguments list_res : clear implicits.

(** [list_get_tagged_value] returns the first value with the tag, NULL if
    there is none. *)
Theorem list_get_tagged_correct s tvs t :
  list_is s (Some <$> tvs) →
  ∃ s', list_get_tagged_value t s = Ret (find_tag t tvs, s') ∧ list_is s' (Some <$> tvs).
Proof. apply list_get_tagged_value_is. Qed.

Definition list_with (vs : list (option nat)) : linked_list nat :=
  match run_script (Push <$> vs) list_create with Ret (_, s) => s | Fault => list_create end.

(** Deleting every element from a foreach handler (code -1) skips half of
    them: the slice is shortened while the index advances, so that of four
    values only the first two are visited and removed. *)
Theorem foreach_delete_skips :
  ∃ s s', list_foreach_value (λ d v _, (d ++ [v], (-1)%Z)) [] (list_with [Some 1; Some 2; Some 3; Some 4])
      = Ret (([Some 1; Some 2], 2%Z), s)
    ∧ run_script [Count; Pop; Pop; Pop] s
      = Ret ([Code 2; Value (Some 4); Value (Some 3); Value None], s').
Proof. eexists _, _. split; [vm_compute; reflexivity|]. vm_compute. reflexivity. Qed.

(** ** Witnesses *)
Definition script1 : list (list_op nat) := [Push (Some 1); Insert (Some 5) 3; Unshift (Some 0); Fetch 2; Fetch 9; Pop; Shift].

Lemma list_refines_sequence_witness :
  ∃ s', run_script script1 list_create = Ret ((spec_script script1 []).1, s')
      ∧ list_is s' (spec_script script1 []).2.
Proof.
  apply (list_refines_sequence script1 list_create []); [apply list_is_create|].
  unfold script1. cbn. unfold MAX_LEN. lia.
Defined.

Lemma two_is : list_is (list_with [Some 1; Some 2]) [Some 1; Some 2].
Proof.
  destruct (list_push_value_is (V := nat) list_create [] (Some 1) list_is_create) as (s1 & H1 & L1); [done|].
  destruct (list_push_value_is s1 _ (Some 2) L1) as (s2 & H2 & L2); [done|].
  unfold list_with. cbn [fmap list_fmap run_script run_op]. unfold mbind, st_bind. rewrite H1.
  unfold mret, st_ret. by rewrite H2.
Qed.

Definition sum_handler (n : nat) (v : option nat) (_ : Z) : nat * Z := (n + default 0 v, 1%Z).
Lemma list_foreach_correct_witness :
  ∃ s', list_foreach_value sum_handler 0 (list_with [Some 1; Some 2])
      = Ret ((3, 2%Z), s') ∧ list_is s' [Some 1; Some 2].
Proof.
  apply (list_foreach_correct sum_handler _ [Some 1; Some 2] 0 two_is). by intros d v i.
Defined.

Definition tv_a : tagged_value := mk_tagged [97]%Z [1]%Z 1 TV_TYPE_BINARY.
Definition tag_list : linked_list tagged_value :=
  match list_push_value (Some tv_a) list_create with Ret (_, s) => s | Fault => list_create end.
Lemma tag_list_is : list_is tag_list (Some <$> [tv_a]).
Proof.
  destruct (list_push_value_is list_create [] (Some tv_a) list_is_create) as (s1 & H1 & L1); [done|].
  unfold tag_list. by rewrite H1.
Qed.
Lemma list_get_tagged_correct_witness :
  ∃ s', list_get_tagged_value [97]%Z tag_list = Ret (Some tv_a, s') ∧ list_is s' (Some <$> [tv_a]).
Proof. apply (list_get_tagged_correct tag_list [tv_a] [97]%Z tag_list_is). Defined.
