(* ===== verification/TaggedList.v ===== *)
(** * Tagged values, nested lists and slices (src/index/libhl/linklist.c)

    Lists, tagged values, copied buffers and slices as objects of one store,
    so that what an operation frees is visible: freeing an object removes it
    and a later access to it faults.  The entries of a list hold pointers.
    Allocation does not fail. *)
From S2P Require Import Prelude Heap LinkedList LinkedListRep LinkedListSpec ListSort.

(** ** The store *)
(** What the value field of a tagged value points to. *)
Inductive tv_data :=
| TVNull
| TVCopy (buf : loc)        (* a buffer the library allocated *)
| TVCaller (bs : list Z)    (* memory of the caller *)
| TVList (l : loc).

(** tagged_value_t *)
Record tv_obj := mk_tv {
  o_tag : option (list Z);
  o_value : tv_data;
  o_vlen : nat;
  o_type : tagged_value_type
}.
(** struct _slice_s *)
Record slice := mk_slice { sl_list : loc; sl_offset : Z; sl_length : Z }.
(** struct _linked_list_s with its free callback (set or not) and the chain of
    its slices in order; the prev links of the chain are never read. *)
Record list_obj := mk_lobj {
  lo_list : linked_list loc;
  lo_free_cb : bool;
  lo_slices : list loc
}.
(** What a free callback was given. *)
Inductive cb_arg := CbValue (v : option loc) | CbData (d : tv_data).

Record store := mk_store {
  st_lists : gmap loc list_obj;
  st_tvs : gmap loc tv_obj;
  st_bufs : gmap loc (list Z);
  st_slices : gmap loc slice;
  st_fresh : loc;
  st_calls : list cb_arg
}.
Definition empty_store : store := mk_store ∅ ∅ ∅ ∅ 1 [].

Definition set_lists (f : gmap loc list_obj → gmap loc list_obj) (s : store) : store :=
  mk_store (f (st_lists s)) (st_tvs s) (st_bufs s) (st_slices s) (st_fresh s) (st_calls s).
Definition set_tvs (f : gmap loc tv_obj → gmap loc tv_obj) (s : store) : store :=
  mk_store (st_lists s) (f (st_tvs s)) (st_bufs s) (st_slices s) (st_fresh s) (st_calls s).
Definition set_bufs (f : gmap loc (list Z) → gmap loc (list Z)) (s : store) : store :=
  mk_store (st_lists s) (st_tvs s) (f (st_bufs s)) (st_slices s) (st_fresh s) (st_calls s).
Definition set_slices (f : gmap loc slice → gmap loc slice) (s : store) : store :=
  mk_store (st_lists s) (st_tvs s) (st_bufs s) (f (st_slices s)) (st_fresh s) (st_calls s).
Definition add_call (a : cb_arg) (s : store) : store :=
  mk_store (st_lists s) (st_tvs s) (st_bufs s) (st_slices s) (st_fresh s) (st_calls s ++ [a]).

(** A new address. *)
Definition new_loc : st store loc :=
  λ s, Ret (st_fresh s, mk_store (st_lists s) (st_tvs s) (st_bufs s) (st_slices s)
                          (Pos.succ (st_fresh s)) (st_calls s)).
(** Reading and freeing objects. *)
Definition ld {A} (field : store → gmap loc A) (l : loc) : st store A :=
  λ s, match field s !! l with Some a => Ret (a, s) | None => Fault end.
Definition free_obj {A} (field : store → gmap loc A)
    (set : (gmap loc A → gmap loc A) → store → store) (l : loc) : st store unit :=
  _ ← ld field l; st_modify (set (delete l)).

(** A computation that does not use the store. *)
Definition run {A} (o : outcome A) : st store A :=
  λ s, match o with Ret a => Ret (a, s) | Fault => Fault end.
(** An operation of the list at [l]. *)
Definition on_list {A} (l : loc) (m : st (linked_list loc) A) : st store A :=
  o ← ld st_lists l;
  r ← run (m (lo_list o));
  _ ← st_modify (set_lists <[l := mk_lobj r.2 (lo_free_cb o) (lo_slices o)]>);
  mret r.1.

(** ** Creation *)
Definition list_new : st store loc :=
  l ← new_loc; _ ← st_modify (set_lists <[l := mk_lobj list_create false []]>); mret l.
Definition list_set_free_value_callback (l : loc) (cb : bool) : st store unit :=
  o ← ld st_lists l; st_modify (set_lists <[l := mk_lobj (lo_list o) cb (lo_slices o)]>).

Definition tv_new (t : tv_obj) : st store loc :=
  l ← new_loc; _ ← st_modify (set_tvs <[l := t]>); mret l.
Definition buf_new (bs : list Z) : st store loc :=
  b ← new_loc; _ ← st_modify (set_bufs <[b := bs]>); mret b.

Definition list_create_tagged_value_nocopy (tag_ : option (list Z)) (val : option (list Z)) : st store loc :=
  tv_new (mk_tv (cstr_of <$> tag_) (match val with Some bs => TVCaller bs | None => TVNull end)
            0 TV_TYPE_STRING).

Definition list_create_tagged_value (tag_ : option (list Z)) (val : option (list Z)) (vlen_ : nat)
    : st store loc :=
  match val with
  | None => tv_new (mk_tv (cstr_of <$> tag_) TVNull 0 TV_TYPE_STRING)
  | Some bs =>
      if bool_decide (vlen_ ≠ 0) then
        if bool_decide (length bs < vlen_) then st_fault
        else b ← buf_new (take vlen_ bs ++ [0%Z]); tv_new (mk_tv (cstr_of <$> tag_) (TVCopy b) vlen_ TV_TYPE_BINARY)
      else
        b ← buf_new (cstr_of bs ++ [0%Z]);
        tv_new (mk_tv (cstr_of <$> tag_) (TVCopy b) (length (cstr_of bs)) TV_TYPE_STRING)
  end.

Definition list_create_tagged_sublist (tag_ : option (list Z)) (sublist : loc) : st store loc :=
  tv_new (mk_tv (cstr_of <$> tag_) (TVList sublist) 0 TV_TYPE_LIST).

(** ** Slices *)
Definition slice_create (l : loc) (offset len : Z) : st store loc :=
  sl ← new_loc;
  _ ← st_modify (set_slices <[sl := mk_slice l offset len]>);
  o ← ld st_lists l;
  _ ← st_modify (set_lists <[l := mk_lobj (lo_list o) (lo_free_cb o) (lo_slices o ++ [sl])]>);
  mret sl.

(** Unlinking a slice from the chain: behind another slice,
    cur->next->prev is written, which faults for the last one. *)
Fixpoint unlink_slice (first : bool) (sl : loc) (chain : list loc) : outcome (list loc) :=
  match chain with
  | [] => Ret []
  | cur :: rest =>
      if bool_decide (cur = sl) then
        if first then Ret rest else match rest with [] => Fault | _ => Ret rest end
      else rest ← unlink_slice false sl rest; Ret (cur :: rest)
  end.
Definition slice_destroy (sl : loc) : st store unit :=
  x ← ld st_slices sl;
  o ← ld st_lists (sl_list x);
  chain ← run (unlink_slice true sl (lo_slices o));
  _ ← st_modify (set_lists <[sl_list x := mk_lobj (lo_list o) (lo_free_cb o) chain]>);
  free_obj st_slices set_slices sl.

(** The iteration over a slice object: slice->length is decremented together
    with list->length. *)
Definition slice_foreach_value {D} (item_handler : D → option loc → Z → D * Z) (sl : loc) (data : D)
    : st store (D * Z) :=
  x ← ld st_slices sl;
  o ← ld st_lists (sl_list x);
  r ← on_list (sl_list x) (LinkedList.slice_foreach_value item_handler (sl_offset x) (sl_length x) data);
  o' ← ld st_lists (sl_list x);
  _ ← st_modify (set_slices <[sl := mk_slice (sl_list x) (sl_offset x)
        (u64 (sl_length x - (l_length (lo_list o) - l_length (lo_list o'))))]>);
  mret r.

(** ** Destruction *)
(** [destroy_list] is list_destroy. *)
Definition list_destroy_tagged_value_internal (destroy_list : loc → st store unit)
    (tval : option loc) (free_cb : bool) : st store unit :=
  match tval with
  | None => mret tt
  | Some p =>
      t ← ld st_tvs p;
      _ ← match o_value t with
          | TVNull => mret tt
          | d =>
              match o_type t, d with
              | TV_TYPE_LIST, TVList l => destroy_list l
              | TV_TYPE_LIST, _ => st_fault
              | _, _ =>
                  if free_cb then st_modify (add_call (CbData d))
                  else if bool_decide (o_vlen t ≠ 0) then
                    match d with TVCopy b => free_obj st_bufs set_bufs b | _ => st_fault end
                  else mret tt
              end
          end;
      free_obj st_tvs set_tvs p
  end.

Fixpoint clear_loop (destroy_list : loc → st store unit) (fuel : nat) (l : loc) : st store unit :=
  e ← on_list l shift_entry;
  match e, fuel with
  | None, _ => mret tt
  | Some _, O => st_fault
  | Some e, S fuel =>
      en ← on_list l (eld e);
      o ← ld st_lists l;
      _ ← (if e_tagged en && bool_decide (e_value en ≠ None)
           then list_destroy_tagged_value_internal destroy_list (e_value en) (lo_free_cb o)
           else if lo_free_cb o then st_modify (add_call (CbValue (e_value en))) else mret tt);
      _ ← on_list l (destroy_entry e);
      clear_loop destroy_list fuel l
  end.
Definition list_clear (destroy_list : loc → st store unit) (l : loc) : st store unit :=
  o ← ld st_lists l; clear_loop destroy_list (size (l_heap (lo_list o))) l.

(** while (list->slices) slice_destroy(list->slices->value) *)
Fixpoint destroy_slices (fuel : nat) (l : loc) : st store unit :=
  o ← ld st_lists l;
  match lo_slices o, fuel with
  | [], _ => mret tt
  | _ :: _, O => st_fault
  | sl :: _, S fuel => _ ← slice_destroy sl; destroy_slices fuel l
  end.

(** [depth] bounds how deep lists are nested. *)
Fixpoint list_destroy (depth : nat) (l : loc) : st store unit :=
  match depth with
  | O => st_fault
  | S depth =>
      o ← ld st_lists l;
      _ ← destroy_slices (length (lo_slices o)) l;
      _ ← list_clear (list_destroy depth) l;
      free_obj st_lists set_lists l
  end.
Definition list_destroy_tagged_value (depth : nat) (tval : option loc) : st store unit :=
  list_destroy_tagged_value_internal (list_destroy depth) tval false.

(** ** Access by tag *)
(** The loop over the positions from [i]; [depth] is for the destruction. *)
Fixpoint set_tagged_loop (depth n : nat) (i : Z) (l : loc) (tag_ : list Z) (tval : loc)
    : st store (option loc) :=
  o ← ld st_lists l;
  if bool_decide (i < i32 (l_length (lo_list o)))%Z then
    match n with
    | O => st_fault
    | S n =>
        tv ← on_list l (list_pick_value i);
        match tv with
        | None => set_tagged_loop depth n (i + 1)%Z l tag_ tval
        | Some p =>
            t ← ld st_tvs p;
            if bool_decide (o_tag t = Some (cstr_of tag_)) then
              old ← on_list l (list_set_value i (Some tval));
              match old with
              | None => _ ← list_destroy_tagged_value depth (Some tval); mret None
              | Some _ => mret (Some p)
              end
            else set_tagged_loop depth n (i + 1)%Z l tag_ tval
        end
    end
  else
    rc ← on_list l (add_value true (Some tval) push_entry);
    _ ← (if bool_decide (rc = 0%Z) then list_destroy_tagged_value depth (Some tval) else mret tt);
    mret None.
Definition list_set_tagged_value (depth : nat) (l : loc) (tag_ value : list Z) (len : nat) (copy : bool)
    : st store (option loc) :=
  tval ← (if copy then list_create_tagged_value (Some tag_) (Some value) len
          else list_create_tagged_value_nocopy (Some tag_) (Some value));
  o ← ld st_lists l;
  set_tagged_loop depth (Z.to_nat (l_length (lo_list o))) 0 l tag_ tval.

(** list_get_tagged_values; [values] is the list that receives the values. *)
Fixpoint get_tagged_values_loop (n : nat) (i ret : Z) (l : loc) (tag_ : list Z)
    (values : linked_list tv_data) : st store (Z * linked_list tv_data) :=
  o ← ld st_lists l;
  if bool_decide (i < i32 (l_length (lo_list o)))%Z then
    match n with
    | O => st_fault
    | S n =>
        tval ← on_list l (list_pick_value i);
        match tval with
        | None => get_tagged_values_loop n (i + 1)%Z ret l tag_ values
        | Some p =>
            t ← ld st_tvs p;
            match o_tag t with
            | None => st_fault
            | Some tg =>
                if bool_decide (tg = cstr_of tag_) then
                  r ← run (list_push_value (match o_value t with TVNull => None | d => Some d end) values);
                  get_tagged_values_loop n (i + 1)%Z (ret + 1)%Z l tag_ r.2
                else get_tagged_values_loop n (i + 1)%Z ret l tag_ values
            end
        end
    end
  else mret (ret, values).
Definition list_get_tagged_values (l : loc) (tag_ : list Z) (values : linked_list tv_data)
    : st store (Z * linked_list tv_data) :=
  o ← ld st_lists l;
  get_tagged_values_loop (Z.to_nat (l_length (lo_list o))) 0 0 l tag_ values.

(** ** Objects and footprints *)
Inductive obj := OL (l : loc) | OT (p : loc) | OB (b : loc) | OS (sl : loc).
#[export] Instance obj_eq_dec : EqDecision obj.
Proof. solve_decision. Defined.

(** The object does not exist; two stores agree on the object. *)
Definition gone (s : store) (x : obj) : Prop :=
  match x with
  | OL l => st_lists s !! l = None
  | OT p => st_tvs s !! p = None
  | OB b => st_bufs s !! b = None
  | OS sl => st_slices s !! sl = None
  end.
Definition agree (s s' : store) (x : obj) : Prop :=
  match x with
  | OL l => st_lists s' !! l = st_lists s !! l
  | OT p => st_tvs s' !! p = st_tvs s !! p
  | OB b => st_bufs s' !! b = st_bufs s !! b
  | OS sl => st_slices s' !! sl = st_slices s !! sl
  end.
(** Exactly the objects [X] were freed; [W] may have changed otherwise. *)
Definition frees_but (W : list obj) (s s' : store) (X : list obj) : Prop :=
  (∀ x, x ∈ X → gone s' x) ∧ ∀ x, x ∉ X → x ∉ W → agree s s' x.
Notation frees := (frees_but []).

Lemma agree_trans s1 s2 s3 x : agree s1 s2 x → agree s2 s3 x → agree s1 s3 x.
Proof. destruct x; simpl; congruence. Qed.
Lemma agree_gone s s' x : agree s s' x → gone s x → gone s' x.
Proof. destruct x; simpl; congruence. Qed.
Lemma frees_trans W s1 s2 s3 X Y :
  (∀ x, x ∈ X → x ∉ Y → x ∉ W) →
  frees_but W s1 s2 X → frees_but W s2 s3 Y → frees_but W s1 s3 (X ++ Y).
Proof.
  intros HW [G1 A1] [G2 A2]. split.
  - intros x [Hx|Hx]%elem_of_app; [|by apply G2].
    destruct (decide (x ∈ Y)) as [HY|HY]; [by apply G2|].
    eapply agree_gone; [by apply A2, HW|by apply G1].
  - intros x [HX HY]%not_elem_of_app Hw. eapply agree_trans; [by apply A1|by apply A2].
Qed.
Lemma frees_equiv W s s' X Y : (∀ x, x ∈ X ↔ x ∈ Y) → frees_but W s s' X → frees_but W s s' Y.
Proof. intros H [G A]. split; intros x Hx; [by apply G, H|]. apply A. by rewrite H. Qed.
Lemma frees_weaken W W' s s' X : W ⊆ W' → frees_but W s s' X → frees_but W' s s' X.
Proof. intros HW [G A]. split; [done|]. intros x Hx Hw. apply A; [done|]. set_solver. Qed.

(** ** Executing store operations *)
Lemma wp_sld {A} (field : store → gmap loc A) l a s (Q : A → store → Prop) :
  field s !! l = Some a → Q a s → wp (ld field l) Q s.
Proof. intros H HQ. unfold wp, ld. by rewrite H. Qed.
Lemma wp_on_list {A} l o (m : st (linked_list loc) A) s (Q : A → store → Prop) :
  st_lists s !! l = Some o →
  wp m (λ a x, Q a (set_lists <[l := mk_lobj x (lo_free_cb o) (lo_slices o)]> s)) (lo_list o) →
  wp (on_list l m) Q s.
Proof.
  intros Hl Hm. unfold on_list. apply wp_bind. eapply wp_sld; [exact Hl|]. apply wp_bind.
  apply wp_run in Hm as (a & x & Hm & HQ). unfold wp at 1, run. rewrite Hm.
  apply wp_bind, wp_modify, wp_ret, HQ.
Qed.
(** Freeing an object that exists ([Hp]). *)
Ltac wp_free Hp HQ :=
  unfold free_obj; apply wp_bind; eapply wp_sld; [exact Hp|]; apply wp_modify, HQ;
  split; [intros x ->%list_elem_of_singleton; simpl; by rewrite lookup_delete_eq|];
  intros [] Hx _; simpl; try done; rewrite lookup_delete_ne; [done|]; set_solver.
Lemma wp_free_tv p t s (Q : unit → store → Prop) :
  st_tvs s !! p = Some t → (∀ s', frees s s' [OT p] → Q tt s') → wp (free_obj st_tvs set_tvs p) Q s.
Proof. intros Hp HQ. wp_free Hp HQ. Qed.
Lemma wp_free_buf b bs s (Q : unit → store → Prop) :
  st_bufs s !! b = Some bs → (∀ s', frees s s' [OB b] → Q tt s') → wp (free_obj st_bufs set_bufs b) Q s.
Proof. intros Hp HQ. wp_free Hp HQ. Qed.
Lemma wp_free_list l o s (Q : unit → store → Prop) :
  st_lists s !! l = Some o → (∀ s', frees s s' [OL l] → Q tt s') → wp (free_obj st_lists set_lists l) Q s.
Proof. intros Hp HQ. wp_free Hp HQ. Qed.

(** ** Nested lists *)
(** All values of the list are tagged values, at the addresses [ps]. *)
Definition tagged_is (x : linked_list loc) (ps : list loc) : Prop :=
  ∃ xs, lrep x xs [] ∧ values xs = Some <$> ps ∧ Forall (λ e, i_tagged e.2 = true) xs.

(** What the destruction of the tagged value at [p] frees besides the value
    itself: nothing, its copied buffer unless the length is 0, or the objects of
    its sublist, which [sub] describes.  What a value owns is [tv_owns] below. *)
Definition tv_released (sub : loc → list obj → Prop) (s : store) (p : loc) (X : list obj) : Prop :=
  ∃ t, st_tvs s !! p = Some t ∧
    match o_value t with
    | TVNull => X = []
    | TVList l => o_type t = TV_TYPE_LIST ∧ sub l X
    | TVCopy b => o_type t ≠ TV_TYPE_LIST ∧
        if bool_decide (o_vlen t = 0) then X = [] else X = [OB b] ∧ is_Some (st_bufs s !! b)
    | TVCaller _ => o_type t ≠ TV_TYPE_LIST ∧ o_vlen t = 0 ∧ X = []
    end.
(** The objects of the values of a list. *)
Notation kids ps Xs := (concat (zip_with (λ p Y, OT p :: Y) ps Xs)).
(** What the destruction of the list at [l] frees, lists being nested at most
    [n] deep: the list, its slices, its tagged values and what goes with these. *)
Fixpoint released (n : nat) (s : store) (l : loc) (X : list obj) : Prop :=
  match n with
  | O => False
  | S n => ∃ o ps Xs,
      st_lists s !! l = Some o ∧ lo_free_cb o = false ∧ tagged_is (lo_list o) ps
      ∧ Forall (λ sl, ∃ x, st_slices s !! sl = Some x ∧ sl_list x = l) (lo_slices o)
      ∧ Forall2 (tv_released (released n s) s) ps Xs
      ∧ X = OL l :: (OS <$> lo_slices o) ++ kids ps Xs
  end.

Lemma tv_released_frame (sub sub' : loc → list obj → Prop) s s' p X :
  (∀ l Y, (∀ x, x ∈ Y → agree s s' x) → sub l Y → sub' l Y) →
  (∀ x, x ∈ OT p :: X → agree s s' x) → tv_released sub s p X → tv_released sub' s' p X.
Proof.
  intros Hsub Ha (t & Ht & Hv). exists t. split; [rewrite <-Ht; apply (Ha (OT p)); left|].
  destruct (o_value t) as [|b|bs|l]; try done.
  - destruct Hv as [? Hv]. split; [done|]. case_bool_decide; [done|]. destruct Hv as [-> [y Hb]].
    split; [done|]. exists y. rewrite <-Hb. apply (Ha (OB b)). set_solver.
  - destruct Hv as [? Hv]. split; [done|]. apply Hsub; [|done]. set_solver.
Qed.
Lemma kids_frame (sub sub' : loc → list obj → Prop) s s' ps Xs :
  (∀ l Y, (∀ x, x ∈ Y → agree s s' x) → sub l Y → sub' l Y) →
  (∀ x, x ∈ kids ps Xs → agree s s' x) →
  Forall2 (tv_released sub s) ps Xs → Forall2 (tv_released sub' s') ps Xs.
Proof.
  intros Hsub Ha HF. induction HF as [|p Y ps Xs Hp HF IH]; [constructor|].
  cbn [zip_with concat] in Ha. constructor; [|apply IH; set_solver].
  eapply tv_released_frame; [exact Hsub| |exact Hp]. set_solver.
Qed.

Lemma released_frame n : ∀ s s' l X,
  (∀ x, x ∈ X → agree s s' x) → released n s l X → released n s' l X.
Proof.
  induction n as [|n IH]; intros s s' l X Ha; [done|].
  intros (o & ps & Xs & Ho & Hcb & Hps & Hsl & HF & ->). exists o, ps, Xs. split_and!; try done.
  - rewrite <-Ho. apply (Ha (OL l)). left.
  - rewrite Forall_forall in *. intros sl Hin. destruct (Hsl sl Hin) as (x & Hx & Hl). exists x.
    split; [|done]. rewrite <-Hx. apply (Ha (OS sl)). right. apply elem_of_app. left.
    by apply list_elem_of_fmap_2.
  - eapply kids_frame; [|intros x Hx; apply Ha; set_solver|exact HF]. intros l' Y. apply IH.
Qed.

Lemma destroy_slices_ok l fuel : ∀ s o,
  st_lists s !! l = Some o → length (lo_slices o) ≤ fuel → NoDup (lo_slices o) →
  Forall (λ sl, ∃ x, st_slices s !! sl = Some x ∧ sl_list x = l) (lo_slices o) →
  wp (destroy_slices fuel l) (λ _ s',
    st_lists s' !! l = Some (mk_lobj (lo_list o) (lo_free_cb o) [])
    ∧ frees_but [OL l] s s' (OS <$> lo_slices o)) s.
Proof.
  induction fuel as [|fuel IH]; intros s o Ho Hf Hnd Hsl; cbn [destroy_slices];
    apply wp_bind; (eapply wp_sld; [exact Ho|]);
    destruct o as [x cb [|sl sls]]; cbn [lo_slices lo_list lo_free_cb length] in *; try lia.
  1, 2: apply wp_ret; split; [done|]; split; [set_solver|by intros []].
  apply Forall_cons in Hsl as [(y & Hy & Hyl) Hsl]. apply NoDup_cons in Hnd as [Hni Hnd].
  apply wp_bind. unfold slice_destroy. apply wp_bind. eapply wp_sld; [exact Hy|]. rewrite Hyl.
  apply wp_bind. eapply wp_sld; [exact Ho|]. apply wp_bind. cbn [lo_slices unlink_slice].
  rewrite bool_decide_eq_true_2 by done. cbn [run]. unfold wp at 1. apply wp_bind, wp_modify.
  unfold free_obj. apply wp_bind. eapply wp_sld; [exact Hy|]. apply wp_modify.
  set (s1 := set_slices _ _). 
  assert (st_lists s1 !! l = Some (mk_lobj x cb sls)) as Ho1 by (simpl; by rewrite lookup_insert_eq).
  eapply wp_mono; [apply (IH s1 (mk_lobj x cb sls) Ho1); cbn [lo_slices]; [lia|done|]|].
  - rewrite Forall_forall in *. intros sl' Hin. destruct (Hsl sl' Hin) as (z & Hz & ?). exists z.
    split; [|done]. simpl. rewrite lookup_delete_ne; [done|]. intros ->. done.
  - intros _ s2 [Ho2 Hfr]. split; [done|]. change (OS <$> sl :: sls) with ([OS sl] ++ (OS <$> sls)).
    eapply frees_trans; [set_solver| |exact Hfr]. split.
    + intros z ->%list_elem_of_singleton. simpl. by rewrite lookup_delete_eq.
    + intros [] Hz Hw; simpl; try done; [rewrite lookup_insert_ne; [done|]|rewrite lookup_delete_ne; [done|]]; set_solver.
Qed.

(** Replacing a list object. *)
Lemma set_list_frees l o s : frees_but [OL l] s (set_lists <[l := o]> s) [].
Proof.
  split; [set_solver|]. intros [] _ Hw; simpl; try done. rewrite lookup_insert_ne; [done|]. set_solver.
Qed.
Lemma set_list_lookup l o s : st_lists (set_lists <[l := o]> s) !! l = Some o.
Proof. simpl. apply lookup_insert_eq. Qed.

Section Destroy.
Context (n : nat).
Context (IHn : ∀ l X s, released n s l X → NoDup X → wp (list_destroy n l) (λ _ s', frees s s' X) s).

Lemma destroy_tagged_ok s p X :
  tv_released (released n s) s p X → NoDup (OT p :: X) →
  wp (list_destroy_tagged_value_internal (list_destroy n) (Some p) false)
     (λ _ s', frees s s' (X ++ [OT p])) s.
Proof using IHn.
  intros (t & Ht & Hv) [Hp Hnd]%NoDup_cons. cbn [list_destroy_tagged_value_internal].
  assert (∀ s1, frees s s1 X → wp (free_obj st_tvs set_tvs p) (λ _ s', frees s s' (X ++ [OT p])) s1) as Hend.
  { intros s1 Hfr. apply (wp_free_tv p t).
    - rewrite <-Ht. apply (proj2 Hfr (OT p)); [done|]. apply not_elem_of_nil.
    - intros s2 Hfr2. eapply frees_trans; [|exact Hfr|exact Hfr2]. intros; apply not_elem_of_nil. }
  assert (X = [] → frees s s X) as Hnil by (intros ->; split; [set_solver|by intros []]).
  apply wp_bind. eapply wp_sld; [exact Ht|]. apply wp_bind.
  destruct (o_value t) as [|b|bs|l].
  - apply wp_ret. by apply Hend, Hnil.
  - destruct Hv as [Hty Hv]. destruct (o_type t); [| |done]; case_bool_decide as Hl.
    1, 3: rewrite bool_decide_eq_false_2 by (by intros []); apply wp_ret; by apply Hend, Hnil.
    all: destruct Hv as [-> [y Hb]]; rewrite bool_decide_eq_true_2 by done;
      eapply wp_free_buf; [exact Hb|]; intros s1 Hfr; by apply Hend.
  - destruct Hv as (Hty & Hl & HX). rewrite Hl.
    destruct (o_type t); [| |done]; apply wp_ret; by apply Hend, Hnil.
  - destruct Hv as [-> Hl]. eapply wp_mono; [by apply IHn|]. intros [] s1 Hfr. by apply Hend.
Qed.

Lemma shift_nil_ok x (Q : option loc → linked_list loc → Prop) :
  lrep x [] [] → (∀ x', Q None x') → wp shift_entry Q x.
Proof.
  intros Hr HQ. lopen Hr. unfold shift_entry. cbn in Hs. lsteps. unfold reset_if_empty. lsteps.
  cbn. apply HQ.
Qed.

Lemma detached_read x xs l v tg X (Q : list_entry loc → linked_list loc → Prop) :
  lrep x xs (detached l v tg :: X) → Q (mk_entry false None None v tg) x → wp (eld l) Q x.
Proof. intros Hr HQ. lopen Hr. unfold detached in Hs. by lsteps. Qed.

(** The release of one entry that has been unlinked. *)
Lemma clear_entry_ok s l o xs e p Y (k : st store unit) Q :
  st_lists s !! l = Some o → lo_free_cb o = false → lrep (lo_list o) xs [detached e (Some p) true] →
  tv_released (released n s) s p Y → NoDup (OL l :: OT p :: Y) →
  (∀ s' o', st_lists s' !! l = Some o' → lo_free_cb o' = false → lrep (lo_list o') xs [] →
     frees_but [OL l] s s' (Y ++ [OT p]) → wp k Q s') →
  wp (en ← on_list l (eld e);
      o ← ld st_lists l;
      _ ← (if e_tagged en && bool_decide (e_value en ≠ None)
           then list_destroy_tagged_value_internal (list_destroy n) (e_value en) (lo_free_cb o)
           else if lo_free_cb o then st_modify (add_call (CbValue (e_value en))) else mret tt);
      _ ← on_list l (destroy_entry e); k) Q s.
Proof using IHn.
  intros Ho Hcb Hr Hp [Hl Hnd]%NoDup_cons Hk. apply wp_bind. eapply wp_on_list; [exact Ho|].
  eapply detached_read; [exact Hr|]. cbn [e_tagged e_value].
  set (o1 := mk_lobj _ _ _). pose proof (set_list_frees l o1 s) as Hfr1.
  pose proof (set_list_lookup l o1 s) as Ho1. set (s1 := set_lists _ s) in *. clearbody s1.
  apply wp_bind. eapply wp_sld; [exact Ho1|]. apply wp_bind. cbn [andb].
  rewrite bool_decide_eq_true_2 by done. cbn [lo_free_cb o1]. rewrite Hcb.
  assert (tv_released (released n s1) s1 p Y) as Hp1.
  { assert (∀ x, x ∈ OT p :: Y → agree s s1 x) as Ha.
    { intros x Hx. apply Hfr1; [set_solver|]. intros ->%list_elem_of_singleton. done. }
    eapply tv_released_frame; [|exact Ha|exact Hp]. intros l' Y'. apply released_frame. }
  eapply wp_mono; [by apply destroy_tagged_ok|]. intros [] s2 Hfr2.
  assert (st_lists s2 !! l = Some o1) as Ho2.
  { rewrite <-Ho1. apply (proj2 Hfr2 (OL l)); set_solver. }
  apply wp_bind. eapply wp_on_list; [exact Ho2|]. cbn [lo_list o1]. eapply destroy_ok; [exact Hr|].
  intros x3 Hr3. eapply Hk; [apply set_list_lookup|done|done|].
  rewrite <-(app_nil_l (Y ++ _)), <-(app_nil_r (Y ++ _)).
  eapply frees_trans; [set_solver|exact Hfr1|].
  eapply frees_trans; [set_solver| |apply set_list_frees].
  eapply frees_weaken; [|exact Hfr2]. set_solver.
Qed.

Lemma list_clear_loop_ok l ps : ∀ Xs s o fuel xs,
  st_lists s !! l = Some o → lo_free_cb o = false → lrep (lo_list o) xs [] →
  values xs = Some <$> ps → Forall (λ e, i_tagged e.2 = true) xs →
  Forall2 (tv_released (released n s) s) ps Xs →
  NoDup (OL l :: kids ps Xs) → length ps ≤ fuel →
  wp (clear_loop (list_destroy n) fuel l) (λ _ s', is_Some (st_lists s' !! l)
    ∧ frees_but [OL l] s s' (kids ps Xs)) s.
Proof using IHn.
  induction ps as [|p ps IH]; intros Xs s o fuel xs Ho Hcb Hr Hv Htg HF Hnd Hf.
  - apply fmap_nil_inv in Hv. subst xs.
    assert (wp (on_list l shift_entry) (λ e s', e = None ∧ is_Some (st_lists s' !! l)
      ∧ frees_but [OL l] s s' []) s) as Hsh.
    { eapply wp_on_list; [exact Ho|]. apply shift_nil_ok; [done|]. intros x'. split; [done|].
      split; [rewrite set_list_lookup; by eexists|]. apply set_list_frees. }
    destruct fuel; cbn [clear_loop]; apply wp_bind; (eapply wp_mono; [exact Hsh|]);
      intros e s' (-> & Hl & Hfr); by apply wp_ret.
  - inversion HF as [|? Y ? Ys Hp HF']; subst. destruct xs as [|x xs]; [done|].
    injection Hv as Hvx Hv. apply Forall_cons in Htg as [Htx Htg].
    cbn [zip_with concat] in *. destruct fuel as [|fuel]; [simpl in Hf; lia|]. cbn [clear_loop].
    apply wp_bind. eapply wp_on_list; [exact Ho|]. eapply shift_ok; [exact Hr|]. intros x1 Hr1. cbv beta iota.
    set (o1 := mk_lobj x1 _ _). pose proof (set_list_frees l o1 s) as Hfr1.
    pose proof (set_list_lookup l o1 s) as Ho1. set (s1 := set_lists _ s) in *. clearbody s1.
    rewrite Hvx, Htx in Hr1. apply NoDup_cons in Hnd as [Hl Hnd]. apply NoDup_app in Hnd as (Hnd1 & Hdj & Hnd2).
    assert (∀ x, x ≠ OL l → agree s s1 x) as Ha1.
    { intros y Hy. apply Hfr1; [set_solver|]. by rewrite list_elem_of_singleton. }
    eapply (clear_entry_ok s1 l o1 xs x.1 p Y); [exact Ho1|done|exact Hr1| | |].
    + eapply tv_released_frame; [intros l' Y'; apply released_frame| |exact Hp]. intros y Hy. apply Ha1. set_solver.
    + apply NoDup_cons. split; [set_solver|done].
    + intros s2 o2 Ho2 Hcb2 Hr2 Hfr2. cbn [length] in Hf.
      pose proof (frees_trans [OL l] s s1 s2 [] (Y ++ [OT p]) ltac:(set_solver) Hfr1 Hfr2) as Hfr. cbn [app] in Hfr.
      eapply wp_mono; [eapply (IH Ys s2 o2 fuel xs); [done|done|done|exact Hv|done| | |lia]|].
      * eapply kids_frame; [intros l' Y'; apply released_frame| |exact HF'].
        intros y Hy. apply Hfr; [|set_solver]. intros Hin. apply (Hdj y); [|done]. set_solver.
      * apply NoDup_cons. split; [set_solver|done].
      * intros [] s3 [Ho3 Hfr3]. split; [done|].
        eapply frees_equiv; [|eapply frees_trans; [|exact Hfr|exact Hfr3]]; set_solver.
Qed.

Lemma list_destroy_step l X s :
  released (S n) s l X → NoDup X → wp (list_destroy (S n) l) (λ _ s', frees s s' X) s.
Proof using IHn.
  intros (o & ps & Xs & Ho & Hcb & (xs & Hr & Hv & Htg) & Hsl & HF & ->) Hnd.
  apply NoDup_cons in Hnd as [Hl Hnd]. apply NoDup_app in Hnd as (Hnd1 & Hdj & Hnd2).
  cbn [list_destroy]. apply wp_bind. eapply wp_sld; [exact Ho|]. apply wp_bind.
  eapply wp_mono; [eapply destroy_slices_ok; [exact Ho|done| |exact Hsl]|].
  { by apply NoDup_fmap_1 in Hnd1. }
  intros [] s1 [Ho1 Hfr1]. apply wp_bind. unfold list_clear. apply wp_bind. eapply wp_sld; [exact Ho1|].
  cbn [lo_list].
  eapply wp_mono; [eapply (list_clear_loop_ok l ps Xs s1 _ _ xs); [exact Ho1|done|exact Hr|exact Hv|done| | |]|].
  - eapply kids_frame; [intros l' Y'; apply released_frame| |exact HF].
    intros y Hy. apply Hfr1; [|set_solver]. intros Hin. by apply (Hdj y).
  - apply NoDup_cons. split; [set_solver|done].
  - lopen Hr. rewrite (heap_is_size _ _ (ls_heap _ _ _ _ _ _ _ _ Hs)), app_nil_r, length_dseg.
    apply (f_equal length) in Hv. rewrite length_values, length_fmap in Hv. lia.
  - intros [] s2 [[o2 Ho2] Hfr2]. eapply wp_free_list; [exact Ho2|]. intros s3 Hfr3.
    pose proof (frees_trans [OL l] s s1 s2 (OS <$> lo_slices o) (kids ps Xs) ltac:(set_solver) Hfr1 Hfr2) as Hfr.
    destruct Hfr as [G A], Hfr3 as [G3 A3]. split.
    + intros y Hy. destruct (decide (y = OL l)) as [->|Hne]; [apply G3; set_solver|].
      eapply agree_gone; [apply A3; set_solver|]. apply G. set_solver.
    + intros y Hy _. eapply agree_trans; [apply A; set_solver|apply A3; set_solver].
Qed.
End Destroy.

Lemma list_destroy_ok n : ∀ l X s,
  released n s l X → NoDup X → wp (list_destroy n l) (λ _ s', frees s s' X) s.
Proof. induction n as [|n IH]; [done|]. intros l X s. by apply list_destroy_step. Qed.

(** ** Access by tag *)
Lemma list_set_value_ok x xs i e w (Q : option loc → linked_list loc → Prop) :
  lrep x xs [] → xs !! i = Some e →
  (∀ x', lrep x' (<[i := set_val w e]> xs) [] → Q (i_value e.2) x') →
  wp (list_set_value (Z.of_nat i) w) Q x.
Proof.
  intros Hr He HQ. unfold list_set_value. apply wp_bind. eapply pick_ok; [exact Hr|].
  clear Hr. clear x. intros x Hr _. rewrite list_lookup_fmap, He. cbn [fmap option_fmap option_map].
  apply wp_bind. eapply wp_Ret; [unfold eld; by rewrite (lrep_lookup _ _ _ _ _ Hr He)|]. cbn [e_value].
  apply wp_bind. lopen Hr. pose proof (take_drop_middle xs i e He) as Heq.
  assert (<[i := set_val w e]> xs = take i xs ++ set_val w e :: drop (S i) xs) as Hins.
  { rewrite <-Heq at 1. rewrite insert_app_r_alt by (rewrite length_take; lia).
    pose proof (lookup_lt_Some _ _ _ He). rewrite length_take.
    replace (i - _) with 0 by lia. done. }
  assert (((<[i := set_val w e]> xs).*1) = xs.*1) as Hlocs.
  { rewrite Hins. transitivity ((take i xs ++ e :: drop (S i) xs).*1); [by rewrite !fmap_app|by rewrite Heq]. }
  eapply (wp_qset [] fr cu po (Z.of_nat (length xs)) x (take i xs) e (drop (S i) xs)); [by rewrite Heq|].
  intros x' Hs'. apply wp_ret, HQ. rewrite <-Hins in Hs'.
  eapply lrep_intro; [exact Hs'|done|done|done|by rewrite length_insert| | |by rewrite length_insert].
  - destruct Hc as [Hp Hc]. split; [done|]. intros l Hl. rewrite Hlocs, length_insert. by apply Hc.
  - by rewrite Hlocs.
Qed.

(** The list at [l] holds pointers to the tagged values [ps]. *)
Definition list_at (s : store) (l : loc) (ps : list loc) : Prop :=
  ∃ o, st_lists s !! l = Some o ∧ list_is (lo_list o) (Some <$> ps).
Definition tag_at (s : store) (p : loc) : option (list Z) := t ← st_tvs s !! p; o_tag t.
(** The first value with a tag, with its position. *)
Definition find_tagged (s : store) (tg : list Z) (ps : list loc) : option (nat * loc) :=
  list_find (λ p, tag_at s p = Some tg) ps.

Lemma pick_at s l ps i p (Q : option loc → store → Prop) :
  list_at s l ps → ps !! i = Some p →
  (∀ s', list_at s' l ps → frees_but [OL l] s s' [] → Q (Some p) s') →
  wp (on_list l (list_pick_value (Z.of_nat i))) Q s.
Proof.
  intros (o & Ho & xs & Hr & Hv) Hp HQ. eapply wp_on_list; [exact Ho|].
  eapply pick_value_ok; [exact Hr|]. intros x' Hr'. rewrite Hv, list_lookup_fmap, Hp. cbn.
  apply HQ; [|apply set_list_frees]. eexists. split; [apply set_list_lookup|]. by exists xs.
Qed.
Lemma set_at s l ps i p tval (Q : option loc → store → Prop) :
  list_at s l ps → ps !! i = Some p →
  (∀ s', list_at s' l (<[i := tval]> ps) → frees_but [OL l] s s' [] → Q (Some p) s') →
  wp (on_list l (list_set_value (Z.of_nat i) (Some tval))) Q s.
Proof.
  intros (o & Ho & xs & Hr & Hv) Hp HQ. eapply wp_on_list; [exact Ho|].
  destruct (xs !! i) as [e|] eqn:He.
  2: { apply (f_equal (.!! i)) in Hv. rewrite values_lookup, He, list_lookup_fmap, Hp in Hv. done. }
  eapply list_set_value_ok; [exact Hr|exact He|]. intros x' Hr'.
  assert (i_value e.2 = Some p) as ->.
  { apply (f_equal (.!! i)) in Hv. rewrite values_lookup, He, list_lookup_fmap, Hp in Hv. by injection Hv. }
  apply HQ; [|apply set_list_frees]. eexists. split; [apply set_list_lookup|].
  eexists. split; [exact Hr'|]. unfold values. rewrite list_fmap_insert. change ((λ x, i_value x.2) <$> xs) with (values xs).
  by rewrite Hv, list_fmap_insert.
Qed.
Lemma push_at s l ps tval (Q : Z → store → Prop) :
  list_at s l ps → (Z.of_nat (length ps) < MAX_LEN)%Z →
  (∀ s', list_at s' l (ps ++ [tval]) → frees_but [OL l] s s' [] → Q 0%Z s') →
  wp (on_list l (add_value true (Some tval) push_entry)) Q s.
Proof.
  intros (o & Ho & xs & Hr & Hv) Hm HQ. eapply wp_on_list; [exact Ho|].
  assert (length xs = length ps) as Hlen by (rewrite <-length_values, Hv; apply length_fmap).
  eapply wp_mono; [apply (push_value_wp _ xs); [exact Hr|by rewrite Hlen]|].
  intros rc x' [-> Hl']. apply HQ; [|apply set_list_frees].
  eexists. split; [apply set_list_lookup|]. cbn [lo_list]. by rewrite fmap_app, <-Hv.
Qed.

(** What a new tagged value stores. *)
Definition stored (s : store) (t : tv_obj) (value : list Z) (len : nat) (copy : bool) : Prop :=
  if copy then ∃ b, o_value t = TVCopy b
    ∧ st_bufs s !! b = Some ((if bool_decide (len = 0) then cstr_of value else take len value) ++ [0%Z])
  else o_value t = TVCaller value.

(** A new tagged value at [tval] in [s']; nothing else has changed. *)
Definition created (s s' : store) (tval : loc) (tg value : list Z) (len : nat) (copy : bool) : Prop :=
  st_lists s' = st_lists s ∧ (st_fresh s ≤ tval)%positive
  ∧ (∀ p, (p < st_fresh s)%positive → st_tvs s' !! p = st_tvs s !! p)
  ∧ (∃ t, st_tvs s' !! tval = Some t ∧ o_tag t = Some (cstr_of tg) ∧ stored s' t value len copy)
  ∧ ∀ sub, ∃ X, tv_released sub s' tval X ∧ NoDup (OT tval :: X) ∧ Forall (λ x, ∃ b, x = OB b) X.

Lemma tv_new_ok s t tg value len copy s0 (Q : loc → store → Prop) :
  st_lists s = st_lists s0 → st_tvs s = st_tvs s0 → (st_fresh s0 ≤ st_fresh s)%positive →
  o_tag t = Some (cstr_of tg) → o_type t ≠ TV_TYPE_LIST → stored s t value len copy →
  (copy = false → o_vlen t = 0) →
  (∀ tval s', created s0 s' tval tg value len copy → Q tval s') → wp (tv_new t) Q s.
Proof.
  intros Hl Ht Hf Htag Hty Hst Hlen HQ. unfold tv_new. apply wp_bind. unfold wp at 1, new_loc.
  apply wp_bind, wp_modify, wp_ret, HQ. unfold created. cbn. split_and!; [done|lia| | |].
  - intros p Hp. rewrite lookup_insert_ne by lia. by rewrite Ht.
  - exists t. by rewrite lookup_insert_eq.
  - intros sub. unfold stored in Hst. destruct copy.
    + destruct Hst as (b & Hv & Hb).
      exists (if bool_decide (o_vlen t = 0) then [] else [OB b]). split_and!.
      * exists t. cbn. rewrite lookup_insert_eq, Hv. split; [done|]. split; [done|].
        destruct (bool_decide (o_vlen t = 0)); [done|]. split; [done|]. by eexists.
      * destruct (bool_decide (o_vlen t = 0)); repeat constructor; set_solver.
      * destruct (bool_decide (o_vlen t = 0)); repeat constructor. by exists b.
    + exists []. split_and!; [|repeat constructor; set_solver|constructor].
      exists t. cbn. rewrite lookup_insert_eq, Hst. by rewrite Hlen.
Qed.

Lemma create_ok s tg value len copy (Q : loc → store → Prop) :
  len ≤ length value →
  (∀ tval s', created s s' tval tg value len copy → Q tval s') →
  wp (if copy then list_create_tagged_value (Some tg) (Some value) len
      else list_create_tagged_value_nocopy (Some tg) (Some value)) Q s.
Proof.
  intros Hlen HQ. destruct copy.
  - unfold list_create_tagged_value. assert (∀ bs t, stored (mk_store (st_lists s) (st_tvs s)
      (<[st_fresh s := bs]> (st_bufs s)) (st_slices s) (Pos.succ (st_fresh s)) (st_calls s)) t value len true →
      o_tag t = Some (cstr_of tg) → o_type t ≠ TV_TYPE_LIST → o_value t = TVCopy (st_fresh s) →
      wp (b ← buf_new bs; tv_new (mk_tv (o_tag t) (TVCopy b) (o_vlen t) (o_type t))) Q s) as Hbuf.
    { intros bs t Hst Htag Hty Hv. apply wp_bind. unfold buf_new. apply wp_bind. unfold wp at 1, new_loc.
      apply wp_bind, wp_modify, wp_ret. cbn.
      destruct t as [tgo v vl ty]. cbn in *. subst.
      eapply (tv_new_ok _ _ tg value len true s); [done|done|cbn; lia|done|done|exact Hst|done|done]. }
    case_bool_decide as Hz.
    + rewrite bool_decide_eq_false_2 by lia.
      eapply (Hbuf _ (mk_tv (Some (cstr_of tg)) (TVCopy (st_fresh s)) len TV_TYPE_BINARY)); [|done|done|done].
      exists (st_fresh s). split; [done|]. cbn. rewrite lookup_insert_eq. by rewrite bool_decide_eq_false_2.
    + assert (len = 0) as -> by lia.
      eapply (Hbuf _ (mk_tv (Some (cstr_of tg)) (TVCopy (st_fresh s)) (length (cstr_of value)) TV_TYPE_STRING)); [|done|done|done].
      exists (st_fresh s). split; [done|]. cbn. by rewrite lookup_insert_eq.
  - unfold list_create_tagged_value_nocopy.
    eapply (tv_new_ok _ _ tg value len false s); try done.
Qed.

Lemma list_at_length s l ps o :
  list_at s l ps → st_lists s !! l = Some o →
  l_length (lo_list o) = Z.of_nat (length ps) ∧ i32 (l_length (lo_list o)) = Z.of_nat (length ps).
Proof.
  intros (o' & Ho' & Hl) Ho. assert (o' = o) as -> by congruence.
  destruct (list_is_length _ _ Hl) as [-> Hm]. rewrite length_fmap in *. split; [done|].
  apply i32_id. unfold in_i32, MAX_LEN in *. lia.
Qed.
Lemma find_tagged_drop s tg ps i p :
  ps !! i = Some p →
  find_tagged s tg (drop i ps)
  = if bool_decide (tag_at s p = Some tg) then Some (0, p)
    else prod_map S id <$> find_tagged s tg (drop (S i) ps).
Proof.
  intros Hp. rewrite (drop_S ps p i Hp). unfold find_tagged. cbn [list_find]. case_decide as Ht.
  - by rewrite bool_decide_eq_true_2.
  - by rewrite bool_decide_eq_false_2.
Qed.

Lemma find_tagged_ext s s' tg ps :
  (∀ p, p ∈ ps → st_tvs s' !! p = st_tvs s !! p) → find_tagged s tg ps = find_tagged s' tg ps.
Proof.
  unfold find_tagged, tag_at. induction ps as [|p ps IH]; intros H; [done|]. cbn [list_find].
  rewrite <-(H p) by left. rewrite IH by (intros; apply H; by right). by case_decide.
Qed.

Section SetTagged.
Context (depth : nat) (l : loc) (tg : list Z) (tval : loc) (ps : list loc) (s0 : store) (X : list obj).
Context (Htv : tv_released (released depth s0) s0 tval X) (Hnd : NoDup (OT tval :: X)) (HX : ∀ l, OL l ∉ X).
Context (Hps : Forall (λ p, is_Some (st_tvs s0 !! p)) ps) (Hmax : (Z.of_nat (length ps) < MAX_LEN)%Z).

(** What the loop leaves, according to the search for the tag. *)
Definition set_result (f : option (nat * loc)) (r : option loc) (s : store) : Prop :=
  match f with
  | Some (k, p) => r = Some p ∧ list_at s l (<[k := tval]> ps) ∧ frees_but [OL l] s0 s []
  | None => r = None ∧ list_at s l (ps ++ [tval]) ∧ frees_but [OL l] s0 s (X ++ [OT tval])
  end.

Lemma set_tagged_append s (Q : option loc → store → Prop) :
  list_at s l ps → frees_but [OL l] s0 s [] → (∀ s', set_result None None s' → Q None s') →
  wp (rc ← on_list l (add_value true (Some tval) push_entry);
      _ ← (if bool_decide (rc = 0%Z) then list_destroy_tagged_value depth (Some tval) else mret tt);
      mret None) Q s.
Proof using Htv Hnd HX Hps Hmax.
  intros Hl Hfr HQ. apply wp_bind. eapply push_at; [exact Hl|done|]. intros s1 Hl1 Hfr1.
  rewrite bool_decide_eq_true_2 by done. apply wp_bind. unfold list_destroy_tagged_value.
  pose proof (frees_trans [OL l] s0 s s1 [] [] ltac:(set_solver) Hfr Hfr1) as Hfr2. cbn [app] in Hfr2.
  eapply wp_mono.
  - apply (destroy_tagged_ok depth (list_destroy_ok depth) s1 tval X); [|done].
    eapply tv_released_frame; [intros l' Y; apply released_frame| |exact Htv].
    intros x Hx. apply Hfr2; [set_solver|]. intros ->%list_elem_of_singleton. set_solver.
  - intros [] s2 Hfr3. apply wp_ret, HQ. split; [done|]. split.
    + destruct Hl1 as (o & Ho & Hi). exists o. split; [|done]. rewrite <-Ho.
      apply (proj2 Hfr3 (OL l)); set_solver.
    + rewrite <-(app_nil_l (X ++ _)). eapply frees_trans; [set_solver|exact Hfr2|].
      eapply frees_weaken; [|exact Hfr3]. set_solver.
Qed.

Lemma set_tagged_loop_ok n : ∀ i s,
  list_at s l ps → frees_but [OL l] s0 s [] → length ps - i ≤ n →
  wp (set_tagged_loop depth n (Z.of_nat i) l tg tval)
     (λ r s', set_result (prod_map (Nat.add i) id <$> find_tagged s0 (cstr_of tg) (drop i ps)) r s') s.
Proof using Htv Hnd HX Hps Hmax.
  induction n as [|n IH]; intros i s Hl Hfr Hn; pose proof Hl as (o & Ho & _); cbn [set_tagged_loop];
    apply wp_bind; (eapply wp_sld; [exact Ho|]); destruct (list_at_length _ _ _ _ Hl Ho) as [_ ->].
  - rewrite bool_decide_eq_false_2 by lia. rewrite drop_ge by lia. cbn. apply set_tagged_append; [done|done|].
    by intros s' [_ ?].
  - case_bool_decide as Hi.
    2: { rewrite drop_ge by lia. cbn. apply set_tagged_append; [done|done|]. by intros s' [_ ?]. }
    destruct (lookup_lt_is_Some_2 ps i) as [p Hp]; [lia|].
    rewrite (find_tagged_drop s0 (cstr_of tg) ps i p Hp).
    apply wp_bind. eapply pick_at; [exact Hl|exact Hp|]. intros s1 Hl1 Hfr1.
    pose proof (frees_trans [OL l] s0 s s1 [] [] ltac:(set_solver) Hfr Hfr1) as Hfr2. cbn [app] in Hfr2.
    rewrite Forall_lookup in Hps. destruct (Hps i p Hp) as [t Ht].
    assert (st_tvs s1 !! p = Some t) as Ht1.
    { rewrite <-Ht. apply (proj2 Hfr2 (OT p)); set_solver. }
    apply wp_bind. eapply wp_sld; [exact Ht1|].
    assert (tag_at s0 p = o_tag t) as -> by (unfold tag_at; by rewrite Ht).
    case_bool_decide as Htag.
    + apply wp_bind. eapply set_at; [exact Hl1|exact Hp|]. intros s2 Hl2 Hfr3. apply wp_ret. cbn.
      rewrite Nat.add_0_r. split; [done|]. split; [done|].
      exact (frees_trans [OL l] s0 s1 s2 [] [] ltac:(set_solver) Hfr2 Hfr3).
    + replace (Z.of_nat i + 1)%Z with (Z.of_nat (S i)) by lia.
      eapply wp_mono; [apply (IH (S i)); [done|done|lia]|]. intros r s' Hres.
      destruct (find_tagged s0 (cstr_of tg) (drop (S i) ps)) as [[k q]|]; cbn in *; [|done].
      by rewrite Nat.add_succ_r.
Qed.
End SetTagged.

(** C22: [list_set_tagged_value] on a list of tagged values replaces the first
    value with the tag in place by a new one that holds the given bytes, and
    returns the old one; but if there is none, it appends the new value and
    then frees it, because it takes the code of success for a failure: the
    list is left with a dangling pointer at its end. *)
Theorem list_set_tagged_value_correct depth s l ps tg value len copy :
  list_at s l ps → Forall (λ p, is_Some (st_tvs s !! p) ∧ (p < st_fresh s)%positive) ps →
  (Z.of_nat (length ps) < MAX_LEN)%Z → len ≤ length value →
  ∃ r s' tval, list_set_tagged_value depth l tg value len copy s = Ret (r, s') ∧ tval ∉ ps
    ∧ (∀ p, p ∈ ps → st_tvs s' !! p = st_tvs s !! p)
    ∧ match find_tagged s (cstr_of tg) ps with
      | Some (k, p) => r = Some p ∧ list_at s' l (<[k := tval]> ps)
          ∧ ∃ t, st_tvs s' !! tval = Some t ∧ o_tag t = Some (cstr_of tg) ∧ stored s' t value len copy
      | None => r = None ∧ list_at s' l (ps ++ [tval]) ∧ st_tvs s' !! tval = None
      end.
Proof.
  intros Hl Hps Hm Hlen.
  assert (wp (list_set_tagged_value depth l tg value len copy) (λ r s', ∃ tval s1 X,
    created s s1 tval tg value len copy ∧ Forall (λ x, ∃ b, x = OB b) X
    ∧ set_result l tval ps s1 X (find_tagged s (cstr_of tg) ps) r s') s) as Hwp.
  { unfold list_set_tagged_value. apply wp_bind. eapply create_ok; [done|]. intros tval s1 Hc.
    pose proof Hc as (Hls & Hfresh & Htvs & _ & HX). destruct (HX (released depth s1)) as (X & Hh & Hnd & HoX).
    assert (list_at s1 l ps) as Hl1 by (destruct Hl as (o & ? & ?); exists o; by rewrite Hls).
    pose proof Hl1 as (o & Ho & _). apply wp_bind. eapply wp_sld; [exact Ho|].
    destruct (list_at_length _ _ _ _ Hl1 Ho) as [-> _]. rewrite Nat2Z.id.
    assert (find_tagged s (cstr_of tg) ps = find_tagged s1 (cstr_of tg) ps) as ->.
    { apply find_tagged_ext. intros p Hp. rewrite Forall_forall in Hps. by rewrite Htvs by (by apply Hps). }
    eapply wp_mono; [apply (set_tagged_loop_ok depth l tg tval ps s1 X Hh Hnd) with (i := 0); [| |done|done| |lia]|].
    - intros l' Hin. rewrite Forall_forall in HoX. by destruct (HoX _ Hin).
    - rewrite Forall_forall in *. intros p Hp. rewrite Htvs; by apply Hps.
    - split; [set_solver|by intros []].
    - intros r s' Hres. exists tval, s1, X. split; [done|]. split; [done|]. rewrite drop_0 in Hres.
      by destruct (find_tagged s1 (cstr_of tg) ps) as [[]|]. }
  apply wp_run in Hwp as (r & s' & Hrun & tval & s1 & X & (_ & Hfresh & Htvs & (t & Ht & Htag & Hst) & _) & HX & Hres).
  rewrite Forall_forall in Hps. rewrite Forall_forall in HX. exists r, s', tval. split; [done|]. split.
  { intros Hin. apply Hps in Hin as [_ Hin]. lia. }
  assert (∀ b, OB b ∉ [OL l]) as Hob by set_solver.
  destruct (find_tagged s (cstr_of tg) ps) as [[k p]|]; destruct Hres as (-> & Hl' & Hfr).
  - split; [|split_and!; try done].
    + intros q Hq. etrans; [apply (proj2 Hfr (OT q)); set_solver|]. by apply Htvs, Hps.
    + exists t. split; [rewrite <-Ht; apply (proj2 Hfr (OT tval)); set_solver|]. split; [done|].
      unfold stored in *. destruct copy; [|done]. destruct Hst as (b & Hv & Hb). exists b. split; [done|].
      rewrite <-Hb. apply (proj2 Hfr (OB b)); set_solver.
  - split; [|split_and!; try done].
    + intros q Hq. etrans; [apply (proj2 Hfr (OT q)); [|set_solver]|by apply Htvs, Hps].
      intros [Hin%HX|[= ->]%list_elem_of_singleton]%elem_of_app; [naive_solver|]. apply Hps in Hq as [_ Hq]. lia.
    + apply (proj1 Hfr (OT tval)). set_solver.
Qed.

(** The values stored under a tag, in order; a null value is [None]. *)
Definition data_at (s : store) (p : loc) : option tv_data :=
  t ← st_tvs s !! p; match o_value t with TVNull => None | d => Some d end.
Definition with_tag (s : store) (tg : list Z) (ps : list loc) : list (option tv_data) :=
  data_at s <$> filter (λ p, tag_at s p = Some tg) ps.

Lemma get_tagged_values_ok s0 l ps tg n : ∀ i s ret values vs,
  list_at s l ps → frees_but [OL l] s0 s [] → Forall (λ p, is_Some (tag_at s0 p)) ps → length ps - i ≤ n →
  list_is values vs → (Z.of_nat (length vs + (length ps - i)) ≤ MAX_LEN)%Z →
  wp (get_tagged_values_loop n (Z.of_nat i) ret l tg values) (λ r s',
    r.1 = (ret + Z.of_nat (length (with_tag s0 (cstr_of tg) (drop i ps))))%Z
    ∧ list_is r.2 (vs ++ with_tag s0 (cstr_of tg) (drop i ps))
    ∧ list_at s' l ps ∧ frees_but [OL l] s0 s' []) s.
Proof.
  induction n as [|n IH]; intros i s ret values vs Hl Hfr Hps Hn Hv Hm; pose proof Hl as (o & Ho & _);
    cbn [get_tagged_values_loop]; apply wp_bind; (eapply wp_sld; [exact Ho|]);
    destruct (list_at_length _ _ _ _ Hl Ho) as [_ ->].
  - rewrite bool_decide_eq_false_2 by lia. rewrite drop_ge by lia. apply wp_ret. cbn.
    rewrite Z.add_0_r, app_nil_r. done.
  - case_bool_decide as Hi.
    2: { rewrite drop_ge by lia. apply wp_ret. cbn. by rewrite Z.add_0_r, app_nil_r. }
    destruct (lookup_lt_is_Some_2 ps i) as [p Hp]; [lia|]. rewrite (drop_S ps p i Hp).
    apply wp_bind. eapply pick_at; [exact Hl|exact Hp|]. intros s1 Hl1 Hfr1.
    pose proof (frees_trans [OL l] s0 s s1 [] [] ltac:(set_solver) Hfr Hfr1) as Hfr2. cbn [app] in Hfr2.
    destruct (proj1 (Forall_lookup _ _) Hps i p Hp) as [tg' Htg]. unfold tag_at in Htg.
    destruct (st_tvs s0 !! p) as [t|] eqn:Ht; [|done]. cbn in Htg.
    assert (st_tvs s1 !! p = Some t) as Ht1 by (rewrite <-Ht; apply (proj2 Hfr2 (OT p)); set_solver).
    apply wp_bind. eapply wp_sld; [exact Ht1|]. rewrite Htg.
    replace (Z.of_nat i + 1)%Z with (Z.of_nat (S i)) by lia. unfold with_tag. rewrite filter_cons.
    assert (tag_at s0 p = Some tg') as Htag by (unfold tag_at; by rewrite Ht).
    case_bool_decide as Heq.
    + rewrite decide_True by congruence. apply wp_bind.
      assert (data_at s0 p = match o_value t with TVNull => None | d => Some d end) as <-
        by (unfold data_at; by rewrite Ht).
      destruct (list_push_value_is values vs (data_at s0 p) Hv) as (values' & Hpush & Hv'); [lia|].
      unfold wp at 1, run. rewrite Hpush. cbn [fst snd].
      eapply wp_mono; [apply (IH (S i) s1 _ values' (vs ++ [data_at s0 p])); try done; [lia|rewrite length_app; simpl; lia]|].
      intros r s' (Hr1 & Hr2 & ? & ?). cbn [fmap list_fmap length]. split_and!; try done.
      * rewrite Hr1. unfold with_tag. lia.
      * by rewrite <-app_assoc in Hr2.
    + rewrite decide_False by congruence.
      eapply wp_mono; [apply (IH (S i) s1 ret values vs); try done; lia|]. by intros r s' ?.
Qed.

(** [list_get_tagged_values] appends the values of all tagged values with
    the tag, in their order, to the list of results and returns their number;
    the list searched keeps its values. *)
Theorem list_get_tagged_values_correct s l ps tg values vs :
  list_at s l ps → Forall (λ p, is_Some (tag_at s p)) ps → list_is values vs →
  (Z.of_nat (length vs + length ps) ≤ MAX_LEN)%Z →
  ∃ s' values', list_get_tagged_values l tg values s
      = Ret ((Z.of_nat (length (with_tag s (cstr_of tg) ps)), values'), s')
    ∧ list_is values' (vs ++ with_tag s (cstr_of tg) ps) ∧ list_at s' l ps
    ∧ ∀ p, st_tvs s' !! p = st_tvs s !! p.
Proof.
  intros Hl Hps Hv Hm.
  assert (wp (list_get_tagged_values l tg values) (λ r s',
    r.1 = Z.of_nat (length (with_tag s (cstr_of tg) ps)) ∧ list_is r.2 (vs ++ with_tag s (cstr_of tg) ps)
    ∧ list_at s' l ps ∧ frees_but [OL l] s s' []) s) as Hwp.
  { unfold list_get_tagged_values. pose proof Hl as (o & Ho & _). apply wp_bind. eapply wp_sld; [exact Ho|].
    destruct (list_at_length _ _ _ _ Hl Ho) as [-> _]. rewrite Nat2Z.id.
    eapply wp_mono; [apply (get_tagged_values_ok s l ps tg (length ps) 0 s 0%Z values vs); try done|].
    - split; [set_solver|by intros []].
    - lia.
    - by rewrite Nat.sub_0_r.
    - intros r s'. by rewrite drop_0. }
  apply wp_run in Hwp as ([r values'] & s' & Hrun & Hr & Hv' & Hl' & Hfr). cbn in Hr, Hv'. subst r.
  exists s', values'. split_and!; try done. intros p. apply (proj2 Hfr (OT p)); set_solver.
Qed.

(** ** Slices *)
Lemma unlink_slice_spec sl chain : ∀ first k,
  NoDup chain → chain !! k = Some sl →
  unlink_slice first sl chain
  = if (first && bool_decide (k = 0)) || bool_decide (S k < length chain) then Ret (delete k chain) else Fault.
Proof.
  induction chain as [|c chain IH]; intros first k Hnd Hk; [done|]. apply NoDup_cons in Hnd as [Hc Hnd].
  cbn [unlink_slice]. destruct k as [|k]; cbn in Hk.
  - injection Hk as ->. rewrite !bool_decide_eq_true_2 by done. destruct first; cbn [andb orb]; [done|].
    destruct chain; cbn [length]; [done|]. by rewrite bool_decide_eq_true_2 by lia.
  - rewrite bool_decide_eq_false_2. 2: { intros ->. by apply list_elem_of_lookup_2 in Hk. }
    rewrite (IH false k Hnd Hk). rewrite (bool_decide_eq_false_2 (S k = 0)), andb_false_r by lia. cbn [andb orb length].
    rewrite (bool_decide_ext (S (S k) < S (length chain)) (S k < length chain)) by lia.
    by destruct (bool_decide (S k < length chain)).
Qed.

(** [slice_destroy] unlinks and frees the first slice of a list and every
    slice that has a successor; destroying the last of two or more slices
    dereferences the null pointer behind it. *)
Theorem slice_destroy_result s l o sl x k :
  st_lists s !! l = Some o → st_slices s !! sl = Some x → sl_list x = l →
  NoDup (lo_slices o) → lo_slices o !! k = Some sl →
  slice_destroy sl s
  = if bool_decide (k = 0) || bool_decide (S k < length (lo_slices o))
    then Ret (tt, set_slices (delete sl)
                    (set_lists <[l := mk_lobj (lo_list o) (lo_free_cb o) (delete k (lo_slices o))]> s))
    else Fault.
Proof.
  intros Ho Hx Hl Hnd Hk. unfold slice_destroy, mbind, st_bind, ld. rewrite Hx, Hl, Ho.
  unfold run. rewrite (unlink_slice_spec sl (lo_slices o) true k Hnd Hk). cbn [andb].
  destruct (bool_decide (k = 0) || bool_decide (S k < length (lo_slices o))); [|done].
  unfold st_modify, free_obj, mbind, st_bind, ld. cbn. by rewrite Hx.
Qed.

(** ** Destruction of nested lists *)
(** What the tagged value at [p] owns besides itself: a buffer the library
    copied, which holds [o_vlen] bytes and a NUL, or the objects of its sublist.
    Memory of the caller is not its own. *)
Definition tv_owns (sub : loc → list obj → Prop) (s : store) (p : loc) (X : list obj) : Prop :=
  ∃ t, st_tvs s !! p = Some t ∧
    match o_value t with
    | TVNull => X = []
    | TVList l => o_type t = TV_TYPE_LIST ∧ sub l X
    | TVCopy b => o_type t ≠ TV_TYPE_LIST ∧ X = [OB b] ∧ ∃ bs, st_bufs s !! b = Some bs ∧ length bs = S (o_vlen t)
    | TVCaller _ => o_type t ≠ TV_TYPE_LIST ∧ o_vlen t = 0 ∧ X = []
    end.
(** The list at [l] without a free callback, its slices, its tagged values and
    what these own, nested at most [n] deep, are the objects [X]. *)
Fixpoint owns (n : nat) (s : store) (l : loc) (X : list obj) : Prop :=
  match n with
  | O => False
  | S n => ∃ o ps Xs,
      st_lists s !! l = Some o ∧ lo_free_cb o = false ∧ tagged_is (lo_list o) ps
      ∧ Forall (λ sl, ∃ x, st_slices s !! sl = Some x ∧ sl_list x = l) (lo_slices o)
      ∧ Forall2 (tv_owns (owns n s) s) ps Xs
      ∧ X = OL l :: (OS <$> lo_slices o) ++ kids ps Xs
  end.
(** A buffer with the copy of an empty string: the NUL byte only. *)
Definition empty_copy (s : store) (x : obj) : bool :=
  match x with OB b => match st_bufs s !! b with Some [_] => true | _ => false end | _ => false end.
Notation freed_of s X := (filter (λ x, empty_copy s x = false) X).

Lemma tv_owns_released (sub sub' : loc → list obj → Prop) s p X :
  (∀ l Y, sub l Y → sub' l (freed_of s Y)) → tv_owns sub s p X → tv_released sub' s p (freed_of s X).
Proof.
  intros Hsub (t & Ht & Hv). exists t. split; [done|]. destruct (o_value t) as [|b|bs|l].
  - by subst X.
  - destruct Hv as (Hty & -> & bs & Hb & Hlen). split; [done|]. case_bool_decide as H0.
    + rewrite filter_cons_False; [done|]. simpl. rewrite Hb. rewrite H0 in Hlen. by destruct bs as [|? [|]].
    + rewrite filter_cons_True; [split; [done|by eexists]|]. simpl. rewrite Hb. destruct bs as [|? [|]]; simpl in *; try done; lia.
  - destruct Hv as (? & ? & ->). done.
  - destruct Hv as [? Hv]. split; [done|]. by apply Hsub.
Qed.
Lemma kids_freed s ps Xs : freed_of s (kids ps Xs) = kids ps ((λ Y, freed_of s Y) <$> Xs).
Proof.
  revert Xs. induction ps as [|p ps IH]; intros [|Y Xs]; try done. cbn [zip_with concat fmap list_fmap].
  rewrite filter_app, filter_cons_True by done. by rewrite IH.
Qed.
Lemma owns_released n : ∀ s l X, owns n s l X → released n s l (freed_of s X).
Proof.
  induction n as [|n IH]; intros s l X; [done|]. intros (o & ps & Xs & Ho & Hcb & Hps & Hsl & HF & ->).
  exists o, ps, ((λ Y, freed_of s Y) <$> Xs). split_and!; try done.
  - apply Forall2_fmap_r. eapply Forall2_impl; [exact HF|]. intros p Y. apply tv_owns_released. intros l'. apply IH.
  - rewrite filter_cons_True, filter_app, kids_freed by done. f_equal. f_equal.
    generalize (lo_slices o). intros sls. induction sls as [|sl sls IHs]; [done|].
    rewrite !fmap_cons. rewrite filter_cons_True by reflexivity. f_equal. exact IHs.
Qed.

(** C21: [list_destroy] on a list without a free callback, of tagged values
    that may own copied buffers and sublists of the same kind, nested to any
    depth, returns: of the list, its slices, its tagged values and what they own
    it frees each object once, except the copies of empty strings, which stay
    allocated, and it leaves every other object as it was. *)
Theorem list_destroy_frees n s l X :
  owns n s l X → NoDup X →
  ∃ s', list_destroy n l s = Ret (tt, s') ∧ frees s s' (freed_of s X)
    ∧ ∀ x, x ∈ X → empty_copy s x = true → ¬ gone s' x.
Proof.
  intros Hh%owns_released Hnd.
  destruct (wp_run _ _ _ (list_destroy_ok n l _ s Hh (NoDup_filter _ _ Hnd))) as ([] & s' & Hrun & Hfr). exists s'.
  split_and!; [done|done|]. intros x Hx He Hg. destruct Hfr as [_ Ha].
  specialize (Ha x ltac:(rewrite list_elem_of_filter; intros []; congruence) ltac:(apply not_elem_of_nil)).
  destruct x as [| |b|]; try done. simpl in *. rewrite Hg in Ha. by rewrite <-Ha in He.
Qed.

(** The copy of an empty string is never freed: its length 0 marks memory of
    the caller. *)
Theorem empty_copy_leaks d s tg :
  ∃ s1 s2 p, list_create_tagged_value (Some tg) (Some [0%Z]) 0 s = Ret (p, s1)
    ∧ list_destroy_tagged_value d (Some p) s1 = Ret (tt, s2)
    ∧ st_bufs s2 = <[st_fresh s := [0%Z]]> (st_bufs s).
Proof.
  eexists _, _, _. split; [reflexivity|]. split.
  - unfold list_destroy_tagged_value, list_destroy_tagged_value_internal, mbind, st_bind, ld, free_obj. cbn.
    rewrite lookup_insert_eq. cbn. rewrite (bool_decide_eq_true_2 (0%Z = 0%Z)) by done. cbn.
    rewrite (bool_decide_eq_false_2 (0 ≠ 0)) by (by intros []).
    unfold mret, st_ret, mbind, st_bind, ld. cbn [set_tvs st_tvs]. rewrite lookup_insert_eq. reflexivity.
  - reflexivity.
Qed.

Lemma push_tagged_ok x ps p :
  tagged_is x ps → (Z.of_nat (length ps) < MAX_LEN)%Z →
  wp (add_value true (Some p) push_entry) (λ rc x', rc = 0%Z ∧ tagged_is x' (ps ++ [p])) x.
Proof.
  intros (xs & Hr & Hv & Ht) Hm.
  assert (length xs = length ps) as Hlen by (rewrite <-length_values, Hv; apply length_fmap).
  eapply add_value_ok; [exact Hr|]. intros y l Hy.
  eapply push_ok; [exact Hy|by rewrite Hlen|]. intros y' Hy'. split; [done|]. split; [done|].
  eexists. split; [exact Hy'|]. rewrite values_app, Hv, fmap_app. split; [done|].
  apply Forall_app. split; [done|]. by repeat constructor.
Qed.

(** ** Witnesses *)
(** The list at 1 holds a tagged value with a copied buffer and one with a
    sublist, the list at 2, whose only value is a copy of the empty string; the
    list at 1 has two slices. *)
Definition tagged_list (ps : list loc) : linked_list loc :=
  match foldl (λ m p, _ ← m; add_value true (Some p) push_entry) (mret 0%Z) ps list_create with
  | Ret (_, x) => x
  | Fault => list_create
  end.
Definition outer : linked_list loc := tagged_list [3; 4]%positive.
Definition inner : linked_list loc := tagged_list [8]%positive.
Definition store1 : store :=
  mk_store (<[1%positive := mk_lobj outer false [6; 7]%positive]> {[2%positive := mk_lobj inner false []]})
    (<[3%positive := mk_tv (Some [97]%Z) (TVCopy 5) 1 TV_TYPE_BINARY]>
       (<[4%positive := mk_tv (Some [98]%Z) (TVList 2) 0 TV_TYPE_LIST]>
         {[8%positive := mk_tv (Some [99]%Z) (TVCopy 9) 0 TV_TYPE_STRING]}))
    (<[5%positive := [120; 0]%Z]> {[9%positive := [0]%Z]})
    (<[6%positive := mk_slice 1 0 1]> {[7%positive := mk_slice 1 1 1]}) 10 [].

Lemma tagged_is_create : tagged_is list_create [].
Proof. destruct (list_is_create (V := loc)) as (xs & Hr & Hv). exists xs. split; [done|]. apply fmap_nil_inv in Hv as ->. done. Qed.
Lemma outer_is : tagged_is outer [3; 4]%positive.
Proof.
  destruct (wp_run _ _ _ (push_tagged_ok list_create [] 3 tagged_is_create ltac:(done))) as (rc & x & H1 & _ & L1).
  destruct (wp_run _ _ _ (push_tagged_ok x [3%positive] 4 L1 ltac:(done))) as (rc' & x' & H2 & _ & L2).
  unfold outer, tagged_list, mbind, st_bind. cbn [foldl mret st_ret]. by rewrite H1, H2.
Qed.
Lemma inner_is : tagged_is inner [8]%positive.
Proof.
  destruct (wp_run _ _ _ (push_tagged_ok list_create [] 8 tagged_is_create ltac:(done))) as (rc & x & H1 & _ & L1).
  unfold inner, tagged_list, mbind, st_bind. cbn [foldl mret st_ret]. by rewrite H1.
Qed.
Lemma outer_at : list_at store1 1 [3; 4]%positive.
Proof.
  eexists. split; [reflexivity|]. destruct outer_is as (xs & Hr & Hv & _). by exists xs.
Qed.

Definition objs1 : list obj := [OL 1; OS 6; OS 7; OT 3; OB 5; OT 4; OL 2; OT 8; OB 9].
Lemma store1_owns : owns 2 store1 1 objs1.
Proof.
  exists (mk_lobj outer false [6; 7]%positive), [3; 4]%positive, [[OB 5]; [OL 2; OT 8; OB 9]].
  split_and!; [done|done|exact outer_is|by repeat (constructor; [by eexists|])| |done].
  constructor; [|constructor; [|constructor]].
  - eexists. split; [reflexivity|]. cbn. split; [done|]. split; [done|]. by eexists.
  - eexists. split; [reflexivity|]. cbn. split; [done|].
    exists (mk_lobj inner false []), [8%positive], [[OB 9]]. split_and!; try done; [exact inner_is|].
    constructor; [|constructor]. eexists. split; [reflexivity|]. cbn. split; [done|]. split; [done|]. by eexists.
Qed.

Lemma list_destroy_frees_witness :
  ∃ s', list_destroy 2 1 store1 = Ret (tt, s') ∧ frees store1 s' (freed_of store1 objs1)
    ∧ ∀ x, x ∈ objs1 → empty_copy store1 x = true → ¬ gone s' x.
Proof.
  apply (list_destroy_frees 2 store1 1 objs1 store1_owns).
  refine (bool_decide_unpack (NoDup objs1) _). vm_compute. exact I.
Defined.

Lemma list_set_tagged_value_correct_witness :
  ∃ r s' tval, list_set_tagged_value 1 1 [98]%Z [7; 8]%Z 2 true store1 = Ret (r, s') ∧ tval ∉ [3; 4]%positive
    ∧ (∀ p, p ∈ [3; 4]%positive → st_tvs s' !! p = st_tvs store1 !! p)
    ∧ r = Some 4%positive ∧ list_at s' 1 [3%positive; tval]
    ∧ ∃ t, st_tvs s' !! tval = Some t ∧ o_tag t = Some [98]%Z ∧ stored s' t [7; 8]%Z 2 true.
Proof.
  apply (list_set_tagged_value_correct 1 store1 1 [3; 4]%positive [98]%Z [7; 8]%Z 2 true outer_at);
    [|done|done]. repeat constructor; by eexists.
Defined.

Lemma list_get_tagged_values_correct_witness :
  ∃ s' values', list_get_tagged_values 1 [97]%Z list_create store1 = Ret ((1%Z, values'), s')
    ∧ list_is values' [Some (TVCopy 5)] ∧ list_at s' 1 [3; 4]%positive
    ∧ ∀ p, st_tvs s' !! p = st_tvs store1 !! p.
Proof.
  apply (list_get_tagged_values_correct store1 1 [3; 4]%positive [97]%Z list_create [] outer_at);
    [|apply list_is_create|done]. repeat constructor; by eexists.
Defined.

Lemma slice_destroy_result_witness : slice_destroy 7 store1 = Fault.
Proof.
  apply (slice_destroy_result store1 1 (mk_lobj outer false [6; 7]%positive) 7 (mk_slice 1 1 1) 1);
    try reflexivity. refine (bool_decide_unpack (NoDup [6; 7]%positive) _). vm_compute. exact I.
Defined.
