(* ===== verification/BinFile.v ===== *)
(** * Binary file fields (src/index/storage/bin_file_ops.c)

    A field is |type : int|length : size_t|data|.  A stream being written is
    the bytes written so far, a stream being read the bytes that are left.
    [fread] copies the bytes that are left into the buffer and leaves the rest
    of the buffer as it was, so that truncated files are covered.  Allocation
    does not fail. *)
From S2P Require Import Prelude.

Notation FILE := (list Z) (only parsing).

(** ** stdio *)
Definition fwrite (bytes : list Z) (f : FILE) : FILE := f ++ bytes.
(** fread of [n] bytes into the buffer [buf]. *)
Definition fread (buf : list Z) (n : nat) (f : FILE) : list Z * FILE :=
  (take n f ++ drop (length (take n f)) buf, drop n f).

(** ** Writing *)
Definition append_field (type : Z) (len : Z) (data f : list Z) : list Z :=
  fwrite data (fwrite (le_split 8 len) (fwrite (int_bytes type) f)).

Definition miqs_append_int (data : Z) (f : list Z) : list Z := append_field 1 1 (int_bytes data) f.
(** [data] is the bit pattern of the double. *)
Definition miqs_append_double (data : Z) (f : list Z) : list Z := append_field 2 1 (le_split 8 data) f.
Definition miqs_append_string_with_len (data : list Z) (len : nat) (f : list Z) : list Z :=
  append_field 3 (Z.of_nat len) (take len data) f.
Definition miqs_append_string (data : list Z) (f : list Z) : list Z :=
  miqs_append_string_with_len data (length data) f.
Definition miqs_append_uint64 (data : Z) (f : list Z) : list Z := append_field 4 1 (le_split 8 data) f.
Definition miqs_append_size_t (data : Z) (f : list Z) : list Z := append_field 5 1 (le_split 8 data) f.
Definition miqs_append_type (type : Z) (f : list Z) : list Z := miqs_append_int type f.

(** ** Reading *)

(** Element size of a field type, and the bytes calloc'd beyond the data. *)
Definition elem_size (type : Z) : option (nat * nat) :=
  match type with
  | 1%Z => Some (4, 0) | 2%Z => Some (8, 0) | 3%Z => Some (1, 1)
  | 4%Z => Some (8, 0) | 5%Z => Some (8, 0) | _ => None
  end.

(** The type, the length and the buffer; [None] is the uninitialised pointer
    of an unknown type. *)
Definition miqs_read_general (f : FILE) : (Z * Z * option (list Z)) * FILE :=
  let '(tb, f) := fread (int_bytes (-1)) 4 f in
  let type := signed 32 (le_combine tb) in
  let '(lb, f) := fread (replicate 8 0%Z) 8 f in
  let length := le_combine lb in
  match elem_size type with
  | Some (sz, extra) =>
      let n := Z.to_nat length * sz in
      let '(data, f) := fread (replicate (n + extra) 0%Z) n f in
      ((type, length, Some data), f)
  | None => ((type, length, None), f)
  end.

(** Number of bytes skipped; 0 at the end of the file.  The [free] of an
    uninitialised pointer for an unknown type is a fault. *)
Definition miqs_skip_field (f : FILE) : outcome (Z * FILE) :=
  let '(tb, f) := fread (int_bytes (-1)) 4 f in
  let type := signed 32 (le_combine tb) in
  if bool_decide (type = (-1)%Z) then Ret (0%Z, f)
  else
    let '(lb, f) := fread (replicate 8 0%Z) 8 f in
    let length := le_combine lb in
    match elem_size type with
    | Some (sz, extra) =>
        let n := Z.to_nat length * sz in
        let '(_, f) := fread (replicate (n + extra) 0%Z) n f in
        Ret (u64 (12 + Z.of_nat sz * length)%Z, f)
    | None => Fault
    end.

(** A field of type [t], and of length 1 if [single]; [None] is NULL. *)
Definition read_typed (t : Z) (single : bool) (f : FILE) : option (list Z) * FILE :=
  let '((type, len, data), f) := miqs_read_general f in
  (if bool_decide (type = t) && (negb single || bool_decide (len = 1%Z)) then data else None, f).

(** The results are the buffers the returned pointers point to. *)
Definition miqs_read_int (f : FILE) : option (list Z) * FILE := read_typed 1 true f.
Definition miqs_read_double (f : FILE) : option (list Z) * FILE := read_typed 2 true f.
Definition miqs_read_string (f : FILE) : option (list Z) * FILE :=
  let '(data, f) := read_typed 3 false f in (cstr_of <$> data, f).
Definition miqs_read_uint64 (f : FILE) : option (list Z) * FILE := read_typed 4 true f.
Definition miqs_read_size_t (f : FILE) : option (list Z) * FILE := read_typed 5 true f.

(** Sets [is_float] only for a single int or double. *)
Definition miqs_read_index_numeric_value (is_float : bool) (f : FILE)
    : (bool * option (list Z)) * FILE :=
  let '((type, len, data), f) := miqs_read_general f in
  let is_float :=
    if bool_decide (len = 1%Z) then
      if bool_decide (type = 1%Z) then false
      else if bool_decide (type = 2%Z) then true else is_float
    else is_float in
  ((is_float, data), f).

(** ** Fields of a file *)

Lemma fread_exact buf n bytes rest :
  length bytes = n → length buf = n → fread buf n (bytes ++ rest) = (bytes, rest).
Proof.
  intros Hl Hb. unfold fread. rewrite take_app_length', drop_app_length' by done.
  rewrite Hl, drop_ge by lia. by rewrite app_nil_r.
Qed.

(** The bytes of one field. *)
Definition field (type : Z) (len : Z) (data : list Z) : list Z :=
  int_bytes type ++ le_split 8 len ++ data.

Lemma append_field_app type len data f : append_field type len data f = f ++ field type len data.
Proof. unfold append_field, fwrite, field. by rewrite <-!app_assoc. Qed.

Lemma length_field type len data : length (field type len data) = 12 + length data.
Proof. unfold field, int_bytes. rewrite !length_app, !length_le_split. lia. Qed.

Lemma le_split_u64 x : in_u64 x → le_combine (le_split 8 x) = x.
Proof.
  intros Hx. rewrite le_combine_split. change (8 * Z.of_nat 8)%Z with 64%Z.
  by rewrite Z.mod_small.
Qed.

Lemma read_type type rest :
  in_i32 type →
  ∃ tb, fread (int_bytes (-1)) 4 (int_bytes type ++ rest) = (tb, rest)
      ∧ signed 32 (le_combine tb) = type.
Proof.
  intros Ht. exists (int_bytes type). split; [apply fread_exact; apply length_le_split|].
  rewrite <-(take_ge (int_bytes type) 4) by (by unfold int_bytes; rewrite length_le_split).
  by apply int_bytes_decode.
Qed.
Lemma read_len len rest :
  in_u64 len →
  ∃ lb, fread (replicate 8 0%Z) 8 (le_split 8 len ++ rest) = (lb, rest) ∧ le_combine lb = len.
Proof.
  intros Hl. exists (le_split 8 len). split; [by apply fread_exact; [apply length_le_split|]|].
  by apply le_split_u64.
Qed.

(** The buffer read for a complete field: the data, and a NUL after a
    string. *)
Lemma read_data n extra data rest :
  length data = n →
  fread (replicate (n + extra) 0%Z) n (data ++ rest) = (data ++ replicate extra 0%Z, rest).
Proof.
  intros Hl. unfold fread. rewrite take_app_length', drop_app_length' by done.
  by rewrite Hl, drop_replicate, Nat.add_comm, Nat.add_sub.
Qed.

Lemma read_general_field type len data rest sz extra :
  in_i32 type → in_u64 len → elem_size type = Some (sz, extra) →
  length data = Z.to_nat len * sz →
  miqs_read_general (field type len data ++ rest)
  = ((type, len, Some (data ++ replicate extra 0%Z)), rest).
Proof.
  intros Ht Hlen Hsz Hd. unfold miqs_read_general, field. rewrite <-!app_assoc.
  destruct (read_type type (le_split 8 len ++ data ++ rest) Ht) as (tb & -> & ->).
  destruct (read_len len (data ++ rest) Hlen) as (lb & -> & ->). rewrite Hsz.
  by rewrite read_data.
Qed.

(** Fields written by the append functions are read back, and only their
    bytes are consumed. *)
Lemma skip_field type len data rest sz extra :
  in_i32 type → in_u64 len → elem_size type = Some (sz, extra) →
  length data = Z.to_nat len * sz →
  miqs_skip_field (field type len data ++ rest) = Ret (u64 (12 + Z.of_nat sz * len)%Z, rest).
Proof.
  intros Ht Hlen Hsz Hd. unfold miqs_skip_field, field. rewrite <-!app_assoc.
  destruct (read_type type (le_split 8 len ++ data ++ rest) Ht) as (tb & -> & ->).
  rewrite bool_decide_eq_false_2 by (intros ->; done).
  destruct (read_len len (data ++ rest) Hlen) as (lb & -> & ->). rewrite Hsz.
  by rewrite read_data.
Qed.

Definition int_field (x : Z) : list Z := field 1 1 (int_bytes x).
Definition double_field (x : Z) : list Z := field 2 1 (le_split 8 x).
Definition string_field (s : list Z) : list Z := field 3 (Z.of_nat (length s)) s.
Definition uint64_field (x : Z) : list Z := field 4 1 (le_split 8 x).
Definition size_t_field (x : Z) : list Z := field 5 1 (le_split 8 x).

(** Strings whose length fits a [size_t]. *)
Definition storable (s : list Z) : Prop := cstr s ∧ in_u64 (Z.of_nat (length s)).

Lemma append_int_app x f : miqs_append_int x f = f ++ int_field x.
Proof. apply append_field_app. Qed.
Lemma append_double_app x f : miqs_append_double x f = f ++ double_field x.
Proof. apply append_field_app. Qed.
Lemma append_string_app s f : miqs_append_string s f = f ++ string_field s.
Proof.
  unfold miqs_append_string, miqs_append_string_with_len. rewrite take_ge by done.
  apply append_field_app.
Qed.
Lemma append_uint64_app x f : miqs_append_uint64 x f = f ++ uint64_field x.
Proof. apply append_field_app. Qed.
Lemma append_size_t_app x f : miqs_append_size_t x f = f ++ size_t_field x.
Proof. apply append_field_app. Qed.

Lemma read_int_field x rest : miqs_read_int (int_field x ++ rest) = (Some (int_bytes x), rest).
Proof.
  unfold miqs_read_int, read_typed, int_field.
  rewrite (read_general_field 1 1 _ rest 4 0); [|done..|unfold int_bytes; by rewrite length_le_split].
  simpl. done.
Qed.
Lemma read_double_field x rest : miqs_read_double (double_field x ++ rest) = (Some (le_split 8 x), rest).
Proof.
  unfold miqs_read_double, read_typed, double_field.
  rewrite (read_general_field 2 1 _ rest 8 0); [|done..|by rewrite length_le_split].
  simpl. done.
Qed.
Lemma read_uint64_field x rest : miqs_read_uint64 (uint64_field x ++ rest) = (Some (le_split 8 x), rest).
Proof.
  unfold miqs_read_uint64, read_typed, uint64_field.
  rewrite (read_general_field 4 1 _ rest 8 0); [|done..|by rewrite length_le_split].
  simpl. done.
Qed.
Lemma read_size_t_field x rest : miqs_read_size_t (size_t_field x ++ rest) = (Some (le_split 8 x), rest).
Proof.
  unfold miqs_read_size_t, read_typed, size_t_field.
  rewrite (read_general_field 5 1 _ rest 8 0); [|done..|by rewrite length_le_split].
  simpl. done.
Qed.

Lemma cstr_of_app s r : cstr s → cstr_of (s ++ 0%Z :: r) = s.
Proof.
  induction 1 as [|b s Hb _ IH]; simpl; [done|].
  rewrite bool_decide_eq_false_2 by lia. by rewrite IH.
Qed.

Lemma read_string_field s rest :
  storable s → miqs_read_string (string_field s ++ rest) = (Some s, rest).
Proof.
  intros [Hs Hl]. unfold miqs_read_string, read_typed, string_field.
  rewrite (read_general_field 3 (Z.of_nat (length s)) s rest 1 1); [|done..|lia].
  cbn [bool_decide negb orb andb decide_rel fmap option_fmap option_map].
  rewrite bool_decide_eq_true_2 by done. cbn. by rewrite cstr_of_app.
Qed.

Lemma read_int_eof : miqs_read_int [] = (None, []).
Proof. done. Qed.
