(* ===== verification/Metadata.v ===== *)
(** * Metadata attributes (src/metadata/miqs_metadata.h, miqs_metadata.c) and
    string hashes (src/utils/hash_utils.c) *)
From S2P Require Import Prelude.

Inductive miqs_attr_type := MIQS_AT_UNKNOWN | MIQS_AT_INTEGER | MIQS_AT_FLOAT | MIQS_AT_STRING.
#[export] Instance miqs_attr_type_eq_dec : EqDecision miqs_attr_type.
Proof. solve_decision. Defined.

Definition int_of_type (t : miqs_attr_type) : Z :=
  match t with
  | MIQS_AT_UNKNOWN => 0 | MIQS_AT_INTEGER => 1 | MIQS_AT_FLOAT => 2 | MIQS_AT_STRING => 3
  end.
Definition get_miqs_type_from_int (number : Z) : miqs_attr_type :=
  match number with
  | 1%Z => MIQS_AT_INTEGER | 2%Z => MIQS_AT_FLOAT | 3%Z => MIQS_AT_STRING | _ => MIQS_AT_UNKNOWN
  end.

Lemma type_int_roundtrip t : get_miqs_type_from_int (int_of_type t) = t.
Proof. by destruct t. Qed.
Lemma int_of_type_range t : in_i32 (int_of_type t).
Proof. by destruct t. Qed.

(** attribute_value: the bytes of an int or double array, or the strings a
    char** array points to. *)
Inductive attr_values :=
| ANum (bytes : list Z)
| AStr (strs : list (list Z)).

Record miqs_meta_attribute := mk_attr {
  attr_name : list Z;
  attr_type : miqs_attr_type;
  attribute_value : attr_values;
  attribute_value_length : Z;
  file_path_str : list Z;
  obj_path_str : list Z
}.

(** ** String hashes (src/utils/hash_utils.c) *)
Definition djb2_hash (str : list Z) : Z :=
  foldl (λ hash c, u64 (u64 (u64 (Z.shiftl hash 5) + hash) + c)) 5381%Z str.
Definition sdbm_hash (str : list Z) : Z :=
  foldl (λ hash c, u64 (c + u64 (Z.shiftl hash 6) + u64 (Z.shiftl hash 16) - hash)) 0%Z str.
(** [unsigned int] accumulator. *)
Definition lose_lose_hash (str : list Z) : Z := foldl (λ hash c, u32 (hash + c)) 0%Z str.

Lemma foldl_range (f : Z → Z → Z) (P : Z → Prop) h l :
  (∀ h c, P (f h c)) → P h → P (foldl f h l).
Proof. intros Hf. revert h. induction l as [|c l IH]; intros h Hh; simpl; auto. Qed.

Lemma djb2_range str : in_u64 (djb2_hash str).
Proof. apply (foldl_range _ in_u64); [|by split; simpl]. intros. apply u64_range. Qed.

(** The partition of an attribute name: djb2_hash(name) % parallelism, with
    the [int] converted to [unsigned long]. *)
Definition partition_of (parallelism : Z) (name : list Z) : Z :=
  (djb2_hash name `mod` u64 parallelism)%Z.

Lemma partition_range p name :
  (0 < p < 2 ^ 31)%Z → (0 ≤ partition_of p name < p)%Z.
Proof.
  intros Hp. unfold partition_of. rewrite u64_id by (unfold in_u64; lia).
  apply Z.mod_pos_bound. lia.
Qed.
