(* ===== verification/OnDiskIndex.v ===== *)
(** * Append-only index records (src/index/on_disk_index.c)

    An index record is |type|name|value|file path|object path|.  A [void *]
    value is the buffer it points to, [None] for NULL. *)
From Stdlib Require Import SpecFloat.
From S2P Require Import Prelude RbTree Comparators BinFile Metadata.

Record index_record := create_index_record {
  ir_type : miqs_attr_type;
  ir_name : option (list Z);
  ir_data : option (list Z);
  ir_file_path : option (list Z);
  ir_object_path : option (list Z)
}.

#[export] Instance index_record_eq_dec : EqDecision index_record.
Proof. solve_decision. Defined.

(** *(int * )p and *(double * )p: the buffer must be large enough. *)
Definition deref_int (p : option (list Z)) : outcome Z :=
  b ← deref p; if bool_decide (4 ≤ length b) then Ret (signed 32 (le_combine (take 4 b))) else Fault.
Definition deref_u64 (p : option (list Z)) : outcome Z :=
  b ← deref p; if bool_decide (8 ≤ length b) then Ret (le_combine (take 8 b)) else Fault.

(** The value field of a record. *)
Definition append_value (t : miqs_attr_type) (data : option (list Z)) (stream : list Z)
    : outcome (list Z) :=
  match t with
  | MIQS_AT_INTEGER => v ← deref_int data; Ret (miqs_append_int v stream)
  | MIQS_AT_FLOAT => v ← deref_u64 data; Ret (miqs_append_double v stream)
  | MIQS_AT_STRING => v ← deref data; Ret (miqs_append_string (cstr_of v) stream)
  | MIQS_AT_UNKNOWN => Ret stream
  end.

Definition append_index_record (ir : option index_record) (stream : list Z) : outcome (list Z) :=
  match ir with
  | None => Ret stream
  | Some ir =>
      let stream := miqs_append_type (int_of_type (ir_type ir)) stream in
      name ← deref (ir_name ir);
      stream ← append_value (ir_type ir) (ir_data ir) (miqs_append_string name stream);
      fp ← deref (ir_file_path ir); op ← deref (ir_object_path ir);
      Ret (miqs_append_string op (miqs_append_string fp stream))
  end.

(** The value of a record of type [t]; for an unknown type [rst->data] stays
    NULL and nothing is read. *)
Definition read_value (t : miqs_attr_type) (stream : list Z) : option (list Z) * list Z :=
  match t with
  | MIQS_AT_INTEGER => miqs_read_int stream
  | MIQS_AT_FLOAT => miqs_read_double stream
  | MIQS_AT_STRING => miqs_read_string stream
  | MIQS_AT_UNKNOWN => (None, stream)
  end.

(** [None] is the NULL returned when no type field can be read. *)
Definition read_index_record (stream : list Z) : option index_record * list Z :=
  let '(ptr, stream) := miqs_read_int stream in
  match ptr with
  | None => (None, stream)
  | Some b =>
      let t := get_miqs_type_from_int (signed 32 (le_combine b)) in
      let '(name, stream) := miqs_read_string stream in
      let '(data, stream) := read_value t stream in
      let '(fp, stream) := miqs_read_string stream in
      let '(op, stream) := miqs_read_string stream in
      (Some (create_index_record t name data fp op), stream)
  end.

(** ** Searching the file *)

(** The result array: calloc'd entries are [Some None], entries beyond it
    after realloc are uninitialised ([None]). *)
Record find_state := mk_find {
  f_rst : list (option (option index_record));
  f_capacity : nat;
  f_curr_pos : nat;
  f_rst_num : nat
}.

Definition find_push (r : index_record) (s : find_state) : outcome find_state :=
  let s := if bool_decide (f_curr_pos s = f_capacity s)
    then mk_find (f_rst s ++ replicate (f_capacity s) None) (f_capacity s * 2) (f_curr_pos s) (f_rst_num s)
    else s in
  if bool_decide (f_curr_pos s < length (f_rst s))
  then Ret (mk_find (<[f_curr_pos s := Some (Some r)]> (f_rst s)) (f_capacity s)
              (S (f_curr_pos s)) (S (f_rst_num s)))
  else Fault.

(** One iteration of the while loop after the type was read.  The value is
    not read, and [data] not initialised, for an unknown type. *)
Definition find_step (name : list Z) (compare_value : list Z → Z) (t : miqs_attr_type)
    (stream : list Z) (s : find_state) : outcome (find_state * list Z) :=
  let '(name_from_disk, stream) := miqs_read_string stream in
  nd ← deref name_from_disk;
  if bool_decide (strcmp name nd = 0%Z) then
    let '(data, stream) := read_value t stream in
    d ← deref data;
    if bool_decide (compare_value d = 1%Z) then
      let '(file_path, stream) := miqs_read_string stream in
      let '(object_path, stream) := miqs_read_string stream in
      s ← find_push (create_index_record t (Some name) data file_path object_path) s;
      Ret (s, stream)
    else
      '(_, stream) ← miqs_skip_field stream;
      '(_, stream) ← miqs_skip_field stream;
      Ret (s, stream)
  else
    '(_, stream) ← miqs_skip_field stream;
    '(_, stream) ← miqs_skip_field stream;
    '(_, stream) ← miqs_skip_field stream;
    Ret (s, stream).

(** Every iteration consumes bytes: the length of the stream is enough
    fuel. *)
Fixpoint find_loop (fuel : nat) (name : list Z) (compare_value : list Z → Z) (stream : list Z)
    (s : find_state) : outcome find_state :=
  let '(ptr, stream) := miqs_read_int stream in
  match ptr, fuel with
  | None, _ => Ret s
  | Some _, O => Fault
  | Some b, S fuel =>
      '(s, stream) ← find_step name compare_value
        (get_miqs_type_from_int (signed 32 (le_combine b))) stream s;
      find_loop fuel name compare_value stream s
  end.

(** free(rst[i]) for i = capacity-1 downto rst_num: freeing an uninitialised
    pointer is a fault. *)
Definition find_trim (s : find_state) : outcome (list (option (option index_record)) * Z) :=
  if bool_decide (Forall (λ e, e = Some None) (drop (f_rst_num s) (take (f_capacity s) (f_rst s))))
  then Ret (f_rst s, Z.of_nat (f_rst_num s))
  else Fault.

(** The result array and *out_len; [content] is the whole file (rewind). *)
Definition find_index_record (name : list Z) (compare_value : list Z → Z) (content : list Z)
    (out_len : Z) : outcome (list (option (option index_record)) * Z) :=
  let out_len := if bool_decide (out_len ≤ 0)%Z then 10%Z else out_len in
  let capacity := Z.to_nat out_len in
  s ← find_loop (S (length content)) name compare_value content
        (mk_find (replicate capacity (Some None)) capacity 0 0);
  find_trim s.

(** The comparison callbacks, on buffers of sufficient size. *)
Definition int_equals (criterion : Z) (data : list Z) : Z :=
  Z.b2z (bool_decide (signed 32 (le_combine (take 4 data)) = criterion)).
Definition double_equals (criterion : Z) (data : list Z) : Z :=
  Z.b2z (SFeqb (float_of_bits 52 11 (le_combine (take 8 data))) (float_of_bits 52 11 criterion)).
Definition string_equals (criterion : list Z) (data : list Z) : Z :=
  Z.b2z (bool_decide (cstr_of data = criterion)).

(** ** Round trip *)

(** The values a record can carry to disk and back. *)
Definition value_bytes (t : miqs_attr_type) (data : option (list Z)) : Prop :=
  match t, data with
  | MIQS_AT_INTEGER, Some b => ∃ x, in_i32 x ∧ b = int_bytes x
  | MIQS_AT_FLOAT, Some b => ∃ x, in_u64 x ∧ b = le_split 8 x
  | MIQS_AT_STRING, Some b => storable b
  | MIQS_AT_UNKNOWN, None => True
  | _, _ => False
  end.
Record record_ok (ir : index_record) : Prop := {
  ok_value : value_bytes (ir_type ir) (ir_data ir);
  ok_name : ∃ s, ir_name ir = Some s ∧ storable s;
  ok_file : ∃ s, ir_file_path ir = Some s ∧ storable s;
  ok_obj : ∃ s, ir_object_path ir = Some s ∧ storable s
}.

Definition value_field (t : miqs_attr_type) (b : list Z) : list Z :=
  match t with
  | MIQS_AT_INTEGER => int_field (signed 32 (le_combine (take 4 b)))
  | MIQS_AT_FLOAT => double_field (le_combine (take 8 b))
  | MIQS_AT_STRING => string_field b
  | MIQS_AT_UNKNOWN => []
  end.
(** The bytes of a record on disk. *)
Definition record_bytes (ir : index_record) : list Z :=
  int_field (int_of_type (ir_type ir)) ++ string_field (default [] (ir_name ir))
  ++ value_field (ir_type ir) (default [] (ir_data ir))
  ++ string_field (default [] (ir_file_path ir)) ++ string_field (default [] (ir_object_path ir)).

Lemma length_int_bytes x : length (int_bytes x) = 4.
Proof. apply length_le_split. Qed.

Lemma append_value_app t data stream :
  value_bytes t data → append_value t data stream = Ret (stream ++ value_field t (default [] data)).
Proof.
  intros Hv. destruct t, data as [b|]; try done; cbn [append_value value_field default from_option id].
  - by rewrite app_nil_r.
  - destruct Hv as (x & Hx & ->). unfold deref_int. cbn [deref mbind outcome_bind].
    rewrite bool_decide_eq_true_2 by (rewrite length_int_bytes; lia). cbn [mbind outcome_bind].
    by rewrite append_int_app.
  - destruct Hv as (x & Hx & ->). unfold deref_u64. cbn [deref mbind outcome_bind].
    rewrite bool_decide_eq_true_2 by (rewrite length_le_split; lia). cbn [mbind outcome_bind].
    by rewrite append_double_app.
  - destruct Hv as [Hc _]. cbn [deref mbind outcome_bind]. rewrite cstr_of_id by done.
    by rewrite append_string_app.
Qed.

Lemma append_record_app ir stream :
  record_ok ir → append_index_record (Some ir) stream = Ret (stream ++ record_bytes ir).
Proof.
  intros [Hv (n & Hn & _) (fp & Hf & _) (op & Ho & _)]. unfold append_index_record, miqs_append_type.
  rewrite Hn, Hf, Ho. cbn [deref mbind outcome_bind].
  rewrite append_value_app by done. cbn [mbind outcome_bind].
  rewrite !append_string_app, append_int_app. unfold record_bytes. rewrite Hn, Hf, Ho.
  by rewrite <-!app_assoc.
Qed.

Lemma read_value_field t data rest :
  value_bytes t data → read_value t (value_field t (default [] data) ++ rest) = (data, rest).
Proof.
  intros Hv. destruct t, data as [b|]; try done; cbn [read_value value_field default from_option id].
  - destruct Hv as (x & Hx & ->). rewrite read_int_field.
    by rewrite int_bytes_decode.
  - destruct Hv as (x & Hx & ->). rewrite read_double_field.
    rewrite take_ge by (by rewrite length_le_split). by rewrite le_split_u64.
  - by apply read_string_field.
Qed.

Lemma read_record_bytes ir rest :
  record_ok ir → read_index_record (record_bytes ir ++ rest) = (Some ir, rest).
Proof.
  intros [Hv (n & Hn & Hn') (fp & Hf & Hf') (op & Ho & Ho')]. unfold record_bytes, read_index_record.
  rewrite <-!app_assoc. rewrite read_int_field.
  rewrite <-(take_ge (int_bytes _) 4) by (by rewrite length_int_bytes).
  rewrite int_bytes_decode by apply int_of_type_range. rewrite type_int_roundtrip.
  rewrite Hn, Hf, Ho. cbn [default from_option id].
  rewrite read_string_field by done. rewrite read_value_field by done.
  rewrite !read_string_field by done. f_equal. f_equal. destruct ir; simpl in *. by subst.
Qed.

(** ** Searching a file of records *)
Lemma strcmp_refl a : strcmp a a = 0%Z.
Proof. induction a as [|b a IH]; simpl; [done|]. by rewrite bool_decide_eq_true_2. Qed.
Lemma strcmp_eq a b : cstr a → cstr b → strcmp a b = 0%Z ↔ a = b.
Proof.
  intros Ha Hb. split; [|intros ->; apply strcmp_refl]. revert b Hb.
  induction Ha as [|x a Hx Ha IH]; intros [|y b] Hb; simpl; [done| | |].
  - apply Forall_cons in Hb as [Hy _]. lia.
  - lia.
  - apply Forall_cons in Hb as [Hy Hb]. case_bool_decide as Hxy; [|lia].
    subst. intros H. f_equal. by apply IH.
Qed.

(** Records of a known type, which find_index_record can skip. *)
Definition searchable (ir : index_record) : Prop := record_ok ir ∧ ir_type ir ≠ MIQS_AT_UNKNOWN.
Definition matches (name : list Z) (compare_value : list Z → Z) (ir : index_record) : bool :=
  bool_decide (ir_name ir = Some name) && bool_decide (compare_value (default [] (ir_data ir)) = 1%Z).

Lemma skip_string s rest : storable s → ∃ n, miqs_skip_field (string_field s ++ rest) = Ret (n, rest).
Proof.
  intros [_ Hl]. unfold string_field. eexists.
  apply (skip_field 3 (Z.of_nat (length s)) s rest 1 1); [done|done|done|lia].
Qed.

Lemma skip_value t data rest :
  value_bytes t data → t ≠ MIQS_AT_UNKNOWN →
  ∃ n, miqs_skip_field (value_field t (default [] data) ++ rest) = Ret (n, rest).
Proof.
  intros Hv Ht. destruct t, data as [b|]; try done; cbn [value_field default from_option id].
  - eexists. apply (skip_field 1 1 _ rest 4 0); [done|done|done|by rewrite length_int_bytes].
  - eexists. apply (skip_field 2 1 _ rest 8 0); [done|done|done|by rewrite length_le_split].
  - by apply skip_string.
Qed.

Lemma find_step_record name cmpv ir rest s :
  searchable ir → storable name →
  find_step name cmpv (ir_type ir)
    (string_field (default [] (ir_name ir)) ++ value_field (ir_type ir) (default [] (ir_data ir))
     ++ string_field (default [] (ir_file_path ir)) ++ string_field (default [] (ir_object_path ir)) ++ rest) s
  = if matches name cmpv ir then s' ← find_push ir s; Ret (s', rest) else Ret (s, rest).
Proof.
  intros [[Hv (n & Hn & Hn') (fp & Hf & Hf') (op & Ho & Ho')] Ht] Hname.
  unfold find_step, matches. rewrite Hn, Hf, Ho. cbn [default from_option id].
  rewrite read_string_field by done. cbn [deref mbind outcome_bind].
  destruct (decide (n = name)) as [->|Hne].
  - rewrite strcmp_refl. rewrite !(bool_decide_eq_true_2 (_ = _)) by done. cbn [andb].
    rewrite read_value_field by done.
    destruct (ir_data ir) as [b|] eqn:Hd; [|by destruct (ir_type ir)]. cbn [deref mbind outcome_bind default from_option id].
    case_bool_decide.
    + rewrite !read_string_field by done. destruct ir; simpl in *; subst. done.
    + destruct (skip_string fp (string_field op ++ rest) Hf') as [? ->].
      destruct (skip_string op rest Ho') as [? Hsk]. cbn [mbind outcome_bind]. by rewrite Hsk.
  - rewrite (bool_decide_eq_false_2 (strcmp _ _ = _)) by (rewrite strcmp_eq; [done|apply Hname|apply Hn']).
    rewrite (bool_decide_eq_false_2 (Some n = Some name)) by congruence. cbn [andb].
    destruct (skip_value _ _ (string_field fp ++ string_field op ++ rest) Hv Ht) as [? ->].
    destruct (skip_string fp (string_field op ++ rest) Hf') as [? Hsk1].
    destruct (skip_string op rest Ho') as [? Hsk2]. cbn [mbind outcome_bind].
    rewrite Hsk1. cbn [mbind outcome_bind]. by rewrite Hsk2.
Qed.

(** The array while no reallocation was needed. *)
Definition found (acc : list index_record) (cap : nat) : find_state :=
  mk_find (((λ r, Some (Some r)) <$> acc) ++ replicate (cap - length acc) (Some None))
    cap (length acc) (length acc).

Lemma find_push_found r acc cap :
  length acc < cap → find_push r (found acc cap) = Ret (found (acc ++ [r]) cap).
Proof.
  intros Hlt. unfold find_push, found. cbn [f_curr_pos f_capacity f_rst f_rst_num].
  rewrite (bool_decide_eq_false_2 (length acc = cap)) by lia. cbn [f_curr_pos f_capacity f_rst f_rst_num].
  rewrite length_app, length_fmap, length_replicate.
  rewrite bool_decide_eq_true_2 by lia.
  rewrite insert_app_r_alt by (by rewrite length_fmap).
  rewrite length_fmap, Nat.sub_diag, fmap_app, length_app. simpl.
  replace (cap - length acc) with (S (cap - (length acc + 1))) by lia. simpl.
  rewrite <-app_assoc. simpl. f_equal. f_equal; lia.
Qed.

Lemma find_loop_app fuel name cmpv irs rest acc cap :
  Forall searchable irs → storable name →
  length acc + length (filter (λ ir, matches name cmpv ir) irs) ≤ cap →
  find_loop (length irs + fuel) name cmpv (mjoin (record_bytes <$> irs) ++ rest) (found acc cap)
  = find_loop fuel name cmpv rest (found (acc ++ filter (λ ir, matches name cmpv ir) irs) cap).
Proof.
  intros Hs Hname. revert acc. induction Hs as [|ir irs Hir Hs IH]; intros acc Hc.
  { by rewrite app_nil_r. }
  rewrite fmap_cons. change (mjoin (record_bytes ir :: (record_bytes <$> irs)))
    with (record_bytes ir ++ mjoin (record_bytes <$> irs)).
  cbn [length Nat.add find_loop]. unfold record_bytes at 1. rewrite <-!app_assoc, read_int_field.
  rewrite <-(take_ge (int_bytes _) 4) by (by rewrite length_int_bytes).
  rewrite int_bytes_decode by apply int_of_type_range. rewrite type_int_roundtrip.
  rewrite find_step_record by done. rewrite filter_cons in Hc |- *.
  destruct (matches name cmpv ir) eqn:Hm.
  - rewrite decide_True in Hc |- * by done. cbn [length] in Hc.
    rewrite find_push_found by lia. cbn [mbind outcome_bind].
    rewrite IH; [|rewrite length_app; simpl; lia]. by rewrite <-app_assoc.
  - rewrite decide_False in Hc |- * by (by intros []). cbn [mbind outcome_bind]. by apply IH.
Qed.

Lemma find_loop_records fuel name cmpv irs acc cap :
  Forall searchable irs → storable name → length irs ≤ fuel →
  length acc + length (filter (λ ir, matches name cmpv ir) irs) ≤ cap →
  find_loop fuel name cmpv (mjoin (record_bytes <$> irs)) (found acc cap)
  = Ret (found (acc ++ filter (λ ir, matches name cmpv ir) irs) cap).
Proof.
  intros Hs Hname Hf Hc. replace fuel with (length irs + (fuel - length irs)) by lia.
  rewrite <-(app_nil_r (mjoin _)). rewrite find_loop_app by done. by destruct (fuel - length irs).
Qed.

Lemma length_records irs : length irs ≤ length (mjoin (record_bytes <$> irs)).
Proof.
  induction irs as [|ir irs IH]; [done|]. rewrite fmap_cons.
  change (mjoin (record_bytes ir :: (record_bytes <$> irs)))
    with (record_bytes ir ++ mjoin (record_bytes <$> irs)). rewrite length_app.
  enough (12 ≤ length (record_bytes ir)) by (cbn [length]; lia).
  unfold record_bytes. rewrite length_app. unfold int_field. rewrite length_field. lia.
Qed.

Lemma find_trim_found acc cap : length acc ≤ cap →
  find_trim (found acc cap) = Ret (f_rst (found acc cap), Z.of_nat (length acc)).
Proof.
  intros Hle. unfold find_trim, found. cbn [f_rst_num f_capacity f_rst].
  rewrite bool_decide_eq_true_2; [done|].
  rewrite take_ge by (rewrite length_app, length_fmap, length_replicate; lia).
  rewrite drop_app_ge by (by rewrite length_fmap). rewrite length_fmap, Nat.sub_diag.
  by apply Forall_replicate.
Qed.
