(* ===== verification/FileTheorems.v ===== *)
(** * Properties of the index files (bin_file_ops.c, on_disk_index.c) *)
From S2P Require Import Prelude RbTree Comparators BinFile Metadata OnDiskIndex.

(** A field written by each append function is read back by the matching
    read function as the value that was written, and exactly its bytes are
    consumed, whatever follows it in the file. *)
Theorem field_round_trip x d u s rest :
  in_i32 x → in_u64 d → in_u64 u → storable s →
  (∃ b, miqs_read_int (miqs_append_int x [] ++ rest) = (Some b, rest)
        ∧ signed 32 (le_combine (take 4 b)) = x)
  ∧ (∃ b, miqs_read_double (miqs_append_double d [] ++ rest) = (Some b, rest) ∧ le_combine b = d)
  ∧ miqs_read_string (miqs_append_string s [] ++ rest) = (Some s, rest)
  ∧ (∃ b, miqs_read_uint64 (miqs_append_uint64 u [] ++ rest) = (Some b, rest) ∧ le_combine b = u)
  ∧ (∃ b, miqs_read_size_t (miqs_append_size_t u [] ++ rest) = (Some b, rest) ∧ le_combine b = u).
Proof.
  intros Hx Hd Hu Hs.
  rewrite append_int_app, append_double_app, append_string_app, append_uint64_app, append_size_t_app.
  cbn [app]. split_and!.
  - eexists. split; [apply read_int_field|]. by apply int_bytes_decode.
  - eexists. split; [apply read_double_field|]. by apply le_split_u64.
  - by apply read_string_field.
  - eexists. split; [apply read_uint64_field|]. by apply le_split_u64.
  - eexists. split; [apply read_size_t_field|]. by apply le_split_u64.
Qed.

(** On any file, truncated ones included, [miqs_skip_field] moves past
    exactly the bytes that [miqs_read_general] consumes, unless it reports
    the end of the file with 0. *)
Theorem skip_agrees_with_read f n f' :
  miqs_skip_field f = Ret (n, f') → n ≠ 0%Z → (miqs_read_general f).2 = f'.
Proof.
  unfold miqs_skip_field, miqs_read_general. destruct (fread (int_bytes (-1)) 4 f) as [tb f1].
  case_bool_decide; [by intros [= <- <-]|]. destruct (fread (replicate 8 0%Z) 8 f1) as [lb f2].
  destruct (elem_size _) as [[sz extra]|]; [|done]. destruct (fread _ _ f2) as [data f3].
  by intros [= <- <-].
Qed.

(** C28: an index record appended to a file is read back unchanged, after the
    records before it, and only its bytes are consumed. *)
Theorem record_round_trip ir rest :
  record_ok ir →
  ∃ bytes, (∀ stream, append_index_record (Some ir) stream = Ret (stream ++ bytes))
    ∧ read_index_record (bytes ++ rest) = (Some ir, rest).
Proof.
  intros Hok. exists (record_bytes ir). split; [intros; by apply append_record_app|].
  by apply read_record_bytes.
Qed.

(** A file of records. *)
Fixpoint append_all (irs : list index_record) (stream : list Z) : outcome (list Z) :=
  match irs with
  | [] => Ret stream
  | ir :: irs => stream ← append_index_record (Some ir) stream; append_all irs stream
  end.

Lemma append_all_bytes irs stream :
  Forall record_ok irs → append_all irs stream = Ret (stream ++ mjoin (record_bytes <$> irs)).
Proof.
  intros Hs. revert stream. induction Hs as [|ir irs Hir Hs IH]; intros stream; [by rewrite app_nil_r|].
  cbn [append_all]. rewrite append_record_app by done. cbn [mbind outcome_bind]. rewrite IH.
  by rewrite <-app_assoc.
Qed.

(** The capacity of the result array. *)
Definition capacity_of (out_len : Z) : nat := Z.to_nat (if bool_decide (out_len ≤ 0)%Z then 10 else out_len).

Lemma found_nil cap : found [] cap = mk_find (replicate cap (Some None)) cap 0 0.
Proof. unfold found. simpl. by rewrite Nat.sub_0_r. Qed.

(** C29: [find_index_record] over a file of records of known types returns
    exactly the records with the name whose value the callback accepts, in
    file order, and their number, provided they fit the initial capacity. *)
Theorem find_index_record_correct name cmpv irs out_len :
  Forall searchable irs → storable name →
  length (filter (λ ir, matches name cmpv ir) irs) ≤ capacity_of out_len →
  ∃ file rst, append_all irs [] = Ret file
    ∧ find_index_record name cmpv file out_len
      = Ret (rst, Z.of_nat (length (filter (λ ir, matches name cmpv ir) irs)))
    ∧ take (length (filter (λ ir, matches name cmpv ir) irs)) rst
      = (λ r, Some (Some r)) <$> filter (λ ir, matches name cmpv ir) irs.
Proof.
  intros Hs Hname Hc. eexists _, _. split.
  { apply append_all_bytes. eapply Forall_impl; [exact Hs|]. by intros ir []. }
  cbn [app]. unfold find_index_record. fold (capacity_of out_len).
  rewrite <-found_nil, find_loop_records; [|done|done|pose proof (length_records irs); lia|done].
  cbn [mbind outcome_bind app].
  split; [by rewrite find_trim_found|]. cbn [found f_rst].
  rewrite take_app_length'; [done|]. by rewrite length_fmap.
Qed.

Lemma find_push_full acc cap r :
  length acc = cap →
  find_push r (found acc cap)
  = if bool_decide (0 < cap) then
      Ret (mk_find (((λ r, Some (Some r)) <$> acc) ++ Some (Some r) :: replicate (cap - 1) None)
             (cap * 2) (S cap) (S cap))
    else Fault.
Proof.
  intros <-. unfold find_push, found. cbn [f_curr_pos f_capacity f_rst f_rst_num].
  rewrite (bool_decide_eq_true_2 (length acc = length acc)) by done. cbn [f_curr_pos f_capacity f_rst f_rst_num].
  rewrite Nat.sub_diag, app_nil_r, length_app, length_fmap, length_replicate.
  rewrite (bool_decide_ext (length acc < length acc + length acc) (0 < length acc)) by lia.
  case_bool_decide as Hpos; [|done]. rewrite insert_app_r_alt by (by rewrite length_fmap).
  rewrite length_fmap, Nat.sub_diag. destruct (length acc) as [|k]; [lia|]. simpl.
  by rewrite Nat.sub_0_r.
Qed.

(** When one more record matches than the initial capacity (of at least
    2) holds, the array is doubled by realloc, and the loop that frees the
    unused slots passes uninitialised pointers to free. *)
Theorem find_index_record_overflow name cmpv irs ir out_len :
  Forall searchable irs → searchable ir → storable name → matches name cmpv ir = true →
  length (filter (λ ir, matches name cmpv ir) irs) = capacity_of out_len → 2 ≤ capacity_of out_len →
  ∃ file, append_all (irs ++ [ir]) [] = Ret file ∧ find_index_record name cmpv file out_len = Fault.
Proof.
  intros Hs Hir Hname Hm Hc H2. eexists. split.
  { apply append_all_bytes, Forall_app; split; [|constructor; [apply Hir|done]].
    eapply Forall_impl; [exact Hs|]. by intros r []. }
  cbn [app]. rewrite fmap_app, join_app. unfold find_index_record. fold (capacity_of out_len).
  set (cap := capacity_of out_len) in *. set (file := mjoin _ ++ _).
  assert (length irs + 2 ≤ S (length file)) as Hfuel.
  { unfold file. rewrite length_app. pose proof (length_records irs). pose proof (length_records [ir]).
    simpl in *. lia. }
  replace (S (length file)) with (length irs + (2 + (S (length file) - length irs - 2))) by lia.
  rewrite <-found_nil. unfold file at 2. rewrite find_loop_app by (done || simpl; lia). cbn [app Nat.add].
  cbn [find_loop fmap list_fmap]. change (mjoin [record_bytes ir]) with (record_bytes ir ++ []).
  unfold record_bytes. rewrite <-!app_assoc, read_int_field.
  rewrite <-(take_ge (int_bytes _) 4) by (by rewrite length_int_bytes).
  rewrite int_bytes_decode by apply int_of_type_range. rewrite type_int_roundtrip.
  rewrite find_step_record, Hm by done. rewrite find_push_full by done.
  rewrite bool_decide_eq_true_2 by lia. cbn [mbind outcome_bind].
  rewrite read_int_eof. unfold find_trim. cbn [mbind outcome_bind f_rst_num f_capacity f_rst].
  rewrite bool_decide_eq_false_2; [done|].
  rewrite take_ge by (rewrite length_app, length_fmap; simpl; rewrite length_replicate; lia).
  rewrite drop_app_ge by (rewrite length_fmap; lia). rewrite length_fmap, Hc.
  replace (S cap - cap) with 1 by lia. simpl. destruct (cap - 1) eqn:Hk; [lia|]. simpl.
  by intros [[=] _]%Forall_cons.
Qed.

(** The partition of an attribute name is below the parallelism the index
    was created with, so that it is a valid position of the three arrays. *)
Theorem partition_in_range p name :
  (0 < p < 2 ^ 31)%Z → in_u64 (djb2_hash name) ∧ (0 ≤ partition_of p name < p)%Z.
Proof. intros Hp. split; [apply djb2_range|by apply partition_range]. Qed.

(** ** Witnesses *)
Definition rec1 : index_record :=
  create_index_record MIQS_AT_INTEGER (Some [97]%Z) (Some (int_bytes 5)) (Some [102]%Z) (Some [111]%Z).
Lemma storable1 b : (0 < b < 256)%Z → storable [b].
Proof. intros Hb. split; [by constructor; [|constructor]|done]. Qed.
Lemma rec1_searchable : searchable rec1.
Proof.
  split; [|done]. split; simpl.
  - exists 5%Z. split; [unfold in_i32; lia|done].
  - eexists. split; [done|]. apply storable1. lia.
  - eexists. split; [done|]. apply storable1. lia.
  - eexists. split; [done|]. apply storable1. lia.
Qed.

Lemma field_round_trip_witness :
  (∃ b, miqs_read_int (miqs_append_int 7 [] ++ [1]%Z) = (Some b, [1]%Z)
        ∧ signed 32 (le_combine (take 4 b)) = 7%Z)
  ∧ (∃ b, miqs_read_double (miqs_append_double 8 [] ++ [1]%Z) = (Some b, [1]%Z) ∧ le_combine b = 8%Z)
  ∧ miqs_read_string (miqs_append_string [97]%Z [] ++ [1]%Z) = (Some [97]%Z, [1]%Z)
  ∧ (∃ b, miqs_read_uint64 (miqs_append_uint64 9 [] ++ [1]%Z) = (Some b, [1]%Z) ∧ le_combine b = 9%Z)
  ∧ (∃ b, miqs_read_size_t (miqs_append_size_t 9 [] ++ [1]%Z) = (Some b, [1]%Z) ∧ le_combine b = 9%Z).
Proof.
  apply (field_round_trip 7 8 9 [97]%Z [1]%Z); try (unfold in_i32, in_u64; lia). apply storable1. lia.
Defined.

Lemma skip_agrees_with_read_witness : (miqs_read_general (int_field 5 ++ [1]%Z)).2 = [1]%Z.
Proof. apply (skip_agrees_with_read (int_field 5 ++ [1]%Z) 16 [1]%Z); [reflexivity|lia]. Defined.

Lemma record_round_trip_witness :
  ∃ bytes, (∀ stream, append_index_record (Some rec1) stream = Ret (stream ++ bytes))
    ∧ read_index_record (bytes ++ [7]%Z) = (Some rec1, [7]%Z).
Proof. apply (record_round_trip rec1 [7]%Z). apply rec1_searchable. Defined.

Lemma find_index_record_correct_witness :
  ∃ file rst, append_all [rec1; rec1] [] = Ret file
    ∧ find_index_record [97]%Z (int_equals 5) file 0 = Ret (rst, 2%Z)
    ∧ take 2 rst = [Some (Some rec1); Some (Some rec1)].
Proof.
  apply (find_index_record_correct [97]%Z (int_equals 5) [rec1; rec1] 0).
  - repeat constructor; apply rec1_searchable.
  - apply storable1. lia.
  - vm_compute. lia.
Defined.

Lemma find_index_record_overflow_witness :
  ∃ file, append_all ([rec1; rec1] ++ [rec1]) [] = Ret file
    ∧ find_index_record [97]%Z (int_equals 5) file 2 = Fault.
Proof.
  apply (find_index_record_overflow [97]%Z (int_equals 5) [rec1; rec1] rec1 2).
  - repeat constructor; apply rec1_searchable.
  - apply rec1_searchable.
  - apply storable1. lia.
  - reflexivity.
  - reflexivity.
  - vm_compute. lia.
Defined.

Lemma partition_in_range_witness :
  in_u64 (djb2_hash [97; 98]%Z) ∧ (0 ≤ partition_of 7 [97; 98]%Z < 7)%Z.
Proof. apply (partition_in_range 7 [97; 98]%Z). lia. Defined.
