(* ===== verification/InMemIndex.v ===== *)
(** * The in-memory index: data and operations (src/index/in_mem_index.c) and
    exact-match queries (src/miqs_querying.c)

    The anchor holds, per partition, an ART from attribute names to attribute
    leaves and the two path lists.  Attribute leaves and value leaves are
    shared through pointers, so they live in two heaps of the anchor; the
    values of the ARTs and red-black trees are addresses in them.  The
    reader/writer locks, timers and memory counters are not modelled:
    operations run one at a time. *)
From S2P Require Import Prelude Heap Art RbTree Comparators LinkedList BinFile Metadata OnDiskIndex.

(** file_obj_pair_t *)
Record file_obj_pair := mk_pair {
  parallel_index_pos : Z;
  file_list_pos : Z;
  obj_list_pos : Z
}.

(** attr_tree_leaf_content_t; the comparator given to rbt_create is kept next
    to the tree: [true] is libhl_cmp_keys_double. *)
Record attr_leaf := mk_attr_leaf {
  is_numeric : bool;
  is_float : bool;
  leaf_rbt : option (bool * rbt loc);
  leaf_art : option (art_tree loc)
}.

(** index_anchor_t.  [value_leaves] holds the lists of
    value_tree_leaf_content_t; [next_loc] is the next free address. *)
Record index_anchor := mk_anchor {
  parallelism : Z;
  root_art_array : list (art_tree loc);
  file_paths_list : list (linked_list tagged_value);
  object_paths_list : list (linked_list tagged_value);
  attr_leaves : gmap loc attr_leaf;
  value_leaves : gmap loc (linked_list file_obj_pair);
  next_loc : loc;
  file_path : option (list Z);
  obj_path : option (list Z);
  indexed_attr : list (list Z);
  on_disk_file_stream : option (list Z);
  is_readonly_index_file : bool;
  total_num_attrs : Z;
  total_num_indexed_kv_pairs : Z;
  total_num_kv_pairs : Z;
  total_num_files : Z;
  total_num_objects : Z
}.

Definition set_arts (x : list (art_tree loc)) (s : index_anchor) : index_anchor :=
  mk_anchor (parallelism s) x (file_paths_list s) (object_paths_list s) (attr_leaves s)
    (value_leaves s) (next_loc s) (file_path s) (obj_path s) (indexed_attr s)
    (on_disk_file_stream s) (is_readonly_index_file s) (total_num_attrs s)
    (total_num_indexed_kv_pairs s) (total_num_kv_pairs s)
    (total_num_files s) (total_num_objects s).
Definition set_file_paths (x : list (linked_list tagged_value)) (s : index_anchor) : index_anchor :=
  mk_anchor (parallelism s) (root_art_array s) x (object_paths_list s) (attr_leaves s)
    (value_leaves s) (next_loc s) (file_path s) (obj_path s) (indexed_attr s)
    (on_disk_file_stream s) (is_readonly_index_file s) (total_num_attrs s)
    (total_num_indexed_kv_pairs s) (total_num_kv_pairs s)
    (total_num_files s) (total_num_objects s).
Definition set_object_paths (x : list (linked_list tagged_value)) (s : index_anchor) : index_anchor :=
  mk_anchor (parallelism s) (root_art_array s) (file_paths_list s) x (attr_leaves s)
    (value_leaves s) (next_loc s) (file_path s) (obj_path s) (indexed_attr s)
    (on_disk_file_stream s) (is_readonly_index_file s) (total_num_attrs s)
    (total_num_indexed_kv_pairs s) (total_num_kv_pairs s)
    (total_num_files s) (total_num_objects s).
Definition set_leaves (al : gmap loc attr_leaf) (vl : gmap loc (linked_list file_obj_pair)) (nx : loc)
    (s : index_anchor) : index_anchor :=
  mk_anchor (parallelism s) (root_art_array s) (file_paths_list s) (object_paths_list s) al vl nx
    (file_path s) (obj_path s) (indexed_attr s)
    (on_disk_file_stream s) (is_readonly_index_file s) (total_num_attrs s)
    (total_num_indexed_kv_pairs s) (total_num_kv_pairs s)
    (total_num_files s) (total_num_objects s).
Definition set_stream (x : option (list Z)) (ro : bool) (s : index_anchor) : index_anchor :=
  mk_anchor (parallelism s) (root_art_array s) (file_paths_list s) (object_paths_list s)
    (attr_leaves s) (value_leaves s) (next_loc s) (file_path s) (obj_path s) (indexed_attr s)
    x ro (total_num_attrs s) (total_num_indexed_kv_pairs s) (total_num_kv_pairs s)
    (total_num_files s) (total_num_objects s).
Definition set_paths (fp op : option (list Z)) (s : index_anchor) : index_anchor :=
  mk_anchor (parallelism s) (root_art_array s) (file_paths_list s) (object_paths_list s)
    (attr_leaves s) (value_leaves s) (next_loc s) fp op (indexed_attr s)
    (on_disk_file_stream s) (is_readonly_index_file s) (total_num_attrs s)
    (total_num_indexed_kv_pairs s) (total_num_kv_pairs s)
    (total_num_files s) (total_num_objects s).
Definition set_counts (na ni nk : Z) (s : index_anchor) : index_anchor :=
  mk_anchor (parallelism s) (root_art_array s) (file_paths_list s) (object_paths_list s)
    (attr_leaves s) (value_leaves s) (next_loc s) (file_path s) (obj_path s) (indexed_attr s)
    (on_disk_file_stream s) (is_readonly_index_file s) na ni nk
    (total_num_files s) (total_num_objects s).
Definition set_totals (nf no : Z) (s : index_anchor) : index_anchor :=
  mk_anchor (parallelism s) (root_art_array s) (file_paths_list s) (object_paths_list s)
    (attr_leaves s) (value_leaves s) (next_loc s) (file_path s) (obj_path s) (indexed_attr s)
    (on_disk_file_stream s) (is_readonly_index_file s) (total_num_attrs s)
    (total_num_indexed_kv_pairs s) (total_num_kv_pairs s) nf no.

(** ** Running the operations of a component inside the anchor *)
Notation idx := (st index_anchor).

Definition lift {A} (o : outcome A) : idx A := λ s, a ← o; Ret (a, s).

(** An operation on the [i]-th element of an array of lists. *)
Definition on_array {X A} (arr : index_anchor → list X) (set : list X → index_anchor → index_anchor)
    (i : nat) (m : st X A) : idx A :=
  λ s, match arr s !! i with
       | Some x => '(a, x') ← m x; Ret (a, set (<[i := x']> (arr s)) s)
       | None => Fault
       end.
Definition on_file_list {A} (i : nat) (m : st (linked_list tagged_value) A) : idx A :=
  on_array file_paths_list set_file_paths i m.
Definition on_object_list {A} (i : nat) (m : st (linked_list tagged_value) A) : idx A :=
  on_array object_paths_list set_object_paths i m.

Definition ld_leaf (a : loc) : idx attr_leaf :=
  λ s, match attr_leaves s !! a with Some x => Ret (x, s) | None => Fault end.
Definition upd_leaf (a : loc) (f : attr_leaf → attr_leaf) : idx unit :=
  λ s, match attr_leaves s !! a with
       | Some x => Ret (tt, set_leaves (<[a := f x]> (attr_leaves s)) (value_leaves s) (next_loc s) s)
       | None => Fault
       end.
Definition alloc_leaf (x : attr_leaf) : idx loc :=
  λ s, Ret (next_loc s,
        set_leaves (<[next_loc s := x]> (attr_leaves s)) (value_leaves s) (Pos.succ (next_loc s)) s).
Definition alloc_value_leaf : idx loc :=
  λ s, Ret (next_loc s,
        set_leaves (attr_leaves s) (<[next_loc s := list_create]> (value_leaves s))
          (Pos.succ (next_loc s)) s).
(** An operation on the list of a value leaf. *)
Definition on_value_leaf {A} (v : loc) (m : st (linked_list file_obj_pair) A) : idx A :=
  λ s, match value_leaves s !! v with
       | Some x => '(a, x') ← m x;
           Ret (a, set_leaves (attr_leaves s) (<[v := x']> (value_leaves s)) (next_loc s) s)
       | None => Fault
       end.
(** An operation on the red-black tree of an attribute leaf. *)
Definition on_rbt {A} (a : loc) (m : bool → st (rbt loc) A) : idx A :=
  leaf ← ld_leaf a;
  '(dbl, r) ← lift (deref (leaf_rbt leaf));
  '(x, r') ← lift (m dbl r);
  _ ← upd_leaf a (λ l, mk_attr_leaf (is_numeric l) (is_float l) (Some (dbl, r')) (leaf_art l));
  mret x.

Definition rbt_cmp (dbl : bool) : option (list Z → list Z → Z) :=
  Some (if dbl then libhl_cmp_keys_double else libhl_cmp_keys_int).

(** ** The operations *)

(** insert_tagged_value: the position of a path, added at the end if new. *)
Definition insert_tagged_value (tag_ : list Z) : st (linked_list tagged_value) Z :=
  tgv ← list_get_tagged_value tag_;
  match tgv with
  | Some tv => mret (le_combine (take 8 (tv_value tv)))
  | None =>
      last_pos ← list_count;
      _ ← list_insert_tagged_value
            (Some (list_create_tagged_value tag_ (le_split 8 last_pos) 8)) last_pos;
      mret last_pos
  end.

Definition init_in_mem_index (_parallelism : Z) : index_anchor :=
  let n := Z.to_nat _parallelism in
  mk_anchor _parallelism (replicate n art_tree_init) (replicate n list_create)
    (replicate n list_create) ∅ ∅ 1 None None [] None true 0 0 0 0 0.

Definition is_specified_field (name : list Z) (s : index_anchor) : bool :=
  existsb (λ f, bool_decide (strcmp name f = 0%Z)) (indexed_attr s).

(** The end of both loop bodies: register the paths and append the pair to
    the value leaf [entry]. *)
Definition add_pair (pos : Z) (fp op : list Z) (entry : loc) : idx unit :=
  file_pos ← on_file_list (Z.to_nat pos) (insert_tagged_value fp);
  obj_pos ← on_object_list (Z.to_nat pos) (insert_tagged_value op);
  _ ← on_value_leaf entry (list_push_value (Some (mk_pair pos file_pos obj_pos)));
  mret tt.

Section Index.
Context (oob : list Z → nat → Z).

(** The [i]-th element of an int or double array. *)
Definition array_key (k_size i : nat) (attr_val : list Z) : outcome (list Z) :=
  let k := take k_size (drop (i * k_size) attr_val) in
  if bool_decide (length k = k_size) then Ret k else Fault.

(** One iteration of indexing_numeric. *)
Definition index_numeric_value (pos : Z) (attr_val : list Z) (fp op : list Z) (leaf : loc) (i : nat)
    : idx unit :=
  l ← ld_leaf leaf;
  k ← lift (array_key (if is_float l then 8 else 4) i attr_val);
  '(rbt_found, entry) ← on_rbt leaf (λ dbl, rbt_find (rbt_cmp dbl) k);
  entry ← (if bool_decide (rbt_found ≠ 0%Z) then
             e ← alloc_value_leaf;
             _ ← on_rbt leaf (λ dbl, rbt_add (rbt_cmp dbl) true k e);
             mret e
           else lift (deref entry));
  add_pair pos fp op entry.

(** for (i = 0; i < attribute_value_length; i++) body *)
Fixpoint for_each (body : nat → idx unit) (i n : nat) : idx unit :=
  match n with
  | O => mret tt
  | S n => _ ← body i; for_each body (S i) n
  end.

Definition indexing_numeric (pos : Z) (attr_val : list Z) (len : Z) (fp op : list Z) (leaf : loc)
    : idx unit :=
  for_each (index_numeric_value pos attr_val fp op leaf) 0 (Z.to_nat len).

(** One iteration of indexing_string; leaf->art is not null. *)
Definition index_string_value (pos : Z) (attr_val : list (list Z)) (fp op : list Z) (leaf : loc) (i : nat)
    : idx unit :=
  v ← lift (deref (attr_val !! i));
  l ← ld_leaf leaf;
  art ← lift (deref (leaf_art l));
  test_cnt ← match art_search oob art v with
             | Some e => mret e
             | None =>
                 e ← alloc_value_leaf;
                 '(art', _) ← lift (art_insert oob art v e);
                 _ ← upd_leaf leaf (λ l, mk_attr_leaf (is_numeric l) (is_float l) (leaf_rbt l) (Some art'));
                 mret e
             end;
  add_pair pos fp op test_cnt.

Definition indexing_string (pos : Z) (attr_val : list (list Z)) (len : Z) (fp op : list Z) (leaf : loc)
    : idx unit :=
  _ ← upd_leaf leaf (λ l, mk_attr_leaf false false (leaf_rbt l)
        (match leaf_art l with Some a => Some a | None => Some art_tree_init end));
  for_each (index_string_value pos attr_val fp op leaf) 0 (Z.to_nat len).

(** A new attribute leaf and whether it goes into the ART: the string case
    falls through to the default case, which clears [into_art]. *)
Definition new_attr_leaf (t : miqs_attr_type) : attr_leaf * bool :=
  match t with
  | MIQS_AT_INTEGER => (mk_attr_leaf true false (Some (false, rbt_create)) None, true)
  | MIQS_AT_FLOAT => (mk_attr_leaf true true (Some (true, rbt_create)) None, true)
  | MIQS_AT_STRING => (mk_attr_leaf false false None (Some art_tree_init), false)
  | MIQS_AT_UNKNOWN => (mk_attr_leaf false false None None, false)
  end.

Definition create_in_mem_index_for_attr (attr : miqs_meta_attribute) : idx unit :=
  s ← st_get;
  (if bool_decide (u64 (parallelism s) = 0%Z) then st_fault else
   let attr_name_hval := partition_of (parallelism s) (attr_name attr) in
   global_art ← lift (deref (root_art_array s !! Z.to_nat attr_name_hval));
   leaf_cnt ← match art_search oob global_art (attr_name attr) with
              | Some l => mret l
              | None =>
                  let '(leaf, into_art) := new_attr_leaf (attr_type attr) in
                  l ← alloc_leaf leaf;
                  if into_art : bool then
                    '(art', _) ← lift (art_insert oob global_art (attr_name attr) l);
                    _ ← st_modify (λ s,
                          set_arts (<[Z.to_nat attr_name_hval := art']> (root_art_array s)) s);
                    mret l
                  else mret l
              end;
   match attr_type attr, attribute_value attr with
   | (MIQS_AT_INTEGER | MIQS_AT_FLOAT), ANum vals =>
       indexing_numeric attr_name_hval vals (attribute_value_length attr)
         (file_path_str attr) (obj_path_str attr) leaf_cnt
   | MIQS_AT_STRING, AStr vals =>
       indexing_string attr_name_hval vals (attribute_value_length attr)
         (file_path_str attr) (obj_path_str attr) leaf_cnt
   | MIQS_AT_UNKNOWN, _ => mret tt
   | _, _ => st_fault
   end).

(** ** Append-only file *)

(** The bytes of the pointer &(value_arr[i]) refers to, read as a C string:
    what the string case of write_aof stores. *)
Context (pointer_bytes : nat → list Z).

Definition aof_value (attr : miqs_meta_attribute) (i : nat) : outcome (option (list Z)) :=
  match attr_type attr, attribute_value attr with
  | MIQS_AT_INTEGER, ANum vals => k ← array_key 4 i vals; Ret (Some k)
  | MIQS_AT_FLOAT, ANum vals => k ← array_key 8 i vals; Ret (Some k)
  | MIQS_AT_STRING, AStr _ => Ret (Some (pointer_bytes i))
  | _, _ => Fault
  end.

Fixpoint write_aof_from (attr : miqs_meta_attribute) (fp op : option (list Z)) (i n : nat)
    (stream : list Z) : outcome (list Z) :=
  match n with
  | O => Ret stream
  | S n =>
      v ← aof_value attr i;
      stream ← append_index_record
        (Some (create_index_record (attr_type attr) (Some (attr_name attr)) v fp op)) stream;
      write_aof_from attr fp op (S i) n stream
  end.
Definition write_aof (attr : miqs_meta_attribute) (fp op : option (list Z)) (stream : list Z)
    : outcome (list Z) :=
  match attr_type attr with
  | MIQS_AT_UNKNOWN => Ret stream
  | _ => write_aof_from attr fp op 0 (Z.to_nat (attribute_value_length attr)) stream
  end.

Definition indexing_attr (attr : miqs_meta_attribute) : idx Z :=
  _ ← st_modify (λ s, set_counts (u64 (total_num_attrs s + 1)) (total_num_indexed_kv_pairs s)
                        (total_num_kv_pairs s) s);
  s ← st_get;
  let build_index :=
    match indexed_attr s with [] => true | _ => is_specified_field (attr_name attr) s end in
  if build_index : bool then
    let len := attribute_value_length attr in
    _ ← st_modify (λ s, set_counts (total_num_attrs s) (total_num_indexed_kv_pairs s)
                          (u64 (total_num_kv_pairs s + len)) s);
    s ← st_get;
    _ ← match on_disk_file_stream s with
        | Some stream =>
            if is_readonly_index_file s then mret tt
            else
              stream ← lift (write_aof attr (file_path s) (obj_path s) stream);
              st_modify (set_stream (Some stream) (is_readonly_index_file s))
        | None => mret tt
        end;
    _ ← create_in_mem_index_for_attr attr;
    _ ← st_modify (λ s, set_counts (total_num_attrs s) (u64 (total_num_indexed_kv_pairs s + len))
                          (total_num_kv_pairs s) s);
    mret 1%Z
  else mret 1%Z.

(** The attribute of a record: [attr] is the caller's uninitialised struct,
    whose path fields are left as they are; a string value is reached through
    the address of a local variable of this function, so that the caller reads
    [stale] through it. *)
Definition convert_index_record_to_in_mem_parameters (stale : list Z) (attr : miqs_meta_attribute)
    (ir : index_record) : idx (option miqs_meta_attribute) :=
  _ ← st_modify (set_paths (ir_file_path ir) (ir_object_path ir));
  mret (name ← ir_name ir;
        val ← match ir_type ir with
              | MIQS_AT_STRING => Some (AStr [stale])
              | _ => ANum <$> ir_data ir
              end;
        Some (mk_attr name (ir_type ir) val 1 (file_path_str attr) (obj_path_str attr))).

(** The while loop of load_aof on the stream of the anchor. *)
Fixpoint load_aof_loop (fuel : nat) (stale : list Z) (attr : miqs_meta_attribute) (count : Z) : idx Z :=
  s ← st_get;
  stream ← lift (deref (on_disk_file_stream s));
  let '(ir, stream) := read_index_record stream in
  _ ← st_modify (set_stream (Some stream) (is_readonly_index_file s));
  match ir, fuel with
  | None, _ => mret count
  | Some _, O => st_fault
  | Some ir, S fuel =>
      a ← convert_index_record_to_in_mem_parameters stale attr ir;
      a ← lift (deref a);
      _ ← indexing_attr a;
      load_aof_loop fuel stale attr (u64 (count + 1))
  end.
(** [content] is the file, [None] if it cannot be read. *)
Definition load_aof (content : option (list Z)) (stale : list Z) (attr : miqs_meta_attribute) : idx Z :=
  match content with
  | Some ((_ :: _) as bytes) =>
      _ ← st_modify (set_stream (Some bytes) true);
      load_aof_loop (S (length bytes)) stale attr 0
  | _ => mret 0%Z
  end.
End Index.

(** ** Exact-match queries (src/miqs_querying.c) *)
Inductive miqs_attr_value_type := MIQS_ATV_UNKNOWN | MIQS_ATV_INTEGER | MIQS_ATV_FLOAT | MIQS_ATV_STRING.

Record search_rst_entry := mk_entry_rst { rst_file_path : list Z; rst_obj_path : list Z }.

(** calloc'd entries are [None]. *)
Record power_search_rst := mk_rst {
  rst_size : Z;
  rst_arr : list (option search_rst_entry)
}.

(** *value_p for a numeric query: [value_size] bytes. *)
Inductive query_value := QNum (bytes : list Z) | QStr (str : list Z).

(** The paths of one pair: list_pick_tagged_value(...)->tag. *)
Definition pair_paths (fo_pair : file_obj_pair) : idx (list Z * list Z) :=
  let p := Z.to_nat (parallel_index_pos fo_pair) in
  f ← on_file_list p (list_pick_tagged_value (file_list_pos fo_pair));
  f ← lift (deref f);
  o ← on_object_list p (list_pick_tagged_value (obj_list_pos fo_pair));
  o ← lift (deref o);
  mret (tag f, tag o).

(** The callback runs on the results and the anchor; it always continues. *)
Definition collect_result_from_list (user : outcome (power_search_rst * index_anchor))
    (item : option file_obj_pair) (i : Z) : outcome (power_search_rst * index_anchor) * Z :=
  ('(rst, s) ← user;
   fo_pair ← deref item;
   '(f, o, s) ← pair_paths fo_pair s;
   if bool_decide (Z.to_nat i < length (rst_arr rst))
   then Ret (mk_rst (rst_size rst) (<[Z.to_nat i := Some (mk_entry_rst f o)]> (rst_arr rst)), s)
   else Fault, 1%Z).

Section Query.
Context (oob : list Z → nat → Z).

Definition attribute_value_search (attr_name : list Z) (value_p : query_value)
    (attr_value_type : miqs_attr_value_type) : idx (option loc) :=
  s ← st_get;
  if bool_decide (u64 (parallelism s) = 0%Z) then st_fault else
  let attr_name_hval := partition_of (parallelism s) attr_name in
  art ← lift (deref (root_art_array s !! Z.to_nat attr_name_hval));
  match art_search oob art attr_name with
  | None => mret None
  | Some leaf_cnt =>
      l ← ld_leaf leaf_cnt;
      match leaf_rbt l with
      | None => mret None
      | Some _ =>
          match attr_value_type, value_p with
          | MIQS_ATV_STRING, QStr v =>
              art ← lift (deref (leaf_art l));
              mret (art_search oob art v)
          | (MIQS_ATV_INTEGER | MIQS_ATV_FLOAT), QNum k =>
              '(rbt_found, entry) ← on_rbt leaf_cnt (λ dbl, rbt_find (rbt_cmp dbl) k);
              if bool_decide (rbt_found ≠ 0%Z) then mret None else mret entry
          | MIQS_ATV_UNKNOWN, _ => mret None
          | _, _ => st_fault
          end
      end
  end.

(** list_foreach_value on the list of the value leaf [v]. *)
Definition foreach_pair (v : loc) (rst : power_search_rst) : idx power_search_rst :=
  λ s, ll ← deref (value_leaves s !! v);
       '(user, _, ll') ← list_foreach_value collect_result_from_list (Ret (rst, s)) ll;
       '(rst, s) ← user;
       Ret (rst, set_leaves (attr_leaves s) (<[v := ll']> (value_leaves s)) (next_loc s) s).

(** The list of the result node is read without testing it against NULL. *)
Definition exact_metadata_search (attr_name : list Z) (attribute_value : query_value)
    (attr_value_type : miqs_attr_value_type) : idx power_search_rst :=
  rst_node ← attribute_value_search attr_name attribute_value attr_value_type;
  v ← lift (deref rst_node);
  size ← on_value_leaf v list_count;
  foreach_pair v (mk_rst size (replicate (Z.to_nat size) None)).
End Query.
