(* ===== verification/Mdb.v ===== *)
(** * The MDB file: dump and load of the in-memory index

    The append and read functions of the second half of on_disk_index.c and
    dump_mdb_index_to_disk, load_mdb_file_to_index of in_mem_index.c.  The
    lists and trees of the anchor are traversed through their own iterators,
    whose callbacks thread the output stream (and the anchor, whose list
    cursors move).  A path field that is not a string, which makes the loader
    store a NULL tag, is a fault here. *)
From S2P Require Import Prelude Heap Art RbTree Comparators LinkedList BinFile Metadata OnDiskIndex InMemIndex.

(** ** Writing *)

(** |file_list_pos|object_list_pos| *)
Definition append_file_obj_pair (fh : outcome (list Z)) (item : option file_obj_pair) (i : Z)
    : outcome (list Z) * Z :=
  (stream ← fh; pair ← deref item;
   Ret (miqs_append_size_t (obj_list_pos pair) (miqs_append_size_t (file_list_pos pair) stream)), 1%Z).

(** |list length = n|pair 1|...|pair n| for the list of the value leaf [v]. *)
Definition append_file_obj_pair_linked_list (v : loc) (stream : list Z) : idx (list Z) :=
  λ s, ll ← deref (value_leaves s !! v);
       '(fh, _, ll') ← list_foreach_value append_file_obj_pair
          (Ret (miqs_append_size_t (l_length ll) stream)) ll;
       stream ← fh;
       Ret (stream, set_leaves (attr_leaves s) (<[v := ll']> (value_leaves s)) (next_loc s) s).

(** A callback of an iterator over a tree: the stream and the anchor. *)
Notation fh := (outcome (list Z * index_anchor)) (only parsing).
Definition then_ (user : fh) (f : list Z → idx (list Z)) : fh :=
  '(stream, s) ← user; f stream s.

Definition append_string_value_node (user : fh) (key : list Z) (v : loc) : fh * Z :=
  (then_ user (λ stream,
     append_file_obj_pair_linked_list v (miqs_append_string_with_len key (length key) stream)), 0%Z).
Definition append_int_value_node (user : fh) (key : list Z) (v : loc) : fh * Z :=
  (then_ user (λ stream,
     vk ← lift (deref_int (Some key));
     append_file_obj_pair_linked_list v (miqs_append_int vk stream)), RBT_WALK_CONTINUE).
Definition append_float_value_node (user : fh) (key : list Z) (v : loc) : fh * Z :=
  (then_ user (λ stream,
     vk ← lift (deref_u64 (Some key));
     append_file_obj_pair_linked_list v (miqs_append_double vk stream)), RBT_WALK_CONTINUE).
Definition rbt_size_cb (size : Z) (key : list Z) (v : loc) : Z * Z := (u64 (size + 1), RBT_WALK_CONTINUE).

(** |type = 3|number of values = n|value_node_1|...|value_node_n| *)
Definition append_string_value_tree (art : art_tree loc) (stream : list Z) : idx (list Z) :=
  λ s, let stream := miqs_append_type 3 stream in
       let stream := miqs_append_uint64 (art_iter_size art) stream in
       (art_iter art append_string_value_node (Ret (stream, s))).1.

(** |type = 1(int)/2(float)|number of values = n|value_node_1|...|value_node_n|
    for the tree of the leaf [a]. *)
Definition append_numeric_value_tree (a : loc) (stream : list Z) : idx (list Z) :=
  leaf ← ld_leaf a;
  let stream := miqs_append_type (if is_float leaf then 2 else 1) stream in
  '(num_num_value, _) ← on_rbt a (λ dbl, rbt_walk (rbt_cmp dbl) true rbt_size_cb 0%Z);
  let stream := miqs_append_uint64 num_num_value stream in
  s ← st_get;
  '(user, _) ← on_rbt a (λ dbl, rbt_walk (rbt_cmp dbl) true
      (if is_float leaf then append_float_value_node else append_int_value_node) (Ret (stream, s)));
  '(stream, s') ← lift user;
  _ ← st_modify (λ s, set_leaves (attr_leaves s) (value_leaves s') (next_loc s) s);
  mret stream.

(** |attr_name|attr_value_region| *)
Definition append_attr_name_node (user : fh) (key : list Z) (a : loc) : fh * Z :=
  (then_ user (λ stream,
     let stream := miqs_append_string_with_len key (length key) stream in
     leaf ← ld_leaf a;
     if is_numeric leaf then append_numeric_value_tree a stream
     else art ← lift (deref (leaf_art leaf)); append_string_value_tree art stream), 0%Z).

(** |number of attributes = n|attr_node 1|...|attr_node n| *)
Definition append_attr_root_tree (art : art_tree loc) (stream : list Z) : idx (list Z) :=
  λ s, (art_iter art append_attr_name_node
          (Ret (miqs_append_uint64 (art_iter_size art) stream, s))).1.

(** |char *tag|size_t pos| *)
Definition append_path (fh : outcome (list Z)) (item : option tagged_value) (i : Z) : outcome (list Z) * Z :=
  (stream ← fh; tagv ← deref item; pos ← deref_u64 (Some (tv_value tagv));
   Ret (miqs_append_size_t pos (miqs_append_string (tag tagv) stream)), 1%Z).

(** |num of paths|path 1|...|path n| *)
Definition append_path_list (stream : list Z) : st (linked_list tagged_value) (list Z) :=
  λ ll, '(fh, _, ll') ← list_foreach_value append_path (Ret (miqs_append_size_t (l_length ll) stream)) ll;
        stream ← fh;
        Ret (stream, ll').

(** The attribute regions of all partitions, from [i] on. *)
Fixpoint append_attr_regions (n i : nat) (stream : list Z) : idx (list Z) :=
  match n with
  | O => mret stream
  | S n =>
      s ← st_get;
      name_art ← lift (deref (root_art_array s !! i));
      stream ← append_attr_root_tree name_art stream;
      append_attr_regions n (S i) stream
  end.

(** The body of the outer loop: the inner loop has its own [i] and writes the
    attribute regions of every partition each time. *)
Fixpoint dump_partitions (n i : nat) (stream : list Z) : idx (list Z) :=
  match n with
  | O => mret stream
  | S n =>
      stream ← on_file_list i (append_path_list stream);
      stream ← on_object_list i (append_path_list stream);
      s ← st_get;
      stream ← append_attr_regions (Z.to_nat (parallelism s)) 0 stream;
      dump_partitions n (S i) stream
  end.

(** The contents of the file written. *)
Definition dump_mdb_index_to_disk : idx (list Z) :=
  s ← st_get;
  dump_partitions (Z.to_nat (parallelism s)) 0 (miqs_append_size_t (parallelism s) []).

(** ** Reading: the result and the rest of the stream *)

Fixpoint read_paths (n : nat) (rst : Z) (stream : list Z) : st (linked_list tagged_value) (Z * list Z) :=
  match n with
  | O => mret (rst, stream)
  | S n =>
      let '(tag_, stream) := miqs_read_string stream in
      let '(pos, stream) := miqs_read_size_t stream in
      match deref_u64 pos, tag_, pos with
      | Ret p, Some t, Some pb =>
          rc ← list_insert_tagged_value (Some (list_create_tagged_value t pb 8)) p;
          read_paths n (Z.lor rst rc) stream
      | _, _, _ => st_fault
      end
  end.
Definition read_into_path_list (stream : list Z) : st (linked_list tagged_value) (Z * list Z) :=
  let '(list_len, stream) := miqs_read_size_t stream in
  match deref_u64 list_len with
  | Ret n =>
      '(rst, stream) ← read_paths (Z.to_nat n) 0 stream;
      mret (Z.b2z (bool_decide (rst = 0%Z)), stream)
  | Fault => st_fault
  end.

(** A pair; [None] is a NULL list, for which the pair is only skipped. *)
Definition read_into_file_obj_list (v : option loc) (stream : list Z) : idx (Z * list Z) :=
  let '(file_pos, stream) := miqs_read_size_t stream in
  let '(obj_pos, stream) := miqs_read_size_t stream in
  match v with
  | None => mret (0%Z, stream)
  | Some v =>
      fp ← lift (deref_u64 file_pos); op ← lift (deref_u64 obj_pos);
      rc ← on_value_leaf v (list_push_value (Some (mk_pair 0 fp op)));
      mret (rc, stream)
  end.
Fixpoint read_pairs (n : nat) (v : option loc) (rst : Z) (stream : list Z) : idx (Z * list Z) :=
  match n with
  | O => mret (rst, stream)
  | S n =>
      '(rc, stream) ← read_into_file_obj_list v stream;
      read_pairs n v (Z.lor rst rc) stream
  end.
(** The list of the value leaf [v], which is created empty. *)
Definition read_file_obj_path_pair_list (v : option loc) (stream : list Z) : idx (Z * list Z) :=
  let '(list_len, stream) := miqs_read_size_t stream in
  n ← lift (deref_u64 list_len);
  read_pairs (Z.to_nat n) v 0 stream.

Section Load.
Context (oob : list Z → nat → Z).

(** One value of the leaf [a] and its pairs; the last component counts
    num_kv_pairs_loaded_mdb. *)
Definition read_attr_value_node (a : loc) (type : miqs_attr_type) (stream : list Z) : idx (Z * list Z * Z) :=
  val_leaf ← alloc_value_leaf;
  let '(_value, stream) := read_value type stream in
  match _value with
  | None =>
      '(rst, stream) ← read_file_obj_path_pair_list None stream;
      mret (rst, stream, 0%Z)
  | Some val =>
      rst ← match type with
            | MIQS_AT_STRING =>
                l ← ld_leaf a; art ← lift (deref (leaf_art l));
                '(art', _) ← lift (art_insert oob art val val_leaf);
                _ ← upd_leaf a (λ l, mk_attr_leaf (is_numeric l) (is_float l) (leaf_rbt l) (Some art'));
                mret 0%Z
            | _ => on_rbt a (λ dbl, rbt_add (rbt_cmp dbl) true val val_leaf)
            end;
      '(rst', stream) ← read_file_obj_path_pair_list (Some val_leaf) stream;
      mret (Z.lor rst rst', stream, 1%Z)
  end.

Fixpoint read_value_nodes (n : nat) (a : loc) (type : miqs_attr_type) (rst : Z) (stream : list Z) (kvs : Z)
    : idx (Z * list Z * Z) :=
  match n with
  | O => mret (rst, stream, kvs)
  | S n =>
      '(rst', stream, k) ← read_attr_value_node a type stream;
      read_value_nodes n a type (Z.lor rst rst') stream (kvs + k)%Z
  end.

(** The fields of the leaf for a value region of type [t]. *)
Definition typed_leaf (t : miqs_attr_type) (l : attr_leaf) : attr_leaf :=
  match t with
  | MIQS_AT_STRING => mk_attr_leaf false false (leaf_rbt l) (Some art_tree_init)
  | MIQS_AT_INTEGER => mk_attr_leaf true false (Some (false, rbt_create)) (leaf_art l)
  | MIQS_AT_FLOAT => mk_attr_leaf true true (Some (true, rbt_create)) (leaf_art l)
  | MIQS_AT_UNKNOWN => mk_attr_leaf true (is_float l) (leaf_rbt l) (leaf_art l)
  end.
Definition read_attr_values (a : loc) (stream : list Z) : idx (Z * list Z * Z) :=
  let '(tv, stream) := miqs_read_int stream in
  t ← lift (deref_int tv);
  let type := get_miqs_type_from_int t in
  _ ← upd_leaf a (typed_leaf type);
  let '(num_values, stream) := miqs_read_uint64 stream in
  n ← lift (deref_u64 num_values);
  read_value_nodes (Z.to_nat n) a type 0 stream 0.

(** The leaf of a name is replaced if the ART already has one. *)
Definition read_attr_name_node (parallelism : Z) (stream : list Z) : idx (Z * list Z * Z) :=
  let '(attr_name, stream) := miqs_read_string stream in
  name ← lift (deref attr_name);
  if bool_decide (u64 parallelism = 0%Z) then st_fault else
  let h := Z.to_nat (partition_of parallelism name) in
  a ← alloc_leaf (mk_attr_leaf false false None None);
  s ← st_get;
  art ← lift (deref (root_art_array s !! h));
  '(art', _) ← lift (art_insert oob art name a);
  _ ← st_modify (λ s, set_arts (<[h := art']> (root_art_array s)) s);
  read_attr_values a stream.

Fixpoint read_name_nodes (n : nat) (parallelism : Z) (rst : Z) (stream : list Z) (kvs : Z)
    : idx (Z * list Z * Z) :=
  match n with
  | O => mret (rst, stream, kvs)
  | S n =>
      '(rst', stream, k) ← read_attr_name_node parallelism stream;
      read_name_nodes n parallelism (Z.lor rst rst') stream (kvs + k)%Z
  end.
Definition read_into_attr_root_tree (parallelism : Z) (stream : list Z) : idx (Z * list Z * Z) :=
  let '(num_attrs, stream) := miqs_read_uint64 stream in
  n ← lift (deref_u64 num_attrs);
  '(rst, stream, kvs) ← read_name_nodes (Z.to_nat n) parallelism 0 stream 0;
  mret (Z.b2z (bool_decide (rst = 0%Z)), stream, kvs).

(** One iteration of the loading loop per partition: [None] for the early
    return 0; the key/value count is that of the last region read. *)
Fixpoint load_partitions (n i : nat) (stream : list Z) (kvs : Z) : idx (option Z) :=
  match n with
  | O => mret (Some kvs)
  | S n =>
      '(rst, stream) ← on_file_list i (read_into_path_list stream);
      nf ← on_file_list i list_count;
      _ ← st_modify (λ s, set_totals (u64 (total_num_files s + nf)) (total_num_objects s) s);
      if bool_decide (rst ≠ 1%Z) then mret None else
      '(rst, stream) ← on_object_list i (read_into_path_list stream);
      no ← on_object_list i list_count;
      _ ← st_modify (λ s, set_totals (total_num_files s) (u64 (total_num_objects s + no)) s);
      if bool_decide (rst ≠ 1%Z) then mret None else
      s ← st_get;
      '(_, stream, kvs) ← read_into_attr_root_tree (parallelism s) stream;
      load_partitions n (S i) stream kvs
  end.

(** [content] is the file, [None] if it cannot be read; [num_attrs_addr] is
    the address that is added to total_num_attrs in place of the number of
    attributes.  The result is always 0: the inner [rst] hides the one that is
    returned. *)
Definition load_mdb_into (content : option (list Z)) (num_attrs_addr : Z) : idx Z :=
  match content with
  | Some ((_ :: _) as bytes) =>
      let '(par, stream) := miqs_read_size_t bytes in
      s ← st_get;
      kvs ← load_partitions (Z.to_nat (parallelism s)) 0 stream 0;
      match kvs with
      | None => mret 0%Z
      | Some kvs =>
          _ ← st_modify (λ s, set_counts (u64 (total_num_attrs s + num_attrs_addr))
                (total_num_indexed_kv_pairs s) (u64 (total_num_kv_pairs s + kvs)) s);
          mret 0%Z
      end
  | _ => mret 0%Z
  end.

(** Loading into an existing anchor, or (NULL) into a new one whose
    parallelism, an [int], is the one of the file. *)
Definition load_mdb_file_to_index (content : option (list Z)) (num_attrs_addr : Z)
    (anchor : option index_anchor) : outcome (Z * option index_anchor) :=
  match content with
  | Some ((_ :: _) as bytes) =>
      s ← match anchor with
          | Some s => Ret s
          | None => p ← deref_u64 (miqs_read_size_t bytes).1; Ret (init_in_mem_index (i32 p))
          end;
      '(rst, s) ← load_mdb_into content num_attrs_addr s;
      Ret (rst, Some s)
  | _ => Ret (0%Z, anchor)
  end.
Definition load_mdb := load_mdb_file_to_index.
End Load.
