(* ===== verification/IndexInv.v ===== *)
(** * The invariant of the in-memory index

    [index_is s nm log n] relates an anchor to the log of numeric entries that
    were indexed, in order: every attribute name of the log has a leaf, every
    value of it a value leaf, and the pairs of that leaf resolve, through the
    path lists, to the file and object paths of the log. *)
From S2P Require Import Prelude Heap Art ArtMap RbTree RbTreeAdd RbTreeMap Comparators LinkedList LinkedListRep LinkedListSpec BinFile Metadata InMemIndex.

(** ** What the index asks of its search trees

    [MapStore] is the contract between the in-memory index and the trees it
    keeps its leaves in: a lookup that answers what the represented map holds
    and an insertion of a key, for keys in a domain.  The adaptive radix tree
    and the red-black tree are instances; the proofs about the index use only
    the class. *)
Class MapStore {T V R S : Type} (rep : T → gmap (list Z) V → Prop) (dom : list Z → Prop)
    (answer : option V → R) (find : list Z → st T R) (add : list Z → V → st T S) : Prop := {
  store_find t m k : rep t m → dom k → ∃ t', find k t = Ret (answer (m !! k), t') ∧ rep t' m;
  store_add t m k v : rep t m → dom k → ∃ r t', add k v t = Ret (r, t') ∧ rep t' (<[k := v]> m)
}.

(** ** The adaptive radix tree, for keys that are C strings *)
Definition art_is {V} (t : art_tree V) (m : gmap (list Z) V) : Prop := art_ok t ∧ art_map t = m.

Section Art.
Context {V : Type} (oob : list Z → nat → Z).
Definition art_find_op (k : list Z) : st (art_tree V) (option V) := λ t, Ret (art_search oob t k, t).
Definition art_add_op (k : list Z) (v : V) : st (art_tree V) (option V) :=
  λ t, '(t', old) ← art_insert oob t k v; Ret (old, t').

#[export] Instance art_store : MapStore art_is cstr (λ r, r) art_find_op art_add_op.
Proof.
  split.
  - intros t m k [Hok <-] Hk. exists t. unfold art_find_op. by rewrite art_search_map.
  - intros t m k v [Hok <-] Hk. destruct (art_insert_map oob t k v Hok Hk) as (t' & Hr & Hok' & Hm).
    exists (art_map t !! k), t'. unfold art_add_op. by rewrite Hr.
Qed.
End Art.

(** ** The red-black tree, for keys its comparator orders *)
Definition rbt_answer {V} (r : option V) : Z * option V :=
  match r with Some v => (0%Z, Some v) | None => ((-1)%Z, None) end.

#[export] Instance rbt_store {V} `{EqDecision V} cmp fcb P `{!KeyOrder P (rbt_compare_keys cmp)} :
  MapStore (V := V) (rbt_is cmp P) P rbt_answer (rbt_find cmp) (rbt_add cmp fcb).
Proof.
  split.
  - intros s m k (t & Hr & <-) Hk. exists s. split; [by rewrite (rbt_find_rep cmp P s t k Hr Hk)|].
    by exists t.
  - intros s m k v (t & Hr & <-) Hk.
    destruct (rbt_add_rep cmp fcb P s t k v Hr Hk) as (s' & t' & Hrun & Hr' & -> & _ & _).
    eexists _, s'. split; [done|]. eexists. split; [done|]. apply (fadd_map cmp P); [|done].
    by destruct Hr.
Qed.

(** ** Path lists: interning of paths *)
Section Paths.
Implicit Types (ll : linked_list tagged_value) (tags : list (list Z)).

Definition path_entry (i : nat) (t : list Z) : tagged_value :=
  list_create_tagged_value t (le_split 8 (Z.of_nat i)) 8.
(** The list [ll] holds the paths [tags], each with its own position. *)
Definition path_list ll tags : Prop :=
  list_is ll (Some <$> imap path_entry tags) ∧ Forall storable tags.

(** The position of a path and the paths after it was registered. *)
Definition intern tags (t : list Z) : nat * list (list Z) :=
  match list_find (λ x, x = t) tags with
  | Some (i, _) => (i, tags)
  | None => (length tags, tags ++ [t])
  end.

Lemma intern_spec tags t :
  (intern tags t).2 !! (intern tags t).1 = Some t ∧ tags `prefix_of` (intern tags t).2
  ∧ length (intern tags t).2 ≤ S (length tags).
Proof.
  unfold intern. destruct (list_find _ _) as [[i x]|] eqn:Hf; simpl.
  - apply list_find_Some in Hf as (Hi & -> & _). split; [done|]. split; [done|lia].
  - rewrite list_lookup_middle by done. rewrite length_app. simpl.
    split; [done|]. split; [by apply prefix_app_r|lia].
Qed.

Lemma tag_path_entry i t : storable t → tag (path_entry i t) = t.
Proof. intros Ht. unfold path_entry, list_create_tagged_value. simpl. apply cstr_of_id, Ht. Qed.

Lemma find_path_entry_from j tags t :
  Forall storable tags →
  find_tag t (imap (λ i, path_entry (j + i)) tags)
  = (λ p, path_entry (j + p.1) p.2) <$> list_find (λ x, x = t) tags.
Proof.
  intros Hc. revert j. induction Hc as [|x tags Hx Hc IH]; intros j; [done|].
  unfold find_tag in *. rewrite imap_cons. cbn [list_find].
  rewrite tag_path_entry by done. destruct (decide (x = t)) as [->|Hne]; [done|].
  specialize (IH (S j)).
  replace (imap ((λ i, path_entry (j + i)) ∘ S) tags) with (imap (λ i, path_entry (S j + i)) tags)
    by (apply imap_ext; intros; simpl; f_equal; lia).
  destruct (list_find _ (imap _ _)) as [[]|]; destruct (list_find _ tags) as [[]|]; simpl in *;
    simplify_eq/=; do 2 f_equal; lia.
Qed.

Lemma find_path_entry tags t :
  Forall storable tags →
  find_tag t (imap path_entry tags) = (λ p, path_entry p.1 p.2) <$> list_find (λ x, x = t) tags.
Proof. exact (find_path_entry_from 0 tags t). Qed.

Lemma path_position i t : (Z.of_nat i ≤ MAX_LEN)%Z → le_combine (take 8 (tv_value (path_entry i t))) = Z.of_nat i.
Proof.
  intros Hi. change (tv_value (path_entry i t)) with (take 8 (le_split 8 (Z.of_nat i))).
  rewrite take_take, take_ge by (rewrite length_le_split; simpl; lia).
  apply le_split_u64. unfold in_u64, MAX_LEN in *. lia.
Qed.

(** insert_tagged_value returns the position of the path, which it appends if
    it is new. *)
Lemma insert_tagged_value_intern ll tags t :
  path_list ll tags → storable t → (Z.of_nat (length tags) < MAX_LEN)%Z →
  ∃ ll', insert_tagged_value t ll = Ret (Z.of_nat (intern tags t).1, ll')
       ∧ path_list ll' (intern tags t).2.
Proof.
  intros [Hl Hc] Ht Hlt. unfold insert_tagged_value, intern.
  destruct (list_get_tagged_value_is ll _ t Hl) as (l1 & Hg & Hl1).
  rewrite find_path_entry in Hg by done. unfold mbind, st_bind. rewrite Hg.
  destruct (list_find _ tags) as [[i x]|] eqn:Hf; cbn [fmap option_fmap option_map fst snd].
  - apply list_find_Some in Hf as (Hi & -> & _). apply lookup_lt_Some in Hi.
    exists l1. split; [|done]. unfold mret, st_ret. by rewrite path_position by lia.
  - destruct (list_is_length _ _ Hl1) as [Hlen _]. rewrite length_fmap, length_imap in Hlen.
    unfold list_count, mbind, st_bind, st_get. simpl. rewrite Hlen.
    destruct Hl1 as (xs & Hr & Hv). pose proof (f_equal length Hv) as Hxs.
    rewrite length_values, length_fmap, length_imap in Hxs.
    pose proof (insert_value_wp l1 xs true (Some (path_entry (length tags) t)) (length tags) Hr
      ltac:(lia)) as Hwp.
    apply wp_run in Hwp as (rc & l2 & Hrun & -> & Hl2). unfold path_entry in Hrun. rewrite Hrun.
    exists l2. split; [done|]. split; [|by apply Forall_app; split; [|constructor]].
    rewrite imap_app, fmap_app. rewrite Hv in Hl2. unfold insert_at in Hl2.
    rewrite length_fmap, length_imap, Nat.sub_diag in Hl2.
    rewrite take_ge, drop_ge in Hl2 by (by rewrite length_fmap, length_imap). simpl in Hl2 |- *.
    by rewrite Nat.add_0_r.
Qed.

Lemma path_list_pick ll tags i t :
  path_list ll tags → tags !! i = Some t →
  ∃ ll', list_pick_tagged_value (Z.of_nat i) ll = Ret (Some (path_entry i t), ll') ∧ path_list ll' tags.
Proof.
  intros [Hl Hc] Hi. destruct (list_pick_value_is ll _ i Hl) as (l1 & Hp & Hl1).
  exists l1. split; [|done]. unfold list_pick_tagged_value. rewrite Hp.
  by rewrite list_lookup_fmap, list_lookup_imap, Hi.
Qed.
End Paths.

(** ** The log of numeric entries *)
Notation entry_key := (list Z * list Z)%type (only parsing).
Notation paths := (list Z * list Z)%type (only parsing).

(** An entry: the attribute name and the value, the file and object path. *)
Notation log := (list (list Z * list Z * (list Z * list Z))) (only parsing).
(** The paths of the entries with a name and a value, in indexing order. *)
Definition answers (lg : log) (name k : list Z) : list paths :=
  snd <$> filter (λ e, e.1 = (name, k)) lg.

Lemma answers_snoc lg name k name' k' p :
  answers (lg ++ [(name', k', p)]) name k
  = answers lg name k ++ (if bool_decide ((name', k') = (name, k)) then [p] else []).
Proof.
  unfold answers. rewrite filter_app, fmap_app. f_equal. rewrite filter_cons, filter_nil. simpl.
  case_bool_decide; by rewrite ?decide_True, ?decide_False by done.
Qed.

(** The paths a pair of list positions stands for. *)
Definition resolves (fps ops : list (list (list Z))) (p : file_obj_pair) (fo : paths) : Prop :=
  ∃ q i j ftags otags, p = mk_pair (Z.of_nat q) (Z.of_nat i) (Z.of_nat j)
    ∧ fps !! q = Some ftags ∧ ops !! q = Some otags
    ∧ ftags !! i = Some fo.1 ∧ otags !! j = Some fo.2.

Definition grows (xs ys : list (list (list Z))) : Prop :=
  ∀ q t, xs !! q = Some t → ∃ t', ys !! q = Some t' ∧ t `prefix_of` t'.

Lemma resolves_grows fps ops fps' ops' p fo :
  grows fps fps' → grows ops ops' → resolves fps ops p fo → resolves fps' ops' p fo.
Proof.
  intros Hf Ho (q & i & j & ft & ot & -> & Hq & Hq' & Hi & Hj).
  destruct (Hf q ft Hq) as (ft' & Hft & Hpf). destruct (Ho q ot Hq') as (ot' & Hot & Hpo).
  exists q, i, j, ft', ot'. split; [done|]. split; [done|]. split; [done|].
  split; by eapply prefix_lookup_Some.
Qed.

Section Inv.
(** [is_flt name] tells how the values of a numeric attribute are stored;
    [P] are the keys that the comparator of that kind orders; [strings] tells
    whether string attributes may be indexed too. *)
Context (is_flt : list Z → bool) (P : bool → list Z → Prop) (strings : bool).
Context `{HKO : ∀ b, KeyOrder (P b) (rbt_compare_keys (rbt_cmp b))}.
Implicit Types (s : index_anchor) (own : gmap loc (option entry_key)) (nm : gmap loc (option (list Z))).

(** The leaf of a name in the ART of its partition. *)
Definition attr_at s (name : list Z) : option loc :=
  root_art_array s !! Z.to_nat (partition_of (parallelism s) name) ≫= λ t, art_map t !! name.

(** A leaf: its string tree points to string value leaves; if it is the leaf
    of a name, its red-black tree maps the logged values to their value
    leaves. *)
Record leaf_inv own (lg : log) (o : option (list Z)) (l : attr_leaf) : Prop := {
  leaf_art_ok t : leaf_art l = Some t →
    art_ok t ∧ ∀ str v, art_map t !! str = Some v → own !! v = Some None;
  leaf_named name : o = Some name →
    storable name ∧ (strings = false → is_numeric l = true ∧ leaf_art l = None);
  leaf_rbt_ok name : o = Some name →
    is_float l = is_flt name ∧
    ∃ r m, leaf_rbt l = Some (is_flt name, r)
      ∧ rbt_is (rbt_cmp (is_flt name)) (P (is_flt name)) r m
      ∧ (∀ k v, m !! k = Some v ↔ own !! v = Some (Some (name, k)))
      ∧ ∀ k, m !! k = None → answers lg name k = []
}.

(** A value leaf: the list of its pairs. *)
Definition value_inv (fps ops : list (list (list Z))) (lg : log) (n : nat) (o : option entry_key)
    (ll : linked_list file_obj_pair) : Prop :=
  ∃ ps fos, list_is ll (Some <$> ps) ∧ length ps ≤ n ∧ Forall2 (resolves fps ops) ps fos
    ∧ ∀ name k, o = Some (name, k) → fos = answers lg name k.

Definition paths_are (lls : list (linked_list tagged_value)) (tagss : list (list (list Z))) (n : nat) : Prop :=
  Forall2 (λ ll tags, path_list ll tags ∧ length tags ≤ n) lls tagss.

Record index_inv s own nm (fps ops : list (list (list Z))) (lg : log) (n : nat) : Prop := {
  inv_par : (0 < parallelism s < 2 ^ 31)%Z;
  inv_arts : length (root_art_array s) = Z.to_nat (parallelism s);
  inv_art p t : root_art_array s !! p = Some t → art_ok t;
  inv_name name a : attr_at s name = Some a ↔ nm !! a = Some (Some name);
  inv_leaf a o : nm !! a = Some o → ∃ l, attr_leaves s !! a = Some l ∧ leaf_inv own lg o l;
  inv_value v o : own !! v = Some o → ∃ ll, value_leaves s !! v = Some ll ∧ value_inv fps ops lg n o ll;
  inv_fps : paths_are (file_paths_list s) fps n ∧ length fps = Z.to_nat (parallelism s);
  inv_ops : paths_are (object_paths_list s) ops n ∧ length ops = Z.to_nat (parallelism s);
  inv_owner v name k : own !! v = Some (Some (name, k)) → ∃ a, nm !! a = Some (Some name);
  inv_logged name : (∀ a, nm !! a ≠ Some (Some name)) → ∀ k, answers lg name k = [];
  inv_count : length lg ≤ n;
  inv_fresh l : (next_loc s ≤ l)%positive → nm !! l = None ∧ own !! l = None
}.

(** Every value leaf has pairs, that of [o] excepted. *)
Definition filled own (lg : log) (o : option entry_key) : Prop :=
  ∀ v name k, own !! v = Some (Some (name, k)) → o = Some (name, k) ∨ answers lg name k ≠ [].

(** The index [s] holds the log [lg]; its lists have at most [n] entries. *)
Definition index_is s nm (lg : log) (n : nat) : Prop :=
  ∃ own fps ops, index_inv s own nm fps ops lg n ∧ filled own lg None.

Lemma owner_inj s own nm fps ops lg n v w name k :
  index_inv s own nm fps ops lg n →
  own !! v = Some (Some (name, k)) → own !! w = Some (Some (name, k)) → v = w.
Proof.
  intros Hinv Hv Hw. destruct (inv_owner _ _ _ _ _ _ _ Hinv v name k Hv) as [a Ha].
  destruct (inv_leaf _ _ _ _ _ _ _ Hinv a _ Ha) as (l & _ & [_ _ Hrbt]).
  destruct (Hrbt name eq_refl) as (_ & r & m & _ & _ & Hm & _). apply Hm in Hv, Hw. congruence.
Qed.

Lemma init_lists (lls : nat) : paths_are (replicate lls list_create) (replicate lls []) 0.
Proof.
  induction lls as [|k IH]; simpl; constructor; [|done]. split; [|done]. split; [|constructor].
  apply list_is_create.
Qed.

Lemma init_inv p : (0 < p < 2 ^ 31)%Z →
  index_inv (init_in_mem_index p) ∅ ∅ (replicate (Z.to_nat p) []) (replicate (Z.to_nat p) []) [] 0.
Proof.
  intros Hp.
  assert (∀ i t, replicate (Z.to_nat p) (art_tree_init (V := loc)) !! i = Some t → t = art_tree_init) as Ht.
  { intros i t [-> _]%lookup_replicate. done. }
  split; unfold init_in_mem_index; cbn [parallelism root_art_array attr_leaves value_leaves
    file_paths_list object_paths_list next_loc].
  - done.
  - by rewrite length_replicate.
  - intros i t ->%Ht. apply art_ok_init.
  - intros name a. rewrite lookup_empty. unfold attr_at. split; [|done]. cbn [root_art_array].
    destruct (_ !! _) as [t|] eqn:Hl; [|done]. apply Ht in Hl as ->. done.
  - intros a o. by rewrite lookup_empty.
  - intros a o. by rewrite lookup_empty.
  - split; [apply init_lists|by rewrite length_replicate].
  - split; [apply init_lists|by rewrite length_replicate].
  - intros v name k. by rewrite lookup_empty.
  - done.
  - done.
  - intros l _. by rewrite !lookup_empty.
Qed.

Lemma init_index_is p : (0 < p < 2 ^ 31)%Z → index_is (init_in_mem_index p) ∅ [] 0.
Proof.
  intros Hp. exists ∅, (replicate (Z.to_nat p) []), (replicate (Z.to_nat p) []).
  split; [by apply init_inv|by intros v name k].
Qed.
End Inv.
