(* ===== verification/IndexAdd.v ===== *)
(** * Indexing preserves the invariant of the in-memory index *)
From S2P Require Import Prelude Heap Art ArtMap RbTree RbTreeAdd RbTreeMap Comparators LinkedList LinkedListRep LinkedListSpec BinFile Metadata InMemIndex IndexInv.

(** ** Running component operations inside the anchor *)
Lemma wp_on_array {X A} (arr : index_anchor → list X) set i (m : st X A) (Q : A → index_anchor → Prop) s x a x' :
  arr s !! i = Some x → m x = Ret (a, x') → Q a (set (<[i := x']> (arr s)) s) →
  wp (on_array arr set i m) Q s.
Proof. intros Hx Hm HQ. unfold wp, on_array. rewrite Hx. by rewrite Hm. Qed.

Lemma wp_on_value {A} v (m : st (linked_list file_obj_pair) A) (Q : A → index_anchor → Prop) s x a x' :
  value_leaves s !! v = Some x → m x = Ret (a, x') →
  Q a (set_leaves (attr_leaves s) (<[v := x']> (value_leaves s)) (next_loc s) s) →
  wp (on_value_leaf v m) Q s.
Proof. intros Hx Hm HQ. unfold wp, on_value_leaf. rewrite Hx. by rewrite Hm. Qed.

Lemma wp_lift {A} (o : outcome A) (Q : A → index_anchor → Prop) s a : o = Ret a → Q a s → wp (lift o) Q s.
Proof. by intros ->. Qed.

Lemma wp_ld_leaf a l (Q : attr_leaf → index_anchor → Prop) s :
  attr_leaves s !! a = Some l → Q l s → wp (ld_leaf a) Q s.
Proof. intros Hl HQ. unfold wp, ld_leaf. by rewrite Hl. Qed.

Lemma wp_upd_leaf a l f (Q : unit → index_anchor → Prop) s :
  attr_leaves s !! a = Some l →
  Q tt (set_leaves (<[a := f l]> (attr_leaves s)) (value_leaves s) (next_loc s) s) →
  wp (upd_leaf a f) Q s.
Proof. intros Hl HQ. unfold wp, upd_leaf. by rewrite Hl. Qed.

Definition with_rbt (l : attr_leaf) (b : bool) (r : rbt loc) : attr_leaf :=
  mk_attr_leaf (is_numeric l) (is_float l) (Some (b, r)) (leaf_art l).

Lemma wp_on_rbt {A} a l b r (m : bool → st (rbt loc) A) (Q : A → index_anchor → Prop) s x r' :
  attr_leaves s !! a = Some l → leaf_rbt l = Some (b, r) → m b r = Ret (x, r') →
  Q x (set_leaves (<[a := with_rbt l b r']> (attr_leaves s)) (value_leaves s) (next_loc s) s) →
  wp (on_rbt a m) Q s.
Proof.
  intros Hl Hr Hm HQ. unfold on_rbt. apply wp_bind. eapply wp_ld_leaf; [done|].
  apply wp_bind. eapply wp_lift; [by rewrite Hr|]. apply wp_bind. eapply wp_lift; [done|].
  apply wp_bind. by eapply wp_upd_leaf.
Qed.

(** What indexing the values of an attribute leaves alone. *)
Definition env (s : index_anchor) :=
  (parallelism s, (file_path s, obj_path s), indexed_attr s,
   (on_disk_file_stream s, is_readonly_index_file s),
   (total_num_attrs s, total_num_indexed_kv_pairs s, total_num_kv_pairs s)).
Lemma env_par s s' : env s' = env s → parallelism s' = parallelism s.
Proof. unfold env. congruence. Qed.

(** ** Path lists *)
Lemma paths_mono lls tagss n n' : n ≤ n' → paths_are lls tagss n → paths_are lls tagss n'.
Proof.
  intros Hn H. eapply Forall2_impl; [exact H|]. simpl. intros ll tags [Hl Hle]. split; [done|lia].
Qed.

Lemma grows_refl xs : grows xs xs.
Proof. intros q t Hq. eauto. Qed.
Lemma grows_insert xs q t t' : xs !! q = Some t → t `prefix_of` t' → grows xs (<[q := t']> xs).
Proof.
  intros Hq Hp q' u Hu. destruct (decide (q = q')) as [<-|Hne].
  - simplify_eq. exists t'. split; [|done]. apply list_lookup_insert_eq. by eapply lookup_lt_Some.
  - exists u. split; [|done]. by rewrite list_lookup_insert_ne.
Qed.

Lemma paths_intern lls tagss n q t :
  paths_are lls tagss n → q < length tagss → storable t → (Z.of_nat n < MAX_LEN)%Z →
  ∃ ll ll' tags' i, lls !! q = Some ll ∧ insert_tagged_value t ll = Ret (Z.of_nat i, ll')
    ∧ paths_are (<[q := ll']> lls) (<[q := tags']> tagss) (S n)
    ∧ grows tagss (<[q := tags']> tagss) ∧ tags' !! i = Some t.
Proof.
  intros Hp Hq Ht Hn. apply lookup_lt_is_Some in Hq as [tags Htags].
  destruct (Forall2_lookup_r _ _ _ _ _ Hp Htags) as (ll & Hll & Hpl & Hle).
  destruct (insert_tagged_value_intern ll tags t Hpl Ht) as (ll' & Hr & Hpl'); [lia|].
  destruct (intern_spec tags t) as (Hi & Hpre & Hlen).
  exists ll, ll', (intern tags t).2, (intern tags t).1. split; [done|]. split; [done|].
  split; [|split; [by eapply grows_insert|done]].
  apply Forall2_insert; [|split; [done|lia]]. eapply (paths_mono _ _ n); [lia|done].
Qed.

(** ** Value leaves and the log *)

(** The log entry a value leaf stands for. *)
Definition logged (o : option (list Z * list Z)) (fo : list Z * list Z)
    : list (list Z * list Z * (list Z * list Z)) :=
  match o with Some nk => [(nk, fo)] | None => [] end.

Lemma answers_logged lg o fo name k :
  answers (lg ++ logged o fo) name k
  = answers lg name k ++ (if bool_decide (o = Some (name, k)) then [fo] else []).
Proof.
  destruct o as [[n' k']|]; simpl.
  - rewrite answers_snoc. f_equal. case_bool_decide; [|rewrite bool_decide_eq_false_2 by naive_solver; done].
    by rewrite bool_decide_eq_true_2 by congruence.
  - by rewrite !app_nil_r.
Qed.

(** A value leaf keeps its pairs when the path lists grow and another value is
    logged. *)
Lemma value_inv_other fps ops fps' ops' lg n n' o o' fo ll :
  grows fps fps' → grows ops ops' → n ≤ n' → (∀ name k, o = Some (name, k) → o' ≠ Some (name, k)) →
  value_inv fps ops lg n o ll → value_inv fps' ops' (lg ++ logged o' fo) n' o ll.
Proof.
  intros Hf Ho Hn Hne (ps & fos & Hl & Hlen & Hres & Ha). exists ps, fos. split; [done|]. split; [lia|].
  split; [eapply Forall2_impl; [done|]; intros; by eapply resolves_grows|].
  intros name k ->. rewrite answers_logged, bool_decide_eq_false_2 by (by apply Hne).
  rewrite app_nil_r. by apply Ha.
Qed.
Lemma value_inv_grows fps ops fps' ops' lg n n' o ll :
  grows fps fps' → grows ops ops' → n ≤ n' → value_inv fps ops lg n o ll → value_inv fps' ops' lg n' o ll.
Proof.
  intros Hf Ho Hn Hv. rewrite <-(app_nil_r lg). eapply (value_inv_other _ _ _ _ _ _ _ _ None ([], [])); eauto.
Qed.

Lemma value_inv_push fps ops lg n o fo p ll :
  resolves fps ops p fo → (Z.of_nat n < MAX_LEN)%Z → value_inv fps ops lg n o ll →
  ∃ ll', list_push_value (Some p) ll = Ret (0%Z, ll')
       ∧ value_inv fps ops (lg ++ logged o fo) (S n) o ll'.
Proof.
  intros Hp Hn (ps & fos & Hl & Hlen & Hres & Ha).
  destruct (list_push_value_is ll _ (Some p) Hl) as (ll' & Hrun & Hl'); [rewrite length_fmap; lia|].
  exists ll'. split; [done|]. exists (ps ++ [p]), (fos ++ [fo]).
  split; [by rewrite fmap_app|]. split; [rewrite length_app; simpl; lia|]. split.
  - apply Forall2_app; [done|by constructor].
  - intros name k Heq. rewrite answers_logged, bool_decide_eq_true_2 by done. by rewrite (Ha name k Heq).
Qed.

(** The pairs of a logged value are no more than the log entries. *)
Lemma value_inv_tight fps ops lg n name k ll :
  value_inv fps ops lg n (Some (name, k)) ll → value_inv fps ops lg (length lg) (Some (name, k)) ll.
Proof.
  intros (ps & fos & Hl & Hlen & Hres & Ha). exists ps, fos. split; [done|]. split; [|done].
  rewrite (Forall2_length _ _ _ Hres), (Ha name k eq_refl). unfold answers. rewrite length_fmap.
  apply length_filter.
Qed.

Section Add.
Context (is_flt : list Z → bool) (P : bool → list Z → Prop) (strings : bool).
Context `{HKO : ∀ b, KeyOrder (P b) (rbt_compare_keys (rbt_cmp b))}.
Implicit Types (s : index_anchor) (nm : gmap loc (option (list Z))) (own : gmap loc (option (list Z * list Z))).

Notation index_inv := (index_inv is_flt P strings).
Notation index_is := (index_is is_flt P strings).

Lemma leaf_inv_log own lg v o fo o' l :
  own !! v = Some o → leaf_inv is_flt P strings own lg o' l → leaf_inv is_flt P strings own (lg ++ logged o fo) o' l.
Proof.
  intros Hv [Hart Hnm Hrbt]. split; [done|done|]. intros name Hn. destruct (Hrbt name Hn) as (Hf & r & m & Hr & His & Hm & Hnone).
  split; [done|]. exists r, m. split; [done|]. split; [done|]. split; [done|]. intros k Hk.
  rewrite answers_logged, (Hnone k Hk). rewrite bool_decide_eq_false_2; [done|].
  intros ->. apply Hm in Hv. congruence.
Qed.

Lemma filled_logged own lg o fo : filled own lg o → filled own (lg ++ logged o fo) None.
Proof.
  intros Hf v name k Hv. right. rewrite answers_logged. case_bool_decide as Ho.
  - by destruct (answers lg name k).
  - rewrite app_nil_r. by destruct (Hf v name k Hv).
Qed.
Lemma filled_weaken own lg o : filled own lg None → filled own lg o.
Proof. intros Hf v name k Hv. destruct (Hf v name k Hv); [done|by right]. Qed.
Lemma filled_fresh own lg e x : filled own lg None → filled (<[e := x]> own) lg x.
Proof.
  intros Hf v name k [[_ ->]|[_ Hv]]%lookup_insert_Some; [by left|]. apply (filled_weaken _ _ x) in Hf. eauto.
Qed.

(** Path lists that grew. *)
Lemma inv_paths s own nm fps ops fps' ops' lg n n' fl ol :
  index_inv s own nm fps ops lg n → n ≤ n' → grows fps fps' → grows ops ops' →
  paths_are fl fps' n' → paths_are ol ops' n' → length fps' = length fps → length ops' = length ops →
  index_inv (set_object_paths ol (set_file_paths fl s)) own nm fps' ops' lg n'.
Proof.
  intros [Hpar Hal Hart Hname Hleaf Hval [_ Hfl] [_ Hol] How Hlog Hcnt Hfr] Hn Hgf Hgo Hf Ho Hlf Hlo.
  split; cbn; try done.
  - intros v o Hv. destruct (Hval v o Hv) as (ll & Hll & Hvi). exists ll. split; [done|].
    by eapply value_inv_grows.
  - split; [done|congruence].
  - split; [done|congruence].
  - lia.
Qed.

(** A pair pushed onto the list of the value leaf [v]. *)
Lemma inv_push s own nm fps ops lg n v o fo ll :
  index_inv s own nm fps ops lg n → own !! v = Some o → length (lg ++ logged o fo) ≤ n →
  value_inv fps ops (lg ++ logged o fo) n o ll →
  index_inv (set_leaves (attr_leaves s) (<[v := ll]> (value_leaves s)) (next_loc s) s)
    own nm fps ops (lg ++ logged o fo) n.
Proof.
  intros Hinv Hv Hn Hvi. destruct (Hinv) as [Hpar Hal Hart Hname Hleaf Hval Hfps Hops How Hlog Hcnt Hfr].
  split; cbn; [done|done|done|done| | |done|done|done| |done|done].
  - intros a oa Ha. destruct (Hleaf a oa Ha) as (l & Hl & Hi). exists l. split; [done|].
    by eapply leaf_inv_log.
  - intros w ow Hw. destruct (decide (v = w)) as [<-|Hne].
    + rewrite lookup_insert_eq. simplify_eq. by eexists.
    + rewrite lookup_insert_ne by done. destruct (Hval w ow Hw) as (lw & Hlw & Hvw).
      exists lw. split; [done|]. eapply value_inv_other; [apply grows_refl|apply grows_refl|apply Nat.le_refl| |exact Hvw].
      intros name k -> ->. by eapply Hne, owner_inj.
  - intros name Hname' k. rewrite answers_logged, (Hlog name Hname').
    rewrite bool_decide_eq_false_2; [done|]. intros ->. apply How in Hv as [a Ha]. by eapply Hname'.
Qed.

Lemma add_pair_ok s own nm fps ops lg n q fp op v o :
  index_inv s own nm fps ops lg n → filled own lg o → own !! v = Some o →
  (0 ≤ q < parallelism s)%Z → storable fp → storable op → (Z.of_nat n < MAX_LEN)%Z →
  wp (add_pair q fp op v) (λ _ s', (index_is s' nm (lg ++ logged o (fp, op)) (S n)
    ∧ env s' = env s) ∧ attr_leaves s' = attr_leaves s) s.
Proof.
  intros Hinv Hfill Hv Hq Hfp Hop Hn.
  destruct (inv_fps _ _ _ _ _ _ _ _ _ _ Hinv) as [Hfps Hfl], (inv_ops _ _ _ _ _ _ _ _ _ _ Hinv) as [Hops Hol].
  destruct (paths_intern _ _ _ (Z.to_nat q) fp Hfps) as (fl & fl' & ft & i & Hfl1 & Hfi & Hfps' & Hgf & Hft);
    [lia|done|done|].
  destruct (paths_intern _ _ _ (Z.to_nat q) op Hops) as (ol & ol' & ot & j & Hol1 & Hoi & Hops' & Hgo & Hot);
    [lia|done|done|].
  assert (resolves (<[Z.to_nat q := ft]> fps) (<[Z.to_nat q := ot]> ops)
            (mk_pair q (Z.of_nat i) (Z.of_nat j)) (fp, op)) as Hres.
  { exists (Z.to_nat q), i, j, ft, ot. rewrite Z2Nat.id by lia.
    rewrite !list_lookup_insert_eq by lia. done. }
  pose proof (inv_paths _ _ _ _ _ _ _ _ _ (S n) _ _ Hinv ltac:(lia) Hgf Hgo Hfps' Hops'
    ltac:(by rewrite length_insert) ltac:(by rewrite length_insert)) as Hinv1.
  destruct (inv_value _ _ _ _ _ _ _ _ _ _ Hinv v o Hv) as (ll & Hll & Hvi).
  eapply (value_inv_grows _ _ _ _ _ _ n) in Hvi; [|exact Hgf|exact Hgo|done].
  destruct (value_inv_push _ _ lg n o (fp, op) _ ll Hres Hn Hvi) as (ll' & Hpush & Hvi').
  unfold add_pair. apply wp_bind. eapply wp_on_array; [done|done|].
  apply wp_bind. eapply wp_on_array; [done|done|].
  apply wp_bind. eapply wp_on_value; [done|exact Hpush|]. apply wp_ret.
  split; [split; [|done]|done]. exists own, (<[Z.to_nat q := ft]> fps), (<[Z.to_nat q := ot]> ops).
  split; [|by apply filled_logged]. apply (inv_push _ _ _ _ _ _ _ _ _ _ _ Hinv1 Hv); [|done].
  pose proof (inv_count _ _ _ _ _ _ _ _ _ _ Hinv). rewrite length_app. destruct o; simpl; lia.
Qed.

(** ** Numeric values *)

Lemma own_fresh own (e v : loc) (x o : option (list Z * list Z)) :
  own !! e = None → own !! v = Some o → <[e := x]> own !! v = Some o.
Proof. intros He Hv. rewrite lookup_insert_ne; [done|]. intros ->. congruence. Qed.

(** Leaves of other names do not see the new value leaf [e]. *)
Lemma leaf_inv_own own e x lg o l :
  own !! e = None → (∀ name k, o = Some name → x ≠ Some (name, k)) →
  leaf_inv is_flt P strings own lg o l → leaf_inv is_flt P strings (<[e := x]> own) lg o l.
Proof.
  intros He Hx [Hart Hnm Hrbt]. split; [|done|].
  - intros t Ht. destruct (Hart t Ht) as [Hok Hv]. split; [done|]. intros str v Hs.
    apply own_fresh; eauto.
  - intros name Hn. destruct (Hrbt name Hn) as (Hf & r & m & Hr & His & Hm & Hnone). split; [done|].
    exists r, m. split; [done|]. split; [done|]. split; [|done]. intros k v. rewrite Hm.
    split; [by apply own_fresh|]. destruct (decide (e = v)) as [<-|Hne].
    + rewrite lookup_insert_eq. intros [= ->]. by destruct (Hx name k Hn).
    + by rewrite lookup_insert_ne.
Qed.

Lemma value_inv_create fps ops lg n o :
  (∀ name k, o = Some (name, k) → answers lg name k = []) → value_inv fps ops lg n o list_create.
Proof.
  intros Ha. exists [], []. split; [apply list_is_create|]. split; [simpl; lia|]. split; [constructor|].
  intros name k Ho. by rewrite (Ha name k Ho).
Qed.

(** Adding a value leaf to the map of its name. *)
Lemma insert_maps own (e : loc) (name k : list Z) (m : gmap (list Z) loc) :
  own !! e = None → m !! k = None →
  (∀ k v, m !! k = Some v ↔ own !! v = Some (Some (name, k))) →
  ∀ k' v, <[k := e]> m !! k' = Some v ↔ <[e := Some (name, k)]> own !! v = Some (Some (name, k')).
Proof.
  intros He Hk Hm k' v. rewrite !lookup_insert_Some. rewrite Hm. split.
  - intros [[<- <-]|[Hne Hv]]; [by left|]. right. split; [|done]. intros ->. congruence.
  - intros [[<- [= <-]]|[Hne Hv]]; [by left|]. right. split; [|done]. intros ->.
    apply Hm in Hv. congruence.
Qed.

(** Distinct leaves have distinct names. *)
Lemma names_inj s own nm fps ops lg n a b name :
  index_inv s own nm fps ops lg n → nm !! a = Some (Some name) → nm !! b = Some (Some name) → a = b.
Proof.
  intros Hinv Ha Hb. apply (inv_name _ _ _ _ _ _ _ _ _ _ Hinv) in Ha, Hb. congruence.
Qed.

(** A new value leaf for the value [k] of the name [name]: its allocation and
    its insertion in the red-black tree of the leaf [a]. *)
Lemma new_value_ok {A} s own nm fps ops lg n a name k l r m (K : loc → Z → idx A) Q :
  index_inv s own nm fps ops lg n → nm !! a = Some (Some name) →
  attr_leaves s !! a = Some l → leaf_rbt l = Some (is_flt name, r) → is_float l = is_flt name →
  rbt_is (rbt_cmp (is_flt name)) (P (is_flt name)) r m →
  (∀ k v, m !! k = Some v ↔ own !! v = Some (Some (name, k))) →
  (∀ k, m !! k = None → answers lg name k = []) →
  m !! k = None → P (is_flt name) k →
  (∀ e rc s', own !! e = None → index_inv s' (<[e := Some (name, k)]> own) nm fps ops lg n → env s' = env s →
     wp (K e rc) Q s') →
  wp (e ← alloc_value_leaf;
      rc ← on_rbt a (λ dbl, rbt_add (rbt_cmp dbl) true k e);
      K e rc) Q s.
Proof.
  intros Hinv Ha Hl Hr Hfl His Hm Hnone Hk HP HK.
  destruct (Hinv) as [Hpar Hal Hart Hname Hleaf Hval Hfps Hops How Hlog Hcnt Hfr].
  set (e := next_loc s). pose proof (Hfr e ltac:(done)) as [Hea Heo].
  destruct (store_add (rep := rbt_is (rbt_cmp (is_flt name)) (P (is_flt name))) (find := rbt_find (rbt_cmp (is_flt name)))
     (add := rbt_add (rbt_cmp (is_flt name)) true) r m k e His HP) as (rc & r' & Hadd & His').
  apply wp_bind. unfold wp at 1, alloc_value_leaf. fold e.
  apply wp_bind. eapply wp_on_rbt; [exact Hl|exact Hr|exact Hadd|]. apply HK; [done| |done].
  split; cbn; [done|done|done|done| | |done|done| |done|done|].
  - intros b o Hb. destruct (decide (a = b)) as [<-|Hne].
    + rewrite lookup_insert_eq. eexists. split; [done|]. rewrite Ha in Hb. injection Hb as <-.
      destruct (Hleaf a _ Ha) as (l' & Hl' & [Hla Hnm _]). rewrite Hl in Hl'. injection Hl' as <-. split; cbn; [|by apply Hnm|].
      * intros t Ht. destruct (Hla t Ht) as [Hok Hv]. split; [done|]. intros str v Hs.
        apply own_fresh; eauto.
      * intros name' [= <-]. split; [done|]. exists r', (<[k := e]> m). split; [done|]. split; [done|].
        split; [by apply insert_maps|]. intros k' [Hk' _]%lookup_insert_None. by apply Hnone.
    + rewrite lookup_insert_ne by done. destruct (Hleaf b o Hb) as (l' & Hl' & Hi).
      exists l'. split; [done|]. apply leaf_inv_own; [done| |done].
      intros name' k' -> [= <- <-]. by eapply Hne, names_inj.
  - intros v o. destruct (decide (e = v)) as [<-|Hne].
    + rewrite !lookup_insert_eq. intros [= <-]. eexists. split; [done|]. apply value_inv_create.
      intros name' k' [= <- <-]. by apply Hnone.
    + rewrite !lookup_insert_ne by done. apply Hval.
  - intros v name' k'. destruct (decide (e = v)) as [<-|Hne].
    + rewrite lookup_insert_eq. intros [= <- <-]. by exists a.
    + rewrite lookup_insert_ne by done. apply How.
  - intros v Hv. destruct (Hfr v ltac:(lia)) as [H1 H2]. split; [done|].
    rewrite lookup_insert_ne; [done|]. unfold e. lia.
Qed.

(** Replacing the tree of a leaf by another one with the same contents. *)
Lemma inv_rbt s own nm fps ops lg n a name l r' m :
  index_inv s own nm fps ops lg n → nm !! a = Some (Some name) →
  attr_leaves s !! a = Some l → is_float l = is_flt name →
  rbt_is (rbt_cmp (is_flt name)) (P (is_flt name)) r' m →
  (∀ k v, m !! k = Some v ↔ own !! v = Some (Some (name, k))) →
  (∀ k, m !! k = None → answers lg name k = []) →
  index_inv (set_leaves (<[a := with_rbt l (is_flt name) r']> (attr_leaves s)) (value_leaves s) (next_loc s) s)
    own nm fps ops lg n.
Proof.
  intros Hinv Ha Hl Hfl His Hm Hnone.
  destruct (Hinv) as [Hpar Hal Hart Hname Hleaf Hval Hfps Hops How Hlog Hcnt Hfr].
  split; cbn; [done|done|done|done| |done|done|done|done|done|done|done].
  intros b o Hb. destruct (decide (a = b)) as [<-|Hne]; [|rewrite lookup_insert_ne by done; eauto].
  rewrite lookup_insert_eq. eexists. split; [done|]. rewrite Ha in Hb. injection Hb as <-.
  destruct (Hleaf a _ Ha) as (l' & Hl' & [Hla Hnm _]). rewrite Hl in Hl'. injection Hl' as <-.
  split; [done|done|]. intros name' [= <-]. split; [done|]. by exists r', m.
Qed.

Lemma index_numeric_value_ok s nm lg n a name k i q vals fp op :
  index_is s nm lg n → nm !! a = Some (Some name) →
  array_key (if is_flt name then 8 else 4) i vals = Ret k → P (is_flt name) k →
  (0 ≤ q < parallelism s)%Z → storable fp → storable op → (Z.of_nat n < MAX_LEN)%Z →
  wp (index_numeric_value q vals fp op a i)
    (λ _ s', index_is s' nm (lg ++ [((name, k), (fp, op))]) (S n) ∧ env s' = env s) s.
Proof.
  intros (own & fps & ops & Hinv & Hfill) Ha Hk HP Hq Hfp Hop Hn.
  destruct (inv_leaf _ _ _ _ _ _ _ _ _ _ Hinv a _ Ha) as (l & Hl & [_ _ Hrbt]).
  destruct (Hrbt name eq_refl) as (Hfl & r & m & Hr & His & Hm & Hnone).
  unfold index_numeric_value. apply wp_bind. eapply wp_ld_leaf; [done|].
  apply wp_bind. eapply wp_lift; [by rewrite Hfl|].
  destruct (store_find (rep := rbt_is (rbt_cmp (is_flt name)) (P (is_flt name)))
    (add := rbt_add (rbt_cmp (is_flt name)) true) r m k His HP) as (r' & Hfind & His').
  apply wp_bind. eapply wp_on_rbt; [done|done|exact Hfind|].
  pose proof (inv_rbt s own nm fps ops lg n a name l r' m Hinv Ha Hl Hfl His' Hm Hnone) as Hinv'.
  unfold rbt_answer. destruct (m !! k) as [v|] eqn:Hmk; cbn [bool_decide]; apply wp_bind.
  - rewrite bool_decide_eq_false_2 by lia. eapply wp_lift; [done|].
    eapply wp_mono;
      [eapply (add_pair_ok _ own nm fps ops lg n q fp op v (Some (name, k)) Hinv'); try done; [by apply filled_weaken|by apply Hm]|]. by intros _ s' [??].
  - rewrite bool_decide_eq_true_2 by done.
    eapply (new_value_ok _ own nm fps ops lg n a name k (with_rbt l (is_flt name) r') r' m (λ e _, mret e) _
      Hinv' Ha); try done; [cbn; by rewrite lookup_insert_eq|].
    intros e rc s' _ Hi Hpar. apply wp_ret. change (env s' = env s) in Hpar. eapply wp_mono.
    + eapply (add_pair_ok s' _ nm fps ops lg n q fp op e (Some (name, k)) Hi); try done;
        [by apply filled_fresh|by rewrite lookup_insert_eq|by rewrite (env_par _ _ Hpar)].
    + cbv beta. intros _ s2 [[H1 H2] _]. split; [done|]. by rewrite H2.
Qed.

(** The loop over the values of an attribute. *)
Definition value_keys (b : bool) (vals : list Z) (i n : nat) : list (list Z) :=
  let sz := if b then 8 else 4 in (λ i, take sz (drop (i * sz) vals)) <$> seq i n.
Definition key_size (b : bool) : Prop := ∀ k, P b k → length k = if b then 8 else 4.

Lemma indexing_numeric_ok_from s nm lg n a name q vals fp op i c :
  key_size (is_flt name) → index_is s nm lg n → nm !! a = Some (Some name) →
  Forall (P (is_flt name)) (value_keys (is_flt name) vals i c) →
  (0 ≤ q < parallelism s)%Z → storable fp → storable op → (Z.of_nat (n + c) ≤ MAX_LEN)%Z →
  wp (for_each (index_numeric_value q vals fp op a) i c)
    (λ _ s', index_is s' nm (lg ++ ((λ k, ((name, k), (fp, op))) <$> value_keys (is_flt name) vals i c)) (n + c)
       ∧ env s' = env s) s.
Proof.
  intros Hsz. revert s lg n i. induction c as [|c IH]; intros s lg n i His Ha HP Hq Hfp Hop Hn; cbn [for_each].
  { apply wp_ret. simpl. rewrite app_nil_r, Nat.add_0_r. done. }
  unfold value_keys in HP |- *. cbn [seq fmap list_fmap] in HP |- *. inversion HP as [|? ? HPk HPs]; subst.
  apply wp_bind. eapply wp_mono.
  - eapply (index_numeric_value_ok s nm lg n a name _ i q vals fp op His Ha); try done; [|lia].
    unfold array_key. rewrite bool_decide_eq_true_2; [done|]. by apply Hsz.
  - cbv beta. intros _ s' [His' Hpar]. eapply wp_mono.
    + apply (IH s' _ (S n) (S i) His' Ha HPs); [by rewrite (env_par _ _ Hpar)|done|done|lia].
    + cbv beta. intros _ s2 [H1 H2]. rewrite <-app_assoc in H1. simpl in H1.
      rewrite Nat.add_succ_r. split; [exact H1|]. by rewrite H2.
Qed.

(** ** String values *)

(** A leaf with a string tree. *)
Definition has_art s (a : loc) : Prop :=
  ∃ l t, attr_leaves s !! a = Some l ∧ leaf_art l = Some t.

Definition with_art (l : attr_leaf) (t : art_tree loc) : attr_leaf :=
  mk_attr_leaf (is_numeric l) (is_float l) (leaf_rbt l) (Some t).

(** A new value leaf for a string of the leaf [a]. *)
Lemma inv_new_string s own nm fps ops lg n a o l t t' str :
  index_inv s own nm fps ops lg n → nm !! a = Some o → attr_leaves s !! a = Some l →
  leaf_art l = Some t → art_is t' (<[str := next_loc s]> (art_map t)) →
  index_inv (set_leaves (<[a := with_art l t']> (attr_leaves s))
      (<[next_loc s := list_create]> (value_leaves s)) (Pos.succ (next_loc s)) s)
    (<[next_loc s := None]> own) nm fps ops lg n.
Proof.
  intros Hinv Ha Hl Ht [Hok' Hmap].
  destruct (Hinv) as [Hpar Hal Hart Hname Hleaf Hval Hfps Hops How Hlog Hcnt Hfr].
  set (e := next_loc s). pose proof (Hfr e ltac:(done)) as [Hea Heo].
  split; cbn; [done|done|done|done| | |done|done| |done|done|].
  - intros b ob Hb. destruct (Hleaf b ob Hb) as (lb & Hlb & Hi).
    apply (leaf_inv_own own e None) in Hi; [|done|done].
    destruct (decide (a = b)) as [<-|Hne]; [|rewrite lookup_insert_ne by done; eauto].
    rewrite lookup_insert_eq. simplify_eq. eexists. split; [done|]. destruct Hi as [Hia Hin Hir].
    split; [|intros nb Hb'; destruct (Hin nb Hb') as [? Hs]; split; [done|]; intros [_ ?]%Hs; congruence|done].
    cbn. intros t2 [= <-]. split; [done|]. intros str' v. rewrite Hmap. intros [[_ <-]|[_ Hv]]%lookup_insert_Some.
    + by rewrite lookup_insert_eq.
    + by apply (Hia t Ht) in Hv.
  - intros v o'. destruct (decide (e = v)) as [<-|Hne].
    + rewrite !lookup_insert_eq. intros [= <-]. eexists. split; [done|]. by apply value_inv_create.
    + rewrite !lookup_insert_ne by done. apply Hval.
  - intros v name' k'. destruct (decide (e = v)) as [<-|Hne].
    + by rewrite lookup_insert_eq.
    + rewrite lookup_insert_ne by done. apply How.
  - intros v Hv. destruct (Hfr v ltac:(lia)) as [H1 H2]. split; [done|].
    rewrite lookup_insert_ne; [done|]. unfold e. lia.
Qed.

Context (oob : list Z → nat → Z).

Lemma index_string_value_ok s nm lg n a o str i q vals fp op :
  index_is s nm lg n → nm !! a = Some o → has_art s a →
  vals !! i = Some str → cstr str →
  (0 ≤ q < parallelism s)%Z → storable fp → storable op → (Z.of_nat n < MAX_LEN)%Z →
  wp (index_string_value oob q vals fp op a i)
    (λ _ s', (index_is s' nm lg (S n) ∧ env s' = env s) ∧ has_art s' a) s.
Proof.
  intros (own & fps & ops & Hinv & Hfill) Ha (l & t & Hl & Ht) Hi Hstr Hq Hfp Hop Hn.
  destruct (inv_leaf _ _ _ _ _ _ _ _ _ _ Hinv a _ Ha) as (l' & Hl' & [Hart _ _]).
  rewrite Hl in Hl'. injection Hl' as <-. destruct (Hart t Ht) as [Hok Hown].
  unfold index_string_value. apply wp_bind. eapply wp_lift; [by rewrite Hi|].
  apply wp_bind. eapply wp_ld_leaf; [done|]. apply wp_bind. eapply wp_lift; [by rewrite Ht|].
  assert (art_is t (art_map t)) as Hrep by done.
  destruct (store_find (find := art_find_op oob) (add := art_add_op oob) t _ str Hrep Hstr) as (t1 & Hf & _).
  unfold art_find_op in Hf. injection Hf as Hf _. rewrite Hf. clear Hf.
  destruct (art_map t !! str) as [v|] eqn:Hv; apply wp_bind.
  - apply wp_ret. eapply wp_mono.
    + eapply (add_pair_ok s own nm fps ops lg n q fp op v None Hinv); try done. by eapply Hown.
    + cbv beta. cbn [logged]. rewrite app_nil_r. intros _ s' [Hs' Hal]. split; [done|]. exists l, t.
      by rewrite Hal.
  - destruct (store_add (find := art_find_op oob) (add := art_add_op oob) t _ str (next_loc s) Hrep Hstr)
      as (old & t' & Hadd & Hrep'). unfold art_add_op in Hadd.
    apply bind_Ret in Hadd as ([t2 old2] & Hins & [= -> ->]).
    pose proof (inv_new_string s own nm fps ops lg n a o l t t' str Hinv Ha Hl Ht Hrep') as Hinv'.
    apply wp_bind. unfold wp at 1, alloc_value_leaf. apply wp_bind. eapply wp_lift; [exact Hins|].
    apply wp_bind. eapply wp_upd_leaf; [exact Hl|]. apply wp_ret. eapply wp_mono.
    + eapply (add_pair_ok _ _ nm fps ops lg n q fp op (next_loc s) None Hinv'); try done; [by apply filled_fresh|].
      by rewrite lookup_insert_eq.
    + cbv beta. cbn [logged]. rewrite app_nil_r. intros _ s' [Hs' Hal]. split; [done|].
      exists (with_art l t'), t'. rewrite Hal. cbn. by rewrite lookup_insert_eq.
Qed.

Lemma indexing_string_ok_from s nm lg n a o q vals fp op i c :
  index_is s nm lg n → nm !! a = Some o → has_art s a → i + c ≤ length vals → Forall cstr vals →
  (0 ≤ q < parallelism s)%Z → storable fp → storable op → (Z.of_nat (n + c) ≤ MAX_LEN)%Z →
  wp (for_each (index_string_value oob q vals fp op a) i c)
    (λ _ s', index_is s' nm lg (n + c) ∧ env s' = env s) s.
Proof.
  revert s n i. induction c as [|c IH]; intros s n i His Ha Hha Hi Hc Hq Hfp Hop Hn; cbn [for_each].
  { apply wp_ret. by rewrite Nat.add_0_r. }
  destruct (lookup_lt_is_Some_2 vals i ltac:(lia)) as [str Hstr]. apply wp_bind. eapply wp_mono.
  - eapply (index_string_value_ok s nm lg n a o str i q vals fp op His Ha Hha Hstr); try done; [|lia].
    by eapply Forall_lookup_1.
  - cbv beta. intros _ s' [[His' Hpar] Hha']. eapply wp_mono.
    + apply (IH s' (S n) (S i) His' Ha Hha'); [lia|done|by rewrite (env_par _ _ Hpar)|done|done|lia].
    + cbv beta. intros _ s2 [H1 H2]. rewrite Nat.add_succ_r. split; [exact H1|]. by rewrite H2.
Qed.

Lemma indexing_string_ok s nm lg n a o q vals fp op len :
  index_is s nm lg n → nm !! a = Some o → (∀ name, o = Some name → is_flt name = false ∧ strings = true) →
  Z.to_nat len ≤ length vals → Forall cstr vals →
  (0 ≤ q < parallelism s)%Z → storable fp → storable op → (Z.of_nat (n + Z.to_nat len) ≤ MAX_LEN)%Z →
  wp (indexing_string oob q vals len fp op a)
    (λ _ s', index_is s' nm lg (n + Z.to_nat len) ∧ env s' = env s) s.
Proof.
  intros (own & fps & ops & Hinv & Hfill) Ha Hflt Hlen Hc Hq Hfp Hop Hn.
  destruct (Hinv) as [Hpar Hal Hart Hname Hleaf Hval Hfps Hops How Hlog Hcnt Hfr].
  destruct (Hleaf a _ Ha) as (l & Hl & [Hla Hln Hlr]). unfold indexing_string.
  apply wp_bind. eapply wp_upd_leaf; [exact Hl|].
  set (l' := mk_attr_leaf false false (leaf_rbt l)
    (match leaf_art l with Some a => Some a | None => Some art_tree_init end)).
  eapply wp_mono; [eapply (indexing_string_ok_from _ nm lg n a o q vals fp op 0 (Z.to_nat len)); try done|done].
  - exists own, fps, ops. split; [|done]. split; cbn; [done|done|done|done| |done|done|done|done|done|done|done].
    intros b ob Hb. destruct (decide (a = b)) as [<-|Hne]; [|rewrite lookup_insert_ne by done; eauto].
    rewrite lookup_insert_eq. simplify_eq. eexists. split; [done|]. split.
    + cbn. intros t Ht. destruct (leaf_art l) as [t0|] eqn:Ht0; simplify_eq; [by apply Hla|].
      by split; [apply art_ok_init|].
    + intros name Hnn. destruct (Hflt name Hnn) as [_ Hs]. split; [by apply (Hln name)|congruence].
    + cbn. intros name ->. destruct (Hlr name eq_refl) as [Hf Hr].
      by rewrite (proj1 (Hflt name eq_refl)) in Hr |- *.
  - unfold has_art. cbn. exists l'. rewrite lookup_insert_eq. unfold l'. cbn.
    destruct (leaf_art l); eauto.
Qed.
End Add.
