(* ===== verification/IndexRun.v ===== *)
(** * Indexing a sequence of attributes, and queries

    Attributes of admissible kinds are indexed without a fault, and the anchor
    then holds the log of their numeric values. *)
From S2P Require Import Prelude Heap Art ArtMap RbTree RbTreeAdd RbTreeMap Comparators LinkedList LinkedListRep LinkedListSpec BinFile Metadata OnDiskIndex InMemIndex IndexInv IndexAdd.

Section Run.
Context (is_flt : list Z → bool) (P : bool → list Z → Prop) (strings : bool).
Context `{HKO : ∀ b, KeyOrder (P b) (rbt_compare_keys (rbt_cmp b))}.
Context (oob : list Z → nat → Z) (pointer_bytes : nat → list Z).
Implicit Types (s : index_anchor) (nm : gmap loc (option (list Z))) (own : gmap loc (option (list Z * list Z)))
  (attr : miqs_meta_attribute).
Notation index_inv := (index_inv is_flt P strings).
Notation index_is := (index_is is_flt P strings).
Notation log := (list (list Z * list Z * (list Z * list Z))) (only parsing).

(** The attributes the theorems are about: C strings as names and paths, an
    array of the stated length, numeric values the comparator orders, and one
    numeric kind per name. *)
Definition values_ok attr : Prop :=
  let name := attr_name attr in
  match attr_type attr, attribute_value attr with
  | MIQS_AT_INTEGER, ANum vals => is_flt name = false ∧
      Forall (P false) (value_keys false vals 0 (Z.to_nat (attribute_value_length attr)))
  | MIQS_AT_FLOAT, ANum vals => is_flt name = true ∧
      Forall (P true) (value_keys true vals 0 (Z.to_nat (attribute_value_length attr)))
  | MIQS_AT_STRING, AStr vals => is_flt name = false ∧ strings = true ∧
      Z.to_nat (attribute_value_length attr) ≤ length vals ∧ Forall cstr vals
  | MIQS_AT_UNKNOWN, _ => True
  | _, _ => False
  end.
Definition attr_ok attr : Prop :=
  storable (attr_name attr) ∧ storable (file_path_str attr) ∧ storable (obj_path_str attr) ∧ values_ok attr.

(** The log entries of an attribute. *)
Definition attr_entries attr : log :=
  let keys b vals := value_keys b vals 0 (Z.to_nat (attribute_value_length attr)) in
  (λ k, ((attr_name attr, k), (file_path_str attr, obj_path_str attr))) <$>
  match attr_type attr, attribute_value attr with
  | MIQS_AT_INTEGER, ANum vals => keys false vals
  | MIQS_AT_FLOAT, ANum vals => keys true vals
  | _, _ => []
  end.

(** ** New attribute leaves *)
Lemma size_insert_le {A} (m : gmap loc A) i x : size (<[i := x]> m) ≤ S (size m).
Proof. rewrite map_size_insert. destruct (m !! i); simpl; lia. Qed.

(** A leaf that is not (yet) in an ART. *)
Lemma inv_orphan s own nm fps ops lg n l :
  index_inv s own nm fps ops lg n → leaf_inv is_flt P strings own lg None l →
  index_inv (set_leaves (<[next_loc s := l]> (attr_leaves s)) (value_leaves s) (Pos.succ (next_loc s)) s)
    own (<[next_loc s := None]> nm) fps ops lg n.
Proof.
  intros Hinv Hl. destruct (Hinv) as [Hpar Hal Hart Hname Hleaf Hval Hfps Hops How Hlog Hcnt Hfr].
  pose proof (Hfr (next_loc s) ltac:(done)) as [Hea _].
  assert (∀ b o, nm !! b = Some o → <[next_loc s := None]> nm !! b = Some o) as Hold.
  { intros b o Hb. rewrite lookup_insert_ne; [done|]. intros <-. congruence. }
  split; cbn; [done|done|done| | |done|done|done| | |done|].
  - intros name a. etrans; [apply Hname|]. split; [apply Hold|]. intros [[_ [=]]|[_ Ha]]%lookup_insert_Some. done.
  - intros a o [[<- <-]|[Hne Ha]]%lookup_insert_Some.
    + rewrite lookup_insert_eq. eauto.
    + rewrite lookup_insert_ne by done. by apply Hleaf.
  - intros v name k Hv. destruct (How v name k Hv) as [a Ha]. eauto.
  - intros name Hn. apply Hlog. intros a Ha. by apply (Hn a), Hold.
  - intros v Hv. destruct (Hfr v ltac:(lia)) as [H1 H2]. split; [|done].
    rewrite lookup_insert_ne; [done|lia].
Qed.

Lemma attr_at_arts s name p t t' a :
  root_art_array s !! p = Some t → p = Z.to_nat (partition_of (parallelism s) name) →
  art_map t' = <[name := a]> (art_map t) →
  ∀ name', attr_at (set_arts (<[p := t']> (root_art_array s)) s) name'
    = if decide (name' = name) then Some a else attr_at s name'.
Proof.
  intros Hp Hq Hm name'. unfold attr_at. cbn. destruct (decide (name' = name)) as [->|Hne].
  - rewrite <-Hq, list_lookup_insert_eq by (by eapply lookup_lt_Some). cbn. by rewrite Hm, lookup_insert_eq.
  - destruct (decide (Z.to_nat (partition_of (parallelism s) name') = p)) as [->|Hp'].
    + rewrite list_lookup_insert_eq by (by eapply lookup_lt_Some). rewrite Hp. cbn.
      by rewrite Hm, lookup_insert_ne.
    + by rewrite list_lookup_insert_ne.
Qed.

(** The leaf [a], already allocated, goes into the ART of its partition. *)
Lemma inv_attach s own nm fps ops lg n a l name p t t' :
  index_inv s own nm fps ops lg n → nm !! a = Some None → attr_leaves s !! a = Some l →
  attr_at s name = None → leaf_inv is_flt P strings own lg (Some name) l →
  root_art_array s !! p = Some t → p = Z.to_nat (partition_of (parallelism s) name) →
  art_is t' (<[name := a]> (art_map t)) →
  index_inv (set_arts (<[p := t']> (root_art_array s)) s) own (<[a := Some name]> nm) fps ops lg n.
Proof.
  intros Hinv Ha Hl Hat Hi Hp Hq [Hok Hm].
  destruct (Hinv) as [Hpar Hal Hart Hname Hleaf Hval Hfps Hops How Hlog Hcnt Hfr].
  assert (∀ b nb, nm !! b = Some (Some nb) → <[a := Some name]> nm !! b = Some (Some nb)) as Hold.
  { intros b nb Hb. rewrite lookup_insert_ne; [done|]. intros <-. congruence. }
  split.
  - done.
  - cbn. by rewrite length_insert.
  - cbn. intros p' u [(<- & <- & _)|[_ Hu]]%list_lookup_insert_Some; eauto.
  - intros name' b. rewrite (attr_at_arts s name p t t' a Hp Hq Hm). destruct (decide _) as [->|Hne].
    + split; [intros [= <-]; by rewrite lookup_insert_eq|].
      intros [[<- _]|[_ Hb]]%lookup_insert_Some; [done|]. apply Hname in Hb. congruence.
    + rewrite Hname. split; [apply Hold|]. by intros [[_ [=]]|[_ Hb]]%lookup_insert_Some.
  - intros b o [[<- <-]|[Hne Hb]]%lookup_insert_Some; cbn; eauto.
  - done.
  - done.
  - done.
  - intros v name' k Hv. destruct (How v name' k Hv) as [b Hb]. eauto.
  - intros name' Hn. apply Hlog. intros b Hb. by apply (Hn b), Hold.
  - done.
  - intros v Hv. cbn in Hv. destruct (Hfr v Hv) as [H1 H2]. split; [|done].
    rewrite lookup_insert_ne; [done|]. intros <-. congruence.
Qed.

Lemma new_leaf_ok own lg (b : bool) name :
  (∀ v k, own !! v ≠ Some (Some (name, k))) → (∀ k, answers lg name k = []) → is_flt name = b → storable name →
  leaf_inv is_flt P strings own lg (Some name) (mk_attr_leaf true b (Some (b, rbt_create)) None).
Proof.
  intros Ho Hlog <- Hs. split; [done|by intros name' [= <-]|]. cbn. intros name' [= <-]. split; [done|].
  exists rbt_create, ∅. split; [done|]. split; [apply rbt_is_create|]. split; [|done].
  intros k v. rewrite lookup_empty. split; [done|]. intros Hv. by destruct (Ho v k).
Qed.

(** ** create_in_mem_index_for_attr *)
Lemma inv_no_owner s own nm fps ops lg n name :
  index_inv s own nm fps ops lg n → attr_at s name = None →
  (∀ v k, own !! v ≠ Some (Some (name, k))) ∧ (∀ k, answers lg name k = []).
Proof.
  intros Hinv Hat.
  assert (∀ a, nm !! a ≠ Some (Some name)) as Hno.
  { intros a Ha. apply (inv_name _ _ _ _ _ _ _ _ _ _ Hinv) in Ha. congruence. }
  split; [|by apply (inv_logged _ _ _ _ _ _ _ _ _ _ Hinv)].
  intros v k Hv. apply (inv_owner _ _ _ _ _ _ _ _ _ _ Hinv) in Hv as [a Ha]. by eapply Hno.
Qed.

(** The new leaf of a name that the index does not know, put into the ART of
    its partition. *)
Lemma inv_new_leaf s own nm fps ops lg n name p t :
  index_inv s own nm fps ops lg n → storable name → attr_at s name = None →
  root_art_array s !! p = Some t → p = Z.to_nat (partition_of (parallelism s) name) →
  ∃ t' old, art_insert oob t name (next_loc s) = Ret (t', old)
    ∧ index_inv (set_arts (<[p := t']> (root_art_array s))
        (set_leaves (<[next_loc s := mk_attr_leaf true (is_flt name) (Some (is_flt name, rbt_create)) None]> (attr_leaves s))
           (value_leaves s) (Pos.succ (next_loc s)) s))
        own (<[next_loc s := Some name]> nm) fps ops lg n.
Proof.
  intros Hinv Hst Hat Ht Hp. set (l := mk_attr_leaf _ _ _ _).
  destruct (inv_no_owner _ _ _ _ _ _ _ _ Hinv Hat) as [Hown Hlog].
  pose proof (new_leaf_ok own lg (is_flt name) name Hown Hlog eq_refl Hst) as Hl. fold l in Hl.
  assert (leaf_inv is_flt P strings own lg None l) as Hl0 by (by split).
  pose proof (inv_orphan _ _ _ _ _ _ _ _ Hinv Hl0) as Hinv'.
  assert (art_is t (art_map t)) as Hrep by (split; [by eapply (inv_art _ _ _ _ _ _ _ _ _ _ Hinv)|done]).
  destruct (store_add (find := art_find_op oob) (add := art_add_op oob) t _ name (next_loc s) Hrep (proj1 Hst))
    as (old & t' & Hadd & Hrep'). unfold art_add_op in Hadd.
  apply bind_Ret in Hadd as ([t2 old2] & Hins & [= -> ->]). exists t', old. split; [done|].
  rewrite <-(insert_insert_eq nm (next_loc s) (Some name) None).
  eapply (inv_attach _ _ _ _ _ _ _ (next_loc s) l name p t t' Hinv'); try done;
    [by rewrite lookup_insert_eq|cbn; by rewrite lookup_insert_eq].
Qed.

(** The lookup or creation of the attribute leaf. *)
Definition leaf_for (attr : miqs_meta_attribute) (h : Z) (global_art : art_tree loc) : idx loc :=
  match art_search oob global_art (attr_name attr) with
  | Some l => mret l
  | None =>
      let '(leaf, into_art) := new_attr_leaf (attr_type attr) in
      l ← alloc_leaf leaf;
      if into_art : bool then
        '(art', _) ← lift (art_insert oob global_art (attr_name attr) l);
        _ ← st_modify (λ s, set_arts (<[Z.to_nat h := art']> (root_art_array s)) s);
        mret l
      else mret l
  end.

(** The owner the leaf of an attribute has: its name, or nobody for strings
    and unknown types of a new name. *)
Definition leaf_owner attr (o : option (list Z)) : Prop :=
  match attr_type attr with
  | MIQS_AT_INTEGER | MIQS_AT_FLOAT => o = Some (attr_name attr)
  | _ => o = Some (attr_name attr) ∨ o = None
  end.

Lemma leaf_for_numeric s nm lg n name h t l (b : bool) :
  index_is s nm lg n → storable name → is_flt name = b →
  h = partition_of (parallelism s) name → root_art_array s !! Z.to_nat h = Some t → attr_at s name = None →
  l = mk_attr_leaf true b (Some (b, rbt_create)) None →
  wp (a ← alloc_leaf l;
      '(art', _) ← lift (art_insert oob t name a);
      _ ← st_modify (λ s, set_arts (<[Z.to_nat h := art']> (root_art_array s)) s);
      mret a)
    (λ a s', (∃ nm', index_is s' nm' lg n ∧ nm' !! a = Some (Some name) ∧ size nm' ≤ S (size nm))
       ∧ env s' = env s) s.
Proof.
  intros (own & fps & ops & Hinv & Hfill) Hc <- Hh Ht Hat ->.
  destruct (inv_new_leaf _ _ _ _ _ _ _ name (Z.to_nat h) t Hinv Hc Hat Ht ltac:(by rewrite Hh))
    as (t' & old & Hins & Hinv').
  apply wp_bind. unfold wp at 1, alloc_leaf. apply wp_bind. eapply wp_lift; [exact Hins|].
  apply wp_bind, wp_modify, wp_ret. split; [|done]. eexists. split; [by exists own, fps, ops|].
  split; [by rewrite lookup_insert_eq|apply size_insert_le].
Qed.

Lemma leaf_for_ok s nm lg n attr h t :
  index_is s nm lg n → attr_ok attr →
  h = partition_of (parallelism s) (attr_name attr) → root_art_array s !! Z.to_nat h = Some t →
  wp (leaf_for attr h t)
    (λ a s', (∃ nm' o, index_is s' nm' lg n ∧ nm' !! a = Some o ∧ leaf_owner attr o
       ∧ size nm' ≤ S (size nm)) ∧ env s' = env s) s.
Proof.
  intros His (Hc & _ & _ & Hv) Hh Ht. unfold leaf_for. destruct (His) as (own & fps & ops & Hinv & Hfill).
  assert (art_is t (art_map t)) as Hrep by (split; [by eapply (inv_art _ _ _ _ _ _ _ _ _ _ Hinv)|done]).
  destruct (store_find (find := art_find_op oob) (add := art_add_op oob) t _ _ Hrep (proj1 Hc)) as (t1 & Hf & _).
  unfold art_find_op in Hf. injection Hf as Hf _. rewrite Hf. clear Hf.
  assert (attr_at s (attr_name attr) = art_map t !! attr_name attr) as Hat
    by (unfold attr_at; by rewrite <-Hh, Ht).
  destruct (art_map t !! attr_name attr) as [a|] eqn:Ha.
  - apply wp_ret. split; [|done]. exists nm, (Some (attr_name attr)). split; [done|].
    split; [by apply (inv_name _ _ _ _ _ _ _ _ _ _ Hinv)|]. split; [|lia].
    unfold leaf_owner. destruct (attr_type attr); auto.
  - unfold values_ok in Hv. unfold new_attr_leaf, leaf_owner.
    destruct (attr_type attr), (attribute_value attr); try done; cbn [fst snd];
      try (destruct Hv as [Hb _]; eapply wp_mono;
           [by eapply (leaf_for_numeric s nm lg n (attr_name attr) h t _ _ His)|];
           cbv beta; intros a s' [(nm' & H1 & H2 & H4) H3]; by eauto 9);
      apply wp_bind; unfold wp at 1, alloc_leaf; apply wp_ret; (split; [|done]);
      (eexists; exists None; split; [exists own, fps, ops; split; [apply inv_orphan; [done|]|done]
        |split; [by rewrite lookup_insert_eq|split; [by right|apply size_insert_le]]]); (split; [|done|done]); cbn; try done.
    intros u [= <-]. split; [apply art_ok_init|]. done.
Qed.

(** The number of values of an attribute. *)
Definition num_values attr : nat := Z.to_nat (attribute_value_length attr).

Lemma index_is_mono s nm lg n n' : n ≤ n' → index_is s nm lg n → index_is s nm lg n'.
Proof.
  intros Hn (own & fps & ops & Hinv & Hfill). exists own, fps, ops. split; [|done].
  destruct Hinv as [Hpar Hal Hart Hname Hleaf Hval [Hfps Hfl] [Hops Hol] How Hlog Hcnt Hfr].
  split; try done.
  - intros v o Hv. destruct (Hval v o Hv) as (ll & Hll & ps & fos & H1 & H2 & H3). exists ll.
    split; [done|]. exists ps, fos. split; [done|]. split; [lia|done].
  - split; [by eapply paths_mono|done].
  - split; [by eapply paths_mono|done].
  - lia.
Qed.

Lemma create_in_mem_index_for_attr_ok s nm lg n attr :
  (∀ b, key_size P b) → index_is s nm lg n → attr_ok attr → (Z.of_nat (n + num_values attr) ≤ MAX_LEN)%Z →
  wp (create_in_mem_index_for_attr oob attr)
    (λ _ s', (∃ nm', index_is s' nm' (lg ++ attr_entries attr) (n + num_values attr)
       ∧ size nm' ≤ S (size nm)) ∧ env s' = env s) s.
Proof.
  intros Hsz His Hok Hn. destruct (His) as (own & fps & ops & Hinv & Hfill).
  pose proof (inv_par _ _ _ _ _ _ _ _ _ _ Hinv) as Hpar.
  pose proof (partition_range (parallelism s) (attr_name attr) Hpar) as Hh.
  set (h := partition_of (parallelism s) (attr_name attr)) in *.
  destruct (lookup_lt_is_Some_2 (root_art_array s) (Z.to_nat h)) as [t Ht].
  { rewrite (inv_arts _ _ _ _ _ _ _ _ _ _ Hinv). lia. }
  unfold create_in_mem_index_for_attr. apply wp_bind, wp_get.
  rewrite bool_decide_eq_false_2 by (rewrite u64_id; unfold in_u64; lia). fold h.
  apply wp_bind. eapply wp_lift; [by rewrite Ht|].
  apply wp_bind. eapply wp_mono; [by eapply (leaf_for_ok s nm lg n attr h t)|].
  cbv beta. intros a s' [(nm' & o & His' & Ha & Ho & Hsize) Henv].
  destruct Hok as (_ & Hfp & Hop & Hv). unfold values_ok in Hv. unfold leaf_owner in Ho.
  assert (0 ≤ h < parallelism s')%Z as Hq by (by rewrite (env_par _ _ Henv)).
  unfold attr_entries. fold (num_values attr) in Hv |- *.
  destruct (attr_type attr), (attribute_value attr) as [vals|vals]; try done; try subst o.
  - apply wp_ret. split; [|done]. exists nm'. rewrite app_nil_r. split; [|done].
    eapply index_is_mono; [|done]. lia.
  - apply wp_ret. split; [|done]. exists nm'. rewrite app_nil_r. split; [|done].
    eapply index_is_mono; [|done]. lia.
  - destruct Hv as [Hb HP]. rewrite <-Hb in HP. eapply wp_mono.
    + eapply (indexing_numeric_ok_from is_flt P strings s' nm' lg n a (attr_name attr) h vals _ _ 0 (num_values attr));
        try done; by apply Hsz.
    + cbv beta. rewrite Hb, Henv. intros _ s2 [??]. eauto.
  - destruct Hv as [Hb HP]. rewrite <-Hb in HP. eapply wp_mono.
    + eapply (indexing_numeric_ok_from is_flt P strings s' nm' lg n a (attr_name attr) h vals _ _ 0 (num_values attr));
        try done; by apply Hsz.
    + cbv beta. rewrite Hb, Henv. intros _ s2 [??]. eauto.
  - destruct Hv as (Hb & Hs & Hlen & HP). eapply wp_mono.
    + eapply (indexing_string_ok is_flt P strings oob s' nm' lg n a o h vals _ _ (attribute_value_length attr));
        try done. intros name ->. destruct Ho as [[= ->]|[=]]. done.
    + cbv beta. rewrite Henv, app_nil_r. intros _ s2 [??]. eauto.
Qed.

(** ** indexing_attr, for an anchor without a writable index file *)
Definition no_aof s : Prop := on_disk_file_stream s = None ∨ is_readonly_index_file s = true.

(** The attributes that indexing_attr does index. *)
Definition selected (fields : list (list Z)) attr : bool :=
  match fields with [] => true | _ => existsb (λ f, bool_decide (strcmp (attr_name attr) f = 0%Z)) fields end.

Lemma wp_no_aof s attr (Q : unit → index_anchor → Prop) :
  no_aof s → Q tt s →
  wp (match on_disk_file_stream s with
      | Some stream =>
          if is_readonly_index_file s then mret tt
          else
            stream ← lift (write_aof pointer_bytes attr (file_path s) (obj_path s) stream);
            st_modify (set_stream (Some stream) (is_readonly_index_file s))
      | None => mret tt
      end) Q s.
Proof. intros [-> | ->] HQ; [done|]. by destruct (on_disk_file_stream s). Qed.

Lemma indexing_attr_paths_ok s nm lg n attr :
  (∀ b, key_size P b) → index_is s nm lg n → no_aof s → attr_ok attr →
  (Z.of_nat (n + num_values attr) ≤ MAX_LEN)%Z →
  wp (indexing_attr oob pointer_bytes attr)
    (λ r s', r = 1%Z ∧ no_aof s' ∧ indexed_attr s' = indexed_attr s ∧ parallelism s' = parallelism s
      ∧ (∃ nm', index_is s' nm' (lg ++ if selected (indexed_attr s) attr then attr_entries attr else [])
                 (n + num_values attr) ∧ size nm' ≤ S (size nm))
      ∧ file_path s' = file_path s ∧ obj_path s' = obj_path s) s.
Proof.
  intros Hsz His Haof Hok Hn. unfold indexing_attr.
  apply wp_bind, wp_modify. apply wp_bind, wp_get. cbn [indexed_attr set_counts].
  change (is_specified_field (attr_name attr) _) with (is_specified_field (attr_name attr) s).
  assert (∀ x y z, index_is (set_counts x y z s) nm lg n) as Hcnt.
  { intros x y z. destruct His as (own & fps & ops & Hinv & Hfill). exists own, fps, ops. split; [by destruct Hinv|done]. }
  change (match indexed_attr s with [] => true | _ :: _ => is_specified_field (attr_name attr) s end)
    with (selected (indexed_attr s) attr).
  destruct (selected (indexed_attr s) attr).
  2: { apply wp_ret. split; [done|]. split; [done|]. split; [done|]. split; [done|]. split; [|done]. exists nm. rewrite app_nil_r. split; [|lia].
       eapply index_is_mono; [|apply Hcnt]. lia. }
  apply wp_bind, wp_modify. apply wp_bind, wp_get. apply wp_bind.
  eapply wp_no_aof; [exact Haof|]. apply wp_bind. eapply wp_mono.
  - eapply (create_in_mem_index_for_attr_ok _ nm lg n attr Hsz); [apply Hcnt|done|done].
  - cbv beta. intros _ s' [(nm' & His' & Hsize) Henv]. apply wp_bind, wp_modify, wp_ret.
    injection Henv as H0 H4 H5 H1 H2 H3 _ _ _. split; [done|]. split; [|split; [done|split; [done|split; [|done]]]].
    + unfold no_aof in *. cbn. by rewrite H2, H3.
    + exists nm'. split; [|done]. destruct His' as (own & fps & ops & Hinv & Hfill). exists own, fps, ops. split; [by destruct Hinv|done].
Qed.

Lemma indexing_attr_ok s nm lg n attr :
  (∀ b, key_size P b) → index_is s nm lg n → no_aof s → attr_ok attr →
  (Z.of_nat (n + num_values attr) ≤ MAX_LEN)%Z →
  wp (indexing_attr oob pointer_bytes attr)
    (λ r s', r = 1%Z ∧ no_aof s' ∧ indexed_attr s' = indexed_attr s ∧ parallelism s' = parallelism s
      ∧ ∃ nm', index_is s' nm' (lg ++ if selected (indexed_attr s) attr then attr_entries attr else [])
                 (n + num_values attr) ∧ size nm' ≤ S (size nm)) s.
Proof.
  intros Hsz His Haof Hok Hn. eapply wp_mono; [by apply indexing_attr_paths_ok|].
  cbv beta. intros r s' (?&?&?&?&?&_). done.
Qed.
End Run.

(** ** Queries *)
Definition rst_of (fo : list Z * list Z) : search_rst_entry := mk_entry_rst fo.1 fo.2.
(** The result for a list of paths. *)
Definition result_of (fos : list (list Z * list Z)) : power_search_rst :=
  mk_rst (Z.of_nat (length fos)) ((Some ∘ rst_of) <$> fos).

Lemma paths_pick lls tagss n q tags i t :
  paths_are lls tagss n → tagss !! q = Some tags → tags !! i = Some t →
  ∃ ll ll' tv, lls !! q = Some ll ∧ list_pick_tagged_value (Z.of_nat i) ll = Ret (Some tv, ll')
    ∧ tag tv = t ∧ paths_are (<[q := ll']> lls) tagss n.
Proof.
  intros Hp Hq Hi. destruct (Forall2_lookup_r _ _ _ _ _ Hp Hq) as (ll & Hll & Hpl & Hle).
  destruct (path_list_pick ll tags i t Hpl Hi) as (ll' & Hr & Hpl').
  exists ll, ll', (path_entry i t). split; [done|]. split; [done|]. split.
  - apply tag_path_entry. destruct Hpl as [_ Hc]. by eapply Forall_lookup_1.
  - rewrite <-(list_insert_id tagss q tags Hq). by apply Forall2_insert.
Qed.

Section Query.
Context (is_flt : list Z → bool) (P : bool → list Z → Prop) (strings : bool).
Context `{HKO : ∀ b, KeyOrder (P b) (rbt_compare_keys (rbt_cmp b))}.
Context (oob : list Z → nat → Z).
Implicit Types (s : index_anchor) (nm : gmap loc (option (list Z))) (own : gmap loc (option (list Z * list Z))).
Notation index_inv := (index_inv is_flt P strings).
Notation index_is := (index_is is_flt P strings).

(** The state of the leaves is not touched by reading paths. *)
Definition same_leaves s s' : Prop :=
  attr_leaves s' = attr_leaves s ∧ value_leaves s' = value_leaves s ∧ env s' = env s.

Lemma pair_paths_ok s own nm fps ops lg n p fo :
  index_inv s own nm fps ops lg n → resolves fps ops p fo →
  ∃ s', pair_paths p s = Ret (fo, s') ∧ index_inv s' own nm fps ops lg n ∧ same_leaves s s'.
Proof.
  intros Hinv (q & i & j & ft & ot & -> & Hq & Hq' & Hi & Hj).
  destruct (Hinv) as [Hpar Hal Hart Hname Hleaf Hval [Hfps Hfl] [Hops Hol] How Hlog Hcnt Hfr].
  destruct (paths_pick _ _ _ _ _ _ _ Hfps Hq Hi) as (fl & fl' & ftv & Hf1 & Hf2 & Hf3 & Hf4).
  destruct (paths_pick _ _ _ _ _ _ _ Hops Hq' Hj) as (ol & ol' & otv & Ho1 & Ho2 & Ho3 & Ho4).
  assert (wp (pair_paths (mk_pair (Z.of_nat q) (Z.of_nat i) (Z.of_nat j)))
    (λ r s', r = fo ∧ index_inv s' own nm fps ops lg n ∧ same_leaves s s') s) as Hwp.
  { unfold pair_paths. cbn [parallel_index_pos file_list_pos obj_list_pos]. rewrite Nat2Z.id.
    apply wp_bind. eapply wp_on_array; [done|exact Hf2|]. apply wp_bind. eapply wp_lift; [done|].
    apply wp_bind. eapply wp_on_array; [done|exact Ho2|]. apply wp_bind. eapply wp_lift; [done|].
    apply wp_ret. split; [rewrite Hf3, Ho3; by destruct fo|]. split; [|done]. by split. }
  apply wp_run in Hwp as (r & s' & Hr & -> & H1 & H2). eauto.
Qed.

Lemma collect_step s s1 p fo rst i :
  pair_paths p s = Ret (fo, s1) → i < length (rst_arr rst) →
  collect_result_from_list (Ret (rst, s)) (Some p) (Z.of_nat i)
  = (Ret (mk_rst (rst_size rst) (<[i := Some (rst_of fo)]> (rst_arr rst)), s1), 1%Z).
Proof.
  intros Hr Hi. unfold collect_result_from_list, mbind, outcome_bind. simpl. rewrite Hr, Nat2Z.id.
  destruct fo as [f o]. by rewrite bool_decide_eq_true_2.
Qed.

(** The callback over the pairs of a value leaf fills the result array. *)
Lemma collect_ok s own nm fps ops lg n ps fos (acc : list (option search_rst_entry)) sz :
  index_inv s own nm fps ops lg n → Forall2 (resolves fps ops) ps fos →
  ∃ s' i, foreach_spec collect_result_from_list (Some <$> ps) (Z.of_nat (length acc))
      (Ret (mk_rst sz (acc ++ replicate (length ps) None), s))
    = (Ret (mk_rst sz (acc ++ ((Some ∘ rst_of) <$> fos)), s'), i)
    ∧ index_inv s' own nm fps ops lg n ∧ same_leaves s s'.
Proof.
  intros Hinv Hres. revert s acc Hinv. induction Hres as [|p fo ps fos Hp Hres IH]; intros s acc Hinv.
  { eexists s, _. split; [simpl; done|]. done. }
  destruct (pair_paths_ok _ _ _ _ _ _ _ _ _ Hinv Hp) as (s1 & Hr & Hinv1 & Hsame).
  destruct (IH s1 (acc ++ [Some (rst_of fo)]) Hinv1) as (s2 & i & Hi & Hinv2 & Hsame2).
  exists s2, i. split; [|split; [done|]].
  - cbn [fmap list_fmap foreach_spec length replicate].
    erewrite collect_step by (done || (simpl; rewrite length_app; simpl; lia)).
    rewrite bool_decide_eq_false_2 by done. cbn [rst_arr rst_size].
    rewrite insert_app_r_alt, Nat.sub_diag by lia. cbn [insert list_insert].
    rewrite <-!app_assoc in Hi. rewrite length_app in Hi. simpl in Hi.
    replace (Z.of_nat (length acc) + 1)%Z with (Z.of_nat (length acc + 1)) by lia. exact Hi.
  - destruct Hsame as (?&?&?), Hsame2 as (?&?&?). split; [congruence|]. split; congruence.
Qed.

Lemma inv_value_leaf s own nm fps ops lg n v o ll :
  index_inv s own nm fps ops lg n → own !! v = Some o → value_inv fps ops lg n o ll →
  index_inv (set_leaves (attr_leaves s) (<[v := ll]> (value_leaves s)) (next_loc s) s) own nm fps ops lg n.
Proof.
  intros Hinv Hv Hvi. destruct (Hinv) as [Hpar Hal Hart Hname Hleaf Hval Hfps Hops How Hlog Hcnt Hfr].
  split; try done. cbn. intros w o' Hw. destruct (decide (v = w)) as [<-|Hne].
  - rewrite lookup_insert_eq. simplify_eq. eauto.
  - rewrite lookup_insert_ne by done. by apply Hval.
Qed.

Lemma collect_keeps : keeps collect_result_from_list.
Proof. by intros d v i. Qed.

(** The end of a query: the number of pairs and their paths. *)
Lemma read_value_leaf_ok s own nm fps ops lg n v name k :
  index_inv s own nm fps ops lg n → own !! v = Some (Some (name, k)) →
  wp (size ← on_value_leaf v list_count;
      foreach_pair v (mk_rst size (replicate (Z.to_nat size) None)))
    (λ r s', r = result_of (answers lg name k) ∧ index_inv s' own nm fps ops lg n ∧ env s' = env s) s.
Proof.
  intros Hinv Hv. destruct (inv_value _ _ _ _ _ _ _ _ _ _ Hinv v _ Hv) as (ll & Hll & Hvi).
  pose proof (inv_value_leaf _ _ _ _ _ _ _ _ _ _ Hinv Hv Hvi) as Hinv1.
  destruct Hvi as (ps & fos & Hl & Hn & Hres & Ha). specialize (Ha name k eq_refl) as Hfos.
  destruct (list_is_length _ _ Hl) as [Hlen _]. rewrite length_fmap in Hlen.
  pose proof (Forall2_length _ _ _ Hres) as Hlps.
  apply wp_bind. eapply wp_on_value; [done|done|]. rewrite Hlen, Nat2Z.id.
  set (s1 := set_leaves _ _ _ _) in *.
  destruct (collect_ok s1 _ _ _ _ _ _ ps fos [] (Z.of_nat (length ps)) Hinv1 Hres)
    as (s2 & i & Hi & Hinv2 & (_ & Hvl & Henv)). simpl in Hi.
  destruct (list_foreach_value_is collect_result_from_list ll _
    (Ret (mk_rst (Z.of_nat (length ps)) (replicate (length ps) None), s1)) Hl collect_keeps)
    as (ll' & Hrun & Hl'). change (Z.of_nat 0) with 0%Z in Hi. rewrite Hi in Hrun.
  unfold wp, foreach_pair. cbn [value_leaves set_leaves s1]. rewrite lookup_insert_eq. cbn [deref mbind outcome_bind].
  fold s1. rewrite Hrun. cbn [mbind outcome_bind]. split.
  - unfold result_of. by rewrite <-Hfos, Hlps.
  - split; [|exact Henv]. eapply inv_value_leaf; [done|done|]. exists ps, fos. split; [done|]. split; [done|]. split; [done|].
    intros ? ? [= <- <-]. done.
Qed.

(** ** Finding the value leaf *)
Lemma attribute_value_search_ok s own nm fps ops lg n name k tv :
  index_inv s own nm fps ops lg n → cstr name → P (is_flt name) k →
  tv = MIQS_ATV_INTEGER ∨ tv = MIQS_ATV_FLOAT →
  wp (attribute_value_search oob name (QNum k) tv)
    (λ r s', (index_inv s' own nm fps ops lg n ∧ env s' = env s)
      ∧ match r with Some v => own !! v = Some (Some (name, k)) | None => answers lg name k = [] end) s.
Proof.
  intros Hinv Hc Hk Htv. destruct (Hinv) as [Hpar Hal Hart Hname Hleaf Hval Hfps Hops How Hlog Hcnt Hfr].
  pose proof (partition_range (parallelism s) name Hpar) as Hh.
  unfold attribute_value_search. apply wp_bind, wp_get.
  rewrite bool_decide_eq_false_2 by (rewrite u64_id; unfold in_u64; lia).
  destruct (lookup_lt_is_Some_2 (root_art_array s) (Z.to_nat (partition_of (parallelism s) name))) as [t Ht]; [lia|].
  apply wp_bind. eapply wp_lift; [by rewrite Ht|].
  assert (art_is t (art_map t)) as Hrep by (split; [by eapply Hart|done]).
  destruct (store_find (find := art_find_op oob) (add := art_add_op oob) t _ _ Hrep Hc) as (t1 & Hf & _).
  unfold art_find_op in Hf. injection Hf as Hf _. rewrite Hf. clear Hf.
  assert (attr_at s name = art_map t !! name) as Hat by (unfold attr_at; by rewrite Ht).
  destruct (art_map t !! name) as [a|] eqn:Ha.
  2: { apply wp_ret. split; [done|]. apply Hlog. intros a Ha'. apply Hname in Ha'. congruence. }
  apply Hname in Hat as Hna. destruct (Hleaf a _ Hna) as (l & Hl & [_ _ Hrbt]).
  destruct (Hrbt name eq_refl) as (Hfl & r & m & Hr & His & Hm & Hnone).
  apply wp_bind. eapply wp_ld_leaf; [done|]. rewrite Hr.
  destruct (store_find (rep := rbt_is (rbt_cmp (is_flt name)) (P (is_flt name)))
    (add := rbt_add (rbt_cmp (is_flt name)) true) r m k His Hk) as (r' & Hfind & His').
  pose proof (inv_rbt is_flt P strings s own nm fps ops lg n a name l r' m Hinv Hna Hl Hfl His' Hm Hnone) as Hinv'.
  assert (wp ('(rbt_found, entry) ← on_rbt a (λ dbl, rbt_find (rbt_cmp dbl) k);
              if bool_decide (rbt_found ≠ 0%Z) then mret None else mret entry)
    (λ r s', (index_inv s' own nm fps ops lg n ∧ env s' = env s)
      ∧ match r with Some v => own !! v = Some (Some (name, k)) | None => answers lg name k = [] end) s) as Hwp.
  { apply wp_bind. eapply wp_on_rbt; [done|done|exact Hfind|].
    unfold rbt_answer. destruct (m !! k) as [v|] eqn:Hmk; apply wp_ret; (split; [done|]);
      [by apply Hm|by apply Hnone]. }
  by destruct Htv as [-> | ->].
Qed.

Lemma exact_metadata_search_ok s nm lg n name k tv :
  index_is s nm lg n → cstr name → P (is_flt name) k → tv = MIQS_ATV_INTEGER ∨ tv = MIQS_ATV_FLOAT →
  match answers lg name k with
  | [] => exact_metadata_search oob name (QNum k) tv s = Fault
  | fos => ∃ s', exact_metadata_search oob name (QNum k) tv s = Ret (result_of fos, s')
             ∧ index_is s' nm lg n ∧ env s' = env s
  end.
Proof.
  intros (own & fps & ops & Hinv & Hfill) Hc Hk Htv.
  pose proof (attribute_value_search_ok _ _ _ _ _ _ _ name k tv Hinv Hc Hk Htv) as Hs.
  apply wp_run in Hs as (r & s1 & Hrun & [Hinv1 Henv1] & Hr).
  unfold exact_metadata_search, mbind, st_bind. rewrite Hrun. destruct r as [v|]; simpl.
  - pose proof (read_value_leaf_ok _ _ _ _ _ _ _ _ _ _ Hinv1 Hr) as Hwp.
    destruct (Hfill v name k Hr) as [[=]|Hne].
    apply wp_run in Hwp as (rst & s2 & Hrun2 & -> & Hinv2 & Henv2). unfold mbind, st_bind in Hrun2.
    destruct (answers lg name k) as [|fo fos]; [done|]. exists s2. split; [exact Hrun2|].
    split; [by exists own, fps, ops|]. by rewrite Henv2.
  - by rewrite Hr.
Qed.
End Query.
