(* ===== verification/IndexTheorems.v ===== *)
(** * Properties of indexing and querying (in_mem_index.c, miqs_querying.c) *)
From S2P Require Import Prelude Heap Art ArtMap RbTree RbTreeAdd RbTreeMap Comparators LinkedList LinkedListRep LinkedListSpec BinFile Metadata OnDiskIndex InMemIndex IndexInv IndexAdd IndexRun.

(** ** The index as a log *)
Notation log := (list (list Z * list Z * (list Z * list Z))) (only parsing).

(** What a client of the index does. *)
Inductive event :=
| Index (attr : miqs_meta_attribute)
| Query (name k : list Z) (tv : miqs_attr_value_type).

Section Events.
Context (oob : list Z → nat → Z) (pointer_bytes : nat → list Z).

Fixpoint run_events (es : list event) : idx (list power_search_rst) :=
  match es with
  | [] => mret []
  | Index attr :: es => _ ← indexing_attr oob pointer_bytes attr; run_events es
  | Query name k tv :: es =>
      r ← exact_metadata_search oob name (QNum k) tv; rs ← run_events es; mret (r :: rs)
  end.
End Events.

(** The abstract index: a log that attributes extend and queries filter. *)
Fixpoint spec_events (es : list event) (lg : log) : list power_search_rst :=
  match es with
  | [] => []
  | Index attr :: es => spec_events es (lg ++ attr_entries attr)
  | Query name k tv :: es => result_of (answers lg name k) :: spec_events es lg
  end.

Section Theorems.
Context (is_flt : list Z → bool) (P : bool → list Z → Prop) (strings : bool).
Context `{HKO : ∀ b, KeyOrder (P b) (rbt_compare_keys (rbt_cmp b))}.
Context (oob : list Z → nat → Z) (pointer_bytes : nat → list Z).
Implicit Types (s : index_anchor).

(** The events the index is specified for: attributes with names and paths that
    are C strings and with numeric values in [P], of the kind [is_flt] gives their
    name, at most [MAX_LEN] values in all; and numeric queries for keys in [P]
    that have an answer.  [query_missing_faults] shows what other queries do,
    [cmp_keys_double_conflates] what happens to doubles that are closer. *)
Fixpoint events_ok (es : list event) (lg : log) (n : nat) : Prop :=
  match es with
  | [] => True
  | Index attr :: es =>
      attr_ok is_flt P strings attr ∧ (Z.of_nat (n + num_values attr) ≤ MAX_LEN)%Z
      ∧ events_ok es (lg ++ attr_entries attr) (n + num_values attr)
  | Query name k tv :: es =>
      cstr name ∧ P (is_flt name) k ∧ (tv = MIQS_ATV_INTEGER ∨ tv = MIQS_ATV_FLOAT)
      ∧ answers lg name k ≠ [] ∧ events_ok es lg n
  end.

Lemma run_events_ok es s nm lg n :
  (∀ b, key_size P b) → index_is is_flt P strings s nm lg n → no_aof s → indexed_attr s = [] → events_ok es lg n →
  ∃ s', run_events oob pointer_bytes es s = Ret (spec_events es lg, s').
Proof.
  intros Hsz. revert s nm lg n. induction es as [|[attr|name k tv] es IH]; intros s nm lg n His Haof Hsel Hok.
  - by exists s.
  - destruct Hok as (Ha & Hn & Hok). cbn [run_events spec_events].
    destruct (wp_run _ _ _ (indexing_attr_ok is_flt P strings oob pointer_bytes s nm lg n attr Hsz His Haof Ha Hn))
      as (r & s1 & Hr & -> & Haof1 & Hsel1 & Hpar1 & nm1 & His1 & Hsz1).
    rewrite Hsel in Hsel1, His1. cbn [selected] in His1. unfold mbind, st_bind. rewrite Hr.
    by apply (IH s1 nm1 _ _ His1).
  - destruct Hok as (Hc & HP & Htv & Hne & Hok). cbn [run_events spec_events].
    pose proof (exact_metadata_search_ok is_flt P strings oob s nm lg n name k tv His Hc HP Htv) as Hs.
    destruct (answers lg name k) as [|fo fos] eqn:Hans; [done|]. destruct Hs as (s1 & Hr & His1 & Henv).
    unfold mbind, st_bind. rewrite Hr. injection Henv as _ _ _ H1 H2 H3 _ _ _.
    destruct (IH s1 nm lg n His1) as (s2 & Hr2); [unfold no_aof; by rewrite H2, H3|by rewrite H1|done|].
    rewrite Hr2. by exists s2.
Qed.


(** Indexing a list of attributes. *)
Definition index_all (attrs : list miqs_meta_attribute) : idx (list power_search_rst) :=
  run_events oob pointer_bytes (Index <$> attrs).

Lemma index_all_ok attrs s nm lg n :
  (∀ b, key_size P b) → index_is is_flt P strings s nm lg n → no_aof s → indexed_attr s = [] →
  Forall (attr_ok is_flt P strings) attrs → (Z.of_nat (n + sum_list (num_values <$> attrs)) ≤ MAX_LEN)%Z →
  ∃ s' nm', index_all attrs s = Ret ([], s')
    ∧ index_is is_flt P strings s' nm' (lg ++ (attrs ≫= attr_entries)) (n + sum_list (num_values <$> attrs))
    ∧ size nm' ≤ size nm + length attrs ∧ parallelism s' = parallelism s.
Proof.
  intros Hsz. unfold index_all. revert s nm lg n.
  induction attrs as [|attr attrs IH]; intros s nm lg n His Haof Hsel Hok Hn.
  { exists s, nm. simpl. rewrite app_nil_r, !Nat.add_0_r. done. }
  inversion Hok as [|? ? Ha Hoks]; subst. cbn [fmap list_fmap sum_list_with id] in Hn |- *.
  destruct (wp_run _ _ _ (indexing_attr_ok is_flt P strings oob pointer_bytes s nm lg n attr Hsz His Haof Ha ltac:(lia)))
    as (r & s1 & Hr & -> & Haof1 & Hsel1 & Hpar1 & nm1 & His1 & Hsz1).
  rewrite Hsel in Hsel1, His1. cbn [selected] in His1. cbn [fmap list_fmap run_events]. unfold mbind, st_bind. rewrite Hr.
  destruct (IH s1 nm1 _ _ His1 Haof1 Hsel1 Hoks ltac:(lia)) as (s2 & nm2 & Hr2 & His2 & Hsz2 & Hpar2).
  exists s2, nm2. split; [exact Hr2|]. rewrite bind_cons, app_assoc, Nat.add_assoc. split; [done|].
  split; [simpl; lia|congruence].
Qed.

End Theorems.

(** ** String attributes *)

(** Code that adds no attribute name. *)
Definition keeps_names {A} (m : idx A) : Prop :=
  ∀ s a s', m s = Ret (a, s') → root_art_array s' = root_art_array s ∧ parallelism s' = parallelism s.

Section Keeps.
Lemma kn_ret {A} (a : A) : keeps_names (mret a).
Proof. by intros s b s' [= <- <-]. Qed.
Lemma kn_fault {A} : keeps_names (st_fault (A := A)).
Proof. by intros s b s'. Qed.
Lemma kn_bind {A B} (m : idx A) (k : A → idx B) :
  keeps_names m → (∀ a, keeps_names (k a)) → keeps_names (m ≫= k).
Proof.
  intros Hm Hk s b s'. unfold mbind, st_bind. destruct (m s) as [[a s1]|] eqn:Hms; [|done].
  intros Hks. destruct (Hm _ _ _ Hms), (Hk a _ _ _ Hks). split; congruence.
Qed.
Lemma kn_get : keeps_names st_get.
Proof. by intros s b s' [= <- <-]. Qed.
Lemma kn_modify f : (∀ s, root_art_array (f s) = root_art_array s ∧ parallelism (f s) = parallelism s) →
  keeps_names (st_modify f).
Proof. intros Hf s b s' [= <- <-]. apply Hf. Qed.
Lemma kn_lift {A} (o : outcome A) : keeps_names (lift o).
Proof. intros s b s'. unfold lift. destruct o; [|done]. by intros [= <- <-]. Qed.
Lemma kn_ld a : keeps_names (ld_leaf a).
Proof. intros s b s'. unfold ld_leaf. destruct (_ !! _); [|done]. by intros [= <- <-]. Qed.
Lemma kn_upd a f : keeps_names (upd_leaf a f).
Proof. intros s b s'. unfold upd_leaf. destruct (_ !! _); [|done]. by intros [= <- <-]. Qed.
Lemma kn_alloc x : keeps_names (alloc_leaf x).
Proof. by intros s b s' [= <- <-]. Qed.
Lemma kn_alloc_value : keeps_names alloc_value_leaf.
Proof. by intros s b s' [= <- <-]. Qed.
Lemma kn_files {A} i (m : st _ A) : keeps_names (on_file_list i m).
Proof.
  intros s b s'. unfold on_file_list, on_array. destruct (_ !! _) as [x|]; [|done].
  intros ([a x'] & _ & [= <- <-])%bind_Ret. done.
Qed.
Lemma kn_objects {A} i (m : st _ A) : keeps_names (on_object_list i m).
Proof.
  intros s b s'. unfold on_object_list, on_array. destruct (_ !! _) as [x|]; [|done].
  intros ([a x'] & _ & [= <- <-])%bind_Ret. done.
Qed.
Lemma kn_value {A} v (m : st _ A) : keeps_names (on_value_leaf v m).
Proof.
  intros s b s'. unfold on_value_leaf. destruct (_ !! _) as [x|]; [|done].
  intros ([a x'] & _ & [= <- <-])%bind_Ret. done.
Qed.
Lemma kn_for_each body i n : (∀ i, keeps_names (body i)) → keeps_names (for_each body i n).
Proof.
  intros Hb. revert i. induction n as [|n IH]; intros i; [apply kn_ret|]. apply kn_bind; [done|]. intros. apply IH.
Qed.
End Keeps.
Create HintDb keeps_names.
#[export] Hint Resolve kn_ret kn_fault kn_get kn_lift kn_ld kn_upd kn_alloc kn_alloc_value kn_files kn_objects
  kn_value kn_for_each : keeps_names.

(** Sequencing and case analysis, then the lemmas above. *)
Ltac keeps := repeat (intros; match goal with
  | |- keeps_names (_ ≫= _) => apply kn_bind
  | |- keeps_names (for_each _ _ _) => apply kn_for_each
  | |- keeps_names (match ?x with _ => _ end) => destruct x
  | |- keeps_names (let '_ := ?x in _) => destruct x
  | |- keeps_names (st_modify _) => apply kn_modify; done
  | |- _ => solve [eauto with keeps_names]
  end).

Section Strings.
Context (oob : list Z → nat → Z) (pointer_bytes : nat → list Z).

Lemma kn_add_pair pos fp op v : keeps_names (add_pair pos fp op v).
Proof. unfold add_pair. keeps. Qed.
Lemma kn_indexing_string pos vals len fp op leaf : keeps_names (indexing_string oob pos vals len fp op leaf).
Proof.
  unfold indexing_string. keeps. unfold index_string_value. keeps; apply kn_add_pair.
Qed.

(** The name is in no attribute leaf of its partition. *)
Definition unknown_name (s : index_anchor) (name : list Z) : Prop :=
  ∀ art, root_art_array s !! Z.to_nat (partition_of (parallelism s) name) = Some art →
    art_search oob art name = None.

Lemma create_string_keeps attr s a s' :
  attr_type attr = MIQS_AT_STRING → unknown_name s (attr_name attr) →
  create_in_mem_index_for_attr oob attr s = Ret (a, s') →
  root_art_array s' = root_art_array s ∧ parallelism s' = parallelism s.
Proof.
  intros Ht Hu. unfold create_in_mem_index_for_attr. unfold mbind at 1, st_bind at 1. cbn [st_get].
  case_bool_decide; [done|]. unfold mbind at 1, st_bind at 1.
  destruct (root_art_array s !! _) as [art|] eqn:Hart; [|done]. cbn [deref lift mbind outcome_bind].
  rewrite (Hu art Hart), Ht. cbn [new_attr_leaf].
  apply kn_bind; [keeps|]. intros l. destruct (attribute_value attr); [apply kn_fault|].
  apply kn_indexing_string.
Qed.

Lemma indexing_attr_string_keeps attr s a s' :
  attr_type attr = MIQS_AT_STRING → unknown_name s (attr_name attr) →
  indexing_attr oob pointer_bytes attr s = Ret (a, s') →
  root_art_array s' = root_art_array s ∧ parallelism s' = parallelism s.
Proof.
  intros Ht Hu. unfold indexing_attr. unfold mbind at 1, st_bind at 1. cbn [st_modify].
  unfold mbind at 1, st_bind at 1. cbn [st_get].
  destruct (match indexed_attr _ with [] => _ | _ => _ end); [|by intros [= <- <-]].
  unfold mbind at 1, st_bind at 1. cbn [st_modify]. unfold mbind at 1, st_bind at 1. cbn [st_get].
  unfold mbind at 1, st_bind at 1.
  set (m := match on_disk_file_stream _ with Some _ => _ | None => _ end).
  assert (keeps_names m) as Hm by (unfold m; keeps).
  destruct (m _) as [[u s1]|] eqn:Hms; [|done]. apply Hm in Hms as [H1 H2]. cbn in H1, H2.
  unfold mbind at 1, st_bind at 1.
  destruct (create_in_mem_index_for_attr oob attr s1) as [[u2 s2]|] eqn:Hc; [|done].
  apply create_string_keeps in Hc as [H3 H4]; [|done|].
  - intros [= <- <-]. cbn. split; congruence.
  - intros art. rewrite H1, H2. apply Hu.
Qed.

Lemma search_unknown s name v tv :
  unknown_name s name → exact_metadata_search oob name v tv s = Fault.
Proof.
  intros Hu. unfold exact_metadata_search, attribute_value_search, mbind, st_bind. cbn [st_get].
  case_bool_decide; [done|]. destruct (root_art_array s !! _) as [art|] eqn:Hart; [|done].
  cbn [deref lift mbind outcome_bind]. by rewrite (Hu art Hart).
Qed.

(** C30: indexing a string attribute never enters its name into the index (the
    string case falls through to the default case, which clears [into_art]):
    whenever the name is not already known, every query for it, of any type
    and for any value, faults afterwards. *)
Theorem string_attribute_unsearchable attr s a s' v tv :
  attr_type attr = MIQS_AT_STRING → unknown_name s (attr_name attr) →
  indexing_attr oob pointer_bytes attr s = Ret (a, s') →
  exact_metadata_search oob (attr_name attr) v tv s' = Fault.
Proof.
  intros Ht Hu Hr. apply search_unknown. destruct (indexing_attr_string_keeps attr s a s' Ht Hu Hr) as [H1 H2].
  intros art. rewrite H1, H2. apply Hu.
Qed.
End Strings.

(** [insert_tagged_value] registers a path once: it returns the position
    of the path if it is in the list and appends it, at the position it
    returns, otherwise; positions of other paths do not change. *)
Theorem insert_tagged_value_interns ll tags t :
  path_list ll tags → storable t → (Z.of_nat (length tags) < MAX_LEN)%Z →
  ∃ ll' i tags', insert_tagged_value t ll = Ret (Z.of_nat i, ll') ∧ path_list ll' tags'
    ∧ tags' !! i = Some t ∧ tags' = (if bool_decide (t ∈ tags) then tags else tags ++ [t]).
Proof.
  intros Hl Ht Hn. destruct (insert_tagged_value_intern ll tags t Hl Ht Hn) as (ll' & Hr & Hl').
  destruct (intern_spec tags t) as (Hi & _ & _).
  exists ll', (intern tags t).1, (intern tags t).2. split; [done|]. split; [done|]. split; [done|].
  unfold intern. destruct (list_find _ tags) as [[i x]|] eqn:Hf; simpl.
  - apply list_find_Some in Hf as (Hx & -> & _). by rewrite bool_decide_eq_true_2 by (by eapply list_elem_of_lookup_2).
  - rewrite bool_decide_eq_false_2; [done|]. intros Hin. apply list_find_None in Hf.
    rewrite Forall_forall in Hf. by eapply Hf.
Qed.

(** ** The append-only file *)
Section Aof.
Context (pointer_bytes : nat → list Z).

(** Reading records one after the other. *)
Fixpoint reads (irs : list index_record) (stream rest : list Z) : Prop :=
  match irs with
  | [] => stream = rest
  | ir :: irs => ∃ s, read_index_record stream = (Some ir, s) ∧ reads irs s rest
  end.

Lemma reads_records irs rest : Forall record_ok irs → reads irs (mjoin (record_bytes <$> irs) ++ rest) rest.
Proof.
  induction 1 as [|ir irs Hir Hs IH]; [done|]. simpl.
  exists (mjoin (record_bytes <$> irs) ++ rest). split; [|done]. rewrite <-app_assoc.
  by apply read_record_bytes.
Qed.

(** The records of the values [ks] of an attribute. *)
Definition aof_records (attr : miqs_meta_attribute) (fp op : list Z) (ks : list (list Z)) : list index_record :=
  (λ k, create_index_record (attr_type attr) (Some (attr_name attr)) (Some k) (Some fp) (Some op)) <$> ks.

Lemma aof_records_ok attr fp op ks :
  storable (attr_name attr) → storable fp → storable op →
  Forall (λ k, value_bytes (attr_type attr) (Some k)) ks → Forall record_ok (aof_records attr fp op ks).
Proof.
  intros Hn Hf Ho Hk. unfold aof_records. rewrite Forall_fmap. eapply Forall_impl; [exact Hk|].
  intros k Hv. split; simpl; eauto.
Qed.

Lemma write_aof_from_ok attr fp op i ks stream :
  storable (attr_name attr) → storable fp → storable op →
  Forall (λ k, value_bytes (attr_type attr) (Some k)) ks →
  (∀ j k, ks !! j = Some k → aof_value pointer_bytes attr (i + j) = Ret (Some k)) →
  write_aof_from pointer_bytes attr (Some fp) (Some op) i (length ks) stream
  = Ret (stream ++ mjoin (record_bytes <$> aof_records attr fp op ks)).
Proof.
  intros Hn Hf Ho Hk. revert i stream. induction Hk as [|k ks Hv Hk IH]; intros i stream Hval.
  { simpl. by rewrite app_nil_r. }
  cbn [length write_aof_from]. pose proof (Hval 0 k eq_refl) as H0. rewrite Nat.add_0_r in H0. rewrite H0.
  cbn [mbind outcome_bind]. rewrite append_record_app by (split; simpl; eauto). cbn [mbind outcome_bind].
  rewrite IH.
  - by rewrite <-app_assoc.
  - intros j k' Hj. rewrite Nat.add_succ_comm. by apply Hval.
Qed.

Lemma value_keys_lookup b vals n j k :
  value_keys b vals 0 n !! j = Some k → k = take (if b then 8 else 4) (drop (j * (if b then 8 else 4)) vals).
Proof.
  unfold value_keys. rewrite list_lookup_fmap. destruct (seq 0 n !! j) as [x|] eqn:Hj; [|done].
  apply lookup_seq in Hj as [-> _]. by intros [= <-].
Qed.

(** [write_aof] of a numeric attribute appends one record per value, which
    reads back as the value with the attribute's name and type and the given
    paths. *)
Theorem write_aof_round_trip attr vals (flt : bool) fp op stream rest :
  attribute_value attr = ANum vals →
  attr_type attr = (if flt then MIQS_AT_FLOAT else MIQS_AT_INTEGER) →
  storable (attr_name attr) → storable fp → storable op →
  Forall (λ k, value_bytes (attr_type attr) (Some k)) (value_keys flt vals 0 (num_values attr)) →
  ∃ bytes, write_aof pointer_bytes attr (Some fp) (Some op) stream = Ret (stream ++ bytes)
    ∧ reads (aof_records attr fp op (value_keys flt vals 0 (num_values attr))) (bytes ++ rest) rest.
Proof.
  intros Ha Ht Hn Hf Ho Hk.
  assert (length (value_keys flt vals 0 (num_values attr)) = num_values attr) as Hlen
    by (unfold value_keys; by rewrite length_fmap, length_seq).
  exists (mjoin (record_bytes <$> aof_records attr fp op (value_keys flt vals 0 (num_values attr)))).
  split; [|by apply reads_records, aof_records_ok].
  assert (write_aof pointer_bytes attr (Some fp) (Some op) stream
    = write_aof_from pointer_bytes attr (Some fp) (Some op) 0 (num_values attr) stream) as ->
    by (unfold write_aof; rewrite Ht; by destruct flt).
  rewrite <-Hlen at 1. apply write_aof_from_ok; try done.
  intros j k Hj. pose proof (value_keys_lookup _ _ _ _ _ Hj) as ->. cbn [Nat.add].
  eapply Forall_lookup_1 in Hk; [|exact Hj]. unfold aof_value, array_key. rewrite Ha, Ht in *.
  destruct flt; destruct Hk as (x & _ & Hx); rewrite Hx.
  - by rewrite bool_decide_eq_true_2 by apply length_le_split.
  - by rewrite bool_decide_eq_true_2 by apply length_int_bytes.
Qed.

(** [write_aof] of a string attribute does not store the strings: the
    record of the i-th value holds the bytes found at the address of the i-th
    string pointer. *)
Theorem write_aof_string_pointers attr strs fp op stream rest :
  attribute_value attr = AStr strs → attr_type attr = MIQS_AT_STRING →
  storable (attr_name attr) → storable fp → storable op →
  (∀ i, storable (pointer_bytes i)) →
  ∃ bytes, write_aof pointer_bytes attr (Some fp) (Some op) stream = Ret (stream ++ bytes)
    ∧ reads (aof_records attr fp op (pointer_bytes <$> seq 0 (num_values attr))) (bytes ++ rest) rest.
Proof.
  intros Ha Ht Hn Hf Ho Hp.
  assert (Forall (λ k, value_bytes (attr_type attr) (Some k)) (pointer_bytes <$> seq 0 (num_values attr))) as Hk.
  { rewrite Forall_fmap, Ht. apply Forall_forall. intros i _. apply Hp. }
  exists (mjoin (record_bytes <$> aof_records attr fp op (pointer_bytes <$> seq 0 (num_values attr)))).
  split; [|by apply reads_records, aof_records_ok]. unfold write_aof. rewrite Ht. fold (num_values attr).
  assert (length (pointer_bytes <$> seq 0 (num_values attr)) = num_values attr) as Hlen
    by (by rewrite length_fmap, length_seq).
  rewrite <-Hlen at 1. apply write_aof_from_ok; try done.
  intros j k. rewrite list_lookup_fmap. destruct (seq _ _ !! j) as [x|] eqn:Hj; [|done].
  apply lookup_seq in Hj as [-> _]. intros [= <-]. unfold aof_value. by rewrite Ht, Ha.
Qed.
End Aof.

(** ** Loading the append-only file *)
Definition no_oob : list Z → nat → Z := λ _ _, 0%Z.
Definition no_ptr : nat → list Z := λ _, [1]%Z.

(** A file with the integer record n = 5 of file "f" and object "o", and a
    stack slot that held an attribute with the paths "x" and "y". *)
Definition file_n5 : list Z :=
  record_bytes (create_index_record MIQS_AT_INTEGER (Some [110]%Z) (Some (int_bytes 5)) (Some [102]%Z) (Some [111]%Z)).
Definition stack_slot : miqs_meta_attribute := mk_attr [] MIQS_AT_UNKNOWN (ANum []) 0 [120]%Z [121]%Z.

(** [load_aof] indexes the records of a file under the paths of an
    uninitialised local structure: the paths of the record only go to the
    anchor, and a query answers with whatever the structure held. *)
Theorem load_aof_uses_uninitialised_paths :
  ∃ s s', load_aof no_oob no_ptr (Some file_n5) [] stack_slot (init_in_mem_index 1) = Ret (1%Z, s)
    ∧ exact_metadata_search no_oob [110]%Z (QNum (int_bytes 5)) MIQS_ATV_INTEGER s
      = Ret (result_of [([120]%Z, [121]%Z)], s').
Proof. eexists _, _. split; [vm_compute; reflexivity|]. vm_compute. reflexivity. Qed.

(** ** Witnesses *)

(** The doubles -1, 0.5 and 3, which are at least 1 apart. *)
Definition some_doubles : list (list Z) :=
  [key_of_double 0xBFF0000000000000; key_of_double 0x3FE0000000000000; key_of_double 0x4008000000000000].
Definition keys_of_kind (b : bool) (k : list Z) : Prop :=
  if b then k ∈ some_doubles else int_key k.
Lemma keys_of_kind_order b : KeyOrder (keys_of_kind b) (rbt_compare_keys (rbt_cmp b)).
Proof.
  destruct b; [|exact int_key_order]. apply orders_KeyOrder.
  apply (bool_decide_unpack _). vm_compute. exact I.
Qed.
Lemma keys_of_kind_size b : key_size keys_of_kind b.
Proof.
  destruct b; intros k Hk; unfold keys_of_kind, int_key in Hk.
  - unfold some_doubles in Hk. rewrite !elem_of_cons, elem_of_nil in Hk. by destruct_or! Hk; subst.
  - destruct Hk as (x & _ & ->). apply length_int_bytes.
Qed.

(** Two integer values and a string under the name "n", and doubles under
    "x". *)
Definition is_x (name : list Z) : bool := bool_decide (name = [120]%Z).
Definition attr_n : miqs_meta_attribute :=
  mk_attr [110]%Z MIQS_AT_INTEGER (ANum (int_bytes 5 ++ int_bytes (-3))) 2 [102; 49]%Z [111; 49]%Z.
Definition attr_n2 : miqs_meta_attribute :=
  mk_attr [110]%Z MIQS_AT_INTEGER (ANum (int_bytes 5)) 1 [102; 50]%Z [111; 49]%Z.
Definition attr_s : miqs_meta_attribute :=
  mk_attr [110]%Z MIQS_AT_STRING (AStr [[97; 98]%Z]) 1 [102; 50]%Z [111; 50]%Z.
Definition attr_x : miqs_meta_attribute :=
  mk_attr [120]%Z MIQS_AT_FLOAT (ANum (mjoin some_doubles)) 3 [102; 51]%Z [111; 51]%Z.

Ltac bytes := repeat constructor; lia.
Lemma storable_bytes s : cstr s → (Z.of_nat (length s) < 2 ^ 64)%Z → storable s.
Proof. intros Hc Hl. split; [done|]. unfold in_u64. lia. Qed.
Ltac storable := apply storable_bytes; [bytes|simpl; lia].
Lemma int_key_of x : small_int x → int_key (int_bytes x).
Proof. by exists x. Qed.

Lemma attr_ok_n strings : attr_ok is_x keys_of_kind strings attr_n.
Proof.
  split; [storable|]. split; [storable|]. split; [storable|]. split; [done|].
  change (value_keys _ _ _ _) with [int_bytes 5; int_bytes (-3)].
  repeat constructor; apply int_key_of; unfold small_int; lia.
Qed.
Lemma attr_ok_n2 strings : attr_ok is_x keys_of_kind strings attr_n2.
Proof.
  split; [storable|]. split; [storable|]. split; [storable|]. split; [done|].
  change (value_keys _ _ _ _) with [int_bytes 5].
  repeat constructor; apply int_key_of; unfold small_int; lia.
Qed.
Lemma attr_ok_s : attr_ok is_x keys_of_kind true attr_s.
Proof.
  split; [storable|]. split; [storable|]. split; [storable|]. split; [done|]. split; [done|]. split; [simpl; lia|]. bytes.
Qed.
Lemma attr_ok_x strings : attr_ok is_x keys_of_kind strings attr_x.
Proof.
  split; [storable|]. split; [storable|]. split; [storable|]. split; [done|].
  change (value_keys _ _ _ _) with some_doubles. by apply Forall_forall.
Qed.

Definition events1 : list event :=
  [Index attr_n; Index attr_s; Index attr_x; Query [110]%Z (int_bytes 5) MIQS_ATV_INTEGER;
   Index attr_n2; Query [120]%Z (key_of_double 0x3FE0000000000000) MIQS_ATV_FLOAT;
   Query [110]%Z (int_bytes 5) MIQS_ATV_INTEGER].



(** The anchor after indexing the string attribute. *)
Definition after_s : index_anchor :=
  match indexing_attr no_oob no_ptr attr_s (init_in_mem_index 1) with
  | Ret (_, s) => s | Fault => init_in_mem_index 1
  end.
Lemma string_attribute_unsearchable_witness :
  exact_metadata_search no_oob [110]%Z (QStr [97; 98]%Z) MIQS_ATV_STRING after_s = Fault.
Proof.
  apply (string_attribute_unsearchable no_oob no_ptr attr_s (init_in_mem_index 1) 1 after_s).
  - reflexivity.
  - by intros art [= <-].
  - vm_compute. reflexivity.
Defined.

Lemma insert_tagged_value_interns_witness :
  ∃ ll' i tags', insert_tagged_value [97]%Z list_create = Ret (Z.of_nat i, ll') ∧ path_list ll' tags'
    ∧ tags' !! i = Some [97]%Z ∧ tags' = (if bool_decide ([97]%Z ∈ []) then [] else [[97]%Z]).
Proof.
  apply (insert_tagged_value_interns list_create [] [97]%Z); [split; [apply list_is_create|constructor]|storable|done].
Defined.

Lemma write_aof_round_trip_witness :
  ∃ bytes, write_aof no_ptr attr_n (Some [102]%Z) (Some [111]%Z) [] = Ret ([] ++ bytes)
    ∧ reads (aof_records attr_n [102]%Z [111]%Z [int_bytes 5; int_bytes (-3)]) (bytes ++ [9]%Z) [9]%Z.
Proof.
  apply (write_aof_round_trip no_ptr attr_n (int_bytes 5 ++ int_bytes (-3)) false [102]%Z [111]%Z [] [9]%Z);
    try reflexivity; try storable.
  change (value_keys _ _ _ _) with [int_bytes 5; int_bytes (-3)].
  repeat constructor; [exists 5%Z|exists (-3)%Z]; (split; [unfold in_i32; lia|reflexivity]).
Defined.

Lemma write_aof_string_pointers_witness :
  ∃ bytes, write_aof no_ptr attr_s (Some [102]%Z) (Some [111]%Z) [] = Ret ([] ++ bytes)
    ∧ reads (aof_records attr_s [102]%Z [111]%Z [[1]%Z]) (bytes ++ [9]%Z) [9]%Z.
Proof.
  apply (write_aof_string_pointers no_ptr attr_s [[97; 98]%Z] [102]%Z [111]%Z [] [9]%Z);
    try reflexivity; try storable.
  intros i. storable.
Defined.
