(* ===== verification/Hdf5.v ===== *)
(** * Extraction of metadata from HDF5 files

    src/metadata/hdf5_meta_extractor.c and miqs_meta_collector.c: a visit of all
    objects of a file and of the attributes of each object, with callbacks for
    both.  The HDF5 library is a parameter: an [h5_object] is what H5Ovisit
    (H5Lvisit) hands to op_func, with what the library answers for the object,
    its attributes in the order of H5Aiterate.  The collected objects and
    attributes are linked by pointers, so they are two heaps; identifiers of
    the library, which are opened and closed again, and memory counters are
    left out. *)
From S2P Require Import Prelude Heap Metadata.

Inductive H5O_type_t := H5O_TYPE_GROUP | H5O_TYPE_DATASET | H5O_TYPE_NAMED_DATATYPE | H5O_TYPE_OTHER.
Inductive H5T_class_t := H5T_INTEGER | H5T_FLOAT | H5T_STRING | H5T_OTHER.
Inductive miqs_object_type := MIQS_OT_UNKNOWN | MIQS_OT_GROUP | MIQS_OT_DATASET.

(** An attribute as the library presents it: H5Tget_class, the points of its
    dataspace, H5Tget_size, H5Tis_variable_str, and what H5Aread stores: bytes,
    or pointers to strings if the type is a variable-length string. *)
Record h5_attribute := mk_h5a {
  h5a_name : list Z;
  h5a_class : H5T_class_t;
  h5a_npoints : Z;
  h5a_size : Z;
  h5a_variable : bool;
  h5a_data : list Z;
  h5a_strings : list (list Z)
}.
Record h5_object := mk_h5o {
  h5o_name : list Z;
  h5o_type : H5O_type_t;
  h5o_attrs : list h5_attribute
}.

Definition get_miqs_type_from_h5 (obj_type : H5O_type_t) : miqs_object_type :=
  match obj_type with
  | H5O_TYPE_GROUP => MIQS_OT_GROUP
  | H5O_TYPE_DATASET => MIQS_OT_DATASET
  | H5O_TYPE_NAMED_DATATYPE => MIQS_OT_UNKNOWN
  | H5O_TYPE_OTHER => MIQS_OT_UNKNOWN
  end.

(** ** Values *)

(** calloc of [n] elements of [size] bytes that H5Aread then fills. *)
Definition read_into_calloc (n size : Z) (data : list Z) : outcome (list Z) :=
  if bool_decide (0 <= n ∧ Z.of_nat (length data) <= n * size)%Z
  then Ret (blit 0 data (replicate (Z.to_nat (n * size)) 0%Z)) else Fault.

Definition read_int_attr (npoints : Z) (a : h5_attribute) : outcome (attr_values * Z) :=
  out ← read_into_calloc npoints 4 (h5a_data a); Ret (ANum out, npoints).

Definition read_float_attr (npoints : Z) (a : h5_attribute) : outcome (attr_values * Z) :=
  out ← read_into_calloc npoints 8 (h5a_data a); Ret (ANum out, npoints).

(** Variable-length strings go through an array of 100 pointers; strings of a
    fixed size are one block with a terminating 0, of which the first string is
    kept. *)
Definition read_string_attr (npoints : Z) (a : h5_attribute) : outcome (attr_values * Z) :=
  if h5a_variable a then
    if bool_decide (Z.of_nat (length (h5a_strings a)) = npoints ∧ npoints <= 100)%Z
    then Ret (AStr (h5a_strings a), npoints) else Fault
  else
    let totsize := u64 (h5a_size a * npoints) in
    if bool_decide (Z.of_nat (length (h5a_data a)) <= totsize)%Z
    then Ret (AStr [cstr_of (blit 0 (h5a_data a) (replicate (Z.to_nat (totsize + 1)) 0%Z))], 1%Z)
    else Fault.

(** The new attribute of attr_info; its paths are null, here empty, until the
    callback sets them.  The number of points is passed as an int. *)
Definition new_attr (a : h5_attribute) : outcome miqs_meta_attribute :=
  let npoints := i32 (h5a_npoints a) in
  let attr t r := '(v, len) ← r; Ret (mk_attr (h5a_name a) t v len [] []) in
  match h5a_class a with
  | H5T_INTEGER => attr MIQS_AT_INTEGER (read_int_attr npoints a)
  | H5T_FLOAT => attr MIQS_AT_FLOAT (read_float_attr npoints a)
  | H5T_STRING => attr MIQS_AT_STRING (read_string_attr npoints a)
  | H5T_OTHER => Ret (mk_attr (h5a_name a) MIQS_AT_UNKNOWN (ANum []) 0 [] [])
  end.

(** ** The lists of the collector *)
Record meta_attr := mk_mattr {
  ma_attr : miqs_meta_attribute;
  ma_next : option loc;
  ma_head : option loc;
  ma_tail : option loc
}.
Record miqs_data_object := mk_mdo {
  obj_name : list Z;
  obj_type : miqs_object_type;
  num_attrs : Z;
  attr_linked_list : option loc;
  mdo_next : option loc;
  mdo_head : option loc;
  mdo_tail : option loc
}.
Definition set_links (next head tail : option loc) (o : miqs_data_object) : miqs_data_object :=
  mk_mdo (obj_name o) (obj_type o) (num_attrs o) (attr_linked_list o) next head tail.
Definition set_attrs (n : Z) (l : option loc) (o : miqs_data_object) : miqs_data_object :=
  mk_mdo (obj_name o) (obj_type o) n l (mdo_next o) (mdo_head o) (mdo_tail o).

Definition init_data_object (name : list Z) (n : Z) (attr_list_head : option loc) : miqs_data_object :=
  mk_mdo name MIQS_OT_UNKNOWN n attr_list_head None None None.

Section Scan.
Context {D : Type}.

(** miqs_metadata_collector_t with the heaps its lists live in. *)
Record collector := mk_coll {
  opdata : D;
  object_linked_list : option loc;
  num_objs : Z;
  total_num_attrs : Z;
  objects : gmap loc miqs_data_object;
  attributes : gmap loc meta_attr;
  fresh : loc
}.

Definition init_metadata_collector (n : Z) (d : D) (obj_list_head : option loc) : collector :=
  mk_coll d obj_list_head n 0 ∅ ∅ 1.

(** The callbacks, null or not; on_attr may change the attribute. *)
Context (on_obj : option (miqs_data_object → st D Z)).
Context (on_attr : option (miqs_meta_attribute → st D (Z * miqs_meta_attribute))).

Definition upd_coll (d : D) (l : option loc) (n t : Z) (s : collector) : collector :=
  mk_coll d l n t (objects s) (attributes s) (fresh s).
Definition set_heaps (o : gmap loc miqs_data_object) (a : gmap loc meta_attr) (f : loc)
    (s : collector) : collector :=
  mk_coll (opdata s) (object_linked_list s) (num_objs s) (total_num_attrs s) o a f.

Definition ld_obj (p : loc) : st collector miqs_data_object :=
  λ s, o ← deref (objects s !! p); Ret (o, s).
Definition ld_attr (p : loc) : st collector meta_attr :=
  λ s, a ← deref (attributes s !! p); Ret (a, s).
Definition put_obj (p : loc) (o : miqs_data_object) : st collector unit :=
  st_modify (λ s, set_heaps (<[p := o]> (objects s)) (attributes s) (fresh s) s).
Definition put_attr (p : loc) (a : meta_attr) : st collector unit :=
  st_modify (λ s, set_heaps (objects s) (<[p := a]> (attributes s)) (fresh s) s).
Definition new_loc : st collector loc :=
  λ s, Ret (fresh s, set_heaps (objects s) (attributes s) (Pos.succ (fresh s)) s).
Definition with_opdata {A} (m : st D A) : st collector A :=
  λ s, '(a, d) ← m (opdata s);
       Ret (a, upd_coll d (object_linked_list s) (num_objs s) (total_num_attrs s) s).

(** The attribute [p] goes into the list of the object [mdo]: the new element
    always becomes the successor of the head. *)
Definition append_attr (mdo p : loc) : st collector unit :=
  o ← ld_obj mdo;
  c ← ld_attr p;
  match attr_linked_list o with
  | None => put_obj mdo (set_attrs (num_attrs o + 1) (Some p) o)
  | Some h =>
      head ← ld_attr h;
      _ ← put_attr h (mk_mattr (ma_attr head) (Some p) (ma_head head) (Some p));
      _ ← put_attr p (mk_mattr (ma_attr c) (ma_next c) (Some h) (ma_tail c));
      put_obj mdo (set_attrs (num_attrs o + 1) (Some h) o)
  end.

Definition attr_info (mdo : loc) (a : h5_attribute) : st collector Z :=
  p ← new_loc;
  attr ← (λ s, x ← new_attr a; Ret (x, s));
  _ ← put_attr p (mk_mattr attr None None None);
  _ ← append_attr mdo p;
  match on_attr with
  | None => mret 0%Z
  | Some f =>
      '(_, attr) ← with_opdata (f attr);
      c ← ld_attr p;
      _ ← put_attr p (mk_mattr attr (ma_next c) (ma_head c) (ma_tail c));
      mret 0%Z
  end.

(** H5Aiterate: until the operator returns something else than 0. *)
Fixpoint H5Aiterate (mdo : loc) (attrs : list h5_attribute) : st collector unit :=
  match attrs with
  | [] => mret tt
  | a :: attrs => r ← attr_info mdo a; if bool_decide (r = 0)%Z then H5Aiterate mdo attrs else mret tt
  end.

(** The object [p] goes to the end of the collector's list. *)
Definition append_obj (p : loc) : st collector unit :=
  s ← st_get;
  head ← match object_linked_list s with
         | None => mret p
         | Some h =>
             head ← ld_obj h;
             _ ← match mdo_tail head with
                 | None => put_obj h (set_links (Some p) (mdo_head head) (Some p) head)
                 | Some t =>
                     tail ← ld_obj t;
                     _ ← put_obj t (set_links (Some p) (mdo_head tail) (mdo_tail tail) tail);
                     head ← ld_obj h;
                     put_obj h (set_links (mdo_next head) (mdo_head head) (Some p) head)
                 end;
             o ← ld_obj p;
             _ ← put_obj p (set_links (mdo_next o) (Some h) (mdo_tail o) o);
             mret h
         end;
  st_modify (λ s, upd_coll (opdata s) (Some head) (num_objs s + 1) (total_num_attrs s) s).

Definition op_func (o : h5_object) : st collector Z :=
  mdo ← new_loc;
  let n := Z.of_nat (length (h5o_attrs o)) in
  _ ← put_obj mdo (mk_mdo (h5o_name o) (get_miqs_type_from_h5 (h5o_type o)) n None None None None);
  _ ← (if bool_decide (n > 0)%Z then
         _ ← st_modify (λ s, upd_coll (opdata s) (object_linked_list s) (num_objs s)
                               (total_num_attrs s + n) s);
         H5Aiterate mdo (h5o_attrs o)
       else mret tt);
  _ ← append_obj mdo;
  match on_obj with
  | None => mret 0%Z
  | Some f => x ← ld_obj mdo; _ ← with_opdata (f x); mret 0%Z
  end.

(** op_func_L asks for the type of the object behind a link and calls
    op_func; [o] is that object. *)
Definition op_func_L (o : h5_object) : st collector Z := op_func o.

(** H5Ovisit and H5Lvisit. *)
Fixpoint visit (op : h5_object → st collector Z) (os : list h5_object) : st collector unit :=
  match os with
  | [] => mret tt
  | o :: os => r ← op o; if bool_decide (r = 0)%Z then visit op os else mret tt
  end.

(** [os] are the objects and [ls] the links of the file; both are empty if
    H5Fopen failed. *)
Definition scan_hdf5 (os ls : list h5_object) (is_visit_link : bool) : st collector Z :=
  _ ← visit op_func os;
  _ ← (if is_visit_link then visit op_func_L ls else mret tt);
  mret 1%Z.

(** de_init_metadata_collector: the objects and attributes that are freed, in
    order; the heaps bound the length of the lists. *)
Fixpoint free_attrs (fuel : nat) (p : option loc) : st collector (list loc) :=
  match p, fuel with
  | None, _ => mret []
  | Some _, O => st_fault
  | Some p, S fuel =>
      a ← ld_attr p;
      _ ← st_modify (λ s, set_heaps (objects s) (delete p (attributes s)) (fresh s) s);
      ps ← free_attrs fuel (ma_next a);
      mret (p :: ps)
  end.
Fixpoint free_objs (fuel : nat) (p : option loc) : st collector (list loc * list loc) :=
  match p, fuel with
  | None, _ => mret ([], [])
  | Some _, O => st_fault
  | Some p, S fuel =>
      o ← ld_obj p;
      s ← st_get;
      aps ← free_attrs (size (attributes s)) (attr_linked_list o);
      _ ← st_modify (λ s, set_heaps (delete p (objects s)) (attributes s) (fresh s) s);
      '(ps, qs) ← free_objs fuel (mdo_next o);
      mret (p :: ps, aps ++ qs)
  end.
Definition de_init_metadata_collector : st collector (list loc * list loc) :=
  s ← st_get; free_objs (size (objects s)) (object_linked_list s).
End Scan.
Arguments collector : clear implicits.
