(* ===== verification/Hdf5Rep.v ===== *)
(** * The lists that a scan builds

    The objects of a collector form a list in the order of the visit; the
    attributes of an object are all allocated, but its list links only the
    first and the last one. *)
From S2P Require Import Prelude Heap Metadata Hdf5.

Section Rep.
Context {D : Type}.
Context (on_obj : option (miqs_data_object → st D Z)).
Context (on_attr : option (miqs_meta_attribute → st D (Z * miqs_meta_attribute))).
(** The object callback looks at the name only. *)
Context (Hname : ∀ f, on_obj = Some f → ∀ o o', obj_name o = obj_name o' → f o = f o').
Notation coll := (collector D).
Implicit Types (s : coll).

(** ** What a scan does to the callbacks' data *)
Definition call_attr (attr : miqs_meta_attribute) : st D miqs_meta_attribute :=
  match on_attr with None => mret attr | Some f => '(_, attr) ← f attr; mret attr end.
Definition call_obj (name : list Z) : st D unit :=
  match on_obj with None => mret tt | Some f => _ ← f (init_data_object name 0 None); mret tt end.

Fixpoint run_attrs (attrs : list h5_attribute) : st D (list miqs_meta_attribute) :=
  match attrs with
  | [] => mret []
  | a :: attrs =>
      attr ← (λ d, x ← new_attr a; Ret (x, d));
      x ← call_attr attr; xs ← run_attrs attrs; mret (x :: xs)
  end.
Fixpoint run_objs (os : list h5_object) : st D (list (list miqs_meta_attribute)) :=
  match os with
  | [] => mret []
  | o :: os =>
      xs ← run_attrs (h5o_attrs o);
      _ ← call_obj (h5o_name o); xss ← run_objs os; mret (xs :: xss)
  end.

Lemma length_run_attrs attrs d xs d' : run_attrs attrs d = Ret (xs, d') → length xs = length attrs.
Proof.
  revert d xs. induction attrs as [|a attrs IH]; intros d xs; [by intros [= <- _]|].
  cbn [run_attrs]. unfold mbind, st_bind, outcome_bind. destruct (new_attr a); [|done]. cbn.
  destruct (call_attr _ d) as [[x d1]|]; [|done].
  destruct (run_attrs attrs d1) as [[ys d2]|] eqn:Hys; [|done]. intros [= <- <-]. simpl.
  by rewrite (IH d1 ys).
Qed.

(** ** The list of attributes of one object *)

(** The successor (and tail) of the [i]-th of the cells [aps]. *)
Definition attr_next (aps : list loc) (i : nat) : option loc :=
  if decide (i = 0 ∧ 1 < length aps) then last aps else None.
Definition attr_cell (aps : list loc) (i : nat) (x : miqs_meta_attribute) : meta_attr :=
  mk_mattr x (attr_next aps i) (if decide (i = 0) then None else head aps) (attr_next aps i).

Definition attr_list (A : gmap loc meta_attr) (aps : list loc) (xs : list miqs_meta_attribute) : Prop :=
  NoDup aps ∧ length aps = length xs ∧
  ∀ i p x, aps !! i = Some p → xs !! i = Some x → A !! p = Some (attr_cell aps i x).

Definition between (lo hi : loc) (p : loc) : Prop := (lo ≤ p ∧ p < hi)%positive.

Lemma attr_list_nil A : attr_list A [] [].
Proof. split; [constructor|]. by split. Qed.

(** The old head, which now points to the new element, and the new element. *)
Definition link_attr (aps : list loc) (p : loc) (x : miqs_meta_attribute) (A : gmap loc meta_attr)
    : gmap loc meta_attr :=
  match aps with
  | [] => <[p := mk_mattr x None None None]> A
  | h :: _ => <[p := mk_mattr x None (Some h) None]>
                (alter (λ c, mk_mattr (ma_attr c) (Some p) (ma_head c) (Some p)) h A)
  end.

Lemma attr_list_snoc A aps xs p x :
  attr_list A aps xs → p ∉ aps → attr_list (link_attr aps p x A) (aps ++ [p]) (xs ++ [x]).
Proof.
  intros (Hnd & Hlen & Hc) Hp. split_and!.
  - apply NoDup_app. split; [done|]. split; [|apply NoDup_singleton].
    intros q Hq ->%list_elem_of_singleton. done.
  - rewrite !length_app. simpl. lia.
  - intros i q y Hq Hy. unfold attr_cell, attr_next. rewrite last_snoc, length_app. simpl.
    apply lookup_app_Some in Hq as [Hq|[Hge Hq]].
    + pose proof (lookup_lt_Some _ _ _ Hq). rewrite lookup_app_l in Hy by lia.
      specialize (Hc i q y Hq Hy). unfold attr_cell, attr_next in Hc.
      assert (q ≠ p) by (intros ->; by apply Hp; eapply list_elem_of_lookup_2).
      destruct aps as [|h aps]; [done|]. simpl. rewrite lookup_insert_ne by done.
      destruct i as [|i]; simpl in Hq |- *.
      * injection Hq as ->. rewrite lookup_alter_eq, Hc. simpl.
        rewrite decide_True by lia. done.
      * assert (q ≠ h) by (intros ->; inversion Hnd as [|?? Hn]; apply Hn; by eapply list_elem_of_lookup_2).
        rewrite lookup_alter_ne by done. rewrite Hc. rewrite !decide_False by lia. done.
    + assert (i = length aps ∧ q = p) as [-> ->].
      { apply list_lookup_singleton_Some in Hq as [? ->]. split; [lia|done]. }
      rewrite lookup_app_r, Hlen, Nat.sub_diag in Hy by lia. injection Hy as ->.
      destruct aps as [|h aps]; simpl; rewrite lookup_insert_eq; repeat case_decide; first [done | lia | naive_solver lia].
Qed.

(** Storing the attribute that the callback changed. *)
Lemma attr_list_last A aps xs p x x' :
  attr_list A (aps ++ [p]) (xs ++ [x]) →
  attr_list (alter (λ c, mk_mattr x' (ma_next c) (ma_head c) (ma_tail c)) p A) (aps ++ [p]) (xs ++ [x']).
Proof.
  intros (Hnd & Hlen & Hc). rewrite !length_app in Hlen. simpl in Hlen. split_and!; [done| |].
  { rewrite !length_app. simpl. lia. }
  intros i q y Hq Hy. destruct (decide (i < length aps)) as [Hi|Hi].
  - rewrite lookup_app_l in Hy by lia. rewrite lookup_alter_ne.
    + apply Hc; [done|]. by rewrite lookup_app_l by lia.
    + intros <-. rewrite lookup_app_l in Hq by lia. apply NoDup_app in Hnd as (_ & Hnd & _).
      eapply Hnd; [by eapply list_elem_of_lookup_2|by apply list_elem_of_singleton].
  - rewrite lookup_app_r in Hq by lia. apply list_lookup_singleton_Some in Hq as [Hi' ->].
    rewrite lookup_app_r in Hy by lia. apply list_lookup_singleton_Some in Hy as [_ ->].
    rewrite lookup_alter_eq, (Hc i q x); [done| |].
    + rewrite lookup_app_r by lia. by replace (i - length aps) with 0 by lia.
    + rewrite lookup_app_r by lia. by replace (i - length xs) with 0 by lia.
Qed.

(** ** Adding an attribute *)
Definition same_coll s s' : Prop :=
  object_linked_list s' = object_linked_list s ∧ num_objs s' = num_objs s ∧
  total_num_attrs s' = total_num_attrs s.

Lemma append_attr_ok s m o aps xs x p :
  objects s !! m = Some o → attr_linked_list o = head aps → attr_list (attributes s) aps xs →
  p ∉ aps → attributes s !! p = Some (mk_mattr x None None None) →
  append_attr m p s = Ret (tt, set_heaps
    (<[m := set_attrs (num_attrs o + 1) (head (aps ++ [p])) o]> (objects s))
    (link_attr aps p x (attributes s)) (fresh s) s).
Proof.
  intros Hm Hl (Hnd & Hlen & Hc) Hp Hx.
  unfold append_attr, ld_obj, ld_attr, put_obj, put_attr, st_modify, mbind, st_bind, outcome_bind.
  rewrite Hm. simpl. rewrite Hx. simpl. rewrite Hl. destruct aps as [|h aps]; simpl.
  - rewrite (insert_id (attributes s)) by done. done.
  - destruct xs as [|y xs]; [done|]. specialize (Hc 0 h y eq_refl eq_refl). rewrite Hc. simpl.
    assert (alter (λ c, mk_mattr (ma_attr c) (Some p) (ma_head c) (Some p)) h (attributes s)
            = <[h := mk_mattr y (Some p) None (Some p)]> (attributes s)) as ->; [|done].
    apply map_eq. intros q. destruct (decide (q = h)) as [->|].
    + by rewrite lookup_insert_eq, lookup_alter_eq, Hc.
    + by rewrite lookup_insert_ne, lookup_alter_ne by done.
Qed.

Lemma link_attr_ne aps p x A q : q ∉ aps → q ≠ p → link_attr aps p x A !! q = A !! q.
Proof.
  intros Hq Hne. destruct aps as [|h aps]; simpl; rewrite lookup_insert_ne by done; [done|].
  rewrite lookup_alter_ne; [done|]. intros <-. apply Hq. left.
Qed.

Lemma link_attr_set aps p x x' A :
  p ∉ aps →
  <[p := mk_mattr x' (ma_next (attr_cell (aps ++ [p]) (length aps) x))
           (ma_head (attr_cell (aps ++ [p]) (length aps) x))
           (ma_tail (attr_cell (aps ++ [p]) (length aps) x))]> (link_attr aps p x A)
  = link_attr aps p x' A.
Proof.
  intros Hp. destruct aps as [|h aps]; simpl; by rewrite insert_insert_eq.
Qed.

Lemma attr_info_ok s m o aps xs a attr x d :
  objects s !! m = Some o → attr_linked_list o = head aps → attr_list (attributes s) aps xs →
  fresh s ∉ aps → new_attr a = Ret attr → call_attr attr (opdata s) = Ret (x, d) →
  ∃ s', attr_info on_attr m a s = Ret (0%Z, s') ∧ same_coll s s' ∧ opdata s' = d ∧
    objects s' = <[m := set_attrs (num_attrs o + 1) (head (aps ++ [fresh s])) o]> (objects s) ∧
    attr_list (attributes s') (aps ++ [fresh s]) (xs ++ [x]) ∧ fresh s' = Pos.succ (fresh s) ∧
    ∀ q, q ∉ aps → q ≠ fresh s → attributes s' !! q = attributes s !! q.
Proof.
  intros Hm Hl Hal Hf Ha Hcall. unfold attr_info.
  set (A1 := <[fresh s := mk_mattr attr None None None]> (attributes s)).
  assert (attr_list A1 aps xs) as Hal1.
  { destruct Hal as (? & ? & Hc). split_and!; [done..|]. intros i q y Hq Hy.
    unfold A1. rewrite lookup_insert_ne; [by apply Hc|]. intros <-. apply Hf.
    by eapply list_elem_of_lookup_2. }
  pose proof (append_attr_ok (set_heaps (objects s) A1 (Pos.succ (fresh s)) s) m o aps xs attr (fresh s)
    Hm Hl Hal1 Hf (lookup_insert_eq _ _ _)) as Happ.
  unfold new_loc, put_attr, st_modify, mbind, st_bind, outcome_bind. rewrite Ha. simpl.
  unfold set_heaps in Happ |- *. simpl in Happ |- *. fold A1. rewrite Happ. simpl. clear Happ.
  unfold call_attr in Hcall. destruct on_attr as [f|]; simpl.
  - unfold with_opdata, mbind, st_bind, outcome_bind in *. simpl.
    destruct (f attr (opdata s)) as [[[r x1] d1]|]; [|done]. injection Hcall as -> ->.
    pose proof (attr_list_snoc _ _ _ (fresh s) attr Hal1 Hf) as (Hnd2 & Hlen2 & Hc2).
    destruct Hal as (_ & Hlen & _).
    assert (link_attr aps (fresh s) attr A1 !! fresh s
            = Some (attr_cell (aps ++ [fresh s]) (length aps) attr)) as Hcell.
    { apply Hc2; [by rewrite list_lookup_middle|]. by rewrite Hlen, list_lookup_middle. }
    unfold ld_attr. simpl. rewrite Hcell. simpl. eexists. split; [done|]. unfold upd_coll; simpl.
    split; [done|]. split; [done|]. split; [done|]. 
    pose proof (link_attr_set aps (fresh s) attr x A1 Hf) as Hset. simpl in Hset. rewrite Hset.
    split; [by apply attr_list_snoc|]. split; [done|].
    intros q Hq Hne. rewrite link_attr_ne by done. unfold A1. by rewrite lookup_insert_ne.
  - injection Hcall as -> <-. eexists. split; [done|]. simpl.
    split; [done|]. split; [done|]. split; [done|]. split; [by apply attr_list_snoc|]. split; [done|].
    intros q Hq Hne. rewrite link_attr_ne by done. unfold A1. by rewrite lookup_insert_ne.
Qed.

Lemma H5Aiterate_ok attrs s m o aps xs f0 xs' d :
  objects s !! m = Some o → attr_linked_list o = head aps → attr_list (attributes s) aps xs →
  Forall (between f0 (fresh s)) aps → (f0 ≤ fresh s)%positive →
  run_attrs attrs (opdata s) = Ret (xs', d) →
  ∃ s' aps', H5Aiterate on_attr m attrs s = Ret (tt, s') ∧ same_coll s s' ∧ opdata s' = d ∧
    objects s' = <[m := set_attrs (num_attrs o + Z.of_nat (length attrs)) (head aps') o]> (objects s) ∧
    attr_list (attributes s') aps' (xs ++ xs') ∧ Forall (between f0 (fresh s')) aps' ∧
    (fresh s ≤ fresh s')%positive ∧ ∀ q, (q < f0)%positive → attributes s' !! q = attributes s !! q.
Proof.
  revert s o aps xs xs'. induction attrs as [|a attrs IH]; intros s o aps xs xs' Hm Hl Hal Hb Hf Hrun.
  { injection Hrun as <- <-. exists s, aps. rewrite app_nil_r, Z.add_0_r, <-Hl.
    split; [done|]. split; [done|]. split; [done|]. split; [|done].
    rewrite insert_id; [done|]. rewrite Hm. by destruct o. }
  cbn [run_attrs] in Hrun. unfold mbind, st_bind, outcome_bind in Hrun.
  destruct (new_attr a) as [attr|] eqn:Ha; [|done]. cbn in Hrun.
  destruct (call_attr attr (opdata s)) as [[x d1]|] eqn:Hcall; [|done].
  destruct (run_attrs attrs d1) as [[ys d2]|] eqn:Hys; [|done]. injection Hrun as <- <-.
  assert (fresh s ∉ aps) as Hfr.
  { intros Hin. rewrite Forall_forall in Hb. apply Hb in Hin as [_ Hin]. lia. }
  destruct (attr_info_ok s m o aps xs a attr x d1 Hm Hl Hal Hfr Ha Hcall)
    as (s1 & Hr1 & Hsame1 & Hd1 & Ho1 & Hal1 & Hf1 & Hfar1).
  destruct (IH s1 (set_attrs (num_attrs o + 1) (head (aps ++ [fresh s])) o) (aps ++ [fresh s]) (xs ++ [x]) ys)
    as (s2 & aps2 & Hr2 & Hsame2 & Hd2 & Ho2 & Hal2 & Hb2 & Hf2 & Hfar2).
  - rewrite Ho1. apply lookup_insert_eq.
  - done.
  - done.
  - rewrite Hf1. apply Forall_app. split.
    + eapply Forall_impl; [exact Hb|]. unfold between. lia.
    + apply Forall_singleton. unfold between. lia.
  - lia.
  - by rewrite Hd1.
  - exists s2, aps2. cbn [H5Aiterate]. unfold mbind, st_bind. rewrite Hr1. cbn. split; [done|].
    split; [unfold same_coll in *; intuition congruence|]. split; [done|]. split.
    { rewrite Ho2, Ho1, insert_insert_eq. f_equal. unfold set_attrs; simpl. f_equal. lia. }
    rewrite <-app_assoc in Hal2. split; [done|]. split; [done|]. split; [lia|].
    intros q Hq. rewrite Hfar2 by done. apply Hfar1; [|lia].
    intros Hin. rewrite Forall_forall in Hb. apply Hb in Hin as [Hin _]. lia.
Qed.

(** ** The list of objects *)
Record entry := mk_entry {
  e_loc : loc;
  e_obj : h5_object;
  e_aps : list loc;
  e_xs : list miqs_meta_attribute
}.
Implicit Types (es : list entry) (e : entry).

Definition obj_tail (ps : list loc) (i : nat) : option loc :=
  if decide (i = 0 ∧ 1 < length ps) then last ps else None.
(** Every attribute is counted twice, by H5Aget_num_attrs and by attr_info. *)
Definition obj_cell (ps : list loc) (i : nat) e : miqs_data_object :=
  mk_mdo (h5o_name (e_obj e)) (get_miqs_type_from_h5 (h5o_type (e_obj e)))
    (2 * Z.of_nat (length (h5o_attrs (e_obj e)))) (head (e_aps e))
    (ps !! S i) (if decide (i = 0) then None else head ps) (obj_tail ps i).

Definition obj_list (O : gmap loc miqs_data_object) es : Prop :=
  let ps := e_loc <$> es in
  NoDup ps ∧ ∀ i e, es !! i = Some e → O !! e_loc e = Some (obj_cell ps i e).

(** The last object gets a successor, the first one a new tail, the new one a
    head. *)
Definition link_obj (ps : list loc) (p : loc) (O : gmap loc miqs_data_object)
    : gmap loc miqs_data_object :=
  match head ps, last ps with
  | Some h, Some t =>
      alter (λ o, set_links (mdo_next o) (Some h) (mdo_tail o) o) p
        (alter (λ o, set_links (mdo_next o) (mdo_head o) (Some p) o) h
          (alter (λ o, set_links (Some p) (mdo_head o) (mdo_tail o) o) t O))
  | _, _ => O
  end.

Lemma link_obj_old ps p O q :
  ps ≠ [] → q ≠ p →
  link_obj ps p O !! q
  = (λ o, set_links (if decide (last ps = Some q) then Some p else mdo_next o) (mdo_head o)
            (if decide (head ps = Some q) then Some p else mdo_tail o) o) <$> O !! q.
Proof.
  intros Hps Hq. unfold link_obj. destruct ps as [|h ps]; [done|]. cbn [head].
  destruct (last (h :: ps)) as [t|] eqn:Ht; [|by apply last_None in Ht].
  rewrite lookup_alter_ne by done.
  destruct (decide (h = q)) as [->|Hh].
  - rewrite lookup_alter_eq. destruct (decide (t = q)) as [->|Hn].
    + rewrite lookup_alter_eq. destruct (O !! q); simpl; [|done]. by rewrite !decide_True by done.
    + rewrite lookup_alter_ne by done. destruct (O !! q); simpl; [|done].
      rewrite decide_False by congruence. by rewrite decide_True by done.
  - rewrite lookup_alter_ne by done. destruct (decide (t = q)) as [->|Hn].
    + rewrite lookup_alter_eq. destruct (O !! q); simpl; [|done].
      rewrite decide_True by done. by rewrite decide_False by congruence.
    + rewrite lookup_alter_ne by done. destruct (O !! q) as [[]|]; simpl; [|done].
      by rewrite !decide_False by congruence.
Qed.

Lemma link_obj_new ps p O :
  p ∉ ps →
  link_obj ps p O !! p
  = (λ o, set_links (mdo_next o) (if decide (ps = []) then mdo_head o else head ps) (mdo_tail o) o) <$> O !! p.
Proof.
  intros Hp. unfold link_obj. destruct ps as [|h ps]; [simpl; by destruct (O !! p) as [[]|]|]. cbn [head].
  destruct (last (h :: ps)) as [t|] eqn:Ht; [|by apply last_None in Ht].
  assert (t ∈ h :: ps) by (by apply last_Some_elem_of).
  rewrite lookup_alter_eq, !lookup_alter_ne; [done| |]; intros <-; apply Hp; [done|left].
Qed.

Lemma obj_list_snoc O es e :
  obj_list O es → e_loc e ∉ (e_loc <$> es) →
  O !! e_loc e = Some (mk_mdo (h5o_name (e_obj e)) (get_miqs_type_from_h5 (h5o_type (e_obj e)))
    (2 * Z.of_nat (length (h5o_attrs (e_obj e)))) (head (e_aps e)) None None None) →
  obj_list (link_obj (e_loc <$> es) (e_loc e) O) (es ++ [e]).
Proof.
  intros [Hnd Hc] Hp Hx. unfold obj_list. rewrite fmap_app. set (ps := e_loc <$> es) in *.
  assert (length ps = length es) as Hlen by (unfold ps; by rewrite length_fmap).
  cbn [fmap list_fmap]. split.
  { apply NoDup_app. split; [done|]. split; [|apply NoDup_singleton].
    intros q Hq ->%list_elem_of_singleton. done. }
  intros i x Hi. apply lookup_app_Some in Hi as [Hi|[Hge Hi]].
  - pose proof (lookup_lt_Some _ _ _ Hi) as Hlt.
    assert (ps !! i = Some (e_loc x)) as Hpi by (unfold ps; by rewrite list_lookup_fmap, Hi).
    rewrite link_obj_old.
    2: { intros Hnil. by rewrite Hnil in Hpi. }
    2: { intros Heq. apply Hp. rewrite <-Heq. by eapply list_elem_of_lookup_2. }
    rewrite (Hc i x Hi). cbn [fmap option_fmap option_map]. f_equal.
    unfold obj_cell, set_links, obj_tail; simpl. rewrite last_snoc, length_app. cbn [length].
    assert (head ps = Some (e_loc x) ↔ i = 0) as Hh.
    { rewrite head_lookup. split; [|by intros ->].
      intros H0. by eapply NoDup_lookup. }
    assert (last ps = Some (e_loc x) ↔ i = pred (length ps)) as Ht.
    { rewrite last_lookup. split; [intros H0; by eapply NoDup_lookup|by intros ->]. }
    f_equal.
    + case_decide as Hd.
      * rewrite lookup_app_r by (apply Ht in Hd; lia). apply Ht in Hd.
        by replace (S i - length ps) with 0 by lia.
      * rewrite lookup_app_l; [done|]. rewrite Ht in Hd. lia.
    + destruct (decide (i = 0)); [done|]. destruct ps; [done|]. done.
    + destruct (decide (i = 0)) as [->|Hi0].
      * rewrite decide_True by (by apply Hh). by rewrite decide_True by lia.
      * rewrite (decide_False (P := head ps = _)) by (by rewrite Hh). by rewrite !decide_False by lia.
  - apply list_lookup_singleton_Some in Hi as [Hi <-]. rewrite link_obj_new, Hx by done.
    cbn [fmap option_fmap option_map]. f_equal. unfold obj_cell, set_links, obj_tail; simpl.
    rewrite (lookup_ge_None_2 (ps ++ _)) by (rewrite length_app; simpl; lia).
    destruct (decide (i = 0)) as [->|Hi0].
    + assert (ps = []) as -> by (apply length_zero_iff_nil; lia). done.
    + rewrite (decide_False (P := ps = [])) by (intros ->; simpl in *; lia).
      rewrite decide_False by lia. destruct ps; simpl in *; [lia|done].
Qed.

(** The collector holds the objects and attributes [es]. *)
Definition coll_is s es : Prop :=
  obj_list (objects s) es ∧ object_linked_list s = head (e_loc <$> es) ∧
  num_objs s = Z.of_nat (length es) ∧
  total_num_attrs s = Z.of_nat (sum_list_with (λ e, length (h5o_attrs (e_obj e))) es) ∧
  ∀ i e, es !! i = Some e →
    attr_list (attributes s) (e_aps e) (e_xs e) ∧ length (e_xs e) = length (h5o_attrs (e_obj e)) ∧
    (e_loc e < fresh s)%positive ∧ Forall (λ p, (p < fresh s)%positive) (e_aps e).

Lemma coll_is_init d : coll_is (init_metadata_collector 0 d None) [].
Proof. repeat split; try done. apply NoDup_nil_2. Qed.

Lemma alter_insert_heap {A} (f : A → A) (m : gmap loc A) q x :
  m !! q = Some x → alter f q m = <[q := f x]> m.
Proof.
  intros Hq. apply map_eq. intros r. destruct (decide (q = r)) as [->|].
  - by rewrite lookup_insert_eq, lookup_alter_eq, Hq.
  - by rewrite lookup_insert_ne, lookup_alter_ne.
Qed.

Lemma append_obj_ok s es p o :
  obj_list (objects s) es → object_linked_list s = head (e_loc <$> es) → p ∉ (e_loc <$> es) →
  objects s !! p = Some o →
  append_obj p s = Ret (tt, upd_coll (opdata s) (head ((e_loc <$> es) ++ [p])) (num_objs s + 1)
    (total_num_attrs s) (set_heaps (link_obj (e_loc <$> es) p (objects s)) (attributes s) (fresh s) s)).
Proof.
  intros [Hnd Hc] Hl Hp Ho. unfold append_obj, mbind, st_bind, outcome_bind, st_get. simpl. rewrite Hl.
  destruct es as [|e es]; [done|].
  set (ps := e_loc <$> e :: es) in *. assert (head ps = Some (e_loc e)) as Hh by done.
  pose proof (Hc 0 e eq_refl) as He. rewrite Hh. unfold ld_obj at 1. rewrite He. simpl.
  assert (p ≠ e_loc e) as Hne by (intros ->; apply Hp; left).
  unfold link_obj. rewrite Hh. destruct (last ps) as [t|] eqn:Ht; [|by apply last_None in Ht].
  assert (length ps = S (length es)) as Hlen by (unfold ps; by rewrite length_fmap).
  unfold ld_obj, put_obj, st_modify, obj_tail. case_decide as Hd.
  - (* at least two objects *)
    rewrite Ht. pose proof Ht as Htl. rewrite last_lookup, Hlen in Htl. cbn [pred] in Htl.
    assert (p ≠ t) as Hnt by (intros ->; apply Hp; by eapply list_elem_of_lookup_2).
    assert (t ≠ e_loc e) as Hte.
    { intros ->. assert (0 = length es); [|lia]. eapply NoDup_lookup; [exact Hnd|done|exact Htl]. }
    assert (∃ x, objects s !! t = Some x) as [x Hx].
    { unfold ps in Htl. rewrite list_lookup_fmap in Htl. destruct (_ !! length es) as [y|] eqn:Hy; [|done].
      injection Htl as <-. by eauto. }
    rewrite Hx. simpl. rewrite lookup_insert_ne, He by done. simpl.
    rewrite !lookup_insert_ne, Ho by done. simpl.
    rewrite (alter_insert_heap _ (objects s) t x Hx).
    rewrite (alter_insert_heap _ _ (e_loc e) (obj_cell ps 0 e)) by (by rewrite lookup_insert_ne).
    rewrite (alter_insert_heap _ _ p o) by (by rewrite !lookup_insert_ne). done.
  - assert (es = []) as -> by (apply length_zero_iff_nil; lia). injection Ht as <-. simpl.
    rewrite lookup_insert_ne, Ho by done. simpl.
    rewrite (alter_insert_heap _ (objects s) (e_loc e) _ He).
    rewrite (alter_insert_heap _ _ (e_loc e) _ (lookup_insert_eq _ _ _)).
    rewrite (alter_insert_heap _ _ p o) by (by rewrite !lookup_insert_ne). rewrite insert_insert_eq. done.
Qed.

(** The attributes of an object, when it has any. *)
Lemma op_attrs_ok s m o n xs d :
  n = Z.of_nat (length (h5o_attrs o)) →
  objects s !! m = Some (mk_mdo (h5o_name o) (get_miqs_type_from_h5 (h5o_type o)) n None None None None) →
  run_attrs (h5o_attrs o) (opdata s) = Ret (xs, d) →
  ∃ s' aps,
    (if bool_decide (n > 0)%Z then
       _ ← st_modify (λ s, upd_coll (opdata s) (object_linked_list s) (num_objs s)
                             (total_num_attrs s + n) s);
       H5Aiterate on_attr m (h5o_attrs o)
     else mret tt) s = Ret (tt, s') ∧
    opdata s' = d ∧ object_linked_list s' = object_linked_list s ∧ num_objs s' = num_objs s ∧
    total_num_attrs s' = (total_num_attrs s + n)%Z ∧
    objects s' = <[m := mk_mdo (h5o_name o) (get_miqs_type_from_h5 (h5o_type o)) (2 * n) (head aps)
                          None None None]> (objects s) ∧
    attr_list (attributes s') aps xs ∧ Forall (between (fresh s) (fresh s')) aps ∧
    (fresh s ≤ fresh s')%positive ∧
    ∀ q, (q < fresh s)%positive → attributes s' !! q = attributes s !! q.
Proof.
  intros -> Hm Hrun. case_bool_decide as Hn.
  - set (s1 := upd_coll (opdata s) (object_linked_list s) (num_objs s)
      (total_num_attrs s + Z.of_nat (length (h5o_attrs o))) s).
    destruct (H5Aiterate_ok (h5o_attrs o) s1 m _ [] [] (fresh s) xs d Hm eq_refl (attr_list_nil _)
      (Forall_nil_2 _) ltac:(done) Hrun) as (s' & aps & Hr & (H1 & H2 & H3) & Hd & Ho & Hal & Hb & Hf & Hfar).
    exists s', aps. unfold mbind, st_bind, st_modify. fold s1.
    split; [exact Hr|]. split; [done|]. split; [done|]. split; [done|]. split; [done|]. split; [|done].
    rewrite Ho. unfold set_attrs; simpl. do 2 f_equal. lia.
  - assert (h5o_attrs o = []) as Hnil by (destruct (h5o_attrs o); [done|simpl in Hn; lia]).
    rewrite Hnil in *. injection Hrun as <- <-. exists s, []. rewrite insert_id, Z.add_0_r by done.
    repeat (split; [done|]). split; [apply attr_list_nil|]. by split; [constructor|].
Qed.

Lemma op_func_ok s es o xs d d' :
  coll_is s es → run_attrs (h5o_attrs o) (opdata s) = Ret (xs, d) →
  call_obj (h5o_name o) d = Ret (tt, d') →
  ∃ s' e, op_func on_obj on_attr o s = Ret (0%Z, s') ∧ opdata s' = d' ∧
    e_obj e = o ∧ e_xs e = xs ∧ coll_is s' (es ++ [e]).
Proof.
  intros (Hol & Hhd & Hno & Hta & He) Hrun Hcall.
  set (m := fresh s). set (n := Z.of_nat (length (h5o_attrs o))).
  set (c := mk_mdo (h5o_name o) (get_miqs_type_from_h5 (h5o_type o)) n None None None None).
  set (s1 := set_heaps (<[m := c]> (objects s)) (attributes s) (Pos.succ m) s).
  destruct (op_attrs_ok s1 m o n xs d eq_refl (lookup_insert_eq _ _ _) Hrun)
    as (s2 & aps & Hr2 & Hd2 & H1 & H2 & H3 & Ho2 & Hal2 & Hb2 & Hf2 & Hfar2).
  set (e := mk_entry m o aps xs).
  assert (m ∉ (e_loc <$> es)) as Hm.
  { intros (x & Hx & Hin)%list_elem_of_fmap. apply list_elem_of_lookup in Hin as [i Hi].
    destruct (He i x Hi) as (_ & _ & Hlt & _). unfold m in Hx. lia. }
  assert (obj_list (objects s2) es) as Hol2.
  { destruct Hol as [Hnd Hc]. split; [done|]. intros i x Hi. rewrite Ho2. simpl.
    rewrite insert_insert_eq, lookup_insert_ne; [by apply Hc|]. intros ->. apply Hm.
    apply list_elem_of_fmap. exists x. split; [done|]. by eapply list_elem_of_lookup_2. }
  assert (objects s2 !! e_loc e = Some (mk_mdo (h5o_name (e_obj e)) (get_miqs_type_from_h5 (h5o_type (e_obj e)))
    (2 * Z.of_nat (length (h5o_attrs (e_obj e)))) (head (e_aps e)) None None None)) as Hcell.
  { rewrite Ho2. apply lookup_insert_eq. }
  pose proof (append_obj_ok s2 es m _ Hol2 ltac:(by rewrite H1) Hm Hcell) as Happ.
  pose proof (obj_list_snoc _ es e Hol2 Hm Hcell) as Hol3.
  set (s3 := upd_coll _ _ _ _ _) in Happ.
  assert (∃ x, objects s3 !! m = Some x ∧ obj_name x = h5o_name o) as (x & Hx & Hxn).
  { destruct Hol3 as [_ Hc3]. eexists. split; [apply (Hc3 (length es) e), list_lookup_middle; done|done]. }
  set (s4 := upd_coll d' (object_linked_list s3) (num_objs s3) (total_num_attrs s3) s3).
  exists s4, e. split; [|split; [done|split; [done|split; [done|]]]].
  - unfold op_func, new_loc, put_obj, st_modify, mbind, st_bind in Hr2 |- *. fold m n c.
    change (set_heaps (<[m:=c]> _) _ _ _) with s1. cbv zeta. fold n.
    rewrite Hr2, Happ. unfold call_obj in Hcall. destruct on_obj as [f|] eqn:Hobj.
    + unfold ld_obj. rewrite Hx. cbn [deref mbind outcome_bind].
      unfold with_opdata, mbind, outcome_bind. rewrite (Hname f eq_refl x (init_data_object (h5o_name o) 0 None)) by done.
      unfold mbind, st_bind in Hcall. change (opdata s3) with (opdata s2). rewrite Hd2.
      destruct (f _ d) as [[r d1]|]; [|done]. injection Hcall as ->. done.
    + injection Hcall as <-. unfold s4. rewrite <-Hd2. done.
  - split_and!.
    + exact Hol3.
    + rewrite fmap_app. done.
    + simpl. rewrite H2. cbn. rewrite Hno, length_app. simpl. lia.
    + simpl. rewrite H3. cbn. rewrite Hta, sum_list_with_app. simpl. lia.
    + intros i y [Hi|[Hge Hi]]%lookup_app_Some.
      * destruct (He i y Hi) as ((Hn1 & Hn2 & Hcs) & Hlen & Hlt & Hb). simpl. split.
        { split; [done|]. split; [done|]. intros j q z Hj Hz. rewrite Hfar2; [by eapply Hcs|].
          simpl. rewrite Forall_forall in Hb. unfold m. pose proof (Hb q ltac:(by eapply list_elem_of_lookup_2)). lia. }
        split; [done|]. cbn in Hf2. split; [lia|]. eapply Forall_impl; [exact Hb|]. cbv beta. lia.
      * apply list_lookup_singleton_Some in Hi as [_ <-]. simpl. cbn in Hf2. split; [done|].
        split; [by eapply length_run_attrs|]. split; [lia|].
        eapply Forall_impl; [exact Hb2|]. unfold between. lia.
Qed.

Lemma visit_ok os s es xss d :
  coll_is s es → run_objs os (opdata s) = Ret (xss, d) →
  ∃ s' es', visit (op_func on_obj on_attr) os s = Ret (tt, s') ∧ opdata s' = d ∧
    e_obj <$> es' = os ∧ e_xs <$> es' = xss ∧ coll_is s' (es ++ es').
Proof.
  revert s es xss. induction os as [|o os IH]; intros s es xss Hc Hrun.
  { injection Hrun as <- <-. exists s, []. rewrite app_nil_r. done. }
  cbn [run_objs] in Hrun. unfold mbind, st_bind in Hrun.
  destruct (run_attrs (h5o_attrs o) (opdata s)) as [[xs d1]|] eqn:Hxs; [|done].
  destruct (call_obj (h5o_name o) d1) as [[[] d2]|] eqn:Hcall; [|done].
  destruct (run_objs os d2) as [[yss d3]|] eqn:Hyss; [|done]. injection Hrun as <- <-.
  destruct (op_func_ok s es o xs d1 d2 Hc Hxs Hcall) as (s1 & e & Hr1 & Hd1 & Heo & Hex & Hc1).
  destruct (IH s1 (es ++ [e]) yss Hc1 ltac:(by rewrite Hd1)) as (s2 & es2 & Hr2 & Hd2 & Ho2 & Hx2 & Hc2).
  exists s2, (e :: es2). cbn [visit]. unfold mbind, st_bind. rewrite Hr1. cbn.
  split; [done|]. split; [done|]. rewrite Heo, Hex, Ho2, Hx2. rewrite <-app_assoc in Hc2. done.
Qed.

(** A scan of a file without links. *)
Lemma scan_hdf5_ok os ls d xss d' :
  run_objs os d = Ret (xss, d') →
  ∃ s es, scan_hdf5 on_obj on_attr os ls false (init_metadata_collector 0 d None) = Ret (1%Z, s) ∧
    opdata s = d' ∧ e_obj <$> es = os ∧ e_xs <$> es = xss ∧ coll_is s es.
Proof.
  intros Hrun. destruct (visit_ok os (init_metadata_collector 0 d None) [] xss d' (coll_is_init d) Hrun)
    as (s & es & Hr & Hd & Ho & Hx & Hc).
  exists s, es. unfold scan_hdf5, mbind, st_bind. rewrite Hr. done.
Qed.
End Rep.
