(* ===== verification/Hdf52Index.v ===== *)
(** * From HDF5 files to the index (src/h52index/hdf52index.c)

    The callbacks of a scan enter attributes into the index.  [H5] gives the
    objects that H5Ovisit hands out for the file at a path, none if the file
    cannot be opened.  Timers and memory counters are left out. *)
From S2P Require Import Prelude Heap Art Metadata Hdf5 InMemIndex.

Section Hdf52Index.
Context (oob : list Z → nat → Z) (pointer_bytes : nat → list Z).
Context (H5 : list Z → list h5_object).

Definition on_obj (obj : miqs_data_object) : idx Z :=
  _ ← st_modify (λ s, set_totals (total_num_files s) (u64 (total_num_objects s + 1))
                        (set_paths (file_path s) (Some (obj_name obj)) s));
  mret 1%Z.

(** Before the first object of all files has been visited the object path is
    the null pointer, which the path lists of the model do not hold: nothing is
    said about an attribute that is met then. *)
Definition on_attr (attr : miqs_meta_attribute) : idx (Z * miqs_meta_attribute) :=
  s ← st_get;
  match file_path s, obj_path s with
  | Some fp, Some op =>
      let attr := mk_attr (attr_name attr) (attr_type attr) (attribute_value attr)
                    (attribute_value_length attr) fp op in
      r ← indexing_attr oob pointer_bytes attr;
      mret (r, attr)
  | _, _ => st_fault
  end.

(** The call of scan_hdf5 with a new collector whose data is the anchor. *)
Definition scan_into_index (filepath : list Z) : idx unit := λ s,
  '(_, c) ← scan_hdf5 (Some on_obj) (Some on_attr) (H5 filepath) [] false
              (init_metadata_collector 0 s None);
  Ret (tt, opdata c).

Definition parse_hdf5_file (filepath : list Z) : idx unit :=
  _ ← st_modify (λ s, set_totals (u64 (total_num_files s + 1)) (total_num_objects s)
                        (set_paths (Some filepath) (obj_path s) s));
  scan_into_index filepath.
End Hdf52Index.
