(* ===== verification/Hdf5Theorems.v ===== *)
(** * Properties of the extraction (hdf5_meta_extractor.c, hdf52index.c)

    What a scan collects, what it enters into the index, and what queries answer
    afterwards. *)
From S2P Require Import Prelude Heap Art ArtMap RbTree RbTreeAdd RbTreeMap Comparators LinkedList LinkedListRep LinkedListSpec BinFile Metadata Hdf5 Hdf5Rep OnDiskIndex InMemIndex IndexInv IndexAdd IndexRun IndexTheorems Hdf52Index.

(** ** Values *)

(** The attribute that attr_info builds, with paths. *)
Definition with_paths (fp op : list Z) (x : miqs_meta_attribute) : miqs_meta_attribute :=
  mk_attr (attr_name x) (attr_type x) (attribute_value x) (attribute_value_length x) fp op.

Lemma read_into_calloc_full n size data :
  (0 <= n)%Z → Z.of_nat (length data) = (n * size)%Z → read_into_calloc n size data = Ret data.
Proof.
  intros Hn Hl. unfold read_into_calloc. rewrite bool_decide_eq_true_2 by lia.
  unfold blit. simpl. rewrite drop_ge by (rewrite length_replicate; lia). by rewrite app_nil_r.
Qed.

(** Attributes of 32-bit integers and of doubles keep their values. *)
Theorem new_attr_numeric a (flt : bool) :
  h5a_class a = (if flt then H5T_FLOAT else H5T_INTEGER) → (0 <= h5a_npoints a < 2 ^ 31)%Z →
  Z.of_nat (length (h5a_data a)) = (h5a_npoints a * if flt then 8 else 4)%Z →
  new_attr a = Ret (mk_attr (h5a_name a) (if flt then MIQS_AT_FLOAT else MIQS_AT_INTEGER)
                      (ANum (h5a_data a)) (h5a_npoints a) [] []).
Proof.
  intros Hc Hn Hl. unfold new_attr. rewrite Hc. rewrite i32_id by (unfold in_i32; lia).
  destruct flt; unfold read_float_attr, read_int_attr; by rewrite read_into_calloc_full by lia.
Qed.

(** An attribute of integers that are wider than 32 bits is written beyond the
    block that was allocated for it. *)
Theorem new_attr_wide_integer a :
  h5a_class a = H5T_INTEGER → (0 < h5a_npoints a < 2 ^ 31)%Z → (4 < h5a_size a)%Z →
  Z.of_nat (length (h5a_data a)) = (h5a_npoints a * h5a_size a)%Z → new_attr a = Fault.
Proof.
  intros Hc Hn Hs Hl. unfold new_attr. rewrite Hc. rewrite i32_id by (unfold in_i32; lia).
  unfold read_int_attr, read_into_calloc. rewrite bool_decide_eq_false_2; [done|]. nia.
Qed.

(** ** What a scan collects *)
Section Collected.
Context {D : Type} (on_obj : option (miqs_data_object → st D Z))
  (on_attr : option (miqs_meta_attribute → st D (Z * miqs_meta_attribute))).

(** The elements reached from [p] along the [next] pointers. *)
Fixpoint objs_from (O : gmap loc miqs_data_object) (fuel : nat) (p : option loc) : list miqs_data_object :=
  match fuel, p with
  | S fuel, Some p => match O !! p with Some o => o :: objs_from O fuel (mdo_next o) | None => [] end
  | _, _ => []
  end.
Fixpoint attrs_from (A : gmap loc meta_attr) (fuel : nat) (p : option loc) : list miqs_meta_attribute :=
  match fuel, p with
  | S fuel, Some p => match A !! p with Some a => ma_attr a :: attrs_from A fuel (ma_next a) | None => [] end
  | _, _ => []
  end.

(** The first and the last element. *)
Definition ends {A} (l : list A) : list A :=
  match l with [] => [] | [x] => [x] | x :: _ => x :: option_list (last l) end.

Lemma objs_from_ok O es n :
  obj_list O es → length es ≤ n →
  objs_from O n (head (e_loc <$> es)) = imap (obj_cell (e_loc <$> es)) es.
Proof.
  intros [_ Hc] Hn. set (ps := e_loc <$> es) in *.
  assert (∀ j k, j + k = length es → k ≤ n →
    objs_from O n (ps !! j) = imap (λ i, obj_cell ps (j + i)) (drop j es)) as Hgen.
  { clear Hn. induction n as [|n IH]; intros j k Hjk Hk.
    - rewrite drop_ge by lia. done.
    - destruct k as [|k].
      + rewrite drop_ge by lia. unfold ps. rewrite lookup_ge_None_2; [done|rewrite length_fmap; lia].
      + destruct (lookup_lt_is_Some_2 es j) as [e He]; [lia|].
        unfold ps at 1. rewrite list_lookup_fmap, He. cbn [fmap option_fmap option_map objs_from].
        rewrite (Hc j e He). cbn [mdo_next obj_cell]. rewrite (IH (S j) k) by lia.
        rewrite (drop_S es e j) by done. rewrite imap_cons, Nat.add_0_r. f_equal.
        apply imap_ext. intros i x _. simpl. f_equal. lia. }
  rewrite head_lookup, (Hgen 0 (length es)) by lia. done.
Qed.

Lemma attrs_from_ok A aps xs n :
  attr_list A aps xs → length aps ≤ n → attrs_from A n (head aps) = ends xs.
Proof.
  intros (Hnd & Hlen & Hc) Hn. destruct aps as [|p aps], xs as [|x xs]; try done; [by destruct n|].
  destruct n as [|n]; simpl in Hn; [lia|].
  cbn [head attrs_from]. rewrite (Hc 0 p x) by done. cbn [ma_attr ma_next attr_cell].
  unfold attr_next. destruct aps as [|q aps], xs as [|y xs]; try done; [by destruct n|].
  destruct n as [|n]; simpl in Hn; [lia|]. simpl in Hlen. injection Hlen as Hlen.
  rewrite decide_True by (simpl; lia). unfold ends. rewrite !last_lookup.
  change (pred (length (p :: q :: aps))) with (S (length aps)).
  change (pred (length (x :: y :: xs))) with (S (length xs)). rewrite <-Hlen.
  destruct (lookup_lt_is_Some_2 (p :: q :: aps) (S (length aps))) as [r Hr]; [simpl; lia|].
  destruct (lookup_lt_is_Some_2 (x :: y :: xs) (S (length aps))) as [z Hz]; [simpl; lia|].
  rewrite Hr, Hz. cbn [attrs_from option_list].
  rewrite (Hc _ r z Hr Hz). cbn [ma_attr ma_next attr_cell]. unfold attr_next.
  rewrite decide_False by lia. by destruct n.
Qed.

(** The list of objects that a scan leaves in the collector holds all
    objects of the file in the order of the visit and counts them, but every
    object counts its attributes twice, and its list of attributes holds only
    the first and the last of them. *)
Theorem scan_collects os ls d xss d' :
  (∀ f, on_obj = Some f → ∀ o o', obj_name o = obj_name o' → f o = f o') →
  run_objs on_obj on_attr os d = Ret (xss, d') →
  ∃ s, scan_hdf5 on_obj on_attr os ls false (init_metadata_collector 0 d None) = Ret (1%Z, s) ∧
    opdata s = d' ∧ num_objs s = Z.of_nat (length os) ∧
    let objs := objs_from (objects s) (length os) (object_linked_list s) in
    (obj_name <$> objs) = (h5o_name <$> os) ∧
    (num_attrs <$> objs) = ((λ o, 2 * Z.of_nat (length (h5o_attrs o)))%Z <$> os) ∧
    ((λ o, attrs_from (attributes s) (Z.to_nat (num_attrs o)) (attr_linked_list o)) <$> objs)
      = (ends <$> xss).
Proof.
  intros Hname Hrun.
  destruct (scan_hdf5_ok on_obj on_attr Hname os ls d xss d' Hrun) as (s & es & Hr & Hd & Ho & Hx & Hc).
  exists s. split; [done|]. split; [done|]. destruct Hc as (Hol & Hhd & Hno & _ & He).
  assert (length es = length os) as Hlen by (rewrite <-Ho; by rewrite length_fmap).
  split; [by rewrite Hno, Hlen|]. cbv zeta. rewrite Hhd, (objs_from_ok _ es) by (done || lia).
  set (ps := e_loc <$> es) in *. rewrite <-Ho, <-Hx, <-!list_fmap_compose.
  assert (∀ {B} (f : miqs_data_object → B) (g : entry → B),
    (∀ i e, es !! i = Some e → f (obj_cell ps i e) = g e) →
    f <$> imap (obj_cell ps) es = g <$> es) as Hmap.
  { intros B f g Hfg. 
    apply list_eq. intros i. rewrite !list_lookup_fmap, list_lookup_imap.
    destruct (es !! i) as [e|] eqn:Hi; simpl; [|done]. by rewrite <-(Hfg i e Hi). }
  split; [by apply Hmap|]. split; [by apply Hmap|]. apply Hmap.
  intros i e Hi. cbn [num_attrs attr_linked_list obj_cell]. unfold compose.
  destruct (He i e Hi) as (Hal & Hlx & _). apply attrs_from_ok; [done|].
  destruct Hal as (_ & Hla & _). lia.
Qed.
End Collected.

(** ** What is entered into the index *)
Section Indexed.
Context (is_flt : list Z → bool) (P : bool → list Z → Prop) (strings : bool).
Context `{HKO : ∀ b, KeyOrder (P b) (rbt_compare_keys (rbt_cmp b))}.
Context (Hsz : ∀ b, key_size P b).
Context (oob : list Z → nat → Z) (pointer_bytes : nat → list Z) (H5 : list Z → list h5_object).
Notation log := (list (list Z * list Z * (list Z * list Z))) (only parsing).
Implicit Types (s : index_anchor) (lg : log).

(** The attributes of an object, with the paths they are entered under. *)
Definition attrs_under (fp op : list Z) (attrs : list h5_attribute) : list miqs_meta_attribute :=
  attrs ≫= λ a, match new_attr a with Ret x => [with_paths fp op x] | Fault => [] end.

(** The attributes of an object are entered under the path of the object that
    was visited before it, since on_obj runs after on_attr. *)
Fixpoint file_attrs (fp : list Z) (prev : option (list Z)) (os : list h5_object)
    : list miqs_meta_attribute :=
  match os with
  | [] => []
  | o :: os => attrs_under fp (default [] prev) (h5o_attrs o) ++ file_attrs fp (Some (h5o_name o)) os
  end.
(** The object path after a file. *)
Definition last_obj (prev : option (list Z)) (os : list h5_object) : option (list Z) :=
  foldl (λ _ o, Some (h5o_name o)) prev os.

Definition readable (os : list h5_object) : Prop :=
  Forall (λ o, Forall (λ a, new_attr a ≠ Fault) (h5o_attrs o)) os.
(** The first object of all has no attributes. *)
Definition started (prev : option (list Z)) (os : list h5_object) : Prop :=
  prev = None → match os with o :: _ => h5o_attrs o = [] | [] => True end.

Definition anchor_is s lg (n : nat) (fp op : option (list Z)) : Prop :=
  (∃ nm, index_is is_flt P strings s nm lg n) ∧ no_aof s ∧ indexed_attr s = [] ∧
  file_path s = fp ∧ obj_path s = op.

Lemma anchor_is_update s lg n fp op fp' op' nf no :
  anchor_is s lg n fp op → anchor_is (set_totals nf no (set_paths fp' op' s)) lg n fp' op'.
Proof.
  intros ((nm & own & fps & ops & Hinv & Hfill) & Haof & Hsel & _ & _). split; [|done].
  exists nm, own, fps, ops. split; [by destruct Hinv|done].
Qed.

Definition entries (attrs : list miqs_meta_attribute) : log := attrs ≫= attr_entries.
Definition count (attrs : list miqs_meta_attribute) : nat := sum_list_with num_values attrs.

Lemma on_attr_run s x fp op s' :
  file_path s = Some fp → obj_path s = Some op →
  indexing_attr oob pointer_bytes (with_paths fp op x) s = Ret (1%Z, s') →
  on_attr oob pointer_bytes x s = Ret (1%Z, with_paths fp op x, s').
Proof.
  intros Hfp Hop Hr. unfold on_attr, mbind, st_bind, st_get. rewrite Hfp, Hop.
  fold (with_paths fp op x). by rewrite Hr.
Qed.

Lemma run_attrs_index attrs s lg n fp op :
  anchor_is s lg n (Some fp) (Some op) → Forall (λ a, new_attr a ≠ Fault) attrs →
  Forall (attr_ok is_flt P strings) (attrs_under fp op attrs) →
  (Z.of_nat (n + count (attrs_under fp op attrs)) ≤ MAX_LEN)%Z →
  ∃ xs s', run_attrs (Some (on_attr oob pointer_bytes)) attrs s = Ret (xs, s') ∧
    anchor_is s' (lg ++ entries (attrs_under fp op attrs)) (n + count (attrs_under fp op attrs))
      (Some fp) (Some op).
Proof.
  revert s lg n. induction attrs as [|a attrs IH]; intros s lg n Hs Hrd Hok Hn.
  { exists [], s. cbn. rewrite app_nil_r, Nat.add_0_r. done. }
  inversion Hrd as [|? ? Ha Hrd']; subst. unfold attrs_under in *. rewrite bind_cons in *.
  cbn [run_attrs]. unfold mbind at 1, st_bind at 1, mbind at 1, outcome_bind.
  destruct (new_attr a) as [x|]; [|done]. cbn [app] in *.
  inversion Hok as [|? ? Hx Hok']; subst. cbn [count sum_list_with] in Hn. fold (count) in Hn.
  destruct Hs as ((nm & His) & Haof & Hsel & Hfp & Hop).
  destruct (wp_run _ _ _ (indexing_attr_paths_ok is_flt P strings oob pointer_bytes s nm lg n
    (with_paths fp op x) Hsz His Haof Hx ltac:(unfold count in Hn; lia)))
    as (r & s1 & Hr & -> & Haof1 & Hsel1 & _ & (nm1 & His1 & _) & Hfp1 & Hop1).
  rewrite Hsel in Hsel1, His1. cbn [selected] in His1.
  destruct (IH s1 _ _ ltac:(split; [by exists nm1|]; rewrite Hfp1, Hop1; done) Hrd' Hok'
    ltac:(unfold count in *; lia)) as (xs & s2 & Hr2 & Hs2).
  exists (with_paths fp op x :: xs), s2. split.
  - unfold call_attr, mbind, st_bind. rewrite (on_attr_run s x fp op s1 Hfp Hop Hr). cbn. by rewrite Hr2.
  - cbn [count sum_list_with]. unfold entries in *. rewrite bind_cons.
    rewrite <-app_assoc, <-Nat.add_assoc in Hs2. exact Hs2.
Qed.

Lemma run_objs_index os s lg n fp prev :
  anchor_is s lg n (Some fp) prev → readable os → started prev os →
  Forall (attr_ok is_flt P strings) (file_attrs fp prev os) →
  (Z.of_nat (n + count (file_attrs fp prev os)) ≤ MAX_LEN)%Z →
  ∃ xss s', run_objs (Some on_obj) (Some (on_attr oob pointer_bytes)) os s = Ret (xss, s') ∧
    anchor_is s' (lg ++ entries (file_attrs fp prev os)) (n + count (file_attrs fp prev os))
      (Some fp) (last_obj prev os).
Proof.
  revert s lg n prev. induction os as [|o os IH]; intros s lg n prev Hs Hrd Hst Hok Hn.
  { exists [], s. cbn. rewrite app_nil_r, Nat.add_0_r. done. }
  inversion Hrd as [|? ? Ha Hrd']; subst. cbn [file_attrs] in *.
  apply Forall_app in Hok as [Hok1 Hok2]. unfold count in Hn. rewrite sum_list_with_app in Hn.
  assert (∃ xs s1, run_attrs (Some (on_attr oob pointer_bytes)) (h5o_attrs o) s = Ret (xs, s1) ∧
    anchor_is s1 (lg ++ entries (attrs_under fp (default [] prev) (h5o_attrs o)))
      (n + count (attrs_under fp (default [] prev) (h5o_attrs o))) (Some fp) prev) as (xs & s1 & Hr1 & Hs1).
  { destruct prev as [op|]; [simpl default in *; apply run_attrs_index; [done..|unfold count; lia]|].
    rewrite (Hst eq_refl). exists [], s. cbn. rewrite app_nil_r, Nat.add_0_r. done. }
  set (s2 := set_totals (total_num_files s1) (u64 (total_num_objects s1 + 1))
               (set_paths (file_path s1) (Some (h5o_name o)) s1)).
  assert (anchor_is s2 (lg ++ entries (attrs_under fp (default [] prev) (h5o_attrs o)))
      (n + count (attrs_under fp (default [] prev) (h5o_attrs o))) (Some fp) (Some (h5o_name o))) as Hs2.
  { assert (file_path s1 = Some fp) as Hfp by apply Hs1. unfold s2. rewrite Hfp.
    by eapply anchor_is_update. }
  destruct (IH s2 _ _ (Some (h5o_name o)) Hs2 Hrd' ltac:(done) Hok2 ltac:(unfold count in *; lia))
    as (xss & s3 & Hr3 & Hs3).
  exists (xs :: xss), s3. split.
  - cbn [run_objs]. unfold mbind at 1, st_bind at 1. rewrite Hr1.
    assert (call_obj (Some on_obj) (h5o_name o) s1 = Ret (tt, s2)) as Hcall by done.
    unfold mbind, st_bind. by rewrite Hcall, Hr3.
  - unfold entries, count in *. rewrite bind_app, sum_list_with_app.
    rewrite <-app_assoc, <-Nat.add_assoc in Hs3. exact Hs3.
Qed.

Lemma parse_hdf5_file_ok fp s lg n fp0 prev :
  let os := H5 fp in
  anchor_is s lg n fp0 prev → readable os → started prev os →
  Forall (attr_ok is_flt P strings) (file_attrs fp prev os) →
  (Z.of_nat (n + count (file_attrs fp prev os)) ≤ MAX_LEN)%Z →
  ∃ s', parse_hdf5_file oob pointer_bytes H5 fp s = Ret (tt, s') ∧
    anchor_is s' (lg ++ entries (file_attrs fp prev os)) (n + count (file_attrs fp prev os))
      (Some fp) (last_obj prev os).
Proof.
  intros os Hs Hrd Hst Hok Hn.
  assert (obj_path s = prev) as Hop by apply Hs.
  set (s1 := set_totals (u64 (total_num_files s + 1)) (total_num_objects s)
               (set_paths (Some fp) (obj_path s) s)).
  assert (anchor_is s1 lg n (Some fp) prev) as Hs1 by (unfold s1; rewrite Hop; by eapply anchor_is_update).
  destruct (run_objs_index os s1 lg n fp prev Hs1 Hrd Hst Hok Hn) as (xss & s2 & Hr & Hs2).
  destruct (scan_hdf5_ok (Some on_obj) (Some (on_attr oob pointer_bytes))) with (os := os) (ls := @nil h5_object)
    (d := s1) (xss := xss) (d' := s2) as (c & es & Hscan & Hd & _).
  { intros f [= <-] o o' Heq. unfold on_obj. by rewrite Heq. }
  { exact Hr. }
  exists s2. split; [|done]. unfold parse_hdf5_file, scan_into_index, mbind, st_bind. cbn [st_modify].
  fold s1 os. unfold mbind, outcome_bind. by rewrite Hscan, Hd.
Qed.

(** ** Several files *)
Fixpoint parse_files (fps : list (list Z)) : idx unit :=
  match fps with
  | [] => mret tt
  | fp :: fps => _ ← parse_hdf5_file oob pointer_bytes H5 fp; parse_files fps
  end.
Fixpoint files_attrs (prev : option (list Z)) (fps : list (list Z)) : list miqs_meta_attribute :=
  match fps with
  | [] => []
  | fp :: fps => file_attrs fp prev (H5 fp) ++ files_attrs (last_obj prev (H5 fp)) fps
  end.
Fixpoint files_started (prev : option (list Z)) (fps : list (list Z)) : Prop :=
  match fps with
  | [] => True
  | fp :: fps => started prev (H5 fp) ∧ files_started (last_obj prev (H5 fp)) fps
  end.

Lemma parse_files_ok fps s lg n fp0 prev :
  anchor_is s lg n fp0 prev → Forall (λ fp, readable (H5 fp)) fps → files_started prev fps →
  Forall (attr_ok is_flt P strings) (files_attrs prev fps) →
  (Z.of_nat (n + count (files_attrs prev fps)) ≤ MAX_LEN)%Z →
  ∃ s' nm, parse_files fps s = Ret (tt, s') ∧
    index_is is_flt P strings s' nm (lg ++ entries (files_attrs prev fps)) (n + count (files_attrs prev fps)).
Proof.
  revert s lg n fp0 prev. induction fps as [|fp fps IH]; intros s lg n fp0 prev Hs Hrd Hst Hok Hn.
  { destruct Hs as [[nm His] _]. exists s, nm. cbn. rewrite app_nil_r, Nat.add_0_r. done. }
  inversion Hrd as [|? ? Hr Hrd']; subst. destruct Hst as [Hst1 Hst2].
  cbn [files_attrs] in *. apply Forall_app in Hok as [Hok1 Hok2].
  unfold count in Hn. rewrite sum_list_with_app in Hn.
  destruct (parse_hdf5_file_ok fp s lg n fp0 prev Hs Hr Hst1 Hok1 ltac:(unfold count; lia)) as (s1 & Hr1 & Hs1).
  destruct (IH s1 _ _ _ _ Hs1 Hrd' Hst2 Hok2 ltac:(unfold count in *; lia)) as (s2 & nm & Hr2 & Hs2).
  exists s2, nm. split.
  - cbn [parse_files]. unfold mbind, st_bind. by rewrite Hr1.
  - unfold entries, count in *. rewrite bind_app, sum_list_with_app.
    rewrite <-app_assoc, <-Nat.add_assoc in Hs2. exact Hs2.
Qed.

End Indexed.

(** ** Witnesses *)

(** A file with the root group ".", and two datasets "a" and "b" that carry an
    integer attribute "n". *)
Definition h5_n (v : Z) : h5_attribute := mk_h5a [110]%Z H5T_INTEGER 1 4 false (int_bytes v) [].
Definition h5_objects : list h5_object :=
  [mk_h5o [46]%Z H5O_TYPE_GROUP []; mk_h5o [97]%Z H5O_TYPE_DATASET [h5_n 5];
   mk_h5o [98]%Z H5O_TYPE_DATASET [h5_n 5; h5_n 7; h5_n 9]].
Definition h5_one (fp : list Z) : list h5_object := if bool_decide (fp = [102]%Z) then h5_objects else [].


Definition record_name (o : miqs_data_object) : st (list (list Z)) Z := λ d, Ret (1%Z, d ++ [obj_name o]).

Lemma scan_collects_witness :
  ∃ s, scan_hdf5 (Some record_name) None h5_objects [] false (init_metadata_collector 0 [] None) = Ret (1%Z, s) ∧
    opdata s = [[46]; [97]; [98]]%Z ∧ num_objs s = 3%Z ∧
    let objs := objs_from (objects s) 3 (object_linked_list s) in
    (obj_name <$> objs) = [[46]; [97]; [98]]%Z ∧ (num_attrs <$> objs) = [0; 2; 6]%Z ∧
    ((λ o, attrs_from (attributes s) (Z.to_nat (num_attrs o)) (attr_linked_list o)) <$> objs)
      = [[]; [mk_attr [110]%Z MIQS_AT_INTEGER (ANum (int_bytes 5)) 1 [] []];
         [mk_attr [110]%Z MIQS_AT_INTEGER (ANum (int_bytes 5)) 1 [] [];
          mk_attr [110]%Z MIQS_AT_INTEGER (ANum (int_bytes 9)) 1 [] []]].
Proof.
  apply (scan_collects (Some record_name) None h5_objects [] []
    [[]; [mk_attr [110]%Z MIQS_AT_INTEGER (ANum (int_bytes 5)) 1 [] []];
     [mk_attr [110]%Z MIQS_AT_INTEGER (ANum (int_bytes 5)) 1 [] [];
      mk_attr [110]%Z MIQS_AT_INTEGER (ANum (int_bytes 7)) 1 [] [];
      mk_attr [110]%Z MIQS_AT_INTEGER (ANum (int_bytes 9)) 1 [] []]] [[46]; [97]; [98]]%Z).
  - intros f [= <-] o o' Heq. unfold record_name. by rewrite Heq.
  - reflexivity.
Defined.

(** de_init_metadata_collector frees what the lists reach: of the four
    attributes of the example, the second one of "b" is not freed. *)
Theorem de_init_leaks :
  ∃ s s' fr, scan_hdf5 (Some record_name) None h5_objects [] false (init_metadata_collector 0 [] None) = Ret (1%Z, s) ∧
    de_init_metadata_collector s = Ret (fr, s') ∧ objects s' = ∅ ∧ stdpp.base.size (attributes s') = 1.
Proof. eexists _, _, _. split; [vm_compute; reflexivity|]. split; [vm_compute; reflexivity|]. by vm_compute. Qed.
