(* ===== verification/MdbDump.v ===== *)
(** * The MDB file: the bytes a dump writes

    An index on one partition, without string attributes, is dumped to the
    bytes of a document: the attribute names, per name the values, per value
    the pairs of path positions.  The document is related to the log of the
    index, and the dump leaves the index as it was. *)
From S2P Require Import Prelude Heap Art ArtMap RbTree RbTreeAdd RbTreeRep RbTreeMap Comparators LinkedList LinkedListRep LinkedListSpec BinFile Metadata OnDiskIndex InMemIndex Mdb IndexInv IndexAdd IndexRun.

(** ** The lists of paths *)
(** A 64-bit integer read back from its bytes. *)
Lemma deref_u64_split x : in_u64 x → deref_u64 (Some (le_split 8 x)) = Ret x.
Proof.
  intros Hx. unfold deref_u64. cbn [deref mbind outcome_bind].
  rewrite bool_decide_eq_true_2 by (rewrite length_le_split; lia).
  rewrite take_ge by (by rewrite length_le_split). by rewrite le_split_u64.
Qed.

Lemma deref_int_bytes x : in_i32 x → deref_int (Some (int_bytes x)) = Ret x.
Proof.
  intros Hx. unfold deref_int. cbn [deref mbind outcome_bind].
  rewrite bool_decide_eq_true_2 by (rewrite length_int_bytes; lia). by rewrite int_bytes_decode.
Qed.

(** ** Path lists *)
Section Paths.
Implicit Types (ll : linked_list tagged_value) (tags : list (list Z)).

(** The bytes of the paths from position [i] on. *)
Fixpoint path_bytes (i : nat) tags : list Z :=
  match tags with
  | [] => []
  | t :: tags => string_field t ++ size_t_field (Z.of_nat i) ++ path_bytes (S i) tags
  end.
Definition path_region tags : list Z := size_t_field (Z.of_nat (length tags)) ++ path_bytes 0 tags.

Lemma append_path_step stream t i j :
  storable t → (Z.of_nat i ≤ MAX_LEN)%Z →
  append_path (Ret stream) (Some (path_entry i t)) j
  = (Ret (stream ++ string_field t ++ size_t_field (Z.of_nat i)), 1%Z).
Proof.
  intros Ht Hi. unfold append_path, mbind, outcome_bind. cbn [deref].
  assert (deref_u64 (Some (tv_value (path_entry i t))) = Ret (Z.of_nat i)) as ->.
  { unfold deref_u64. cbn [deref mbind outcome_bind]. rewrite path_position by done. done. }
  rewrite tag_path_entry by done. by rewrite append_size_t_app, append_string_app, <-app_assoc.
Qed.

Lemma foreach_paths tags i j stream :
  Forall storable tags → (Z.of_nat (i + length tags) ≤ MAX_LEN)%Z →
  (foreach_spec append_path (Some <$> imap (λ k, path_entry (i + k)) tags) j (Ret stream)).1
  = Ret (stream ++ path_bytes i tags).
Proof.
  intros Hc. revert i j stream. induction Hc as [|t tags Ht Hc IH]; intros i j stream Hn.
  { simpl. by rewrite app_nil_r. }
  rewrite imap_cons. cbn [fmap list_fmap foreach_spec path_bytes length] in Hn |- *.
  rewrite Nat.add_0_r, append_path_step by (done || lia). rewrite bool_decide_eq_false_2 by done.
  replace (imap ((λ k, path_entry (i + k)) ∘ S) tags) with (imap (λ k, path_entry (S i + k)) tags)
    by (apply imap_ext; intros; simpl; f_equal; lia).
  rewrite IH by lia. by rewrite <-!app_assoc.
Qed.

Lemma append_path_keeps : keeps append_path.
Proof. by intros d v i. Qed.

Lemma append_path_list_bytes ll tags stream :
  path_list ll tags →
  ∃ ll', append_path_list stream ll = Ret (stream ++ path_region tags, ll') ∧ path_list ll' tags.
Proof.
  intros [Hl Hc]. destruct (list_is_length _ _ Hl) as [Hlen Hmax].
  rewrite length_fmap, length_imap in Hlen, Hmax.
  destruct (list_foreach_value_is append_path ll _ (Ret (miqs_append_size_t (l_length ll) stream)) Hl
    append_path_keeps) as (ll' & Hrun & Hl').
  exists ll'. split; [|done]. unfold append_path_list. rewrite Hrun.
  pose proof (foreach_paths tags 0 0 (miqs_append_size_t (l_length ll) stream) Hc Hmax) as Hf.
  change (imap (λ k, path_entry (0 + k)) tags) with (imap path_entry tags) in Hf.
  destruct (foreach_spec _ _ _ _) as [u n]. simpl in Hf. subst u. cbn [mbind outcome_bind].
  rewrite append_size_t_app, Hlen. unfold path_region. by rewrite <-app_assoc.
Qed.

Lemma read_paths_ok tags pre ll rest :
  path_list ll pre → Forall storable tags → (Z.of_nat (length pre + length tags) ≤ MAX_LEN)%Z →
  ∃ ll', read_paths (length tags) 0 (path_bytes (length pre) tags ++ rest) ll = Ret ((0%Z, rest), ll')
       ∧ path_list ll' (pre ++ tags).
Proof.
  intros Hl Hs. revert pre ll Hl. induction Hs as [|t tags Ht Hs IH]; intros pre ll Hl Hn.
  { exists ll. by rewrite app_nil_r. }
  cbn [length read_paths path_bytes] in *. rewrite <-!app_assoc, read_string_field, read_size_t_field by done.
  rewrite deref_u64_split by (unfold in_u64, MAX_LEN in *; lia).
  fold (path_entry (length pre) t). destruct Hl as [(xs & Hr & Hv) Hc].
  pose proof (f_equal length Hv) as Hxs. rewrite length_values, length_fmap, length_imap in Hxs.
  pose proof (insert_value_wp ll xs true (Some (path_entry (length pre) t)) (length pre) Hr
    ltac:(lia)) as Hwp.
  apply wp_run in Hwp as (rc & l2 & Hrun & -> & Hl2).
  unfold mbind, st_bind. unfold list_insert_tagged_value. rewrite Hrun. cbn [Z.lor].
  destruct (IH (pre ++ [t]) l2) as (l3 & Hr3 & Hl3).
  - split; [|apply Forall_app; split; [done|constructor; [done|done]]].
    rewrite imap_app, fmap_app. rewrite Hv in Hl2. unfold insert_at in Hl2.
    rewrite length_fmap, length_imap, Nat.sub_diag in Hl2.
    rewrite take_ge, drop_ge in Hl2 by (by rewrite length_fmap, length_imap).
    cbn [imap fmap list_fmap app] in *. by rewrite Nat.add_0_r.
  - rewrite length_app. simpl. lia.
  - rewrite length_app, Nat.add_1_r in Hr3. exists l3. rewrite <-app_assoc in Hl3. done.
Qed.

Lemma read_into_path_list_ok tags rest :
  Forall storable tags → (Z.of_nat (length tags) ≤ MAX_LEN)%Z →
  ∃ ll, read_into_path_list (path_region tags ++ rest) list_create = Ret ((1%Z, rest), ll) ∧ path_list ll tags.
Proof.
  intros Hs Hmax.
  destruct (read_paths_ok tags [] list_create rest) as (ll & Hr & Hl);
    [split; [apply list_is_create|constructor]|done|done|].
  exists ll. split; [|done]. unfold read_into_path_list, path_region.
  rewrite <-app_assoc, read_size_t_field, deref_u64_split by (unfold in_u64, MAX_LEN in *; lia).
  rewrite Nat2Z.id. unfold mbind, st_bind. simpl length in Hr. by rewrite Hr.
Qed.
End Paths.

(** ** Documents and their bytes *)
Notation values_doc := (list (list Z * list file_obj_pair)) (only parsing).
Notation doc := (list (list Z * list (list Z * list file_obj_pair))) (only parsing).

Definition key_type (b : bool) : miqs_attr_type := if b then MIQS_AT_FLOAT else MIQS_AT_INTEGER.
Definition pair_bytes (p : file_obj_pair) : list Z :=
  size_t_field (file_list_pos p) ++ size_t_field (obj_list_pos p).
Definition pairs_bytes (ps : list file_obj_pair) : list Z :=
  size_t_field (Z.of_nat (length ps)) ++ mjoin (pair_bytes <$> ps).
Definition value_node_bytes (b : bool) (kp : list Z * list file_obj_pair) : list Z :=
  value_field (key_type b) kp.1 ++ pairs_bytes kp.2.
Definition attr_node_bytes (is_flt : list Z → bool) (nv : list Z * values_doc) : list Z :=
  string_field nv.1 ++ int_field (int_of_type (key_type (is_flt nv.1)))
  ++ uint64_field (Z.of_nat (length nv.2)) ++ mjoin (value_node_bytes (is_flt nv.1) <$> nv.2).
Definition root_bytes (is_flt : list Z → bool) (d : doc) : list Z :=
  uint64_field (Z.of_nat (length d)) ++ mjoin (attr_node_bytes is_flt <$> d).

(** ** Lists of pairs *)

(** States that differ in list cursors only. *)
Record same (s s' : index_anchor) : Prop := {
  same_par : parallelism s' = parallelism s;
  same_arts : root_art_array s' = root_art_array s;
  same_attrs : attr_leaves s' = attr_leaves s;
  same_next : next_loc s' = next_loc s;
  same_files : file_paths_list s' = file_paths_list s;
  same_objects : object_paths_list s' = object_paths_list s;
  same_values v ll vs : value_leaves s !! v = Some ll → list_is ll vs →
    ∃ ll', value_leaves s' !! v = Some ll' ∧ list_is ll' vs
}.
#[export] Instance same_refl : Reflexive same.
Proof. intros s. split; eauto. Qed.
#[export] Instance same_trans : Transitive same.
Proof.
  intros s1 s2 s3 [] []. split; try congruence. intros v ll vs Hv Hl.
  destruct (same_values0 v ll vs Hv Hl) as (l2 & ? & ?). eauto.
Qed.

Lemma foreach_pairs ps j stream :
  (foreach_spec append_file_obj_pair (Some <$> ps) j (Ret stream)).1 = Ret (stream ++ mjoin (pair_bytes <$> ps)).
Proof.
  revert j stream. induction ps as [|p ps IH]; intros j stream; [simpl; by rewrite app_nil_r|].
  cbn [fmap list_fmap foreach_spec append_file_obj_pair deref mbind outcome_bind].
  rewrite bool_decide_eq_false_2 by done. rewrite IH, !append_size_t_app.
  cbn [mjoin list_join]. unfold pair_bytes. by rewrite <-!app_assoc.
Qed.

Lemma append_pairs_keeps : keeps append_file_obj_pair.
Proof. by intros d v i. Qed.

Lemma append_pairs_ok s v ll ps stream :
  value_leaves s !! v = Some ll → list_is ll (Some <$> ps) →
  ∃ s', append_file_obj_pair_linked_list v stream s = Ret (stream ++ pairs_bytes ps, s') ∧ same s s'.
Proof.
  intros Hv Hl. destruct (list_is_length _ _ Hl) as [Hlen _]. rewrite length_fmap in Hlen.
  destruct (list_foreach_value_is append_file_obj_pair ll _ (Ret (miqs_append_size_t (l_length ll) stream)) Hl
    append_pairs_keeps) as (ll' & Hrun & Hl').
  exists (set_leaves (attr_leaves s) (<[v := ll']> (value_leaves s)) (next_loc s) s). split.
  - unfold append_file_obj_pair_linked_list. rewrite Hv. cbn [deref mbind outcome_bind]. rewrite Hrun.
    pose proof (foreach_pairs ps 0 (miqs_append_size_t (l_length ll) stream)) as Hf.
    destruct (foreach_spec _ _ _ _) as [u i]. simpl in Hf. subst u. cbn [mbind outcome_bind].
    rewrite append_size_t_app, Hlen. unfold pairs_bytes. by rewrite <-app_assoc.
  - split; try done. cbn. intros w lw vs Hw Hlw. destruct (decide (v = w)) as [<-|Hne].
    + rewrite lookup_insert_eq. simplify_eq. exists ll'. split; [done|].
      by rewrite (list_is_inj ll _ _ Hlw Hl).
    + rewrite lookup_insert_ne by done. eauto.
Qed.

(** ** Values and attributes *)

(** The value leaf of a node holds the pairs of the document. *)
Definition value_holds (s : index_anchor) (kv : list Z * loc) (kp : list Z * list file_obj_pair) : Prop :=
  kp.1 = kv.1 ∧ ∃ ll, value_leaves s !! kv.2 = Some ll ∧ list_is ll (Some <$> kp.2).

Lemma value_holds_same s s' kv kp : same s s' → value_holds s kv kp → value_holds s' kv kp.
Proof. intros Hs [Hk (ll & Hv & Hl)]. split; [done|]. by eapply (same_values _ _ Hs). Qed.

Definition append_value_node (b : bool) : outcome (list Z * index_anchor) → list Z → loc →
    outcome (list Z * index_anchor) * Z :=
  if b then append_float_value_node else append_int_value_node.

Lemma append_value_node_ok b s k v kp stream :
  value_holds s (k, v) kp → value_bytes (key_type b) (Some k) →
  ∃ s', (append_value_node b (Ret (stream, s)) k v).1 = Ret (stream ++ value_node_bytes b kp, s') ∧ same s s'.
Proof.
  intros [Hk (ll & Hv & Hl)] Hb. simpl in Hk, Hv.
  pose proof (append_value_app (key_type b) (Some k) stream Hb) as Ha.
  destruct (append_pairs_ok s v ll kp.2 (stream ++ value_field (key_type b) k) Hv Hl) as (s' & Hr & Hs).
  exists s'. split; [|done]. unfold value_node_bytes. rewrite Hk, app_assoc, <-Hr.
  destruct b; cbn [append_value_node append_float_value_node append_int_value_node key_type append_value fst then_ mbind
    outcome_bind default from_option id] in Ha |- *.
  - unfold mbind, st_bind, lift. apply bind_Ret in Ha as (x & Hx & [= Hy]).
    rewrite Hx. cbn [mbind outcome_bind]. by rewrite Hy.
  - unfold mbind, st_bind, lift. apply bind_Ret in Ha as (x & Hx & [= Hy]).
    rewrite Hx. cbn [mbind outcome_bind]. by rewrite Hy.
Qed.

Lemma append_values_ok b kvs ds s stream :
  Forall2 (value_holds s) kvs ds → Forall (λ kv, value_bytes (key_type b) (Some kv.1)) kvs →
  ∃ s', run (append_value_node b) (Ret (stream, s)) kvs
        = Ret (stream ++ mjoin (value_node_bytes b <$> ds), s') ∧ same s s'.
Proof.
  revert ds s stream. induction kvs as [|[k v] kvs IH]; intros ds s stream Hds Hb.
  - inversion Hds; subst. exists s. split; [|done]. simpl. by rewrite app_nil_r.
  - inversion Hds as [|? kp ? ds' Hkp Hds']; subst. inversion Hb as [|? ? Hk Hks]; subst. simpl in Hk.
    destruct (append_value_node_ok b s k v kp stream Hkp Hk) as (s1 & Hr1 & Hs1).
    destruct (IH ds' s1 (stream ++ value_node_bytes b kp)) as (s2 & Hr2 & Hs2);
      [by eapply Forall2_impl; [exact Hds'|]; intros; eapply value_holds_same|done|].
    exists s2. split; [|by etrans]. unfold run in *. cbn [foldl fst snd]. rewrite Hr1, Hr2.
    cbn [fmap list_fmap mjoin list_join]. by rewrite <-app_assoc.
Qed.

Lemma append_value_node_continues b : continues (append_value_node b).
Proof. by destruct b. Qed.

Section Attr.
Context (is_flt : list Z → bool).

(** The attribute leaf of a name holds the values of the document. *)
Definition leaf_holds (s : index_anchor) (na : list Z * loc) (nv : list Z * values_doc) : Prop :=
  nv.1 = na.1 ∧ ∃ l r t, attr_leaves s !! na.2 = Some l ∧ is_numeric l = true ∧ is_float l = is_flt na.1
    ∧ leaf_rbt l = Some (is_flt na.1, r) ∧ at_ r [] t (next r) (rsize r) (freed r)
    ∧ Forall2 (value_holds s) (preorder t) nv.2 ∧ in_u64 (Z.of_nat (length nv.2))
    ∧ Forall (λ kv, value_bytes (key_type (is_flt na.1)) (Some kv.1)) (preorder t).

Lemma leaf_holds_same s s' na nv : same s s' → leaf_holds s na nv → leaf_holds s' na nv.
Proof.
  intros Hs (Hn & l & r & t & Hl & H1 & H2 & H3 & H4 & H5 & H6). split; [done|]. exists l, r, t.
  rewrite (same_attrs _ _ Hs). do 5 (split; [done|]). split; [|done].
  eapply Forall2_impl; [exact H5|]. intros. by eapply value_holds_same.
Qed.

(** Walking the tree of a leaf changes nothing but what the callback does. *)
Lemma on_rbt_walk {D} (cb : D → list Z → loc → D * Z) s a l b r t d :
  continues cb → attr_leaves s !! a = Some l → leaf_rbt l = Some (b, r) →
  at_ r [] t (next r) (rsize r) (freed r) →
  on_rbt a (λ dbl, rbt_walk (rbt_cmp dbl) true cb d) s
  = Ret ((run cb d (preorder t), Z.of_nat (count t)), s).
Proof.
  intros Hc Hl Hr Hat. unfold on_rbt, ld_leaf, upd_leaf, lift, mbind, st_bind. rewrite Hl, Hr.
  cbn [deref mbind outcome_bind]. unfold rbt_walk, rbt_cmp.
  rewrite (walk_root_ok _ true cb Hc false r t d Hat). cbn [outcome_bind visit]. rewrite Hl.
  unfold mret, st_ret. f_equal. f_equal. destruct s, l; cbn in *. unfold set_leaves. cbn.
  rewrite <-Hr. by rewrite insert_id.
Qed.

Lemma count_run (kvs : list (list Z * loc)) c :
  run rbt_size_cb (u64 c) kvs = u64 (c + Z.of_nat (length kvs)).
Proof.
  revert c. induction kvs as [|[k v] kvs IH]; intros c; unfold run in *; cbn [foldl fst snd rbt_size_cb length].
  - by rewrite Z.add_0_r.
  - replace (u64 (u64 c + 1)) with (u64 (c + 1)) by (unfold u64; by rewrite Zplus_mod_idemp_l).
    rewrite IH. f_equal. lia.
Qed.

Lemma append_numeric_value_tree_ok s name a ds stream :
  leaf_holds s (name, a) (name, ds) →
  ∃ s', append_numeric_value_tree a stream s
      = Ret (stream ++ int_field (int_of_type (key_type (is_flt name))) ++ uint64_field (Z.of_nat (length ds))
             ++ mjoin (value_node_bytes (is_flt name) <$> ds), s') ∧ same s s'.
Proof.
  intros (_ & l & r & t & Hl & Hn & Hf & Hr & Hat & Hds & Hlen & Hb). cbn [fst snd] in *.
  pose proof (Forall2_length _ _ _ Hds) as Hlds.
  set (b := is_flt name) in *. unfold append_numeric_value_tree, mbind, st_bind.
  unfold ld_leaf at 1. rewrite Hl.
  assert (continues rbt_size_cb) as Hsz by done.
  rewrite (on_rbt_walk rbt_size_cb s a l b r t _ Hsz Hl Hr Hat). cbn [st_get].
  change 0%Z with (u64 0) at 1. rewrite count_run, Z.add_0_l, Hlds, u64_id by done.
  replace (if is_float l then append_float_value_node else append_int_value_node) with (append_value_node b)
    by (by rewrite Hf).
  unfold st_get. rewrite (on_rbt_walk _ s a l b r t _ (append_value_node_continues b) Hl Hr Hat).
  destruct (append_values_ok b (preorder t) ds s
    (miqs_append_uint64 (Z.of_nat (length ds)) (miqs_append_type (if is_float l then 2 else 1) stream)) Hds Hb)
    as (s' & -> & Hs).
  cbn [lift mbind outcome_bind]. unfold st_modify. eexists. split; [|].
  - unfold mret, st_ret. rewrite append_uint64_app. unfold miqs_append_type. rewrite append_int_app, Hf.
    rewrite <-!app_assoc. by destruct b.
  - split; try done. cbn. apply (same_values _ _ Hs).
Qed.

Lemma append_attr_name_node_ok s name a nv stream :
  leaf_holds s (name, a) nv →
  ∃ s', append_attr_name_node (Ret (stream, s)) name a = (Ret (stream ++ attr_node_bytes is_flt nv, s'), 0%Z)
      ∧ same s s'.
Proof.
  destruct nv as [name' ds]. intros Hh. assert (name' = name) as -> by apply Hh.
  destruct (append_numeric_value_tree_ok s name a ds (stream ++ string_field name) Hh) as (s' & Hr & Hs).
  exists s'. split; [|done]. unfold append_attr_name_node, then_. cbn [mbind outcome_bind].
  destruct Hh as (_ & l & _ & _ & Hl & Hn & _). cbn [snd] in Hl. unfold mbind, st_bind, ld_leaf. rewrite Hl, Hn.
  fold (miqs_append_string name stream). rewrite append_string_app, Hr. unfold attr_node_bytes.
  cbn [fst snd]. by rewrite <-!app_assoc.
Qed.

Lemma append_attrs_ok nas d s stream :
  Forall2 (leaf_holds s) nas d →
  ∃ s', iter_list append_attr_name_node nas (Ret (stream, s))
        = (Ret (stream ++ mjoin (attr_node_bytes is_flt <$> d), s'), 0%Z) ∧ same s s'.
Proof.
  revert d s stream. induction nas as [|[name a] nas IH]; intros d s stream Hd.
  - inversion Hd; subst. exists s. split; [|done]. simpl. by rewrite app_nil_r.
  - inversion Hd as [|? nv ? d' Hnv Hd']; subst.
    destruct (append_attr_name_node_ok s name a nv stream Hnv) as (s1 & Hr1 & Hs1).
    destruct (IH d' s1 (stream ++ attr_node_bytes is_flt nv)) as (s2 & Hr2 & Hs2);
      [by eapply Forall2_impl; [exact Hd'|]; intros; eapply leaf_holds_same|].
    exists s2. split; [|by etrans]. cbn [iter_list fst snd]. rewrite Hr1. rewrite bool_decide_eq_false_2 by auto.
    rewrite Hr2. cbn [fmap list_fmap mjoin list_join]. by rewrite <-app_assoc.
Qed.

Lemma count_iter (kvs : list (list Z * loc)) c :
  iter_list size_incr kvs (u64 c) = (u64 (c + Z.of_nat (length kvs)), 0%Z).
Proof.
  revert c. induction kvs as [|[k v] kvs IH]; intros c; cbn [iter_list fst snd size_incr length].
  - by rewrite Z.add_0_r.
  - rewrite bool_decide_eq_false_2 by auto.
    replace (u64 (u64 c + 1)) with (u64 (c + 1)) by (unfold u64; by rewrite Zplus_mod_idemp_l).
    rewrite IH. do 2 f_equal. lia.
Qed.

Lemma append_attr_root_tree_ok s t d stream :
  art_ok t → Forall2 (leaf_holds s) (contents t) d → in_u64 (Z.of_nat (length d)) →
  ∃ s', append_attr_root_tree t stream s = Ret (stream ++ root_bytes is_flt d, s') ∧ same s s'.
Proof.
  intros Ht Hd Hlen. unfold append_attr_root_tree, art_iter_size. rewrite !art_iter_list by done.
  change 0%Z with (u64 0). rewrite count_iter, Z.add_0_l. cbn [fst].
  rewrite (Forall2_length _ _ _ Hd), u64_id, append_uint64_app by done.
  destruct (append_attrs_ok (contents t) d s (stream ++ uint64_field (Z.of_nat (length d))) Hd)
    as (s' & -> & Hs).
  exists s'. split; [|done]. unfold root_bytes. cbn [fst]. by rewrite <-app_assoc.
Qed.
End Attr.

(** ** The document of an index *)
Lemma Forall_choose {A B} (R : A → B → Prop) l : Forall (λ x, ∃ y, R x y) l → ∃ l', Forall2 R l l'.
Proof.
  induction 1 as [|x l [y Hy] _ [l' IH]]; [by exists []|]. exists (y :: l'). by constructor.
Qed.

Lemma answers_elem (lg : list (list Z * list Z * (list Z * list Z))) name k :
  answers lg name k ≠ [] → (name, k) ∈ lg.*1.
Proof.
  unfold answers. intros Hne. destruct (filter _ lg) as [|e es] eqn:Hf; [done|].
  assert (e ∈ filter (λ e, e.1 = (name, k)) lg) as He by (rewrite Hf; by left).
  apply list_elem_of_filter in He as [<- He]. by apply list_elem_of_fmap_2.
Qed.

Section Doc.
Context (is_flt : list Z → bool) (P : bool → list Z → Prop).
Context `{HKO : ∀ b, KeyOrder (P b) (rbt_compare_keys (rbt_cmp b))}.
Context (HP : ∀ b k, P b k → value_bytes (key_type b) (Some k)).
Implicit Types (s : index_anchor) (nm : gmap loc (option (list Z))) (own : gmap loc (option (list Z * list Z))).
Notation index_inv := (index_inv is_flt P false).
Notation index_is := (index_is is_flt P false).

(** The pairs of a value stand for the logged paths. *)
Definition value_logged fps ops lg (name : list Z) (kp : list Z * list file_obj_pair) : Prop :=
  P (is_flt name) kp.1 ∧ answers lg name kp.1 ≠ [] ∧ Forall2 (resolves fps ops) kp.2 (answers lg name kp.1).
Definition attr_logged fps ops lg (nv : list Z * values_doc) : Prop :=
  storable nv.1 ∧ NoDup nv.2.*1 ∧ Forall (value_logged fps ops lg nv.1) nv.2.
Record doc_ok fps ops lg (d : doc) : Prop := {
  doc_names : NoDup d.*1;
  doc_attrs : Forall (attr_logged fps ops lg) d;
  doc_all name k : answers lg name k ≠ [] → ∃ vs, (name, vs) ∈ d ∧ k ∈ vs.*1
}.

Lemma values_bound fps ops lg nv : attr_logged fps ops lg nv → length nv.2 ≤ length lg.
Proof.
  intros (_ & Hnd & Hv). rewrite <-(length_fmap fst nv.2), <-(length_fmap (pair nv.1) nv.2.*1), <-(length_fmap fst lg).
  apply submseteq_length, NoDup_submseteq.
  - apply NoDup_fmap_2; [|done]. by intros ?? [=].
  - intros x (k & -> & (kp & -> & Hin)%list_elem_of_fmap_1)%list_elem_of_fmap_1. rewrite Forall_forall in Hv.
    apply Hv in Hin as (_ & Ha & _). by apply answers_elem.
Qed.

Lemma value_doc s own nm fps ops lg n name k v :
  index_inv s own nm fps ops lg n → filled own lg None → own !! v = Some (Some (name, k)) → P (is_flt name) k →
  ∃ kp, value_holds s (k, v) kp ∧ value_logged fps ops lg name kp.
Proof.
  intros Hinv Hfill Hv Hk. destruct (inv_value _ _ _ _ _ _ _ _ _ _ Hinv v _ Hv) as (ll & Hll & ps & fos & Hl & _ & Hres & Ha).
  rewrite (Ha name k eq_refl) in Hres. exists (k, ps). split; [by split; [|by exists ll]|].
  split; [done|]. split; [|done]. by destruct (Hfill v name k Hv).
Qed.

Lemma leaf_doc s own nm fps ops lg n a name :
  index_inv s own nm fps ops lg n → filled own lg None → (Z.of_nat n ≤ MAX_LEN)%Z → nm !! a = Some (Some name) →
  ∃ nv, leaf_holds is_flt s (name, a) nv ∧ attr_logged fps ops lg nv
      ∧ ∀ k, answers lg name k ≠ [] → k ∈ nv.2.*1.
Proof.
  intros Hinv Hfill Hn Ha. destruct (inv_leaf _ _ _ _ _ _ _ _ _ _ Hinv a _ Ha) as (l & Hl & [_ Hnm Hrbt]).
  destruct (Hnm name eq_refl) as [Hst Hnum]. destruct (Hnum eq_refl) as [Hnum' _].
  destruct (Hrbt name eq_refl) as (Hf & r & m & Hr & (t & Hrep & <-) & Hm & Hnone).
  pose proof (rep_ordered _ _ _ _ Hrep) as Ho. pose proof (ordered_NoDup _ _ t Ho) as Hnd.
  pose proof (visit_perm false t) as Hperm. cbn [visit] in Hperm.
  assert (∀ k v, (k, v) ∈ preorder t → own !! v = Some (Some (name, k)) ∧ P (is_flt name) k) as Hown.
  { intros k v Hin. rewrite Hperm in Hin. 
    split; [by apply Hm, (tree_map_lookup (rbt_cmp (is_flt name)) (P (is_flt name)))|].
    destruct Ho as [_ HoP]. rewrite Forall_forall in HoP. apply HoP. by apply (list_elem_of_fmap_2 fst _ (k, v)). }
  destruct (Forall_choose (λ kv kp, value_holds s kv kp ∧ value_logged fps ops lg name kp) (preorder t)) as [vs Hvs].
  { apply Forall_forall. intros [k v] [H1 H2]%Hown. by eapply value_doc. }
  assert (vs.*1 = (preorder t).*1) as Hkeys.
  { clear -Hvs. induction Hvs as [|? ? ? ? [[Hk _] _] _ IH]; [done|]. cbn [fmap list_fmap]. f_equal; [done|exact IH]. }
  assert (attr_logged fps ops lg (name, vs)) as Hlog.
  { split; [done|]. split; [cbn [snd]; rewrite Hkeys; by rewrite Hperm|].
    apply Forall_forall. intros kp Hin. eapply list_elem_of_lookup_1 in Hin as [i Hi].
    eapply Forall2_lookup_r in Hvs as (? & _ & _ & ?); done. }
  exists (name, vs). split; [|split; [done|]].
  - split; [done|]. exists l, r, t. do 4 (split; [done|]). split; [apply Hrep|].
    split; [eapply Forall2_impl; [exact Hvs|]; by intros ?? []|]. split.
    + pose proof (values_bound _ _ _ _ Hlog). pose proof (inv_count _ _ _ _ _ _ _ _ _ _ Hinv).
      unfold in_u64, MAX_LEN in *. lia.
    + apply Forall_forall. intros [k v] [_ Hk]%Hown. by apply HP.
  - intros k Hk. cbn [snd]. rewrite Hkeys, Hperm. destruct (tree_map t !! k) as [v|] eqn:Hv.
    + apply (tree_map_lookup (rbt_cmp (is_flt name)) (P (is_flt name)) t k v Ho) in Hv. by apply (list_elem_of_fmap_2 fst _ (k, v)).
    + by apply Hnone in Hv.
Qed.

Lemma named_contents s own nm fps ops lg n t :
  index_inv s own nm fps ops lg n → parallelism s = 1%Z → root_art_array s !! 0 = Some t →
  ∀ name a, (name, a) ∈ contents t ↔ nm !! a = Some (Some name).
Proof.
  intros Hinv Hp Ht name a. rewrite <-(inv_name _ _ _ _ _ _ _ _ _ _ Hinv). unfold attr_at.
  pose proof (partition_range (parallelism s) name (inv_par _ _ _ _ _ _ _ _ _ _ Hinv)) as Hr.
  replace (Z.to_nat (partition_of (parallelism s) name)) with 0 by lia. rewrite Ht. cbn.
  symmetry. apply art_map_lookup. by eapply (inv_art _ _ _ _ _ _ _ _ _ _ Hinv).
Qed.

Lemma contents_bound nm (nas : list (list Z * loc)) :
  NoDup nas.*1 → (∀ name a, (name, a) ∈ nas → nm !! a = Some (Some name)) → length nas ≤ size nm.
Proof.
  intros Hnd Hnm. rewrite <-size_dom, <-(length_fmap snd nas).
  assert (NoDup nas.*2) as Hnd2.
  { apply (NoDup_fmap_1 (λ a, nm !! a)). replace ((λ a, nm !! a) <$> nas.*2) with ((λ x, Some (Some x)) <$> nas.*1).
    - apply NoDup_fmap_2; [|done]. by intros ?? [=].
    - rewrite <-!list_fmap_compose. apply list_fmap_ext. intros i [name a] Hi. cbn. symmetry.
      by eapply Hnm, list_elem_of_lookup_2. }
  rewrite <-(size_list_to_set (C := gset loc) nas.*2 Hnd2). apply subseteq_size.
  intros a Ha%elem_of_list_to_set. apply list_elem_of_fmap_1 in Ha as ([name b] & -> & Hin).
  apply elem_of_dom. cbn. rewrite (Hnm _ _ Hin). done.
Qed.

Lemma index_doc s own nm fps ops lg n t :
  index_inv s own nm fps ops lg n → filled own lg None → (Z.of_nat n ≤ MAX_LEN)%Z →
  parallelism s = 1%Z → root_art_array s !! 0 = Some t →
  ∃ d, Forall2 (leaf_holds is_flt s) (contents t) d ∧ doc_ok fps ops lg d ∧ length d ≤ size nm.
Proof.
  intros Hinv Hfill Hn Hp Ht. pose proof (named_contents _ _ _ _ _ _ _ _ Hinv Hp Ht) as Hnm.
  pose proof (contents_NoDup t (inv_art _ _ _ _ _ _ _ _ _ _ Hinv _ _ Ht)) as Hnd.
  destruct (Forall_choose (λ na nv, leaf_holds is_flt s na nv ∧ attr_logged fps ops lg nv
    ∧ ∀ k, answers lg na.1 k ≠ [] → k ∈ nv.2.*1) (contents t)) as [d Hd].
  { apply Forall_forall. intros [name a] Ha%Hnm. by eapply leaf_doc. }
  assert (d.*1 = (contents t).*1) as Hkeys.
  { clear -Hd. induction Hd as [|? ? ? ? [[Hk _] _] _ IH]; [done|]. cbn [fmap list_fmap]. f_equal; [done|exact IH]. }
  exists d. split; [eapply Forall2_impl; [exact Hd|]; by intros ?? []|]. split; [split|].
  - by rewrite Hkeys.
  - apply Forall_forall. intros nv [i Hi]%list_elem_of_lookup_1.
    by eapply Forall2_lookup_r in Hd as (? & _ & _ & ? & _).
  - intros name k Hk. destruct (attr_at s name) as [a|] eqn:Hat.
    + apply (inv_name _ _ _ _ _ _ _ _ _ _ Hinv), Hnm in Hat. apply list_elem_of_lookup_1 in Hat as [i Hi].
      eapply Forall2_lookup_l in Hd as ([name' vs] & Hi' & [Hn' _] & _ & Hall); [|exact Hi]. cbn in Hn'. subst name'.
      exists vs. split; [by eapply list_elem_of_lookup_2|by apply Hall].
    + exfalso. apply Hk. apply (inv_logged _ _ _ _ _ _ _ _ _ _ Hinv). intros a Ha.
      apply (inv_name _ _ _ _ _ _ _ _ _ _ Hinv) in Ha. congruence.
  - rewrite <-(Forall2_length _ _ _ Hd). apply contents_bound; [done|]. intros name a. apply Hnm.
Qed.

Lemma same_inv s s' own nm fps ops lg n :
  same s s' → index_inv s own nm fps ops lg n → index_inv s' own nm fps ops lg n.
Proof.
  intros [Sp Sa Sl Sn Sf So Sv] [Hpar Hal Hart Hname Hleaf Hval Hfps Hops How Hlog Hcnt Hfr].
  split; rewrite ?Sp, ?Sa, ?Sl, ?Sn, ?Sf, ?So; try done.
  - intros name a. unfold attr_at. rewrite Sa, Sp. apply Hname.
  - intros v o Hv. destruct (Hval v o Hv) as (ll & Hll & ps & fos & Hl & H). destruct (Sv v ll _ Hll Hl) as (ll' & ? & ?).
    exists ll'. split; [done|]. by exists ps, fos.
Qed.

(** One path list is rewritten with its cursor moved. *)
Lemma wp_append_paths (arr : index_anchor → list (linked_list tagged_value)) set s tags n stream
    (Q : list Z → index_anchor → Prop) :
  paths_are (arr s) [tags] n →
  (∀ ll, path_list ll tags → paths_are [ll] [tags] n →
     Q (stream ++ path_region tags) (set [ll] s)) →
  wp (on_array arr set 0 (append_path_list stream)) Q s.
Proof.
  intros Hp HQ. destruct (Forall2_cons_inv_r _ _ _ _ Hp) as (ll & lls & [Hl Hle] & Hnil & Heq).
  apply Forall2_nil_inv_r in Hnil. subst lls.
  destruct (append_path_list_bytes ll tags stream Hl) as (ll' & Hr & Hl').
  eapply wp_on_array; [by rewrite Heq|exact Hr|]. rewrite Heq. cbn. apply HQ; [done|].
  by constructor.
Qed.

(** The bytes of the file. *)
Definition mdb_bytes (ft ot : list (list Z)) (d : doc) : list Z :=
  size_t_field 1 ++ path_region ft ++ path_region ot ++ root_bytes is_flt d.

Lemma dump_ok s nm lg n :
  index_is s nm lg n → parallelism s = 1%Z → (Z.of_nat n ≤ MAX_LEN)%Z → in_u64 (Z.of_nat (size nm)) →
  ∃ ft ot d s', dump_mdb_index_to_disk s = Ret (mdb_bytes ft ot d, s') ∧ index_is s' nm lg n
    ∧ doc_ok [ft] [ot] lg d ∧ length d ≤ size nm
    ∧ Forall storable ft ∧ Forall storable ot ∧ length ft ≤ n ∧ length ot ≤ n.
Proof.
  intros (own & fps & ops & Hinv & Hfill) Hp Hn Hnm.
  destruct (inv_fps _ _ _ _ _ _ _ _ _ _ Hinv) as [Hfps Hfl], (inv_ops _ _ _ _ _ _ _ _ _ _ Hinv) as [Hops Hol].
  rewrite Hp in Hfl, Hol. destruct fps as [|ft [|]]; try done. destruct ops as [|ot [|]]; try done.
  assert (∀ lls tags, paths_are lls [tags] n → Forall storable tags ∧ length tags ≤ n) as Htags.
  { intros lls tags H. destruct (Forall2_cons_inv_r _ _ _ _ H) as (ll & ? & [[_ ?] ?] & _). done. }
  destruct (lookup_lt_is_Some_2 (root_art_array s) 0) as [t Ht].
  { rewrite (inv_arts _ _ _ _ _ _ _ _ _ _ Hinv), Hp. simpl. lia. }
  assert (wp dump_mdb_index_to_disk (λ bytes s', ∃ d, bytes = mdb_bytes ft ot d ∧ index_is s' nm lg n
    ∧ doc_ok [ft] [ot] lg d ∧ length d ≤ size nm) s) as Hwp.
  { unfold dump_mdb_index_to_disk. apply wp_bind, wp_get. rewrite Hp. cbn [Z.to_nat Pos.to_nat Pos.iter_op dump_partitions].
    apply wp_bind. eapply wp_append_paths; [exact Hfps|]. intros fl Hfl' Hfps'.
    apply wp_bind. eapply wp_append_paths; [exact Hops|]. intros ol Hol' Hops'.
    apply wp_bind, wp_get. cbn [parallelism set_object_paths set_file_paths]. rewrite Hp.
    change (Z.to_nat 1) with 1. cbn [append_attr_regions].
    apply wp_bind, wp_bind, wp_get. cbn [root_art_array set_object_paths set_file_paths].
    apply wp_bind. eapply wp_lift; [by rewrite Ht|].
    pose proof (inv_paths is_flt P false _ _ _ _ _ _ _ _ _ _ _ _ Hinv (Nat.le_refl n) (grows_refl _) (grows_refl _) Hfps' Hops'
      eq_refl eq_refl) as Hinv1.
    set (s1 := set_object_paths [ol] (set_file_paths [fl] s)) in *.
    destruct (index_doc s1 _ _ _ _ _ _ t Hinv1 Hfill Hn Hp Ht) as (d & Hd & Hdoc & Hlen).
    apply wp_bind. edestruct (append_attr_root_tree_ok is_flt s1 t d) as (s2 & Hr & Hs);
      [by eapply (inv_art _ _ _ _ _ _ _ _ _ _ Hinv)|exact Hd|unfold in_u64 in *; lia|].
    eapply wp_Ret; [exact Hr|]. apply wp_ret, wp_ret. exists d. split; [|split; [|done]].
    - rewrite append_size_t_app. unfold mdb_bytes. by rewrite <-!app_assoc.
    - exists own, [ft], [ot]. split; [|done]. by eapply same_inv. }
  apply wp_run in Hwp as (bytes & s' & Hr & d & -> & His' & Hdoc & Hlen).
  destruct (Htags _ _ Hfps), (Htags _ _ Hops). by exists ft, ot, d, s'.
Qed.
End Doc.
