(* ===== verification/MdbLoad.v ===== *)
(** * The MDB file: loading the bytes of a document

    Loading the bytes of a document into a new index gives an index that holds
    the document's log. *)
From S2P Require Import Prelude Heap Art ArtMap RbTree RbTreeAdd RbTreeRep RbTreeMap Comparators LinkedList LinkedListRep LinkedListSpec BinFile Metadata OnDiskIndex InMemIndex Mdb IndexInv IndexAdd IndexRun MdbDump.

Notation log := (list (list Z * list Z * (list Z * list Z))) (only parsing).

Lemma answers_app (l1 l2 : log) name k : answers (l1 ++ l2) name k = answers l1 name k ++ answers l2 name k.
Proof. unfold answers. by rewrite filter_app, fmap_app. Qed.

(** The log entries of one value. *)
Definition entries (nk : list Z * list Z) (fos : list (list Z * list Z)) : log := pair nk <$> fos.
Lemma answers_entries nk fos name k :
  answers (entries nk fos) name k = if bool_decide (nk = (name, k)) then fos else [].
Proof.
  unfold answers, entries. induction fos as [|fo fos IH]; [by case_bool_decide|].
  rewrite fmap_cons, filter_cons. cbn [fst]. case_bool_decide as Hk.
  - rewrite decide_True by done. cbn [fmap list_fmap snd]. f_equal. exact IH.
  - rewrite decide_False by done. exact IH.
Qed.

Section Load.
Context (is_flt : list Z → bool) (P : bool → list Z → Prop).
Context `{HKO : ∀ b, KeyOrder (P b) (rbt_compare_keys (rbt_cmp b))}.
Context (oob : list Z → nat → Z).
Implicit Types (s : index_anchor) (nm : gmap loc (option (list Z))) (own : gmap loc (option (list Z * list Z))).
Notation index_inv := (index_inv is_flt P false).
Notation index_is := (index_is is_flt P false).
Notation value_logged := (value_logged is_flt P).
Notation attr_logged := (attr_logged is_flt P).

(** ** Pairs *)
Lemma push_pair_ok s own nm fps ops lg n v name k p fo :
  index_inv s own nm fps ops lg n → own !! v = Some (Some (name, k)) → resolves fps ops p fo →
  length lg < n → (Z.of_nat n ≤ MAX_LEN)%Z →
  wp (on_value_leaf v (list_push_value (Some p))) (λ _ s',
    index_inv s' own nm fps ops (lg ++ [((name, k), fo)]) n ∧ parallelism s' = parallelism s) s.
Proof.
  intros Hinv Hv Hres Hlg Hn. destruct (inv_value _ _ _ _ _ _ _ _ _ _ Hinv v _ Hv) as (ll & Hll & Hvi).
  apply value_inv_tight in Hvi.
  destruct (value_inv_push _ _ lg (length lg) (Some (name, k)) fo p ll Hres ltac:(lia) Hvi) as (ll' & Hpush & Hvi').
  eapply wp_on_value; [done|exact Hpush|]. split; [|done].
  apply (inv_push is_flt P false s own nm fps ops lg n v (Some (name, k)) fo ll' Hinv Hv).
  - rewrite length_app. simpl. lia.
  - eapply value_inv_grows; [apply grows_refl|apply grows_refl| |exact Hvi']. lia.
Qed.

(** On one partition a pair is determined by its two positions. *)
Lemma resolves_single s own nm ft ot lg n p fo :
  index_inv s own nm [ft] [ot] lg n → (Z.of_nat n ≤ MAX_LEN)%Z → resolves [ft] [ot] p fo →
  p = mk_pair 0 (file_list_pos p) (obj_list_pos p) ∧ in_u64 (file_list_pos p) ∧ in_u64 (obj_list_pos p).
Proof.
  intros Hinv Hn (q & i & j & ft' & ot' & -> & Hq & Hq' & Hi & Hj). destruct q; [|done].
  injection Hq as <-. injection Hq' as <-. cbn. split; [done|].
  destruct (inv_fps _ _ _ _ _ _ _ _ _ _ Hinv) as [Hf _], (inv_ops _ _ _ _ _ _ _ _ _ _ Hinv) as [Ho _].
  destruct (Forall2_cons_inv_r _ _ _ _ Hf) as (? & ? & [_ Hfl] & _).
  destruct (Forall2_cons_inv_r _ _ _ _ Ho) as (? & ? & [_ Hol] & _).
  apply lookup_lt_Some in Hi, Hj. unfold in_u64, MAX_LEN in *. lia.
Qed.

Lemma read_pairs_ok s own nm ft ot lg n v name k ps fos rst rest :
  index_inv s own nm [ft] [ot] lg n → own !! v = Some (Some (name, k)) →
  Forall2 (resolves [ft] [ot]) ps fos → length lg + length fos ≤ n → (Z.of_nat n ≤ MAX_LEN)%Z →
  wp (read_pairs (length ps) (Some v) rst (mjoin (pair_bytes <$> ps) ++ rest)) (λ r s',
    r.2 = rest ∧ index_inv s' own nm [ft] [ot] (lg ++ entries (name, k) fos) n
    ∧ parallelism s' = parallelism s) s.
Proof.
  intros Hinv Hv Hres. revert s lg rst Hinv. induction Hres as [|p fo ps fos Hp Hres IH]; intros s lg rst Hinv Hlen Hn.
  { apply wp_ret. cbn. by rewrite app_nil_r. }
  destruct (resolves_single _ _ _ _ _ _ _ _ _ Hinv Hn Hp) as (Heq & Hf & Ho).
  cbn [length read_pairs fmap list_fmap mjoin list_join]. unfold read_into_file_obj_list, pair_bytes at 1.
  rewrite <-!app_assoc, !read_size_t_field. apply wp_bind, wp_bind. eapply wp_lift; [by apply deref_u64_split|].
  apply wp_bind. eapply wp_lift; [by apply deref_u64_split|]. rewrite <-Heq.
  apply wp_bind. eapply wp_mono; [eapply (push_pair_ok s own nm _ _ lg n v name k p fo); try done; simpl in Hlen; lia|].
  cbv beta. intros rc s1 [Hinv1 Hp1]. apply wp_ret. eapply wp_mono; [apply (IH s1 _ _ Hinv1)|].
  - rewrite length_app. simpl in *. lia.
  - done.
  - cbv beta. intros r s2 (H1 & H2 & H3). split; [done|]. rewrite <-app_assoc in H2. split; [done|congruence].
Qed.

(** ** Values *)

(** The log of the values [ks] of a name. *)
Definition values_log (lg0 : log) (name : list Z) (ks : list (list Z)) : log :=
  ks ≫= λ k, entries (name, k) (answers lg0 name k).

Lemma filled_entries own lg e name k fos :
  filled own lg None → fos ≠ [] → filled (<[e := Some (name, k)]> own) (lg ++ entries (name, k) fos) None.
Proof.
  intros Hf Hne v name' k' Hv. right. rewrite answers_app, answers_entries.
  apply lookup_insert_Some in Hv as [[_ [= <- <-]]|[_ Hv]].
  - rewrite bool_decide_eq_true_2 by done. by destruct (answers lg name k).
  - destruct (Hf v name' k' Hv); [done|]. by destruct (answers lg name' k').
Qed.

Context (HP : ∀ b k, P b k → value_bytes (key_type b) (Some k)).

Lemma read_attr_value_node_ok s own nm ft ot lg lg0 n a name kp rest :
  index_inv s own nm [ft] [ot] lg n → filled own lg None → nm !! a = Some (Some name) →
  value_logged [ft] [ot] lg0 name kp → answers lg name kp.1 = [] →
  length lg + length (answers lg0 name kp.1) ≤ n → (Z.of_nat n ≤ MAX_LEN)%Z →
  wp (read_attr_value_node oob a (key_type (is_flt name)) (value_node_bytes (is_flt name) kp ++ rest)) (λ r s',
    r.1.2 = rest ∧ (∃ own', index_inv s' own' nm [ft] [ot] (lg ++ entries (name, kp.1) (answers lg0 name kp.1)) n
      ∧ filled own' (lg ++ entries (name, kp.1) (answers lg0 name kp.1)) None)
    ∧ parallelism s' = parallelism s) s.
Proof.
  destruct kp as [k ps]. intros Hinv Hfill Ha (Hk & Hne & Hres) Hans Hlen Hn. cbn [fst snd] in *.
  destruct (inv_leaf _ _ _ _ _ _ _ _ _ _ Hinv a _ Ha) as (l & Hl & [_ _ Hrbt]).
  destruct (Hrbt name eq_refl) as (Hfl & r & m & Hr & His & Hm & Hnone).
  assert (m !! k = None) as Hmk.
  { destruct (m !! k) as [v|] eqn:Hv; [|done]. apply Hm in Hv. by destruct (Hfill v name k Hv). }
  unfold read_attr_value_node, value_node_bytes, pairs_bytes. cbn [fst snd]. rewrite <-!app_assoc.
  pose proof (read_value_field (key_type (is_flt name)) (Some k)
    (size_t_field (Z.of_nat (length ps)) ++ mjoin (pair_bytes <$> ps) ++ rest) (HP _ _ Hk)) as Hrv.
  cbn [default from_option id] in Hrv. rewrite Hrv. clear Hrv.
  match goal with |- wp _ ?Q _ => enough (wp (e ← alloc_value_leaf;
      rc ← on_rbt a (λ dbl, rbt_add (rbt_cmp dbl) true k e);
      '(rst', stream) ← read_file_obj_path_pair_list (Some e)
         (size_t_field (Z.of_nat (length ps)) ++ mjoin (pair_bytes <$> ps) ++ rest);
      mret (Z.lor rc rst', stream, 1%Z)) Q s) by (by destruct (is_flt name)) end.
  eapply (new_value_ok is_flt P false s own nm [ft] [ot] lg n a name k l r m); try done.
  intros e rc s1 He Hinv1 Henv. pose proof (Forall2_length _ _ _ Hres) as Hps.
  apply wp_bind. unfold read_file_obj_path_pair_list. rewrite read_size_t_field. apply wp_bind.
  eapply wp_lift; [apply deref_u64_split; unfold in_u64, MAX_LEN in *; lia|]. rewrite Nat2Z.id.
  eapply wp_mono; [eapply (read_pairs_ok s1 _ nm ft ot lg n e name k ps _ 0 rest Hinv1); try done; by rewrite lookup_insert_eq|].
  cbv beta. intros [rst' stream] s2 (Hs & Hinv2 & Hp2). apply wp_ret. cbn [fst snd] in *. split; [done|].
  split; [|by rewrite Hp2; apply env_par]. eexists. split; [exact Hinv2|by apply filled_entries].
Qed.

Lemma read_value_nodes_ok s own nm ft ot lg lg0 n a name vs rst kvs rest :
  index_inv s own nm [ft] [ot] lg n → filled own lg None → nm !! a = Some (Some name) →
  Forall (value_logged [ft] [ot] lg0 name) vs → NoDup vs.*1 → Forall (λ k, answers lg name k = []) vs.*1 →
  length lg + length (values_log lg0 name vs.*1) ≤ n → (Z.of_nat n ≤ MAX_LEN)%Z →
  wp (read_value_nodes oob (length vs) a (key_type (is_flt name)) rst
        (mjoin (value_node_bytes (is_flt name) <$> vs) ++ rest) kvs) (λ r s',
    r.1.2 = rest ∧ (∃ own', index_inv s' own' nm [ft] [ot] (lg ++ values_log lg0 name vs.*1) n
      ∧ filled own' (lg ++ values_log lg0 name vs.*1) None)
    ∧ parallelism s' = parallelism s) s.
Proof.
  intros Hinv Hfill Ha Hvs. revert s own lg rst kvs Hinv Hfill.
  induction Hvs as [|kp vs Hkp Hvs IH]; intros s own lg rst kvs Hinv Hfill Hnd Hans Hlen Hn.
  { apply wp_ret. cbn. rewrite app_nil_r. eauto. }
  cbn [length read_value_nodes fmap list_fmap mjoin list_join] in *.
  apply NoDup_cons in Hnd as [Hnk Hnd]. apply Forall_cons in Hans as [Hk Hans].
  unfold values_log in Hlen |- *. rewrite bind_cons in Hlen |- *. rewrite length_app in Hlen.
  unfold entries in Hlen at 1. rewrite length_fmap in Hlen. rewrite <-app_assoc. apply wp_bind. eapply wp_mono.
  - eapply (read_attr_value_node_ok s own nm ft ot lg lg0 n a name kp); try done. lia.
  - cbv beta. intros [[rst' stream] kv] s1 (Hs & (own1 & Hinv1 & Hfill1) & Hp1). cbn [fst snd] in Hs. subst stream.
    eapply wp_mono; [apply (IH s1 own1 _ _ _ Hinv1 Hfill1 Hnd)|].
    + rewrite Forall_forall in Hans |- *. intros k Hin. pose proof (Hans k Hin) as Hak. rewrite answers_app, answers_entries, Hak.
      rewrite bool_decide_eq_false_2; [done|]. intros [= Heq]. by rewrite <-Heq in Hin.
    + rewrite length_app. unfold entries at 1, values_log. rewrite length_fmap. lia.
    + done.
    + cbv beta. intros r s2 (H1 & H2 & H3). rewrite <-app_assoc in H2. split; [done|]. split; [done|congruence].
Qed.

(** ** Attributes *)

(** The log of a document. *)
Definition doc_log (lg0 : log) (d : doc) : log := d ≫= λ nv, values_log lg0 nv.1 nv.2.*1.

Lemma read_attr_name_node_ok s own nm ft ot lg lg0 n nv rest :
  index_inv s own nm [ft] [ot] lg n → filled own lg None → (∀ a, nm !! a ≠ Some (Some nv.1)) →
  attr_logged [ft] [ot] lg0 nv → in_u64 (Z.of_nat (length nv.2)) →
  length lg + length (values_log lg0 nv.1 nv.2.*1) ≤ n → (Z.of_nat n ≤ MAX_LEN)%Z →
  wp (read_attr_name_node oob (parallelism s) (attr_node_bytes is_flt nv ++ rest)) (λ r s',
    r.1.2 = rest ∧ (∃ own' a, index_inv s' own' (<[a := Some nv.1]> nm) [ft] [ot] (lg ++ values_log lg0 nv.1 nv.2.*1) n
      ∧ filled own' (lg ++ values_log lg0 nv.1 nv.2.*1) None)
    ∧ parallelism s' = parallelism s) s.
Proof.
  destruct nv as [name vs]. intros Hinv Hfill Hno (Hst & Hnd & Hvs) Hlv Hlen Hn. cbn [fst snd] in *.
  pose proof (inv_par _ _ _ _ _ _ _ _ _ _ Hinv) as Hpar.
  pose proof (partition_range (parallelism s) name Hpar) as Hh.
  destruct (lookup_lt_is_Some_2 (root_art_array s) (Z.to_nat (partition_of (parallelism s) name))) as [t Ht].
  { rewrite (inv_arts _ _ _ _ _ _ _ _ _ _ Hinv). lia. }
  assert (attr_at s name = None) as Hat.
  { destruct (attr_at s name) as [a|] eqn:Ha; [|done].
    apply (inv_name _ _ _ _ _ _ _ _ _ _ Hinv) in Ha. by destruct (Hno a). }
  destruct (inv_new_leaf is_flt P false oob s own nm _ _ _ _ name _ t Hinv Hst Hat Ht eq_refl) as (t' & old & Hins & Hinv').
  unfold read_attr_name_node, attr_node_bytes. cbn [fst snd]. rewrite <-!app_assoc, read_string_field by done.
  apply wp_bind. eapply wp_lift; [done|].
  rewrite bool_decide_eq_false_2 by (rewrite u64_id; unfold in_u64; lia).
  apply wp_bind. unfold wp at 1, alloc_leaf. apply wp_bind, wp_get. cbn [root_art_array set_leaves].
  apply wp_bind. eapply wp_lift; [by rewrite Ht|]. apply wp_bind. eapply wp_lift; [exact Hins|].
  apply wp_bind, wp_modify. unfold read_attr_values. rewrite read_int_field.
  apply wp_bind. eapply wp_lift; [apply deref_int_bytes, int_of_type_range|].
  rewrite type_int_roundtrip. apply wp_bind. eapply wp_upd_leaf; [cbn; by rewrite lookup_insert_eq|].
  rewrite read_uint64_field. apply wp_bind. eapply wp_lift; [by apply deref_u64_split|]. rewrite Nat2Z.id.
  cbn [attr_leaves value_leaves next_loc set_arts set_leaves root_art_array].
  match goal with |- wp _ _ ?s2 => replace s2 with (set_arts (<[Z.to_nat (partition_of (parallelism s) name) := t']> (root_art_array s))
        (set_leaves (<[next_loc s := mk_attr_leaf true (is_flt name) (Some (is_flt name, rbt_create)) None]> (attr_leaves s))
           (value_leaves s) (Pos.succ (next_loc s)) s)) end.
  2: { unfold set_leaves, set_arts. cbn. rewrite insert_insert_eq. by destruct (is_flt name). }
  eapply wp_mono; [eapply (read_value_nodes_ok _ own _ ft ot lg lg0 n (next_loc s) name vs 0 0 rest Hinv'); try done|].
  - by rewrite lookup_insert_eq.
  - apply Forall_forall. intros k _. by apply (inv_logged _ _ _ _ _ _ _ _ _ _ Hinv).
  - cbv beta. intros r s2 (H1 & (own' & H2 & H3) & H4). split; [done|]. split; [|done]. eauto.
Qed.

Lemma read_name_nodes_ok s own nm ft ot lg lg0 n d rst kvs rest :
  index_inv s own nm [ft] [ot] lg n → filled own lg None →
  Forall (attr_logged [ft] [ot] lg0) d → NoDup d.*1 → (∀ name, name ∈ d.*1 → ∀ a, nm !! a ≠ Some (Some name)) →
  Forall (λ nv, in_u64 (Z.of_nat (length nv.2))) d →
  length lg + length (doc_log lg0 d) ≤ n → (Z.of_nat n ≤ MAX_LEN)%Z →
  wp (read_name_nodes oob (length d) (parallelism s) rst (mjoin (attr_node_bytes is_flt <$> d) ++ rest) kvs) (λ r s',
    r.1.2 = rest ∧ ∃ nm', index_is s' nm' (lg ++ doc_log lg0 d) n) s.
Proof.
  intros Hinv Hfill Hd. revert s own nm lg rst kvs Hinv Hfill.
  induction Hd as [|nv d Hnv Hd IH]; intros s own nm lg rst kvs Hinv Hfill Hnd Hno Hlv Hlen Hn.
  { apply wp_ret. cbn. rewrite app_nil_r. split; [done|]. exists nm, own, [ft], [ot]. done. }
  cbn [length read_name_nodes fmap list_fmap mjoin list_join] in *.
  apply NoDup_cons in Hnd as [Hnn Hnd]. apply Forall_cons in Hlv as [Hl1 Hlv].
  unfold doc_log in Hlen |- *. rewrite bind_cons in Hlen |- *. rewrite length_app in Hlen.
  rewrite <-app_assoc. apply wp_bind. eapply wp_mono.
  - eapply (read_attr_name_node_ok s own nm ft ot lg lg0 n nv); try done; [|lia]. apply Hno. by left.
  - cbv beta. intros [[rst' stream] kv] s1 (Hs & (own1 & a & Hinv1 & Hfill1) & Hp1). cbn [fst snd] in Hs. subst stream.
    rewrite <-Hp1. eapply wp_mono; [apply (IH s1 own1 _ _ _ _ Hinv1 Hfill1 Hnd)|].
    + intros name Hin b [[_ [= Heq]]|[_ Hb]]%lookup_insert_Some; [by rewrite <-Heq in Hin|]. by eapply Hno; [right|].
    + done.
    + rewrite length_app. unfold doc_log. lia.
    + done.
    + cbv beta. intros r s2 [H1 H2]. rewrite <-app_assoc in H2. done.
Qed.

(** ** Files *)
Lemma load_partition_ok ft ot d lg0 n :
  doc_ok is_flt P [ft] [ot] lg0 d → Forall storable ft → Forall storable ot → length ft ≤ n → length ot ≤ n →
  (Z.of_nat n ≤ MAX_LEN)%Z → in_u64 (Z.of_nat (length d)) → length lg0 ≤ n → length (doc_log lg0 d) ≤ n →
  wp (load_partitions oob 1 0 (path_region ft ++ path_region ot ++ root_bytes is_flt d) 0) (λ r s',
    is_Some r ∧ ∃ nm, index_is s' nm (doc_log lg0 d) n) (init_in_mem_index 1).
Proof.
  intros [Hnd Hd Hall] Hft Hot Hlf Hlo Hn Hld Hlg Hlen.
  pose proof (init_inv is_flt P false 1 ltac:(lia)) as Hinit. change (replicate (Z.to_nat 1) []) with [[] : list (list Z)] in Hinit.
  destruct (read_into_path_list_ok ft (path_region ot ++ root_bytes is_flt d)) as (fl & Hf & Hfl); [done|lia|].
  destruct (read_into_path_list_ok ot (root_bytes is_flt d)) as (ol & Ho & Hol); [done|lia|].
  assert (∀ t, grows [[]] [t]) as Hgrow.
  { intros t [|q] u; [|done]. intros [= <-]. exists t. split; [done|apply prefix_nil]. }
  pose proof (inv_paths is_flt P false _ _ _ _ _ [ft] [ot] _ 0 n [fl] [ol] Hinit ltac:(lia) (Hgrow ft) (Hgrow ot)
    ltac:(by constructor; [|constructor]) ltac:(by constructor; [|constructor]) eq_refl eq_refl) as Hinv1.
  cbn [load_partitions]. apply wp_bind. eapply wp_on_array; [done|exact Hf|].
  apply wp_bind. eapply wp_on_array; [done|done|]. apply wp_bind, wp_modify. rewrite bool_decide_eq_false_2 by auto.
  apply wp_bind. eapply wp_on_array; [done|exact Ho|].
  apply wp_bind. eapply wp_on_array; [done|done|]. apply wp_bind, wp_modify. rewrite bool_decide_eq_false_2 by auto.
  apply wp_bind, wp_get. cbn [root_bytes]. unfold root_bytes, read_into_attr_root_tree. rewrite read_uint64_field.
  apply wp_bind, wp_bind. eapply wp_lift; [by apply deref_u64_split|]. rewrite Nat2Z.id. apply wp_bind.
  rewrite <-(app_nil_r (mjoin _)). eapply wp_mono.
  - eapply (read_name_nodes_ok _ ∅ ∅ ft ot [] lg0 n d 0 0 []); try done.
    + destruct Hinv1. by split.
    + rewrite Forall_forall in Hd |- *. intros nv Hin. pose proof (values_bound is_flt P _ _ _ _ (Hd nv Hin)).
      unfold in_u64, MAX_LEN in *. lia.
  - cbv beta. intros [[rst stream] kv] s' [_ [nm His]]. apply wp_ret. apply wp_ret. split; [done|]. by exists nm.
Qed.

(** ** The log of a document *)
Lemma answers_values_log lg0 name ks name' k :
  NoDup ks →
  answers (values_log lg0 name ks) name' k
  = if bool_decide (name = name' ∧ k ∈ ks) then answers lg0 name' k else [].
Proof.
  induction 1 as [|k0 ks Hk0 Hnd IH]; unfold values_log in *.
  { rewrite bool_decide_eq_false_2; [done|]. by intros [_ ?%not_elem_of_nil]. }
  rewrite bind_cons, answers_app, answers_entries, IH.
  destruct (decide (name = name')) as [<-|Hne].
  - destruct (decide (k0 = k)) as [->|Hk].
    + rewrite bool_decide_eq_true_2, bool_decide_eq_false_2, bool_decide_eq_true_2, app_nil_r;
        [done|by split; [|left]|by intros []|done].
    + rewrite bool_decide_eq_false_2 by congruence. cbn [app].
      rewrite (bool_decide_ext (name = name ∧ k ∈ ks) (name = name ∧ k ∈ k0 :: ks)); [done|].
      rewrite elem_of_cons. naive_solver.
  - rewrite !bool_decide_eq_false_2 by naive_solver. done.
Qed.

Lemma answers_doc_log fps ops lg0 d name k :
  doc_ok is_flt P fps ops lg0 d → answers (doc_log lg0 d) name k = answers lg0 name k.
Proof.
  intros [Hnd Hd Hall].
  assert (answers (doc_log lg0 d) name k = answers lg0 name k ∨
          answers (doc_log lg0 d) name k = [] ∧ ∀ vs, (name, vs) ∈ d → k ∉ vs.*1) as [H|[-> Hno]]; [|done|].
  - clear Hall. induction Hd as [|[n0 vs0] d (_ & Hvs & _) Hd IH].
    { right. split; [done|]. by intros vs ?%not_elem_of_nil. }
    apply NoDup_cons in Hnd as [Hn0 Hnd]. unfold doc_log in *. rewrite bind_cons, answers_app. cbn [fst snd] in *.
    rewrite answers_values_log by done. case_bool_decide as Hb.
    + destruct Hb as [-> Hk]. left. rewrite <-(app_nil_r (answers lg0 name k)) at 2. f_equal.
      destruct (answers (d ≫= _) name k) as [|e es] eqn:He; [done|]. exfalso. apply Hn0.
      assert ((name, k) ∈ (d ≫= λ nv, values_log lg0 nv.1 nv.2.*1).*1) as Hin by (apply answers_elem; by rewrite He).
      apply list_elem_of_fmap_1 in Hin as (x & Hx & (nv & Hin & Hnv)%list_elem_of_bind).
      apply list_elem_of_bind in Hin as (k' & Hin & _). apply list_elem_of_fmap_1 in Hin as (fo & -> & _).
      injection Hx as -> _. by apply list_elem_of_fmap_2.
    + destruct (IH Hnd) as [->|[-> Hno]]; [by left|]. right. split; [done|].
      intros vs [[= -> ->]|Hin]%elem_of_cons; [naive_solver|by apply Hno].
  - destruct (answers lg0 name k) eqn:Ha; [done|]. destruct (Hall name k) as (vs & Hin & Hk); [by rewrite Ha|].
    by destruct (Hno vs Hin).
Qed.

(** Logs with the same answers have the same entries. *)
Lemma answers_perm (l1 l2 : log) : (∀ name k, answers l1 name k = answers l2 name k) → l1 ≡ₚ l2.
Proof.
  revert l2. induction l1 as [|[[name k] fo] l1 IH]; intros l2 Hans.
  - destruct l2 as [|[[name k] fo] l2]; [done|]. specialize (Hans name k). unfold answers in Hans.
    rewrite filter_cons_True in Hans by done. done.
  - assert (∃ a b, l2 = a ++ ((name, k), fo) :: b ∧ answers a name k = []) as (a & b & -> & Ha).
    { pose proof (Hans name k) as Hk. unfold answers in Hk at 1. rewrite filter_cons_True in Hk by done.
      cbn [fmap list_fmap snd] in Hk. clear -Hk. induction l2 as [|[nk fo'] l2 IH]; [done|].
      unfold answers in Hk. rewrite filter_cons in Hk. cbn [fst] in Hk. destruct (decide (nk = (name, k))) as [->|Hne].
      - cbn in Hk. injection Hk as <- _. by exists [], l2.
      - destruct (IH Hk) as (a & b & -> & Ha). exists ((nk, fo') :: a), b. split; [done|].
        unfold answers. rewrite filter_cons_False by done. exact Ha. }
    rewrite <-Permutation_middle. constructor. apply IH. intros name' k'. specialize (Hans name' k').
    rewrite answers_app in Hans |- *. change (((name, k), fo) :: l1) with ([((name, k), fo)] ++ l1) in Hans.
    change (((name, k), fo) :: b) with (entries (name, k) [fo] ++ b) in Hans.
    change [((name, k), fo)] with (entries (name, k) [fo]) in Hans. rewrite !answers_app, answers_entries in Hans.
    case_bool_decide as Hb; [|done]. injection Hb as <- <-. rewrite Ha in Hans |- *. by injection Hans.
Qed.

Lemma load_mdb_ok ft ot d lg0 n addr :
  doc_ok is_flt P [ft] [ot] lg0 d → Forall storable ft → Forall storable ot → length ft ≤ n → length ot ≤ n →
  (Z.of_nat n ≤ MAX_LEN)%Z → in_u64 (Z.of_nat (length d)) → length lg0 ≤ n →
  ∃ s nm lg, load_mdb_file_to_index oob (Some (mdb_bytes is_flt ft ot d)) addr None = Ret (0%Z, Some s)
    ∧ index_is s nm lg n ∧ ∀ name k, answers lg name k = answers lg0 name k.
Proof.
  intros Hdoc Hft Hot Hlf Hlo Hn Hld Hlg.
  pose proof (λ name k, answers_doc_log _ _ _ _ name k Hdoc) as Hans.
  pose proof (Permutation_length (answers_perm _ _ Hans)) as Hlen.
  pose proof (load_partition_ok ft ot d lg0 n Hdoc Hft Hot Hlf Hlo Hn Hld Hlg ltac:(lia)) as Hwp.
  apply wp_run in Hwp as (r & s & Hr & [kvs ->] & nm & own & fps & ops & Hinv & Hfill).
  unfold load_mdb_file_to_index, load_mdb_into.
  assert (miqs_read_size_t (mdb_bytes is_flt ft ot d)
    = (Some (le_split 8 1), path_region ft ++ path_region ot ++ root_bytes is_flt d)) as Hpar
    by apply read_size_t_field.
  assert ((miqs_read_size_t []).1 = None) as Hnil by (vm_compute; reflexivity).
  destruct (mdb_bytes is_flt ft ot d) as [|x bytes]; [by rewrite Hpar in Hnil|].
  rewrite Hpar. cbn [fst]. rewrite deref_u64_split by done. cbn [mbind outcome_bind].
  change (i32 1) with 1%Z. unfold mbind, st_bind, st_get.
  change (Z.to_nat (parallelism (init_in_mem_index 1))) with 1. rewrite Hr.
  eexists _, nm, (doc_log lg0 d). split; [reflexivity|]. split; [|done]. exists own, fps, ops.
  split; [by destruct Hinv|done].
Qed.
End Load.
