(* ===== verification/MdbTheorems.v ===== *)
(** * Properties of the MDB file (on_disk_index.c, in_mem_index.c) *)
From S2P Require Import Prelude Heap Art ArtMap RbTree RbTreeAdd RbTreeMap Comparators LinkedList LinkedListRep LinkedListSpec BinFile Metadata OnDiskIndex InMemIndex Mdb IndexInv IndexAdd IndexRun IndexTheorems MdbDump MdbLoad.

(** A path list dumped by [append_path_list] is rebuilt by
    [read_into_path_list] into an empty list with the same paths at the same
    positions, and exactly the bytes written are consumed. *)
Theorem path_list_round_trip ll tags stream rest :
  path_list ll tags →
  ∃ bytes ll1 ll2, append_path_list stream ll = Ret (stream ++ bytes, ll1) ∧ path_list ll1 tags
    ∧ read_into_path_list (bytes ++ rest) list_create = Ret ((1%Z, rest), ll2) ∧ path_list ll2 tags.
Proof.
  intros Hl. destruct (append_path_list_bytes ll tags stream Hl) as (ll1 & Hr1 & Hl1).
  destruct (list_is_length _ _ (proj1 Hl)) as [_ Hmax]. rewrite length_fmap, length_imap in Hmax.
  destruct (read_into_path_list_ok tags rest (proj2 Hl) Hmax) as (ll2 & Hr2 & Hl2).
  by exists (path_region tags), ll1, ll2.
Qed.

(** ** Dump and load *)
Section RoundTrip.
Context (is_flt : list Z → bool) (P : bool → list Z → Prop).
Context `{HKO : ∀ b, KeyOrder (P b) (rbt_compare_keys (rbt_cmp b))}.
Context (oob : list Z → nat → Z) (pointer_bytes : nat → list Z).

(** C2: numeric attributes indexed on one partition survive a dump and a load,
    if their values are among keys [P] on which the comparators are an order
    (ints whose differences fit an int, doubles at least 1 apart) and one name
    carries values of one numeric kind only.  Indexing, [dump_mdb_index_to_disk]
    and [load_mdb_file_to_index] of the bytes written do not fault, and in the
    new index as in the dumped one every numeric query for a key of [P] that has
    an answer returns the paths of all indexed values with that name and value,
    in indexing order. *)
Theorem mdb_round_trip attrs addr :
  (∀ b, key_size P b) → (∀ b k, P b k → value_bytes (key_type b) (Some k)) →
  Forall (attr_ok is_flt P false) attrs → (Z.of_nat (length attrs) ≤ MAX_LEN)%Z →
  (Z.of_nat (sum_list (num_values <$> attrs)) ≤ MAX_LEN)%Z →
  ∃ s bytes s1 s2,
    index_all oob pointer_bytes attrs (init_in_mem_index 1) = Ret ([], s)
    ∧ dump_mdb_index_to_disk s = Ret (bytes, s1)
    ∧ load_mdb_file_to_index oob (Some bytes) addr None = Ret (0%Z, Some s2)
    ∧ ∀ t name k tv, t = s1 ∨ t = s2 → cstr name → P (is_flt name) k →
        tv = MIQS_ATV_INTEGER ∨ tv = MIQS_ATV_FLOAT → answers (attrs ≫= attr_entries) name k ≠ [] →
        ∃ t', exact_metadata_search oob name (QNum k) tv t
              = Ret (result_of (answers (attrs ≫= attr_entries) name k), t').
Proof.
  intros Hsz HP Hok Hattrs Hn.
  destruct (index_all_ok is_flt P false oob pointer_bytes attrs (init_in_mem_index 1) ∅ [] 0 Hsz)
    as (s & nm & Hr & His & Hsize & Hpar); [by apply init_index_is|by left|done|done|done|].
  rewrite map_size_empty in Hsize. cbn [app Nat.add] in His, Hsize.
  destruct (dump_ok is_flt P HP s nm _ _ His Hpar Hn) as (ft & ot & d & s1 & Hd & His1 & Hdoc & Hld & Hft & Hot & Hlf & Hlo);
    [unfold in_u64, MAX_LEN in *; lia|].
  assert (length (attrs ≫= attr_entries) ≤ sum_list (num_values <$> attrs)) as Hlg
    by (destruct His as (own & fps & ops & Hinv & _); apply (inv_count _ _ _ _ _ _ _ _ _ _ Hinv)).
  destruct (load_mdb_ok is_flt P oob HP ft ot d _ _ addr Hdoc Hft Hot Hlf Hlo Hn) as (s2 & nm2 & lg2 & Hl & His2 & Hans);
    [unfold in_u64, MAX_LEN in *; lia|exact Hlg|].
  exists s, (mdb_bytes is_flt ft ot d), s1, s2. split; [done|]. split; [done|]. split; [done|].
  intros t name k tv Ht Hc Hk Htv Hne.
  assert (∃ nm' lg', index_is is_flt P false t nm' lg' (sum_list (num_values <$> attrs))
    ∧ answers lg' name k = answers (attrs ≫= attr_entries) name k) as (nm' & lg' & His' & Ha)
    by (destruct Ht as [-> | ->]; eauto).
  pose proof (exact_metadata_search_ok is_flt P false oob t nm' lg' _ name k tv His' Hc Hk Htv) as Hs.
  rewrite Ha in Hs. destruct (answers (attrs ≫= attr_entries) name k); [done|]. destruct Hs as (t' & Hs & _). eauto.
Qed.
End RoundTrip.

(** The index of attributes on [p] partitions, dumped and loaded again into a
    new anchor. *)
Definition dump_and_load (p : Z) (attrs : list miqs_meta_attribute) : outcome (option index_anchor) :=
  '(_, s) ← index_all no_oob no_ptr attrs (init_in_mem_index p);
  '(bytes, _) ← dump_mdb_index_to_disk s;
  '(_, s') ← load_mdb_file_to_index no_oob (Some bytes) 0 None;
  Ret s'.

(** An MDB file written with parallelism 2 cannot be loaded: the dump
    writes the attribute regions of all partitions after the paths of each
    partition (the inner loop shadows [i]), the loader expects one region
    there and dereferences the NULL it reads.  The same attributes survive
    dump and load with parallelism 1. *)
Theorem mdb_parallel_reload_faults :
  (∃ bytes s, (x ← index_all no_oob no_ptr [attr_n; attr_n2] (init_in_mem_index 2);
               dump_mdb_index_to_disk x.2) = Ret (bytes, s))
  ∧ dump_and_load 2 [attr_n; attr_n2] = Fault
  ∧ ∃ s s', dump_and_load 1 [attr_n; attr_n2] = Ret (Some s)
      ∧ exact_metadata_search no_oob [110]%Z (QNum (int_bytes 5)) MIQS_ATV_INTEGER s
        = Ret (result_of [([102; 49]%Z, [111; 49]%Z); ([102; 50]%Z, [111; 49]%Z)], s').
Proof.
  split; [eexists _, _; vm_compute; reflexivity|]. split; [vm_compute; reflexivity|].
  eexists _, _. split; [vm_compute; reflexivity|]. vm_compute. reflexivity.
Qed.

(** ** Witnesses *)
Definition paths1 : linked_list tagged_value :=
  match insert_tagged_value [97]%Z list_create with Ret (_, ll) => ll | Fault => list_create end.
Lemma paths1_is : path_list paths1 [[97]%Z].
Proof.
  destruct (insert_tagged_value_intern list_create [] [97]%Z) as (ll & Hr & Hl);
    [split; [apply list_is_create|constructor]|storable|done|].
  unfold paths1. by rewrite Hr.
Qed.
Lemma path_list_round_trip_witness :
  ∃ bytes ll1 ll2, append_path_list [7]%Z paths1 = Ret ([7]%Z ++ bytes, ll1) ∧ path_list ll1 [[97]%Z]
    ∧ read_into_path_list (bytes ++ [9]%Z) list_create = Ret ((1%Z, [9]%Z), ll2) ∧ path_list ll2 [[97]%Z].
Proof.
  exact (path_list_round_trip paths1 [[97]%Z] [7]%Z [9]%Z paths1_is).
Defined.

Lemma keys_of_kind_bytes b k : keys_of_kind b k → value_bytes (key_type b) (Some k).
Proof.
  destruct b; unfold keys_of_kind, int_key; cbn.
  - unfold some_doubles. rewrite !elem_of_cons, elem_of_nil. intros Hk. destruct_or! Hk; subst;
      eexists; (split; [|reflexivity]); unfold in_u64; lia.
  - intros (x & Hx & ->). exists x. split; [|done]. unfold in_i32, small_int in *. lia.
Qed.
Lemma mdb_round_trip_witness :
  ∃ s bytes s1 s2 t',
    index_all no_oob no_ptr [attr_n; attr_x; attr_n2] (init_in_mem_index 1) = Ret ([], s)
    ∧ dump_mdb_index_to_disk s = Ret (bytes, s1)
    ∧ load_mdb_file_to_index no_oob (Some bytes) 0 None = Ret (0%Z, Some s2)
    ∧ exact_metadata_search no_oob [110]%Z (QNum (int_bytes 5)) MIQS_ATV_INTEGER s2
      = Ret (result_of [([102; 49]%Z, [111; 49]%Z); ([102; 50]%Z, [111; 49]%Z)], t').
Proof.
  destruct (mdb_round_trip is_x keys_of_kind (HKO := keys_of_kind_order) no_oob no_ptr [attr_n; attr_x; attr_n2] 0
    keys_of_kind_size keys_of_kind_bytes) as (s & bytes & s1 & s2 & H1 & H2 & H3 & H4).
  - constructor; [exact (attr_ok_n false)|]. constructor; [exact (attr_ok_x false)|].
    constructor; [exact (attr_ok_n2 false)|constructor].
  - vm_compute. discriminate.
  - vm_compute. discriminate.
  - destruct (H4 s2 [110]%Z (int_bytes 5) MIQS_ATV_INTEGER) as [t' Ht];
      [by right|bytes|apply int_key_of; unfold small_int; lia|by left|vm_compute; discriminate|].
    exists s, bytes, s1, s2, t'. split; [exact H1|]. split; [exact H2|]. split; [exact H3|exact Ht].
Defined.
