(* ===== verification/StringUtils.v ===== *)
(** * String utilities (src/utils/string_utils.c)

    Pattern matching on C strings.  [substring] allocates exactly the bytes
    it copies and no terminator, so a reader of its result goes on into the
    memory behind the block: [beyond buf] are the bytes found there, a
    parameter.  Printing, random strings and word files are not modelled. *)
From S2P Require Import Prelude Comparators BinFile OnDiskIndex.

(** ** The C library's string functions *)
Fixpoint strstr (str tok : list Z) : option nat :=
  if bool_decide (tok `prefix_of` str) then Some 0
  else match str with [] => None | _ :: str => S <$> strstr str tok end.
Fixpoint strchr (str : list Z) (c : Z) : option nat :=
  match str with
  | [] => if bool_decide (c = 0%Z) then Some 0 else None
  | b :: str => if bool_decide (b = c) then Some 0 else S <$> strchr str c
  end.
Definition strncmp (a b : list Z) (n : nat) : Z := strcmp (take n a) (take n b).
(** strncpy pads with NULs up to [n] bytes. *)
Definition strncpy (src : list Z) (n : nat) : list Z := take n (src ++ replicate n 0%Z).
Definition STAR : Z := 42.

(** ** The operations *)
Inductive pattern_type_t := PATTERN_EXACT | PATTERN_PREFIX | PATTERN_SUFFIX | PATTERN_MIDDLE.
Record affix_t := create_affix_info { affix_body : list Z; affix_length : Z; affix_type : pattern_type_t }.

Definition startsWith (str pre : list Z) : Z := Z.b2z (bool_decide (strstr str pre = Some 0)).
Definition endsWith (str suf : list Z) : Z :=
  if bool_decide (length str < length suf) then 0%Z
  else Z.b2z (bool_decide (strncmp (drop (length str - length suf) str) suf (length suf) = 0%Z)).
Definition contains (str tok : list Z) : Z := Z.b2z (bool_decide (strstr str tok ≠ None)).
Definition equals (str tok : list Z) : Z := Z.b2z (bool_decide (strcmp tok str = 0%Z)).

Definition determine_pattern_type (pattern : list Z) : pattern_type_t :=
  if bool_decide (startsWith pattern [STAR] ≠ 0%Z) then
    if bool_decide (endsWith pattern [STAR] ≠ 0%Z) then PATTERN_MIDDLE else PATTERN_SUFFIX
  else
    if bool_decide (endsWith pattern [STAR] ≠ 0%Z) then PATTERN_PREFIX else PATTERN_EXACT.

(** The block of [len] bytes that is returned.  strlen of a NULL faults, and so
    does the copy into the NULL that calloc returns for a negative length. *)
Definition substring (str : option (list Z)) (start end_ : Z) : outcome (option (list Z)) :=
  str ← deref str;
  let lenstr := i32 (Z.of_nat (length str)) in
  if bool_decide (lenstr ≤ 0)%Z then Ret None else
  let end_ := if bool_decide (end_ < 0)%Z then lenstr else end_ in
  if bool_decide (start < 0)%Z || bool_decide (end_ > lenstr + 1)%Z then Ret None else
  let len := (end_ - start)%Z in
  if bool_decide (len < 0)%Z then Fault
  else Ret (Some (strncpy (drop (Z.to_nat start) str) (Z.to_nat len))).
Definition substr (str : option (list Z)) (start : Z) : outcome (option (list Z)) := substring str start (-1).
Definition subrstr (str : option (list Z)) (end_ : Z) : outcome (option (list Z)) := substring str 0 end_.

Definition indexOfStr (str tok : list Z) : Z :=
  match strstr str tok with Some p => i32 (Z.of_nat p) | None => (-1)%Z end.
Definition indexOf (str : list Z) (c : Z) : Z :=
  match strchr str c with Some p => i32 (Z.of_nat p) | None => (-1)%Z end.

Definition is_matching_given_affix (str : list Z) (affix : affix_t) : Z :=
  match affix_type affix with
  | PATTERN_PREFIX => startsWith str (affix_body affix)
  | PATTERN_SUFFIX => endsWith str (affix_body affix)
  | PATTERN_MIDDLE => contains str (affix_body affix)
  | PATTERN_EXACT => 0%Z
  end.

(** concat: [written] are the bytes up to [wp]; a write behind [allocated]
    bytes faults. *)
Fixpoint concat_loop (args : list (list Z)) (allocated : nat) (written : list Z) : outcome (list Z) :=
  match args with
  | [] => if bool_decide (length written + 1 ≤ allocated) then Ret written else Fault
  | s :: args =>
      let len := length s in
      let allocated := if bool_decide (allocated < length written + len + 1) then (allocated + len) * 2 else allocated in
      if bool_decide (length written + len ≤ allocated) then concat_loop args allocated (written ++ s) else Fault
  end.
Definition concat (args : list (list Z)) : outcome (list Z) := concat_loop args 100 [].

(** str_append, for the formatted string [str]. *)
Definition str_append (result : option (list Z)) (str : list Z) : list Z := default [] result ++ str.

(** reverse_str: the loop from [i] on over the zeroed block [rst]. *)
Fixpoint reverse_loop (str : list Z) (len i n : nat) (rst : list Z) : list Z :=
  match n with
  | O => rst
  | S n => reverse_loop str len (S i) n (<[len - 1 - i := default 0%Z (str !! i)]> rst)
  end.
Definition reverse_str (str : list Z) : list Z :=
  let len := length str in cstr_of (reverse_loop str len 0 len (replicate (len + 1) 0%Z)).

Section Matches.
Context (beyond : list Z → list Z).

(** The C string that starts at a block without terminator. *)
Definition as_string (buf : list Z) : list Z := cstr_of (buf ++ beyond buf).
Definition with_tok (match_ : list Z → list Z → Z) (str : list Z) (tok : option (list Z)) : Z :=
  match tok with None => 0%Z | Some buf => match_ str (as_string buf) end.

Definition simple_matches (str pattern : option (list Z)) : outcome Z :=
  match str, pattern with
  | Some str, Some pattern =>
      let n := Z.of_nat (length pattern) in
      match determine_pattern_type pattern with
      | PATTERN_EXACT => Ret (equals str pattern)
      | PATTERN_PREFIX => tok ← subrstr (Some pattern) (i32 (u64 (n - 1))); Ret (with_tok startsWith str tok)
      | PATTERN_SUFFIX => tok ← substr (Some pattern) 1; Ret (with_tok endsWith str tok)
      | PATTERN_MIDDLE => tok ← substring (Some pattern) 1 (i32 (u64 (n - 1))); Ret (with_tok contains str tok)
      end
  | _, _ => Ret 0%Z
  end.
End Matches.

(** ** Lemmas *)
Lemma strstr_0 str tok : strstr str tok = Some 0 ↔ tok `prefix_of` str.
Proof.
  destruct str as [|b str]; cbn [strstr]; case_bool_decide; try done.
  split; [|done]. by destruct (strstr str tok).
Qed.
Lemma strstr_infix str tok : strstr str tok ≠ None ↔ ∃ a b, str = a ++ tok ++ b.
Proof.
  induction str as [|c str IH]; cbn [strstr]; case_bool_decide as Hp.
  - split; [|done]. intros _. destruct Hp as [k Hk]. by exists [], k.
  - split; [done|]. intros (a & b & Heq). destruct Hp. symmetry in Heq. apply app_eq_nil in Heq as [_ Heq].
    apply app_eq_nil in Heq as [-> _]. done.
  - split; [|done]. intros _. destruct Hp as [k Hk]. by exists [], k.
  - rewrite fmap_None. etrans; [exact IH|]. split.
    + intros (a & b & ->). by exists (c :: a), b.
    + intros ([|x a] & b & Heq); [destruct Hp; by exists b|]. injection Heq as -> ->. eauto.
Qed.

Lemma startsWith_spec str pre : startsWith str pre = Z.b2z (bool_decide (pre `prefix_of` str)).
Proof. unfold startsWith. f_equal. apply bool_decide_ext, strstr_0. Qed.

Lemma endsWith_spec str suf :
  cstr str → cstr suf → endsWith str suf = Z.b2z (bool_decide (suf `suffix_of` str)).
Proof.
  intros Hs Hf. unfold endsWith. case_bool_decide as Hl.
  - rewrite bool_decide_eq_false_2; [done|]. intros [k ->]. rewrite length_app in Hl. lia.
  - f_equal. apply bool_decide_ext. unfold strncmp.
    rewrite !take_ge by (rewrite ?length_drop; lia). rewrite strcmp_eq; [|by apply Forall_drop|done]. split.
    + intros <-. exists (take (length str - length suf) str). by rewrite take_drop.
    + intros [k ->]. rewrite length_app, Nat.add_sub, drop_app_length. done.
Qed.

Lemma equals_spec str tok : cstr str → cstr tok → equals str tok = Z.b2z (bool_decide (str = tok)).
Proof. intros Hs Ht. unfold equals. f_equal. apply bool_decide_ext. rewrite strcmp_eq by done. done. Qed.

Lemma concat_loop_ok args allocated written :
  length written + 1 ≤ allocated → concat_loop args allocated written = Ret (written ++ mjoin args).
Proof.
  revert allocated written. induction args as [|s args IH]; intros allocated written Hle; cbn [concat_loop mjoin list_join].
  - by rewrite bool_decide_eq_true_2, app_nil_r by lia.
  - set (al := if bool_decide (allocated < _) then _ else _).
    assert (length written + length s + 1 ≤ al) by (unfold al; case_bool_decide; lia).
    rewrite bool_decide_eq_true_2 by lia. rewrite IH by (rewrite length_app; lia). by rewrite <-app_assoc.
Qed.
(** concat never writes behind its block. *)
Lemma concat_ok args : concat args = Ret (mjoin args).
Proof. unfold concat. by rewrite concat_loop_ok by (simpl; lia). Qed.

Lemma reverse_loop_ok str i n rst :
  i + n = length str → length rst = length str + 1 →
  (∀ j, j < i → rst !! (length str - 1 - j) = str !! j) → rst !! length str = Some 0%Z →
  reverse_loop str (length str) i n rst = reverse str ++ [0%Z].
Proof.
  revert i rst. induction n as [|n IH]; intros i rst Hi Hl Hdone Hend; cbn [reverse_loop].
  - apply list_eq. intros j. destruct (decide (j < length str)) as [Hj|Hj].
    + rewrite lookup_app_l by (by rewrite length_reverse). rewrite reverse_lookup by done.
      specialize (Hdone (length str - 1 - j) ltac:(lia)).
      replace (length str - 1 - (length str - 1 - j)) with j in Hdone by lia. rewrite Hdone. f_equal. lia.
    + destruct (decide (j = length str)) as [->|Hne].
      * rewrite Hend, lookup_app_r, length_reverse, Nat.sub_diag by (by rewrite length_reverse). done.
      * rewrite !lookup_ge_None_2; [done|rewrite length_app, length_reverse; simpl; lia|lia].
  - destruct (lookup_lt_is_Some_2 str i ltac:(lia)) as [c Hc]. rewrite Hc. cbn [default from_option id]. apply IH.
    + lia.
    + by rewrite length_insert.
    + intros j Hj. destruct (decide (j = i)) as [->|Hne].
      * rewrite list_lookup_insert_eq by lia. by rewrite Hc.
      * rewrite list_lookup_insert_ne by lia. apply Hdone. lia.
    + rewrite list_lookup_insert_ne by lia. done.
Qed.
Lemma reverse_str_ok str : cstr str → reverse_str str = reverse str.
Proof.
  intros Hc. unfold reverse_str. rewrite reverse_loop_ok.
  - apply cstr_of_app. by apply Forall_reverse.
  - done.
  - by rewrite length_replicate.
  - intros j Hj. lia.
  - apply lookup_replicate. split; [done|lia].
Qed.

(** ** Patterns *)
Definition infixb (tok str : list Z) : bool :=
  existsb (λ i, bool_decide (tok `prefix_of` drop i str)) (seq 0 (S (length str))).

(** What a pattern with stars at its ends matches. *)
Definition glob (pattern str : list Z) : bool :=
  let n := length pattern in
  if bool_decide (head pattern = Some STAR) then
    if bool_decide (last pattern = Some STAR) then infixb (take (n - 2) (drop 1 pattern)) str
    else bool_decide (drop 1 pattern `suffix_of` str)
  else
    if bool_decide (last pattern = Some STAR) then bool_decide (take (n - 1) pattern `prefix_of` str)
    else bool_decide (str = pattern).

Lemma infixb_spec tok str : infixb tok str = true ↔ ∃ a b, str = a ++ tok ++ b.
Proof.
  unfold infixb. rewrite existsb_exists. split.
  - intros (i & _ & [k Hk]%bool_decide_eq_true). exists (take i str), k. rewrite <-Hk. by rewrite take_drop.
  - intros (a & b & ->). exists (length a). rewrite in_seq, !length_app. split; [lia|].
    apply bool_decide_eq_true. rewrite drop_app_length. by exists b.
Qed.
Lemma contains_spec str tok : contains str tok = Z.b2z (infixb tok str).
Proof.
  unfold contains. f_equal. apply eq_bool_prop_intro. rewrite bool_decide_spec, Is_true_true, infixb_spec.
  apply strstr_infix.
Qed.

Lemma starts_star pattern : bool_decide (startsWith pattern [STAR] ≠ 0%Z) = bool_decide (head pattern = Some STAR).
Proof.
  apply bool_decide_ext. rewrite startsWith_spec. case_bool_decide as Hp; cbn [Z.b2z].
  - destruct Hp as [k ->]. done.
  - split; [done|]. destruct pattern as [|c p]; [done|]. intros [= ->]. destruct Hp. by exists p.
Qed.
Lemma ends_star pattern :
  cstr pattern → bool_decide (endsWith pattern [STAR] ≠ 0%Z) = bool_decide (last pattern = Some STAR).
Proof.
  intros Hc. apply bool_decide_ext. rewrite endsWith_spec; [|done|by repeat constructor].
  case_bool_decide as Hp; cbn [Z.b2z].
  - destruct Hp as [k ->]. by rewrite last_snoc.
  - split; [done|]. intros [p ->]%last_Some. destruct Hp. by exists p.
Qed.

Lemma substring_ok str start end_ :
  (Z.of_nat (length str) < 2 ^ 31)%Z → str ≠ [] → start ≤ end_ ≤ length str →
  substring (Some str) (Z.of_nat start) (Z.of_nat end_) = Ret (Some (take (end_ - start) (drop start str))).
Proof.
  intros Hl Hne Hse. unfold substring. cbn [deref mbind outcome_bind].
  rewrite i32_id by (unfold in_i32; lia).
  rewrite bool_decide_eq_false_2 by (destruct str; [done|]; simpl; lia).
  rewrite (bool_decide_eq_false_2 (Z.of_nat end_ < 0)%Z), !bool_decide_eq_false_2 by lia. cbn [orb].
  unfold strncpy. rewrite Nat2Z.id, <-Nat2Z.inj_sub, Nat2Z.id by lia.
  rewrite take_app_le by (rewrite length_drop; lia). done.
Qed.

Section Glob.
Context (beyond : list Z → list Z).
(** The byte behind every block is a NUL. *)
Context (Hz : ∀ buf, head (beyond buf) = Some 0%Z).

Lemma as_string_id buf : cstr buf → as_string beyond buf = buf.
Proof using Hz.
  intros Hc. unfold as_string. specialize (Hz buf). destruct (beyond buf) as [|b r]; [done|]. injection Hz as ->.
  by apply cstr_of_app.
Qed.

Lemma simple_matches_glob str pattern :
  cstr str → cstr pattern → (Z.of_nat (length pattern) < 2 ^ 31)%Z → pattern ≠ [STAR] →
  simple_matches beyond (Some str) (Some pattern) = Ret (Z.b2z (glob pattern str)).
Proof using Hz.
  intros Hs Hp Hl Hns. unfold simple_matches, determine_pattern_type, glob. rewrite starts_star, ends_star by done.
  case_bool_decide as Hh; case_bool_decide as Ht.
  - destruct pattern as [|c [|c' p]]; [done|by injection Hh as ->|]. set (pat := c :: c' :: p) in *.
    replace (i32 (u64 (Z.of_nat (length pat) - 1))) with (Z.of_nat (length pat - 1))
      by (rewrite u64_id, i32_id by (unfold in_u64, in_i32; subst pat; simpl in *; lia); subst pat; simpl; lia).
    rewrite (substring_ok pat 1) by (done || subst pat; simpl; lia). cbn [mbind outcome_bind with_tok].
    rewrite as_string_id, contains_spec by (by apply Forall_take, Forall_drop). by rewrite <-Nat.sub_add_distr.
  - destruct pattern as [|c p]; [done|]. set (pat := c :: p) in *. unfold substr.
    assert (substring (Some pat) 1 (-1) = substring (Some pat) (Z.of_nat 1) (Z.of_nat (length pat))) as ->.
    { unfold substring. cbn [deref mbind outcome_bind]. rewrite i32_id by (unfold in_i32; lia).
      rewrite (bool_decide_eq_true_2 (-1 < 0)%Z), (bool_decide_eq_false_2 (Z.of_nat (length pat) < 0)%Z) by lia. done. }
    rewrite substring_ok by (done || subst pat; simpl; lia). cbn [mbind outcome_bind with_tok].
    rewrite take_ge by (by rewrite length_drop).
    by rewrite as_string_id, endsWith_spec by (try apply Forall_drop; done).
  - assert (pattern ≠ []) as Hne by (by destruct pattern). assert (0 < length pattern) by (destruct pattern; simpl; [done|lia]).
    replace (i32 (u64 (Z.of_nat (length pattern) - 1))) with (Z.of_nat (length pattern - 1))
      by (rewrite u64_id, i32_id by (unfold in_u64, in_i32; lia); lia).
    unfold subrstr. rewrite (substring_ok pattern 0) by (done || lia). cbn [mbind outcome_bind with_tok].
    rewrite as_string_id, startsWith_spec by (by apply Forall_take, Forall_drop). by rewrite Nat.sub_0_r.
  - by rewrite equals_spec.
Qed.

Lemma simple_matches_star str : simple_matches beyond (Some str) (Some [STAR]) = Fault.
Proof using. reflexivity. Qed.
End Glob.
