(* ===== verification/QueryUtils.v ===== *)
(** * Tag queries (src/utils/query_utils.c)

    Tag lists "k=v,k=v,..." searched with key and value patterns.  Keys and
    values are blocks of [substring], without terminator.  The second half has
    the properties of the string and tag utilities. *)
From S2P Require Import Prelude Comparators BinFile OnDiskIndex StringUtils.

Definition COMMA : Z := 44.
Definition EQUALS : Z := 61.

Definition get_key (kv_pair : option (list Z)) (delim : Z) : outcome (option (list Z)) :=
  kv ← deref kv_pair;
  let idx := indexOf kv delim in
  if bool_decide (idx < 0)%Z then Ret None else subrstr (Some kv) idx.
Definition get_value (kv_pair : option (list Z)) (delim : Z) : outcome (option (list Z)) :=
  kv ← deref kv_pair;
  let idx := indexOf kv delim in
  if bool_decide (idx < 0)%Z then Ret None else substr (Some kv) (idx + 1)%Z.

(** strtok with the delimiter ",": the next token and the rest of the string,
    where the following call continues. *)
Fixpoint skip_commas (s : list Z) : list Z :=
  match s with
  | c :: s' => if bool_decide (c = COMMA) then skip_commas s' else s
  | [] => []
  end.
Fixpoint until_comma (s : list Z) : list Z :=
  match s with
  | c :: s' => if bool_decide (c = COMMA) then [] else c :: until_comma s'
  | [] => []
  end.
Definition strtok (s : list Z) : option (list Z * list Z) :=
  match skip_commas s with
  | [] => None
  | s => let tok := until_comma s in Some (tok, drop (S (length tok)) s)
  end.

(** atoi: blanks, a sign, digits; strtol saturates at 64 bits. *)
Definition is_blank (c : Z) : bool := bool_decide (c = 32%Z) || bool_decide (9 ≤ c ≤ 13)%Z.
Fixpoint digits (acc : Z) (s : list Z) : Z :=
  match s with
  | c :: s => if bool_decide (48 ≤ c ≤ 57)%Z then digits (10 * acc + (c - 48)) s else acc
  | [] => acc
  end.
Fixpoint atoi (s : list Z) : Z :=
  match s with
  | [] => 0%Z
  | c :: s' =>
      if is_blank c then atoi s'
      else if bool_decide (c = 45%Z) then i32 (Z.max (- 2 ^ 63) (- digits 0 s'))
      else i32 (Z.min (2 ^ 63 - 1) (digits 0 (if bool_decide (c = 43%Z) then s' else s)))
  end.

Section Tags.
Context (beyond : list Z → list Z).

(** simple_matches on a block that [substring] returned. *)
Definition matches_block (buf pattern : option (list Z)) : outcome Z :=
  simple_matches beyond (as_string beyond <$> buf) pattern.

(** Whether the loop body takes the pair [tag_kv]. *)
Definition tag_kv_matches (tag_kv key_pattern : list Z) (value_pattern : option (list Z)) : outcome bool :=
  match strchr tag_kv EQUALS with
  | None => Ret false
  | Some _ =>
      key ← get_key (Some tag_kv) EQUALS;
      value ← get_value (Some tag_kv) EQUALS;
      is_key_matched ← matches_block key (Some key_pattern);
      is_value_matched ← match value_pattern with
                         | None => Ret 0%Z
                         | Some vp => matches_block value (Some vp)
                         end;
      Ret (match value_pattern with
           | None => bool_decide (is_key_matched ≠ 0%Z)
           | Some _ => bool_decide (is_key_matched ≠ 0%Z) && bool_decide (is_value_matched ≠ 0%Z)
           end)
  end.

Fixpoint k_v_loop (fuel : nat) (s key_pattern : list Z) (value_pattern : option (list Z))
    : outcome (option (list Z)) :=
  match fuel with
  | O => Fault
  | S fuel =>
      match strtok s with
      | None => Ret None
      | Some (tag_kv, s) =>
          m ← tag_kv_matches tag_kv key_pattern value_pattern;
          if m : bool then Ret (Some tag_kv) else k_v_loop fuel s key_pattern value_pattern
      end
  end.
Definition k_v_matches_p (tagslist key_pattern value_pattern : option (list Z)) : outcome (option (list Z)) :=
  match tagslist, key_pattern with
  | Some tl, Some kp => k_v_loop (S (length tl)) tl kp value_pattern
  | _, _ => Ret None
  end.

Definition has_tag_p (tagslist pattern : option (list Z)) : outcome Z :=
  r ← k_v_matches_p tagslist pattern None; Ret (Z.b2z (bool_decide (r ≠ None))).
Definition has_tag := has_tag_p.
Definition is_value_match_p (tagslist tagname pattern : option (list Z)) : outcome Z :=
  r ← k_v_matches_p tagslist tagname pattern; Ret (Z.b2z (bool_decide (r ≠ None))).
Definition is_value_match := is_value_match_p.
Definition is_value_in_range (tagslist tagname : option (list Z)) (from to : Z) : outcome Z :=
  matched_kv ← k_v_matches_p tagslist tagname None;
  value ← get_value matched_kv EQUALS;
  v ← deref value;
  let v := atoi (as_string beyond v) in
  Ret (Z.b2z (bool_decide (from ≤ v ≤ to)%Z)).

(** gen_tags; [dec] prints an int in decimal. *)
Context (dec : Z → list Z).
Fixpoint gen_tags_loop (n : nat) (obj_id j : Z) (ret : option (list Z)) : outcome (option (list Z)) :=
  match n with
  | O => Ret ret
  | S n =>
      fspace ← deref ret;
      gen_tags_loop n obj_id (j + 1) (Some (fspace ++ [116; 97; 103]%Z ++ dec j ++ [EQUALS] ++ dec obj_id ++ dec j ++ [COMMA]))
  end.
Definition gen_tags (obj_id : Z) : outcome (list Z) :=
  let tag_num := Z.rem obj_id 20 in
  ret ← gen_tags_loop (Z.to_nat (tag_num + 1)) obj_id 0 None;
  ret ← deref ret;
  Ret (take (length ret - 1) ret).
End Tags.

(** ** Tokens *)

(** The pieces of a string between commas. *)
Fixpoint split_commas (cur s : list Z) : list (list Z) :=
  match s with
  | [] => [cur]
  | c :: s => if bool_decide (c = COMMA) then cur :: split_commas [] s else split_commas (cur ++ [c]) s
  end.
Definition tokens (s : list Z) : list (list Z) := filter (λ t, t ≠ []) (split_commas [] s).

Lemma split_until cur s :
  split_commas cur s
  = (cur ++ until_comma s) :: match drop (length (until_comma s)) s with [] => [] | _ :: r => split_commas [] r end.
Proof.
  revert cur. induction s as [|c s IH]; intros cur; cbn [split_commas until_comma].
  - by rewrite app_nil_r.
  - case_bool_decide as Hc; cbn [length drop]; [by rewrite app_nil_r|]. rewrite IH. by rewrite <-app_assoc.
Qed.

Lemma until_comma_elem s c : c ∈ until_comma s → c ∈ s ∧ c ≠ COMMA.
Proof.
  induction s as [|x s IH]; cbn [until_comma]; [by intros ?%not_elem_of_nil|].
  case_bool_decide; [by intros ?%not_elem_of_nil|]. intros [->|Hin]%elem_of_cons; [by split; [left|]|].
  apply IH in Hin as [??]. split; [by right|done].
Qed.
Lemma length_until s : length (until_comma s) ≤ length s.
Proof. induction s; simpl; [done|]. case_bool_decide; simpl; lia. Qed.
Lemma length_skip s : length (skip_commas s) ≤ length s.
Proof. induction s; simpl; [done|]. case_bool_decide; simpl; lia. Qed.

Lemma tokens_skip s : tokens (skip_commas s) = tokens s.
Proof.
  induction s as [|c s IH]; cbn [skip_commas]; [done|]. case_bool_decide as Hc; [|done].
  rewrite IH. unfold tokens. cbn [split_commas]. rewrite bool_decide_eq_true_2 by done. done.
Qed.

(** strtok takes the tokens off one by one. *)
Lemma strtok_tokens s :
  match strtok s with
  | None => tokens s = []
  | Some (t, r) => tokens s = t :: tokens r ∧ length r < length s
      ∧ (∀ c, c ∈ t → c ∈ s) ∧ (∀ c, c ∈ r → c ∈ s) ∧ length t ≤ length s
  end.
Proof.
  unfold strtok. pose proof (tokens_skip s) as Ht. pose proof (length_skip s) as Hl.
  assert (∀ c, c ∈ skip_commas s → c ∈ s) as Hin.
  { clear. induction s as [|x s IH]; cbn [skip_commas]; [done|]. case_bool_decide; [|done].
    intros c Hc. right. by apply IH. }
  destruct (skip_commas s) as [|c r] eqn:Hs; [by rewrite <-Ht|].
  assert (c ≠ COMMA) as Hc.
  { clear -Hs. induction s as [|x s IH]; cbn [skip_commas] in Hs; [done|]. case_bool_decide; [by apply IH|congruence]. }
  rewrite <-Ht. split; [|split; [|split; [|split]]].
  - unfold tokens. rewrite split_until. cbn [app].
    rewrite filter_cons_True by (cbn [until_comma]; by rewrite bool_decide_eq_false_2). f_equal.
    destruct (drop (length (until_comma (c :: r))) (c :: r)) as [|x q] eqn:Hd.
    + rewrite drop_ge; [done|]. apply (f_equal length) in Hd. rewrite length_drop in Hd. simpl in Hd |- *. lia.
    + replace (drop (S (length (until_comma (c :: r)))) (c :: r)) with q; [done|].
      rewrite <-Nat.add_1_r, <-drop_drop, Hd. done.
  - cbn [length drop]. rewrite length_drop. simpl in Hl. lia.
  - intros x [Hx _]%until_comma_elem. by apply Hin.
  - intros x Hx. apply Hin. apply list_elem_of_lookup_1 in Hx as [i Hi].
    rewrite lookup_drop in Hi. by eapply list_elem_of_lookup_2.
  - pose proof (length_until (c :: r)). lia.
Qed.

(** ** Keys and values *)

(** The two sides of the first "=". *)
Definition split_pair (kv : list Z) : option (list Z * list Z) :=
  match strchr kv EQUALS with Some i => Some (take i kv, drop (S i) kv) | None => None end.
(** A tag that the patterns accept. *)
Definition tag_matches (key_pattern : list Z) (value_pattern : option (list Z)) (kv : list Z) : bool :=
  match split_pair kv with
  | None => false
  | Some (k, v) => glob key_pattern k && match value_pattern with None => true | Some vp => glob vp v end
  end.

Lemma strchr_lt s c i : c ≠ 0%Z → strchr s c = Some i → i < length s.
Proof.
  intros Hc. revert i. induction s as [|b s IH]; intros i; cbn [strchr length].
  - by rewrite bool_decide_eq_false_2.
  - case_bool_decide; [intros [= <-]; lia|]. destruct (strchr s c) as [j|]; [|done]. intros [= <-].
    specialize (IH j eq_refl). lia.
Qed.

Section Tags.
Context (beyond : list Z → list Z) (Hz : ∀ buf, head (beyond buf) = Some 0%Z).

(** Patterns other than the lone star. *)
Definition pattern_ok (p : list Z) : Prop :=
  cstr p ∧ (Z.of_nat (length p) < 2 ^ 31)%Z ∧ p ≠ [STAR].

Lemma matches_block_ok buf p :
  cstr buf → pattern_ok p → matches_block beyond (Some buf) (Some p) = Ret (Z.b2z (glob p buf)).
Proof using Hz.
  intros Hb (Hp & Hl & Hs). unfold matches_block. cbn [fmap option_fmap option_map].
  rewrite as_string_id by done. by apply simple_matches_glob.
Qed.

Lemma b2z_nonzero b : bool_decide (Z.b2z b ≠ 0%Z) = b.
Proof. by destruct b. Qed.

Lemma tag_kv_matches_ok kv kp vp :
  cstr kv → (Z.of_nat (length kv) < 2 ^ 31)%Z → pattern_ok kp → (∀ p, vp = Some p → pattern_ok p) →
  tag_kv_matches beyond kv kp vp = Ret (tag_matches kp vp kv).
Proof using Hz.
  intros Hc Hl Hkp Hvp. unfold tag_kv_matches, tag_matches, split_pair.
  destruct (strchr kv EQUALS) as [i|] eqn:Hi; [|done]. pose proof (strchr_lt kv EQUALS i ltac:(done) Hi) as Hlt.
  assert (kv ≠ []) as Hne by (by destruct kv; [simpl in Hlt; lia|]).
  assert (get_key (Some kv) EQUALS = Ret (Some (take i kv))) as ->.
  { unfold get_key, indexOf. cbn [deref mbind outcome_bind]. rewrite Hi, i32_id by (unfold in_i32; lia).
    rewrite bool_decide_eq_false_2 by lia. unfold subrstr.
    change 0%Z with (Z.of_nat 0). rewrite substring_ok by (done || lia). by rewrite Nat.sub_0_r. }
  assert (get_value (Some kv) EQUALS = Ret (Some (drop (S i) kv))) as ->.
  { unfold get_value, indexOf. cbn [deref mbind outcome_bind]. rewrite Hi, i32_id by (unfold in_i32; lia).
    rewrite bool_decide_eq_false_2 by lia. rewrite <-(take_ge (drop (S i) kv) (length kv - S i)) by (by rewrite length_drop).
    rewrite <-substring_ok by (done || lia). unfold substr, substring. cbn [deref mbind outcome_bind].
    rewrite i32_id by (unfold in_i32; lia).
    rewrite (bool_decide_eq_true_2 (-1 < 0)%Z), (bool_decide_eq_false_2 (Z.of_nat (length kv) < 0)%Z) by lia.
    by replace (Z.of_nat i + 1)%Z with (Z.of_nat (S i)) by lia. }
  cbn [mbind outcome_bind]. rewrite matches_block_ok by (try apply Forall_take; done). cbn [mbind outcome_bind].
  destruct vp as [vp|].
  - rewrite matches_block_ok by (by try apply Forall_drop; eauto). cbn [mbind outcome_bind].
    by rewrite !b2z_nonzero.
  - cbn [mbind outcome_bind]. by rewrite b2z_nonzero, andb_true_r.
Qed.

Lemma k_v_loop_ok fuel s kp vp :
  length s < fuel → cstr s → (Z.of_nat (length s) < 2 ^ 31)%Z → pattern_ok kp → (∀ p, vp = Some p → pattern_ok p) →
  k_v_loop beyond fuel s kp vp = Ret (head (filter (λ t, tag_matches kp vp t = true) (tokens s))).
Proof using Hz.
  revert s. induction fuel as [|fuel IH]; intros s Hf Hc Hl Hkp Hvp; [lia|]. cbn [k_v_loop].
  pose proof (strtok_tokens s) as Ht. destruct (strtok s) as [[t r]|]; [|by rewrite Ht].
  destruct Ht as (Ht & Hlr & Htc & Hrc & Htl). unfold cstr in Hc. rewrite Forall_forall in Hc.
  rewrite tag_kv_matches_ok; [|apply Forall_forall; eauto|lia|done|done]. cbn [mbind outcome_bind]. rewrite Ht.
  destruct (tag_matches kp vp t) eqn:Hm.
  - by rewrite filter_cons_True.
  - rewrite filter_cons_False by congruence. apply IH; [lia|apply Forall_forall; eauto|lia|done|done].
Qed.
End Tags.

(** ** Properties of the string and tag utilities *)
(** ** Patterns *)

(** C31: when the byte behind the blocks of [substring] is a NUL,
    [simple_matches] matches a body without stars exactly, "body*" by prefix,
    "*body" by suffix and "*body*" anywhere; the pattern "*" alone faults (a
    block of -1 bytes is requested and written). *)
Theorem simple_matches_patterns beyond str body :
  (∀ buf, head (beyond buf) = Some 0%Z) → cstr str → cstr body → (Z.of_nat (length body) + 2 < 2 ^ 31)%Z →
  let m p := simple_matches beyond (Some str) (Some p) in
  (head body ≠ Some STAR → last body ≠ Some STAR → m body = Ret (Z.b2z (bool_decide (str = body))))
  ∧ (body ≠ [] → head body ≠ Some STAR →
      m (body ++ [STAR]) = Ret (Z.b2z (bool_decide (body `prefix_of` str))))
  ∧ (body ≠ [] → last body ≠ Some STAR →
      m (STAR :: body) = Ret (Z.b2z (bool_decide (body `suffix_of` str))))
  ∧ (∃ r, m (STAR :: body ++ [STAR]) = Ret (Z.b2z r) ∧ (r = true ↔ ∃ a b, str = a ++ body ++ b))
  ∧ m [STAR] = Fault.
Proof.
  intros Hz Hs Hb Hl m. assert (cstr [STAR]) as Hst by (by repeat constructor).
  split; [|split; [|split; [|split; [|done]]]].
  - intros Hh Ht. unfold m. rewrite simple_matches_glob by (done || lia || by intros ->). unfold glob.
    by rewrite !bool_decide_eq_false_2 by done.
  - intros Hne Hh. destruct body as [|c p]; [done|]. unfold m.
    rewrite simple_matches_glob; [|done|done|by apply Forall_app|rewrite length_app; simpl in *; lia|by destruct p].
    unfold glob. rewrite bool_decide_eq_false_2, bool_decide_eq_true_2; [|by rewrite last_snoc|done].
    rewrite length_app, Nat.add_sub, take_app_length. done.
  - intros Hne Ht. destruct body as [|c p]; [done|]. unfold m.
    rewrite simple_matches_glob; [|done|done|by constructor|simpl in *; lia|done].
    unfold glob. rewrite bool_decide_eq_true_2, bool_decide_eq_false_2; [done|by rewrite last_cons_cons|done].
  - exists (infixb body str). split; [|apply infixb_spec]. unfold m.
    rewrite simple_matches_glob;
      [|done|done|constructor; [done|by apply Forall_app]|simpl; rewrite length_app; simpl; lia|by destruct body].
    unfold glob. rewrite bool_decide_eq_true_2, bool_decide_eq_true_2; [|by rewrite app_comm_cons, last_snoc|done].
    change (drop 1 (STAR :: body ++ [STAR])) with (body ++ [STAR]). cbn [length]. rewrite length_app. cbn [length].
    replace (S (length body + 1) - 2) with (length body) by lia. by rewrite take_app_length.
Qed.

(** ** Tags *)

(** [k_v_matches_p] returns the first tag of the comma-separated list that
    has an "=", whose key matches the key pattern and, when a value pattern is
    given, whose value matches that; NULL if there is none.  (The byte behind
    the key and value blocks is a NUL and no pattern is the lone star.) *)
Theorem k_v_matches_first beyond tagslist kp vp :
  (∀ buf, head (beyond buf) = Some 0%Z) → cstr tagslist → (Z.of_nat (length tagslist) < 2 ^ 31)%Z →
  pattern_ok kp → (∀ p, vp = Some p → pattern_ok p) →
  k_v_matches_p beyond (Some tagslist) (Some kp) vp
  = Ret (head (filter (λ t, tag_matches kp vp t = true) (tokens tagslist))).
Proof. intros Hz Hc Hl Hkp Hvp. unfold k_v_matches_p. apply k_v_loop_ok; auto with lia. Qed.

(** ** What the utilities do not handle *)

(** The result of a match can depend on the byte behind the block that holds
    the prefix. *)
Lemma prefix_match_reads_beyond :
  simple_matches (λ _, [0]%Z) (Some [97; 98]%Z) (Some [97; STAR]%Z) = Ret 1%Z
  ∧ simple_matches (λ _, [99; 0]%Z) (Some [97; 98]%Z) (Some [97; STAR]%Z) = Ret 0%Z.
Proof. by split. Qed.

(** gen_tags takes the length of a NULL string in its first iteration, or after
    the loop when there is none. *)
Lemma gen_tags_faults dec obj_id : gen_tags dec obj_id = Fault.
Proof. unfold gen_tags. by destruct (Z.to_nat _). Qed.

(** A range query on a tag that is missing faults. *)
Lemma range_without_tag_faults :
  is_value_in_range (λ _, [0]%Z) (Some [97; EQUALS; 53]%Z) (Some [98]%Z) 0 9 = Fault.
Proof. vm_compute. reflexivity. Qed.

(** ** Witnesses *)
Lemma simple_matches_patterns_witness :
  let m p := simple_matches (λ _, [0]%Z) (Some [120; 97; 98; 121]%Z) (Some p) in
  m (STAR :: [97; 98]%Z) = Ret 0%Z
  ∧ (∃ r, m (STAR :: [97; 98]%Z ++ [STAR]) = Ret (Z.b2z r) ∧ (r = true ↔ ∃ a b, [120; 97; 98; 121]%Z = a ++ [97; 98]%Z ++ b)).
Proof.
  destruct (simple_matches_patterns (λ _, [0]%Z) [120; 97; 98; 121]%Z [97; 98]%Z) as (_ & _ & H3 & H4 & _);
    [reflexivity|repeat constructor; lia|repeat constructor; lia|simpl; lia|].
  split; [|exact H4]. rewrite H3; [reflexivity|done|done].
Defined.

(** The list "a=1,bc=23" searched for "b*" with the value "*3". *)
Lemma k_v_matches_first_witness :
  k_v_matches_p (λ _, [0]%Z) (Some [97; EQUALS; 49; COMMA; 98; 99; EQUALS; 50; 51]%Z) (Some [98; STAR]%Z)
    (Some [STAR; 51]%Z) = Ret (Some [98; 99; EQUALS; 50; 51]%Z).
Proof.
  rewrite (k_v_matches_first (λ _, [0]%Z) [97; EQUALS; 49; COMMA; 98; 99; EQUALS; 50; 51]%Z [98; STAR]%Z (Some [STAR; 51]%Z));
    [reflexivity|reflexivity|repeat constructor; lia|simpl; lia| |].
  - split; [repeat constructor; lia|]. split; [simpl; lia|done].
  - intros p [= <-]. split; [repeat constructor; lia|]. split; [simpl; lia|done].
Defined.
