(* ===== verification/FsOps.v ===== *)
(** * Directory traversal (src/utils/fs/fs_ops.c)

    The operating system is a parameter, the record [fs_ops] of the calls the
    code makes on a file system of type [F].  scandir is the C library's: the
    entries of a directory that pass the filter, sorted. *)
From S2P Require Import Prelude Comparators.

Inductive d_type_t := DT_DIR | DT_REG | DT_OTHER.
#[export] Instance d_type_t_eq_dec : EqDecision d_type_t.
Proof. solve_decision. Defined.
Record dirent := mk_dirent { d_name : list Z; d_type : d_type_t }.

(** readdir of a whole directory and opendir, stat ([None] if it fails,
    whether a file is regular otherwise), mkdir (its errno, 0 for success),
    fopen for writing, the contents of a file, and writing a file. *)
Record fs_ops (F : Type) := mk_fs {
  fs_entries : F → list Z → option (list dirent);
  fs_opendir : F → list Z → bool;
  fs_stat : F → list Z → option bool;
  fs_mkdir : list Z → F → Z * F;
  fs_create : F → list Z → bool;
  fs_content : F → list Z → option (list Z);
  fs_write : list Z → list Z → F → F
}.
Arguments fs_entries {F}. Arguments fs_opendir {F}. Arguments fs_stat {F}. Arguments fs_mkdir {F}.
Arguments fs_create {F}. Arguments fs_content {F}. Arguments fs_write {F}.

(** What POSIX says of the empty path: it names nothing. *)
Class FsLaws {F} (os : fs_ops F) : Prop := {
  empty_entries f : fs_entries os f [] = None;
  empty_opendir f : fs_opendir os f [] = false;
  empty_stat f : fs_stat os f [] = None;
  empty_mkdir f : (fs_mkdir os [] f).1 ≠ 0%Z
}.

Definition SLASH : Z := 47.
(** What POSIX says of a directory: its names are distinct and have no slash. *)
Class DirLaws (entries : list Z → option (list dirent)) : Prop := {
  names_distinct q raw : entries q = Some raw → NoDup (d_name <$> raw);
  names_plain q raw e : entries q = Some raw → e ∈ raw → SLASH ∉ d_name e
}.
Definition DOT : Z := 46.
Definition join (dir name : list Z) : list Z := dir ++ SLASH :: name.

Inductive sorting_direction_t := ASC | DESC.

Definition desc_cmp (v end_ : Z) : bool := bool_decide (v >= end_)%Z.
Definition asc_cmp (v end_ : Z) : bool := bool_decide (v <= end_)%Z.
Definition incr (a : Z) : Z := (a + 1)%Z.
Definition decr (a : Z) : Z := (a - 1)%Z.

(** alphasort, in the C locale. *)
Definition alphasort (a b : dirent) : Z := strcmp (d_name a) (d_name b).

Section Collect.
Context {S : Type} (entries : list Z → option (list dirent)).
Context (filter : dirent → bool) (cmp : dirent → dirent → Z) (sd : sorting_direction_t) (topk : Z).
Context (on_file on_dir : option (dirent → list Z → st S Z)) (pre_op post_op : option (st S Z)).

Definition entry_le (a b : dirent) : Prop := (cmp a b <= 0)%Z.
#[local] Instance entry_le_dec a b : Decision (entry_le a b).
Proof. unfold entry_le. apply _. Defined.

Definition scandir (dir_path : list Z) : option (list dirent) :=
  l ← entries dir_path; Some (merge_sort entry_le (List.filter filter l)).

(** snprintf(path, 1023, "%s/%s", dir_path, entry->d_name) *)
Definition child_path (dir_path : list Z) (entry : dirent) : list Z :=
  take 1022 (join dir_path (d_name entry)).

Definition call_op (op : option (st S Z)) : st S unit :=
  match op with Some f => _ ← f; mret tt | None => mret tt end.
Definition call_on (f : option (dirent → list Z → st S Z)) (entry : dirent) (dir_path : list Z) : st S unit :=
  call_op ((λ f, f entry dir_path) <$> f).

(** One iteration of the loop; [rec] is the call for a directory. *)
Definition collect_entry (rec : list Z → st S unit) (dir_path : list Z) (entry : dirent) : st S unit :=
  _ ← call_op pre_op;
  _ ← (if decide (d_type entry = DT_DIR) then
         _ ← call_on on_dir entry dir_path; rec (child_path dir_path entry)
       else call_on on_file entry dir_path);
  call_op post_op.

(** The while loop; each iteration moves [v] by one, so that one more than the
    number of entries is enough fuel. *)
Fixpoint collect_loop (rec : list Z → st S unit) (dir_path : list Z) (namelist : list dirent)
    (fuel : nat) (v end_ count : Z) : st S unit :=
  let continue := (match sd with DESC => desc_cmp v end_ | ASC => asc_cmp v end_ end)
                    && (if bool_decide (topk > 0)%Z then bool_decide (count < topk)%Z else true) in
  match continue, fuel with
  | false, _ => mret tt
  | true, O => st_fault
  | true, Datatypes.S fuel =>
      entry ← (λ s, e ← deref (namelist !! Z.to_nat v); Ret (e, s));
      _ ← collect_entry rec dir_path entry;
      collect_loop rec dir_path namelist fuel (match sd with DESC => decr v | ASC => incr v end) end_ (count + 1)
  end.

(** [fuel] bounds the depth of the directories. *)
Fixpoint collect_dir (fuel : nat) (dir_path : list Z) : st S unit :=
  match fuel with
  | O => st_fault
  | Datatypes.S fuel =>
      match scandir dir_path with
      | None => mret tt
      | Some namelist =>
          let n := Z.of_nat (length namelist) in
          let '(v, end_) := match sd with DESC => (n - 1, 0)%Z | ASC => (0, n - 1)%Z end in
          collect_loop (collect_dir fuel) dir_path namelist (Datatypes.S (length namelist)) v end_ 0
      end
  end.
End Collect.

Section Fs.
Context {F : Type} (os : fs_ops F).

(** S_ISREG of the buffer; if stat fails, of what the buffer held. *)
Definition is_regular_file (junk : bool) (f : F) (path : list Z) : bool := default junk (fs_stat os f path).

Definition get_file_size (f : F) (path : list Z) : Z :=
  match fs_content os f path with Some bytes => Z.of_nat (length bytes) | None => 0 end.

Definition dir_exists (f : F) (dirname : list Z) : Z := Z.b2z (fs_opendir os f dirname).

(** The C library's dirname. *)
Fixpoint drop_slashes (rpath : list Z) : list Z :=
  match rpath with b :: r => if bool_decide (b = SLASH) then drop_slashes r else rpath | [] => [] end.
Fixpoint drop_name (rpath : list Z) : list Z :=
  match rpath with b :: r => if bool_decide (b = SLASH) then rpath else drop_name r | [] => [] end.
Definition dirname (path : list Z) : list Z :=
  match drop_slashes (rev path) with
  | [] => match path with [] => [DOT] | _ => [SLASH] end
  | r => match drop_name r with
         | [] => [DOT]
         | r => match drop_slashes r with [] => [SLASH] | r => rev r end
         end
  end.

Definition EEXIST : Z := 17.

(** mkpath: the return value, errno and the file system.  dirname shortens a
    path until it is "." or "/", so that its length is enough fuel. *)
Fixpoint mkpath_fuel (fuel : nat) (s : list Z) (errno : Z) (f : F) : outcome (Z * Z * F) :=
  if bool_decide (s = [DOT] ∨ s = [SLASH]) then Ret (0%Z, errno, f)
  else match fuel with
       | O => Fault
       | Datatypes.S fuel =>
           '(rv, errno, f) ← mkpath_fuel fuel (dirname s) errno f;
           if bool_decide (rv = -1 ∧ errno ≠ EEXIST)%Z then Ret ((-1)%Z, errno, f)
           else
             let '(e, f) := fs_mkdir os s f in
             let errno := if bool_decide (e = 0)%Z then errno else e in
             Ret (if bool_decide (e ≠ 0 ∧ errno ≠ EEXIST)%Z then -1 else 0, errno, f)%Z
       end.
Definition mkpath (s : list Z) (f : F) : outcome (Z * Z * F) := mkpath_fuel (Datatypes.S (length s)) s 0 f.
End Fs.
