(* ===== verification/FsTheorems.v ===== *)
(** * Properties of the directory traversal (fs_ops.c)

    collect_dir against the sequence of calls it makes, which files that
    sequence visits, and that it ends. *)
From S2P Require Import Prelude Comparators FsOps.

Section Traversal.
Context {S : Type} (entries : list Z → option (list dirent)).
Context (filter : dirent → bool) (cmp : dirent → dirent → Z) (sd : sorting_direction_t) (topk : Z).
Context (on_file on_dir : option (dirent → list Z → st S Z)) (pre_op post_op : option (st S Z)).
Notation scandir := (scandir entries filter cmp).
Notation collect_entry := (collect_entry on_file on_dir pre_op post_op).
Notation collect_loop := (collect_loop sd topk on_file on_dir pre_op post_op).
Notation collect_dir := (collect_dir entries filter cmp sd topk on_file on_dir pre_op post_op).

(** ** The loop over one directory *)

(** The entries that are visited: the first [topk] in the given direction. *)
Definition in_order (l : list dirent) : list dirent := match sd with DESC => reverse l | ASC => l end.
Definition chosen (l : list dirent) : list dirent :=
  if bool_decide (topk > 0)%Z then take (Z.to_nat topk) (in_order l) else in_order l.

Fixpoint foreach {A} (f : A → st S unit) (l : list A) : st S unit :=
  match l with [] => mret tt | x :: l => _ ← f x; foreach f l end.

(** The value of [v] in iteration [i]. *)
Definition v_at (n i : nat) : Z := match sd with DESC => Z.of_nat n - 1 - Z.of_nat i | ASC => Z.of_nat i end.

Lemma v_at_lookup l i : i < length l → l !! Z.to_nat (v_at (length l) i) = in_order l !! i.
Proof.
  intros Hi. unfold v_at, in_order. destruct sd; [by rewrite Nat2Z.id|].
  rewrite reverse_lookup by done. f_equal. lia.
Qed.

Lemma collect_loop_ok rec p l k fuel i s :
  i + k = length l → k < fuel →
  collect_loop rec p l fuel (v_at (length l) i)
    (match sd with DESC => 0 | ASC => Z.of_nat (length l) - 1 end) (Z.of_nat i) s
  = foreach (collect_entry rec p) (drop i (chosen l)) s.
Proof.
  assert (length (in_order l) = length l) as Hlen by (unfold in_order; destruct sd; by rewrite ?length_reverse).
  revert fuel i s. induction k as [|k IH]; intros fuel i s Hik Hf; destruct fuel as [|fuel]; try lia; simpl.
  - replace (match sd with ASC => asc_cmp _ _ | DESC => desc_cmp _ _ end) with false; simpl.
    + rewrite drop_ge; [done|]. unfold chosen. case_bool_decide; rewrite ?length_take; lia.
    + unfold asc_cmp, desc_cmp, v_at. destruct sd; symmetry; apply bool_decide_eq_false; lia.
  - replace (match sd with ASC => asc_cmp _ _ | DESC => desc_cmp _ _ end) with true; simpl.
    2: { unfold asc_cmp, desc_cmp, v_at. destruct sd; symmetry; apply bool_decide_eq_true; lia. }
    destruct (lookup_lt_is_Some_2 (in_order l) i) as [e He]; [lia|].
    assert (match sd with ASC => incr (v_at (length l) i) | DESC => decr (v_at (length l) i) end
            = v_at (length l) (Datatypes.S i)) as Hnext.
    { unfold v_at, incr, decr. destruct sd; lia. }
    assert (∀ fu, drop i (chosen l) = e :: drop (Datatypes.S i) (chosen l) →
      (entry ← (λ s, e ← deref (l !! Z.to_nat (v_at (length l) i)); Ret (e, s));
       _ ← collect_entry rec p entry;
       collect_loop rec p l fu (v_at (length l) (Datatypes.S i))
         (match sd with DESC => 0 | ASC => Z.of_nat (length l) - 1 end) (Z.of_nat i + 1)) s
      = (_ ← collect_entry rec p e;
         collect_loop rec p l fu (v_at (length l) (Datatypes.S i))
           (match sd with DESC => 0 | ASC => Z.of_nat (length l) - 1 end) (Z.of_nat (Datatypes.S i))) s) as Hstep.
    { intros fu _. unfold mbind, st_bind, outcome_bind. rewrite v_at_lookup, He by lia. simpl.
      by replace (Z.of_nat i + 1)%Z with (Z.of_nat (Datatypes.S i)) by lia. }
    rewrite Hnext. destruct (if bool_decide (topk > 0)%Z then _ else true) eqn:Htop.
    + assert (drop i (chosen l) = e :: drop (Datatypes.S i) (chosen l)) as Hd.
      { apply drop_S. unfold chosen. case_bool_decide; [|done]. apply bool_decide_eq_true in Htop.
        rewrite lookup_take_lt; [done|lia]. }
      rewrite Hstep, Hd by done. simpl. unfold mbind, st_bind. destruct (collect_entry rec p e s) as [[[] s1]|]; [|done].
      apply (IH fuel (Datatypes.S i)); lia.
    + rewrite drop_ge; [done|]. unfold chosen. destruct (bool_decide (topk > 0)%Z) eqn:Ht; [|done].
      apply bool_decide_eq_false in Htop. rewrite length_take. lia.
Qed.

(** ** The calls of a traversal *)
Inductive event := EPre | EDir (e : dirent) (p : list Z) | EFile (e : dirent) (p : list Z) | EPost.

Definition run_event (ev : event) : st S unit :=
  match ev with
  | EPre => call_op pre_op
  | EDir e p => call_on on_dir e p
  | EFile e p => call_on on_file e p
  | EPost => call_op post_op
  end.
Definition run_visits (evs : list event) : st S unit := foreach run_event evs.

Definition entry_visits (rec : list Z → option (list event)) (p : list Z) (e : dirent) : option (list event) :=
  mid ← (if decide (d_type e = DT_DIR) then sub ← rec (child_path p e); Some (EDir e p :: sub)
         else Some [EFile e p]);
  Some (EPre :: mid ++ [EPost]).

(** [None] if directories are nested deeper than [fuel]. *)
Fixpoint visits (fuel : nat) (p : list Z) : option (list event) :=
  match fuel with
  | O => None
  | Datatypes.S fuel =>
      match scandir p with
      | None => Some []
      | Some l => mjoin <$> mapM (entry_visits (visits fuel) p) (chosen l)
      end
  end.

Lemma foreach_app {A} (f : A → st S unit) l1 l2 s :
  foreach f (l1 ++ l2) s = (_ ← foreach f l1; foreach f l2) s.
Proof.
  revert s. induction l1 as [|x l1 IH]; intros s; [done|]. simpl. unfold mbind, st_bind in *.
  destruct (f x s) as [[[] s1]|]; [|done]. apply IH.
Qed.

Lemma collect_entry_visits rec recv p e evs s :
  (∀ q evs s, recv q = Some evs → rec q s = run_visits evs s) →
  entry_visits recv p e = Some evs → collect_entry rec p e s = run_visits evs s.
Proof.
  intros Hrec Hev. unfold entry_visits in Hev. unfold FsOps.collect_entry, run_visits.
  case_decide; simpl in Hev.
  - destruct (recv (child_path p e)) as [sub|] eqn:Hsub; [|done]. simpl in Hev. injection Hev as <-.
    simpl. unfold mbind, st_bind. destruct (call_op pre_op s) as [[[] s1]|]; [|done].
    destruct (call_on on_dir e p s1) as [[[] s2]|]; [|done].
    rewrite foreach_app. unfold mbind, st_bind. rewrite (Hrec _ _ _ Hsub). unfold run_visits.
    destruct (foreach run_event sub s2) as [[[] s3]|]; [|done]. simpl. unfold mbind, st_bind.
    by destruct (call_op post_op s3) as [[[] s4]|].
  - injection Hev as <-. simpl. unfold mbind, st_bind.
    destruct (call_op pre_op s) as [[[] s1]|]; [|done].
    destruct (call_on on_file e p s1) as [[[] s2]|]; [|done].
    by destruct (call_op post_op s2) as [[[] s3]|].
Qed.

Lemma collect_dir_visits fuel p evs s :
  visits fuel p = Some evs → collect_dir fuel p s = run_visits evs s.
Proof.
  revert p evs s. induction fuel as [|fuel IH]; intros p evs s; [done|]. simpl.
  destruct (scandir p) as [l|]; [|by intros [= <-]].
  intros Hv. apply fmap_Some in Hv as (evss & Hm & ->).
  pose proof (collect_loop_ok (collect_dir fuel) p l (length l) (Datatypes.S (length l)) 0 s
    ltac:(lia) ltac:(lia)) as Hloop. rewrite drop_0 in Hloop.
  transitivity (foreach (collect_entry (collect_dir fuel) p) (chosen l) s).
  { rewrite <-Hloop. unfold v_at. destruct sd; [done|]. by rewrite Z.sub_0_r. }
  clear Hloop. revert evss s Hm. induction (chosen l) as [|e es IHl]; intros evss s Hm.
  { injection Hm as <-. done. }
  apply mapM_Some in Hm. inversion Hm as [|? evs1 ? evss1 He Hes]; subst.
  cbn [foreach mjoin list_join]. unfold run_visits. rewrite foreach_app. unfold mbind, st_bind.
  rewrite (collect_entry_visits (collect_dir fuel) (visits fuel) p e evs1) by eauto.
  unfold run_visits. destruct (foreach run_event evs1 s) as [[[] s1]|]; [|done].
  apply IHl. by apply mapM_Some.
Qed.

(** ** Which entries are visited *)
Lemma chosen_subseteq l e : e ∈ chosen l → e ∈ l.
Proof.
  intros He. assert (e ∈ in_order l) as He'.
  { unfold chosen in He. case_bool_decide; [|done].
    apply elem_of_take in He as (i & Hi & _). by eapply list_elem_of_lookup_2. }
  unfold in_order in He'. destruct sd; [done|]. by apply (elem_of_reverse e l).
Qed.

Lemma elem_of_scandir p l e :
  scandir p = Some l → e ∈ l ↔ ∃ raw, entries p = Some raw ∧ e ∈ raw ∧ filter e = true.
Proof.
  unfold FsOps.scandir. intros (raw & Hraw & [= <-])%bind_Some.
  rewrite merge_sort_Permutation, !list_elem_of_In, filter_In.
  split; [intros [??]; exists raw; by rewrite list_elem_of_In|].
  intros (raw' & Hraw' & Hin & Hf). rewrite Hraw in Hraw'. injection Hraw' as <-. by rewrite <-list_elem_of_In.
Qed.

Lemma visits_total depth :
  (∀ p raw e, entries p = Some raw → e ∈ raw → filter e = true → d_type e = DT_DIR →
     depth (child_path p e) < depth p) →
  ∀ fuel p, depth p < fuel → is_Some (visits fuel p).
Proof.
  intros Hdepth. induction fuel as [|fuel IH]; intros p Hp; [lia|]. simpl.
  destruct (scandir p) as [l|] eqn:Hl; [|done]. apply fmap_is_Some. apply mapM_is_Some.
  apply Forall_forall. intros e He%chosen_subseteq.
  apply (elem_of_scandir _ _ _ Hl) in He as (raw & Hraw & Hin & Hf).
  unfold compose, entry_visits. destruct (decide (d_type e = DT_DIR)) as [Hd|Hd]; [|by eexists].
  destruct (IH (child_path p e)) as [sub Hsub]; [|rewrite Hsub; by eexists].
  pose proof (Hdepth p raw e Hraw Hin Hf Hd). lia.
Qed.

(** Directories that are entered from [p]. *)
Inductive below (p : list Z) : list Z → Prop :=
| below_refl : below p p
| below_child q raw e : below p q → entries q = Some raw → e ∈ raw → filter e = true →
    d_type e = DT_DIR → below p (child_path q e).

Lemma below_trans p q r : below p q → below q r → below p r.
Proof. intros Hpq. induction 1; [done|]. by eapply below_child. Qed.

(** The file [e] of the directory [q] is one that the traversal of [p] must
    visit. *)
Definition wanted (p : list Z) (e : dirent) (q : list Z) : Prop :=
  below p q ∧ d_type e ≠ DT_DIR ∧ ∃ raw, entries q = Some raw ∧ e ∈ raw ∧ filter e = true.

Lemma visits_sound fuel p evs e q : visits fuel p = Some evs → EFile e q ∈ evs → wanted p e q.
Proof.
  revert p evs. induction fuel as [|fuel IH]; intros p evs; [done|]. simpl.
  destruct (scandir p) as [l|] eqn:Hl; [|intros [= <-]; by intros ?%not_elem_of_nil].
  intros (evss & Hm & ->)%fmap_Some (sub & Hin & Hsub)%list_elem_of_join.
  apply mapM_Some in Hm. apply list_elem_of_lookup in Hsub as [i Hi].
  destruct (Forall2_lookup_r _ _ _ _ _ Hm Hi) as (x & Hx & Hev).
  apply list_elem_of_lookup_2, chosen_subseteq, (elem_of_scandir _ _ _ Hl) in Hx as (raw & Hraw & Hxr & Hf).
  unfold entry_visits in Hev. destruct (decide (d_type x = DT_DIR)) as [Hd|Hd].
  - apply bind_Some in Hev as (mid & Hmid & [= <-]).
    apply bind_Some in Hmid as (evs & Hevs & [= <-]).
    cbn [app] in Hin. rewrite !elem_of_cons, elem_of_app, list_elem_of_singleton in Hin. destruct Hin as [|[|[Hin|]]]; try done.
    destruct (IH _ _ Hevs Hin) as (Hb & Hnd & Hw). split; [|done].
    eapply below_trans; [|exact Hb]. eapply below_child; [apply below_refl|done..].
  - injection Hev as <-. cbn [app] in Hin. rewrite !elem_of_cons in Hin.
    destruct Hin as [|[[= <- <-]|[|?%not_elem_of_nil]]]; try done.
    split; [apply below_refl|]. eauto.
Qed.

Lemma visits_complete fuel p evs e q :
  (topk <= 0)%Z → visits fuel p = Some evs → wanted p e q → EFile e q ∈ evs.
Proof.
  intros Htop.
  assert (∀ l x, x ∈ chosen l ↔ x ∈ l) as Hch.
  { intros l x. unfold chosen. rewrite bool_decide_eq_false_2 by lia. unfold in_order.
    destruct sd; [done|]. apply elem_of_reverse. }
  (* the event list of a directory is part of the list of every directory above it *)
  assert (∀ fuel p evs, visits fuel p = Some evs →
    ∀ q, below p q → ∃ fuel' sub, visits fuel' q = Some sub ∧ sub ⊆ evs) as Hsub.
  { clear fuel p evs q. intros fuel p evs Hv q Hb.
    induction Hb as [|q raw x Hb (fuel' & sub & Hs & Hin) Hraw Hx Hf Hd]; [by exists fuel, evs|].
    destruct fuel' as [|fuel']; [done|]. simpl in Hs.
    destruct (scandir q) as [l|] eqn:Hl; [|unfold FsOps.scandir in Hl; by rewrite Hraw in Hl].
    apply fmap_Some in Hs as (evss & Hm & ->). apply mapM_Some in Hm.
    assert (x ∈ chosen l) as Hxl by (apply Hch, (elem_of_scandir _ _ _ Hl); eauto).
    apply list_elem_of_lookup in Hxl as [i Hi]. destruct (Forall2_lookup_l _ _ _ _ _ Hm Hi) as (ev & Hev & He).
    unfold entry_visits in He. rewrite decide_True in He by done.
    apply bind_Some in He as (mid & Hmid & [= <-]). apply bind_Some in Hmid as (sub & Hsub & [= <-]).
    exists fuel', sub. split; [done|]. intros y Hy. apply Hin, list_elem_of_join.
    eexists. split; [|by eapply list_elem_of_lookup_2]. cbn [app]. rewrite !elem_of_cons, elem_of_app. auto. }
  intros Hv (Hb & Hnd & raw & Hraw & He & Hf).
  destruct (Hsub fuel p evs Hv q Hb) as (fuel' & sub & Hs & Hin). apply Hin.
  destruct fuel' as [|fuel']; [done|]. simpl in Hs.
  destruct (scandir q) as [l|] eqn:Hl; [|unfold FsOps.scandir in Hl; by rewrite Hraw in Hl].
  apply fmap_Some in Hs as (evss & Hm & ->). apply mapM_Some in Hm.
  assert (e ∈ chosen l) as Hel by (apply Hch, (elem_of_scandir _ _ _ Hl); eauto).
  apply list_elem_of_lookup in Hel as [i Hi]. destruct (Forall2_lookup_l _ _ _ _ _ Hm Hi) as (ev & Hev & Hx).
  unfold entry_visits in Hx. rewrite decide_False in Hx by done. injection Hx as <-.
  apply list_elem_of_join. eexists. split; [|by eapply list_elem_of_lookup_2]. cbn [app]. rewrite !elem_of_cons. auto.
Qed.

Lemma collect_dir_spec depth fuel p :
  (∀ p raw e, entries p = Some raw → e ∈ raw → filter e = true → d_type e = DT_DIR →
     depth (child_path p e) < depth p) →
  depth p < fuel →
  ∃ evs, (∀ s, collect_dir fuel p s = run_visits evs s) ∧
    (∀ e q, EFile e q ∈ evs → wanted p e q) ∧
    ((topk <= 0)%Z → ∀ e q, wanted p e q → EFile e q ∈ evs).
Proof.
  intros Hdepth Hfuel. destruct (visits_total depth Hdepth fuel p Hfuel) as [evs Hevs].
  exists evs. split; [intros s; by apply collect_dir_visits|]. split.
  - intros e q. by apply (visits_sound fuel).
  - intros Htop e q. by apply (visits_complete fuel).
Qed.

(** ** No file is reported twice *)
(** The files that a sequence of calls reports. *)
Definition file_of (ev : event) : option (list Z) :=
  match ev with EFile e q => Some (join q (d_name e)) | _ => None end.
Definition files_of (evs : list event) : list (list Z) := omap file_of evs.
Lemma files_of_app l1 l2 : files_of (l1 ++ l2) = files_of l1 ++ files_of l2.
Proof. apply omap_app. Qed.

(** The path [f] goes through the entry [n] of the directory [p]. *)
Definition through (p n f : list Z) : Prop := ∃ t, f = join p n ++ t ∧ (t = [] ∨ ∃ t', t = SLASH :: t').
Lemma through_unique p n1 n2 f : SLASH ∉ n1 → SLASH ∉ n2 → through p n1 f → through p n2 f → n1 = n2.
Proof.
  intros H1 H2 (t1 & -> & Ht1) (t2 & Heq & Ht2). unfold join in Heq. rewrite <-!app_assoc in Heq. apply app_inv_head in Heq.
  cbn [app] in Heq. injection Heq as Heq. revert n2 H2 Heq. induction n1 as [|a n1 IH]; intros [|b n2] H2 Heq; try done; cbn [app] in Heq.
  - destruct Ht1 as [->|(t1' & ->)]; [done|]. injection Heq as <- _. set_solver.
  - destruct Ht2 as [->|(t2' & ->)]; [done|]. injection Heq as -> _. set_solver.
  - injection Heq as <- Heq. f_equal. apply IH; set_solver.
Qed.

Lemma scandir_names p l : DirLaws entries → scandir p = Some l → NoDup (d_name <$> chosen l) ∧ ∀ e, e ∈ chosen l → SLASH ∉ d_name e.
Proof.
  intros HL Hl. split.
  - assert (NoDup (d_name <$> in_order l)) as Hin.
    { assert (in_order l ≡ₚ l) as -> by (unfold in_order; destruct sd; [done|apply reverse_Permutation]).
      unfold FsOps.scandir in Hl. apply bind_Some in Hl as (raw & Hraw & [= <-]). rewrite merge_sort_Permutation.
      pose proof (names_distinct p raw Hraw) as Hnd. clear Hraw. induction raw as [|x raw IH]; [constructor|]. apply NoDup_cons in Hnd as [Hx Hnd].
      cbn [List.filter]. destruct (filter x); [|by apply IH]. apply NoDup_cons. split; [|by apply IH].
      intros (y & Hy & Hin)%list_elem_of_fmap. apply Hx. rewrite Hy. apply list_elem_of_fmap_2.
      apply list_elem_of_In, filter_In in Hin as [Hin _]. by apply list_elem_of_In. }
    unfold chosen. case_bool_decide; [|done]. rewrite <-(take_drop (Z.to_nat topk) (in_order l)), fmap_app in Hin. by apply NoDup_app in Hin as [Hin _].
  - intros e He%chosen_subseteq. apply (elem_of_scandir _ _ _ Hl) in He as (raw & Hraw & Hin & _). by eapply names_plain.
Qed.

Lemma join_NoDup (es : list dirent) (evss : list (list event)) p :
  NoDup (d_name <$> es) → (∀ e, e ∈ es → SLASH ∉ d_name e) →
  Forall2 (λ e evs, NoDup (files_of evs) ∧ ∀ f, f ∈ files_of evs → through p (d_name e) f) es evss →
  NoDup (files_of (mjoin evss)).
Proof.
  intros Hnd Hs HF. induction HF as [|e evs es evss [He Hthr] HF IH]; [constructor|].
  cbn [fmap list_fmap] in Hnd. apply NoDup_cons in Hnd as [Hne Hnd]. cbn [mjoin list_join]. rewrite files_of_app. apply NoDup_app.
  split; [done|]. split; [|apply IH; [done|set_solver]]. intros f Hf1 Hf2. apply Hne.
  unfold files_of in Hf2. apply list_elem_of_omap in Hf2 as (ev & Hev & Hfev). apply list_elem_of_join in Hev as (evs' & Hev & Hin).
  apply list_elem_of_lookup in Hin as [i Hi]. destruct (Forall2_lookup_r _ _ _ _ _ HF Hi) as (e' & He' & _ & Hthr').
  apply list_elem_of_lookup_2 in He'. rewrite (through_unique p (d_name e) (d_name e') f); [by apply list_elem_of_fmap_2|..].
  - apply Hs. left.
  - apply Hs. by right.
  - by apply Hthr.
  - apply Hthr'. apply list_elem_of_omap. eauto.
Qed.

(** Paths of files that are shorter than 512 bytes are nowhere cut off. *)
Lemma visits_NoDup fuel p evs :
  DirLaws entries → visits fuel p = Some evs → Forall (λ f, length f < 512) (files_of evs) →
  NoDup (files_of evs) ∧ ∀ f, f ∈ files_of evs → ∃ t, f = p ++ SLASH :: t.
Proof.
  intros HL. revert p evs. induction fuel as [|fuel IH]; intros p evs; [done|]. simpl.
  destruct (scandir p) as [l|] eqn:Hl; [|intros [= <-] _; split; [constructor|by intros f ?%not_elem_of_nil]].
  intros (evss & Hm & ->)%fmap_Some Hlen. apply mapM_Some in Hm. destruct (scandir_names p l HL Hl) as [Hnd Hs].
  assert (Forall2 (λ e evs, NoDup (files_of evs) ∧ ∀ f, f ∈ files_of evs → through p (d_name e) f) (chosen l) evss) as HF.
  { apply Forall2_same_length_lookup. split; [by eapply Forall2_length|]. intros i e ev He Hev.
    pose proof (Forall2_lookup_lr _ _ _ _ _ _ Hm He Hev) as Hx. cbn beta in Hx.
    assert (∀ f, f ∈ files_of ev → length f < 512) as Hshort.
    { intros f (x & Hx1 & Hx2)%list_elem_of_omap. rewrite Forall_forall in Hlen. apply Hlen. apply list_elem_of_omap.
      exists x. split; [|done]. apply list_elem_of_join. eexists. split; [exact Hx1|]. by eapply list_elem_of_lookup_2. }
    unfold entry_visits in Hx. destruct (decide (d_type e = DT_DIR)) as [Hd|Hd].
    - apply bind_Some in Hx as (mid & Hmid & [= <-]). apply bind_Some in Hmid as (sub & Hsub & [= <-]).
      assert (files_of (EPre :: (EDir e p :: sub) ++ [EPost]) = files_of sub) as Hfs.
      { change (files_of (sub ++ [EPost]) = files_of sub). rewrite files_of_app. apply app_nil_r. }
      rewrite Hfs in *. destruct (IH _ _ Hsub) as [Hn Hu]; [by apply Forall_forall|]. split; [done|]. intros f Hf.
      destruct (Hu f Hf) as (t & ->). exists (SLASH :: t). split; [|eauto]. f_equal. unfold child_path. apply take_ge.
      specialize (Hshort _ Hf). rewrite length_app, length_cons in Hshort. unfold child_path in Hshort. rewrite length_take in Hshort. lia.
    - injection Hx as <-. split; [apply NoDup_singleton|]. intros f ->%list_elem_of_singleton. exists []. rewrite app_nil_r. auto. }
  split; [by eapply join_NoDup|]. intros f (x & Hx1 & Hx2)%list_elem_of_omap. apply list_elem_of_join in Hx1 as (evs & Hx1 & Hin).
  apply list_elem_of_lookup in Hin as [i Hi]. destruct (Forall2_lookup_r _ _ _ _ _ HF Hi) as (e' & _ & _ & Hthr).
  destruct (Hthr f) as (t & -> & _); [apply list_elem_of_omap; eauto|]. unfold join. rewrite <-app_assoc. simpl. eauto.
Qed.

(** C17: on a file system whose directories are nested to a finite depth,
    collect_dir returns, having made a fixed sequence of calls to its callbacks;
    without a limit [topk] the files it reports are exactly the files below the
    given directory that pass the filter. *)
Theorem collect_dir_correct depth fuel p :
  (∀ p raw e, entries p = Some raw → e ∈ raw → filter e = true → d_type e = DT_DIR →
     depth (child_path p e) < depth p) →
  depth p < fuel →
  ∃ evs, (∀ s, collect_dir fuel p s = run_visits evs s) ∧
    (∀ e q, EFile e q ∈ evs → wanted p e q) ∧
    ((topk <= 0)%Z → ∀ e q, wanted p e q → EFile e q ∈ evs).
Proof. apply collect_dir_spec. Qed.
End Traversal.

(** ** mkpath *)
Section Mkpath.
Context {F : Type} (os : fs_ops F).

Lemma length_drop_slashes r : length (drop_slashes r) ≤ length r.
Proof. induction r as [|b r IH]; simpl; [done|]. case_bool_decide; simpl; lia. Qed.

Lemma drop_name_slash r : drop_name r = [] ∨ ∃ r', drop_name r = SLASH :: r' ∧ length r' < length r.
Proof.
  induction r as [|b r IH]; simpl; [by left|]. case_bool_decide as Hb.
  - right. exists r. rewrite Hb. split; [done|lia].
  - destruct IH as [->|(r' & -> & Hl)]; [by left|]. right. exists r'. split; [done|lia].
Qed.

(** dirname leads to "." or "/", or to a shorter path. *)
Lemma dirname_shorter s :
  dirname s = [DOT] ∨ dirname s = [SLASH] ∨ length (dirname s) < length s.
Proof.
  unfold dirname. pose proof (length_drop_slashes (rev s)) as Hl. rewrite length_rev in Hl.
  destruct (drop_slashes (rev s)) as [|b r]; [destruct s; auto|].
  destruct (drop_name_slash (b :: r)) as [->|(r' & -> & Hr')]; [by left|].
  assert (drop_slashes (SLASH :: r') = drop_slashes r') as -> by done.
  pose proof (length_drop_slashes r'). destruct (drop_slashes r') as [|c r'']; [auto|].
  right. right. rewrite length_rev. simpl in *. lia.
Qed.

(** mkpath returns on every path. *)
Theorem mkpath_returns s f : ∃ r, mkpath os s f = Ret r.
Proof.
  assert (∀ fuel s errno f, s = [DOT] ∨ s = [SLASH] ∨ length s < fuel →
    ∃ r, mkpath_fuel os fuel s errno f = Ret r) as Hgen.
  { clear s f. induction fuel as [|fuel IH]; intros s errno f Hs; cbn [mkpath_fuel]; case_bool_decide; eauto.
    - exfalso. naive_solver lia.
    - destruct (IH (dirname s) errno f) as [[[rv e] f'] ->].
      { destruct (dirname_shorter s) as [|[|]]; auto. right. right. naive_solver lia. }
      cbn [mbind outcome_bind]. case_bool_decide; eauto. destruct (fs_mkdir os s f') as [e' f'']. eauto. }
  apply Hgen. right. right. lia.
Qed.
End Mkpath.

(** ** Witnesses *)

(** A directory "d" with a file "b.h5" and a directory "a" that holds "c.h5". *)
Definition file_b : dirent := mk_dirent [98; 46; 104; 53]%Z DT_REG.
Definition dir_a : dirent := mk_dirent [97]%Z DT_DIR.
Definition file_c : dirent := mk_dirent [99; 46; 104; 53]%Z DT_REG.
Definition small_tree (p : list Z) : option (list dirent) :=
  if bool_decide (p = [100]%Z) then Some [file_b; dir_a]
  else if bool_decide (p = [100; 47; 97]%Z) then Some [file_c] else None.
Definition small_depth (p : list Z) : nat := if bool_decide (p = [100]%Z) then 1 else 0.
Definition note_file : option (dirent → list Z → st (list (list Z)) Z) :=
  Some (λ e p s, Ret (1%Z, s ++ [join p (d_name e)])).

Lemma collect_dir_correct_witness :
  ∃ evs, (∀ s, collect_dir small_tree (λ _, true) alphasort ASC 0 note_file None None None 2 [100]%Z s
               = run_visits note_file None None None evs s) ∧
    (∀ e q, EFile e q ∈ evs → wanted small_tree (λ _, true) [100]%Z e q) ∧
    ((0 <= 0)%Z → ∀ e q, wanted small_tree (λ _, true) [100]%Z e q → EFile e q ∈ evs).
Proof.
  apply (collect_dir_correct small_tree (λ _, true) alphasort ASC 0 note_file None None None small_depth 2 [100]%Z).
  - intros p raw e. unfold small_tree. case_bool_decide as H1.
    + intros [= <-] He _ Hd. rewrite H1. rewrite !elem_of_cons, elem_of_nil in He.
      destruct He as [->|[->|[]]]; [done|]. vm_compute. lia.
    + case_bool_decide as H2; [|done]. intros [= <-] He _ Hd.
      rewrite !elem_of_cons, elem_of_nil in He. by destruct He as [->|[]].
  - vm_compute. lia.
Defined.
