(* ===== verification/Driver.v ===== *)
(** * The driver of indexing (src/miqs_indexing.c)

    One process: its configuration, the index anchor (a global pointer, null
    until an index is made) and the file system.  Parameters: the HDF5 files
    [H5], the file system [os], what the other processes have written when the
    barrier is passed ([barrier]), whether MIQS_PARALLELED_INDEX is defined,
    the contents of uninitialised variables ([junk_reg], [stale], [attr_slot])
    and the address that load_mdb adds to a counter.  Printing and timers are
    left out. *)
From S2P Require Import Prelude Heap Art Comparators OnDiskIndex Metadata InMemIndex Mdb Hdf5 Hdf52Index StringUtils FsOps.

(** ** File names *)

(** "index_miqs_%d.%s" *)
Definition INDEX_FILE_NAME_TEMPLATE_LEN : Z := 16.
Definition index_prefix : list Z := [105; 110; 100; 101; 120; 95; 109; 105; 113; 115; 95]%Z.
Definition suffix_mdb : list Z := [109; 100; 98]%Z.
Definition suffix_aof : list Z := [97; 111; 102]%Z.

(** %d: an int has at most ten digits. *)
Fixpoint digits (fuel : nat) (n : Z) : list Z :=
  match fuel with
  | O => []
  | S fuel => if bool_decide (n < 10)%Z then [48 + n]%Z
              else digits fuel (n / 10)%Z ++ [48 + n `mod` 10]%Z
  end.
Definition print_int (z : Z) : list Z :=
  if bool_decide (z < 0)%Z then 45%Z :: digits 10 (- z) else digits 10 z.

Definition index_file_name (rank : Z) (suffix : list Z) : list Z :=
  index_prefix ++ print_int rank ++ DOT :: suffix.

(** sprintf into a block of [cap] bytes; the terminating 0 needs one too. *)
Definition sprintf (cap : Z) (s : list Z) : outcome (list Z) :=
  if bool_decide (Z.of_nat (length s) < cap)%Z then Ret s else Fault.

Definition resolve_file_name (index_dir_path suffix : list Z) (rank : Z) : outcome (list Z) :=
  let cap := (Z.of_nat (length index_dir_path) + INDEX_FILE_NAME_TEMPLATE_LEN + 20)%Z in
  full ← sprintf cap index_dir_path;
  full ← (if bool_decide (endsWith full [SLASH] = 0)%Z then sprintf cap (full ++ [SLASH]) else Ret full);
  file_name ← sprintf (INDEX_FILE_NAME_TEMPLATE_LEN + 16) (index_file_name rank suffix);
  sprintf cap (full ++ file_name).

(** ** Filters *)
Definition is_dots (entry : dirent) : bool :=
  bool_decide (strcmp (d_name entry) [DOT] = 0)%Z || bool_decide (strcmp (d_name entry) [DOT; DOT] = 0)%Z.
Definition ends_in (entry : dirent) (suffix : list Z) : bool :=
  bool_decide (endsWith (d_name entry) suffix ≠ 0)%Z.
Definition is_hdf5 (entry : dirent) : bool :=
  if is_dots entry then false
  else if decide (d_type entry = DT_DIR) then true
  else ends_in entry [46; 104; 100; 102; 53]%Z || ends_in entry [46; 104; 53]%Z.
Definition is_mdb (entry : dirent) : bool :=
  if is_dots entry then false
  else if decide (d_type entry = DT_DIR) then true else ends_in entry (DOT :: suffix_mdb).
Definition is_aof (entry : dirent) : bool :=
  if is_dots entry then false
  else if decide (d_type entry = DT_DIR) then true else ends_in entry (DOT :: suffix_aof).

(** ** The process *)
Record indexing_config := mk_config {
  cfg_parallelism : Z;
  cfg_rank : Z;
  cfg_size : Z;
  current_file_count : Z;
  cfg_topk : Z;
  is_build_from_scratch : Z;
  is_mdb_enabled : Z;
  is_aof_enabled : Z;
  dataset_path : list Z;
  cfg_index_dir_path : list Z
}.
Definition set_file_count (n : Z) (c : indexing_config) : indexing_config :=
  mk_config (cfg_parallelism c) (cfg_rank c) (cfg_size c) n (cfg_topk c) (is_build_from_scratch c)
    (is_mdb_enabled c) (is_aof_enabled c) (dataset_path c) (cfg_index_dir_path c).
Definition set_from_scratch (b : Z) (c : indexing_config) : indexing_config :=
  mk_config (cfg_parallelism c) (cfg_rank c) (cfg_size c) (current_file_count c) (cfg_topk c) b
    (is_mdb_enabled c) (is_aof_enabled c) (dataset_path c) (cfg_index_dir_path c).

Definition init_indexing_config (paralleled_index : bool) (parallelism rank size topk enable_mdb enable_aof : Z)
    (dataset index_dir : list Z) : indexing_config :=
  mk_config (if paralleled_index then parallelism else 1) rank size 0 topk 0 enable_mdb enable_aof
    dataset index_dir.

Section Driver.
Context {F : Type} (os : fs_ops F).
Context (oob : list Z → nat → Z) (pointer_bytes : nat → list Z) (H5 : list Z → list h5_object).
Context (barrier : F → F) (junk_reg : bool) (stale : list Z) (attr_slot : miqs_meta_attribute).
Context (num_attrs_addr : Z).

Record proc := mk_proc { config : indexing_config; root : option index_anchor; disk : F }.
Definition set_config (f : indexing_config → indexing_config) (p : proc) : proc :=
  mk_proc (f (config p)) (root p) (disk p).
Definition set_root (r : option index_anchor) (p : proc) : proc := mk_proc (config p) r (disk p).
Definition set_disk (d : F) (p : proc) : proc := mk_proc (config p) (root p) d.

(** An operation on the anchor; a null anchor is dereferenced. *)
Definition on_root {A} (m : idx A) : st proc A := λ p,
  r ← deref (root p);
  '(a, r) ← m r;
  Ret (a, set_root (Some r) p).
Definition run {A} (o : outcome A) : st proc A := λ p, a ← o; Ret (a, p).

(** parse_hdf5_file returns at once if there is no anchor. *)
Definition parse_if_anchor (filepath : list Z) : st proc unit :=
  p ← st_get;
  match root p with None => mret tt | Some _ => on_root (parse_hdf5_file oob pointer_bytes H5 filepath) end.

Definition parse_single_hdf5_file (filepath : list Z) : st proc Z :=
  p ← st_get;
  n ← run (cint (current_file_count (config p) + 1));
  _ ← st_modify (set_config (set_file_count n));
  if bool_decide (cfg_size (config p) = 0)%Z then st_fault
  else if bool_decide (Z.rem n (cfg_size (config p)) ≠ cfg_rank (config p)) then mret 0%Z
  else _ ← parse_if_anchor filepath; mret 0%Z.

Definition on_file (f_entry : dirent) (parent_path : list Z) : st proc Z :=
  filepath ← run (sprintf 512 (join parent_path (d_name f_entry)));
  _ ← parse_single_hdf5_file filepath;
  mret 1%Z.

Definition on_dir (d_entry : dirent) (parent_path : list Z) : st proc Z := mret 1%Z.

(** The callbacks do not change the file system, which is read once here;
    [fuel] bounds the depth of directories. *)
Definition parse_files_in_dir (fuel : nat) (path : list Z) (topk : Z) : st proc Z :=
  p ← st_get;
  _ ← collect_dir (fs_entries os (disk p)) is_hdf5 alphasort ASC topk (Some on_file) (Some on_dir)
        None None fuel path;
  mret 0%Z.

(** The common beginning of on_mdb and on_aof: the path of the file, or
    nothing if it is the file of this process. *)
Definition other_file (suffix : list Z) (f_entry : dirent) (parent_path : list Z)
    : st proc (option (list Z)) :=
  p ← st_get;
  filepath ← run (sprintf (Z.of_nat (length parent_path) + 11) (join parent_path (d_name f_entry)));
  if bool_decide (is_build_from_scratch (config p) = 0)%Z then mret (Some filepath)
  else
    own ← run (sprintf (INDEX_FILE_NAME_TEMPLATE_LEN + 16) (index_file_name (cfg_rank (config p)) suffix));
    if bool_decide (endsWith filepath own = 0)%Z then mret (Some filepath) else mret None.

Definition load_mdb_file (filepath : list Z) : st proc Z := λ p,
  '(rst, r) ← load_mdb oob (fs_content os (disk p) filepath) num_attrs_addr (root p);
  Ret (rst, set_root r p).

Definition on_mdb (f_entry : dirent) (parent_path : list Z) : st proc Z :=
  file ← other_file suffix_mdb f_entry parent_path;
  match file with
  | None => mret 0%Z
  | Some filepath => load_mdb_file filepath
  end.

Definition on_aof (f_entry : dirent) (parent_path : list Z) : st proc Z :=
  file ← other_file suffix_aof f_entry parent_path;
  match file with
  | None => mret 0%Z
  | Some filepath =>
      p ← st_get;
      match fs_content os (disk p) filepath with
      | Some ((_ :: _) as bytes) =>
          on_root (load_aof oob pointer_bytes (Some bytes) stale attr_slot)
      | _ => mret 0%Z
      end
  end.

Definition load_files (fuel : nat) (filter : dirent → bool) (on : dirent → list Z → st proc Z)
    (index_dir : list Z) : st proc Z :=
  p ← st_get;
  if bool_decide (dir_exists os (disk p) index_dir ≠ 0)%Z then
    _ ← collect_dir (fs_entries os (disk p)) filter alphasort ASC 0 (Some on) None None None fuel index_dir;
    mret 1%Z
  else mret 0%Z.
Definition load_mdb_files (fuel : nat) (index_dir : list Z) : st proc Z :=
  load_files fuel is_mdb on_mdb index_dir.
Definition load_aof_files (fuel : nat) (index_dir : list Z) : st proc Z :=
  load_files fuel is_aof on_aof index_dir.

(** calloc(strlen(s)+1) and strncpy of as many bytes as the new block is long
    as a string. *)
Definition copy_path (s : list Z) : list Z :=
  let block := replicate (length s + 1) 0%Z in
  cstr_of (blit 0 (strncpy s (length (cstr_of block))) block).

(** !rst of an int. *)
Definition not_ (r : Z) : Z := Z.b2z (bool_decide (r = 0)%Z).

(** Step 4: the stream is null if the file cannot be opened. *)
Definition open_aof (aof_file_name : list Z) : st proc unit :=
  p ← st_get;
  on_root (st_modify (set_stream (if fs_create os (disk p) aof_file_name then Some [] else None) false)).

(** Step 6: fclose of a null stream faults; the pointer to the closed stream
    stays in the anchor. *)
Definition close_aof (aof_file_name : list Z) : st proc unit :=
  r ← on_root st_get;
  bytes ← run (deref (on_disk_file_stream r));
  st_modify (λ p, set_disk (fs_write os aof_file_name bytes (disk p)) p).

(** Step 7: the stream of fopen is written to without a test. *)
Definition dump_mdb (mdb_file_name : list Z) : st proc unit :=
  p ← st_get;
  if fs_create os (disk p) mdb_file_name then
    bytes ← on_root dump_mdb_index_to_disk;
    st_modify (λ p, set_disk (fs_write os mdb_file_name bytes (disk p)) p)
  else st_fault.

(** Step 3: the result of mkpath is not used. *)
Definition make_dir (index_dir_path : list Z) : st proc unit := λ p,
  '(_, _, d) ← mkpath os index_dir_path (disk p); Ret (tt, set_disk d p).

Definition when (b : bool) (m : st proc unit) : st proc unit := if b then m else mret tt.
Definition enabled (x : Z) : bool := bool_decide (x = 1)%Z.

Definition indexing_data_collection (fuel : nat) : st proc Z :=
  _ ← st_modify (set_config (set_from_scratch 1));
  _ ← st_modify (λ p, set_root (Some (init_in_mem_index (cfg_parallelism (config p)))) p);
  p ← st_get;
  let c := config p in
  let index_dir_path := copy_path (cfg_index_dir_path c) in
  let data_path := copy_path (dataset_path c) in
  mdb_file_name ← run (resolve_file_name index_dir_path suffix_mdb (cfg_rank c));
  aof_file_name ← run (resolve_file_name index_dir_path suffix_aof (cfg_rank c));
  _ ← when (bool_decide (dir_exists os (disk p) index_dir_path = 0)%Z) (make_dir index_dir_path);
  _ ← when (enabled (is_aof_enabled c)) (open_aof aof_file_name);
  _ ← st_modify (set_config (set_file_count 0));
  p ← st_get;
  rst ← (if is_regular_file os junk_reg (disk p) data_path
         then _ ← parse_single_hdf5_file data_path; mret 0%Z
         else parse_files_in_dir fuel data_path (cfg_topk c));
  _ ← when (enabled (is_aof_enabled c)) (close_aof aof_file_name);
  _ ← when (enabled (is_mdb_enabled c)) (dump_mdb mdb_file_name);
  _ ← st_modify (λ p, set_disk (barrier (disk p)) p);
  _ ← st_modify (set_config (set_from_scratch 1));
  rst ← (if enabled (is_mdb_enabled c)
         then r ← load_mdb_files fuel index_dir_path; mret (Z.lor rst (not_ r)) else mret rst);
  (if enabled (is_aof_enabled c)
   then r ← load_aof_files fuel index_dir_path; mret (Z.lor rst (not_ r)) else mret rst).

(** When an index was found, a counter of the anchor is printed. *)
Definition recovering_index (fuel : nat) : st proc Z :=
  p ← st_get;
  let c := config p in
  let index_dir_path := copy_path (cfg_index_dir_path c) in
  _ ← st_modify (set_config (set_from_scratch 0));
  rst ← (if enabled (is_mdb_enabled c)
         then r ← load_mdb_files fuel index_dir_path; mret (not_ r) else mret 0%Z);
  rst ← (if enabled (is_aof_enabled c)
         then r ← load_aof_files fuel index_dir_path; mret (not_ r) else mret rst);
  _ ← when (bool_decide (rst = 0)%Z) (_ ← on_root st_get; mret tt);
  mret rst.
End Driver.
Arguments proc : clear implicits.
