(* ===== verification/DriverTheorems.v ===== *)
(** * Properties of the driver (miqs_indexing.c)

    File names fit their buffers; the ranks share the files of a directory
    among themselves; what the paths that are copied wrongly and the buffers
    that are too small lead to. *)
From S2P Require Import Prelude Heap Art Comparators BinFile OnDiskIndex Metadata InMemIndex Mdb IndexTheorems Hdf5 Hdf52Index Hdf5Theorems StringUtils FsOps FsTheorems Driver.

(** ** File names *)
Lemma length_digits fuel n : length (digits fuel n) ≤ fuel.
Proof.
  revert n. induction fuel as [|fuel IH]; intros n; simpl; [done|].
  case_bool_decide; simpl; [lia|]. rewrite length_app. specialize (IH (n / 10)%Z). simpl. lia.
Qed.
Lemma length_print_int z : length (print_int z) ≤ 11.
Proof.
  pose proof (length_digits 10 (- z)). pose proof (length_digits 10 z).
  unfold print_int. case_bool_decide; cbn [length]; lia.
Qed.

Lemma sprintf_ok cap s : (Z.of_nat (length s) < cap)%Z → sprintf cap s = Ret s.
Proof. intros. unfold sprintf. by rewrite bool_decide_eq_true_2. Qed.

Lemma length_index_file_name rank suffix :
  length suffix = 3 → length (index_file_name rank suffix) ≤ 26.
Proof.
  intros Hs. unfold index_file_name. rewrite !length_app. cbn [length index_prefix]. rewrite Hs.
  pose proof (length_print_int rank). lia.
Qed.

(** The blocks of resolve_file_name are large enough for every rank. *)
Theorem resolve_file_name_fits dir suffix rank :
  length suffix = 3 →
  resolve_file_name dir suffix rank
  = Ret ((if bool_decide (endsWith dir [SLASH] = 0)%Z then dir ++ [SLASH] else dir)
         ++ index_file_name rank suffix).
Proof.
  intros Hs. pose proof (length_index_file_name rank suffix Hs) as Hl.
  unfold resolve_file_name, INDEX_FILE_NAME_TEMPLATE_LEN. rewrite (sprintf_ok _ dir) by lia.
  cbn [mbind outcome_bind]. case_bool_decide.
  - rewrite (sprintf_ok _ (dir ++ [SLASH])) by (rewrite length_app; simpl; lia). cbn [mbind outcome_bind].
    rewrite (sprintf_ok _ (index_file_name rank suffix)) by lia. cbn [mbind outcome_bind].
    apply sprintf_ok. rewrite !length_app. cbn [length]. lia.
  - cbn [mbind outcome_bind]. rewrite (sprintf_ok _ (index_file_name rank suffix)) by lia.
    cbn [mbind outcome_bind]. apply sprintf_ok. rewrite length_app. lia.
Qed.

(** ** Sharing the files among the ranks *)

(** The files of rank [rank], when [c] files have been counted before. *)
Fixpoint my_files (size rank c : Z) (fs : list (list Z)) : list (list Z) :=
  match fs with
  | [] => []
  | f :: fs => (if bool_decide (Z.rem (c + 1) size = rank) then [f] else []) ++ my_files size rank (c + 1) fs
  end.

Lemma join_one {A} (f : A) (g : nat → list A) x l :
  NoDup l → x ∈ l →
  mjoin ((λ r, (if bool_decide (x = r) then [f] else []) ++ g r) <$> l) ≡ₚ f :: mjoin (g <$> l).
Proof.
  induction 1 as [|y l Hy Hnd IH]; intros Hx; [by apply not_elem_of_nil in Hx|].
  cbn [fmap list_fmap mjoin list_join]. destruct (decide (x = y)) as [->|Hne].
  - rewrite bool_decide_eq_true_2 by done. simpl. apply perm_skip, Permutation_app_head.
    assert (∀ l', y ∉ l' → mjoin ((λ r, (if bool_decide (y = r) then [f] else []) ++ g r) <$> l') = mjoin (g <$> l')) as Hno.
    { clear. intros l'. induction l' as [|z l' IH]; intros Hn; [done|]. apply not_elem_of_cons in Hn as [Hz Hn].
      cbn [fmap list_fmap mjoin list_join]. rewrite bool_decide_eq_false_2 by done. simpl. f_equal. by apply IH. }
    by rewrite Hno.
  - rewrite bool_decide_eq_false_2 by done. simpl. apply elem_of_cons in Hx as [|Hx]; [done|].
    rewrite (IH Hx). symmetry. apply Permutation_middle.
Qed.

(** The ranks of a run share the files: together they parse every file
    once, whatever the order in which the files come. *)
Lemma files_partitioned (size : nat) c fs :
  0 < size → (0 <= c)%Z →
  mjoin ((λ r, my_files (Z.of_nat size) (Z.of_nat r) c fs) <$> seq 0 size) ≡ₚ fs.
Proof.
  intros Hsize. revert c. induction fs as [|f fs IH]; intros c Hc; simpl.
  - induction (seq 0 size); simpl; auto.
  - set (x := Z.to_nat (Z.rem (c + 1) (Z.of_nat size))).
    assert (0 <= Z.rem (c + 1) (Z.of_nat size) < Z.of_nat size)%Z as Hx by (apply Z.rem_bound_pos; lia).
    transitivity (f :: mjoin ((λ r, my_files (Z.of_nat size) (Z.of_nat r) (c + 1) fs) <$> seq 0 size));
      [|apply perm_skip, IH; lia].
    rewrite <-(join_one f (λ r, my_files (Z.of_nat size) (Z.of_nat r) (c + 1) fs) x).
    + match goal with |- ?a ≡ₚ ?b => assert (a = b) as ->; [|done] end. f_equal. apply list_fmap_ext. intros i r Hr. f_equal.
      assert (bool_decide (Z.rem (c + 1) (Z.of_nat size) = Z.of_nat r) = bool_decide (x = r)) as ->; [|done].
      apply bool_decide_ext. unfold x. lia.
    + apply NoDup_seq.
    + apply elem_of_seq. unfold x. lia.
Qed.

Section Driver.
Context {F : Type} (os : fs_ops F).
Context (oob : list Z → nat → Z) (pointer_bytes : nat → list Z) (H5 : list Z → list h5_object).
Context (barrier : F → F) (junk_reg : bool) (stale : list Z) (attr_slot : miqs_meta_attribute).
Context (num_attrs_addr : Z).
Notation proc := (proc F).
Implicit Types (p : proc).
Notation on_file := (on_file oob pointer_bytes H5).
Notation parse_files := (parse_files oob pointer_bytes H5).
Notation parse_single_hdf5_file := (parse_single_hdf5_file oob pointer_bytes H5).
Notation parse_files_in_dir := (parse_files_in_dir os oob pointer_bytes H5).

(** The process after [n] more files, with the anchor [r]. *)
Definition after_files (n : nat) (r : index_anchor) p : proc :=
  set_root (Some r) (set_config (set_file_count (current_file_count (config p) + Z.of_nat n)) p).

Lemma parse_single_ok f p r :
  root p = Some r → (0 < cfg_size (config p))%Z → in_i32 (current_file_count (config p) + 1) →
  parse_single_hdf5_file f p
  = '(_, r) ← parse_files (my_files (cfg_size (config p)) (cfg_rank (config p))
                             (current_file_count (config p)) [f]) r;
    Ret (0%Z, after_files 1 r p).
Proof.
  intros Hr Hsize Hint. unfold Driver.parse_single_hdf5_file, run, mbind, st_bind, st_get, outcome_bind.
  rewrite cint_ok by done. cbn [st_modify]. rewrite bool_decide_eq_false_2 by lia. cbn [my_files].
  case_bool_decide as Hd.
  - rewrite bool_decide_eq_false_2 by done. cbn. unfold after_files, set_root, set_config. simpl.
    destruct p as [c rt d]. simpl in *. by rewrite Hr.
  - rewrite bool_decide_eq_true_2 by done.
    cbn [app Hdf5Theorems.parse_files]. unfold parse_if_anchor, on_root, mbind, st_bind, st_get, outcome_bind.
    simpl. rewrite Hr. simpl. rewrite Hr. simpl. destruct (parse_hdf5_file oob pointer_bytes H5 f r) as [[[] r']|]; done.
Qed.

Lemma after_files_twice n m r r' p :
  after_files n r' (after_files m r p) = after_files (m + n) r' p.
Proof.
  unfold after_files, set_root, set_config, set_file_count. simpl. do 2 f_equal. lia.
Qed.

Lemma my_files_cons size rank c f fs :
  my_files size rank c (f :: fs) = my_files size rank c [f] ++ my_files size rank (c + 1) fs.
Proof. cbn [my_files]. by rewrite app_nil_r. Qed.

Lemma parse_files_app fs1 fs2 r :
  parse_files (fs1 ++ fs2) r = ('(_, r) ← parse_files fs1 r; parse_files fs2 r).
Proof.
  revert r. induction fs1 as [|f fs1 IH]; intros r; [done|].
  cbn [app Hdf5Theorems.parse_files]. unfold mbind, st_bind, outcome_bind in *.
  destruct (parse_hdf5_file oob pointer_bytes H5 f r) as [[[] r1]|]; [|done]. apply IH.
Qed.

Lemma run_visits_files evs p r :
  root p = Some r → (0 < cfg_size (config p))%Z → (0 <= current_file_count (config p))%Z →
  (current_file_count (config p) + Z.of_nat (length (files_of evs)) < 2 ^ 31)%Z →
  Forall (λ f, length f < 512) (files_of evs) →
  run_visits (Some on_file) (Some on_dir) None None evs p
  = '(_, r) ← parse_files (my_files (cfg_size (config p)) (cfg_rank (config p))
                             (current_file_count (config p)) (files_of evs)) r;
    Ret (tt, after_files (length (files_of evs)) r p).
Proof.
  revert p r. induction evs as [|ev evs IH]; intros p r Hr Hsize Hc Hn Hlen.
  { cbn. unfold after_files, set_root, set_config, set_file_count. rewrite Z.add_0_r.
    destruct p as [[] ? ?]. simpl in *. by rewrite Hr. }
  unfold run_visits. cbn [foreach]. unfold mbind at 1, st_bind.
  destruct ev as [|e q|e q|]; try (exact (IH p r Hr Hsize Hc Hn Hlen)).
  change (files_of (EFile e q :: evs)) with (join q (d_name e) :: files_of evs) in *.
  set (f := join q (d_name e)) in *. inversion Hlen as [|? ? Hf Hlen']; subst. cbn [length] in Hn.
  assert (run_event (Some on_file) (Some on_dir) None None (EFile e q) p
    = '(_, r) ← parse_files (my_files (cfg_size (config p)) (cfg_rank (config p))
                             (current_file_count (config p)) [f]) r;
      Ret (tt, after_files 1 r p)) as ->.
  { unfold run_event, call_on, call_op, Driver.on_file. cbn [fmap option_fmap option_map].
    fold f. unfold run. rewrite sprintf_ok by lia. unfold mbind, st_bind, outcome_bind.
    rewrite (parse_single_ok f p r Hr Hsize ltac:(unfold in_i32; lia)). unfold mbind, outcome_bind.
    by destruct (parse_files _ r) as [[[] r1]|]. }
  rewrite (my_files_cons _ _ _ f (files_of evs)), parse_files_app. unfold mbind, outcome_bind.
  destruct (parse_files (my_files _ _ _ [f]) r) as [[[] r1]|]; [|done].
  pose proof (IH (after_files 1 r1 p) r1 eq_refl Hsize ltac:(simpl; lia) ltac:(simpl; lia) Hlen') as HIH.
  unfold run_visits in HIH. rewrite HIH. simpl. unfold mbind, outcome_bind.
  destruct (parse_files _ r1) as [[[] r2]|]; [|done]. by rewrite after_files_twice.
Qed.

(** C15: a directory tree of finite depth, whose directories have distinct
    names without slashes, determines one list of files: the HDF5 files below the
    directory, by suffix.  If their paths are shorter than 512 bytes and they are
    fewer than 2^31, each is on the list once, and every process of a run of
    [size] ranks that sees this tree, started without a limit (topk 0), enters
    its share of the list into its index, in the order of the list, and counts
    all files.  The shares of the ranks 0 to size - 1 are together the list. *)
Theorem parse_files_in_dir_correct depth fuel path d size :
  let entries := fs_entries os d in
  DirLaws entries →
  (∀ q raw e, entries q = Some raw → e ∈ raw → is_hdf5 e = true → d_type e = DT_DIR →
     depth (child_path q e) < depth q) →
  depth path < fuel → 0 < size →
  ∃ files,
    (∀ f, f ∈ files ↔ ∃ e q, wanted entries is_hdf5 path e q ∧ f = join q (d_name e)) ∧
    mjoin ((λ rank, my_files (Z.of_nat size) (Z.of_nat rank) 0 files) <$> seq 0 size) ≡ₚ files ∧
    (Forall (λ f, length f < 512) files → (Z.of_nat (length files) < 2 ^ 31)%Z →
     NoDup files ∧
     ∀ p r, disk p = d → root p = Some r → cfg_size (config p) = Z.of_nat size → current_file_count (config p) = 0%Z →
       parse_files_in_dir fuel path 0 p
       = '(_, r') ← parse_files (my_files (Z.of_nat size) (cfg_rank (config p)) 0 files) r;
         Ret (0%Z, after_files (length files) r' p)).
Proof.
  intros entries HL Hdepth Hfuel Hsize.
  destruct (visits_total entries is_hdf5 alphasort ASC 0 depth Hdepth fuel path Hfuel) as [evs Hevs].
  exists (files_of evs). split_and!.
  - intros f. unfold files_of. rewrite list_elem_of_omap. split.
    + intros (ev & Hev & Hf). destruct ev as [|e q|e q|]; try done. injection Hf as <-.
      exists e, q. split; [by eapply visits_sound|done].
    + intros (e & q & Hw & ->). exists (EFile e q). split; [by eapply visits_complete|done].
  - by apply files_partitioned.
  - intros Hlen Hn. split; [by eapply visits_NoDup|]. intros p r Hd Hr Hs Hc.
    unfold Driver.parse_files_in_dir. unfold mbind at 1, st_bind at 1, st_get. rewrite Hd. fold entries.
    unfold mbind at 1, st_bind. rewrite (collect_dir_visits _ _ _ _ _ _ _ _ _ _ _ _ _ Hevs).
    rewrite (run_visits_files evs p r Hr) by (done || lia). rewrite Hc, Hs. unfold mbind, outcome_bind.
    by destruct (parse_files _ r) as [[[] r1]|].
Qed.

(** ** What the code does with its paths *)

(** The copy of a path is empty: the length that is copied is that of the new,
    zeroed block. *)
Lemma copy_path_empty s : copy_path s = [].
Proof. unfold copy_path. rewrite Nat.add_comm. reflexivity. Qed.

Lemma resolve_empty suffix rank :
  length suffix = 3 → resolve_file_name [] suffix rank = Ret (SLASH :: index_file_name rank suffix).
Proof. intros Hs. rewrite resolve_file_name_fits by done. reflexivity. Qed.

Context `{HL : !FsLaws os} (HH5 : H5 [] = []).
Notation indexing_data_collection :=
  (indexing_data_collection os oob pointer_bytes H5 barrier junk_reg stale attr_slot num_attrs_addr).
Notation recovering_index :=
  (recovering_index os oob pointer_bytes stale attr_slot num_attrs_addr).

(** An anchor without attributes. *)
Definition empty_index (r : index_anchor) : Prop :=
  Forall (λ t, t = art_tree_init) (root_art_array r).

Lemma empty_index_init n : empty_index (init_in_mem_index n).
Proof. unfold empty_index, init_in_mem_index. simpl. by apply Forall_replicate. Qed.

Lemma empty_index_queries r name v tv :
  empty_index r → exact_metadata_search oob name v tv r = Fault.
Proof.
  intros Hr. apply search_unknown. intros art Hart. unfold empty_index in Hr.
  by rewrite (Forall_lookup_1 _ _ _ _ Hr Hart).
Qed.

Lemma parse_empty_path r :
  empty_index r → ∃ r', parse_hdf5_file oob pointer_bytes H5 [] r = Ret (tt, r') ∧ empty_index r' ∧
    on_disk_file_stream r' = on_disk_file_stream r.
Proof.
  intros Hr. unfold parse_hdf5_file, scan_into_index, mbind, st_bind. cbn [st_modify]. rewrite HH5.
  eexists. split; [reflexivity|]. split; [exact Hr|done].
Qed.

Lemma parse_single_empty p r :
  root p = Some r → empty_index r → (0 < cfg_size (config p))%Z →
  in_i32 (current_file_count (config p) + 1) →
  ∃ p' r', parse_single_hdf5_file [] p = Ret (0%Z, p') ∧ root p' = Some r' ∧ empty_index r' ∧
    on_disk_file_stream r' = on_disk_file_stream r.
Proof.
  intros Hr He Hsize Hint. rewrite (parse_single_ok [] p r Hr Hsize Hint). cbn [my_files].
  case_bool_decide; cbn [app Hdf5Theorems.parse_files]; unfold mbind, st_bind, outcome_bind.
  - destruct (parse_empty_path r He) as (r' & -> & He' & Hst). eexists _, r'. by split.
  - eexists _, r. by split.
Qed.

Lemma parse_dir_empty fuel topk p :
  0 < fuel → parse_files_in_dir fuel [] topk p = Ret (0%Z, p).
Proof.
  intros Hf. destruct fuel as [|fuel]; [lia|].
  unfold Driver.parse_files_in_dir, mbind, st_bind, st_get. cbn [collect_dir]. unfold scandir.
  by rewrite empty_entries.
Qed.

(** Parsing the empty path, as a file or as a directory. *)
Lemma parse_nothing fuel topk p r :
  0 < fuel → root p = Some r → empty_index r → (0 < cfg_size (config p))%Z →
  current_file_count (config p) = 0%Z →
  ∃ p' r', (if junk_reg then _ ← parse_single_hdf5_file []; mret 0%Z else parse_files_in_dir fuel [] topk) p
           = Ret (0%Z, p') ∧ root p' = Some r' ∧ empty_index r' ∧
           on_disk_file_stream r' = on_disk_file_stream r.
Proof.
  intros Hf Hr He Hsize Hc. destruct junk_reg.
  - destruct (parse_single_empty p r Hr He Hsize ltac:(rewrite Hc; done)) as (p' & r' & Hp & Hr' & He').
    exists p', r'. unfold mbind, st_bind. rewrite Hp. done.
  - exists p, r. rewrite parse_dir_empty by done. done.
Qed.

(** Symbolic execution up to the call that parses the data. *)
Ltac start_collection :=
  unfold Driver.indexing_data_collection, mbind, st_bind, st_modify, st_get;
  cbn [config set_config set_root cfg_parallelism set_from_scratch];
  rewrite !copy_path_empty; unfold run, mbind, outcome_bind; rewrite !resolve_empty by done;
  cbn [cfg_rank is_aof_enabled is_mdb_enabled cfg_topk set_from_scratch]; unfold enabled, dir_exists;
  rewrite empty_opendir; cbn [Z.b2z when]; rewrite (bool_decide_eq_true_2 (0 = 0)%Z) by done;
  cbn [when]; unfold make_dir, mbind, outcome_bind.

(** C37: whatever data set and index directory are configured, with neither kind
    of index file enabled (is_mdb_enabled and is_aof_enabled are not 1) and at
    least one rank, indexing_data_collection works on the empty path: it reports
    success, but the index it leaves has no attribute, so that every query fails.
    Of the file system and of HDF5 only what they say of the empty path is used:
    it names no file. *)
Theorem indexing_data_collection_indexes_nothing fuel p :
  0 < fuel → (0 < cfg_size (config p))%Z →
  is_mdb_enabled (config p) ≠ 1%Z → is_aof_enabled (config p) ≠ 1%Z →
  ∃ p' r, indexing_data_collection fuel p = Ret (0%Z, p') ∧ root p' = Some r ∧
    ∀ name v tv, exact_metadata_search oob name v tv r = Fault.
Proof.
  intros Hf Hsize Hmdb Haof. start_collection.
  rewrite !(bool_decide_eq_false_2 (_ = 1)%Z) by done. cbn [when].
  destruct (mkpath_returns os [] (disk p)) as [[[rv e] d] Hmk]. cbn [disk set_config set_root].
  rewrite Hmk. unfold mret, st_ret. cbn [disk set_disk set_config set_root].
  unfold is_regular_file. rewrite empty_stat. cbn [default].
  set (p1 := set_config (set_file_count 0) _).
  destruct (parse_nothing fuel (cfg_topk (config p)) p1 (init_in_mem_index (cfg_parallelism (config p))) Hf eq_refl
    (empty_index_init _) Hsize eq_refl) as (p2 & r2 & Hp & Hr & He & _).
  unfold mbind, st_bind, mret, st_ret in Hp. rewrite Hp. eexists _, r2. split; [reflexivity|].
  split; [done|]. intros. by apply empty_index_queries.
Qed.

(** With an append-only file the process crashes unless the file
    "/index_miqs_<rank>.aof" can be created: the stream is closed without a test
    against null. *)
Theorem indexing_data_collection_aof_crashes fuel p :
  0 < fuel → (0 < cfg_size (config p))%Z → is_aof_enabled (config p) = 1%Z →
  (∀ d, fs_create os d (SLASH :: index_file_name (cfg_rank (config p)) suffix_aof) = false) →
  indexing_data_collection fuel p = Fault.
Proof.
  intros Hf Hsize Haof Hroot. start_collection. rewrite Haof, (bool_decide_eq_true_2 (1 = 1)%Z) by done. cbn [when].
  destruct (mkpath_returns os [] (disk p)) as [[[rv e] d] Hmk]. cbn [disk set_config set_root].
  rewrite Hmk. unfold open_aof, on_root, mbind, st_bind, st_get, st_modify, outcome_bind.
  cbn [disk set_disk set_config set_root deref root]. rewrite Hroot.
  unfold is_regular_file. cbn [disk set_disk set_config set_root]. rewrite empty_stat. cbn [default].
  set (r1 := set_stream None false _). set (p1 := set_config (set_file_count 0) _).
  destruct (parse_nothing fuel (cfg_topk (config p)) p1 r1 Hf eq_refl (empty_index_init _) Hsize eq_refl)
    as (p2 & r2 & Hp & Hr & He & Hst).
  unfold mbind, st_bind, mret, st_ret in Hp |- *. rewrite Hp.
  unfold close_aof, on_root, run, mbind, st_bind, outcome_bind, st_get. rewrite Hr. cbn [deref].
  rewrite Hst. done.
Qed.

Lemma load_files_empty fuel filter on p : load_files os fuel filter on [] p = Ret (0%Z, p).
Proof.
  unfold load_files, mbind, st_bind, st_get, dir_exists. rewrite empty_opendir. done.
Qed.

(** Recovering_index never finds an index: with either kind of index file
    enabled it returns 1, and the anchor is the one it was called with. *)
Theorem recovering_index_finds_nothing fuel p :
  is_mdb_enabled (config p) = 1%Z ∨ is_aof_enabled (config p) = 1%Z →
  ∃ p', recovering_index fuel p = Ret (1%Z, p') ∧ root p' = root p ∧ disk p' = disk p.
Proof.
  intros Hen. exists (set_config (set_from_scratch 0) p). split; [|done].
  unfold Driver.recovering_index, load_mdb_files, load_aof_files, enabled.
  unfold mbind, st_bind, st_modify, st_get. rewrite !copy_path_empty.
  destruct (decide (is_mdb_enabled (config p) = 1%Z)) as [->|H1];
    destruct (decide (is_aof_enabled (config p) = 1%Z)) as [->|H2]; try (by destruct Hen);
    rewrite ?(bool_decide_eq_true_2 (1 = 1)%Z), ?(bool_decide_eq_false_2 (_ = 1)%Z) by done;
    rewrite ?load_files_empty; unfold mret, st_ret; rewrite ?load_files_empty; reflexivity.
Qed.

(** The block for the path of an index file has room for names of nine bytes;
    the names that the program gives its index files are longer, so that
    loading one writes beyond the block. *)
Theorem on_mdb_overflows e parent p rank :
  d_name e = index_file_name rank suffix_mdb → on_mdb os oob num_attrs_addr e parent p = Fault.
Proof.
  intros He. unfold on_mdb, other_file, mbind, st_bind, st_get, run, outcome_bind. rewrite He.
  unfold sprintf. rewrite bool_decide_eq_false_2; [done|]. unfold join, index_file_name.
  rewrite !length_app. cbn [length]. rewrite !length_app. cbn [length index_prefix suffix_mdb]. lia.
Qed.
End Driver.

(** ** Witnesses *)

(** The file system of the small tree; nothing can be created. *)
Definition small_fs : fs_ops unit :=
  mk_fs unit (λ _, small_tree) (λ _ p, bool_decide (p = [100]%Z)) (λ _ _, None)
    (λ p _, (2%Z, tt)) (λ _ _, false) (λ _ _, None) (λ _ _ _, tt).
#[export] Instance small_fs_laws : FsLaws small_fs.
Proof. split; try done. Qed.
Definition no_h5 (f : list Z) : list h5_object := [].
Definition proc_of (rank mdb aof : Z) : proc unit :=
  mk_proc (init_indexing_config true 2 rank 2 0 mdb aof [100]%Z [105]%Z) (Some (init_in_mem_index 2)) tt.

#[export] Instance small_tree_laws : DirLaws small_tree.
Proof.
  split; unfold small_tree.
  - intros q raw. repeat case_bool_decide; intros [= <-]; apply (bool_decide_unpack _); vm_compute; exact I.
  - intros q raw e. repeat case_bool_decide; intros [= <-]; rewrite ?elem_of_cons, elem_of_nil; intros He Hs;
      repeat (destruct He as [->|He] || destruct He); apply (bool_decide_pack _) in Hs; vm_compute in Hs; done.
Qed.
Lemma parse_files_in_dir_correct_witness :
  ∃ files,
    (∀ f, f ∈ files ↔ ∃ e q, wanted small_tree is_hdf5 [100]%Z e q ∧ f = join q (d_name e)) ∧
    mjoin ((λ rank, my_files 2 (Z.of_nat rank) 0 files) <$> seq 0 2) ≡ₚ files ∧
    (Forall (λ f, length f < 512) files → (Z.of_nat (length files) < 2 ^ 31)%Z →
     NoDup files ∧
     ∀ p r, disk p = tt → root p = Some r → cfg_size (config p) = 2%Z → current_file_count (config p) = 0%Z →
       parse_files_in_dir small_fs (λ _ _, 0%Z) (λ _, []) no_h5 2 [100]%Z 0 p
       = '(_, r') ← parse_files (λ _ _, 0%Z) (λ _, []) no_h5 (my_files 2 (cfg_rank (config p)) 0 files) r;
         Ret (0%Z, after_files (length files) r' p)).
Proof.
  apply (parse_files_in_dir_correct small_fs (λ _ _, 0%Z) (λ _, []) no_h5 small_depth 2 [100]%Z tt 2).
  - exact small_tree_laws.
  - intros q raw e. simpl. unfold small_tree. case_bool_decide as H1.
    + intros [= <-] He _ Hd. rewrite H1. rewrite !elem_of_cons, elem_of_nil in He.
      destruct He as [->|[->|[]]]; [done|]. vm_compute. lia.
    + case_bool_decide as H2; [|done]. intros [= <-] He _ Hd.
      rewrite !elem_of_cons, elem_of_nil in He. by destruct He as [->|[]].
  - vm_compute. lia.
  - lia.
Defined.

Lemma indexing_data_collection_indexes_nothing_witness :
  ∃ p' r, indexing_data_collection small_fs (λ _ _, 0%Z) (λ _, []) no_h5 (λ d, d) false []
            (mk_attr [] MIQS_AT_UNKNOWN (ANum []) 0 [] []) 0 5 (proc_of 0 0 0) = Ret (0%Z, p')
          ∧ root p' = Some r ∧ ∀ name v tv, exact_metadata_search (λ _ _, 0%Z) name v tv r = Fault.
Proof.
  apply (indexing_data_collection_indexes_nothing small_fs (λ _ _, 0%Z) (λ _, []) no_h5 (λ d, d) false []
    (mk_attr [] MIQS_AT_UNKNOWN (ANum []) 0 [] []) 0 eq_refl 5 (proc_of 0 0 0)).
  - lia.
  - reflexivity.
  - discriminate.
  - discriminate.
Defined.

Lemma recovering_index_finds_nothing_witness :
  ∃ p', recovering_index small_fs (λ _ _, 0%Z) (λ _, []) []
          (mk_attr [] MIQS_AT_UNKNOWN (ANum []) 0 [] []) 0 5 (proc_of 0 1 0) = Ret (1%Z, p')
        ∧ root p' = root (proc_of 0 1 0) ∧ disk p' = tt.
Proof.
  apply (recovering_index_finds_nothing small_fs (λ _ _, 0%Z) (λ _, []) []
    (mk_attr [] MIQS_AT_UNKNOWN (ANum []) 0 [] []) 0 5 (proc_of 0 1 0)).
  left. reflexivity.
Defined.
