(* ===== verification/ThreadPool.v ===== *)
(** * The thread pool (src/utils/thread/thpool.c)

    The job queue and its binary semaphore are functions; the pool is a
    transition system whose steps are the sections of [thread_do] and of the
    client's calls that a mutex makes atomic.  One client thread calls the
    interface; a job is a value of [J], and running it appends it to the log
    [finished].  Signals of condition variables wake one or more sleepers, and
    sleepers may wake spuriously.  Running a job and freeing its record are one
    step, since no other thread holds a pointer to the record.  There is one
    pool: the flag threads_keepalive is static in thpool.c, so that destroying a
    pool also stops the workers of every other; that is not modelled, nor is
    pausing by POSIX signals. *)
From S2P Require Import Prelude Heap.

Section Pool.
Context {J : Type}.

(** ** The job queue *)
Record job := mk_job { job_prev : option loc; job_work : J }.
Record jobqueue := mk_queue {
  jobs : gmap loc job;
  front : option loc;
  rear : option loc;
  len : Z;
  has_jobs : Z;
  next_job : loc
}.
Definition set_jobs h (q : jobqueue) := mk_queue h (front q) (rear q) (len q) (has_jobs q) (next_job q).
Definition set_ends f r n (q : jobqueue) := mk_queue (jobs q) f r n (has_jobs q) (next_job q).
Definition set_sem v (q : jobqueue) := mk_queue (jobs q) (front q) (rear q) (len q) v (next_job q).

Definition ld_job (l : option loc) : st jobqueue job :=
  λ q, match l with Some l => match jobs q !! l with Some j => Ret (j, q) | None => Fault end | None => Fault end.
Definition set_prev (l p : option loc) : st jobqueue unit :=
  λ q, match l with
       | Some l => match jobs q !! l with
                   | Some j => Ret (tt, set_jobs (<[l := mk_job p (job_work j)]> (jobs q)) q)
                   | None => Fault
                   end
       | None => Fault
       end.

(** The value of the semaphore; who is woken is part of the transitions. *)
Definition bsem_init (value : Z) : jobqueue → jobqueue := set_sem value.
Definition bsem_reset : jobqueue → jobqueue := bsem_init 0.
Definition bsem_post : jobqueue → jobqueue := set_sem 1.
Definition bsem_post_all : jobqueue → jobqueue := set_sem 1.

Definition jobqueue_init : jobqueue := bsem_init 0 (mk_queue ∅ None None 0 0 1).

(** malloc of thpool_add_work: the function and argument of the job. *)
Definition new_job (w : J) : st jobqueue loc :=
  λ q, Ret (next_job q, mk_queue (<[next_job q := mk_job None w]> (jobs q)) (front q) (rear q) (len q)
                          (has_jobs q) (Pos.succ (next_job q))).
Definition free_job (l : loc) : st jobqueue unit :=
  λ q, match jobs q !! l with
       | Some _ => Ret (tt, set_jobs (delete l (jobs q)) q)
       | None => Fault
       end.

Definition jobqueue_push (newjob : loc) : st jobqueue unit :=
  _ ← set_prev (Some newjob) None;
  q ← st_get;
  _ ← (if bool_decide (len q = 0%Z) then st_modify (set_ends (Some newjob) (Some newjob) (len q))
       else
         _ ← set_prev (rear q) (Some newjob);
         st_modify (set_ends (front q) (Some newjob) (len q)));
  _ ← st_modify (λ q, set_ends (front q) (rear q) (len q + 1) q);
  st_modify bsem_post.

(** The job taken, and whether the semaphore was posted. *)
Definition jobqueue_pull : st jobqueue (option loc * bool) :=
  q ← st_get;
  let job_p := front q in
  if bool_decide (len q = 0%Z) then mret (job_p, false)
  else if bool_decide (len q = 1%Z) then
    _ ← st_modify (set_ends None None 0);
    mret (job_p, false)
  else
    j ← ld_job job_p;
    _ ← st_modify (set_ends (job_prev j) (rear q) (len q - 1));
    _ ← st_modify bsem_post;
    mret (job_p, true).

Fixpoint clear_loop (fuel : nat) : st jobqueue unit :=
  q ← st_get;
  if bool_decide (len q = 0%Z) then mret tt
  else match fuel with
       | O => st_fault
       | S fuel =>
           '(job_p, _) ← jobqueue_pull;
           _ ← match job_p with Some l => free_job l | None => mret tt end;
           clear_loop fuel
       end.
Definition jobqueue_clear : st jobqueue unit :=
  q ← st_get;
  _ ← clear_loop (Z.to_nat (len q));
  _ ← st_modify (set_ends None None 0);
  st_modify bsem_reset.
Definition jobqueue_destroy : st jobqueue unit := jobqueue_clear.

Definition add_job (w : J) : st jobqueue unit := l ← new_job w; jobqueue_push l.

(** ** The pool *)

(** Where a worker is in thread_do. *)
Inductive tpc :=
| Init                (* before it counts itself as alive *)
| Top                 (* at the test of the outer loop *)
| AtWait              (* about to test the semaphore *)
| Asleep              (* in pthread_cond_wait of the semaphore *)
| Woke                (* past bsem_wait, at the inner test *)
| Counting            (* about to count itself as working *)
| Pulling             (* about to take a job *)
| Running (l : loc)   (* runs the job at [l] *)
| Finishing           (* about to count itself as idle *)
| Leaving             (* out of the loop *)
| Exited.

#[export] Instance tpc_eq_dec : EqDecision tpc.
Proof. solve_decision. Defined.

(** Where the client is. *)
Inductive cpc :=
| Starting            (* in thpool_init, until all threads are alive *)
| Idle                (* between calls *)
| WaitTest            (* in thpool_wait, about to test *)
| WaitAsleep          (* in pthread_cond_wait of threads_all_idle *)
| Destroying          (* in the loops of thpool_destroy *)
| Destroyed.

Record pool := mk_pool {
  queue : jobqueue;
  num_threads_alive : Z;
  num_threads_working : Z;
  threads : list tpc;
  client : cpc;
  threads_keepalive : bool;
  added : list J;
  started : list J;
  finished : list J
}.
Definition with_threads ts (s : pool) : pool :=
  mk_pool (queue s) (num_threads_alive s) (num_threads_working s) ts (client s) (threads_keepalive s)
    (added s) (started s) (finished s).
Definition with_queue q (s : pool) : pool :=
  mk_pool q (num_threads_alive s) (num_threads_working s) (threads s) (client s) (threads_keepalive s)
    (added s) (started s) (finished s).
Definition with_counts a w (s : pool) : pool :=
  mk_pool (queue s) a w (threads s) (client s) (threads_keepalive s) (added s) (started s) (finished s).
Definition with_client c k (s : pool) : pool :=
  mk_pool (queue s) (num_threads_alive s) (num_threads_working s) (threads s) c k
    (added s) (started s) (finished s).
Definition with_logs a b c (s : pool) : pool :=
  mk_pool (queue s) (num_threads_alive s) (num_threads_working s) (threads s) (client s)
    (threads_keepalive s) a b c.

Definition thpool_init (num_threads : Z) : pool :=
  let num_threads := if bool_decide (num_threads < 1)%Z then 1%Z else num_threads in
  mk_pool jobqueue_init 0 0 (replicate (Z.to_nat num_threads) Init) Starting true [] [] [].

(** Sleepers on the semaphore that are woken: at least one by a signal, all by
    a broadcast. *)
Definition woken (x y : tpc) : Prop := y = x ∨ x = Asleep ∧ y = AtWait.
Definition signal (ts ts' : list tpc) : Prop := Forall2 woken ts ts' ∧ (Asleep ∈ ts → ts' ≠ ts).
Definition broadcast (ts : list tpc) : list tpc := (λ x, match x with Asleep => AtWait | x => x end) <$> ts.

(** pthread_cond_signal of threads_all_idle. *)
Definition wake_client (c : cpc) : cpc := match c with WaitAsleep => WaitTest | c => c end.

(** The steps of worker [i] that do not touch the queue. *)
Definition thread_local (i : nat) (s : pool) : option pool :=
  let goto pc s := with_threads (<[i := pc]> (threads s)) s in
  match threads s !! i with
  | Some Init => Some (goto Top (with_counts (num_threads_alive s + 1) (num_threads_working s) s))
  | Some Top => Some (goto (if threads_keepalive s then AtWait else Leaving) s)
  | Some AtWait =>
      if bool_decide (has_jobs (queue s) = 1%Z) then Some (goto Woke (with_queue (set_sem 0 (queue s)) s))
      else Some (goto Asleep s)
  | Some Woke => Some (goto (if threads_keepalive s then Counting else Top) s)
  | Some Counting => Some (goto Pulling (with_counts (num_threads_alive s) (num_threads_working s + 1) s))
  | Some Finishing =>
      let w := (num_threads_working s - 1)%Z in
      let s := goto Top (with_counts (num_threads_alive s) w s) in
      Some (if bool_decide (w = 0%Z) then with_client (wake_client (client s)) (threads_keepalive s) s else s)
  | Some Leaving => Some (goto Exited (with_counts (num_threads_alive s - 1) (num_threads_working s) s))
  | _ => None
  end.

(** Steps of the workers. *)
Inductive work_step : pool → pool → Prop :=
| step_local i s s' : thread_local i s = Some s' → work_step s s'
| step_pull i s q' ts' l w :
    threads s !! i = Some Pulling →
    jobqueue_pull (queue s) = Ret ((Some l, true), q') → job_work <$> jobs q' !! l = Some w →
    signal (<[i := Running l]> (threads s)) ts' →
    work_step s (with_logs (added s) (started s ++ [w]) (finished s) (with_threads ts' (with_queue q' s)))
| step_pull_last i s q' l w :
    threads s !! i = Some Pulling →
    jobqueue_pull (queue s) = Ret ((Some l, false), q') → job_work <$> jobs q' !! l = Some w →
    work_step s (with_logs (added s) (started s ++ [w]) (finished s)
      (with_threads (<[i := Running l]> (threads s)) (with_queue q' s)))
| step_pull_none i s q' b :
    threads s !! i = Some Pulling → jobqueue_pull (queue s) = Ret ((None, b), q') →
    work_step s (with_threads (<[i := Finishing]> (threads s)) (with_queue q' s))
| step_run i s l q' w :
    threads s !! i = Some (Running l) → job_work <$> jobs (queue s) !! l = Some w →
    free_job l (queue s) = Ret (tt, q') →
    work_step s (with_logs (added s) (started s) (finished s ++ [w])
      (with_threads (<[i := Finishing]> (threads s)) (with_queue q' s))).

(** Steps of the client and spurious wake-ups. *)
Inductive client_step : pool → pool → Prop :=
| step_started s :
    client s = Starting → num_threads_alive s = Z.of_nat (length (threads s)) →
    client_step s (with_client Idle (threads_keepalive s) s)
| step_add s w q' ts' :
    client s = Idle → add_job w (queue s) = Ret (tt, q') → signal (threads s) ts' →
    client_step s (with_logs (added s ++ [w]) (started s) (finished s) (with_threads ts' (with_queue q' s)))
| step_wait s : client s = Idle → client_step s (with_client WaitTest (threads_keepalive s) s)
| step_wait_sleep s :
    client s = WaitTest → len (queue s) ≠ 0%Z ∨ num_threads_working s ≠ 0%Z →
    client_step s (with_client WaitAsleep (threads_keepalive s) s)
| step_wait_return s :
    client s = WaitTest → len (queue s) = 0%Z → num_threads_working s = 0%Z →
    client_step s (with_client Idle (threads_keepalive s) s)
| step_destroy s : client s = Idle → client_step s (with_client Destroying false s)
| step_post_all s :
    client s = Destroying → num_threads_alive s ≠ 0%Z →
    client_step s (with_threads (broadcast (threads s)) (with_queue (bsem_post_all (queue s)) s))
| step_destroyed s q' :
    client s = Destroying → num_threads_alive s = 0%Z → jobqueue_destroy (queue s) = Ret (tt, q') →
    client_step s (with_client Destroyed (threads_keepalive s) (with_queue q' s))
| step_spurious s i :
    threads s !! i = Some Asleep → client_step s (with_threads (<[i := AtWait]> (threads s)) s)
| step_spurious_client s :
    client s = WaitAsleep → client_step s (with_client WaitTest (threads_keepalive s) s).

Definition step (s s' : pool) : Prop := work_step s s' ∨ client_step s s'.
Inductive reachable (n : Z) : pool → Prop :=
| reach_init : reachable n (thpool_init n)
| reach_step s s' : reachable n s → step s s' → reachable n s'.
End Pool.
Arguments job : clear implicits.
Arguments jobqueue : clear implicits.
Arguments pool : clear implicits.
