(* ===== verification/ThreadPoolInv.v ===== *)
(** * The thread pool: representation of the queue and invariant of the pool *)
From S2P Require Import Prelude Heap ThreadPool.

Section Queue.
Context {J : Type}.
Implicit Types (q : jobqueue J) (xs : list (loc * J)) (R : list (loc * job J)).

(** The cells of a queue segment that ends with the pointer [nxt]. *)
Definition link (ys : list (loc * J)) (nxt : option loc) : option loc :=
  match ys with [] => nxt | y :: _ => Some y.1 end.
Fixpoint qseg xs (nxt : option loc) : list (loc * job J) :=
  match xs with
  | [] => []
  | x :: xs => (x.1, mk_job (link xs nxt) x.2) :: qseg xs nxt
  end.

Lemma link_app xs ys nxt : link (xs ++ ys) nxt = link xs (link ys nxt).
Proof. by destruct xs. Qed.
Lemma qseg_app xs ys nxt : qseg (xs ++ ys) nxt = qseg xs (link ys nxt) ++ qseg ys nxt.
Proof. induction xs as [|x xs IH]; simpl; [done|]. by rewrite IH, link_app. Qed.

(** The queue holds the jobs [xs], the heap also the cells [R]; addresses from
    [next_job] on are free. *)
Record queue_is q xs R : Prop := {
  q_heap : heap_is (jobs q) (qseg xs None ++ R);
  q_front : front q = link xs None;
  q_rear : rear q = fst <$> last xs;
  q_len : len q = Z.of_nat (length xs);
  q_fresh l : (next_job q ≤ l)%positive → jobs q !! l = None
}.

Lemma queue_init : queue_is jobqueue_init [] [].
Proof. split; try done. split; [constructor|done]. Qed.

Lemma queue_sem q xs R v : queue_is q xs R → queue_is (set_sem v q) xs R.
Proof. by intros []. Qed.

Lemma heap_lookup (h : gmap loc (job J)) L l j : heap_is h L → (l, j) ∈ L → h !! l = Some j.
Proof. intros [Hnd ->] Hin. by apply elem_of_list_to_map_1. Qed.

(** ** Adding *)
Lemma add_job_ok q xs R w :
  queue_is q xs R →
  ∃ q', add_job w q = Ret (tt, q') ∧ queue_is q' (xs ++ [(next_job q, w)]) R ∧ has_jobs q' = 1%Z.
Proof.
  intros [Hh Hf Hr Hl Hfr]. set (n := next_job q) in *.
  assert (jobs q !! n = None) as Hn by (by apply Hfr).
  assert (heap_is (<[n := mk_job None w]> (jobs q)) ((n, mk_job None w) :: qseg xs None ++ R)) as Hh1.
  { destruct Hh as [Hnd Hm]. split; [|by rewrite Hm]. cbn. constructor; [|done].
    rewrite Hm in Hn. by apply not_elem_of_list_to_map_2. }
  unfold add_job, mbind, st_bind, new_job. fold n. unfold jobqueue_push, mbind, st_bind, set_prev.
  cbn [jobs]. rewrite lookup_insert_eq. unfold st_get, st_modify, set_jobs, set_ends, bsem_post, set_sem.
  cbn [jobs front rear len has_jobs next_job job_work]. rewrite insert_insert_eq.
  assert (∀ l, (Pos.succ n ≤ l)%positive → l ≠ n ∧ jobs q !! l = None) as Hfr'.
  { intros l Hle. split; [lia|]. apply Hfr. fold n. lia. }
  destruct (last xs) as [[z jz]|] eqn:Hlast; rewrite ?Hlast in Hr.
  - destruct (proj1 (last_Some _ _) Hlast) as [ys ->]. rewrite bool_decide_eq_false_2 by (rewrite Hl, length_app; simpl; lia).
    cbn [fmap option_fmap option_map fst] in Hr. rewrite Hr. rewrite qseg_app in Hh1. cbn [link qseg] in Hh1.
    assert ((n, mk_job None w) :: (qseg ys (Some z) ++ [(z, mk_job None jz)]) ++ R
      ≡ₚ (z, mk_job None jz) :: (n, mk_job None w) :: qseg ys (Some z) ++ R) as Hp by solve_Permutation.
    rewrite Hp in Hh1. apply heap_is_cons in Hh1 as (Hz & Hupd & _).
    cbn [jobs front rear len has_jobs next_job]. rewrite Hz. cbn [jobs front rear len has_jobs next_job job_work].
    eexists. split; [reflexivity|]. split; [|done].
    split; cbn [jobs front rear len next_job].
    + specialize (Hupd (mk_job (Some n) jz)). rewrite !qseg_app. cbn [link qseg fst snd].
      eapply heap_is_perm; [|exact Hupd]. solve_Permutation.
    + rewrite Hf, !link_app. by destruct ys.
    + by rewrite last_snoc.
    + rewrite Hl, !length_app. simpl. lia.
    + intros l Hle. destruct (Hfr' l Hle) as [Hne Hlk]. rewrite !lookup_insert_ne; [done|done|].
      intros <-. rewrite lookup_insert_ne in Hz by done. congruence.
  - apply last_None in Hlast. subst xs. cbn in Hl. rewrite Hl. rewrite bool_decide_eq_true_2 by done.
    eexists. split; [reflexivity|]. split; [|done].
    split; cbn [jobs front rear len next_job]; try done.
    intros l Hle. destruct (Hfr' l Hle). by rewrite lookup_insert_ne.
Qed.

(** ** Taking *)
Lemma pull_empty q R : queue_is q [] R → jobqueue_pull q = Ret ((None, false), q).
Proof.
  intros [Hh Hf Hr Hl Hfr]. unfold jobqueue_pull, mbind, st_bind, st_get. rewrite Hl, Hf.
  by rewrite bool_decide_eq_true_2.
Qed.

Lemma pull_cons q x xs R :
  queue_is q (x :: xs) R →
  ∃ q', jobqueue_pull q = Ret ((Some x.1, bool_decide (xs ≠ [])), q')
    ∧ queue_is q' xs ((x.1, mk_job (link xs None) x.2) :: R)
    ∧ has_jobs q' = (if bool_decide (xs ≠ []) then 1%Z else has_jobs q).
Proof.
  intros [Hh Hf Hr Hl Hfr]. cbn [qseg link app length] in *.
  assert (heap_is (jobs q) (qseg xs None ++ (x.1, mk_job (link xs None) x.2) :: R)) as Hh'.
  { eapply heap_is_perm; [|exact Hh]. symmetry. apply Permutation_middle. }
  unfold jobqueue_pull, mbind, st_bind, st_get, st_modify. rewrite bool_decide_eq_false_2 by lia.
  destruct xs as [|y xs].
  - rewrite bool_decide_eq_true_2 by (rewrite Hl; done). rewrite Hf.
    eexists. split; [reflexivity|]. split; [|done]. by split.
  - rewrite bool_decide_eq_false_2 by (rewrite Hl; simpl; lia). unfold ld_job. rewrite Hf.
    rewrite (proj1 (heap_is_cons _ _ _ _ Hh)). rewrite !(bool_decide_eq_true_2 (y :: xs ≠ [])) by done.
    eexists. split; [reflexivity|]. split; [|done]. split; cbn; try done. rewrite Hl. simpl. lia.
Qed.

(** ** Freeing *)
Lemma free_job_ok q xs R R' l j :
  queue_is q xs R → R ≡ₚ (l, j) :: R' → ∃ q', free_job l q = Ret (tt, q') ∧ queue_is q' xs R' ∧ has_jobs q' = has_jobs q.
Proof.
  intros [Hh Hf Hr Hl Hfr] HR.
  assert (heap_is (jobs q) ((l, j) :: qseg xs None ++ R')) as Hh'.
  { eapply heap_is_perm; [|exact Hh]. rewrite HR. apply Permutation_middle. }
  apply heap_is_cons in Hh' as (Hlk & _ & Hdel). unfold free_job. rewrite Hlk.
  eexists. split; [reflexivity|]. split; [|done]. split; cbn; try done.
  intros k Hk. rewrite lookup_delete_ne; [by apply Hfr|]. intros <-. apply Hfr in Hk. congruence.
Qed.

Lemma clear_loop_ok fuel q xs R :
  queue_is q xs R → length xs ≤ fuel → ∃ q', clear_loop fuel q = Ret (tt, q') ∧ queue_is q' [] R.
Proof.
  revert q xs. induction fuel as [|fuel IH]; intros q xs Hq Hle; cbn [clear_loop]; unfold mbind, st_bind, st_get.
  - destruct xs; [|simpl in Hle; lia]. rewrite bool_decide_eq_true_2 by apply Hq. by exists q.
  - destruct xs as [|x xs]; [rewrite bool_decide_eq_true_2 by apply Hq; by exists q|].
    rewrite bool_decide_eq_false_2 by (rewrite (q_len _ _ _ Hq); simpl; lia).
    destruct (pull_cons _ _ _ _ Hq) as (q1 & -> & Hq1 & _).
    destruct (free_job_ok _ _ _ R _ _ Hq1 ltac:(done)) as (q2 & -> & Hq2 & _).
    apply (IH q2 xs Hq2). simpl in Hle. lia.
Qed.

Lemma queue_destroy_ok q xs R : queue_is q xs R → ∃ q', jobqueue_destroy q = Ret (tt, q') ∧ queue_is q' [] R.
Proof.
  intros Hq. unfold jobqueue_destroy, jobqueue_clear, mbind, st_bind, st_get, st_modify.
  rewrite (q_len _ _ _ Hq), Nat2Z.id. destruct (clear_loop_ok _ _ _ _ Hq (Nat.le_refl _)) as (q1 & -> & [Hh Hf Hr Hl Hfr]).
  eexists. split; [reflexivity|]. by split.
Qed.
End Queue.

(** ** Threads *)
Definition running (pc : tpc) : option loc := match pc with Running l => Some l | _ => None end.
Definition occupied (pc : tpc) : bool := match pc with Pulling | Running _ | Finishing => true | _ => false end.
Definition alive (pc : tpc) : bool := match pc with Init | Exited => false | _ => true end.
(** On the way from the semaphore to the queue. *)
Definition pending (pc : tpc) : bool := match pc with Woke | Counting | Pulling => true | _ => false end.
(** Will look at the semaphore again by itself. *)
Definition awake (pc : tpc) : bool := match pc with Asleep | Leaving | Exited => false | _ => true end.
Definition staying (pc : tpc) : bool := match pc with Leaving | Exited => false | _ => true end.

Section Threads.
Implicit Types (ts : list tpc).
Definition runs ts : list loc := omap id (running <$> ts).

Lemma runs_insert ts i x y :
  ts !! i = Some x → option_list (running x) ++ runs (<[i := y]> ts) ≡ₚ option_list (running y) ++ runs ts.
Proof.
  intros Hi. unfold runs. rewrite (split_at ts i x Hi) at 2. rewrite insert_take_drop by (by eapply lookup_lt_Some).
  rewrite !fmap_app, !omap_app, !fmap_cons. cbn [omap list_omap].
  destruct (running x), (running y); cbn; solve_Permutation.
Qed.
(** Waking changes only who is asleep. *)
Lemma woken_fmap {A} (f : tpc → A) ts ts' : Forall2 woken ts ts' → f Asleep = f AtWait → f <$> ts' = f <$> ts.
Proof.
  intros Hw Hf. induction Hw as [|x y ts ts' Hxy Hw IH]; [done|]. cbn. f_equal; [|exact IH].
  by destruct Hxy as [-> | [-> ->]].
Qed.
Lemma woken_has ts ts' : Forall2 woken ts ts' → has awake ts → has awake ts'.
Proof.
  intros Hw (i & x & Hi & Hx)%has_inv. destruct (Forall2_lookup_l _ _ _ _ _ Hw Hi) as (y & Hy & Hxy).
  eapply has_at; [done|]. by destruct Hxy as [-> | [-> ->]].
Qed.
(** After a signal somebody is awake. *)
Lemma signal_awake ts ts' : signal ts ts' → 0 < length ts → (∀ i x, ts !! i = Some x → staying x = true) → has awake ts'.
Proof.
  intros [Hw Hne] Hlen Hst. destruct (decide (Asleep ∈ ts)) as [Hin|Hno].
  - assert (∃ i y, ts !! i = Some Asleep ∧ ts' !! i = Some y ∧ y = AtWait) as (i & y & _ & Hy & ->).
    { specialize (Hne Hin). clear Hin Hlen Hst. induction Hw as [|x y ts ts' Hxy Hw IH]; [done|].
      destruct Hxy as [-> | [-> ->]]; [|by exists 0, AtWait].
      destruct IH as (i & y & ? & ? & ?); [congruence|]. by exists (S i), y. }
    by eapply has_at.
  - destruct ts as [|x ts]; [simpl in Hlen; lia|]. apply (woken_has (x :: ts)); [done|].
    apply (has_at _ _ 0 x); [done|]. specialize (Hst 0 x eq_refl). destruct x; try done. destruct Hno. by left.
Qed.
Lemma woken_refl ts : Forall2 woken ts ts.
Proof. apply Forall2_same_length_lookup_2; [done|]. intros i x y ??. left. congruence. Qed.
Lemma broadcast_woken ts : Forall2 woken ts (broadcast ts).
Proof.
  unfold broadcast. induction ts as [|x ts IH]; cbn; constructor; [|done]. unfold woken. destruct x; auto.
Qed.
(** A signal is always possible. *)
Lemma broadcast_signal ts : signal ts (broadcast ts).
Proof.
  split; [apply broadcast_woken|]. intros [i Hi]%list_elem_of_lookup_1 Heq. pose proof (f_equal (.!! i) Heq) as Hi'.
  unfold broadcast in Hi'. cbn in Hi'. rewrite list_lookup_fmap, Hi in Hi'. done.
Qed.
End Threads.

#[global] Arguments cnt : simpl never.
#[global] Arguments has : simpl never.
#[global] Arguments runs : simpl never.

(** ** The invariant *)
Section Inv.
Context {J : Type}.
Implicit Types (s : pool J) (xs : list (loc * J)) (rc : list (loc * job J)).

Record inv s xs rc : Prop := {
  inv_queue : queue_is (queue s) xs rc;
  inv_running : rc.*1 ≡ₚ runs (threads s);
  inv_added : client s ≠ Destroyed → added s = started s ++ xs.*2;
  inv_started : started s ≡ₚ finished s ++ (job_work ∘ snd <$> rc);
  inv_working : num_threads_working s = Z.of_nat (cnt occupied (threads s));
  inv_alive : num_threads_alive s = Z.of_nat (cnt alive (threads s));
  inv_threads : 0 < length (threads s);
  inv_staying : threads_keepalive s = true → ∀ i x, threads s !! i = Some x → staying x = true;
  inv_served : threads_keepalive s = true → xs ≠ [] → has_jobs (queue s) = 1%Z ∨ has pending (threads s);
  inv_posted : threads_keepalive s = true → has_jobs (queue s) = 1%Z → has awake (threads s);
  inv_asleep : client s = WaitAsleep → xs ≠ [] ∨ num_threads_working s ≠ 0%Z;
  inv_keep : threads_keepalive s = false ↔ client s = Destroying ∨ client s = Destroyed
}.

(** A worker that moves from [x] to [y] without taking or dropping a job. *)
Lemma inv_goto s xs rc i x y a w q c :
  inv s xs rc → threads s !! i = Some x → running x = running y →
  (w + Z.b2z (occupied x) = num_threads_working s + Z.b2z (occupied y))%Z →
  (a + Z.b2z (alive x) = num_threads_alive s + Z.b2z (alive y))%Z →
  queue_is q xs rc →
  (c = client s ∨ c = wake_client (client s)) →
  (threads_keepalive s = true → staying y = true) →
  (threads_keepalive s = true → xs ≠ [] → has_jobs q = 1%Z ∨ has pending (<[i := y]> (threads s))) →
  (threads_keepalive s = true → has_jobs q = 1%Z → has awake (<[i := y]> (threads s))) →
  (c = WaitAsleep → xs ≠ [] ∨ w ≠ 0%Z) →
  inv (with_client c (threads_keepalive s) (with_threads (<[i := y]> (threads s)) (with_counts a w (with_queue q s)))) xs rc.
Proof.
  intros [] Hi Hr Hw Ha Hq Hc Hst Hsv Hpo Hsl.
  pose proof (cnt_insert occupied (threads s) i x y Hi) as Ho. pose proof (cnt_insert alive (threads s) i x y Hi) as Hl.
  assert (∀ b, Z.b2z b = Z.of_nat (Nat.b2n b)) as Hb by (by intros []).
  rewrite inv_working0, !Hb in Hw. rewrite inv_alive0, !Hb in Ha.
  assert (c ≠ Destroyed → client s ≠ Destroyed) as Hcd by (destruct Hc as [-> | ->]; destruct (client s); naive_solver).
  split; cbn; try done.
  - rewrite inv_running0. pose proof (runs_insert (threads s) i x y Hi) as Hp. rewrite Hr in Hp.
    by apply Permutation_app_inv_l in Hp.
  - auto.
  - lia.
  - lia.
  - by rewrite length_insert.
  - intros Hk j z [(<- & <- & _)|[_ Hj]]%list_lookup_insert_Some; eauto.
  - destruct Hc as [-> | ->]; [done|]. rewrite inv_keep0. destruct (client s); naive_solver.
Qed.

Lemma inv_local s s' i xs rc : inv s xs rc → thread_local i s = Some s' → inv s' xs rc.
Proof.
  intros Hinv Hs. unfold thread_local in Hs. destruct (threads s !! i) as [x|] eqn:Hi; [|done].
  pose proof (inv_queue _ _ _ Hinv) as Hq. pose proof (inv_staying _ _ _ Hinv) as Hst.
  pose proof (inv_served _ _ _ Hinv) as Hsv. pose proof (inv_posted _ _ _ Hinv) as Hpo.
  pose proof (inv_asleep _ _ _ Hinv) as Hsl.
  assert (∀ y, (pending x = true → pending y = true) → threads_keepalive s = true → xs ≠ [] →
    has_jobs (queue s) = 1%Z ∨ has pending (<[i := y]> (threads s))) as Hpend.
  { intros y Hxy Hk Hne. destruct (Hsv Hk Hne); [by left|right]. by eapply has_insert. }
  assert (∀ y, awake y = true → has awake (<[i := y]> (threads s))) as Haw by (intros; by eapply has_new).
  assert (Z.b2z (occupied x) ≤ num_threads_working s)%Z as Hocc.
  { rewrite (inv_working _ _ _ Hinv). pose proof (cnt_insert occupied (threads s) i x Asleep Hi). destruct (occupied x); simpl in *; lia. }
  destruct x; try done.
  - injection Hs as <-. refine (inv_goto s xs rc i _ Top _ _ (queue s) (client s) Hinv Hi eq_refl _ _ Hq _ _ _ _ _); cbn; try lia; auto.
  - injection Hs as <-. set (y := if threads_keepalive s then AtWait else Leaving).
    assert (running y = None ∧ occupied y = false ∧ alive y = true ∧ (threads_keepalive s = true → awake y = true ∧ staying y = true))
      as (H1 & H2 & H3 & H4) by (unfold y; by destruct (threads_keepalive s)).
    refine (inv_goto s xs rc i _ y _ _ (queue s) (client s) Hinv Hi (eq_sym H1) _ _ Hq _ _ _ _ _);
      rewrite ?H2, ?H3; cbn; try lia; auto; intros Hk; destruct (H4 Hk); auto.
    by apply Hpend.
  - case_bool_decide as Hv; injection Hs as <-.
    + refine (inv_goto s xs rc i _ Woke _ _ (set_sem 0 (queue s)) (client s) Hinv Hi eq_refl _ _ (queue_sem _ _ _ _ Hq) _ _ _ _ _);
        cbn; try lia; auto. intros _ _. right. by eapply has_new.
    + refine (inv_goto s xs rc i _ Asleep _ _ (queue s) (client s) Hinv Hi eq_refl _ _ Hq _ _ _ _ _);
        cbn; try lia; auto.
  - injection Hs as <-. set (y := if threads_keepalive s then Counting else Top).
    assert (running y = None ∧ occupied y = false ∧ alive y = true ∧ awake y = true ∧ staying y = true ∧
      (threads_keepalive s = true → pending y = true)) as (H1 & H2 & H3 & H4 & H5 & H6) by (unfold y; by destruct (threads_keepalive s)).
    refine (inv_goto s xs rc i _ y _ _ (queue s) (client s) Hinv Hi (eq_sym H1) _ _ Hq _ _ _ _ _);
      rewrite ?H2, ?H3; cbn; try lia; auto.
  - injection Hs as <-.
    refine (inv_goto s xs rc i _ Pulling _ _ (queue s) (client s) Hinv Hi eq_refl _ _ Hq _ _ _ _ _); cbn; try lia; auto.
    intros _. right. pose proof (inv_working _ _ _ Hinv). lia.
  - cbn in Hocc. case_bool_decide as Hw; injection Hs as <-.
    + refine (inv_goto s xs rc i _ Top _ _ (queue s) (wake_client (client s)) Hinv Hi eq_refl _ _ Hq _ _ _ _ _); cbn; try lia; auto.
      by destruct (client s).
    + refine (inv_goto s xs rc i _ Top _ _ (queue s) (client s) Hinv Hi eq_refl _ _ Hq _ _ _ _ _); cbn; try lia; auto.
  - injection Hs as <-.
    assert (threads_keepalive s = true → False) as Hk by (intros Hk; by specialize (Hst Hk i _ Hi)).
    refine (inv_goto s xs rc i _ Exited _ _ (queue s) (client s) Hinv Hi eq_refl _ _ Hq _ _ _ _ _); cbn; try lia; auto; tauto.
Qed.

(** Waking sleepers while the queue changes. *)
Lemma inv_wake s xs rc q xs' ts' a :
  inv s xs rc → Forall2 woken (threads s) ts' → queue_is q xs' rc →
  (client s ≠ Destroyed → a = started s ++ xs'.*2) →
  (threads_keepalive s = true → xs' ≠ [] → has_jobs q = 1%Z) →
  (threads_keepalive s = true → has_jobs q = 1%Z → has awake ts') →
  (client s = WaitAsleep → xs' ≠ [] ∨ num_threads_working s ≠ 0%Z) →
  inv (with_logs a (started s) (finished s) (with_threads ts' (with_queue q s))) xs' rc.
Proof.
  intros [] Hw Hq Ha Hsv Hpo Hsl.
  assert (∀ P, P Asleep = P AtWait → cnt P ts' = cnt P (threads s)) as Hc.
  { intros P HP. unfold cnt. by rewrite (woken_fmap P _ _ Hw HP). }
  split; cbn; try done.
  - unfold runs. by rewrite (woken_fmap running _ _ Hw eq_refl).
  - by rewrite Hc.
  - by rewrite Hc.
  - by rewrite <-(Forall2_length _ _ _ Hw).
  - intros Hk j y Hj. destruct (Forall2_lookup_r _ _ _ _ _ Hw Hj) as (x & Hx & [-> | [-> ->]]); eauto.
  - intros Hk Hne. left. auto.
Qed.

(** Taking the first job. *)
Lemma inv_pull s x xs rc i q ts' :
  inv s (x :: xs) rc → threads s !! i = Some Pulling →
  queue_is q xs ((x.1, mk_job (link xs None) x.2) :: rc) → (xs ≠ [] → has_jobs q = 1%Z) →
  Forall2 woken (<[i := Running x.1]> (threads s)) ts' →
  inv (with_logs (added s) (started s ++ [x.2]) (finished s) (with_threads ts' (with_queue q s)))
    xs ((x.1, mk_job (link xs None) x.2) :: rc).
Proof.
  intros [] Hi Hq Hsem Hw. set (ts := <[i := Running x.1]> (threads s)) in *.
  assert (∀ P, P Asleep = P AtWait → P Pulling = P (Running x.1) → cnt P ts' = cnt P (threads s)) as Hc.
  { intros P HP HP'. unfold cnt. rewrite (woken_fmap P _ _ Hw HP). fold (cnt P ts). fold (cnt P (threads s)).
    pose proof (cnt_insert P (threads s) i _ (Running x.1) Hi). fold ts in H. rewrite HP' in H. lia. }
  split; cbn; try done.
  - unfold runs. rewrite (woken_fmap running _ _ Hw eq_refl). fold (runs ts).
    rewrite (runs_insert (threads s) i _ (Running x.1) Hi : runs ts ≡ₚ _). cbn. by rewrite inv_running0.
  - intros Hd. rewrite (inv_added0 Hd). cbn. by rewrite <-app_assoc.
  - rewrite inv_started0. solve_Permutation.
  - by rewrite Hc.
  - by rewrite Hc.
  - rewrite <-(Forall2_length _ _ _ Hw). unfold ts. by rewrite length_insert.
  - intros Hk j y Hj. destruct (Forall2_lookup_r _ _ _ _ _ Hw Hj) as (z & Hz & [-> | [-> ->]]); [|done].
    unfold ts in Hz. apply list_lookup_insert_Some in Hz as [(<- & <- & _)|[_ Hz]]; eauto.
  - intros Hk Hne. left. auto.
  - intros Hk _. eapply woken_has; [exact Hw|]. by eapply has_new.
  - intros _. right. rewrite inv_working0. intros H0. assert (cnt occupied (threads s) = 0) as H1 by lia.
    by pose proof (cnt_zero _ _ _ _ H1 Hi).
Qed.

(** A job has run. *)
Lemma inv_run s xs rc rc' i l j q :
  inv s xs rc → threads s !! i = Some (Running l) → rc ≡ₚ (l, j) :: rc' →
  queue_is q xs rc' → has_jobs q = has_jobs (queue s) →
  inv (with_logs (added s) (started s) (finished s ++ [job_work j])
         (with_threads (<[i := Finishing]> (threads s)) (with_queue q s))) xs rc'.
Proof.
  intros [] Hi Hrc Hq Hsem.
  assert (∀ P, P (Running l) = P Finishing → cnt P (<[i := Finishing]> (threads s)) = cnt P (threads s)) as Hc.
  { intros P HP. pose proof (cnt_insert P (threads s) i _ Finishing Hi) as H. rewrite HP in H. lia. }
  split; cbn; try done.
  - pose proof (runs_insert (threads s) i _ Finishing Hi) as Hr. cbn in Hr. rewrite <-inv_running0, Hrc in Hr. cbn in Hr.
    symmetry. by apply Permutation_cons_inv in Hr.
  - rewrite inv_started0, Hrc. cbn. solve_Permutation.
  - by rewrite Hc.
  - by rewrite Hc.
  - by rewrite length_insert.
  - intros Hk k y [(<- & <- & _)|[_ Hk']]%list_lookup_insert_Some; eauto.
  - intros Hk Hne. rewrite Hsem. destruct (inv_served0 Hk Hne); [by left|right]. by eapply has_insert.
  - intros Hk Hv. by eapply has_new.
Qed.

Lemma inv_client s xs rc c k :
  inv s xs rc → (c ≠ Destroyed → client s ≠ Destroyed) → (k = true → threads_keepalive s = true) →
  (c = WaitAsleep → xs ≠ [] ∨ num_threads_working s ≠ 0%Z) → (k = false ↔ c = Destroying ∨ c = Destroyed) →
  inv (with_client c k s) xs rc.
Proof. intros [] Hc Hk Hsl Hkc. split; cbn; try done; intros; eauto. Qed.

(** ** Preservation *)
Lemma inv_init n : inv (thpool_init n) [] [].
Proof.
  unfold thpool_init. set (m := if bool_decide (n < 1)%Z then 1%Z else n).
  assert (0 < Z.to_nat m) as Hm by (unfold m; case_bool_decide; lia).
  assert (∀ P : tpc → bool, P Init = false → cnt P (replicate (Z.to_nat m) Init) = 0) as Hc.
  { intros P HP. unfold cnt. rewrite fmap_replicate, HP. clear. induction (Z.to_nat m) as [|k IH]; [done|]. cbn [replicate]. rewrite filter_cons_False by done. exact IH. }
  split; cbn; try done.
  - apply queue_init.
  - unfold runs. rewrite fmap_replicate. cbn [running]. clear. induction (Z.to_nat m) as [|k IH]; [done|]. exact IH.
  - by rewrite Hc.
  - by rewrite Hc.
  - by rewrite length_replicate.
  - intros _ i x [-> _]%lookup_replicate. done.
  - split; [done|by intros [?|?]].
Qed.

Lemma inv_lookup s xs rc l w :
  inv s xs rc → l ∈ rc.*1 → job_work <$> jobs (queue s) !! l = Some w →
  ∃ j rc', rc ≡ₚ (l, j) :: rc' ∧ job_work j = w.
Proof.
  intros Hinv Hl Hw. apply list_elem_of_fmap_1 in Hl as ([l' j] & -> & Hin). cbn in *.
  apply elem_of_Permutation in Hin as [rc' Hrc]. exists j, rc'. split; [done|].
  pose proof (q_heap _ _ _ (inv_queue _ _ _ Hinv)) as Hh.
  rewrite (heap_lookup _ _ l' j Hh) in Hw; [|rewrite Hrc, elem_of_app; right; by left]. by injection Hw.
Qed.

Lemma inv_work s s' xs rc : inv s xs rc → work_step s s' → ∃ xs' rc', inv s' xs' rc'.
Proof.
  intros Hinv Hs. pose proof (inv_queue _ _ _ Hinv) as Hq. destruct Hs as [i s s' Hs|i s q' ts' l w Hi Hp Hw Hsig
    |i s q' l w Hi Hp Hw|i s q' b Hi Hp|i s l q' w Hi Hw Hf].
  - exists xs, rc. by eapply inv_local.
  - destruct xs as [|x xs]; [by rewrite (pull_empty _ _ Hq) in Hp|].
    destruct (pull_cons _ _ _ _ Hq) as (q1 & Hp1 & Hq1 & Hsem). rewrite Hp1 in Hp. injection Hp as <- Hne <-.
    rewrite (heap_lookup _ _ x.1 _ (q_heap _ _ _ Hq1)) in Hw by (rewrite elem_of_app; right; by left).
    injection Hw as <-. eexists _, _. eapply (inv_pull s x xs rc i q1 ts' Hinv Hi Hq1); [|apply Hsig].
    intros _. by rewrite Hsem, Hne.
  - destruct xs as [|x xs]; [by rewrite (pull_empty _ _ Hq) in Hp|].
    destruct (pull_cons _ _ _ _ Hq) as (q1 & Hp1 & Hq1 & Hsem). rewrite Hp1 in Hp. injection Hp as <- Hne <-.
    rewrite (heap_lookup _ _ x.1 _ (q_heap _ _ _ Hq1)) in Hw by (rewrite elem_of_app; right; by left).
    injection Hw as <-. eexists _, _. eapply (inv_pull s x xs rc i q1 _ Hinv Hi Hq1).
    + intros Hx. by rewrite bool_decide_eq_true_2 in Hne.
    + apply woken_refl.
  - destruct xs as [|x xs]; [|by destruct (pull_cons _ _ _ _ Hq) as (q1 & Hp1 & _); rewrite Hp1 in Hp].
    rewrite (pull_empty _ _ Hq) in Hp. injection Hp as _ <-. exists [], rc.
    refine (inv_goto s [] rc i _ Finishing _ _ (queue s) (client s) Hinv Hi eq_refl _ _ Hq _ _ _ _ _); cbn; try lia; auto.
    + done.
    + intros _ _. by eapply has_new.
    + apply (inv_asleep _ _ _ Hinv).
  - assert (l ∈ rc.*1) as Hl.
    { rewrite (inv_running _ _ _ Hinv). pose proof (runs_insert (threads s) i _ Asleep Hi) as Hr. cbn in Hr.
      rewrite <-Hr. by left. }
    destruct (inv_lookup _ _ _ _ _ Hinv Hl Hw) as (j & rc' & Hrc & <-).
    destruct (free_job_ok _ _ _ _ _ _ Hq Hrc) as (q1 & Hf1 & Hq1 & Hsem). rewrite Hf1 in Hf. injection Hf as <-.
    eexists _, _. by eapply inv_run.
Qed.

Lemma inv_client_step s s' xs rc : inv s xs rc → client_step s s' → ∃ xs' rc', inv s' xs' rc'.
Proof.
  intros Hinv Hs. pose proof (inv_queue _ _ _ Hinv) as Hq. pose proof (inv_keep _ _ _ Hinv) as Hkp.
  pose proof (q_len _ _ _ Hq) as Hlen.
  destruct Hs as [s Hc Ha|s w q' ts' Hc Hadd Hsig|s Hc|s Hc Hb|s Hc H1 H2|s Hc|s Hc Ha|s q' Hc Ha Hd|s i Hi|s Hc].
  - exists xs, rc. apply inv_client; rewrite ?Hc in *; try done. naive_solver.
  - destruct (add_job_ok _ _ _ w Hq) as (q1 & Hadd1 & Hq1 & Hv). rewrite Hadd1 in Hadd. injection Hadd as <-.
    eexists _, rc. eapply (inv_wake s xs rc q1 _ ts' _ Hinv (proj1 Hsig) Hq1).
    + intros Hnd. rewrite (inv_added _ _ _ Hinv Hnd), fmap_app, app_assoc. done.
    + done.
    + intros Hk _. eapply signal_awake; [done|apply (inv_threads _ _ _ Hinv)|]. by apply (inv_staying _ _ _ Hinv).
    + congruence.
  - exists xs, rc. apply inv_client; rewrite ?Hc in *; try done. naive_solver.
  - exists xs, rc. apply inv_client; rewrite ?Hc; try done.
    + intros _. destruct Hb as [Hb|Hb]; [left|by right]. intros ->. by rewrite Hlen in Hb.
    + rewrite Hkp, Hc. naive_solver.
  - exists xs, rc. apply inv_client; rewrite ?Hc in *; try done. naive_solver.
  - exists xs, rc. apply inv_client; rewrite ?Hc; try done. naive_solver.
  - assert (threads_keepalive s = false) as Hk by (apply Hkp; by left). exists xs, rc.
    refine (inv_wake s xs rc (bsem_post_all (queue s)) xs (broadcast (threads s)) (added s) Hinv _ (queue_sem _ _ _ _ Hq) _ _ _ _); try congruence.
    + apply broadcast_woken.
    + apply (inv_added _ _ _ Hinv).
  - assert (rc = []) as ->.
    { assert (cnt alive (threads s) = 0) as H0 by (rewrite (inv_alive _ _ _ Hinv) in Ha; lia).
      apply nil_length_inv. rewrite <-(length_fmap fst), (inv_running _ _ _ Hinv). unfold runs.
      assert (∀ x, x ∈ threads s → running x = None) as Hr.
      { intros x [i Hi]%list_elem_of_lookup_1. pose proof (cnt_zero _ _ _ _ H0 Hi). by destruct x. }
      clear -Hr. induction (threads s) as [|x ts IH]; [done|]. cbn. rewrite (Hr x) by left. apply IH.
      intros y Hy. apply Hr. by right. }
    destruct (queue_destroy_ok _ _ _ Hq) as (q1 & Hd1 & Hq1). rewrite Hd1 in Hd. injection Hd as <-.
    exists [], []. destruct Hinv. split; cbn; try done.
    + intros Hk _. assert (threads_keepalive s = false) by (apply Hkp; by left). congruence.
    + split; [by right|]. intros _. apply Hkp. by left.
  - exists xs, rc. refine (inv_goto s xs rc i _ AtWait _ _ (queue s) (client s) Hinv Hi eq_refl _ _ Hq _ _ _ _ _);
      cbn; try lia; auto.
    + intros Hk Hne. destruct (inv_served _ _ _ Hinv Hk Hne); [by left|right]. by eapply has_insert.
    + intros _ _. by eapply has_new.
    + apply (inv_asleep _ _ _ Hinv).
  - exists xs, rc. apply inv_client; rewrite ?Hc in *; try done. naive_solver.
Qed.

Lemma reachable_inv n s : reachable n s → ∃ xs rc, inv s xs rc.
Proof.
  induction 1 as [|s s' _ (xs & rc & IH) [Hs|Hs]]; [by exists [], []; apply inv_init|..].
  - by eapply inv_work.
  - by eapply inv_client_step.
Qed.
End Inv.
