(* ===== verification/ThreadPoolTheorems.v ===== *)
(** * The thread pool: theorems

    What a client of the pool relies on: jobs start once and in the order they
    were added, thpool_wait returns only when every job has finished, the
    workers come to rest by themselves and never leave a job behind, and
    thpool_destroy frees every job. *)
From S2P Require Import Prelude Heap ThreadPool ThreadPoolInv.

Section Theorems.
Context {J : Type}.
Implicit Types (s : pool J) (xs : list (loc * J)) (rc : list (loc * job J)).

(** ** No worker in a job *)
Lemma runs_none ts : (∀ i x, ts !! i = Some x → running x = None) → runs ts = [].
Proof.
  unfold runs. induction ts as [|x ts IH]; intros H; [done|]. cbn. rewrite (H 0 x eq_refl).
  apply IH. intros i y Hy. by apply (H (S i) y).
Qed.
Lemma inv_rest s xs rc : inv s xs rc → num_threads_working s = 0%Z → rc = [].
Proof.
  intros Hinv Hw. assert (cnt occupied (threads s) = 0) as H0 by (rewrite (inv_working _ _ _ Hinv) in Hw; lia).
  apply nil_length_inv. rewrite <-(length_fmap fst), (inv_running _ _ _ Hinv), runs_none; [done|].
  intros i x Hi. pose proof (cnt_zero _ _ _ _ H0 Hi). by destruct x.
Qed.
Lemma inv_all_done s xs rc :
  inv s xs rc → client s ≠ Destroyed → len (queue s) = 0%Z → num_threads_working s = 0%Z → finished s ≡ₚ added s.
Proof.
  intros Hinv Hc Hl Hw. rewrite (q_len _ _ _ (inv_queue _ _ _ Hinv)) in Hl.
  rewrite (inv_added _ _ _ Hinv Hc), (inv_started _ _ _ Hinv), (inv_rest _ _ _ Hinv Hw).
  destruct xs; [|done]. cbn. by rewrite !app_nil_r.
Qed.

(** ** The measure of the workers *)
Definition rank (pc : tpc) : nat :=
  match pc with
  | Init => 8 | Woke => 7 | Counting => 6 | Pulling => 5 | Running _ => 4 | Finishing => 3 | Top => 2
  | AtWait | Leaving => 1 | Asleep | Exited => 0
  end.
Definition ranks (ts : list tpc) : nat := sum_list_with rank ts.
Definition posted s : nat := if bool_decide (has_jobs (queue s) = 1%Z) then 7 else 0.
Definition measure s : nat :=
  ranks (threads s) + (length (threads s) + 7) * Z.to_nat (len (queue s)) + posted s.

Lemma ranks_insert ts i x y : ts !! i = Some x → ranks (<[i := y]> ts) + rank x = ranks ts + rank y.
Proof.
  intros Hi. unfold ranks. rewrite (split_at ts i x Hi) at 2. rewrite insert_take_drop by (by eapply lookup_lt_Some).
  rewrite !sum_list_with_app. simpl. lia.
Qed.
Lemma ranks_woken ts ts' : Forall2 woken ts ts' → ranks ts' ≤ ranks ts + length ts.
Proof. unfold ranks. induction 1 as [|x y ts ts' [-> | [-> ->]] _ IH]; simpl in *; lia. Qed.
Lemma ranks_bound ts : ranks ts ≤ 8 * length ts.
Proof. unfold ranks. induction ts as [|x ts IH]; [done|]. simpl in *. destruct x; simpl; lia. Qed.
Lemma posted_bound s : posted s ≤ 7.
Proof. unfold posted. case_bool_decide; lia. Qed.

Lemma goto_decreases s s' i x y :
  threads s !! i = Some x → threads s' = <[i := y]> (threads s) → len (queue s') = len (queue s) →
  rank y + posted s' < rank x + posted s → measure s' < measure s.
Proof.
  intros Hi Hts Hl Hr. pose proof (ranks_insert _ _ _ y Hi) as Hsum. unfold measure.
  rewrite Hts, Hl, length_insert. lia.
Qed.
Lemma local_decreases s s' i : thread_local i s = Some s' → measure s' < measure s.
Proof.
  unfold thread_local. destruct (threads s !! i) as [x|] eqn:Hi; [|done]. intros Hs.
  destruct x; try done; try (case_bool_decide as Hb); injection Hs as <-;
    (eapply goto_decreases; [exact Hi|reflexivity|reflexivity|]);
    try (apply Nat.add_lt_le_mono; [destruct (threads_keepalive s); cbn; lia|reflexivity]).
  unfold posted. rewrite bool_decide_eq_false_2 by done. rewrite bool_decide_eq_true_2 by done. cbn. lia.
Qed.

(** A worker that moves down while the queue loses [d] jobs and others wake. *)
Lemma queue_decreases s i x y q ts' a b c (d : bool) :
  threads s !! i = Some x → rank y < rank x → Forall2 woken (<[i := y]> (threads s)) ts' →
  (len (queue s) = Z.b2z d + len q)%Z → (0 ≤ len q)%Z →
  (if d then True else ts' = <[i := y]> (threads s) ∧ has_jobs q = has_jobs (queue s)) →
  measure (with_logs a b c (with_threads ts' (with_queue q s))) < measure s.
Proof.
  intros Hi Hxy Hw Hl Hq Hd. pose proof (ranks_insert _ _ _ y Hi) as Hr. pose proof (ranks_woken _ _ Hw) as Hrw.
  rewrite length_insert in Hrw. pose proof (Forall2_length _ _ _ Hw) as Hlen. rewrite length_insert in Hlen.
  unfold measure. pose proof (posted_bound (with_logs a b c (with_threads ts' (with_queue q s)))) as Hb.
  rewrite Hl. cbn [threads queue with_logs with_threads with_queue] in *. rewrite <-Hlen.
  destruct d; cbn [Z.b2z].
  - rewrite Z2Nat.inj_add by lia. change (Z.to_nat 1) with 1. nia.
  - destruct Hd as [-> Hv]. unfold posted. cbn. rewrite Hv, Z.add_0_l. lia.
Qed.

Lemma work_decreases s s' xs rc : inv s xs rc → work_step s s' → measure s' < measure s.
Proof.
  intros Hinv Hs. pose proof (inv_queue _ _ _ Hinv) as Hq. pose proof (q_len _ _ _ Hq) as Hl.
  destruct Hs as [i s s' Hs|i s q' ts' l w Hi Hp Hw [Hsig _]|i s q' l w Hi Hp Hw|i s q' b Hi Hp|i s l q' w Hi Hw Hf].
  - by eapply local_decreases.
  - destruct xs as [|x xs]; [by rewrite (pull_empty _ _ Hq) in Hp|].
    destruct (pull_cons _ _ _ _ Hq) as (q1 & Hp1 & Hq1 & _). rewrite Hp1 in Hp. injection Hp as <- Hne <-.
    pose proof (q_len _ _ _ Hq1) as Hl1. simpl in Hl.
    eapply (queue_decreases s i _ (Running x.1) _ _ _ _ _ true Hi); cbn; try done; lia.
  - destruct xs as [|x xs]; [by rewrite (pull_empty _ _ Hq) in Hp|].
    destruct (pull_cons _ _ _ _ Hq) as (q1 & Hp1 & Hq1 & _). rewrite Hp1 in Hp. injection Hp as <- Hne <-.
    pose proof (q_len _ _ _ Hq1) as Hl1. simpl in Hl.
    eapply (queue_decreases s i _ (Running x.1) _ _ _ _ _ true Hi); [cbn; lia|apply woken_refl|cbn; lia|lia|done].
  - destruct xs as [|x xs]; [|by destruct (pull_cons _ _ _ _ Hq) as (q1 & Hp1 & _); rewrite Hp1 in Hp].
    rewrite (pull_empty _ _ Hq) in Hp. injection Hp as _ <-.
    apply (queue_decreases s i _ Finishing (queue s) (<[i := Finishing]> (threads s)) (added s) (started s) (finished s) false Hi); [cbn; lia|apply woken_refl|done|lia|done].
  - unfold free_job in Hf. destruct (jobs (queue s) !! l) as [j|] eqn:Hj; [|done]. injection Hf as <-.
    eapply (queue_decreases s i _ Finishing _ (<[i := Finishing]> (threads s)) _ _ _ false Hi); [cbn; lia|apply woken_refl|done|cbn; lia|done].
Qed.

(** ** Progress *)
Lemma pull_enabled s xs rc i : inv s xs rc → threads s !! i = Some Pulling → ∃ s', work_step s s'.
Proof.
  intros Hinv Hi. pose proof (inv_queue _ _ _ Hinv) as Hq. destruct xs as [|x xs].
  - eexists. eapply step_pull_none; [done|]. by eapply pull_empty.
  - destruct (pull_cons _ _ _ _ Hq) as (q1 & Hp & Hq1 & _).
    assert (job_work <$> jobs q1 !! x.1 = Some x.2) as Hw.
    { rewrite (heap_lookup _ _ x.1 _ (q_heap _ _ _ Hq1)) by (rewrite elem_of_app; right; by left). done. }
    destruct (bool_decide (xs ≠ [])).
    + eexists. eapply step_pull; [done|done|done|apply broadcast_signal].
    + eexists. by eapply step_pull_last.
Qed.
Lemma run_enabled s xs rc i l : inv s xs rc → threads s !! i = Some (Running l) → ∃ s', work_step s s'.
Proof.
  intros Hinv Hi. pose proof (inv_queue _ _ _ Hinv) as Hq.
  assert (l ∈ rc.*1) as Hl.
  { rewrite (inv_running _ _ _ Hinv). pose proof (runs_insert (threads s) i _ Asleep Hi) as Hr. cbn in Hr.
    rewrite <-Hr. by left. }
  apply list_elem_of_fmap_1 in Hl as ([l' j] & -> & Hin). cbn in *.
  apply elem_of_Permutation in Hin as [rc' Hrc]. destruct (free_job_ok _ _ _ _ _ _ Hq Hrc) as (q1 & Hf & _).
  eexists. eapply step_run; [done| |exact Hf].
  rewrite (heap_lookup _ _ l' j (q_heap _ _ _ Hq)); [done|]. rewrite Hrc, elem_of_app. right. by left.
Qed.
Lemma stuck_asleep s xs rc i x :
  inv s xs rc → (∀ s', ¬ work_step s s') → threads s !! i = Some x → x = Asleep ∨ x = Exited.
Proof.
  intros Hinv Hst Hi. assert (thread_local i s = None) as Hn.
  { destruct (thread_local i s) eqn:Hl; [|done]. by destruct (Hst _ (step_local _ _ _ Hl)). }
  unfold thread_local in Hn. rewrite Hi in Hn. destruct x; try done; auto.
  - by case_bool_decide.
  - by destruct (pull_enabled _ _ _ _ Hinv Hi) as [s' ?%Hst].
  - by destruct (run_enabled _ _ _ _ _ Hinv Hi) as [s' ?%Hst].
Qed.
Lemma stuck_rest s xs rc :
  inv s xs rc → threads_keepalive s = true → (∀ s', ¬ work_step s s') →
  xs = [] ∧ num_threads_working s = 0%Z ∧ ∀ i x, threads s !! i = Some x → x = Asleep.
Proof.
  intros Hinv Hk Hst. assert (∀ i x, threads s !! i = Some x → x = Asleep) as Ha.
  { intros i x Hi. destruct (stuck_asleep _ _ _ _ _ Hinv Hst Hi) as [-> | ->]; [done|].
    by pose proof (inv_staying _ _ _ Hinv Hk _ _ Hi). }
  assert (∀ P, P Asleep = false → ¬ has P (threads s)) as Hno.
  { intros P HP (i & x & Hi & Hx)%has_inv. rewrite (Ha _ _ Hi) in Hx. congruence. }
  split; [|split]; [|..|done].
  - destruct xs as [|x xs]; [done|]. destruct (inv_served _ _ _ Hinv Hk ltac:(done)) as [Hv|Hp].
    + by pose proof (inv_posted _ _ _ Hinv Hk Hv) as ?%Hno.
    + by apply Hno in Hp.
  - rewrite (inv_working _ _ _ Hinv). destruct (decide (cnt occupied (threads s) = 0)) as [->|Hc]; [done|].
    by apply cnt_has, Hno in Hc.
Qed.

(** ** Schedules

    A schedule is a list of moves; playing it gives a reachable state. *)
Inductive move :=
| Local (i : nat) | Take (i : nat) | Run (i : nat)
| Started | Add (w : J) | Wait | Sleep | Return | Destroy | PostAll | Gone.
Definition guard_move (b : bool) s : option (pool J) := if b then Some s else None.
Definition play_move (m : move) s : option (pool J) :=
  match m with
  | Local i => thread_local i s
  | Take i =>
      match threads s !! i, jobqueue_pull (queue s) with
      | Some Pulling, Ret ((None, _), q') => Some (with_threads (<[i := Finishing]> (threads s)) (with_queue q' s))
      | Some Pulling, Ret ((Some l, b), q') =>
          let ts := <[i := Running l]> (threads s) in
          w ← job_work <$> jobs q' !! l;
          Some (with_logs (added s) (started s ++ [w]) (finished s)
            (with_threads (if b then broadcast ts else ts) (with_queue q' s)))
      | _, _ => None
      end
  | Run i =>
      match threads s !! i with
      | Some (Running l) =>
          match job_work <$> jobs (queue s) !! l, free_job l (queue s) with
          | Some w, Ret (_, q') =>
              Some (with_logs (added s) (started s) (finished s ++ [w])
                (with_threads (<[i := Finishing]> (threads s)) (with_queue q' s)))
          | _, _ => None
          end
      | _ => None
      end
  | Started =>
      match client s with
      | Starting => guard_move (bool_decide (num_threads_alive s = Z.of_nat (length (threads s))))
                      (with_client Idle (threads_keepalive s) s)
      | _ => None
      end
  | Add w =>
      match client s, add_job w (queue s) with
      | Idle, Ret (_, q') => Some (with_logs (added s ++ [w]) (started s) (finished s)
                                     (with_threads (broadcast (threads s)) (with_queue q' s)))
      | _, _ => None
      end
  | Wait => match client s with Idle => Some (with_client WaitTest (threads_keepalive s) s) | _ => None end
  | Sleep =>
      match client s with
      | WaitTest => guard_move (bool_decide (len (queue s) ≠ 0%Z ∨ num_threads_working s ≠ 0%Z))
                      (with_client WaitAsleep (threads_keepalive s) s)
      | _ => None
      end
  | Return =>
      match client s with
      | WaitTest => guard_move (bool_decide (len (queue s) = 0%Z ∧ num_threads_working s = 0%Z))
                      (with_client Idle (threads_keepalive s) s)
      | _ => None
      end
  | Destroy => match client s with Idle => Some (with_client Destroying false s) | _ => None end
  | PostAll =>
      match client s with
      | Destroying => guard_move (bool_decide (num_threads_alive s ≠ 0%Z))
                        (with_threads (broadcast (threads s)) (with_queue (bsem_post_all (queue s)) s))
      | _ => None
      end
  | Gone =>
      match client s, jobqueue_destroy (queue s) with
      | Destroying, Ret (_, q') => guard_move (bool_decide (num_threads_alive s = 0%Z))
                                     (with_client Destroyed (threads_keepalive s) (with_queue q' s))
      | _, _ => None
      end
  end.
Fixpoint play (ms : list move) s : option (pool J) :=
  match ms with
  | [] => Some s
  | m :: ms => s' ← play_move m s; play ms s'
  end.

Lemma guard_move_spec b s s' : guard_move b s = Some s' → b = true ∧ s = s'.
Proof. destruct b; [|done]. by intros [= ->]. Qed.

Lemma take_sound i s s' : play_move (Take i) s = Some s' → work_step s s'.
Proof.
  cbn. destruct (threads s !! i) as [[]|] eqn:Hi; try done.
  destruct (jobqueue_pull (queue s)) as [[[[l|] b] q']|] eqn:Hp; try done; [|intros [= <-]; by eapply step_pull_none].
  destruct (job_work <$> jobs q' !! l) as [w|] eqn:Hw; [|done]. intros [= <-].
  destruct b; [eapply step_pull; eauto using broadcast_signal|by eapply step_pull_last].
Qed.
Lemma run_sound i s s' : play_move (Run i) s = Some s' → work_step s s'.
Proof.
  cbn. destruct (threads s !! i) as [[]|] eqn:Hi; try done.
  destruct (job_work <$> _) as [w|] eqn:Hw; [|done]. destruct (free_job l (queue s)) as [[[] q']|] eqn:Hf; [|done].
  intros [= <-]. by eapply step_run.
Qed.
Lemma play_move_sound m s s' : play_move m s = Some s' → step s s'.
Proof.
  intros Hm. destruct m as [i|i|i| |w| | | | | |];
    [left; by eapply step_local|left; by eapply take_sound|left; by eapply run_sound|..]; right; cbn in Hm;
    destruct (client s) eqn:Hc; try done.
  - apply guard_move_spec in Hm as [?%bool_decide_eq_true <-]. by apply step_started.
  - destruct (add_job w (queue s)) as [[[] q']|] eqn:Ha; [|done]. injection Hm as <-.
    eapply step_add; eauto using broadcast_signal.
  - injection Hm as <-. by apply step_wait.
  - apply guard_move_spec in Hm as [?%bool_decide_eq_true <-]. by apply step_wait_sleep.
  - apply guard_move_spec in Hm as [[]%bool_decide_eq_true <-]. by apply step_wait_return.
  - injection Hm as <-. by apply step_destroy.
  - apply guard_move_spec in Hm as [?%bool_decide_eq_true <-]. by apply step_post_all.
  - destruct (jobqueue_destroy (queue s)) as [[[] q']|] eqn:Hd; [|done].
    apply guard_move_spec in Hm as [?%bool_decide_eq_true <-]. by eapply step_destroyed.
Qed.
Lemma play_sound n ms s s' : reachable n s → play ms s = Some s' → reachable n s'.
Proof.
  revert s. induction ms as [|m ms IH]; intros s Hs Hp; cbn in Hp; [by simplify_eq|].
  apply bind_Some in Hp as (s1 & Hm & Hp). apply (IH s1); [|done]. eapply reach_step; [done|]. by apply (play_move_sound m).
Qed.
Definition played n ms : pool J := default (thpool_init n) (play ms (thpool_init n)).
Lemma played_reachable n ms : reachable n (played n ms).
Proof.
  unfold played. destruct (play ms (thpool_init n)) eqn:Hp; cbn; [|constructor].
  eapply play_sound; [constructor|done].
Qed.

(** ** Properties *)

(** C13: jobs start once and in the order they were added: what was added is
    what has started followed by what waits in the queue, the length of the
    queue is the number of waiting jobs, and the jobs that have started are
    those that have finished and one for each worker inside a job.  The queue
    and the counters of the pool never fault or drift. *)
Theorem pool_fifo n s :
  reachable n s → client s ≠ Destroyed →
  ∃ waiting in_progress,
    added s = started s ++ waiting ∧ len (queue s) = Z.of_nat (length waiting)
    ∧ started s ≡ₚ finished s ++ in_progress ∧ length in_progress = length (runs (threads s))
    ∧ num_threads_working s = Z.of_nat (cnt occupied (threads s))
    ∧ num_threads_alive s = Z.of_nat (cnt alive (threads s)).
Proof.
  intros (xs & rc & Hinv)%reachable_inv Hc. exists xs.*2, (job_work ∘ snd <$> rc).
  rewrite !length_fmap, <-(inv_running _ _ _ Hinv), length_fmap.
  pose proof (q_len _ _ _ (inv_queue _ _ _ Hinv)) as Hl. split_and!; try done; by apply Hinv.
Qed.

(** C32: thpool_wait returns only when every job that was added has finished. *)
Theorem thpool_wait_done n s s' :
  reachable n s → client s = WaitTest → client_step s s' → client s' = Idle →
  finished s' ≡ₚ added s' ∧ started s' = added s'.
Proof.
  intros (xs & rc & Hinv)%reachable_inv Hc Hs Hc'. assert (client s ≠ Destroyed) as Hnd by congruence.
  destruct Hs; try congruence; cbn in *; try congruence.
  split; [by eapply inv_all_done|]. rewrite (inv_added _ _ _ Hinv Hnd).
  rewrite (q_len _ _ _ (inv_queue _ _ _ Hinv)) in *. destruct xs; [by rewrite app_nil_r|done].
Qed.

(** C33: the workers come to rest by themselves: between two actions of the
    client they take at most [8 T + (T + 7) L + 7] steps, for [T] threads and
    [L] waiting jobs. *)
Theorem workers_terminate n s s' k :
  reachable n s → nsteps work_step k s s' →
  k ≤ 8 * length (threads s) + (length (threads s) + 7) * Z.to_nat (len (queue s)) + 7.
Proof.
  intros (xs & rc & Hinv)%reachable_inv Hk. enough (k ≤ measure s).
  { unfold measure in *. pose proof (ranks_bound (threads s)). pose proof (posted_bound s). lia. }
  revert xs rc Hinv. induction Hk as [|k s s1 s' Hs _ IH]; intros; [lia|].
  pose proof (work_decreases _ _ _ _ Hinv Hs). destruct (inv_work _ _ _ _ Hinv Hs) as (xs1 & rc1 & Hinv1).
  specialize (IH _ _ Hinv1). lia.
Qed.

(** C34: no job is left behind and no wake-up is lost: while the pool is alive,
    when no worker can take a step every job added has finished, every worker
    sleeps at the semaphore, and the client is not asleep in thpool_wait. *)
Theorem workers_finish n s :
  reachable n s → threads_keepalive s = true → (∀ s', ¬ work_step s s') →
  finished s ≡ₚ added s ∧ (∀ i x, threads s !! i = Some x → x = Asleep) ∧ client s ≠ WaitAsleep.
Proof.
  intros (xs & rc & Hinv)%reachable_inv Hk Hst. destruct (stuck_rest _ _ _ Hinv Hk Hst) as (-> & Hw & Ha).
  assert (client s ≠ Destroyed) as Hnd.
  { intros Hc. pose proof (proj2 (inv_keep _ _ _ Hinv) (or_intror Hc)). congruence. }
  split_and!; [eapply inv_all_done; eauto; apply (q_len _ _ _ (inv_queue _ _ _ Hinv))|done|].
  intros Hc. by destruct (inv_asleep _ _ _ Hinv Hc).
Qed.

(** Thpool_destroy returns with every job freed and no worker inside a
    job; the jobs that had started have all finished, the others are dropped. *)
Theorem thpool_destroy_frees n s s' :
  reachable n s → client_step s s' → client s = Destroying → client s' = Destroyed →
  jobs (queue s') = ∅ ∧ finished s' ≡ₚ started s' ∧ runs (threads s') = [] ∧ started s' `prefix_of` added s'.
Proof.
  intros Hr Hs Hc Hc'. destruct (reachable_inv _ _ (reach_step _ _ _ Hr (or_intror Hs))) as (xs' & rc' & Hinv').
  apply reachable_inv in Hr as (xs & rc & Hinv).
  destruct Hs as [s ? Ha|s w q' ts' ? Hadd Hsig|s ?|s ? Hb|s ? H1 H2|s ?|s ? Ha|s q' ? Ha Hd|s i Hi|s ?]; try congruence;
    cbn in *; try congruence.
  assert (runs (threads s) = []) as Hrn.
  { apply runs_none. intros i x Hi. rewrite (inv_alive _ _ _ Hinv) in Ha. 
    assert (cnt alive (threads s) = 0) as H0 by lia. pose proof (cnt_zero _ _ _ _ H0 Hi). by destruct x. }
  assert (rc = []) as -> by (apply nil_length_inv; by rewrite <-(length_fmap fst), (inv_running _ _ _ Hinv), Hrn).
  destruct (queue_destroy_ok _ _ _ (inv_queue _ _ _ Hinv)) as (q1 & Hd1 & [[_ Hh] _ _ _ _]). rewrite Hd1 in Hd. injection Hd as <-.
  split_and!; [done| |done|].
  - rewrite (inv_started _ _ _ Hinv). cbn. by rewrite app_nil_r.
  - rewrite (inv_added _ _ _ Hinv) by congruence. by exists xs.*2.
Qed.
End Theorems.
Arguments move : clear implicits.

(** ** Witnesses *)

(** One worker serves two jobs. *)
Definition serve : list (move Z) := [Local 0; Local 0; Local 0; Local 0; Take 0; Run 0; Local 0].
Definition two_jobs : list (move Z) :=
  [Local 0; Started; Add 7%Z; Add 8%Z; Wait; Sleep] ++ serve ++ serve ++ [Local 0; Local 0].

Lemma pool_fifo_witness :
  reachable 1 (played 1 ([Local 0; Started; Add 7%Z; Add 8%Z; Add 9%Z] ++ [Local 0; Local 0; Local 0; Local 0; Take 0]))
  ∧ ∃ waiting in_progress,
      [7; 8; 9]%Z = [7]%Z ++ waiting ∧ 2%Z = Z.of_nat (length waiting)
      ∧ [7]%Z ≡ₚ [] ++ in_progress ∧ length in_progress = 1 ∧ (1 = Z.of_nat 1)%Z ∧ (1 = Z.of_nat 1)%Z.
Proof.
  assert (Hr := played_reachable 1 ([Local 0; Started; Add 7%Z; Add 8%Z; Add 9%Z] ++ [Local 0; Local 0; Local 0; Local 0; Take 0])).
  split; [exact Hr|]. refine (pool_fifo 1 _ Hr _). vm_compute. discriminate.
Defined.

Lemma thpool_wait_done_witness :
  let s := played 1 two_jobs in
  reachable 1 s ∧ client s = WaitTest ∧ finished s ≡ₚ [7; 8]%Z.
Proof.
  intros s. assert (Hr := played_reachable 1 two_jobs). split; [exact Hr|]. split; [vm_compute; reflexivity|].
  refine (proj1 (thpool_wait_done 1 s _ Hr _ (step_wait_return s _ _ _) _)); vm_compute; reflexivity.
Defined.

Lemma workers_terminate_witness :
  let s := played 1 [Local 0; Started; Add 7%Z] in
  reachable 1 s ∧ nsteps work_step 1 s (played 1 [Local 0; Started; Add 7%Z; Local 0]) ∧ 1 ≤ 23.
Proof.
  intros s. assert (Hr := played_reachable 1 [Local 0; Started; Add 7%Z]).
  assert (nsteps work_step 1 s (played 1 [Local 0; Started; Add 7%Z; Local 0])) as Hn.
  { eapply nsteps_l; [|apply nsteps_O]. apply (step_local 0). vm_compute. reflexivity. }
  split; [exact Hr|]. split; [exact Hn|]. exact (workers_terminate 1 s _ 1 Hr Hn).
Defined.

Lemma stuck_two_jobs s' : ¬ work_step (played 1 two_jobs) s'.
Proof.
  intros Hs. remember (played 1 two_jobs) as s eqn:He.
  assert (threads s = [Asleep]) as Ht by (rewrite He; vm_compute; reflexivity).
  destruct Hs as [[|[]] s s' Hs|[|[]] s ?|[|[]] s|[|[]] s|[|[]] s]; unfold thread_local in *; rewrite Ht in *; done.
Qed.
Lemma workers_finish_witness :
  let s := played 1 two_jobs in
  reachable 1 s ∧ threads_keepalive s = true ∧ (∀ s', ¬ work_step s s') ∧ finished s ≡ₚ [7; 8]%Z.
Proof.
  intros s. assert (Hr := played_reachable 1 two_jobs). assert (threads_keepalive s = true) as Hk by (vm_compute; reflexivity).
  split; [exact Hr|]. split; [exact Hk|]. split; [exact stuck_two_jobs|].
  exact (proj1 (workers_finish 1 s Hr Hk stuck_two_jobs)).
Defined.

Definition destroy_early : list (move Z) :=
  [Local 0; Started; Add 7%Z; Add 8%Z; Local 0; Local 0; Local 0; Local 0; Take 0; Destroy; Run 0; Local 0; Local 0; Local 0].
Lemma thpool_destroy_frees_witness :
  let s := played 1 destroy_early in
  ∃ s', client_step s s' ∧ client s' = Destroyed ∧ jobs (queue s') = ∅ ∧ finished s' ≡ₚ [7%Z].
Proof.
  intros s. assert (Hr := played_reachable 1 destroy_early).
  assert (∃ q', jobqueue_destroy (queue s) = Ret (tt, q')) as [q' Hd] by (vm_compute; eexists; reflexivity).
  assert (Hs := step_destroyed s q' ltac:(vm_compute; reflexivity) ltac:(vm_compute; reflexivity) Hd).
  eexists. split; [exact Hs|]. split; [reflexivity|].
  destruct (thpool_destroy_frees 1 s _ Hr Hs ltac:(vm_compute; reflexivity) eq_refl) as (H1 & H2 & _). split; [exact H1|exact H2].
Defined.
