(* ===== verification/SkipList.v ===== *)
(** * The skip list (index/libhl/skiplist.c)

    A skip list is a row of layers, each a TAILQ of wrappers; an item owns one
    wrapper per layer.  The model keeps the pointers of the TAILQ macros of
    bsd_queue.h as they are: a wrapper is named by its item and its index in
    the item's array, [tqe_prev] and [tqh_last] are addresses of [tqe_next] or
    [tqh_first] fields, and reading or writing a freed wrapper faults.  The
    comparator and the callback that frees values are arguments; [random] gives
    the result of the call of random() for a layer.  Allocation succeeds, and
    performance counters are left out. *)
From S2P Require Import Prelude Heap.

Definition wid : Type := loc * nat.

(** Where a [tqe_prev] or [tqh_last] points. *)
Inductive addr :=
| First (i : nat)   (* &layers[i].tqh_first *)
| Next (w : wid).   (* &w->next.tqe_next *)

#[export] Instance addr_eq_dec : EqDecision addr.
Proof. solve_decision. Defined.

Section SkipList.
Context {V : Type}.

Record skl_item := mk_item { key : list Z; value : V; layer_check : list bool }.
Record wrapper := mk_wrapper { tqe_next : option wid; tqe_prev : option addr }.
Record layer := mk_layer { tqh_first : option wid; tqh_last : addr }.
Record skiplist := mk_skl {
  num_layers : nat;
  probability : Z;
  layers : list layer;
  items : gmap loc skl_item;
  wrappers : gmap wid wrapper;
  count : Z;
  next_item : loc;
  freed : list V
}.
Definition set_layers ls (s : skiplist) :=
  mk_skl (num_layers s) (probability s) ls (items s) (wrappers s) (count s) (next_item s) (freed s).
Definition set_items h (s : skiplist) :=
  mk_skl (num_layers s) (probability s) (layers s) h (wrappers s) (count s) (next_item s) (freed s).
Definition set_wrappers h (s : skiplist) :=
  mk_skl (num_layers s) (probability s) (layers s) (items s) h (count s) (next_item s) (freed s).
Definition set_count n (s : skiplist) :=
  mk_skl (num_layers s) (probability s) (layers s) (items s) (wrappers s) n (next_item s) (freed s).
Definition set_freed l (s : skiplist) :=
  mk_skl (num_layers s) (probability s) (layers s) (items s) (wrappers s) (count s) (next_item s) l.

(** ** Memory *)
Definition ld_wrapper (w : wid) : st skiplist wrapper :=
  λ s, match wrappers s !! w with Some x => Ret (x, s) | None => Fault end.
Definition ld_item (l : loc) : st skiplist skl_item :=
  λ s, match items s !! l with Some x => Ret (x, s) | None => Fault end.
Definition ld_layer (i : nat) : st skiplist layer :=
  λ s, match layers s !! i with Some x => Ret (x, s) | None => Fault end.
Definition st_wrapper (w : wid) (f : wrapper → wrapper) : st skiplist unit :=
  x ← ld_wrapper w; st_modify (λ s, set_wrappers (<[w := f x]> (wrappers s)) s).
Definition st_item (l : loc) (f : skl_item → skl_item) : st skiplist unit :=
  x ← ld_item l; st_modify (λ s, set_items (<[l := f x]> (items s)) s).
Definition st_layer (i : nat) (f : layer → layer) : st skiplist unit :=
  x ← ld_layer i; st_modify (λ s, set_layers (<[i := f x]> (layers s)) s).

Definition set_next (n : option wid) (x : wrapper) := mk_wrapper n (tqe_prev x).
Definition set_prev (p : option addr) (x : wrapper) := mk_wrapper (tqe_next x) p.
Definition set_last (a : addr) (x : layer) := mk_layer (tqh_first x) a.

(** [*a = v]. *)
Definition store_at (a : option addr) (v : option wid) : st skiplist unit :=
  match a with
  | Some (First i) => st_layer i (λ x, mk_layer v (tqh_last x))
  | Some (Next w) => st_wrapper w (set_next v)
  | None => st_fault
  end.

(** ** The TAILQ macros *)
Definition TAILQ_FIRST (i : nat) : st skiplist (option wid) := h ← ld_layer i; mret (tqh_first h).
Definition TAILQ_NEXT (w : wid) : st skiplist (option wid) := x ← ld_wrapper w; mret (tqe_next x).

Definition TAILQ_INSERT_AFTER (i : nat) (listelm elm : wid) : st skiplist unit :=
  n ← TAILQ_NEXT listelm;
  _ ← st_wrapper elm (set_next n);
  _ ← match n with
      | Some n => st_wrapper n (set_prev (Some (Next elm)))
      | None => st_layer i (set_last (Next elm))
      end;
  _ ← st_wrapper listelm (set_next (Some elm));
  st_wrapper elm (set_prev (Some (Next listelm))).

Definition TAILQ_INSERT_TAIL (i : nat) (elm : wid) : st skiplist unit :=
  _ ← st_wrapper elm (set_next None);
  h ← ld_layer i;
  _ ← st_wrapper elm (set_prev (Some (tqh_last h)));
  _ ← store_at (Some (tqh_last h)) (Some elm);
  st_layer i (set_last (Next elm)).

Definition TAILQ_REMOVE (i : nat) (elm : wid) : st skiplist unit :=
  x ← ld_wrapper elm;
  _ ← match tqe_next x with
      | Some n => st_wrapper n (set_prev (tqe_prev x))
      | None => match tqe_prev x with Some p => st_layer i (set_last p) | None => st_fault end
      end;
  store_at (tqe_prev x) (tqe_next x).

(** ** Operations *)
Definition skiplist_create (n : nat) (prob : Z) : skiplist :=
  mk_skl n prob ((λ i, mk_layer None (First i)) <$> seq 0 n) ∅ ∅ 0 1 [].

Section Ops.
Context (cmp : list Z → list Z → Z) (free_value_cb : bool).

(** The inner loop of skiplist_search_internal. *)
Fixpoint search_layer (fuel : nat) (k : list Z) (item prev_item : option wid) : st skiplist (option wid) :=
  match item with
  | None => mret prev_item
  | Some w =>
      match fuel with
      | O => st_fault
      | S fuel =>
          x ← ld_wrapper w;
          d ← ld_item w.1;
          if bool_decide (cmp (key d) k > 0)%Z then mret prev_item
          else search_layer fuel k (tqe_next x) (Some w)
      end
  end.
(** Layers [i - 1] down to 0; [path] holds the entries of the layers above. *)
Fixpoint search_down (i : nat) (k : list Z) (prev_item : option wid) (path : list (option wid)) :
    st skiplist (option wid * list (option wid)) :=
  match i with
  | O => mret (prev_item, path)
  | S i =>
      item ← match prev_item with Some w => TAILQ_NEXT (w.1, i) | None => TAILQ_FIRST i end;
      s ← st_get;
      prev_item ← search_layer (size (wrappers s)) k item prev_item;
      search_down i k prev_item (prev_item :: path)
  end.
Definition skiplist_search_internal (k : list Z) : st skiplist (option loc * list (option wid)) :=
  s ← st_get;
  '(prev_item, path) ← search_down (num_layers s) k None [];
  mret (fst <$> prev_item, path).

Definition skiplist_search (k : list Z) : st skiplist (option V) :=
  '(prev_item, _) ← skiplist_search_internal k;
  match prev_item with
  | Some l => d ← ld_item l; mret (if bool_decide (cmp (key d) k = 0%Z) then Some (value d) else None)
  | None => mret None
  end.

(** The loops of skiplist_range_search; the calls of [cb] are returned. *)
Fixpoint range_layer (fuel : nat) (i : nat) (b e : list Z) (item prev_item : option wid) (calls : list (list Z * V)) :
    st skiplist (option wid * list (list Z * V)) :=
  match item with
  | None => mret (prev_item, calls)
  | Some w =>
      match fuel with
      | O => st_fault
      | S fuel =>
          x ← ld_wrapper w;
          d ← ld_item w.1;
          if bool_decide (0 < i) && bool_decide (cmp (key d) b >= 0)%Z then mret (prev_item, calls)
          else
            let calls :=
              if bool_decide (i = 0) && bool_decide (cmp (key d) b >= 0)%Z && bool_decide (cmp (key d) e < 0)%Z
              then calls ++ [(key d, value d)] else calls in
            range_layer fuel i b e (tqe_next x) (Some w) calls
      end
  end.
Fixpoint range_down (i : nat) (b e : list Z) (prev_item : option wid) (calls : list (list Z * V)) :
    st skiplist (list (list Z * V)) :=
  match i with
  | O => mret calls
  | S i =>
      item ← match prev_item with Some w => TAILQ_NEXT (w.1, i) | None => TAILQ_FIRST i end;
      s ← st_get;
      '(prev_item, calls) ← range_layer (size (wrappers s)) i b e item prev_item calls;
      range_down i b e prev_item calls
  end.
Definition skiplist_range_search (b e : list Z) : st skiplist (list (list Z * V)) :=
  if bool_decide (cmp b e >= 0)%Z then mret []
  else s ← st_get; range_down (num_layers s) b e None [].

Definition free_value (v : V) : st skiplist unit :=
  if free_value_cb then st_modify (λ s, set_freed (freed s ++ [v]) s) else mret tt.

(** The new item with its zeroed wrappers. *)
Definition new_wrappers (l : loc) (n : nat) : gmap wid wrapper :=
  list_to_map ((λ i, ((l, i), mk_wrapper None None)) <$> seq 0 n).
Definition new_item (k : list Z) (v : V) : st skiplist loc :=
  λ s, let l := next_item s in
       Ret (l, mk_skl (num_layers s) (probability s) (layers s)
                 (<[l := mk_item k v (replicate (num_layers s) false)]> (items s))
                 (new_wrappers l (num_layers s) ∪ wrappers s) (count s) (Pos.succ l) (freed s)).
Definition check_layer (l : loc) (i : nat) : st skiplist unit :=
  st_item l (λ d, mk_item (key d) (value d) (<[i := true]> (layer_check d))).

(** The loop over the upper layers, [n] of them from [i] on. *)
Fixpoint insert_up (random : nat → Z) (l : loc) (path : list (option wid)) (n i : nat) (coin : bool) :
    st skiplist unit :=
  match n with
  | O => mret tt
  | S n =>
      s ← st_get;
      let coin := if coin then bool_decide (random i `mod` 100 > probability s)%Z else false in
      _ ← (if coin then
             _ ← match path !! i with
                 | Some (Some p) => TAILQ_INSERT_AFTER i p (l, i)
                 | _ => TAILQ_INSERT_TAIL i (l, i)
                 end;
             check_layer l i
           else mret tt);
      insert_up random l path n (S i) coin
  end.

(** The part of skiplist_insert that makes a new item behind [prev_item]. *)
Definition insert_new (random : nat → Z) (k : list Z) (v : V) (prev_item : option loc) (path : list (option wid)) :
    st skiplist Z :=
  l ← new_item k v;
  _ ← match prev_item with
      | Some p => TAILQ_INSERT_AFTER 0 (p, 0) (l, 0)
      | None => TAILQ_INSERT_TAIL 0 (l, 0)
      end;
  _ ← check_layer l 0;
  s ← st_get;
  _ ← insert_up random l path (num_layers s - 1) 1 true;
  _ ← st_modify (λ s, set_count (count s + 1) s);
  mret 0%Z.

Definition skiplist_insert (random : nat → Z) (k : list Z) (v : V) : st skiplist Z :=
  '(prev_item, path) ← skiplist_search_internal k;
  match prev_item with
  | Some l =>
      d ← ld_item l;
      if bool_decide (cmp (key d) k = 0%Z) then
        _ ← free_value (value d);
        _ ← st_item l (λ d, mk_item (key d) v (layer_check d));
        mret 1%Z
      else insert_new random k v prev_item path
  | None => insert_new random k v prev_item path
  end.

(** The loop of skiplist_remove_internal over the layers. *)
Fixpoint unlink (l : loc) (checks : list bool) (i : nat) : st skiplist unit :=
  match checks with
  | [] => mret tt
  | c :: checks => _ ← (if c then TAILQ_REMOVE i (l, i) else mret tt); unlink l checks (S i)
  end.
Definition free_item (l : loc) : st skiplist unit :=
  st_modify (λ s, set_items (delete l (items s)) (set_wrappers (filter (λ p, p.1.1 ≠ l) (wrappers s)) s)).
(** [keep]: the caller passed a place for the value. *)
Definition skiplist_remove_internal (l : loc) (keep : bool) : st skiplist (option V) :=
  d ← ld_item l;
  _ ← (if keep then mret tt else free_value (value d));
  _ ← unlink l (layer_check d) 0;
  _ ← free_item l;
  mret (if keep then Some (value d) else None).

Definition skiplist_remove (k : list Z) (keep : bool) : st skiplist (Z * option V) :=
  '(prev_item, _) ← skiplist_search_internal k;
  match prev_item with
  | Some l =>
      d ← ld_item l;
      if bool_decide (cmp (key d) k = 0%Z) then
        v ← skiplist_remove_internal l keep;
        _ ← st_modify (λ s, set_count (count s - 1) s);
        mret (0%Z, v)
      else mret ((-1)%Z, None)
  | None => mret ((-1)%Z, None)
  end.

Fixpoint destroy_loop (fuel : nat) (item : option wid) : st skiplist unit :=
  match item with
  | None => mret tt
  | Some w =>
      match fuel with
      | O => st_fault
      | S fuel =>
          next ← TAILQ_NEXT w;
          _ ← skiplist_remove_internal w.1 false;
          destroy_loop fuel next
      end
  end.
Definition skiplist_destroy : st skiplist unit :=
  item ← TAILQ_FIRST 0;
  s ← st_get;
  destroy_loop (size (items s)) item.

Definition skiplist_count : st skiplist Z := s ← st_get; mret (count s).
End Ops.
End SkipList.
Arguments skl_item : clear implicits.
Arguments skiplist : clear implicits.
