(* ===== verification/SkipListRep.v ===== *)
(** * The skip list: what its pointers represent

    Layer 0 is a well-formed list that holds every item.  The upper layers are
    weaker: insertion links wrappers of one layer into the chain of another and
    leaves [tqh_last] behind, so that all that is kept is that their chains end
    and stay among live wrappers of upper layers. *)
From S2P Require Import Prelude Heap SkipList.

Section Views.
Context {V : Type}.
Implicit Types (s : skiplist V) (w : wid).

Definition nx s w : option wid := wrappers s !! w ≫= tqe_next.
Definition live s w : Prop := is_Some (wrappers s !! w).
Definition first_at s i : option (option wid) := tqh_first <$> layers s !! i.
Definition last_at s i : option addr := tqh_last <$> layers s !! i.
Definition kv (d : skl_item V) : list Z * V := (key d, value d).

(** What linking leaves alone. *)
Record frame s s' : Prop := {
  fr_num : num_layers s' = num_layers s;
  fr_prob : probability s' = probability s;
  fr_len : length (layers s') = length (layers s);
  fr_items : kv <$> items s' = kv <$> items s;
  fr_live w : live s' w ↔ live s w;
  fr_size : size (wrappers s') = size (wrappers s);
  fr_count : count s' = count s;
  fr_fresh : next_item s' = next_item s;
  fr_freed : freed s' = freed s
}.
#[export] Instance frame_preorder : PreOrder frame.
Proof.
  split; [by intros s|]. intros s1 s2 s3 H1 H2. split; try (etrans; [apply H2|apply H1]).
Qed.

Lemma wp_ld_wrapper w (Q : wrapper → skiplist V → Prop) s :
  live s w → (∀ x, nx s w = tqe_next x → wrappers s !! w = Some x → Q x s) → wp (ld_wrapper w) Q s.
Proof.
  intros [x Hx] HQ. unfold wp, ld_wrapper. rewrite Hx. apply HQ; [|done]. unfold nx. by rewrite Hx.
Qed.
Lemma wp_next w (Q : option wid → skiplist V → Prop) s : live s w → Q (nx s w) s → wp (TAILQ_NEXT w) Q s.
Proof.
  intros Hl HQ. unfold TAILQ_NEXT. apply wp_bind, wp_ld_wrapper; [done|]. intros x Hx _. apply wp_ret. by rewrite <-Hx.
Qed.
Lemma wp_first i f (Q : option wid → skiplist V → Prop) s : first_at s i = Some f → Q f s → wp (TAILQ_FIRST i) Q s.
Proof.
  intros Hf HQ. unfold first_at in Hf. unfold wp, TAILQ_FIRST, mbind, st_bind, ld_layer.
  destruct (layers s !! i); [|done]. by injection Hf as <-.
Qed.

Lemma wp_st_wrapper w f (Q : unit → skiplist V → Prop) s :
  live s w →
  (∀ s' x, frame s s' → layers s' = layers s → wrappers s !! w = Some x →
     (∀ v, nx s' v = if decide (v = w) then tqe_next (f x) else nx s v) → Q tt s') →
  wp (st_wrapper w f) Q s.
Proof.
  intros [x Hx] HQ. unfold wp, st_wrapper, mbind, st_bind, ld_wrapper. rewrite Hx. apply (HQ _ x); try done.
  - split; try done; cbn.
    + intros v. unfold live. cbn. rewrite lookup_insert_is_Some'. split; [|by right]. intros [->|?]; eauto.
    + rewrite <-!(size_dom (D := gset wid)), dom_insert_L. f_equal. assert (w ∈ dom (wrappers s)) by (by apply elem_of_dom). set_solver.
  - intros v. unfold nx. cbn. case_decide as Hv; [subst; by rewrite lookup_insert_eq|by rewrite lookup_insert_ne].
Qed.
Lemma wp_set_next w n (Q : unit → skiplist V → Prop) s :
  live s w →
  (∀ s', frame s s' → layers s' = layers s → (∀ v, nx s' v = if decide (v = w) then n else nx s v) → Q tt s') →
  wp (st_wrapper w (set_next n)) Q s.
Proof. intros Hl HQ. apply wp_st_wrapper; [done|]. intros s' x Hf Hls _ Hn. by apply HQ. Qed.
Lemma wp_set_prev w p (Q : unit → skiplist V → Prop) s :
  live s w → (∀ s', frame s s' → layers s' = layers s → (∀ v, nx s' v = nx s v) → Q tt s') →
  wp (st_wrapper w (set_prev p)) Q s.
Proof.
  intros Hl HQ. apply wp_st_wrapper; [done|]. intros s' x Hf Hls Hx Hn. apply HQ; try done.
  intros v. rewrite Hn. case_decide; [subst|done]. unfold nx. by rewrite Hx.
Qed.
Lemma wp_st_layer i f (Q : unit → skiplist V → Prop) s :
  i < length (layers s) →
  (∀ s' h, frame s s' → nx s' = nx s → layers s !! i = Some h → layers s' = <[i := f h]> (layers s) → Q tt s') →
  wp (st_layer i f) Q s.
Proof.
  intros [h Hh]%lookup_lt_is_Some_2 HQ. unfold wp, st_layer, mbind, st_bind, ld_layer. rewrite Hh. apply (HQ _ h); try done.
  split; try done. cbn. by rewrite length_insert.
Qed.

Lemma lookup_layers s s' i h h' (j : nat) {A} (g : layer → A) :
  layers s !! i = Some h → layers s' = <[i := h']> (layers s) →
  g <$> layers s' !! j = if decide (j = i) then Some (g h') else g <$> layers s !! j.
Proof.
  intros Hh ->. case_decide as Hj; [subst|by rewrite list_lookup_insert_ne].
  rewrite list_lookup_insert_eq; [done|]. by eapply lookup_lt_Some.
Qed.

(** ** The macros, on these views *)
Lemma wp_insert_after i p e (Q : unit → skiplist V → Prop) s :
  live s p → live s e → p ≠ e → i < length (layers s) → (∀ n, nx s p = Some n → live s n) →
  (∀ s', frame s s' →
     (∀ v, nx s' v = if decide (v = p) then Some e else if decide (v = e) then nx s p else nx s v) →
     (∀ j, first_at s' j = first_at s j) →
     (∀ j, last_at s' j = if decide (j = i ∧ nx s p = None) then Some (Next e) else last_at s j) → Q tt s') →
  wp (TAILQ_INSERT_AFTER i p e) Q s.
Proof.
  intros Hp He Hpe Hi Hn HQ. unfold TAILQ_INSERT_AFTER.
  apply wp_bind, wp_next; [done|]. apply wp_bind, wp_set_next; [done|]. intros s1 F1 L1 N1.
  apply wp_bind.
  assert (∀ s2, frame s1 s2 → (∀ v, nx s2 v = nx s1 v) → (∀ j, first_at s2 j = first_at s j) →
    (∀ j, last_at s2 j = if decide (j = i ∧ nx s p = None) then Some (Next e) else last_at s j) →
    wp (_ ← st_wrapper p (set_next (Some e)); st_wrapper e (set_prev (Some (Next p)))) Q s2) as Hrest.
  { intros s2 F2 N2 A2 B2. apply wp_bind, wp_set_next; [by apply F2, F1|]. intros s3 F3 L3 N3.
    apply wp_set_prev; [by apply F3, F2, F1|]. intros s4 F4 L4 N4.
    assert (layers s4 = layers s2) as L24 by congruence.
    apply HQ.
    - by rewrite F1, F2, F3, F4.
    - intros v. rewrite N4, N3, N2, N1. by repeat case_decide.
    - intros j. unfold first_at. rewrite L24. apply A2.
    - intros j. unfold last_at. rewrite L24. apply B2. }
  destruct (nx s p) as [n|] eqn:Hnp.
  - apply wp_set_prev; [apply F1; auto|]. intros s2 F2 L2 N2. assert (layers s2 = layers s) as L by congruence.
    apply Hrest; [done|done|..]; intros j; unfold first_at, last_at; rewrite L; [done|].
    rewrite decide_False; [done|]. naive_solver.
  - apply wp_st_layer; [by rewrite L1|]. intros s2 h F2 N2 Hh L2. apply Hrest; [done|by intros v; rewrite N2|..].
    + intros j. unfold first_at. rewrite (lookup_layers _ _ _ _ _ j tqh_first Hh L2). case_decide as Hj; [subst|by rewrite L1].
      cbn. by rewrite L1 in Hh; rewrite Hh.
    + intros j. unfold last_at. rewrite (lookup_layers _ _ _ _ _ j tqh_last Hh L2).
      destruct (decide (j = i)); [by rewrite decide_True|]. rewrite decide_False by naive_solver. by rewrite L1.
Qed.

Lemma wp_insert_tail i e a (Q : unit → skiplist V → Prop) s :
  live s e → last_at s i = Some a → (∀ w, a = Next w → live s w ∧ w ≠ e) → (∀ j, a = First j → j < length (layers s)) →
  (∀ s', frame s s' →
     (∀ v, nx s' v = if decide (a = Next v) then Some e else if decide (v = e) then None else nx s v) →
     (∀ j, first_at s' j = if decide (a = First j) then Some (Some e) else first_at s j) →
     (∀ j, last_at s' j = if decide (j = i) then Some (Next e) else last_at s j) → Q tt s') →
  wp (TAILQ_INSERT_TAIL i e) Q s.
Proof.
  intros He Ha HaN HaF HQ. unfold TAILQ_INSERT_TAIL.
  apply wp_bind, wp_set_next; [done|]. intros s1 F1 L1 N1. apply wp_bind.
  unfold last_at in Ha. destruct (layers s !! i) as [h|] eqn:Hh; [|done]. injection Ha as Ha.
  assert (ld_layer i s1 = Ret (h, s1)) as Hld by (unfold ld_layer; by rewrite L1, Hh). unfold wp at 1. rewrite Hld. rewrite Ha.
  apply wp_bind, wp_set_prev; [by apply F1|]. intros s2 F2 L2 N2. apply wp_bind.
  assert (layers s2 = layers s) as L20 by congruence.
  assert (∀ s3, frame s2 s3 →
     (∀ v, nx s3 v = if decide (a = Next v) then Some e else if decide (v = e) then None else nx s v) →
     (∀ j, first_at s3 j = if decide (a = First j) then Some (Some e) else first_at s j) →
     (∀ j, last_at s3 j = last_at s j) → wp (st_layer i (set_last (Next e))) Q s3) as Hrest.
  { intros s3 F3 N3 A3 B3. apply wp_st_layer.
    { rewrite (fr_len _ _ F3), L20. by eapply lookup_lt_Some. }
    intros s4 h' F4 N4 Hh4 L4. apply HQ.
    - by rewrite F1, F2, F3, F4.
    - intros v. by rewrite N4.
    - intros j. rewrite <-A3. unfold first_at. rewrite (lookup_layers _ _ _ _ _ j tqh_first Hh4 L4).
      case_decide as Hj; [subst|done]. cbn. by rewrite Hh4.
    - intros j. rewrite <-B3. unfold last_at. by rewrite (lookup_layers _ _ _ _ _ j tqh_last Hh4 L4). }
  destruct a as [j|w]; cbn [store_at].
  - apply wp_st_layer; [rewrite L20; by apply HaF|]. intros s3 h' F3 N3 Hh3 L3. rewrite L20 in Hh3. apply Hrest; [done|..].
    + intros v. rewrite N3, N2, N1. by rewrite (decide_False (P := First j = Next v)).
    + intros j'. unfold first_at. rewrite <-L20 in Hh3. rewrite (lookup_layers _ _ _ _ _ j' tqh_first Hh3 L3), L20.
      destruct (decide (j' = j)) as [->|Hne]; [by rewrite decide_True|]. by rewrite decide_False by congruence.
    + intros j'. unfold last_at. rewrite <-L20 in Hh3. rewrite (lookup_layers _ _ _ _ _ j' tqh_last Hh3 L3), L20.
      case_decide as Hj; [subst j'|done]. cbn. by rewrite L20 in Hh3; rewrite Hh3.
  - destruct (HaN w eq_refl) as [Hw Hwe]. apply wp_set_next; [by apply F2, F1|]. intros s3 F3 L3 N3.
    assert (layers s3 = layers s) as L30 by congruence. apply Hrest; [done|..].
    + intros v. rewrite N3, N2, N1. destruct (decide (v = w)) as [->|Hne]; [by rewrite decide_True|].
      by rewrite (decide_False (P := Next w = Next v)) by congruence.
    + intros j. unfold first_at. rewrite L30. by rewrite decide_False by done.
    + intros j. unfold last_at. by rewrite L30.
Qed.
End Views.

(** ** Well-formed states, search and insertion *)
(** ** Chains of [tqe_next] pointers *)
Section Chain.
Implicit Types (f : wid → option wid) (w : wid).

Inductive chain f : wid → list wid → Prop :=
| chain_end w : f w = None → chain f w [w]
| chain_step w w' C : f w = Some w' → chain f w' C → chain f w (w :: C).
Definition term f w : Prop := ∃ C, chain f w C.

Lemma chain_det f w C C' : chain f w C → chain f w C' → C = C'.
Proof. intros H. revert C'. induction H; intros C' H'; inversion H'; subst; simplify_eq; [done|]. f_equal. auto. Qed.
Lemma chain_mem f w C v : chain f w C → v ∈ C → ∃ C', chain f v C' ∧ length C' ≤ length C.
Proof.
  induction 1 as [w Hw|w w' C Hw Hc IH]; intros Hv.
  - apply list_elem_of_singleton in Hv as ->. exists [w]. split; [by constructor|done].
  - apply elem_of_cons in Hv as [->|Hv]; [eexists; split; [by econstructor|done]|].
    destruct (IH Hv) as (C' & ? & ?). exists C'. split; [done|]. simpl. lia.
Qed.
Lemma chain_NoDup f w C : chain f w C → NoDup C.
Proof.
  induction 1 as [w Hw|w w' C Hw Hc IH]; [apply NoDup_singleton|]. constructor; [|done].
  intros Hin. destruct (chain_mem _ _ _ _ Hc Hin) as (C' & Hc' & Hlen).
  assert (w :: C = C') as <- by (eapply chain_det; [by econstructor|done]). simpl in Hlen. lia.
Qed.
Lemma term_step f w w' : f w = Some w' → term f w' → term f w.
Proof. intros Hw [C HC]. eexists. by econstructor. Qed.
Lemma term_end f w : f w = None → term f w.
Proof. intros Hw. eexists. by constructor. Qed.

(** Linking the unlinked [e] after [p]. *)
Lemma term_after f f' p e w :
  (∀ v, f' v = if decide (v = p) then Some e else if decide (v = e) then f p else f v) →
  p ≠ e → (∀ v, f v ≠ Some e) → term f p → term f w → term f' w.
Proof.
  intros Hf Hpe Hun [Cp HCp] [C HC].
  assert (∀ z D, z ≠ e → chain f z D → term f' z) as Hgen.
  { intros z D Hz HD. induction HD as [z Hn|z z' D Hn HD IH].
    - destruct (decide (z = p)) as [->|Hzp].
      + apply (term_step _ _ e); [by rewrite Hf, decide_True|]. apply term_end.
        by rewrite Hf, decide_False, decide_True.
      + apply term_end. by rewrite Hf, !decide_False.
    - assert (z' ≠ e) as Hz' by (intros ->; by eapply Hun). specialize (IH Hz'). destruct (decide (z = p)) as [->|Hzp].
      + apply (term_step _ _ e); [by rewrite Hf, decide_True|]. apply (term_step _ _ z'); [|done].
        by rewrite Hf, decide_False, decide_True.
      + apply (term_step _ _ z'); [|done]. by rewrite Hf, !decide_False. }
  destruct (decide (w = e)) as [->|Hw]; [|by eapply Hgen].
  destruct (f p) as [n|] eqn:Hp.
  - apply (term_step _ _ n); [by rewrite Hf, decide_False, decide_True|].
    inversion HCp; subst; simplify_eq. eapply Hgen; [|done]. intros ->. by eapply Hun.
  - apply term_end. by rewrite Hf, decide_False, decide_True.
Qed.
(** Making [e] the end of the chain of [a]. *)
Lemma term_tail f f' a e w :
  (∀ v, f' v = if decide (a = Next v) then Some e else if decide (v = e) then None else f v) →
  a ≠ Next e → term f w → term f' w.
Proof.
  intros Hf Hae [C HC].
  assert (term f' e) as He by (apply term_end; by rewrite Hf, decide_False, decide_True).
  induction HC as [z Hn|z z' D Hn HD IH]; (destruct (decide (z = e)) as [->|Hz]; [done|]);
    (destruct (decide (a = Next z)) as [->|Hza]; [apply (term_step _ _ e); [by rewrite Hf, decide_True|done]|]).
  - apply term_end. by rewrite Hf, !decide_False.
  - apply (term_step _ _ z'); [|done]. by rewrite Hf, !decide_False.
Qed.
End Chain.

Section Wf.
Context {V : Type}.
Implicit Types (s : skiplist V) (w : wid) (L : list (loc * (list Z * V))).

Definition link0 L : option wid := match L with [] => None | x :: _ => Some (x.1, 0) end.

(** [wf s L]: the items of [s] in the order of layer 0 are [L]. *)
Record wf s L : Prop := {
  wf_num : length (layers s) = num_layers s ∧ 0 < num_layers s;
  wf_items : heap_is (kv <$> items s) L;
  wf_live l i : live s (l, i) ↔ l ∈ L.*1 ∧ i < num_layers s;
  wf_first0 : first_at s 0 = Some (link0 L);
  wf_next0 L1 x L2 : L = L1 ++ x :: L2 → nx s (x.1, 0) = link0 L2;
  wf_last0 : last_at s 0 = Some (match last L with Some x => Next (x.1, 0) | None => First 0 end);
  wf_up w w' : 0 < w.2 → nx s w = Some w' → live s w' ∧ 0 < w'.2;
  wf_first i w : 0 < i → first_at s i = Some (Some w) → live s w ∧ 0 < w.2;
  wf_last i a : 0 < i → last_at s i = Some a → a = First i ∨ ∃ w, a = Next w ∧ live s w ∧ 0 < w.2;
  wf_term w : live s w → 0 < w.2 → term (nx s) w;
  wf_fresh l : (next_item s ≤ l)%positive → l ∉ L.*1
}.

Lemma wf_create n p : 0 < n → wf (skiplist_create n p) [].
Proof.
  intros Hn.
  assert (∀ i, i < n → layers (skiplist_create (V := V) n p) !! i = Some (mk_layer None (First i))) as Hl.
  { intros i Hi. cbn. rewrite list_lookup_fmap, lookup_seq_lt by done. done. }
  assert (∀ i (h : layer), layers (skiplist_create (V := V) n p) !! i = Some h → h = mk_layer None (First i)) as Hl'.
  { intros i h Hi. pose proof (lookup_lt_Some _ _ _ Hi) as Hlt. cbn in Hlt. rewrite length_fmap, length_seq in Hlt.
    rewrite Hl in Hi by done. congruence. }
  split; try done.
  - cbn. by rewrite length_fmap, length_seq.
  - split; [constructor|]. cbn. by rewrite fmap_empty.
  - intros l i. split; [intros [? ?]; done|]. intros [Hin _]. by apply not_elem_of_nil in Hin.
  - unfold first_at. by rewrite Hl.
  - intros [|] x L2 HL; done.
  - unfold last_at. by rewrite Hl.
  - intros i w _ Hf. unfold first_at in Hf. destruct (_ !! i) as [h|] eqn:Hi; [|done]. by rewrite (Hl' i h Hi) in Hf.
  - intros i a _ Hf. unfold last_at in Hf. destruct (_ !! i) as [h|] eqn:Hi; [|done]. rewrite (Hl' i h Hi) in Hf.
    injection Hf as <-. by left.
  - intros w [? ?]. done.
  - intros l _ Hin. by apply not_elem_of_nil in Hin.
Qed.

Lemma wf_chain_length s L w C : wf s L → 0 < w.2 → live s w → chain (nx s) w C → length C ≤ size (wrappers s).
Proof.
  intros Hwf Hw Hl Hc. assert (∀ v, v ∈ C → live s v) as Hlive.
  { clear -Hwf Hw Hl Hc. induction Hc as [w Hn|w w' C Hn Hc IH]; intros v Hv.
    - by apply list_elem_of_singleton in Hv as ->.
    - destruct (wf_up _ _ Hwf _ _ Hw Hn). apply elem_of_cons in Hv as [->|Hv]; [done|]. by apply IH. }
  apply chain_NoDup in Hc. rewrite <-(size_dom (D := gset wid)), <-(size_list_to_set (C := gset wid) C) by done.
  apply subseteq_size. intros v Hv%elem_of_list_to_set. apply elem_of_dom. by apply Hlive.
Qed.
Lemma wf_length s L : wf s L → length L ≤ size (wrappers s).
Proof.
  intros Hwf. destruct (wf_items _ _ Hwf) as [Hnd _]. rewrite <-(length_fmap fst), <-(length_fmap (λ l, (l, 0))).
  rewrite <-(size_list_to_set (C := gset wid)) by (apply NoDup_fmap_2; [by intros ?? [= ->]|done]).
  rewrite <-(size_dom (D := gset wid)). apply subseteq_size.
  intros v (l & -> & Hl)%elem_of_list_to_set%list_elem_of_fmap_1. apply elem_of_dom.
  apply (wf_live _ _ Hwf l 0). split; [done|]. apply Hwf.
Qed.
Lemma wf_item s L l x : wf s L → (l, x) ∈ L → ∃ d, items s !! l = Some d ∧ kv d = x.
Proof.
  intros Hwf Hin. destruct (wf_items _ _ Hwf) as [Hnd Hm]. apply elem_of_list_to_map_1 in Hin; [|done].
  rewrite <-Hm, lookup_fmap in Hin. destruct (items s !! l) as [d|]; [|done]. injection Hin as <-. by exists d.
Qed.
Lemma wf_live_item s L w : wf s L → live s w → ∃ x, (w.1, x) ∈ L.
Proof.
  intros Hwf Hl. destruct w as [l i]. apply (wf_live _ _ Hwf) in Hl as [Hl _].
  apply list_elem_of_fmap_1 in Hl as ([l' x] & -> & Hin). by exists x.
Qed.
Lemma wf_unique s L l x y : wf s L → (l, x) ∈ L → (l, y) ∈ L → x = y.
Proof.
  intros Hwf Hx Hy. destruct (wf_item _ _ _ _ Hwf Hx) as (d & Hd & <-), (wf_item _ _ _ _ Hwf Hy) as (d' & Hd' & <-). congruence.
Qed.
End Wf.

(** ** Search *)
Section Search.
Context {V : Type} (cmp : list Z → list Z → Z).
Implicit Types (s : skiplist V) (w : wid) (L : list (loc * (list Z * V))).
Notation ikey x := (x.2.1 : list Z).

(** A live wrapper of an upper layer whose key satisfies [T]. *)
Definition upper (T : list Z → Prop) s L w : Prop := live s w ∧ 0 < w.2 ∧ ∃ x, (w.1, x) ∈ L ∧ T x.1.
Definition at_most (k : list Z) (k' : list Z) : Prop := (cmp k' k <= 0)%Z.
Definition less (k : list Z) (k' : list Z) : Prop := (cmp k' k < 0)%Z.

(** Where a chain of an upper layer starts. *)
Definition starts s (item : option wid) (fuel : nat) : Prop :=
  ∀ w, item = Some w → live s w ∧ 0 < w.2 ∧ ∃ C, chain (nx s) w C ∧ length C ≤ fuel.
Lemma starts_next s L w fuel : wf s L → starts s (Some w) (S fuel) → starts s (nx s w) fuel.
Proof.
  intros Hwf Hst w' Hw'. destruct (Hst w eq_refl) as (Hl & Hpos & C & HC & Hlen).
  destruct (wf_up _ _ Hwf _ _ Hpos Hw') as [Hl' Hpos']. split_and!; try done.
  destruct HC as [w Hn|w w1 C Hn HC]; [congruence|]. assert (w1 = w') as -> by congruence.
  exists C. split; [done|]. simpl in Hlen. lia.
Qed.
Lemma starts_live s L w : wf s L → live s w → 0 < w.2 → starts s (Some w) (size (wrappers s)).
Proof.
  intros Hwf Hl Hpos w' [= <-]. split_and!; try done. destruct (wf_term _ _ Hwf w Hl Hpos) as [C HC].
  exists C. split; [done|]. by eapply wf_chain_length.
Qed.

(** The item a search enters layer [S i] with. *)
Definition enter (prev_item : option wid) (i : nat) : st (skiplist V) (option wid) :=
  match prev_item with Some w => TAILQ_NEXT (w.1, i) | None => TAILQ_FIRST i end.
Lemma wp_enter_up T prev i s L (Q : option wid → skiplist V → Prop) :
  wf s L → S i < num_layers s → (∀ w, prev = Some w → upper T s L w) →
  (∀ item, starts s item (size (wrappers s)) → Q item s) → wp (enter prev (S i)) Q s.
Proof.
  intros Hwf Hi Hp HQ. destruct prev as [w|]; cbn.
  - destruct (Hp w eq_refl) as (_ & _ & x & Hin & _).
    assert (live s (w.1, S i)) as Hl.
    { apply (wf_live _ _ Hwf). split; [|done]. by apply (list_elem_of_fmap_2 fst) in Hin. }
    apply wp_next; [done|]. apply HQ. destruct (nx s (w.1, S i)) as [w'|] eqn:Hn; [|by intros ? ?].
    destruct (wf_up _ _ Hwf (w.1, S i) w' ltac:(cbn; lia) Hn). by eapply starts_live.
  - destruct (lookup_lt_is_Some_2 (layers s) (S i)) as [h Hh]; [by rewrite (proj1 (wf_num _ _ Hwf))|].
    assert (first_at s (S i) = Some (tqh_first h)) as Hf by (unfold first_at; by rewrite Hh).
    apply (wp_first _ _ _ _ Hf). apply HQ. destruct (tqh_first h) as [w'|]; [|by intros ? ?].
    destruct (wf_first _ _ Hwf (S i) w' (Nat.lt_0_succ i) Hf). by eapply starts_live.
Qed.
(** At layer 0 the search continues behind the item it comes from. *)
Lemma wp_enter0 T prev s L (Q : option wid → skiplist V → Prop) L1 L2 :
  wf s L → (∀ w, prev = Some w → upper T s L w) → L = L1 ++ L2 → (∀ x, x ∈ L2 → ¬ T (ikey x)) →
  (∀ A B, L1 = A ++ B → match prev with Some w => fst <$> last A = Some w.1 | None => A = [] end →
     Q (link0 (B ++ L2)) s) → wp (enter prev 0) Q s.
Proof.
  intros Hwf Hp HL HL2 HQ. destruct prev as [w|]; cbn.
  - destruct (Hp w eq_refl) as (_ & _ & x & Hin & HT). assert ((w.1, x) ∈ L1) as Hin1.
    { rewrite HL in Hin. apply elem_of_app in Hin as [?|Hin]; [done|]. by destruct (HL2 _ Hin). }
    apply list_elem_of_split in Hin1 as (A & B & HL1).
    assert (L = A ++ (w.1, x) :: (B ++ L2)) as HL' by (by rewrite HL, HL1, <-app_assoc).
    apply wp_next.
    { apply (wf_live _ _ Hwf). split; [|apply Hwf]. by apply (list_elem_of_fmap_2 fst) in Hin. }
    pose proof (wf_next0 _ _ Hwf _ (w.1, x) _ HL') as Hn. cbn in Hn. rewrite Hn. apply (HQ (A ++ [(w.1, x)])); [by rewrite <-app_assoc|]. by rewrite last_snoc.
  - apply (wp_first _ (link0 L)); [apply Hwf|]. rewrite HL. by apply (HQ []).
Qed.

(** ** The loops of skiplist_search_internal *)
Lemma wp_search_layer_up fuel k item prev s L (Q : option wid → skiplist V → Prop) :
  wf s L → starts s item fuel → (∀ w, prev = Some w → upper (at_most k) s L w) →
  (∀ prev', (∀ w, prev' = Some w → upper (at_most k) s L w) → Q prev' s) → wp (search_layer cmp fuel k item prev) Q s.
Proof.
  intros Hwf. revert item prev. induction fuel as [|fuel IH]; intros [w|] prev Hst Hp HQ; cbn [search_layer]; try by apply wp_ret, HQ.
  - destruct (Hst w eq_refl) as (_ & _ & C & HC & Hlen). destruct HC; simpl in Hlen; lia.
  - destruct (Hst w eq_refl) as (Hl & Hpos & _). apply wp_bind, wp_ld_wrapper; [done|]. intros x Hx _.
    destruct (wf_live_item _ _ _ Hwf Hl) as [y Hy]. destruct (wf_item _ _ _ _ Hwf Hy) as (d & Hd & <-).
    apply wp_bind. unfold wp at 1, ld_item. cbn [fst]. rewrite Hd. case_bool_decide as Hc; [by apply wp_ret, HQ|].
    apply IH; [rewrite <-Hx; by eapply starts_next| |done]. intros w' [= <-]. split_and!; [done|done|].
    eexists. split; [done|]. unfold at_most. cbn. lia.
Qed.
Lemma wp_search_layer0 fuel k prev s L A B L2 (Q : option wid → skiplist V → Prop) :
  wf s L → L = A ++ B ++ L2 → length (B ++ L2) ≤ fuel →
  (∀ x, x ∈ B → (cmp (ikey x) k <= 0)%Z) → (∀ x, x ∈ L2 → (cmp (ikey x) k > 0)%Z) →
  Q (match last B with Some x => Some (x.1, 0) | None => prev end) s →
  wp (search_layer cmp fuel k (link0 (B ++ L2)) prev) Q s.
Proof.
  intros Hwf. assert (∀ A x R, L = A ++ x :: R → live s (x.1, 0) ∧ ∃ d, items s !! x.1 = Some d ∧ key d = ikey x) as Hx.
  { intros A' x R HL. assert (x ∈ L) as Hin by (rewrite HL; set_solver). split.
    - apply (wf_live _ _ Hwf). split; [|apply Hwf]. by apply list_elem_of_fmap_2.
    - destruct x as [l y]. destruct (wf_item _ _ _ _ Hwf Hin) as (d & Hd & <-). by exists d. }
  revert A B prev. induction fuel as [|fuel IH]; intros A B prev HL Hlen HB HL2 HQ; cbn [search_layer].
  { destruct B, L2; simpl in Hlen; try lia. by apply wp_ret. }
  destruct B as [|x B]; cbn [app link0] in *.
  - destruct L2 as [|y L2]; cbn [link0]; [by apply wp_ret|]. destruct (Hx _ _ _ HL) as (Hl & d & Hd & Hk).
    apply wp_bind, wp_ld_wrapper; [done|]. intros z _ _. apply wp_bind. unfold wp at 1, ld_item. cbn [fst]. rewrite Hd.
    rewrite bool_decide_eq_true_2; [by apply wp_ret|]. rewrite Hk. apply HL2. by left.
  - destruct (Hx _ _ _ HL) as (Hl & d & Hd & Hk).
    apply wp_bind, wp_ld_wrapper; [done|]. intros z Hz _. apply wp_bind. unfold wp at 1, ld_item. cbn [fst]. rewrite Hd.
    rewrite bool_decide_eq_false_2; [|rewrite Hk; pose proof (HB x ltac:(by left)); lia].
    rewrite <-Hz, (wf_next0 _ _ Hwf _ _ _ HL). apply (IH (A ++ [x])).
    + by rewrite HL, <-app_assoc.
    + simpl in Hlen. lia.
    + intros y Hy. apply HB. by right.
    + done.
    + rewrite last_cons in HQ. by destruct (last B).
Qed.

Lemma wp_search_down i k prev path s L L1 L2 (Q : option wid * list (option wid) → skiplist V → Prop) :
  wf s L → L = L1 ++ L2 → (∀ x, x ∈ L1 → (cmp (ikey x) k <= 0)%Z) → (∀ x, x ∈ L2 → (cmp (ikey x) k > 0)%Z) →
  S i ≤ num_layers s → (∀ w, prev = Some w → upper (at_most k) s L w) →
  (∀ w, Some w ∈ path → upper (at_most k) s L w) →
  (∀ r p0 up, fst <$> r = fst <$> last L1 → (∀ w, Some w ∈ up → upper (at_most k) s L w) → Q (r, p0 :: up) s) →
  wp (search_down cmp (S i) k prev path) Q s.
Proof.
  intros Hwf HL HL1 HL2. revert prev path. induction i as [|i IH]; intros prev path Hi Hp Hpath HQ;
    cbn [search_down]; apply wp_bind.
  - fold (enter prev 0). apply (wp_enter0 (at_most k) prev s L _ L1 L2 Hwf Hp HL).
    { intros x Hx. unfold at_most. specialize (HL2 x Hx). lia. }
    intros A B -> HA. apply wp_bind, wp_get, wp_bind. rewrite <-app_assoc in HL.
    eapply (wp_search_layer0 _ _ _ _ L A B L2 _ Hwf HL).
    + pose proof (wf_length _ _ Hwf) as Hlen. rewrite HL, length_app in Hlen. lia.
    + intros x Hx. apply HL1, elem_of_app. by right.
    + done.
    + cbn [search_down]. apply wp_ret, HQ; [|done]. rewrite last_app. destruct (last B); [done|].
      destruct prev; [done|]. by rewrite HA.
  - fold (enter prev (S i)). eapply (wp_enter_up _ _ _ _ _ _ Hwf); [lia|exact Hp|]. intros item Hst. apply wp_bind, wp_get, wp_bind.
    eapply wp_search_layer_up; [done|done|exact Hp|]. intros prev' Hp'. apply IH; [lia|done| |done].
    intros w [Hw|Hw]%elem_of_cons; [by apply Hp'|by apply Hpath].
Qed.

Lemma wp_search_internal k s L L1 L2 (Q : option loc * list (option wid) → skiplist V → Prop) :
  wf s L → L = L1 ++ L2 → (∀ x, x ∈ L1 → (cmp (ikey x) k <= 0)%Z) → (∀ x, x ∈ L2 → (cmp (ikey x) k > 0)%Z) →
  (∀ p0 up, (∀ w, Some w ∈ up → upper (at_most k) s L w) → Q (fst <$> last L1, p0 :: up) s) →
  wp (skiplist_search_internal cmp k) Q s.
Proof.
  intros Hwf HL HL1 HL2 HQ. unfold skiplist_search_internal. apply wp_bind, wp_get, wp_bind.
  destruct (wf_num _ _ Hwf) as [_ Hn]. destruct (num_layers s) as [|n] eqn:Hnum; [lia|].
  eapply (wp_search_down n k None [] s L L1 L2); try done; [lia| |].
  - intros w Hw. by apply not_elem_of_nil in Hw.
  - intros r p0 up Hr Hup. apply wp_ret. rewrite Hr. by apply HQ.
Qed.

(** ** The loops of skiplist_range_search *)
Notation call x := (x.2 : list Z * V).
Definition in_span (b e : list Z) (k : list Z) : bool := bool_decide (cmp k b >= 0)%Z && bool_decide (cmp k e < 0)%Z.

Lemma wp_range_layer_up fuel i b e item prev calls s L (Q : option wid * list (list Z * V) → skiplist V → Prop) :
  0 < i → wf s L → starts s item fuel → (∀ w, prev = Some w → upper (less b) s L w) →
  (∀ prev', (∀ w, prev' = Some w → upper (less b) s L w) → Q (prev', calls) s) →
  wp (range_layer cmp fuel i b e item prev calls) Q s.
Proof.
  intros Hi Hwf. revert item prev. induction fuel as [|fuel IH]; intros [w|] prev Hst Hp HQ; cbn [range_layer]; try by apply wp_ret, HQ.
  - destruct (Hst w eq_refl) as (_ & _ & C & HC & Hlen). destruct HC; simpl in Hlen; lia.
  - destruct (Hst w eq_refl) as (Hl & Hpos & _). apply wp_bind, wp_ld_wrapper; [done|]. intros x Hx _.
    destruct (wf_live_item _ _ _ Hwf Hl) as [y Hy]. destruct (wf_item _ _ _ _ Hwf Hy) as (d & Hd & <-).
    apply wp_bind. unfold wp at 1, ld_item. cbn [fst]. rewrite Hd.
    rewrite (bool_decide_eq_true_2 (0 < i)), (bool_decide_eq_false_2 (i = 0)) by lia. cbn [andb].
    case_bool_decide as Hc; [by apply wp_ret, HQ|].
    apply IH; [rewrite <-Hx; by eapply starts_next| |done]. intros w' [= <-]. split_and!; [done|done|].
    eexists. split; [done|]. unfold less. cbn. lia.
Qed.
Lemma wp_range_layer0 fuel b e prev calls s L A B (Q : option wid * list (list Z * V) → skiplist V → Prop) :
  wf s L → L = A ++ B → length B ≤ fuel →
  (∀ prev', Q (prev', calls ++ filter (λ p, in_span b e p.1) B.*2) s) →
  wp (range_layer cmp fuel 0 b e (link0 B) prev calls) Q s.
Proof.
  intros Hwf. revert A B prev calls. induction fuel as [|fuel IH]; intros A B prev calls HL Hlen HQ; cbn [range_layer].
  { destruct B; [|simpl in Hlen; lia]. apply wp_ret. cbn in HQ. rewrite app_nil_r in HQ. apply HQ. }
  destruct B as [|[l y] B]; cbn [link0]; [apply wp_ret; cbn in HQ; rewrite app_nil_r in HQ; apply HQ|].
  assert ((l, y) ∈ L) as Hin by (rewrite HL; set_solver).
  apply wp_bind, wp_ld_wrapper.
  { apply (wf_live _ _ Hwf). split; [|apply Hwf]. by apply (list_elem_of_fmap_2 fst) in Hin. }
  intros z Hz _. cbn [fst] in *. destruct (wf_item _ _ _ _ Hwf Hin) as (d & Hd & <-).
  apply wp_bind. unfold wp at 1, ld_item. rewrite Hd. cbn [andb]. rewrite (bool_decide_eq_false_2 (0 < 0)) by lia.
  cbn [andb]. rewrite (bool_decide_eq_true_2 (0 = 0)) by done. cbn [andb].
  pose proof (wf_next0 _ _ Hwf A (l, kv d) B HL) as Hn. cbn in Hn. rewrite <-Hz, Hn.
  apply (IH (A ++ [(l, kv d)])); [by rewrite HL, <-app_assoc|simpl in Hlen; lia|]. intros prev'.
  specialize (HQ prev'). cbn [fmap list_fmap snd] in HQ. unfold in_span in HQ. rewrite filter_cons in HQ. cbn [fst kv] in HQ.
  destruct (bool_decide (cmp (key d) b >= 0)%Z && bool_decide (cmp (key d) e < 0)%Z) eqn:Hb.
  - rewrite decide_True in HQ by done. by rewrite <-app_assoc.
  - by rewrite decide_False in HQ by (by intros []).
Qed.

Lemma wp_range_down i b e prev s L L1 L2 (Q : list (list Z * V) → skiplist V → Prop) :
  wf s L → L = L1 ++ L2 → (∀ x, x ∈ L1 → (cmp (ikey x) b < 0)%Z) → (∀ x, x ∈ L2 → (cmp (ikey x) b >= 0)%Z) →
  S i ≤ num_layers s → (∀ w, prev = Some w → upper (less b) s L w) →
  Q (filter (λ p, in_span b e p.1) L.*2) s → wp (range_down cmp (S i) b e prev []) Q s.
Proof.
  intros Hwf HL HL1 HL2. revert prev. induction i as [|i IH]; intros prev Hi Hp HQ; cbn [range_down]; apply wp_bind.
  - fold (enter prev 0). apply (wp_enter0 (less b) prev s L _ L1 L2 Hwf Hp HL).
    { intros x Hx. unfold less. specialize (HL2 x Hx). lia. }
    intros A B -> _. apply wp_bind, wp_get, wp_bind. rewrite <-app_assoc in HL.
    eapply (wp_range_layer0 _ _ _ _ _ _ L A (B ++ L2) _ Hwf HL).
    + pose proof (wf_length _ _ Hwf) as Hlen. rewrite HL, length_app in Hlen. lia.
    + intros prev'. cbn [range_down]. apply wp_ret. cbn [app]. rewrite HL, fmap_app, filter_app in HQ.
      assert (filter (λ p, in_span b e p.1) A.*2 = []) as HA; [|by rewrite HA in HQ].
      destruct (filter _ A.*2) as [|p R] eqn:HR; [done|]. exfalso.
      assert (p ∈ filter (λ p, in_span b e p.1) A.*2) as (Hs & (x & -> & Hx)%list_elem_of_fmap)%list_elem_of_filter by (rewrite HR; by left).
      assert (cmp (ikey x) b < 0)%Z as Hlt by (apply HL1, elem_of_app; by left).
      unfold in_span in Hs. apply Is_true_true, andb_true_iff in Hs as [Hs%bool_decide_eq_true _]. lia.
  - fold (enter prev (S i)). eapply (wp_enter_up _ _ _ _ _ _ Hwf); [lia|exact Hp|]. intros item Hst. apply wp_bind, wp_get, wp_bind.
    eapply wp_range_layer_up; [lia|done|done|exact Hp|]. intros prev' Hp'. apply IH; [lia|done|done].
Qed.
End Search.
