(* ===== verification/SkipListInsert.v ===== *)
(** * The skip list: insertion keeps layer 0 and the ends of the chains *)
From S2P Require Import Prelude Heap SkipList SkipListRep.

Section Insert.
Context {V : Type}.
Implicit Types (s : skiplist V) (w : wid) (L A B : list (loc * (list Z * V))).

Lemma nx_live s w w' : nx s w = Some w' → live s w.
Proof. unfold nx, live. destruct (wrappers s !! w); [by eexists|done]. Qed.
Lemma wf_nx_live s L w w' : wf s L → nx s w = Some w' → live s w'.
Proof.
  intros Hwf Hn. destruct w as [l [|i]]; [|by apply (wf_up _ _ Hwf (l, S i) w' ltac:(cbn; lia) Hn)].
  pose proof (nx_live _ _ _ Hn) as Hl. apply (wf_live _ _ Hwf) in Hl as [Hl _].
  apply list_elem_of_fmap_1 in Hl as (x & -> & (L1 & L2 & HL)%list_elem_of_split).
  rewrite (wf_next0 _ _ Hwf _ _ _ HL) in Hn. destruct L2 as [|y L2]; [done|]. injection Hn as <-.
  apply (wf_live _ _ Hwf). split; [|apply Hwf]. apply list_elem_of_fmap_2. rewrite HL. set_solver.
Qed.

(** ** Allocation *)
Record allocated s s1 (l : loc) (kv' : list Z * V) : Prop := {
  al_num : num_layers s1 = num_layers s;
  al_prob : probability s1 = probability s;
  al_layers : layers s1 = layers s;
  al_items : kv <$> items s1 = <[l := kv']> (kv <$> items s);
  al_live w : live s1 w ↔ live s w ∨ w.1 = l ∧ w.2 < num_layers s;
  al_nx w : nx s1 w = nx s w;
  al_count : count s1 = count s;
  al_next : next_item s1 = Pos.succ l;
  al_freed : freed s1 = freed s
}.
Lemma new_wrappers_lookup l n l' i :
  new_wrappers l n !! (l', i) = if decide (l' = l ∧ i < n) then Some (mk_wrapper None None) else None.
Proof.
  unfold new_wrappers. case_decide as H.
  - destruct H as [-> H]. apply elem_of_list_to_map_1.
    + rewrite <-list_fmap_compose. cbn. apply NoDup_fmap_2; [by intros ?? [= ->]|apply NoDup_seq].
    + apply list_elem_of_fmap. exists i. split; [done|]. apply elem_of_seq. lia.
  - apply not_elem_of_list_to_map_1. intros (x & Hx & (j & -> & Hj)%list_elem_of_fmap)%list_elem_of_fmap.
    cbn in Hx. simplify_eq. apply elem_of_seq in Hj. destruct H. lia.
Qed.
Lemma wp_new_item k v s L (Q : loc → skiplist V → Prop) :
  wf s L → (∀ s1, allocated s s1 (next_item s) (k, v) → Q (next_item s) s1) → wp (new_item k v) Q s.
Proof.
  intros Hwf HQ. unfold wp, new_item. apply HQ. set (l := next_item s).
  assert (∀ i, wrappers s !! (l, i) = None) as Hno.
  { intros i. destruct (wrappers s !! (l, i)) eqn:Hi; [|done]. assert (live s (l, i)) as Hl by (by eexists).
    apply (wf_live _ _ Hwf) in Hl as [Hl _]. by apply (wf_fresh _ _ Hwf l) in Hl. }
  split; try done; cbn.
  - by rewrite fmap_insert.
  - intros [l' i]. unfold live. cbn. rewrite lookup_union, new_wrappers_lookup.
    case_decide as H; [|split; [by rewrite (left_id_L None _); left|intros [?|?]; [by rewrite (left_id_L None _)|done]]].
    destruct H as [-> H]. fold l. rewrite Hno. split; [by right|by eexists].
  - intros [l' i]. unfold nx. cbn. rewrite lookup_union, new_wrappers_lookup. case_decide as H; [|by rewrite (left_id_L None _)].
    destruct H as [-> H]. fold l. by rewrite Hno.
Qed.

(** ** Linking into layer 0 *)
Lemma insert0_next (f f' : wid → option wid) A B l x :
  NoDup (A ++ B).*1 → l ∉ (A ++ B).*1 →
  (∀ L1 y L2, A ++ B = L1 ++ y :: L2 → f (y.1, 0) = link0 L2) →
  (∀ w, f' w = if decide (w = (l, 0)) then link0 B
               else if decide (Some w = (λ y, (y.1, 0)) <$> last A) then Some (l, 0) else f w) →
  ∀ L1 y L2, A ++ (l, x) :: B = L1 ++ y :: L2 → f' (y.1, 0) = link0 L2.
Proof.
  intros Hnd Hnew Hf Hnx.
  assert (NoDup A.*1 ∧ NoDup B.*1 ∧ ∀ z, z ∈ A.*1 → z ∉ B.*1) as (HndA & HndB & HAB).
  { rewrite fmap_app in Hnd. apply NoDup_app in Hnd as (? & H & ?). naive_solver. }
  rewrite fmap_app, elem_of_app in Hnew.
  intros L1 y L2 HL. rewrite Hnx.
  destruct (app_eq_inv _ _ _ _ HL) as [([|d D] & -> & HD)|([|d D] & -> & HD)]; cbn in HD; injection HD; clear HD; intros HD Hd; try subst d; try subst y.
  - rewrite decide_True by done. by rewrite HD.
  - assert (y ∈ L1 ++ y :: D) as Hy by set_solver. rewrite decide_False.
    2:{ intros [= Hyl]. apply Hnew. left. rewrite <-Hyl. by apply list_elem_of_fmap_2. }
    rewrite last_app, last_cons. destruct (last D) as [z|] eqn:Hz; cbn.
    + rewrite decide_False.
      * pose proof (Hf L1 y (D ++ B)) as Hn. rewrite <-app_assoc in Hn. rewrite Hn by done. rewrite HD.
         destruct D; [done|]. done.
      * intros [= Hyz]. rewrite fmap_app, fmap_cons in HndA. apply NoDup_app in HndA as (_ & _ & [Hno _]%NoDup_cons).
         apply Hno. rewrite Hyz. apply list_elem_of_fmap_2. by apply last_Some_elem_of.
    + apply last_None in Hz. subst D. rewrite decide_True by done. cbn in HD. by rewrite HD.
  - rewrite decide_True by done. by rewrite HD.
  - assert (y.1 ∈ B.*1) as Hy by (apply list_elem_of_fmap_2; rewrite HD; set_solver).
    rewrite !decide_False.
    + apply (Hf (A ++ D)). by rewrite HD, app_assoc.
    + destruct (last A) as [z|] eqn:Hz; cbn; [|done]. intros [= Hyz]. rewrite Hyz in Hy. revert Hy. apply HAB.
      apply list_elem_of_fmap_2. by apply last_Some_elem_of.
    + intros [= Hyl]. apply Hnew. right. by rewrite <-Hyl.
Qed.

Lemma wf_insert0 s s1 s2 A B l x :
  wf s (A ++ B) → l = next_item s → allocated s s1 l x → frame s1 s2 →
  (∀ w, nx s2 w = if decide (w = (l, 0)) then link0 B
                  else if decide (Some w = (λ y, (y.1, 0)) <$> last A) then Some (l, 0) else nx s w) →
  (∀ j, first_at s2 j = if decide (j = 0) then Some (link0 (A ++ (l, x) :: B)) else first_at s j) →
  (∀ j, last_at s2 j = if decide (j = 0 ∧ B = []) then Some (Next (l, 0)) else last_at s j) →
  wf s2 (A ++ (l, x) :: B).
Proof.
  intros Hwf Hl Hal Hfr Hnx Hfirst Hlast.
  assert (l ∉ (A ++ B).*1) as Hnew by (by apply (wf_fresh _ _ Hwf); rewrite Hl).
  destruct (wf_items _ _ Hwf) as [Hnd Hm].
  assert (∀ w, live s2 w ↔ live s w ∨ w.1 = l ∧ w.2 < num_layers s) as Hlive.
  { intros w. rewrite (fr_live _ _ Hfr). apply Hal. }
  assert (∀ w, 0 < w.2 → nx s2 w = nx s w) as Hup.
  { intros w Hw. rewrite Hnx, !decide_False; [done| |by intros ->; cbn in Hw; lia].
    destruct (last A); cbn; [intros [= ->]; cbn in Hw; lia|done]. }
  assert (num_layers s2 = num_layers s) as Hnum by (rewrite (fr_num _ _ Hfr); apply Hal).
  split.
  - rewrite (fr_len _ _ Hfr), Hnum, (al_layers _ _ _ _ Hal). apply Hwf.
  - rewrite (fr_items _ _ Hfr), (al_items _ _ _ _ Hal), Hm.
    apply (heap_is_perm _ ((l, x) :: A ++ B)); [by rewrite Permutation_middle|]. split; [by constructor|done].
  - intros l' i. rewrite Hlive, (wf_live _ _ Hwf), Hnum. cbn. rewrite !fmap_app, fmap_cons, !elem_of_app, elem_of_cons. cbn. naive_solver.
  - by rewrite Hfirst, decide_True.
  - by eapply (insert0_next (nx s)); [exact Hnd|exact Hnew|apply (wf_next0 _ _ Hwf)|exact Hnx|..].
  - rewrite Hlast, last_app, last_cons. destruct B as [|b B]; [by rewrite decide_True|].
    rewrite decide_False by naive_solver. rewrite (wf_last0 _ _ Hwf), last_app, last_cons. by destruct (last B).
  - intros w w' Hw Hn. rewrite (Hup w Hw) in Hn. rewrite Hlive. destruct (wf_up _ _ Hwf _ _ Hw Hn). auto.
  - intros i w Hi Hf. rewrite Hfirst, decide_False in Hf by lia. rewrite Hlive. destruct (wf_first _ _ Hwf _ _ Hi Hf). auto.
  - intros i a Hi Hf. rewrite Hlast, decide_False in Hf by lia.
    destruct (wf_last _ _ Hwf _ _ Hi Hf) as [->|(w & -> & ? & ?)]; [by left|right]. exists w. rewrite Hlive. auto.
  - intros w Hw Hpos. apply Hlive in Hw as [Hw|[Hw _]].
    + destruct (wf_term _ _ Hwf w Hw Hpos) as [C HC]. clear Hw. induction HC as [w Hn|w w' C Hn HC IH].
      * apply term_end. by rewrite Hup.
      * apply (term_step _ _ w'); [by rewrite Hup|]. apply IH. by apply (wf_up _ _ Hwf _ _ Hpos Hn).
    + apply term_end. rewrite (Hup w Hpos). destruct (nx s w) eqn:Hn; [|done]. apply nx_live in Hn.
      destruct w as [l' i]. cbn in Hw. subst l'. apply (wf_live _ _ Hwf) in Hn as [Hn _]. done.
  - intros l' Hl'. rewrite (fr_fresh _ _ Hfr), (al_next _ _ _ _ Hal) in Hl'. rewrite fmap_app, fmap_cons, elem_of_app, elem_of_cons.
    assert (l' ∉ (A ++ B).*1) as Hno by (apply (wf_fresh _ _ Hwf); lia). rewrite fmap_app, elem_of_app in Hno. cbn.
    intros [?|[->|?]]; [naive_solver|lia|naive_solver].
Qed.

(** No chain reaches the wrappers of [l] from layer [i] on. *)
Definition unlinked s (l : loc) (i : nat) : Prop :=
  ∀ j, i ≤ j → (∀ w, nx s w ≠ Some (l, j)) ∧ (∀ h, last_at s h ≠ Some (Next (l, j))).

Lemma insert0_unlinked s s2 A B l (f : option wid) :
  wf s (A ++ B) → l = next_item s →
  (∀ w, nx s2 w = if decide (w = (l, 0)) then link0 B
                  else if decide (Some w = f) then Some (l, 0) else nx s w) →
  (∀ j, last_at s2 j = if decide (j = 0 ∧ B = []) then Some (Next (l, 0)) else last_at s j) →
  unlinked s2 l 1.
Proof.
  intros Hwf Hl Hnx Hlast j Hj. assert (∀ i, ¬ live s (l, i)) as Hno.
  { intros i Hli. apply (wf_live _ _ Hwf) in Hli as [Hli _]. apply (wf_fresh _ _ Hwf l) in Hli; [done|by rewrite Hl]. }
  split.
  - intros w. rewrite Hnx. repeat case_decide.
    + destruct B as [|b B]; cbn; [done|]. intros [= Hb <-]. lia.
    + intros [= ?]. lia.
    + intros Hn. by eapply Hno, wf_nx_live.
  - intros [|h]; rewrite Hlast; case_decide; try (intros [= ?]; lia).
    + rewrite (wf_last0 _ _ Hwf). destruct (last (A ++ B)); intros [= ? ?]. lia.
    + intros Hn. apply (wf_last _ _ Hwf _ _ (Nat.lt_0_succ h)) in Hn as [?|(w & [= <-] & Hn & _)]; [done|]. by apply Hno in Hn.
Qed.

(** Behind the item the search ended at. *)
Lemma wp_link_after s s1 A y B l x (Q : unit → skiplist V → Prop) :
  wf s ((A ++ [y]) ++ B) → l = next_item s → allocated s s1 l x →
  (∀ s2, frame s1 s2 → wf s2 ((A ++ [y]) ++ (l, x) :: B) → unlinked s2 l 1 → Q tt s2) →
  wp (TAILQ_INSERT_AFTER 0 (y.1, 0) (l, 0)) Q s1.
Proof.
  intros Hwf Hl Hal HQ. destruct (wf_num _ _ Hwf) as [Hlen Hnum].
  assert (l ∉ ((A ++ [y]) ++ B).*1) as Hnew by (by apply (wf_fresh _ _ Hwf); rewrite Hl).
  assert (y.1 ∈ ((A ++ [y]) ++ B).*1) as Hy by (rewrite !fmap_app; set_solver).
  assert (nx s1 (y.1, 0) = link0 B) as Hny.
  { rewrite (al_nx _ _ _ _ Hal). apply (wf_next0 _ _ Hwf A y B). by rewrite <-app_assoc. }
  assert (y.1 ≠ l) as Hne by (intros Hyl; by rewrite Hyl in Hy).
  apply wp_insert_after.
  - apply Hal. left. by apply (wf_live _ _ Hwf).
  - apply Hal. by right.
  - by intros [= ?].
  - by rewrite (al_layers _ _ _ _ Hal), Hlen.
  - intros n Hn. rewrite (al_nx _ _ _ _ Hal) in Hn. apply Hal. left. by eapply wf_nx_live.
  - intros s2 Hfr Hnx Hfirst Hlast. rewrite Hny in *.
    assert (∀ w, nx s2 w = if decide (w = (l, 0)) then link0 B
                  else if decide (Some w = (λ y, (y.1, 0)) <$> last (A ++ [y])) then Some (l, 0) else nx s w) as Hnx'.
    { intros w. rewrite Hnx, (al_nx _ _ _ _ Hal), last_snoc. cbn. repeat case_decide; naive_solver. }
    assert (∀ j, last_at s2 j = if decide (j = 0 ∧ B = []) then Some (Next (l, 0)) else last_at s j) as Hlast'.
    { intros j. rewrite Hlast. unfold last_at. rewrite (al_layers _ _ _ _ Hal).
      destruct B; cbn; repeat case_decide; naive_solver. }
    apply HQ; [done| |by eapply insert0_unlinked].
    apply (wf_insert0 s s1 s2); try done.
    intros j. rewrite Hfirst. unfold first_at. rewrite (al_layers _ _ _ _ Hal). case_decide; [subst|done].
    pose proof (wf_first0 _ _ Hwf) as Hf. unfold first_at in Hf. rewrite Hf. by destruct A.
Qed.

(** At the tail, when no item precedes the key. *)
Lemma wp_link_tail s s1 L l x (Q : unit → skiplist V → Prop) :
  wf s L → l = next_item s → allocated s s1 l x →
  (∀ s2, frame s1 s2 → wf s2 (L ++ [(l, x)]) → unlinked s2 l 1 → (∀ j, 0 < j → first_at s2 j = first_at s j) → Q tt s2) →
  wp (TAILQ_INSERT_TAIL 0 (l, 0)) Q s1.
Proof.
  intros Hwf Hl Hal HQ. destruct (wf_num _ _ Hwf) as [Hlen Hnum].
  assert (l ∉ L.*1) as Hnew by (by apply (wf_fresh _ _ Hwf); rewrite Hl).
  pose proof (wf_last0 _ _ Hwf) as Hla. set (a := match last L with Some x => Next (x.1, 0) | None => First 0 end) in *.
  assert (∀ w, a = Next w → ∃ y, last L = Some y ∧ w = (y.1, 0)) as HaN.
  { unfold a. intros w Hw. destruct (last L) as [y|]; [|done]. injection Hw as <-. by exists y. }
  apply (wp_insert_tail 0 (l, 0) a).
  - apply Hal. by right.
  - unfold last_at. rewrite (al_layers _ _ _ _ Hal). exact Hla.
  - intros w (y & Hy%last_Some_elem_of & ->)%HaN. apply (list_elem_of_fmap_2 fst) in Hy.
    split; [apply Hal; left; by apply (wf_live _ _ Hwf)|]. intros [= Hyl]. by rewrite Hyl in Hy.
  - intros j. unfold a. destruct (last L); [done|]. intros [= <-]. by rewrite (al_layers _ _ _ _ Hal), Hlen.
  - intros s2 Hfr Hnx Hfirst Hlast.
    assert (∀ w, nx s2 w = if decide (w = (l, 0)) then link0 (V := V) []
                  else if decide (Some w = (λ y, (y.1, 0)) <$> last L) then Some (l, 0) else nx s w) as Hnx'.
    { intros w. rewrite Hnx, (al_nx _ _ _ _ Hal). unfold a. destruct (last L) as [y|] eqn:Hy; cbn.
      - apply last_Some_elem_of, (list_elem_of_fmap_2 fst) in Hy.
        assert (y.1 ≠ l) as Hne by (intros Hyl; by rewrite Hyl in Hy).
        repeat case_decide; simplify_eq/=; try done; by destruct Hne.
      - repeat case_decide; naive_solver. }
    assert (∀ j, last_at s2 j = if decide (j = 0 ∧ @nil (loc * (list Z * V)) = []) then Some (Next (l, 0)) else last_at s j) as Hlast'.
    { intros j. rewrite Hlast. unfold last_at. rewrite (al_layers _ _ _ _ Hal). repeat case_decide; naive_solver. }
    apply HQ; [done|..].
    + rewrite <-(app_nil_r L) in Hwf. apply (wf_insert0 s s1 s2 L [] l x); try done.
      intros j. rewrite Hfirst. unfold first_at. rewrite (al_layers _ _ _ _ Hal). rewrite app_nil_r in Hwf.
      pose proof (wf_first0 _ _ Hwf) as Hf. unfold first_at in Hf. unfold a.
      destruct L as [|y L]; cbn; [repeat case_decide; by simplify_eq|].
      destruct (last (y :: L)) eqn:Hy; [|by apply last_None in Hy]. rewrite decide_False by done.
      case_decide; [subst; by rewrite Hf|done].
    + rewrite <-(app_nil_r L) in Hwf. by eapply (insert0_unlinked s s2 L []).
    + intros j Hj. rewrite Hfirst. unfold first_at. rewrite (al_layers _ _ _ _ Hal). rewrite decide_False; [done|].
      unfold a. destruct (last L); intros ?; simplify_eq. lia.
Qed.

(** ** Linking into an upper layer *)
Lemma wf_relink s s2 L :
  wf s L → frame s s2 → (∀ l, nx s2 (l, 0) = nx s (l, 0)) → first_at s2 0 = first_at s 0 → last_at s2 0 = last_at s 0 →
  (∀ w w', 0 < w.2 → nx s2 w = Some w' → live s w' ∧ 0 < w'.2) →
  (∀ i w, 0 < i → first_at s2 i = Some (Some w) → live s w ∧ 0 < w.2) →
  (∀ i a, 0 < i → last_at s2 i = Some a → a = First i ∨ ∃ w, a = Next w ∧ live s w ∧ 0 < w.2) →
  (∀ w, live s w → 0 < w.2 → term (nx s2) w) → wf s2 L.
Proof.
  intros [] Hfr Hn0 Hf0 Hl0 Hup Hfi Hla Ht. split.
  - by rewrite (fr_len _ _ Hfr), (fr_num _ _ Hfr).
  - by rewrite (fr_items _ _ Hfr).
  - intros l i. by rewrite (fr_live _ _ Hfr), (fr_num _ _ Hfr).
  - by rewrite Hf0.
  - intros L1 x L2 HL. rewrite Hn0. eauto.
  - by rewrite Hl0.
  - intros w w' Hw Hn. rewrite (fr_live _ _ Hfr). eauto.
  - intros i w Hi Hf. rewrite (fr_live _ _ Hfr). eauto.
  - intros i a Hi Ha. destruct (Hla i a Hi Ha) as [->|(w & -> & ? & ?)]; [by left|right]. exists w. by rewrite (fr_live _ _ Hfr).
  - intros w Hw Hpos. apply Ht; [|done]. by apply Hfr.
  - intros l Hl. rewrite (fr_fresh _ _ Hfr) in Hl. eauto.
Qed.

Lemma wp_up_after s L i p l (Q : unit → skiplist V → Prop) :
  wf s L → 0 < i < num_layers s → live s p → 0 < p.2 → p.1 ≠ l → l ∈ L.*1 → unlinked s l i →
  (∀ s2, frame s s2 → wf s2 L → unlinked s2 l (S i) → Q tt s2) → wp (TAILQ_INSERT_AFTER i p (l, i)) Q s.
Proof.
  intros Hwf Hi Hp Hpos Hpl Hl Hun HQ. destruct (wf_num _ _ Hwf) as [Hlen Hnum].
  assert (live s (l, i)) as He by (apply (wf_live _ _ Hwf); split; [done|lia]).
  assert (p ≠ (l, i)) as Hpe by (by intros ->).
  apply wp_insert_after; try done; [rewrite Hlen; lia|intros n Hn; by eapply wf_nx_live|].
  intros s2 Hfr Hnx Hfirst Hlast. apply HQ; [done| |].
  - eapply (wf_relink s); try done.
    + intros l'. rewrite Hnx, !decide_False; [done|intros ?; simplify_eq/=; lia|intros <-; cbn in Hpos; lia].
    + rewrite Hlast, decide_False; [done|lia].
    + intros w w' Hw. rewrite Hnx. repeat case_decide; subst.
      * intros [= <-]. split; [done|cbn; lia].
      * intros Hn. by apply (wf_up _ _ Hwf p).
      * intros Hn. by apply (wf_up _ _ Hwf w).
    + intros j w Hj Hf. rewrite Hfirst in Hf. by eapply wf_first.
    + intros j a Hj. rewrite Hlast. case_decide; [|intros Ha; by apply (wf_last _ _ Hwf)].
      intros [= <-]. right. exists (l, i). split; [done|]. split; [done|cbn; lia].
    + intros w Hw Hw0. apply (term_after (nx s) (nx s2) p (l, i)); try done.
      * intros v. by apply (Hun i).
      * by apply (wf_term _ _ Hwf).
      * by apply (wf_term _ _ Hwf).
  - intros j Hj. split.
    + intros w. rewrite Hnx. repeat case_decide; [intros ?; simplify_eq/=; lia|apply Hun; lia..].
    + intros h. rewrite Hlast. case_decide; [intros ?; simplify_eq/=; lia|apply Hun; lia].
Qed.

Lemma wp_up_tail s L i l (Q : unit → skiplist V → Prop) :
  wf s L → 0 < i < num_layers s → l ∈ L.*1 → unlinked s l i →
  (∀ s2, frame s s2 → wf s2 L → unlinked s2 l (S i) → Q tt s2) → wp (TAILQ_INSERT_TAIL i (l, i)) Q s.
Proof.
  intros Hwf Hi Hl Hun HQ. destruct (wf_num _ _ Hwf) as [Hlen Hnum].
  assert (live s (l, i)) as He by (apply (wf_live _ _ Hwf); split; [done|lia]).
  destruct (lookup_lt_is_Some_2 (layers s) i) as [h Hh]; [rewrite Hlen; lia|].
  assert (last_at s i = Some (tqh_last h)) as Ha by (unfold last_at; by rewrite Hh). set (a := tqh_last h) in *.
  assert (a ≠ Next (l, i)) as Hae by (intros Hae; rewrite Hae in Ha; by apply (Hun i ltac:(lia)) in Ha).
  assert ((∀ w, a = Next w → live s w ∧ 0 < w.2) ∧ ∀ j, a = First j → j = i) as [HaN HaF].
  { destruct (wf_last _ _ Hwf i a (proj1 Hi) Ha) as [->|(z & -> & Hz & Hz0)]; split; intros; by simplify_eq. }
  apply (wp_insert_tail i (l, i) a); try done.
  { intros w Hw. split; [by apply HaN|congruence]. }
  { intros j ->%HaF. rewrite Hlen. lia. }
  intros s2 Hfr Hnx Hfirst Hlast. apply HQ; [done| |].
  - eapply (wf_relink s); try done.
    + intros l'. rewrite Hnx, !decide_False; [done|intros ?; simplify_eq/=; lia|intros [_ H]%HaN; cbn in H; lia].
    + rewrite Hfirst, decide_False; [done|]. intros ?%HaF. lia.
    + rewrite Hlast, decide_False by lia. done.
    + intros w w' Hw. rewrite Hnx. repeat case_decide; [|done|intros Hn; by apply (wf_up _ _ Hwf w)].
      intros [= <-]. split; [done|cbn; lia].
    + intros j w Hj. rewrite Hfirst. case_decide; [|intros Hf; by eapply wf_first]. intros [= <-]. split; [done|cbn; lia].
    + intros j a' Hj. rewrite Hlast. case_decide; [|intros Ha'; by apply (wf_last _ _ Hwf)].
      intros [= <-]. right. exists (l, i). split; [done|]. split; [done|cbn; lia].
    + intros w Hw Hw0. apply (term_tail (nx s) (nx s2) a (l, i)); [done|done|]. by apply (wf_term _ _ Hwf).
  - intros j Hj. split.
    + intros w. rewrite Hnx. repeat case_decide; [intros ?; simplify_eq/=; lia|done|apply Hun; lia].
    + intros h'. rewrite Hlast. case_decide; [intros ?; simplify_eq/=; lia|apply Hun; lia].
Qed.

Lemma wf_same s s2 L : wf s L → frame s s2 → layers s2 = layers s → nx s2 = nx s → wf s2 L.
Proof.
  intros Hwf Hfr Hls Hnx. assert (first_at s2 = first_at s ∧ last_at s2 = last_at s) as [H1 H2].
  { unfold first_at, last_at. by rewrite Hls. }
  eapply (wf_relink s); try done; rewrite ?H1, ?H2, ?Hnx; try done; apply Hwf.
Qed.
Lemma unlinked_same s s2 l i : unlinked s l i → layers s2 = layers s → nx s2 = nx s → unlinked s2 l i.
Proof. intros Hun Hls Hnx j Hj. unfold last_at. rewrite Hls, Hnx. by apply Hun. Qed.
Lemma wp_check_layer s L l i (Q : unit → skiplist V → Prop) :
  wf s L → l ∈ L.*1 → (∀ s2, frame s s2 → layers s2 = layers s → nx s2 = nx s → Q tt s2) → wp (check_layer l i) Q s.
Proof.
  intros Hwf Hl HQ. apply list_elem_of_fmap_1 in Hl as ([l' x] & -> & Hin).
  destruct (wf_item _ _ _ _ Hwf Hin) as (d & Hd & _). unfold check_layer, st_item, wp, mbind, st_bind, ld_item. cbn [fst].
  rewrite Hd. apply HQ; try done. split; try done. cbn. rewrite fmap_insert. apply insert_id. rewrite lookup_fmap, Hd. done.
Qed.

Lemma wp_insert_up random l p0 up n i coin s L (Q : unit → skiplist V → Prop) :
  wf s L → 0 < i → i + n ≤ num_layers s → l ∈ L.*1 → unlinked s l i →
  (∀ w, Some w ∈ up → live s w ∧ 0 < w.2 ∧ w.1 ≠ l) →
  (∀ s2, frame s s2 → wf s2 L → Q tt s2) → wp (insert_up random l (p0 :: up) n i coin) Q s.
Proof.
  intros Hwf Hi Hn Hl. revert i coin s Hwf Hi Hn. induction n as [|n IH]; intros i coin s Hwf Hi Hn Hun Hup HQ; cbn [insert_up].
  { by apply wp_ret, HQ. }
  apply wp_bind, wp_get, wp_bind.
  set (coin' := if coin then _ else _).
  destruct coin'; [|apply wp_ret, IH; try done; [lia|lia|]; intros j Hj; apply Hun; lia].
  assert (∀ s1, frame s s1 → wf s1 L → unlinked s1 l (S i) →
    wp (check_layer l i) (λ _, wp (insert_up random l (p0 :: up) n (S i) true) Q) s1) as Hrest.
  { intros s1 Hfr1 Hwf1 Hun1. apply (wp_check_layer s1 L); [done|done|]. intros s2 Hfr2 Hls2 Hnx2. apply IH.
    - by eapply wf_same.
    - lia.
    - rewrite (fr_num _ _ Hfr2), (fr_num _ _ Hfr1). lia.
    - by eapply unlinked_same.
    - intros w Hw. rewrite (fr_live _ _ Hfr2), (fr_live _ _ Hfr1). by apply Hup.
    - intros s3 Hfr3 Hwf3. apply HQ; [|done]. by rewrite Hfr1, Hfr2, Hfr3. }
  assert (wp (TAILQ_INSERT_TAIL i (l, i)) (λ _, wp (check_layer l i) (λ _, wp (insert_up random l (p0 :: up) n (S i) true) Q)) s)
    as Htail by (apply (wp_up_tail s L); try done; lia).
  apply wp_bind. destruct ((p0 :: up) !! i) as [[p|]|] eqn:Hp; try exact Htail.
  destruct i as [|i]; [lia|]. cbn in Hp. apply list_elem_of_lookup_2 in Hp. destruct (Hup p Hp) as (H1 & H2 & H3).
  apply (wp_up_after s L); try done; lia.
Qed.
(** An item that stays in layer 0. *)
Lemma insert_up_false random l path n i s : insert_up random l path n i false s = Ret (tt, s).
Proof. revert i. induction n as [|n IH]; intros i; cbn; [done|]. apply IH. Qed.
Lemma insert_up_tails (random : nat → Z) l path n s :
  ¬ (random 1%nat `mod` 100 > probability s)%Z → insert_up random l path n 1 true s = Ret (tt, s).
Proof.
  intros Hr. destruct n; [done|]. cbn [insert_up]. unfold mbind, st_bind, st_get. rewrite bool_decide_eq_false_2 by done. apply insert_up_false.
Qed.
End Insert.

(** ** skiplist_insert *)
Section Whole.
Context {V : Type} (cmp : list Z → list Z → Z) (fcb : bool).
Implicit Types (s : skiplist V) (w : wid) (L A B : list (loc * (list Z * V))).
Notation ikey x := (x.2.1 : list Z).

(** Where a new item goes: at the tail when no item precedes it. *)
Definition placed L1 L2 (x : loc * (list Z * V)) : list (loc * (list Z * V)) :=
  match L1 with [] => L2 ++ [x] | _ => L1 ++ x :: L2 end.

Lemma wf_set_value s L A l k v0 v B s' :
  wf s L → L = A ++ (l, (k, v0)) :: B → layers s' = layers s → wrappers s' = wrappers s → num_layers s' = num_layers s →
  next_item s' = next_item s → kv <$> items s' = <[l := (k, v)]> (kv <$> items s) → wf s' (A ++ (l, (k, v)) :: B).
Proof.
  intros [Hnum0 Hit0 Hlive0 Hf0 Hn0 Hl0 Hup Hfi Hla Hte Hfre] HL Hls Hw Hnum Hnext Hit.
  assert ((A ++ (l, (k, v)) :: B).*1 = L.*1) as Hfst by (by rewrite HL, !fmap_app).
  assert (∀ l2, link0 (A ++ (l, (k, v)) :: B) = l2 ↔ link0 L = l2) as Hlk by (rewrite HL; by destruct A).
  split; unfold first_at, last_at, live, nx in *; rewrite ?Hfst, ?Hls, ?Hw, ?Hnum, ?Hnext; try done.
  - rewrite Hit. assert (L ≡ₚ (l, (k, v0)) :: A ++ B) as Hp by (rewrite HL; by rewrite Permutation_middle).
    rewrite Hp in Hit0. apply heap_is_cons in Hit0 as (_ & Hu & _). specialize (Hu (k, v)).
    eapply heap_is_perm; [|exact Hu]. symmetry. apply Permutation_middle.
  - rewrite Hf0. f_equal. symmetry. by apply Hlk.
  - intros L1 x L2 HL12. destruct (app_eq_inv _ _ _ _ HL12) as [([|d D] & -> & HD)|([|d D] & -> & HD)]; cbn in HD;
      injection HD; clear HD; intros HD Hd; subst.
    + by apply (Hn0 L1 (l, (k, v0)) B); rewrite app_nil_r.
    + rewrite (Hn0 L1 d (D ++ (l, (k, v0)) :: B)) by (by rewrite <-app_assoc). by destruct D.
    + rewrite ?app_nil_r. by apply (Hn0 A (l, (k, v0)) L2).
    + apply (Hn0 (A ++ (l, (k, v0)) :: D) x L2). by rewrite <-app_assoc.
  - rewrite Hl0, HL, !last_app, !last_cons. by destruct (last B).
Qed.

Lemma wp_insert_new random k v s L1 L2 p0 up (Q : Z → skiplist V → Prop) :
  wf s (L1 ++ L2) → (∀ w, Some w ∈ up → upper (at_most cmp k) s (L1 ++ L2) w) →
  (∀ s', wf s' (placed L1 L2 (next_item s, (k, v))) → count s' = (count s + 1)%Z → Q 0%Z s') →
  wp (insert_new random k v (fst <$> last L1) (p0 :: up)) Q s.
Proof.
  intros Hwf Hup HQ. unfold insert_new. apply wp_bind, (wp_new_item k v s (L1 ++ L2) _ Hwf). set (l := next_item s) in *.
  assert (l ∉ (L1 ++ L2).*1) as Hnew by (by apply (wf_fresh _ _ Hwf)). intros s1 Hal. apply wp_bind.
  assert (∀ s2, frame s1 s2 → wf s2 (placed L1 L2 (l, (k, v))) → unlinked s2 l 1 →
    wp (_ ← check_layer l 0; s ← st_get; _ ← insert_up random l (p0 :: up) (num_layers s - 1) 1 true;
        _ ← st_modify (λ s, set_count (count s + 1) s); mret 0%Z) Q s2) as Hrest.
  { intros s2 Hfr2 Hwf2 Hun2. assert (l ∈ (placed L1 L2 (l, (k, v))).*1) as Hin.
    { unfold placed. destruct L1; rewrite fmap_app, elem_of_app; right; by left. }
    apply wp_bind, (wp_check_layer s2 _ l 0 _ Hwf2 Hin). intros s3 Hfr3 Hls3 Hnx3.
    pose proof (wf_same _ _ _ Hwf2 Hfr3 Hls3 Hnx3) as Hwf3. apply wp_bind, wp_get, wp_bind.
    destruct (wf_num _ _ Hwf3) as [_ Hpos].
    apply (wp_insert_up random l p0 up _ 1 true s3 (placed L1 L2 (l, (k, v)))); try done; [lia|lia|by eapply unlinked_same|..].
    - intros w Hw. destruct (Hup w Hw) as (H1 & H2 & y & Hy & _). split; [|split; [done|]].
      + rewrite (fr_live _ _ Hfr3), (fr_live _ _ Hfr2). apply Hal. by left.
      + intros Hwl. apply Hnew. rewrite <-Hwl. by apply (list_elem_of_fmap_2 fst) in Hy.
    - intros s4 Hfr4 Hwf4. apply wp_bind, wp_modify, wp_ret, HQ; [by destruct Hwf4|]. cbn.
      by rewrite (fr_count _ _ Hfr4), (fr_count _ _ Hfr3), (fr_count _ _ Hfr2), (al_count _ _ _ _ Hal). }
  destruct L1 as [|y L1 _] using rev_ind; cbn.
  - apply (wp_link_tail s s1 L2 l (k, v)); try done. intros s2 ? ? ? _. by apply Hrest.
  - rewrite last_snoc. cbn. apply (wp_link_after s s1 L1 y L2 l (k, v)); try done. intros s2 ? Hwf2 ?. apply Hrest; try done.
    unfold placed. destruct (L1 ++ [y]) eqn:Hy; [by destruct L1|]. done.
Qed.

Lemma wp_skiplist_insert random k v s L1 L2 (Q : Z → skiplist V → Prop) :
  wf s (L1 ++ L2) → (∀ x, x ∈ L1 → (cmp (ikey x) k <= 0)%Z) → (∀ x, x ∈ L2 → (cmp (ikey x) k > 0)%Z) →
  (∀ A l k0 v0 s', L1 = A ++ [(l, (k0, v0))] → cmp k0 k = 0%Z → wf s' (A ++ (l, (k0, v)) :: L2) → count s' = count s → Q 1%Z s') →
  (∀ s', (∀ x, last L1 = Some x → cmp (ikey x) k ≠ 0%Z) → wf s' (placed L1 L2 (next_item s, (k, v))) →
     count s' = (count s + 1)%Z → Q 0%Z s') →
  wp (skiplist_insert cmp fcb random k v) Q s.
Proof.
  intros Hwf HL1 HL2 HQ1 HQ0. unfold skiplist_insert. apply wp_bind.
  apply (wp_search_internal cmp k s (L1 ++ L2) L1 L2); try done. intros p0 up Hup.
  assert ((∀ x, last L1 = Some x → cmp (ikey x) k ≠ 0%Z) → wp (insert_new random k v (fst <$> last L1) (p0 :: up)) Q s) as Hadd.
  { intros Hne. apply (wp_insert_new random k v s L1 L2); auto. }
  destruct (last L1) as [[l1 [k1 v1]]|] eqn:Hlast; cbn [fmap option_fmap option_map fst]; [|by apply Hadd].
  apply last_Some in Hlast as [A ->].
  assert ((l1, (k1, v1)) ∈ (A ++ [(l1, (k1, v1))]) ++ L2) as Hin by set_solver.
  destruct (wf_item _ _ _ _ Hwf Hin) as (d & Hd & Hkv). injection Hkv as Hk1 Hv1.
  apply wp_bind. unfold wp at 1, ld_item. rewrite Hd.
  case_bool_decide as Hc; [|apply Hadd; intros x [= <-]; cbn; by rewrite <-Hk1]. apply wp_bind. unfold free_value.
  assert (∀ s1, layers s1 = layers s → wrappers s1 = wrappers s → num_layers s1 = num_layers s → next_item s1 = next_item s →
    items s1 = items s → count s1 = count s →
    wp (_ ← st_item l1 (λ d, mk_item (key d) v (layer_check d)); mret 1%Z) Q s1) as Hset.
  { intros s1 H1 H2 H3 H4 H5 H6. apply wp_bind. unfold wp at 1, st_item, mbind, st_bind, ld_item. rewrite H5, Hd. cbn.
    apply wp_ret. apply (HQ1 A l1 k1 v1); [done|by rewrite <-Hk1| |done].
    eapply (wf_set_value s _ A l1 k1 v1 v L2 _ Hwf); try done; [by rewrite <-app_assoc|]. cbn. by rewrite H5, fmap_insert, <-Hk1. }
  destruct fcb; [apply wp_modify|apply wp_ret]; by apply Hset.
Qed.
End Whole.
