(* ===== verification/SkipListTheorems.v ===== *)
(** * The skip list: theorems

    As long as no new minimum is inserted the skip list is a map, whatever the
    layers above 0 look like; a new minimum is lost; and removal reads freed
    memory once the layers are tangled.  The end holds the number index of
    index/spi/skiplist_number_index.c: it passes its calls on to a skip list
    of five layers and collects range results in a linked list; an insertion
    comes with the results of the calls of random() it makes. *)
From S2P Require Import Prelude Heap LinkedList LinkedListRep LinkedListSpec RbTree Comparators SkipList SkipListRep SkipListInsert.

Section Map.
Context {V : Type} (cmp : list Z → list Z → Z) (fcb : bool) (P : list Z → Prop) `{!KeyOrder P cmp}.
Implicit Types (s : skiplist V) (L A B : list (loc * (list Z * V))) (m : gmap (list Z) V).
Notation ikey x := (x.2.1 : list Z).

(** [s] represents the map [m]. *)
Definition skl_is s m : Prop :=
  ∃ L, wf s L ∧ count s = Z.of_nat (length L) ∧ ascending cmp P (fst <$> L.*2) ∧ list_to_map L.*2 = m.

Lemma ikeys L : ((λ x, ikey x) <$> L) = fst <$> L.*2.
Proof. by rewrite <-list_fmap_compose. Qed.
Lemma asc_lookup L k v : ascending cmp P (fst <$> L.*2) → (list_to_map L.*2 : gmap _ V) !! k = Some v ↔ ∃ l, (l, (k, v)) ∈ L.
Proof.
  intros Hs. rewrite <-elem_of_list_to_map by (by eapply ascending_NoDup). split.
  - intros ([l x] & -> & Hin)%list_elem_of_fmap. by exists l.
  - intros [l Hin]. apply list_elem_of_fmap. by exists (l, (k, v)).
Qed.

Lemma skl_is_create n p : 0 < n → skl_is (skiplist_create n p) ∅.
Proof. intros Hn. exists []. split; [by apply wf_create|]. split_and!; try done. split; constructor. Qed.

(** A search ends at the last item that is not above the key. *)
Lemma split_lookup L L1 L2 k :
  ascending cmp P (fst <$> L.*2) → P k → L = L1 ++ L2 →
  (∀ x, x ∈ L1 → (cmp (ikey x) k <= 0)%Z) → (∀ x, x ∈ L2 → (cmp (ikey x) k > 0)%Z) →
  (list_to_map L.*2 : gmap _ V) !! k
  = match last L1 with Some x => if bool_decide (cmp (ikey x) k = 0%Z) then Some x.2.2 else None | None => None end.
Proof.
  intros Hs Hk HL H1 H2. assert (∀ x, x ∈ L → P (ikey x)) as HP.
  { destruct Hs as [_ HP]. rewrite Forall_forall in HP. intros x Hx. apply HP. rewrite <-ikeys.
    by apply (list_elem_of_fmap_2 (λ x, ikey x)) in Hx. }
  apply option_eq. intros v. rewrite asc_lookup by done. split.
  - intros [l Hin]. assert ((l, (k, v)) ∈ L1) as Hin1.
    { rewrite HL in Hin. apply elem_of_app in Hin as [?|Hin]; [done|]. apply H2 in Hin. cbn in Hin. rewrite ko_refl in Hin by done. lia. }
    apply list_elem_of_split in Hin1 as (A & B & HB). destruct (last B) as [y|] eqn:Hy.
    + apply last_Some in Hy as [B' ->]. exfalso.
      assert (y ∈ L1) as Hy1 by (rewrite HB; set_solver). pose proof (H1 y Hy1) as Hle.
      assert (cmp k (ikey y) < 0)%Z as Hlt.
      { rewrite HL, HB, <-ikeys in Hs. rewrite !fmap_app in Hs. apply ascending_app in Hs as (Hs & _ & _).
        rewrite fmap_cons, fmap_app in Hs. apply ascending_app in Hs as (_ & [Hs _] & _).
        inversion Hs as [|? ? _ Hfa]. rewrite Forall_forall in Hfa. apply Hfa. set_solver. }
      assert (P (ikey y)) as HPy by (apply HP; rewrite HL; set_solver).
      pose proof (ko_lt_le cmp P k (ikey y) k Hk HPy Hk Hlt Hle) as Hkk. rewrite ko_refl in Hkk by done. lia.
    + apply last_None in Hy. subst B. rewrite HB, last_snoc. cbn. rewrite bool_decide_eq_true_2; [done|by apply ko_refl].
  - destruct (last L1) as [[l [k' v']]|] eqn:Hl; [|done]. cbn. case_bool_decide as Hc; [|done]. intros [= ->].
    apply last_Some_elem_of in Hl. assert ((l, (k', v)) ∈ L) as Hin by (rewrite HL; set_solver).
    pose proof (HP _ Hin) as HPk. cbn in HPk. apply ko_eq in Hc; [|done..]. subst. by exists l.
Qed.

Lemma search_is s m k :
  skl_is s m → P k → skiplist_search cmp k s = Ret (m !! k, s).
Proof.
  intros (L & Hwf & _ & Hs & <-) Hk. pose proof Hs as Hs'. rewrite <-ikeys in Hs'.
  destruct (ascending_split cmp P (λ x, ikey x) L k Hs' Hk) as (L1 & L2 & HL & H1 & H2).
  rewrite (split_lookup L L1 L2) by done.
  assert (wp (skiplist_search cmp k) (λ r s', s' = s ∧ r = match last L1 with
    Some x => if bool_decide (cmp (ikey x) k = 0%Z) then Some x.2.2 else None | None => None end) s) as Hw.
  { unfold skiplist_search. apply wp_bind. apply (wp_search_internal cmp k s L L1 L2); try done. intros p0 up _.
    destruct (last L1) as [[l x]|] eqn:Hl; cbn [fmap option_fmap option_map fst]; [|by apply wp_ret].
    apply last_Some_elem_of in Hl. assert ((l, x) ∈ L) as Hin by (rewrite HL; set_solver).
    destruct (wf_item _ _ _ _ Hwf Hin) as (d & Hd & <-). apply wp_bind. unfold wp at 1, ld_item. rewrite Hd. by apply wp_ret. }
  apply wp_run in Hw as (r & s' & -> & -> & ->). done.
Qed.

(** On a skip list that represents a map, skiplist_search finds the value
    of a key if and only if the map has one, whatever the upper layers hold;
    it reads no freed memory and its loops end. *)
Theorem skiplist_search_correct s m k :
  skl_is s m → P k → skiplist_search cmp k s = Ret (m !! k, s).
Proof. apply search_is. Qed.

(** Membership in the map and in the items. *)
Lemma asc_key L x : ascending cmp P (fst <$> L.*2) → x ∈ L → P (ikey x) ∧ is_Some ((list_to_map L.*2 : gmap _ V) !! ikey x).
Proof.
  intros Hs Hx. split.
  - destruct Hs as [_ HP]. rewrite Forall_forall in HP. apply HP. rewrite <-ikeys.
    by apply (list_elem_of_fmap_2 (λ x, ikey x)) in Hx.
  - destruct x as [l [k v]]. exists v. apply asc_lookup; [done|]. by exists l.
Qed.

Lemma asc_update A l k v0 v B :
  ascending cmp P (fst <$> (A ++ (l, (k, v0)) :: B).*2) →
  ascending cmp P (fst <$> (A ++ (l, (k, v)) :: B).*2)
  ∧ (list_to_map (A ++ (l, (k, v)) :: B).*2 : gmap _ V) = <[k := v]> (list_to_map (A ++ (l, (k, v0)) :: B).*2).
Proof.
  intros Hs. assert (∀ v, (A ++ (l, (k, v)) :: B).*2 ≡ₚ (k, v) :: (A ++ B).*2) as Hp.
  { intros v'. by rewrite <-Permutation_middle. }
  assert (ascending cmp P (fst <$> (A ++ (l, (k, v)) :: B).*2)) as Hs' by (by rewrite !fmap_app in *).
  split; [done|]. rewrite (list_to_map_proper _ _ (ascending_NoDup _ _ _ Hs') (Hp v)).
  rewrite (list_to_map_proper _ _ (ascending_NoDup _ _ _ Hs) (Hp v0)). cbn. by rewrite insert_insert_eq.
Qed.
Lemma asc_insert L1 L2 l k v :
  ascending cmp P (fst <$> (L1 ++ L2).*2) → P k →
  (∀ x, x ∈ L1 → (cmp (ikey x) k < 0)%Z) → (∀ x, x ∈ L2 → (cmp (ikey x) k > 0)%Z) →
  ascending cmp P (fst <$> (L1 ++ (l, (k, v)) :: L2).*2)
  ∧ (list_to_map (L1 ++ (l, (k, v)) :: L2).*2 : gmap _ V) = <[k := v]> (list_to_map (L1 ++ L2).*2).
Proof.
  intros Hs Hk H1 H2. assert (ascending cmp P (fst <$> (L1 ++ (l, (k, v)) :: L2).*2)) as Hs'.
  { rewrite <-ikeys in *. rewrite !fmap_app, fmap_cons in *. apply ascending_app in Hs as (Ha & Hb & Hab).
    apply ascending_app. split; [done|]. split.
    - destruct Hb as [Hb HPb]. split; [|by constructor]. constructor; [done|]. apply Forall_forall.
      intros k' Hk'. rewrite Forall_forall in HPb. pose proof (HPb _ Hk').
      apply list_elem_of_fmap in Hk' as (y & -> & Hy%H2). by apply ko_gt.
    - intros a b Hain [->|Hb']%elem_of_cons; [|by apply Hab]. apply list_elem_of_fmap in Hain as (y & -> & Hy%H1). done. }
  split; [done|]. rewrite (list_to_map_proper _ ((k, v) :: (L1 ++ L2).*2)); [done|by eapply ascending_NoDup|].
  by rewrite <-Permutation_middle.
Qed.

(** What skiplist_insert leaves, when it replaced a value and when it did not. *)
Lemma skl_is_update s' L A l k0 v0 v B k :
  ascending cmp P (fst <$> L.*2) → P k → L = (A ++ [(l, (k0, v0))]) ++ B → cmp k0 k = 0%Z →
  wf s' (A ++ (l, (k0, v)) :: B) → count s' = Z.of_nat (length L) → skl_is s' (<[k := v]> (list_to_map L.*2)).
Proof.
  intros Hs Hk HL Hc Hwf Hcnt. assert (k0 = k) as ->.
  { apply ko_eq; try done. eapply (asc_key L (l, (k0, v0)) Hs). rewrite HL. set_solver. }
  rewrite <-app_assoc in HL. cbn in HL. rewrite HL in Hs. destruct (asc_update A l k v0 v B Hs) as [Hs2 HM].
  exists (A ++ (l, (k, v)) :: B). split_and!; try done; [|by rewrite HM, HL].
  rewrite Hcnt, HL, !length_app. done.
Qed.
Lemma skl_is_new s' L1 L2 l k v :
  ascending cmp P (fst <$> (L1 ++ L2).*2) → P k → (list_to_map (L1 ++ L2).*2 : gmap _ V) !! k = None →
  (∀ x, x ∈ L1 → (cmp (ikey x) k <= 0)%Z) → (∀ x, x ∈ L2 → (cmp (ikey x) k > 0)%Z) →
  wf s' (L1 ++ (l, (k, v)) :: L2) → count s' = (Z.of_nat (length (L1 ++ L2)) + 1)%Z →
  skl_is s' (<[k := v]> (list_to_map (L1 ++ L2).*2)).
Proof.
  intros Hs Hk Hnone H1 H2 Hwf Hcnt. destruct (asc_insert L1 L2 l k v Hs Hk) as [Hs2 HM]; [|done|].
  - intros x Hx. pose proof (H1 x Hx). enough (cmp (ikey x) k ≠ 0%Z) by lia. intros Hc.
    destruct (asc_key (L1 ++ L2) x Hs) as [HPx [v' Hv']]; [set_solver|]. apply ko_eq in Hc; [|done..].
    rewrite Hc in Hv'. congruence.
  - exists (L1 ++ (l, (k, v)) :: L2). split_and!; try done. rewrite Hcnt, !length_app. cbn. lia.
Qed.
Lemma skl_is_size s m : skl_is s m → skiplist_count s = Ret (Z.of_nat (size m), s).
Proof.
  intros (L & _ & Hc & Ho & <-). unfold skiplist_count, mbind, st_bind, st_get. rewrite Hc.
  rewrite <-length_map_to_list, map_to_list_to_map by (by eapply ascending_NoDup). by rewrite length_fmap.
Qed.
(** A key that is not a new minimum has a predecessor. *)
Lemma placed_behind L1 L2 x k :
  ascending cmp P (fst <$> (L1 ++ L2).*2) → (∀ x, x ∈ L2 → (cmp (ikey x) k > 0)%Z) →
  (list_to_map (L1 ++ L2).*2 = (∅ : gmap _ V) ∨
   ∃ k', is_Some ((list_to_map (L1 ++ L2).*2 : gmap _ V) !! k') ∧ (cmp k' k <= 0)%Z) →
  placed L1 L2 x = L1 ++ x :: L2.
Proof.
  intros Hs H2 Hmin. destruct L1 as [|y L1]; [|done]. destruct Hmin as [Hm|(k' & [v' Hk'] & Hle)].
  - destruct L2 as [|y L2]; [done|]. destruct (asc_key _ y Hs) as [_ [? Hy]]; [set_solver|]. by rewrite Hm in Hy.
  - apply asc_lookup in Hk' as [l' Hin]; [|done]. apply H2 in Hin. cbn in Hin. lia.
Qed.

Lemma insert_is random s m k v :
  skl_is s m → P k → m = ∅ ∨ (∃ k', is_Some (m !! k') ∧ (cmp k' k <= 0)%Z) →
  ∃ s', skiplist_insert cmp fcb random k v s = Ret (if bool_decide (is_Some (m !! k)) then 1%Z else 0%Z, s')
    ∧ skl_is s' (<[k := v]> m).
Proof.
  intros (L & Hwf & Hcnt & Hs & <-) Hk Hmin. pose proof Hs as Hs'. rewrite <-ikeys in Hs'.
  destruct (ascending_split cmp P (λ x, ikey x) L k Hs' Hk) as (L1 & L2 & -> & H1 & H2).
  pose proof (split_lookup _ L1 L2 k Hs Hk eq_refl H1 H2) as Hlk. set (m := list_to_map (L1 ++ L2).*2 : gmap _ V) in *.
  assert (wp (skiplist_insert cmp fcb random k v) (λ r s', r = (if bool_decide (is_Some (m !! k)) then 1%Z else 0%Z)
    ∧ skl_is s' (<[k := v]> m)) s) as Hw.
  { apply (wp_skiplist_insert cmp fcb random k v s L1 L2 _ Hwf H1 H2).
    - intros A l k0 v0 s' -> Hc Hwf' Hcnt'. rewrite last_snoc in Hlk. cbn in Hlk.
      rewrite bool_decide_eq_true_2 in Hlk by done. rewrite Hlk, bool_decide_eq_true_2 by (by eexists). split; [done|].
      eapply skl_is_update; try done. by rewrite Hcnt', Hcnt.
    - intros s' Hne Hwf' Hcnt'. assert (m !! k = None) as Hnone.
      { rewrite Hlk. destruct (last L1) as [x|]; [|done]. rewrite bool_decide_eq_false_2; [done|]. by apply Hne. }
      rewrite Hnone, bool_decide_eq_false_2 by (by intros []). split; [done|].
      rewrite (placed_behind L1 L2 _ k Hs H2 Hmin) in Hwf'. eapply skl_is_new; try done. by rewrite Hcnt', Hcnt. }
  apply wp_run in Hw as (r & s' & Hrun & -> & His). by exists s'.
Qed.

(** Inserting a key that is not below every key of a non-empty skip list
    is the update of the map, for every outcome of the coin: it returns 1 when
    it replaced a value and 0 otherwise, and skiplist_count is the number of
    keys.  No pointer that is followed is dangling, though wrappers of one
    layer end up in the chains of another. *)
Theorem skiplist_insert_correct random s m k v :
  skl_is s m → P k → m = ∅ ∨ (∃ k', is_Some (m !! k') ∧ (cmp k' k <= 0)%Z) →
  ∃ s', skiplist_insert cmp fcb random k v s = Ret (if bool_decide (is_Some (m !! k)) then 1%Z else 0%Z, s')
    ∧ skl_is s' (<[k := v]> m) ∧ skiplist_count s' = Ret (Z.of_nat (size (<[k := v]> m)), s').
Proof.
  intros His Hk Hmin. destruct (insert_is random s m k v His Hk Hmin) as (s' & Hrun & His'). exists s'.
  split; [done|]. split; [done|]. by apply skl_is_size.
Qed.

(** A search that finds every first item above the key finds nothing. *)
Lemma wp_search_down_none n k path s (Q : option wid * list (option wid) → skiplist V → Prop) :
  (∀ i, i < n → ∃ f, first_at s i = Some f ∧
     ∀ w, f = Some w → live s w ∧ ∃ d, items s !! w.1 = Some d ∧ (cmp (key d) k > 0)%Z) →
  0 < size (wrappers s) → (∀ path', Q (None, path') s) → wp (search_down cmp n k None path) Q s.
Proof.
  intros Hf Hsz HQ. revert path. induction n as [|n IH]; intros path; cbn [search_down]; [by apply wp_ret|].
  destruct (Hf n) as (f & Hfn & Hw); [lia|]. apply wp_bind, (wp_first _ _ _ _ Hfn), wp_bind, wp_get, wp_bind.
  assert (wp (search_down cmp n k None (None :: path)) Q s) as Hrec by (apply IH; intros i Hi; apply Hf; lia).
  destruct f as [w|]; [|by destruct (size (wrappers s)); apply wp_ret].
  destruct (Hw w eq_refl) as (Hl & d & Hd & Hgt). destruct (size (wrappers s)) as [|sz]; [lia|]. cbn [search_layer].
  apply wp_bind, wp_ld_wrapper; [done|]. intros x _ _. apply wp_bind. unfold wp at 1, ld_item. rewrite Hd.
  rewrite bool_decide_eq_true_2 by done. by apply wp_ret.
Qed.

(** Behind a new minimum every layer still starts with a greater key. *)
Lemma firsts_above s s4 L x k :
  wf s L → wf s4 (L ++ [x]) → L ≠ [] → (∀ i, 0 < i → first_at s4 i = first_at s i) →
  (∀ y, y ∈ L → (cmp (ikey y) k > 0)%Z) →
  ∀ i, i < num_layers s4 → ∃ f, first_at s4 i = Some f ∧
     ∀ w, f = Some w → live s4 w ∧ ∃ d, items s4 !! w.1 = Some d ∧ (cmp (key d) k > 0)%Z.
Proof.
  intros Hwf Hwf4 Hne Hfirst HL i Hi. destruct (wf_num _ _ Hwf4) as [Hlen4 _].
  destruct (lookup_lt_is_Some_2 (layers s4) i) as [h Hh]; [by rewrite Hlen4|].
  assert (first_at s4 i = Some (tqh_first h)) as Hf by (unfold first_at; by rewrite Hh). exists (tqh_first h). split; [done|].
  intros w Hw. rewrite Hw in Hf. assert (∃ y, y ∈ L ∧ w.1 = y.1 ∧ live s4 w) as ([l y] & Hy & Hwy & Hlive).
  { destruct i as [|i].
    - rewrite (wf_first0 _ _ Hwf4) in Hf. destruct L as [|y L]; [done|]. injection Hf as <-. exists y. split; [by left|].
      split; [done|]. apply (wf_live _ _ Hwf4). split; [by left|]. apply Hwf4.
    - pose proof Hf as Hfs. rewrite Hfirst in Hfs by lia. destruct (wf_first _ _ Hwf _ _ (Nat.lt_0_succ i) Hfs) as [Hlw _].
      destruct (wf_live_item _ _ _ Hwf Hlw) as [y Hy]. exists (w.1, y). split; [done|]. split; [done|].
      by destruct (wf_first _ _ Hwf4 _ _ (Nat.lt_0_succ i) Hf). }
  split; [done|]. destruct (wf_item s4 _ l y Hwf4) as (d & Hd & Hkv); [set_solver|].
  exists d. cbn in Hwy. rewrite Hwy. split; [done|]. specialize (HL _ Hy). cbn in HL. by rewrite <-Hkv in HL.
Qed.

(** A new minimum is lost: a key below every key of a non-empty skip list,
    inserted into layer 0 only (half of the cases), is counted but a search for
    it finds nothing, since TAILQ_INSERT_TAIL puts it behind all greater keys. *)
Theorem skiplist_minimum_lost (random : nat → Z) s m k v :
  skl_is s m → P k → m ≠ ∅ → (∀ k', is_Some (m !! k') → (cmp k' k > 0)%Z) →
  ¬ (random 1%nat `mod` 100 > probability s)%Z →
  ∃ s', skiplist_insert cmp fcb random k v s = Ret (0%Z, s')
    ∧ skiplist_count s' = Ret (Z.of_nat (size m) + 1, s')%Z ∧ skiplist_search cmp k s' = Ret (None, s').
Proof.
  intros His Hk Hne Hmin Hcoin. pose proof (skl_is_size _ _ His) as Hsz. destruct His as (L & Hwf & Hcnt & Hs & <-).
  assert (∀ x, x ∈ L → (cmp (ikey x) k > 0)%Z) as HL by (intros x Hx; by apply Hmin, asc_key).
  assert (count s = Z.of_nat (size (list_to_map L.*2 : gmap _ V))) as Hcs by (by injection Hsz).
  assert (wp (skiplist_insert cmp fcb random k v) (λ r s', r = 0%Z ∧ count s' = (count s + 1)%Z ∧
    wp (skiplist_search cmp k) (λ r s2, r = None ∧ s2 = s') s') s) as Hw.
  { unfold skiplist_insert. apply wp_bind.
    apply (wp_search_internal cmp k s L [] L); [done|done|intros x Hx; by apply not_elem_of_nil in Hx|done|].
    intros p0 up _. cbn. unfold insert_new. apply wp_bind, (wp_new_item k v s L _ Hwf). set (l := next_item s). intros s1 Hal.
    apply wp_bind, (wp_link_tail s s1 L l (k, v) _ Hwf eq_refl Hal). intros s2 Hfr2 Hwf2 _ Hfirst2.
    apply wp_bind, (wp_check_layer s2 (L ++ [(l, (k, v))])); [done|rewrite fmap_app; set_solver|]. intros s3 Hfr3 Hls3 Hnx3.
    pose proof (wf_same _ _ _ Hwf2 Hfr3 Hls3 Hnx3) as Hwf3.
    apply wp_bind, wp_get, wp_bind. unfold wp at 1. rewrite insert_up_tails.
    2:{ by rewrite (fr_prob _ _ Hfr3), (fr_prob _ _ Hfr2), (al_prob _ _ _ _ Hal). }
    apply wp_bind, wp_modify, wp_ret. split; [done|]. split.
    { cbn. by rewrite (fr_count _ _ Hfr3), (fr_count _ _ Hfr2), (al_count _ _ _ _ Hal). }
    set (s4 := set_count _ _). assert (wf s4 (L ++ [(l, (k, v))])) as Hwf4 by (by destruct Hwf3).
    unfold skiplist_search, skiplist_search_internal. apply wp_bind, wp_bind, wp_get, wp_bind.
    apply wp_search_down_none; [|pose proof (wf_length _ _ Hwf4) as Hl; rewrite length_app in Hl; cbn in Hl; cbn; lia|by intros; apply wp_ret].
    apply (firsts_above s s4 L (l, (k, v)) k); try done; [by intros ->|].
    intros i Hi. rewrite <-(Hfirst2 i Hi). unfold first_at. cbn. by rewrite Hls3. }
  apply wp_run in Hw as (r & s' & Hrun & -> & Hc & Hw). apply wp_run in Hw as (r & s2 & Hrun2 & -> & ->).
  exists s'. split; [done|]. split; [|done]. unfold skiplist_count, mbind, st_bind, st_get. by rewrite Hc, Hcs.
Qed.

Lemma range_is s m b e :
  skl_is s m → P b → (cmp b e < 0)%Z →
  ∃ l, skiplist_range_search cmp b e s = Ret (filter (λ p, in_span cmp b e p.1) l, s)
    ∧ sorted_pairs cmp l m ∧ l ≡ₚ map_to_list m.
Proof.
  intros (L & Hwf & _ & Hs & Hm) Hb Hbe. exists L.*2. split; [|split; [by split; [apply Hs|]|]].
  - unfold skiplist_range_search. rewrite bool_decide_eq_false_2 by lia.
    rewrite <-ikeys in Hs. destruct (ascending_split_lt cmp P (λ x, ikey x) L b Hs Hb) as (L1 & L2 & HL & H1 & H2).
    assert (wp (s ← st_get; range_down cmp (num_layers s) b e None [])
      (λ r s', r = filter (λ p, in_span cmp b e p.1) L.*2 ∧ s' = s) s) as Hw.
    { apply wp_bind, wp_get. destruct (wf_num _ _ Hwf) as [_ Hn]. destruct (num_layers s) as [|n] eqn:Hnum; [lia|].
      apply (wp_range_down cmp n b e None s L L1 L2); try done. lia. }
    apply wp_run in Hw as (r & s' & -> & -> & ->). done.
  - rewrite <-Hm, map_to_list_to_map; [done|]. by eapply ascending_NoDup.
Qed.

(** Skiplist_range_search calls its callback exactly on the pairs of the
    map whose key is at least [b] and less than [e], once each, in ascending
    order, and on none when the range is empty. *)
Theorem skiplist_range_search_correct s m b e :
  skl_is s m → P b →
  ∃ l, skiplist_range_search cmp b e s
      = Ret (if bool_decide (cmp b e < 0)%Z then filter (λ p, in_span cmp b e p.1) l else [], s)
    ∧ sorted_pairs cmp l m.
Proof.
  intros His Hb. case_bool_decide as Hbe.
  - destruct (range_is s m b e His Hb Hbe) as (l & Hrun & Hl & _). by exists l.
  - destruct His as (L & _ & _ & Hs & Hm). exists L.*2. split; [|by split; [apply Hs|]].
    unfold skiplist_range_search. by rewrite bool_decide_eq_true_2 by lia.
Qed.
End Map.

(** ** Tangled layers *)

(** The calls of random() that promote an item to [n] upper layers. *)
Definition heads (n i : nat) : Z := if bool_decide (i ≤ n) then 99%Z else 0%Z.
Definition put {V} (x : Z) (n : nat) (v : V) : st (skiplist V) Z :=
  skiplist_insert libhl_cmp_keys_int true (heads n) (int_bytes x) v.
Definition tangle {V} (v : V) : st (skiplist V) Z :=
  _ ← put 1 0 v; _ ← put 10 2 v; _ ← put 20 2 v; put 5 2 v.

(** The layers get tangled: skiplist_insert links a wrapper of layer 1
    behind one of layer 2, and cuts the rest of layer 2 off.  After four
    insertions into a skip list as the plug-in creates it, removing 10 and then
    20 writes to freed memory, and so does skiplist_destroy. *)
Theorem skiplist_remove_faults {V} (v : V) :
  ∃ s, tangle v (skiplist_create 5 50) = Ret (0%Z, s)
    ∧ skiplist_search libhl_cmp_keys_int (int_bytes 20) s = Ret (Some v, s)
    ∧ (r ← skiplist_remove libhl_cmp_keys_int true (int_bytes 10) true;
       r' ← skiplist_remove libhl_cmp_keys_int true (int_bytes 20) true; mret (r, r')) s = Fault
    ∧ skiplist_destroy true s = Fault.
Proof. eexists. split; [vm_compute; reflexivity|]. split_and!; vm_compute; reflexivity. Qed.

(** ** Witnesses *)
Definition skl0 : skiplist Z := skiplist_create 5 50.
Notation ck := libhl_cmp_keys_int (only parsing).
Definition skl1 : skiplist Z := match put 10 2 7%Z skl0 with Ret (_, s) => s | Fault => skl0 end.
Definition skl2 : skiplist Z := match put 20 3 8%Z skl1 with Ret (_, s) => s | Fault => skl0 end.
Definition map1 : gmap (list Z) Z := {[int_bytes 10 := 7%Z]}.
Definition map2 : gmap (list Z) Z := <[int_bytes 20 := 8%Z]> map1.

Lemma int_key_small x : (- 2 ^ 30 ≤ x < 2 ^ 30)%Z → int_key (int_bytes x).
Proof. intros Hx. by exists x. Qed.
Lemma skl1_is : skl_is ck int_key skl1 map1.
Proof.
  assert (skl_is ck int_key skl0 ∅) as H0 by (apply skl_is_create; lia).
  destruct (insert_is ck true int_key (heads 2) skl0 ∅ (int_bytes 10) 7%Z H0) as (s & Hrun & His);
    [by apply int_key_small|by left|]. unfold skl1, put. by rewrite Hrun.
Qed.
Lemma skl2_is : skl_is ck int_key skl2 map2.
Proof.
  destruct (insert_is ck true int_key (heads 3) skl1 map1 (int_bytes 20) 8%Z skl1_is) as (s & Hrun & His).
  - by apply int_key_small.
  - right. exists (int_bytes 10). split; [by exists 7%Z|]. vm_compute. discriminate.
  - unfold skl2, put. by rewrite Hrun.
Qed.

Lemma skiplist_search_correct_witness :
  skl_is ck int_key skl2 map2 ∧ skiplist_search ck (int_bytes 20) skl2 = Ret (Some 8%Z, skl2)
  ∧ skiplist_search ck (int_bytes 15) skl2 = Ret (None, skl2).
Proof.
  split; [exact skl2_is|]. split.
  - exact (skiplist_search_correct ck int_key skl2 map2 (int_bytes 20) skl2_is (int_key_small 20 ltac:(lia))).
  - exact (skiplist_search_correct ck int_key skl2 map2 (int_bytes 15) skl2_is (int_key_small 15 ltac:(lia))).
Defined.
Lemma skiplist_insert_correct_witness :
  ∃ s', put 15 4 9%Z skl2 = Ret (0%Z, s') ∧ skl_is ck int_key s' (<[int_bytes 15 := 9%Z]> map2)
    ∧ skiplist_count s' = Ret (3%Z, s').
Proof.
  refine (skiplist_insert_correct ck true int_key (heads 4) skl2 map2 (int_bytes 15) 9%Z skl2_is (int_key_small 15 ltac:(lia)) _).
  right. exists (int_bytes 10). split; [exists 7%Z; vm_compute; reflexivity|vm_compute; discriminate].
Defined.
Lemma skiplist_minimum_lost_witness :
  ∃ s', put 5 0 9%Z skl2 = Ret (0%Z, s') ∧ skiplist_count s' = Ret (3%Z, s')
    ∧ skiplist_search ck (int_bytes 5) s' = Ret (None, s').
Proof.
  refine (skiplist_minimum_lost ck true int_key (heads 0) skl2 map2 (int_bytes 5) 9%Z skl2_is (int_key_small 5 ltac:(lia)) _ _ _).
  - by intros H%(f_equal (lookup (int_bytes 10))).
  - intros k' [v' Hv']. unfold map2, map1 in Hv'.
    apply lookup_insert_Some in Hv' as [[<- _]|[_ [<- _]%lookup_singleton_Some]]; vm_compute; reflexivity.
  - vm_compute. intros H. discriminate.
Defined.
Lemma skiplist_range_search_correct_witness :
  ∃ l, skiplist_range_search ck (int_bytes 10) (int_bytes 20) skl2
      = Ret (if bool_decide (ck (int_bytes 10) (int_bytes 20) < 0)%Z
             then filter (λ p, in_span ck (int_bytes 10) (int_bytes 20) p.1) l else [], skl2)
    ∧ sorted_pairs ck l map2.
Proof. exact (skiplist_range_search_correct ck int_key skl2 map2 (int_bytes 10) (int_bytes 20) skl2_is (int_key_small 10 ltac:(lia))). Defined.

(** ** The number index on a skip list (index/spi/skiplist_number_index.c) *)
Section Index.
Context {V : Type} (cmp_cb : list Z → list Z → Z).

Definition create_skiplist_index : skiplist V := skiplist_create 5 50.
Definition insert_number_to_skiplist (random : nat → Z) (k : list Z) (data : V) : st (skiplist V) Z :=
  skiplist_insert cmp_cb false random k data.
Definition search_number_from_skiplist (k : list Z) : st (skiplist V) (option V) := skiplist_search cmp_cb k.

(** collect_data_from_skiplist on the calls of a range search. *)
Fixpoint collect_data_from_skiplist (calls : list (list Z * V)) (rst : linked_list V) : outcome (linked_list V) :=
  match calls with
  | [] => Ret rst
  | (_, value) :: calls => '(_, rst) ← list_push_value (Some value) rst; collect_data_from_skiplist calls rst
  end.
Definition search_numeric_range_from_skiplist (b e : list Z) : st (skiplist V) (linked_list V) :=
  λ s, '(calls, s) ← skiplist_range_search cmp_cb b e s;
       rst ← collect_data_from_skiplist calls list_create; Ret (rst, s).

(** ** Runs *)
Fixpoint insert_numbers (kvs : list ((nat → Z) * (list Z * V))) : st (skiplist V) unit :=
  match kvs with
  | [] => mret tt
  | (random, (k, v)) :: kvs => _ ← insert_number_to_skiplist random k v; insert_numbers kvs
  end.
(** What the calls should build: later values replace earlier ones. *)
Definition assigned (kvs : list ((nat → Z) * (list Z * V))) (m : gmap (list Z) V) : gmap (list Z) V :=
  foldl (λ m x, <[x.2.1 := x.2.2]> m) m kvs.

Context (P : list Z → Prop) `{!KeyOrder P cmp_cb}.

Lemma insert_numbers_is k0 kvs s m :
  skl_is cmp_cb P s m → is_Some (m !! k0) → Forall (λ x, P x.2.1 ∧ (cmp_cb k0 x.2.1 <= 0)%Z) kvs →
  ∃ s', insert_numbers kvs s = Ret (tt, s') ∧ skl_is cmp_cb P s' (assigned kvs m).
Proof.
  intros His H0 Hk. revert s m His H0. induction Hk as [|[random [k v]] kvs [HP Hle] Hk IH]; intros s m His H0; [by exists s|].
  cbn [insert_numbers]. cbn in HP, Hle.
  destruct (insert_is cmp_cb false P random s m k v His HP) as (s1 & Hrun & His1); [right; by exists k0|].
  unfold mbind, st_bind, insert_number_to_skiplist. rewrite Hrun. apply (IH s1); [done|].
  rewrite lookup_insert_is_Some'. by right.
Qed.

Lemma collect_calls_ok calls rst vs :
  list_is rst (Some <$> vs) → (Z.of_nat (length vs + length calls) ≤ MAX_LEN)%Z →
  ∃ rst', collect_data_from_skiplist calls rst = Ret rst' ∧ list_is rst' (Some <$> vs ++ calls.*2).
Proof.
  revert rst vs. induction calls as [|[k v] calls IH]; intros rst vs Hl Hlen; cbn in *.
  { exists rst. by rewrite app_nil_r. }
  destruct (list_push_value_is rst _ (Some v) Hl) as (r1 & -> & Hl1); [rewrite length_fmap; lia|]. cbn.
  destruct (IH r1 (vs ++ [v])) as (r2 & -> & Hl2); [by rewrite fmap_app|rewrite length_app; cbn; lia|].
  exists r2. split; [done|]. by rewrite <-app_assoc in Hl2.
Qed.

Lemma size_assigned (kvs : list ((nat → Z) * (list Z * V))) (m : gmap (list Z) V) : size (assigned kvs m) ≤ size m + length kvs.
Proof.
  unfold assigned. revert m. induction kvs as [|x kvs IH]; intros m; cbn; [lia|]. etrans; [apply IH|].
  destruct (m !! x.2.1) eqn:Hx; [rewrite map_size_insert_Some by done|rewrite map_size_insert_None by done]; lia.
Qed.

(** The skip-list index, for any run of insertions that starts with its
    least key: every search returns the value last inserted under the key, and
    a range query returns the values of the keys from [b] to [e], the end
    excluded, in ascending key order. *)
Theorem skiplist_index_refines r0 k0 v0 kvs k b e :
  P k0 → Forall (λ x, P x.2.1 ∧ (cmp_cb k0 x.2.1 <= 0)%Z) kvs → P k → P b → (cmp_cb b e < 0)%Z →
  (Z.of_nat (S (length kvs)) ≤ MAX_LEN)%Z →
  let m := assigned kvs {[k0 := v0]} in
  ∃ s l rst, insert_numbers ((r0, (k0, v0)) :: kvs) create_skiplist_index = Ret (tt, s)
    ∧ search_number_from_skiplist k s = Ret (m !! k, s)
    ∧ search_numeric_range_from_skiplist b e s = Ret (rst, s)
    ∧ sorted_pairs cmp_cb l m ∧ list_is rst (Some ∘ snd <$> filter (λ p, in_span cmp_cb b e p.1) l).
Proof.
  intros H0 Hk HPk HPb Hbe Hlen m.
  assert (skl_is cmp_cb P create_skiplist_index (∅ : gmap (list Z) V)) as Hinit by (apply skl_is_create; lia).
  destruct (insert_is cmp_cb false P r0 _ ∅ k0 v0 Hinit H0) as (s1 & Hrun1 & His1); [by left|].
  destruct (insert_numbers_is k0 kvs s1 {[k0 := v0]}) as (s & Hrun & His); [done|by rewrite lookup_singleton_eq|done|].
  destruct (range_is cmp_cb P s m b e His HPb Hbe) as (l & Hrange & Hl & Hperm).
  destruct (collect_calls_ok (filter (λ p, in_span cmp_cb b e p.1) l) list_create []) as (rst & Hcol & Hrst).
  { apply list_is_create. }
  { cbn. pose proof (length_filter (λ p, in_span cmp_cb b e p.1) l) as Hf. assert (length l = size m) as Hsize by (by rewrite Hperm, length_map_to_list). rewrite Hsize in Hf.
    pose proof (size_assigned kvs {[k0 := v0]}) as Hm. fold m in Hm. rewrite map_size_singleton in Hm. lia. }
  exists s, l, rst. split_and!; try done.
  - cbn [insert_numbers]. unfold mbind, st_bind, insert_number_to_skiplist. by rewrite Hrun1.
  - by apply (search_is cmp_cb P).
  - unfold search_numeric_range_from_skiplist. rewrite Hrange. cbn. by rewrite Hcol.
  - by rewrite list_fmap_compose.
Qed.
End Index.

(** ** Witness *)
Definition three : list ((nat → Z) * (list Z * Z)) :=
  [(heads 3, (int_bytes 9, 2%Z)); (heads 1, (int_bytes 6, 3%Z)); (heads 0, (int_bytes 9, 4%Z))].
Lemma skiplist_index_refines_witness :
  let m : gmap (list Z) Z := assigned three {[int_bytes 5 := 1%Z]} in
  ∃ s l rst, insert_numbers libhl_cmp_keys_int ((heads 2, (int_bytes 5, 1%Z)) :: three) create_skiplist_index = Ret (tt, s)
    ∧ search_number_from_skiplist libhl_cmp_keys_int (int_bytes 9) s = Ret (m !! int_bytes 9, s)
    ∧ search_numeric_range_from_skiplist libhl_cmp_keys_int (int_bytes 5) (int_bytes 9) s = Ret (rst, s)
    ∧ sorted_pairs libhl_cmp_keys_int l m
    ∧ list_is rst (Some ∘ snd <$> filter (λ p, in_span libhl_cmp_keys_int (int_bytes 5) (int_bytes 9) p.1) l).
Proof.
  apply (skiplist_index_refines libhl_cmp_keys_int int_key (heads 2) (int_bytes 5) 1%Z three (int_bytes 9) (int_bytes 5) (int_bytes 9)).
  - apply int_key_small. lia.
  - repeat constructor; try (apply int_key_small; lia); vm_compute; discriminate.
  - apply int_key_small. lia.
  - apply int_key_small. lia.
  - vm_compute. reflexivity.
  - vm_compute. discriminate.
Defined.
