(* ===== verification/BinHeap.v ===== *)
(** * The binomial heap (src/index/libhl/binheap.c)

    Nodes and heaps are objects of a shared store: a node points to its heap,
    and two heaps can be merged.  A key is its bytes, so that [klen] is their
    number; [bn_children] are the first [num_children] entries of the children
    array.  The roots of a heap are in a linked list, the one of [LinkedList].
    Allocation does not fail. *)
From Stdlib Require Import SpecFloat.
From S2P Require Import Prelude Heap LinkedList Comparators.

Inductive binheap_mode := BINHEAP_MODE_MAX | BINHEAP_MODE_MIN.
#[export] Instance binheap_mode_eq_dec : EqDecision binheap_mode.
Proof. solve_decision. Defined.

(** [incr] and [decr] return the new key. *)
Record binheap_callbacks := mk_cbs {
  cmp : list Z → list Z → Z;
  incr : list Z → Z → outcome (list Z);
  decr : list Z → Z → outcome (list Z)
}.

(** ** Callbacks *)
(** memcmp of two blocks of one length: the sign of the first difference. *)
Fixpoint memcmp (k1 k2 : list Z) : Z :=
  match k1, k2 with
  | b1 :: k1, b2 :: k2 => if bool_decide (b1 = b2) then memcmp k1 k2 else b1 - b2
  | _, _ => 0
  end.
Definition cmp_keys_default (k1 k2 : list Z) : Z :=
  if bool_decide (length k1 ≠ length k2) then i32 (Z.of_nat (length k1) - Z.of_nat (length k2))
  else memcmp k1 k2.

(** The while loop of incr_key_default and decr_key_default: [past b x] is the
    test for a carry, [next x] the byte with the carry. *)
Fixpoint carry_loop (past : Z → Z → bool) (next : Z → Z) (key : list Z) (off : nat) (b : Z) (nk : list Z)
    : outcome (nat * Z * list Z) :=
  x ← deref (key !! off);
  match off with
  | O => Ret (O, b, nk)
  | S off' =>
      if past b x then
        y ← deref (key !! off');
        carry_loop past next key off' (next y) (<[off := b]> nk)
      else Ret (off, b, nk)
  end.
Definition step_key (past : Z → Z → bool) (step next : Z → Z) (lead : Z) (k1 : list Z) : outcome (list Z) :=
  if bool_decide (k1 = []) then Fault
  else
    let off := length k1 - 1 in
    x ← deref (k1 !! off);
    '(off, b, nk) ← carry_loop past next k1 off (step x) k1;
    y ← deref (nk !! 0);
    Ret (if bool_decide (off = 0) && past b y then lead :: nk else nk).
Definition incr_key_default (k1 : list Z) (n : Z) : outcome (list Z) :=
  step_key (λ b x, bool_decide (b < x)%Z) (λ x, u8 (x + n)) (λ x, u8 (x + 1)) 1 k1.
Definition decr_key_default (k1 : list Z) (n : Z) : outcome (list Z) :=
  step_key (λ b x, bool_decide (b > x)%Z) (λ x, u8 (x - n)) (λ x, u8 (x - 1)) 255 k1.
Definition keys_callbacks_default : binheap_callbacks :=
  mk_cbs cmp_keys_default incr_key_default decr_key_default.

(** BINHEAP_INCR_KEY_TYPE and BINHEAP_DECR_KEY_TYPE for a type of [size] bytes,
    [step] the new pattern of its bits.  A shorter key is read past its end, and
    a longer one gets a tail that is not initialised: both count as faults.
    Callbacks for float and double keys are left out. *)
Definition BINHEAP_STEP_KEY_TYPE (size : nat) (step : Z → Z) (k : list Z) : outcome (list Z) :=
  if bool_decide (length k = size) then Ret (le_split size (step (le_combine k))) else Fault.
Definition BINHEAP_KEY_CALLBACKS_TYPE (size : nat) (cmp_keys : list Z → list Z → Z) : binheap_callbacks :=
  let wrap z := (z `mod` 2 ^ (8 * Z.of_nat size))%Z in
  mk_cbs cmp_keys
    (λ k n, BINHEAP_STEP_KEY_TYPE size (λ w, wrap (w + n)%Z) k)
    (λ k n, BINHEAP_STEP_KEY_TYPE size (λ w, wrap (w - n)%Z) k).
Definition binheap_keys_callbacks_int16_t := BINHEAP_KEY_CALLBACKS_TYPE 2 libhl_cmp_keys_int16.
Definition binheap_keys_callbacks_int32_t := BINHEAP_KEY_CALLBACKS_TYPE 4 libhl_cmp_keys_int32.
Definition binheap_keys_callbacks_int64_t := BINHEAP_KEY_CALLBACKS_TYPE 8 libhl_cmp_keys_int64.
Definition binheap_keys_callbacks_uint16_t := BINHEAP_KEY_CALLBACKS_TYPE 2 libhl_cmp_keys_uint16.
Definition binheap_keys_callbacks_uint32_t := BINHEAP_KEY_CALLBACKS_TYPE 4 libhl_cmp_keys_uint32.
Definition binheap_keys_callbacks_uint64_t := BINHEAP_KEY_CALLBACKS_TYPE 8 libhl_cmp_keys_uint64.

(** ** The store *)
Section BinHeap.
Context {V : Type}.

Record binomial_tree_node := mk_bnode {
  bn_key : list Z;
  bn_value : V;
  bn_parent : option loc;
  bn_children : list loc;
  bn_bh : loc
}.
Record binheap := mk_binheap {
  bh_trees : linked_list loc;
  bh_head : option loc;
  bh_cbs : binheap_callbacks;
  bh_count : Z;
  bh_mode : binheap_mode
}.
Record store := mk_store {
  s_nodes : gmap loc binomial_tree_node;
  s_heaps : gmap loc binheap;
  s_next : loc
}.

Definition set_key (k : list Z) (v : V) (n : binomial_tree_node) : binomial_tree_node :=
  mk_bnode k v (bn_parent n) (bn_children n) (bn_bh n).
Definition set_parent (p : option loc) (n : binomial_tree_node) : binomial_tree_node :=
  mk_bnode (bn_key n) (bn_value n) p (bn_children n) (bn_bh n).
Definition set_children (f : list loc → list loc) (n : binomial_tree_node) : binomial_tree_node :=
  mk_bnode (bn_key n) (bn_value n) (bn_parent n) (f (bn_children n)) (bn_bh n).
Definition set_trees (l : linked_list loc) (h : binheap) : binheap :=
  mk_binheap l (bh_head h) (bh_cbs h) (bh_count h) (bh_mode h).
Definition set_bh_head (p : option loc) (h : binheap) : binheap :=
  mk_binheap (bh_trees h) p (bh_cbs h) (bh_count h) (bh_mode h).
Definition set_bh_count (z : Z) (h : binheap) : binheap :=
  mk_binheap (bh_trees h) (bh_head h) (bh_cbs h) z (bh_mode h).

Definition nld (p : loc) : st store binomial_tree_node :=
  λ s, match s_nodes s !! p with Some n => Ret (n, s) | None => Fault end.
Definition nupd (p : loc) (f : binomial_tree_node → binomial_tree_node) : st store unit :=
  λ s, match s_nodes s !! p with
       | Some n => Ret (tt, mk_store (<[p := f n]> (s_nodes s)) (s_heaps s) (s_next s))
       | None => Fault
       end.
Definition nalloc (n : binomial_tree_node) : st store loc :=
  λ s, Ret (s_next s, mk_store (<[s_next s := n]> (s_nodes s)) (s_heaps s) (Pos.succ (s_next s))).
Definition nfree (p : loc) : st store unit :=
  λ s, match s_nodes s !! p with
       | Some _ => Ret (tt, mk_store (delete p (s_nodes s)) (s_heaps s) (s_next s))
       | None => Fault
       end.
Definition hld (b : loc) : st store binheap :=
  λ s, match s_heaps s !! b with Some h => Ret (h, s) | None => Fault end.
Definition hupd (b : loc) (f : binheap → binheap) : st store unit :=
  λ s, match s_heaps s !! b with
       | Some h => Ret (tt, mk_store (s_nodes s) (<[b := f h]> (s_heaps s)) (s_next s))
       | None => Fault
       end.
Definition halloc (h : binheap) : st store loc :=
  λ s, Ret (s_next s, mk_store (s_nodes s) (<[s_next s := h]> (s_heaps s)) (Pos.succ (s_next s))).
Definition lift {A} (m : outcome A) : st store A := λ s, a ← m; Ret (a, s).
Definition nptr (p : option loc) : st store loc := lift (deref p).
(** A list operation on the roots of the heap [b]. *)
Definition on_trees {A} (b : loc) (m : st (linked_list loc) A) : st store A :=
  h ← hld b;
  '(a, l) ← lift (m (bh_trees h));
  _ ← hupd b (set_trees l);
  mret a.

Definition HAS_PRECEDENCE (h : binheap) (k1 k2 : list Z) : bool :=
  (bool_decide (bh_mode h = BINHEAP_MODE_MAX) && bool_decide (cmp (bh_cbs h) k1 k2 >= 0)%Z)
  || (bool_decide (bh_mode h = BINHEAP_MODE_MIN) && bool_decide (cmp (bh_cbs h) k1 k2 <= 0)%Z).

(** ** Trees *)
Definition binomial_tree_node_add (node child : loc) : st store unit :=
  _ ← nupd node (set_children (λ cs, cs ++ [child]));
  nupd child (set_parent (Some node)).

(** The loops over the children; [better a b] is the test on the comparison of
    the current child with the best so far. *)
Fixpoint find_child_loop (better : Z → bool) (h : binheap) (cs : list loc) (i best : nat) (bk : list Z)
    : st store nat :=
  match cs with
  | [] => mret best
  | c :: cs =>
      cn ← nld c;
      if better (cmp (bh_cbs h) (bn_key cn) bk) then find_child_loop better h cs (S i) i (bn_key cn)
      else find_child_loop better h cs (S i) best bk
  end.
Definition find_child (better : Z → bool) (node : loc) : st store (option nat) :=
  n ← nld node;
  match bn_children n with
  | [] => mret None
  | c :: _ =>
      h ← hld (bn_bh n); cn ← nld c;
      i ← find_child_loop better h (bn_children n) 0 0 (bn_key cn);
      mret (Some i)
  end.
Definition binomial_tree_node_find_min_child : loc → st store (option nat) :=
  find_child (λ c, bool_decide (c <= 0)%Z).
Definition binomial_tree_node_find_max_child : loc → st store (option nat) :=
  find_child (λ c, bool_decide (c >= 0)%Z).

(** The while loop of binomial_tree_node_increase_key: the new key climbs and
    the pairs of the parents come down; [false] if nothing was swapped. *)
Fixpoint climb (fuel : nat) (node : loc) (parent : option loc) (nkey : list Z) (swapped : bool)
    : st store bool :=
  match parent with
  | None => mret swapped
  | Some p =>
      n ← nld node; pn ← nld p; h ← hld (bn_bh n);
      if HAS_PRECEDENCE h nkey (bn_key pn) then
        match fuel with
        | O => st_fault
        | S fuel =>
            _ ← nupd p (set_key nkey (bn_value n));
            _ ← nupd node (set_key (bn_key pn) (bn_value pn));
            climb fuel p (bn_parent pn) nkey true
        end
      else mret swapped
  end.
Definition binomial_tree_node_increase_key (node : loc) (n : Z) : st store unit :=
  if bool_decide (n = 0%Z) then mret tt
  else
    nd ← nld node; h ← hld (bn_bh nd);
    nkey ← lift (if bool_decide (n > 0)%Z then incr (bh_cbs h) (bn_key nd) n
                 else decr (bh_cbs h) (bn_key nd) (i32 (- n)));
    s ← st_get;
    swapped ← climb (size (s_nodes s)) node (bn_parent nd) nkey false;
    if swapped : bool then mret tt else nupd node (λ x, set_key nkey (bn_value x) x).

(** ** Minimum and maximum *)
(** binheap_maxmin: the root found and the index stored for it; [idx] is the
    caller's initial index. *)
Fixpoint maxmin_loop (n : nat) (b : loc) (maxmin : Z) (i : Z) (node : option loc) (idx : Z)
    : st store (option loc * Z) :=
  c ← on_trees b list_count;
  if bool_decide (i < i32 c)%Z then
    match n with
    | O => st_fault
    | S n =>
        curtree ← on_trees b (list_pick_value i);
        match node with
        | None => maxmin_loop n b maxmin (i + 1)%Z curtree i
        | Some nd =>
            ct ← nptr curtree; cn ← nld ct; nn ← nld nd; h ← hld b;
            let is_bigger := bool_decide (cmp (bh_cbs h) (bn_key cn) (bn_key nn) >= 0)%Z in
            if (bool_decide (maxmin = 0%Z) && is_bigger) || (bool_decide (maxmin ≠ 0%Z) && negb is_bigger)
            then maxmin_loop n b maxmin (i + 1)%Z curtree i
            else maxmin_loop n b maxmin (i + 1)%Z node idx
        end
    end
  else mret (node, idx).
Definition binheap_maxmin (b : loc) (idx : Z) (maxmin : Z) : st store (option loc * Z) :=
  c ← on_trees b list_count;
  maxmin_loop (Z.to_nat c) b maxmin 0 None idx.

(** Down to a leaf, along the children that [find] chooses. *)
Fixpoint descend (fuel : nat) (find : loc → st store (option nat)) (node : loc) : st store loc :=
  n ← nld node;
  match bn_children n, fuel with
  | [], _ => mret node
  | _, O => st_fault
  | cs, S fuel =>
      i ← find node;
      j ← lift (deref i);
      c ← lift (deref (cs !! j));
      descend fuel find c
  end.
Definition get_extreme (b : loc) (mode : binheap_mode) (maxmin idx : Z) (find : loc → st store (option nat))
    : st store (option loc * Z) :=
  h ← hld b;
  if bool_decide (bh_mode h = mode) && bool_decide (is_Some (bh_head h)) then mret (bh_head h, idx)
  else
    r ← binheap_maxmin b idx maxmin;
    match r.1 with
    | None => mret r
    | Some root =>
        if bool_decide (bh_mode h = mode) then mret r
        else s ← st_get; leaf ← descend (size (s_nodes s)) find root; mret (Some leaf, r.2)
    end.
Definition binheap_get_minimum (b : loc) (minidx : Z) : st store (option loc * Z) :=
  get_extreme b BINHEAP_MODE_MIN 1 minidx binomial_tree_node_find_min_child.
Definition binheap_get_maximum (b : loc) (maxidx : Z) : st store (option loc * Z) :=
  get_extreme b BINHEAP_MODE_MAX 0 maxidx binomial_tree_node_find_max_child.

Definition UPDATE_HEAD (b : loc) : st store unit :=
  _ ← hupd b (set_bh_head None);
  h ← hld b;
  r ← (if bool_decide (bh_mode h = BINHEAP_MODE_MAX) then binheap_get_maximum b 0
       else binheap_get_minimum b 0);
  hupd b (set_bh_head r.1).

(** ** Removing a node *)
Definition binheap_remove_root_node (user : loc) (_ : unit) (item : option loc) (_ : Z) : unit * Z :=
  (tt, if bool_decide (item = Some user) then -2 else 1)%Z.

(** The children of a removed node move to [new_parent]. *)
Fixpoint move_children (new_parent : option loc) (cs : list loc) : st store unit :=
  match cs with
  | [] => mret tt
  | c :: cs =>
      _ ← (match new_parent with
           | Some p => binomial_tree_node_add p c
           | None => nupd c (set_parent None)
           end);
      move_children new_parent cs
  end.

(** The first half of binomial_tree_node_destroy, for a node with a parent and
    for a root: the node is unlinked; the result is the new parent of its
    children. *)
Definition detach_inner (node p : loc) : st store (option loc) :=
  pn ← nld p;
  _ ← (match list_find (node =.) (bn_children pn) with
       | Some (i, _) => nupd p (set_children (delete i))
       | None => mret tt
       end);
  mret (Some p).
Definition detach_root (node : loc) (rindex : Z) : st store (option loc) :=
  n ← nld node;
  let b := bn_bh n in
  item_num ← (if bool_decide (rindex ≠ 0%Z) then
                _ ← on_trees b (list_fetch_value (u64 rindex)); mret (i32 (rindex + 1))
              else r ← on_trees b (list_foreach_value (binheap_remove_root_node node) tt); mret (i32 r.2));
  if bool_decide (bn_children n = []) then mret None
  else
    h ← hld b;
    child_index ← (if bool_decide (bh_mode h = BINHEAP_MODE_MAX)
                   then binomial_tree_node_find_max_child node
                   else binomial_tree_node_find_min_child node);
    match child_index with
    | None => mret None
    | Some i =>
        new_parent ← lift (deref (bn_children n !! i));
        _ ← nupd node (set_children (delete i));
        _ ← nupd new_parent (set_parent None);
        _ ← (if bool_decide (item_num > 0)%Z
             then _ ← on_trees b (list_insert_value (Some new_parent) (item_num - 1)%Z); mret tt
             else mret tt);
        mret (Some new_parent)
    end.

Definition binomial_tree_node_destroy (node : loc) (rindex : Z) : st store unit :=
  n ← nld node;
  new_parent ← (match bn_parent n with
                | Some p => detach_inner node p
                | None => detach_root node rindex
                end);
  n ← nld node;
  _ ← move_children new_parent (bn_children n);
  h ← hld (bn_bh n);
  _ ← (if bool_decide (bh_head h = Some node) then UPDATE_HEAD (bn_bh n) else mret tt);
  h ← hld (bn_bh n);
  c ← lift (cint (bh_count h - 1));
  _ ← hupd (bn_bh n) (set_bh_count c);
  nfree node.

(** ** The interface *)
Definition binheap_create (keys_callbacks : option binheap_callbacks) (mode : binheap_mode) : st store loc :=
  halloc (mk_binheap list_create None (default keys_callbacks_default keys_callbacks) 0 mode).

Definition get_top (b : loc) : st store (option loc * Z) :=
  h ← hld b;
  if bool_decide (bh_mode h = BINHEAP_MODE_MIN) then binheap_get_minimum b 0 else binheap_get_maximum b 0.
Fixpoint destroy_loop (fuel : nat) (b : loc) : st store unit :=
  r ← get_top b;
  match r.1, fuel with
  | None, _ => mret tt
  | Some _, O => st_fault
  | Some node, S fuel => _ ← binomial_tree_node_destroy node 0; destroy_loop fuel b
  end.
Definition binheap_destroy (b : loc) : st store unit :=
  s ← st_get;
  _ ← destroy_loop (size (s_nodes s)) b;
  _ ← on_trees b list_clear;
  st_modify (λ s, mk_store (s_nodes s) (delete b (s_heaps s)) (s_next s)).

Definition binomial_tree_merge (node1 node2 : loc) : st store unit :=
  _ ← nupd node1 (set_children (λ cs, cs ++ [node2]));
  nupd node2 (set_parent (Some node1)).

(** [first] becomes the parent of [second] if [test] holds for their keys, and
    its child otherwise; the result is the parent. *)
Definition link (test : list Z → list Z → bool) (first second : loc) : st store loc :=
  n1 ← nld first; n2 ← nld second;
  if test (bn_key n1) (bn_key n2)
  then _ ← binomial_tree_merge first second; mret first
  else _ ← binomial_tree_merge second first; mret second.

(** The while loop of binheap_insert: the new tree, and the first tree that is
    not merged into it. *)
Fixpoint insert_loop (fuel : nat) (b node : loc) (tree : option loc) (order : nat)
    : st store (loc * option loc) :=
  match tree with
  | None => mret (node, None)
  | Some t =>
      tn ← nld t;
      if bool_decide (length (bn_children tn) = order) then
        match fuel with
        | O => st_fault
        | S fuel =>
            h ← hld b;
            node ← link (HAS_PRECEDENCE h) node t;
            tree ← on_trees b list_shift_value;
            insert_loop fuel b node tree (S order)
        end
      else mret (node, tree)
  end.
Definition binheap_insert (b : loc) (key : list Z) (value : V) : st store Z :=
  node ← nalloc (mk_bnode key value None [] b);
  c ← on_trees b list_count;
  tree ← on_trees b list_shift_value;
  '(node, tree) ← insert_loop (Z.to_nat c) b node tree 0;
  _ ← (match tree with
       | Some _ => _ ← on_trees b (list_unshift_value tree); mret tt
       | None => mret tt
       end);
  _ ← on_trees b (list_unshift_value (Some node));
  h ← hld b;
  c ← lift (cint (bh_count h + 1));
  _ ← hupd b (set_bh_count c);
  _ ← (if bool_decide (bh_head h = None) then hupd b (set_bh_head (Some node)) else UPDATE_HEAD b);
  mret 0%Z.

(** The search of binheap_delete, among roots and then among children: the last
    candidate in precedence. *)
Definition candidate (h : binheap) (key : list Z) (best : option loc) (cur : loc) : st store (option loc) :=
  cn ← nld cur;
  if HAS_PRECEDENCE h (bn_key cn) key then
    match best with
    | None => mret (Some cur)
    | Some t =>
        tn ← nld t;
        mret (if HAS_PRECEDENCE h (bn_key tn) (bn_key cn) then Some cur else best)
    end
  else mret best.
Fixpoint delete_roots (n : nat) (b : loc) (key : list Z) (i : Z) (tree : option loc) : st store (option loc) :=
  c ← on_trees b list_count;
  if bool_decide (i < i32 c)%Z then
    match n with
    | O => st_fault
    | S n =>
        cur_tree ← on_trees b (list_pick_value i);
        ct ← nptr cur_tree; h ← hld b;
        tree ← candidate h key tree ct;
        delete_roots n b key (i + 1)%Z tree
    end
  else mret tree.
Fixpoint delete_children (h : binheap) (key : list Z) (cs : list loc) (next_tree : option loc)
    : st store (option loc) :=
  match cs with
  | [] => mret next_tree
  | c :: cs => next_tree ← candidate h key next_tree c; delete_children h key cs next_tree
  end.
Fixpoint delete_search (fuel : nat) (b : loc) (key : list Z) (to_delete : option loc)
    : st store (option loc) :=
  match to_delete with
  | None => mret None
  | Some t =>
      tn ← nld t; h ← hld b;
      if bool_decide (cmp (bh_cbs h) (bn_key tn) key ≠ 0%Z) then
        match fuel with
        | O => st_fault
        | S fuel => next ← delete_children h key (bn_children tn) None; delete_search fuel b key next
        end
      else mret (Some t)
  end.
Definition binheap_delete (b : loc) (key : list Z) : st store (Z * option V) :=
  c ← on_trees b list_count;
  tree ← delete_roots (Z.to_nat c) b key 0 None;
  s ← st_get;
  to_delete ← delete_search (size (s_nodes s)) b key tree;
  match to_delete with
  | Some t =>
      n ← nld t;
      _ ← binomial_tree_node_destroy t 0;
      mret (0%Z, Some (bn_value n))
  | None => mret ((-1)%Z, None)
  end.

Definition report (p : option loc) : st store (Z * option (list Z * V)) :=
  match p with
  | None => mret ((-1)%Z, None)
  | Some p => n ← nld p; mret (0%Z, Some (bn_key n, bn_value n))
  end.
Definition binheap_maximum (b : loc) : st store (Z * option (list Z * V)) :=
  r ← binheap_get_maximum b 0; report r.1.
Definition binheap_minimum (b : loc) : st store (Z * option (list Z * V)) :=
  r ← binheap_get_minimum b 0; report r.1.

Definition delete_found (r : option loc * Z) : st store (Z * option V) :=
  match r.1 with
  | None => mret ((-1)%Z, None)
  | Some p => n ← nld p; _ ← binomial_tree_node_destroy p (i32 r.2); mret (0%Z, Some (bn_value n))
  end.
Definition binheap_delete_minimum (b : loc) : st store (Z * option V) :=
  r ← binheap_get_minimum b 0; delete_found r.
Definition binheap_delete_maximum (b : loc) : st store (Z * option V) :=
  r ← binheap_get_maximum b 0; delete_found r.

Definition binheap_count (b : loc) : st store Z := h ← hld b; mret (u64 (bh_count h)).

Definition step_found (r : option loc * Z) (n : Z) : st store unit :=
  match r.1 with None => mret tt | Some p => binomial_tree_node_increase_key p n end.
Definition binheap_increase_maximum (b : loc) (n : Z) : st store unit :=
  r ← binheap_get_maximum b 0; step_found r n.
Definition binheap_decrease_maximum (b : loc) (n : Z) : st store unit :=
  r ← binheap_get_maximum b 0; step_found r (i32 (- n)).
Definition binheap_increase_minimum (b : loc) (n : Z) : st store unit :=
  r ← binheap_get_minimum b 0; step_found r n.
Definition binheap_decrease_minimum (b : loc) (n : Z) : st store unit :=
  r ← binheap_get_minimum b 0; step_found r (i32 (- n)).

(** ** Merging two heaps *)
Definition order_is (f : nat → nat → bool) (p : option loc) (order : nat) : st store bool :=
  match p with
  | None => mret false
  | Some p => n ← nld p; mret (f (length (bn_children n)) order)
  end.
Definition eqb (a b : nat) : bool := bool_decide (a = b).
Definition gtb (a b : nat) : bool := bool_decide (b < a).

(** The block of the loop for a carry: the new [node1], [node2] and [carry], or
    [None] if the carry was the last tree, which goes to the list. *)
Definition merge_carry (h : binheap) (node1 node2 : option loc) (carry : loc)
    : st store (option (option loc * option loc * option loc)) :=
  cn ← nld carry;
  let order := length (bn_children cn) in
  eq1 ← order_is eqb node1 order;
  if eq1 : bool then
    n1 ← nptr node1; p ← link (HAS_PRECEDENCE h) n1 carry; mret (Some (Some p, node2, None))
  else
  eq2 ← order_is eqb node2 order;
  if eq2 : bool then
    n2 ← nptr node2; p ← link (HAS_PRECEDENCE h) n2 carry; mret (Some (node1, Some p, None))
  else if bool_decide (node1 = None) && bool_decide (node2 = None) then mret None
  else
  gt1 ← order_is gtb node1 order;
  if gt1 : bool then mret (Some (Some carry, node2, node1))
  else
  gt2 ← order_is gtb node2 order;
  if gt2 : bool then mret (Some (node1, Some carry, node2))
  else mret (Some (node1, node2, Some carry)).

(** The rest of the round: a tree goes to the list, or both trees are merged;
    what follows is the next round. *)
Definition push_tree (new_list : linked_list loc) (p : option loc) : st store (linked_list loc) :=
  r ← lift (list_push_value p new_list); mret r.2.
(** Two trees of one order and the carry: [test2] compares the parent of the two
    with the carry. *)
Definition merge_pair (h : binheap) (n1 n2 : loc) (carry : option loc) : st store loc :=
  p ← link (HAS_PRECEDENCE h) n1 n2;
  match carry with
  | None => mret p
  | Some c =>
      link (if bool_decide (p = n1) then λ k1 k2, bool_decide (cmp (bh_cbs h) k1 k2 >= 0)%Z
            else HAS_PRECEDENCE h) p c
  end.
Definition merge_round (next : option loc → option loc → option loc → linked_list loc → st store (linked_list loc))
    (b1 b2 : loc) (h : binheap) (node1 node2 carry : option loc) (new_list : linked_list loc) : st store (linked_list loc) :=
  match node1, node2 with
  | None, None => st_fault
  | Some n1, None =>
      l ← push_tree new_list (Some n1);
      node1 ← on_trees b1 list_shift_value; next node1 None carry l
  | None, Some n2 =>
      l ← push_tree new_list (Some n2);
      node2 ← on_trees b2 list_shift_value; next None node2 carry l
  | Some n1, Some n2 =>
      nd1 ← nld n1; nd2 ← nld n2;
      let order1 := length (bn_children nd1) in
      let order2 := length (bn_children nd2) in
      if bool_decide (order1 < order2) then
        l ← push_tree new_list (Some n1);
        node1 ← on_trees b1 list_shift_value; next node1 (Some n2) carry l
      else if bool_decide (order2 < order1) then
        l ← push_tree new_list (Some n2);
        node2 ← on_trees b2 list_shift_value; next (Some n1) node2 carry l
      else
        carry ← merge_pair h n1 n2 carry;
        node1 ← on_trees b1 list_shift_value;
        node2 ← on_trees b2 list_shift_value;
        next node1 node2 (Some carry) new_list
  end.
Fixpoint merge_loop (fuel : nat) (b1 b2 : loc) (node1 node2 carry : option loc) (new_list : linked_list loc)
    : st store (linked_list loc) :=
  if bool_decide (node1 = None) && bool_decide (node2 = None) && bool_decide (carry = None) then mret new_list
  else
    match fuel with
    | O => st_fault
    | S fuel =>
        h ← hld b1;
        r ← (match carry with
             | None => mret (Some (node1, node2, None))
             | Some c => merge_carry h node1 node2 c
             end);
        match r with
        | None => l ← push_tree new_list carry; merge_loop fuel b1 b2 node1 node2 None l
        | Some (node1, node2, carry) => merge_round (merge_loop fuel b1 b2) b1 b2 h node1 node2 carry new_list
        end
    end.
Definition binheap_merge (b1 b2 : loc) : st store (option loc) :=
  h1 ← hld b1; h2 ← hld b2;
  if bool_decide (bh_mode h1 ≠ bh_mode h2) then mret None
  else
    c1 ← on_trees b1 list_count; c2 ← on_trees b2 list_count;
    node1 ← on_trees b1 list_shift_value;
    node2 ← on_trees b2 list_shift_value;
    new_list ← merge_loop (Z.to_nat (c1 + c2)) b1 b2 node1 node2 None list_create;
    c ← lift (cint (bh_count h1 + bh_count h2));
    b ← halloc (mk_binheap new_list None (bh_cbs h1) c (bh_mode h1));
    mret (Some b).

(** ** Walking *)
Section Walk.
Context {D : Type} (cb : D → list Z → V → D * Z).

(** The loop over the children, whose array may change under it. *)
Fixpoint walk_children (rec : loc → Z → D → st store (bool * Z * D)) (n : nat) (node : loc) (i : nat)
    (proceed : bool) (count : Z) (priv : D) : st store (bool * Z * D) :=
  nd ← nld node;
  match bn_children nd !! i, n with
  | None, _ => mret (proceed, count, priv)
  | Some _, O => st_fault
  | Some child, S n =>
      '(proceed, count, priv) ← rec child count priv;
      if proceed : bool then walk_children rec n node (S i) proceed count priv
      else mret (proceed, count, priv)
  end.
Fixpoint binomial_tree_walk (fuel : nat) (node : loc) (count : Z) (priv : D) : st store (bool * Z * D) :=
  match fuel with
  | O => st_fault
  | S fuel =>
      nd ← nld node;
      let count := (count + 1)%Z in
      let '(priv, rc) := cb priv (bn_key nd) (bn_value nd) in
      let proceed := bool_decide (rc = (-1)%Z) || bool_decide (rc = 1%Z) in
      let remove := bool_decide (rc = (-2)%Z) || bool_decide (rc = (-1)%Z) in
      s ← st_get;
      '(proceed, count, priv) ←
        (if proceed then walk_children (binomial_tree_walk fuel) (size (s_nodes s)) node 0 true count priv
         else mret (false, count, priv));
      _ ← (if remove then binomial_tree_node_destroy node 0 else mret tt);
      mret (proceed, count, priv)
  end.
Fixpoint walk_roots (n : nat) (b : loc) (i : Z) (cnt : Z) (priv : D) : st store (Z * D) :=
  c ← on_trees b list_count;
  if bool_decide (i < i32 c)%Z then
    match n with
    | O => st_fault
    | S n =>
        curtree ← on_trees b (list_pick_value i);
        t ← nptr curtree;
        s ← st_get;
        '(proceed, cnt, priv) ← binomial_tree_walk (size (s_nodes s)) t cnt priv;
        if proceed : bool then walk_roots n b (i + 1)%Z cnt priv else mret (cnt, priv)
    end
  else mret (cnt, priv).
Definition binheap_walk (b : loc) (priv : D) : st store (Z * D) :=
  c ← on_trees b list_count; walk_roots (Z.to_nat c) b 0 0 priv.
End Walk.
End BinHeap.
Arguments binomial_tree_node : clear implicits.
Arguments store : clear implicits.
