(* ===== verification/BinHeapRep.v ===== *)
(** * The binomial heap: forests of nodes

    [forest ns roots ht]: the nodes [ns] form trees with the given roots, the
    pointers to parents and children agree, and no child has precedence over
    its parent.  [ht] is a height that falls towards the leaves, which rules out
    cycles.  Nothing is said about the orders of the trees: deletion does not
    keep them. *)
From S2P Require Import Prelude Heap LinkedList LinkedListRep LinkedListSpec Comparators BinHeap.

(** ** Precedence *)
Definition prec (c : list Z → list Z → Z) (m : binheap_mode) (k1 k2 : list Z) : bool :=
  match m with
  | BINHEAP_MODE_MAX => bool_decide (c k1 k2 >= 0)%Z
  | BINHEAP_MODE_MIN => bool_decide (c k1 k2 <= 0)%Z
  end.
Lemma HAS_PRECEDENCE_prec h k1 k2 : HAS_PRECEDENCE h k1 k2 = prec (cmp (bh_cbs h)) (bh_mode h) k1 k2.
Proof. unfold HAS_PRECEDENCE, prec. destruct (bh_mode h); cbn; by rewrite ?orb_false_r. Qed.

Section Prec.
Context (P : list Z → Prop) (c : list Z → list Z → Z) `{KO : !KeyOrder P c}.

Lemma cmp_flip a b : P a → P b → (c a b < 0)%Z ↔ (c b a > 0)%Z.
Proof using All. intros Ha Hb. symmetry. by apply (ko_gt (P := P)). Qed.
Lemma cmp_ge_trans a b d : P a → P b → P d → (c a b >= 0)%Z → (c b d >= 0)%Z → (c a d >= 0)%Z.
Proof using All.
  intros Ha Hb Hd H1 H2. destruct (decide (c a b = 0%Z)) as [E|E]; [by rewrite (ko_eq (P := P) a b)|].
  destruct (decide (c b d = 0%Z)) as [E'|E']; [by rewrite <-(ko_eq (P := P) b d)|].
  assert (c d b < 0)%Z by (apply (ko_gt (P := P)); [done|done|lia]).
  assert (c b a < 0)%Z by (apply (ko_gt (P := P)); [done|done|lia]).
  assert (c d a < 0)%Z as Hda by (by apply (ko_trans (P := P)) with b).
  apply (ko_gt (P := P)) in Hda; [lia|done|done].
Qed.
Lemma cmp_ge_le a b : P a → P b → (c a b >= 0)%Z ↔ (c b a <= 0)%Z.
Proof using All.
  intros Ha Hb. pose proof (cmp_flip a b Ha Hb). pose proof (cmp_flip b a Hb Ha).
  destruct (decide (c a b = 0%Z)) as [E|E].
  - apply (ko_eq (P := P)) in E as ->; [|done|done]. rewrite (ko_refl (P := P)) by done. lia.
  - destruct (decide (c b a = 0%Z)) as [E'|E']; [|lia].
    apply (ko_eq (P := P)) in E' as ->; [|done|done]. rewrite (ko_refl (P := P)) by done. lia.
Qed.

Context (m : binheap_mode).
Lemma prec_refl a : P a → prec c m a a.
Proof using All. intros Ha. unfold prec. rewrite (ko_refl (P := P)) by done. by destruct m. Qed.
Lemma prec_total a b : P a → P b → prec c m a b = false → prec c m b a.
Proof using All.
  intros Ha Hb H. pose proof (cmp_ge_le a b Ha Hb). pose proof (cmp_ge_le b a Hb Ha).
  unfold prec in *. destruct m; apply bool_decide_eq_false in H; apply bool_decide_pack; lia.
Qed.
Lemma prec_trans a b d : P a → P b → P d → prec c m a b → prec c m b d → prec c m a d.
Proof using All.
  intros Ha Hb Hd. unfold prec. destruct m; rewrite !bool_decide_spec.
  - by apply cmp_ge_trans.
  - rewrite <-!cmp_ge_le by done. intros ??. by apply cmp_ge_trans with b.
Qed.
End Prec.

(** ** Forests *)
Section Forest.
Context {V : Type} (P : list Z → Prop) (c : list Z → list Z → Z) `{KO : !KeyOrder P c} (m : binheap_mode).
Notation node := (binomial_tree_node V).
Implicit Types (ns : gmap loc node) (roots : list loc) (ht : loc → nat) (x y p : loc).

Record forest ns roots ht : Prop := {
  f_nodup : NoDup roots;
  f_root p : p ∈ roots ↔ ∃ n, ns !! p = Some n ∧ bn_parent n = None;
  f_child p n y : ns !! p = Some n → y ∈ bn_children n →
    ∃ yn, ns !! y = Some yn ∧ bn_parent yn = Some p ∧ ht y < ht p ∧ prec c m (bn_key n) (bn_key yn);
  f_parent y yn p : ns !! y = Some yn → bn_parent yn = Some p → ∃ n, ns !! p = Some n ∧ y ∈ bn_children n;
  f_children p n : ns !! p = Some n → NoDup (bn_children n);
  f_keys p n : ns !! p = Some n → P (bn_key n)
}.

Lemma forest_permute ns roots roots' ht : roots ≡ₚ roots' → forest ns roots ht → forest ns roots' ht.
Proof.
  intros Hr [H1 H2 H3 H4 H5 H6]. split; try done; [by rewrite <-Hr|].
  intros p. rewrite <-Hr. apply H2.
Qed.
#[export] Instance forest_perm ns : Proper ((≡ₚ) ==> eq ==> iff) (forest ns).
Proof. intros r r' Hr ? ht ->. split; by apply forest_permute. Qed.

Lemma forest_empty ht : forest ∅ [] ht.
Proof.
  split; try (intros; rewrite lookup_empty in *; done); [constructor|].
  intros p. split; [by intros ?%elem_of_nil|]. intros (n & Hn & _). by rewrite lookup_empty in Hn.
Qed.

Lemma forest_no_self ns roots ht p n : forest ns roots ht → ns !! p = Some n → p ∉ bn_children n.
Proof. intros Hf Hp Hin. destruct (f_child _ _ _ Hf p n p Hp Hin) as (yn & _ & _ & Hlt & _). lia. Qed.
Lemma forest_lookup ns roots ht p : forest ns roots ht → p ∈ roots → ∃ n, ns !! p = Some n ∧ bn_parent n = None.
Proof. intros Hf Hp. by apply (f_root _ _ _ Hf). Qed.

(** A new root. *)
Lemma forest_add ns roots ht p n :
  forest ns roots ht → ns !! p = None → bn_parent n = None → bn_children n = [] → P (bn_key n) →
  forest (<[p := n]> ns) (p :: roots) ht.
Proof.
  intros Hf Hp Hpar Hch HP. assert (Hold : ∀ y yn, ns !! y = Some yn → p ≠ y) by (intros y yn Hy <-; congruence). split.
  - constructor; [|apply Hf]. intros Hin. destruct (forest_lookup _ _ _ _ Hf Hin) as (? & ? & _). congruence.
  - intros q. rewrite elem_of_cons, (f_root _ _ _ Hf), lookup_insert. case_decide; subst.
    + split; [eauto|]. intros (? & [= <-] & _). by left.
    + split; [by intros [->|]|]. by right.
  - intros q qn y Hq Hy. rewrite lookup_insert in Hq. case_decide; simplify_eq.
    + rewrite Hch in Hy. by apply elem_of_nil in Hy.
    + destruct (f_child _ _ _ Hf q qn y Hq Hy) as (yn & Hyn & ?). exists yn.
      rewrite lookup_insert_ne by eauto. done.
  - intros y yn q Hy Hq. rewrite lookup_insert in Hy. case_decide; simplify_eq.
    destruct (f_parent _ _ _ Hf y yn q Hy Hq) as (n' & Hn' & ?). exists n'. by rewrite lookup_insert_ne by eauto.
  - intros q qn Hq. rewrite lookup_insert in Hq. case_decide; simplify_eq; [rewrite Hch; constructor|by eapply f_children].
  - intros q qn Hq. rewrite lookup_insert in Hq. case_decide; simplify_eq; [done|by eapply f_keys].
Qed.

(** A root becomes the last child of a node. *)
Lemma forest_link ns roots ht x xn y yn :
  forest ns (y :: roots) ht → ns !! x = Some xn → ns !! y = Some yn → ht y < ht x →
  prec c m (bn_key xn) (bn_key yn) →
  forest (<[y := set_parent (Some x) yn]> (<[x := set_children (λ cs, cs ++ [y]) xn]> ns)) roots ht.
Proof.
  intros Hf Hx Hy Hht Hpr. assert (x ≠ y) as Hne by (intros ->; lia).
  pose proof (f_nodup _ _ _ Hf) as [Hyr Hnd]%NoDup_cons.
  destruct (forest_lookup _ _ _ y Hf) as (yn' & Hy' & Hpar); [left|]. assert (yn' = yn) as -> by congruence. clear Hy'.
  assert (Hch : ∀ p n, ns !! p = Some n → y ∉ bn_children n).
  { intros p n Hp Hin. destruct (f_child _ _ _ Hf p n y Hp Hin) as (? & ? & ? & _). congruence. }
  split.
  - done.
  - intros p. transitivity (p ≠ y ∧ p ∈ y :: roots).
    { rewrite elem_of_cons. split; [intros Hp; split; [by intros ->|by right]|]. by intros [? [?|?]]. }
    rewrite (f_root _ _ _ Hf), !lookup_insert. repeat case_decide; subst; naive_solver.
  - intros p n z Hp Hz.
    assert (∃ n0, ns !! p = Some n0 ∧ bn_key n = bn_key n0 ∧ (z ∈ bn_children n0 ∨ p = x ∧ z = y)) as (n0 & Hn0 & Hk & Hz0).
    { rewrite !lookup_insert in Hp. repeat case_decide; simplify_eq/=; eauto.
      exists xn. apply elem_of_app in Hz as [Hz|Hz%list_elem_of_singleton]; auto. }
    rewrite Hk. destruct Hz0 as [Hz0|[-> ->]].
    + destruct (f_child _ _ _ Hf p n0 z Hn0 Hz0) as (zn & Hzn & Hzp & Hlt & Hpz). rewrite !lookup_insert.
      repeat case_decide; simplify_eq/=; eauto; by exfalso; eapply Hch.
    + simplify_eq. rewrite lookup_insert_eq. eauto.
  - intros z zn p Hz Hp. destruct (decide (z = y)) as [->|Hzy].
    { rewrite lookup_insert_eq in Hz. simplify_eq/=. rewrite lookup_insert_ne, lookup_insert_eq by done.
      eexists. split; [done|]. apply elem_of_app. right. by apply list_elem_of_singleton. }
    assert (∃ zn0, ns !! z = Some zn0 ∧ bn_parent zn0 = Some p) as (zn0 & Hz0 & Hp0).
    { rewrite !lookup_insert in Hz. repeat case_decide; simplify_eq/=; eauto. }
    destruct (f_parent _ _ _ Hf z zn0 p Hz0 Hp0) as (n & Hn & Hin). rewrite !lookup_insert.
    repeat case_decide; simplify_eq/=; eexists; (split; [done|]); [done| |done]. apply elem_of_app. by left.
  - intros p n Hp. rewrite !lookup_insert in Hp. repeat case_decide; simplify_eq/=; try by eapply f_children.
    apply NoDup_app. split_and!; [by eapply f_children| |apply NoDup_singleton].
    intros z Hz ->%list_elem_of_singleton. eapply Hch; [|exact Hz]; done.
  - intros p n Hp. rewrite !lookup_insert in Hp. repeat case_decide; simplify_eq/=; by eapply f_keys.
Qed.

(** A child becomes a root. *)
Lemma forest_detach ns roots ht x xn i y yn :
  forest ns roots ht → ns !! x = Some xn → bn_children xn !! i = Some y → ns !! y = Some yn →
  forest (<[y := set_parent None yn]> (<[x := set_children (delete i) xn]> ns)) (y :: roots) ht.
Proof.
  intros Hf Hx Hi Hy. pose proof (list_elem_of_lookup_2 _ _ _ Hi) as Hin.
  destruct (f_child _ _ _ Hf x xn y Hx Hin) as (yn' & Hy' & Hpar & Hlt & Hpr). assert (yn' = yn) as -> by congruence. clear Hy'.
  assert (x ≠ y) as Hne by (intros ->; lia).
  assert (Hch : ∀ p n, ns !! p = Some n → y ∈ bn_children n → p = x).
  { intros p n Hp Hyn. destruct (f_child _ _ _ Hf p n y Hp Hyn) as (? & ? & ? & _). congruence. }
  pose proof (f_children _ _ _ Hf x xn Hx) as Hnd. apply delete_Permutation in Hi as Hperm.
  rewrite Hperm in Hnd. apply NoDup_cons in Hnd as [Hyd Hnd].
  split.
  - constructor; [|apply Hf]. intros Hr. destruct (forest_lookup _ _ _ _ Hf Hr) as (? & ? & ?). congruence.
  - intros p. rewrite elem_of_cons, (f_root _ _ _ Hf), !lookup_insert. repeat case_decide; subst; naive_solver.
  - intros p n z Hp Hz.
    assert (∃ n0, ns !! p = Some n0 ∧ bn_key n = bn_key n0 ∧ z ∈ bn_children n0 ∧ z ≠ y) as (n0 & Hn0 & Hk & Hz0 & Hzy).
    { rewrite !lookup_insert in Hp. repeat case_decide; simplify_eq/=.
      - eexists; split_and!; [done|done|done|]. intros ->. by eapply forest_no_self.
      - eexists; split_and!; [done|done| |by intros ->]. rewrite Hperm. by right.
      - eexists; split_and!; [done|done|done|]. intros ->. pose proof (Hch _ _ Hp Hz). congruence. }
    rewrite Hk. destruct (f_child _ _ _ Hf p n0 z Hn0 Hz0) as (zn & Hzn & Hzp & ? & ?). rewrite !lookup_insert.
    repeat case_decide; simplify_eq/=; eauto.
  - intros z zn p Hz Hp.
    assert (z ≠ y ∧ ∃ zn0, ns !! z = Some zn0 ∧ bn_parent zn0 = Some p) as (Hzy & zn0 & Hz0 & Hp0).
    { rewrite !lookup_insert in Hz. repeat case_decide; simplify_eq/=; eauto. }
    destruct (f_parent _ _ _ Hf z zn0 p Hz0 Hp0) as (n & Hn & Hzn). rewrite !lookup_insert.
    repeat case_decide; simplify_eq/=; eexists; (split; [done|]); [done| |done].
    rewrite Hperm in Hzn. by apply elem_of_cons in Hzn as [?|?].
  - intros p n Hp. rewrite !lookup_insert in Hp. repeat case_decide; simplify_eq/=; try done; by eapply f_children.
  - intros p n Hp. rewrite !lookup_insert in Hp. repeat case_decide; simplify_eq/=; by eapply f_keys.
Qed.

(** A root without children is removed. *)
Lemma forest_drop ns roots ht x xn :
  forest ns (x :: roots) ht → ns !! x = Some xn → bn_children xn = [] → forest (delete x ns) roots ht.
Proof.
  intros Hf Hx Hch. pose proof (f_nodup _ _ _ Hf) as [Hxr Hnd]%NoDup_cons.
  destruct (forest_lookup _ _ _ x Hf) as (xn' & Hx' & Hpar); [left|]. assert (xn' = xn) as -> by congruence. clear Hx'.
  split.
  - done.
  - intros p. rewrite lookup_delete. transitivity (p ≠ x ∧ p ∈ x :: roots).
    { rewrite elem_of_cons. split; [intros Hp; split; [by intros ->|by right]|]. by intros [? [?|?]]. }
    rewrite (f_root _ _ _ Hf). case_decide; naive_solver.
  - intros p n y [Hne Hp]%lookup_delete_Some Hy.
    destruct (f_child _ _ _ Hf p n y Hp Hy) as (yn & Hyn & Hyp & ?). exists yn. split; [|done].
    apply lookup_delete_Some. split; [|done]. intros <-. congruence.
  - intros y yn p [Hne Hy]%lookup_delete_Some Hp. destruct (f_parent _ _ _ Hf y yn p Hy Hp) as (n & Hn & Hin).
    exists n. split; [|done]. apply lookup_delete_Some. split; [|done]. intros <-. simplify_eq. rewrite Hch in Hin. by apply elem_of_nil in Hin.
  - intros p n [_ Hp]%lookup_delete_Some. by eapply f_children.
  - intros p n [_ Hp]%lookup_delete_Some. by eapply f_keys.
Qed.

(** The height of a root can be raised. *)
Lemma forest_raise ns roots ht x k :
  forest ns roots ht → x ∈ roots → ht x ≤ k → forest ns roots (λ p, if decide (p = x) then k else ht p).
Proof.
  intros Hf Hx Hk. destruct Hf as [H1 H2 H3 H4 H5 H6]. split; try done.
  intros p n y Hp Hy. destruct (H3 p n y Hp Hy) as (yn & Hyn & Hyp & Hlt & Hpr). exists yn. split_and!; try done.
  apply H2 in Hx as (xn & Hxn & Hxp). repeat case_decide; simplify_eq; try lia.
Qed.

(** Heights below the number of nodes. *)
Definition below ns ht p : gset loc := filter (λ q, ht q < ht p) (dom ns).
Lemma forest_norm ns roots ht :
  forest ns roots ht → ∃ ht', forest ns roots ht' ∧ ∀ p, is_Some (ns !! p) → ht' p < size ns.
Proof.
  intros Hf. exists (λ p, size (below ns ht p)).
  assert (Hlt : ∀ p q, is_Some (ns !! q) → ht q < ht p → size (below ns ht q) < size (below ns ht p)).
  { intros p q Hq Hlt. apply subset_size. split.
    - intros r. unfold below. rewrite !elem_of_filter. intros [? ?]. split; [lia|done].
    - intros Hsub. assert (q ∈ below ns ht q) as Hin.
      { apply Hsub. unfold below. rewrite elem_of_filter. split; [done|]. by apply elem_of_dom. }
      unfold below in Hin. rewrite elem_of_filter in Hin. lia. }
  split.
  - destruct Hf as [H1 H2 H3 H4 H5 H6]. split; try done.
    intros p n y Hp Hy. destruct (H3 p n y Hp Hy) as (yn & Hyn & Hyp & Hlt' & Hpr). exists yn. split_and!; try done.
    apply Hlt; [by eexists|done].
  - intros p Hp. rewrite <-size_dom. apply subset_size. split.
    + intros q. unfold below. rewrite elem_of_filter. tauto.
    + intros Hsub. apply elem_of_dom in Hp. apply Hsub in Hp. unfold below in Hp. rewrite elem_of_filter in Hp. lia.
Qed.

(** Every node is below a root that has precedence. *)
Lemma forest_above ns roots ht p n :
  forest ns roots ht → ns !! p = Some n →
  ∃ r rn, r ∈ roots ∧ ns !! r = Some rn ∧ prec c m (bn_key rn) (bn_key n).
Proof using KO.
  intros Hf Hp. destruct (forest_norm _ _ _ Hf) as (ht' & Hf' & Hb). clear Hf ht. rename Hf' into Hf, ht' into ht.
  remember (size ns - ht p) as k eqn:Hk. revert p n Hp Hk. induction k as [k IH] using lt_wf_ind. intros p n Hp Hk.
  pose proof (f_keys _ _ _ Hf p n Hp) as HP.
  destruct (bn_parent n) as [q|] eqn:Hpar.
  - destruct (f_parent _ _ _ Hf p n q Hp Hpar) as (qn & Hq & Hin).
    destruct (f_child _ _ _ Hf q qn p Hq Hin) as (n' & Hp' & _ & Hlt & Hpr). simplify_eq.
    pose proof (Hb q ltac:(by eexists)).
    destruct (IH (size ns - ht q) ltac:(lia) q qn Hq eq_refl) as (r & rn & Hr & Hrn & Hrq).
    exists r, rn. split_and!; [done|done|]. eapply prec_trans; [done| | |exact HP|exact Hrq|exact Hpr]; by eapply f_keys.
  - exists p, n. split_and!; [apply (f_root _ _ _ Hf); eauto|done|by eapply prec_refl].
Qed.

(** [p] has precedence over the nodes in [ps]. *)
Definition tops ns (ps : list loc) p : Prop :=
  ∃ n, ns !! p = Some n ∧ ∀ q qn, q ∈ ps → ns !! q = Some qn → prec c m (bn_key n) (bn_key qn).
Definition top ns p : Prop :=
  ∃ n, ns !! p = Some n ∧ ∀ q qn, ns !! q = Some qn → prec c m (bn_key n) (bn_key qn).
Lemma forest_top ns roots ht p : forest ns roots ht → p ∈ roots → tops ns roots p → top ns p.
Proof using KO.
  intros Hf Hp (n & Hn & Hmax). exists n. split; [done|]. intros q qn Hq.
  destruct (forest_above _ _ _ _ _ Hf Hq) as (r & rn & Hr & Hrn & Hrq).
  eapply prec_trans; [done| | | |by eapply Hmax|exact Hrq]; by eapply f_keys.
Qed.
End Forest.

(** ** Rules for the store *)
Section Rules.
Context {V : Type} (cb : binheap_callbacks) (m : binheap_mode).
Implicit Types (s : store V) (b p : loc) (roots : list loc) (hd : option loc) (cnt : Z).

Definition heap_at s b roots hd cnt : Prop :=
  ∃ l, s_heaps s !! b = Some (mk_binheap l hd cb cnt m) ∧ list_is l (Some <$> roots).
(** [s'] differs from [s] at most in the heap [b]. *)
Definition same_but b s s' : Prop :=
  s_nodes s' = s_nodes s ∧ s_next s' = s_next s ∧ ∀ b', b' ≠ b → s_heaps s' !! b' = s_heaps s !! b'.
#[export] Instance same_but_pre b : PreOrder (same_but b).
Proof.
  split; [by intros s|]. intros s1 s2 s3 (H1 & H2 & H3) (H4 & H5 & H6).
  split_and!; [congruence|congruence|]. intros b' Hb. by rewrite H6, H3.
Qed.

Lemma wp_nld s p n (Q : binomial_tree_node V → store V → Prop) : s_nodes s !! p = Some n → Q n s → wp (nld p) Q s.
Proof. intros Hp HQ. unfold wp, nld. by rewrite Hp. Qed.
Lemma wp_nupd s p n f (Q : unit → store V → Prop) :
  s_nodes s !! p = Some n → Q tt (mk_store (<[p := f n]> (s_nodes s)) (s_heaps s) (s_next s)) → wp (nupd p f) Q s.
Proof. intros Hp HQ. unfold wp, nupd. by rewrite Hp. Qed.
Lemma wp_nfree s p n (Q : unit → store V → Prop) :
  s_nodes s !! p = Some n → Q tt (mk_store (delete p (s_nodes s)) (s_heaps s) (s_next s)) → wp (nfree p) Q s.
Proof. intros Hp HQ. unfold wp, nfree. by rewrite Hp. Qed.
Lemma wp_lift_store {A} (x : outcome A) a s (Q : A → store V → Prop) : x = Ret a → Q a s → wp (lift x) Q s.
Proof. by intros ->. Qed.
Lemma wp_hld s b roots hd cnt (Q : binheap → store V → Prop) :
  heap_at s b roots hd cnt → (∀ l, list_is l (Some <$> roots) → Q (mk_binheap l hd cb cnt m) s) → wp (hld b) Q s.
Proof. intros (l & Hb & Hl) HQ. unfold wp, hld. rewrite Hb. by apply HQ. Qed.
Lemma wp_hupd s b roots hd cnt hd' cnt' f (Q : unit → store V → Prop) :
  heap_at s b roots hd cnt → (∀ l, f (mk_binheap l hd cb cnt m) = mk_binheap l hd' cb cnt' m) →
  (∀ s', same_but b s s' → heap_at s' b roots hd' cnt' → Q tt s') → wp (hupd b f) Q s.
Proof.
  intros (l & Hb & Hl) Hf HQ. unfold wp, hupd. rewrite Hb. apply HQ.
  - split_and!; [done..|]. intros b' Hne. simpl. by rewrite lookup_insert_ne.
  - exists l. simpl. by rewrite lookup_insert_eq, Hf.
Qed.

Lemma wp_on_trees {A} s b roots roots' hd cnt (op : st (linked_list loc) A) a (Q : A → store V → Prop) :
  heap_at s b roots hd cnt →
  (∀ l, list_is l (Some <$> roots) → ∃ l', op l = Ret (a, l') ∧ list_is l' (Some <$> roots')) →
  (∀ s', same_but b s s' → heap_at s' b roots' hd cnt → Q a s') → wp (on_trees b op) Q s.
Proof.
  intros (l & Hb & Hl) Hop HQ. destruct (Hop l Hl) as (l' & Hrun & Hl').
  unfold on_trees. apply wp_bind. unfold wp at 1, hld. rewrite Hb. apply wp_bind.
  eapply wp_lift_store; [exact Hrun|]. apply wp_bind. unfold wp at 1, hupd. rewrite Hb. apply wp_ret. apply HQ.
  - split_and!; [done..|]. intros b' Hne. simpl. by rewrite lookup_insert_ne.
  - exists l'. simpl. by rewrite lookup_insert_eq.
Qed.

Context s b roots hd cnt (Hat : heap_at s b roots hd cnt).
Lemma wp_count (Q : Z → store V → Prop) :
  (∀ s', same_but b s s' → heap_at s' b roots hd cnt → Q (Z.of_nat (length roots)) s') →
  wp (on_trees b list_count) Q s.
Proof using Hat.
  apply (wp_on_trees s b roots roots hd cnt); [done|]. intros l Hl. exists l. split; [|done].
  destruct (list_is_length _ _ Hl) as [Hlen _]. rewrite length_fmap in Hlen.
  unfold list_count, mbind, st_bind, st_get, mret, st_ret. by rewrite Hlen.
Qed.
Lemma wp_pick i p (Q : option loc → store V → Prop) :
  roots !! i = Some p → (∀ s', same_but b s s' → heap_at s' b roots hd cnt → Q (Some p) s') →
  wp (on_trees b (list_pick_value (Z.of_nat i))) Q s.
Proof using Hat.
  intros Hi. apply (wp_on_trees s b roots roots hd cnt); [done|]. intros l Hl.
  destruct (list_pick_value_is l _ i Hl) as (l' & Hrun & Hl'). rewrite list_lookup_fmap, Hi in Hrun. by exists l'.
Qed.
Lemma wp_unshift p (Q : Z → store V → Prop) :
  (Z.of_nat (length roots) < MAX_LEN)%Z →
  (∀ s', same_but b s s' → heap_at s' b (p :: roots) hd cnt → Q 0%Z s') →
  wp (on_trees b (list_unshift_value (Some p))) Q s.
Proof using Hat.
  intros Hlt. apply (wp_on_trees s b roots _ hd cnt); [done|]. intros l Hl.
  rewrite fmap_cons. apply (list_unshift_value_is l (Some <$> roots) (Some p)); [done|by rewrite length_fmap].
Qed.
Lemma wp_shift (Q : option loc → store V → Prop) :
  (∀ s', same_but b s s' → heap_at s' b (tail roots) hd cnt → Q (head roots) s') →
  wp (on_trees b list_shift_value) Q s.
Proof using Hat.
  apply (wp_on_trees s b roots _ hd cnt); [done|]. intros l Hl. destruct roots as [|p ps]; simpl.
  - exists l. split; [|done]. by apply list_shift_empty.
  - by apply (list_shift_value_is l (Some <$> ps) (Some p)).
Qed.
Lemma wp_fetch i p (Q : option loc → store V → Prop) :
  roots !! i = Some p → (∀ s', same_but b s s' → heap_at s' b (delete i roots) hd cnt → Q (Some p) s') →
  wp (on_trees b (list_fetch_value (Z.of_nat i))) Q s.
Proof using Hat.
  intros Hi. apply (wp_on_trees s b roots _ hd cnt); [done|]. intros l Hl.
  rewrite delete_take_drop, fmap_app, fmap_take, fmap_drop. apply list_fetch_value_is; [done|].
  by rewrite list_lookup_fmap, Hi.
Qed.
Lemma wp_remove i p (Q : unit * Z → store V → Prop) :
  roots !! i = Some p → NoDup roots →
  (∀ s', same_but b s s' → heap_at s' b (delete i roots) hd cnt → Q (tt, Z.of_nat (S i)) s') →
  wp (on_trees b (list_foreach_value (binheap_remove_root_node p) tt)) Q s.
Proof using Hat.
  intros Hi Hnd. apply (wp_on_trees s b roots _ hd cnt); [done|]. intros l Hl.
  destruct (list_foreach_removes (binheap_remove_root_node p) tt l (Some <$> roots) i (Some p)) as (l' & Hrun & Hl').
  - done.
  - by rewrite list_lookup_fmap, Hi.
  - intros j w Hj Hw. rewrite list_lookup_fmap in Hw. destruct (roots !! j) as [q|] eqn:Hq; [|done]. injection Hw as <-.
    unfold binheap_remove_root_node. rewrite bool_decide_eq_false_2; [done|]. intros [= ->].
    assert (j = i) by (by eapply NoDup_lookup). lia.
  - unfold binheap_remove_root_node. by rewrite bool_decide_eq_true_2.
  - exists l'. split; [done|]. by rewrite delete_take_drop, fmap_app, fmap_take, fmap_drop, <-delete_take_drop.
Qed.
Lemma wp_insert_at i p (Q : Z → store V → Prop) :
  i ≤ length roots → (Z.of_nat (length roots) < MAX_LEN)%Z →
  (∀ s', same_but b s s' → heap_at s' b (take i roots ++ p :: drop i roots) hd cnt → Q 0%Z s') →
  wp (on_trees b (list_insert_value (Some p) (Z.of_nat i))) Q s.
Proof using Hat.
  intros Hi Hlt. apply (wp_on_trees s b roots _ hd cnt); [done|]. intros l (xs & Hr & Hv).
  assert (length xs = length roots) as Hlen by (rewrite <-(length_values xs), Hv; apply length_fmap).
  destruct (wp_run _ _ _ (insert_value_wp l xs false (Some p) i Hr ltac:(lia))) as (rc & l' & Hrun & -> & Hl').
  exists l'. split; [exact Hrun|]. unfold insert_at in Hl'. rewrite Hv in Hl'.
  rewrite length_fmap, (proj2 (Nat.sub_0_le _ _) Hi), <-fmap_take, <-fmap_drop in Hl'. cbn [replicate app] in Hl'.
  by rewrite fmap_app.
Qed.
End Rules.
