(* ===== verification/BinHeapOps.v ===== *)
(** * The binomial heap: its operations

    Each operation returns and keeps a forest; [data] is what the nodes hold
    besides their links. *)
From S2P Require Import Prelude Heap LinkedList LinkedListRep LinkedListSpec Comparators BinHeap BinHeapRep.

Section Ops.
Context {V : Type} (P : list Z → Prop) (cb : binheap_callbacks) `{KO : !KeyOrder P (cmp cb)}.
Notation node := (binomial_tree_node V).
Implicit Types (s : store V) (ns : gmap loc node) (b p x y : loc) (roots : list loc) (hd : option loc) (cnt : Z)
  (m mm : binheap_mode).

Definition data ns : gmap loc (list Z * V * loc) := (λ n, (bn_key n, bn_value n, bn_bh n)) <$> ns.
Lemma data_lookup ns p n : ns !! p = Some n → data ns !! p = Some (bn_key n, bn_value n, bn_bh n).
Proof. intros Hp. unfold data. by rewrite lookup_fmap, Hp. Qed.
Lemma data_inv ns p k v b :
  data ns !! p = Some (k, v, b) → ∃ n, ns !! p = Some n ∧ bn_key n = k ∧ bn_value n = v ∧ bn_bh n = b.
Proof.
  unfold data. rewrite lookup_fmap. destruct (ns !! p) as [n|]; [|done]. intros [= <- <- <-]. eauto.
Qed.
Lemma data_upd ns p n n' :
  ns !! p = Some n → bn_key n' = bn_key n → bn_value n' = bn_value n → bn_bh n' = bn_bh n →
  data (<[p := n']> ns) = data ns.
Proof.
  intros Hp H1 H2 H3. unfold data. rewrite fmap_insert, H1, H2, H3. apply insert_id. by rewrite lookup_fmap, Hp.
Qed.
Lemma data_same ns ns' p n :
  data ns' = data ns → ns !! p = Some n → ∃ n', ns' !! p = Some n' ∧ bn_key n' = bn_key n ∧ bn_value n' = bn_value n ∧ bn_bh n' = bn_bh n.
Proof. intros Hd Hp. apply data_lookup in Hp. rewrite <-Hd in Hp. by apply data_inv in Hp. Qed.
Lemma size_data ns : size (data ns) = size ns.
Proof. apply map_size_fmap. Qed.

(** ** Extreme roots and children *)
Definition maxmin_of mm : Z := match mm with BINHEAP_MODE_MAX => 0 | BINHEAP_MODE_MIN => 1 end.

(** The test of binheap_maxmin chooses by precedence. *)
Lemma maxmin_test mm (k1 k2 : list Z) :
  P k1 → P k2 →
  let big := bool_decide (cmp cb k1 k2 >= 0)%Z in
  let test := (bool_decide (maxmin_of mm = 0%Z) && big) || (bool_decide (maxmin_of mm ≠ 0%Z) && negb big) in
  if test then prec (cmp cb) mm k1 k2 else prec (cmp cb) mm k2 k1.
Proof using KO.
  intros H1 H2. pose proof (cmp_ge_le P (cmp cb) k1 k2 H1 H2). pose proof (cmp_ge_le P (cmp cb) k2 k1 H2 H1).
  destruct mm; unfold maxmin_of; cbn [bool_decide decide andb orb negb]; unfold prec.
  - rewrite (bool_decide_eq_true_2 (0%Z = 0%Z)), (bool_decide_eq_false_2 (0%Z ≠ 0%Z)) by naive_solver. cbn [andb]. rewrite orb_false_r.
    case_bool_decide; first [done|apply bool_decide_pack; lia].
  - rewrite (bool_decide_eq_false_2 (1%Z = 0%Z)), (bool_decide_eq_true_2 (1%Z ≠ 0%Z)) by done. cbn [andb orb].
    case_bool_decide; cbn [negb]; first [done|apply bool_decide_pack; lia].
Qed.

Definition known ns (ps : list loc) : Prop := ∀ p, p ∈ ps → ∃ n, ns !! p = Some n ∧ P (bn_key n).
Lemma known_lookup ns ps i p : known ns ps → ps !! i = Some p → ∃ n, ns !! p = Some n ∧ P (bn_key n).
Proof. intros Hk Hi. apply Hk. by apply list_elem_of_lookup_2 in Hi. Qed.

Lemma tops_step mm ns ps p n x xn :
  known ns ps → tops (cmp cb) mm ns ps p → ns !! p = Some n → ns !! x = Some xn → P (bn_key n) → P (bn_key xn) →
  (prec (cmp cb) mm (bn_key xn) (bn_key n) → tops (cmp cb) mm ns (ps ++ [x]) x) ∧
  (prec (cmp cb) mm (bn_key n) (bn_key xn) → tops (cmp cb) mm ns (ps ++ [x]) p).
Proof using KO.
  intros Hk (n' & Hn' & Hmax) Hn Hx HP HPx. assert (n' = n) as -> by congruence. clear Hn'. split; intros Hpr.
  - exists xn. split; [done|]. intros q qn [Hq| ->%list_elem_of_singleton]%elem_of_app Hqn.
    + destruct (Hk q Hq) as (qn' & ? & ?). simplify_eq. apply (prec_trans P (cmp cb)) with (bn_key n); [done|done|done|done|by eapply Hmax].
    + simplify_eq. by apply (prec_refl P (cmp cb)).
  - exists n. split; [done|]. intros q qn [Hq| ->%list_elem_of_singleton]%elem_of_app Hqn; [by eapply Hmax|by simplify_eq].
Qed.

Lemma maxmin_loop_ok m mm k s b roots hd cnt i best idx (Q : option loc * Z → store V → Prop) :
  heap_at cb m s b roots hd cnt → known (s_nodes s) roots → i ≤ length roots → length roots - i ≤ k →
  (match best with
   | None => i = 0
   | Some p => ∃ j, idx = Z.of_nat j ∧ roots !! j = Some p ∧ tops (cmp cb) mm (s_nodes s) (take i roots) p
   end) →
  (∀ s' r, same_but b s s' → heap_at cb m s' b roots hd cnt →
    (roots = [] ∧ r = (None, idx)) ∨
    (∃ p j, r = (Some p, Z.of_nat j) ∧ roots !! j = Some p ∧ tops (cmp cb) mm (s_nodes s) roots p) → Q r s') →
  wp (maxmin_loop k b (maxmin_of mm) (Z.of_nat i) best idx) Q s.
Proof using KO.
  revert s i best idx. induction k as [|k IH]; intros s i best idx Hat Hk Hi Hf Hb HQ; cbn [maxmin_loop];
    apply wp_bind; (eapply wp_count; [exact Hat|]); intros s1 Hs1 Hat1;
    (rewrite i32_id by (destruct Hat as (l & _ & [_ Hm]%list_is_length); rewrite length_fmap in Hm; unfold in_i32, MAX_LEN in *; lia)).
  all: assert (Hdone : i = length roots → Q (best, idx) s1).
  1,3: intros ->; apply HQ; [done|done|]; rewrite take_ge in Hb by lia; destruct best as [p|];
    [right; destruct Hb as (j & -> & ? & ?); eauto|left; split; [by apply length_zero_iff_nil|done]].
  { rewrite bool_decide_eq_false_2 by lia. apply wp_ret, Hdone. lia. }
  case_bool_decide as Hlt; [|apply wp_ret, Hdone; lia].
  destruct (lookup_lt_is_Some_2 roots i) as [x Hx]; [lia|].
  destruct (known_lookup _ _ _ _ Hk Hx) as (xn & Hxn & HPx).
  apply wp_bind. eapply wp_pick; [exact Hat1|exact Hx|]. intros s2 Hs2 Hat2.
  assert (same_but b s s2) as Hs by (by etrans). destruct (Hs) as (Hn & _). rewrite <-Hn in Hk, Hb, Hxn.
  replace (Z.of_nat i + 1)%Z with (Z.of_nat (S i)) by lia.
  assert (Hgo : ∀ best' idx',
    (∃ p j, best' = Some p ∧ idx' = Z.of_nat j ∧ roots !! j = Some p ∧ tops (cmp cb) mm (s_nodes s2) (take (S i) roots) p) →
    wp (maxmin_loop k b (maxmin_of mm) (Z.of_nat (S i)) best' idx') Q s2).
  { intros best' idx' (p & j & -> & -> & Hj & Ht). apply IH; [done|done|lia|lia|eauto|].
    intros s' r Hs' Hat' Hr. apply HQ; [by etrans|done|]. rewrite Hn in Hr. destruct Hr as [[-> _]|Hr]; [done|by right]. }
  rewrite (take_S_r _ _ _ Hx) in Hgo. destruct best as [p|].
  - destruct Hb as (j & -> & Hj & Ht). destruct (known_lookup _ _ _ _ Hk Hj) as (pn & Hpn & HPp).
    apply wp_bind. eapply wp_lift_store; [done|]. apply wp_bind. eapply wp_nld; [exact Hxn|].
    apply wp_bind. eapply wp_nld; [exact Hpn|]. apply wp_bind. eapply wp_hld; [exact Hat2|]. intros l _. cbn [bh_cbs].
    assert (known (s_nodes s2) (take i roots)) as Hkt.
    { intros q Hq. apply Hk. rewrite <-(take_drop i roots). apply elem_of_app. by left. }
    destruct (tops_step mm _ _ p pn x xn Hkt Ht Hpn Hxn HPp HPx) as [Hyes Hno].
    pose proof (maxmin_test mm (bn_key xn) (bn_key pn) HPx HPp) as Htest. simpl in Htest.
    case_match; apply Hgo; eauto 10.
  - subst i. apply Hgo. exists x, 0. split_and!; [done..|]. exists xn. split; [done|].
    intros q qn ->%list_elem_of_singleton Hq. simplify_eq. by apply (prec_refl P (cmp cb)).
Qed.

Lemma maxmin_ok m mm s b roots hd cnt idx (Q : option loc * Z → store V → Prop) :
  heap_at cb m s b roots hd cnt → known (s_nodes s) roots →
  (∀ s' r, same_but b s s' → heap_at cb m s' b roots hd cnt →
    (roots = [] ∧ r = (None, idx)) ∨
    (∃ p j, r = (Some p, Z.of_nat j) ∧ roots !! j = Some p ∧ tops (cmp cb) mm (s_nodes s) roots p) → Q r s') →
  wp (binheap_maxmin b idx (maxmin_of mm)) Q s.
Proof using KO.
  intros Hat Hk HQ. unfold binheap_maxmin. apply wp_bind. eapply wp_count; [exact Hat|]. intros s1 Hs1 Hat1.
  rewrite Nat2Z.id. change 0%Z with (Z.of_nat 0). destruct (Hs1) as (Hn & _). rewrite <-Hn in Hk.
  apply (maxmin_loop_ok m mm _ s1 b roots hd cnt); [done|done|lia|lia|done|].
  intros s' r Hs' Hat' Hr. rewrite Hn in Hr. apply HQ; [by etrans|done|done].
Qed.

(** The test of the two functions that look for a child. *)
Definition better_of mm (z : Z) : bool :=
  match mm with BINHEAP_MODE_MAX => bool_decide (z >= 0)%Z | BINHEAP_MODE_MIN => bool_decide (z <= 0)%Z end.

Lemma find_child_loop_ok mm h s all cs pre j y yn (Q : nat → store V → Prop) :
  bh_cbs h = cb → known (s_nodes s) all → all = pre ++ cs →
  all !! j = Some y → s_nodes s !! y = Some yn → tops (cmp cb) mm (s_nodes s) pre y →
  (∀ i x, all !! i = Some x → tops (cmp cb) mm (s_nodes s) all x → Q i s) →
  wp (find_child_loop (better_of mm) h cs (length pre) j (bn_key yn)) Q s.
Proof using KO.
  intros Hcb Hk. revert pre j y yn. induction cs as [|x cs IH]; intros pre j y yn Hall Hj Hy Ht HQ; cbn [find_child_loop].
  { rewrite app_nil_r in Hall. subst all. apply wp_ret. by eapply HQ. }
  assert (all !! length pre = Some x) as Hx by (rewrite Hall; by apply list_lookup_middle).
  destruct (known_lookup _ _ _ _ Hk Hx) as (xn & Hxn & HPx). destruct (known_lookup _ _ _ _ Hk Hj) as (yn' & Hy' & HPy).
  assert (yn' = yn) as -> by congruence. clear Hy'.
  apply wp_bind. eapply wp_nld; [exact Hxn|]. rewrite Hcb.
  assert (known (s_nodes s) pre) as Hkp by (intros q Hq; apply Hk; rewrite Hall; apply elem_of_app; by left).
  destruct (tops_step mm _ _ y yn x xn Hkp Ht Hy Hxn HPy HPx) as [Hyes Hno].
  assert (better_of mm (cmp cb (bn_key xn) (bn_key yn)) = prec (cmp cb) mm (bn_key xn) (bn_key yn)) as -> by (by destruct mm).
  replace (S (length pre)) with (length (pre ++ [x])) by (rewrite length_app; simpl; lia).
  rewrite (cons_middle x pre cs), app_assoc in *.
  destruct (prec (cmp cb) mm (bn_key xn) (bn_key yn)) eqn:Hpr.
  - eapply (IH (pre ++ [x]) _ x xn); [done|done|done|by apply Hyes|done].
  - eapply (IH (pre ++ [x]) _ y yn); [done|done|done| |done]. apply Hno. by apply (prec_total P (cmp cb)).
Qed.

Lemma find_child_ok m mm s b roots hd cnt x xn (Q : option nat → store V → Prop) :
  heap_at cb m s b roots hd cnt → s_nodes s !! x = Some xn → bn_bh xn = b → known (s_nodes s) (bn_children xn) →
  (bn_children xn = [] → Q None s) →
  (∀ i y, bn_children xn !! i = Some y → tops (cmp cb) mm (s_nodes s) (bn_children xn) y → Q (Some i) s) →
  wp (find_child (better_of mm) x) Q s.
Proof using KO.
  intros Hat Hx Hb Hk Hnil HQ. unfold find_child. apply wp_bind. eapply wp_nld; [exact Hx|].
  destruct (bn_children xn) as [|y ys] eqn:Hch; [by apply wp_ret, Hnil|]. rewrite Hb.
  apply wp_bind. eapply wp_hld; [exact Hat|]. intros l _.
  destruct (Hk y) as (yn & Hyn & HPy); [left|]. apply wp_bind. eapply wp_nld; [exact Hyn|]. apply wp_bind.
  eapply (find_child_loop_ok mm _ s (y :: ys) (y :: ys) [] 0 y yn); [done|done|done|done|done| |].
  - exists yn. split; [done|]. by intros q qn ?%elem_of_nil.
  - intros i z Hi Ht. apply wp_ret. by eapply HQ.
Qed.

(** ** The head *)
Definition head_ok m ns roots hd : Prop :=
  match hd with None => roots = [] | Some p => p ∈ roots ∧ top (cmp cb) m ns p end.

Lemma get_top_none m s b roots cnt idx (Q : option loc * Z → store V → Prop) :
  heap_at cb m s b roots None cnt → known (s_nodes s) roots →
  (∀ s' r, same_but b s s' → heap_at cb m s' b roots None cnt →
    (roots = [] ∧ r.1 = None) ∨ (∃ p, r.1 = Some p ∧ p ∈ roots ∧ tops (cmp cb) m (s_nodes s) roots p) → Q r s') →
  wp (if bool_decide (m = BINHEAP_MODE_MAX) then binheap_get_maximum b idx else binheap_get_minimum b idx) Q s.
Proof using KO.
  intros Hat Hk HQ.
  assert (Hgo : ∀ mode find, mode = m →
    wp (get_extreme b mode (maxmin_of m) idx find) Q s).
  { intros mode find ->. unfold get_extreme. apply wp_bind. eapply wp_hld; [exact Hat|]. intros l _. cbn [bh_mode bh_head].
    rewrite (bool_decide_eq_true_2 (m = m)), (bool_decide_eq_false_2 (is_Some None)) by (done || by intros []). cbn [andb].
    apply wp_bind. eapply (maxmin_ok m m s b roots None cnt); [done|done|]. intros s' r Hs' Hat' Hr.
    destruct Hr as [[-> ->]|(p & j & -> & Hj & Ht)]; apply wp_ret; (apply HQ; [done|done|]); [by left|].
    right. exists p. split; [done|]. split; [by apply list_elem_of_lookup_2 in Hj|done]. }
  destruct m; by apply Hgo.
Qed.

Lemma update_head_ok m s b roots hd cnt (Q : unit → store V → Prop) :
  heap_at cb m s b roots hd cnt → known (s_nodes s) roots →
  (∀ s' hd', same_but b s s' → heap_at cb m s' b roots hd' cnt →
    (roots = [] ∧ hd' = None) ∨ (∃ p, hd' = Some p ∧ p ∈ roots ∧ tops (cmp cb) m (s_nodes s) roots p) → Q tt s') →
  wp (UPDATE_HEAD b) Q s.
Proof using KO.
  intros Hat Hk HQ. unfold UPDATE_HEAD. apply wp_bind. eapply (wp_hupd cb m s b roots hd cnt None cnt); [done|done|].
  intros s1 Hs1 Hat1. apply wp_bind. eapply wp_hld; [exact Hat1|]. intros l _. cbn [bh_mode]. apply wp_bind.
  destruct (Hs1) as (Hn & _). eapply get_top_none; [exact Hat1|by rewrite Hn|]. intros s2 r Hs2 Hat2 Hr.
  eapply (wp_hupd cb m s2 b roots None cnt r.1 cnt); [done|done|]. intros s3 Hs3 Hat3.
  rewrite Hn in Hr. eapply HQ; [|exact Hat3|done]. etrans; [exact Hs1|]. by etrans.
Qed.

(** ** Removing a node *)
(** The nodes with [x] made a root whose children are [cs]: while the children
    of [x] move away its own entry is stale. *)
Definition ghost ns x (xn : node) (cs : list loc) : gmap loc node :=
  <[x := mk_bnode (bn_key xn) (bn_value xn) None cs (bn_bh xn)]> ns.

Lemma move_step m ns x xn y cs p pn yn roots ht :
  forest P (cmp cb) m (ghost ns x xn (y :: cs)) roots ht → ns !! p = Some pn → p ≠ x → ns !! y = Some yn →
  ht y < ht p → prec (cmp cb) m (bn_key pn) (bn_key yn) →
  y ≠ x ∧ y ≠ p ∧
  forest P (cmp cb) m (ghost (<[y := set_parent (Some p) yn]> (<[p := set_children (λ l, l ++ [y]) pn]> ns)) x xn cs) roots ht.
Proof.
  intros Hf Hp Hpx Hy Hlt Hpr. unfold ghost in *. set (g cs := mk_bnode (bn_key xn) (bn_value xn) None cs (bn_bh xn)) in *.
  assert (y ≠ x) as Hyx.
  { intros ->. eapply (forest_no_self _ _ _ _ _ _ x (g (x :: cs))); [exact Hf|by rewrite lookup_insert_eq|left]. }
  assert (y ≠ p) as Hyp by (intros ->; lia). split_and!; [done|done|].
  pose proof (forest_detach P (cmp cb) m _ roots ht x (g (y :: cs)) 0 y yn Hf) as Hd.
  rewrite lookup_insert_eq, lookup_insert_ne in Hd by done. specialize (Hd eq_refl eq_refl Hy).
  pose proof (forest_link P (cmp cb) m _ roots ht p pn y (set_parent None yn) Hd) as Hl.
  rewrite !lookup_insert_ne in Hl by done. rewrite lookup_insert_eq in Hl. specialize (Hl Hp eq_refl Hlt Hpr).
  match type of Hl with forest _ _ _ ?N _ _ => match goal with |- forest _ _ _ ?M _ _ => replace M with N; [done|] end end.
  apply map_eq. intros z. rewrite !lookup_insert. repeat case_decide; simplify_eq; done.
Qed.

Lemma move_children_ok m x xn p k cs s roots ht :
  forest P (cmp cb) m (ghost (s_nodes s) x xn cs) roots ht → p ≠ x →
  (∃ pn, s_nodes s !! p = Some pn ∧ bn_key pn = k) →
  (∀ y, y ∈ cs → ht y < ht p ∧ ∃ yn, s_nodes s !! y = Some yn ∧ prec (cmp cb) m k (bn_key yn)) →
  wp (move_children (Some p) cs) (λ _ s',
    forest P (cmp cb) m (ghost (s_nodes s') x xn []) roots ht ∧ data (s_nodes s') = data (s_nodes s) ∧
    s_heaps s' = s_heaps s ∧ s_next s' = s_next s) s.
Proof.
  revert s. induction cs as [|y cs IH]; intros s Hf Hpx (pn & Hp & Hk) Hcs; cbn [move_children]; [by apply wp_ret|].
  destruct (Hcs y) as (Hlt & yn & Hy & Hpr); [left|]. rewrite <-Hk in Hpr.
  destruct (move_step m _ x xn y cs p pn yn roots ht Hf Hp Hpx Hy Hlt Hpr) as (Hyx & Hyp & Hf').
  apply wp_bind. unfold binomial_tree_node_add. apply wp_bind. eapply wp_nupd; [exact Hp|].
  eapply wp_nupd; [cbn [s_nodes]; rewrite lookup_insert_ne by done; exact Hy|]. cbn [s_nodes s_heaps s_next].
  set (ns2 := <[y := set_parent (Some p) yn]> (<[p := set_children (λ l, l ++ [y]) pn]> (s_nodes s))) in *.
  assert (data ns2 = data (s_nodes s)) as Hd.
  { unfold ns2. rewrite (data_upd _ y yn); [|by rewrite lookup_insert_ne|done..]. by apply (data_upd _ p pn). }
  eapply wp_mono; [apply IH|].
  - exact Hf'.
  - done.
  - destruct (data_same _ _ _ _ Hd Hp) as (pn' & ? & Hk' & _). exists pn'. cbn. split; [done|congruence].
  - intros z Hz. destruct (Hcs z) as (Hzlt & zn & Hzn & Hzp); [by right|]. split; [done|].
    destruct (data_same _ _ _ _ Hd Hzn) as (zn' & ? & Hk' & _). exists zn'. split; [done|]. by rewrite Hk'.
  - intros [] s' (H1 & H2 & H3 & H4). split_and!; [done| |done|done]. by rewrite H2.
Qed.

(** What the first half of the destruction of [x] leaves: a forest of which [x]
    is one more root, and the node its children move to. *)
Definition detached_at m s b x xn roots R np hd cnt s' : Prop :=
  heap_at cb m s' b R hd cnt ∧ data (s_nodes s') = data (s_nodes s) ∧ s_next s' = s_next s ∧
  (∀ q, q ∈ roots → q ≠ x → q ∈ R) ∧
  ∃ xn' ht, s_nodes s' !! x = Some xn' ∧ forest P (cmp cb) m (ghost (s_nodes s') x xn (bn_children xn')) (x :: R) ht ∧
    match np with
    | None => bn_children xn' = []
    | Some p => p ≠ x ∧ ∃ pn, s_nodes s' !! p = Some pn ∧
        ∀ y, y ∈ bn_children xn' → ht y < ht p ∧ ∃ yn, s_nodes s' !! y = Some yn ∧ prec (cmp cb) m (bn_key pn) (bn_key yn)
    end.

Lemma detach_inner_ok m s b x xn p roots ht hd cnt :
  heap_at cb m s b roots hd cnt → forest P (cmp cb) m (s_nodes s) roots ht → s_nodes s !! x = Some xn → bn_parent xn = Some p →
  wp (detach_inner x p) (λ np s', detached_at m s b x xn roots roots np hd cnt s') s.
Proof using KO.
  intros Hat Hf Hx Hpar. destruct (f_parent _ _ _ _ _ _ Hf x xn p Hx Hpar) as (pn & Hp & Hin).
  destruct (f_child _ _ _ _ _ _ Hf p pn x Hp Hin) as (xn' & Hx' & _ & Hlt & Hpr). assert (xn' = xn) as -> by congruence. clear Hx'.
  assert (p ≠ x) as Hpx by (intros ->; lia).
  unfold detach_inner. apply wp_bind. eapply wp_nld; [exact Hp|].
  destruct (list_find (x =.) (bn_children pn)) as [[i x']|] eqn:Hfind.
  2: { exfalso. eapply list_find_None in Hfind. rewrite Forall_forall in Hfind. by eapply Hfind. }
  apply list_find_Some in Hfind as (Hi & <- & _).
  apply wp_bind. eapply wp_nupd; [exact Hp|]. apply wp_ret.
  pose proof (forest_detach P (cmp cb) m _ roots ht p pn i x xn Hf Hp Hi Hx) as Hd.
  split_and!; cbn [s_nodes s_next]; [exact Hat|by apply (data_upd _ p pn)|done|done|].
  exists xn, ht. split_and!; [by rewrite lookup_insert_ne|exact Hd|done|].
  exists (set_children (delete i) pn). split; [by rewrite lookup_insert_eq|]. intros y Hy.
  destruct (f_child _ _ _ _ _ _ Hf x xn y Hx Hy) as (yn & Hyn & Hyp & Hylt & Hypr).
  split; [lia|]. exists yn. split.
  - rewrite lookup_insert_ne; [done|]. intros <-. lia.
  - cbn. apply (prec_trans P (cmp cb)) with (bn_key xn); [by eapply (f_keys _ _ _ _ _ _ Hf)..|done|done].
Qed.

Lemma forest_known m ns roots ht ps : forest P (cmp cb) m ns roots ht → (∀ p, p ∈ ps → is_Some (ns !! p)) → known ns ps.
Proof. intros Hf Hps p [n Hn]%Hps. exists n. split; [done|]. by eapply (f_keys _ _ _ _ _ _ Hf). Qed.
Lemma forest_known_children m ns roots ht p n : forest P (cmp cb) m ns roots ht → ns !! p = Some n → known ns (bn_children n).
Proof.
  intros Hf Hp. eapply forest_known; [done|]. intros y Hy. destruct (f_child _ _ _ _ _ _ Hf p n y Hp Hy) as (yn & ? & _). by exists yn.
Qed.
Lemma forest_known_roots m ns roots ht : forest P (cmp cb) m ns roots ht → known ns roots.
Proof. intros Hf. eapply forest_known; [done|]. intros p Hp. destruct (forest_lookup _ _ _ _ _ _ _ Hf Hp) as (n & ? & _). by exists n. Qed.

Lemma ghost_id ns x xn n cs :
  ns !! x = Some n → bn_parent n = None → bn_children n = cs → bn_key n = bn_key xn → bn_value n = bn_value xn →
  bn_bh n = bn_bh xn → ghost ns x xn cs = ns.
Proof. intros Hx H1 <- H2 H3 H4. unfold ghost. rewrite <-H1, <-H2, <-H3, <-H4. apply insert_id. by destruct n. Qed.

Lemma remove_root_ok m s b x roots hd cnt j rindex (Q : Z → store V → Prop) :
  heap_at cb m s b roots hd cnt → NoDup roots → roots !! j = Some x → rindex = 0%Z ∨ rindex = Z.of_nat j →
  (∀ s', same_but b s s' → heap_at cb m s' b (delete j roots) hd cnt → Q (Z.of_nat (S j)) s') →
  wp (if bool_decide (rindex ≠ 0%Z) then
        _ ← on_trees b (list_fetch_value (u64 rindex)); mret (i32 (rindex + 1))
      else r ← on_trees b (list_foreach_value (binheap_remove_root_node x) tt); mret (i32 r.2)) Q s.
Proof.
  intros Hat Hnd Hj Hri HQ. assert (Z.of_nat j < MAX_LEN)%Z as Hlt.
  { destruct Hat as (l & _ & [_ Hm]%list_is_length). rewrite length_fmap in Hm. apply lookup_lt_Some in Hj. lia. }
  unfold MAX_LEN in Hlt. case_bool_decide as Hz.
  - destruct Hri as [?| ->]; [done|]. rewrite u64_id by (unfold in_u64; lia).
    apply wp_bind. eapply wp_fetch; [exact Hat|exact Hj|]. intros s' Hs' Hat'. apply wp_ret.
    rewrite i32_id by (unfold in_i32; lia). replace (Z.of_nat j + 1)%Z with (Z.of_nat (S j)) by lia. by apply HQ.
  - apply wp_bind. eapply wp_remove; [exact Hat|exact Hj|done|]. intros s' Hs' Hat'. apply wp_ret.
    cbn [snd]. rewrite i32_id by (unfold in_i32; lia). by apply HQ.
Qed.

Lemma detach_root_ok m s b x xn roots ht hd cnt j rindex :
  heap_at cb m s b roots hd cnt → forest P (cmp cb) m (s_nodes s) roots ht → s_nodes s !! x = Some xn → bn_bh xn = b →
  bn_parent xn = None → roots !! j = Some x → rindex = 0%Z ∨ rindex = Z.of_nat j →
  wp (detach_root x rindex) (λ np s', ∃ R, detached_at m s b x xn roots R np hd cnt s') s.
Proof using KO.
  intros Hat Hf Hx Hb Hpar Hj Hri. pose proof (f_nodup _ _ _ _ _ _ Hf) as Hnd.
  pose proof (delete_Permutation roots j x Hj) as Hperm. set (R0 := delete j roots) in *.
  assert (Hlen : length roots = S (length R0)) by (by rewrite Hperm).
  assert (Hmax : (Z.of_nat (length roots) ≤ MAX_LEN)%Z).
  { destruct Hat as (l & _ & [_ Hm]%list_is_length). by rewrite length_fmap in Hm. }
  unfold detach_root. apply wp_bind. eapply wp_nld; [exact Hx|]. rewrite Hb.
  apply wp_bind. eapply remove_root_ok; [exact Hat|done|exact Hj|done|]. intros s1 (Hn1 & Hx1 & _) Hat1. fold R0 in Hat1.
  rewrite <-Hn1 in Hx, Hf. destruct (decide (bn_children xn = [])) as [Hnil|Hcons].
  { rewrite bool_decide_eq_true_2 by done. apply wp_ret. exists R0. split_and!; [done|by rewrite Hn1|done| |].
    - intros q Hq Hqx. rewrite Hperm in Hq. by apply elem_of_cons in Hq as [?|?].
    - exists xn, ht. split_and!; [done| |done]. by rewrite (ghost_id _ _ _ xn), <-Hperm. }
  rewrite bool_decide_eq_false_2 by done. apply wp_bind. eapply wp_hld; [exact Hat1|]. intros l _. cbn [bh_mode].
  assert ((if bool_decide (m = BINHEAP_MODE_MAX) then binomial_tree_node_find_max_child x else binomial_tree_node_find_min_child x)
    = find_child (V := V) (better_of m) x) as -> by (by destruct m).
  apply wp_bind. eapply (find_child_ok m m s1 b); [exact Hat1|exact Hx|done|by eapply forest_known_children|done|].
  intros i y Hi (yn & Hy & Htop).
  destruct (f_child _ _ _ _ _ _ Hf x xn y Hx ltac:(by eapply list_elem_of_lookup_2)) as (yn' & Hy' & Hyp & Hylt & _).
  assert (yn' = yn) as -> by congruence. clear Hy'. assert (x ≠ y) as Hxy by (intros ->; lia).
  apply wp_bind. eapply wp_lift_store; [by rewrite Hi|]. apply wp_bind. eapply wp_nupd; [exact Hx|].
  apply wp_bind. eapply wp_nupd; [cbn [s_nodes]; rewrite lookup_insert_ne by done; exact Hy|].
  cbn [s_nodes s_heaps s_next]. rewrite bool_decide_eq_true_2 by lia.
  apply wp_bind, wp_bind. replace (Z.of_nat (S j) - 1)%Z with (Z.of_nat j) by lia.
  eapply (wp_insert_at cb m _ b R0 hd cnt); [exact Hat1|apply lookup_lt_Some in Hj; lia|lia|].
  intros s2 (Hn2 & Hx2 & _) Hat2. cbn [s_nodes s_next] in Hn2, Hx2. apply wp_ret, wp_ret.
  set (R := take j R0 ++ y :: drop j R0) in *.
  assert (R ≡ₚ y :: R0) as HR by (unfold R; rewrite <-Permutation_middle, take_drop; done).
  exists R. split_and!; [done| |by rewrite Hx2| |].
  - rewrite Hn2. rewrite (data_upd _ y yn); [|by rewrite lookup_insert_ne|done..]. rewrite (data_upd _ x xn); [by rewrite Hn1|done..].
  - intros q Hq Hqx. rewrite Hperm in Hq. apply elem_of_cons in Hq as [?|?]; [done|]. rewrite HR. by right.
  - pose proof (forest_detach P (cmp cb) m _ roots ht x xn i y yn Hf Hx Hi Hy) as Hd.
    apply (forest_raise _ _ _ _ _ _ y (ht x)) in Hd; [|left|lia]. rewrite <-Hn2 in Hd.
    eexists (set_children (delete i) xn), _. split_and!; [by rewrite Hn2, lookup_insert_ne, lookup_insert_eq| |done|].
    + rewrite (ghost_id _ _ _ (set_children (delete i) xn)); [|by rewrite Hn2, lookup_insert_ne, lookup_insert_eq|done..].
      eapply forest_permute; [|exact Hd]. rewrite HR, Hperm. apply perm_swap.
    + exists (set_parent None yn). split; [by rewrite Hn2, lookup_insert_eq|]. intros z Hz. cbn [set_children bn_children] in Hz.
      pose proof (f_children _ _ _ _ _ _ Hf x xn Hx) as Hcnd. pose proof (delete_Permutation _ _ _ Hi) as Hcp.
      rewrite Hcp in Hcnd. apply NoDup_cons in Hcnd as [Hyd _]. assert (z ≠ y) as Hzy by (by intros ->).
      assert (z ∈ bn_children xn) as Hzc by (rewrite Hcp; by right).
      destruct (f_child _ _ _ _ _ _ Hf x xn z Hx Hzc) as (zn & Hzn & _ & Hzlt & _).
      rewrite (decide_False (P := z = y)), (decide_True (P := y = y)) by done. split; [done|]. exists zn. split.
      * rewrite Hn2, !lookup_insert_ne; [done|intros <-; lia|done].
      * cbn. by eapply Htop.
Qed.

(** ** The invariant of a heap *)
(** All nodes of the store are nodes of [b]. *)
Record rep m s b roots hd ht : Prop := {
  r_heap : heap_at cb m s b roots hd (Z.of_nat (size (s_nodes s)));
  r_forest : forest P (cmp cb) m (s_nodes s) roots ht;
  r_head : head_ok m (s_nodes s) roots hd;
  r_bh p n : s_nodes s !! p = Some n → bn_bh n = b;
  r_fresh p : is_Some (s_nodes s !! p) → (p < s_next s)%positive;
  r_size : (Z.of_nat (size (s_nodes s)) < 2 ^ 31)%Z
}.

Lemma tops_top m ns roots hd ht :
  forest P (cmp cb) m ns roots ht →
  (roots = [] ∧ hd = None) ∨ (∃ p, hd = Some p ∧ p ∈ roots ∧ tops (cmp cb) m ns roots p) → head_ok m ns roots hd.
Proof using KO.
  intros Hf [[-> ->]|(p & -> & Hp & Ht)]; [done|]. split; [done|]. by eapply forest_top.
Qed.

(** The data of the nodes decide what is on top. *)
Lemma top_data m ns ns' x p :
  data ns' = delete x (data ns) → p ≠ x → top (cmp cb) m ns p → top (cmp cb) m ns' p.
Proof.
  intros Hd Hpx (n & Hn & Hmax).
  assert (∀ q qn', ns' !! q = Some qn' → q ≠ x ∧ ∃ qn, ns !! q = Some qn ∧ bn_key qn = bn_key qn') as Hback.
  { intros q qn' Hq. apply data_lookup in Hq. rewrite Hd in Hq. apply lookup_delete_Some in Hq as [Hne Hq].
    apply data_inv in Hq as (qn & ? & ? & _). split; [done|eauto]. }
  pose proof (data_lookup _ _ _ Hn) as Hp. rewrite <-(lookup_delete_ne _ x), <-Hd in Hp by done.
  apply data_inv in Hp as (n' & Hn' & Hk & _). exists n'. split; [done|]. rewrite Hk. intros q qn' Hq.
  destruct (Hback _ _ Hq) as (_ & qn & Hqn & <-). by eapply Hmax.
Qed.
Lemma tops_data m ns ns' ps p :
  data ns' = data ns → tops (cmp cb) m ns ps p → tops (cmp cb) m ns' ps p.
Proof.
  intros Hd (n & Hn & Hmax). destruct (data_same _ _ _ _ Hd Hn) as (n' & Hn' & Hk & _). exists n'. split; [done|].
  intros q qn' Hq Hqn. symmetry in Hd. destruct (data_same _ _ _ _ Hd Hqn) as (qn & Hqn' & Hkq & _).
  rewrite Hk, <-Hkq. by eapply Hmax.
Qed.

Lemma rep_intro m s s' b R hd ht x :
  heap_at cb m s' b R hd (Z.of_nat (size (s_nodes s)) - 1) → forest P (cmp cb) m (s_nodes s') R ht → head_ok m (s_nodes s') R hd →
  data (s_nodes s') = delete x (data (s_nodes s)) → is_Some (s_nodes s !! x) → s_next s' = s_next s →
  (∃ roots hd0 ht0, rep m s b roots hd0 ht0) → rep m s' b R hd ht.
Proof.
  intros Hat Hf Hh Hd [xn Hx] Hnx (roots & hd0 & ht0 & [_ _ _ H4 H5 H6]).
  assert (Hsz : size (s_nodes s) = S (size (s_nodes s'))).
  { rewrite <-!size_data, Hd. rewrite map_size_delete_Some by (eexists; by apply data_lookup).
    assert (size (data (s_nodes s)) ≠ 0); [|lia]. intros H0%map_size_empty_inv.
    apply data_lookup in Hx. by rewrite H0 in Hx. }
  assert (Hback : ∀ p n', s_nodes s' !! p = Some n' → ∃ n, s_nodes s !! p = Some n ∧ bn_bh n = bn_bh n').
  { intros p n' Hp. apply data_lookup in Hp. rewrite Hd in Hp. apply lookup_delete_Some in Hp as [_ Hp].
    apply data_inv in Hp as (n & ? & _ & _ & ?). eauto. }
  split; [|done|done| | |lia].
  - by replace (Z.of_nat (size (s_nodes s'))) with (Z.of_nat (size (s_nodes s)) - 1)%Z by lia.
  - intros p n' (n & Hn & <-)%Hback. by eapply H4.
  - intros p [n' (n & Hn & _)%Hback]. rewrite Hnx. apply H5. by eexists.
Qed.

(** The second half: the children of [x] move, and [x] can be dropped. *)
Lemma detached_move m s b x xn roots R np hd cnt s1 xn1 :
  detached_at m s b x xn roots R np hd cnt s1 → s_nodes s1 !! x = Some xn1 →
  wp (move_children np (bn_children xn1)) (λ _ s2,
    heap_at cb m s2 b R hd cnt ∧ data (s_nodes s2) = data (s_nodes s) ∧ s_next s2 = s_next s ∧
    ∃ ht, forest P (cmp cb) m (delete x (s_nodes s2)) R ht) s1.
Proof.
  intros (Hat & Hd & Hnx & _ & xn' & ht & Hx & Hf & Hnp) Hx1. assert (xn' = xn1) as -> by congruence.
  assert (Hdrop : ∀ ns, forest P (cmp cb) m (ghost ns x xn []) (x :: R) ht → forest P (cmp cb) m (delete x ns) R ht).
  { intros ns Hg. eapply forest_drop in Hg; [|by apply lookup_insert_eq|done]. unfold ghost in Hg. by rewrite delete_insert_eq in Hg. }
  destruct np as [p|].
  - destruct Hnp as (Hpx & pn & Hp & Hcs).
    eapply wp_mono; [eapply (move_children_ok m x xn p); [exact Hf|done|by eauto|exact Hcs]|].
    intros [] s2 (Hf2 & Hd2 & Hh2 & Hn2). split_and!; [|congruence|congruence|eauto].
    destruct Hat as (l & Hl & ?). exists l. by rewrite Hh2.
  - rewrite Hnp in *. apply wp_ret. split_and!; [done|done|done|eauto].
Qed.

(** binomial_tree_node_destroy removes one node and keeps the heap. *)
Lemma heap_node_destroy_ok m s b roots hd ht x xn rindex :
  rep m s b roots hd ht → s_nodes s !! x = Some xn →
  (bn_parent xn = None → rindex = 0%Z ∨ ∃ j, roots !! j = Some x ∧ rindex = Z.of_nat j) →
  wp (binomial_tree_node_destroy x rindex) (λ _ s',
    data (s_nodes s') = delete x (data (s_nodes s)) ∧ ∃ R hd' ht', rep m s' b R hd' ht') s.
Proof using KO.
  intros Hrep Hx Hri. destruct (Hrep) as [Hat Hf Hh Hbh Hfr Hsz]. set (cnt := Z.of_nat (size (s_nodes s))) in *.
  unfold binomial_tree_node_destroy. apply wp_bind. eapply wp_nld; [exact Hx|]. apply wp_bind.
  eapply (wp_mono _ (λ np s', ∃ R, detached_at m s b x xn roots R np hd cnt s')).
  { destruct (bn_parent xn) as [p|] eqn:Hpar.
    - eapply wp_mono; [by eapply detach_inner_ok|]. intros np s' Hd. by exists roots.
    - assert (x ∈ roots) as [j Hj]%list_elem_of_lookup_1 by (apply (f_root _ _ _ _ _ _ Hf); eauto).
      eapply (detach_root_ok m s b x xn roots ht hd cnt j); [done|done|done|by eapply Hbh|done|done|].
      destruct (Hri eq_refl) as [?|(j' & Hj' & ->)]; [by left|]. right. f_equal. eapply NoDup_lookup; [|done|done]. apply Hf. }
  intros np s1 (R & Hdet). destruct (Hdet) as (_ & _ & _ & HR & xn1 & _ & Hx1 & _).
  apply wp_bind. eapply wp_nld; [exact Hx1|]. apply wp_bind. eapply wp_mono; [by eapply detached_move|].
  intros [] s2 (Hat2 & Hd2 & Hn2 & ht2 & Hf2).
  assert (bn_bh xn1 = b) as Hb1.
  { destruct Hdet as (_ & Hd1 & _). symmetry in Hd1. destruct (data_same _ _ _ _ Hd1 Hx1) as (n & Hn & _ & _ & Hb).
    rewrite <-Hb. by eapply Hbh. }
  rewrite Hb1. destruct (data_same _ _ _ _ Hd2 Hx) as (xn2 & Hx2 & _).
  apply wp_bind. eapply wp_hld; [exact Hat2|]. intros l _. cbn [bh_head]. apply wp_bind.
  assert (Hdd : ∀ ns, ns = s_nodes s2 → data (delete x ns) = delete x (data (s_nodes s))).
  { intros ns ->. rewrite <-Hd2. unfold data. apply fmap_delete. }
  assert (Hfin : ∀ s3 hd', same_but b s2 s3 → heap_at cb m s3 b R hd' cnt → head_ok m (delete x (s_nodes s2)) R hd' →
    wp (h ← hld b; c ← lift (cint (bh_count h - 1)); _ ← hupd b (set_bh_count c); nfree x)
      (λ _ s', data (s_nodes s') = delete x (data (s_nodes s)) ∧ ∃ R hd' ht', rep m s' b R hd' ht') s3).
  { intros s3 hd' (Hn3 & Hx3 & _) Hat3 Hhd'. apply wp_bind. eapply wp_hld; [exact Hat3|]. intros l' _. cbn [bh_count].
    apply wp_bind. eapply wp_lift_store; [apply cint_ok; unfold in_i32; lia|].
    apply wp_bind. eapply (wp_hupd cb m s3 b R hd' cnt hd' (cnt - 1)); [done|done|]. intros s4 (Hn4 & Hx4 & _) Hat4.
    eapply wp_nfree; [rewrite Hn4, Hn3; exact Hx2|]. cbn [s_nodes]. rewrite Hn4, Hn3. split; [by apply Hdd|].
    exists R, hd', ht2. eapply (rep_intro m s _ b R hd' ht2 x); cbn [s_nodes s_next];
      [exact Hat4|done|done|by apply Hdd|by eexists|congruence|eauto]. }
  case_bool_decide as Hhd.
  - assert (known (s_nodes s2) R) as Hk.
    { intros q Hq. destruct (forest_known_roots _ _ _ _ Hf2 q Hq) as (n & [_ Hn]%lookup_delete_Some & ?). eauto. }
    eapply update_head_ok; [exact Hat2|exact Hk|]. intros s3 hd' Hs3 Hat3 Hhd'. eapply Hfin; [done|exact Hat3|].
    eapply tops_top; [exact Hf2|]. destruct Hhd' as [?|(p & -> & Hp & (n & Hn & Hmax))]; [by left|]. right. exists p.
    split_and!; [done|done|]. destruct (forest_known_roots _ _ _ _ Hf2 p Hp) as (n' & Hn' & _). exists n'. split; [done|].
    apply lookup_delete_Some in Hn' as [_ Hn']. simplify_eq. intros q qn Hq [_ Hqn]%lookup_delete_Some. by eapply Hmax.
  - apply wp_ret. eapply Hfin; [done|exact Hat2|]. destruct hd as [p|]; simpl in *.
    + destruct Hh as [Hp Htop]. assert (p ≠ x) by congruence. split; [by apply HR|].
      eapply top_data; [by apply Hdd|done|done].
    + subst roots. exfalso. destruct (forest_above _ _ _ _ _ _ _ _ Hf Hx) as (r & _ & Hr & _). by apply elem_of_nil in Hr.
Qed.

(** ** Merging trees and insertion *)
Definition changed s s' : Prop :=
  data (s_nodes s') = data (s_nodes s) ∧ s_heaps s' = s_heaps s ∧ s_next s' = s_next s.
Lemma heap_at_changed m s s' b roots hd cnt : changed s s' → heap_at cb m s b roots hd cnt → heap_at cb m s' b roots hd cnt.
Proof. intros (_ & Hh & _) (l & Hb & Hl). exists l. by rewrite Hh. Qed.

Lemma tree_merge_ok m s p q pn qn R ht (Q : unit → store V → Prop) :
  forest P (cmp cb) m (s_nodes s) (p :: q :: R) ht → s_nodes s !! p = Some pn → s_nodes s !! q = Some qn →
  prec (cmp cb) m (bn_key pn) (bn_key qn) →
  (∀ s' ht', forest P (cmp cb) m (s_nodes s') (p :: R) ht' → changed s s' → Q tt s') →
  wp (binomial_tree_merge p q) Q s.
Proof.
  intros Hf Hp Hq Hpr HQ. assert (p ≠ q) as Hpq.
  { intros <-. pose proof (f_nodup _ _ _ _ _ _ Hf) as [Hn _]%NoDup_cons. apply Hn. left. }
  apply (forest_raise _ _ _ _ _ _ p (S (ht p + ht q))) in Hf; [|left|lia].
  rewrite perm_swap in Hf. eapply (forest_link P (cmp cb) m _ (p :: R) _ p pn q qn) in Hf; [|done|done| |done].
  2: { rewrite decide_False, decide_True by done. lia. }
  unfold binomial_tree_merge. apply wp_bind. eapply wp_nupd; [exact Hp|].
  eapply wp_nupd; [cbn [s_nodes]; rewrite lookup_insert_ne by done; exact Hq|]. cbn [s_nodes].
  eapply HQ; [exact Hf|]. split_and!; [|done|done]. cbn [s_nodes].
  rewrite (data_upd _ q qn); [|by rewrite lookup_insert_ne|done..]. by apply (data_upd _ p pn).
Qed.

Lemma link_ok m test s p q R ht (Q : loc → store V → Prop) :
  forest P (cmp cb) m (s_nodes s) (p :: q :: R) ht →
  (∀ k1 k2, P k1 → P k2 → if test k1 k2 : bool then prec (cmp cb) m k1 k2 else prec (cmp cb) m k2 k1) →
  (∀ r s' ht', r = p ∨ r = q → forest P (cmp cb) m (s_nodes s') (r :: R) ht' → changed s s' → Q r s') →
  wp (link test p q) Q s.
Proof.
  intros Hf Ht HQ. destruct (forest_lookup _ _ _ _ _ _ p Hf) as (pn & Hp & _); [left|].
  destruct (forest_lookup _ _ _ _ _ _ q Hf) as (qn & Hq & _); [right; left|].
  pose proof (f_keys _ _ _ _ _ _ Hf) as HP. specialize (Ht (bn_key pn) (bn_key qn) (HP _ _ Hp) (HP _ _ Hq)).
  unfold link. apply wp_bind. eapply wp_nld; [exact Hp|]. apply wp_bind. eapply wp_nld; [exact Hq|].
  destruct (test (bn_key pn) (bn_key qn)); apply wp_bind.
  - eapply tree_merge_ok; [exact Hf|done|done|done|]. intros s' ht' Hf' Hc. apply wp_ret. eapply HQ; [by left|exact Hf'|done].
  - rewrite perm_swap in Hf. eapply tree_merge_ok; [exact Hf|done|done|done|]. intros s' ht' Hf' Hc. apply wp_ret.
    eapply HQ; [by right|exact Hf'|done].
Qed.
Lemma prec_test m h k1 k2 :
  bh_cbs h = cb → bh_mode h = m → P k1 → P k2 →
  if HAS_PRECEDENCE h k1 k2 then prec (cmp cb) m k1 k2 else prec (cmp cb) m k2 k1.
Proof using KO.
  intros H1 H2 HP1 HP2. rewrite HAS_PRECEDENCE_prec, H1, H2. destruct (prec (cmp cb) m k1 k2) eqn:Hp; [done|].
  by apply (prec_total P (cmp cb)).
Qed.

Lemma insert_loop_ok m k s b node tree order R ht hd cnt (Q : loc * option loc → store V → Prop) :
  heap_at cb m s b R hd cnt → forest P (cmp cb) m (s_nodes s) (node :: option_list tree ++ R) ht →
  length (option_list tree ++ R) ≤ k →
  (∀ s' node' tree' R' ht', heap_at cb m s' b R' hd cnt →
     forest P (cmp cb) m (s_nodes s') (node' :: option_list tree' ++ R') ht' →
     length R' ≤ length R → data (s_nodes s') = data (s_nodes s) → s_next s' = s_next s → Q (node', tree') s') →
  wp (insert_loop k b node tree order) Q s.
Proof using KO.
  revert s node tree order R ht. induction k as [|k IH]; intros s node tree order R ht Hat Hf Hk HQ;
    (destruct tree as [t|]; [|apply wp_ret; by eapply HQ]); [simpl in Hk; lia|]. cbn [insert_loop].
  destruct (forest_lookup _ _ _ _ _ _ t Hf) as (tn & Ht & _); [right; left|].
  apply wp_bind. eapply wp_nld; [exact Ht|]. case_bool_decide; [|apply wp_ret; by eapply HQ].
  apply wp_bind. eapply wp_hld; [exact Hat|]. intros l _. apply wp_bind.
  eapply link_ok; [exact Hf|intros; by apply prec_test|]. intros r s1 ht1 _ Hf1 Hc.
  apply (heap_at_changed m _ _ b R hd cnt Hc) in Hat. destruct Hc as (Hd1 & _ & Hx1).
  apply wp_bind. eapply wp_shift; [exact Hat|]. intros s2 (Hn2 & Hx2 & _) Hat2. rewrite <-Hn2 in Hf1.
  assert (option_list (head R) ++ tail R = R) as HR by (by destruct R).
  eapply (IH s2 r (head R) (S order) (tail R) ht1); [exact Hat2|by rewrite HR|rewrite HR; simpl in Hk; lia|].
  intros s' node' tree' R' ht' Hat' Hf' Hlen Hd' Hx'. eapply HQ; [done|done| |congruence|congruence].
  destruct R; simpl in *; lia.
Qed.

Lemma forest_length m ns roots ht : forest P (cmp cb) m ns roots ht → length roots ≤ size ns.
Proof.
  intros Hf. rewrite <-size_dom, <-(size_list_to_set (C := gset loc) roots) by apply Hf.
  apply subseteq_size. intros p Hp%elem_of_list_to_set. destruct (forest_lookup _ _ _ _ _ _ p Hf Hp) as (n & Hn & _).
  by apply elem_of_dom_2 in Hn.
Qed.

Lemma forest_nil m ns ht : forest P (cmp cb) m ns [] ht → ns = ∅.
Proof using KO.
  intros Hf. apply map_empty. intros p. destruct (ns !! p) as [n|] eqn:Hp; [|done].
  destruct (forest_above _ _ _ _ _ _ _ _ Hf Hp) as (r & _ & Hr & _). by apply elem_of_nil in Hr.
Qed.

Lemma rep_insert m s s' b roots hd ht k v R hd' ht' :
  rep m s b roots hd ht → data (s_nodes s') = <[s_next s := (k, v, b)]> (data (s_nodes s)) → s_next s' = Pos.succ (s_next s) →
  size (s_nodes s') = S (size (s_nodes s)) → (Z.of_nat (size (s_nodes s)) + 1 < 2 ^ 31)%Z →
  heap_at cb m s' b R hd' (Z.of_nat (size (s_nodes s)) + 1) → forest P (cmp cb) m (s_nodes s') R ht' →
  head_ok m (s_nodes s') R hd' → rep m s' b R hd' ht'.
Proof.
  intros [_ _ _ Hbh Hfr _] Hd Hx Hsz Hlt Hat Hf Hh. split; [|done|done| | |lia].
  - rewrite Hsz. by replace (Z.of_nat (S (size (s_nodes s)))) with (Z.of_nat (size (s_nodes s)) + 1)%Z by lia.
  - intros p n Hp. apply data_lookup in Hp. rewrite Hd, lookup_insert in Hp. case_decide; [congruence|].
    apply data_inv in Hp as (n' & Hn' & _ & _ & <-). by eapply Hbh.
  - intros p [n Hp]. apply data_lookup in Hp. rewrite Hd, lookup_insert in Hp.
    rewrite Hx. case_decide; [subst; lia|]. apply data_inv in Hp as (n' & Hn' & _). specialize (Hfr p ltac:(by eexists)). lia.
Qed.

(** The end of binheap_insert: the trees go back to the list, the counter and
    the head follow. *)
Lemma insert_finish m s b node tree R hd ht cnt (Q : Z → store V → Prop) :
  heap_at cb m s b R hd cnt → forest P (cmp cb) m (s_nodes s) (node :: option_list tree ++ R) ht →
  (Z.of_nat (length (option_list tree ++ R)) < MAX_LEN)%Z → in_i32 (cnt + 1) → (hd = None → option_list tree ++ R = []) →
  (∀ s' hd', s_nodes s' = s_nodes s → s_next s' = s_next s → heap_at cb m s' b (node :: option_list tree ++ R) hd' (cnt + 1) →
    head_ok m (s_nodes s) (node :: option_list tree ++ R) hd' → Q 0%Z s') →
  wp (_ ← (match tree with Some _ => _ ← on_trees b (list_unshift_value tree); mret tt | None => mret tt end);
      _ ← on_trees b (list_unshift_value (Some node));
      h ← hld b;
      c ← lift (cint (bh_count h + 1));
      _ ← hupd b (set_bh_count c);
      _ ← (if bool_decide (bh_head h = None) then hupd b (set_bh_head (Some node)) else UPDATE_HEAD b);
      mret 0%Z) Q s.
Proof using KO.
  intros Hat Hf Hlen Hc Hnil HQ. set (R1 := option_list tree ++ R) in *.
  apply wp_bind. eapply (wp_mono _ (λ _ s1, same_but b s s1 ∧ heap_at cb m s1 b R1 hd cnt)).
  { destruct tree as [t|]; [|by apply wp_ret]. apply wp_bind. simpl in Hlen.
    eapply wp_unshift; [exact Hat|lia|]. intros s1 Hs1 Hat1. by apply wp_ret. }
  intros [] s1 (Hs1 & Hat1). apply wp_bind. eapply wp_unshift; [exact Hat1|done|]. intros s2 Hs2 Hat2.
  apply wp_bind. eapply wp_hld; [exact Hat2|]. intros l _. cbn [bh_count bh_head].
  apply wp_bind. eapply wp_lift_store; [by apply cint_ok|].
  apply wp_bind. eapply (wp_hupd cb m s2 b (node :: R1) hd cnt hd (cnt + 1)); [done|done|]. intros s3 Hs3 Hat3.
  assert (same_but b s s3) as Hs by (etrans; [exact Hs1|]; by etrans). destruct (Hs) as (Hn3 & Hx3 & _).
  assert (known (s_nodes s) (node :: R1)) as Hkn by (by eapply forest_known_roots).
  apply wp_bind. destruct hd as [p|].
  - rewrite bool_decide_eq_false_2 by done. eapply update_head_ok; [exact Hat3|by rewrite Hn3|].
    intros s4 hd' (Hn4 & Hx4 & _) Hat4 Hhd'. apply wp_ret. eapply HQ; [congruence|congruence|exact Hat4|].
    rewrite Hn3 in Hhd'. by eapply tops_top.
  - rewrite bool_decide_eq_true_2 by done. eapply (wp_hupd cb m s3 b _ None _ (Some node) (cnt + 1)); [done|done|].
    intros s4 (Hn4 & Hx4 & _) Hat4. apply wp_ret. eapply HQ; [congruence|congruence|exact Hat4|]. eapply tops_top; [exact Hf|].
    right. exists node. split_and!; [done|left|]. rewrite Hnil in * by done.
    destruct (Hkn node) as (n & Hn & HP); [left|]. exists n. split; [done|].
    intros q qn ->%list_elem_of_singleton Hq. simplify_eq. by apply (prec_refl P (cmp cb)).
Qed.

Lemma heap_insert_ok m s b roots hd ht k v :
  rep m s b roots hd ht → P k → (Z.of_nat (size (s_nodes s)) + 1 < 2 ^ 31)%Z →
  wp (binheap_insert b k v) (λ rc s', rc = 0%Z ∧
    data (s_nodes s') = <[s_next s := (k, v, b)]> (data (s_nodes s)) ∧ ∃ R hd' ht', rep m s' b R hd' ht') s.
Proof using KO.
  intros Hrep Hk Hsz. destruct (Hrep) as [Hat Hf Hh _ Hfr _].
  set (new := s_next s) in *. set (cnt := Z.of_nat (size (s_nodes s))) in *.
  assert (s_nodes s !! new = None) as Hnew.
  { destruct (s_nodes s !! new) eqn:He; [|done]. specialize (Hfr new ltac:(by eexists)). lia. }
  unfold binheap_insert. apply wp_bind. unfold wp at 1, nalloc. fold new.
  set (s1 := mk_store (<[new := mk_bnode k v None [] b]> (s_nodes s)) (s_heaps s) (Pos.succ new)).
  assert (forest P (cmp cb) m (s_nodes s1) (new :: roots) ht) as Hf1 by (by apply forest_add).
  assert (data (s_nodes s1) = <[new := (k, v, b)]> (data (s_nodes s))) as Hd1 by (unfold data, s1; cbn [s_nodes]; by rewrite fmap_insert).
  assert (s_next s1 = Pos.succ new) as Hx1 by done.
  assert (size (s_nodes s1) = S (size (s_nodes s))) as Hsz1 by (unfold s1; cbn [s_nodes]; by rewrite map_size_insert_None).
  assert (heap_at cb m s1 b roots hd cnt) as Hat1 by exact Hat. clearbody s1. clear Hat.
  apply wp_bind. eapply wp_count; [exact Hat1|]. intros s2 (Hn2 & Hx2 & _) Hat2.
  apply wp_bind. eapply wp_shift; [exact Hat2|]. intros s3 (Hn3 & Hx3 & _) Hat3. rewrite Nat2Z.id.
  assert (option_list (head roots) ++ tail roots = roots) as Hr by (by destruct roots).
  apply wp_bind. eapply (insert_loop_ok m _ s3 b new (head roots) 0 (tail roots) ht); [exact Hat3|by rewrite Hr, Hn3, Hn2|by rewrite Hr|].
  intros s4 node tree R ht4 Hat4 Hf4 _ Hd4 Hx4. rewrite Hn3, Hn2, Hd1 in Hd4.
  assert (size (s_nodes s4) = S (size (s_nodes s))) as Hsz4 by (by rewrite <-Hsz1, <-!size_data, Hd4, Hd1).
  pose proof (forest_length _ _ _ _ Hf4) as Hlen. rewrite Hsz4 in Hlen. cbn [length] in Hlen.
  eapply (insert_finish m s4 b node tree R hd ht4 cnt); [exact Hat4|exact Hf4|unfold MAX_LEN; lia|unfold in_i32; lia| |].
  - intros ->. cbn in Hh. subst roots. apply forest_nil in Hf. apply length_zero_iff_nil.
    rewrite Hf, map_size_empty in Hlen. lia.
  - intros s' hd' Hn' Hx' Hat' Hh'. split; [done|]. split; [by rewrite Hn'|]. eexists _, hd', ht4.
    eapply rep_insert; [exact Hrep|by rewrite Hn'|by rewrite Hx', Hx4, Hx3, Hx2|by rewrite Hn'|done|exact Hat'|by rewrite Hn'|by rewrite Hn'].
Qed.
End Ops.
