(* ===== verification/BinHeapTheorems.v ===== *)
(** * Properties of the binomial heap (binheap.c)

    Scripts of operations against a bag of pairs, walks, merging, and the
    operations that do not do what they promise. *)
From S2P Require Import Prelude Heap LinkedList LinkedListRep LinkedListSpec Comparators BinHeap BinHeapRep BinHeapOps.

Notation MAX := BINHEAP_MODE_MAX (only parsing).
#[local] Notation "⟪ p ⟫" := (option_list p) (format "⟪ p ⟫").

Section Ends.
Context {V : Type} (P : list Z → Prop) (cb : binheap_callbacks) `{KO : !KeyOrder P (cmp cb)}.
Notation node := (binomial_tree_node V).
Notation rep := (rep P cb).
Implicit Types (s : store V) (ns : gmap loc node) (b p x y : loc) (roots : list loc) (hd : option loc) (m mm : binheap_mode).

Definition other m : binheap_mode := match m with BINHEAP_MODE_MAX => BINHEAP_MODE_MIN | BINHEAP_MODE_MIN => BINHEAP_MODE_MAX end.
(** binheap_get_maximum for the mode MAX, binheap_get_minimum for MIN. *)
Definition get_of mm b idx : st (store V) (option loc * Z) :=
  match mm with BINHEAP_MODE_MAX => binheap_get_maximum b idx | BINHEAP_MODE_MIN => binheap_get_minimum b idx end.
Lemma get_of_extreme mm b idx : get_of mm b idx = get_extreme b mm (maxmin_of mm) idx (find_child (better_of mm)).
Proof. by destruct mm. Qed.

Lemma rep_same m s s' b roots hd ht :
  same_but b s s' → heap_at cb m s' b roots hd (Z.of_nat (size (s_nodes s))) → rep m s b roots hd ht → rep m s' b roots hd ht.
Proof. intros (Hn & Hx & _) Hat [_ H2 H3 H4 H5 H6]. split; rewrite ?Hn, ?Hx; try done; by rewrite ?Hn in *. Qed.

(** The end the heap is ordered by: the head. *)
Lemma get_head_ok m s b roots hd ht idx (Q : option loc * Z → store V → Prop) :
  rep m s b roots hd ht →
  (∀ s', s_nodes s' = s_nodes s → s_next s' = s_next s → rep m s' b roots hd ht → Q (hd, idx) s') → wp (get_of m b idx) Q s.
Proof using KO.
  intros Hrep HQ. destruct (Hrep) as [Hat Hf Hh _ _ _]. rewrite get_of_extreme. unfold get_extreme.
  apply wp_bind. eapply wp_hld; [exact Hat|]. intros l _. cbn [bh_mode bh_head].
  rewrite (bool_decide_eq_true_2 (m = m)) by done. cbn [andb]. destruct hd as [p|].
  - rewrite bool_decide_eq_true_2 by (by eexists). apply wp_ret. by apply HQ.
  - rewrite bool_decide_eq_false_2 by (by intros []). cbn in Hh. subst roots. apply wp_bind.
    eapply (maxmin_ok P cb m m); [exact Hat|by intros q ?%elem_of_nil|]. intros s' r Hs' Hat' [[_ ->]|(p & j & _ & Hj & _)]; [|done].
    apply wp_ret. destruct (Hs') as (Hn & Hx & _). apply HQ; [done|done|]. by eapply rep_same.
Qed.

(** The way down from a node ends at a leaf. *)
Lemma descend_ok m mm k s b roots hd ht p n (Q : loc → store V → Prop) :
  rep m s b roots hd ht → s_nodes s !! p = Some n → ht p ≤ k →
  (∀ q qn, s_nodes s !! q = Some qn → bn_children qn = [] → q = p ∨ bn_parent qn ≠ None → Q q s) →
  wp (descend k (find_child (better_of mm)) p) Q s.
Proof using KO.
  intros Hrep. destruct (Hrep) as [Hat Hf Hh Hbh _ _]. revert p n. induction k as [|k IH]; intros p n Hp Hk HQ; cbn [descend];
    apply wp_bind; (eapply wp_nld; [exact Hp|]); destruct (bn_children n) as [|c0 cs] eqn:Hch; try (apply wp_ret; by eauto).
  { destruct (f_child _ _ _ _ _ _ Hf p n c0 Hp) as (_ & _ & _ & Hlt & _); [rewrite Hch; left|lia]. }
  apply wp_bind. eapply (find_child_ok P cb m mm s b); [exact Hat|exact Hp|by eapply Hbh|by eapply forest_known_children|by rewrite Hch|].
  intros i y Hi _. apply wp_bind. eapply wp_lift_store; [done|]. apply wp_bind. rewrite Hch in Hi. eapply wp_lift_store; [by rewrite Hi|].
  destruct (f_child _ _ _ _ _ _ Hf p n y Hp) as (yn & Hyn & Hyp & Hlt & _).
  { rewrite Hch. by eapply list_elem_of_lookup_2. }
  eapply IH; [exact Hyn|lia|]. intros q qn Hq Hqc Hqp. eapply HQ; [exact Hq|done|]. right. destruct Hqp as [->|?]; [congruence|done].
Qed.

(** The other end: a leaf, and the chosen root if it is a root. *)
Lemma get_other_ok m s b roots hd ht (Q : option loc * Z → store V → Prop) :
  rep m s b roots hd ht →
  (∀ s' r, s_nodes s' = s_nodes s → s_next s' = s_next s → rep m s' b roots hd ht →
    (roots = [] ∧ r = (None, 0%Z)) ∨
    (∃ p n j, r = (Some p, Z.of_nat j) ∧ j < length roots ∧ s_nodes s !! p = Some n ∧ bn_children n = [] ∧
      (bn_parent n = None → roots !! j = Some p ∧ tops (cmp cb) (other m) (s_nodes s) roots p)) → Q r s') →
  wp (get_of (other m) b 0) Q s.
Proof using KO.
  intros Hrep HQ. destruct (Hrep) as [Hat Hf Hh _ _ _]. rewrite get_of_extreme. unfold get_extreme.
  apply wp_bind. eapply wp_hld; [exact Hat|]. intros l _. cbn [bh_mode bh_head].
  rewrite (bool_decide_eq_false_2 (m = other m)) by (by destruct m). cbn [andb].
  apply wp_bind. eapply (maxmin_ok P cb m (other m)); [exact Hat|by eapply forest_known_roots|].
  intros s' r Hs' Hat' Hr. pose proof (rep_same _ _ _ _ _ _ _ Hs' Hat' Hrep) as Hrep'. destruct (Hs') as (Hn & Hx & _).
  destruct Hr as [[-> ->]|(p & j & -> & Hj & Htop)]; cbn [fst snd].
  { apply wp_ret. apply HQ; [done|done|done|by left]. }
  apply wp_bind, wp_get. apply wp_bind.
  destruct (forest_norm _ _ _ _ _ _ Hf) as (ht' & Hf' & Hb). pose proof (list_elem_of_lookup_2 _ _ _ Hj) as Hin.
  destruct (forest_lookup _ _ _ _ _ _ _ Hf Hin) as (n & Hp & Hpar).
  assert (rep m s' b roots hd ht') as Hrep'' by (destruct Hrep' as [? ? ? ? ? ?]; split; try done; by rewrite Hn).
  eapply (descend_ok m (other m)); [exact Hrep''|by rewrite Hn|rewrite Hn; specialize (Hb p ltac:(by eexists)); lia|].
  intros q qn Hq Hqc Hqp. apply wp_ret. rewrite Hn in Hq. apply HQ; [done|done|done|]. right. exists q, qn, j.
  split_and!; [done|by eapply lookup_lt_Some|done|done|].
  intros Hnone. destruct Hqp as [->|?]; [done|congruence].
Qed.

(** ** The pairs of a heap *)
Definition bag ns : list (list Z * V) := fst <$> (map_to_list (data ns)).*2.
Lemma bag_insert ns ns' p k v b :
  data ns' = <[p := (k, v, b)]> (data ns) → ns !! p = None → bag ns' ≡ₚ (k, v) :: bag ns.
Proof.
  intros Hd Hp. unfold bag. rewrite Hd, map_to_list_insert; [done|]. unfold data. by rewrite lookup_fmap, Hp.
Qed.
Lemma bag_delete ns ns' p n :
  data ns' = delete p (data ns) → ns !! p = Some n → bag ns ≡ₚ (bn_key n, bn_value n) :: bag ns'.
Proof.
  intros Hd Hp%data_lookup. unfold bag. rewrite Hd. by rewrite <-(map_to_list_delete (data ns) p (bn_key n, bn_value n, bn_bh n)).
Qed.
Lemma elem_of_bag ns kv : kv ∈ bag ns ↔ ∃ p n, ns !! p = Some n ∧ kv = (bn_key n, bn_value n).
Proof.
  unfold bag. rewrite list_elem_of_fmap. split.
  - intros (d & -> & ([p d'] & -> & Hp%elem_of_map_to_list)%list_elem_of_fmap). destruct d' as [[k v] b].
    apply data_inv in Hp as (n & Hn & <- & <- & <-). eauto.
  - intros (p & n & Hn & ->). exists (bn_key n, bn_value n, bn_bh n). split; [done|]. apply list_elem_of_fmap.
    exists (p, (bn_key n, bn_value n, bn_bh n)). split; [done|]. apply elem_of_map_to_list. by apply data_lookup.
Qed.
Lemma length_bag ns : length (bag ns) = size ns.
Proof. unfold bag. by rewrite !length_fmap, length_map_to_list, size_data. Qed.

Lemma delete_found_ok m s b roots hd ht p n idx (Q : Z * option V → store V → Prop) :
  rep m s b roots hd ht → s_nodes s !! p = Some n → (bn_parent n = None → idx = 0%Z ∨ ∃ j, roots !! j = Some p ∧ idx = Z.of_nat j) →
  (0 ≤ idx < 2 ^ 31)%Z →
  (∀ s', data (s_nodes s') = delete p (data (s_nodes s)) → (∃ R hd' ht', rep m s' b R hd' ht') → Q (0%Z, Some (bn_value n)) s') →
  wp (delete_found (Some p, idx)) Q s.
Proof using KO.
  intros Hrep Hp Hidx Hlt HQ. unfold delete_found. cbn [fst snd]. apply wp_bind. eapply wp_nld; [exact Hp|].
  apply wp_bind. rewrite i32_id by (unfold in_i32; lia).
  eapply wp_mono; [by eapply (heap_node_destroy_ok P cb m s b roots hd ht p n)|]. intros [] s' (Hd & Hr). apply wp_ret.
  by apply HQ.
Qed.

(** ** Deletion by key *)
(** What the searches of binheap_delete keep: of the nodes [ps] seen, those whose
    keys have precedence over [key], a last one in precedence, if there is one. *)
Definition nearest m ns (key : list Z) (ps : list loc) (r : option loc) : Prop :=
  match r with
  | None => ∀ q qn, q ∈ ps → ns !! q = Some qn → prec (cmp cb) m (bn_key qn) key = false
  | Some t => ∃ tn, ns !! t = Some tn ∧ prec (cmp cb) m (bn_key tn) key ∧
      ∀ q qn, q ∈ ps → ns !! q = Some qn → prec (cmp cb) m (bn_key qn) key → prec (cmp cb) m (bn_key qn) (bn_key tn)
  end.
Lemma nearest_nil m ns key : nearest m ns key [] None.
Proof. by intros q qn ?%elem_of_nil. Qed.

Lemma candidate_ok m h key ps best cur s (Q : option loc → store V → Prop) :
  bh_cbs h = cb → bh_mode h = m → P key →
  known P (s_nodes s) (cur :: option_list best) → known P (s_nodes s) ps → nearest m (s_nodes s) key ps best →
  (∀ r, r = best ∨ r = Some cur → nearest m (s_nodes s) key (ps ++ [cur]) r → Q r s) →
  wp (candidate h key best cur) Q s.
Proof using KO.
  intros Hcb Hm HPk Hk Hps Hnear HQ. unfold candidate. destruct (Hk cur) as (cn & Hc & HPc); [left|].
  apply wp_bind. eapply wp_nld; [exact Hc|]. rewrite HAS_PRECEDENCE_prec, Hcb, Hm.
  destruct (prec (cmp cb) m (bn_key cn) key) eqn:Hpc.
  2: { apply wp_ret, HQ; [by left|]. destruct best as [t|].
       - destruct Hnear as (tn & Ht & Htk & Hall). exists tn. split_and!; [done|done|].
         intros q qn [Hq| ->%list_elem_of_singleton]%elem_of_app Hqn Hqk; [by eapply Hall|]. simplify_eq. by rewrite Hpc in Hqk.
       - intros q qn [Hq| ->%list_elem_of_singleton]%elem_of_app Hqn; [by eapply Hnear|]. by simplify_eq. }
  destruct best as [t|].
  - destruct (Hk t) as (tn & Ht & HPt); [right; left|]. apply wp_bind. eapply wp_nld; [exact Ht|].
    destruct Hnear as (tn' & Ht' & Htk & Hall). assert (tn' = tn) as -> by congruence.
    rewrite HAS_PRECEDENCE_prec, Hcb, Hm. apply wp_ret.
    destruct (prec (cmp cb) m (bn_key tn) (bn_key cn)) eqn:Htc; apply HQ; auto.
    + exists cn. split_and!; [done|by rewrite Hpc|]. intros q qn [Hq| ->%list_elem_of_singleton]%elem_of_app Hqn Hqk.
      * destruct (Hps q Hq) as (qn' & ? & HPq). simplify_eq.
        apply (prec_trans P (cmp cb)) with (bn_key tn); [done|done|done|by eapply Hall|by rewrite Htc].
      * simplify_eq. by apply (prec_refl P (cmp cb)).
    + exists tn. split_and!; [done|done|]. intros q qn [Hq| ->%list_elem_of_singleton]%elem_of_app Hqn Hqk; [by eapply Hall|].
      simplify_eq. by apply (prec_total P (cmp cb)).
  - apply wp_ret, HQ; [by right|]. exists cn. split_and!; [done|by rewrite Hpc|].
    intros q qn [Hq| ->%list_elem_of_singleton]%elem_of_app Hqn Hqk.
    + by rewrite (Hnear q qn Hq Hqn) in Hqk.
    + simplify_eq. by apply (prec_refl P (cmp cb)).
Qed.
Lemma delete_children_ok m h key cs ps best s (Q : option loc → store V → Prop) :
  bh_cbs h = cb → bh_mode h = m → P key →
  known P (s_nodes s) (cs ++ option_list best) → known P (s_nodes s) ps → nearest m (s_nodes s) key ps best →
  (∀ r, r = best ∨ (∃ x, x ∈ cs ∧ r = Some x) → Q r s) →
  wp (delete_children h key cs best) Q s.
Proof using KO.
  intros Hcb Hm HPk. revert ps best. induction cs as [|x cs IH]; intros ps best Hk Hps Hnear HQ; cbn [delete_children]; [apply wp_ret, HQ; by left|].
  apply wp_bind. eapply candidate_ok; [done|done|done| |exact Hps|exact Hnear|].
  { intros q Hq. apply Hk. apply elem_of_cons in Hq as [->|Hq]; [left|]. right. apply elem_of_app. by right. }
  intros r Hr Hnear'. eapply IH; [| |exact Hnear'|].
  - intros q [Hq|Hq]%elem_of_app; apply Hk; [right; apply elem_of_app; by left|].
    destruct Hr as [->| ->]; [right; apply elem_of_app; by right|]. apply list_elem_of_singleton in Hq as ->. left.
  - intros q [Hq| ->%list_elem_of_singleton]%elem_of_app; [by apply Hps|]. apply Hk. left.
  - intros r' [->|(y & Hy & ->)]; apply HQ; [|right; exists y; split; [by right|done]].
    destruct Hr as [->| ->]; [by left|]. right. exists x. split; [left|done].
Qed.
Lemma delete_roots_ok m k s b roots hd cnt key i best (Q : option loc → store V → Prop) :
  P key → heap_at cb m s b roots hd cnt → known P (s_nodes s) (roots ++ option_list best) → i ≤ length roots → length roots - i ≤ k →
  nearest m (s_nodes s) key (take i roots) best →
  (∀ s' r, same_but b s s' → heap_at cb m s' b roots hd cnt → r = best ∨ (∃ x, x ∈ roots ∧ r = Some x) →
    nearest m (s_nodes s) key roots r → Q r s') →
  wp (delete_roots k b key (Z.of_nat i) best) Q s.
Proof using KO.
  intros HPk. revert s i best. induction k as [|k IH]; intros s i best Hat Hk Hi Hf Hnear HQ; cbn [delete_roots];
    apply wp_bind; (eapply wp_count; [exact Hat|]); intros s1 Hs1 Hat1;
    (rewrite i32_id by (destruct Hat as (l & _ & [_ Hm]%list_is_length); rewrite length_fmap in Hm; unfold in_i32, MAX_LEN in *; lia)).
  { rewrite bool_decide_eq_false_2 by lia. rewrite take_ge in Hnear by lia. apply wp_ret, HQ; [done|done|by left|done]. }
  case_bool_decide as Hlt; [|rewrite take_ge in Hnear by lia; apply wp_ret, HQ; [done|done|by left|done]].
  destruct (lookup_lt_is_Some_2 roots i) as [x Hx]; [lia|]. pose proof (list_elem_of_lookup_2 _ _ _ Hx) as Hin.
  apply wp_bind. eapply wp_pick; [exact Hat1|exact Hx|]. intros s2 Hs2 Hat2.
  assert (same_but b s s2) as Hs by (by etrans). destruct (Hs) as (Hn & _). rewrite <-Hn in Hk, Hnear.
  apply wp_bind. eapply wp_lift_store; [done|]. apply wp_bind. eapply wp_hld; [exact Hat2|]. intros l _. apply wp_bind.
  eapply (candidate_ok m); [done|done|done| | |exact Hnear|].
  { intros q Hq. apply Hk. apply elem_of_app. apply elem_of_cons in Hq as [->|Hq]; auto. }
  { intros q Hq. apply Hk, elem_of_app. left. rewrite <-(take_drop i roots). apply elem_of_app. by left. }
  intros r Hr Hnear'. replace (Z.of_nat i + 1)%Z with (Z.of_nat (S i)) by lia. apply IH; [done| |lia|lia| |].
  - intros q [Hq|Hq]%elem_of_app; apply Hk; apply elem_of_app; [by left|].
    destruct Hr as [->| ->]; [by right|]. apply list_elem_of_singleton in Hq as ->. by left.
  - by rewrite (take_S_r _ _ _ Hx).
  - intros s' r' Hs' Hat' Hr' Hnear''. rewrite Hn in Hnear''. apply HQ; [by etrans|done| |done]. destruct Hr' as [->|?]; [|by right].
    destruct Hr as [->| ->]; [by left|]. right. eauto.
Qed.
Lemma delete_search_ok m k s b roots hd ht key t (Q : option loc → store V → Prop) :
  rep m s b roots hd ht → P key → (∀ x, t = Some x → is_Some (s_nodes s !! x) ∧ ht x < k) →
  (∀ r, (∀ x, r = Some x → ∃ n, s_nodes s !! x = Some n ∧ cmp cb (bn_key n) key = 0%Z) →
    (∀ x n, t = Some x → s_nodes s !! x = Some n → cmp cb (bn_key n) key = 0%Z → r = Some x) → Q r s) →
  wp (delete_search k b key t) Q s.
Proof using KO.
  intros Hrep HPk. destruct (Hrep) as [Hat Hf _ _ _ _]. revert t Q. induction k as [|k IH]; intros [x|] Q Ht HQ; cbn [delete_search];
    try (apply wp_ret; by apply HQ); destruct (Ht x eq_refl) as [[n Hn] Hk]; [lia|].
  apply wp_bind. eapply wp_nld; [exact Hn|]. apply wp_bind. eapply wp_hld; [exact Hat|]. intros l _. cbn [bh_cbs].
  case_bool_decide as Hc.
  - apply wp_bind. eapply (delete_children_ok m _ _ _ []); [done|done|done|rewrite app_nil_r; by eapply forest_known_children
      |by intros ? ?%elem_of_nil|apply nearest_nil|].
    intros r Hr. apply IH; [|].
    + intros y ->. destruct Hr as [?|(z & Hz & [= <-])]; [done|].
      destruct (f_child _ _ _ _ _ _ Hf x n y Hn Hz) as (yn & Hyn & _ & Hlt & _). split; [by eexists|lia].
    + intros r' Hr' _. apply HQ; [done|]. intros x' n' [= <-] Hn' Hc'. by simplify_eq.
  - apply wp_ret, HQ; [|by intros x' n' [= <-]]. intros ? [= <-]. exists n. split; [done|]. by destruct (decide (cmp cb (bn_key n) key = 0%Z)).
Qed.

(** [k] has precedence over the keys of all pairs. *)
Definition best m (q : list (list Z * V)) (k : list Z) : Prop := ∀ kv, kv ∈ q → prec (cmp cb) m k kv.1.
Lemma prec_antisym m a d : P a → P d → prec (cmp cb) m a d → prec (cmp cb) m d a → cmp cb a d = 0%Z.
Proof using KO.
  intros Ha Hd. pose proof (cmp_ge_le P (cmp cb) a d Ha Hd). pose proof (cmp_ge_le P (cmp cb) d a Hd Ha).
  unfold prec. destruct m; rewrite !bool_decide_spec; lia.
Qed.
(** If a pair has the key and the key is best, the search among the roots ends
    at a node with the key. *)
Lemma nearest_best m ns roots ht key v r :
  forest P (cmp cb) m ns roots ht → P key → (key, v) ∈ bag ns → best m (bag ns) key → nearest m ns key roots r →
  ∃ x n, r = Some x ∧ ns !! x = Some n ∧ cmp cb (bn_key n) key = 0%Z.
Proof using KO.
  intros Hf HPk (p & n & Hp & [= -> ->])%elem_of_bag Hbest Hnear.
  destruct (forest_above P (cmp cb) m ns roots ht p n Hf Hp) as (a & an & Ha & Han & Hprec).
  pose proof (f_keys _ _ _ _ _ _ Hf) as HP. destruct r as [t|].
  - destruct Hnear as (tn & Ht & Htk & Hall). exists t, tn. split_and!; [done|done|].
    apply (prec_antisym m); [by eapply HP|done|done|]. apply (Hbest (bn_key tn, bn_value tn)). apply elem_of_bag. eauto.
  - by rewrite (Hnear a an Ha Han) in Hprec.
Qed.

(** binheap_delete removes a pair with the key, or nothing; it finds the key if
    no other one has precedence over it. *)
Lemma binheap_delete_ok m s b roots hd ht key (Q : Z * option V → store V → Prop) :
  rep m s b roots hd ht → P key →
  (∀ s', s_nodes s' = s_nodes s → rep m s' b roots hd ht →
    (∀ v, (key, v) ∈ bag (s_nodes s) → ¬ best m (bag (s_nodes s)) key) → Q ((-1)%Z, None) s') →
  (∀ s' v, bag (s_nodes s) ≡ₚ (key, v) :: bag (s_nodes s') → (∃ R hd' ht', rep m s' b R hd' ht') → Q (0%Z, Some v) s') →
  wp (binheap_delete b key) Q s.
Proof using KO.
  intros Hrep HP Hmiss Hhit. destruct (Hrep) as [Hat Hf _ _ _ _]. unfold binheap_delete.
  destruct (forest_norm _ _ _ _ _ _ Hf) as (ht' & Hf' & Hb).
  apply wp_bind. eapply wp_count; [exact Hat|]. intros s1 Hs1 Hat1. rewrite Nat2Z.id. apply wp_bind. change 0%Z with (Z.of_nat 0).
  destruct (Hs1) as (Hn1 & _).
  eapply (delete_roots_ok m); [done|exact Hat1|rewrite app_nil_r, Hn1; by eapply forest_known_roots|lia|lia|apply nearest_nil|].
  intros s2 r Hs2 Hat2 Hr Hnear. assert (same_but b s s2) as Hs by (by etrans). pose proof (rep_same _ _ _ _ _ _ _ Hs Hat2 Hrep) as Hrep2.
  rewrite Hn1 in Hnear. destruct (Hs) as (Hn & _). apply wp_bind, wp_get. apply wp_bind.
  assert (rep m s2 b roots hd ht') as Hrep' by (destruct Hrep2; split; try done; by rewrite Hn).
  eapply delete_search_ok; [exact Hrep'|done| |].
  { intros x ->. destruct Hr as [?|(y & Hy & [= <-])]; [done|]. destruct (forest_lookup _ _ _ _ _ _ _ Hf Hy) as (n & Hx & _).
    rewrite Hn. split; [by eexists|]. apply Hb. by eexists. }
  intros r' Hr' Hroot. destruct r' as [x|].
  2: { apply wp_ret. apply Hmiss; [done|done|]. intros v Hv Hbest.
       destruct (nearest_best m _ _ _ _ _ _ Hf HP Hv Hbest Hnear) as (x & n & -> & Hx & Hc). rewrite Hn in Hroot.
       by specialize (Hroot x n eq_refl Hx Hc). }
  destruct (Hr' x eq_refl) as (n & Hx & Hc). apply wp_bind. eapply wp_nld; [exact Hx|]. apply wp_bind.
  eapply wp_mono; [eapply (heap_node_destroy_ok P cb m s2 b roots hd ht x n 0 Hrep2 Hx); by left|]. intros [] s' (Hd & Hfin). apply wp_ret.
  apply Hhit; [|done]. assert (bn_key n = key) as <-.
  { apply (ko_eq (P := P) (cmp := cmp cb)); [|done|done]. rewrite Hn in Hx. by eapply (f_keys _ _ _ _ _ _ Hf). }
  rewrite <-Hn. by eapply bag_delete.
Qed.

(** ** Scripts *)
Inductive heap_op := Insert (k : list Z) (v : V) | Top | TopOther | Pop | PopOther | Delete (k : list Z) | Count.
Inductive heap_res := Code (rc : Z) | Pair (r : Z * option (list Z * V)) | Value (r : Z * option V).

(** Top, Pop: the end the heap is ordered by; TopOther, PopOther: the opposite
    end. *)
Definition peek mm b : st (store V) (Z * option (list Z * V)) :=
  match mm with BINHEAP_MODE_MAX => binheap_maximum b | BINHEAP_MODE_MIN => binheap_minimum b end.
Definition pop mm b : st (store V) (Z * option V) :=
  match mm with BINHEAP_MODE_MAX => binheap_delete_maximum b | BINHEAP_MODE_MIN => binheap_delete_minimum b end.
Definition run_op m b (o : heap_op) : st (store V) heap_res :=
  match o with
  | Insert k v => r ← binheap_insert b k v; mret (Code r)
  | Top => r ← peek m b; mret (Pair r)
  | TopOther => r ← peek (other m) b; mret (Pair r)
  | Pop => r ← pop m b; mret (Value r)
  | PopOther => r ← pop (other m) b; mret (Value r)
  | Delete k => r ← binheap_delete b k; mret (Value r)
  | Count => r ← binheap_count b; mret (Code r)
  end.
Fixpoint run_ops m b (os : list heap_op) : st (store V) (list heap_res) :=
  match os with [] => mret [] | o :: os => r ← run_op m b o; rs ← run_ops m b os; mret (r :: rs) end.

(** The same on a bag [q] of pairs, a list up to permutation: which results are
    allowed. *)
Inductive bag_step m (q : list (list Z * V)) : heap_op → heap_res → list (list Z * V) → Prop :=
| bag_insert_step k v : bag_step m q (Insert k v) (Code 0) ((k, v) :: q)
| bag_top_empty : q = [] → bag_step m q Top (Pair (-1, None)%Z) q
| bag_top k v : (k, v) ∈ q → best m q k → bag_step m q Top (Pair (0, Some (k, v))%Z) q
| bag_top_other_empty : q = [] → bag_step m q TopOther (Pair (-1, None)%Z) q
| bag_top_other k v q' : q ≡ₚ (k, v) :: q' → q' = [] ∨ (∃ kv, kv ∈ q' ∧ best m q kv.1) →
    bag_step m q TopOther (Pair (0, Some (k, v))%Z) q
| bag_pop_empty : q = [] → bag_step m q Pop (Value (-1, None)%Z) q
| bag_pop k v q' : q ≡ₚ (k, v) :: q' → best m q k → bag_step m q Pop (Value (0, Some v)%Z) q'
| bag_other_empty : q = [] → bag_step m q PopOther (Value (-1, None)%Z) q
| bag_other k v q' : q ≡ₚ (k, v) :: q' → q' = [] ∨ (∃ kv, kv ∈ q' ∧ best m q kv.1) →
    bag_step m q PopOther (Value (0, Some v)%Z) q'
| bag_delete_miss k : (∀ v, (k, v) ∈ q → ¬ best m q k) → bag_step m q (Delete k) (Value (-1, None)%Z) q
| bag_delete_step k v q' : q ≡ₚ (k, v) :: q' → bag_step m q (Delete k) (Value (0, Some v)%Z) q'
| bag_count : bag_step m q Count (Code (Z.of_nat (length q))) q.
Inductive bag_run m : list (list Z * V) → list heap_op → list heap_res → list (list Z * V) → Prop :=
| bag_run_nil q : bag_run m q [] [] q
| bag_run_cons q o r q1 q1' os rs q2 : bag_step m q o r q1 → q1 ≡ₚ q1' → bag_run m q1' os rs q2 → bag_run m q (o :: os) (r :: rs) q2.

Definition op_ok (o : heap_op) : Prop := match o with Insert k _ | Delete k => P k | _ => True end.
Definition is_heap m s b : Prop := ∃ roots hd ht, rep m s b roots hd ht.

Lemma head_best m ns roots p n : head_ok cb m ns roots (Some p) → ns !! p = Some n → best m (bag ns) (bn_key n).
Proof.
  intros [_ (n' & Hn' & Hmax)] Hn. assert (n' = n) as -> by congruence.
  intros kv (q & qn & Hq & ->)%elem_of_bag. cbn. by eapply Hmax.
Qed.
Lemma bag_nil ns : bag ns = [] ↔ ns = ∅.
Proof. rewrite <-length_zero_iff_nil, length_bag. apply map_size_empty_iff. Qed.
Lemma rep_empty m s b roots ht : rep m s b roots None ht → bag (s_nodes s) = [].
Proof using KO. intros [_ Hf Hh _ _ _]. cbn in Hh. subst. apply bag_nil. by eapply forest_nil. Qed.

Lemma pop_extreme mm b : pop mm b = (r ← get_of mm b 0; delete_found r).
Proof. by destruct mm. Qed.
Lemma peek_extreme mm b : peek mm b = (r ← get_of mm b 0; report r.1).
Proof. by destruct mm. Qed.
Lemma prec_other m a d : P a → P d → prec (cmp cb) (other m) a d → prec (cmp cb) m d a.
Proof using KO.
  intros Ha Hd. pose proof (cmp_ge_le P (cmp cb) a d Ha Hd). pose proof (cmp_ge_le P (cmp cb) d a Hd Ha).
  unfold prec. destruct m; cbn [other]; rewrite !bool_decide_spec; lia.
Qed.

(** Removing a leaf from the other end leaves a pair that is best. *)
Lemma other_leaves_best m s b roots hd ht p n j ns' :
  rep m s b roots hd ht → s_nodes s !! p = Some n → bn_children n = [] →
  (bn_parent n = None → roots !! j = Some p ∧ tops (cmp cb) (other m) (s_nodes s) roots p) →
  data ns' = delete p (data (s_nodes s)) →
  bag ns' = [] ∨ ∃ kv, kv ∈ bag ns' ∧ best m (bag (s_nodes s)) kv.1.
Proof using KO.
  intros [_ Hf Hh _ _ _] Hp Hch Hroot Hd. destruct (bag ns') as [|kv0 l] eqn:Hbag; [by left|]. right. rewrite <-Hbag.
  assert (Hin : ∀ q qn, s_nodes s !! q = Some qn → q ≠ p → (bn_key qn, bn_value qn) ∈ bag ns').
  { intros q qn Hq%data_lookup Hne. rewrite <-(lookup_delete_ne _ p), <-Hd in Hq by done.
    apply data_inv in Hq as (qn' & Hq' & Hk & Hv & _). apply elem_of_bag. exists q, qn'. by rewrite Hk, Hv. }
  destruct hd as [h|].
  2: { cbn in Hh. subst. apply forest_nil in Hf; [|done]. rewrite Hf in Hp. done. }
  destruct (Hh) as [Hhr (hn & Hhn & Hmax)]. destruct (decide (h = p)) as [->|Hne].
  - assert (hn = n) as -> by congruence. destruct (forest_lookup _ _ _ _ _ _ p Hf Hhr) as (n' & Hn' & Hpar).
    assert (n' = n) as -> by congruence. destruct (Hroot Hpar) as (Hj & n'' & Hn'' & Htop). assert (n'' = n) as -> by congruence.
    pose proof (delete_Permutation roots j p Hj) as Hperm.
    assert (delete j roots ≠ []) as Hrest.
    { intros He. pose proof Hf as Hf'. rewrite Hperm, He in Hf'. eapply forest_drop in Hf'; [|done|done].
      apply forest_nil in Hf'; [|done]. assert (bag ns' = []) as Hnil; [|congruence].
      apply length_zero_iff_nil. rewrite length_bag, <-size_data, Hd. unfold data. rewrite <-fmap_delete, Hf'. done. }
    destruct (delete j roots) as [|r R] eqn:HR; [done|].
    assert (r ∈ roots) as Hr by (rewrite Hperm; right; left).
    destruct (forest_lookup _ _ _ _ _ _ r Hf Hr) as (rn & Hrn & _).
    pose proof (f_nodup _ _ _ _ _ _ Hf) as Hnd. rewrite Hperm in Hnd. apply NoDup_cons in Hnd as [Hpr _].
    exists (bn_key rn, bn_value rn). split; [apply (Hin r); [done|]; intros ->; apply Hpr; left|].
    intros kv (q & qn & Hq & ->)%elem_of_bag. cbn.
    pose proof (f_keys _ _ _ _ _ _ Hf) as HP.
    apply (prec_trans P (cmp cb)) with (bn_key n); [by eapply HP..| |by eapply Hmax].
    apply prec_other; [by eapply HP..|]. by eapply Htop.
  - exists (bn_key hn, bn_value hn). split; [by apply (Hin h)|]. by eapply head_best.
Qed.

(** One operation: its result is allowed, and the bag afterwards is that of the
    heap. *)
Definition refines m b s o (r : heap_res) s' : Prop :=
  ∃ q, bag_step m (bag (s_nodes s)) o r q ∧ q ≡ₚ bag (s_nodes s') ∧ is_heap m s' b ∧ length q ≤ S (length (bag (s_nodes s))).
Lemma refines_keep m b s o r s' roots hd ht :
  bag_step m (bag (s_nodes s)) o r (bag (s_nodes s)) → s_nodes s' = s_nodes s → rep m s' b roots hd ht → refines m b s o r s'.
Proof. intros Hs Hn Hr. eexists. split; [exact Hs|]. split; [by rewrite Hn|]. split; [by exists roots, hd, ht|lia]. Qed.
Lemma refines_take m b s o r s' kv :
  bag_step m (bag (s_nodes s)) o r (bag (s_nodes s')) → bag (s_nodes s) ≡ₚ kv :: bag (s_nodes s') → is_heap m s' b → refines m b s o r s'.
Proof.
  intros Hs Hb Hh. eexists. split; [exact Hs|]. split; [done|]. split; [done|]. apply Permutation_length in Hb. simpl in Hb. lia.
Qed.

Lemma insert_refines m b s k v :
  is_heap m s b → P k → (Z.of_nat (size (s_nodes s)) + 1 < 2 ^ 31)%Z → wp (run_op m b (Insert k v)) (refines m b s (Insert k v)) s.
Proof using KO.
  intros (roots & hd & ht & Hrep) Hk Hsz. apply wp_bind. eapply wp_mono; [by eapply heap_insert_ok|].
  intros rc s' (-> & Hd & Hr). apply wp_ret. eexists. split; [constructor|]. split; [|split; [done|simpl; lia]].
  symmetry. eapply bag_insert; [exact Hd|]. destruct (s_nodes s !! s_next s) eqn:He; [|done].
  pose proof (r_fresh _ _ _ _ _ _ _ _ Hrep (s_next s) ltac:(by eexists)). lia.
Qed.
Lemma top_refines m b s : is_heap m s b → wp (run_op m b Top) (refines m b s Top) s.
Proof using KO.
  intros (roots & hd & ht & Hrep). destruct (Hrep) as [_ _ Hh _ _ _]. apply wp_bind. rewrite peek_extreme. apply wp_bind.
  eapply (get_head_ok m); [exact Hrep|]. intros s' Hn _ Hrep'. cbn [fst]. destruct hd as [p|].
  - destruct (Hh) as (Hp & n & Hpn & _). unfold report. apply wp_bind. eapply wp_nld; [by rewrite Hn|]. apply wp_ret, wp_ret.
    eapply refines_keep; [|done|done]. constructor; [apply elem_of_bag; eauto|by eapply head_best].
  - apply wp_ret, wp_ret. eapply refines_keep; [|done|done]. constructor. by eapply rep_empty.
Qed.
Lemma pop_refines m b s : is_heap m s b → wp (run_op m b Pop) (refines m b s Pop) s.
Proof using KO.
  intros (roots & hd & ht & Hrep). destruct (Hrep) as [_ _ Hh _ _ _]. apply wp_bind. rewrite pop_extreme. apply wp_bind.
  eapply (get_head_ok m); [exact Hrep|]. intros s1 Hn _ Hrep1. destruct hd as [p|].
  - destruct (Hh) as (Hp & n & Hpn & _). eapply (delete_found_ok m s1 b roots (Some p) ht p n); [done|by rewrite Hn|by left|lia|].
    intros s' Hd Hr. apply wp_ret. rewrite Hn in Hd. pose proof (bag_delete _ _ _ _ Hd Hpn) as Hb.
    eapply refines_take; [|exact Hb|done]. econstructor; [exact Hb|by eapply head_best].
  - apply wp_ret, wp_ret. eapply refines_keep; [|done|done]. constructor. by eapply rep_empty.
Qed.
Lemma pop_other_refines m b s : is_heap m s b → wp (run_op m b PopOther) (refines m b s PopOther) s.
Proof using KO.
  intros (roots & hd & ht & Hrep). destruct (Hrep) as [_ Hf _ _ _ Hsz]. apply wp_bind. rewrite pop_extreme. apply wp_bind.
  eapply (get_other_ok m); [exact Hrep|]. intros s1 r Hn _ Hrep1 [[-> ->]|(p & n & j & -> & Hj & Hp & Hch & Hroot)].
  - apply wp_ret, wp_ret. eapply refines_keep; [|done|done]. constructor. apply bag_nil. by eapply forest_nil.
  - pose proof (forest_length _ _ _ _ _ _ Hf). eapply (delete_found_ok m s1 b roots hd ht p n); [done|by rewrite Hn| |lia|].
    + intros Hnone. right. exists j. split; [|done]. by apply Hroot.
    + intros s' Hd Hr. apply wp_ret. rewrite Hn in Hd. pose proof (bag_delete _ _ _ _ Hd Hp) as Hb.
      eapply refines_take; [|exact Hb|done]. econstructor; [exact Hb|by eapply other_leaves_best].
Qed.
Lemma top_other_refines m b s : is_heap m s b → wp (run_op m b TopOther) (refines m b s TopOther) s.
Proof using KO.
  intros (roots & hd & ht & Hrep). destruct (Hrep) as [_ Hf _ _ _ _]. apply wp_bind. rewrite peek_extreme. apply wp_bind.
  eapply (get_other_ok m); [exact Hrep|]. intros s1 r Hn _ Hrep1 [[-> ->]|(p & n & j & -> & Hj & Hp & Hch & Hroot)]; cbn [fst].
  - apply wp_ret, wp_ret. eapply refines_keep; [|done|done]. constructor. apply bag_nil. by eapply forest_nil.
  - unfold report. apply wp_bind. eapply wp_nld; [by rewrite Hn|]. apply wp_ret, wp_ret.
    assert (data (delete p (s_nodes s)) = delete p (data (s_nodes s))) as Hd by apply fmap_delete.
    eapply refines_keep; [|done|done]. econstructor; [by eapply bag_delete|by eapply other_leaves_best].
Qed.
Lemma delete_refines m b s k : is_heap m s b → P k → wp (run_op m b (Delete k)) (refines m b s (Delete k)) s.
Proof using KO.
  intros (roots & hd & ht & Hrep) Hk. apply wp_bind. eapply (binheap_delete_ok m); [exact Hrep|exact Hk| |].
  - intros s' Hn Hrep' Hmiss. apply wp_ret. eapply refines_keep; [by constructor|done|done].
  - intros s' v Hb Hr. apply wp_ret. eapply refines_take; [by econstructor|exact Hb|done].
Qed.
Lemma count_refines m b s : is_heap m s b → wp (run_op m b Count) (refines m b s Count) s.
Proof.
  intros (roots & hd & ht & Hrep). destruct (Hrep) as [Hat _ _ _ _ Hsz]. apply wp_bind. unfold binheap_count.
  apply wp_bind. eapply wp_hld; [exact Hat|]. intros l _. apply wp_ret, wp_ret. cbn [bh_count].
  rewrite u64_id by (unfold in_u64; lia). rewrite <-length_bag. eapply refines_keep; [constructor|done|done].
Qed.
Lemma run_heap_op_ok m b o s :
  is_heap m s b → op_ok o → (Z.of_nat (size (s_nodes s)) + 1 < 2 ^ 31)%Z → wp (run_op m b o) (refines m b s o) s.
Proof using KO.
  intros Hh Ho Hsz. destruct o; [by apply insert_refines|by apply top_refines|by apply top_other_refines|by apply pop_refines|by apply pop_other_refines
    |by apply delete_refines|by apply count_refines].
Qed.

Lemma run_ops_ok m b os s :
  is_heap m s b → Forall op_ok os → (Z.of_nat (length (bag (s_nodes s)) + length os) < 2 ^ 31)%Z →
  wp (run_ops m b os) (λ rs s', bag_run m (bag (s_nodes s)) os rs (bag (s_nodes s')) ∧ is_heap m s' b) s.
Proof using KO.
  intros Hh Hos. revert s Hh. induction Hos as [|o os Ho Hos IH]; intros s Hh Hlen; cbn [run_ops].
  { apply wp_ret. split; [constructor|done]. }
  cbn [length] in Hlen. apply wp_bind. eapply wp_mono; [apply run_heap_op_ok; [done|done|rewrite <-length_bag; lia]|].
  intros r s1 (q & Hstep & Hq & Hh1 & Hlq). apply wp_bind. apply Permutation_length in Hq as Hlen1.
  eapply wp_mono; [apply IH; [done|lia]|]. intros rs s' [Hrun Hh']. apply wp_ret. split; [|done]. by econstructor.
Qed.

Lemma create_is_heap m s :
  s_nodes s = ∅ → wp (binheap_create (Some cb) m) (λ b s', is_heap m s' b ∧ s_nodes s' = ∅) s.
Proof.
  intros Hn. unfold wp, binheap_create, halloc. cbn [s_nodes]. split; [|done].
  exists [], None, (λ _, 0). split; cbn [s_nodes s_next]; rewrite ?Hn; try (intros; by rewrite lookup_empty in * ).
  - exists list_create. cbn [s_heaps]. rewrite lookup_insert_eq. split; [done|]. apply list_is_create.
  - apply forest_empty.
  - done.
  - by rewrite map_size_empty.
Qed.

(** C18: a heap made by binheap_create, with keys on which its comparator is an
    order and fewer than 2^31 operations: every script of insertions, queries
    and deletions returns, and its results are those of a bag of pairs.
    binheap_maximum of a MAX heap (binheap_minimum of a MIN heap) reports a pair
    whose key has precedence over all others, and the corresponding deletion
    removes it.  The query of the other end reports one pair of the bag, and
    deletion at that end removes one, not always the extreme one; unless it is
    the only pair, a pair of greatest precedence is left.  binheap_delete
    removes one pair with the key it is given; it answers -1 and changes nothing
    if no pair has the key, and it may do so for a key that is stored, but never
    for one that has precedence over all others.  binheap_count is the number of
    pairs. *)
Theorem binheap_refines_bag m os s :
  s_nodes s = ∅ → Forall op_ok os → (Z.of_nat (length os) < 2 ^ 31)%Z →
  ∃ rs s', (b ← binheap_create (Some cb) m; run_ops m b os) s = Ret (rs, s') ∧ bag_run m [] os rs (bag (s_nodes s')).
Proof using KO.
  intros Hn Hos Hlen.
  assert (wp (b ← binheap_create (Some cb) m; run_ops m b os) (λ rs s', bag_run m [] os rs (bag (s_nodes s'))) s) as Hwp.
  { apply wp_bind. eapply wp_mono; [by apply create_is_heap|]. intros b s1 [Hh Hn1].
    assert (bag (s_nodes s1) = []) as Hb by (by apply bag_nil).
    eapply wp_mono; [apply run_ops_ok; [done|done|by rewrite Hb]|]. intros rs s' [Hrun _]. by rewrite Hb in Hrun. }
  by apply wp_run in Hwp.
Qed.

(** ** Destruction *)
Lemma destroy_loop_ok m k s b :
  is_heap m s b → size (s_nodes s) ≤ k →
  wp (destroy_loop k b) (λ _ s', s_nodes s' = ∅ ∧ is_heap m s' b) s.
Proof using KO.
  revert s. induction k as [|k IH]; intros s (roots & hd & ht & Hrep) Hk; cbn [destroy_loop];
    (assert (get_top b s = get_of m b 0 s) as Htop by
      (destruct (r_heap _ _ _ _ _ _ _ _ Hrep) as (l & Hl & _); unfold get_top, mbind, st_bind, hld; rewrite Hl; by destruct m));
    apply wp_bind; unfold wp; rewrite Htop; (eapply (get_head_ok m); [exact Hrep|]); intros s1 Hn _ Hrep1; cbn [fst];
    destruct (Hrep1) as [_ Hf Hh _ _ _]; destruct hd as [p|].
  - destruct Hh as (_ & n & Hp & _). assert (s_nodes s = ∅) as He by (apply map_size_empty_inv; lia). by rewrite Hn, He in Hp.
  - cbn in Hh. subst roots. apply forest_nil in Hf; [|done]. split; [done|by exists [], None, ht].
  - destruct Hh as (_ & n & Hp & _). apply wp_bind. eapply wp_mono; [eapply (heap_node_destroy_ok P cb m s1 b roots (Some p) ht p n 0 Hrep1 Hp); by left|].
    intros [] s2 (Hd & Hr). apply IH; [done|]. rewrite <-size_data, Hd, map_size_delete_Some, size_data, Hn by (eexists; by apply data_lookup). lia.
  - cbn in Hh. subst roots. apply forest_nil in Hf; [|done]. split; [done|by exists [], None, ht].
Qed.
Lemma clear_empty (l : linked_list loc) : list_is l [] → list_clear l = Ret ([], l).
Proof.
  intros Hl. destruct (empty_state l Hl) as (Hh & Ht & Hn).
  unfold list_clear. unfold mbind at 1, st_bind at 1, st_get. cbn [clear_entries].
  unfold shift_entry, reset_if_empty, mbind, st_bind, st_get. rewrite Hh. simpl. rewrite Hn.
  rewrite bool_decide_eq_true_2 by done. simpl. unfold mbind, st_bind, modify, st_modify. simpl. by rewrite empty_reset.
Qed.
Lemma destroy_frees m s b :
  is_heap m s b → wp (binheap_destroy b) (λ _ s', s_nodes s' = ∅ ∧ s_heaps s' !! b = None) s.
Proof using KO.
  intros Hh. unfold binheap_destroy. apply wp_bind, wp_get. apply wp_bind. eapply wp_mono; [by apply (destroy_loop_ok m)|].
  intros [] s1 (Hn & roots & hd & ht & Hrep). destruct (Hrep) as [Hat Hf _ _ _ _].
  assert (roots = []) as ->.
  { apply length_zero_iff_nil. pose proof (forest_length _ _ _ _ _ _ Hf) as Hl. rewrite Hn, map_size_empty in Hl. lia. }
  apply wp_bind. eapply (wp_on_trees cb m s1 b [] [] hd _ list_clear []); [exact Hat| |].
  { intros l Hl. exists l. split; [by apply clear_empty|done]. }
  intros s2 (Hn2 & _) _. apply wp_modify. cbn [s_nodes s_heaps]. split; [congruence|]. apply lookup_delete_eq.
Qed.

(** ** Walks *)
(** The nodes below [p] in the order of a walk, to the depth [k]. *)
Definition kids ns p : list loc := from_option bn_children [] (ns !! p).
Fixpoint subtree ns (k : nat) p : list loc :=
  match k with O => [] | S k => p :: (kids ns p ≫= subtree ns k) end.

Section Subtrees.
Context m ns roots ht (Hf : forest P (cmp cb) m ns roots ht).
Lemma kids_parent p y : y ∈ kids ns p → ∃ yn, ns !! y = Some yn ∧ bn_parent yn = Some p ∧ ht y < ht p.
Proof using Hf.
  unfold kids. destruct (ns !! p) as [n|] eqn:Hp; simpl; [|by intros ?%elem_of_nil].
  intros Hy. destruct (f_child _ _ _ _ _ _ Hf p n y Hp Hy) as (yn & ? & ? & ? & _). eauto.
Qed.
Lemma subtree_stable k k' p : ht p < k → ht p < k' → subtree ns k p = subtree ns k' p.
Proof using Hf.
  revert k' p. induction k as [|k IH]; intros [|k'] p Hk Hk'; [lia..|]. simpl. f_equal.
  apply Forall_bind_ext, Forall_forall. intros y (yn & _ & _ & Hlt)%kids_parent. apply IH; lia.
Qed.

(** The ancestor of [q] that is [n] steps above it. *)
Fixpoint up (n : nat) (q : loc) : option loc :=
  match n with O => Some q | S n => p ← up n q; yn ← ns !! p; bn_parent yn end.
Lemma up_add a d q p : up a q = Some p → up (d + a) q = up d p.
Proof. intros Hp. induction d as [|d IH]; [done|]. simpl. by rewrite IH. Qed.
Lemma up_ht n q p : up n q = Some p → ht q ≤ ht p.
Proof using Hf.
  revert p. induction n as [|n IH]; simpl; intros p Hp; [simplify_eq; lia|].
  destruct (up n q) as [r|] eqn:Hr; [|done]. simpl in Hp. destruct (ns !! r) as [rn|] eqn:Hrn; [|done]. simpl in Hp.
  destruct (f_parent _ _ _ _ _ _ Hf r rn p Hrn Hp) as (pn & Hpn & Hin).
  destruct (f_child _ _ _ _ _ _ Hf p pn r Hpn Hin) as (_ & _ & _ & Hlt & _). specialize (IH r eq_refl). lia.
Qed.
Lemma subtree_up k p q : q ∈ subtree ns k p → ∃ n, up n q = Some p.
Proof using Hf.
  revert p. induction k as [|k IH]; simpl; intros p Hq; [by apply elem_of_nil in Hq|].
  apply elem_of_cons in Hq as [->|(y & Hq & Hy)%list_elem_of_bind]; [by exists 0|].
  destruct (IH y Hq) as [n Hn]. destruct (kids_parent _ _ Hy) as (yn & Hyn & Hyp & _). exists (S n). simpl. by rewrite Hn; simpl; rewrite Hyn.
Qed.
(** Trees below siblings, or below roots, are disjoint. *)
Lemma siblings k p1 p2 n1 n2 q :
  ns !! p1 = Some n1 → ns !! p2 = Some n2 → bn_parent n1 = bn_parent n2 →
  q ∈ subtree ns k p1 → q ∈ subtree ns k p2 → p1 = p2.
Proof using Hf.
  intros H1 H2 Hpar [a Ha]%subtree_up [b Hb]%subtree_up.
  assert (∀ p p' n n' c d, ns !! p = Some n → ns !! p' = Some n' → bn_parent n = bn_parent n' → up c q = Some p →
    up (d + c) q = Some p' → p = p') as Hgo.
  { intros p p' n n' c d Hp Hp' He Hc Hd. rewrite (up_add _ _ _ _ Hc) in Hd. destruct d as [|d]; [by simplify_eq/=|].
    replace (S d) with (d + 1) in Hd by lia. destruct (bn_parent n) as [g|] eqn:Hg.
    - rewrite (up_add 1 d p g) in Hd by (simpl; by rewrite Hp). apply up_ht in Hd.
      destruct (f_parent _ _ _ _ _ _ Hf p' n' g Hp' (eq_sym He)) as (gn & Hgn & Hin).
      destruct (f_child _ _ _ _ _ _ Hf g gn p' Hgn Hin) as (_ & _ & _ & Hlt & _). lia.
    - assert (∀ e, up (e + 1) p = None) as Hno; [|by rewrite Hno in Hd].
      intros e. induction e as [|e IH]; simpl; [by rewrite Hp|by rewrite IH]. }
  destruct (decide (a ≤ b)).
  - apply (Hgo p1 p2 n1 n2 a (b - a)); [done..|]. by replace (b - a + a) with b by lia.
  - symmetry. apply (Hgo p2 p1 n2 n1 b (a - b)); [done|done|done|done|]. by replace (a - b + b) with a by lia.
Qed.
Lemma subtree_NoDup k p : is_Some (ns !! p) → NoDup (subtree ns k p).
Proof using Hf.
  revert p. induction k as [|k IH]; intros p [n Hp]; simpl; constructor.
  - intros (y & Hq & Hy)%list_elem_of_bind. destruct (subtree_up _ _ _ Hq) as [a Ha]. apply up_ht in Ha.
    destruct (kids_parent _ _ Hy) as (_ & _ & _ & Hlt). lia.
  - apply NoDup_bind.
    + intros x1 x2 y (n1 & H1 & Hp1 & _)%kids_parent (n2 & H2 & Hp2 & _)%kids_parent.
      apply (siblings _ _ _ n1 n2); [done|done|congruence].
    + intros x (xn & Hx & _)%kids_parent. apply IH. by eexists.
    + unfold kids. rewrite Hp. by eapply (f_children _ _ _ _ _ _ Hf).
Qed.
Lemma subtree_dom k p q : is_Some (ns !! p) → q ∈ subtree ns k p → is_Some (ns !! q).
Proof using Hf.
  revert p. induction k as [|k IH]; simpl; intros p Hp Hq; [by apply elem_of_nil in Hq|].
  apply elem_of_cons in Hq as [->|(y & Hq & Hy)%list_elem_of_bind]; [done|].
  destruct (kids_parent _ _ Hy) as (yn & Hyn & _). eapply IH; [by eexists|done].
Qed.

(** The trees hold every node once. *)
Lemma subtrees_perm k : (∀ p, is_Some (ns !! p) → ht p < k) → roots ≫= subtree ns k ≡ₚ (map_to_list ns).*1.
Proof using Hf.
  intros Hk. assert (Hroots : ∀ p, p ∈ roots → ∃ n, ns !! p = Some n ∧ bn_parent n = None) by (intros; by eapply forest_lookup).
  apply NoDup_Permutation.
  - apply NoDup_bind; [|by intros p (n & Hp & _)%Hroots; apply subtree_NoDup; eexists|apply Hf].
    intros x1 x2 y (n1 & H1 & Hp1)%Hroots (n2 & H2 & Hp2)%Hroots. apply (siblings _ _ _ n1 n2); [done|done|congruence].
  - apply NoDup_fst_map_to_list.
  - intros q. rewrite list_elem_of_bind. split.
    + intros (p & Hq & (n & Hp & _)%Hroots). eapply subtree_dom in Hq as [qn Hqn]; [|by eexists].
      apply list_elem_of_fmap. exists (q, qn). split; [done|]. by apply elem_of_map_to_list.
    + intros ([q' qn] & -> & Hq%elem_of_map_to_list)%list_elem_of_fmap. simpl.
      assert (∀ d p, is_Some (ns !! p) → k - ht p < d → q' ∈ subtree ns k p → ∃ r, q' ∈ subtree ns k r ∧ r ∈ roots) as Hgo.
      { induction d as [|d IH]; intros p [n Hp] Hd Hin; [lia|]. destruct (bn_parent n) as [g|] eqn:Hpar.
        - destruct (f_parent _ _ _ _ _ _ Hf p n g Hp Hpar) as (gn & Hgn & Hpg).
          destruct (f_child _ _ _ _ _ _ Hf g gn p Hgn Hpg) as (_ & _ & _ & Hlt & _). pose proof (Hk g ltac:(by eexists)).
          apply (IH g); [by eexists|lia|]. destruct k as [|k']; [lia|]. simpl. right. apply list_elem_of_bind. exists p.
          split; [|unfold kids; by rewrite Hgn]. by rewrite (subtree_stable k' (S k')) by lia.
        - exists p. split; [done|]. apply (f_root _ _ _ _ _ _ Hf). eauto. }
      apply (Hgo (S k) q'); [by eexists|lia|]. pose proof (Hk q' ltac:(by eexists)). destruct k; [lia|]. left.
Qed.
End Subtrees.

Section Walking.
Context {D : Type} (wcb : D → list Z → V → D * Z).
(** The callback asks to go on at every pair of the heap. *)
Definition goes_on (q : list (list Z * V)) : Prop := ∀ d kv, kv ∈ q → (wcb d kv.1 kv.2).2 = 1%Z.
Definition visit (d : D) (l : list (list Z * V)) : D := foldl (λ d kv, (wcb d kv.1 kv.2).1) d l.
Definition pairs ns (l : list loc) : list (list Z * V) := omap (λ p, (λ n, (bn_key n, bn_value n)) <$> ns !! p) l.
Lemma pairs_app ns l1 l2 : pairs ns (l1 ++ l2) = pairs ns l1 ++ pairs ns l2.
Proof. apply omap_app. Qed.

Lemma walk_children_ok s p n k rec j i cnt d :
  s_nodes s !! p = Some n → length (bn_children n) - i ≤ j →
  (∀ y cnt d, y ∈ bn_children n → rec y cnt d s
     = Ret ((true, (cnt + Z.of_nat (length (subtree (s_nodes s) k y)))%Z, visit d (pairs (s_nodes s) (subtree (s_nodes s) k y))), s)) →
  let l := drop i (bn_children n) ≫= subtree (s_nodes s) k in
  walk_children rec j p i true cnt d s = Ret ((true, (cnt + Z.of_nat (length l))%Z, visit d (pairs (s_nodes s) l)), s).
Proof.
  intros Hp. revert i cnt d. induction j as [|j IH]; intros i cnt d Hj Hrec; cbn [walk_children];
    unfold mbind at 1, st_bind at 1, nld; rewrite Hp; destruct (bn_children n !! i) as [y|] eqn:Hi.
  1: apply lookup_lt_Some in Hi; lia.
  1,3: apply lookup_ge_None in Hi; rewrite drop_ge by done; simpl; by rewrite Z.add_0_r.
  unfold mbind, st_bind. rewrite Hrec by (by eapply list_elem_of_lookup_2). rewrite IH; [|lia|done].
  rewrite (drop_S _ _ _ Hi). simpl. rewrite pairs_app, length_app. unfold visit. rewrite foldl_app. by rewrite Nat2Z.inj_add, Z.add_assoc.
Qed.

Lemma tree_walk_ok m s roots ht k p cnt d :
  forest P (cmp cb) m (s_nodes s) roots ht → goes_on (bag (s_nodes s)) → is_Some (s_nodes s !! p) → ht p < k →
  binomial_tree_walk wcb k p cnt d s
  = Ret ((true, (cnt + Z.of_nat (length (subtree (s_nodes s) k p)))%Z, visit d (pairs (s_nodes s) (subtree (s_nodes s) k p))), s).
Proof.
  intros Hf Hgo. revert p cnt d. induction k as [|k IH]; intros p cnt d [n Hp] Hk; [lia|].
  cbn [binomial_tree_walk subtree]. unfold mbind at 1, st_bind at 1, nld. rewrite Hp. cbn [bn_key bn_value].
  pose proof (Hgo d (bn_key n, bn_value n) ltac:(apply elem_of_bag; eauto)) as Hrc. cbn [fst snd] in Hrc. destruct (wcb d (bn_key n) (bn_value n)) as [d' rc] eqn:Hcb. simpl in Hrc. subst rc.
  rewrite (bool_decide_eq_true_2 (1%Z = 1%Z)), orb_true_r, !bool_decide_eq_false_2 by done. cbn [orb].
  unfold mbind at 1, st_bind at 1, st_get. unfold mbind at 1, st_bind at 1.
  rewrite (walk_children_ok s p n k); [|done| |].
  - unfold kids. rewrite Hp. cbn [from_option]. rewrite drop_0. set (l := bn_children n ≫= subtree (s_nodes s) k).
    assert (visit d (pairs (s_nodes s) (p :: l)) = visit d' (pairs (s_nodes s) l)) as ->.
    { unfold pairs. simpl. rewrite Hp. simpl. by rewrite Hcb. }
    cbn [length]. by replace (cnt + Z.of_nat (S (length l)))%Z with (cnt + 1 + Z.of_nat (length l))%Z by lia.
  - rewrite Nat.sub_0_r, <-size_dom, <-(size_list_to_set (C := gset loc)) by (by eapply (f_children _ _ _ _ _ _ Hf)).
    apply subseteq_size. intros y Hy%elem_of_list_to_set.
    destruct (f_child _ _ _ _ _ _ Hf p n y Hp Hy) as (yn & Hyn & _). by apply elem_of_dom_2 in Hyn.
  - intros y cnt' d'' Hy. destruct (f_child _ _ _ _ _ _ Hf p n y Hp Hy) as (yn & Hyn & _ & Hlt & _). apply IH; [by eexists|lia].
Qed.

(** A heap in a store that may hold the trees of other heaps too. *)
Lemma walk_roots_ok m j s b R roots hd c ht i cnt d :
  heap_at cb m s b R hd c → forest P (cmp cb) m (s_nodes s) roots ht → R ⊆ roots → (Z.of_nat (length R) < 2 ^ 31)%Z →
  goes_on (bag (s_nodes s)) → (∀ p, is_Some (s_nodes s !! p) → ht p < size (s_nodes s)) → i ≤ length R → length R - i ≤ j →
  let l := drop i R ≫= subtree (s_nodes s) (size (s_nodes s)) in
  wp (walk_roots wcb j b (Z.of_nat i) cnt d)
    (λ r s', r = ((cnt + Z.of_nat (length l))%Z, visit d (pairs (s_nodes s) l)) ∧ same_but b s s' ∧ heap_at cb m s' b R hd c) s.
Proof.
  revert s i cnt d. induction j as [|j IH]; intros s i cnt d Hat Hf Hsub Hsz Hgo Hht Hi Hj; cbn [walk_roots];
    apply wp_bind; (eapply wp_count; [exact Hat|]); intros s1 Hs1 Hat1;
    (rewrite i32_id by (unfold in_i32; lia)).
  all: assert (Hdone : i = length R → (cnt, d) = ((cnt + Z.of_nat (length (drop i R ≫= subtree (s_nodes s) (size (s_nodes s)))))%Z,
      visit d (pairs (s_nodes s) (drop i R ≫= subtree (s_nodes s) (size (s_nodes s))))) ∧ same_but b s s1 ∧ heap_at cb m s1 b R hd c).
  1,3: intros ->; rewrite drop_ge by done; simpl; by rewrite Z.add_0_r.
  { rewrite bool_decide_eq_false_2 by lia. apply wp_ret, Hdone. lia. }
  case_bool_decide as Hlt; [|apply wp_ret, Hdone; lia]. destruct (lookup_lt_is_Some_2 R i) as [x Hx]; [lia|].
  destruct (forest_lookup _ _ _ _ _ _ x Hf) as (xn & Hxn & _); [by eapply Hsub, list_elem_of_lookup_2|].
  apply wp_bind. eapply wp_pick; [exact Hat1|exact Hx|]. intros s2 Hs2 Hat2.
  assert (same_but b s s2) as Hs by (by etrans). destruct (Hs) as (Hn & _).
  apply wp_bind. eapply wp_lift_store; [done|]. apply wp_bind, wp_get. apply wp_bind.
  eapply wp_Ret; [apply (tree_walk_ok m _ roots ht); rewrite Hn; [done|done|by eexists|apply Hht; by eexists]|]. cbn beta iota.
  replace (Z.of_nat i + 1)%Z with (Z.of_nat (S i)) by lia.
  eapply wp_mono; [apply IH; rewrite ?Hn; [done..|lia|lia]|]. intros r s' (-> & Hs' & Hat'). rewrite Hn in *.
  split; [|split; [by etrans|done]]. rewrite (drop_S _ _ _ Hx). simpl. rewrite pairs_app, length_app. unfold visit. by rewrite foldl_app, Nat2Z.inj_add, Z.add_assoc.
Qed.

(** The pairs of the trees below [R], in the order of a walk. *)
Definition walk_list ns (R : list loc) : list (list Z * V) := pairs ns (R ≫= subtree ns (size ns)).
Lemma walk_list_app ns R1 R2 : walk_list ns (R1 ++ R2) = walk_list ns R1 ++ walk_list ns R2.
Proof. unfold walk_list. by rewrite bind_app, pairs_app. Qed.
Lemma walk_list_bag m ns roots ht : forest P (cmp cb) m ns roots ht → walk_list ns roots ≡ₚ bag ns.
Proof.
  intros (ht' & Hf & Hht)%forest_norm. unfold walk_list, pairs. rewrite (subtrees_perm m _ roots ht' Hf _ Hht). unfold bag, data. rewrite map_to_list_fmap.
  assert (∀ L, (∀ p n, (p, n) ∈ L → ns !! p = Some n) →
    omap (λ p, (λ n, (bn_key n, bn_value n)) <$> ns !! p) L.*1
    = fst <$> (prod_map id (λ n : node, (bn_key n, bn_value n, bn_bh n)) <$> L).*2) as Hmap.
  { induction L as [|[p n] L IH]; intros HL; [done|]. simpl. rewrite (HL p n) by left. simpl. f_equal. apply IH.
    intros q qn Hq. apply HL. by right. }
  by rewrite Hmap by (intros p n; apply elem_of_map_to_list).
Qed.
Lemma length_pairs ns (l : list loc) : (∀ p, p ∈ l → is_Some (ns !! p)) → length (pairs ns l) = length l.
Proof.
  induction l as [|p l IH]; intros Hl; [done|]. destruct (Hl p) as [n Hn]; [left|]. unfold pairs. simpl. rewrite Hn. simpl. f_equal.
  apply IH. intros q Hq. apply Hl. by right.
Qed.
Lemma walk_ok m s b R roots hd c ht d :
  heap_at cb m s b R hd c → forest P (cmp cb) m (s_nodes s) roots ht → R ⊆ roots → (Z.of_nat (length R) < 2 ^ 31)%Z →
  goes_on (bag (s_nodes s)) →
  wp (binheap_walk wcb b d) (λ r s', r = (Z.of_nat (length (walk_list (s_nodes s) R)), visit d (walk_list (s_nodes s) R)) ∧
    same_but b s s' ∧ heap_at cb m s' b R hd c) s.
Proof.
  intros Hat (ht' & Hf & Hht)%forest_norm Hsub Hsz Hgo. unfold binheap_walk. apply wp_bind. eapply wp_count; [exact Hat|]. intros s1 Hs1 Hat1. rewrite Nat2Z.id.
  destruct (Hs1) as (Hn & _). change 0%Z with (Z.of_nat 0) at 1. rewrite <-Hn in Hf, Hgo, Hht.
  eapply wp_mono; [apply (walk_roots_ok m _ s1 b R roots hd c ht' 0 0%Z d Hat1); [done..|lia|lia]|].
  intros r s' (-> & Hs' & Hat'). rewrite Hn in *. rewrite Z.add_0_l, drop_0. unfold walk_list. rewrite length_pairs.
  - split; [done|]. split; [by etrans|done].
  - intros p (q & Hp & Hq)%list_elem_of_bind. destruct (forest_lookup _ _ _ _ _ _ q Hf) as (qn & Hqn & _); [by apply Hsub|].
    by eapply (subtree_dom m _ _ _ Hf); [|exact Hp].
Qed.

Lemma walk_visits m s b d :
  is_heap m s b → goes_on (bag (s_nodes s)) →
  ∃ l s', binheap_walk wcb b d s = Ret ((Z.of_nat (length l), visit d l), s') ∧ l ≡ₚ bag (s_nodes s) ∧
    s_nodes s' = s_nodes s ∧ is_heap m s' b.
Proof.
  intros (roots & hd & ht & Hrep) Hgo. destruct (Hrep) as [Hat Hf _ _ _ Hsz].
  pose proof (forest_length _ _ _ _ _ _ Hf) as Hlen.
  destruct (wp_run _ _ _ (walk_ok m s b roots roots hd _ ht d Hat Hf ltac:(done) ltac:(lia) Hgo)) as (r & s' & Hrun & -> & Hs & Hat').
  exists (walk_list (s_nodes s) roots), s'. split_and!; [done|by eapply walk_list_bag|apply Hs|]. exists roots, hd, ht. by eapply rep_same.
Qed.

(** Binheap_walk with a callback that asks to go on at every pair returns, calls it
    once for every pair of the heap, returns their number and leaves the heap as
    it was. *)
Theorem binheap_walk_visits m s b d :
  is_heap m s b → goes_on (bag (s_nodes s)) →
  ∃ l s', binheap_walk wcb b d s = Ret ((Z.of_nat (length l), visit d l), s') ∧ l ≡ₚ bag (s_nodes s) ∧
    s_nodes s' = s_nodes s ∧ is_heap m s' b.
Proof. apply walk_visits. Qed.
End Walking.

(** What a walk shows of a heap: a callback that writes down every pair ends
    with the list [q], and [q] is as long as the number the walk returns. *)
Definition note (l : list (list Z * V)) (k : list Z) (v : V) : list (list Z * V) * Z := (l ++ [(k, v)], 1%Z).
Definition walks s b (q : list (list Z * V)) : Prop := ∃ s', binheap_walk note b [] s = Ret ((Z.of_nat (length q), q), s').
Lemma visit_note d l : visit note d l = d ++ l.
Proof.
  unfold visit. revert d. induction l as [|[k v] l IH]; intros d; simpl; [by rewrite app_nil_r|]. by rewrite IH, <-app_assoc.
Qed.
Lemma heap_walks m s b R roots hd c ht :
  heap_at cb m s b R hd c → forest P (cmp cb) m (s_nodes s) roots ht → R ⊆ roots → (Z.of_nat (size (s_nodes s)) < 2 ^ 31)%Z →
  NoDup R → walks s b (walk_list (s_nodes s) R).
Proof.
  intros Hat Hf Hsub Hsz Hnd. assert (length R ≤ size (s_nodes s)) as Hlen.
  { rewrite <-size_dom, <-(size_list_to_set (C := gset loc)) by done. apply subseteq_size. intros y Hy%elem_of_list_to_set.
    destruct (forest_lookup _ _ _ _ _ _ y Hf) as (yn & Hyn & _); [by apply Hsub|]. by apply elem_of_dom_2 in Hyn. }
  destruct (wp_run _ _ _ (walk_ok note m s b R roots hd c ht [] Hat Hf Hsub ltac:(lia) ltac:(done))) as (r & s' & Hrun & -> & _).
  exists s'. by rewrite Hrun, visit_note.
Qed.

(** ** Merging heaps *)
Lemma heap_at_frame m m' s s' b b' roots hd cnt :
  same_but b s s' → b' ≠ b → heap_at cb m' s b' roots hd cnt → heap_at cb m' s' b' roots hd cnt.
Proof. intros (_ & _ & Hh) Hne (l & Hl & ?). exists l. by rewrite Hh. Qed.

Lemma order_is_ok f o k s (Q : bool → store V → Prop) :
  known P (s_nodes s) ⟪o⟫ → (∀ r, (r = true → ∃ x, o = Some x) → Q r s) → wp (order_is f o k) Q s.
Proof.
  intros Hk HQ. destruct o as [x|]; cbn [order_is]; [|apply wp_ret, HQ; done].
  destruct (Hk x) as (n & Hn & _); [left|]. apply wp_bind. eapply wp_nld; [exact Hn|]. apply wp_ret, HQ. eauto.
Qed.

(** The carry finds a partner, changes places with a tree, or stays. *)
Lemma merge_carry_ok m h s n1 n2 c X ht (Q : option (option loc * option loc * option loc) → store V → Prop) :
  bh_cbs h = cb → bh_mode h = m → forest P (cmp cb) m (s_nodes s) (c :: ⟪n1⟫ ++ ⟪n2⟫ ++ X) ht →
  (n1 = None → n2 = None → Q None s) →
  (∀ s' ht' n1' n2' c', forest P (cmp cb) m (s_nodes s') (⟪c'⟫ ++ ⟪n1'⟫ ++ ⟪n2'⟫ ++ X) ht' → changed s s' →
    (n1' = None → n1 = None) → (n2' = None → n2 = None) → n1' ≠ None ∨ n2' ≠ None → length (⟪c'⟫ ++ ⟪n1'⟫ ++ ⟪n2'⟫) ≤ length (c :: ⟪n1⟫ ++ ⟪n2⟫) → Q (Some (n1', n2', c')) s') →
  wp (merge_carry h n1 n2 c) Q s.
Proof using KO.
  intros Hcb Hm Hf Hnone HQ. pose proof (forest_known_roots _ _ _ _ _ _ Hf) as Hk.
  assert (Hk1 : known P (s_nodes s) ⟪n1⟫) by (intros q Hq; apply Hk; right; apply elem_of_app; by left).
  assert (Hk2 : known P (s_nodes s) ⟪n2⟫) by (intros q Hq; apply Hk; right; apply elem_of_app; right; apply elem_of_app; by left).
  assert (Hstay : ∀ n1' n2' c', ⟪c'⟫ ++ ⟪n1'⟫ ++ ⟪n2'⟫ ≡ₚ c :: ⟪n1⟫ ++ ⟪n2⟫ →
    (n1' = None → n1 = None) → (n2' = None → n2 = None) → n1' ≠ None ∨ n2' ≠ None → Q (Some (n1', n2', c')) s).
  { intros n1' n2' c' Hp H1 H2 Hne. eapply HQ; [|by split_and!|done|done|done|by rewrite Hp].
    eapply forest_permute; [|exact Hf]. transitivity ((c :: ⟪n1⟫ ++ ⟪n2⟫) ++ X); [by simpl; rewrite <-app_assoc|].
    by rewrite <-Hp, <-!app_assoc. }
  unfold merge_carry. destruct (Hk c) as (cn & Hc & _); [left|]. apply wp_bind. eapply wp_nld; [exact Hc|].
  apply wp_bind. apply order_is_ok; [done|]. intros [] Heq1.
  { destruct (Heq1 eq_refl) as [x ->]. apply wp_bind. eapply wp_lift_store; [done|]. apply wp_bind. cbn [option_list] in *. simpl in Hf.
    rewrite perm_swap in Hf. eapply link_ok; [exact Hf|intros; by apply (prec_test P)|].
    intros r s' ht' _ Hf' Hch. apply wp_ret. eapply HQ; [exact Hf'|done|done|done|by left|simpl; lia]. }
  apply wp_bind. apply order_is_ok; [done|]. intros [] Heq2.
  { destruct (Heq2 eq_refl) as [x ->]. apply wp_bind. eapply wp_lift_store; [done|]. apply wp_bind.
    eapply link_ok; [|intros; by apply (prec_test P)|].
    - eapply forest_permute; [|exact Hf]. instantiate (1 := ⟪n1⟫ ++ X). cbn [option_list]. perm.
    - intros r s' ht' _ Hf' Hch. apply wp_ret. eapply (HQ s' ht' n1 (Some r) None); [|done|done|done|by right|destruct n1; simpl; lia].
      eapply forest_permute; [|exact Hf']. cbn [option_list]. perm. }
  destruct (bool_decide (n1 = None) && bool_decide (n2 = None)) eqn:Hb.
  { apply andb_true_iff in Hb as [H1%bool_decide_eq_true H2%bool_decide_eq_true]. apply wp_ret. by apply Hnone. }
  assert (n1 ≠ None ∨ n2 ≠ None) as Hne.
  { destruct n1; [by left|]. destruct n2; [by right|]. done. }
  apply wp_bind. apply order_is_ok; [done|]. intros [] Hgt1.
  { destruct (Hgt1 eq_refl) as [x ->]. apply wp_ret, Hstay; [cbn [option_list]; perm|done|done|by left]. }
  apply wp_bind. apply order_is_ok; [done|]. intros [] Hgt2.
  { destruct (Hgt2 eq_refl) as [x ->]. apply wp_ret, Hstay; [cbn [option_list]; perm|done|done|by right]. }
  apply wp_ret, Hstay; [cbn [option_list]; perm|done|done|done].
Qed.

Lemma merge_pair_ok h s n1 n2 c X ht (Q : loc → store V → Prop) :
  bh_cbs h = cb → bh_mode h = MAX → forest P (cmp cb) MAX (s_nodes s) (n1 :: n2 :: ⟪c⟫ ++ X) ht →
  (∀ r s' ht', forest P (cmp cb) MAX (s_nodes s') (r :: X) ht' → changed s s' → Q r s') →
  wp (merge_pair h n1 n2 c) Q s.
Proof using KO.
  intros Hcb Hm Hf HQ. unfold merge_pair. apply wp_bind. eapply link_ok; [exact Hf|intros; by apply (prec_test P)|].
  intros r s1 ht1 _ Hf1 (Hd1 & Hh1 & Hx1). destruct c as [c|]; [|apply wp_ret; eapply HQ; [exact Hf1|by split_and!]].
  eapply link_ok; [exact Hf1| |].
  - intros k1 k2 H1 H2. case_bool_decide; [|by apply (prec_test P)].
    pose proof (prec_test P cb MAX h k1 k2 Hcb Hm H1 H2) as Ht. rewrite HAS_PRECEDENCE_prec, Hcb, Hm in Ht. by rewrite Hcb.
  - intros r' s' ht' _ Hf' (Hd' & Hh' & Hx'). eapply HQ; [exact Hf'|]. split_and!; congruence.
Qed.

Lemma push_tree_ok (l : linked_list loc) N x s (Q : linked_list loc → store V → Prop) :
  list_is l (Some <$> N) → (Z.of_nat (length N) < MAX_LEN)%Z →
  (∀ l', list_is l' (Some <$> (N ++ [x])) → Q l' s) → wp (push_tree l (Some x)) Q s.
Proof.
  intros Hl Hlt HQ. destruct (list_push_value_is l (Some <$> N) (Some x)) as (l' & Hrun & Hl'); [done|by rewrite length_fmap|].
  unfold push_tree. apply wp_bind. eapply wp_lift_store; [exact Hrun|]. apply wp_ret, HQ. by rewrite fmap_app.
Qed.

(** The state of the loop: the trees of the new list, of the two heaps and in
    the three variables are the roots of one forest. *)
Record merging s b1 b2 n1 n2 (c : option loc) (l : linked_list loc) R1 R2 N (hd1 hd2 : option loc) (cnt1 cnt2 : Z) : Prop := {
  mg_heap1 : heap_at cb MAX s b1 R1 hd1 cnt1;
  mg_heap2 : heap_at cb MAX s b2 R2 hd2 cnt2;
  mg_list : list_is l (Some <$> N);
  mg_forest : ∃ ht, forest P (cmp cb) MAX (s_nodes s) (⟪c⟫ ++ ⟪n1⟫ ++ ⟪n2⟫ ++ N ++ R1 ++ R2) ht
}.
Lemma merging_changed s s' b1 b2 n1 n2 c l R1 R2 N hd1 hd2 cnt1 cnt2 n1' n2' c' ht :
  merging s b1 b2 n1 n2 c l R1 R2 N hd1 hd2 cnt1 cnt2 → changed s s' →
  forest P (cmp cb) MAX (s_nodes s') (⟪c'⟫ ++ ⟪n1'⟫ ++ ⟪n2'⟫ ++ N ++ R1 ++ R2) ht → merging s' b1 b2 n1' n2' c' l R1 R2 N hd1 hd2 cnt1 cnt2.
Proof. intros [H1 H2 H3 H4] Hc Hf. split; [by eapply heap_at_changed|by eapply heap_at_changed|done|eauto]. Qed.

(** Fetching the next tree of the first or of the second heap. *)
Lemma merge_shift1 s b1 b2 n2 c l R1 R2 N hd1 hd2 cnt1 cnt2 (Q : option loc → store V → Prop) :
  b1 ≠ b2 → merging s b1 b2 None n2 c l R1 R2 N hd1 hd2 cnt1 cnt2 →
  (∀ s', merging s' b1 b2 (head R1) n2 c l (tail R1) R2 N hd1 hd2 cnt1 cnt2 → s_nodes s' = s_nodes s → s_next s' = s_next s → Q (head R1) s') →
  wp (on_trees b1 list_shift_value) Q s.
Proof.
  intros Hne [H1 H2 H3 (ht & H4)] HQ. eapply wp_shift; [exact H1|]. intros s' Hs' H1'. destruct (Hs') as (Hn & Hx & _).
  apply HQ; [|done|done]. split; [done|by eapply (heap_at_frame MAX)|done|]. exists ht. rewrite Hn.
  eapply forest_permute; [|exact H4]. destruct R1; simpl; [done|]. perm.
Qed.
Lemma merge_shift2 s b1 b2 n1 c l R1 R2 N hd1 hd2 cnt1 cnt2 (Q : option loc → store V → Prop) :
  b1 ≠ b2 → merging s b1 b2 n1 None c l R1 R2 N hd1 hd2 cnt1 cnt2 →
  (∀ s', merging s' b1 b2 n1 (head R2) c l R1 (tail R2) N hd1 hd2 cnt1 cnt2 → s_nodes s' = s_nodes s → s_next s' = s_next s → Q (head R2) s') →
  wp (on_trees b2 list_shift_value) Q s.
Proof.
  intros Hne [H1 H2 H3 (ht & H4)] HQ. eapply wp_shift; [exact H2|]. intros s' Hs' H2'. destruct (Hs') as (Hn & Hx & _).
  apply HQ; [|done|done]. split; [by eapply (heap_at_frame MAX)|done|done|]. exists ht. rewrite Hn.
  eapply forest_permute; [|exact H4]. destruct R2; simpl; [done|]. perm.
Qed.
Lemma merging_length s b1 b2 n1 n2 c l R1 R2 N hd1 hd2 cnt1 cnt2 :
  merging s b1 b2 n1 n2 c l R1 R2 N hd1 hd2 cnt1 cnt2 →
  length ⟪c⟫ + length ⟪n1⟫ + length ⟪n2⟫ + length N + length R1 + length R2 ≤ size (s_nodes s).
Proof. intros [_ _ _ (ht & Hf)]. apply forest_length in Hf. rewrite !length_app in Hf. lia. Qed.
Lemma head_tail (l : list loc) : length ⟪head l⟫ + length (tail l) = length l ∧ (head l = None → tail l = []).
Proof. by destruct l. Qed.

(** A tree goes to the new list. *)
Lemma merge_push s b1 b2 n1 n2 c n1' n2' c' l R1 R2 N hd1 hd2 cnt1 cnt2 x (Q : linked_list loc → store V → Prop) :
  merging s b1 b2 n1 n2 c l R1 R2 N hd1 hd2 cnt1 cnt2 → ⟪c⟫ ++ ⟪n1⟫ ++ ⟪n2⟫ ≡ₚ x :: ⟪c'⟫ ++ ⟪n1'⟫ ++ ⟪n2'⟫ →
  (Z.of_nat (size (s_nodes s)) < 2 ^ 31)%Z →
  (∀ l', merging s b1 b2 n1' n2' c' l' R1 R2 (N ++ [x]) hd1 hd2 cnt1 cnt2 → Q l' s) → wp (push_tree l (Some x)) Q s.
Proof.
  intros Hm Hp Hsz HQ. pose proof (merging_length _ _ _ _ _ _ _ _ _ _ _ _ _ _ Hm) as Hlen. destruct Hm as [H1 H2 H3 (ht & H4)].
  eapply push_tree_ok; [exact H3| |].
  - apply Permutation_length in Hp. rewrite !length_app in Hp. simpl in Hp. unfold MAX_LEN. lia.
  - intros l' Hl'. apply HQ. split; [done|done|done|]. exists ht. eapply forest_permute; [|exact H4].
    transitivity ((⟪c⟫ ++ ⟪n1⟫ ++ ⟪n2⟫) ++ N ++ R1 ++ R2); [by rewrite <-!app_assoc|]. rewrite Hp. perm.
Qed.

Lemma merge_advance1 s b1 b2 x n2 c l R1 R2 N hd1 hd2 cnt1 cnt2 K (Q : linked_list loc → store V → Prop) :
  b1 ≠ b2 → merging s b1 b2 (Some x) n2 c l R1 R2 N hd1 hd2 cnt1 cnt2 → (Z.of_nat (size (s_nodes s)) < 2 ^ 31)%Z →
  (∀ s' l', merging s' b1 b2 (head R1) n2 c l' (tail R1) R2 (N ++ [x]) hd1 hd2 cnt1 cnt2 → s_nodes s' = s_nodes s →
    s_next s' = s_next s → wp (K (head R1) l') Q s') →
  wp (l ← push_tree l (Some x); node1 ← on_trees b1 list_shift_value; K node1 l) Q s.
Proof.
  intros Hne Hm Hsz HQ. apply wp_bind. eapply (merge_push _ _ _ _ _ _ None n2 c); [exact Hm|cbn [option_list]; perm|done|].
  intros l' Hm'. apply wp_bind. eapply merge_shift1; [done|exact Hm'|]. intros s' Hs' Hn Hx. by apply HQ.
Qed.
Lemma merge_advance2 s b1 b2 x n1 c l R1 R2 N hd1 hd2 cnt1 cnt2 K (Q : linked_list loc → store V → Prop) :
  b1 ≠ b2 → merging s b1 b2 n1 (Some x) c l R1 R2 N hd1 hd2 cnt1 cnt2 → (Z.of_nat (size (s_nodes s)) < 2 ^ 31)%Z →
  (∀ s' l', merging s' b1 b2 n1 (head R2) c l' R1 (tail R2) (N ++ [x]) hd1 hd2 cnt1 cnt2 → s_nodes s' = s_nodes s →
    s_next s' = s_next s → wp (K (head R2) l') Q s') →
  wp (l ← push_tree l (Some x); node2 ← on_trees b2 list_shift_value; K node2 l) Q s.
Proof.
  intros Hne Hm Hsz HQ. apply wp_bind. eapply (merge_push _ _ _ _ _ _ n1 None c); [exact Hm|cbn [option_list]; perm|done|].
  intros l' Hm'. apply wp_bind. eapply merge_shift2; [done|exact Hm'|]. intros s' Hs' Hn Hx. by apply HQ.
Qed.

(** The rest of a round. *)
Lemma merge_round_ok next h s b1 b2 n1 n2 c l R1 R2 N hd1 hd2 cnt1 cnt2 (Q : linked_list loc → store V → Prop) :
  b1 ≠ b2 → bh_cbs h = cb → bh_mode h = MAX → merging s b1 b2 n1 n2 c l R1 R2 N hd1 hd2 cnt1 cnt2 →
  (n1 = None → R1 = []) → (n2 = None → R2 = []) → n1 ≠ None ∨ n2 ≠ None → (Z.of_nat (size (s_nodes s)) < 2 ^ 31)%Z →
  (∀ s' n1' n2' c' l' R1' R2' N', merging s' b1 b2 n1' n2' c' l' R1' R2' N' hd1 hd2 cnt1 cnt2 →
    (n1' = None → R1' = []) → (n2' = None → R2' = []) → data (s_nodes s') = data (s_nodes s) → s_next s' = s_next s →
    length ⟪c'⟫ + length ⟪n1'⟫ + length ⟪n2'⟫ + length R1' + length R2' < length ⟪c⟫ + length ⟪n1⟫ + length ⟪n2⟫ + length R1 + length R2 →
    wp (next n1' n2' c' l') Q s') →
  wp (merge_round next b1 b2 h n1 n2 c l) Q s.
Proof using KO.
  intros Hne Hcb Hmax Hm HR1 HR2 Hn Hsz Hnext. unfold merge_round.
  pose proof (head_tail R1) as [Hl1 Ht1]. pose proof (head_tail R2) as [Hl2 Ht2].
  destruct n1 as [x1|], n2 as [x2|]; [| | |by destruct Hn].
  - destruct (Hm) as [_ _ _ (ht & Hf)]. pose proof (forest_known_roots _ _ _ _ _ _ Hf) as Hkn.
    destruct (Hkn x1) as (nd1 & Hx1n & _); [rewrite !elem_of_app; right; left; left|].
    destruct (Hkn x2) as (nd2 & Hx2n & _); [rewrite !elem_of_app; right; right; left; left|].
    apply wp_bind. eapply wp_nld; [exact Hx1n|]. apply wp_bind. eapply wp_nld; [exact Hx2n|]. cbv zeta.
    case_bool_decide as Hlt; [|case_bool_decide as Hgt].
    + eapply merge_advance1; [done|exact Hm|done|]. intros s2 l' Hm2 Hn2 Hx2. eapply Hnext; [exact Hm2|done|done|by rewrite Hn2|done|simpl; lia].
    + eapply merge_advance2; [done|exact Hm|done|]. intros s2 l' Hm2 Hn2 Hx2. eapply Hnext; [exact Hm2|done|done|by rewrite Hn2|done|simpl; lia].
    + apply wp_bind. eapply (merge_pair_ok _ s x1 x2 c (N ++ R1 ++ R2)); [done|done|eapply forest_permute; [|exact Hf]; cbn [option_list]; perm|].
      intros r s2 ht2 Hf2 Hc2. apply wp_bind. eapply merge_shift1; [done| |].
      { eapply (merging_changed s s2 _ _ _ _ _ _ _ _ _ _ _ _ _ None None (Some r)); [exact Hm|done|exact Hf2]. }
      intros s3 Hm3 Hn3 Hx3. apply wp_bind. eapply merge_shift2; [done|exact Hm3|]. intros s4 Hm4 Hn4 Hx4.
      destruct Hc2 as (Hd2 & _ & Hx2). eapply Hnext; [exact Hm4|done|done|by rewrite Hn4, Hn3|congruence|simpl; lia].
  - eapply merge_advance1; [done|exact Hm|done|]. intros s2 l' Hm2 Hn2 Hx2.
    eapply Hnext; [exact Hm2|done|done|by rewrite Hn2|done|]. simpl. lia.
  - eapply merge_advance2; [done|exact Hm|done|]. intros s2 l' Hm2 Hn2 Hx2.
    eapply Hnext; [exact Hm2|done|done|by rewrite Hn2|done|]. simpl. lia.
Qed.

Lemma merge_loop_ok k s b1 b2 n1 n2 c l R1 R2 N hd1 hd2 cnt1 cnt2 (Q : linked_list loc → store V → Prop) :
  b1 ≠ b2 → merging s b1 b2 n1 n2 c l R1 R2 N hd1 hd2 cnt1 cnt2 → (n1 = None → R1 = []) → (n2 = None → R2 = []) →
  (Z.of_nat (size (s_nodes s)) < 2 ^ 31)%Z → length ⟪c⟫ + length ⟪n1⟫ + length ⟪n2⟫ + length R1 + length R2 ≤ k →
  (∀ s' l' N', merging s' b1 b2 None None None l' [] [] N' hd1 hd2 cnt1 cnt2 → data (s_nodes s') = data (s_nodes s) →
    s_next s' = s_next s → Q l' s') →
  wp (merge_loop k b1 b2 n1 n2 c l) Q s.
Proof using KO.
  intros Hne. revert s n1 n2 c l R1 R2 N. induction k as [|k IH]; intros s n1 n2 c l R1 R2 N Hm HR1 HR2 Hsz Hk HQ; cbn [merge_loop].
  { destruct c, n1, n2; simpl in Hk; try lia. rewrite !bool_decide_eq_true_2 by done. apply wp_ret.
    rewrite HR1, HR2 in * by done. by eapply HQ. }
  destruct (bool_decide (n1 = None) && bool_decide (n2 = None) && bool_decide (c = None)) eqn:Hend.
  { apply andb_true_iff in Hend as [[->%bool_decide_eq_true ->%bool_decide_eq_true]%andb_true_iff ->%bool_decide_eq_true].
    apply wp_ret. rewrite HR1, HR2 in * by done. by eapply HQ. }
  apply wp_bind. eapply wp_hld; [apply Hm|]. intros l0 _. apply wp_bind.
  eapply (wp_mono _ (λ r s', match r with
    | None => n1 = None ∧ n2 = None ∧ s' = s
    | Some (n1', n2', c') => merging s' b1 b2 n1' n2' c' l R1 R2 N hd1 hd2 cnt1 cnt2 ∧ changed s s' ∧ (n1' = None → R1 = []) ∧ (n2' = None → R2 = []) ∧
        (n1' ≠ None ∨ n2' ≠ None) ∧ length ⟪c'⟫ + length ⟪n1'⟫ + length ⟪n2'⟫ ≤ length ⟪c⟫ + length ⟪n1⟫ + length ⟪n2⟫
    end)).
  { destruct c as [c|].
    - destruct (Hm) as [_ _ _ (ht & Hf)]. simpl in Hf.
      eapply (merge_carry_ok MAX); [done|done|exact Hf|done|]. intros s' ht' n1' n2' c' Hf' Hc H1 H2 Hn Hl.
      split_and!; [by eapply merging_changed|done|naive_solver|naive_solver|done|]. rewrite <-!Nat.add_assoc, <-!length_app. exact Hl.
    - apply wp_ret. split_and!; [done|by split_and!|done|done| |done]. destruct n1, n2; auto. }
  intros r s1 Hr. destruct r as [[[n1' n2'] c']|].
  2: { destruct Hr as (-> & -> & ->). destruct c as [c|]; [|done]. apply wp_bind.
       eapply merge_push; [exact Hm|by instantiate (1 := None); instantiate (1 := None); instantiate (1 := None)|done|].
       intros l' Hm'. eapply IH; [exact Hm'|done|done|done| |done]. simpl in *. lia. }
  destruct Hr as (Hm1 & (Hd1 & _ & Hx1) & HR1' & HR2' & Hn & Hlen). clear Hm HR1 HR2.
  assert (Z.of_nat (size (s_nodes s1)) < 2 ^ 31)%Z as Hsz1 by (by rewrite <-size_data, Hd1, size_data).
  eapply merge_round_ok; [done|done|done|exact Hm1|done|done|done|done|].
  intros s2 n1'' n2'' c'' l'' R1'' R2'' N'' Hm2 H1 H2 Hd2 Hx2 Hl2. eapply IH; [exact Hm2|done|done| |lia|].
  - by rewrite <-size_data, Hd2, size_data.
  - intros s' l' N' Hm' Hd' Hx'. eapply HQ; [exact Hm'|congruence|congruence].
Qed.

(** Two MAX heaps with [c1] and [c2] pairs in one store. *)
Record two_heaps s b1 b2 (c1 c2 : Z) : Prop := {
  th_ne : b1 ≠ b2;
  th_old : (b1 < s_next s ∧ b2 < s_next s)%positive;
  th_heaps : ∃ R1 R2 hd1 hd2 ht, heap_at cb MAX s b1 R1 hd1 c1 ∧ heap_at cb MAX s b2 R2 hd2 c2 ∧
    forest P (cmp cb) MAX (s_nodes s) (R1 ++ R2) ht;
  th_size : (Z.of_nat (size (s_nodes s)) < 2 ^ 31)%Z;
  th_count : (0 ≤ c1 ∧ 0 ≤ c2 ∧ c1 + c2 < 2 ^ 31)%Z
}.

Lemma merge_ok s b1 b2 c1 c2 :
  two_heaps s b1 b2 c1 c2 →
  wp (binheap_merge b1 b2) (λ r s', ∃ b N ht hd1 hd2, r = Some b ∧ heap_at cb MAX s' b N None (c1 + c2) ∧
    heap_at cb MAX s' b1 [] hd1 c1 ∧ heap_at cb MAX s' b2 [] hd2 c2 ∧ forest P (cmp cb) MAX (s_nodes s') N ht ∧ data (s_nodes s') = data (s_nodes s)) s.
Proof using KO.
  intros [Hne [Hb1 Hb2] (R1 & R2 & hd1 & hd2 & ht & H1 & H2 & Hf) Hsz Hc]. unfold binheap_merge.
  apply wp_bind. eapply wp_hld; [exact H1|]. intros l1 _. apply wp_bind. eapply wp_hld; [exact H2|]. intros l2 _. cbn [bh_mode bh_count bh_cbs].
  rewrite bool_decide_eq_false_2 by naive_solver. apply wp_bind. eapply wp_count; [exact H1|]. intros s1 Hs1 H1'.
  apply (heap_at_frame MAX _ _ _ _ b2 _ _ _ Hs1) in H2; [|done].
  apply wp_bind. eapply wp_count; [exact H2|]. intros s2 Hs2 H2'.
  apply (heap_at_frame MAX _ _ _ _ b1 _ _ _ Hs2) in H1'; [|done]. destruct Hs1 as (Hn1 & Hx1 & _), Hs2 as (Hn2 & Hx2 & _).
  assert (merging s2 b1 b2 None None None list_create R1 R2 [] hd1 hd2 c1 c2) as Hm.
  { split; [done|done|apply list_is_create|]. exists ht. by rewrite Hn2, Hn1. }
  apply wp_bind. eapply merge_shift1; [done|exact Hm|]. intros s3 Hm3 Hn3 Hx3.
  apply wp_bind. eapply merge_shift2; [done|exact Hm3|]. intros s4 Hm4 Hn4 Hx4.
  pose proof (head_tail R1) as [Hl1 Ht1]. pose proof (head_tail R2) as [Hl2 Ht2].
  apply wp_bind. eapply merge_loop_ok; [done|exact Hm4|done|done|by rewrite Hn4, Hn3, Hn2, Hn1|simpl; lia|].
  intros s5 l N Hm5 Hd5 Hx5. destruct Hm5 as [Ha1 Ha2 Hl (ht5 & Hf5)].
  apply wp_bind. eapply wp_lift_store; [apply cint_ok; unfold in_i32; lia|]. apply wp_bind. unfold wp at 1, halloc. apply wp_ret.
  exists (s_next s5), N, ht5, hd1, hd2. assert (s_next s5 = s_next s) as Hx by congruence.
  split_and!; [done| | | |by rewrite !app_nil_r in Hf5|cbn [s_nodes]; by rewrite Hd5, Hn4, Hn3, Hn2, Hn1].
  - exists l. cbn [s_heaps]. by rewrite lookup_insert_eq.
  - destruct Ha1 as (l1' & Hl1' & ?). exists l1'. cbn [s_heaps]. rewrite lookup_insert_ne by lia. done.
  - destruct Ha2 as (l2' & Hl2' & ?). exists l2'. cbn [s_heaps]. rewrite lookup_insert_ne by lia. done.
Qed.

Lemma bag_step_perm m q q' r : q ≡ₚ q' → bag_step m q Top (Pair r) q → bag_step m q' Top (Pair r) q'.
Proof.
  intros Hq Hstep. inversion Hstep; simplify_eq; constructor; try by apply Permutation_nil_l in Hq.
  - by rewrite <-Hq.
  - intros kv Hkv. rewrite <-Hq in Hkv. eauto.
Qed.
Lemma merged_maximum s b N c ht :
  heap_at cb MAX s b N None c → forest P (cmp cb) MAX (s_nodes s) N ht →
  wp (binheap_maximum b) (λ r _, bag_step MAX (bag (s_nodes s)) Top (Pair r) (bag (s_nodes s))) s.
Proof using KO.
  intros Hat Hf. unfold binheap_maximum. apply wp_bind.
  eapply (get_top_none P cb MAX); [exact Hat|by eapply forest_known_roots|]. intros s2 r (Hn2 & _) _ [[-> ->]|(p & -> & Hp & Ht)].
  - apply wp_ret. constructor. apply bag_nil. by eapply forest_nil.
  - unfold report. destruct (forest_lookup _ _ _ _ _ _ p Hf Hp) as (n & Hn & _). apply wp_bind. eapply wp_nld; [by rewrite Hn2|].
    apply wp_ret. constructor; [apply elem_of_bag; eauto|]. eapply head_best; [|exact Hn]. split; [exact Hp|]. by eapply forest_top.
Qed.
Lemma heap_count m s b R hd c : heap_at cb m s b R hd c → (0 ≤ c < 2 ^ 31)%Z → binheap_count b s = Ret (c, s).
Proof. intros (l & Hl & _) Hc. unfold binheap_count, mbind, st_bind, hld. rewrite Hl. cbn. rewrite u64_id; [done|unfold in_u64; lia]. Qed.

(** C24: binheap_merge of two MAX heaps of any shape returns: a walk of the new
    heap finds exactly the pairs walks of the two heaps found before, each once,
    binheap_count is the sum of the two counts and binheap_maximum reports a
    greatest pair.  The two heaps are left without a tree, but the first, which
    binheap.h says will be empty, still reports its old number of pairs. *)
Theorem binheap_merge_correct s b1 b2 c1 c2 :
  two_heaps s b1 b2 c1 c2 →
  ∃ q1 q2 q b s', walks s b1 q1 ∧ walks s b2 q2 ∧
    binheap_merge b1 b2 s = Ret (Some b, s') ∧ walks s' b q ∧ q ≡ₚ q1 ++ q2 ∧
    binheap_count b s' = Ret ((c1 + c2)%Z, s') ∧
    (∃ r s'', binheap_maximum b s' = Ret (r, s'') ∧ bag_step MAX q Top (Pair r) q) ∧
    walks s' b1 [] ∧ walks s' b2 [] ∧ binheap_count b1 s' = Ret (c1, s').
Proof using KO.
  intros Hth. pose proof (merge_ok _ _ _ _ _ Hth) as (r & s' & Hrun & b & N & ht & hd1 & hd2 & -> & Hat & Hat1 & Hat2 & Hf & Hd)%wp_run.
  destruct Hth as [_ _ (R1 & R2 & hd1' & hd2' & ht0 & H1 & H2 & Hf0) Hsz Hc].
  assert (bag (s_nodes s') = bag (s_nodes s)) as Hbag by (unfold bag; by rewrite Hd).
  assert (Z.of_nat (size (s_nodes s')) < 2 ^ 31)%Z as Hsz' by (by rewrite <-size_data, Hd, size_data).
  pose proof (f_nodup _ _ _ _ _ _ Hf0) as (Hnd1 & _ & Hnd2)%NoDup_app.
  assert (walk_list (s_nodes s') N ≡ₚ bag (s_nodes s)) as HN by (rewrite <-Hbag; by eapply walk_list_bag).
  exists (walk_list (s_nodes s) R1), (walk_list (s_nodes s) R2), (walk_list (s_nodes s') N), b, s'. split_and!.
  - eapply heap_walks; [exact H1|exact Hf0|set_solver|done|done].
  - eapply heap_walks; [exact H2|exact Hf0|set_solver|done|done].
  - done.
  - eapply heap_walks; [exact Hat|exact Hf|done|done|apply Hf].
  - rewrite <-walk_list_app, HN. symmetry. by eapply walk_list_bag.
  - eapply heap_count; [exact Hat|lia].
  - destruct (wp_run _ _ _ (merged_maximum _ _ _ _ _ Hat Hf)) as (r & s'' & Hr & Hstep). exists r, s''. split; [done|].
    eapply bag_step_perm, Hstep. by rewrite Hbag.
  - eapply (heap_walks _ _ _ []); [exact Hat1|exact Hf|set_solver|done|constructor].
  - eapply (heap_walks _ _ _ []); [exact Hat2|exact Hf|set_solver|done|constructor].
  - eapply heap_count; [exact Hat1|lia].
Qed.
End Ends.

(** ** Heaps of 32-bit integers *)
#[export] Instance int32_key_order : KeyOrder int_key (cmp binheap_keys_callbacks_int32_t).
Proof. exact int_key_order. Qed.
Lemma int_bytes_key x : small_int x → int_key (int_bytes x).
Proof. by exists x. Qed.

Definition no_heaps : store Z := mk_store ∅ ∅ 1.
(** A heap of the given numbers, each its own value. *)
Definition heap_of (mode : binheap_mode) (l : list Z) : st (store Z) loc :=
  b ← binheap_create (Some binheap_keys_callbacks_int32_t) mode;
  _ ← run_ops mode b ((λ z, Insert (int_bytes z) z) <$> l);
  mret b.
Definition result {A} (m : st (store Z) A) : option A := match m no_heaps with Ret (a, _) => Some a | Fault => None end.

(** What a heap does not do.  binheap_minimum of a MAX heap looks at the
    roots and below the least of them only; binheap_delete does not find a key
    below another root than the one it picks; binheap_decrease_maximum leaves
    the key at the head; a walk that removes what it visits stops early; in a
    heap made by binheap_merge the next insertion becomes the maximum, and after
    a deletion the list of trees holds a node that has been freed. *)
Theorem binheap_limits :
  result (b ← heap_of MAX [10; 1; 5]%Z; binheap_minimum b) = Some (0%Z, Some (int_bytes 5, 5%Z)) ∧
  result (b ← heap_of MAX [10; 1; 5]%Z; binheap_delete b (int_bytes 1)) = Some ((-1)%Z, None) ∧
  result (b ← heap_of MAX [10; 1; 5]%Z; _ ← binheap_decrease_maximum b 8; binheap_maximum b)
    = Some (0%Z, Some (int_bytes 2, 10%Z)) ∧
  result (b ← heap_of MAX [1; 2; 3; 4; 5]%Z; binheap_walk (λ d _ v, (d ++ [v], (-1)%Z)) b []) = Some (1%Z, [5%Z]) ∧
  result (b1 ← heap_of MAX [10]%Z; b2 ← heap_of MAX [20]%Z; r ← binheap_merge b1 b2; b ← nptr r;
          _ ← binheap_insert b (int_bytes 3) 3%Z; binheap_maximum b) = Some (0%Z, Some (int_bytes 3, 3%Z)) ∧
  result (b1 ← heap_of MAX [10]%Z; b2 ← heap_of MAX [20]%Z; r ← binheap_merge b1 b2; b ← nptr r;
          _ ← binheap_delete_maximum b; binheap_maximum b) = None.
Proof. split_and!; vm_compute; reflexivity. Qed.

(** The default callbacks do not step keys: if the last byte of the key does
    not overflow, incr_key_default and decr_key_default return the key as it is,
    since the byte they compute is never stored. *)
Theorem default_step_keeps k x n :
  last k = Some x → (0 ≤ n)%Z →
  ((0 ≤ x ∧ x + n < 256)%Z → incr_key_default k n = Ret k) ∧ ((0 ≤ x - n ∧ x < 256)%Z → decr_key_default k n = Ret k).
Proof.
  intros Hx Hn. rewrite last_lookup in Hx. replace (pred (length k)) with (length k - 1) in Hx by lia.
  assert (k ≠ []) as Hne by (by intros ->).
  assert (∀ past step next lead, past (step x) x = false → step_key past step next lead k = Ret k) as Hgo.
  { intros past step next lead Hp. unfold step_key. rewrite bool_decide_eq_false_2 by done. rewrite Hx. cbn [deref mbind outcome_bind].
    destruct (length k - 1) as [|off] eqn:Hoff; cbn [carry_loop]; rewrite Hx; cbn [deref mbind outcome_bind].
    - rewrite Hx. cbn [deref mbind outcome_bind]. by rewrite Hp, andb_false_r.
    - rewrite Hp. cbn. destruct k; [done|]. done. }
  split; intros Hb; apply Hgo; apply bool_decide_eq_false_2; unfold u8; rewrite Z.mod_small; lia.
Qed.

(** ** Witnesses *)
Definition ops5 : list (heap_op (V := Z)) :=
  [Insert (int_bytes 5) 50; Insert (int_bytes 9) 90; Insert (int_bytes 7) 70; Top; TopOther; Pop; Delete (int_bytes 5); PopOther; Pop; Count]%Z.
Lemma ops5_ok : Forall (op_ok int_key) ops5.
Proof. repeat constructor; apply int_bytes_key; unfold small_int; lia. Qed.
Lemma binheap_refines_bag_witness :
  ∃ rs s', (b ← binheap_create (Some binheap_keys_callbacks_int32_t) MAX; run_ops MAX b ops5) no_heaps = Ret (rs, s') ∧
    bag_run binheap_keys_callbacks_int32_t MAX [] ops5 rs (bag (s_nodes s')).
Proof. apply (binheap_refines_bag int_key binheap_keys_callbacks_int32_t); [reflexivity|apply ops5_ok|vm_compute; reflexivity]. Defined.

Lemma heap_of_ok m l :
  Forall small_int l → (Z.of_nat (length l) < 2 ^ 31)%Z →
  wp (heap_of m l) (λ b s, is_heap int_key binheap_keys_callbacks_int32_t m s b) no_heaps.
Proof.
  intros Hl Hlen. unfold heap_of. apply wp_bind. eapply wp_mono; [by apply create_is_heap|]. intros b s [Hh Hn].
  apply wp_bind. eapply wp_mono; [eapply (run_ops_ok int_key binheap_keys_callbacks_int32_t); [exact Hh| |]|].
  - apply Forall_fmap. eapply Forall_impl; [exact Hl|]. intros z Hz. by apply int_bytes_key.
  - assert (bag (s_nodes s) = []) as -> by (by apply bag_nil). by rewrite length_fmap.
  - intros rs s' [_ Hh']. by apply wp_ret.
Qed.
Definition heap3 : store Z := match heap_of MAX [1; 2; 3]%Z no_heaps with Ret (_, s) => s | Fault => no_heaps end.
Lemma heap3_is : is_heap int_key binheap_keys_callbacks_int32_t MAX heap3 1.
Proof.
  destruct (wp_run _ _ _ (heap_of_ok MAX [1; 2; 3]%Z ltac:(repeat constructor; unfold small_int; lia) ltac:(vm_compute; reflexivity)))
    as (b & s & Hrun & Hh). unfold heap3. rewrite Hrun. assert (b = 1%positive) as <-; [|done].
  apply (f_equal (λ o, match o with Ret (b, _) => b | Fault => 1%positive end)) in Hrun. vm_compute in Hrun. by rewrite <-Hrun.
Qed.
Lemma binheap_walk_visits_witness :
  ∃ l s', binheap_walk (λ d _ v, ((d + v)%Z, 1%Z)) 1 0%Z heap3 = Ret ((Z.of_nat (length l), visit (λ d _ v, ((d + v)%Z, 1%Z)) 0%Z l), s') ∧
    l ≡ₚ bag (s_nodes heap3) ∧ s_nodes s' = s_nodes heap3 ∧ is_heap int_key binheap_keys_callbacks_int32_t MAX s' 1.
Proof. apply (binheap_walk_visits int_key binheap_keys_callbacks_int32_t); [apply heap3_is|intros d kv _; reflexivity]. Defined.

Definition one_tree (p : loc) : linked_list loc :=
  match list_push_value (Some p) list_create with Ret (_, l) => l | Fault => list_create end.
Definition two : store Z :=
  mk_store (<[2%positive := mk_bnode (int_bytes 20) 20%Z None [] 4]> (<[1%positive := mk_bnode (int_bytes 10) 10%Z None [] 3]> ∅))
    (<[3%positive := mk_binheap (one_tree 1) (Some 1%positive) binheap_keys_callbacks_int32_t 1 MAX]>
      (<[4%positive := mk_binheap (one_tree 2) (Some 2%positive) binheap_keys_callbacks_int32_t 1 MAX]> ∅)) 5.
Lemma two_heaps_is : two_heaps int_key binheap_keys_callbacks_int32_t two 3 4 1 1.
Proof.
  assert (∀ p, list_is (one_tree p) (Some <$> [p])) as Hl.
  { intros p. destruct (list_push_value_is list_create [] (Some p)) as (l & Hrun & Hl); [apply list_is_create|done|].
    unfold one_tree. by rewrite Hrun. }
  split; [done|done| |vm_compute; reflexivity|lia].
  exists [1%positive], [2%positive], (Some 1%positive), (Some 2%positive), (λ _, 0).
  split_and!; [by exists (one_tree 1)|by exists (one_tree 2)|].
  rewrite Permutation_app_comm. apply forest_add; [apply forest_add; [apply forest_empty|..]|..];
    try done; apply int_bytes_key; unfold small_int; lia.
Qed.
Lemma binheap_merge_correct_witness :
  ∃ q1 q2 q b s', walks two 3 q1 ∧ walks two 4 q2 ∧
    binheap_merge 3 4 two = Ret (Some b, s') ∧ walks s' b q ∧ q ≡ₚ q1 ++ q2 ∧
    binheap_count b s' = Ret ((1 + 1)%Z, s') ∧
    (∃ r s'', binheap_maximum b s' = Ret (r, s'') ∧ bag_step binheap_keys_callbacks_int32_t MAX q Top (Pair r) q) ∧
    walks s' 3 [] ∧ walks s' 4 [] ∧ binheap_count 3 s' = Ret (1%Z, s').
Proof. apply (binheap_merge_correct int_key binheap_keys_callbacks_int32_t two 3 4 1 1 two_heaps_is). Defined.
Lemma default_step_keeps_witness : incr_key_default [7; 5]%Z 3 = Ret [7; 5]%Z ∧ decr_key_default [7; 5]%Z 3 = Ret [7; 5]%Z.
Proof.
  destruct (default_step_keeps [7; 5]%Z 5 3 eq_refl ltac:(lia)) as [Hi Hd]. split; [apply Hi; lia|apply Hd; lia].
Defined.
