(* ===== verification/PQueue.v ===== *)
(** * The priority queue (src/index/libhl/pqueue.c)

    A binomial heap whose values are pointers to items, the priority of an item
    its key; items live in a store of their own.  A user's value is an address,
    like a pointer to an item: pqueue_remove compares the two.  [freed] are the
    values handed to the free callback, if there is one.  The mutex is left
    out. *)
From S2P Require Import Prelude Heap LinkedList LinkedListRep LinkedListSpec Comparators BinHeap BinHeapRep BinHeapOps BinHeapTheorems.

Inductive pqueue_mode := PQUEUE_MODE_HIGHEST | PQUEUE_MODE_LOWEST.
#[export] Instance pqueue_mode_eq_dec : EqDecision pqueue_mode.
Proof. solve_decision. Defined.
Record pqueue_item := mk_item_ { it_value : loc; it_prio : Z }.
Record pqueue := mk_pqueue {
  pq_heap : loc;
  pq_max_size : Z;
  pq_free_value_cb : bool;
  pq_mode : pqueue_mode
}.
Record pstate := mk_pstate {
  p_store : store loc;
  p_items : gmap loc pqueue_item;
  p_next : loc;
  p_freed : list loc
}.

(** ** Memory *)
Definition on_heap {A} (m : st (store loc) A) : st pstate A :=
  λ s, '(a, h) ← m (p_store s); Ret (a, mk_pstate h (p_items s) (p_next s) (p_freed s)).
Definition item_alloc (i : pqueue_item) : st pstate loc :=
  λ s, Ret (p_next s, mk_pstate (p_store s) (<[p_next s := i]> (p_items s)) (Pos.succ (p_next s)) (p_freed s)).
Definition item_ld (p : loc) : st pstate pqueue_item :=
  λ s, match p_items s !! p with Some i => Ret (i, s) | None => Fault end.
Definition item_free (p : loc) : st pstate unit :=
  λ s, match p_items s !! p with
       | Some _ => Ret (tt, mk_pstate (p_store s) (delete p (p_items s)) (p_next s) (p_freed s))
       | None => Fault
       end.
Definition free_value (pq : pqueue) (v : loc) : st pstate unit :=
  if pq_free_value_cb pq
  then st_modify (λ s, mk_pstate (p_store s) (p_items s) (p_next s) (p_freed s ++ [v]))
  else mret tt.

(** ** Operations *)
Definition heap_mode (mode : pqueue_mode) : binheap_mode :=
  match mode with PQUEUE_MODE_HIGHEST => BINHEAP_MODE_MAX | PQUEUE_MODE_LOWEST => BINHEAP_MODE_MIN end.
Definition pqueue_create (mode : pqueue_mode) (size : Z) (free_value_cb : bool) : st pstate pqueue :=
  h ← on_heap (binheap_create (Some binheap_keys_callbacks_uint64_t) (heap_mode mode));
  mret (mk_pqueue h size free_value_cb mode).

Definition delete_low (pq : pqueue) : st pstate (Z * option loc) :=
  on_heap (if bool_decide (pq_mode pq = PQUEUE_MODE_HIGHEST)
           then binheap_delete_minimum (pq_heap pq) else binheap_delete_maximum (pq_heap pq)).
Definition delete_high (pq : pqueue) : st pstate (Z * option loc) :=
  on_heap (if bool_decide (pq_mode pq = PQUEUE_MODE_HIGHEST)
           then binheap_delete_maximum (pq_heap pq) else binheap_delete_minimum (pq_heap pq)).

(** [n] is num_items less the items deleted so far. *)
Fixpoint pqueue_drop_items (pq : pqueue) (n : nat) : st pstate unit :=
  c ← on_heap (binheap_count (pq_heap pq));
  match n with
  | O => mret tt
  | S n =>
      if bool_decide (c = 0%Z) then mret tt
      else
        r ← delete_low pq;
        _ ← (match r.2 with
             | Some item => i ← item_ld item; _ ← free_value pq (it_value i); item_free item
             | None => mret tt
             end);
        pqueue_drop_items pq n
  end.

Definition pqueue_destroy (pq : pqueue) : st pstate unit :=
  c ← on_heap (binheap_count (pq_heap pq));
  _ ← pqueue_drop_items pq (Z.to_nat c);
  on_heap (binheap_destroy (pq_heap pq)).

Definition pqueue_insert (pq : pqueue) (prio : Z) (value : loc) : st pstate Z :=
  item ← item_alloc (mk_item_ value prio);
  rc ← on_heap (binheap_insert (pq_heap pq) (le_split 8 prio) item);
  c ← on_heap (binheap_count (pq_heap pq));
  _ ← (if bool_decide (c > pq_max_size pq)%Z
       then pqueue_drop_items pq (Z.to_nat (u64 (c - pq_max_size pq))) else mret tt);
  mret rc.

(** [value]: whether the caller passes a place for the value. *)
Definition pulled (pq : pqueue) (value : bool) (r : Z * option loc) : st pstate (Z * option (option loc * Z)) :=
  if bool_decide (r.1 = 0%Z) then
    match r.2 with
    | Some item =>
        i ← item_ld item;
        _ ← (if value then mret tt else free_value pq (it_value i));
        _ ← item_free item;
        mret (r.1, Some (if value then Some (it_value i) else None, it_prio i))
    | None => st_fault
    end
  else mret (r.1, None).
Definition pqueue_pull_highest (pq : pqueue) (value : bool) : st pstate (Z * option (option loc * Z)) :=
  r ← delete_high pq; pulled pq value r.
Definition pqueue_pull_lowest (pq : pqueue) (value : bool) : st pstate (Z * option (option loc * Z)) :=
  r ← delete_low pq; pulled pq value r.

(** The callback gets the value of the heap, the pointer to the item. *)
Definition pqueue_walk_helper {D} (cb : D → Z → loc → D * Z) (priv : D) (key : list Z) (value : loc) : D * Z :=
  cb priv (le_combine (take 8 key)) value.
Definition pqueue_walk {D} (pq : pqueue) (cb : D → Z → loc → D * Z) (priv : D) : st pstate (Z * D) :=
  on_heap (binheap_walk (pqueue_walk_helper cb) (pq_heap pq) priv).

(** arg->found is the private data; the helper does not set it. *)
Definition pqueue_remove_helper (arg_value : loc) (found : bool) (_ : Z) (value : loc) : bool * Z :=
  (found, if bool_decide (value = arg_value) then -2 else 1)%Z.
Definition pqueue_remove (pq : pqueue) (value : loc) : st pstate Z :=
  r ← pqueue_walk pq (pqueue_remove_helper value) false;
  mret (if r.2 : bool then 0 else -1)%Z.
Definition pqueue_count (pq : pqueue) : st pstate Z := on_heap (binheap_count (pq_heap pq)).

(** ** Priorities as keys *)
Notation ucb := binheap_keys_callbacks_uint64_t.
(** Priorities whose differences fit an int. *)
Definition small_prio (x : Z) : Prop := (0 ≤ x < 2 ^ 31)%Z.
Definition prio_key (k : list Z) : Prop := ∃ x, small_prio x ∧ k = le_split 8 x.
Lemma cmp_prio x y : small_prio x → small_prio y → cmp ucb (le_split 8 x) (le_split 8 y) = (x - y)%Z.
Proof.
  unfold small_prio. intros Hx Hy. cbn [cmp ucb BINHEAP_KEY_CALLBACKS_TYPE binheap_keys_callbacks_uint64_t].
  unfold libhl_cmp_keys_uint64, LIBHL_CMP_KEYS_TYPE. rewrite !length_le_split, !bool_decide_eq_false_2 by lia. cbn [orb].
  rewrite !take_ge, !le_combine_split by (by rewrite length_le_split). change (8 * Z.of_nat 8)%Z with 64%Z.
  rewrite !Z.mod_small by lia. apply i32_id. unfold in_i32. lia.
Qed.
#[export] Instance prio_key_order : KeyOrder prio_key (cmp ucb).
Proof.
  split.
  - intros a (x & Hx & ->). rewrite cmp_prio by done. lia.
  - intros a b (x & Hx & ->) (y & Hy & ->). rewrite cmp_prio by done. intros Hxy. f_equal. lia.
  - intros a b (x & Hx & ->) (y & Hy & ->). rewrite !cmp_prio by done. lia.
  - intros a b c (x & Hx & ->) (y & Hy & ->) (z & Hz & ->). rewrite !cmp_prio by done. lia.
Qed.
(** [a] comes before [b] in a queue of the mode. *)
Definition before (mode : pqueue_mode) (a b : Z) : Prop :=
  match mode with PQUEUE_MODE_HIGHEST => (b ≤ a)%Z | PQUEUE_MODE_LOWEST => (a ≤ b)%Z end.
Lemma prec_before mode a b :
  small_prio a → small_prio b → prec (cmp ucb) (heap_mode mode) (le_split 8 a) (le_split 8 b) ↔ before mode a b.
Proof.
  intros Ha Hb. unfold prec, before. destruct mode; cbn [heap_mode]; rewrite bool_decide_spec, cmp_prio by done; lia.
Qed.

(** ** The entries of a queue *)
Notation entry := (loc * (Z * loc))%type.
Implicit Types (l : list entry) (s : pstate) (pq : pqueue).
Definition item_of (x : entry) : loc * pqueue_item := (x.1, mk_item_ x.2.2 x.2.1).
Definition pair_of (x : entry) : list Z * loc := (le_split 8 x.2.1, x.1).

(** The heap holds the entries [l]; the items are those of [l]. *)
Definition heap_part pq s l : Prop :=
  is_heap prio_key ucb (heap_mode (pq_mode pq)) (p_store s) (pq_heap pq) ∧ bag (s_nodes (p_store s)) ≡ₚ pair_of <$> l.
Record items_part s l : Prop := {
  ip_nodup : NoDup l.*1;
  ip_items : p_items s = list_to_map (item_of <$> l);
  ip_prio : Forall (λ x, small_prio x.1) l.*2;
  ip_fresh : Forall (λ p, (p < p_next s)%positive) l.*1
}.
Definition holds pq s l : Prop := heap_part pq s l ∧ items_part s l.

Lemma item_of_fst l : (item_of <$> l).*1 = l.*1.
Proof. rewrite <-list_fmap_compose. by apply list_fmap_ext. Qed.
Lemma items_perm s l l' : l ≡ₚ l' → items_part s l → items_part s l'.
Proof.
  intros Hp [H1 H2 H3 H4]. split; [by rewrite <-Hp| |by rewrite <-Hp|by rewrite <-Hp].
  rewrite H2. apply list_to_map_proper; [by rewrite item_of_fst|by rewrite Hp].
Qed.

(** An entry leaves: its item is found and freed. *)
Lemma items_take s x l :
  items_part s (x :: l) → p_items s !! x.1 = Some (mk_item_ x.2.2 x.2.1) ∧
  items_part (mk_pstate (p_store s) (delete x.1 (p_items s)) (p_next s) (p_freed s)) l.
Proof.
  intros [H1 H2 H3 H4]. cbn in H1, H2, H3, H4. apply NoDup_cons in H1 as [Hni Hnd]. apply Forall_cons in H3 as [_ H3]. apply Forall_cons in H4 as [_ H4].
  rewrite H2. split; [apply lookup_insert_eq|]. split; [done| |done|done]. cbn [p_items].
  apply delete_insert_id. apply not_elem_of_list_to_map. by rewrite item_of_fst.
Qed.
Lemma items_add s p v l :
  items_part s l → small_prio p →
  items_part (mk_pstate (p_store s) (<[p_next s := mk_item_ v p]> (p_items s)) (Pos.succ (p_next s)) (p_freed s)) ((p_next s, (p, v)) :: l).
Proof.
  intros [H1 H2 H3 H4] Hp. split; cbn.
  - constructor; [|done]. intros Hin. rewrite Forall_forall in H4. apply H4 in Hin. lia.
  - by rewrite H2.
  - by constructor.
  - constructor; [lia|]. eapply Forall_impl; [exact H4|]. simpl. intros. lia.
Qed.

Lemma wp_on_heap {A} (m : st (store loc) A) s (Q : A → pstate → Prop) :
  wp m (λ a h, Q a (mk_pstate h (p_items s) (p_next s) (p_freed s))) (p_store s) → wp (on_heap m) Q s.
Proof. unfold wp, on_heap. by destruct (m (p_store s)) as [[a h]|]. Qed.
Lemma wp_result {S A B} (m : st S A) (f : A → B) (Q : B → S → Prop) (t : S) :
  wp (x ← m; mret (f x)) Q t → wp m (λ a, Q (f a)) t.
Proof. unfold wp, mbind, st_bind. by destruct (m t) as [[a t']|]. Qed.

(** A pair taken from the bag of a heap is that of an entry. *)
Lemma entry_taken k it l q :
  pair_of <$> l ≡ₚ (k, it) :: q → ∃ x l', l ≡ₚ x :: l' ∧ k = le_split 8 x.2.1 ∧ it = x.1 ∧ q ≡ₚ pair_of <$> l'.
Proof.
  intros Hp. assert ((k, it) ∈ pair_of <$> l) as (x & Hx & Hin)%list_elem_of_fmap by (rewrite Hp; left).
  injection Hx as -> ->. apply elem_of_Permutation in Hin as [l' Hl']. exists x, l'. split_and!; [done|done|done|].
  rewrite Hl' in Hp. cbn in Hp. by apply Permutation_cons_inv in Hp.
Qed.
Lemma best_before pq s l q p x :
  items_part s l → q ≡ₚ pair_of <$> l → small_prio p → best ucb (heap_mode (pq_mode pq)) q (le_split 8 p) → x ∈ l → before (pq_mode pq) p x.2.1.
Proof.
  intros [_ _ Hpr _] Hq Hp Hb Hx. apply prec_before; [done| |].
  - rewrite Forall_forall in Hpr. apply Hpr. by apply list_elem_of_fmap_2.
  - apply (Hb (pair_of x)). rewrite Hq. by apply list_elem_of_fmap_2.
Qed.
Lemma entry_prio s l x : items_part s l → x ∈ l → small_prio x.2.1.
Proof. intros [_ _ Hpr _] Hx. rewrite Forall_forall in Hpr. apply Hpr. by apply list_elem_of_fmap_2. Qed.

(** What a deletion from the heap does to the entries: nothing is there, or the
    entry [x] leaves the heap and its item stays. *)
Definition left_heap pq s l (P : entry → list entry → Prop) (r : Z * option loc) s' : Prop :=
  p_freed s' = p_freed s ∧ items_part s' l ∧
  ((l = [] ∧ r = ((-1)%Z, None) ∧ heap_part pq s' []) ∨
   (∃ x l', l ≡ₚ x :: l' ∧ r = (0%Z, Some x.1) ∧ heap_part pq s' l' ∧ P x l')).
Lemma delete_high_ok pq s l :
  holds pq s l → wp (delete_high pq) (left_heap pq s l (λ x _, ∀ y, y ∈ l → before (pq_mode pq) x.2.1 y.2.1)) s.
Proof.
  intros [[Hh Hb] Hi]. unfold delete_high. apply wp_on_heap.
  assert ((if bool_decide (pq_mode pq = PQUEUE_MODE_HIGHEST) then binheap_delete_maximum (pq_heap pq) else binheap_delete_minimum (pq_heap pq))
    = pop (V := loc) (heap_mode (pq_mode pq)) (pq_heap pq)) as -> by (by destruct (pq_mode pq)).
  eapply wp_mono; [apply (wp_result _ Value), (pop_refines prio_key ucb), Hh|]. cbn beta. intros r h (q & Hs & Hq & Hh' & _).
  split; [done|]. split; [by destruct Hi|]. inv Hs.
  - left. match goal with H : bag _ = [] |- _ => rewrite H in Hb, Hq end. apply Permutation_nil_l, eq_sym, fmap_nil_inv in Hb as ->.
    split_and!; [done|done|]. split; [done|]. cbn. by apply Permutation_nil_l in Hq as <-.
  - right. match goal with H : bag _ ≡ₚ _ :: _ |- _ => rewrite Hb in H; pose proof (entry_taken _ _ _ _ H) as (x & l' & Hl & -> & -> & Hq') end.
    exists x, l'. split_and!; [done|done|split; [done|by rewrite <-Hq]|]. intros y Hy.
    eapply (best_before pq s l); [done|exact Hb| |done|done]. eapply entry_prio; [done|]. rewrite Hl. left.
Qed.
Lemma delete_low_ok pq s l :
  holds pq s l → wp (delete_low pq) (left_heap pq s l (λ _ l', l' = [] ∨ ∃ y, y ∈ l' ∧ ∀ z, z ∈ l → before (pq_mode pq) y.2.1 z.2.1)) s.
Proof.
  intros [[Hh Hb] Hi]. unfold delete_low. apply wp_on_heap.
  assert ((if bool_decide (pq_mode pq = PQUEUE_MODE_HIGHEST) then binheap_delete_minimum (pq_heap pq) else binheap_delete_maximum (pq_heap pq))
    = pop (V := loc) (other (heap_mode (pq_mode pq))) (pq_heap pq)) as -> by (by destruct (pq_mode pq)).
  eapply wp_mono; [apply (wp_result _ Value), (pop_other_refines prio_key ucb), Hh|]. cbn beta. intros r h (q & Hs & Hq & Hh' & _).
  split; [done|]. split; [by destruct Hi|]. inv Hs.
  - left. match goal with H : bag _ = [] |- _ => rewrite H in Hb, Hq end. apply Permutation_nil_l, eq_sym, fmap_nil_inv in Hb as ->.
    split_and!; [done|done|]. split; [done|]. cbn. by apply Permutation_nil_l in Hq as <-.
  - right. match goal with H : bag _ ≡ₚ _ :: _ |- _ => rewrite Hb in H; pose proof (entry_taken _ _ _ _ H) as (x & l' & Hl & -> & -> & Hq') end.
    exists x, l'. split_and!; [done|done|split; [done|by rewrite <-Hq]|].
    match goal with H : _ = [] ∨ _ |- _ => destruct H as [->|(kv & Hkv & Hbest)] end.
    + left. symmetry in Hq'. by apply Permutation_nil_r, fmap_nil_inv in Hq'.
    + right. rewrite Hq' in Hkv. apply list_elem_of_fmap in Hkv as (y & -> & Hy). exists y. split; [done|].
      intros z Hz. eapply (best_before pq s l); [done|exact Hb| |exact Hbest|done]. eapply entry_prio; [done|]. rewrite Hl. by right.
Qed.

(** The item of an entry that has left the heap is read and freed. *)
Lemma item_ld_ok s x l (Q : pqueue_item → pstate → Prop) :
  items_part s (x :: l) → Q (mk_item_ x.2.2 x.2.1) s → wp (item_ld x.1) Q s.
Proof. intros Hi HQ. destruct (items_take _ _ _ Hi) as [Hx _]. unfold wp, item_ld. by rewrite Hx. Qed.
Lemma item_free_ok pq s x l (Q : unit → pstate → Prop) :
  items_part s (x :: l) → heap_part pq s l → (∀ s', holds pq s' l → p_freed s' = p_freed s → Q tt s') → wp (item_free x.1) Q s.
Proof.
  intros Hi Hh HQ. destruct (items_take _ _ _ Hi) as [Hx Hi']. unfold wp, item_free. rewrite Hx. by apply HQ.
Qed.
Definition freed_by pq (v : loc) : list loc := if pq_free_value_cb pq then [v] else [].
Lemma free_value_ok pq s v l l' (Q : unit → pstate → Prop) :
  items_part s l → heap_part pq s l' → (∀ s', items_part s' l → heap_part pq s' l' → p_freed s' = p_freed s ++ freed_by pq v → Q tt s') →
  wp (free_value pq v) Q s.
Proof.
  intros [H1 H2 H3 H4] Hh HQ. unfold free_value, freed_by in *. destruct (pq_free_value_cb pq); [|apply wp_ret, HQ; [done|done|by rewrite app_nil_r]].
  apply wp_modify, HQ; [by split|done|done].
Qed.

Lemma count_ok pq s l (Q : Z → pstate → Prop) :
  holds pq s l → Q (Z.of_nat (length l)) s → wp (on_heap (binheap_count (pq_heap pq))) Q s.
Proof.
  intros [[Hh Hb] Hi] HQ. apply wp_on_heap. destruct (Hh) as (roots & hd & ht & Hrep). destruct (Hrep) as [Hat _ _ _ _ Hsz].
  apply wp_bind. eapply wp_hld; [exact Hat|]. intros l0 _. apply wp_ret. cbn [bh_count]. rewrite u64_id by (unfold in_u64; lia).
  rewrite <-length_bag, Hb, length_fmap. by destruct s.
Qed.

(** Dropping one item of a queue that is not empty. *)
Lemma drop_one_ok pq s l (Q : unit → pstate → Prop) :
  holds pq s l → l ≠ [] →
  (∀ s' x l', holds pq s' l' → l ≡ₚ x :: l' → l' = [] ∨ (∃ y, y ∈ l' ∧ ∀ z, z ∈ l → before (pq_mode pq) y.2.1 z.2.1) →
    p_freed s' = p_freed s ++ freed_by pq x.2.2 → Q tt s') →
  wp (pqueue_drop_items pq 1) Q s.
Proof.
  intros Hh Hne HQ. cbn [pqueue_drop_items]. apply wp_bind. eapply count_ok; [exact Hh|].
  rewrite bool_decide_eq_false_2 by (destruct l; [done|simpl; lia]). apply wp_bind.
  eapply wp_mono; [by apply delete_low_ok|]. intros r s1 (Hf1 & Hi1 & [(-> & _)|(x & l' & Hl & -> & Hh1 & Hlow)]); [done|]. cbn [snd].
  apply (items_perm _ _ _ Hl) in Hi1. apply wp_bind, wp_bind. eapply item_ld_ok; [exact Hi1|]. cbn [it_value]. apply wp_bind.
  eapply free_value_ok; [exact Hi1|exact Hh1|]. intros s2 Hi2 Hh2 Hf2. eapply item_free_ok; [exact Hi2|exact Hh2|]. intros s3 Hh3 Hf3.
  apply wp_bind. eapply count_ok; [exact Hh3|]. apply wp_ret. eapply HQ; [exact Hh3|done|done|congruence].
Qed.

(** ** Scripts against a bounded bag of priorities and values *)
Inductive pq_op := PInsert (prio : Z) (v : loc) | PHighest (value : bool) | PLowest (value : bool) | PCount.
Inductive pq_res := PCode (rc : Z) | PPulled (r : Z * option (option loc * Z)).
Definition prun_op pq (o : pq_op) : st pstate pq_res :=
  match o with
  | PInsert p v => r ← pqueue_insert pq p v; mret (PCode r)
  | PHighest value => r ← pqueue_pull_highest pq value; mret (PPulled r)
  | PLowest value => r ← pqueue_pull_lowest pq value; mret (PPulled r)
  | PCount => r ← pqueue_count pq; mret (PCode r)
  end.
Fixpoint prun_ops pq (os : list pq_op) : st pstate (list pq_res) :=
  match os with [] => mret [] | o :: os => r ← prun_op pq o; rs ← prun_ops pq os; mret (r :: rs) end.

(** [first mode q p]: no priority in [q] comes before [p]. *)
Definition first mode (q : list (Z * loc)) (p : Z) : Prop := ∀ x, x ∈ q → before mode p x.1.
Definition keeps_first mode (q q' : list (Z * loc)) : Prop := q' = [] ∨ ∃ x, x ∈ q' ∧ first mode q x.1.
Definition given (pq : pqueue) (value : bool) (v : loc) : list loc := if value then [] else freed_by pq v.
(** One operation on a queue [q]: its result, the queue afterwards, the values
    freed. *)
Inductive pq_step pq (q : list (Z * loc)) : pq_op → pq_res → list (Z * loc) → list loc → Prop :=
| pq_fits p v : (Z.of_nat (length q) < pq_max_size pq)%Z → pq_step pq q (PInsert p v) (PCode 0) ((p, v) :: q) []
| pq_full p v x q' : Z.of_nat (length q) = pq_max_size pq → (p, v) :: q ≡ₚ x :: q' → keeps_first (pq_mode pq) ((p, v) :: q) q' →
    pq_step pq q (PInsert p v) (PCode 0) q' (freed_by pq x.2)
| pq_high_empty value : q = [] → pq_step pq q (PHighest value) (PPulled (-1, None)%Z) q []
| pq_high value p v q' : q ≡ₚ (p, v) :: q' → first (pq_mode pq) q p →
    pq_step pq q (PHighest value) (PPulled (0, Some (if value then Some v else None, p))%Z) q' (given pq value v)
| pq_low_empty value : q = [] → pq_step pq q (PLowest value) (PPulled (-1, None)%Z) q []
| pq_low value p v q' : q ≡ₚ (p, v) :: q' → keeps_first (pq_mode pq) q q' →
    pq_step pq q (PLowest value) (PPulled (0, Some (if value then Some v else None, p))%Z) q' (given pq value v)
| pq_count : pq_step pq q PCount (PCode (Z.of_nat (length q))) q [].
Inductive pq_run pq : list (Z * loc) → list pq_op → list pq_res → list (Z * loc) → list loc → Prop :=
| pq_run_nil q : pq_run pq q [] [] q []
| pq_run_cons q o r q1 f1 os rs q2 f2 :
    pq_step pq q o r q1 f1 → pq_run pq q1 os rs q2 f2 → pq_run pq q (o :: os) (r :: rs) q2 (f1 ++ f2).

Definition pop_ok (o : pq_op) : Prop := match o with PInsert p _ => small_prio p | _ => True end.
(** What one operation leaves; the entries are [l] before. *)
Definition pq_after pq s l o r s' : Prop :=
  ∃ l' f, pq_step pq l.*2 o r l'.*2 f ∧ holds pq s' l' ∧ p_freed s' = p_freed s ++ f ∧ (Z.of_nat (length l') ≤ pq_max_size pq)%Z.

Lemma first_entries mode l p : (∀ y, y ∈ l → before mode p y.2.1) → first mode l.*2 p.
Proof. intros H x (y & -> & Hy)%list_elem_of_fmap. by apply H. Qed.
Lemma keeps_first_entries mode l l' :
  l' = [] ∨ (∃ y, y ∈ l' ∧ ∀ z, z ∈ l → before mode y.2.1 z.2.1) → keeps_first mode l.*2 l'.*2.
Proof.
  intros [->|(y & Hy & Hb)]; [by left|]. right. exists y.2. split; [by apply list_elem_of_fmap_2|by apply first_entries].
Qed.

Lemma insert_after pq s l p v :
  holds pq s l → (0 ≤ pq_max_size pq < 2 ^ 31 - 1)%Z → (Z.of_nat (length l) ≤ pq_max_size pq)%Z → small_prio p →
  wp (prun_op pq (PInsert p v)) (pq_after pq s l (PInsert p v)) s.
Proof.
  intros [[Hh Hb] Hi] HM Hlen Hp. apply wp_bind. unfold pqueue_insert. apply wp_bind.
  unfold wp at 1, item_alloc. pose proof (items_add s p v l Hi Hp) as Hi1. set (x := (p_next s, (p, v)) : entry) in *.
  set (s1 := mk_pstate _ _ _ _) in *. assert (p_freed s1 = p_freed s) as Hf1 by done.
  assert (heap_part pq s1 l) as [Hh1 Hb1] by done. change (p_next s) with x.1. clearbody s1. clear Hi Hb Hh.
  apply wp_bind, wp_on_heap. assert (Hsz : (Z.of_nat (size (s_nodes (p_store s1))) + 1 < 2 ^ 31)%Z).
  { rewrite <-length_bag, Hb1, length_fmap. lia. }
  eapply wp_mono; [apply (wp_result _ (Code (V := loc))), (insert_refines prio_key ucb); [done|by exists p|done]|]. cbn beta.
  intros rc h (q & Hs & Hq & Hh2 & _). inv Hs.
  match goal with |- wp _ _ ?t => set (s2 := t); assert (holds pq s2 (x :: l)) as Hh2' end.
  { split; [split; [done|]|by destruct Hi1]. cbn. rewrite <-Hq. cbn. by rewrite Hb1. }
  assert (p_freed s2 = p_freed s) as Hf2 by done. clearbody s2.
  apply wp_bind. eapply count_ok; [exact Hh2'|]. cbn [length]. destruct (decide (Z.of_nat (length l) = pq_max_size pq)) as [Hfull|Hfit].
  - rewrite bool_decide_eq_true_2 by lia. rewrite u64_id by (unfold in_u64; lia).
    replace (Z.to_nat (Z.of_nat (S (length l)) - pq_max_size pq)) with 1 by lia. apply wp_bind.
    eapply drop_one_ok; [exact Hh2'|done|]. intros s3 y l' Hh3 Hl Hk Hf3. apply wp_ret, wp_ret.
    exists l', (freed_by pq y.2.2). split_and!; [|done|congruence|apply Permutation_length in Hl; simpl in Hl; lia].
    eapply (pq_full _ _ _ _ y.2); [by rewrite length_fmap| |].
    + apply (fmap_Permutation snd) in Hl. exact Hl.
    + exact (keeps_first_entries _ _ _ Hk).
  - rewrite bool_decide_eq_false_2 by lia. apply wp_bind, wp_ret, wp_ret, wp_ret. exists (x :: l), [].
    split_and!; [|done|by rewrite app_nil_r|simpl; lia]. cbn. apply pq_fits. rewrite length_fmap. lia.
Qed.

(** The end of the two pulls. *)
Lemma pulled_ok pq s value x l (Q : Z * option (option loc * Z) → pstate → Prop) :
  items_part s (x :: l) → heap_part pq s l →
  (∀ s', holds pq s' l → p_freed s' = p_freed s ++ given pq value x.2.2 → Q (0%Z, Some (if value then Some x.2.2 else None, x.2.1)) s') →
  wp (pulled pq value (0%Z, Some x.1)) Q s.
Proof.
  intros Hi Hh HQ. unfold pulled. cbn [fst snd]. rewrite bool_decide_eq_true_2 by done.
  apply wp_bind. eapply item_ld_ok; [exact Hi|]. cbn [it_value it_prio]. apply wp_bind. unfold given in HQ. destruct value.
  - apply wp_ret, wp_bind. eapply item_free_ok; [exact Hi|exact Hh|]. intros s' Hh' Hf'. apply wp_ret, HQ; [done|by rewrite app_nil_r].
  - eapply free_value_ok; [exact Hi|exact Hh|]. intros s1 Hi1 Hh1 Hf1. apply wp_bind.
    eapply item_free_ok; [exact Hi1|exact Hh1|]. intros s' Hh' Hf'. apply wp_ret, HQ; [done|congruence].
Qed.
Lemma pulled_none pq s value (Q : Z * option (option loc * Z) → pstate → Prop) :
  Q ((-1)%Z, None) s → wp (pulled pq value ((-1)%Z, None)) Q s.
Proof. done. Qed.

Lemma high_after pq s l value :
  holds pq s l → (Z.of_nat (length l) ≤ pq_max_size pq)%Z → wp (prun_op pq (PHighest value)) (pq_after pq s l (PHighest value)) s.
Proof.
  intros Hh Hlen. apply wp_bind. unfold pqueue_pull_highest. apply wp_bind. eapply wp_mono; [by apply delete_high_ok|].
  intros r s1 (Hf1 & Hi1 & [(-> & -> & Hh1)|(x & l' & Hl & -> & Hh1 & Hfirst)]).
  - apply pulled_none, wp_ret. exists [], []. split_and!; [by constructor|by split|by rewrite app_nil_r|done].
  - apply (items_perm _ _ _ Hl) in Hi1. eapply pulled_ok; [exact Hi1|exact Hh1|]. intros s' Hh' Hf'. apply wp_ret.
    exists l', (given pq value x.2.2). apply Permutation_length in Hl as Hll. simpl in Hll. split_and!; [|done|congruence|lia].
    econstructor; [|exact (first_entries _ _ _ Hfirst)]. apply (fmap_Permutation snd) in Hl. rewrite Hl. by destruct x as [? []].
Qed.
Lemma low_after pq s l value :
  holds pq s l → (Z.of_nat (length l) ≤ pq_max_size pq)%Z → wp (prun_op pq (PLowest value)) (pq_after pq s l (PLowest value)) s.
Proof.
  intros Hh Hlen. apply wp_bind. unfold pqueue_pull_lowest. apply wp_bind. eapply wp_mono; [by apply delete_low_ok|].
  intros r s1 (Hf1 & Hi1 & [(-> & -> & Hh1)|(x & l' & Hl & -> & Hh1 & Hk)]).
  - apply pulled_none, wp_ret. exists [], []. split_and!; [by constructor|by split|by rewrite app_nil_r|done].
  - apply (items_perm _ _ _ Hl) in Hi1. eapply pulled_ok; [exact Hi1|exact Hh1|]. intros s' Hh' Hf'. apply wp_ret.
    exists l', (given pq value x.2.2). apply Permutation_length in Hl as Hll. simpl in Hll. split_and!; [|done|congruence|lia].
    econstructor; [|exact (keeps_first_entries _ _ _ Hk)]. apply (fmap_Permutation snd) in Hl. rewrite Hl. by destruct x as [? []].
Qed.

Lemma prun_ops_ok pq os s l :
  holds pq s l → (0 ≤ pq_max_size pq < 2 ^ 31 - 1)%Z → (Z.of_nat (length l) ≤ pq_max_size pq)%Z → Forall pop_ok os →
  wp (prun_ops pq os) (λ rs s', ∃ q f, pq_run pq l.*2 os rs q f ∧ p_freed s' = p_freed s ++ f) s.
Proof.
  intros Hh HM Hlen Hos. revert s l Hh Hlen. induction Hos as [|o os Ho Hos IH]; intros s l Hh Hlen; cbn [prun_ops].
  { apply wp_ret. exists l.*2, []. split; [constructor|by rewrite app_nil_r]. }
  assert (wp (prun_op pq o) (pq_after pq s l o) s) as Hop.
  { destruct o; [by apply insert_after|by apply high_after|by apply low_after|].
    apply wp_bind. eapply count_ok; [exact Hh|]. apply wp_ret. exists l, [].
    split_and!; [rewrite <-(length_fmap snd l); constructor|done|by rewrite app_nil_r|done]. }
  apply wp_bind. eapply wp_mono; [exact Hop|]. intros r s1 (l1 & f1 & Hs & Hh1 & Hf1 & Hl1). apply wp_bind.
  eapply wp_mono; [by apply (IH s1 l1)|]. intros rs s' (q & f & Hr & Hf). apply wp_ret.
  exists q, (f1 ++ f). split; [by econstructor|]. by rewrite Hf, Hf1, app_assoc.
Qed.

Definition no_queue : pstate := mk_pstate (mk_store ∅ ∅ 1) ∅ 1 [].
Lemma create_holds mode size fcb s :
  s_nodes (p_store s) = ∅ → p_items s = ∅ →
  wp (pqueue_create mode size fcb) (λ pq s', pq_max_size pq = size ∧ pq_mode pq = mode ∧ pq_free_value_cb pq = fcb ∧
    holds pq s' [] ∧ p_freed s' = p_freed s) s.
Proof.
  intros Hn Hi. apply wp_bind, wp_on_heap. eapply wp_mono; [by apply (create_is_heap prio_key ucb)|]. intros b h [Hh Hn'].
  apply wp_ret. split_and!; [done|done|done| |done]. split; [split; [done|]|split; [constructor|done|constructor|constructor]].
  cbn. by rewrite (proj2 (bag_nil _) Hn').
Qed.

(** C19: a priority queue made by pqueue_create, for priorities below 2^31: every
    script of insertions, pulls and counts returns, and behaves as a bag of at
    most max_size entries.  pqueue_pull_highest takes an entry that no other
    comes before; an insertion into a full queue drops one entry, and
    pqueue_pull_lowest takes one, but an entry that comes first stays; the
    values handed to the free callback are those of the entries dropped, and of
    those pulled without a place for the value. *)
Theorem pqueue_refines_bounded_bag mode size fcb os s :
  s_nodes (p_store s) = ∅ → p_items s = ∅ → (0 ≤ size < 2 ^ 31 - 1)%Z → Forall pop_ok os →
  ∃ pq rs s' q f, (pq ← pqueue_create mode size fcb; rs ← prun_ops pq os; mret (pq, rs)) s = Ret ((pq, rs), s') ∧
    pq_max_size pq = size ∧ pq_mode pq = mode ∧ pq_free_value_cb pq = fcb ∧
    pq_run pq [] os rs q f ∧ p_freed s' = p_freed s ++ f.
Proof.
  intros Hn Hi HM Hos.
  assert (wp (pq ← pqueue_create mode size fcb; rs ← prun_ops pq os; mret (pq, rs)) (λ r s', pq_max_size r.1 = size ∧ pq_mode r.1 = mode ∧
    pq_free_value_cb r.1 = fcb ∧ ∃ q f, pq_run r.1 [] os r.2 q f ∧ p_freed s' = p_freed s ++ f) s) as Hwp.
  { apply wp_bind. eapply wp_mono; [by apply create_holds|]. intros pq s1 (Hs & Hm & Hf & Hh & Hfr).
    apply wp_bind. eapply wp_mono; [apply (prun_ops_ok pq os s1 []); [done|by rewrite Hs|by rewrite Hs; simpl; lia|done]|].
    intros rs s' (q & f & Hr & Hf'). apply wp_ret. split_and!; [done|done|done|]. exists q, f. split; [done|congruence]. }
  apply wp_run in Hwp as ([pq rs] & s' & Hrun & H1 & H2 & H3 & q & f & H4 & H5). by exists pq, rs, s', q, f.
Qed.

(** Pqueue_remove removes nothing and reports a failure: it compares the value
    with the addresses of items, not with the values stored in them, and never
    sets the flag it returns. *)
Theorem pqueue_remove_does_nothing pq s l v :
  holds pq s l → v ∉ l.*1 → ∃ s', pqueue_remove pq v s = Ret ((-1)%Z, s') ∧ holds pq s' l.
Proof.
  intros [[Hh Hb] Hi] Hv. unfold pqueue_remove, pqueue_walk.
  destruct (walk_visits prio_key ucb (pqueue_walk_helper (pqueue_remove_helper v)) (heap_mode (pq_mode pq)) (p_store s) (pq_heap pq) false)
    as (vs & h & Hrun & _ & Hn & Hh'); [done| |].
  { intros d kv Hkv. rewrite Hb in Hkv. apply list_elem_of_fmap in Hkv as (x & -> & Hx). cbn. rewrite bool_decide_eq_false_2; [done|].
    intros Hxv. apply Hv. rewrite <-Hxv. by apply list_elem_of_fmap_2. }
  exists (mk_pstate h (p_items s) (p_next s) (p_freed s)). split.
  - unfold mbind, st_bind, on_heap. rewrite Hrun. cbn.
    assert (∀ vs, visit (pqueue_walk_helper (pqueue_remove_helper v)) false vs = false) as ->; [|done].
    intros vs0. induction vs0 as [|kv vs0 IH]; [done|exact IH].
  - split; [split; [done|by cbn; rewrite Hn]|by destruct Hi].
Qed.

(** Dropping [n] items, or all of them. *)
Lemma drop_items_ok pq n s l :
  holds pq s l → wp (pqueue_drop_items pq n) (λ _ s', ∃ dropped l', l ≡ₚ dropped ++ l' ∧ length dropped = min n (length l) ∧ holds pq s' l' ∧
    p_freed s' = p_freed s ++ (dropped ≫= λ x, freed_by pq x.2.2)) s.
Proof.
  revert s l. induction n as [|n IH]; intros s l Hh; cbn [pqueue_drop_items]; apply wp_bind; (eapply count_ok; [exact Hh|]).
  { apply wp_ret. exists [], l. split_and!; [done|done|done|by rewrite app_nil_r]. }
  case_bool_decide as Hz.
  { apply wp_ret. exists [], l. split_and!; [done|destruct l; [done|simpl in Hz; lia]|done|by rewrite app_nil_r]. }
  apply wp_bind. eapply wp_mono; [by apply delete_low_ok|]. intros r s1 (Hf1 & Hi1 & [(-> & _)|(x & l' & Hl & -> & Hh1 & _)]); [done|]. cbn [snd].
  apply (items_perm _ _ _ Hl) in Hi1. apply wp_bind, wp_bind. eapply item_ld_ok; [exact Hi1|]. cbn [it_value]. apply wp_bind.
  eapply free_value_ok; [exact Hi1|exact Hh1|]. intros s2 Hi2 Hh2 Hf2. eapply item_free_ok; [exact Hi2|exact Hh2|]. intros s3 Hh3 Hf3.
  eapply wp_mono; [by apply IH|]. intros [] s' (d & l2 & Hl2 & Hlen & Hh' & Hf'). exists (x :: d), l2.
  apply Permutation_length in Hl as Hll. simpl in Hll. split_and!; [by rewrite Hl, Hl2|rewrite Hll; cbn [length Nat.min]; lia|done|].
  cbn. rewrite Hf', Hf3, Hf2, Hf1. by rewrite app_assoc.
Qed.

(** Pqueue_destroy returns, hands every value of the queue to the free
    callback once, and frees every item and every node. *)
Theorem pqueue_destroy_frees pq s l :
  holds pq s l → pq_free_value_cb pq = true →
  ∃ s' f, pqueue_destroy pq s = Ret (tt, s') ∧ p_freed s' = p_freed s ++ f ∧ f ≡ₚ l.*2.*2 ∧
    p_items s' = ∅ ∧ s_nodes (p_store s') = ∅.
Proof.
  intros Hh Hcb.
  assert (wp (pqueue_destroy pq) (λ _ s', ∃ f, p_freed s' = p_freed s ++ f ∧ f ≡ₚ l.*2.*2 ∧ p_items s' = ∅ ∧ s_nodes (p_store s') = ∅) s) as Hwp.
  { apply wp_bind. eapply count_ok; [exact Hh|]. rewrite Nat2Z.id. apply wp_bind. eapply wp_mono; [by apply drop_items_ok|].
    intros [] s1 (d & l' & Hl & Hlen & [[Hh1 _] Hi1] & Hf1). rewrite Nat.min_id in Hlen.
    assert (l' = []) as ->.
    { apply length_zero_iff_nil. apply Permutation_length in Hl. rewrite length_app in Hl. lia. }
    apply wp_on_heap. eapply wp_mono; [by eapply (destroy_frees prio_key ucb)|]. intros [] h (Hn & _). eexists. split_and!; [exact Hf1| | |done].
    - rewrite Hl, app_nil_r. unfold freed_by. rewrite Hcb. clear. induction d as [|x d IH]; [done|]. cbn. by rewrite IH.
    - by destruct Hi1 as [_ Hit _ _]. }
  apply wp_run in Hwp as ([] & s' & Hrun & f & H). by exists s', f.
Qed.

(** An insertion into a full queue may drop another entry than the last one:
    with room for two, 10, 1 and 5 leave 10 and 1 in a queue of mode HIGHEST. *)
Theorem pqueue_drops_wrong_entry :
  match (pq ← pqueue_create PQUEUE_MODE_HIGHEST 2 true;
         prun_ops pq [PInsert 10 100%positive; PInsert 1 101%positive; PInsert 5 105%positive; PHighest true; PHighest true]) no_queue with
  | Ret (rs, s) =>
      rs = [PCode 0; PCode 0; PCode 0; PPulled (0, Some (Some 100%positive, 10)); PPulled (0, Some (Some 101%positive, 1))]%Z ∧
      p_freed s = [105%positive]
  | Fault => False
  end.
Proof. vm_compute. split; reflexivity. Qed.

(** ** Witnesses *)
Definition pops : list pq_op := [PInsert 10 100%positive; PInsert 1 101%positive; PInsert 5 105%positive; PHighest true; PLowest false; PCount].
Lemma pops_ok : Forall pop_ok pops.
Proof. repeat constructor; cbn; unfold small_prio; lia. Qed.
Lemma pqueue_refines_bounded_bag_witness :
  ∃ pq rs s' q f, (pq ← pqueue_create PQUEUE_MODE_LOWEST 2 true; rs ← prun_ops pq pops; mret (pq, rs)) no_queue = Ret ((pq, rs), s') ∧
    pq_max_size pq = 2%Z ∧ pq_mode pq = PQUEUE_MODE_LOWEST ∧ pq_free_value_cb pq = true ∧
    pq_run pq [] pops rs q f ∧ p_freed s' = [] ++ f.
Proof. apply (pqueue_refines_bounded_bag PQUEUE_MODE_LOWEST 2 true pops no_queue); [reflexivity|reflexivity|lia|apply pops_ok]. Defined.

Definition queue1 : pqueue := mk_pqueue 1 2 true PQUEUE_MODE_HIGHEST.
Definition state1 : pstate :=
  match (pq ← pqueue_create PQUEUE_MODE_HIGHEST 2 true; prun_op pq (PInsert 10 100%positive)) no_queue with
  | Ret (_, s) => s | Fault => no_queue end.
Lemma state1_holds : holds queue1 state1 [(1, (10%Z, 100))]%positive.
Proof.
  destruct (wp_run _ _ _ (create_holds PQUEUE_MODE_HIGHEST 2 true no_queue eq_refl eq_refl)) as (pq & s & Hrun & Hs & _ & _ & Hh & _).
  assert (pq = queue1) as ->.
  { pose proof (f_equal (λ o, match o with Ret (q, _) => Some q | Fault => None end) Hrun) as Hq. vm_compute in Hq. by simplify_eq. }
  destruct (wp_run _ _ _ (insert_after queue1 s [] 10 100 Hh ltac:(cbn; lia) ltac:(cbn; lia) ltac:(unfold small_prio; lia)))
    as (r & s' & Hins & l' & f & Hstep & Hh' & _).
  assert (s' = state1) as ->.
  { unfold state1, mbind, st_bind. unfold mbind, st_bind in Hins. rewrite Hrun. cbn beta iota. by rewrite Hins. }
  inv Hstep. destruct l' as [|[a [p v]] [|]]; simplify_eq/=.
  destruct (Hh') as [_ [_ Hit _ _]]. assert (p_items state1 !! a = Some (mk_item_ 100 10)) as Ha by (by rewrite Hit; apply lookup_insert_eq).
  assert (p_items state1 = {[1%positive := mk_item_ 100 10]}) as Hst by (vm_compute; reflexivity).
  rewrite Hst in Ha. by apply lookup_singleton_Some in Ha as [<- _].
Qed.
Lemma pqueue_remove_does_nothing_witness :
  ∃ s', pqueue_remove queue1 100 state1 = Ret ((-1)%Z, s') ∧ holds queue1 s' [(1, (10%Z, 100))]%positive.
Proof.
  apply (pqueue_remove_does_nothing queue1 state1 [(1, (10%Z, 100))]%positive 100); [apply state1_holds|].
  cbn. intros H%list_elem_of_singleton. discriminate.
Defined.
Lemma pqueue_destroy_frees_witness :
  ∃ s' f, pqueue_destroy queue1 state1 = Ret (tt, s') ∧ p_freed s' = p_freed state1 ++ f ∧ f ≡ₚ [100%positive] ∧
    p_items s' = ∅ ∧ s_nodes (p_store s') = ∅.
Proof. apply (pqueue_destroy_frees queue1 state1 [(1, (10%Z, 100))]%positive); [apply state1_holds|reflexivity]. Defined.
