(* ===== verification/FBuf.v ===== *)
(** * The growing buffer (src/index/libhl/fbuf.c)

    The structures and the blocks of memory are in one store: a buffer points to
    its block, and blocks change hands when buffers are moved, attached and
    detached.  [len] is the length that the structure records for its block,
    which need not be the length of the block.  [malloc_ok] says which sizes can
    be allocated, [junk] is what fresh memory holds.  The text that vsnprintf
    formats is an argument ([None] if it fails), as is what the calls of read
    and write do.  fbuf_data and fbuf_end return the bytes at the address. *)
From S2P Require Import Prelude Heap.

Definition FBUF_MINLEN : Z := 128.
Definition FBUF_FASTGROWSIZE : Z := Z.shiftl 1 14.
Definition FBUF_SLOWGROWSIZE : Z := Z.shiftl 1 10.
Definition FBUF_MAXLEN_NONE : Z := 0.
Definition FBUF_LINE_EST : Z := 128.
Definition FBUF_READ_EST : Z := 1024.
Definition UINT_MAX : Z := 2 ^ 32 - 1.

Record fbuf_t := mk_fbuf {
  id : Z;
  data : option loc;
  len : Z;
  maxlen : Z;
  minlen : Z;
  fastgrowsize : Z;
  slowgrowsize : Z;
  used : Z;
  skip : Z
}.
(** [w_count] is the static variable fbuf_count. *)
Record world := mk_world {
  w_bufs : gmap loc fbuf_t;
  w_blocks : gmap loc (list Z);
  w_next : loc;
  w_count : Z
}.

Definition set_id (x : Z) (b : fbuf_t) : fbuf_t :=
  mk_fbuf x (data b) (len b) (maxlen b) (minlen b) (fastgrowsize b) (slowgrowsize b) (used b) (skip b).
Definition set_data (x : option loc) (b : fbuf_t) : fbuf_t :=
  mk_fbuf (id b) x (len b) (maxlen b) (minlen b) (fastgrowsize b) (slowgrowsize b) (used b) (skip b).
Definition set_len (x : Z) (b : fbuf_t) : fbuf_t :=
  mk_fbuf (id b) (data b) x (maxlen b) (minlen b) (fastgrowsize b) (slowgrowsize b) (used b) (skip b).
Definition set_maxlen (x : Z) (b : fbuf_t) : fbuf_t :=
  mk_fbuf (id b) (data b) (len b) x (minlen b) (fastgrowsize b) (slowgrowsize b) (used b) (skip b).
Definition set_minlen (x : Z) (b : fbuf_t) : fbuf_t :=
  mk_fbuf (id b) (data b) (len b) (maxlen b) x (fastgrowsize b) (slowgrowsize b) (used b) (skip b).
Definition set_fastgrowsize (x : Z) (b : fbuf_t) : fbuf_t :=
  mk_fbuf (id b) (data b) (len b) (maxlen b) (minlen b) x (slowgrowsize b) (used b) (skip b).
Definition set_slowgrowsize (x : Z) (b : fbuf_t) : fbuf_t :=
  mk_fbuf (id b) (data b) (len b) (maxlen b) (minlen b) (fastgrowsize b) x (used b) (skip b).
Definition set_used (x : Z) (b : fbuf_t) : fbuf_t :=
  mk_fbuf (id b) (data b) (len b) (maxlen b) (minlen b) (fastgrowsize b) (slowgrowsize b) x (skip b).
Definition set_skip (x : Z) (b : fbuf_t) : fbuf_t :=
  mk_fbuf (id b) (data b) (len b) (maxlen b) (minlen b) (fastgrowsize b) (slowgrowsize b) (used b) x.

(** ** Memory *)
Definition bld (p : loc) : st world fbuf_t :=
  λ w, match w_bufs w !! p with Some b => Ret (b, w) | None => Fault end.
Definition bupd (p : loc) (f : fbuf_t → fbuf_t) : st world unit :=
  λ w, match w_bufs w !! p with
       | Some b => Ret (tt, mk_world (<[p := f b]> (w_bufs w)) (w_blocks w) (w_next w) (w_count w))
       | None => Fault
       end.
Definition balloc (b : fbuf_t) : st world loc :=
  λ w, Ret (w_next w, mk_world (<[w_next w := b]> (w_bufs w)) (w_blocks w) (Pos.succ (w_next w)) (w_count w)).
Definition bfree (p : loc) : st world unit :=
  λ w, match w_bufs w !! p with
       | Some _ => Ret (tt, mk_world (delete p (w_bufs w)) (w_blocks w) (w_next w) (w_count w))
       | None => Fault
       end.
Definition put_blocks (m : gmap loc (list Z)) : st world unit :=
  λ w, Ret (tt, mk_world (w_bufs w) m (w_next w) (w_count w)).
Definition wlift {A} (m : outcome A) : st world A := λ w, a ← m; Ret (a, w).

(** The block at an address; NULL has no bytes. *)
Definition block (o : option loc) : st world (list Z) :=
  match o with
  | None => mret []
  | Some d => λ w, match w_blocks w !! d with Some c => Ret (c, w) | None => Fault end
  end.
Definition blk_read (o : option loc) (off n : Z) : st world (list Z) :=
  c ← block o; wlift (mem_read c off n).
Definition blk_write (o : option loc) (off : Z) (bs : list Z) : st world unit :=
  c ← block o;
  c ← wlift (mem_write c off bs);
  match o with
  | None => mret tt
  | Some d => w ← st_get; put_blocks (<[d := c]> (w_blocks w))
  end.
(** The byte o[i], and the assignment of a byte to it. *)
Definition blk_get (o : option loc) (i : Z) : st world Z := c ← block o; wlift (get_cell c i).
Definition blk_put (o : option loc) (i x : Z) : st world unit := blk_write o i [x].
Definition free (o : option loc) : st world unit :=
  match o with
  | None => mret tt
  | Some d => _ ← block o; w ← st_get; put_blocks (delete d (w_blocks w))
  end.

Definition fetch_and_add_count : st world Z :=
  λ w, Ret (w_count w, mk_world (w_bufs w) (w_blocks w) (w_next w) (i32 (w_count w + 1))).

Definition default_to (x y : Z) : Z := if bool_decide (x ≠ 0)%Z then x else y.
Definition isspace (c : Z) : bool := bool_decide (9 <= c <= 13)%Z || bool_decide (c = 32)%Z.

Section FBuf.
Context (malloc_ok : Z → bool) (junk : nat → Z).

Definition malloc (n : Z) : st world (option loc) :=
  if malloc_ok n then
    λ w, Ret (Some (w_next w),
      mk_world (w_bufs w) (<[w_next w := junk <$> seq 0 (Z.to_nat n)]> (w_blocks w)) (Pos.succ (w_next w)) (w_count w))
  else mret None.
(** The block moves; its bytes are kept as far as they fit. *)
Definition realloc (o : option loc) (n : Z) : st world (option loc) :=
  c ← block o;
  q ← malloc n;
  match q with
  | None => mret None
  | Some _ => _ ← blk_write q 0 (take (Z.to_nat n) c); _ ← free o; mret q
  end.

(** ** Creation and parameters *)
Definition fbuf_create (calloc_ok : bool) (maxlen : Z) : st world (option loc) :=
  if calloc_ok then
    n ← fetch_and_add_count;
    p ← balloc (mk_fbuf (u32 n) None 0 maxlen FBUF_MINLEN FBUF_FASTGROWSIZE FBUF_SLOWGROWSIZE 0 0);
    mret (Some p)
  else mret None.

Definition fbuf_fastgrowsize (p : loc) (size : Z) : st world Z :=
  b ← bld p;
  _ ← (if bool_decide (size ≠ 0)%Z then bupd p (set_fastgrowsize size) else mret tt);
  mret (fastgrowsize b).
Definition fbuf_slowgrowsize (p : loc) (size : Z) : st world Z :=
  b ← bld p;
  _ ← (if bool_decide (size ≠ 0)%Z then bupd p (set_slowgrowsize size) else mret tt);
  mret (slowgrowsize b).

(** ** Moving the contents to the front, growing and shrinking *)
Definition to_front (p : loc) : st world unit :=
  b ← bld p;
  _ ← (if bool_decide (used b ≠ 0)%Z
       then bs ← blk_read (data b) (skip b) (u32 (used b + 1)); blk_write (data b) 0 bs
       else blk_put (data b) 0 0);
  bupd p (set_skip 0).

(** The length that the while loop of fbuf_extend arrives at. *)
Fixpoint grow (fuel : nat) (b : fbuf_t) (newlen l : Z) : outcome Z :=
  if bool_decide (newlen > l)%Z then
    match fuel with
    | O => Fault
    | S fuel =>
        let fast := default_to (fastgrowsize b) FBUF_FASTGROWSIZE in
        let slow := default_to (slowgrowsize b) FBUF_SLOWGROWSIZE in
        grow fuel b newlen
          (if bool_decide (l = 0)%Z then default_to (minlen b) FBUF_MINLEN
           else if bool_decide (l < fast)%Z then fast
           else u32 (l + slow))
    end
  else Ret l.

(** The last part of fbuf_extend: a block of the new length.  If bytes at the
    front were skipped the old block is not freed. *)
Definition new_block (p : loc) : st world Z :=
  b ← bld p;
  q ← (if bool_decide (skip b ≠ 0)%Z then
         q ← malloc (len b);
         match q with
         | None => mret None
         | Some _ =>
             _ ← (if bool_decide (used b ≠ 0)%Z
                  then bs ← blk_read (data b) (skip b) (used b); blk_write q 0 bs else mret tt);
             _ ← bupd p (set_skip 0); mret q
         end
       else realloc (data b) (len b));
  match q with
  | None => mret 0%Z
  | Some _ =>
      _ ← (if bool_decide (data b = None) then blk_put q 0 0 else mret tt);
      _ ← bupd p (set_data q);
      mret (len b)
  end.

Definition fbuf_extend (p : loc) (newlen : Z) : st world Z :=
  let newlen := u32 (newlen + 1) in
  b ← bld p;
  let available_space := u32 (len b - skip b) in
  if bool_decide (newlen <= available_space)%Z then mret (len b)
  else if bool_decide (skip b ≠ 0)%Z && bool_decide (newlen <= len b)%Z then
    _ ← to_front p; mret (len b)
  else if bool_decide (maxlen b ≠ FBUF_MAXLEN_NONE) && bool_decide (newlen > u32 (maxlen b + 1))%Z then mret 0%Z
  else
    l ← wlift (grow (Z.to_nat newlen + 2) b newlen (len b));
    let l := if bool_decide (maxlen b ≠ 0)%Z && bool_decide (l > maxlen b)%Z then u32 (maxlen b + 1) else l in
    _ ← bupd p (set_len l);
    if bool_decide (l = 0)%Z then mret 0%Z else new_block p.

(** The do-while loop of fbuf_shrink; [l] is the local variable len, the result
    is newlen. *)
Fixpoint shrink_loop (fuel : nat) (b : fbuf_t) (l : Z) : outcome Z :=
  let fast := default_to (fastgrowsize b) FBUF_FASTGROWSIZE in
  let slow := default_to (slowgrowsize b) FBUF_SLOWGROWSIZE in
  if bool_decide (l <= minlen b)%Z then Ret l
  else
    let l' := if bool_decide (l <= fast)%Z then (l `div` 2)%Z else u32 (l - slow) in
    if bool_decide (l' >= u32 (used b + 1))%Z then
      match fuel with O => Fault | S fuel => shrink_loop fuel b l' end
    else Ret l.

Definition fbuf_shrink (p : loc) : st world Z :=
  b ← bld p;
  _ ← (if bool_decide (skip b ≠ 0)%Z then to_front p else mret tt);
  b ← bld p;
  newlen ← wlift (shrink_loop (Z.to_nat (len b)) b (if bool_decide (used b = 0)%Z then 0%Z else len b));
  if bool_decide (newlen = len b) then mret (len b)
  else if bool_decide (newlen = 0)%Z then
    _ ← free (data b); _ ← bupd p (λ b, set_len 0 (set_data None b)); mret 0%Z
  else
    q ← realloc (data b) newlen;
    match q with
    | None => mret (len b)
    | Some _ => _ ← bupd p (λ b, set_len newlen (set_data q b)); mret newlen
    end.

Definition fbuf_maxlen (p : loc) (l : Z) : st world Z :=
  b ← bld p;
  let old := maxlen b in
  _ ← (if bool_decide (l < UINT_MAX)%Z then bupd p (set_maxlen l) else mret tt);
  b ← bld p;
  if bool_decide (len b > maxlen b)%Z then
    _ ← fbuf_shrink p;
    b ← bld p;
    q ← realloc (data b) (u32 (maxlen b + 1));
    match q with
    | None => mret 0%Z
    | Some _ =>
        _ ← bupd p (λ b, set_len (u32 (maxlen b + 1)) (set_data q b));
        _ ← (if bool_decide (used b >= maxlen b)%Z then bupd p (set_used (maxlen b)) else mret tt);
        _ ← blk_put q (maxlen b) 0;
        mret old
    end
  else mret old.

Definition fbuf_minlen (p : loc) (l : Z) : st world Z :=
  b ← bld p;
  let old := minlen b in
  if bool_decide (l ≠ 0)%Z then
    _ ← bupd p (set_minlen l);
    if bool_decide (used b < l)%Z && bool_decide (len b > l)%Z then
      q ← realloc (data b) l;
      match q with
      | None => mret 0%Z
      | Some _ => _ ← bupd p (λ b, set_data q (set_len l b)); mret old
      end
    else mret old
  else mret old.

(** ** Whole buffers *)
Definition fbuf_clear (p : loc) : st world unit :=
  _ ← bupd p (λ b, set_skip 0 (set_used 0 b));
  b ← bld p;
  if bool_decide (len b > 0)%Z then blk_put (data b) 0 0 else mret tt.
Definition fbuf_destroy (p : loc) : st world unit :=
  b ← bld p;
  _ ← free (data b);
  bupd p (λ b, set_used 0 (set_len 0 (set_skip 0 (set_data None b)))).
Definition fbuf_free (p : loc) : st world unit :=
  b ← bld p; _ ← free (data b); bfree p.
Definition fbuf_move (fbufsrc fbufdst : loc) : st world unit :=
  _ ← fbuf_destroy fbufdst;
  b ← bld fbufsrc;
  _ ← bupd fbufdst (λ _, b);
  _ ← bupd fbufsrc (λ b, set_used 0 (set_len 0 (set_skip 0 (set_data None b))));
  n ← fetch_and_add_count;
  bupd fbufsrc (set_id (u32 n)).
Definition fbuf_swap (fbuf1 fbuf2 : loc) : st world unit :=
  fbuf3 ← bld fbuf1;
  b2 ← bld fbuf2;
  _ ← bupd fbuf1 (λ _, b2);
  bupd fbuf2 (λ _, fbuf3).

(** The arguments are ints; a negative [used] indexes in front of the block. *)
Definition fbuf_attach (p : loc) (buf : option loc) (l used : Z) : st world Z :=
  b ← bld p;
  _ ← free (data b);
  _ ← bupd p (set_skip 0);
  q ← (if bool_decide (used < l)%Z then mret buf
       else n ← wlift (cint (used + 1)); realloc buf (u64 n));
  _ ← bupd p (set_data q);
  if bool_decide (used >= l)%Z && bool_decide (q = None) then mret 0%Z
  else
    _ ← bupd p (λ b, set_used (u32 used) (set_len (u32 l) b));
    _ ← blk_put q used 0;
    mret (FBuf.used b).
(** The number of bytes used, the block and its length; [None] if the caller's
    variables are left alone. *)
Definition fbuf_detach (p : loc) : st world (Z * option (option loc * Z)) :=
  b ← bld p;
  if bool_decide (used b = 0)%Z then mret (0%Z, None)
  else
    _ ← (if bool_decide (skip b ≠ 0)%Z then _ ← fbuf_shrink p; mret tt else mret tt);
    b ← bld p;
    _ ← bupd p (λ b, set_data None (set_len 0 (set_skip 0 (set_used 0 b))));
    mret (used b, Some (data b, i32 (len b))).

(** ** Adding bytes *)
Definition fbuf_add_binary (p : loc) (bs : list Z) (l : Z) : st world Z :=
  if bool_decide (l <= 0)%Z then mret (-1)%Z
  else
    b ← bld p;
    r ← fbuf_extend p (u32 (used b + l));
    if bool_decide (r = 0)%Z then mret (-1)%Z
    else
      b ← bld p;
      src ← wlift (mem_read bs 0 l);
      _ ← blk_write (data b) (skip b + used b) src;
      _ ← bupd p (set_used (u32 (used b + l)));
      _ ← blk_put (data b) (u32 (skip b + u32 (used b + l))) 0;
      mret l.

(** A string argument is the bytes before its terminator, or NULL. *)
Definition fbuf_add (p : loc) (s : option (list Z)) : st world Z :=
  match s with
  | None | Some [] => mret 0%Z
  | Some s => fbuf_add_binary p s (i32 (Z.of_nat (length s)))
  end.

Definition fbuf_prepend_binary (p : loc) (bs : option (list Z)) (l : Z) : st world Z :=
  match bs with
  | None => mret 0%Z
  | Some bs =>
      if bool_decide (l <= 0)%Z then mret 0%Z
      else
        b ← bld p;
        if bool_decide (i32 (skip b) >= l)%Z then
          src ← wlift (mem_read bs 0 l);
          _ ← blk_write (data b) (skip b - l) src;
          _ ← bupd p (λ b, set_used (u32 (used b + l)) (set_skip (u32 (skip b - l)) b));
          mret l
        else
          r ← fbuf_extend p (u32 (used b + l));
          if bool_decide (r = 0)%Z then mret (-1)%Z
          else
            b ← bld p;
            old ← blk_read (data b) (skip b) (u32 (used b + 1));
            _ ← blk_write (data b) (skip b + l) old;
            src ← wlift (mem_read bs 0 l);
            _ ← blk_write (data b) (skip b) src;
            _ ← bupd p (λ b, set_used (u32 (used b + l)) b);
            mret l
  end.
Definition fbuf_prepend (p : loc) (s : option (list Z)) : st world Z :=
  match s with
  | None | Some [] => mret 0%Z
  | Some s => fbuf_prepend_binary p (Some s) (i32 (Z.of_nat (length s)))
  end.

Definition fbuf_add_ln (p : loc) (s : option (list Z)) : st world Z :=
  n1 ← fbuf_add p s;
  if bool_decide (n1 = -1)%Z then mret (-1)%Z
  else
    n2 ← fbuf_add p (Some [10%Z]);
    if bool_decide (n2 = -1)%Z then mret (-1)%Z else wlift (cint (n1 + n2)).

Definition fbuf_duplicate (calloc_ok : bool) (fbufsrc : loc) : st world (option loc) :=
  b ← bld fbufsrc;
  q ← fbuf_create calloc_ok (maxlen b);
  match q with
  | None => mret None
  | Some d =>
      _ ← (if bool_decide (used b ≠ 0)%Z
           then bs ← blk_read (data b) (skip b) (used b);
                _ ← fbuf_add_binary d bs (i32 (used b)); mret tt
           else mret tt);
      mret (Some d)
  end.

Definition fbuf_concat (fbufdst fbufsrc : loc) : st world Z :=
  s ← bld fbufsrc;
  if bool_decide (used s = 0)%Z then mret 0%Z
  else
    let datalen := i32 (used s) in
    d ← bld fbufdst;
    r ← fbuf_extend fbufdst (u32 (used d + datalen));
    if bool_decide (r = 0)%Z then mret (-1)%Z
    else
      d ← bld fbufdst; s ← bld fbufsrc;
      n ← wlift (cint (datalen + 1));
      bs ← blk_read (data s) (skip s) n;
      _ ← blk_write (data d) (skip d + used d) bs;
      _ ← bupd fbufdst (set_used (u32 (used d + datalen)));
      mret datalen.

Definition fbuf_copy (fbufsrc fbufdst : loc) : st world Z :=
  s ← bld fbufsrc;
  r ← fbuf_extend fbufdst (used s);
  if bool_decide (r = 0)%Z then mret (-1)%Z
  else
    _ ← fbuf_clear fbufdst;
    s ← bld fbufsrc; d ← bld fbufdst;
    bs ← blk_read (data s) (skip s) (used s);
    _ ← blk_write (data d) (skip d) bs;
    _ ← bupd fbufdst (set_used (used s));
    d ← bld fbufdst;
    _ ← blk_put (data d) (u32 (skip d + used d)) 0;
    mret (i32 (used d)).

Definition fbuf_set (p : loc) (s : list Z) : st world Z :=
  let datalen := i32 (Z.of_nat (length s)) in
  r ← fbuf_extend p (u32 datalen);
  if bool_decide (r = 0)%Z then mret (-1)%Z
  else
    b ← bld p;
    n ← wlift (cint (datalen + 1));
    bs ← wlift (mem_read (s ++ [0%Z]) 0 n);
    _ ← blk_write (data b) (skip b) bs;
    _ ← bupd p (set_used (u32 datalen));
    mret datalen.

(** ** Formatted output *)
(** vsnprintf at the end of the contents: the text is cut to the room left,
    less one, and terminated; the result is the length of the whole text. *)
Definition vsnprintf (p : loc) (text : option (list Z)) : st world Z :=
  b ← bld p;
  let room := u32 (len b - u32 (skip b + used b)) in
  match text with
  | None => mret (u32 (-1))
  | Some t =>
      _ ← (if bool_decide (room = 0)%Z then mret tt
           else blk_write (data b) (skip b + used b) (take (Z.to_nat (room - 1)) t ++ [0%Z]));
      mret (u32 (Z.of_nat (length t)))
  end.
Definition printed (p : loc) (n : Z) : st world Z :=
  b ← bld p;
  let u := u32 (used b + n) in
  _ ← bupd p (set_used u);
  _ ← blk_put (data b) (u32 (skip b + u)) 0;
  mret (i32 n).
Definition fbuf_nprintf (p : loc) (max : Z) (text : option (list Z)) : st world Z :=
  b ← bld p;
  r ← fbuf_extend p (u32 (used b + max));
  if bool_decide (r = 0)%Z then mret (-1)%Z
  else n ← vsnprintf p text; printed p n.
Definition fbuf_printf (p : loc) (text : option (list Z)) : st world Z :=
  b ← bld p;
  r ← fbuf_extend p (u32 (used b + FBUF_LINE_EST));
  if bool_decide (r = 0)%Z then mret (-1)%Z
  else
    n ← vsnprintf p text;
    b ← bld p;
    if bool_decide (n >= u32 (len b - u32 (skip b + used b)))%Z then
      r ← fbuf_extend p (u32 (used b + n));
      b ← bld p;
      if bool_decide (r = 0)%Z then _ ← blk_put (data b) (u32 (skip b + used b)) 0; mret (-1)%Z
      else n ← vsnprintf p text; printed p n
    else printed p n.

(** ** Removing bytes *)
Definition fbuf_remove (p : loc) (l : Z) : st world Z :=
  b ← bld p;
  if bool_decide (l >= used b)%Z then
    _ ← bupd p (λ b, set_skip 0 (set_used 0 b));
    _ ← blk_put (data b) 0 0;
    mret 0%Z
  else if bool_decide (l ≠ 0)%Z then
    _ ← bupd p (λ b, set_used (u32 (used b - l)) (set_skip (u32 (skip b + l)) b));
    b ← bld p;
    _ ← (if bool_decide (skip b >= len b `div` 2)%Z
         then bs ← blk_read (data b) (skip b) (u32 (used b + 1));
              _ ← blk_write (data b) 0 bs; bupd p (set_skip 0)
         else mret tt);
    mret (i32 (used b))
  else mret (i32 (used b)).

Fixpoint trim_loop (n : nat) (b : fbuf_t) (i : Z) : st world Z :=
  if bool_decide (i < used b)%Z then
    c ← blk_get (data b) (u32 (skip b + i));
    if isspace c then match n with O => st_fault | S n => trim_loop n b (i + 1)%Z end
    else mret i
  else mret i.
Definition fbuf_trim (p : loc) : st world Z :=
  b ← bld p;
  i ← trim_loop (Z.to_nat (used b)) b 0;
  _ ← fbuf_remove p i;
  mret (i32 i).
Fixpoint rtrim_loop (n : nat) (b : fbuf_t) (u : Z) : st world Z :=
  if bool_decide (u > 0)%Z then
    c ← blk_get (data b) (u32 (u32 (skip b + u) - 1));
    if isspace c then match n with O => st_fault | S n => rtrim_loop n b (u - 1)%Z end
    else mret u
  else mret u.
Definition fbuf_rtrim (p : loc) : st world Z :=
  b ← bld p;
  u ← rtrim_loop (Z.to_nat (used b)) b (used b);
  _ ← bupd p (set_used u);
  _ ← blk_put (data b) (u32 (skip b + u)) 0;
  mret (i32 (used b - u)).
Definition fbuf_set_used (p : loc) (newused : Z) : st world Z :=
  b ← bld p;
  if bool_decide (newused < used b)%Z then
    _ ← bupd p (set_used newused);
    _ ← blk_put (data b) (u32 (skip b + newused)) 0;
    mret (i32 newused)
  else mret (i32 (used b)).

(** ** Access *)
Definition fbuf_data (p : loc) : st world (list Z) :=
  b ← bld p; c ← block (data b); mret (drop (Z.to_nat (skip b)) c).
Definition fbuf_end (p : loc) : st world (option (list Z)) :=
  b ← bld p;
  match data b with
  | None => mret None
  | Some _ => c ← block (data b); mret (Some (drop (Z.to_nat (skip b + used b)) c))
  end.
Definition fbuf_used (p : loc) : st world Z := b ← bld p; mret (used b).
Definition fbuf_len (p : loc) : st world Z := b ← bld p; mret (len b).

(** ** Files *)
(** A stream is the bytes left in it. *)
Definition fread (file : list Z) (n : Z) : list Z * list Z := (take (Z.to_nat n) file, drop (Z.to_nat n) file).
(** A descriptor is what its next reads deliver: bytes, or [None] for an error;
    at most as many bytes as asked for are taken.  At the end a read returns 0. *)
Definition read (fd : list (option (list Z))) (n : Z) : Z * list Z * list (option (list Z)) :=
  match fd with
  | [] => (0%Z, [], [])
  | None :: fd => ((-1)%Z, [], fd)
  | Some bs :: fd =>
      let got := take (Z.to_nat n) bs in
      (Z.of_nat (length got), got, match drop (Z.to_nat n) bs with [] => fd | rest => Some rest :: fd end)
  end.

(** The bytes [got] have been stored behind the contents; [n] is their number or
    the error. *)
Definition was_read (p : loc) (n : Z) (got : list Z) : st world Z :=
  b ← bld p;
  _ ← blk_write (data b) (skip b + used b) got;
  _ ← (if bool_decide (n > 0)%Z then bupd p (λ b, set_used (u32 (used b + n)) b) else mret tt);
  b ← bld p;
  _ ← blk_put (data b) (u32 (skip b + used b)) 0;
  mret n.
Definition fbuf_fread (p : loc) (file : list Z) (explen : Z) : st world (Z * list Z) :=
  let explen := if bool_decide (explen = 0)%Z then FBUF_READ_EST else explen in
  b ← bld p;
  r ← fbuf_extend p (u32 (used b + explen));
  if bool_decide (r = 0)%Z then mret ((-1)%Z, file)
  else
    let '(got, file) := fread file explen in
    n ← was_read p (i32 (Z.of_nat (length got))) got; mret (n, file).
Definition fbuf_read (p : loc) (fd : list (option (list Z))) (explen : Z)
    : st world (Z * list (option (list Z))) :=
  let explen := if bool_decide (explen = 0)%Z then FBUF_READ_EST else explen in
  b ← bld p;
  r ← fbuf_extend p (u32 (used b + explen));
  if bool_decide (r = 0)%Z then mret ((-1)%Z, fd)
  else
    let '(n, got, fd) := read fd explen in
    n ← was_read p (i32 n) got; mret (n, fd).

Section ReadLine.
Context {F : Type} (get : F → Z * list Z * F).
(** The loop of fbuf_fread_ln and fbuf_read_ln, [get] reading one byte; [false]
    if it returns -1. *)
Fixpoint read_ln_loop (n : nat) (p : loc) (f : F) : st world (bool * F) :=
  b ← bld p;
  c ← (if bool_decide (used b = 0)%Z then mret None
       else c ← blk_get (data b) (u32 (u32 (skip b + used b) - 1)); mret (Some c));
  if bool_decide (c = Some 10%Z) then mret (true, f)
  else
    match n with
    | O => st_fault
    | S n =>
        r ← fbuf_extend p (u32 (used b + 1));
        if bool_decide (r = 0)%Z then mret (false, f)
        else
          b ← bld p;
          let '(rb, got, f) := get f in
          _ ← blk_write (data b) (skip b + used b) got;
          if bool_decide (rb > 0)%Z then
            _ ← bupd p (set_used (u32 (used b + 1))); read_ln_loop n p f
          else mret (false, f)
    end.
Definition strip_ln (p : loc) (initial : Z) : st world Z :=
  b ← bld p;
  let u := u32 (used b - 1) in
  _ ← bupd p (set_used u);
  _ ← blk_put (data b) (u32 (skip b + u)) 0;
  c ← (if bool_decide (u = 0)%Z then mret None
       else c ← blk_get (data b) (u32 (u32 (skip b + u) - 1)); mret (Some c));
  u ← (if bool_decide (c = Some 13%Z) then
         _ ← bupd p (set_used (u - 1)%Z); _ ← blk_put (data b) (u32 (skip b + (u - 1))) 0; mret (u - 1)%Z
       else mret u);
  mret (i32 (u32 (u - initial))).
Definition read_ln (n : nat) (p : loc) (f : F) : st world (Z * F) :=
  b ← bld p;
  let initial := i32 (used b) in
  '(ok, f) ← read_ln_loop n p f;
  if ok : bool then r ← strip_ln p initial; mret (r, f) else mret ((-1)%Z, f).
End ReadLine.
Definition fbuf_fread_ln (p : loc) (file : list Z) : st world (Z * list Z) :=
  read_ln (λ file, let '(got, file) := fread file 1 in (Z.of_nat (length got), got, file)) (length file + 1) p file.
Definition fd_size (fd : list (option (list Z))) : nat := length (concat (default [] <$> fd)) + length fd.
Definition fbuf_read_ln (p : loc) (fd : list (option (list Z))) : st world (Z * list (option (list Z))) :=
  read_ln (λ fd, read fd 1) (fd_size fd + 1) p fd.

(** [write n] is the result of the call for [n] bytes.  The second result are
    the bytes written. *)
Definition fbuf_write (write : Z → Z) (p : loc) (nbytes : Z) : st world (Z * list Z) :=
  b ← bld p;
  let nbytes := if bool_decide (nbytes = 0)%Z then used b else nbytes in
  let nbytes := if bool_decide (nbytes > used b)%Z then used b else nbytes in
  if bool_decide (nbytes > 0)%Z then
    let n := i32 (write nbytes) in
    bs ← blk_read (data b) (skip b) nbytes;
    _ ← (if bool_decide (n > 0)%Z then _ ← fbuf_remove p (u32 n); mret tt else mret tt);
    mret (n, take (Z.to_nat n) bs)
  else mret (0%Z, []).
End FBuf.
