(* ===== verification/FBufRep.v ===== *)
(** * Growing buffers as byte strings

    [mem_is] relates the pointer, the length and the number of skipped bytes of a
    buffer to its contents: the block is skipped bytes, contents and room for at
    least one more byte, which is zero if the buffer is terminated.  Allocation
    succeeds throughout. *)
From S2P Require Import Prelude Heap FBuf.

(** ** Rules *)
Definition with_buf (p : loc) (b : fbuf_t) (w : world) : world :=
  mk_world (<[p := b]> (w_bufs w)) (w_blocks w) (w_next w) (w_count w).
Definition with_block (d : loc) (c : list Z) (w : world) : world :=
  mk_world (w_bufs w) (<[d := c]> (w_blocks w)) (w_next w) (w_count w).
Definition with_new (c : list Z) (w : world) : world :=
  mk_world (w_bufs w) (<[w_next w := c]> (w_blocks w)) (Pos.succ (w_next w)) (w_count w).
Definition without (d : loc) (w : world) : world :=
  mk_world (w_bufs w) (delete d (w_blocks w)) (w_next w) (w_count w).

Lemma wp_bld p b (Q : fbuf_t → world → Prop) w : w_bufs w !! p = Some b → Q b w → wp (bld p) Q w.
Proof. unfold wp, bld. by intros ->. Qed.
Lemma wp_bupd p b f (Q : unit → world → Prop) w :
  w_bufs w !! p = Some b → Q tt (with_buf p (f b) w) → wp (bupd p f) Q w.
Proof. unfold wp, bupd. by intros ->. Qed.
Lemma wp_wlift {A} (m : outcome A) a (Q : A → world → Prop) w : m = Ret a → Q a w → wp (wlift m) Q w.
Proof. unfold wp, wlift. by intros ->. Qed.
Lemma wp_block d c (Q : list Z → world → Prop) w : w_blocks w !! d = Some c → Q c w → wp (block (Some d)) Q w.
Proof. unfold wp, block. by intros ->. Qed.
Lemma wp_blk_read d c off n (Q : list Z → world → Prop) w :
  w_blocks w !! d = Some c → (0 ≤ off)%Z → (0 ≤ n)%Z → (off + n ≤ Z.of_nat (length c))%Z →
  Q (take (Z.to_nat n) (drop (Z.to_nat off) c)) w → wp (blk_read (Some d) off n) Q w.
Proof. intros Hd H1 H2 H3 HQ. apply wp_bind. eapply wp_block; [done|]. eapply wp_wlift; [by apply mem_read_ok|done]. Qed.
Lemma wp_blk_write d c off bs (Q : unit → world → Prop) w :
  w_blocks w !! d = Some c → (0 ≤ off)%Z → (off + Z.of_nat (length bs) ≤ Z.of_nat (length c))%Z →
  Q tt (with_block d (blit (Z.to_nat off) bs c) w) → wp (blk_write (Some d) off bs) Q w.
Proof.
  intros Hd H1 H2 HQ. apply wp_bind. eapply wp_block; [done|]. apply wp_bind. eapply wp_wlift.
  { unfold mem_write. by rewrite bool_decide_eq_true_2. }
  done.
Qed.
Lemma wp_blk_get d c i x (Q : Z → world → Prop) w :
  w_blocks w !! d = Some c → (0 ≤ i)%Z → c !! Z.to_nat i = Some x → Q x w → wp (blk_get (Some d) i) Q w.
Proof.
  intros Hd Hi Hx HQ. apply wp_bind. eapply wp_block; [done|]. eapply wp_wlift; [|done].
  unfold get_cell. by rewrite bool_decide_eq_true_2, Hx.
Qed.
Lemma wp_free_block d c (Q : unit → world → Prop) w :
  w_blocks w !! d = Some c → Q tt (without d w) → wp (free (Some d)) Q w.
Proof. intros Hd HQ. apply wp_bind. by eapply wp_block. Qed.

(** ** Lists *)
Section Blits.
Context {A : Type}.
Implicit Types (pre s bs rest : list A).
(** A write behind [pre ++ s]. *)
Lemma blit_at k pre bs rest :
  k = length pre → blit k bs (pre ++ rest) = pre ++ bs ++ drop (length bs) rest.
Proof.
  intros ->. unfold blit. rewrite take_app_length. f_equal. f_equal.
  rewrite <-drop_drop, drop_app_length. done.
Qed.
Lemma blit_0 bs rest : blit 0 bs rest = bs ++ drop (length bs) rest.
Proof. done. Qed.
Lemma read_at k n pre s rest : k = length pre → n = length s → take n (drop k (pre ++ s ++ rest)) = s.
Proof. intros -> ->. by rewrite drop_app_length, take_app_length. Qed.
Lemma read_more k n pre s x rest :
  k = length pre → n = S (length s) → take n (drop k (pre ++ s ++ x :: rest)) = s ++ [x].
Proof.
  intros -> ->. rewrite drop_app_length. rewrite (app_assoc s [x] rest : s ++ x :: rest = _).
  rewrite take_app_length'; [done|]. rewrite length_app. simpl. lia.
Qed.
Lemma split_contents k pre s rest : pre ++ s ++ rest = (pre ++ take k s) ++ drop k s ++ rest.
Proof. by rewrite <-app_assoc, (app_assoc (take k s)), take_drop. Qed.
End Blits.

(** ** Buffers and their contents *)
(** [mem_is w o l k s t]: the pointer [o] with the fields len = [l] and
    skip = [k] holds the bytes [s]; if [t], they are terminated. *)
Inductive mem_is (w : world) : option loc → Z → Z → list Z → bool → Prop :=
| mem_null t : mem_is w None 0 0 [] t
| mem_block d pre s x rest l k t :
    w_blocks w !! d = Some (pre ++ s ++ x :: rest) →
    k = Z.of_nat (length pre) → l = Z.of_nat (length pre + length s + S (length rest)) →
    (t = true → x = 0%Z) → mem_is w (Some d) l k s t.

(** Sizes: the parameters of growth are small enough that no length overflows. *)
Record params (b : fbuf_t) : Prop := {
  pa_max : (0 ≤ maxlen b < 2 ^ 31)%Z;
  pa_min : (0 ≤ minlen b < 2 ^ 29)%Z;
  pa_fast : (0 ≤ fastgrowsize b < 2 ^ 29)%Z;
  pa_slow : (0 ≤ slowgrowsize b < 2 ^ 29)%Z;
  pa_order : (default_to (slowgrowsize b) FBUF_SLOWGROWSIZE ≤ default_to (fastgrowsize b) FBUF_FASTGROWSIZE)%Z
}.
Definition same_params (b b' : fbuf_t) : Prop :=
  maxlen b' = maxlen b ∧ minlen b' = minlen b ∧ fastgrowsize b' = fastgrowsize b ∧ slowgrowsize b' = slowgrowsize b.
Definition fresh (w : world) : Prop :=
  ∀ k, (w_next w ≤ k)%positive → w_bufs w !! k = None ∧ w_blocks w !! k = None.

Record fb_is (w : world) (p : loc) (b : fbuf_t) (s : list Z) (t : bool) : Prop := {
  fi_buf : w_bufs w !! p = Some b;
  fi_used : used b = Z.of_nat (length s);
  fi_mem : mem_is w (data b) (len b) (skip b) s t;
  fi_max : maxlen b ≠ 0%Z → (len b ≤ maxlen b + 1)%Z;
  fi_len : (len b < 2 ^ 31)%Z;
  fi_params : params b;
  fi_fresh : fresh w
}.

(** What an operation on [p] leaves alone: other buffers, and blocks that are not
    its own. *)
Definition frame (p : loc) (b b' : fbuf_t) (w w' : world) : Prop :=
  (∀ q, q ≠ p → w_bufs w' !! q = w_bufs w !! q) ∧
  (∀ d, Some d ≠ data b → (d < w_next w)%positive → w_blocks w' !! d = w_blocks w !! d) ∧
  (w_next w ≤ w_next w')%positive ∧
  (data b' = data b ∨ ∀ d, data b' = Some d → (w_next w ≤ d)%positive) ∧
  same_params b b'.

Lemma frame_refl p b w : frame p b b w w.
Proof. split_and!; try done. by left. Qed.

Lemma mem_is_term w o l k s t : mem_is w o l k s t → mem_is w o l k s false.
Proof. destruct 1; [by constructor|]. by eapply mem_block. Qed.
Lemma fb_is_term w p b s t : fb_is w p b s t → fb_is w p b s false.
Proof. intros []. split; eauto using mem_is_term. Qed.

Lemma u32_small x : (0 ≤ x < 2 ^ 32)%Z → u32 x = x.
Proof. intros. unfold u32. by rewrite Z.mod_small. Qed.

Lemma mem_is_sizes w o l k s t :
  mem_is w o l k s t → (0 ≤ k)%Z ∧ (o = None ∧ s = [] ∧ l = 0 ∧ k = 0 ∨ o ≠ None ∧ k + Z.of_nat (length s) + 1 ≤ l)%Z.
Proof. destruct 1; split; try lia; [by left|]. right. split; [done|lia]. Qed.

Lemma frame_trans p b1 b2 b3 w1 w2 w3 :
  frame p b1 b2 w1 w2 → frame p b2 b3 w2 w3 → frame p b1 b3 w1 w3.
Proof.
  intros (Hb & Hk & Hn & Hd & Hp) (Hb' & Hk' & Hn' & Hd' & Hp'). split_and!; [| |lia| |].
  - intros q Hq. by rewrite Hb', Hb.
  - intros d Hne Hlt. rewrite Hk', Hk; [done|done|done| |lia].
    destruct Hd as [->|Hd]; [done|]. intros ?. specialize (Hd d ltac:(congruence)). lia.
  - destruct Hd' as [Hd'|Hd']; [|right; intros d ?; specialize (Hd' d ltac:(done)); lia].
    destruct Hd as [Hd|Hd]; [left; congruence|]. right. intros d Hd3. apply Hd. congruence.
  - unfold same_params in *. intuition congruence.
Qed.

(** Fields change, the pointer does not; a change inside the own block. *)
Lemma frame_buf p b b' w : same_params b b' → data b' = data b → frame p b b' w (with_buf p b' w).
Proof. intros. split_and!; try done; [|by left]. intros q Hq. cbn. by rewrite lookup_insert_ne. Qed.
Lemma frame_block p b d c w : data b = Some d → frame p b b w (with_block d c w).
Proof.
  intros Hd. split_and!; try done; [|by left]. intros k Hk _. cbn. rewrite lookup_insert_ne; [done|]. congruence.
Qed.

Lemma fresh_buf p b0 b w : w_bufs w !! p = Some b0 → fresh w → fresh (with_buf p b w).
Proof.
  intros Hp Hf k Hk. destruct (Hf k Hk) as [H1 H2]. split; [|done]. cbn. rewrite lookup_insert_ne; [done|].
  intros ->. congruence.
Qed.
Lemma fresh_block d c0 c w : w_blocks w !! d = Some c0 → fresh w → fresh (with_block d c w).
Proof.
  intros Hp Hf k Hk. destruct (Hf k Hk) as [H1 H2]. split; [done|]. cbn. rewrite lookup_insert_ne; [done|].
  intros ->. congruence.
Qed.
Lemma fresh_new c w : fresh w → fresh (with_new c w).
Proof.
  intros Hf k Hk. cbn in *. destruct (Hf k) as [H1 H2]; [lia|]. split; [done|]. rewrite lookup_insert_ne; [done|lia].
Qed.
Lemma fresh_without d w : fresh w → fresh (without d w).
Proof. intros Hf k Hk. destruct (Hf k Hk) as [H1 H2]. split; [done|]. cbn. by rewrite lookup_delete_None; right. Qed.
Lemma fresh_lt d c w : fresh w → w_blocks w !! d = Some c → (d < w_next w)%positive.
Proof. intros Hf Hd. destruct (decide (w_next w ≤ d)%positive) as [Hle|]; [|lia]. destruct (Hf d Hle) as [_ ?]. congruence. Qed.
#[export] Hint Resolve fresh_buf fresh_block fresh_new fresh_without frame_refl : fbuf.

Lemma mem_is_inv w o l k s t :
  mem_is w o l k s t →
  (o = None ∧ l = 0%Z ∧ k = 0%Z ∧ s = []) ∨
  ∃ d pre x rest, o = Some d ∧ w_blocks w !! d = Some (pre ++ s ++ x :: rest) ∧ k = Z.of_nat (length pre) ∧
    l = Z.of_nat (length pre + length s + S (length rest)) ∧ (t = true → x = 0%Z).
Proof. destruct 1; [by left|]. right. eauto 10. Qed.
Lemma fb_is_block w p b s t :
  fb_is w p b s t → data b ≠ None →
  ∃ d pre x rest, data b = Some d ∧ w_blocks w !! d = Some (pre ++ s ++ x :: rest) ∧ skip b = Z.of_nat (length pre) ∧
    len b = Z.of_nat (length pre + length s + S (length rest)) ∧ (t = true → x = 0%Z).
Proof. intros [_ _ [?|?]%mem_is_inv _ _ _ _] Hd; naive_solver. Qed.

(** Lookups in a store that was just changed. *)
Ltac world := cbn [w_bufs w_blocks w_next with_buf with_block with_new without]; rewrite ?lookup_insert_eq.

Section Growing.
Context (malloc_ok : Z → bool) (junk : nat → Z) (Hok : ∀ n, malloc_ok n = true).

Lemma wp_malloc n (Q : option loc → world → Prop) w :
  Q (Some (w_next w)) (with_new (junk <$> seq 0 (Z.to_nat n)) w) → wp (malloc malloc_ok junk n) Q w.
Proof using Hok. intros HQ. unfold malloc. by rewrite Hok. Qed.

(** A block of [n] bytes that begins with the old one, or with the part of it
    that fits. *)
Lemma wp_realloc d c n (Q : option loc → world → Prop) w :
  w_blocks w !! d = Some c → fresh w →
  (∀ tail, Z.of_nat (length (take (Z.to_nat n) c ++ tail)) = Z.max 0 n →
     Q (Some (w_next w)) (without d (with_new (take (Z.to_nat n) c ++ tail) w))) →
  wp (realloc malloc_ok junk (Some d) n) Q w.
Proof using Hok.
  intros Hd Hf HQ. pose proof (fresh_lt _ _ _ Hf Hd) as Hlt. apply wp_bind. eapply wp_block; [done|]. apply wp_bind, wp_malloc.
  apply wp_bind. eapply wp_blk_write; [by world|done| |].
  { rewrite length_fmap, length_seq, length_take. lia. }
  apply wp_bind. eapply wp_free_block; [world; by rewrite lookup_insert_ne, lookup_insert_ne by lia|]. apply wp_ret.
  change (Z.to_nat 0) with 0. rewrite blit_0. set (tail := drop _ _).
  assert (∀ c', without d (with_block (w_next w) c' (with_new (junk <$> seq 0 (Z.to_nat n)) w)) = without d (with_new c' w)) as ->.
  { intros c'. unfold without, with_block, with_new. cbn. by rewrite insert_insert_eq. }
  apply HQ. unfold tail. rewrite length_app, length_drop, length_fmap, length_seq, length_take. lia.
Qed.
Lemma wp_realloc_null n (Q : option loc → world → Prop) w :
  (0 ≤ n)%Z → (∀ c, Z.of_nat (length c) = n → Q (Some (w_next w)) (with_new c w)) →
  wp (realloc malloc_ok junk None n) Q w.
Proof using Hok.
  intros Hn HQ. apply wp_bind, wp_ret. apply wp_bind, wp_malloc. apply wp_bind. eapply wp_blk_write; [by world|done|..].
  { rewrite take_nil. cbn. lia. }
  apply wp_bind, wp_ret, wp_ret. rewrite take_nil. rewrite blit_0. cbn [length app]. rewrite drop_0.
  unfold with_block, with_new. cbn. rewrite insert_insert_eq. apply HQ. rewrite length_fmap, length_seq. lia.
Qed.

(** ** Extension *)
Lemma to_front_ok p w b s t :
  fb_is w p b s t → data b ≠ None →
  wp (to_front p) (λ _ w', ∃ b', fb_is w' p b' s (bool_decide (s = []) || t) ∧ skip b' = 0%Z ∧ data b' = data b ∧ len b' = len b ∧ frame p b b' w w') w.
Proof.
  intros Hi Hd. destruct (fb_is_block _ _ _ _ _ Hi Hd) as (d & pre & x & rest & Hdd & Hc & Hk & Hl & Ht).
  destruct Hi as [Hb Hu _ Hmax Hlen Hpa Hf]. unfold to_front. apply wp_bind. eapply wp_bld; [done|]. rewrite Hdd, Hk.
  set (c' := s ++ (if bool_decide (s = []) then 0%Z else x) :: drop (length s + 1) (pre ++ s ++ x :: rest)).
  assert (wp (if bool_decide (used b ≠ 0)%Z
      then bs ← blk_read (Some d) (Z.of_nat (length pre)) (u32 (used b + 1)); blk_write (Some d) 0 bs
      else blk_put (Some d) 0 0) (λ _ w', w' = with_block d c' w) w) as Hgo.
  { case_bool_decide as Hs.
    - assert (s ≠ []) as Hne by (intros ->; apply Hs; rewrite Hu; done).
      apply wp_bind. rewrite Hu, u32_small by lia. eapply wp_blk_read; [done|lia|lia| |].
      { rewrite !length_app. cbn [length]. lia. }
      rewrite read_more by lia. eapply wp_blk_write; [done|done|rewrite !length_app; cbn [length]; lia|].
      change (Z.to_nat 0) with 0. rewrite blit_0, <-app_assoc, length_app. unfold c'. by rewrite bool_decide_eq_false_2.
    - assert (s = []) as -> by (apply length_zero_iff_nil; lia).
      eapply wp_blk_write; [done|done|rewrite !length_app; cbn [length]; lia|].
      change (Z.to_nat 0) with 0. rewrite blit_0. done. }
  apply wp_bind. eapply wp_mono; [exact Hgo|]. intros [] w' ->.
  eapply wp_bupd; [done|].
  exists (set_skip 0 b). split_and!; [|done|done|done|].
  - split; [by world|done| |done|done|by destruct Hpa|].
    + cbn [data set_skip len skip]. rewrite Hdd. eapply (mem_block _ d [] s); [by world|done| |].
      * cbn [length]. rewrite !length_drop, !length_app. cbn [length]. lia.
      * intros Htt. unfold c' in *. case_bool_decide; [done|by apply Ht].
    + eapply fresh_buf; [by world|]. by eapply fresh_block.
  - eapply frame_trans; [by apply (frame_block _ _ d)|]. by apply frame_buf.
Qed.

Lemma default_to_bound x y m : (0 ≤ x < m)%Z → (0 < y < m)%Z → (0 < default_to x y < m)%Z.
Proof. unfold default_to. case_bool_decide; lia. Qed.

Lemma grow_len_ok b newlen fuel l :
  params b → (0 ≤ l)%Z → (newlen ≤ 2 ^ 30)%Z → (newlen - l ≤ Z.of_nat fuel)%Z →
  ∃ l', grow fuel b newlen l = Ret l' ∧ (newlen ≤ l' ∧ l ≤ l' ∧ l' ≤ Z.max l (2 ^ 31 - 1))%Z.
Proof.
  intros Hpa. pose proof (default_to_bound (minlen b) FBUF_MINLEN (2 ^ 29) (pa_min _ Hpa) ltac:(done)) as Hmin.
  pose proof (default_to_bound (fastgrowsize b) FBUF_FASTGROWSIZE (2 ^ 29) (pa_fast _ Hpa) ltac:(done)) as Hfast.
  pose proof (default_to_bound (slowgrowsize b) FBUF_SLOWGROWSIZE (2 ^ 29) (pa_slow _ Hpa) ltac:(done)) as Hslow.
  revert l. induction fuel as [|fuel IH]; intros l Hl Hn Hfuel; cbn [grow].
  - rewrite bool_decide_eq_false_2 by lia. exists l. split; [done|lia].
  - case_bool_decide as Hgt; [|exists l; split; [done|lia]].
    match goal with |- context [grow fuel b newlen ?x] => set (l1 := x) end.
    assert (l < l1 < 2 ^ 31)%Z as Hl1.
    { unfold l1. case_bool_decide; [lia|]. case_bool_decide; [lia|]. rewrite u32_small; lia. }
    destruct (IH l1) as (l' & -> & ?); [lia|lia|lia|]. exists l'. split; [done|lia].
Qed.

(** The store after a new block has been put under the buffer. *)
Lemma new_block_at p w b s0 t0 b' w' s x rest t :
  fb_is w p b s0 t0 → w_bufs w' = <[p := b']> (w_bufs w) → w_next w' = Pos.succ (w_next w) →
  data b' = Some (w_next w) → skip b' = 0%Z → used b' = Z.of_nat (length s) → same_params b b' →
  (len b' < 2 ^ 31)%Z → (maxlen b ≠ 0 → len b' ≤ maxlen b + 1)%Z →
  w_blocks w' !! w_next w = Some (s ++ x :: rest) → Z.of_nat (length (s ++ x :: rest)) = len b' → (t = true → x = 0%Z) →
  (∀ k, (w_next w < k)%positive → w_blocks w' !! k = None) →
  (∀ k, Some k ≠ data b → (k < w_next w)%positive → w_blocks w' !! k = w_blocks w !! k) →
  fb_is w' p b' s t ∧ frame p b b' w w'.
Proof.
  intros [Hb _ _ _ _ Hpa Hf] Hbw Hnw Hd Hs Hu Hsp Hl Hml Hcw Hc Ht Hfr Hk. pose proof Hsp as (H1 & H2 & H3 & H4). split.
  - split; [by rewrite Hbw, lookup_insert_eq|done| |by rewrite H1|done| |].
    + rewrite Hd, Hs. eapply (mem_block _ _ [] s); [done|done| |done]. rewrite <-Hc, length_app. cbn [length]. lia.
    + destruct Hpa. by split; rewrite ?H1, ?H2, ?H3, ?H4.
    + intros k Hkn. rewrite Hnw in Hkn. split; [|apply Hfr; lia]. rewrite Hbw, lookup_insert_ne; [apply Hf; lia|].
      intros ->. destruct (Hf k) as [? _]; [lia|]. congruence.
  - split_and!; [|done|lia|right; intros ? ?; simplify_eq; lia|done]. intros q Hq. by rewrite Hbw, lookup_insert_ne.
Qed.

Lemma new_block_is p w b s t l w' x rest t' :
  fb_is w p b s t → (l < 2 ^ 31)%Z → (maxlen b ≠ 0 → l ≤ maxlen b + 1)%Z →
  w_bufs w' = <[p := set_data (Some (w_next w)) (set_skip 0 (set_len l b))]> (w_bufs w) → w_next w' = Pos.succ (w_next w) →
  w_blocks w' !! w_next w = Some (s ++ x :: rest) → Z.of_nat (length (s ++ x :: rest)) = l → (t' = true → x = 0%Z) →
  (∀ k, (w_next w < k)%positive → w_blocks w' !! k = None) →
  (∀ k, Some k ≠ data b → (k < w_next w)%positive → w_blocks w' !! k = w_blocks w !! k) →
  ∃ b', l = l ∧ fb_is w' p b' s t' ∧ len b' = l ∧ skip b' = 0%Z ∧ data b' ≠ None ∧ frame p b b' w w'.
Proof.
  intros Hi Hl Hml Hbw Hnw Hcw Hc Ht Hfr Hk. exists (set_data (Some (w_next w)) (set_skip 0 (set_len l b))).
  destruct (new_block_at p w b s t _ w' s x rest t' Hi Hbw Hnw) as [H1 H2]; [done..|apply Hi|done|done|done|done|done|done|done|done|].
  by split_and!.
Qed.

Lemma new_block_ok p w b s t l :
  fb_is w p b s t → (len b ≤ l < 2 ^ 31)%Z → (Z.of_nat (length s) + 1 ≤ l)%Z → (maxlen b ≠ 0 → l ≤ maxlen b + 1)%Z →
  wp (new_block malloc_ok junk p) (λ r w', ∃ b', r = l ∧ fb_is w' p b' s (t && bool_decide (skip b = 0%Z)) ∧
    len b' = l ∧ skip b' = 0%Z ∧ data b' ≠ None ∧ frame p b b' w w') (with_buf p (set_len l b) w).
Proof using Hok.
  intros Hi Hl Hs Hml. pose proof Hi as [Hb Hu Hm _ _ Hpa Hf].
  set (b1 := set_len l b). assert (w_bufs (with_buf p b1 w) !! p = Some b1) as Hb1 by (by world).
  unfold new_block. apply wp_bind. eapply wp_bld; [done|]. cbn [skip b1 set_len data len].
  destruct (mem_is_inv _ _ _ _ _ _ Hm) as [(Hd & Hlb & Hk & ->)|(d & pre & x & rest & Hd & Hc & Hk & Hlb & Ht)]; rewrite Hk, Hd.
  - rewrite (bool_decide_eq_false_2 (0 ≠ 0)%Z), (bool_decide_eq_true_2 (None = None)) by (done || lia). apply wp_bind.
    apply wp_realloc_null; [lia|]. intros c Hc. apply wp_bind. eapply wp_blk_write; [by world|done|cbn; lia|].
    apply wp_bind. eapply wp_bupd; [by world|]. apply wp_ret. destruct c as [|y c]; [cbn in Hc, Hs; lia|].
    eapply (new_block_is p w b [] t l _ 0%Z c); [done|lia|done| |done| |done|done| |].
    + cbn. rewrite insert_insert_eq. unfold b1, set_data, set_skip, set_len. cbn. by rewrite Hk.
    + world. done.
    + intros k Hkn. world. rewrite !lookup_insert_ne by lia. apply Hf. lia.
    + intros k _ Hkn. world. rewrite !lookup_insert_ne by lia. done.
  - pose proof (fresh_lt _ _ _ Hf Hc) as Hlt. rewrite (bool_decide_eq_false_2 (Some d = None)) by done.
    destruct (decide (Z.of_nat (length pre) ≠ 0%Z)) as [Hk0|Hk0].
    + rewrite (bool_decide_eq_true_2 (Z.of_nat (length pre) ≠ 0%Z)) by done.
      rewrite (bool_decide_eq_false_2 (Z.of_nat (length pre) = 0%Z)), andb_false_r by done. apply wp_bind, wp_bind, wp_malloc.
      set (w1 := with_new _ _).
      assert (wp (if bool_decide (used b ≠ 0)%Z
        then bs ← blk_read (Some d) (Z.of_nat (length pre)) (used b); blk_write (Some (w_next (with_buf p b1 w))) 0 bs else mret tt)
        (λ _ w', w' = with_block (w_next w) (s ++ drop (length s) (junk <$> seq 0 (Z.to_nat l))) w1) w1) as Hgo.
      { case_bool_decide as Hs0.
        - apply wp_bind. eapply wp_blk_read; [unfold w1; world; by rewrite lookup_insert_ne by lia|lia|lia| |].
          { rewrite !length_app. cbn [length]. lia. }
          rewrite read_at by lia. eapply wp_blk_write; [unfold w1; by world|done|rewrite length_fmap, length_seq; cbn; lia|done].
        - assert (s = []) as -> by (apply length_zero_iff_nil; lia). apply wp_ret.
          unfold with_block, w1, with_new. cbn. by rewrite insert_insert_eq. }
      apply wp_bind. eapply wp_mono; [exact Hgo|]. intros [] w2 ->. apply wp_bind. eapply wp_bupd; [unfold w1; by world|].
      apply wp_ret. apply wp_bind, wp_ret, wp_bind. eapply wp_bupd; [by world|]. apply wp_ret.
      set (j := junk <$> seq 0 (Z.to_nat l)). assert (length j = Z.to_nat l) as Hj by (unfold j; by rewrite length_fmap, length_seq).
      destruct (drop (length s) j) as [|y rest'] eqn:Hdr.
      { apply (f_equal length) in Hdr. rewrite length_drop in Hdr. cbn in Hdr. lia. }
      eapply (new_block_is p w b s t l _ y rest'); [done|lia|done| |done| | |done| |].
      * cbn. by rewrite !insert_insert_eq.
      * unfold w1. world. done.
      * rewrite <-Hdr, length_app, length_drop. lia.
      * intros k Hkn. unfold w1. world. rewrite !lookup_insert_ne by lia. apply Hf. lia.
      * intros k _ Hkn. unfold w1. world. rewrite !lookup_insert_ne by lia. done.
    + destruct pre; [|cbn in Hk0; lia]. rewrite (bool_decide_eq_false_2 (Z.of_nat (length []) ≠ 0%Z)) by done.
      rewrite (bool_decide_eq_true_2 (Z.of_nat (length []) = 0%Z)), andb_true_r by done.
      apply wp_bind. eapply wp_realloc; [by world|by eapply fresh_buf|]. intros tail Htl. cbn [app length] in *.
      rewrite take_ge in * by (rewrite length_app; cbn [length]; lia). apply wp_bind, wp_ret, wp_bind. eapply wp_bupd; [by world|].
      apply wp_ret. eapply (new_block_is p w b s t l _ x (rest ++ tail)); [done|lia|done| |done| | |done| |].
      * cbn. rewrite insert_insert_eq. unfold b1, set_data, set_skip, set_len. cbn. by rewrite Hk.
      * world. rewrite lookup_delete_ne by lia. world. by rewrite <-app_assoc.
      * rewrite <-app_assoc in Htl. cbn [app] in Htl. lia.
      * intros k Hkn. world. rewrite lookup_delete_None. right. rewrite lookup_insert_ne by lia. apply Hf. lia.
      * intros k Hne Hkn. world. rewrite lookup_delete_ne by congruence. rewrite lookup_insert_ne by lia. done.
Qed.

(** fbuf_extend makes room for [n] bytes and a terminator behind the skipped
    ones, unless that exceeds the limit. *)
Definition fits (b : fbuf_t) (n : Z) : bool := bool_decide (maxlen b = 0%Z) || bool_decide (n ≤ maxlen b)%Z.
Lemma fits_iff b n : fits b n = true ↔ maxlen b = 0%Z ∨ (n ≤ maxlen b)%Z.
Proof. unfold fits. rewrite orb_true_iff, !bool_decide_eq_true. done. Qed.
Lemma fits_not b n : fits b n = false ↔ maxlen b ≠ 0%Z ∧ (maxlen b < n)%Z.
Proof. unfold fits. rewrite orb_false_iff, !bool_decide_eq_false. lia. Qed.

Definition extended (p : loc) (b : fbuf_t) (s : list Z) (n : Z) (t : bool) (w : world) (r : Z) (w' : world) : Prop :=
  if fits b n
  then ∃ b', (0 < r)%Z ∧ fb_is w' p b' s t ∧ data b' ≠ None ∧ (n + 1 ≤ len b' - skip b')%Z ∧ frame p b b' w w'
  else r = 0%Z ∧ w' = w.

Lemma fbuf_extend_ok p w b s t n :
  fb_is w p b s t → (0 ≤ n < 2 ^ 30)%Z →
  wp (fbuf_extend malloc_ok junk p n) (extended p b s n (t && (bool_decide (n < len b)%Z || bool_decide (skip b = 0%Z))) w) w.
Proof using Hok.
  intros Hi Hn. pose proof Hi as [Hb Hu Hm Hmax Hlen Hpa Hf]. unfold fbuf_extend.
  rewrite u32_small by lia. apply wp_bind. eapply wp_bld; [done|]. pose proof (mem_is_sizes _ _ _ _ _ _ Hm) as [Hk Hsz].
  assert (0 ≤ len b - skip b < 2 ^ 31)%Z as Hav by lia. rewrite u32_small by lia. unfold extended.
  pose proof (pa_max _ Hpa) as Hpm. case_bool_decide as Hfit.
  { apply wp_ret. assert (fits b n = true) as -> by (apply fits_iff; lia). rewrite (bool_decide_eq_true_2 (n < len b)%Z), andb_true_r by lia.
    exists b. split_and!; [lia|done|naive_solver lia|lia|apply frame_refl]. }
  case_bool_decide as Hs0; cbn [andb]; [case_bool_decide as Hfit2|].
  { apply wp_bind. eapply wp_mono; [apply to_front_ok; [done|naive_solver lia]|]. intros [] w' (b' & Hi' & Hs' & Hd' & Hl' & Hfr).
    apply wp_ret. assert (fits b n = true) as -> by (apply fits_iff; lia). rewrite (bool_decide_eq_true_2 (n < len b)%Z), andb_true_r by lia.
    exists b'. split_and!; [lia| |rewrite Hd'; naive_solver lia|rewrite Hs', Hl'; lia|done].
    destruct (bool_decide (s = [])); [|done]. cbn in Hi'. destruct t; [done|by eapply fb_is_term]. }
  all: rewrite (bool_decide_eq_false_2 (n < len b)%Z) by lia; rewrite u32_small by lia; unfold FBUF_MAXLEN_NONE.
  all: assert (bool_decide (maxlen b ≠ 0%Z) && bool_decide (n + 1 > maxlen b + 1)%Z = negb (fits b n)) as ->
    by (unfold fits; repeat case_bool_decide; cbn; try done; lia).
  all: destruct (fits b n) eqn:Hfits; cbn [negb]; [|by apply wp_ret].
  all: apply fits_iff in Hfits; destruct (grow_len_ok b (n + 1) (Z.to_nat (n + 1) + 2) (len b)) as (l & Hg & Hgl); [done|lia|lia|lia|].
  all: apply wp_bind; eapply wp_wlift; [exact Hg|]; apply wp_bind; eapply wp_bupd; [done|].
  all: set (l' := if _ && _ then _ else _).
  all: assert (n + 1 ≤ l' ∧ len b ≤ l' ∧ l' < 2 ^ 31 ∧ (maxlen b ≠ 0 → l' ≤ maxlen b + 1))%Z as Hl'
    by (unfold l'; destruct (decide (maxlen b = 0%Z)); [rewrite bool_decide_eq_false_2 by lia; cbn; lia|];
        rewrite bool_decide_eq_true_2 by done; cbn; case_bool_decide; lia).
  all: rewrite bool_decide_eq_false_2 by lia.
  all: eapply wp_mono; [apply (new_block_ok p w b s t l'); [done|lia|destruct Hsz as [(_ & -> & _)|]; cbn; lia|lia]|].
  all: intros r w' (b' & -> & Hi' & Hlb & Hsb & Hdb & Hfr); exists b'; split_and!; [lia|done|done|lia|done].
Qed.

(** ** Shrinking *)
Lemma shrink_loop_ok b fuel l :
  params b → (0 ≤ used b < 2 ^ 31)%Z → (used b + 1 ≤ l < 2 ^ 31)%Z → (l ≤ Z.of_nat fuel)%Z →
  ∃ l', shrink_loop fuel b l = Ret l' ∧ (used b + 1 ≤ l' ≤ l)%Z.
Proof.
  intros Hpa Hu. pose proof (pa_min _ Hpa). pose proof (pa_order _ Hpa).
  pose proof (default_to_bound (slowgrowsize b) FBUF_SLOWGROWSIZE (2 ^ 29) (pa_slow _ Hpa) ltac:(done)) as Hslow.
  revert l. induction fuel as [|fuel IH]; intros l Hl Hfuel; [lia|]. cbn [shrink_loop].
  case_bool_decide as Hmin; [exists l; split; [done|lia]|].
  match goal with |- context [shrink_loop fuel b ?x] => set (l1 := x) end.
  assert (l1 < l < 2 ^ 31)%Z as Hl1.
  { unfold l1. case_bool_decide; [split; [apply Z.div_lt; lia|lia]|]. rewrite u32_small; lia. }
  rewrite (u32_small (used b + 1)) by lia. case_bool_decide as Hgo; [|exists l; split; [done|lia]].
  destruct (IH l1) as (l' & -> & ?); [lia|lia|]. exists l'. split; [done|lia].
Qed.

Lemma shrink_loop_0 fuel b : params b → shrink_loop fuel b 0 = Ret 0%Z.
Proof. intros Hpa. pose proof (pa_min _ Hpa). destruct fuel; cbn [shrink_loop]; by rewrite bool_decide_eq_true_2 by lia. Qed.

Lemma free_is p w b s t w' :
  fb_is w p b s t → w_bufs w' = <[p := set_len 0 (set_data None (set_skip 0 (set_used 0 b)))]> (w_bufs w) → w_next w' = w_next w →
  (∀ k, Some k ≠ data b → w_blocks w' !! k = w_blocks w !! k) → (∀ k, data b = Some k → w_blocks w' !! k = None) →
  fb_is w' p (set_len 0 (set_data None (set_skip 0 (set_used 0 b)))) [] true ∧
  frame p b (set_len 0 (set_data None (set_skip 0 (set_used 0 b)))) w w'.
Proof.
  intros [Hb Hu Hm Hmax Hlen Hpa Hf] Hbw Hnw Hk Hd. pose proof (pa_max _ Hpa). split.
  - split; [by rewrite Hbw, lookup_insert_eq|done|constructor|cbn; lia|done|by destruct Hpa|]. intros k Hkn. rewrite Hnw in Hkn.
    destruct (Hf k Hkn) as [H1 H2]. split.
    + rewrite Hbw, lookup_insert_ne; [done|]. intros ->. congruence.
    + destruct (decide (data b = Some k)); [by apply Hd|]. by rewrite Hk.
  - split_and!; [|intros; by apply Hk|by rewrite Hnw|by right|done]. intros q Hq. by rewrite Hbw, lookup_insert_ne.
Qed.

Definition has (b : fbuf_t) : bool := bool_decide (data b ≠ None).
Lemma has_Some b : has b = true ↔ data b ≠ None.
Proof. apply bool_decide_eq_true. Qed.
Lemma has_None b : data b = None → has b = false.
Proof. intros H. apply bool_decide_eq_false_2. intros Hn. by apply Hn. Qed.
(** The outcome of an operation: result, contents, terminated, with a block. *)
Definition becomes (p : loc) (w : world) (b : fbuf_t) (s : list Z) (t al : bool) (w' : world) : Prop :=
  ∃ b', fb_is w' p b' s t ∧ has b' = al ∧ frame p b b' w w'.
Definition becomes_front (p : loc) (w : world) (b : fbuf_t) (s : list Z) (t al : bool) (w' : world) : Prop :=
  ∃ b', fb_is w' p b' s t ∧ has b' = al ∧ frame p b b' w w' ∧ skip b' = 0%Z.
Lemma becomes_self p w b s t al : fb_is w p b s t → has b = al → becomes p w b s t al w.
Proof. intros ??. exists b. split_and!; [done|done|apply frame_refl]. Qed.
Lemma becomes_frame p w w1 w2 b b1 s t al :
  frame p b b1 w w1 → becomes p w1 b1 s t al w2 → becomes p w b s t al w2.
Proof. intros Hf (b' & ? & ? & Hf'). exists b'. split_and!; [done|done|by eapply frame_trans]. Qed.

Lemma front_first p w b s t :
  fb_is w p b s t → data b ≠ None →
  wp (if bool_decide (skip b ≠ 0)%Z then to_front p else mret tt)
    (λ _ w', ∃ b', fb_is w' p b' s t ∧ skip b' = 0%Z ∧ data b' = data b ∧ len b' = len b ∧ frame p b b' w w') w.
Proof.
  intros Hi Hd. case_bool_decide as Hs.
  - eapply wp_mono; [by apply to_front_ok|]. intros [] w' (b' & Hi' & ?). exists b'. split; [|done].
    destruct (bool_decide (s = [])); [|done]. destruct t; [done|by eapply fb_is_term].
  - apply wp_ret. exists b. split_and!; [done|lia|done|done|apply frame_refl].
Qed.

Definition nonempty (s : list Z) : bool := match s with [] => false | _ => true end.

(** fbuf_shrink keeps the contents; without contents the block is freed. *)
Lemma fbuf_shrink_ok p w b s t :
  fb_is w p b s t → wp (fbuf_shrink malloc_ok junk p) (λ _, becomes_front p w b s t (nonempty s)) w.
Proof using Hok.
  intros Hi. pose proof Hi as [Hb Hu Hm Hmax Hlen Hpa Hf]. unfold fbuf_shrink. apply wp_bind. eapply wp_bld; [done|].
  destruct (decide (data b = None)) as [Hd|Hd].
  { destruct (mem_is_inv _ _ _ _ _ _ Hm) as [(_ & Hl & Hk & ->)|(d & ? & ? & ? & ? & _)]; [|congruence].
    rewrite bool_decide_eq_false_2 by lia. apply wp_bind, wp_ret, wp_bind. eapply wp_bld; [done|].
    rewrite bool_decide_eq_true_2 by done. apply wp_bind. eapply wp_wlift; [by apply shrink_loop_0|].
    rewrite bool_decide_eq_true_2 by done. apply wp_ret. exists b. split_and!; [done|by rewrite has_None|apply frame_refl|done]. }
  apply wp_bind. eapply wp_mono; [by apply front_first|]. intros [] w1 (b1 & Hi1 & Hs1 & Hd1 & Hl1 & Hfr).
  pose proof Hi1 as [Hb1 Hu1 Hm1 Hmax1 Hlen1 Hpa1 Hf1]. apply wp_bind. eapply wp_bld; [done|].
  destruct (fb_is_block _ _ _ _ _ Hi1) as (d & pre & x & rest & Hdd & Hc & Hk & Hlb & Ht); [congruence|].
  destruct pre; [|cbn in Hk; lia]. cbn [length app] in *. pose proof (fresh_lt _ _ _ Hf1 Hc) as Hlt.
  eapply (wp_mono _ (λ _, becomes_front p w1 b1 s t (nonempty s))).
  2: { intros _ w2 (b2 & H1 & H2 & H3 & H4). exists b2. split_and!; [done|done|by eapply frame_trans|done]. }
  destruct (decide (s = [])) as [->|Hne].
  - rewrite bool_decide_eq_true_2 by done. apply wp_bind. eapply wp_wlift; [by apply shrink_loop_0|].
    rewrite bool_decide_eq_false_2 by lia. rewrite bool_decide_eq_true_2 by done. rewrite Hdd. apply wp_bind. eapply wp_free_block; [done|].
    apply wp_bind. eapply wp_bupd; [done|]. apply wp_ret.
    edestruct (free_is p w1 b1 [] t) as [Hi2 Hfr2]; [done| | | | |exists (set_len 0 (set_data None (set_skip 0 (set_used 0 b1)))); split_and!; [|by rewrite has_None|exact Hfr2|done]].
    + cbn. unfold set_len, set_data, set_skip, set_used. cbn. rewrite Hs1, Hu1. reflexivity.
    + done.
    + intros k Hk'. world. rewrite lookup_delete_ne; [done|congruence].
    + intros k Hk'. world. assert (k = d) as -> by congruence. apply lookup_delete_eq.
    + destruct t; [done|by eapply fb_is_term].
  - rewrite bool_decide_eq_false_2 by (rewrite Hu1; destruct s; [done|cbn; lia]). destruct (shrink_loop_ok b1 (Z.to_nat (len b1)) (len b1)) as (l & Hg & Hgl); [done|lia|lia|lia|].
    apply wp_bind. eapply wp_wlift; [exact Hg|]. assert (nonempty s = true) as Hal by (by destruct s).
    rewrite Hal. case_bool_decide; [apply wp_ret; exists b1; split_and!; [done|apply has_Some; congruence|apply frame_refl|done]|].
    rewrite bool_decide_eq_false_2 by lia. rewrite Hdd. apply wp_bind. eapply wp_realloc; [done|done|]. intros tail Htl.
    rewrite take_app_ge in * by lia. destruct (Z.to_nat l - length s) as [|m] eqn:Hm'; [lia|]. cbn [firstn] in *. rewrite <-app_assoc in *. cbn [app] in *.
    apply wp_bind. eapply wp_bupd; [done|]. apply wp_ret.
    match goal with |- becomes_front _ _ _ _ _ _ ?w2 => set (w' := w2) end.
    edestruct (new_block_is p w1 b1 s t l w' x (take m rest ++ tail) t) as (b' & _ & Hi' & _ & Hs' & Hd' & Hfr'); [done|lia|intros Hn; specialize (Hmax1 Hn); lia| | | | |exact Ht| | |eexists; split_and!; [exact Hi'|by apply has_Some|exact Hfr'|exact Hs']].
    + cbn. unfold set_len, set_data, set_skip. cbn. by rewrite Hs1.
    + done.
    + unfold w'. world. rewrite lookup_delete_ne by lia. by rewrite lookup_insert_eq.
    + lia.
    + intros k Hk'. unfold w'. world. rewrite lookup_delete_None. right. rewrite lookup_insert_ne by lia. apply Hf1. lia.
    + intros k Hk' Hlt'. unfold w'. world. rewrite lookup_delete_ne by congruence. rewrite lookup_insert_ne by lia. done.
Qed.
End Growing.
