(* ===== verification/FBufOps.v ===== *)
(** * Operations on growing buffers

    Each operation against the contents, and scripts of operations against a
    byte string with a limit. *)
From S2P Require Import Prelude Heap FBuf FBufRep.

(** ** Changes inside the block *)
Lemma rebuild_at p w b s t d c w' b' pre' s' x' rest' t' :
  fb_is w p b s t → data b = Some d → w_blocks w !! d = Some c → length (pre' ++ s' ++ x' :: rest') = length c →
  w_bufs w' = <[p := b']> (w_bufs w) → w_blocks w' = <[d := pre' ++ s' ++ x' :: rest']> (w_blocks w) → w_next w' = w_next w →
  same_params b b' → data b' = data b → len b' = len b → skip b' = Z.of_nat (length pre') → used b' = Z.of_nat (length s') →
  (t' = true → x' = 0%Z) →
  fb_is w' p b' s' t' ∧ frame p b b' w w'.
Proof.
  intros Hi Hd Hc Hlc Hbw Hkw Hnw Hsp Hdb Hlb Hkb Hub Ht'.
  destruct (fb_is_block _ _ _ _ _ Hi) as (d0 & pre & x & rest & Hd0 & Hc0 & _ & Hl0 & _); [congruence|].
  assert (d0 = d) as -> by congruence. assert (c = pre ++ s ++ x :: rest) as -> by congruence.
  destruct Hi as [Hb _ _ Hmax Hlen Hpa Hf]. destruct Hsp as (H1 & H2 & H3 & H4). split.
  - split; [by rewrite Hbw, lookup_insert_eq|done| |by rewrite H1, Hlb|by rewrite Hlb| |].
    + rewrite Hdb, Hd, Hkb. eapply mem_block; [by rewrite Hkw, lookup_insert_eq|done| |done]. rewrite Hlb, Hl0.
      rewrite !length_app in Hlc. cbn [length] in Hlc. lia.
    + destruct Hpa. by split; rewrite ?H1, ?H2, ?H3, ?H4.
    + intros k Hk. rewrite Hnw in Hk. destruct (Hf k Hk) as [Hk1 Hk2]. split.
      * rewrite Hbw, lookup_insert_ne; [done|]. intros ->. congruence.
      * rewrite Hkw, lookup_insert_ne; [done|]. intros ->. congruence.
  - split_and!; [| |by rewrite Hnw|by left|done].
    + intros q Hq. by rewrite Hbw, lookup_insert_ne.
    + intros k Hk _. rewrite Hkw, lookup_insert_ne; [done|]. congruence.
Qed.

Lemma rebuild p w b s t d c w' b' pre' s' x' rest' t' :
  fb_is w p b s t → data b = Some d → w_blocks w !! d = Some c → length (pre' ++ s' ++ x' :: rest') = length c →
  w_bufs w' = <[p := b']> (w_bufs w) → w_blocks w' = <[d := pre' ++ s' ++ x' :: rest']> (w_blocks w) → w_next w' = w_next w →
  same_params b b' → data b' = data b → len b' = len b → skip b' = Z.of_nat (length pre') → used b' = Z.of_nat (length s') →
  (t' = true → x' = 0%Z) →
  becomes p w b s' t' true w'.
Proof.
  intros Hi Hd Hc Hlc Hbw Hkw Hnw Hsp Hdb Hlb Hkb Hub Ht'. exists b'. split_and!; [|apply has_Some; congruence|]; by eapply (rebuild_at p w b s t d c).
Qed.

(** Bytes [bs] have been stored behind the contents: the counter is raised and
    the terminator written. *)
Lemma finish_add {A} (m : st world A) Q p w b s t d pre bs y rest (c : list Z) :
  fb_is w p b s t → data b = Some d → w_blocks w !! d = Some c → length (pre ++ s ++ bs ++ y :: rest) = length c →
  skip b = Z.of_nat (length pre) → (∀ w', becomes p w b (s ++ bs) true true w' → wp m Q w') →
  wp (_ ← bupd p (set_used (u32 (used b + Z.of_nat (length bs))));
      _ ← blk_put (data b) (u32 (skip b + u32 (used b + Z.of_nat (length bs)))) 0; m)
    Q (with_block d (pre ++ s ++ bs ++ y :: rest) w).
Proof.
  intros Hi Hd Hc Hlc Hk HQ. pose proof (fi_used _ _ _ _ _ Hi) as Hu. pose proof (fi_len _ _ _ _ _ Hi) as Hl.
  assert (len b = Z.of_nat (length c)) as Hlb.
  { destruct (fb_is_block _ _ _ _ _ Hi) as (d0 & pre0 & x & rest0 & Hd0 & Hc0 & _ & -> & _); [congruence|].
    assert (c = pre0 ++ s ++ x :: rest0) as -> by congruence. rewrite !length_app. cbn [length]. lia. }
  rewrite !length_app in Hlc. cbn [length] in Hlc. rewrite !u32_small by (rewrite ?u32_small; lia). rewrite Hd.
  apply wp_bind. eapply wp_bupd; [by apply (fi_buf _ _ _ _ _ Hi)|].
  apply wp_bind. eapply wp_blk_write; [by world|lia|rewrite !length_app; cbn [length]; lia|]. apply HQ.
  replace (pre ++ s ++ bs ++ y :: rest) with ((pre ++ s ++ bs) ++ y :: rest) by (by rewrite <-!app_assoc).
  rewrite blit_at by (rewrite !length_app; lia). cbn [length skipn app].
  eapply (rebuild p w b s t d c _ _ pre (s ++ bs) 0%Z rest true); [done..| |reflexivity| |done|done|done|done|done| |done].
  - rewrite !length_app. cbn [length]. lia.
  - cbn. rewrite insert_insert_eq, drop_0, <-!app_assoc. done.
  - cbn [used set_used]. rewrite length_app. lia.
Qed.

Section Scripts.
Context (malloc_ok : Z → bool) (junk : nat → Z) (Hok : ∀ n, malloc_ok n = true).
Notation size s := (Z.of_nat (length s)).

(** ** Adding *)
(** What follows a successful extension by [n] bytes behind the contents. *)
Lemma room_ok p w b s t n :
  fb_is w p b s t → data b ≠ None → (Z.of_nat (length s) + n + 1 ≤ len b - skip b)%Z → (0 ≤ n)%Z →
  ∃ d pre x rest, data b = Some d ∧ w_blocks w !! d = Some (pre ++ s ++ x :: rest) ∧ skip b = Z.of_nat (length pre) ∧
    used b = Z.of_nat (length s) ∧ len b = Z.of_nat (length pre + length s + S (length rest)) ∧ (n ≤ Z.of_nat (length rest))%Z ∧
    (t = true → x = 0%Z).
Proof.
  intros Hi Hd Hr Hn. destruct (fb_is_block _ _ _ _ _ Hi Hd) as (d & pre & x & rest & H1 & H2 & H3 & H4 & H5).
  exists d, pre, x, rest. pose proof (fi_used _ _ _ _ _ Hi). split_and!; [done..|lia|done].
Qed.

Lemma drop_room {A} (n : nat) (x : A) rest : n ≤ length rest → ∃ y rest', drop n (x :: rest) = y :: rest' ∧ length rest' + n = length rest.
Proof.
  intros Hn. destruct (drop n (x :: rest)) as [|y rest'] eqn:Hd; apply (f_equal length) in Hd; rewrite length_drop in Hd; cbn in Hd; [lia|].
  exists y, rest'. split; [done|lia].
Qed.

Lemma store_ok p w b s t bs (Q : unit → world → Prop) :
  fb_is w p b s t → data b ≠ None → (Z.of_nat (length s) + Z.of_nat (length bs) + 1 ≤ len b - skip b)%Z →
  (∀ d pre y rest c, data b = Some d → w_blocks w !! d = Some c → length (pre ++ s ++ bs ++ y :: rest) = length c →
     skip b = Z.of_nat (length pre) → Q tt (with_block d (pre ++ s ++ bs ++ y :: rest) w)) →
  wp (blk_write (data b) (skip b + used b) bs) Q w.
Proof.
  intros Hi Hd Hr HQ. destruct (room_ok _ _ _ _ _ (Z.of_nat (length bs)) Hi Hd) as (d & pre & x & rest & Hdd & Hc & Hk & Hu & Hl & Hn & _); [lia|lia|].
  rewrite Hdd, Hk, Hu. destruct (drop_room (length bs) x rest) as (y & rest' & Hdr & Hlr); [lia|].
  eapply wp_blk_write; [done|lia|rewrite !length_app; cbn [length]; lia|].
  rewrite (app_assoc pre s), blit_at by (rewrite length_app; lia). rewrite <-app_assoc, Hdr. eapply HQ; [done|done| |done].
  rewrite !length_app. cbn [length]. lia.
Qed.

Lemma add_binary_ok p w b s t bs :
  fb_is w p b s t → bs ≠ [] → (Z.of_nat (length s) + Z.of_nat (length bs) < 2 ^ 30)%Z →
  wp (fbuf_add_binary malloc_ok junk p bs (Z.of_nat (length bs)))
    (λ r w', if fits b (Z.of_nat (length s) + Z.of_nat (length bs))
             then r = Z.of_nat (length bs) ∧ becomes p w b (s ++ bs) true true w' else r = (-1)%Z ∧ w' = w) w.
Proof using Hok.
  intros Hi Hbs Hn. unfold fbuf_add_binary. rewrite bool_decide_eq_false_2 by (destruct bs; [done|cbn; lia]).
  apply wp_bind. eapply wp_bld; [by apply (fi_buf _ _ _ _ _ Hi)|]. rewrite (fi_used _ _ _ _ _ Hi), u32_small by lia.
  apply wp_bind. eapply wp_mono; [apply (fbuf_extend_ok _ _ Hok p _ _ _ _ _ Hi); lia|]. intros r w1. unfold extended. destruct (fits b _).
  2: { intros [-> ->]. rewrite bool_decide_eq_true_2 by done. by apply wp_ret. }
  intros (b1 & Hr & Hi1 & Hd1 & Hl1 & Hfr). rewrite bool_decide_eq_false_2 by lia. apply wp_bind. eapply wp_bld; [by apply (fi_buf _ _ _ _ _ Hi1)|].
  apply wp_bind. eapply wp_wlift; [by apply mem_read_ok; lia|]. change (Z.to_nat 0) with 0. rewrite drop_0, Nat2Z.id, take_ge by lia.
  apply wp_bind. eapply store_ok; [done|done|lia|]. intros d pre y rest c Hdd Hc Hlc Hk.
  eapply finish_add; [done..|]. intros w2 Hw2. apply wp_ret. split; [done|]. by eapply becomes_frame.
Qed.

Definition yields {A} (p : loc) (w : world) (b : fbuf_t) (r : A) (s : list Z) (t al : bool) (r' : A) (w' : world) : Prop :=
  r' = r ∧ becomes p w b s t al w'.
(** A failed extension. *)
Lemma yields_self {A} p w b (r : A) s t : fb_is w p b s t → yields p w b r s t (has b) r w.
Proof. intros. split; [done|]. by apply becomes_self. Qed.

(** The outcome of an operation that extends the buffer by [n] bytes first. *)
Definition if_fits (p : loc) (w : world) (b : fbuf_t) (s : list Z) (t : bool) (n r : Z) (s' : list Z) (t' : bool) (r' : Z) (w' : world) : Prop :=
  if fits b n then yields p w b r s' t' true r' w' else yields p w b (-1)%Z s t (has b) r' w'.

Lemma wp_extend {A} (m : st world A) Q p w b s t n e :
  fb_is w p b s t → (0 ≤ n < 2 ^ 30)%Z →
  (fits b n = false → wp e Q w) →
  (∀ w1 b1, fits b n = true → fb_is w1 p b1 s (t && (bool_decide (n < len b)%Z || bool_decide (skip b = 0%Z))) → data b1 ≠ None →
     (n + 1 ≤ len b1 - skip b1)%Z → frame p b b1 w w1 → wp m Q w1) →
  wp (r ← fbuf_extend malloc_ok junk p n; if bool_decide (r = 0%Z) then e else m) Q w.
Proof using Hok.
  intros Hi Hn He Hm. apply wp_bind. eapply wp_mono; [apply (fbuf_extend_ok _ _ Hok p _ _ _ _ _ Hi); lia|].
  intros r w1. unfold extended. destruct (fits b n).
  - intros (b1 & Hr & Hi1 & Hd1 & Hl1 & Hfr). rewrite bool_decide_eq_false_2 by lia. eauto.
  - intros [-> ->]. rewrite bool_decide_eq_true_2 by done. eauto.
Qed.

Lemma set_str_ok p w b s t s' :
  fb_is w p b s t → (size s' < 2 ^ 30)%Z →
  wp (fbuf_set malloc_ok junk p s') (if_fits p w b s t (size s') (size s') s' true) w.
Proof using Hok.
  intros Hi Hn. unfold fbuf_set, if_fits. rewrite i32_id by (unfold in_i32; lia). rewrite u32_small by lia.
  eapply wp_extend; [done|lia|intros ->; apply wp_ret; by eapply yields_self|]. intros w1 b1 -> Hi1 Hd1 Hl1 Hfr.
  apply wp_bind. eapply wp_bld; [by apply (fi_buf _ _ _ _ _ Hi1)|]. apply wp_bind. eapply wp_wlift; [apply cint_ok; unfold in_i32; lia|].
  apply wp_bind. eapply wp_wlift; [apply mem_read_ok; rewrite ?length_app; cbn; lia|]. change (Z.to_nat 0) with 0.
  rewrite drop_0, take_ge by (rewrite length_app; cbn; lia).
  destruct (fb_is_block _ _ _ _ _ Hi1 Hd1) as (d & pre & x & rest & Hdd & Hc & Hk & Hl & _). rewrite Hdd, Hk. apply wp_bind.
  eapply wp_blk_write; [done|lia|rewrite !length_app; cbn [length]; lia|]. apply wp_bind. eapply wp_bupd; [by apply (fi_buf _ _ _ _ _ Hi1)|].
  apply wp_ret. split; [done|]. eapply becomes_frame; [done|]. rewrite blit_at by lia.
  eapply (rebuild p w1 b1 s _ d _ _ _ pre s' 0%Z _ true); [done..| |reflexivity| |done|done|done|done|done|done|done].
  2: { cbn. rewrite <-(app_assoc s' [0%Z]). reflexivity. }
  rewrite !length_app. cbn [length]. rewrite length_drop, !length_app. cbn [length]. lia.
Qed.

Lemma add_str_ok p w b s t s' :
  fb_is w p b s t → (size s + size s' < 2 ^ 30)%Z →
  wp (fbuf_add malloc_ok junk p (Some s'))
    (if bool_decide (s' = []) then yields p w b 0%Z s t (has b) else if_fits p w b s t (size s + size s') (size s') (s ++ s') true) w.
Proof using Hok.
  intros Hi Hn. unfold fbuf_add. destruct s' as [|c s']; [rewrite bool_decide_eq_true_2 by done; apply wp_ret; by eapply yields_self|].
  rewrite bool_decide_eq_false_2 by done. rewrite i32_id by (unfold in_i32; lia). eapply wp_mono; [by eapply add_binary_ok|].
  intros r w'. unfold if_fits. destruct (fits b _); [done|]. intros [-> ->]. by eapply yields_self.
Qed.

Lemma prepend_ok p w b s t bs :
  fb_is w p b s t → bs ≠ [] → (size s + size bs < 2 ^ 30)%Z →
  wp (fbuf_prepend_binary malloc_ok junk p (Some bs) (size bs))
    (if_fits p w b s t (size s + size bs) (size bs) (bs ++ s) false) w.
Proof using Hok.
  intros Hi Hbs Hn. unfold fbuf_prepend_binary. rewrite bool_decide_eq_false_2 by (destruct bs; [done|cbn; lia]).
  pose proof Hi as [Hb Hu Hm Hmax Hlen Hpa Hf]. apply wp_bind. eapply wp_bld; [done|]. pose proof (mem_is_sizes _ _ _ _ _ _ Hm) as [Hk0 Hsz].
  rewrite i32_id by (unfold in_i32; lia). assert (0 < size bs)%Z as Hbl by (destruct bs; [done|cbn; lia]). case_bool_decide as Hsk.
  - assert (fits b (size s + size bs) = true) as Hfit by (apply fits_iff; lia). unfold if_fits. rewrite Hfit.
    destruct (fb_is_block _ _ _ _ _ Hi) as (d & pre & x & rest & Hdd & Hc & Hk & Hl & Ht); [naive_solver lia|].
    apply wp_bind. eapply wp_wlift; [by apply mem_read_ok; lia|]. change (Z.to_nat 0) with 0. rewrite drop_0, Nat2Z.id, take_ge by lia.
    rewrite Hdd, Hk. apply wp_bind. eapply wp_blk_write; [done|lia|rewrite !length_app; lia|]. apply wp_bind. eapply wp_bupd; [done|].
    apply wp_ret. split; [done|]. set (k := length pre - length bs).
    assert (blit (Z.to_nat (size pre - size bs)) bs (pre ++ s ++ x :: rest) = take k pre ++ (bs ++ s) ++ x :: rest) as ->.
    { replace (Z.to_nat _) with k by lia. rewrite <-(take_drop k pre) at 1. rewrite <-app_assoc. rewrite blit_at by (rewrite length_take; lia).
      f_equal. rewrite <-app_assoc. f_equal. rewrite drop_app_ge by (rewrite length_drop; lia). rewrite length_drop.
      by replace (_ - _) with 0 by lia. }
    eapply (rebuild p w b s t d _ _ _ (take k pre) (bs ++ s) x rest false); [done..| |reflexivity|done|done|done|done|done| | |done].
    + rewrite !length_app, length_take. cbn [length]. lia.
    + cbn. rewrite Hk, u32_small; rewrite ?length_take; lia.
    + cbn. rewrite Hu, u32_small, length_app; lia.
  - rewrite Hu, u32_small by lia. unfold if_fits. eapply wp_extend; [done|lia|intros ->; apply wp_ret; by eapply yields_self|].
    intros w1 b1 -> Hi1 Hd1 Hl1 Hfr. apply wp_bind. eapply wp_bld; [by apply (fi_buf _ _ _ _ _ Hi1)|].
    destruct (room_ok _ _ _ _ _ (size bs) Hi1 Hd1) as (d & pre & x & rest & Hdd & Hc & Hk & Hu1 & Hl & Hr & _); [lia|lia|].
    rewrite Hdd, Hk, Hu1, u32_small by lia. apply wp_bind. eapply wp_blk_read; [done|lia|lia|rewrite !length_app; cbn [length]; lia|].
    rewrite read_more by lia. apply wp_bind. eapply wp_blk_write; [done|lia|rewrite !length_app; cbn [length]; lia|].
    apply wp_bind. eapply wp_wlift; [by apply mem_read_ok; lia|]. change (Z.to_nat 0) with 0. rewrite drop_0, Nat2Z.id, take_ge by lia.
    assert (∃ c2, blit (Z.to_nat (size pre + size bs)) (s ++ [x]) (pre ++ s ++ x :: rest)
      = pre ++ take (length bs) (s ++ x :: rest) ++ s ++ x :: c2 ∧ length c2 + length bs = length rest) as (c2 & -> & Hc2).
    { eexists. split.
      - rewrite <-(take_drop (length bs) (s ++ x :: rest)) at 1. rewrite app_assoc. rewrite blit_at.
        2: { rewrite length_app, length_take, length_app. cbn [length]. lia. }
        rewrite <-!app_assoc. reflexivity.
      - rewrite !length_drop, !length_app. cbn [length]. lia. }
    apply wp_bind. eapply wp_blk_write; [by world|lia|rewrite !length_app, length_take, length_app; cbn [length]; lia|]. rewrite blit_at by lia.
    apply wp_bind. eapply wp_bupd; [by apply (fi_buf _ _ _ _ _ Hi1)|]. apply wp_ret. split; [done|]. eapply becomes_frame; [done|].
    assert (length (take (length bs) (s ++ x :: rest)) = length bs) as Htk by (rewrite length_take, length_app; cbn [length]; lia).
    eapply (rebuild p w1 b1 s _ d _ _ _ pre (bs ++ s) x c2 false); [done..| |reflexivity| |done|done|done|done|done| |done].
    + rewrite !length_app. cbn [length]. lia.
    + cbn. rewrite insert_insert_eq. do 2 f_equal. rewrite <-app_assoc. f_equal. by rewrite drop_app_length'.
    + cbn. rewrite u32_small, length_app; lia.
Qed.

(** ** Formatting and reading *)
Lemma vsnprintf_ok {A} (k : Z → st world A) Q p w b s t txt :
  fb_is w p b s t → data b ≠ None → (size txt < 2 ^ 30)%Z →
  (∀ w1 d pre y rest c, (size s + size txt + 1 ≤ len b - skip b)%Z → data b = Some d → w_blocks w !! d = Some c →
     length (pre ++ s ++ txt ++ y :: rest) = length c → skip b = Z.of_nat (length pre) →
     w1 = with_block d (pre ++ s ++ txt ++ y :: rest) w → wp (k (size txt)) Q w1) →
  (∀ w1, (len b - skip b ≤ size s + size txt)%Z → becomes p w b s false true w1 → w_bufs w1 = w_bufs w → wp (k (size txt)) Q w1) →
  wp (n ← vsnprintf p (Some txt); k n) Q w.
Proof.
  intros Hi Hd Hn Hfit Hcut. destruct (room_ok _ _ _ _ _ 0%Z Hi Hd) as (d & pre & x & rest & Hdd & Hc & Hk & Hu & Hl & _ & _); [|lia|].
  { destruct (mem_is_sizes _ _ _ _ _ _ (fi_mem _ _ _ _ _ Hi)) as [_ [(? & _)|[_ ?]]]; [congruence|lia]. }
  pose proof (fi_len _ _ _ _ _ Hi) as Hlen. apply wp_bind. unfold vsnprintf. apply wp_bind. eapply wp_bld; [by apply (fi_buf _ _ _ _ _ Hi)|].
  rewrite (u32_small (skip b + used b)), (u32_small (len b - _)), (u32_small (size txt)) by lia.
  rewrite bool_decide_eq_false_2 by lia. apply wp_bind. rewrite Hdd. set (room := Z.to_nat (len b - (skip b + used b) - 1)).
  assert (room = length rest) as Hroom by lia. rewrite Hroom.
  destruct (decide (length txt ≤ length rest)) as [Hle|Hgt].
  - rewrite take_ge by done. destruct (drop_room (length txt) x rest Hle) as (y & rest' & Hdr & Hlr).
    eapply wp_blk_write; [done|lia|rewrite !length_app; cbn [length]; lia|]. apply wp_ret.
    eapply (Hfit _ d pre 0%Z rest'); [lia|done|done|rewrite !length_app; cbn [length]; lia|done|]. f_equal.
    rewrite (app_assoc pre s), blit_at by (rewrite length_app; lia). rewrite <-!app_assoc. do 3 f_equal. cbn [app]. f_equal.
    rewrite length_app. cbn [length]. rewrite Nat.add_comm. cbn [Nat.add skipn]. change (drop (length txt) rest = rest').
    apply (f_equal (drop 1)) in Hdr. rewrite drop_drop in Hdr. cbn in Hdr. rewrite Nat.add_comm in Hdr. exact Hdr.
  - assert (length (take (length rest) txt) = length rest) as Htk by (rewrite length_take; lia).
    eapply wp_blk_write; [done|lia|rewrite !length_app; cbn [length]; lia|]. apply wp_ret. apply Hcut; [lia| |done].
    rewrite (app_assoc pre s), blit_at by (rewrite length_app; lia).
    destruct (take (length rest) txt ++ [0%Z]) as [|y l] eqn:Hy; [by destruct (take _ _)|].
    apply (f_equal length) in Hy. rewrite length_app in Hy. cbn [length] in Hy.
    rewrite (drop_ge (x :: rest)), app_nil_r, <-app_assoc by (cbn; lia).
    eapply (rebuild p w b s t d _ _ b pre s y l false); [done..| | |done|done|done|done|done|done|done|done].
    + rewrite !length_app. cbn [length]. lia.
    + cbn. by rewrite insert_id by apply (fi_buf _ _ _ _ _ Hi).
Qed.

Lemma printed_ok p w b s t txt d pre y rest c :
  fb_is w p b s t → data b = Some d → w_blocks w !! d = Some c → length (pre ++ s ++ txt ++ y :: rest) = length c →
  skip b = Z.of_nat (length pre) → (size txt < 2 ^ 30)%Z →
  wp (printed p (size txt)) (yields p w b (size txt) (s ++ txt) true true) (with_block d (pre ++ s ++ txt ++ y :: rest) w).
Proof.
  intros Hi Hd Hc Hl Hk Hn. unfold printed. apply wp_bind. eapply wp_bld; [by apply (fi_buf _ _ _ _ _ Hi)|].
  eapply finish_add; [done..|]. intros w2 Hw2. apply wp_ret. split; [|done]. by rewrite i32_id by (unfold in_i32; lia).
Qed.

(** fbuf_printf asks for FBUF_LINE_EST bytes, then for what the text needs. *)
Lemma printf_ok p w b s t txt :
  fb_is w p b s t → (size s + size txt + 128 < 2 ^ 30)%Z →
  wp (fbuf_printf malloc_ok junk p (Some txt))
    (if fits b (size s + 128) then
       if fits b (size s + size txt) then yields p w b (size txt) (s ++ txt) true true
       else yields p w b (-1)%Z s true true
     else yields p w b (-1)%Z s t (has b)) w.
Proof using Hok.
  intros Hi Hn. unfold fbuf_printf. apply wp_bind. eapply wp_bld; [by apply (fi_buf _ _ _ _ _ Hi)|]. rewrite (fi_used _ _ _ _ _ Hi).
  unfold FBUF_LINE_EST. rewrite (u32_small (size s + 128)) by lia.
  eapply wp_extend; [done|lia|intros ->; apply wp_ret; by eapply yields_self|]. intros w1 b1 -> Hi1 Hd1 Hl1 Hfr.
  pose proof Hfr as (_ & _ & _ & _ & Hpar). assert (∀ n, fits b1 n = fits b n) as Hfb by (intros; unfold fits; by rewrite (proj1 Hpar)).
  pose proof (fi_max _ _ _ _ _ Hi1) as Hmax. pose proof (fi_len _ _ _ _ _ Hi1) as Hlen. pose proof (fi_used _ _ _ _ _ Hi1) as Hu1.
  pose proof (mem_is_sizes _ _ _ _ _ _ (fi_mem _ _ _ _ _ Hi1)) as [Hk1 _].
  eapply vsnprintf_ok; [done|done|lia| |].
  - intros w2 d pre y rest c Hr Hdd Hc Hlc Hk ->. apply wp_bind. eapply wp_bld; [cbn; by apply (fi_buf _ _ _ _ _ Hi1)|].
    rewrite (u32_small (skip b1 + _)), u32_small, bool_decide_eq_false_2 by lia.
    assert (fits b (size s + size txt) = true) as -> by (rewrite <-Hfb; apply fits_iff; lia).
    eapply wp_mono; [eapply printed_ok; try done; lia|]. intros r w3 [-> Hw3]. split; [done|]. by eapply becomes_frame.
  - intros w2 Hr (b2 & Hi2 & Hh2 & Hfr2) Hbw. apply has_Some in Hh2. apply wp_bind. eapply wp_bld; [rewrite Hbw; by apply (fi_buf _ _ _ _ _ Hi1)|].
    assert (b2 = b1) as ->. { pose proof (fi_buf _ _ _ _ _ Hi2) as H2. rewrite Hbw, (fi_buf _ _ _ _ _ Hi1) in H2. congruence. }
    rewrite (u32_small (skip b1 + _)), (u32_small (len b1 - _)), bool_decide_eq_true_2 by lia. rewrite Hu1, u32_small by lia.
    apply wp_bind. eapply wp_mono; [apply (fbuf_extend_ok _ _ Hok p _ _ _ _ _ Hi2); lia|].
    intros r w3. unfold extended. rewrite Hfb. destruct (fits b (size s + size txt)).
    + intros (b3 & Hr3 & Hi3 & Hd3 & Hl3 & Hfr3). apply wp_bind. eapply wp_bld; [by apply (fi_buf _ _ _ _ _ Hi3)|].
      rewrite bool_decide_eq_false_2 by lia. eapply vsnprintf_ok; [done|done|lia| |intros; lia].
      intros w4 d pre y rest c _ Hdd Hc Hlc Hk ->. eapply wp_mono; [eapply printed_ok; try done; lia|]. intros r' w5 [-> Hw5]. split; [done|].
      eapply becomes_frame; [|done]. eapply frame_trans; [done|]. by eapply frame_trans.
    + intros [-> ->]. apply wp_bind. eapply wp_bld; [by apply (fi_buf _ _ _ _ _ Hi2)|]. rewrite bool_decide_eq_true_2 by done.
      destruct (fb_is_block _ _ _ _ _ Hi2 Hh2) as (d & pre & x & rest & Hdd & Hc & Hk & Hl & _). rewrite Hdd, Hu1, u32_small by lia.
      apply wp_bind. eapply wp_blk_write; [done|lia|rewrite !length_app; cbn [length]; lia|]. apply wp_ret. split; [done|].
      eapply becomes_frame; [by eapply frame_trans|].
      eapply (rebuild p w2 b1 s false d _ _ b1 pre s 0%Z rest true); [done..| | | |done|done|done|done|done|done|done].
      * rewrite !length_app. done.
      * cbn. by rewrite insert_id by apply (fi_buf _ _ _ _ _ Hi2).
      * cbn. f_equal. rewrite (app_assoc pre s), blit_at by (rewrite length_app; lia). by rewrite <-!app_assoc.
Qed.

(** What follows a successful read, of a stream or of a descriptor. *)
Lemma was_read_ok p w b s t got :
  fb_is w p b s t → data b ≠ None → (size s + size got + 1 ≤ len b - skip b)%Z →
  wp (was_read p (size got) got) (yields p w b (size got) (s ++ got) true true) w.
Proof.
  intros Hi Hd Hr. unfold was_read. apply wp_bind. eapply wp_bld; [by apply (fi_buf _ _ _ _ _ Hi)|]. apply wp_bind. eapply store_ok; [done..|].
  intros d pre y rest c Hdd Hc Hlc Hk. pose proof Hi as [Hb Hu _ _ Hlen _ _]. set (b' := set_used (size s + size got) b).
  assert (wp (if bool_decide (size got > 0)%Z then bupd p (λ b, set_used (u32 (used b + size got)) b) else mret tt)
    (λ _ w', w' = with_buf p b' (with_block d (pre ++ s ++ got ++ y :: rest) w)) (with_block d (pre ++ s ++ got ++ y :: rest) w)) as Hgo.
  { case_bool_decide as Hg.
    - eapply wp_bupd; [done|]. unfold b'. rewrite Hu, u32_small; [done|]. pose proof (mem_is_sizes _ _ _ _ _ _ (fi_mem _ _ _ _ _ Hi)). lia.
    - apply wp_ret. unfold with_buf, b'. cbn. rewrite insert_id; [done|]. rewrite Hb. f_equal. destruct b. unfold set_used. cbn in *. f_equal. lia. }
  apply wp_bind. eapply wp_mono; [exact Hgo|]. intros [] w1 ->. apply wp_bind. eapply wp_bld; [by world|].
  assert (len b = Z.of_nat (length c)) as Hlb.
  { destruct (fb_is_block _ _ _ _ _ Hi Hd) as (d0 & pre0 & x & rest0 & Hd0 & Hc0 & _ & -> & _).
    assert (d0 = d) as -> by congruence. assert (c = pre0 ++ s ++ x :: rest0) as -> by congruence. rewrite !length_app. cbn [length]. lia. }
  rewrite !length_app in Hlc. cbn [length] in Hlc. unfold b'. cbn [data skip used set_used]. rewrite Hdd, Hk, u32_small by lia.
  apply wp_bind. eapply wp_blk_write; [by world|lia|rewrite !length_app; cbn [length]; lia|]. apply wp_ret. split; [done|].
  replace (pre ++ s ++ got ++ y :: rest) with ((pre ++ s ++ got) ++ y :: rest) by (by rewrite <-!app_assoc).
  rewrite blit_at by (rewrite !length_app; lia). cbn [length skipn app].
  eapply (rebuild p w b s t d c _ b' pre (s ++ got) 0%Z rest true); [done..| |reflexivity| |done|done|done|done|done| |done].
  - rewrite !length_app. cbn [length]. lia.
  - cbn. rewrite insert_insert_eq, drop_0, <-!app_assoc. done.
  - unfold b'. cbn [used set_used]. rewrite length_app. lia.
Qed.

Lemma fread_ok p w b s t file n :
  let explen := if bool_decide (n = 0%Z) then 1024%Z else n in
  fb_is w p b s t → (0 ≤ n)%Z → (size s + explen < 2 ^ 30)%Z →
  wp (fbuf_fread malloc_ok junk p file n)
    (λ r w', r.2 = (if fits b (size s + explen) then drop (Z.to_nat explen) file else file) ∧
       if_fits p w b s t (size s + explen) (size (take (Z.to_nat explen) file)) (s ++ take (Z.to_nat explen) file) true r.1 w') w.
Proof using Hok.
  intros explen Hi Hn0 Hn. unfold fbuf_fread. unfold FBUF_READ_EST. fold explen. assert (0 ≤ explen)%Z as He by (unfold explen; case_bool_decide; lia).
  apply wp_bind. eapply wp_bld; [by apply (fi_buf _ _ _ _ _ Hi)|]. rewrite (fi_used _ _ _ _ _ Hi), u32_small by lia. unfold if_fits.
  eapply wp_extend; [done|lia|intros ->; apply wp_ret; split; [done|by eapply yields_self]|]. intros w1 b1 -> Hi1 Hd1 Hl1 Hfr.
  unfold fread. set (got := take (Z.to_nat explen) file). assert (length got ≤ Z.to_nat explen) as Hgot by (unfold got; rewrite length_take; lia).
  rewrite i32_id by (unfold in_i32; lia). apply wp_bind. eapply wp_mono; [eapply was_read_ok; [done|done|lia]|].
  intros r w2 [-> Hw2]. apply wp_ret. split; [done|]. split; [done|]. by eapply becomes_frame.
Qed.

(** ** Removing *)
(** The contents are cut behind [n] bytes. *)
Lemma cut_at {A} (m : st world A) Q p w b s t n :
  fb_is w p b s t → data b ≠ None → (0 ≤ n ≤ size s)%Z →
  (∀ w', fb_is w' p (set_used n b) (take (Z.to_nat n) s) true → frame p b (set_used n b) w w' → wp m Q w') →
  wp (_ ← bupd p (set_used n); _ ← blk_put (data b) (u32 (skip b + n)) 0; m) Q w.
Proof.
  intros Hi Hd Hn HQ. destruct (fb_is_block _ _ _ _ _ Hi Hd) as (d & pre & x & rest & Hdd & Hc & Hk & Hl & _).
  pose proof (fi_len _ _ _ _ _ Hi). apply wp_bind. eapply wp_bupd; [by apply (fi_buf _ _ _ _ _ Hi)|]. rewrite Hdd, Hk, u32_small by lia.
  apply wp_bind. eapply wp_blk_write; [by world|lia|rewrite !length_app; cbn [length]; lia|]. set (k := Z.to_nat n).
  replace (Z.to_nat (size pre + n)) with (length (pre ++ take k s)) by (rewrite length_app, length_take; lia).
  rewrite (split_contents k pre s), blit_at, <-app_assoc by done.
  match goal with |- wp m Q ?w' => assert (fb_is w' p (set_used n b) (take k s) true ∧ frame p b (set_used n b) w w') as [Hi' Hfr'] end; [|by apply HQ].
  eapply (rebuild_at p w b s t d _ _ _ pre (take k s) 0%Z _ true); [done..| |reflexivity|reflexivity|done|done|done|done|done| |done].
  - rewrite !length_app. cbn [length]. rewrite length_drop, length_app, length_take, length_drop. cbn [length]. lia.
  - cbn. rewrite length_take. lia.
Qed.
Lemma cut_ok {A} (m : st world A) Q p w b s t n :
  fb_is w p b s t → data b ≠ None → (0 ≤ n ≤ size s)%Z →
  (∀ w', becomes p w b (take (Z.to_nat n) s) true true w' → wp m Q w') →
  wp (_ ← bupd p (set_used n); _ ← blk_put (data b) (u32 (skip b + n)) 0; m) Q w.
Proof.
  intros Hi Hd Hn HQ. eapply cut_at; [done..|]. intros w' Hi' Hfr. apply HQ. exists (set_used n b). split_and!; [done|by apply has_Some|done].
Qed.

Lemma remove_ok p w b s t n :
  fb_is w p b s t → data b ≠ None → (0 ≤ n < 2 ^ 31)%Z →
  wp (fbuf_remove p n) (yields p w b (size (drop (Z.to_nat n) s)) (drop (Z.to_nat n) s) (t || bool_decide (size s ≤ n)%Z) true) w.
Proof.
  intros Hi Hd Hn. pose proof Hi as [Hb Hu Hm Hmax Hlen Hpa Hf]. destruct (fb_is_block _ _ _ _ _ Hi Hd) as (d & pre & x & rest & Hdd & Hc & Hk & Hl & Ht).
  unfold fbuf_remove. apply wp_bind. eapply wp_bld; [done|]. rewrite Hu. case_bool_decide as Hle.
  - rewrite drop_ge by lia. rewrite (bool_decide_eq_true_2 (size s ≤ n)%Z), orb_true_r by lia. apply wp_bind. eapply wp_bupd; [done|].
    rewrite Hdd. apply wp_bind. eapply wp_blk_write; [by world|done|rewrite !length_app; cbn [length]; lia|]. apply wp_ret. split; [done|].
    eapply (rebuild p w b s t d _ _ _ [] [] 0%Z _ true); [done..| |reflexivity| |done|done|done|done|done|done|done]; cbn [app].
    2: { cbn. rewrite blit_0. reflexivity. }
    cbn [length]. rewrite length_drop, !length_app. cbn [length]. lia.
  - rewrite (bool_decide_eq_false_2 (size s ≤ n)%Z), orb_false_r by lia. case_bool_decide as Hn0.
    + set (k := Z.to_nat n). assert (length (drop k s) = length s - k) as Hlk by apply length_drop.
      apply wp_bind. eapply wp_bupd; [done|]. apply wp_bind. eapply wp_bld; [by world|].
      cbn [skip used len data set_skip set_used]. rewrite Hu, Hk, Hdd. rewrite (u32_small (size s - n)), (u32_small (size pre + n)) by lia.
      assert (∀ w', w' = with_buf p (set_used (size s - n) (set_skip (size pre + n) b)) w → becomes p w b (drop k s) t true w') as Hstay.
      { intros w' ->. rewrite (split_contents k pre s) in Hc.
        eapply (rebuild p w b s t d _ _ _ (pre ++ take k s) (drop k s) x rest t); [done..|reflexivity| |done|done|done|done| | |done].
        - cbn. by rewrite insert_id.
        - cbn. rewrite length_app, length_take. lia.
        - cbn. lia. }
      case_bool_decide as Hhalf.
      * apply wp_bind, wp_bind. rewrite (u32_small (size s - n + 1)) by lia. eapply wp_blk_read; [by world|lia|lia|rewrite !length_app; cbn [length]; lia|].
        assert (take (Z.to_nat (size s - n + 1)) (drop (Z.to_nat (size pre + n)) (pre ++ s ++ x :: rest)) = drop k s ++ [x]) as ->.
        { rewrite (split_contents k pre s). apply read_more; [rewrite length_app, length_take; lia|lia]. }
        apply wp_bind. eapply wp_blk_write; [by world|done|rewrite !length_app; cbn [length]; lia|]. eapply wp_bupd; [by world|]. apply wp_ret.
        split; [cbn; rewrite i32_id; unfold in_i32; lia|].
        eapply (rebuild p w b s t d _ _ (set_skip 0 (set_used (size s - n) (set_skip (size pre + n) b))) [] (drop k s) x _ t);
          [done..| | | |done|done|done|done|done| |done].
        2: { cbn. by rewrite insert_insert_eq. }
        2: { cbn. rewrite blit_0, <-app_assoc. reflexivity. }
        { cbn [app]. rewrite !length_app. cbn [length]. rewrite !length_drop, !length_app. cbn [length]. rewrite ?length_drop. lia. }
        cbn. lia.
      * apply wp_bind, wp_ret, wp_ret. split; [cbn; rewrite i32_id; unfold in_i32; lia|]. by apply Hstay.
    + assert (n = 0%Z) as -> by lia. change (Z.to_nat 0) with 0. rewrite drop_0. apply wp_ret. split; [rewrite i32_id; unfold in_i32; lia|].
      apply becomes_self; [done|by apply has_Some].
Qed.

(** ** White space *)
Fixpoint spaces (s : list Z) : nat :=
  match s with c :: s => if isspace c then S (spaces s) else 0 | [] => 0 end.
Lemma spaces_le s : spaces s ≤ length s.
Proof. induction s as [|c s IH]; cbn; [lia|]. destruct (isspace c); lia. Qed.

Lemma trim_loop_ok p w b s t n i :
  fb_is w p b s t → (0 ≤ i ≤ size s)%Z → (size s - i ≤ Z.of_nat n)%Z →
  wp (trim_loop n b i) (λ r w', w' = w ∧ r = (i + Z.of_nat (spaces (drop (Z.to_nat i) s)))%Z) w.
Proof.
  intros Hi. pose proof Hi as [Hb Hu Hm _ Hlen _ _]. revert i. induction n as [|n IH]; intros i Hi0 Hn; cbn [trim_loop]; rewrite Hu.
  { rewrite bool_decide_eq_false_2 by lia. apply wp_ret. rewrite drop_ge by lia. cbn. split; [done|lia]. }
  case_bool_decide as Hlt; [|apply wp_ret; rewrite drop_ge by lia; cbn; split; [done|lia]].
  destruct (fb_is_block _ _ _ _ _ Hi) as (d & pre & x & rest & Hdd & Hc & Hk & Hl & _).
  { intros Hnone. destruct (mem_is_inv _ _ _ _ _ _ Hm) as [(_ & _ & _ & ->)|(? & ? & ? & ? & ? & _)]; [cbn in Hlt; lia|congruence]. }
  destruct (lookup_lt_is_Some_2 s (Z.to_nat i)) as [c Hsc]; [lia|]. rewrite Hdd, Hk, u32_small by lia.
  apply wp_bind. eapply (wp_blk_get _ _ _ c); [done|lia| |].
  { rewrite lookup_app_r by lia. rewrite lookup_app_l by lia. rewrite <-Hsc. f_equal. lia. }
  rewrite (drop_S _ _ _ Hsc). cbn [spaces]. destruct (isspace c); [|apply wp_ret; split; [done|lia]].
  eapply wp_mono; [apply IH; lia|]. intros r w' [-> ->]. split; [done|]. replace (Z.to_nat (i + 1)) with (S (Z.to_nat i)) by lia. lia.
Qed.

Lemma trim_ok p w b s t :
  fb_is w p b s t → data b ≠ None →
  wp (fbuf_trim p) (yields p w b (Z.of_nat (spaces s)) (drop (spaces s) s) (t || bool_decide (length s ≤ spaces s)) true) w.
Proof.
  intros Hi Hd. unfold fbuf_trim. apply wp_bind. eapply wp_bld; [by apply (fi_buf _ _ _ _ _ Hi)|]. pose proof (spaces_le s).
  pose proof (fi_used _ _ _ _ _ Hi) as Hu. pose proof (fi_len _ _ _ _ _ Hi).
  pose proof (mem_is_sizes _ _ _ _ _ _ (fi_mem _ _ _ _ _ Hi)) as [Hk0 [(? & _)|[_ Hsz]]]; [done|].
  apply wp_bind. eapply wp_mono; [by apply (trim_loop_ok p w b s t); [done|lia|lia]|]. intros r w' [-> ->]. change (Z.to_nat 0) with 0. rewrite drop_0, Z.add_0_l.
  apply wp_bind. eapply wp_mono; [apply (remove_ok p w b s t); [done|done|lia]|]. intros r w1 [_ Hw]. apply wp_ret. split; [rewrite i32_id; [done|unfold in_i32; lia]|].
  rewrite Nat2Z.id in Hw. rewrite (bool_decide_ext _ (size s ≤ Z.of_nat (spaces s))%Z) by lia. done.
Qed.

Lemma rtrim_loop_ok p w b s t n u :
  fb_is w p b s t → (0 ≤ u ≤ size s)%Z → (u ≤ Z.of_nat n)%Z →
  wp (rtrim_loop n b u) (λ r w', w' = w ∧ r = (u - Z.of_nat (spaces (reverse (take (Z.to_nat u) s))))%Z) w.
Proof.
  intros Hi. pose proof Hi as [Hb Hu Hm _ Hlen _ _]. revert u. induction n as [|n IH]; intros u Hi0 Hn; cbn [rtrim_loop].
  { rewrite bool_decide_eq_false_2 by lia. apply wp_ret. replace (Z.to_nat u) with 0 by lia. rewrite take_0, reverse_nil. cbn. split; [done|lia]. }
  case_bool_decide as Hlt; [|apply wp_ret; replace (Z.to_nat u) with 0 by lia; rewrite take_0, reverse_nil; cbn; split; [done|lia]].
  destruct (fb_is_block _ _ _ _ _ Hi) as (d & pre & x & rest & Hdd & Hc & Hk & Hl & _).
  { intros Hnone. destruct (mem_is_inv _ _ _ _ _ _ Hm) as [(_ & _ & _ & ->)|(? & ? & ? & ? & ? & _)]; [cbn in Hi0; lia|congruence]. }
  destruct (lookup_lt_is_Some_2 s (Z.to_nat (u - 1))) as [c Hsc]; [lia|]. rewrite Hdd, Hk, (u32_small (size pre + u)), u32_small by lia.
  apply wp_bind. eapply (wp_blk_get _ _ _ c); [done|lia| |].
  { rewrite lookup_app_r by lia. rewrite lookup_app_l by lia. rewrite <-Hsc. f_equal. lia. }
  replace (Z.to_nat u) with (S (Z.to_nat (u - 1))) by lia. rewrite (take_S_r _ _ _ Hsc), reverse_snoc. cbn [spaces].
  destruct (isspace c); [|apply wp_ret; split; [done|lia]].
  eapply wp_mono; [apply IH; lia|]. intros r w' [-> ->]. split; [done|]. lia.
Qed.

Lemma rtrim_ok p w b s t :
  fb_is w p b s t → data b ≠ None →
  wp (fbuf_rtrim p) (yields p w b (Z.of_nat (spaces (reverse s))) (take (length s - spaces (reverse s)) s) true true) w.
Proof.
  intros Hi Hd. unfold fbuf_rtrim. apply wp_bind. eapply wp_bld; [by apply (fi_buf _ _ _ _ _ Hi)|].
  pose proof (spaces_le (reverse s)) as Hsp. rewrite length_reverse in Hsp. pose proof (fi_used _ _ _ _ _ Hi) as Hu. pose proof (fi_len _ _ _ _ _ Hi).
  pose proof (mem_is_sizes _ _ _ _ _ _ (fi_mem _ _ _ _ _ Hi)) as [Hk0 [(? & _)|[_ Hsz]]]; [done|].
  apply wp_bind. eapply wp_mono; [apply (rtrim_loop_ok p w b s t); [done|lia|lia]|]. intros r w' [-> ->]. rewrite Hu, Nat2Z.id, take_ge by lia.
  eapply cut_ok; [done|done|lia|]. intros w' Hw. apply wp_ret. split; [rewrite i32_id; unfold in_i32; lia|].
  by replace (Z.to_nat (size s - Z.of_nat (spaces (reverse s)))) with (length s - spaces (reverse s)) in Hw by lia.
Qed.

Lemma set_used_ok p w b s t n :
  fb_is w p b s t → (0 ≤ n)%Z →
  wp (fbuf_set_used p n) (yields p w b (Z.min n (size s)) (take (Z.to_nat n) s) (t || bool_decide (n < size s)%Z) (has b)) w.
Proof.
  intros Hi Hn. unfold fbuf_set_used. apply wp_bind. eapply wp_bld; [by apply (fi_buf _ _ _ _ _ Hi)|]. pose proof (fi_used _ _ _ _ _ Hi) as Hu.
  pose proof (fi_len _ _ _ _ _ Hi). pose proof (mem_is_sizes _ _ _ _ _ _ (fi_mem _ _ _ _ _ Hi)) as [Hk0 Hsz]. rewrite Hu.
  assert (size s < 2 ^ 31)%Z as Hs by (destruct Hsz as [(_ & -> & _)|]; cbn; lia). case_bool_decide as Hlt.
  - assert (data b ≠ None) as Hd by (destruct Hsz as [(_ & -> & _)|[? _]]; [cbn in Hlt; lia|done]).
    rewrite (proj2 (has_Some b) Hd), orb_true_r. eapply cut_ok; [done|done|lia|]. intros w' Hw. apply wp_ret. split; [|done]. rewrite i32_id; unfold in_i32; lia.
  - rewrite orb_false_r, take_ge by lia. apply wp_ret. split; [rewrite i32_id; unfold in_i32; lia|]. by apply becomes_self.
Qed.

Lemma clear_ok p w b s t :
  fb_is w p b s t → wp (fbuf_clear p) (yields p w b tt [] true (has b)) w.
Proof.
  intros Hi. pose proof Hi as [Hb Hu Hm Hmax Hlen Hpa Hf]. unfold fbuf_clear. apply wp_bind. eapply wp_bupd; [done|]. apply wp_bind. eapply wp_bld; [by world|].
  cbn [len set_skip set_used data].
  destruct (mem_is_inv _ _ _ _ _ _ Hm) as [(Hd & Hlb & Hk & ->)|(d & pre & x & rest & Hd & Hc & Hk & Hlb & Ht)].
  - rewrite bool_decide_eq_false_2 by lia. apply wp_ret. split; [done|]. exists b. rewrite Hd in *. cbn in Hu.
    assert (set_skip 0 (set_used 0 b) = b) as -> by (destruct b; unfold set_skip, set_used; cbn in *; by rewrite Hu, Hk).
    unfold with_buf. rewrite insert_id by done. destruct w. split_and!; [|done|apply frame_refl].
    split; try done. rewrite Hd, Hlb, Hk. constructor.
  - rewrite bool_decide_eq_true_2 by lia. rewrite Hd. eapply wp_blk_write; [by world|done|rewrite !length_app; cbn [length]; lia|]. split; [done|].
    rewrite (proj2 (has_Some b)) by congruence. eapply (rebuild p w b s t d _ _ _ [] [] 0%Z _ true); [done..| |reflexivity| |done|done|done|done|done|done|done]; cbn [app].
    2: { cbn. rewrite blit_0. reflexivity. }
    cbn [length]. rewrite length_drop, !length_app. cbn [length]. lia.
Qed.

(** ** Limits *)
Lemma maxlen_query_ok p w b s t :
  fb_is w p b s t → data b ≠ None → maxlen b = 0%Z →
  wp (fbuf_maxlen malloc_ok junk p UINT_MAX) (yields p w b 0%Z [] true true) w.
Proof using Hok.
  intros Hi Hd Hmax0. unfold fbuf_maxlen. apply wp_bind. eapply wp_bld; [by apply (fi_buf _ _ _ _ _ Hi)|].
  rewrite bool_decide_eq_false_2 by lia. apply wp_bind, wp_ret, wp_bind. eapply wp_bld; [by apply (fi_buf _ _ _ _ _ Hi)|]. rewrite Hmax0.
  destruct (mem_is_sizes _ _ _ _ _ _ (fi_mem _ _ _ _ _ Hi)) as [_ [(? & _)|[_ Hsz]]]; [done|].
  pose proof (mem_is_sizes _ _ _ _ _ _ (fi_mem _ _ _ _ _ Hi)) as [Hk _]. rewrite bool_decide_eq_true_2 by lia.
  apply wp_bind. eapply wp_mono; [by apply (fbuf_shrink_ok _ _ Hok)|]. intros r w1 (b1 & Hi1 & _ & Hfr & Hs1).
  assert (maxlen b1 = 0%Z) as Hm1 by (destruct Hfr as (_ & _ & _ & _ & -> & _); done). pose proof Hi1 as [Hb1 Hu1 Hmm1 _ _ Hpa1 Hf1].
  apply wp_bind. eapply wp_bld; [done|]. rewrite Hm1. change (u32 (0 + 1)) with 1%Z. apply wp_bind.
  assert (∀ c w2, length c = 1 → w_bufs w2 = w_bufs w1 → w_next w2 = Pos.succ (w_next w1) → w_blocks w2 !! w_next w1 = Some c →
    (∀ k, (w_next w1 < k)%positive → w_blocks w2 !! k = None) →
    (∀ k, Some k ≠ data b1 → (k < w_next w1)%positive → w_blocks w2 !! k = w_blocks w1 !! k) →
    wp (_ ← bupd p (λ b, set_len (u32 (maxlen b + 1)) (set_data (Some (w_next w1)) b));
        _ ← (if bool_decide (used b1 >= 0)%Z then bupd p (set_used 0) else mret tt);
        _ ← blk_put (Some (w_next w1)) 0 0; mret 0%Z) (yields p w b 0%Z [] true true) w2) as Hfin.
  { intros c w2 Hlc Hbw Hnw Hcw Hfr2 Hk2. apply wp_bind. eapply wp_bupd; [by rewrite Hbw|]. rewrite Hm1. change (u32 (0 + 1)) with 1%Z.
    rewrite bool_decide_eq_true_2 by lia. apply wp_bind. eapply wp_bupd; [by world|]. apply wp_bind. eapply wp_blk_write; [by world|done|rewrite Hlc; cbn; lia|].
    apply wp_ret. split; [done|]. eapply becomes_frame; [done|]. destruct c as [|y [|]]; [done| |done].
    destruct (new_block_at p w1 b1 s t (set_used 0 (set_len 1 (set_data (Some (w_next w1)) b1))) (with_block (w_next w1) [0%Z]
      (with_buf p (set_used 0 (set_len 1 (set_data (Some (w_next w1)) b1))) (with_buf p (set_len 1 (set_data (Some (w_next w1)) b1)) w2))) [] 0%Z [] true)
      as [Hi' Hfr']; try done.
    - cbn. by rewrite insert_insert_eq, Hbw.
    - cbn. by rewrite lookup_insert_eq.
    - intros k Hk'. cbn. rewrite lookup_insert_ne by lia. by apply Hfr2.
    - intros k Hk' Hlt. cbn. rewrite lookup_insert_ne by lia. by apply Hk2.
    - eexists. split_and!; [exact Hi'|by apply has_Some|exact Hfr']. }
  destruct (data b1) as [d|] eqn:Hd1.
  - destruct (fb_is_block _ _ _ _ _ Hi1) as (d0 & pre & x & rest & Hdd & Hc & _ & _ & _); [congruence|]. assert (d0 = d) as -> by congruence.
    pose proof (fresh_lt _ _ _ Hf1 Hc) as Hlt. eapply (wp_realloc _ _ Hok); [done|done|]. intros tail Htl. eapply Hfin; [|done|done| | |].
    + apply Nat2Z.inj. rewrite Htl. done.
    + world. by rewrite lookup_delete_ne, lookup_insert_eq by lia.
    + intros k Hk'. world. rewrite lookup_delete_None. right. rewrite lookup_insert_ne by lia. apply Hf1. lia.
    + intros k Hk' Hlt'. world. rewrite lookup_delete_ne by congruence. by rewrite lookup_insert_ne by lia.
  - apply (wp_realloc_null _ _ Hok); [done|]. intros c Hc. eapply (Hfin c); [lia|done|done| | |].
    + by world.
    + intros k Hk'. world. rewrite lookup_insert_ne by lia. apply Hf1. lia.
    + intros k Hk' Hlt'. world. by rewrite lookup_insert_ne by lia.
Qed.

(** ** Scripts against byte strings *)
(** The operations a script may have: the additions, of strings and of bytes,
    fbuf_set, fbuf_printf with a conversion that succeeds, fbuf_fread, the
    removals, fbuf_shrink, fbuf_extend and reading the contents.  Left out are
    fbuf_nprintf and fbuf_minlen, which overrun the block, fbuf_maxlen, a
    vsnprintf that fails, and the operations on two buffers. *)
Inductive fop :=
| AddBinary (bs : list Z) | PrependBinary (bs : list Z) | Add (s : list Z) | AddLn (s : list Z) | Prepend (s : list Z) | SetTo (s : list Z) | Printf (txt : list Z)
| Fread (file : list Z) (n : Z) | Remove (n : Z) | Trim | Rtrim | SetUsed (n : Z) | Clear | Shrink | Extend (n : Z)
| Contents.
Inductive fres := Num (z : Z) | Bytes (s : list Z).

(** For [Contents] the bytes that fbuf_data and fbuf_used describe; fbuf_shrink
    and fbuf_extend return a length, here only whether it is zero. *)
Definition run_fop (p : loc) (o : fop) : st world fres :=
  match o with
  | AddBinary bs => r ← fbuf_add_binary malloc_ok junk p bs (size bs); mret (Num r)
  | PrependBinary bs => r ← fbuf_prepend_binary malloc_ok junk p (Some bs) (size bs); mret (Num r)
  | Add s => r ← fbuf_add malloc_ok junk p (Some s); mret (Num r)
  | AddLn s => r ← fbuf_add_ln malloc_ok junk p (Some s); mret (Num r)
  | Prepend s => r ← fbuf_prepend malloc_ok junk p (Some s); mret (Num r)
  | SetTo s => r ← fbuf_set malloc_ok junk p s; mret (Num r)
  | Printf t => r ← fbuf_printf malloc_ok junk p (Some t); mret (Num r)
  | Fread file n => r ← fbuf_fread malloc_ok junk p file n; mret (Num r.1)
  | Remove n => r ← fbuf_remove p n; mret (Num r)
  | Trim => r ← fbuf_trim p; mret (Num r)
  | Rtrim => r ← fbuf_rtrim p; mret (Num r)
  | SetUsed n => r ← fbuf_set_used p n; mret (Num r)
  | Clear => _ ← fbuf_clear p; mret (Num 0)
  | Shrink => _ ← fbuf_shrink malloc_ok junk p; mret (Num 0)
  | Extend n => r ← fbuf_extend malloc_ok junk p n; mret (Num (if bool_decide (r = 0)%Z then 0 else 1))
  | Contents => n ← fbuf_used p; s ← fbuf_data p; mret (Bytes (take (Z.to_nat n) s))
  end.
Fixpoint run_fops (p : loc) (os : list fop) : st world (list fres) :=
  match os with
  | [] => mret []
  | o :: os => r ← run_fop p o; rs ← run_fops p os; mret (r :: rs)
  end.

(** The string, whether it is terminated, and whether there is a block. *)
Record astate := mk_astate { a_str : list Z; a_term : bool; a_block : bool }.
Definition afits (M n : Z) : bool := bool_decide (M = 0%Z) || bool_decide (n ≤ M)%Z.
(** An operation that needs room for [n] bytes. *)
Definition a_grow (M n : Z) (a : astate) (r : Z) (s : list Z) (t : bool) : fres * astate :=
  if afits M n then (Num r, mk_astate s t true) else (Num (-1), a).
Definition a_add (M : Z) (a : astate) (s : list Z) : Z * astate :=
  if bool_decide (s = []) then (0%Z, a)
  else if afits M (size (a_str a) + size s) then (size s, mk_astate (a_str a ++ s) true true) else ((-1)%Z, a).
(** The limit [M] is 0 if there is none.  Without a block removal and trimming
    write to the null pointer. *)
Definition a_step (M : Z) (a : astate) (o : fop) : outcome (fres * astate) :=
  let s := a_str a in let t := a_term a in let al := a_block a in
  match o with
  | AddBinary s' =>
      if bool_decide (s' = []) then Ret (Num (-1), a) else Ret (a_grow M (size s + size s') a (size s') (s ++ s') true)
  | PrependBinary s' =>
      if bool_decide (s' = []) then Ret (Num 0, a) else Ret (a_grow M (size s + size s') a (size s') (s' ++ s) false)
  | Add s' => let r := a_add M a s' in Ret (Num r.1, r.2)
  | AddLn s' =>
      let r1 := a_add M a s' in
      if bool_decide (r1.1 = -1)%Z then Ret (Num (-1), r1.2)
      else let r2 := a_add M r1.2 [10%Z] in
           Ret (Num (if bool_decide (r2.1 = -1)%Z then -1 else r1.1 + r2.1), r2.2)
  | Prepend s' =>
      if bool_decide (s' = []) then Ret (Num 0, a) else Ret (a_grow M (size s + size s') a (size s') (s' ++ s) false)
  | SetTo s' => Ret (a_grow M (size s') a (size s') s' true)
  | Printf t' =>
      Ret (if afits M (size s + 128) then
             if afits M (size s + size t') then (Num (size t'), mk_astate (s ++ t') true true)
             else (Num (-1), mk_astate s true true)
           else (Num (-1), a))
  | Fread file n =>
      let n := if bool_decide (n = 0)%Z then 1024%Z else n in
      let got := take (Z.to_nat n) file in
      Ret (a_grow M (size s + n) a (size got) (s ++ got) true)
  | Remove n =>
      if al then let s' := drop (Z.to_nat n) s in Ret (Num (size s'), mk_astate s' (t || bool_decide (size s ≤ n)%Z) true)
      else Fault
  | Trim =>
      if al then Ret (Num (Z.of_nat (spaces s)), mk_astate (drop (spaces s) s) (t || bool_decide (length s ≤ spaces s)) true)
      else Fault
  | Rtrim =>
      let n := spaces (reverse s) in
      if al then Ret (Num (Z.of_nat n), mk_astate (take (length s - n) s) true true) else Fault
  | SetUsed n => Ret (Num (Z.min n (size s)), mk_astate (take (Z.to_nat n) s) (t || bool_decide (n < size s)%Z) al)
  | Clear => Ret (Num 0, mk_astate [] true al)
  | Shrink => Ret (Num 0, mk_astate s t (nonempty s))
  | Extend n => Ret (if afits M n then (Num 1, mk_astate s false true) else (Num 0, a))
  | Contents => Ret (Bytes s, a)
  end.
Fixpoint a_run (M : Z) (a : astate) (os : list fop) : outcome (list fres * astate) :=
  match os with
  | [] => Ret ([], a)
  | o :: os => '(r, a) ← a_step M a o; '(rs, a) ← a_run M a os; Ret (r :: rs, a)
  end.

(** The bytes an operation may ask for. *)
Definition op_size (o : fop) : Z :=
  match o with
  | AddBinary s | PrependBinary s | Add s | AddLn s | Prepend s | SetTo s => size s + 1
  | Printf t => size t + 128
  | Fread _ n => n + 1024
  | Remove n | SetUsed n | Extend n => n
  | _ => 0
  end.
Definition fop_ok (o : fop) : Prop := match o with Fread _ n | Remove n | SetUsed n | Extend n => (0 ≤ n)%Z | _ => True end.

Definition holds (p : loc) (M : Z) (a : astate) (w : world) : Prop :=
  ∃ b, fb_is w p b (a_str a) (a_term a) ∧ has b = a_block a ∧ maxlen b = M.
Lemma becomes_holds p w b s t al w' : becomes p w b s t al w' → holds p (maxlen b) (mk_astate s t al) w'.
Proof. intros (b' & Hi & Hh & _ & _ & _ & _ & Hm & _). by exists b'. Qed.
Definition answers (p : loc) (M : Z) (r : fres) (a : astate) (r' : fres) (w' : world) : Prop := r' = r ∧ holds p M a w'.

Lemma wp_num {A} (m : st world A) f p M r a w :
  wp m (λ x w', f x = r ∧ holds p M a w') w → wp (x ← m; mret (f x)) (answers p M r a) w.
Proof. intros Hm. apply wp_bind. eapply wp_mono; [exact Hm|]. intros x w' [<- Hh]. by apply wp_ret. Qed.

Lemma a_add_range M a s' :
  (size (a_str (a_add M a s').2) ≤ size (a_str a) + size s' ∧ -1 ≤ (a_add M a s').1 ≤ size s')%Z.
Proof. unfold a_add. case_bool_decide; cbn; [lia|]. destruct (afits _ _); cbn; rewrite ?length_app; lia. Qed.
Lemma a_add_ok p M a w s' :
  holds p M a w → (size (a_str a) + size s' < 2 ^ 30)%Z →
  wp (fbuf_add malloc_ok junk p (Some s')) (λ r w', r = (a_add M a s').1 ∧ holds p M (a_add M a s').2 w') w.
Proof using Hok.
  intros (b & Hi & Hh & <-) Hn. eapply wp_mono; [by eapply add_str_ok|]. intros r w'. unfold a_add. case_bool_decide.
  - intros [-> Hb]. split; [done|]. apply becomes_holds in Hb. rewrite Hh in Hb. by destruct a.
  - unfold if_fits. change (afits (maxlen b) ?n) with (fits b n). destruct (fits b _).
    + intros [-> Hb]. split; [done|]. by apply becomes_holds in Hb.
    + intros [-> Hb]. split; [done|]. apply becomes_holds in Hb. rewrite Hh in Hb. by destruct a.
Qed.

(** An operation that extends first. *)
Lemma a_grow_ok p M a w b n r s' t' (m : st world Z) :
  fb_is w p b (a_str a) (a_term a) → has b = a_block a → maxlen b = M →
  wp m (if_fits p w b (a_str a) (a_term a) n r s' t') w →
  wp (x ← m; mret (Num x)) (answers p M (a_grow M n a r s' t').1 (a_grow M n a r s' t').2) w.
Proof.
  intros Hi Hh <- Hm. apply wp_num. eapply wp_mono; [exact Hm|]. intros x w'. unfold if_fits, a_grow.
  change (afits (maxlen b) n) with (fits b n). destruct (fits b n); intros [-> Hb]; apply becomes_holds in Hb; split; try done.
  rewrite Hh in Hb. by destruct a.
Qed.
(** Operations with one outcome. *)
Lemma yields_ok {A} p M a w b (f : A → fres) x s t al (m : st world A) :
  fb_is w p b (a_str a) (a_term a) → maxlen b = M →
  wp m (yields p w b x s t al) w → wp (y ← m; mret (f y)) (answers p M (f x) (mk_astate s t al)) w.
Proof. intros Hi <- Hm. apply wp_num. eapply wp_mono; [exact Hm|]. intros y w' [-> Hb]. split; [done|]. by apply becomes_holds in Hb. Qed.

(** Without a block the terminator would be written to the null pointer. *)
Lemma null_faults p w b t : fb_is w p b [] t → data b = None →
  (∀ n, (0 ≤ n)%Z → fbuf_remove p n w = Fault) ∧ fbuf_trim p w = Fault ∧ fbuf_rtrim p w = Fault.
Proof.
  intros [Hb Hu Hm _ _ _ _] Hd. cbn in Hu. apply mem_is_inv in Hm as [(_ & _ & Hk & _)|(? & ? & ? & ? & ? & _)]; [|congruence].
  assert (∀ n, (0 ≤ n)%Z → fbuf_remove p n w = Fault) as Hr.
  { intros n Hn. unfold fbuf_remove, mbind, st_bind, bld, bupd. rewrite Hb, Hu, bool_decide_eq_true_2 by lia. cbn. by rewrite Hb, Hd. }
  split_and!; [done| |].
  - assert (trim_loop (Z.to_nat (used b)) b 0 w = Ret (0%Z, w)) as Hl by (rewrite Hu; change (Z.to_nat (Z.of_nat 0)) with 0; cbn [trim_loop]; by rewrite Hu).
    unfold fbuf_trim, mbind, st_bind, bld. by rewrite Hb, Hl, Hr.
  - assert (rtrim_loop (Z.to_nat (used b)) b (used b) w = Ret (0%Z, w)) as Hl by (by rewrite Hu).
    unfold fbuf_rtrim, mbind, st_bind, bld. rewrite Hb, Hl. unfold bupd. by rewrite Hb, Hd, Hk.
Qed.

Lemma run_fop_ok p M a o w :
  holds p M a w → fop_ok o → (size (a_str a) + op_size o < 2 ^ 30)%Z →
  match a_step M a o with
  | Ret ra => wp (run_fop p o) (answers p M ra.1 ra.2) w
  | Fault => run_fop p o w = Fault
  end.
Proof using Hok.
  intros Hh Ho Hn. pose proof Hh as (b & Hi & Hb & HM).
  assert (a_block a = false → a_str a = [] ∧ data b = None) as Hnull.
  { intros Hf. assert (data b = None) as Hd by (destruct (data b) eqn:Hd; [|done]; rewrite Hf in Hb; apply bool_decide_eq_false in Hb; destruct Hb; congruence).
    split; [|done]. destruct Hi as [_ _ [(_ & _ & _ & ->)|(? & ? & ? & ? & ? & _)]%mem_is_inv _ _ _ _]; [done|congruence]. }
  assert (a_block a = true → data b ≠ None) as Hsome by (intros Ht; rewrite Ht in Hb; by apply has_Some).
  destruct o as [s'|s'|s'|s'|s'|s'|txt|file n|n| | |n| | |n|]; cbn [a_step run_fop op_size fop_ok] in *.
  - case_bool_decide as Hs'.
    + subst s'. apply wp_ret. split; [done|]. exact Hh.
    + eapply a_grow_ok; [done..|]. eapply wp_mono; [by eapply (add_binary_ok p w b); [done|done|lia]|].
      intros r w'. unfold if_fits. destruct (fits b _); [done|]. intros [-> ->]. by apply yields_self.
  - case_bool_decide as Hs'.
    + subst s'. apply wp_ret. split; [done|]. exact Hh.
    + eapply a_grow_ok; [done..|]. apply prepend_ok; [done|done|lia].
  - eapply wp_num. eapply wp_mono; [by apply (a_add_ok p M a); [done|lia]|]. intros r w' [-> Hw]. done.
  - (* AddLn *)
    assert (wp (fbuf_add_ln malloc_ok junk p (Some s')) (λ r w',
      r = (if bool_decide ((a_add M a s').1 = -1)%Z then (-1)%Z else
           if bool_decide ((a_add M (a_add M a s').2 [10%Z]).1 = -1)%Z then (-1)%Z
           else (a_add M a s').1 + (a_add M (a_add M a s').2 [10%Z]).1)%Z ∧
      holds p M (if bool_decide ((a_add M a s').1 = -1)%Z then (a_add M a s').2 else (a_add M (a_add M a s').2 [10%Z]).2) w') w) as Hwp.
    { unfold fbuf_add_ln. apply wp_bind. eapply wp_mono; [apply (a_add_ok p M a); [done|lia]|]. intros r w' [-> Hw].
      destruct (a_add_range M a s') as [Hsz Hrg].
      case_bool_decide; [by apply wp_ret|]. apply wp_bind. eapply wp_mono; [by apply (a_add_ok p M); [done|cbn [length]; lia]|].
      intros r w2 [-> Hw2]. case_bool_decide; [by apply wp_ret|]. eapply wp_wlift; [apply cint_ok|done].
      destruct (a_add_range M (a_add M a s').2 [10%Z]) as [_ Hr2]. cbn [length] in Hr2. unfold in_i32. lia. }
    case_bool_decide; eapply wp_num; (eapply wp_mono; [exact Hwp|]); intros r w' [-> Hw]; (split; [|done]); [done|].
    by case_bool_decide.
  - case_bool_decide as Hs'.
    + subst s'. apply wp_ret. split; [done|]. exact Hh.
    + unfold fbuf_prepend. destruct s' as [|c s']; [done|]. rewrite i32_id by (unfold in_i32; lia). eapply a_grow_ok; [done..|]. apply prepend_ok; [done|done|lia].
  - eapply a_grow_ok; [done..|]. apply set_str_ok; [done|lia].
  - (* Printf *)
    apply wp_num. eapply wp_mono; [apply printf_ok; [done|lia]|]. intros r w'. rewrite <-HM.
    change (afits (maxlen b) (size (a_str a) + 128)) with (fits b (size (a_str a) + 128)).
    change (afits (maxlen b) (size (a_str a) + size txt)) with (fits b (size (a_str a) + size txt)).
    destruct (fits b _); [destruct (fits b _)|]; intros [-> Hw]; apply becomes_holds in Hw; split; try done. rewrite Hb in Hw. by destruct a.
  - (* Fread *)
    set (e := if bool_decide (n = 0%Z) then 1024%Z else n).
    assert (wp (r ← fbuf_fread malloc_ok junk p file n; mret r.1)
      (if_fits p w b (a_str a) (a_term a) (size (a_str a) + e) (size (take (Z.to_nat e) file)) (a_str a ++ take (Z.to_nat e) file) true) w) as Hwp.
    { apply wp_bind. eapply wp_mono; [apply fread_ok; [done|done|case_bool_decide; lia]|]. intros r w' [_ Hw]. by apply wp_ret. }
    eapply (a_grow_ok p M a w b) in Hwp; [|done..]. unfold wp, mbind, st_bind in *. destruct (fbuf_fread _ _ _ _ _ w) as [[r w']|]; done.
  - destruct (a_block a) eqn:Hal; [|destruct (Hnull eq_refl) as [Hs Hd]; rewrite Hs in Hi; unfold mbind, st_bind; by rewrite (proj1 (null_faults p w b _ Hi Hd)) by done].
    eapply (yields_ok p M a w b Num); [done..|]. apply remove_ok; [done|auto|lia].
  - destruct (a_block a) eqn:Hal; [|destruct (Hnull eq_refl) as [Hs Hd]; rewrite Hs in Hi; unfold mbind, st_bind; by rewrite (proj1 (proj2 (null_faults p w b _ Hi Hd)))].
    eapply (yields_ok p M a w b Num); [done..|]. apply trim_ok; auto.
  - destruct (a_block a) eqn:Hal; [|destruct (Hnull eq_refl) as [Hs Hd]; rewrite Hs in Hi; unfold mbind, st_bind; by rewrite (proj2 (proj2 (null_faults p w b _ Hi Hd)))].
    eapply (yields_ok p M a w b Num); [done..|]. eapply rtrim_ok; eauto.
  - rewrite <-Hb. eapply (yields_ok p M a w b Num); [done..|]. by apply set_used_ok.
  - rewrite <-Hb. eapply (yields_ok p M a w b (λ _, Num 0)); [done..|]. by eapply clear_ok.
  - apply (wp_num _ (λ _, Num 0)). eapply wp_mono; [by apply (fbuf_shrink_ok _ _ Hok)|]. intros _ w' (b' & Hi' & Hh' & Hfr & _).
    split; [done|]. exists b'. split_and!; [done|done|]. destruct Hfr as (_ & _ & _ & _ & -> & _). done.
  - apply (wp_num _ (λ r, Num (if bool_decide (r = 0%Z) then 0 else 1))). eapply wp_mono; [apply (fbuf_extend_ok _ _ Hok p _ _ _ _ _ Hi); lia|].
    intros r w'. unfold extended. rewrite <-HM. change (afits (maxlen b) n) with (fits b n). destruct (fits b n).
    + intros (b' & Hr & Hi' & Hd' & _ & Hfr). rewrite bool_decide_eq_false_2 by lia. split; [done|]. exists b'. cbn. split_and!; [by eapply fb_is_term|by apply has_Some|].
      destruct Hfr as (_ & _ & _ & _ & -> & _). done.
    + intros [-> ->]. split; [done|]. by rewrite HM.
  - (* Contents *)
    apply wp_bind. unfold fbuf_used. apply wp_bind. eapply wp_bld; [by apply (fi_buf _ _ _ _ _ Hi)|]. apply wp_ret. unfold fbuf_data.
    apply wp_bind, wp_bind. eapply wp_bld; [by apply (fi_buf _ _ _ _ _ Hi)|]. rewrite (fi_used _ _ _ _ _ Hi), Nat2Z.id. apply wp_bind.
    destruct (mem_is_inv _ _ _ _ _ _ (fi_mem _ _ _ _ _ Hi)) as [(Hd & _ & _ & Hs)|(d & pre & x & rest & Hd & Hc & Hk & _ & _)]; rewrite Hd.
    + apply wp_ret, wp_ret, wp_ret. rewrite Hs. split; [by rewrite drop_nil|done].
    + eapply wp_block; [done|]. apply wp_ret, wp_ret. split; [|done]. rewrite Hk, Nat2Z.id. by rewrite read_at.
Qed.

Lemma a_step_size M a o r a' :
  fop_ok o → a_step M a o = Ret (r, a') → (size (a_str a') ≤ size (a_str a) + op_size o)%Z.
Proof.
  assert (∀ n, length (drop n (a_str a)) ≤ length (a_str a) ∧ length (take n (a_str a)) ≤ length (a_str a)) as Hle
    by (intros; rewrite length_drop, length_take; lia).
  intros Ho. destruct o as [s'|s'|s'|s'|s'|s'|txt|file n|n| | |n| | |n|]; cbn [a_step op_size fop_ok] in *; unfold a_grow; intros Hs.
  1, 2: case_bool_decide; simplify_eq; [lia|]; destruct (afits _ _); simplify_eq; cbn [a_str]; rewrite ?length_app; lia.
  - simplify_eq. pose proof (a_add_range M a s'). cbn. lia.
  - pose proof (a_add_range M a s'). pose proof (a_add_range M (a_add M a s').2 [10%Z]) as H2. cbn [length] in H2. case_bool_decide; simplify_eq; lia.
  - case_bool_decide; simplify_eq; [lia|]. destruct (afits _ _); simplify_eq; cbn [a_str]; rewrite ?length_app; lia.
  - destruct (afits _ _); simplify_eq; cbn [a_str]; lia.
  - destruct (afits _ _); [destruct (afits _ _)|]; simplify_eq; cbn [a_str]; rewrite ?length_app; lia.
  - assert (0 ≤ (if bool_decide (n = 0%Z) then 1024 else n) ≤ n + 1024)%Z by (case_bool_decide; lia).
    destruct (afits _ _); simplify_eq; cbn [a_str]; rewrite ?length_app, ?length_take; lia.
  - destruct (a_block a); simplify_eq. cbn [a_str]. destruct (Hle (Z.to_nat n)). lia.
  - destruct (a_block a); simplify_eq. cbn [a_str]. destruct (Hle (spaces (a_str a))). lia.
  - destruct (a_block a); simplify_eq. cbn [a_str]. destruct (Hle (length (a_str a) - spaces (reverse (a_str a)))). lia.
  - simplify_eq. cbn [a_str]. destruct (Hle (Z.to_nat n)). lia.
  - simplify_eq. cbn. lia.
  - simplify_eq. cbn. lia.
  - destruct (afits _ _); simplify_eq; cbn; lia.
  - simplify_eq. lia.
Qed.

Definition total (os : list fop) : Z := foldr (λ o n, op_size o + n)%Z 0%Z os.
Lemma op_size_pos o : fop_ok o → (0 ≤ op_size o)%Z.
Proof. destruct o; cbn [op_size fop_ok]; lia. Qed.
Lemma total_pos os : Forall fop_ok os → (0 ≤ total os)%Z.
Proof. induction 1 as [|o os Ho _ IH]; [done|]. apply op_size_pos in Ho. change (0 ≤ op_size o + total os)%Z. lia. Qed.

Lemma run_fops_ok p M a os w :
  holds p M a w → Forall fop_ok os → (size (a_str a) + total os < 2 ^ 30)%Z →
  match a_run M a os with
  | Ret (rs, a') => ∃ w', run_fops p os w = Ret (rs, w') ∧ holds p M a' w'
  | Fault => run_fops p os w = Fault
  end.
Proof using Hok.
  intros Hh Hos. revert a w Hh. induction Hos as [|o os Ho Hos IH]; intros a w Hh Hn; cbn [a_run run_fops total foldr] in *; [eauto|].
  fold (total os) in Hn. pose proof (total_pos os Hos). pose proof (run_fop_ok p M a o w Hh Ho ltac:(lia)) as Hstep.
  pose proof (a_step_size M a o) as Hsz. unfold mbind, outcome_bind, st_bind. destruct (a_step M a o) as [[r a1]|]; [|by rewrite Hstep].
  cbn [fst snd] in *. apply wp_run in Hstep as (r' & w1 & -> & -> & Hh1). specialize (Hsz r a1 Ho eq_refl).
  specialize (IH a1 w1 Hh1 ltac:(lia)). destruct (a_run M a1 os) as [[rs a2]|]; [|by rewrite IH].
  destruct IH as (w2 & -> & Hh2). eauto.
Qed.
End Scripts.
