(* ===== verification/FBufTheorems.v ===== *)
(** * What growing buffers do

    Scripts of operations on a new buffer ([fbuf_refines_string]); transfers
    between two buffers; reading lines; the cases in which bytes are lost,
    memory is leaked or overrun. *)
From S2P Require Import Prelude Heap FBuf FBufRep FBufOps.

Section Theorems.
Context (malloc_ok : Z → bool) (junk : nat → Z).
Notation size s := (Z.of_nat (length s)).

Definition new_and_run (M : Z) (os : list fop) : st world (loc * list fres) :=
  q ← fbuf_create true M; p ← wlift (deref q); rs ← run_fops malloc_ok junk p os; mret (p, rs).

Lemma new_holds w M :
  fresh w → (0 ≤ M < 2 ^ 31)%Z →
  ∃ p w', fbuf_create true M w = Ret (Some p, w') ∧ holds p M (mk_astate [] true false) w'.
Proof.
  intros Hf HM. unfold fbuf_create, mbind, st_bind, fetch_and_add_count, balloc. cbn. do 2 eexists. split; [done|].
  set (b := mk_fbuf _ _ _ _ _ _ _ _ _). exists b. split_and!; [|by rewrite has_None|done]. cbn [a_str a_term].
  split; [cbn; by rewrite lookup_insert_eq|done|apply mem_null|cbn; lia|done|split; [done|by vm_compute..]|].
  intros k Hk. cbn in *. destruct (Hf k) as [H1 H2]; [lia|]. split; [|done]. rewrite lookup_insert_ne; [done|lia].
Qed.

Lemma cstr_of_app0 s rest : cstr_of (s ++ 0%Z :: rest) = cstr_of s.
Proof. induction s as [|c s IH]; cbn; [done|]. case_bool_decide; [done|by rewrite IH]. Qed.


Context (Hok : ∀ n, malloc_ok n = true).
(** ** Two buffers *)
Definition apart (b b2 : fbuf_t) : Prop := ∀ d, data b = Some d → data b2 ≠ Some d.
Lemma frame_other p q w w' b b' b2 s2 t2 :
  frame p b b' w w' → fresh w' → q ≠ p → fb_is w q b2 s2 t2 → apart b b2 → fb_is w' q b2 s2 t2 ∧ apart b' b2.
Proof.
  intros (Hb & Hk & _ & Hd & _) Hf Hne [Hb2 Hu2 Hm2 Hmax2 Hlen2 Hpa2 Hf2] Hap. split.
  - split; [by rewrite Hb|done| |done|done|done|done].
    destruct (mem_is_inv _ _ _ _ _ _ Hm2) as [(Hd2 & -> & -> & ->)|(d & pre & x & rest & Hd2 & Hc & -> & -> & Ht)]; rewrite Hd2; [constructor|].
    eapply mem_block; [|done|done|done]. rewrite Hk; [done| |by eapply fresh_lt]. intros Hdb. by apply (Hap d).
  - intros d Hd' Hd2. destruct Hd as [Hd|Hd]; [by apply (Hap d); [congruence|]|].
    destruct (mem_is_inv _ _ _ _ _ _ Hm2) as [(H & _)|(d2 & pre & x & rest & Hd2' & Hc & _)]; [congruence|].
    assert (d2 = d) as -> by congruence. pose proof (fresh_lt _ _ _ Hf2 Hc). specialize (Hd d Hd'). lia.
Qed.

(** Fbuf_concat of two different buffers appends the contents of the second
    to the first, which is then terminated if the second is, or fails and
    changes nothing when the limit is exceeded; the second one is left alone. *)
Theorem fbuf_concat_correct p q w b s t b2 s2 t2 :
  fb_is w p b s t → fb_is w q b2 s2 t2 → q ≠ p → apart b b2 → s2 ≠ [] → (size s + size s2 < 2 ^ 30)%Z →
  ∃ r w', fbuf_concat malloc_ok junk p q w = Ret (r, w') ∧ fb_is w' q b2 s2 t2 ∧
    if fits b (size s + size s2) then r = size s2 ∧ becomes p w b (s ++ s2) t2 true w' else r = (-1)%Z ∧ w' = w.
Proof using Hok.
  intros Hi Hi2 Hne Hap Hs2 Hn. apply (wp_run _ (λ r w', fb_is w' q b2 s2 t2 ∧ if fits b (size s + size s2) then r = size s2 ∧ becomes p w b (s ++ s2) t2 true w' else r = (-1)%Z ∧ w' = w)).
  unfold fbuf_concat. apply wp_bind. eapply wp_bld; [by apply (fi_buf _ _ _ _ _ Hi2)|].
  assert (0 < size s2)%Z as Hs2' by (destruct s2; [done|cbn; lia]). rewrite (fi_used _ _ _ _ _ Hi2), bool_decide_eq_false_2 by lia. rewrite i32_id by (unfold in_i32; lia).
  apply wp_bind. eapply wp_bld; [by apply (fi_buf _ _ _ _ _ Hi)|]. rewrite (fi_used _ _ _ _ _ Hi), u32_small by lia.
  eapply wp_extend; [done|done|lia|intros ->; by apply wp_ret|]. intros w1 b1 -> Hi1 Hd1 Hl1 Hfr.
  destruct (frame_other _ q _ _ _ _ _ _ _ Hfr (fi_fresh _ _ _ _ _ Hi1) Hne Hi2 Hap) as [Hi2' Hap'].
  apply wp_bind. eapply wp_bld; [by apply (fi_buf _ _ _ _ _ Hi1)|]. apply wp_bind. eapply wp_bld; [by apply (fi_buf _ _ _ _ _ Hi2')|].
  apply wp_bind. eapply wp_wlift; [apply cint_ok; unfold in_i32; lia|].
  destruct (fb_is_block _ _ _ _ _ Hi2') as (d2 & pre2 & x2 & rest2 & Hd2 & Hc2 & Hk2 & Hl2 & Ht2).
  { intros Hd. destruct (mem_is_inv _ _ _ _ _ _ (fi_mem _ _ _ _ _ Hi2)) as [(_ & _ & _ & ?)|(? & ? & ? & ? & ? & _)]; congruence. }
  rewrite Hd2, Hk2. apply wp_bind. eapply wp_blk_read; [done|lia|lia|rewrite !length_app; cbn [length]; lia|]. rewrite read_more by lia.
  destruct (room_ok _ _ _ _ _ (size s2) Hi1 Hd1) as (d & pre & x & rest & Hdd & Hc & Hk & Hu1 & Hl & Hr & _); [lia|lia|].
  rewrite Hdd, Hk, Hu1. apply wp_bind. eapply wp_blk_write; [done|lia|rewrite !length_app; cbn [length]; lia|].
  apply wp_bind. eapply wp_bupd; [by apply (fi_buf _ _ _ _ _ Hi1)|]. apply wp_ret.
  match goal with |- _ ∧ _ ∧ becomes _ _ _ _ _ _ ?w2 => assert (becomes p w1 b1 (s ++ s2) t2 true w2) as Hw2 end.
  { rewrite (app_assoc pre s), blit_at by (rewrite length_app; lia). rewrite <-!app_assoc. cbn [app].
    eapply (rebuild p w1 b1 s _ d _ _ (set_used (size (s ++ s2)) b1) pre (s ++ s2) x2 (drop (length (s2 ++ [x2])) (x :: rest)) t2); [done..| | | |done|done|done|done|done|done|done].
    - rewrite !length_app. cbn [length]. rewrite length_drop. cbn [length]. lia.
    - cbn. do 2 f_equal. rewrite u32_small, length_app; lia.
    - cbn. by rewrite <-!app_assoc. }
  pose proof Hw2 as (b' & Hi' & _ & Hfr').
  split; [by apply (frame_other _ q _ _ _ _ _ _ _ Hfr' (fi_fresh _ _ _ _ _ Hi') Hne Hi2' Hap')|]. split; [done|]. by eapply becomes_frame.
Qed.

(** ** Handing over the block *)
Lemma detach_ok p w b s t :
  fb_is w p b s t → s ≠ [] →
  wp (fbuf_detach malloc_ok junk p) (λ r w', ∃ d x rest b',
    r = (size s, Some (Some d, size (s ++ x :: rest))) ∧ fb_is w' p b' [] true ∧ data b' = None ∧ frame p b b' w w' ∧
    w_blocks w' !! d = Some (s ++ x :: rest) ∧ (size (s ++ x :: rest) < 2 ^ 31)%Z ∧ (data b = Some d ∨ (w_next w ≤ d)%positive)) w.
Proof using Hok.
  intros Hi Hs. assert (0 < size s)%Z as Hs' by (destruct s; [done|cbn; lia]). unfold fbuf_detach. apply wp_bind. eapply wp_bld; [by apply (fi_buf _ _ _ _ _ Hi)|].
  rewrite bool_decide_eq_false_2 by (rewrite (fi_used _ _ _ _ _ Hi); lia).
  assert (wp (if bool_decide (skip b ≠ 0%Z) then _ ← fbuf_shrink malloc_ok junk p; mret tt else mret tt)
    (λ _ w', becomes_front p w b s t true w') w) as Hgo.
  { case_bool_decide as Hk.
    - apply wp_bind. eapply wp_mono; [by apply (fbuf_shrink_ok _ _ Hok)|]. intros r w' Hw. apply wp_ret. by destruct s.
    - apply wp_ret. exists b. split_and!; [done| |apply frame_refl|lia]. apply has_Some. intros Hd.
      destruct (mem_is_inv _ _ _ _ _ _ (fi_mem _ _ _ _ _ Hi)) as [(_ & _ & _ & ?)|(? & ? & ? & ? & ? & _)]; congruence. }
  apply wp_bind. eapply wp_mono; [exact Hgo|]. intros [] w1 (b1 & Hi1 & Hh1 & Hfr & Hk1). apply has_Some in Hh1. apply wp_bind.
  eapply wp_bld; [by apply (fi_buf _ _ _ _ _ Hi1)|]. apply wp_bind. eapply wp_bupd; [by apply (fi_buf _ _ _ _ _ Hi1)|]. apply wp_ret.
  destruct (fb_is_block _ _ _ _ _ Hi1 Hh1) as (d & pre & x & rest & Hd & Hc & Hk & Hl & _). destruct pre; [|cbn in Hk; lia]. cbn [app length] in *.
  pose proof (fi_len _ _ _ _ _ Hi1) as Hlen. assert (size (s ++ x :: rest) = len b1) as Hsl by (rewrite Hl, length_app; cbn [length]; lia).
  exists d, x, rest, (set_data None (set_len 0 (set_skip 0 (set_used 0 b1)))). destruct Hfr as (Hf1 & Hf2 & Hf3 & Hf4 & Hf5). split_and!.
  - rewrite Hd, (fi_used _ _ _ _ _ Hi1), i32_id, Hsl; [done|]. unfold in_i32. lia.
  - destruct Hi1 as [Hb1 _ _ _ _ [] Hf]. split; [by world|done|apply mem_null|cbn; lia|done|done|by eapply fresh_buf].
  - done.
  - split_and!; [|done|done|by right|exact Hf5]. intros q Hq. cbn. rewrite lookup_insert_ne by done. by apply Hf1.
  - done.
  - lia.
  - destruct Hf4 as [Hf4|Hf4]; [left; congruence|right; by apply Hf4].
Qed.

Lemma attach_ok q w b2 s2 t2 d s x rest :
  fb_is w q b2 s2 t2 → maxlen b2 = 0%Z → w_blocks w !! d = Some (s ++ x :: rest) → data b2 ≠ Some d → (size (s ++ x :: rest) < 2 ^ 31)%Z →
  wp (fbuf_attach malloc_ok junk q (Some d) (size (s ++ x :: rest)) (size s))
    (λ r w', r = size s2 ∧ (∃ b', fb_is w' q b' s true ∧ data b' = Some d) ∧ (∀ k, k ≠ q → w_bufs w' !! k = w_bufs w !! k) ∧
       (∀ k, data b2 = Some k → w_blocks w' !! k = None) ∧ w_next w' = w_next w) w.
Proof.
  intros Hi Hmax Hd Hne Hl. pose proof Hi as [Hb Hu Hm _ _ Hpa Hf]. unfold fbuf_attach. apply wp_bind. eapply wp_bld; [done|].
  set (w1 := match data b2 with Some k => without k w | None => w end).
  assert (wp (free (data b2)) (λ _ w', w' = w1) w) as Hgo.
  { unfold w1. destruct (mem_is_inv _ _ _ _ _ _ Hm) as [(-> & _)|(k & pre & y & r & -> & Hc & _)]; [by apply wp_ret|]. by eapply wp_free_block. }
  assert (w_bufs w1 = w_bufs w ∧ w_next w1 = w_next w ∧ w_blocks w1 !! d = Some (s ++ x :: rest) ∧ fresh w1 ∧ (∀ k, data b2 = Some k → w_blocks w1 !! k = None)) as (Hbw & Hnw & Hdw & Hfw & Hkw).
  { unfold w1. destruct (data b2) as [k|]; [|by split_and!]. cbn. split_and!; [done|done|by rewrite lookup_delete_ne by congruence|by apply fresh_without|].
    intros k' [= <-]. apply lookup_delete_eq. }
  apply wp_bind. eapply wp_mono; [exact Hgo|]. intros [] ? ->. apply wp_bind. eapply wp_bupd; [by rewrite Hbw|].
  assert (size s < size (s ++ x :: rest))%Z as Hlt by (rewrite length_app; cbn [length]; lia).
  rewrite (bool_decide_eq_true_2 (size s < _)%Z), (bool_decide_eq_false_2 (size s >= _)%Z) by lia.
  apply wp_bind, wp_ret, wp_bind. eapply wp_bupd; [by world|]. cbn [andb].
  apply wp_bind. eapply wp_bupd; [by world|]. rewrite !u32_small by lia. apply wp_bind. eapply wp_blk_write; [cbn; exact Hdw|lia|cbn [length]; lia|]. apply wp_ret.
  rewrite blit_at by lia. cbn [length skipn]. split_and!; [by rewrite Hu| | | |done].
  - eexists. split; [split|]; [cbn; by rewrite lookup_insert_eq|done| |cbn; lia|cbn; lia|by destruct Hpa| |].
    + cbn [data len skip set_used set_len set_data set_skip]. eapply (mem_block _ d [] s 0%Z rest); [cbn; by rewrite lookup_insert_eq, drop_0|done| |done].
      rewrite length_app. cbn [length]. lia.
    + assert (w_bufs w1 !! q = Some b2) as Hb1 by (by rewrite Hbw). intros k Hk. destruct (Hfw k Hk) as [H1 H2]. cbn. split.
      * rewrite !lookup_insert_ne by (intros ->; congruence). done.
      * rewrite lookup_insert_ne by (intros ->; congruence). done.
    + done.
  - intros k Hk. cbn. rewrite !lookup_insert_ne by done. by rewrite Hbw.
  - intros k Hk. cbn. rewrite lookup_insert_ne by congruence. by apply Hkw.
Qed.

(** C38: detaching the block of a buffer and attaching it to another, unlimited
    one hands the contents over: the first is empty afterwards, the second has
    exactly these bytes, and the block it had before is freed. *)
Theorem fbuf_detach_attach p q w b s t b2 s2 t2 :
  fb_is w p b s t → fb_is w q b2 s2 t2 → q ≠ p → apart b b2 → s ≠ [] → maxlen b2 = 0%Z →
  ∃ w' b' b2', (r ← fbuf_detach malloc_ok junk p;
       match r.2 with Some (buf, l) => fbuf_attach malloc_ok junk q buf l r.1 | None => mret 0%Z end) w = Ret (size s2, w') ∧
    w_bufs w' !! p = Some b' ∧ data b' = None ∧ used b' = 0%Z ∧
    fb_is w' q b2' s true ∧ (∀ k, data b2 = Some k → w_blocks w' !! k = None).
Proof using Hok.
  intros Hi Hi2 Hne Hap Hs Hmax.
  assert (wp (r ← fbuf_detach malloc_ok junk p; match r.2 with Some (buf, l) => fbuf_attach malloc_ok junk q buf l r.1 | None => mret 0%Z end)
    (λ r w', r = size s2 ∧ ∃ b' b2', w_bufs w' !! p = Some b' ∧ data b' = None ∧ used b' = 0%Z ∧
      fb_is w' q b2' s true ∧ (∀ k, data b2 = Some k → w_blocks w' !! k = None)) w) as Hwp.
  { apply wp_bind. eapply wp_mono; [by eapply detach_ok|]. intros r w1 (d & x & rest & b1 & -> & Hi1 & Hd1 & Hfr & Hc & Hl & Hd). cbn [fst snd].
    destruct (frame_other _ q _ _ _ _ _ _ _ Hfr (fi_fresh _ _ _ _ _ Hi1) Hne Hi2 Hap) as [Hi2' _].
    assert (data b2 ≠ Some d) as Hbd.
    { destruct Hd as [Hd|Hd]; [by apply Hap|]. intros Hb2. destruct (mem_is_inv _ _ _ _ _ _ (fi_mem _ _ _ _ _ Hi2)) as [(? & _)|(d2 & ? & ? & ? & Hd2 & Hc2 & _)]; [congruence|].
      assert (d2 = d) as -> by congruence. pose proof (fresh_lt _ _ _ (fi_fresh _ _ _ _ _ Hi2) Hc2). lia. }
    eapply wp_mono; [by eapply attach_ok|]. intros r w2 (-> & (b2' & Hi3 & _) & Hbw & Hkw & _). split; [done|]. exists b1, b2'.
    split_and!; [rewrite Hbw by done; by apply (fi_buf _ _ _ _ _ Hi1)|done|by apply (fi_used _ _ _ _ _ Hi1)|done|done]. }
  apply wp_run in Hwp as (r & w' & Hrun & -> & b' & b2' & H). by exists w', b', b2'.
Qed.

(** ** Reading a line *)
(** A carriage return at the end is dropped. *)
Definition chomp (s : list Z) : list Z := if bool_decide (last s = Some 13%Z) then take (length s - 1) s else s.

Lemma last_byte_ok p w b s t (Q : option Z → world → Prop) :
  fb_is w p b s t → Q (last s) w →
  wp (if bool_decide (size s = 0)%Z then mret None
      else c ← blk_get (data b) (u32 (u32 (skip b + size s) - 1)); mret (Some c)) Q w.
Proof.
  intros Hi HQ. case_bool_decide as H0; [assert (s = []) as -> by (apply length_zero_iff_nil; lia); by apply wp_ret|].
  destruct (fb_is_block _ _ _ _ _ Hi) as (d & pre & x & rest & Hdd & Hc & Hk & Hl & _).
  { intros Hd. destruct (mem_is_inv _ _ _ _ _ _ (fi_mem _ _ _ _ _ Hi)) as [(_ & _ & _ & ->)|(? & ? & ? & ? & ? & _)]; [done|congruence]. }
  pose proof (fi_len _ _ _ _ _ Hi). destruct (lookup_lt_is_Some_2 s (length s - 1)) as [c Hsc]; [lia|].
  rewrite Hdd, Hk, (u32_small (_ + _)), u32_small by lia. apply wp_bind. eapply (wp_blk_get _ _ _ c); [done|lia| |].
  { rewrite lookup_app_r by lia. rewrite lookup_app_l by lia. rewrite <-Hsc. f_equal. lia. }
  apply wp_ret. rewrite last_lookup in HQ. replace (pred (length s)) with (length s - 1) in HQ by lia. by rewrite Hsc in HQ.
Qed.

Lemma i32_u32 z : in_i32 z → i32 (u32 z) = z.
Proof.
  unfold in_i32, i32, u32. intros Hz. rewrite Zplus_mod_idemp_l, Z.mod_small; lia.
Qed.
Definition get1 (file : list Z) : Z * list Z * list Z := let '(got, file) := fread file 1 in (size got, got, file).
Lemma read_step_ok p n c file w b s t (Q : bool * list Z → world → Prop) :
  fb_is w p b s t → maxlen b = 0%Z → last s ≠ Some 10%Z → (size s + 1 < 2 ^ 30)%Z →
  (∀ w' b', fb_is w' p b' (s ++ [c]) false → frame p b b' w w' → wp (read_ln_loop malloc_ok junk get1 n p file) Q w') →
  wp (read_ln_loop malloc_ok junk get1 (S n) p (c :: file)) Q w.
Proof using Hok.
  intros Hi Hmax Hlast Hsz HQ. cbn [read_ln_loop]. apply wp_bind. eapply wp_bld; [by apply (fi_buf _ _ _ _ _ Hi)|]. rewrite (fi_used _ _ _ _ _ Hi).
  apply wp_bind. eapply last_byte_ok; [done|]. rewrite bool_decide_eq_false_2 by done. rewrite (u32_small (size s + 1)) by lia.
  eapply wp_extend; [done|done|lia|intros Hf; apply fits_not in Hf; lia|]. intros w1 b1 _ Hi1 Hd1 Hl1 Hfr.
  apply wp_bind. eapply wp_bld; [by apply (fi_buf _ _ _ _ _ Hi1)|]. change (get1 (c :: file)) with (1%Z, [c], file). cbv iota beta.
  apply wp_bind. eapply store_ok; [done|done|cbn [length]; lia|]. intros d pre y rest c' Hdd Hc Hlc Hk. rewrite bool_decide_eq_true_2 by lia.
  apply wp_bind. eapply wp_bupd; [by apply (fi_buf _ _ _ _ _ Hi1)|]. rewrite (fi_used _ _ _ _ _ Hi1), u32_small by lia.
  assert (becomes p w1 b1 (s ++ [c]) false true (with_buf p (set_used (size s + 1) b1) (with_block d (pre ++ s ++ [c] ++ y :: rest) w1))) as (b' & Hi' & _ & Hfr').
  { eapply (rebuild p w1 b1 s _ d c' _ _ pre (s ++ [c]) y rest false); [done..| |reflexivity| |done|done|done|done|done| |done].
    - rewrite <-Hlc, <-!app_assoc. done.
    - cbn. by rewrite <-!app_assoc.
    - cbn. rewrite length_app. cbn [length]. lia. }
  eapply HQ; [done|]. by eapply frame_trans.
Qed.

Lemma read_loop_ok p line rest n w b s t :
  fb_is w p b s t → maxlen b = 0%Z → last s ≠ Some 10%Z → 10%Z ∉ line → length line < n → (size s + size line + 1 < 2 ^ 30)%Z →
  wp (read_ln_loop malloc_ok junk get1 n p (line ++ 10%Z :: rest))
    (λ r w', r = (true, rest) ∧ becomes p w b (s ++ line ++ [10%Z]) false true w') w.
Proof using Hok.
  revert n w b s t. induction line as [|c line IH]; intros n w b s t Hi Hmax Hlast Hnl Hn Hsz; (destruct n as [|n]; [cbn in Hn; lia|]); cbn [app].
  - eapply read_step_ok; [done..|cbn in Hsz; lia|]. intros w' b' Hi' Hfr.
    assert (becomes p w b (s ++ [10%Z]) false true w') as Hb.
    { exists b'. split_and!; [done| |done]. apply has_Some. intros Hd. destruct (mem_is_inv _ _ _ _ _ _ (fi_mem _ _ _ _ _ Hi')) as [(_ & _ & _ & H)|(? & ? & ? & ? & ? & _)];
      [by destruct s|congruence]. }
    destruct n; cbn [read_ln_loop]; apply wp_bind; (eapply wp_bld; [by apply (fi_buf _ _ _ _ _ Hi')|]); rewrite (fi_used _ _ _ _ _ Hi');
      apply wp_bind; (eapply last_byte_ok; [done|]); rewrite last_snoc, bool_decide_eq_true_2 by done; by apply wp_ret.
  - apply not_elem_of_cons in Hnl as [Hc Hnl]. cbn [length] in Hn, Hsz. eapply read_step_ok; [done..|lia|]. intros w' b' Hi' Hfr.
    eapply wp_mono; [eapply IH; [done| |by rewrite last_snoc; congruence|done|lia|rewrite length_app; cbn [length]; lia]|].
    + destruct Hfr as (_ & _ & _ & _ & -> & _). done.
    + intros r w2 [-> Hb]. split; [done|]. rewrite <-app_assoc in Hb. by eapply becomes_frame.
Qed.

(** C39: fbuf_fread_ln on an unlimited buffer whose contents do not end in a
    newline takes the stream up to and including the next newline and appends the
    line without its end, LF or CR LF; it returns how much the contents have
    grown. *)
Theorem fbuf_fread_ln_correct p w b s t line rest :
  fb_is w p b s t → maxlen b = 0%Z → last s ≠ Some 10%Z → 10%Z ∉ line → (size s + size line + 1 < 2 ^ 30)%Z →
  ∃ w', fbuf_fread_ln malloc_ok junk p (line ++ 10%Z :: rest) w = Ret ((size (chomp (s ++ line)) - size s, rest)%Z, w') ∧
    becomes p w b (chomp (s ++ line)) true true w'.
Proof using Hok.
  intros Hi Hmax Hlast Hnl Hsz.
  assert (wp (fbuf_fread_ln malloc_ok junk p (line ++ 10%Z :: rest))
    (λ r w', r = (size (chomp (s ++ line)) - size s, rest)%Z ∧ becomes p w b (chomp (s ++ line)) true true w') w) as Hwp.
  { unfold fbuf_fread_ln, read_ln. apply wp_bind. eapply wp_bld; [by apply (fi_buf _ _ _ _ _ Hi)|]. apply wp_bind.
    eapply wp_mono; [eapply read_loop_ok; try done; rewrite length_app; cbn [length]; lia|]. intros r w1 [-> (b1 & Hi1 & Hh1 & Hfr)]. apply has_Some in Hh1.
    rewrite app_assoc in Hi1. set (x := s ++ line) in *. assert (size x = size s + size line)%Z as Hx by (unfold x; rewrite length_app; lia).
    pose proof (fi_used _ _ _ _ _ Hi1) as Hu1. rewrite length_app in Hu1. cbn [length] in Hu1. apply wp_bind. unfold strip_ln. apply wp_bind.
    eapply wp_bld; [by apply (fi_buf _ _ _ _ _ Hi1)|]. rewrite Hu1, (fi_used _ _ _ _ _ Hi), i32_id by (unfold in_i32; lia).
    rewrite (u32_small (Z.of_nat _ - 1)) by lia. replace (Z.of_nat (length x + 1) - 1)%Z with (size x) by lia.
    eapply cut_at; [done|done|rewrite length_app; cbn [length]; lia|]. rewrite Nat2Z.id, take_app_length. intros w2 Hi2 Hfr2.
    apply wp_bind. eapply (last_byte_ok p w2 (set_used (size x) b1) x true); [exact Hi2|]. unfold chomp. case_bool_decide as Hcr.
    - assert (0 < size x)%Z as Hx0 by (destruct x; [done|cbn; lia]). rewrite length_take.
      apply wp_bind. eapply (cut_ok (mret (size x - 1)%Z) _ p w2 (set_used (size x) b1) x true); [exact Hi2|done|lia|]. intros w3 Hw3. apply wp_ret, wp_ret, wp_ret.
      replace (Z.to_nat (size x - 1)) with (length x - 1) in Hw3 by lia. split.
      + f_equal. rewrite i32_u32 by (unfold in_i32; lia). lia.
      + eapply becomes_frame; [exact Hfr|]. by eapply becomes_frame.
    - apply wp_bind, wp_ret, wp_ret, wp_ret. split; [by rewrite i32_u32 by (unfold in_i32; lia)|].
      eapply becomes_frame; [exact Hfr|]. exists (set_used (size x) b1). split_and!; [done|by apply has_Some|done]. }
  apply wp_run in Hwp as (r & w' & Hrun & -> & Hb). by exists w'.
Qed.

(** C40: fbuf_maxlen called with UINT_MAX, which fbuf.h documents as a query that
    sets nothing, empties every buffer that has a block and no limit. *)
Theorem fbuf_maxlen_query_empties p w b s t :
  fb_is w p b s t → data b ≠ None → maxlen b = 0%Z →
  ∃ w', fbuf_maxlen malloc_ok junk p UINT_MAX w = Ret (0%Z, w') ∧ becomes p w b [] true true w'.
Proof using Hok.
  intros Hi Hd Hm. destruct (wp_run _ _ _ (maxlen_query_ok malloc_ok junk Hok p w b s t Hi Hd Hm)) as (r & w' & Hrun & -> & Hb). by exists w'.
Qed.
End Theorems.

(** ** Defects *)
Definition no_world : world := mk_world ∅ ∅ 1 0.
Definition letters (n : nat) (c : Z) : list Z := replicate n c.
(** The result of calls on a new buffer and the number of blocks left. *)
Definition on_new {A} (M : Z) (f : loc → st world A) : option (A * nat) :=
  match (q ← fbuf_create true M; p ← wlift (deref q); f p) no_world with
  | Ret (r, w) => Some (r, length (map_to_list (w_blocks w)))
  | Fault => None
  end.
Notation every := (λ _ : Z, true).
Notation j255 := (λ _ : nat, 255%Z).

(** What goes wrong.  A buffer that is extended while bytes are skipped
    leaks its old block; prepending to it leaves no terminator; fbuf_minlen cuts
    the block without regard to the skipped bytes, and the next addition overruns
    it; after a failed allocation the recorded length is that of the block that
    was not obtained; fbuf_nprintf overruns the block if the text is longer than
    its bound; fbuf_add_ln that fails may have added the text; with the greatest
    limit maxlen + 1 is 0 and nothing can be added. *)
Theorem fbuf_defects :
  on_new 0 (λ p, _ ← fbuf_add every j255 p (Some (letters 100 97)); _ ← fbuf_remove p 10;
          _ ← fbuf_add every j255 p (Some (letters 200 98)); fbuf_destroy p) = Some (tt, 1) ∧
  on_new 0 (λ p, _ ← fbuf_add every j255 p (Some (letters 100 97)); _ ← fbuf_remove p 10;
          _ ← fbuf_prepend every j255 p (Some (letters 200 98)); c ← fbuf_end p; mret (head <$> c)) = Some (Some (Some 255%Z), 2) ∧
  on_new 0 (λ p, _ ← fbuf_add every j255 p (Some (letters 300 97)); _ ← fbuf_remove p 250;
          _ ← fbuf_minlen every j255 p 200; fbuf_add every j255 p (Some (letters 10 98))) = None ∧
  on_new 0 (λ p, let ok n := bool_decide (n <= 128)%Z in
          _ ← fbuf_add ok j255 p (Some (letters 100 97)); _ ← fbuf_add ok j255 p (Some (letters 100 97));
          fbuf_add ok j255 p (Some (letters 100 97))) = None ∧
  on_new 0 (λ p, fbuf_nprintf every j255 p 4 (Some (letters 200 97))) = None ∧
  on_new 3 (λ p, r ← fbuf_add_ln every j255 p (Some (letters 3 97)); n ← fbuf_used p; mret (r, n)) = Some ((-1, 3)%Z, 1) ∧
  on_new UINT_MAX (λ p, fbuf_add every j255 p (Some (letters 1 97))) = Some ((-1)%Z, 0).
Proof.
  split_and!; vm_compute; reflexivity.
Qed.

(** ** Witnesses *)
Lemma fresh_no_world : fresh no_world.
Proof. intros k _. split; apply lookup_empty. Qed.
Definition script : list fop :=
  [Add [32; 97; 98]%Z; Trim; Remove 1; Prepend [120; 121; 122]%Z; Printf [49; 50]%Z; AddLn [99]%Z; Rtrim; Contents; Shrink; Fread [1; 2; 3]%Z 2; Contents]%Z.

(** Two buffers with the contents "abc" and "de". *)
Definition buf_a : fbuf_t := mk_fbuf 0 (Some 3%positive) 8 0 128 16384 1024 3 1.
Definition buf_b : fbuf_t := mk_fbuf 1 (Some 4%positive) 4 0 128 16384 1024 2 0.
Definition two_bufs : world :=
  mk_world {[1%positive := buf_a; 2%positive := buf_b]}
    {[3%positive := [0; 97; 98; 99; 0; 0; 0; 0]%Z; 4%positive := [100; 101; 0; 0]%Z]} 5 2.
Lemma fresh_two : fresh two_bufs.
Proof. intros k Hk. cbn in *. by rewrite !lookup_insert_ne, !lookup_singleton_ne by lia. Qed.
Lemma buf_a_is : fb_is two_bufs 1 buf_a [97; 98; 99]%Z true.
Proof.
  split; [done|done| |done|done|split; by vm_compute|apply fresh_two].
  apply (mem_block _ _ [0%Z] _ 0%Z [0; 0; 0]%Z); [done|done|done|done].
Qed.
Lemma buf_b_is : fb_is two_bufs 2 buf_b [100; 101]%Z true.
Proof.
  split; [done|done| |done|done|split; by vm_compute|apply fresh_two].
  apply (mem_block _ _ [] _ 0%Z [0%Z]); [done|done|done|done].
Qed.
Lemma apart_ab : apart buf_a buf_b.
Proof. by intros d [= <-]. Qed.

Lemma fbuf_concat_correct_witness :
  ∃ r w', fbuf_concat every j255 1 2 two_bufs = Ret (r, w') ∧ fb_is w' 2 buf_b [100; 101]%Z true ∧
    r = 2%Z ∧ becomes 1 two_bufs buf_a [97; 98; 99; 100; 101]%Z true true w'.
Proof. exact (fbuf_concat_correct every j255 (λ _, eq_refl) 1 2 _ _ _ _ _ _ _ buf_a_is buf_b_is ltac:(done) apart_ab ltac:(done) eq_refl). Defined.

Lemma fbuf_detach_attach_witness :
  ∃ w' b' b2', (r ← fbuf_detach every j255 1;
       match r.2 with Some (buf, l) => fbuf_attach every j255 2 buf l r.1 | None => mret 0%Z end) two_bufs = Ret (2%Z, w') ∧
    w_bufs w' !! 1%positive = Some b' ∧ data b' = None ∧ used b' = 0%Z ∧
    fb_is w' 2 b2' [97; 98; 99]%Z true ∧ (∀ k, data buf_b = Some k → w_blocks w' !! k = None).
Proof. exact (fbuf_detach_attach every j255 (λ _, eq_refl) 1 2 _ _ _ _ _ _ _ buf_a_is buf_b_is ltac:(done) apart_ab ltac:(done) eq_refl). Defined.

Lemma fbuf_fread_ln_correct_witness :
  ∃ w', fbuf_fread_ln every j255 1 [120; 13; 10; 121]%Z two_bufs = Ret ((1, [121])%Z, w') ∧
    becomes 1 two_bufs buf_a [97; 98; 99; 120]%Z true true w'.
Proof.
  exact (fbuf_fread_ln_correct every j255 (λ _, eq_refl) 1 _ _ _ _ [120; 13]%Z [121]%Z buf_a_is eq_refl ltac:(done) ltac:(set_solver) eq_refl).
Defined.

Lemma fbuf_maxlen_query_empties_witness :
  ∃ w', fbuf_maxlen every j255 1 UINT_MAX two_bufs = Ret (0%Z, w') ∧ becomes 1 two_bufs buf_a [] true true w'.
Proof. exact (fbuf_maxlen_query_empties every j255 (λ _, eq_refl) 1 _ _ _ _ buf_a_is ltac:(done) eq_refl). Defined.
