(* ===== verification/RingBuffer.v ===== *)
(** * The ring buffer (index/libhl/rbuf.c)

    A byte buffer of [size] cells with a read and a write offset, of which one
    cell stays free, so that equal offsets mean empty.  Both offsets run from 0
    to [size] inclusive: one that has reached the end stays there until it is
    moved again.  A call that fills an [out] buffer returns the bytes it stores
    there.  [mem] is what malloc leaves in the cells; [calloc_ok] and
    [malloc_ok] say whether the two allocations succeed.  The two buffers of
    rbuf_move and rbuf_copy are different objects. *)
From S2P Require Import Prelude.

Definition RBUF_DEFAULT_SIZE : Z := 4096.

Inductive rbuf_mode_t := RBUF_MODE_BLOCKING | RBUF_MODE_OVERWRITE.
#[export] Instance rbuf_mode_t_eq_dec : EqDecision rbuf_mode_t.
Proof. solve_decision. Defined.

Record rbuf_t := mk_rbuf {
  buf : list Z;
  size : Z;
  available : Z;
  used : Z;
  rfx : Z;
  wfx : Z;
  mode : rbuf_mode_t
}.

Definition rbuf_create (mem : nat → Z) (calloc_ok : bool) (malloc_ok : Z → bool) (sz : Z)
    : outcome (option rbuf_t) :=
  if negb calloc_ok then Ret None
  else
    n ← cint (if bool_decide (sz = 0)%Z then RBUF_DEFAULT_SIZE + 1 else sz + 1)%Z;
    if negb (malloc_ok (u64 n)) then Ret None
    else Ret (Some (mk_rbuf (mem <$> seq 0 (Z.to_nat n)) n (n - 1) 0 0 0 RBUF_MODE_BLOCKING)).

Definition rbuf_update_size (rb : rbuf_t) : rbuf_t :=
  let u := (if bool_decide (wfx rb = rfx rb) then 0
            else if bool_decide (wfx rb < rfx rb) then wfx rb + (size rb - rfx rb)
            else wfx rb - rfx rb)%Z in
  mk_rbuf (buf rb) (size rb) (size rb - u - 1) u (rfx rb) (wfx rb) (mode rb).

Definition rbuf_set_mode (m : rbuf_mode_t) (rb : rbuf_t) : rbuf_t :=
  mk_rbuf (buf rb) (size rb) (available rb) (used rb) (rfx rb) (wfx rb) m.

Definition rbuf_mode (rb : rbuf_t) : rbuf_mode_t := mode rb.

(** Assignments to single fields. *)
Definition set_rfx (r : Z) (rb : rbuf_t) : rbuf_t :=
  mk_rbuf (buf rb) (size rb) (available rb) (used rb) r (wfx rb) (mode rb).
Definition set_wfx (w : Z) (rb : rbuf_t) : rbuf_t :=
  mk_rbuf (buf rb) (size rb) (available rb) (used rb) (rfx rb) w (mode rb).
Definition set_buf (b : list Z) (rb : rbuf_t) : rbuf_t :=
  mk_rbuf b (size rb) (available rb) (used rb) (rfx rb) (wfx rb) (mode rb).

Definition rbuf_skip (n : Z) (rb : rbuf_t) : rbuf_t :=
  rbuf_update_size
    (if bool_decide (n >= size rb)%Z then set_rfx (wfx rb) rb
     else if bool_decide (n > size rb - rfx rb)%Z then set_rfx (n - (size rb - rfx rb)) rb
     else set_rfx (rfx rb + n) rb).

(** The bytes stored at [out]; their number is the return value when it is
    positive. *)
Definition rbuf_read (n : Z) : st rbuf_t (Z * list Z) := λ rb,
  let to_end := (size rb - rfx rb)%Z in
  let read_size := if bool_decide (used rb > n)%Z then n else used rb in
  '(bs, rb) ←
    (if bool_decide (read_size > 0)%Z then
       if bool_decide (wfx rb > rfx rb)%Z || bool_decide (to_end >= read_size)%Z then
         bs ← mem_read (buf rb) (rfx rb) read_size;
         Ret (bs, set_rfx (rfx rb + read_size) rb)
       else
         bs ← mem_read (buf rb) (rfx rb) to_end;
         cs ← mem_read (buf rb) 0 (read_size - to_end);
         Ret (bs ++ cs, set_rfx (read_size - to_end) rb)
     else Ret ([], rb));
  Ret (read_size, bs, rbuf_update_size rb).

(** The last part of rbuf_write, common to both modes. *)
Definition write_at_wfx (inp : list Z) (write_size : Z) : st rbuf_t Z := λ rb,
  rb ←
    (if bool_decide (wfx rb >= rfx rb)%Z then
       if bool_decide (write_size <= size rb - wfx rb)%Z then
         b ← memcpy (buf rb) (wfx rb) inp 0 write_size;
         Ret (set_wfx (wfx rb + write_size) (set_buf b rb))
       else
         let to_end := (size rb - wfx rb)%Z in
         b ← memcpy (buf rb) (wfx rb) inp 0 to_end;
         b ← memcpy b 0 inp to_end (write_size - to_end);
         Ret (set_wfx (write_size - to_end) (set_buf b rb))
     else
       b ← memcpy (buf rb) (wfx rb) inp 0 write_size;
       Ret (set_wfx (wfx rb + write_size) (set_buf b rb)));
  Ret (write_size, rbuf_update_size rb).

(** [inp] is the object at the pointer [in], [None] the null pointer. *)
Definition rbuf_write (inp : option (list Z)) (n : Z) : st rbuf_t Z := λ rb,
  match inp with
  | None => Ret (0%Z, rb)
  | Some inp =>
      if bool_decide (n = 0)%Z then Ret (0%Z, rb)
      else if bool_decide (available rb > n)%Z then write_at_wfx inp n rb
      else
        match mode rb with
        | RBUF_MODE_OVERWRITE =>
            if bool_decide (n > size rb - 1)%Z then
              let write_size := (size rb - 1)%Z in
              b ← memcpy (buf rb) 0 inp (n - write_size) write_size;
              Ret (n, rbuf_update_size (set_wfx write_size (set_buf b (set_rfx 0 rb))))
            else
              let diff := (n - available rb)%Z in
              r ← cint (rfx rb + diff)%Z;
              let r := if bool_decide (r >= size rb)%Z then (r - size rb)%Z else r in
              write_at_wfx inp (available rb + diff)%Z (set_rfx r rb)
        | RBUF_MODE_BLOCKING => write_at_wfx inp (available rb) rb
        end
  end.

Definition rbuf_used (rb : rbuf_t) : Z := used rb.
Definition rbuf_size (rb : rbuf_t) : Z := (size rb - 1)%Z.
Definition rbuf_available (rb : rbuf_t) : Z := available rb.

Definition rbuf_clear (rb : rbuf_t) : rbuf_t :=
  rbuf_update_size (set_rfx 0 (set_wfx 0 rb)).

(** A loop that looks for [octet] in [n] cells from position [i]. *)
Fixpoint find_from (b : list Z) (octet i : Z) (n : nat) : outcome (option Z) :=
  match n with
  | O => Ret None
  | S n =>
      x ← get_cell b i;
      if bool_decide (x = octet) then Ret (Some i) else find_from b octet (i + 1)%Z n
  end.

Definition rbuf_find (octet : Z) (rb : rbuf_t) : outcome Z :=
  if bool_decide (rbuf_used rb = 0)%Z then Ret (-1)%Z
  else if bool_decide (wfx rb > rfx rb)%Z then
    r ← find_from (buf rb) octet (rfx rb) (Z.to_nat (wfx rb - rfx rb));
    Ret (match r with Some i => i - rfx rb | None => -1 end)%Z
  else
    r ← find_from (buf rb) octet (rfx rb) (Z.to_nat (size rb - rfx rb));
    match r with
    | Some i => Ret (i - rfx rb)%Z
    | None =>
        r ← find_from (buf rb) octet 0 (Z.to_nat (wfx rb));
        Ret (match r with Some i => (size rb - rfx rb) + i | None => -1 end)%Z
    end.

(** A loop of rbuf_read_until over at most [n] cells from position [i]: the
    bytes stored and whether [octet] ended it. *)
Fixpoint copy_until (b : list Z) (octet i : Z) (n : nat) : outcome (list Z * bool) :=
  match n with
  | O => Ret ([], false)
  | S n =>
      x ← get_cell b i;
      if bool_decide (x = octet) then Ret ([x], true)
      else '(bs, found) ← copy_until b octet (i + 1)%Z n; Ret (x :: bs, found)
  end.

(** The first loop stops at the end of the buffer or after [maxsize] bytes, not
    after the bytes that are in use; the second one stops there too. *)
Definition rbuf_read_until (octet maxsize : Z) : st rbuf_t (Z * list Z) := λ rb,
  let sz := rbuf_used rb in
  '(bs, found) ← copy_until (buf rb) octet (rfx rb)
                   (Z.to_nat ((size rb - rfx rb) `min` maxsize));
  let n := Z.of_nat (length bs) in
  '(cs, _) ← (if found : bool then Ret ([], true)
              else copy_until (buf rb) octet 0 (Z.to_nat ((sz - n) `min` (maxsize - n))));
  let n := (n + Z.of_nat (length cs))%Z in
  Ret (n, bs ++ cs, rbuf_skip n rb).

(** rbuf_read with [out] inside the other buffer. *)
Definition read_into (src : rbuf_t) (dst : list Z) (doff n : Z) : outcome (rbuf_t * list Z) :=
  '(_, bs, src) ← rbuf_read n src;
  b ← mem_write dst doff bs;
  Ret (src, b).

(** The stores of rbuf_copy_internal into [dst->buf] without [move], when the
    free cells behind [wfx] are not enough. *)
Definition copy_wrapped (src dst : rbuf_t) (contiguous remainder : Z) : outcome (list Z) :=
  if bool_decide (rfx src < wfx src)%Z then
    b ← memcpy (buf dst) (wfx dst) (buf src) (rfx src) contiguous;
    memcpy b 0 (buf src) (rfx src + contiguous) remainder
  else
    let to_end := (size src - rfx src)%Z in
    if bool_decide (to_end > contiguous)%Z then
      b ← memcpy (buf dst) (wfx dst) (buf src) (rfx dst) contiguous;
      let diff := (to_end - contiguous)%Z in
      if bool_decide (diff > remainder)%Z then
        memcpy b 0 (buf src) (rfx dst + contiguous) remainder
      else
        b ← memcpy b 0 (buf src) (rfx dst + contiguous) diff;
        memcpy b diff (buf src) 0 (remainder - diff)
    else
      b ← memcpy (buf dst) (wfx dst) (buf src) (rfx dst) to_end;
      let diff := (contiguous - to_end)%Z in
      if bool_decide (diff = 0)%Z then Ret b
      else
        b ← memcpy b (wfx dst + to_end) (buf src) 0 diff;
        memcpy b 0 (buf src) diff remainder.

Definition rbuf_copy_internal (len : Z) (move : bool) : st (rbuf_t * rbuf_t) Z := λ '(src, dst),
  if bool_decide (len = 0)%Z then Ret (0%Z, (src, dst))
  else
    let to_copy := rbuf_available dst in
    let to_copy := if bool_decide (len < to_copy)%Z then len else to_copy in
    let to_copy := if bool_decide (rbuf_used src < to_copy)%Z then rbuf_used src else to_copy in
    let contiguous := (if bool_decide (wfx dst > rfx dst) then size dst - wfx dst
                       else rfx dst - wfx dst)%Z in
    '(src, dst) ←
      (if bool_decide (contiguous >= to_copy)%Z then
         if move then
           '(src, b) ← read_into src (buf dst) (wfx dst) to_copy;
           Ret (src, set_wfx (wfx dst + to_copy) (set_buf b dst))
         else if bool_decide (rfx src < wfx src)%Z then
           b ← memcpy (buf dst) (wfx dst) (buf src) (rfx src) to_copy;
           Ret (src, set_wfx (wfx dst + to_copy) (set_buf b dst))
         else
           let to_end := (size src - rfx src)%Z in
           b ← memcpy (buf dst) (wfx dst) (buf src) (rfx src) to_end;
           let w := (wfx dst + to_end)%Z in
           b ← memcpy b w (buf src) 0 (to_copy - to_end);
           Ret (src, set_wfx (w + to_copy) (set_buf b dst))
       else
         let remainder := (to_copy - contiguous)%Z in
         '(src, b) ←
           (if move then
              '(src, b) ← read_into src (buf dst) (wfx dst) contiguous;
              read_into src b 0 remainder
            else b ← copy_wrapped src dst contiguous remainder; Ret (src, b));
         Ret (src, set_wfx remainder (set_buf b dst)));
    Ret (to_copy, (src, rbuf_update_size dst)).

Definition rbuf_move (len : Z) : st (rbuf_t * rbuf_t) Z := rbuf_copy_internal len true.
Definition rbuf_copy (len : Z) : st (rbuf_t * rbuf_t) Z := rbuf_copy_internal len false.
