(* ===== verification/RingBufferRep.v ===== *)
(** * The bytes of a ring buffer

    [rb_is rb q]: the buffer [rb] holds the bytes [q], oldest first.  [shape]
    is the same without the counters, which rbuf_update_size recomputes from
    the offsets. *)
From S2P Require Import Prelude RingBuffer.

(** The cell of the [i]-th stored byte. *)
Definition cell (rb : rbuf_t) (i : Z) : Z :=
  (if bool_decide (rfx rb + i < size rb) then rfx rb + i else rfx rb + i - size rb)%Z.

Definition cells_hold (rb : rbuf_t) (q : list Z) : Prop :=
  ∀ (i : nat) b, q !! i = Some b → buf rb !! Z.to_nat (cell rb (Z.of_nat i)) = Some b.

Definition bounds (rb : rbuf_t) (q : list Z) : Prop :=
  Z.of_nat (length (buf rb)) = size rb ∧ (0 <= rfx rb <= size rb)%Z ∧
  (0 <= wfx rb <= size rb)%Z ∧ (Z.of_nat (length q) < size rb)%Z.

Definition offsets (rb : rbuf_t) (n : Z) : Prop :=
  wfx rb = (rfx rb + n)%Z ∨ wfx rb = (rfx rb + n - size rb)%Z.

Definition shape (rb : rbuf_t) (q : list Z) : Prop :=
  bounds rb q ∧ offsets rb (Z.of_nat (length q)) ∧ cells_hold rb q.

Definition rb_is (rb : rbuf_t) (q : list Z) : Prop :=
  shape rb q ∧ used rb = Z.of_nat (length q) ∧
  available rb = (size rb - Z.of_nat (length q) - 1)%Z.

(** What an operation never changes. *)
Definition same_frame (rb rb' : rbuf_t) : Prop := size rb' = size rb ∧ mode rb' = mode rb.

Lemma update_size_is rb q : shape rb q → rb_is (rbuf_update_size rb) q.
Proof.
  intros Hs. split; [exact Hs|]. destruct Hs as ((?&?&?&?)&Ho&_). unfold offsets in Ho.
  unfold rbuf_update_size; simpl. repeat case_bool_decide; lia.
Qed.

Lemma rb_is_shape rb q : rb_is rb q → shape rb q.
Proof. by intros [? _]. Qed.

Lemma update_size_frame rb : same_frame rb (rbuf_update_size rb).
Proof. done. Qed.
#[export] Hint Resolve update_size_is rb_is_shape update_size_frame : miqs.

(** ** Access to memory *)
Lemma memcpy_ok dst doff src soff n :
  (0 <= doff)%Z → (0 <= soff)%Z → (0 <= n)%Z →
  (soff + n <= Z.of_nat (length src))%Z → (doff + n <= Z.of_nat (length dst))%Z →
  ∃ b, memcpy dst doff src soff n = Ret b ∧ length b = length dst ∧
    ∀ i : nat, b !! i = if decide (doff <= Z.of_nat i < doff + n)%Z
                        then src !! Z.to_nat (soff + Z.of_nat i - doff) else dst !! i.
Proof.
  intros. unfold memcpy. rewrite mem_read_ok by done. simpl.
  set (bs := take _ _).
  assert (length bs = Z.to_nat n) as Hl.
  { unfold bs. rewrite length_take, length_drop. lia. }
  destruct (mem_write_ok dst doff bs) as (b & -> & Hlb & Hb); [done|lia|].
  exists b. split; [done|]. split; [done|]. intros i. rewrite Hb, Hl.
  repeat case_decide; try lia; [|done]. unfold bs.
  rewrite lookup_take_lt, lookup_drop by lia. f_equal. lia.
Qed.

(** ** Dropping from the front and appending at the back *)
Lemma cells_hold_drop rb q (n r : Z) :
  bounds rb q → cells_hold rb q → (0 <= n <= Z.of_nat (length q))%Z →
  r = (rfx rb + n)%Z ∨ r = (rfx rb + n - size rb)%Z → (0 <= r <= size rb)%Z →
  cells_hold (set_rfx r rb) (drop (Z.to_nat n) q).
Proof.
  intros (?&?&?&?) Hc Hn Hr Hr' i b Hi. rewrite lookup_drop in Hi.
  pose proof (lookup_lt_Some _ _ _ Hi). rewrite <-(Hc _ _ Hi). simpl. f_equal. f_equal.
  unfold cell; simpl. repeat case_bool_decide; lia.
Qed.

Lemma shape_drop rb q (n r : Z) :
  shape rb q → (0 <= n <= Z.of_nat (length q))%Z →
  (r = rfx rb + n ∧ r <= size rb)%Z ∨ (r = rfx rb + n - size rb ∧ 0 < r)%Z →
  shape (set_rfx r rb) (drop (Z.to_nat n) q).
Proof.
  intros (Hb&Ho&Hc) Hn Hr. pose proof Hb as (?&?&?&?). split_and!.
  - unfold bounds; simpl. rewrite length_drop. lia.
  - unfold offsets in *; simpl. rewrite length_drop. lia.
  - apply cells_hold_drop; [done|done|done|lia|lia].
Qed.

(** A state in which the offsets may also be 0 and [size] with nothing stored:
    rbuf_write passes through it when it drops everything. *)
Definition writable (rb : rbuf_t) (q : list Z) : Prop :=
  bounds rb q ∧ cells_hold rb q ∧
  (offsets rb (Z.of_nat (length q)) ∨ q = [] ∧ rfx rb = 0%Z ∧ wfx rb = size rb).

Lemma cells_hold_app rb q l b w :
  bounds rb q → cells_hold rb q → (Z.of_nat (length q + length l) < size rb)%Z →
  (∀ i : nat, i < length q →
     b !! Z.to_nat (cell rb (Z.of_nat i)) = buf rb !! Z.to_nat (cell rb (Z.of_nat i))) →
  (∀ i : nat, i < length l →
     b !! Z.to_nat (cell rb (Z.of_nat (length q + i))) = l !! i) →
  cells_hold (set_wfx w (set_buf b rb)) (q ++ l).
Proof.
  intros _ Hc Hl Hold Hnew i x Hi.
  change (b !! Z.to_nat (cell rb (Z.of_nat i)) = Some x).
  apply lookup_app_Some in Hi as [Hi|[Hge Hi]]; pose proof (lookup_lt_Some _ _ _ Hi).
  - by rewrite Hold, (Hc _ _ Hi).
  - rewrite <-Hi, <-(Hnew (i - length q)) by done. repeat f_equal. lia.
Qed.

(** One memcpy at the write offset, or two when the end is reached. *)
Lemma write_at_wfx_ok rb q inp (n : Z) :
  writable rb q → (0 <= n)%Z → (0 < n ∨ offsets rb (Z.of_nat (length q)))%Z →
  (n <= Z.of_nat (length inp))%Z → (Z.of_nat (length q) + n < size rb)%Z →
  ∃ rb', write_at_wfx inp n rb = Ret (n, rb') ∧ same_frame rb rb' ∧
         rb_is rb' (q ++ take (Z.to_nat n) inp).
Proof.
  intros (Hb&Hc&Ho) Hn Hpos Hin Hsz. pose proof Hb as (Hlen&?&?&?). unfold offsets in *.
  assert (length (take (Z.to_nat n) inp) = Z.to_nat n) as Ht by (rewrite length_take; lia).
  assert (∀ w b, length b = length (buf rb) →
    (w = wfx rb + n ∧ w <= size rb ∨ w = wfx rb + n - size rb ∧ size rb < wfx rb + n)%Z →
    (∀ i : nat, i < length q →
       b !! Z.to_nat (cell rb (Z.of_nat i)) = buf rb !! Z.to_nat (cell rb (Z.of_nat i))) →
    (∀ i : nat, i < Z.to_nat n →
       b !! Z.to_nat (cell rb (Z.of_nat (length q + i))) = inp !! i) →
    shape (set_wfx w (set_buf b rb)) (q ++ take (Z.to_nat n) inp)) as Hdone.
  { intros w b Hbl Hw Hold Hnew. split_and!.
    - unfold bounds; simpl. rewrite length_app, Ht. destruct Ho; lia.
    - unfold offsets; simpl. rewrite length_app, Ht. destruct Ho as [?|(->&?&?)]; simpl in *; lia.
    - apply cells_hold_app; [done|done|lia|done|]. intros i Hi. rewrite Hnew by lia.
      rewrite lookup_take_lt; [done|lia]. }
  unfold write_at_wfx. repeat case_bool_decide.
  - destruct (memcpy_ok (buf rb) (wfx rb) inp 0 n) as (b&->&Hbl&Hbi); [lia..|].
    eexists. split; [done|]. split; [done|]. apply update_size_is, Hdone; [done|lia|..];
      intros i Hi; rewrite Hbi; unfold cell; case_bool_decide; case_decide; first [done|lia|f_equal; lia].
  - destruct (memcpy_ok (buf rb) (wfx rb) inp 0 (size rb - wfx rb)) as (b&->&Hbl&Hbi); [lia..|].
    simpl. destruct (memcpy_ok b 0 inp (size rb - wfx rb) (n - (size rb - wfx rb)))
      as (b'&->&Hbl'&Hbi'); [destruct Ho; lia..|].
    eexists. split; [done|]. split; [done|]. apply update_size_is, Hdone; [congruence|lia|..];
      intros i Hi; rewrite Hbi', ?Hbi; unfold cell; destruct Ho as [?|(->&?&?)]; simpl in *;
      case_bool_decide; repeat case_decide; first [done|lia|f_equal; lia].
  - destruct (memcpy_ok (buf rb) (wfx rb) inp 0 n) as (b&->&Hbl&Hbi); [lia..|].
    eexists. split; [done|]. split; [done|]. apply update_size_is, Hdone; [done|lia|..];
      intros i Hi; rewrite Hbi; unfold cell; case_bool_decide; case_decide; first [done|lia|f_equal; lia].
Qed.

(** ** The operations against a bounded queue *)
Notation len l := (Z.of_nat (length l)) (only parsing).

(** ** Single operations *)
Lemma rbuf_create_is mem malloc_ok sz :
  (0 <= sz < 2 ^ 31 - 1)%Z →
  let cap := (if bool_decide (sz = 0) then RBUF_DEFAULT_SIZE else sz)%Z in
  malloc_ok (cap + 1)%Z = true →
  ∃ rb, rbuf_create mem true malloc_ok sz = Ret (Some rb) ∧ rb_is rb [] ∧
        rbuf_size rb = cap ∧ mode rb = RBUF_MODE_BLOCKING.
Proof.
  intros Hsz cap Hm. unfold rbuf_create. cbn [negb].
  assert ((if bool_decide (sz = 0) then RBUF_DEFAULT_SIZE + 1 else sz + 1) = cap + 1)%Z as ->.
  { unfold cap. by case_bool_decide. }
  assert (0 <= cap < 2 ^ 31 - 1)%Z by (unfold cap, RBUF_DEFAULT_SIZE; case_bool_decide; lia).
  unfold cint. rewrite decide_True by (unfold in_i32; lia). cbn [mbind outcome_bind].
  unfold u64. rewrite Z.mod_small by lia. rewrite Hm. cbn [negb].
  eexists. split; [done|]. unfold rb_is, shape, bounds, offsets, rbuf_size; simpl.
  rewrite length_fmap, length_seq. repeat split; try lia. by intros ? ? ?.
Qed.

Lemma rbuf_skip_is rb q n :
  rb_is rb q → (0 <= n <= len q)%Z ∨ (size rb <= n)%Z →
  rb_is (rbuf_skip n rb) (drop (Z.to_nat n) q) ∧ same_frame rb (rbuf_skip n rb).
Proof.
  intros [Hs _] Hn. pose proof Hs as ((?&?&?&?)&Ho&_). unfold offsets in Ho.
  unfold rbuf_skip. split; [apply update_size_is|by repeat case_bool_decide].
  case_bool_decide.
  - replace (drop (Z.to_nat n) q) with (drop (Z.to_nat (len q)) q)
      by (rewrite !drop_ge by lia; done).
    destruct Ho; [|destruct (decide (wfx rb = 0)%Z) as [Hw|]].
    + apply shape_drop; [done|lia|lia].
    + unfold shape, bounds, offsets; simpl. rewrite drop_ge by lia. simpl.
      repeat split; try lia. by intros ? ? ?.
    + apply shape_drop; [done|lia|lia].
  - case_bool_decide; apply shape_drop; [done|lia|lia|done|lia|lia].
Qed.

(** The bytes from cell [rfx] on, and those that follow in the first cells. *)
Lemma stored_take rb q (n : Z) :
  shape rb q → (0 <= n <= len q)%Z → (rfx rb + n <= size rb)%Z →
  take (Z.to_nat n) (drop (Z.to_nat (rfx rb)) (buf rb)) = take (Z.to_nat n) q.
Proof.
  intros ((?&?&?&?)&_&Hc) Hn Hle. apply list_eq. intros i.
  destruct (decide (i < Z.to_nat n)) as [Hi|Hi].
  - rewrite !lookup_take_lt, lookup_drop by done.
    destruct (lookup_lt_is_Some_2 q i) as [b Hb]; [lia|]. rewrite Hb, <-(Hc _ _ Hb).
    f_equal. unfold cell. case_bool_decide; lia.
  - rewrite !lookup_ge_None_2; [done|rewrite length_take; lia..].
Qed.

Lemma stored_wrap rb q (n : Z) :
  shape rb q → (size rb - rfx rb <= n <= len q)%Z →
  take (Z.to_nat (size rb - rfx rb)) (drop (Z.to_nat (rfx rb)) (buf rb))
    ++ take (Z.to_nat (n - (size rb - rfx rb))) (drop 0 (buf rb)) = take (Z.to_nat n) q.
Proof.
  intros Hs Hn. pose proof Hs as ((?&?&?&?)&_&Hc).
  rewrite (stored_take rb q) by (done || lia).
  set (e := Z.to_nat (size rb - rfx rb)).
  rewrite <-(take_drop e (take (Z.to_nat n) q)), take_take. f_equal.
  { f_equal. lia. }
  apply list_eq. intros i. rewrite lookup_drop, drop_0.
  destruct (decide (i < Z.to_nat n - e)) as [Hi|Hi].
  - rewrite !lookup_take_lt by lia.
    destruct (lookup_lt_is_Some_2 q (e + i)) as [b Hb]; [lia|]. rewrite Hb, <-(Hc _ _ Hb).
    f_equal. unfold cell. case_bool_decide; lia.
  - rewrite !lookup_ge_None_2; [done|rewrite length_take; lia..].
Qed.

Lemma rbuf_read_is rb q n :
  rb_is rb q → (0 <= n)%Z →
  ∃ rb', rbuf_read n rb = Ret (n `min` len q, take (Z.to_nat n) q, rb')%Z ∧
         rb_is rb' (drop (Z.to_nat n) q) ∧ same_frame rb rb'.
Proof.
  intros (Hs&Hu&Ha) Hn. pose proof Hs as ((?&?&?&?)&Ho&_). unfold offsets in Ho.
  unfold rbuf_read. rewrite Hu.
  replace (if bool_decide (len q > n) then n else len q)%Z with (n `min` len q)%Z
    by (case_bool_decide; lia).
  set (k := (n `min` len q)%Z).
  assert (take (Z.to_nat n) q = take (Z.to_nat k) q ∧ drop (Z.to_nat n) q = drop (Z.to_nat k) q) as [-> ->].
  { unfold k. destruct (decide (n <= len q)%Z); [by rewrite Z.min_l|].
    rewrite Z.min_r, !take_ge, !drop_ge by lia. done. }
  assert (0 <= k <= len q)%Z by lia. clearbody k.
  case_bool_decide; [|assert (k = 0%Z) as -> by lia; eexists; split; [done|]; split; [|done];
    by apply update_size_is].
  destruct (bool_decide _ || _) eqn:Hcond.
  - assert (rfx rb + k <= size rb)%Z.
    { apply orb_true_iff in Hcond as [Hx|Hx]; apply bool_decide_eq_true in Hx; lia. }
    rewrite mem_read_ok by lia. simpl. rewrite (stored_take rb q) by done.
    eexists. split; [done|]. split; [|done]. apply update_size_is, shape_drop; [done|lia|lia].
  - apply orb_false_iff in Hcond as [Hc1 Hc2].
    apply bool_decide_eq_false in Hc1. apply bool_decide_eq_false in Hc2.
    rewrite !mem_read_ok by lia. simpl. rewrite (stored_wrap rb q) by (done || lia).
    eexists. split; [done|]. split; [|done]. apply update_size_is, shape_drop; [done|lia|lia].
Qed.

(** The [cap] newest bytes. *)
Definition newest (cap : Z) (l : list Z) : list Z := drop (length l - Z.to_nat cap) l.

(** rbuf_write stores what fits in blocking mode, and makes room in overwrite
    mode. *)
Definition write_spec (cap : Z) (m : rbuf_mode_t) (q bs : list Z) : Z * list Z :=
  match m with
  | RBUF_MODE_BLOCKING =>
      let k := (len bs `min` (cap - len q))%Z in (k, q ++ take (Z.to_nat k) bs)
  | RBUF_MODE_OVERWRITE => (len bs, newest cap (q ++ bs))
  end.

Lemma shape_writable rb q : shape rb q → writable rb q.
Proof. intros (?&?&?). split_and!; auto. Qed.

(** Advancing the read offset to make room. *)
Lemma advance_writable rb q (d : Z) :
  shape rb q → (0 <= d <= len q)%Z →
  let r := (if bool_decide (rfx rb + d >= size rb) then rfx rb + d - size rb else rfx rb + d)%Z in
  writable (set_rfx r rb) (drop (Z.to_nat d) q).
Proof.
  intros (Hb&Ho&Hc) Hd r. pose proof Hb as (?&?&?&?). unfold offsets in Ho.
  assert (0 <= r <= size rb)%Z by (unfold r; case_bool_decide; lia).
  split_and!.
  - unfold bounds; simpl. rewrite length_drop. lia.
  - apply cells_hold_drop; [done..| |done]. unfold r. case_bool_decide; lia.
  - destruct (decide (len q = d ∧ rfx rb + d = size rb ∧ wfx rb = size rb)%Z) as [(?&?&?)|].
    + right. rewrite drop_ge by lia. simpl. unfold r. case_bool_decide; split_and!; done || lia.
    + left. unfold offsets, r; simpl. rewrite length_drop. case_bool_decide; lia.
Qed.

Lemma newest_split cap q bs :
  (len bs <= cap)%Z → newest cap (q ++ bs) = drop (length q + length bs - Z.to_nat cap) q ++ bs.
Proof. intros. unfold newest. rewrite length_app, drop_app_le by lia. done. Qed.

Lemma newest_long cap q bs :
  (cap <= len bs)%Z → newest cap (q ++ bs) = drop (length bs - Z.to_nat cap) bs.
Proof. intros. unfold newest. rewrite length_app, drop_app_ge by lia. f_equal. lia. Qed.

Lemma rbuf_write_is rb q bs :
  rb_is rb q → (2 * size rb < 2 ^ 31)%Z →
  let r := write_spec (size rb - 1) (mode rb) q bs in
  ∃ rb', rbuf_write (Some bs) (len bs) rb = Ret (r.1, rb') ∧ rb_is rb' r.2 ∧ same_frame rb rb'.
Proof.
  intros Hr Hint r. pose proof Hr as (Hs&Hu&Ha). pose proof Hs as ((?&?&?&?)&Ho&_).
  unfold rbuf_write. case_bool_decide as Hz.
  { assert (bs = []) as Hbs by (destruct bs; [done|simpl in Hz; lia]). exists rb.
    assert (r = (0%Z, q)) as ->; [|done]. unfold r, write_spec. rewrite Hbs. destruct (mode rb).
    - cbn [length]. rewrite Z.min_l, take_nil, app_nil_r by lia. done.
    - unfold newest. rewrite app_nil_r. replace (length q - Z.to_nat (size rb - 1)) with 0 by lia. done. }
  assert (∀ k, (0 <= k)%Z → (k <= len bs)%Z → (len q + k < size rb)%Z →
    ∃ rb', write_at_wfx bs k rb = Ret (k, rb') ∧ rb_is rb' (q ++ take (Z.to_nat k) bs) ∧
           same_frame rb rb') as Hplain.
  { intros k ???. destruct (write_at_wfx_ok rb q bs k) as (rb'&?&?&?); eauto using shape_writable. }
  rewrite Ha. case_bool_decide as Hfit.
  { destruct (Hplain (len bs)) as (rb'&Hw&Hq&?); [lia..|]. exists rb'. rewrite Hw.
    assert (r = (len bs, q ++ bs)) as ->; [|by rewrite take_ge in Hq by lia].
    unfold r, write_spec. destruct (mode rb).
    - replace (len bs `min` (size rb - 1 - len q))%Z with (len bs) by lia. by rewrite take_ge by lia.
    - rewrite newest_split by lia. replace (_ - _) with 0 by lia. done. }
  unfold r, write_spec. destruct (mode rb) eqn:Hmode; cbn [fst snd].
  { replace (len bs `min` (size rb - 1 - len q))%Z with (size rb - len q - 1)%Z by lia.
    apply Hplain; lia. }
  case_bool_decide as Hlong.
  - destruct (memcpy_ok (buf rb) 0 bs (len bs - (size rb - 1)) (size rb - 1))
      as (b&->&Hl&Hb); [lia..|]. simpl. eexists. split; [done|]. split; [|done].
    apply update_size_is. rewrite newest_long by lia. unfold shape, bounds, offsets; simpl.
    rewrite length_drop. split_and!; try lia. intros i x Hx. rewrite lookup_drop in Hx.
    pose proof (lookup_lt_Some _ _ _ Hx). unfold cell; simpl.
    rewrite bool_decide_eq_true_2, Hb, decide_True by lia. rewrite <-Hx. f_equal. lia.
  - set (d := (len bs - (size rb - len q - 1))%Z).
    unfold cint. rewrite decide_True by (unfold in_i32; lia). cbn [mbind outcome_bind].
    pose proof (advance_writable rb q d Hs ltac:(lia)) as Hw.
    replace (size rb - len q - 1 + d)%Z with (len bs) by lia.
    destruct (write_at_wfx_ok _ _ bs (len bs) Hw) as (rb'&->&Hf&Hq);
      [lia|lia|lia|simpl; rewrite length_drop; lia|].
    exists rb'. split; [done|]. split; [|done]. rewrite newest_split by lia.
    rewrite take_ge in Hq by lia. replace (_ + _ - _) with (Z.to_nat d) by lia. done.
Qed.

Lemma rbuf_clear_is rb q : rb_is rb q → rb_is (rbuf_clear rb) [] ∧ same_frame rb (rbuf_clear rb).
Proof.
  intros [((?&?&?&?)&_) _]. split; [|done]. apply update_size_is.
  unfold shape, bounds, offsets; simpl. repeat split; try lia. by intros ? ? ?.
Qed.

(** ** Searching *)

(** The cells from [i] on hold [l]. *)
Definition region (b : list Z) (i : Z) (l : list Z) : Prop :=
  ∀ (j : nat) x, l !! j = Some x → b !! Z.to_nat (i + Z.of_nat j) = Some x.

Lemma region_cons b i x l :
  (0 <= i)%Z → region b i (x :: l) → get_cell b i = Ret x ∧ region b (i + 1) l.
Proof.
  intros Hi Hr. split.
  - unfold get_cell. rewrite bool_decide_eq_true_2 by done. specialize (Hr 0 x eq_refl).
    rewrite Z.add_0_r in Hr. by rewrite Hr.
  - intros j y Hj. rewrite <-(Hr (S j) y Hj). f_equal. lia.
Qed.

Definition find_spec (octet : Z) (q : list Z) : option Z :=
  (λ p, Z.of_nat p.1) <$> list_find (λ b, b = octet) q.

Lemma find_from_ok b octet i l :
  (0 <= i)%Z → region b i l →
  find_from b octet i (length l) = Ret (Z.add i <$> find_spec octet l).
Proof.
  revert i. induction l as [|x l IH]; intros i Hi Hr; [done|].
  destruct (region_cons _ _ _ _ Hi Hr) as [Hx Hl]. cbn [length find_from]. rewrite Hx.
  cbn [mbind outcome_bind]. unfold find_spec. cbn [list_find]. case_bool_decide as Hd.
  - rewrite decide_True by done. simpl. by rewrite Z.add_0_r.
  - rewrite decide_False by done. rewrite IH by (done || lia). unfold find_spec.
    destruct (list_find _ l) as [[j y]|]; simpl; [|done]. do 2 f_equal. lia.
Qed.

(** The bytes up to the first [octet], and whether there is one. *)
Fixpoint upto (octet : Z) (l : list Z) : list Z * bool :=
  match l with
  | [] => ([], false)
  | x :: l => if bool_decide (x = octet) then ([x], true)
              else let '(bs, found) := upto octet l in (x :: bs, found)
  end.

Lemma copy_until_ok b octet i l :
  (0 <= i)%Z → region b i l → copy_until b octet i (length l) = Ret (upto octet l).
Proof.
  revert i. induction l as [|x l IH]; intros i Hi Hr; [done|].
  destruct (region_cons _ _ _ _ Hi Hr) as [Hx Hl]. cbn [length copy_until upto]. rewrite Hx.
  cbn [mbind outcome_bind]. case_bool_decide; [done|]. rewrite IH by (done || lia).
  simpl. by destruct (upto octet l).
Qed.

Lemma upto_app octet l1 l2 :
  upto octet (l1 ++ l2)
  = if (upto octet l1).2 then upto octet l1 else (l1 ++ (upto octet l2).1, (upto octet l2).2).
Proof.
  induction l1 as [|x l1 IH]; simpl; [by destruct (upto octet l2)|].
  case_bool_decide; [done|]. rewrite IH. destruct (upto octet l1) as [bs []]; simpl; done.
Qed.

Lemma upto_not_found octet l : (upto octet l).2 = false → (upto octet l).1 = l.
Proof.
  induction l as [|x l IH]; simpl; [done|]. case_bool_decide; [done|].
  destruct (upto octet l) as [bs f]; simpl in *. intros ->. by rewrite IH.
Qed.

Lemma upto_found octet l : octet ∈ l → (upto octet l).2 = true.
Proof.
  induction l as [|x l IH]; [by intros ?%not_elem_of_nil|]. simpl.
  rewrite elem_of_cons. case_bool_decide; [done|]. intros [->|Hl]; [done|].
  destruct (upto octet l); simpl in *. auto.
Qed.

Lemma length_upto octet l : length (upto octet l).1 ≤ length l.
Proof.
  induction l as [|x l IH]; simpl; [done|]. case_bool_decide; simpl; [lia|].
  destruct (upto octet l); simpl in *. lia.
Qed.

(** Where the stored bytes lie. *)
Lemma region_front rb q (n : Z) :
  shape rb q → (0 <= n)%Z → (rfx rb + n <= size rb)%Z →
  region (buf rb) (rfx rb) (take (Z.to_nat n) q).
Proof.
  intros ((?&?&?&?)&_&Hc) Hn Hle j x Hj. apply lookup_take_Some in Hj as [Hj Hlt].
  rewrite <-(Hc _ _ Hj). f_equal. unfold cell. case_bool_decide; lia.
Qed.

Lemma region_back rb q :
  shape rb q → region (buf rb) 0 (drop (Z.to_nat (size rb - rfx rb)) q).
Proof.
  intros ((?&?&?&?)&_&Hc) j x Hj. rewrite lookup_drop in Hj.
  pose proof (lookup_lt_Some _ _ _ Hj). rewrite <-(Hc _ _ Hj). f_equal.
  unfold cell. case_bool_decide; lia.
Qed.

Lemma region_take b i l n : region b i l → region b i (take n l).
Proof. intros Hr j x Hj. apply lookup_take_Some in Hj as [Hj _]. eauto. Qed.

Lemma region_cells b i n :
  (0 <= i)%Z → region b i (take n (drop (Z.to_nat i) b)).
Proof.
  intros Hi j x Hj. apply lookup_take_Some in Hj as [Hj _]. rewrite lookup_drop in Hj.
  rewrite <-Hj. f_equal. lia.
Qed.

Lemma find_spec_app octet l1 l2 :
  find_spec octet (l1 ++ l2)
  = match find_spec octet l1 with
    | Some i => Some i
    | None => Z.add (len l1) <$> find_spec octet l2
    end.
Proof.
  induction l1 as [|x l1 IH].
  - unfold find_spec; simpl. by destruct (list_find _ l2) as [[]|].
  - unfold find_spec in *; simpl. case_decide; [done|].
    destruct (list_find _ (l1 ++ l2)) as [[]|], (list_find _ l1) as [[]|],
      (list_find _ l2) as [[]|]; simpl in *; simplify_eq/=; try done; f_equal; lia.
Qed.

Lemma rbuf_find_is rb q octet :
  rb_is rb q → rbuf_find octet rb = Ret (default (-1)%Z (find_spec octet q)).
Proof.
  intros (Hs&Hu&_). pose proof Hs as ((?&?&?&?)&Ho&_). unfold offsets in Ho.
  unfold rbuf_find, rbuf_used. rewrite Hu. case_bool_decide as Hz.
  { destruct q; [done|simpl in Hz; lia]. }
  case_bool_decide.
  - replace (Z.to_nat (wfx rb - rfx rb)) with (length q) by lia.
    rewrite find_from_ok; [|lia|].
    2: { rewrite <-(take_ge q (Z.to_nat (len q))) by lia. apply region_front; [done|lia|lia]. }
    simpl. destruct (find_spec octet q); simpl; [|done]. f_equal. lia.
  - set (e := Z.to_nat (size rb - rfx rb)).
    assert (e = length (take e q)) as He by (rewrite length_take; lia).
    rewrite He at 1. rewrite find_from_ok; [|lia|apply region_front; [done|lia|lia]].
    rewrite <-(take_drop e q) at 2. rewrite find_spec_app, <-He. simpl.
    destruct (find_spec octet (take e q)); simpl; [f_equal; lia|].
    replace (Z.to_nat (wfx rb)) with (length (drop e q)) by (rewrite length_drop; lia).
    rewrite find_from_ok; [|lia|by apply region_back]. simpl.
    destruct (find_spec octet (drop e q)); simpl; [f_equal; lia|done].
Qed.

(** The [k] cells the first loop of rbuf_read_until may look at. *)
Definition first_cells (rb : rbuf_t) (k : Z) : list Z :=
  take (Z.to_nat k) (drop (Z.to_nat (rfx rb)) (buf rb)).

Lemma first_loop rb q octet (maxsize : Z) :
  shape rb q → (0 <= maxsize)%Z →
  (maxsize <= len q)%Z ∨ octet ∈ q ∨ (size rb - rfx rb <= len q)%Z →
  let k := ((size rb - rfx rb) `min` maxsize)%Z in
  let l := first_cells rb k in
  (upto octet l).2 = true ∧ (upto octet l).1 = (upto octet (take (Z.to_nat maxsize) q)).1 ∨
  (upto octet l).2 = false ∧ l = take (Z.to_nat k) q ∧ (k <= len q)%Z.
Proof.
  intros Hs Hmax Hc k l. pose proof Hs as ((?&?&?&?)&Ho&_). unfold offsets in Ho.
  destruct (decide (k <= len q)%Z) as [Hk|Hk].
  - assert (l = take (Z.to_nat k) q) as Hlq by (apply stored_take; [done|lia|lia]).
    destruct (upto octet l).2 eqn:Hfound; [left; split; [done|]|by right].
    rewrite <-(take_drop (Z.to_nat k) (take _ q)), take_take, upto_app.
    rewrite Nat.min_l, <-Hlq, Hfound by lia. done.
  - left. destruct Hc as [?|[Hin|?]]; [lia| |lia].
    assert (l = q ++ drop (length q) l) as Hlq.
    { rewrite <-(take_drop (length q) l) at 1. f_equal. unfold l, first_cells. rewrite take_take.
      rewrite Nat.min_l by lia. rewrite <-(Nat2Z.id (length q)).
      rewrite (stored_take rb q) by (done || lia). apply take_ge. lia. }
    rewrite (take_ge q) by lia. rewrite Hlq, upto_app, upto_found by done. by rewrite upto_found.
Qed.

Lemma second_loop rb q octet (maxsize : Z) :
  shape rb q →
  let k := ((size rb - rfx rb) `min` maxsize)%Z in
  let m := ((len q - k) `min` (maxsize - k))%Z in
  (0 <= k <= len q)%Z →
  take (Z.to_nat maxsize) q
    = take (Z.to_nat k) q ++ take (Z.to_nat m) (drop (Z.to_nat k) q) ∧
  copy_until (buf rb) octet 0 (Z.to_nat m)
    = Ret (upto octet (take (Z.to_nat m) (drop (Z.to_nat k) q))).
Proof.
  intros Hs k m Hk. pose proof Hs as ((?&?&?&?)&_). split.
  - rewrite <-(take_drop (Z.to_nat k) (take (Z.to_nat maxsize) q)), take_take.
    rewrite Nat.min_l, skipn_firstn_comm by lia. f_equal.
    destruct (decide (maxsize <= len q)%Z); [f_equal; lia|].
    rewrite !take_ge; [done|rewrite length_drop; lia..].
  - destruct (decide (m <= 0)%Z); [replace (Z.to_nat m) with 0 by lia; done|].
    replace (Z.to_nat m) with (length (take (Z.to_nat m) (drop (Z.to_nat k) q))) at 1
      by (rewrite length_take, length_drop; lia).
    apply copy_until_ok; [lia|]. apply region_take.
    replace k with (size rb - rfx rb)%Z by lia. by apply region_back.
Qed.

(** Without a bound on what is in use the first loop may run past the stored
    bytes; it does not when [maxsize] is within them, when [octet] is among
    them, or when they reach the end of the buffer. *)
Lemma rbuf_read_until_is rb q octet (maxsize : Z) :
  rb_is rb q → (0 <= maxsize)%Z →
  (maxsize <= len q)%Z ∨ octet ∈ q ∨ (size rb - rfx rb <= len q)%Z →
  let out := (upto octet (take (Z.to_nat maxsize) q)).1 in
  ∃ rb', rbuf_read_until octet maxsize rb = Ret (len out, out, rb') ∧
         rb_is rb' (drop (length out) q) ∧ same_frame rb rb'.
Proof.
  intros Hr Hmax Hc out. pose proof Hr as (Hs&Hu&_). pose proof Hs as ((?&?&?&?)&_).
  assert (length out ≤ length q) as Hout.
  { unfold out. etrans; [apply length_upto|]. rewrite length_take. lia. }
  destruct (rbuf_skip_is rb q (len out) Hr) as [Hskip Hf]; [lia|]. rewrite Nat2Z.id in Hskip.
  exists (rbuf_skip (len out) rb). split; [|done]. clear Hskip Hf.
  assert (∀ bs, bs = out →
    Ret (len bs, bs, rbuf_skip (len bs) rb) = Ret (len out, out, rbuf_skip (len out) rb))
    as Hdone by (by intros ? ->).
  pose proof (first_loop rb q octet maxsize Hs Hmax Hc) as Hcases. fold out in Hcases.
  pose proof (second_loop rb q octet maxsize Hs) as Hsec. simpl in Hcases, Hsec.
  unfold rbuf_read_until, rbuf_used. rewrite Hu.
  set (k := ((size rb - rfx rb) `min` maxsize)%Z) in *. set (l := first_cells rb k) in *.
  assert (length l = Z.to_nat k) as Hl by (unfold l, first_cells; rewrite length_take, length_drop; lia).
  assert (copy_until (buf rb) octet (rfx rb) (Z.to_nat k) = Ret (upto octet l)) as ->.
  { rewrite <-Hl. apply copy_until_ok; [lia|]. apply region_cells. lia. }
  cbn [mbind outcome_bind]. destruct (upto octet l) as [bs found] eqn:Hul. simpl in Hcases.
  destruct Hcases as [[-> ->]|(-> & Hlq & Hk)].
  { cbn [mbind outcome_bind]. rewrite app_nil_r. simpl. rewrite Z.add_0_r. done. }
  assert (bs = l) as -> by (pose proof (upto_not_found octet l) as Hn; rewrite Hul in Hn; auto).
  destruct (Hsec ltac:(lia)) as [Hsplit Hcopy]. rewrite Hl, Z2Nat.id, Hcopy by lia.
  cbn [mbind outcome_bind]. destruct (upto octet (take _ (drop _ q))) as [cs f] eqn:Hcs.
  replace (k + len cs)%Z with (len (l ++ cs)) by (rewrite length_app; lia). apply Hdone.
  unfold out. rewrite Hsplit, <-Hlq, upto_app, Hul, Hcs. done.
Qed.
