(* ===== verification/RingBufferTheorems.v ===== *)
(** * Properties of the ring buffer (rbuf.c)

    A script of calls answers as on a bounded queue of bytes; moving and copying
    between two buffers; the calls that leave the queue. *)
From S2P Require Import Prelude RingBuffer RingBufferRep.

Inductive rbuf_op :=
| Write (bs : list Z) | Read (n : Z) | Skip (n : Z) | Clear | SetMode (m : rbuf_mode_t)
| Find (octet : Z) | ReadUntil (octet maxsize : Z) | Used | Available.
(** A return value and the bytes stored at [out]. *)
Definition rbuf_res : Type := Z * list Z.

Definition run_op (o : rbuf_op) : st rbuf_t rbuf_res := λ rb,
  match o with
  | Write bs => '(k, rb) ← rbuf_write (Some bs) (len bs) rb; Ret (k, [], rb)
  | Read n => rbuf_read n rb
  | Skip n => Ret (0%Z, [], rbuf_skip n rb)
  | Clear => Ret (0%Z, [], rbuf_clear rb)
  | SetMode m => Ret (0%Z, [], rbuf_set_mode m rb)
  | Find octet => k ← rbuf_find octet rb; Ret (k, [], rb)
  | ReadUntil octet maxsize => rbuf_read_until octet maxsize rb
  | Used => Ret (rbuf_used rb, [], rb)
  | Available => Ret (rbuf_available rb, [], rb)
  end.

(** The bounded queue: a mode and the bytes, oldest first. *)
Definition spec_op (cap : Z) (o : rbuf_op) (s : rbuf_mode_t * list Z)
    : rbuf_res * (rbuf_mode_t * list Z) :=
  let '(m, q) := s in
  match o with
  | Write bs => let r := write_spec cap m q bs in ((r.1, []), (m, r.2))
  | Read n => ((n `min` len q, take (Z.to_nat n) q)%Z, (m, drop (Z.to_nat n) q))
  | Skip n => ((0%Z, []), (m, drop (Z.to_nat n) q))
  | Clear => ((0%Z, []), (m, []))
  | SetMode m => ((0%Z, []), (m, q))
  | Find octet => ((default (-1)%Z (find_spec octet q), []), (m, q))
  | ReadUntil octet maxsize =>
      let out := (upto octet (take (Z.to_nat maxsize) q)).1 in
      ((len out, out), (m, drop (length out) q))
  | Used => ((len q, []), (m, q))
  | Available => ((cap - len q, [])%Z, (m, q))
  end.

(** The calls that are specified: sizes are not negative, a skip stays within
    the stored bytes or exceeds the capacity, and rbuf_read_until does not ask
    for more than is stored unless the octet is there.  The code does not refuse
    the others: a skip of more than is stored makes old bytes readable again
    ([rbuf_skip_overruns]), and rbuf_read_until runs on behind the stored bytes
    ([rbuf_read_until_overruns]). *)
Definition admissible (cap : Z) (o : rbuf_op) (q : list Z) : bool :=
  match o with
  | Read n => bool_decide (0 <= n)%Z
  | Skip n => bool_decide (0 <= n <= len q ∨ cap < n)%Z
  | ReadUntil octet maxsize => bool_decide (0 <= maxsize)%Z
      && (bool_decide (maxsize <= len q)%Z || bool_decide (octet ∈ q))
  | _ => true
  end.

Fixpoint run_script (os : list rbuf_op) : st rbuf_t (list rbuf_res) :=
  match os with
  | [] => mret []
  | o :: os => r ← run_op o; rs ← run_script os; mret (r :: rs)
  end.

Fixpoint spec_script (cap : Z) (os : list rbuf_op) (s : rbuf_mode_t * list Z)
    : list rbuf_res * (rbuf_mode_t * list Z) :=
  match os with
  | [] => ([], s)
  | o :: os =>
      let '(r, s) := spec_op cap o s in
      let '(rs, s) := spec_script cap os s in (r :: rs, s)
  end.

Fixpoint all_admissible (cap : Z) (os : list rbuf_op) (s : rbuf_mode_t * list Z) : bool :=
  match os with
  | [] => true
  | o :: os => admissible cap o s.2 && all_admissible cap os (spec_op cap o s).2
  end.

Definition holds (cap : Z) (s : rbuf_mode_t * list Z) (rb : rbuf_t) : Prop :=
  rb_is rb s.2 ∧ mode rb = s.1 ∧ rbuf_size rb = cap ∧ (cap < 2 ^ 30 - 1)%Z.

Lemma run_op_ok cap s o rb :
  holds cap s rb → admissible cap o s.2 = true →
  ∃ rb', run_op o rb = Ret ((spec_op cap o s).1, rb') ∧ holds cap (spec_op cap o s).2 rb'.
Proof.
  destruct s as [m q]. intros (Hr&Hm&Hcap&Hlt) Ha. simpl in *. unfold rbuf_size in Hcap.
  assert (∀ q' rb', rb_is rb' q' ∧ same_frame rb rb' → holds cap (m, q') rb') as Hkeep.
  { intros q' rb' (?&?&?). unfold holds, rbuf_size; simpl. split_and!; [done|congruence|lia|lia]. }
  pose proof Hr as (_&Hu&Hav).
  destruct o; cbn [run_op spec_op admissible fst snd] in *.
  - destruct (rbuf_write_is rb q bs Hr) as (rb'&->&Hq); [lia|]. rewrite Hcap, Hm in *.
    exists rb'. split; [done|]. by apply Hkeep.
  - apply bool_decide_eq_true in Ha.
    destruct (rbuf_read_is rb q n Hr Ha) as (rb'&->&Hq). eauto.
  - apply bool_decide_eq_true in Ha. eexists. split; [done|]. apply Hkeep, rbuf_skip_is; [done|lia].
  - eexists. split; [done|]. eapply Hkeep, rbuf_clear_is. done.
  - eexists. split; [done|]. unfold holds, rbuf_size; simpl. split_and!; [exact Hr|done|lia|lia].
  - rewrite (rbuf_find_is rb q) by done. eexists. split; [done|]. by apply Hkeep.
  - apply andb_true_iff in Ha as [Hmax Hc]. apply bool_decide_eq_true in Hmax.
    destruct (rbuf_read_until_is rb q octet maxsize Hr Hmax) as (rb'&->&Hq); [|by eauto].
    apply orb_true_iff in Hc as [Hc|Hc]; apply bool_decide_eq_true in Hc; auto.
  - exists rb. unfold rbuf_used. rewrite Hu. split; [done|]. by apply Hkeep.
  - exists rb. unfold rbuf_available. rewrite Hav. split; [do 3 f_equal; lia|]. by apply Hkeep.
Qed.

Lemma run_script_ok cap os s rb :
  holds cap s rb → all_admissible cap os s = true →
  ∃ rb', run_script os rb = Ret ((spec_script cap os s).1, rb') ∧
         holds cap (spec_script cap os s).2 rb'.
Proof.
  revert s rb. induction os as [|o os IH]; intros s rb Hh Ha; simpl in *; [by exists rb|].
  apply andb_true_iff in Ha as [Ha Has].
  destruct (run_op_ok cap s o rb Hh Ha) as (rb1&Hrun&Hh1). unfold mbind, st_bind. rewrite Hrun.
  destruct (spec_op cap o s) as [r s1]. simpl in *.
  destruct (IH s1 rb1 Hh1 Has) as (rb2&->&Hh2).
  destruct (spec_script cap os s1) as [rs s2]. simpl in *. by exists rb2.
Qed.

(** C16: a ring buffer made for [sz] bytes (4096 for 0) answers every admissible
    script of writes, reads, skips, searches, mode changes and counts as a bounded
    queue does (no skip is longer than what is stored, unless it exceeds the
    capacity, and no rbuf_read_until asks for more than is stored, unless the
    octet is there): nothing faults, bytes come out in the order in which they went in,
    blocking writes store what fits, overwriting ones keep the newest bytes. *)
Theorem rbuf_refines_fifo mem malloc_ok sz os :
  let cap := (if bool_decide (sz = 0) then RBUF_DEFAULT_SIZE else sz)%Z in
  (0 <= sz < 2 ^ 30 - 1)%Z → malloc_ok (cap + 1)%Z = true →
  all_admissible cap os (RBUF_MODE_BLOCKING, []) = true →
  ∃ rb rb', rbuf_create mem true malloc_ok sz = Ret (Some rb) ∧
    run_script os rb = Ret ((spec_script cap os (RBUF_MODE_BLOCKING, [])).1, rb').
Proof.
  intros cap Hsz Hm Ha.
  destruct (rbuf_create_is mem malloc_ok sz) as (rb&Hc&Hr&Hcap&Hmode); [lia|done|].
  destruct (run_script_ok cap os (RBUF_MODE_BLOCKING, []) rb) as (rb'&Hrun&_); [|done|by eauto].
  unfold holds. split_and!; [done..|]. unfold cap, RBUF_DEFAULT_SIZE. case_bool_decide; lia.
Qed.

Definition fifo_script : list rbuf_op :=
  [Write [1; 2; 3]; Read 2; Write [4; 5; 6; 7]; Used; Find 6; SetMode RBUF_MODE_OVERWRITE;
   Write [8; 9]; ReadUntil 6 9; Skip 1; Read 9; Available]%Z.

Lemma rbuf_refines_fifo_witness :
  ∃ rb rb', rbuf_create (λ _, 0%Z) true (λ _, true) 4 = Ret (Some rb) ∧
    run_script fifo_script rb
    = Ret ([(3, []); (2, [1; 2]); (3, []); (4, []); (3, []); (0, []);
            (2, []); (2, [5; 6]); (0, []); (1, [9]); (4, [])]%Z, rb').
Proof.
  apply (rbuf_refines_fifo (λ _, 0%Z) (λ _, true) 4 fifo_script); [lia|done|].
  vm_compute. reflexivity.
Defined.

(** ** Transfers *)

(** Where rbuf_copy_internal puts the bytes: an empty destination must be at
    one of the ends. *)
Definition at_end (rb : rbuf_t) (q : list Z) : Prop :=
  q ≠ [] ∨ rfx rb = 0%Z ∨ rfx rb = size rb.

Lemma memcpy_take dst off src n :
  (0 <= n <= len src)%Z → memcpy dst off src 0 n = mem_write dst off (take (Z.to_nat n) src).
Proof. intros. unfold memcpy. by rewrite mem_read_ok by lia. Qed.

(** The number of bytes before the end or the read offset. *)
Definition contiguous (dst : rbuf_t) : Z :=
  (if bool_decide (wfx dst > rfx dst) then size dst - wfx dst else rfx dst - wfx dst)%Z.

Lemma mem_write_nil b off : (0 <= off <= len b)%Z → mem_write b off [] = Ret b.
Proof.
  intros. unfold mem_write. rewrite bool_decide_eq_true_2 by (simpl; lia).
  unfold blit. simpl. by rewrite Nat.add_0_r, take_drop.
Qed.

(** The stores of a transfer are those of rbuf_write. *)
Lemma transfer_ok dst q bs :
  rb_is dst q → at_end dst q → (len q + len bs < size dst)%Z →
  let c := contiguous dst in
  if bool_decide (c >= len bs)%Z then
    ∃ b, mem_write (buf dst) (wfx dst) bs = Ret b ∧
         rb_is (rbuf_update_size (set_wfx (wfx dst + len bs) (set_buf b dst))) (q ++ bs)
  else
    (0 <= c)%Z ∧
    ∃ b b', mem_write (buf dst) (wfx dst) (take (Z.to_nat c) bs) = Ret b ∧
      mem_write b 0 (drop (Z.to_nat c) bs) = Ret b' ∧
      rb_is (rbuf_update_size (set_wfx (len bs - c) (set_buf b' dst))) (q ++ bs).
Proof.
  intros (Hs&_) Hend Hlt c. pose proof Hs as ((?&?&?&?)&Ho&_). pose proof Ho as Ho'.
  unfold offsets in Ho.
  destruct (write_at_wfx_ok dst q bs (len bs)) as (rb&Hw&_&Hq);
    [by apply shape_writable|lia|auto|lia|lia|].
  rewrite Nat2Z.id, take_ge in Hq by lia.
  assert (q = [] ∨ len q > 0)%Z as Hq0 by (destruct q; simpl; auto; lia).
  unfold write_at_wfx in Hw. unfold c, contiguous in *. clear c.
  destruct (decide (wfx dst > rfx dst)%Z); [|destruct (decide (wfx dst = rfx dst)%Z)].
  - rewrite (bool_decide_eq_true_2 (wfx dst > rfx dst)%Z) by lia.
    rewrite (bool_decide_eq_true_2 (wfx dst >= rfx dst)%Z) in Hw by lia.
    repeat case_bool_decide; try lia.
    + rewrite memcpy_take, Nat2Z.id, take_ge in Hw by lia.
      destruct (mem_write _ _ _) as [b|]; simplify_eq/=. by exists b.
    + split; [lia|]. rewrite memcpy_take in Hw by lia.
      destruct (mem_write (buf dst) _ _) as [b|] eqn:Hb; simplify_eq/=. exists b.
      unfold memcpy in Hw. rewrite mem_read_ok in Hw by lia. simpl in Hw.
      rewrite take_ge in Hw by (rewrite length_drop; lia).
      destruct (mem_write b _ _) as [b'|]; simplify_eq/=. by exists b'.
  - rewrite (bool_decide_eq_false_2 (wfx dst > rfx dst)%Z) by lia.
    rewrite (bool_decide_eq_true_2 (wfx dst >= rfx dst)%Z) in Hw by lia.
    replace (rfx dst - wfx dst)%Z with 0%Z by lia. destruct (decide (bs = [])) as [->|Hne].
    { rewrite bool_decide_eq_true_2 by done. exists (buf dst).
      rewrite mem_write_nil by lia. split; [done|]. rewrite app_nil_r. apply update_size_is.
      simpl. rewrite Z.add_0_r. by destruct dst. }
    assert (0 < len bs)%Z by (destruct bs; [done|simpl; lia]).
    rewrite (bool_decide_eq_false_2 (0 >= _)%Z) by lia.
    split; [lia|]. exists (buf dst). rewrite take_0, drop_0, mem_write_nil by lia.
    destruct Hend as [?|[Hz|Hz]]; [destruct Hq0; [done|lia]| |].
    + rewrite bool_decide_eq_true_2 in Hw by lia.
      rewrite memcpy_take, Nat2Z.id, take_ge in Hw by lia. replace (wfx dst) with 0%Z in Hw by lia.
      destruct (mem_write _ _ _) as [b|]; simplify_eq/=. exists b.
      rewrite Z.sub_0_r. by split_and!.
    + rewrite bool_decide_eq_false_2 in Hw by lia.
      replace (size dst - wfx dst)%Z with 0%Z in Hw by lia. rewrite memcpy_take in Hw by lia.
      rewrite take_0, mem_write_nil in Hw by lia. simpl in Hw.
      rewrite memcpy_take, Z.sub_0_r, Nat2Z.id, take_ge in Hw by lia.
      destruct (mem_write _ _ _) as [b|]; simplify_eq/=. exists b.
      rewrite Z.sub_0_r. by split_and!.
  - rewrite (bool_decide_eq_false_2 (wfx dst > rfx dst)%Z) by lia.
    rewrite (bool_decide_eq_false_2 (wfx dst >= rfx dst)%Z) in Hw by lia.
    rewrite bool_decide_eq_true_2 by lia.
    rewrite memcpy_take, Nat2Z.id, take_ge in Hw by lia.
    destruct (mem_write _ _ _) as [b|]; simplify_eq/=. by exists b.
Qed.

(** How many bytes a transfer takes. *)
Definition transferred (n : Z) (q1 : list Z) (dst : rbuf_t) (q2 : list Z) : Z :=
  (n `min` len q1 `min` (size dst - 1 - len q2))%Z.

Lemma read_into_ok src q1 n dst off b :
  rb_is src q1 → (0 <= n <= len q1)%Z → mem_write dst off (take (Z.to_nat n) q1) = Ret b →
  ∃ src', read_into src dst off n = Ret (src', b) ∧ rb_is src' (drop (Z.to_nat n) q1).
Proof.
  intros Hr Hn Hb. destruct (rbuf_read_is src q1 n Hr) as (src'&Hread&Hr'&_); [lia|].
  exists src'. unfold read_into. rewrite Hread. simpl. by rewrite Hb.
Qed.

(** The choice of [to_copy]. *)
Lemma to_copy_eq src q1 dst q2 n :
  rb_is src q1 → rb_is dst q2 →
  (let t := if bool_decide (n < rbuf_available dst) then n else rbuf_available dst in
   if bool_decide (rbuf_used src < t) then rbuf_used src else t)%Z = transferred n q1 dst q2.
Proof.
  intros (_&Hu&_) (_&_&Ha). unfold rbuf_available, rbuf_used, transferred. rewrite Hu, Ha.
  repeat case_bool_decide; lia.
Qed.

(** Rbuf_move takes the oldest bytes of one buffer, as many as are asked
    for, stored and fit, and appends them to the other one, if that one is not
    empty or its offsets are at an end of its buffer. *)
Theorem rbuf_move_correct src q1 dst q2 n :
  rb_is src q1 → rb_is dst q2 → at_end dst q2 → (0 <= n)%Z →
  let k := transferred n q1 dst q2 in
  ∃ src' dst', rbuf_move n (src, dst) = Ret (k, (src', dst')) ∧
    rb_is src' (drop (Z.to_nat k) q1) ∧ rb_is dst' (q2 ++ take (Z.to_nat k) q1).
Proof.
  intros H1 H2 Hend Hn k. pose proof H1 as (((?&?&?&?)&_)&_). pose proof H2 as (((?&?&?&?)&_)&_).
  unfold rbuf_move, rbuf_copy_internal. case_bool_decide as Hz.
  { assert (k = 0%Z) as -> by (unfold k, transferred; lia). exists src, dst.
    rewrite drop_0, take_0, app_nil_r. done. }
  pose proof (to_copy_eq src q1 dst q2 n H1 H2) as Hk. simpl in Hk. rewrite Hk. clear Hk. fold k.
  assert (0 <= k <= len q1 ∧ len q2 + k < size dst)%Z as [Hk Hfit] by (unfold k, transferred; lia).
  fold (contiguous dst). clearbody k. set (bs := take (Z.to_nat k) q1).
  assert (len bs = k) as Hlen by (unfold bs; rewrite length_take; lia).
  pose proof (transfer_ok dst q2 bs H2 Hend ltac:(lia)) as Ht. simpl in Ht. rewrite Hlen in Ht.
  case_bool_decide.
  - destruct Ht as (b&Hb&Hr). destruct (read_into_ok src q1 k _ _ b H1 Hk Hb) as (src'&->&Hs).
    simpl. by exists src', (rbuf_update_size (set_wfx (wfx dst + k) (set_buf b dst))).
  - destruct Ht as (Hc&b&b'&Hb&Hb'&Hr). set (c := contiguous dst) in *.
    unfold bs in Hb. rewrite take_take, Nat.min_l in Hb by lia.
    destruct (read_into_ok src q1 c _ _ b H1 ltac:(lia) Hb) as (s1&->&Hs1). cbn [mbind outcome_bind].
    unfold bs in Hb'. rewrite skipn_firstn_comm in Hb'.
    replace (Z.to_nat k - Z.to_nat c) with (Z.to_nat (k - c)) in Hb' by lia.
    destruct (read_into_ok s1 _ (k - c) b 0 b' Hs1) as (s2&->&Hs2); [rewrite length_drop; lia|done|].
    cbn [mbind outcome_bind]. eexists s2, _. split; [done|]. split; [|done].
    rewrite drop_drop in Hs2. replace (Z.to_nat k) with (Z.to_nat c + Z.to_nat (k - c)) by lia. done.
Qed.

(** A piece of the stored bytes, when they do not wrap. *)
Lemma memcpy_stored src q1 dst off (i n : Z) :
  shape src q1 → (rfx src < wfx src)%Z → (0 <= i)%Z → (0 <= n)%Z → (i + n <= len q1)%Z →
  memcpy dst off (buf src) (rfx src + i) n
  = mem_write dst off (take (Z.to_nat n) (drop (Z.to_nat i) q1)).
Proof.
  intros Hs Hlt Hi Hn Hle. pose proof Hs as ((?&?&?&?)&Ho&_). unfold offsets in Ho.
  unfold memcpy. rewrite mem_read_ok by lia. simpl. f_equal.
  pose proof (stored_take src q1 (i + n) Hs ltac:(lia) ltac:(lia)) as Ht.
  apply (f_equal (drop (Z.to_nat i))) in Ht. rewrite !skipn_firstn_comm, drop_drop in Ht.
  replace (Z.to_nat (i + n) - Z.to_nat i) with (Z.to_nat n) in Ht by lia.
  by replace (Z.to_nat (rfx src + i)) with (Z.to_nat (rfx src) + Z.to_nat i) by lia.
Qed.

(** rbuf_copy does the same without consuming the bytes when they do not wrap
    around the end of the source. *)
Theorem rbuf_copy_correct src q1 dst q2 n :
  rb_is src q1 → rb_is dst q2 → at_end dst q2 → (0 <= n)%Z → (rfx src < wfx src)%Z →
  let k := transferred n q1 dst q2 in
  ∃ dst', rbuf_copy n (src, dst) = Ret (k, (src, dst')) ∧ rb_is dst' (q2 ++ take (Z.to_nat k) q1).
Proof.
  intros H1 H2 Hend Hn Hlt k. pose proof H1 as (Hs1&_). pose proof H2 as (((?&?&?&?)&_)&_).
  unfold rbuf_copy, rbuf_copy_internal. case_bool_decide as Hz.
  { assert (k = 0%Z) as -> by (unfold k, transferred; lia). exists dst.
    rewrite take_0, app_nil_r. done. }
  pose proof (to_copy_eq src q1 dst q2 n H1 H2) as Hk. simpl in Hk. rewrite Hk. clear Hk. fold k.
  assert (0 <= k <= len q1 ∧ len q2 + k < size dst)%Z as [Hk Hfit] by (unfold k, transferred; lia).
  fold (contiguous dst). clearbody k. set (bs := take (Z.to_nat k) q1).
  assert (len bs = k) as Hlen by (unfold bs; rewrite length_take; lia).
  pose proof (transfer_ok dst q2 bs H2 Hend ltac:(lia)) as Ht. simpl in Ht. rewrite Hlen in Ht.
  pose proof (memcpy_stored src q1) as Hcp. unfold copy_wrapped.
  rewrite (bool_decide_eq_true_2 (rfx src < wfx src)%Z) by done. case_bool_decide.
  - destruct Ht as (b&Hb&Hr). specialize (Hcp (buf dst) (wfx dst) 0%Z k Hs1 Hlt).
    rewrite Z.add_0_r, drop_0 in Hcp. rewrite Hcp by lia. fold bs. rewrite Hb. simpl. eauto.
  - destruct Ht as (Hc&b&b'&Hb&Hb'&Hr). set (c := contiguous dst) in *.
    unfold bs in Hb. rewrite take_take, Nat.min_l in Hb by lia.
    pose proof (Hcp (buf dst) (wfx dst) 0%Z c Hs1 Hlt) as Hcp1.
    rewrite Z.add_0_r, drop_0 in Hcp1. rewrite Hcp1, Hb by lia. simpl.
    unfold bs in Hb'. rewrite skipn_firstn_comm in Hb'.
    replace (Z.to_nat k - Z.to_nat c) with (Z.to_nat (k - c)) in Hb' by lia.
    rewrite Hcp, Hb' by (done || lia). simpl. eauto.
Qed.

(** ** Calls that leave the queue *)

(** Skipping more than is stored, but less than the size, brings back bytes
    that had been read. *)
Theorem rbuf_skip_overruns rb q n :
  rb_is rb q → (len q < n < size rb)%Z → used (rbuf_skip n rb) = (size rb - (n - len q))%Z.
Proof.
  intros [((?&?&?&?)&Ho&_) _] Hn. unfold offsets in Ho. unfold rbuf_skip, rbuf_update_size.
  repeat (case_bool_decide; simpl in *); lia.
Qed.

(** Copying from an empty buffer whose offsets are not at its end passes a
    negative length to memcpy. *)
Theorem rbuf_copy_empty_faults src dst q2 n :
  rb_is src [] → rb_is dst q2 → (rfx src < size src)%Z → (0 < n)%Z → rbuf_copy n (src, dst) = Fault.
Proof.
  intros H1 H2 Hlt Hn. pose proof H1 as (((?&?&?&?)&Ho&_)&_). pose proof H2 as (((?&?&?&?)&Ho2&_)&_).
  unfold offsets in Ho, Ho2; simpl in *.
  unfold rbuf_copy, rbuf_copy_internal. rewrite bool_decide_eq_false_2 by lia.
  pose proof (to_copy_eq src [] dst q2 n H1 H2) as Hk. simpl in Hk. rewrite Hk. clear Hk.
  assert (transferred n [] dst q2 = 0%Z) as -> by (unfold transferred; simpl; lia).
  rewrite bool_decide_eq_true_2 by (case_bool_decide; lia).
  rewrite (bool_decide_eq_false_2 (rfx src < wfx src)%Z) by lia.
  destruct (memcpy _ _ _ _ _) as [b|]; [|done]. simpl. unfold memcpy, mem_read.
  rewrite bool_decide_eq_false_2 by lia. done.
Qed.

Definition rbuf_after (os : list rbuf_op) : rbuf_t :=
  match rbuf_create (λ _, 0%Z) true (λ _, true) 4 with
  | Ret (Some rb) => match run_script os rb with Ret (_, rb) => rb | Fault => rb end
  | _ => mk_rbuf [] 0 0 0 0 0 RBUF_MODE_BLOCKING
  end.

(** Moving into an empty buffer between its ends makes stale cells readable:
    after one byte went in and out, moving 8 makes the buffer hold four bytes
    instead of one. *)
Theorem rbuf_move_misplaces :
  ∃ src dst, rbuf_move 1 (rbuf_after [Write [8]%Z], rbuf_after [Write [1; 2]%Z; Read 2%Z])
             = Ret (1%Z, (src, dst)) ∧ used dst = 4%Z.
Proof. eexists _, _. split; vm_compute; reflexivity. Qed.

(** rbuf_read_until does not stop at the end of the stored bytes: asked for up
    to four bytes of a buffer that holds one, it returns four, and two
    bytes count as stored afterwards. *)
Theorem rbuf_read_until_overruns :
  ∃ rb, rbuf_read_until 9 4 (rbuf_after [Write [1; 2; 3]%Z; Read 3%Z; Clear; Write [7]%Z])
        = Ret (4%Z, [7; 2; 3; 0]%Z, rb) ∧ used rb = 2%Z.
Proof. eexists. split; vm_compute; reflexivity. Qed.

(** ** Witnesses *)
Lemma after_is os :
  all_admissible 4 os (RBUF_MODE_BLOCKING, []) = true →
  rb_is (rbuf_after os) (spec_script 4 os (RBUF_MODE_BLOCKING, [])).2.2.
Proof.
  intros Ha. destruct (rbuf_create_is (λ _, 0%Z) (λ _, true) 4) as (rb&Hc&Hr&Hcap&Hm); [lia|done|].
  unfold rbuf_after. rewrite Hc.
  destruct (run_script_ok 4 os (RBUF_MODE_BLOCKING, []) rb) as (rb'&->&Hh&_); [|done|done].
  unfold holds. split_and!; [done..|lia].
Qed.

Lemma rbuf_move_correct_witness :
  ∃ src' dst', rbuf_move 2 (rbuf_after [Write [1; 2; 3]%Z], rbuf_after [Write [8]%Z])
               = Ret (2%Z, (src', dst')) ∧ rb_is src' [3%Z] ∧ rb_is dst' [8; 1; 2]%Z.
Proof.
  apply (rbuf_move_correct (rbuf_after [Write [1; 2; 3]%Z]) [1; 2; 3]%Z (rbuf_after [Write [8]%Z]) [8]%Z 2).
  - apply (after_is [Write [1; 2; 3]%Z]). reflexivity.
  - apply (after_is [Write [8]%Z]). reflexivity.
  - left. discriminate.
  - lia.
Defined.
