(* ===== verification/SparseArray.v ===== *)
(** * The sparse array (index/libhl/sparse_array.c)

    An array of cells, each empty or a linked list of the values stored under
    keys that the locator maps to the cell's position.  [locate_cb] is the
    function passed to create_sparse_array, if any; [realloc] says which sizes
    realloc grants.  Timers and performance counters are left out. *)
From S2P Require Import Prelude Heap LinkedList.

Definition SPA_SIZE_MIN : Z := 1024.

Section Spa.
Context {V : Type}.
Record sparse_array := mk_spa {
  array : list (option (linked_list V));
  size : Z;
  max_size : Z;
  count : Z
}.
Context (locate_cb : option (list Z → Z)) (realloc : Z → bool).

Definition create_sparse_array (initial_size max : Z) : sparse_array :=
  let n := if bool_decide (initial_size > SPA_SIZE_MIN)%Z then initial_size else SPA_SIZE_MIN in
  mk_spa (replicate (Z.to_nat n) None) n max 0.

(** The position of a key: an int converted to size_t. *)
Definition position (poss : list Z) : Z :=
  match locate_cb with Some f => u64 (f poss) | None => le_combine (take 8 poss) end.

(** The array with room for [pos], or the return value of a failure. *)
Definition grow (pos : Z) (s : sparse_array) : option sparse_array :=
  if bool_decide (pos >= size s)%Z then
    if bool_decide (max_size s > 0)%Z && bool_decide (pos >= max_size s)%Z then None
    else
      let new_size := u64 (pos + 1) in
      if realloc new_size then
        Some (mk_spa (resize (Z.to_nat new_size) None (array s)) new_size (max_size s) (count s))
      else None
  else Some s.

Definition set_element_to_sparse_array (poss : list Z) (data : option V) : st sparse_array Z :=
  λ s,
  let pos := position poss in
  match grow pos s with
  | None => Ret ((-1)%Z, s)
  | Some s =>
      match array s !! Z.to_nat pos with
      | None => Fault
      | Some cell =>
          let element_list := default list_create cell in
          '(_, l) ← list_push_value data element_list;
          Ret (0%Z, mk_spa (<[Z.to_nat pos := Some l]> (array s)) (size s) (max_size s) (u64 (count s + 1)))
      end
  end.

Definition get_element_in_sparse_array (poss : list Z) : st sparse_array (option (linked_list V)) :=
  λ s,
  let pos := position poss in
  if bool_decide (pos >= size s)%Z then Ret (None, s)
  else match array s !! Z.to_nat pos with Some cell => Ret (cell, s) | None => Fault end.

Definition get_sparse_array_size (s : sparse_array) : Z * Z * Z := (size s, max_size s, count s).

(** ** Iteration *)
Section Foreach.
Context {D : Type} (cb : D → Z → linked_list V → outcome (D * Z)).
Definition SPA_ITERATOR_STOP : Z := 0.
Definition SPA_ITERATOR_CONTINUE : Z := 1.

(** The for loop, [n] rounds from [i] on. *)
Fixpoint foreach_loop (s : sparse_array) (n : nat) (i : Z) (user : D) : outcome D :=
  match n with
  | O => Ret user
  | S n =>
      match array s !! Z.to_nat i with
      | None => Fault
      | Some None => foreach_loop s n (i + 1)%Z user
      | Some (Some l) =>
          '(user, status) ← cb user i l;
          if bool_decide (status = SPA_ITERATOR_STOP) then Ret user else foreach_loop s n (i + 1)%Z user
      end
  end.
Definition foreach_range (begin_ end_ : Z) (s : sparse_array) : Z * Z :=
  if bool_decide (begin_ >= size s)%Z || bool_decide (end_ >= size s)%Z || bool_decide (begin_ >= end_)%Z
  then (0%Z, i32 (size s)) else (i32 begin_, i32 end_).
Definition spa_foreach_elements (beginn endd : list Z) (user : D) : st sparse_array D :=
  λ s,
  let '(bgn, end_) := foreach_range (position beginn) (position endd) s in
  user ← foreach_loop s (Z.to_nat (end_ - bgn)) bgn user; Ret (user, s).
End Foreach.
End Spa.
Arguments sparse_array : clear implicits.

(** ** The number index on a sparse array (index/spi/sparse_array_number_index.c) *)
Section Spi.
Context {V : Type} (locate_cb : option (list Z → Z)) (realloc : Z → bool).
Definition create_sparse_array_index : sparse_array V := create_sparse_array 0 0.
Definition insert_number_to_sparse_array (k : list Z) (data : option V) : st (sparse_array V) Z :=
  set_element_to_sparse_array locate_cb realloc k data.
Definition search_number_from_sparse_array (k : list Z) : st (sparse_array V) (option (linked_list V)) :=
  get_element_in_sparse_array locate_cb k.
(** range_cb pushes the cell's list onto the result. *)
Definition range_cb (collector : linked_list (linked_list V)) (array_idx : Z) (element : linked_list V) :
    outcome (linked_list (linked_list V) * Z) :=
  '(_, collector) ← list_push_value (Some element) collector; Ret (collector, SPA_ITERATOR_CONTINUE).
Definition search_numeric_range_from_sparse_array (b e : list Z) : st (sparse_array V) (linked_list (linked_list V)) :=
  spa_foreach_elements locate_cb range_cb b e list_create.
End Spi.
