(* ===== verification/SparseArrayTheorems.v ===== *)
(** * The sparse array: theorems *)
From S2P Require Import Prelude Heap LinkedList LinkedListRep LinkedListSpec RbTree Comparators SparseArray.

Section Rep.
Context {V : Type} (locate_cb : option (list Z → Z)) (realloc : Z → bool).
Implicit Types (s : sparse_array V) (f : nat → list (option V)).

Definition cell_is (c : option (linked_list V)) (vs : list (option V)) : Prop :=
  match c with Some l => list_is l vs ∧ vs ≠ [] | None => vs = [] end.
(** Cell [i] of [s] holds the values [f i]. *)
Record spa_is s f : Prop := {
  spa_size : size s = Z.of_nat (length (array s));
  spa_cell i c : array s !! i = Some c → cell_is c (f i);
  spa_beyond i : length (array s) ≤ i → f i = []
}.

Lemma spa_is_create n m : (n ≤ SPA_SIZE_MIN)%Z → spa_is (create_sparse_array n m) (λ _, []).
Proof.
  intros Hn. unfold create_sparse_array. rewrite bool_decide_eq_false_2 by lia.
  split; cbn; [by rewrite length_replicate| |done]. intros i c [-> _]%lookup_replicate. done.
Qed.

Lemma grow_ok s f pos :
  spa_is s f → (0 ≤ pos < 2 ^ 64 - 1)%Z → max_size s = 0%Z → realloc (pos + 1) = true →
  ∃ s', grow realloc pos s = Some s' ∧ spa_is s' f ∧ (pos < size s')%Z ∧ (size s ≤ size s')%Z ∧ max_size s' = 0%Z ∧ count s' = count s.
Proof.
  intros [Hs Hc Hb] Hpos Hmax Hre. unfold grow. case_bool_decide as Hp; [|by exists s; split_and!; try done; lia].
  rewrite Hmax, (bool_decide_eq_false_2 (0 > 0)%Z) by lia. cbn [andb].
  assert (u64 (pos + 1) = (pos + 1)%Z) as -> by (apply u64_id; unfold in_u64; lia). rewrite Hre.
  eexists. split; [done|]. cbn. split_and!; try done; try lia. split; cbn.
  - rewrite length_resize. lia.
  - intros i c Hi. destruct (decide (i < length (array s))) as [Hlt|Hge].
    + rewrite lookup_resize in Hi by lia. by apply Hc.
    + rewrite lookup_resize_new in Hi; [|lia|]; [|apply lookup_lt_Some in Hi; rewrite length_resize in Hi; lia].
      injection Hi as <-. apply Hb. lia.
  - intros i Hi. rewrite length_resize in Hi. apply Hb. lia.
Qed.

Definition fpush f (i : nat) (v : option V) : nat → list (option V) := λ j, if decide (j = i) then f j ++ [v] else f j.

Lemma set_ok s f k v :
  spa_is s f → (0 ≤ position locate_cb k < 2 ^ 64 - 1)%Z → max_size s = 0%Z → realloc (position locate_cb k + 1) = true →
  (Z.of_nat (length (f (Z.to_nat (position locate_cb k)))) < MAX_LEN)%Z →
  ∃ s', set_element_to_sparse_array locate_cb realloc k v s = Ret (0%Z, s')
    ∧ spa_is s' (fpush f (Z.to_nat (position locate_cb k)) v) ∧ max_size s' = 0%Z ∧ count s' = u64 (count s + 1)
    ∧ (size s ≤ size s')%Z.
Proof.
  intros His Hpos Hmax Hre Hlen. unfold set_element_to_sparse_array. set (pos := position locate_cb k) in *.
  destruct (grow_ok s f pos His Hpos Hmax Hre) as (s1 & -> & [Hs Hc Hb] & Hlt & Hle & Hmax1 & Hcnt1).
  destruct (lookup_lt_is_Some_2 (array s1) (Z.to_nat pos)) as [c Hcell]; [lia|]. rewrite Hcell.
  assert (list_is (default list_create c) (f (Z.to_nat pos))) as Hl.
  { specialize (Hc _ _ Hcell). destruct c; cbn in *; [apply Hc|]. rewrite Hc. apply list_is_create. }
  destruct (list_push_value_is _ _ v Hl Hlen) as (l & -> & Hl'). cbn. eexists. split; [done|].
  split_and!; cbn; try done; try lia; [|by rewrite Hcnt1]. split; cbn.
  - by rewrite length_insert.
  - unfold fpush. intros i c' [(<- & <- & _)|[Hne Hi]]%list_lookup_insert_Some.
    + rewrite decide_True by done. split; [done|]. by destruct (f (Z.to_nat pos)).
    + rewrite decide_False by done. by apply Hc.
  - rewrite length_insert. intros i Hi. unfold fpush. rewrite decide_False by lia. by apply Hb.
Qed.

Lemma get_ok s f k :
  spa_is s f → (0 ≤ position locate_cb k)%Z →
  ∃ c, get_element_in_sparse_array locate_cb k s = Ret (c, s) ∧ cell_is c (f (Z.to_nat (position locate_cb k))).
Proof.
  intros [Hs Hc Hb] Hpos. unfold get_element_in_sparse_array. case_bool_decide as Hp.
  - exists None. split; [done|]. apply Hb. lia.
  - destruct (lookup_lt_is_Some_2 (array s) (Z.to_nat (position locate_cb k))) as [c Hcell]; [lia|].
    rewrite Hcell. exists c. split; [done|]. by apply Hc.
Qed.

(** ** A run of insertions *)
Fixpoint set_all (kvs : list (list Z * V)) : st (sparse_array V) unit :=
  match kvs with
  | [] => mret tt
  | (k, v) :: kvs => _ ← set_element_to_sparse_array locate_cb realloc k (Some v); set_all kvs
  end.
Definition stored (kvs : list (list Z * V)) (i : nat) : list (option V) :=
  Some ∘ snd <$> filter (λ p, position locate_cb p.1 = Z.of_nat i) kvs.
Definition granted (kvs : list (list Z * V)) : Prop :=
  Forall (λ p, (0 ≤ position locate_cb p.1 < 2 ^ 64 - 1)%Z ∧ realloc (position locate_cb p.1 + 1) = true) kvs.

Lemma set_all_ok kvs s f n :
  spa_is s f → max_size s = 0%Z → granted kvs → (∀ i, length (f i) ≤ n) → (Z.of_nat (n + length kvs) ≤ MAX_LEN)%Z →
  ∃ s', set_all kvs s = Ret (tt, s') ∧ spa_is s' (λ i, f i ++ stored kvs i) ∧ (size s ≤ size s')%Z.
Proof.
  revert s f n. induction kvs as [|[k v] kvs IH]; intros s f n His Hmax Hg Hn Hlen; cbn [set_all].
  { exists s. split; [done|]. split; [|done]. destruct His as [Hs Hc Hb]. split; [done|..]; cbn.
    - intros i c Hi. rewrite app_nil_r. auto.
    - intros i Hi. by rewrite app_nil_r, Hb. }
  inversion Hg as [|? ? [Hpos Hre] Hg']; subst. cbn [fst length] in *.
  destruct (set_ok s f k (Some v) His Hpos Hmax Hre) as (s1 & Hrun & His1 & Hmax1 & _ & Hsz1).
  { pose proof (Hn (Z.to_nat (position locate_cb k))). lia. }
  unfold mbind, st_bind. rewrite Hrun. set (i0 := Z.to_nat (position locate_cb k)) in *.
  destruct (IH s1 _ (S n) His1 Hmax1 Hg') as (s2 & Hrun2 & [Hs Hc Hb] & Hsz2).
  { intros i. unfold fpush. case_decide; rewrite ?length_app; cbn; specialize (Hn i); lia. }
  { lia. }
  exists s2. split; [done|]. split; [|lia].
  assert (∀ i, fpush f i0 (Some v) i ++ stored kvs i = f i ++ stored ((k, v) :: kvs) i) as Heq.
  { intros i. unfold fpush, stored. rewrite filter_cons. cbn [fst]. destruct (decide (i = i0)) as [->|Hne].
    - rewrite decide_True by (unfold i0; lia). by rewrite <-app_assoc.
    - rewrite decide_False; [done|]. unfold i0 in Hne. lia. }
  split; [done|..].
  - intros i c Hi. rewrite <-Heq. by apply Hc.
  - intros i Hi. rewrite <-Heq. by apply Hb.
Qed.
End Rep.

(** ** The number index *)
Section Index.
Context {V : Type} (realloc : Z → bool).
Implicit Types (s : sparse_array V) (f : nat → list (option V)).
Notation cast := libhl_cast_int_to_int.

Definition int_pos (x : Z) : Prop := (- 2 ^ 31 < x < 2 ^ 31)%Z.
Lemma position_int x : int_pos x → position (Some cast) (int_bytes x) = Z.abs x.
Proof.
  unfold int_pos. intros Hx. unfold position, libhl_cast_int_to_int, cast_int_key.
  change (8 * Z.of_nat 4)%Z with 32%Z. rewrite int_bytes_decode by (unfold in_i32; lia). rewrite (i32_id x) by (unfold in_i32; lia).
  unfold int_abs. case_bool_decide; rewrite ?i32_id by (unfold in_i32; lia); rewrite u64_id by (unfold in_u64; lia); lia.
Qed.

Definition int_keys (kvs : list (Z * V)) : list (list Z * V) := (λ p, (int_bytes p.1, p.2)) <$> kvs.
Lemma stored_int kvs x :
  Forall (λ p, int_pos p.1) kvs → int_pos x →
  stored (Some cast) (int_keys kvs) (Z.to_nat (Z.abs x)) = Some ∘ snd <$> filter (λ p, Z.abs p.1 = Z.abs x) kvs.
Proof.
  intros Hk Hx. unfold stored, int_keys. rewrite Z2Nat.id by lia. induction Hk as [|p kvs Hp Hk IH]; [done|].
  rewrite fmap_cons, !filter_cons. cbn [fst]. rewrite position_int by done.
  case_decide; rewrite ?fmap_cons; [f_equal|]; exact IH.
Qed.

(** C36: the sparse array index over int keys: after any run of insertions that
    the allocator grants, a search for [x] returns the list of all values
    inserted under a key of the same absolute value, in insertion order, and
    nothing when there is none.  In particular [x] and [-x] share a cell. *)
Theorem spa_index_refines (kvs : list (Z * V)) x :
  Forall (λ p, int_pos p.1 ∧ realloc (Z.abs p.1 + 1) = true) kvs → int_pos x → (Z.of_nat (length kvs) ≤ MAX_LEN)%Z →
  ∃ s c, set_all (Some cast) realloc (int_keys kvs) create_sparse_array_index = Ret (tt, s)
    ∧ search_number_from_sparse_array (Some cast) (int_bytes x) s = Ret (c, s)
    ∧ cell_is c (Some ∘ snd <$> filter (λ p, Z.abs p.1 = Z.abs x) kvs).
Proof.
  intros Hk Hx Hlen. apply Forall_and in Hk as [Hk Hre].
  destruct (set_all_ok (Some cast) realloc (int_keys kvs) create_sparse_array_index (λ _, []) 0) as (s & Hrun & His & _).
  - by apply spa_is_create.
  - done.
  - unfold granted, int_keys. apply Forall_forall. intros q (p & -> & Hp)%list_elem_of_fmap. cbn [fst].
    pose proof (proj1 (Forall_forall _ _) Hk p Hp) as Hi. rewrite position_int by done.
    split; [unfold int_pos in Hi; cbn in Hi; lia|]. exact (proj1 (Forall_forall _ _) Hre p Hp).
  - intros i. cbn. lia.
  - unfold int_keys. rewrite length_fmap. done.
  - destruct (get_ok (Some cast) s _ (int_bytes x) His) as (c & Hget & Hc); [rewrite position_int by done; lia|].
    exists s, c. split; [done|]. split; [done|]. rewrite position_int in Hc by done. cbn [app] in Hc. by rewrite stored_int in Hc.
Qed.

(** ** Ranges *)
Definition nonempty (vs : list (option V)) : bool := match vs with [] => false | _ => true end.
Lemma range_loop_ok s f n i col cs :
  spa_is s f → i + n ≤ length (array s) → list_is col (Some <$> cs) → (Z.of_nat (length cs + n) ≤ MAX_LEN)%Z →
  ∃ col' cs', foreach_loop range_cb s n (Z.of_nat i) col = Ret col' ∧ list_is col' (Some <$> cs ++ cs')
    ∧ Forall2 list_is cs' (filter nonempty (f <$> seq i n)).
Proof.
  intros [Hs Hc Hb]. revert i col cs. induction n as [|n IH]; intros i col cs Hn Hcol Hlen; cbn [foreach_loop seq].
  { exists col, []. by rewrite app_nil_r. }
  rewrite Nat2Z.id. destruct (lookup_lt_is_Some_2 (array s) i) as [c Hcell]; [lia|]. rewrite Hcell.
  specialize (Hc _ _ Hcell). replace (Z.of_nat i + 1)%Z with (Z.of_nat (S i)) by lia.
  rewrite fmap_cons, filter_cons. destruct c as [l|]; cbn [cell_is] in Hc.
  - destruct Hc as [Hl Hne]. rewrite decide_True by (by destruct (f i)).
    destruct (list_push_value_is col _ (Some l) Hcol) as (col1 & Hpush & Hcol1).
    { rewrite length_fmap. lia. }
    assert (range_cb col (Z.of_nat i) l = Ret (col1, SPA_ITERATOR_CONTINUE)) as -> by (unfold range_cb; by rewrite Hpush).
    cbn [mbind outcome_bind]. rewrite bool_decide_eq_false_2 by done.
    destruct (IH (S i) col1 (cs ++ [l])) as (col' & cs' & -> & Hcol' & Hcs'); [lia|by rewrite fmap_app|rewrite length_app; cbn; lia|].
    exists col', (l :: cs'). split; [done|]. split; [by rewrite <-app_assoc in Hcol'|by constructor].
  - rewrite Hc. rewrite decide_False by (by intros []). apply IH; [lia|done|lia].
Qed.

(** A range query returns the lists of the cells from [|b|] to [|e|], the
    end excluded, in ascending order of the absolute value — if the bounds are
    ascending and inside the array; otherwise it returns every list of the
    array, also for a range behind its end. *)
Theorem spa_range_correct s f b e :
  spa_is s f → (size s < 2 ^ 31)%Z → int_pos b → int_pos e →
  ∃ l cs, search_numeric_range_from_sparse_array (Some cast) (int_bytes b) (int_bytes e) s = Ret (l, s)
    ∧ list_is l (Some <$> cs)
    ∧ Forall2 list_is cs (filter nonempty (f <$>
        if bool_decide (Z.abs b < Z.abs e < size s)%Z
        then seq (Z.to_nat (Z.abs b)) (Z.to_nat (Z.abs e - Z.abs b)) else seq 0 (Z.to_nat (size s)))).
Proof.
  intros His Hsz Hb He. unfold search_numeric_range_from_sparse_array, spa_foreach_elements.
  rewrite !position_int by done. pose proof (spa_size _ _ His) as Hs.
  assert (∃ bn en, foreach_range (Z.abs b) (Z.abs e) s = (Z.of_nat bn, Z.of_nat en) ∧ bn ≤ en ≤ length (array s)
    ∧ (if bool_decide (Z.abs b < Z.abs e < size s)%Z
        then seq (Z.to_nat (Z.abs b)) (Z.to_nat (Z.abs e - Z.abs b)) else seq 0 (Z.to_nat (size s))) = seq bn (en - bn))
    as (bn & en & -> & Hbe & ->).
  { unfold foreach_range. destruct (decide (Z.abs b < Z.abs e < size s)%Z) as [Hin|Hout].
    - rewrite (bool_decide_eq_true_2 (Z.abs b < Z.abs e < size s)%Z) by done. rewrite !bool_decide_eq_false_2 by lia. cbn [orb].
      exists (Z.to_nat (Z.abs b)), (Z.to_nat (Z.abs e)). rewrite !i32_id by (unfold in_i32; lia).
      rewrite !Z2Nat.id by lia. split; [done|]. split; [lia|]. f_equal. lia.
    - rewrite (bool_decide_eq_false_2 (Z.abs b < Z.abs e < size s)%Z) by done. exists 0, (length (array s)).
      rewrite i32_id by (unfold in_i32; lia). rewrite Hs, Nat2Z.id, Nat.sub_0_r. split; [|split; [lia|done]].
      rewrite <-Hs. by repeat case_bool_decide; try done; cbn; lia. }
  replace (Z.to_nat (Z.of_nat en - Z.of_nat bn)) with (en - bn) by lia.
  destruct (range_loop_ok s f (en - bn) bn list_create []) as (l & cs & -> & Hl & Hcs); try done.
  - lia.
  - apply list_is_create.
  - cbn. unfold MAX_LEN. lia.
  - exists l, cs. by split_and!.
Qed.
End Index.

(** ** Witnesses *)
Lemma spa_index_refines_witness :
  ∃ s c, set_all (Some libhl_cast_int_to_int) (λ _, true) (int_keys [(5, 1); (-5, 2); (7, 3)]%Z) create_sparse_array_index = Ret (tt, s)
    ∧ search_number_from_sparse_array (Some libhl_cast_int_to_int) (int_bytes 5) s = Ret (c, s)
    ∧ cell_is c [Some 1; Some 2]%Z.
Proof.
  refine (spa_index_refines (λ _, true) [(5, 1); (-5, 2); (7, 3)]%Z 5 _ _ _).
  - repeat constructor; vm_compute; reflexivity.
  - split; vm_compute; reflexivity.
  - vm_compute. discriminate.
Defined.
Lemma spa_range_correct_witness :
  ∃ l cs, search_numeric_range_from_sparse_array (Some libhl_cast_int_to_int) (int_bytes 2000) (int_bytes 3000)
            (create_sparse_array_index : sparse_array Z) = Ret (l, create_sparse_array_index)
    ∧ list_is l (Some <$> cs)
    ∧ Forall2 list_is cs (filter nonempty ((λ _, []) <$>
        if bool_decide (2000 < 3000 < 1024)%Z then seq 2000 1000 else seq 0 1024)).
Proof.
  refine (spa_range_correct create_sparse_array_index (λ _, []) 2000 3000 _ _ _ _).
  - apply spa_is_create. vm_compute. discriminate.
  - vm_compute. reflexivity.
  - split; vm_compute; reflexivity.
  - split; vm_compute; reflexivity.
Defined.
