(* ===== verification/Trie.v ===== *)
(** * The trie (index/libhl/trie.c)

    Nodes live in a heap; a node has an array of 256 child pointers, kept as a
    finite map.  Keys are C strings, lists of bytes without the terminator.
    The code indexes the array with a (signed) char, so that a byte from 128 on
    reads in front of the array: a fault.  [free_value_cb] tells whether a
    callback is set; the values it is called on are logged.  Allocation
    succeeds; the copies made for [copy] and the performance counters are left
    out. *)
From S2P Require Import Prelude Heap.

Section Trie.
Context {V : Type}.
Record trie_node := mk_node {
  value : option V;
  vsize : Z;
  is_copy : bool;
  num_children : Z;
  child : gmap Z loc;
  parent : option loc;
  pidx : Z
}.
Record trie := mk_trie {
  nodes : gmap loc trie_node;
  root : loc;
  count : Z;
  node_count : Z;
  next_node : loc;
  freed : list V
}.
Definition empty_node : trie_node := mk_node None 0 false 0 ∅ None 0.
Definition set_child c p (n : trie_node) := mk_node (value n) (vsize n) (is_copy n) (num_children n) (partial_alter (λ _, p) c (child n)) (parent n) (pidx n).
Definition add_children z (n : trie_node) := mk_node (value n) (vsize n) (is_copy n) (num_children n + z) (child n) (parent n) (pidx n).
Definition set_parent p (n : trie_node) := mk_node (value n) (vsize n) (is_copy n) (num_children n) (child n) p (pidx n).
Definition set_val v sz cp (n : trie_node) := mk_node v sz cp (num_children n) (child n) (parent n) (pidx n).

Definition set_nodes h (t : trie) := mk_trie h (root t) (count t) (node_count t) (next_node t) (freed t).
Definition set_counts c n (t : trie) := mk_trie (nodes t) (root t) c n (next_node t) (freed t).

Definition ld (l : loc) : st trie trie_node := λ t, match nodes t !! l with Some n => Ret (n, t) | None => Fault end.
Definition upd (l : loc) (f : trie_node → trie_node) : st trie unit :=
  n ← ld l; st_modify (λ t, set_nodes (<[l := f n]> (nodes t)) t).
Definition free_node (l : loc) : st trie unit := _ ← ld l; st_modify (λ t, set_nodes (delete l (nodes t)) t).
Definition free_val (cb : bool) (n : trie_node) : st trie unit :=
  match value n with
  | Some v =>
      if is_copy n then mret tt
      else if cb then st_modify (λ t, mk_trie (nodes t) (root t) (count t) (node_count t) (next_node t) (freed t ++ [v]))
      else mret tt
  | None => mret tt
  end.

(** [node->child[(int)*key]] *)
Definition char_index (b : Z) : option Z := if bool_decide (b < 128)%Z then Some b else None.
Definition ld_child (n : trie_node) (b : Z) : st trie (option loc) :=
  match char_index b with Some c => mret (child n !! c) | None => st_fault end.

Definition trie_create : trie := mk_trie {[1%positive := empty_node]} 1 0 0 2 [].

(** ** Finding *)
Fixpoint find_loop (k : list Z) (node : option loc) : st trie (option loc) :=
  match k, node with
  | b :: k, Some l => n ← ld l; c ← ld_child n b; find_loop k c
  | _, _ => mret node
  end.
Definition trie_find_internal (k : list Z) : st trie (option loc) := t ← st_get; find_loop k (Some (root t)).
(** The value and its size, NULL for an absent node. *)
Definition trie_find (k : list Z) : st trie (option V * option Z) :=
  node ← trie_find_internal k;
  match node with
  | None => mret (None, None)
  | Some l => n ← ld l; mret (value n, Some (vsize n))
  end.

(** ** Insertion *)
Section Ops.
Context (free_value_cb : bool).

Definition trie_node_set_value (l : loc) (v : option V) (sz : Z) (copy : bool) : st trie unit :=
  n ← ld l; _ ← free_val free_value_cb n; upd l (set_val v sz copy).

(** The first loop of trie_insert: the node it stops at and the rest of the key. *)
Fixpoint locate (k : list Z) (node : loc) : st trie (loc * list Z) :=
  match k with
  | [] => mret (node, [])
  | b :: k' =>
      n ← ld node; c ← ld_child n b;
      match c with Some tmp => locate k' tmp | None => mret (node, k) end
  end.
Definition new_child (node : loc) (b : Z) : st trie loc :=
  _ ← upd node (add_children 1);
  match char_index b with
  | None => st_fault
  | Some c =>
      t ← st_get;
      let tmp := next_node t in
      _ ← st_modify (λ t, mk_trie (<[tmp := empty_node]> (nodes t)) (root t) (count t) (node_count t) (Pos.succ tmp) (freed t));
      _ ← upd node (set_child c (Some tmp));
      _ ← upd tmp (λ n, mk_node (value n) (vsize n) (is_copy n) (num_children n) (child n) (Some node) b);
      mret tmp
  end.
(** The second loop: the last node and the number of new nodes. *)
Fixpoint expand (k : list Z) (node : loc) (new_nodes : Z) : st trie (loc * Z) :=
  match k with
  | [] => mret (node, new_nodes)
  | b :: k => tmp ← new_child node b; expand k tmp (new_nodes + 1)%Z
  end.
Definition trie_insert (k : list Z) (v : option V) (sz : Z) (copy : bool) : st trie Z :=
  t ← st_get;
  '(node, rest) ← locate k (root t);
  '(node, new_nodes) ← expand rest node 0;
  _ ← (if bool_decide (new_nodes ≠ 0%Z) then st_modify (λ t, set_counts (count t + 1) (node_count t + new_nodes) t) else mret tt);
  _ ← trie_node_set_value node v sz copy;
  mret new_nodes.

Definition trie_find_or_insert (k : list Z) (v : option V) (sz : Z) (copy : bool) : st trie (Z * option (option V * Z)) :=
  node ← trie_find_internal k;
  match node with
  | None => r ← trie_insert k v sz copy; mret (r, None)
  | Some l => n ← ld l; mret (0%Z, Some (value n, vsize n))
  end.
Definition trie_find_and_insert (k : list Z) (v : option V) (sz : Z) (copy : bool) : st trie (Z * option (option V * Z)) :=
  node ← trie_find_internal k;
  match node with
  | Some l => n ← ld l; _ ← trie_node_set_value l v sz copy; mret (0%Z, Some (value n, vsize n))
  | None => r ← trie_insert k v sz copy; mret (r, None)
  end.

(** ** Removal *)

(** The while loop of trie_node_destroy: frees the ancestors without a value
    and with one child, and gives the first one kept and the index of its child. *)
Fixpoint free_up (fuel : nat) (par : option loc) (idx : Z) : st trie (option loc * Z) :=
  t ← st_get;
  match par with
  | Some p =>
      if bool_decide (p = root t) then mret (par, idx)
      else
        n ← ld p;
        if bool_decide (is_Some (value n)) || bool_decide (num_children n > 1)%Z then mret (par, idx)
        else match fuel with
             | O => st_fault
             | S fuel =>
                 _ ← free_node p;
                 _ ← st_modify (λ t, set_counts (count t) (node_count t - 1) t);
                 free_up fuel (parent n) (pidx n)
             end
  | None => mret (None, idx)
  end.
(** The for loop over the children, with the recursive call [destroy]. *)
Fixpoint destroy_children (destroy : loc → st trie unit) (node : loc) (idxs : list Z) : st trie unit :=
  match idxs with
  | [] => mret tt
  | i :: idxs =>
      n ← ld node;
      _ ← match child n !! i with
          | Some c =>
              _ ← upd c (set_parent None);
              _ ← destroy c;
              _ ← upd node (set_child i None);
              upd node (add_children (-1))
          | None => mret tt
          end;
      destroy_children destroy node idxs
  end.
(** From the for loop on. *)
Definition destroy_below (destroy : loc → st trie unit) (node : loc) (cb : bool) : st trie unit :=
  _ ← destroy_children destroy node (seqZ 0 256);
  n ← ld node;
  _ ← match value n with
      | Some _ => _ ← st_modify (λ t, set_counts (count t - 1) (node_count t) t); free_val cb n
      | None => mret tt
      end;
  _ ← st_modify (λ t, set_counts (count t) (node_count t - 1) t);
  free_node node.
Definition cut_child (par : option loc) (idx : Z) : st trie unit :=
  match par with
  | Some p => _ ← upd p (set_child idx None); upd p (add_children (-1))
  | None => mret tt
  end.
(** trie_node_destroy with the callback [cb]; [fuel] bounds the depth. *)
Fixpoint trie_node_destroy (fuel : nat) (node : loc) (cb : bool) : st trie unit :=
  match fuel with
  | O => st_fault
  | S fuel =>
      n ← ld node;
      t ← st_get;
      '(par, idx) ← free_up (size (nodes t)) (parent n) (pidx n);
      _ ← cut_child par idx;
      destroy_below (λ c, trie_node_destroy fuel c cb) node cb
  end.
Definition trie_destroy : st trie unit :=
  t ← st_get; trie_node_destroy (S (size (nodes t))) (root t) free_value_cb.

(** [want]: the caller passed a place for the value. *)
Definition trie_remove (k : list Z) (want : bool) : st trie (Z * option (option V * Z)) :=
  node ← trie_find_internal k;
  match node with
  | None => mret (0%Z, None)
  | Some l =>
      t ← st_get;
      let num_nodes := node_count t in
      n ← ld l;
      _ ← trie_node_destroy (S (size (nodes t))) l (if want then false else free_value_cb);
      t ← st_get;
      mret ((num_nodes - node_count t)%Z, Some (value n, vsize n))
  end.
End Ops.

(** ** Iteration *)
Definition COMMON_STR_LEN : Z := 4096.
(** trie_iterated_char_seq_t with the calls of the callback so far. *)
Record char_seq := mk_seq { seq_ : list Z; pos : Z; calls : list (list Z * V) }.
(** [junk i]: what realloc leaves at offset [i] of a new block. *)
Context (junk : nat → Z).
Definition set_cpos p (x : char_seq) := mk_seq (seq_ x) p (calls x).
Definition grow_seq (x : char_seq) : char_seq :=
  if bool_decide (Z.of_nat (length (seq_ x)) <= pos x)%Z
  then mk_seq (seq_ x ++ (junk <$> seq (length (seq_ x)) (length (seq_ x)))) (pos x) (calls x) else x.
Definition put_char (b : Z) (x : char_seq) : outcome char_seq :=
  if bool_decide (0 <= pos x < Z.of_nat (length (seq_ x)))%Z
  then Ret (mk_seq (<[Z.to_nat (pos x) := b]> (seq_ x)) (pos x) (calls x)) else Fault.
Definition call (v : V) (x : char_seq) : char_seq := mk_seq (seq_ x) (pos x) (calls x ++ [(cstr_of (seq_ x), v)]).

(** The for loop over the children of [n], with the recursive call [iterate]. *)
Fixpoint iterate_children (iterate : loc → char_seq → outcome (Z * char_seq)) (n : trie_node) (idxs : list Z)
    (num_visited_child rst : Z) (x : char_seq) : outcome (Z * char_seq) :=
  match idxs with
  | [] => Ret (rst, x)
  | i :: idxs =>
      match child n !! i with
      | Some c =>
          '(r, x) ← iterate c (set_cpos (u64 (pos x + 1)) x);
          let x := set_cpos (u64 (pos x - 1)) x in
          if bool_decide (num_visited_child + 1 >= num_children n)%Z then Ret ((rst + r)%Z, x)
          else iterate_children iterate n idxs (num_visited_child + 1)%Z (rst + r)%Z x
      | None => iterate_children iterate n idxs num_visited_child rst x
      end
  end.
Fixpoint trie_node_iterate (fuel : nat) (t : trie) (node : loc) (x : char_seq) : outcome (Z * char_seq) :=
  match fuel with
  | O => Fault
  | S fuel =>
      n ← deref (nodes t !! node);
      let x := grow_seq x in
      x ← (if bool_decide (pidx n > 0)%Z then put_char (pidx n) x else Ret x);
      let '(rst, x) := match value n with Some v => (1%Z, call v x) | None => (0%Z, x) end in
      iterate_children (trie_node_iterate fuel t) n (seqZ 0 256) 0 rst x
  end.
Definition new_seq (p : Z) : char_seq := mk_seq (replicate (Z.to_nat COMMON_STR_LEN) 0%Z) p [].
(** Both return the count and the calls made. *)
Definition trie_iter_all (t : trie) : outcome (Z * list (list Z * V)) :=
  '(rst, x) ← trie_node_iterate (S (size (nodes t))) t (root t) (new_seq (u64 (-1)));
  Ret (rst, calls x).
(** The for loop over the prefix; [None] when a child is missing. *)
Fixpoint follow_prefix (t : trie) (prefix : list Z) (node : loc) (x : char_seq) : outcome (option (loc * char_seq)) :=
  match prefix with
  | [] => Ret (Some (node, x))
  | b :: prefix =>
      n ← deref (nodes t !! node);
      match char_index b with
      | None => Fault
      | Some c =>
          match child n !! c with
          | None => Ret None
          | Some node => x ← put_char b x; follow_prefix t prefix node (set_cpos (pos x + 1) x)
          end
      end
  end.
Definition trie_iter_prefix (t : trie) (prefix : list Z) : outcome (Z * list (list Z * V)) :=
  r ← follow_prefix t prefix (root t) (new_seq 0);
  match r with
  | None => Ret (0%Z, [])
  | Some (node, x) =>
      n ← deref (nodes t !! node);
      let '(rst, x) := match value n with Some v => (1%Z, call v x) | None => (0%Z, x) end in
      '(r, x) ← trie_node_iterate (S (size (nodes t))) t node x;
      Ret ((rst + r)%Z, calls x)
  end.
End Trie.
Arguments trie_node : clear implicits.
Arguments trie : clear implicits.
Arguments char_seq : clear implicits.
