(* ===== verification/TrieRep.v ===== *)
(** * The trie: nodes and paths

    [trie_is t paths]: the nodes of [t] are those at the ends of [paths], a set
    of byte strings closed under prefixes. *)
From S2P Require Import Prelude Heap Trie.

Section Rep.
Context {V : Type}.
Implicit Types (t : trie V) (paths : gmap (list Z) loc) (p q k : list Z) (l : loc).

(** Keys the signed index handles. *)
Definition ascii (b : Z) : Prop := (0 < b < 128)%Z.

(** The node [n] ends the path [p]. *)
Record node_at paths p (n : trie_node V) : Prop := {
  na_child c : child n !! c = paths !! (p ++ [c]);
  na_pidx : pidx n = default 0%Z (last p);
  na_parent q c : p = q ++ [c] → parent n = paths !! q;
  na_top : p = [] → parent n = None;
  na_num : num_children n = Z.of_nat (size (child n))
}.
Record trie_is t paths : Prop := {
  ti_root : paths !! [] = Some (root t);
  ti_inj p q l : paths !! p = Some l → paths !! q = Some l → p = q;
  ti_node p l : paths !! p = Some l → ∃ n, nodes t !! l = Some n ∧ node_at paths p n;
  ti_dom l n : nodes t !! l = Some n → ∃ p, paths !! p = Some l;
  ti_closed p c l : paths !! (p ++ [c]) = Some l → is_Some (paths !! p) ∧ ascii c;
  ti_fresh l : (next_node t ≤ l)%positive → nodes t !! l = None
}.
(** The value stored under a key. *)
Definition val_at t paths k : option V := l ← paths !! k; n ← nodes t !! l; value n.

Lemma trie_is_create : trie_is trie_create {[[] := 1%positive]}.
Proof.
  split; cbn.
  - by rewrite lookup_singleton_eq.
  - intros p q l [<- _]%lookup_singleton_Some [<- _]%lookup_singleton_Some. done.
  - intros p l [<- <-]%lookup_singleton_Some. exists empty_node. rewrite lookup_singleton_eq. split; [done|].
    split; cbn; try done; [by intros c; rewrite lookup_singleton_ne|]. intros q c Hq. by destruct q.
  - intros l n [<- _]%lookup_singleton_Some. exists []. by rewrite lookup_singleton_eq.
  - intros p c l [Hp _]%lookup_singleton_Some. by destruct p.
  - intros l Hl. apply lookup_singleton_ne. lia.
Qed.

(** ** Descending *)
Lemma char_index_ascii b : ascii b → char_index b = Some b.
Proof. unfold ascii, char_index. intros. by rewrite bool_decide_eq_true_2 by lia. Qed.
Lemma ti_prefix t paths p q : trie_is t paths → is_Some (paths !! (p ++ q)) → is_Some (paths !! p).
Proof.
  intros Ht. induction q as [|c q IH] using rev_ind; [by rewrite app_nil_r|]. rewrite app_assoc. intros [l Hl].
  apply IH. by apply (ti_closed _ _ Ht) in Hl as [? _].
Qed.
Lemma wp_ld_node l n (Q : trie_node V → trie V → Prop) t : nodes t !! l = Some n → Q n t → wp (ld l) Q t.
Proof. intros Hl HQ. unfold wp, ld. by rewrite Hl. Qed.
Lemma wp_ld_child n b (Q : option loc → trie V → Prop) t : ascii b → Q (child n !! b) t → wp (ld_child n b) Q t.
Proof. intros Hb HQ. unfold ld_child. by rewrite char_index_ascii. Qed.

Lemma find_loop_ok t paths k p node (Q : option loc → trie V → Prop) :
  trie_is t paths → Forall ascii k → node = paths !! p → Q (paths !! (p ++ k)) t → wp (find_loop k node) Q t.
Proof.
  intros Ht Hk. revert p node. induction Hk as [|b k Hb Hk IH]; intros p node -> HQ; cbn [find_loop].
  { rewrite app_nil_r in HQ. destruct (paths !! p); by apply wp_ret. }
  destruct (paths !! p) as [l|] eqn:Hp.
  - destruct (ti_node _ _ Ht _ _ Hp) as (n & Hn & Hna). apply wp_bind, (wp_ld_node l n); [done|].
    apply wp_bind, wp_ld_child; [done|]. apply (IH (p ++ [b])); [apply Hna|]. by rewrite <-app_assoc.
  - apply wp_ret. destruct (paths !! (p ++ b :: k)) eqn:Hpk; [|done].
    destruct (ti_prefix t paths p (b :: k) Ht) as [? ?]; [by rewrite Hpk|]. congruence.
Qed.
Lemma wp_find_internal t paths k (Q : option loc → trie V → Prop) :
  trie_is t paths → Forall ascii k → Q (paths !! k) t → wp (trie_find_internal k) Q t.
Proof.
  intros Ht Hk HQ. unfold trie_find_internal. apply wp_bind, wp_get.
  apply (find_loop_ok t paths k []); try done. symmetry. apply Ht.
Qed.

(** ** New nodes *)
Lemma wp_upd_node l f n (Q : unit → trie V → Prop) t :
  nodes t !! l = Some n → Q tt (set_nodes (<[l := f n]> (nodes t)) t) → wp (upd l f) Q t.
Proof. intros Hl HQ. unfold wp, upd, mbind, st_bind, ld. by rewrite Hl. Qed.

(** A new leaf below the node at [p]. *)
Lemma new_child_is t t' paths p b l n :
  trie_is t paths → ascii b → paths !! p = Some l → nodes t !! l = Some n → paths !! (p ++ [b]) = None →
  nodes t' = <[next_node t := mk_node None 0 false 0 ∅ (Some l) b]>
               (<[l := set_child b (Some (next_node t)) (add_children 1 n)]> (nodes t)) →
  root t' = root t → next_node t' = Pos.succ (next_node t) →
  trie_is t' (<[p ++ [b] := next_node t]> paths).
Proof.
  intros Ht Hb Hp Hn Hnone Hnodes Hroot Hnext. set (x := next_node t) in *. set (pb := p ++ [b]) in *.
  assert (nodes t !! x = None) as Hx by (by apply (ti_fresh _ _ Ht)).
  assert (x ≠ l) as Hxl by (intros ->; congruence).
  assert (∀ q l', paths !! q = Some l' → l' ≠ x) as Hfr.
  { intros q l' Hq ->. destruct (ti_node _ _ Ht _ _ Hq) as (? & ? & _). congruence. }
  assert (∀ q, q ≠ pb → <[pb := x]> paths !! q = paths !! q) as Hne by (intros; by rewrite lookup_insert_ne).
  assert (∀ q c, <[pb := x]> paths !! (q ++ [c]) = if decide (q = p ∧ c = b) then Some x else paths !! (q ++ [c])) as Hc.
  { intros q c. case_decide as H; [destruct H as [-> ->]; by rewrite lookup_insert_eq|]. apply Hne.
    intros [-> [= ->]]%app_inj_tail. naive_solver. }
  assert (pb ≠ []) as Hpb by (by destruct p).
  split.
  - rewrite Hne by done. rewrite Hroot. apply Ht.
  - intros q1 q2 l' [[<- <-]|[_ H1]]%lookup_insert_Some [[<- Heq]|[_ H2]]%lookup_insert_Some; try done.
    + by apply Hfr in H2.
    + subst. by apply Hfr in H1.
    + by eapply (ti_inj _ _ Ht).
  - intros q l' [[<- <-]|[Hq H1]]%lookup_insert_Some; rewrite Hnodes.
    + eexists. rewrite lookup_insert_eq. split; [done|]. split; cbn; try done.
      * intros c. rewrite lookup_empty, Hc. rewrite decide_False by (intros [Hpp _]; apply (f_equal length) in Hpp; unfold pb in Hpp; rewrite length_app in Hpp; cbn in Hpp; lia).
        destruct (paths !! (pb ++ [c])) eqn:H; [|done]. apply (ti_closed _ _ Ht) in H as [[? H] _]. congruence.
      * unfold pb. by rewrite last_snoc.
      * intros q c Hqc. unfold pb in Hqc. apply app_inj_tail in Hqc as [<- _]. rewrite Hne; [done|].
        intros Hpp. apply (f_equal length) in Hpp. unfold pb in Hpp. rewrite length_app in Hpp. cbn in Hpp. lia.
    + rewrite lookup_insert_ne by (symmetry; by eapply Hfr). destruct (decide (l' = l)) as [->|Hll].
      * assert (q = p) as -> by (by eapply (ti_inj _ _ Ht)). rewrite lookup_insert_eq. eexists. split; [done|].
        destruct (ti_node _ _ Ht _ _ Hp) as (n' & Hn' & Hna). rewrite Hn in Hn'. injection Hn' as <-. split; cbn.
        -- intros c. rewrite Hc. destruct (decide (c = b)) as [->|Hcb].
           ++ rewrite decide_True by done. by rewrite lookup_partial_alter_eq.
           ++ rewrite decide_False by naive_solver. rewrite lookup_partial_alter_ne by done. apply Hna.
        -- apply Hna.
        -- intros q c Hqc. rewrite Hne; [by eapply na_parent|]. intros ->. apply (f_equal length) in Hqc.
           unfold pb in Hqc. rewrite !length_app in Hqc. cbn in Hqc. lia.
        -- apply Hna.
        -- rewrite (na_num _ _ _ Hna). change (partial_alter (λ _, Some x) b (child n)) with (<[b := x]> (child n)).
           rewrite map_size_insert_None; [lia|]. rewrite (na_child _ _ _ Hna). done.
      * rewrite lookup_insert_ne by done. destruct (ti_node _ _ Ht _ _ H1) as (n' & Hn' & Hna). exists n'. split; [done|].
        split; try apply Hna.
        -- intros c. rewrite Hc. rewrite decide_False; [apply Hna|]. intros [-> _]. congruence.
        -- intros q' c Hqc. rewrite (na_parent _ _ _ Hna q' c Hqc). symmetry. apply Hne. intros ->.
           rewrite Hqc in H1. apply (ti_closed _ _ Ht) in H1 as [[? H1] _]. congruence.
  - intros l' n'. rewrite Hnodes. intros [[<- _]|[_ [[<- _]|[_ H]]%lookup_insert_Some]]%lookup_insert_Some.
    + exists pb. by rewrite lookup_insert_eq.
    + exists p. rewrite Hne; [done|]. intros Hpp. congruence.
    + apply (ti_dom _ _ Ht) in H as [q Hq]. exists q. rewrite Hne; [done|]. intros ->. congruence.
  - intros q c l'. rewrite Hc. case_decide as H.
    + destruct H as [-> ->]. intros _. split; [|done]. rewrite Hne; [by eexists|]. congruence.
    + intros Hq. apply (ti_closed _ _ Ht) in Hq as [[? Hq] ?]. split; [|done]. rewrite lookup_insert_is_Some'. right. by eexists.
  - intros l' Hl'. rewrite Hnext in Hl'. rewrite Hnodes. rewrite !lookup_insert_ne; [apply (ti_fresh _ _ Ht); fold x; lia| |lia].
    intros <-. rewrite (ti_fresh _ _ Ht) in Hn; [done|]. fold x. lia.
Qed.

Lemma wp_new_child t paths p b l (Q : loc → trie V → Prop) :
  trie_is t paths → ascii b → paths !! p = Some l → paths !! (p ++ [b]) = None →
  (∀ t', trie_is t' (<[p ++ [b] := next_node t]> paths) →
     (∀ q, val_at t' (<[p ++ [b] := next_node t]> paths) q = val_at t paths q) →
     count t' = count t → node_count t' = node_count t → root t' = root t → Q (next_node t) t') →
  wp (new_child l b) Q t.
Proof.
  intros Ht Hb Hp Hnone HQ. destruct (ti_node _ _ Ht _ _ Hp) as (n & Hn & _). set (x := next_node t) in *.
  assert (nodes t !! x = None) as Hx by (by apply (ti_fresh _ _ Ht)). assert (l ≠ x) as Hlx by congruence.
  unfold new_child. apply wp_bind, (wp_upd_node l _ n); [done|]. rewrite char_index_ascii by done.
  apply wp_bind, wp_get. cbn [next_node set_nodes]. fold x. apply wp_bind, wp_modify, wp_bind.
  eapply wp_upd_node; [cbn; rewrite lookup_insert_ne by done; apply lookup_insert_eq|].
  apply wp_bind. eapply wp_upd_node; [cbn; rewrite lookup_insert_ne by done; apply lookup_insert_eq|]. apply wp_ret.
  set (t' := set_nodes _ _).
  assert (nodes t' = <[x := mk_node None 0 false 0 ∅ (Some l) b]> (<[l := set_child b (Some x) (add_children 1 n)]> (nodes t))) as Hnodes.
  { unfold t'. cbn. apply map_eq. intros j. rewrite !lookup_insert. by repeat case_decide; simplify_eq. }
  apply HQ; try done; [by eapply new_child_is|]. intros q. unfold val_at. rewrite Hnodes.
  destruct (decide (q = p ++ [b])) as [->|Hne].
  - rewrite lookup_insert_eq, Hnone. cbn. by rewrite lookup_insert_eq.
  - rewrite lookup_insert_ne by done. destruct (paths !! q) as [l'|] eqn:Hq; [|done]. cbn.
    assert (l' ≠ x) by (intros ->; destruct (ti_node _ _ Ht _ _ Hq) as (? & ? & _); congruence).
    rewrite lookup_insert_ne by done. destruct (decide (l' = l)) as [->|]; [by rewrite lookup_insert_eq, Hn|by rewrite lookup_insert_ne].
Qed.

Lemma wp_expand k p l nn t paths (Q : loc * Z → trie V → Prop) :
  trie_is t paths → Forall ascii k → paths !! p = Some l → (∀ b k', k = b :: k' → paths !! (p ++ [b]) = None) →
  (∀ l' t' paths', trie_is t' paths' → paths' !! (p ++ k) = Some l' → (∀ q, val_at t' paths' q = val_at t paths q) →
     count t' = count t → node_count t' = node_count t → Q (l', nn + Z.of_nat (length k))%Z t') →
  wp (expand k l nn) Q t.
Proof.
  intros Ht Hk. revert p l nn t paths Ht. induction Hk as [|b k Hb Hk IH]; intros p l nn t paths Ht Hp Hnone HQ; cbn [expand].
  { apply wp_ret. replace nn with (nn + Z.of_nat (length (@nil Z)))%Z by (cbn; lia). eapply HQ; try done. by rewrite app_nil_r. }
  apply wp_bind, (wp_new_child t paths p b l); try done; [by eapply Hnone|]. intros t1 Ht1 Hv1 Hc1 Hn1 _.
  apply (IH (p ++ [b]) _ _ t1 _ Ht1); [by rewrite lookup_insert_eq| |].
  - intros b' k' _. rewrite lookup_insert_ne by (intros Heq; apply (f_equal length) in Heq; rewrite !length_app in Heq; cbn in Heq; lia).
    destruct (paths !! ((p ++ [b]) ++ [b'])) eqn:H; [|done]. apply (ti_closed _ _ Ht) in H as [[? H] _].
    rewrite (Hnone b k eq_refl) in H. done.
  - intros l' t' paths' Ht' Hl' Hv' Hc' Hn'. rewrite <-app_assoc in Hl'.
    replace (nn + 1 + Z.of_nat (length k))%Z with (nn + Z.of_nat (length (b :: k)))%Z by (cbn; lia).
    eapply HQ; try done; [intros q; by rewrite Hv'|congruence..].
Qed.

Lemma wp_locate k p l t paths (Q : loc * list Z → trie V → Prop) :
  trie_is t paths → Forall ascii k → paths !! p = Some l →
  (∀ k1 k2 l', k = k1 ++ k2 → paths !! (p ++ k1) = Some l' → (∀ b k', k2 = b :: k' → paths !! ((p ++ k1) ++ [b]) = None) →
     Q (l', k2) t) → wp (locate k l) Q t.
Proof.
  intros Ht Hk. revert p l. induction Hk as [|b k Hb Hk IH]; intros p l Hp HQ; cbn [locate].
  { apply wp_ret, (HQ []); [done|by rewrite app_nil_r|done]. }
  destruct (ti_node _ _ Ht _ _ Hp) as (n & Hn & Hna). apply wp_bind, (wp_ld_node l n); [done|]. apply wp_bind, wp_ld_child; [done|].
  rewrite (na_child _ _ _ Hna). destruct (paths !! (p ++ [b])) as [tmp|] eqn:Hpb.
  - apply (IH (p ++ [b])); [done|]. intros k1 k2 l' -> Hl' Hnext. apply (HQ (b :: k1)); [done|by rewrite <-app_assoc in Hl'|].
    intros b' k' Hk2. specialize (Hnext b' k' Hk2). by rewrite <-(app_assoc p) in Hnext.
  - apply wp_ret, (HQ []); [done|by rewrite app_nil_r|]. intros b' k' [= -> ->]. by rewrite app_nil_r.
Qed.

(** Storing a value. *)
Lemma wp_set_value fcb k l v sz cp t paths (Q : unit → trie V → Prop) :
  trie_is t paths → paths !! k = Some l →
  (∀ t', trie_is t' paths → (∀ q, val_at t' paths q = if decide (q = k) then v else val_at t paths q) →
     count t' = count t → node_count t' = node_count t → Q tt t') →
  wp (trie_node_set_value fcb l v sz cp) Q t.
Proof.
  intros Ht Hk HQ. destruct (ti_node _ _ Ht _ _ Hk) as (n & Hn & Hna). unfold trie_node_set_value.
  apply wp_bind, (wp_ld_node l n); [done|]. apply wp_bind.
  assert (∀ t1, nodes t1 = nodes t → root t1 = root t → next_node t1 = next_node t → count t1 = count t → node_count t1 = node_count t →
    wp (upd l (set_val v sz cp)) Q t1) as Hset.
  { intros t1 E1 E2 E3 E4 E5. eapply wp_upd_node; [by rewrite E1|]. apply HQ; cbn; try done.
    - split; cbn; rewrite ?E1, ?E2, ?E3; try apply Ht.
      + intros p l' Hp. destruct (decide (l' = l)) as [->|Hne].
        * rewrite lookup_insert_eq. eexists. split; [done|]. assert (p = k) as -> by (by eapply (ti_inj _ _ Ht)). by destruct Hna.
        * rewrite lookup_insert_ne by done. by apply Ht.
      + intros l' n' [[<- _]|[_ H]]%lookup_insert_Some; [by exists k|by apply (ti_dom _ _ Ht l' n')].
      + intros l' Hl'. rewrite lookup_insert_ne; [by apply Ht|]. intros <-. rewrite (ti_fresh _ _ Ht) in Hn; done.
    - intros q. unfold val_at. cbn. rewrite E1. case_decide as Hq; [subst; rewrite Hk; cbn; by rewrite lookup_insert_eq|].
      destruct (paths !! q) as [l'|] eqn:Hl'; [|done]. cbn. rewrite lookup_insert_ne; [done|]. intros <-. apply Hq. by eapply (ti_inj _ _ Ht). }
  unfold free_val. destruct (value n); [|by apply wp_ret, Hset]. destruct (is_copy n); [by apply wp_ret, Hset|].
  destruct fcb; [apply wp_modify|apply wp_ret]; by apply Hset.
Qed.

Lemma wp_insert fcb k v sz cp t paths (Q : Z → trie V → Prop) :
  trie_is t paths → Forall ascii k →
  (∀ r t' paths', trie_is t' paths' → (∀ q, val_at t' paths' q = if decide (q = k) then v else val_at t paths q) →
     (r = 0 ↔ is_Some (paths !! k))%Z → (0 ≤ r)%Z →
     count t' = (if bool_decide (r ≠ 0%Z) then count t + 1 else count t)%Z → node_count t' = (node_count t + r)%Z → Q r t') →
  wp (trie_insert fcb k v sz cp) Q t.
Proof.
  intros Ht Hk HQ. unfold trie_insert. apply wp_bind, wp_get, wp_bind.
  apply (wp_locate k [] (root t) t paths); try done; [apply Ht|]. intros k1 k2 l -> Hl Hnext. cbn [app] in *.
  apply Forall_app in Hk as [Hk1 Hk2]. apply wp_bind. apply (wp_expand k2 k1 l 0 t paths); try done.
  intros l' t1 paths1 Ht1 Hl' Hv1 Hc1 Hn1. rewrite Z.add_0_l. set (r := Z.of_nat (length k2)).
  assert (r = 0%Z ↔ is_Some (paths !! (k1 ++ k2))) as Hr.
  { unfold r. destruct k2 as [|b k2]; cbn; [rewrite app_nil_r, Hl; split; [by eexists|done]|]. split; [lia|].
    intros Hs. rewrite (app_assoc k1 [b] k2 : k1 ++ b :: k2 = _) in Hs. apply (ti_prefix t paths _ _ Ht) in Hs as [? Hs].
    by rewrite (Hnext b k2 eq_refl) in Hs. }
  apply wp_bind.
  assert (∀ t2, nodes t2 = nodes t1 → root t2 = root t1 → next_node t2 = next_node t1 →
    count t2 = (if bool_decide (r ≠ 0%Z) then count t + 1 else count t)%Z → node_count t2 = (node_count t + r)%Z →
    wp (_ ← trie_node_set_value fcb l' v sz cp; mret r) Q t2) as Hrest.
  { intros t2 E1 E2 E3 E4 E5. assert (trie_is t2 paths1) as Ht2.
    { destruct Ht1 as [H1 H2 H3 H4 H5 H6]. split; rewrite ?E1, ?E2, ?E3; done. }
    apply wp_bind, (wp_set_value fcb (k1 ++ k2) l' v sz cp t2 paths1); try done. intros t3 Ht3 Hv3 Hc3 Hn3. apply wp_ret.
    eapply HQ; [exact Ht3| |done|unfold r; lia|congruence|congruence].
    intros q. rewrite Hv3. destruct (decide (q = k1 ++ k2)); [done|]. rewrite <-Hv1. unfold val_at. by rewrite E1. }
  case_bool_decide as Hz; [apply wp_modify|apply wp_ret]; apply Hrest; try done; cbn; try congruence. lia.
Qed.
End Rep.
