(* ===== verification/TrieRemove.v ===== *)
(** * The trie: removal drops a subtree; iteration *)
From S2P Require Import Prelude Heap Trie TrieRep.

Section Remove.
Context {V : Type}.
Implicit Types (t : trie V) (paths : gmap (list Z) loc) (p q k : list Z) (l : loc).

(** Paths name each node once. *)
Definition named paths : Prop := ∀ p q l, paths !! p = Some l → paths !! q = Some l → p = q.
(** The nodes at and below [p] are in the heap with their children. *)
Definition intact t paths p : Prop :=
  ∀ q l, p `prefix_of` q → paths !! q = Some l → ∃ n, nodes t !! l = Some n ∧ ∀ c, child n !! c = paths !! (q ++ [c]).
Definition below paths p l : Prop := ∃ q, p `prefix_of` q ∧ paths !! q = Some l.
(** [t'] is [t] without the nodes that satisfy [D]. *)
Record without (D : loc → Prop) t t' : Prop := {
  wo_gone l : D l → nodes t' !! l = None;
  wo_kept l : ¬ D l → nodes t' !! l = nodes t !! l;
  wo_root : root t' = root t;
  wo_next : next_node t' = next_node t
}.

Lemma prefix_split p c d q : p ++ [c] `prefix_of` q → p ++ [d] `prefix_of` q → c = d.
Proof. intros [x ->] [y Hy]. rewrite <-!app_assoc in Hy. apply app_inv_head in Hy. by injection Hy. Qed.
Lemma below_self paths p l : paths !! p = Some l → below paths p l.
Proof. intros Hl. by exists p. Qed.
Lemma below_child paths p c l : below paths (p ++ [c]) l → below paths p l.
Proof. intros (q & Hq & Hl). exists q. split; [|done]. etrans; [|exact Hq]. by eexists. Qed.
(** A node is at [p] or below a child. *)
Lemma below_inv paths p l : below paths p l → paths !! p = Some l ∨ ∃ c, below paths (p ++ [c]) l.
Proof.
  intros (q & [[|c x] ->] & Hl); [left; by rewrite app_nil_r in Hl|right]. exists c, (p ++ c :: x). split; [|done].
  exists x. by rewrite <-app_assoc.
Qed.
Lemma below_not_self paths p c l : named paths → paths !! p = Some l → ¬ below paths (p ++ [c]) l.
Proof.
  intros Hnm Hl (q & [x ->] & Hq). pose proof (Hnm _ _ _ Hl Hq) as Heq. apply (f_equal length) in Heq.
  rewrite !length_app in Heq. cbn in Heq. lia.
Qed.
Lemma below_disjoint paths p c d l : named paths → c ≠ d → below paths (p ++ [c]) l → ¬ below paths (p ++ [d]) l.
Proof.
  intros Hnm Hcd (q & Hq & Hl) (q' & Hq' & Hl'). assert (q = q') as <- by (by eapply Hnm). by apply Hcd, (prefix_split p c d q).
Qed.

Definition closed paths : Prop := ∀ p q, is_Some (paths !! (p ++ q)) → is_Some (paths !! p).
Lemma below_closed paths p l : closed paths → below paths p l → is_Some (paths !! p).
Proof. intros Hcl (q & [x ->] & Hl). eapply Hcl. by eexists. Qed.

(** What the recursive call does for the nodes below [p]. *)
Definition destroys (destroy : loc → st (trie V) unit) paths p : Prop :=
  ∀ l t n (Q : unit → trie V → Prop), paths !! p = Some l → nodes t !! l = Some n → parent n = None → intact t paths p →
    (∀ t', without (below paths p) t t' → Q tt t') → wp (destroy l) Q t.

(** The loop over the indices [idxs] of the node at [p]. *)
Lemma destroy_children_ok destroy paths p l idxs t n (Q : unit → trie V → Prop) :
  named paths → closed paths → NoDup idxs → (∀ c, c ∈ idxs → destroys destroy paths (p ++ [c])) →
  paths !! p = Some l → nodes t !! l = Some n →
  (∀ c, c ∈ idxs → child n !! c = paths !! (p ++ [c]) ∧ intact t paths (p ++ [c])) →
  (∀ t' n', (∀ c l', c ∈ idxs → below paths (p ++ [c]) l' → nodes t' !! l' = None) →
     (∀ l', l' ≠ l → (∀ c, c ∈ idxs → ¬ below paths (p ++ [c]) l') → nodes t' !! l' = nodes t !! l') →
     nodes t' !! l = Some n' → root t' = root t → next_node t' = next_node t → Q tt t') →
  wp (destroy_children destroy l idxs) Q t.
Proof.
  intros Hnm Hclo Hnd Hd Hl. revert t n. induction Hnd as [|i idxs Hi Hnd IH]; intros t n Hn Hin HQ; cbn [destroy_children].
  { apply wp_ret. eapply HQ; try done. intros c l' Hc. by apply not_elem_of_nil in Hc. }
  apply wp_bind, (wp_ld_node l n); [done|]. destruct (Hin i ltac:(by left)) as [Hchild Hint].
  assert (∀ c, c ∈ idxs → destroys destroy paths (p ++ [c])) as Hd' by (intros; apply Hd; by right).
  rewrite Hchild. apply wp_bind. destruct (paths !! (p ++ [i])) as [c|] eqn:Hc.
  - destruct (Hint _ _ ltac:(done) Hc) as (nc & Hnc & Hcc).
    assert (c ≠ l) as Hcl by (intros ->; eapply below_not_self; [exact Hnm|exact Hl|by apply below_self]).
    apply wp_bind. eapply wp_upd_node; [done|]. apply wp_bind. set (t1 := set_nodes _ _).
    assert (∀ l', l' ≠ c → nodes t1 !! l' = nodes t !! l') as H1 by (intros; unfold t1; cbn; by rewrite lookup_insert_ne).
    eapply (Hd i ltac:(by left) c t1 (set_parent None nc)); [done|unfold t1; cbn; apply lookup_insert_eq|done| |].
    { intros q l' Hq Hl'. destruct (decide (l' = c)) as [->|Hne].
      - exists (set_parent None nc). unfold t1. cbn. rewrite lookup_insert_eq. split; [done|]. cbn.
        by assert (q = p ++ [i]) as -> by (by eapply Hnm).
      - rewrite H1 by done. by apply Hint. }
    intros t2 [Hgone Hkept Hr Hnx]. assert (nodes t2 !! l = Some n) as Hn2.
    { rewrite Hkept; [by rewrite H1|]. by apply below_not_self. }
    apply wp_bind. eapply wp_upd_node; [done|]. eapply wp_upd_node; [cbn; apply lookup_insert_eq|]. set (t3 := set_nodes _ _).
    assert (∀ l', l' ≠ l → nodes t3 !! l' = nodes t2 !! l') as H3 by (intros; unfold t3; cbn; by rewrite !lookup_insert_ne).
    assert (∀ l', l' ≠ l → ¬ below paths (p ++ [i]) l' → nodes t3 !! l' = nodes t !! l') as H30.
    { intros l' Hl' Hb. rewrite H3, Hkept by done. apply H1. intros ->. by apply Hb, below_self. }
    eapply (IH Hd' t3); [unfold t3; cbn; apply lookup_insert_eq| |].
    + intros d Hdin. cbn. assert (d ≠ i) as Hdi by (by intros ->). rewrite lookup_partial_alter_ne by done.
      destruct (Hin d ltac:(by right)) as [Hcd Hintd]. split; [done|]. intros q l' Hq Hl'.
      assert (below paths (p ++ [d]) l') as Hbl by (by exists q).
      rewrite H30; [by apply Hintd| |by apply (below_disjoint paths p d i)]. intros ->. by apply (below_not_self paths p d l) in Hbl.
    + intros t' n' Hg' Hk' Hn' Hr' Hx'. apply (HQ t' n'); [| |done|by rewrite Hr'|by rewrite Hx'].
      * intros d l' [->|Hdin]%elem_of_cons Hb; [|by eapply Hg'].
        assert (l' ≠ l) as Hll by (intros ->; by apply (below_not_self paths p i l) in Hb). rewrite Hk'; [by rewrite H3, Hgone|done|].
        intros e Hein. apply (below_disjoint paths p i e); [done| |done]. by intros ->.
      * intros l' Hll Hno. rewrite Hk'; [|done|intros d Hdin; apply Hno; by right]. apply H30; [done|]. apply Hno. by left.
  - apply wp_ret. eapply (IH Hd' t n Hn); [intros d Hdin; apply Hin; by right|].
    intros t' n' Hg' Hk' Hn' Hr' Hx'. apply (HQ t' n'); try done.
    + intros d l' [->|Hdin]%elem_of_cons Hb; [|by eapply Hg'].
      apply (below_closed _ _ _ Hclo) in Hb as [? Hb]. congruence.
    + intros l' Hll Hno. apply Hk'; [done|]. intros d Hdin. apply Hno. by right.
Qed.

Lemma wp_free_val cb n (Q : unit → trie V → Prop) t :
  (∀ t', nodes t' = nodes t → root t' = root t → next_node t' = next_node t → Q tt t') → wp (free_val cb n) Q t.
Proof.
  intros HQ. unfold free_val. destruct (value n); [|by apply wp_ret, HQ].
  destruct (is_copy n); [by apply wp_ret, HQ|]. destruct cb; [by apply wp_modify, HQ|by apply wp_ret, HQ].
Qed.

(** All children have indices of the array. *)
Definition ascii_paths paths : Prop := ∀ p c l, paths !! (p ++ [c]) = Some l → ascii c.

Lemma destroy_below_ok destroy paths p l cb t (Q : unit → trie V → Prop) :
  named paths → closed paths → ascii_paths paths → (∀ c, destroys destroy paths (p ++ [c])) →
  paths !! p = Some l → intact t paths p →
  (∀ t', without (below paths p) t t' → Q tt t') → wp (destroy_below destroy l cb) Q t.
Proof.
  intros Hnm Hcl Has Hd Hl Hint HQ. destruct (Hint p l ltac:(done) Hl) as (n & Hn & Hch). unfold destroy_below. apply wp_bind.
  apply (destroy_children_ok destroy paths p l (seqZ 0 256) t n); try done; [apply NoDup_seqZ|..].
  { intros c _. split; [done|]. intros q l' Hq. apply Hint. etrans; [|exact Hq]. by eexists. }
  intros t1 n1 Hg Hk Hn1 Hr Hx. apply wp_bind, (wp_ld_node l n1); [done|]. apply wp_bind.
  assert (∀ c l', below paths (p ++ [c]) l' → c ∈ seqZ 0 256) as Hidx.
  { intros c l' [? Hc]%(below_closed _ _ _ Hcl). apply Has in Hc. unfold ascii in Hc. apply elem_of_seqZ. lia. }
  assert (∀ t2, nodes t2 = nodes t1 → root t2 = root t1 → next_node t2 = next_node t1 →
    wp (_ ← st_modify (λ t, set_counts (count t) (node_count t - 1) t); free_node l) Q t2) as Hrest.
  { intros t2 E1 E2 E3. apply wp_bind, wp_modify. unfold free_node. apply wp_bind, (wp_ld_node l n1); [cbn; by rewrite E1|].
    apply wp_modify, HQ. split; cbn; rewrite ?E1, ?E2, ?E3; try done.
    - intros l' [Hl'|[c Hc]]%below_inv; [assert (l' = l) as -> by congruence; apply lookup_delete_eq|].
      rewrite lookup_delete_ne; [by eapply Hg; [by eapply Hidx|done]|]. intros <-. by apply (below_not_self paths p c l) in Hc.
    - intros l' Hno. assert (l' ≠ l) as Hll by (intros ->; by apply Hno, below_self). rewrite lookup_delete_ne by done.
      apply Hk; [done|]. intros c _ Hb. by apply Hno, below_child with c. }
  destruct (value n1); [|by apply wp_ret, Hrest]. apply wp_bind, wp_modify, wp_free_val. intros t2 E1 E2 E3. by apply Hrest.
Qed.

Lemma node_destroy_ok fuel paths p cb :
  named paths → closed paths → ascii_paths paths →
  (∀ q, p `prefix_of` q → is_Some (paths !! q) → length q < length p + fuel) →
  destroys (λ l, trie_node_destroy fuel l cb) paths p.
Proof.
  intros Hnm Hcl Has. revert p. induction fuel as [|fuel IH]; intros p Hlen l t n Q Hl Hn Hpar Hint HQ; cbn [trie_node_destroy].
  { specialize (Hlen p ltac:(done) ltac:(by eexists)). lia. }
  apply wp_bind, (wp_ld_node l n); [done|]. apply wp_bind, wp_get, wp_bind. rewrite Hpar.
  assert (free_up (size (nodes t)) None (pidx n) t = Ret ((None, pidx n), t)) as Hfu by (by destruct (size (nodes t))).
  unfold wp at 1. rewrite Hfu. apply wp_bind. cbn [cut_child]. apply wp_ret.
  apply (destroy_below_ok _ paths p l cb t); try done. intros c. apply IH. intros q Hq Hs.
  rewrite length_app. cbn. specialize (Hlen q ltac:(etrans; [by eexists|exact Hq]) Hs). lia.
Qed.

(** ** The ancestors *)
Lemma path_length t paths p l : trie_is t paths → paths !! p = Some l → length p < size (nodes t).
Proof.
  intros Ht Hl. assert (∀ i, i ≤ length p → is_Some (paths !! take i p)) as Hpre.
  { intros i Hi. apply (ti_prefix t paths (take i p) (drop i p) Ht). rewrite take_drop. by eexists. }
  set (ls := (λ i, default l (paths !! take i p)) <$> seq 0 (S (length p))).
  assert (length ls = S (length p)) as Hlen by (unfold ls; by rewrite length_fmap, length_seq).
  assert (NoDup ls) as Hnd.
  { unfold ls. apply NoDup_alt. intros i j x Hi Hj. rewrite list_lookup_fmap in Hi, Hj.
    apply fmap_Some in Hi as (i' & [-> Hi']%lookup_seq & ->), Hj as (j' & [-> Hj']%lookup_seq & Hx). cbn in *.
    destruct (Hpre i ltac:(lia)) as [li Hli], (Hpre j ltac:(lia)) as [lj Hlj]. rewrite Hli, Hlj in Hx. cbn in Hx. subst lj.
    pose proof (ti_inj _ _ Ht _ _ _ Hli Hlj) as Heq. apply (f_equal length) in Heq. rewrite !length_take in Heq. lia. }
  rewrite <-(size_dom (D := gset loc)). unfold lt. rewrite <-Hlen, <-(size_list_to_set (C := gset loc)) by done.
  apply subseteq_size. intros x (i & -> & [? Hi]%elem_of_seq)%elem_of_list_to_set%list_elem_of_fmap.
  destruct (Hpre i ltac:(lia)) as [li Hli]. rewrite Hli. cbn. destruct (ti_node _ _ Ht _ _ Hli) as (n & Hn & _).
  apply elem_of_dom. by eexists.
Qed.

Lemma ti_named t paths : trie_is t paths → named paths.
Proof. intros Ht p q l. apply Ht. Qed.
Lemma ti_closed_all t paths : trie_is t paths → closed paths.
Proof. intros Ht p q. by apply (ti_prefix t). Qed.
Lemma ti_ascii t paths : trie_is t paths → ascii_paths paths.
Proof. intros Ht p c l Hl. by apply (ti_closed _ _ Ht) in Hl as [_ ?]. Qed.
Lemma ti_value t paths p l n : trie_is t paths → paths !! p = Some l → nodes t !! l = Some n → val_at t paths p = value n.
Proof. intros Ht Hl Hn. unfold val_at. rewrite Hl. cbn. by rewrite Hn. Qed.

(** The nodes strictly between the child [c] of [p] and [k], [k] excluded. *)
Definition between paths p c k l : Prop := ∃ q, p ++ [c] `prefix_of` q ∧ q `prefix_of` k ∧ q ≠ k ∧ paths !! q = Some l.
(** Below the child [c] of [p] there are only nodes without a value on the way to [k] and those below [k]. *)
Definition lonely t paths p c k : Prop :=
  ∀ q, p ++ [c] `prefix_of` q → is_Some (paths !! q) → k `prefix_of` q ∨ q `prefix_of` k ∧ val_at t paths q = None.

Lemma prefix_step_inv p q : p `prefix_of` q → q = p ∨ ∃ c, p ++ [c] `prefix_of` q.
Proof. intros [[|c x] ->]; [left; by rewrite app_nil_r|right]. exists c, x. by rewrite <-app_assoc. Qed.
Lemma prefix_longer p c q : p ++ [c] `prefix_of` q → q ≠ p.
Proof. intros Hq ->. apply prefix_length in Hq. rewrite length_app in Hq. cbn in Hq. lia. Qed.
Lemma prefix_below p c q : p ++ [c] `prefix_of` q → p `prefix_of` q.
Proof. intros Hq. etrans; [|exact Hq]. by eexists. Qed.

(** A node with at most one child and no value, on the way to [k]. *)
Lemma lonely_up t paths p n l c k p' c' :
  trie_is t paths → is_Some (paths !! k) → p ++ [c] `prefix_of` k → paths !! p = Some l → nodes t !! l = Some n →
  value n = None → (num_children n ≤ 1)%Z → p = p' ++ [c'] → lonely t paths p c k → lonely t paths p' c' k.
Proof.
  intros Ht Hk Hpk Hl Hn Hv Hnum Hp Hlone q Hq Hs. rewrite <-Hp in Hq.
  destruct (prefix_step_inv _ _ Hq) as [->|[d Hd]].
  - right. split; [by eapply prefix_below|]. by rewrite (ti_value t paths p l n).
  - destruct (decide (d = c)) as [->|Hdc]; [by apply Hlone|]. exfalso.
    destruct (ti_node _ _ Ht _ _ Hl) as (n' & Hn' & Hna). rewrite Hn in Hn'. injection Hn' as <-.
    assert (is_Some (child n !! d) ∧ is_Some (child n !! c)) as [[ld Hcd] [lc Hcc]].
    { rewrite !(na_child _ _ _ Hna). split.
      - destruct Hd as [x ->]. by eapply (ti_prefix t).
      - destruct Hpk as [x ->]. by eapply (ti_prefix t). }
    rewrite (na_num _ _ _ Hna) in Hnum.
    rewrite <-(insert_delete_id (child n) c lc Hcc) in Hnum. rewrite map_size_insert_None in Hnum by apply lookup_delete_eq.
    assert (size (delete c (child n)) ≠ 0); [|lia]. apply map_size_non_empty_iff. intros He.
    assert (delete c (child n) !! d = Some ld) as Hx by (by rewrite lookup_delete_ne). by rewrite He in Hx.
Qed.

Lemma wp_free_up fuel t0 paths p c k t lp (Q : option loc * Z → trie V → Prop) :
  trie_is t0 paths → is_Some (paths !! k) → length p ≤ fuel → p ++ [c] `prefix_of` k → paths !! p = Some lp →
  without (between paths p c k) t0 t → lonely t0 paths p c k →
  (∀ p0 c0 l0 t', p0 ++ [c0] `prefix_of` k → paths !! p0 = Some l0 → without (between paths p0 c0 k) t0 t' →
     lonely t0 paths p0 c0 k → Q (Some l0, c0) t') →
  wp (free_up fuel (Some lp) c) Q t.
Proof.
  intros Ht Hk. revert p c t lp. induction fuel as [|fuel IH]; intros p c t lp Hlen Hpk Hp Hwo Hlone HQ; cbn [free_up];
    apply wp_bind, wp_get; rewrite (wo_root _ _ _ Hwo);
    (case_bool_decide as Hroot; [by apply wp_ret, (HQ p)|]);
    (destruct p as [|c' p' _] using rev_ind; [by rewrite (ti_root _ _ Ht) in Hp; simplify_eq|]).
  { rewrite length_app in Hlen. cbn in Hlen. lia. }
  set (p := p' ++ [c']) in *. destruct (ti_node _ _ Ht _ _ Hp) as (n & Hn & Hna).
  assert (nodes t !! lp = Some n) as Hnt.
  { rewrite (wo_kept _ _ _ Hwo); [done|]. intros (q & Hq & _ & _ & Hl). apply (prefix_longer p c q Hq). by eapply (ti_inj _ _ Ht). }
  apply wp_bind, (wp_ld_node lp n); [done|].
  destruct (bool_decide (is_Some (value n)) || bool_decide (num_children n > 1)%Z) eqn:Hstop; [by apply wp_ret, (HQ p)|].
  apply orb_false_iff in Hstop as [Hv%bool_decide_eq_false Hnum%bool_decide_eq_false].
  apply wp_bind. unfold free_node. apply wp_bind, (wp_ld_node lp n); [done|]. apply wp_modify. apply wp_bind, wp_modify.
  assert (paths !! p' = parent n) as Hpar by (symmetry; by eapply (na_parent _ _ _ Hna)).
  assert (pidx n = c') as Hidx by (rewrite (na_pidx _ _ _ Hna); unfold p; by rewrite last_snoc).
  destruct (ti_closed _ _ Ht _ _ _ Hp) as [[l' Hl'] _]. rewrite Hidx, <-Hpar, Hl'.
  apply (IH p'); try done.
  - unfold p in Hlen. rewrite length_app in Hlen. cbn in Hlen. lia.
  - by eapply prefix_below.
  - split; cbn; try apply Hwo.
    + intros l (q & Hq & Hqk & Hne & Hl). fold p in Hq. destruct (prefix_step_inv _ _ Hq) as [->|[d Hd]].
      * assert (l = lp) as -> by congruence. apply lookup_delete_eq.
      * assert (d = c) as ->.
        { eapply (prefix_split p d c k); [by etrans|done]. }
        rewrite lookup_delete_ne; [apply (wo_gone _ _ _ Hwo); by exists q|]. intros <-.
        apply (prefix_longer p c q Hd). by eapply (ti_inj _ _ Ht).
    + intros l Hno. rewrite lookup_delete_ne.
      * apply (wo_kept _ _ _ Hwo). intros (q & Hq & Hqk & Hne & Hl). apply Hno. exists q. fold p. split_and!; try done. by eapply prefix_below.
      * intros <-. apply Hno. exists p. fold p. split_and!; try done; [by eapply prefix_below|]. intros Hpk'.
        apply (prefix_longer p c k Hpk). done.
  - eapply (lonely_up t0 paths p n lp c k); try done. destruct (value n); [|done]. destruct Hv. by eexists.
Qed.

(** ** The pruned trie *)
Definition prune (r : list Z) paths : gmap (list Z) loc := filter (λ x, ¬ r `prefix_of` x.1) paths.
Lemma prune_lookup r paths q : prune r paths !! q = if decide (r `prefix_of` q) then None else paths !! q.
Proof.
  unfold prune. case_decide as H.
  - apply map_lookup_filter_None. right. intros l _ Hno. by apply Hno.
  - destruct (paths !! q) as [l|] eqn:Hq; [by apply map_lookup_filter_Some|]. apply map_lookup_filter_None. by left.
Qed.
Lemma prune_Some r paths q l : prune r paths !! q = Some l → paths !! q = Some l ∧ ¬ r `prefix_of` q.
Proof. rewrite prune_lookup. by case_decide. Qed.

Lemma pruned_is t0 t3 paths p c l0 n0 :
  trie_is t0 paths → paths !! p = Some l0 → nodes t0 !! l0 = Some n0 → is_Some (paths !! (p ++ [c])) →
  nodes t3 !! l0 = Some (add_children (-1) (set_child c None n0)) →
  (∀ l, below paths (p ++ [c]) l → nodes t3 !! l = None) →
  (∀ l, l ≠ l0 → ¬ below paths (p ++ [c]) l → nodes t3 !! l = nodes t0 !! l) →
  root t3 = root t0 → next_node t3 = next_node t0 → trie_is t3 (prune (p ++ [c]) paths).
Proof.
  intros Ht Hp Hn0 Hc Hl0 Hgone Hkept Hr Hx. pose proof (ti_named _ _ Ht) as Hnm.
  assert (∀ q l, paths !! q = Some l → ¬ p ++ [c] `prefix_of` q → ¬ below paths (p ++ [c]) l) as Hnb.
  { intros q l Hq Hno (q' & Hq' & Hl'). by assert (q = q') as <- by (by eapply Hnm). }
  assert (∀ q d, q ++ [d] ≠ p ++ [c] → ¬ p ++ [c] `prefix_of` q → ¬ p ++ [c] `prefix_of` q ++ [d]) as Hsn.
  { intros q d Hne Hno [x Hx']. destruct x as [|y x _] using rev_ind; [by rewrite app_nil_r in Hx'|].
    rewrite app_assoc in Hx'. apply app_inj_tail in Hx' as [-> _]. apply Hno. by eexists. }
  split.
  - rewrite prune_lookup, decide_False; [rewrite Hr; apply Ht|]. intros H. apply prefix_nil_inv in H. by destruct p.
  - intros q1 q2 l [H1 _]%prune_Some [H2 _]%prune_Some. by eapply Hnm.
  - intros q l [Hq Hno]%prune_Some. destruct (ti_node _ _ Ht _ _ Hq) as (n & Hn & Hna).
    assert (∀ q' d, q = q' ++ [d] → parent n = prune (p ++ [c]) paths !! q') as Hpar.
    { intros q' d ->. rewrite prune_lookup, decide_False; [by eapply (na_parent _ _ _ Hna)|]. intros H. apply Hno.
      etrans; [exact H|by eexists]. }
    destruct (decide (l = l0)) as [->|Hne].
    + assert (q = p) as -> by (by eapply Hnm). rewrite Hn0 in Hn. injection Hn as <-. eexists. split; [done|]. split; cbn; try apply Hna; try done.
      * intros d. rewrite prune_lookup. destruct (decide (d = c)) as [->|Hdc].
        -- rewrite decide_True by done. by rewrite lookup_partial_alter_eq.
        -- rewrite lookup_partial_alter_ne by done. rewrite decide_False; [apply Hna|]. apply Hsn; [|done]. by intros [_ [= ->]]%app_inj_tail.
      * rewrite (na_num _ _ _ Hna). destruct Hc as [lc Hc]. rewrite <-(na_child _ _ _ Hna) in Hc.
        rewrite <-(insert_delete_id (child n0) c lc Hc) at 1. rewrite map_size_insert_None by apply lookup_delete_eq.
        change (partial_alter (λ _, None) c (child n0)) with (delete c (child n0)). lia.
    + rewrite Hkept; [|done|by eapply Hnb]. exists n. split; [done|]. split; try apply Hna; try done.
      intros d. rewrite prune_lookup. rewrite decide_False; [apply Hna|]. apply Hsn; [|done]. intros [-> ->]%app_inj_tail. congruence.
  - intros l n Hn. destruct (decide (l = l0)) as [->|Hne].
    + exists p. rewrite prune_lookup, decide_False; [done|]. intros H%prefix_longer. done.
    + destruct (nodes t0 !! l) as [n'|] eqn:Hn'.
      * destruct (ti_dom _ _ Ht _ _ Hn') as [q Hq]. exists q. rewrite prune_lookup. case_decide as Hpre; [|done].
        rewrite Hgone in Hn; [done|]. by exists q.
      * rewrite Hkept in Hn; [congruence|done|]. intros (q & _ & Hq). destruct (ti_node _ _ Ht _ _ Hq) as (? & ? & _). congruence.
  - intros q d l [Hq Hno]%prune_Some. destruct (ti_closed _ _ Ht _ _ _ Hq) as [[l' Hl'] Has]. split; [|done].
    exists l'. rewrite prune_lookup, decide_False; [done|]. intros H. apply Hno. etrans; [exact H|by eexists].
  - intros l Hl. rewrite Hx in Hl. assert (l ≠ l0) by (intros ->; rewrite (ti_fresh _ _ Ht) in Hn0; done).
    rewrite Hkept; [by apply Ht|done|]. intros (q & _ & Hq). destruct (ti_node _ _ Ht _ _ Hq) as (? & Hn & _).
    by rewrite (ti_fresh _ _ Ht) in Hn.
Qed.

Lemma pruned_val t0 t3 paths p c k :
  lonely t0 paths p c k → p ++ [c] `prefix_of` k →
  (∀ q l, paths !! q = Some l → ¬ p ++ [c] `prefix_of` q → value <$> nodes t3 !! l = value <$> nodes t0 !! l) →
  ∀ q, val_at t3 (prune (p ++ [c]) paths) q = if decide (k `prefix_of` q) then None else val_at t0 paths q.
Proof.
  intros Hlone Hpk Hval q. unfold val_at. rewrite prune_lookup. destruct (decide (k `prefix_of` q)) as [Hkq|Hkq].
  { rewrite decide_True by (by etrans). done. }
  destruct (paths !! q) as [l|] eqn:Hq; [|by destruct (decide _)]. case_decide as Hpq.
  - destruct (Hlone q Hpq ltac:(by eexists)) as [?|[_ Hv]]; [done|]. unfold val_at in Hv. by rewrite Hq in Hv.
  - cbn. specialize (Hval q l Hq Hpq). destruct (nodes t3 !! l), (nodes t0 !! l); cbn in *; congruence.
Qed.

(** ** trie_node_destroy of a node with a parent *)
Lemma wp_destroy_top t paths k l cb (Q : unit → trie V → Prop) :
  trie_is t paths → k ≠ [] → paths !! k = Some l →
  (∀ t' paths', trie_is t' paths' → (∀ q, val_at t' paths' q = if decide (k `prefix_of` q) then None else val_at t paths q) → Q tt t') →
  wp (trie_node_destroy (S (size (nodes t))) l cb) Q t.
Proof.
  intros Ht Hne Hk HQ. destruct k as [|c p _] using rev_ind; [done|]. clear Hne. set (k := p ++ [c]) in *.
  pose proof (ti_named _ _ Ht) as Hnm. pose proof (ti_closed_all _ _ Ht) as Hcl. pose proof (ti_ascii _ _ Ht) as Has.
  destruct (ti_node _ _ Ht _ _ Hk) as (n & Hn & Hna). cbn [trie_node_destroy].
  apply wp_bind, (wp_ld_node l n); [done|]. apply wp_bind, wp_get, wp_bind.
  destruct (ti_closed _ _ Ht _ _ _ Hk) as [[lp Hlp] _]. rewrite (na_parent _ _ _ Hna p c eq_refl), (na_pidx _ _ _ Hna).
  unfold k at 1. rewrite last_snoc. cbn [default]. rewrite Hlp.
  apply (wp_free_up _ t paths p c k t lp); try done; [pose proof (path_length _ _ _ _ Ht Hlp); lia|..].
  { split; try done. intros l' (q & H1 & H2 & H3 & _). destruct H3. apply (anti_symm prefix); done. }
  { intros q Hq _. by left. }
  intros p0 c0 l0 t1 Hpk Hl0 Hwo Hlone. destruct (ti_node _ _ Ht _ _ Hl0) as (n0 & Hn0 & Hna0).
  assert (¬ between paths p0 c0 k l0) as Hnb0.
  { intros (q & Hq & _ & _ & Hl). apply (prefix_longer p0 c0 q Hq). by eapply Hnm. }
  apply wp_bind. cbn [cut_child]. apply wp_bind. eapply wp_upd_node; [by rewrite (wo_kept _ _ _ Hwo)|].
  eapply wp_upd_node; [cbn; apply lookup_insert_eq|]. set (t2 := set_nodes _ _).
  assert (∀ l', l' ≠ l0 → nodes t2 !! l' = nodes t1 !! l') as H21 by (intros; unfold t2; cbn; by rewrite !lookup_insert_ne).
  assert (∀ l', below paths k l' → l' ≠ l0 ∧ ¬ between paths p0 c0 k l') as Hbk.
  { intros l' (q & Hq & Hl'). split.
    - intros ->. apply (prefix_longer p0 c0 q); [by etrans|]. by eapply Hnm.
    - intros (q' & _ & Hq'k & Hq'ne & Hl''). assert (q = q') as <- by (by eapply Hnm). apply Hq'ne. by apply (anti_symm prefix). }
  apply (destroy_below_ok _ paths k l cb t2); try done.
  - intros d. apply node_destroy_ok; try done. intros q _ [l' Hq]. pose proof (path_length _ _ _ _ Ht Hq). lia.
  - intros q l' Hq Hl'. destruct (Hbk l') as [H1 H2]; [by exists q|]. rewrite H21, (wo_kept _ _ _ Hwo) by done.
    destruct (ti_node _ _ Ht _ _ Hl') as (n' & Hn' & Hna'). exists n'. split; [done|]. apply Hna'.
  - intros t3 Hwo3. assert (∀ l', below paths (p0 ++ [c0]) l' → below paths k l' ∨ between paths p0 c0 k l') as Hsplit.
    { intros l' (q & Hq & Hl'). destruct (decide (k `prefix_of` q)) as [Hkq|Hkq]; [left; by exists q|right].
      destruct (Hlone q Hq ltac:(by eexists)) as [?|[? _]]; [done|]. exists q. split_and!; try done. by intros ->. }
    assert (trie_is t3 (prune (p0 ++ [c0]) paths)) as Ht3.
    { eapply (pruned_is t t3 paths p0 c0 l0 n0); try done.
      - destruct Hpk as [x Hx]. eapply (ti_prefix t paths _ x Ht). rewrite <-Hx. by eexists.
      - rewrite (wo_kept _ _ _ Hwo3); [unfold t2; cbn; apply lookup_insert_eq|]. intros [H _]%Hbk. done.
      - intros l' [Hb|Hb]%Hsplit; [by apply (wo_gone _ _ _ Hwo3)|]. rewrite (wo_kept _ _ _ Hwo3); [|by intros [_ ?]%Hbk].
        rewrite H21; [by apply (wo_gone _ _ _ Hwo)|]. by intros ->.
      - intros l' Hl' Hno. rewrite (wo_kept _ _ _ Hwo3); [rewrite H21, (wo_kept _ _ _ Hwo); try done|].
        + intros (q & Hq & _ & _ & Hlq). apply Hno. by exists q.
        + intros (q & Hq & Hlq). apply Hno. exists q. split; [by etrans|done].
      - rewrite (wo_root _ _ _ Hwo3). apply (wo_root _ _ _ Hwo).
      - rewrite (wo_next _ _ _ Hwo3). apply (wo_next _ _ _ Hwo). }
    apply (HQ t3 _ Ht3). apply (pruned_val t t3 paths p0 c0 k Hlone Hpk). intros q l' Hq Hpq.
    destruct (decide (l' = l0)) as [->|Hne].
    + rewrite (wo_kept _ _ _ Hwo3) by (by intros [? _]%Hbk). unfold t2. cbn. by rewrite lookup_insert_eq, Hn0.
    + rewrite (wo_kept _ _ _ Hwo3), H21, (wo_kept _ _ _ Hwo); try done; intros (q' & Hq' & H').
      * by assert (q = q') as <- by (eapply Hnm; [done|apply H']).
      * assert (q = q') as <- by (by eapply Hnm). apply Hpq. by etrans.
Qed.
End Remove.

(** ** Iteration *)
(** ** Lists split by a character *)
Section Split.
Context {A : Type} (P : Z → A → Prop) `{∀ c y, Decision (P c y)}.
Implicit Types (idxs : list Z) (L : list A).
Definition parts idxs L : list A := concat ((λ c, filter (P c) L) <$> idxs).

Lemma parts_none idxs L y : (∀ c, c ∈ idxs → ¬ P c y) → parts idxs (y :: L) = parts idxs L.
Proof.
  induction idxs as [|c idxs IH]; intros Hno; [done|].
  change (filter (P c) (y :: L) ++ parts idxs (y :: L) = filter (P c) L ++ parts idxs L).
  rewrite filter_cons_False by (apply Hno; by left). rewrite IH; [done|]. intros d Hd. apply Hno. by right.
Qed.
Lemma parts_one idxs L y c : NoDup idxs → c ∈ idxs → (∀ d, P d y ↔ d = c) → parts idxs (y :: L) ≡ₚ y :: parts idxs L.
Proof.
  intros Hnd Hc HP. induction Hnd as [|d idxs Hd Hnd IH]; [by apply not_elem_of_nil in Hc|].
  change (parts (d :: idxs) (y :: L)) with (filter (P d) (y :: L) ++ parts idxs (y :: L)).
  change (parts (d :: idxs) L) with (filter (P d) L ++ parts idxs L).
  destruct (decide (d = c)) as [->|Hdc].
  - rewrite filter_cons_True by (by apply HP). rewrite parts_none; [done|]. intros e He He'%HP. by subst.
  - rewrite filter_cons_False by (by intros ?%HP). rewrite IH by (by apply elem_of_cons in Hc as [->|?]).
    symmetry. apply Permutation_middle.
Qed.
End Split.

Section Iter.
Context {V : Type} (junk : nat → Z).
Implicit Types (t : trie V) (paths : gmap (list Z) loc) (p q k : list Z) (l : loc) (m : gmap (list Z) V) (x : char_seq V) (n : trie_node V).

(** The pairs whose key has the prefix [p]. *)
Definition keyed p m : list (list Z * V) := filter (λ y, p `prefix_of` y.1) (map_to_list m).

(** The key goes on with [c] behind [p]. *)
Definition continues p (c : Z) (y : list Z * V) : Prop := p ++ [c] `prefix_of` y.1.
#[local] Instance continues_dec p c y : Decision (continues p c y).
Proof. unfold continues. apply _. Defined.

Lemma keyed_parts p m idxs :
  NoDup idxs → (∀ c q, is_Some (m !! (p ++ c :: q)) → c ∈ idxs) →
  keyed p m ≡ₚ match m !! p with Some v => [(p, v)] | None => [] end ++ parts (continues p) idxs (map_to_list m).
Proof.
  intros Hnd Hidx.
  assert (∀ L : list (list Z * V), (∀ y, y ∈ L → is_Some (m !! y.1)) →
    filter (λ y, p `prefix_of` y.1) L ≡ₚ filter (λ y, y.1 = p) L ++ parts (continues p) idxs L) as Hgen.
  { intros L HL. induction L as [|y L IH].
    { cbn. unfold parts. clear. by induction idxs. }
    assert (∀ y, y ∈ L → is_Some (m !! y.1)) as HL' by (intros; apply HL; by right). specialize (IH HL').
    assert (is_Some (m !! y.1)) as Hy by (apply HL; by left).
    rewrite !filter_cons. destruct (decide (p `prefix_of` y.1)) as [Hp|Hp].
    - destruct (prefix_step_inv _ _ Hp) as [Heq|[c Hc]].
      + rewrite (decide_True (P := y.1 = p)) by done. rewrite parts_none; [by rewrite IH|].
        intros d _ Hd. by apply (prefix_longer _ _ _ Hd).
      + rewrite decide_False by (by eapply prefix_longer). rewrite (parts_one _ idxs L y c); [by rewrite IH, Permutation_middle|done| |].
        * destruct Hc as [z Hz]. apply (Hidx c z). rewrite Hz, <-app_assoc in Hy. done.
        * intros d. split; [|by intros ->]. intros Hd. by eapply prefix_split.
    - rewrite decide_False by (by intros <-). rewrite parts_none; [done|]. intros d _ Hd. by apply Hp, (prefix_below _ d). }
  unfold keyed. rewrite Hgen by (intros [q v] Hin; apply elem_of_map_to_list in Hin; by eexists).
  apply Permutation_app_tail. destruct (m !! p) as [v|] eqn:Hv.
  - rewrite <-(insert_delete_id m p v Hv) at 1. rewrite map_to_list_insert by apply lookup_delete_eq.
    rewrite filter_cons_True by done. constructor.
    destruct (filter _ _) as [|y L] eqn:HL; [done|]. exfalso.
    assert (y ∈ filter (λ y, y.1 = p) (map_to_list (delete p m))) as (Hyp & Hy)%list_elem_of_filter by (rewrite HL; by left).
    destruct y as [q v']. cbn in Hyp. subst q. apply elem_of_map_to_list in Hy. by rewrite lookup_delete_eq in Hy.
  - destruct (filter _ _) as [|y L] eqn:HL; [done|]. exfalso.
    assert (y ∈ filter (λ y, y.1 = p) (map_to_list m)) as (Hyp & Hy)%list_elem_of_filter by (rewrite HL; by left).
    destruct y as [q v']. cbn in Hyp. subst q. apply elem_of_map_to_list in Hy. congruence.
Qed.

(** ** The recursion *)
(** A call that visits the values below [p]. *)
Record visited p m x (r : Z) (x' : char_seq V) : Prop := {
  vi_pos : pos x' = pos x;
  vi_len : length (seq_ x') = length (seq_ x);
  vi_calls : ∃ vs, (calls x').*2 = (calls x).*2 ++ vs ∧ vs ≡ₚ (keyed p m).*2 ∧ r = Z.of_nat (length vs)
}.
(** Room for the paths below [p] in the buffer. *)
Definition room paths p x : Prop :=
  (0 ≤ pos x)%Z ∧ (Z.of_nat (length (seq_ x)) < 2 ^ 63)%Z ∧
  ∀ q, p `prefix_of` q → is_Some (paths !! q) → (pos x + Z.of_nat (length q) - Z.of_nat (length p) < Z.of_nat (length (seq_ x)))%Z.

Lemma keyed_none t paths m q : trie_is t paths → (∀ k, val_at t paths k = m !! k) → paths !! q = None → keyed q m = [].
Proof.
  intros Ht Hm Hq. unfold keyed. destruct (filter _ _) as [|y L] eqn:HL; [done|]. exfalso.
  assert (y ∈ filter (λ y, q `prefix_of` y.1) (map_to_list m)) as (Hy & Hin)%list_elem_of_filter by (rewrite HL; by left).
  destruct y as [k v]. apply elem_of_map_to_list in Hin. rewrite <-Hm in Hin. unfold val_at in Hin. cbn in Hy.
  destruct (paths !! k) eqn:Hk; [|done]. destruct Hy as [z ->]. destruct (ti_prefix t paths q z Ht) as [? ?]; [by eexists|]. congruence.
Qed.
Lemma count_some (h : gmap Z loc) i c idxs :
  h !! i = Some c → i ∉ idxs → size (filter (λ y, y.1 ∈ i :: idxs) h) = S (size (filter (λ y, y.1 ∈ idxs) h)).
Proof.
  intros Hi Hno. assert (filter (λ y, y.1 ∈ i :: idxs) h = <[i := c]> (filter (λ y, y.1 ∈ idxs) h)) as ->.
  { apply map_eq. intros j. rewrite lookup_insert. case_decide as Hj; [subst; apply map_lookup_filter_Some; split; [done|by left]|].
    apply option_eq. intros d. rewrite !map_lookup_filter_Some. cbn. rewrite elem_of_cons. naive_solver. }
  apply map_size_insert_None. apply map_lookup_filter_None. right. by intros ? _.
Qed.
Lemma count_none (h : gmap Z loc) i idxs :
  h !! i = None → size (filter (λ y, y.1 ∈ i :: idxs) h) = size (filter (λ y, y.1 ∈ idxs) h).
Proof.
  intros Hi. f_equal. apply map_eq. intros j. apply option_eq. intros d. rewrite !map_lookup_filter_Some. cbn.
  rewrite elem_of_cons. naive_solver.
Qed.
Lemma parts_empty t paths m p n idxs :
  trie_is t paths → (∀ k, val_at t paths k = m !! k) → node_at paths p n → size (filter (λ y, y.1 ∈ idxs) (child n)) = 0 →
  parts (continues p) idxs (map_to_list m) = [].
Proof.
  intros Ht Hm Hna Hz. assert (∀ c, c ∈ idxs → keyed (p ++ [c]) m = []) as Hk.
  { intros c Hc. apply (keyed_none t paths); try done. rewrite <-(na_child _ _ _ Hna). destruct (child n !! c) as [l|] eqn:Hl; [|done].
    apply map_size_empty_inv in Hz. assert (filter (λ y, y.1 ∈ idxs) (child n) !! c = Some l) as H by (by apply map_lookup_filter_Some).
    by rewrite Hz in H. }
  clear Hz. induction idxs as [|c idxs IH]; [done|].
  change (keyed (p ++ [c]) m ++ parts (continues p) idxs (map_to_list m) = []). rewrite (Hk c) by (by left). apply IH.
  intros d Hd. apply Hk. by right.
Qed.
Lemma room_child paths p c x :
  room paths p x → is_Some (paths !! p) →
  room paths (p ++ [c]) (set_cpos (u64 (pos x + 1)) x) ∧ u64 (pos x + 1) = (pos x + 1)%Z ∧ u64 (pos x) = pos x.
Proof.
  intros (H0 & Hlen & Hr) Hp. pose proof (Hr p ltac:(done) Hp) as Hpos.
  assert (u64 (pos x + 1) = (pos x + 1)%Z ∧ u64 (pos x) = pos x) as [Hu Hu'] by (split; apply u64_id; unfold in_u64; lia).
  split; [|done]. rewrite Hu. split_and!; cbn; [lia|done|]. intros q Hq Hs. specialize (Hr q (prefix_below _ _ _ Hq) Hs).
  rewrite length_app. cbn. lia.
Qed.

Lemma iterate_children_ok iterate t paths m p n idxs nv rst x :
  trie_is t paths → (∀ k, val_at t paths k = m !! k) → node_at paths p n → NoDup idxs → is_Some (paths !! p) →
  (∀ c l x, c ∈ idxs → paths !! (p ++ [c]) = Some l → room paths (p ++ [c]) x → ∃ r x', iterate l x = Ret (r, x') ∧ visited (p ++ [c]) m x r x') →
  (nv + Z.of_nat (size (filter (λ y, y.1 ∈ idxs) (child n))))%Z = num_children n → room paths p x →
  ∃ vs x', iterate_children iterate n idxs nv rst x = Ret ((rst + Z.of_nat (length vs))%Z, x')
    ∧ pos x' = pos x ∧ length (seq_ x') = length (seq_ x) ∧ (calls x').*2 = (calls x).*2 ++ vs
    ∧ vs ≡ₚ (parts (continues p) idxs (map_to_list m)).*2.
Proof.
  intros Ht Hm Hna Hnd Hp. revert nv rst x. induction Hnd as [|i idxs Hi Hnd IH]; intros nv rst x Hit Hnum Hroom; cbn [iterate_children].
  { exists [], x. rewrite Z.add_0_r, app_nil_r. done. }
  assert (∀ c l x, c ∈ idxs → paths !! (p ++ [c]) = Some l → room paths (p ++ [c]) x →
    ∃ r x', iterate l x = Ret (r, x') ∧ visited (p ++ [c]) m x r x') as Hit' by (intros; apply Hit; [by right|done..]).
  assert (parts (continues p) (i :: idxs) (map_to_list m)
    = keyed (p ++ [i]) m ++ parts (continues p) idxs (map_to_list m)) as Hparts by done.
  rewrite (na_child _ _ _ Hna). destruct (paths !! (p ++ [i])) as [c|] eqn:Hc.
  - destruct (room_child paths p i x Hroom Hp) as (Hroom1 & Hu & Hu').
    destruct (Hit i c _ ltac:(by left) Hc Hroom1) as (r & x1 & -> & [Hpos Hlen (vs & Hcalls & Hvs & ->)]). cbn [mbind outcome_bind].
    cbn in Hpos, Hlen, Hcalls. rewrite Hu in Hpos.
    assert (u64 (pos x1 - 1) = pos x) as Hback by (rewrite Hpos; by replace (pos x + 1 - 1)%Z with (pos x) by lia).
    assert (child n !! i = Some c) as Hci by (by rewrite (na_child _ _ _ Hna)). rewrite (count_some _ _ _ _ Hci Hi) in Hnum.
    case_bool_decide as Hlast.
    + exists vs. eexists. split; [done|]. cbn [pos seq_ calls set_cpos]. split_and!; try done. rewrite Hparts, fmap_app, Hvs.
      rewrite (parts_empty t paths m p n idxs) by (try done; lia). by rewrite app_nil_r.
    + destruct (IH (nv + 1)%Z (rst + Z.of_nat (length vs))%Z (set_cpos (u64 (pos x1 - 1)) x1) Hit') as (vs2 & x2 & -> & Hpos2 & Hlen2 & Hcalls2 & Hvs2).
      * lia.
      * destruct Hroom as (H0 & Hl & Hr). rewrite Hback. split_and!; cbn; rewrite ?Hlen; done.
      * exists (vs ++ vs2), x2. rewrite Hback in *. cbn [pos seq_ calls set_cpos] in *. split_and!; try done.
        -- f_equal. f_equal. rewrite length_app. lia.
        -- by rewrite Hlen2.
        -- by rewrite Hcalls2, Hcalls, app_assoc.
        -- by rewrite Hparts, fmap_app, Hvs, Hvs2.
  - rewrite (keyed_none t paths m _ Ht Hm Hc) in Hparts. rewrite Hparts. apply IH; try done.
    rewrite <-Hnum. f_equal. f_equal. symmetry. apply count_none. by rewrite (na_child _ _ _ Hna).
Qed.

Lemma iterate_ok fuel t paths m p l x :
  trie_is t paths → (∀ k, val_at t paths k = m !! k) → paths !! p = Some l →
  (∀ q, p `prefix_of` q → is_Some (paths !! q) → length q < length p + fuel) → room paths p x →
  ∃ r x', trie_node_iterate junk fuel t l x = Ret (r, x') ∧ visited p m x r x'.
Proof.
  intros Ht Hm. revert p l x. induction fuel as [|fuel IH]; intros p l x Hl Hfuel Hroom; cbn [trie_node_iterate].
  { specialize (Hfuel p ltac:(done) ltac:(by eexists)). lia. }
  destruct (ti_node _ _ Ht _ _ Hl) as (n & Hn & Hna). rewrite Hn. cbn [deref mbind outcome_bind].
  pose proof Hroom as (H0 & Hlen & Hr). pose proof (Hr p ltac:(done) ltac:(by eexists)) as Hpos.
  assert (grow_seq junk x = x) as -> by (unfold grow_seq; by rewrite bool_decide_eq_false_2 by lia).
  assert (∃ x1, (if bool_decide (pidx n > 0)%Z then put_char (pidx n) x else Ret x) = Ret x1 ∧ pos x1 = pos x
    ∧ length (seq_ x1) = length (seq_ x) ∧ calls x1 = calls x) as (x1 & -> & Hp1 & Hl1 & Hc1).
  { case_bool_decide; [|by exists x]. unfold put_char. rewrite bool_decide_eq_true_2 by lia. eexists. split; [done|]. cbn.
    by rewrite length_insert. }
  cbn [mbind outcome_bind]. set (own := match m !! p with Some v => [v] | None => [] end).
  assert (∃ x2, match value n with Some v => (1%Z, call v x1) | None => (0%Z, x1) end = (Z.of_nat (length own), x2) ∧ pos x2 = pos x
    ∧ length (seq_ x2) = length (seq_ x) ∧ (calls x2).*2 = (calls x).*2 ++ own) as (x2 & -> & Hp2 & Hl2 & Hc2).
  { assert (m !! p = value n) as Hv by (by rewrite <-Hm, (ti_value t paths p l n)). unfold own. rewrite Hv.
    destruct (value n) as [v|]; eexists; (split; [done|]); cbn; rewrite ?Hc1; split_and!; try done.
    - by rewrite fmap_app.
    - by rewrite app_nil_r. }
  destruct (iterate_children_ok (trie_node_iterate junk fuel t) t paths m p n (seqZ 0 256) 0 (Z.of_nat (length own)) x2)
    as (vs & x3 & -> & Hp3 & Hl3 & Hc3 & Hvs); [done|done|done|apply NoDup_seqZ|by eexists|..].
  - intros c l' x' _ Hl' Hroom'. apply IH; try done. intros q Hq Hs. rewrite length_app. cbn.
    specialize (Hfuel q (prefix_below _ _ _ Hq) Hs). lia.
  - rewrite (na_num _ _ _ Hna), Z.add_0_l. f_equal. f_equal. apply map_filter_id. intros c l' Hc. cbn.
    rewrite (na_child _ _ _ Hna) in Hc. apply (ti_closed _ _ Ht) in Hc as [_ Hc]. unfold ascii in Hc. apply elem_of_seqZ. lia.
  - unfold room. by rewrite Hp2, Hl2.
  - eexists _, x3. split; [done|]. split; [by rewrite Hp3|by rewrite Hl3|]. exists (own ++ vs).
    split; [by rewrite Hc3, Hc2, app_assoc|]. split; [|rewrite length_app; lia].
    rewrite (keyed_parts p m (seqZ 0 256)), fmap_app, Hvs; [by unfold own; destruct (m !! p)|apply NoDup_seqZ|].
    intros c q [v Hq]. rewrite <-Hm in Hq. unfold val_at in Hq. destruct (paths !! (p ++ c :: q)) eqn:Hpq; [|done].
    destruct (ti_prefix t paths (p ++ [c]) q Ht) as [? Hpc]; [rewrite <-app_assoc; by eexists|].
    apply (ti_closed _ _ Ht) in Hpc as [_ Hc]. unfold ascii in Hc. apply elem_of_seqZ. lia.
Qed.

(** ** trie_iter_prefix *)
Lemma follow_prefix_ok t paths k p l x :
  trie_is t paths → Forall ascii k → paths !! p = Some l → pos x = Z.of_nat (length p) →
  (Z.of_nat (length p + length k) < Z.of_nat (length (seq_ x)))%Z →
  ∃ o, follow_prefix t k l x = Ret o
    ∧ match paths !! (p ++ k) with
      | None => o = None
      | Some l' => ∃ x', o = Some (l', x') ∧ pos x' = Z.of_nat (length (p ++ k)) ∧ length (seq_ x') = length (seq_ x) ∧ calls x' = calls x
      end.
Proof.
  intros Ht Hk. revert p l x. induction Hk as [|b k Hb Hk IH]; intros p l x Hp Hpos Hlen; cbn [follow_prefix].
  { eexists. split; [done|]. rewrite app_nil_r, Hp. by exists x. }
  destruct (ti_node _ _ Ht _ _ Hp) as (n & Hn & Hna). rewrite Hn. cbn [deref mbind outcome_bind].
  rewrite char_index_ascii by done. rewrite (na_child _ _ _ Hna). destruct (paths !! (p ++ [b])) as [l'|] eqn:Hpb.
  - unfold put_char. cbn [length] in Hlen. rewrite bool_decide_eq_true_2 by lia. cbn [mbind outcome_bind].
    destruct (IH (p ++ [b]) l' (set_cpos (pos x + 1) (mk_seq (<[Z.to_nat (pos x) := b]> (seq_ x)) (pos x) (calls x)))) as (o & Hrun & Ho).
    + done.
    + cbn. rewrite length_app, Hpos. cbn. lia.
    + cbn. rewrite length_insert, length_app. cbn. lia.
    + exists o. split; [done|]. rewrite <-app_assoc in Ho. cbn in Ho. by rewrite length_insert in Ho.
  - eexists. split; [done|]. destruct (paths !! (p ++ b :: k)) eqn:Hpk; [|done].
    destruct (ti_prefix t paths (p ++ [b]) k Ht) as [? ?]; [rewrite <-app_assoc; by eexists|]. congruence.
Qed.
End Iter.
