(* ===== verification/TrieTheorems.v ===== *)
(** * The trie: theorems *)
From S2P Require Import Prelude Heap Trie TrieRep TrieRemove.

Section Theorems.
Context {V : Type} (fcb : bool).
Implicit Types (t : trie V) (k q : list Z) (m : gmap (list Z) V).

(** [t] stores the map [m]. *)
Definition trie_holds t m : Prop := ∃ paths, trie_is t paths ∧ ∀ k, val_at t paths k = m !! k.

Lemma trie_holds_create : trie_holds trie_create ∅.
Proof.
  eexists. split; [apply trie_is_create|]. intros k. rewrite lookup_empty. unfold val_at.
  destruct (_ !! k) as [l|] eqn:Hk; [|done]. apply lookup_singleton_Some in Hk as [_ <-]. done.
Qed.
Lemma find_holds t m k : trie_holds t m → Forall ascii k → ∃ sz, trie_find k t = Ret ((m !! k, sz), t).
Proof.
  intros (paths & Ht & Hm) Hk. assert (wp (trie_find k) (λ r t', r.1 = m !! k ∧ t' = t) t) as Hw.
  { unfold trie_find. apply wp_bind, (wp_find_internal t paths k); try done. rewrite <-Hm. unfold val_at.
    destruct (paths !! k) as [l|] eqn:Hl; [|by apply wp_ret]. destruct (ti_node _ _ Ht _ _ Hl) as (n & Hn & _).
    apply wp_bind, (wp_ld_node l n); [done|]. apply wp_ret. cbn. by rewrite Hn. }
  apply wp_run in Hw as ([v sz] & t' & -> & Hv & ->). cbn in Hv. subst v. by exists sz.
Qed.
Lemma insert_holds t m k v sz cp :
  trie_holds t m → Forall ascii k →
  ∃ r t', trie_insert fcb k (Some v) sz cp t = Ret (r, t') ∧ trie_holds t' (<[k := v]> m)
    ∧ node_count t' = (node_count t + r)%Z ∧ count t' = (if bool_decide (r ≠ 0%Z) then count t + 1 else count t)%Z
    ∧ ((∃ q, k `prefix_of` q ∧ is_Some (m !! q)) → r = 0%Z).
Proof.
  intros (paths & Ht & Hm) Hk.
  assert (wp (trie_insert fcb k (Some v) sz cp) (λ r t', trie_holds t' (<[k := v]> m) ∧
    node_count t' = (node_count t + r)%Z ∧ count t' = (if bool_decide (r ≠ 0%Z) then count t + 1 else count t)%Z ∧
    ((∃ q, k `prefix_of` q ∧ is_Some (m !! q)) → r = 0%Z)) t) as Hw.
  { apply (wp_insert fcb k (Some v) sz cp t paths); try done. intros r t' paths' Ht' Hv Hr _ Hc Hn. split; [|split_and!; try done].
    - exists paths'. split; [done|]. intros q. rewrite Hv, Hm. destruct (decide (q = k)) as [->|Hq]; [by rewrite lookup_insert_eq|by rewrite lookup_insert_ne].
    - intros (q & [x ->] & [v' Hq]). apply Hr. apply (ti_prefix t paths k x Ht). rewrite <-Hm in Hq. unfold val_at in Hq.
      destruct (paths !! (k ++ x)); [by eexists|done]. }
  apply wp_run in Hw as (r & t' & Hrun & H). by exists r, t'.
Qed.

(** A run of insertions and what it should build. *)
Fixpoint insert_all (kvs : list (list Z * V)) : st (trie V) unit :=
  match kvs with
  | [] => mret tt
  | (k, v) :: kvs => _ ← trie_insert fcb k (Some v) 8 false; insert_all kvs
  end.
Definition build (kvs : list (list Z * V)) m : gmap (list Z) V := foldl (λ m x, <[x.1 := x.2]> m) m kvs.
Lemma insert_all_holds kvs t m :
  trie_holds t m → Forall (λ x, Forall ascii x.1) kvs → ∃ t', insert_all kvs t = Ret (tt, t') ∧ trie_holds t' (build kvs m).
Proof.
  intros Ht Hk. revert t m Ht. induction Hk as [|[k v] kvs Hk Hks IH]; intros t m Ht; [by exists t|]. cbn [insert_all].
  destruct (insert_holds t m k v 8 false Ht Hk) as (r & t1 & Hrun & Ht1 & _). unfold mbind, st_bind. rewrite Hrun. by apply IH.
Qed.

(** C35: the trie is a map: after any run of insertions of ASCII keys into a new
    trie nothing faults, and trie_find returns for every ASCII key the value
    last inserted under it, and NULL for a key never inserted, also when it is
    a prefix of a stored key. *)
Theorem trie_refines_map kvs k :
  Forall (λ x, Forall ascii x.1) kvs → Forall ascii k →
  ∃ t sz, insert_all kvs trie_create = Ret (tt, t) ∧ trie_find k t = Ret ((build kvs ∅ !! k, sz), t).
Proof.
  intros Hks Hk. destruct (insert_all_holds kvs trie_create ∅ trie_holds_create Hks) as (t & Hrun & Ht).
  destruct (find_holds t _ k Ht Hk) as [sz Hf]. by exists t, sz.
Qed.

(** Trie_remove removes a subtree: it returns the value of the key, but
    deletes every key the given key is a prefix of; all other keys keep their
    values, and nothing faults although ancestors are freed on the way. *)
Theorem trie_remove_drops_subtree t m k want :
  trie_holds t m → Forall ascii k → k ≠ [] →
  ∃ r o t', trie_remove fcb k want t = Ret ((r, o), t') ∧ (o ≫= fst) = m !! k
    ∧ trie_holds t' (filter (λ x, ¬ k `prefix_of` x.1) m).
Proof.
  intros (paths & Ht & Hm) Hk Hne.
  assert (∀ q, (filter (λ x, ¬ k `prefix_of` x.1) m : gmap (list Z) V) !! q = if decide (k `prefix_of` q) then None else m !! q) as Hfil.
  { intros q. case_decide as Hq; [apply map_lookup_filter_None; right; by intros v _ Hno|].
    destruct (m !! q) eqn:Hmq; [by apply map_lookup_filter_Some|]. apply map_lookup_filter_None. by left. }
  assert (wp (trie_remove fcb k want) (λ r t', (r.2 ≫= fst) = m !! k ∧ trie_holds t' (filter (λ x, ¬ k `prefix_of` x.1) m)) t) as Hw.
  { unfold trie_remove. apply wp_bind, (wp_find_internal t paths k); try done. destruct (paths !! k) as [l|] eqn:Hl.
    - destruct (ti_node _ _ Ht _ _ Hl) as (n & Hn & _). apply wp_bind, wp_get. apply wp_bind, (wp_ld_node l n); [done|]. apply wp_bind.
      apply (wp_destroy_top t paths k l); try done. intros t' paths' Ht' Hv'. apply wp_bind, wp_get, wp_ret. cbn.
      split; [by rewrite <-Hm, (ti_value t paths k l n)|]. exists paths'. split; [done|]. intros q. by rewrite Hv', Hfil, Hm.
    - apply wp_ret. split; [rewrite <-Hm; unfold val_at; by rewrite Hl|]. exists paths. split; [done|]. intros q. rewrite Hfil, Hm.
      case_decide as Hq; [|done]. rewrite <-Hm. unfold val_at. destruct (paths !! q) eqn:Hpq; [|done]. destruct Hq as [x ->].
      destruct (ti_prefix t paths k x Ht) as [? ?]; [by eexists|]. congruence. }
  apply wp_run in Hw as ([r o] & t' & Hrun & Ho & Ht'). by exists r, o, t'.
Qed.

(** The counter of keys misses keys that are prefixes of stored keys:
    inserting one leaves [count] as it was, although the map grows. *)
Theorem trie_count_misses_prefixes t m k x v v' sz cp :
  trie_holds t m → Forall ascii k → m !! k = None → m !! (k ++ x) = Some v' →
  ∃ t', trie_insert fcb k (Some v) sz cp t = Ret (0%Z, t') ∧ count t' = count t
    ∧ trie_holds t' (<[k := v]> m) ∧ size (<[k := v]> m) = S (size m).
Proof.
  intros Ht Hk Hnone Hx. destruct (insert_holds t m k v sz cp Ht Hk) as (r & t' & Hrun & Ht' & _ & Hc & Hr).
  assert (r = 0%Z) as ->. { apply Hr. exists (k ++ x). split; [by eexists|by eexists]. }
  rewrite bool_decide_eq_false_2 in Hc by (intros H; by apply H). exists t'. split_and!; try done.
  by rewrite map_size_insert_None.
Qed.

(** Trie_iter_prefix calls its callback with the value of every key that
    has the prefix, once each, but with the value of the prefix itself, when it
    is a key, twice; the result is the number of calls.  (Tries of at most 4096
    nodes, so that no path outgrows the buffer.) *)
Theorem trie_iter_prefix_values junk t m k :
  trie_holds t m → Forall ascii k → size (nodes t) ≤ 4096 → length k < 4096 →
  ∃ calls vs, trie_iter_prefix junk t k = Ret (Z.of_nat (length calls), calls)
    ∧ calls.*2 = match m !! k with Some v => [v] | None => [] end ++ vs ∧ vs ≡ₚ (keyed k m).*2.
Proof.
  intros (paths & Ht & Hm) Hk Hsize Hlk. unfold trie_iter_prefix.
  assert (length (seq_ (new_seq (V := V) 0)) = 4096) as Hseq by (cbn [new_seq seq_]; by rewrite length_replicate).
  destruct (follow_prefix_ok t paths k [] (root t) (new_seq 0) Ht Hk) as (o & -> & Ho); [apply Ht|done|cbn [length]; lia|].
  cbn [mbind outcome_bind app] in *. destruct (paths !! k) as [l|] eqn:Hl.
  - destruct Ho as (x & -> & Hpos & Hlen & Hcalls). destruct (ti_node _ _ Ht _ _ Hl) as (n & Hn & _). rewrite Hn. cbn [deref mbind outcome_bind].
    set (own := match m !! k with Some v => [v] | None => [] end).
    assert (∃ x2, match value n with Some v => (1%Z, call v x) | None => (0%Z, x) end = (Z.of_nat (length own), x2) ∧ pos x2 = pos x
      ∧ length (seq_ x2) = length (seq_ x) ∧ (calls x2).*2 = own) as (x2 & -> & Hp2 & Hl2 & Hc2).
    { assert (m !! k = value n) as Hv by (by rewrite <-Hm, (ti_value t paths k l n)). unfold own. rewrite Hv.
      destruct (value n) as [v|]; eexists; (split; [done|]); cbn; by rewrite ?Hcalls. }
    destruct (iterate_ok junk (S (size (nodes t))) t paths m k l x2 Ht Hm Hl) as (r & x3 & -> & [_ _ (vs & Hc3 & Hvs & ->)]).
    + intros q _ [l' Hq]. pose proof (path_length _ _ _ _ Ht Hq). lia.
    + unfold room. rewrite Hp2, Hl2, Hpos, Hlen, Hseq. split_and!; [lia|lia|]. intros q _ [l' Hq].
      pose proof (path_length _ _ _ _ Ht Hq). lia.
    + cbn [mbind outcome_bind]. exists (calls x3), vs. rewrite Hc3, Hc2. split_and!; try done.
      rewrite <-(length_fmap snd (calls x3)), Hc3, length_app, Hc2. f_equal. f_equal. lia.
  - subst o. exists [], []. assert (m !! k = None) as ->. { rewrite <-Hm. unfold val_at. by rewrite Hl. }
    rewrite (keyed_none t paths) by done. by split_and!.
Qed.
End Theorems.

(** ** Faults and stale keys *)

(** The keys passed to the callbacks are stale: the buffer is not
    terminated behind the current character.  With the keys "abc" and "b",
    trie_iter_all reports the second one as "bbc", and trie_iter_prefix over
    "b" reports "b" and then "bb". *)
Theorem trie_iter_stale_keys (junk : nat → Z) (x y : Z) :
  ∃ t, insert_all false [([97; 98; 99], x); ([98], y)]%Z trie_create = Ret (tt, t)
    ∧ trie_iter_all (λ _, 0%Z) t = Ret (2, [([97; 98; 99], x); ([98; 98; 99], y)])%Z
    ∧ trie_iter_prefix junk t [98]%Z = Ret (2, [([98], y); ([98; 98], y)])%Z.
Proof. eexists. split; [vm_compute; reflexivity|]. split; vm_compute; reflexivity. Qed.

(** A byte from 128 on is a negative index. *)
Theorem trie_find_high_byte_faults {V} (t : trie V) n b k :
  nodes t !! root t = Some n → (128 ≤ b)%Z → trie_find (b :: k) t = Fault.
Proof.
  intros Hn Hb. unfold trie_find, trie_find_internal, mbind, st_bind, st_get. cbn [find_loop]. unfold mbind, st_bind, ld. rewrite Hn.
  unfold ld_child, char_index. by rewrite bool_decide_eq_false_2 by lia.
Qed.

(** ** Witnesses *)
Definition words : list (list Z * Z) := [([97; 98], 1); ([97], 2); ([97; 98; 99], 3); ([98], 4)]%Z.
Definition words_map : gmap (list Z) Z := build words ∅.
Definition words_trie : trie Z := match insert_all false words trie_create with Ret (_, t) => t | Fault => trie_create end.
Lemma words_ascii : Forall (λ x, Forall ascii x.1) words.
Proof. repeat constructor; vm_compute; reflexivity. Qed.
Lemma words_holds : trie_holds words_trie words_map.
Proof.
  destruct (insert_all_holds false words trie_create ∅ trie_holds_create words_ascii) as (t & Hrun & Ht).
  unfold words_trie. by rewrite Hrun.
Qed.
Lemma ascii_a : Forall ascii [97]%Z.
Proof. repeat constructor; vm_compute; reflexivity. Qed.

Lemma trie_refines_map_witness :
  ∃ t sz, insert_all false words trie_create = Ret (tt, t) ∧ trie_find [97]%Z t = Ret ((words_map !! [97]%Z, sz), t).
Proof. exact (trie_refines_map false words [97]%Z words_ascii ascii_a). Defined.
Lemma trie_remove_drops_subtree_witness :
  ∃ r o t', trie_remove false [97]%Z true words_trie = Ret ((r, o), t') ∧ (o ≫= fst) = words_map !! [97]%Z
    ∧ trie_holds t' (filter (λ x, ¬ [97]%Z `prefix_of` x.1) words_map).
Proof. refine (trie_remove_drops_subtree false words_trie words_map [97]%Z true words_holds ascii_a _). discriminate. Defined.
Definition ab_trie : trie Z := match insert_all false [([97; 98], 1)]%Z trie_create with Ret (_, t) => t | Fault => trie_create end.
Definition ab_map : gmap (list Z) Z := build [([97; 98], 1)]%Z ∅.
Lemma ab_holds : trie_holds ab_trie ab_map.
Proof.
  destruct (insert_all_holds false [([97; 98], 1)]%Z trie_create ∅ trie_holds_create) as (t & Hrun & Ht).
  - repeat constructor; vm_compute; reflexivity.
  - unfold ab_trie. by rewrite Hrun.
Qed.
Lemma trie_count_misses_prefixes_witness :
  ∃ t', trie_insert false [97]%Z (Some 9%Z) 8 false ab_trie = Ret (0%Z, t') ∧ count t' = count ab_trie
    ∧ trie_holds t' (<[[97]%Z := 9%Z]> ab_map) ∧ size (<[[97]%Z := 9%Z]> ab_map) = S (size ab_map).
Proof.
  refine (trie_count_misses_prefixes false ab_trie ab_map [97]%Z [98]%Z 9%Z 1%Z 8 false ab_holds ascii_a _ _); vm_compute; reflexivity.
Defined.
Lemma trie_iter_prefix_values_witness :
  ∃ calls vs, trie_iter_prefix (λ _, 0%Z) words_trie [97]%Z = Ret (Z.of_nat (length calls), calls)
    ∧ calls.*2 = [2%Z] ++ vs ∧ vs ≡ₚ (keyed [97]%Z words_map).*2.
Proof.
  refine (trie_iter_prefix_values (λ _, 0%Z) words_trie words_map [97]%Z words_holds ascii_a _ _); [vm_compute|cbn]; lia.
Defined.
