(* ===== verification/HashTable.v ===== *)
(** * The hash table (index/libhl/hashtable.c)

    A table of buckets.  A bucket holds the address of a list of items; the
    lists that exist are also chained, in the order of their creation, in the
    iterator list.  [lists] is the heap of these lists, [blocks] the memory that
    data pointers lead to, [freed] the calls of the callback free_item_cb in
    order, and [mallocs] counts the allocations, whose [n]th succeeds when
    [granted n].  The chains of the TAILQ macros are lists.  This file has what
    one thread does; the status word that threads share is in HashTableSync.
    Timers and performance counters are left out. *)
From S2P Require Import Prelude Heap LinkedList.

Notation ptr := positive.

Definition HT_SIZE_MIN : Z := 128.
Definition UINT32_MAX : Z := 2 ^ 32 - 1.
Definition KBUF_SIZE : nat := 32.
Definition HT_ITERATOR_STOP : Z := 0.
Definition HT_ITERATOR_CONTINUE : Z := 1.
Definition HT_ITERATOR_REMOVE : Z := -1.
Definition HT_ITERATOR_REMOVE_AND_STOP : Z := -2.

(** An item; klen is the length of [key]. *)
Record ht_item := mk_item {
  hash : Z;
  key : list Z;
  data : option ptr;
  dlen : Z
}.
Record ht_items_list := mk_items {
  head : list ht_item;
  index : Z
}.
Record hashtable := mk_ht {
  size : Z;
  max_size : Z;
  count : Z;
  seed : Z;
  items : list (option loc);
  iterator_list : list loc;
  lists : gmap loc ht_items_list;
  next_list : loc;
  blocks : gmap ptr (list Z);
  next_block : ptr;
  freed : list (option ptr);
  mallocs : nat
}.

#[export] Instance ht_item_eq_dec : EqDecision ht_item.
Proof. solve_decision. Defined.

Definition set_size n (t : hashtable) : hashtable :=
  mk_ht n (max_size t) (count t) (seed t) (items t) (iterator_list t) (lists t) (next_list t) (blocks t) (next_block t) (freed t) (mallocs t).
Definition set_count n (t : hashtable) : hashtable :=
  mk_ht (size t) (max_size t) n (seed t) (items t) (iterator_list t) (lists t) (next_list t) (blocks t) (next_block t) (freed t) (mallocs t).
Definition set_items its (t : hashtable) : hashtable :=
  mk_ht (size t) (max_size t) (count t) (seed t) its (iterator_list t) (lists t) (next_list t) (blocks t) (next_block t) (freed t) (mallocs t).
Definition set_iter ls (t : hashtable) : hashtable :=
  mk_ht (size t) (max_size t) (count t) (seed t) (items t) ls (lists t) (next_list t) (blocks t) (next_block t) (freed t) (mallocs t).
Definition set_lists h n (t : hashtable) : hashtable :=
  mk_ht (size t) (max_size t) (count t) (seed t) (items t) (iterator_list t) h n (blocks t) (next_block t) (freed t) (mallocs t).
Definition set_blocks b n (t : hashtable) : hashtable :=
  mk_ht (size t) (max_size t) (count t) (seed t) (items t) (iterator_list t) (lists t) (next_list t) b n (freed t) (mallocs t).
Definition add_freed d (t : hashtable) : hashtable :=
  mk_ht (size t) (max_size t) (count t) (seed t) (items t) (iterator_list t) (lists t) (next_list t) (blocks t) (next_block t) (freed t ++ [d]) (mallocs t).
Definition set_mallocs n (t : hashtable) : hashtable :=
  mk_ht (size t) (max_size t) (count t) (seed t) (items t) (iterator_list t) (lists t) (next_list t) (blocks t) (next_block t) (freed t) n.

(** ** Hashing and comparing keys *)
Definition ht_hash_step (h b : Z) : Z :=
  let h := u32 (h + b) in
  let h := u32 (h + u32 (Z.shiftl h 10)) in
  Z.lxor h (Z.shiftr h 6).
Definition ht_hash_one_at_a_time (seed : Z) (str : list Z) : Z :=
  let h := foldl ht_hash_step (u32 (seed + Z.of_nat (length str))) str in
  let h := u32 (h + u32 (Z.shiftl h 3)) in
  let h := Z.lxor h (Z.shiftr h 11) in
  u32 (h + u32 (Z.shiftl h 15)).

Definition HT_KEY_EQUALS (k1 k2 : list Z) : bool :=
  bool_decide (k1 !! 0 = k2 !! 0) && bool_decide (length k1 = length k2) && bool_decide (k1 = k2).

(** The first item of a chain with the given key, and its place. *)
Definition find_item (k : list Z) (its : list ht_item) : option (nat * ht_item) :=
  list_find (λ it, HT_KEY_EQUALS (key it) k = true) its.

Section Table.
Context (free_item_cb : bool) (granted : nat → bool).

(** ** Memory *)
Definition malloc : st hashtable bool :=
  t ← st_get; _ ← st_modify (set_mallocs (S (mallocs t))); mret (granted (mallocs t)).
Definition ld_list (l : loc) : st hashtable ht_items_list :=
  t ← st_get; match lists t !! l with Some L => mret L | None => st_fault end.
Definition upd_list (l : loc) (f : ht_items_list → ht_items_list) : st hashtable unit :=
  L ← ld_list l; st_modify (λ t, set_lists (<[l := f L]> (lists t)) (next_list t) t).
Definition new_list (i : Z) : st hashtable loc :=
  t ← st_get; _ ← st_modify (set_lists (<[next_list t := mk_items [] i]> (lists t)) (Pos.succ (next_list t)));
  mret (next_list t).
Definition free_list (l : loc) : st hashtable unit :=
  _ ← ld_list l; st_modify (λ t, set_lists (delete l (lists t)) (next_list t) t).
Definition item_at (i : Z) : st hashtable (option loc) :=
  t ← st_get; match items t !! Z.to_nat i with Some o => mret o | None => st_fault end.
Definition set_item_at (i : Z) (o : option loc) : st hashtable unit :=
  _ ← item_at i; st_modify (λ t, set_items (<[Z.to_nat i := o]> (items t)) t).
(** The first [n] bytes behind a pointer. *)
Definition ld_bytes (p : option ptr) (n : Z) : st hashtable (list Z) :=
  t ← st_get;
  match p ≫= λ p, blocks t !! p with
  | Some bs => if bool_decide (n ≤ Z.of_nat (length bs))%Z then mret (take (Z.to_nat n) bs) else st_fault
  | None => st_fault
  end.
(** malloc(dlen) and memcpy(..., data, dlen). *)
Definition copy_block (p : option ptr) (n : Z) : st hashtable (option ptr) :=
  ok ← malloc;
  if ok : bool then
    bs ← ld_bytes p n; t ← st_get;
    _ ← st_modify (set_blocks (<[next_block t := bs]> (blocks t)) (Pos.succ (next_block t)));
    mret (Some (next_block t))
  else mret None.
Definition call_free (d : option ptr) : st hashtable unit :=
  if free_item_cb then st_modify (add_freed d) else mret tt.

Definition ht_count : st hashtable Z := t ← st_get; mret (count t).

(** ** Creation *)
Definition ht_init (initial_size max random : Z) : st hashtable Z :=
  let n := if bool_decide (initial_size > HT_SIZE_MIN)%Z then initial_size else HT_SIZE_MIN in
  ok ← malloc;
  if negb ok then mret (-1)%Z
  else
    ok ← malloc;
    if negb ok then mret (-1)%Z
    else
      _ ← st_modify (λ t, mk_ht n max (count t) (random `mod` UINT32_MAX) (replicate (Z.to_nat n) None) [] (lists t)
            (next_list t) (blocks t) (next_block t) (freed t) (mallocs t));
      mret 0%Z.
(** The calloc'ed table over the memory [mem]; the counters of a table that could
    not be allocated are written before it is tested against NULL. *)
Definition ht_zero (mem : gmap ptr (list Z)) (nb : ptr) : hashtable := mk_ht 0 0 0 0 [] [] ∅ 1 mem nb [] 0.
Definition ht_create (mem : gmap ptr (list Z)) (nb : ptr) (initial_size max random : Z) : outcome (option hashtable) :=
  '(ok, t) ← malloc (ht_zero mem nb);
  if ok : bool then
    '(r, t) ← ht_init initial_size max random t;
    Ret (if bool_decide (r ≠ 0)%Z then None else Some t)
  else Fault.

(** ** Clearing *)
Fixpoint clear_items (its : list ht_item) : st hashtable unit :=
  match its with
  | [] => mret tt
  | it :: its =>
      _ ← call_free (data it);
      _ ← st_modify (λ t, set_count (u64 (count t - 1)) t);
      clear_items its
  end.
Fixpoint clear_lists (ls : list loc) : st hashtable unit :=
  match ls with
  | [] => mret tt
  | l :: ls =>
      L ← ld_list l;
      _ ← clear_items (head L);
      _ ← set_item_at (index L) None;
      _ ← st_modify (λ t, set_iter (filter (λ l', l' ≠ l) (iterator_list t)) t);
      _ ← free_list l;
      clear_lists ls
  end.
Definition ht_clear : st hashtable unit := t ← st_get; clear_lists (iterator_list t).
(** What is left of the lists, and the callbacks, once the table is destroyed. *)
Definition ht_destroy (t : hashtable) : outcome (gmap loc ht_items_list * list (option ptr)) :=
  '(_, t) ← ht_clear t; Ret (lists t, freed t).

(** ** Growth *)
Definition push_item (l : loc) (it : ht_item) : st hashtable unit :=
  upd_list l (λ L, mk_items (head L ++ [it]) (index L)).
(** One round of the while loop, with the new iterator list so far. *)
Definition move_item (new_size : Z) (it : ht_item) (iter : list loc) : st hashtable (list loc) :=
  let i := (hash it `mod` new_size)%Z in
  o ← item_at i;
  match o with
  | Some l => _ ← push_item l it; mret iter
  | None =>
      ok ← malloc;
      if ok : bool then
        l ← new_list i; _ ← set_item_at i (Some l); _ ← push_item l it; mret (iter ++ [l])
      else st_fault
  end.
Fixpoint move_items (new_size : Z) (its : list ht_item) (iter : list loc) : st hashtable (list loc) :=
  match its with
  | [] => mret iter
  | it :: its => iter ← move_item new_size it iter; move_items new_size its iter
  end.
Fixpoint move_lists (new_size : Z) (ls : list loc) (iter : list loc) : st hashtable (list loc) :=
  match ls with
  | [] => mret iter
  | l :: ls =>
      L ← ld_list l;
      iter ← move_items new_size (head L) iter;
      _ ← free_list l;
      move_lists new_size ls iter
  end.
Definition grown_size (t : hashtable) : Z :=
  let new_size := u64 (Z.shiftl (size t) 1) in
  if bool_decide (max_size t ≠ 0)%Z && bool_decide (new_size > max_size t)%Z then max_size t else new_size.
Definition ht_grow_table : st hashtable unit :=
  t ← st_get;
  if bool_decide (max_size t ≠ 0)%Z && bool_decide (size t >= max_size t)%Z then mret tt
  else
    ok ← malloc;
    if negb ok then mret tt
    else
      let new_size := grown_size t in
      ok ← malloc;
      if negb ok then mret tt
      else
        _ ← st_modify (set_items (replicate (Z.to_nat new_size) None));
        _ ← st_modify (set_size new_size);
        iter ← move_lists new_size (iterator_list t) [];
        st_modify (set_iter iter).

(** ** Buckets *)
Definition ht_get_list (h : Z) : st hashtable (option loc) :=
  t ← st_get; item_at (h `mod` size t).
Definition ht_set_list (h : Z) : st hashtable (option loc) :=
  ok ← malloc;
  if negb ok then mret None
  else
    t ← st_get;
    let i := (h `mod` size t)%Z in
    o ← item_at i;
    match o with
    | Some l => mret (Some l)
    | None =>
        l ← new_list i;
        _ ← set_item_at i (Some l);
        _ ← st_modify (λ t, set_iter (iterator_list t ++ [l]) t);
        mret (Some l)
    end.

(** ** Setting *)
(** A result, and what is stored through prev_data and prev_len. *)
Definition set_result : Type := Z * option (option ptr) * option Z.
Definition failed : set_result := ((-1)%Z, None, None).

(** The data of a new item; [None] when the copy cannot be allocated. *)
Definition new_data (d : option ptr) (n : Z) (copy : bool) : st hashtable (option (option ptr)) :=
  if copy then
    if bool_decide (n ≠ 0)%Z then
      c ← copy_block d n; mret (match c with Some p => Some (Some p) | None => None end)
    else mret (Some None)
  else mret (Some d).
(** The branch for a key without data: a new item at the end of the list. *)
Definition insert_item (l : loc) (h : Z) (k : list Z) (d : option ptr) (n : Z) (copy : bool) : st hashtable bool :=
  ok ← malloc;
  if negb ok then mret false
  else
    ok ← (if bool_decide (KBUF_SIZE < length k) then malloc else mret true);
    if negb ok then mret false
    else
      nd ← new_data d n copy;
      match nd with
      | None => mret false
      | Some d =>
          _ ← push_item l (mk_item h k d n);
          _ ← st_modify (λ t, set_count (u64 (count t + 1)) t);
          mret true
      end.
(** The branch for a key with data: the item at place [i] is overwritten. *)
Definition replace_item (l : loc) (i : nat) (d : option ptr) (n : Z) (copy : bool) : st hashtable bool :=
  let put f := upd_list l (λ L, mk_items (alter f i (head L)) (index L)) in
  _ ← put (λ it, mk_item (hash it) (key it) (data it) n);
  if copy then
    c ← copy_block d n;
    match c with
    | None => mret false
    | Some p => _ ← put (λ it, mk_item (hash it) (key it) (Some p) (dlen it)); mret true
    end
  else _ ← put (λ it, mk_item (hash it) (key it) d (dlen it)); mret true.

(** From the growth check to the return. *)
Definition set_finish (prev : option ptr) (plen : Z) (prev_data prev_len : bool) : st hashtable set_result :=
  t ← st_get;
  let current_size := size t in
  _ ← (if bool_decide (count t > u64 (current_size + current_size `div` 3))%Z &&
          (bool_decide (max_size t = 0)%Z || bool_decide (current_size < max_size t)%Z)
       then ht_grow_table else mret tt);
  _ ← (if bool_decide (is_Some prev) && negb prev_data then call_free prev else mret tt);
  mret (0%Z, if prev_data then Some prev else None, if prev_len then Some plen else None).

Definition ht_set_internal (k : list Z) (d : option ptr) (n : Z) (prev_data prev_len copy inx : bool) : st hashtable set_result :=
  if bool_decide (k = []) then mret failed
  else
    t ← st_get;
    let h := ht_hash_one_at_a_time (seed t) k in
    o ← ht_get_list h;
    o ← (match o with Some l => mret (Some l) | None => ht_set_list h end);
    match o with
    | None => mret failed
    | Some l =>
        L ← ld_list l;
        match find_item k (head L) with
        | Some (i, it) =>
            match data it with
            | Some prev =>
                if inx then
                  mret (1%Z, if prev_data then Some (Some prev) else None, if prev_len then Some (dlen it) else None)
                else
                  ok ← replace_item l i d n copy;
                  if ok : bool then set_finish (Some prev) (dlen it) prev_data prev_len else mret failed
            | None =>
                ok ← insert_item l h k d n copy;
                if ok : bool then set_finish None (dlen it) prev_data prev_len else mret failed
            end
        | None =>
            ok ← insert_item l h k d n copy;
            if ok : bool then set_finish None 0 prev_data prev_len else mret failed
        end
    end.

Definition ht_set (k : list Z) (d : option ptr) (n : Z) : st hashtable Z :=
  '(r, _, _) ← ht_set_internal k d n false false false false; mret r.
Definition ht_set_if_not_exists (k : list Z) (d : option ptr) (n : Z) : st hashtable Z :=
  '(r, _, _) ← ht_set_internal k d n false false false true; mret r.
Definition ht_get_or_set (k : list Z) (d : option ptr) (n : Z) (cur_data cur_len : bool) : st hashtable set_result :=
  ht_set_internal k d n cur_data cur_len false true.
Definition ht_get_and_set (k : list Z) (d : option ptr) (n : Z) (prev_data prev_len : bool) : st hashtable set_result :=
  ht_set_internal k d n prev_data prev_len false false.
Definition ht_set_copy (k : list Z) (d : option ptr) (n : Z) (prev_data prev_len : bool) : st hashtable set_result :=
  ht_set_internal k d n prev_data prev_len true false.

(** ** Calling a function on an item *)
Section Call.
Context {U : Type}.
(** A callback reads and writes the item's data and length, and its own argument. *)
Definition pair_callback : Type := U → option ptr → Z → st hashtable (Z * option ptr * Z * U).

Definition ht_call_internal (k : list Z) (cb : option pair_callback) (user : U) : st hashtable (Z * U) :=
  t ← st_get;
  o ← ht_get_list (ht_hash_one_at_a_time (seed t) k);
  match o with
  | None => mret ((-1)%Z, user)
  | Some l =>
      L ← ld_list l;
      match find_item k (head L) with
      | None => mret ((-1)%Z, user)
      | Some (i, it) =>
          match cb with
          | None => mret (0%Z, user)
          | Some cb =>
              '(ret, d, n, user) ← cb user (data it) (dlen it);
              _ ← upd_list l (λ L, mk_items (<[i := mk_item (hash it) (key it) d n]> (head L)) (index L));
              if bool_decide (ret = 1)%Z then
                _ ← upd_list l (λ L, mk_items (delete i (head L)) (index L));
                _ ← st_modify (λ t, set_count (u64 (count t - 1)) t);
                mret (0%Z, user)
              else mret (ret, user)
          end
      end
  end.
End Call.

(** Result and the values stored through prev_data and prev_len. *)
Definition prev_out : Type := option (option ptr) * option Z.

(** The test of the data against the block [match_]: first the lengths, then the first bytes. *)
Definition equals_match (value : option ptr) (vlen : Z) (match_ : option ptr) (match_size : Z) : st hashtable bool :=
  if bool_decide (match_size = vlen) then
    a ← ld_bytes value 1; b ← ld_bytes match_ 1;
    if bool_decide (a = b) then
      a ← ld_bytes value match_size; b ← ld_bytes match_ match_size; mret (bool_decide (a = b))
    else mret false
  else mret false.
Definition ht_set_if_equals_helper (prev_data prev_len : bool) (d : option ptr) (n : Z) (match_ : option ptr) (match_size : Z) :
    pair_callback (U := bool * prev_out) :=
  λ '(matched, _) value vlen,
  let out := (if prev_data then Some value else None, if prev_len then Some vlen else None) in
  eq ← equals_match value vlen match_ match_size;
  if eq : bool then
    _ ← (if prev_data then mret tt else call_free value);
    mret (0%Z, d, n, (true, out))
  else mret (0%Z, value, vlen, (matched, out)).
Definition ht_set_if_equals (k : list Z) (d : option ptr) (n : Z) (match_ : option ptr) (match_size : Z) (prev_data prev_len : bool) :
    st hashtable (Z * prev_out) :=
  if bool_decide (match_ = None) && bool_decide (match_size = 0)%Z then
    r ← ht_set_if_not_exists k d n; mret (r, (None, None))
  else
    '(r, (matched, out)) ← ht_call_internal k (Some (ht_set_if_equals_helper prev_data prev_len d n match_ match_size)) (false, (None, None));
    mret (if bool_decide (r = 0)%Z then (if matched : bool then 0 else 1)%Z else (-1)%Z, out).

Definition ht_delete_helper (unset prev_data prev_len : bool) (match_ : option ptr) (match_size : Z) : pair_callback (U := prev_out) :=
  λ out value vlen,
  differs ← (match match_ with
             | None => mret false
             | Some _ =>
                 if bool_decide (match_size ≠ vlen) then mret true
                 else a ← ld_bytes match_ vlen; b ← ld_bytes value vlen; mret (bool_decide (a ≠ b))
             end);
  if differs : bool then mret ((-1)%Z, value, vlen, out)
  else
    _ ← (if prev_data then mret tt else call_free value);
    let out := (if prev_data then Some value else None, if prev_len then Some vlen else None) in
    if unset then mret (0%Z, None, 0%Z, out) else mret (1%Z, value, vlen, out).
Definition ht_unset (k : list Z) (prev_data prev_len : bool) : st hashtable (Z * prev_out) :=
  ht_call_internal k (Some (ht_delete_helper true prev_data prev_len None 0)) (None, None).
Definition ht_delete_internal (k : list Z) (prev_data prev_len : bool) (match_ : option ptr) (match_size : Z) : st hashtable (Z * prev_out) :=
  ht_call_internal k (Some (ht_delete_helper false prev_data prev_len match_ match_size)) (None, None).
Definition ht_delete (k : list Z) (prev_data prev_len : bool) : st hashtable (Z * prev_out) :=
  ht_delete_internal k prev_data prev_len None 0.
Definition ht_delete_if_equals (k : list Z) (match_ : option ptr) (match_size : Z) : st hashtable Z :=
  '(r, _) ← ht_delete_internal k false false match_ match_size; mret r.
Definition ht_exists (k : list Z) : st hashtable bool :=
  '(r, _) ← ht_call_internal (U := unit) k None tt; mret (bool_decide (r = 0)%Z).

(** The argument of ht_get_helper: data and *dlen, unchanged until a hit. *)
Definition get_out : Type := option ptr * option Z.
Definition ht_get_helper (copy : bool) (copy_cb : option (option ptr → Z → st hashtable (option ptr))) : pair_callback (U := get_out) :=
  λ out value vlen,
  if copy then
    match copy_cb with
    | Some cb => d ← cb value vlen; mret (0%Z, value, vlen, (d, Some vlen))
    | None =>
        c ← copy_block value vlen;
        match c with
        | None => mret ((-1)%Z, value, vlen, (None, out.2))
        | Some p => mret (0%Z, value, vlen, (Some p, Some vlen))
        end
    end
  else mret (0%Z, value, vlen, (value, Some vlen)).
Definition ht_get_internal (k : list Z) (copy : bool) (copy_cb : option (option ptr → Z → st hashtable (option ptr))) : st hashtable get_out :=
  '(_, out) ← ht_call_internal k (Some (ht_get_helper copy copy_cb)) (None, None); mret out.
Definition ht_get (k : list Z) : st hashtable get_out := ht_get_internal k false None.
Definition ht_get_copy (k : list Z) : st hashtable get_out := ht_get_internal k true None.
Definition ht_get_deep_copy (k : list Z) (copy_cb : option ptr → Z → st hashtable (option ptr)) : st hashtable get_out :=
  ht_get_internal k true (Some copy_cb).

(** ** Iteration *)
Section Foreach.
Context {D : Type} (cb : D → list Z → option ptr → Z → outcome (D * Z)).
(** The inner loop: the item that stops it with the callback's answer, if any. *)
Fixpoint foreach_items (its : list ht_item) (i : nat) (user : D) : outcome (D * option (nat * ht_item * Z)) :=
  match its with
  | [] => Ret (user, None)
  | it :: its =>
      '(user, rc) ← cb user (key it) (data it) (dlen it);
      if bool_decide (rc <= 0)%Z then Ret (user, Some (i, it, rc)) else foreach_items its (S i) user
  end.
Fixpoint foreach_lists (ls : list loc) (user : D) : st hashtable D :=
  match ls with
  | [] => mret user
  | l :: ls =>
      L ← ld_list l;
      '(user, stop) ← (λ t, r ← foreach_items (head L) 0 user; Ret (r, t));
      match stop with
      | None => foreach_lists ls user
      | Some (i, it, rc) =>
          if bool_decide (rc = 0)%Z then mret user
          else
            _ ← upd_list l (λ L, mk_items (delete i (head L)) (index L));
            _ ← call_free (data it);
            if bool_decide (rc = -2)%Z then mret user else foreach_lists ls user
      end
  end.
Definition ht_foreach_pair (user : D) : st hashtable D :=
  t ← st_get; foreach_lists (iterator_list t) user.
End Foreach.
Definition ht_foreach_key {D} (cb : D → list Z → outcome (D * Z)) (user : D) : st hashtable D :=
  ht_foreach_pair (λ user k _ _, cb user k) user.
Definition ht_foreach_value {D} (cb : D → option ptr → Z → outcome (D * Z)) (user : D) : st hashtable D :=
  ht_foreach_pair (λ user _ v n, cb user v n) user.

(** ** Lists of all keys and values *)
Record hashtable_key := mk_hkey { k_data : list Z; k_vlen : Z }.
Record hashtable_value := mk_hvalue { v_data : option ptr; v_len : Z; v_key : list Z }.

Section Collect.
Context {A : Type} (allocs : nat) (mk : ht_item → A).
(** [n] allocations in a row, up to the first that fails. *)
Fixpoint mallocs_ok (n : nat) : st hashtable bool :=
  match n with O => mret true | S n => ok ← malloc; if ok : bool then mallocs_ok n else mret false end.
Fixpoint collect_items (its : list ht_item) (output : linked_list A) : st hashtable (option (linked_list A)) :=
  match its with
  | [] => mret (Some output)
  | it :: its =>
      ok ← mallocs_ok allocs;
      if ok : bool then
        output ← (λ t, '(_, o) ← list_push_value (Some (mk it)) output; Ret (o, t));
        collect_items its output
      else mret None
  end.
Fixpoint collect_lists (ls : list loc) (output : linked_list A) : st hashtable (option (linked_list A)) :=
  match ls with
  | [] => mret (Some output)
  | l :: ls =>
      L ← ld_list l;
      o ← collect_items (head L) output;
      match o with Some output => collect_lists ls output | None => mret None end
  end.
End Collect.
Definition ht_get_all_keys : st hashtable (option (linked_list hashtable_key)) :=
  t ← st_get; collect_lists 2 (λ it, mk_hkey (key it) (dlen it)) (iterator_list t) list_create.
Definition ht_get_all_values : st hashtable (option (linked_list hashtable_value)) :=
  t ← st_get; collect_lists 1 (λ it, mk_hvalue (data it) (dlen it) (key it)) (iterator_list t) list_create.
End Table.
