(* ===== verification/HashTableRep.v ===== *)
(** * The hash table: what a table represents

    [rep t LS m]: the table's lists are [LS], in the order of the iterator list,
    and its items hold the map [m].  The lemmas say what reading a bucket and
    rewriting one list do to the map, and that growth keeps it. *)
From S2P Require Import Prelude Heap HashTable.

Notation bucket := (loc * ht_items_list)%type.

Definition all_items (LS : list bucket) : list ht_item := LS ≫= λ p, head p.2.
Definition entry (it : ht_item) : list Z * (option ptr * Z) := (key it, (data it, dlen it)).

(** ** Chains that hold a map *)
Definition holds (its : list ht_item) (m : gmap (list Z) (option ptr * Z)) : Prop :=
  NoDup (key <$> its) ∧ m = list_to_map (entry <$> its).

Lemma fst_entry its : (entry <$> its).*1 = key <$> its.
Proof. by rewrite <-list_fmap_compose. Qed.

#[export] Instance holds_perm : Proper ((≡ₚ) ==> (=) ==> iff) holds.
Proof.
  assert (∀ a b m, a ≡ₚ b → holds a m → holds b m) as H.
  { intros a b m Hp [Hnd ->]. split; [by rewrite <-Hp|]. apply list_to_map_proper; [by rewrite fst_entry|by rewrite Hp]. }
  intros a b Hp m ? <-. split; apply H; [done|by symmetry].
Qed.

Lemma holds_cons it its m :
  holds (it :: its) m ↔ ∃ m', holds its m' ∧ m' !! key it = None ∧ m = <[key it := (data it, dlen it)]> m'.
Proof.
  unfold holds. cbn. rewrite NoDup_cons. split.
  - intros [[Hni Hnd] ->]. eexists. split; [by split|]. split; [|done].
    apply not_elem_of_list_to_map_1. by rewrite fst_entry.
  - intros (m' & [Hnd ->] & Hno & ->). split; [|done]. split; [|done].
    apply not_elem_of_list_to_map_2 in Hno. by rewrite fst_entry in Hno.
Qed.

Lemma holds_lookup its m it : holds its m → it ∈ its → m !! key it = Some (data it, dlen it).
Proof.
  intros [Hnd ->] Hin. apply elem_of_list_to_map_1; [by rewrite fst_entry|]. by apply (list_elem_of_fmap_2 entry).
Qed.
Lemma holds_None its m k : holds its m → (∀ it, it ∈ its → key it ≠ k) → m !! k = None.
Proof.
  intros [_ ->] Hno. apply not_elem_of_list_to_map_1. rewrite fst_entry. intros (it & -> & Hin)%list_elem_of_fmap. by apply (Hno it).
Qed.
Lemma holds_size its m : holds its m → base.size m = length its.
Proof.
  intros [Hnd ->]. rewrite <-length_map_to_list, map_to_list_to_map by (by rewrite fst_entry). by rewrite length_fmap.
Qed.

(** ** Finding an item in a chain *)
Lemma HT_KEY_EQUALS_spec k1 k2 : HT_KEY_EQUALS k1 k2 = true ↔ k1 = k2.
Proof.
  unfold HT_KEY_EQUALS. rewrite !andb_true_iff, !bool_decide_eq_true. split; [tauto|by intros ->].
Qed.
Lemma find_item_Some k its i it : find_item k its = Some (i, it) → its !! i = Some it ∧ key it = k.
Proof. intros (Hl & Hk & _)%list_find_Some. by apply HT_KEY_EQUALS_spec in Hk. Qed.
Lemma find_item_None k its : find_item k its = None → ∀ it, it ∈ its → key it ≠ k.
Proof.
  intros Hn%list_find_None it Hin Hk. rewrite Forall_forall in Hn. apply (Hn it); [done|]. by apply HT_KEY_EQUALS_spec.
Qed.

(** ** The bucket array *)
Definition slot_ok (LS : list bucket) (i : nat) (o : option loc) : Prop :=
  match o with
  | Some l => ∃ L, (l, L) ∈ LS ∧ index L = Z.of_nat i
  | None => ∀ p, p ∈ LS → index p.2 ≠ Z.of_nat i
  end.
Record buckets_ok (n : Z) (its : list (option loc)) (LS : list bucket) : Prop := {
  bo_pos : (0 < n)%Z;
  bo_len : length its = Z.to_nat n;
  bo_slots i o : its !! i = Some o → slot_ok LS i o;
  bo_nodup : NoDup ((λ p, index p.2) <$> LS);
  bo_mod p it : p ∈ LS → it ∈ head p.2 → (hash it `mod` n)%Z = index p.2;
  bo_range p : p ∈ LS → (0 ≤ index p.2 < n)%Z
}.

Record rep (t : hashtable) (LS : list bucket) (m : gmap (list Z) (option ptr * Z)) : Prop := {
  r_heap : heap_is (lists t) LS;
  r_fresh p : p ∈ LS → (p.1 < next_list t)%positive;
  r_iter : iterator_list t = LS.*1;
  r_buckets : buckets_ok (size t) (items t) LS;
  r_hash it : it ∈ all_items LS → hash it = ht_hash_one_at_a_time (seed t) (key it) ∧ key it ≠ [];
  r_holds : holds (all_items LS) m;
  r_count : count t = Z.of_nat (length (all_items LS));
  r_size : (size t < 2 ^ 62)%Z;
  r_max : (0 ≤ max_size t)%Z
}.
Definition ht_is (t : hashtable) (m : gmap (list Z) (option ptr * Z)) : Prop := ∃ LS, rep t LS m.

Lemma elem_all_items LS it : it ∈ all_items LS ↔ ∃ p, p ∈ LS ∧ it ∈ head p.2.
Proof. unfold all_items. rewrite list_elem_of_bind. naive_solver. Qed.
Lemma all_items_app A B : all_items (A ++ B) = all_items A ++ all_items B.
Proof. apply bind_app. Qed.
#[export] Instance all_items_perm : Proper ((≡ₚ) ==> (≡ₚ)) all_items.
Proof. intros A B H. unfold all_items. by rewrite H. Qed.

Lemma ht_is_count t m : ht_is t m → count t = Z.of_nat (base.size m).
Proof. intros (LS & [? ? ? ? ? Hh Hc ? ?]). by rewrite Hc, (holds_size _ _ Hh). Qed.

Lemma mod_range h n : (0 < n)%Z → (0 ≤ h `mod` n < n)%Z.
Proof. intros. by apply Z.mod_pos_bound. Qed.

(** What a bucket says about a key. *)
Definition bucket_says (t : hashtable) (k : list Z) (o : option loc) (LS : list bucket) (m : gmap (list Z) (option ptr * Z)) : Prop :=
  match o with
  | None => m !! k = None
  | Some l =>
      ∃ L, (l, L) ∈ LS ∧ lists t !! l = Some L
        ∧ index L = (ht_hash_one_at_a_time (seed t) k `mod` size t)%Z
        ∧ match find_item k (head L) with
          | None => m !! k = None
          | Some (i, it) => head L !! i = Some it ∧ key it = k ∧ m !! k = Some (data it, dlen it)
          end
  end.

Lemma heap_elem {N} (h : gmap loc N) L l n : heap_is h L → (l, n) ∈ L → h !! l = Some n.
Proof. intros [Hnd ->] Hin. by apply elem_of_list_to_map_1. Qed.

Lemma locate t LS m k :
  rep t LS m → ∃ o, ht_get_list (ht_hash_one_at_a_time (seed t) k) t = Ret (o, t) ∧ bucket_says t k o LS m
    ∧ slot_ok LS (Z.to_nat (ht_hash_one_at_a_time (seed t) k `mod` size t)) o.
Proof.
  intros [Hheap _ _ [Hpos Hlen Hslot Hnd Hmod Hrange] Hhash Hholds _ _ _]. set (h := ht_hash_one_at_a_time (seed t) k).
  pose proof (mod_range h (size t) Hpos) as Hr.
  destruct (lookup_lt_is_Some_2 (items t) (Z.to_nat (h `mod` size t))) as [o Ho]; [lia|].
  exists o. split; [unfold ht_get_list, item_at, mbind, st_bind, st_get; by rewrite Ho|].
  pose proof (Hslot _ _ Ho) as Hs. split; [|done].
  assert (∀ p it, p ∈ LS → it ∈ head p.2 → key it = k → index p.2 = (h `mod` size t)%Z) as Hwhere.
  { intros p it Hp Hin <-. rewrite <-(Hmod p it Hp Hin). destruct (Hhash it) as [-> _]; [|done]. apply elem_all_items. eauto. }
  destruct o as [l|]; cbn in *.
  - destruct Hs as (L & Hin & Hidx). exists L. rewrite Z2Nat.id in Hidx by lia. split_and!; [done|by eapply heap_elem|done|].
    destruct (find_item k (head L)) as [[i it]|] eqn:Hf.
    + apply find_item_Some in Hf as [Hi <-]. split_and!; [done..|]. apply (holds_lookup _ _ _ Hholds), elem_all_items.
      exists (l, L). split; [done|]. by eapply list_elem_of_lookup_2.
    + apply (holds_None _ _ _ Hholds). intros it (p & Hp & Hit)%elem_all_items Hk.
      assert (p = (l, L)) as ->; [|by apply (find_item_None _ _ Hf it)].
      apply list_elem_of_lookup in Hp as [a Ha]. apply list_elem_of_lookup in Hin as [b Hb].
      assert (a = b) as ->; [|congruence].
      eapply (NoDup_lookup _ a b (h `mod` size t)%Z Hnd).
      * rewrite list_lookup_fmap, Ha. cbn. f_equal. eapply Hwhere; [by eapply list_elem_of_lookup_2|done|done].
      * rewrite list_lookup_fmap, Hb. cbn. by f_equal.
  - apply (holds_None _ _ _ Hholds). intros it (p & Hp & Hit)%elem_all_items Hk. apply (Hs p Hp). rewrite Z2Nat.id by lia. eauto.
Qed.

(** Opens the table operations for evaluation. *)
Ltac ht_exec :=
  unfold malloc, upd_list, new_list, free_list, set_item_at, ld_list, item_at, mbind, st_bind, st_get, st_modify, mret, st_ret.

(** ** Rewriting one list *)
(** The fields that rewriting a list leaves alone. *)
Definition shape (t : hashtable) : Z * Z * Z * list (option loc) * list loc * loc :=
  (size t, max_size t, seed t, items t, iterator_list t, next_list t).

Lemma all_items_mid A l L B : all_items (A ++ (l, L) :: B) ≡ₚ head L ++ all_items (A ++ B).
Proof.
  rewrite !all_items_app. unfold all_items at 2. cbn. fold (all_items B). rewrite !app_assoc.
  apply Permutation_app_tail, Permutation_app_comm.
Qed.

Lemma buckets_relist n its A l L B L' :
  buckets_ok n its (A ++ (l, L) :: B) → index L' = index L → (∀ it, it ∈ head L' → (hash it `mod` n)%Z = index L) →
  buckets_ok n its (A ++ (l, L') :: B).
Proof.
  intros [Hpos Hlen Hslot Hnd Hmod Hrange] Hidx Hnew.
  assert (∀ p, p ∈ A ++ (l, L') :: B → p = (l, L') ∨ p ∈ A ++ (l, L) :: B) as Hold.
  { intros p. rewrite !elem_of_app, !elem_of_cons. tauto. }
  split; [done|done| | | |].
  - intros i o Ho. specialize (Hslot i o Ho). destruct o as [l'|]; cbn in *.
    + destruct Hslot as (L0 & Hin & Hi). rewrite elem_of_app, elem_of_cons in Hin. destruct Hin as [Hin|[[= -> ->]|Hin]].
      * exists L0. split; [|done]. apply elem_of_app. by left.
      * exists L'. split; [|by rewrite Hidx]. rewrite elem_of_app, elem_of_cons. auto.
      * exists L0. split; [|done]. rewrite elem_of_app, elem_of_cons. auto.
    + intros p [->|Hp]%Hold; [|by apply Hslot]. cbn. rewrite Hidx. apply (Hslot (l, L)). rewrite elem_of_app, elem_of_cons. auto.
  - rewrite fmap_app in *. cbn in *. by rewrite Hidx.
  - intros p it [->|Hp]%Hold Hit; [cbn; rewrite Hidx; by apply Hnew|by apply Hmod].
  - intros p [->|Hp]%Hold; [|by apply Hrange]. cbn. rewrite Hidx. apply (Hrange (l, L)). rewrite elem_of_app, elem_of_cons. auto.
Qed.

Lemma heap_is_put {N} (h : gmap loc N) A l x B y : heap_is h (A ++ (l, x) :: B) → heap_is (<[l := y]> h) (A ++ (l, y) :: B).
Proof. rewrite <-!Permutation_middle. intros Hh. by apply heap_is_cons in Hh as (_ & Hput & _). Qed.

Lemma rep_list t t' A l L B L' m m' :
  rep t (A ++ (l, L) :: B) m → shape t' = shape t → lists t' = <[l := L']> (lists t) → index L' = index L →
  (∀ it, it ∈ head L' → hash it = ht_hash_one_at_a_time (seed t) (key it) ∧ key it ≠ [] ∧ (hash it `mod` size t)%Z = index L) →
  holds (head L' ++ all_items (A ++ B)) m' → count t' = Z.of_nat (length (head L') + length (all_items (A ++ B))) →
  rep t' (A ++ (l, L') :: B) m'.
Proof.
  intros [Hheap Hfresh Hiter Hb Hhash Hholds Hcount Hsize Hmax] Hsh Hl Hidx Hnew Hholds' Hc.
  injection Hsh as Hs1 Hs2 Hs3 Hs4 Hs5 Hs6. split.
  - rewrite Hl. by eapply heap_is_put.
  - intros p Hp. rewrite Hs6. rewrite elem_of_app, elem_of_cons in Hp. destruct Hp as [Hp|[->|Hp]].
    + apply Hfresh. apply elem_of_app. by left.
    + apply (Hfresh (l, L)). rewrite elem_of_app, elem_of_cons. auto.
    + apply Hfresh. rewrite elem_of_app, elem_of_cons. auto.
  - rewrite Hs5, Hiter, !fmap_app. done.
  - rewrite Hs1, Hs4. eapply buckets_relist; [done|done|]. intros it Hit. by apply Hnew.
  - intros it Hit. rewrite all_items_mid in Hit. rewrite Hs3. apply elem_of_app in Hit as [Hit|Hit].
    + destruct (Hnew it Hit) as (? & ? & _). done.
    + apply Hhash. rewrite all_items_mid. apply elem_of_app. by right.
  - by rewrite all_items_mid.
  - by rewrite all_items_mid, length_app.
  - by rewrite Hs1.
  - by rewrite Hs2.
Qed.

(** The items of a list of the table, and the rest. *)
Lemma rep_split t LS m l L :
  rep t LS m → (l, L) ∈ LS → ∃ A B, LS = A ++ (l, L) :: B ∧ holds (head L ++ all_items (A ++ B)) m
    ∧ count t = Z.of_nat (length (head L) + length (all_items (A ++ B)))
    ∧ (∀ it, it ∈ head L → hash it = ht_hash_one_at_a_time (seed t) (key it) ∧ key it ≠ [] ∧ (hash it `mod` size t)%Z = index L).
Proof.
  intros [_ _ _ [_ _ _ _ Hmod _] Hhash Hholds Hcount _ _] Hin. apply list_elem_of_split in Hin as (A & B & ->). exists A, B.
  rewrite all_items_mid in Hholds. rewrite all_items_mid, length_app in Hcount. split_and!; [done..|].
  intros it Hit. destruct (Hhash it) as [? ?]; [rewrite all_items_mid; apply elem_of_app; by left|].
  split_and!; [done..|]. apply (Hmod (l, L)); [|done]. rewrite elem_of_app, elem_of_cons. auto.
Qed.

Lemma rep_push t t' LS m l L k d n :
  rep t LS m → (l, L) ∈ LS → let h := ht_hash_one_at_a_time (seed t) k in
  k ≠ [] → index L = (h `mod` size t)%Z → m !! k = None → shape t' = shape t →
  lists t' = <[l := mk_items (head L ++ [mk_item h k d n]) (index L)]> (lists t) → count t' = (count t + 1)%Z →
  ht_is t' (<[k := (d, n)]> m).
Proof.
  intros Hrep Hin h Hk Hidx Hno Hsh Hl Hc. destruct (rep_split _ _ _ _ _ Hrep Hin) as (A & B & -> & Hholds & Hcount & Hits).
  exists (A ++ (l, mk_items (head L ++ [mk_item h k d n]) (index L)) :: B). eapply rep_list; [done|done|done|done| | |].
  - cbn. intros it. rewrite elem_of_app, list_elem_of_singleton. intros [Hit| ->]; [by apply Hits|]. cbn. done.
  - cbn. rewrite <-app_assoc. cbn. rewrite <-Permutation_middle. apply holds_cons. cbn. eauto.
  - cbn. rewrite Hc, Hcount, length_app. cbn. lia.
Qed.

Lemma alter_insert {A} (f : A → A) (l : list A) i x : l !! i = Some x → alter f i l = <[i := f x]> l.
Proof. revert i. induction l as [|y l IH]; intros [|i] H; cbn in *; simplify_eq; [done|]. by rewrite IH. Qed.

Lemma rep_put t t' LS m l L i it d n :
  rep t LS m → (l, L) ∈ LS → head L !! i = Some it → shape t' = shape t →
  lists t' = <[l := mk_items (<[i := mk_item (hash it) (key it) d n]> (head L)) (index L)]> (lists t) → count t' = count t →
  ht_is t' (<[key it := (d, n)]> m).
Proof.
  intros Hrep Hin Hi Hsh Hl Hc. destruct (rep_split _ _ _ _ _ Hrep Hin) as (A & B & -> & Hholds & Hcount & Hits).
  exists (A ++ (l, mk_items (<[i := mk_item (hash it) (key it) d n]> (head L)) (index L)) :: B).
  apply list_elem_of_split_length in Hi as (X & Y & HL & ->). rewrite HL in *.
  rewrite insert_app_r_alt, Nat.sub_diag in * by lia. cbn in *.
  eapply rep_list; [done|done|done|done| | |].
  - cbn. intros it'. rewrite elem_of_app, elem_of_cons. intros [Hit|[->|Hit]].
    + apply Hits. apply elem_of_app. by left.
    + cbn. apply Hits. rewrite elem_of_app, elem_of_cons. auto.
    + apply Hits. rewrite elem_of_app, elem_of_cons. auto.
  - cbn. rewrite <-app_assoc in *. cbn in *. rewrite <-Permutation_middle in *.
    apply holds_cons in Hholds as (m' & Hh & Hno & ->). rewrite insert_insert_eq. apply holds_cons. cbn. eauto.
  - cbn. rewrite Hc, Hcount, !length_app. done.
Qed.

Lemma rep_delete t t' LS m l L i it :
  rep t LS m → (l, L) ∈ LS → head L !! i = Some it → shape t' = shape t →
  lists t' = <[l := mk_items (delete i (head L)) (index L)]> (lists t) → count t' = (count t - 1)%Z →
  ht_is t' (delete (key it) m).
Proof.
  intros Hrep Hin Hi Hsh Hl Hc. destruct (rep_split _ _ _ _ _ Hrep Hin) as (A & B & -> & Hholds & Hcount & Hits).
  exists (A ++ (l, mk_items (delete i (head L)) (index L)) :: B).
  apply list_elem_of_split_length in Hi as (X & Y & HL & ->). rewrite HL in *. rewrite delete_middle in *.
  eapply rep_list; [done|done|done|done| | |].
  - cbn. intros it'. rewrite elem_of_app. intros Hit. apply Hits. rewrite elem_of_app, elem_of_cons. tauto.
  - cbn. rewrite <-app_assoc in *. cbn in *. rewrite <-Permutation_middle in Hholds.
    apply holds_cons in Hholds as (m' & Hh & Hno & ->). by rewrite delete_insert_id.
  - cbn. rewrite Hc, Hcount, !length_app. cbn. lia.
Qed.

(** ** A new list at a free bucket *)
Lemma heap_is_new {N} (h : gmap loc N) LS l x :
  heap_is h LS → (∀ p, p ∈ LS → (p.1 < l)%positive) → heap_is (<[l := x]> h) (LS ++ [(l, x)]).
Proof.
  intros [Hn ->] Hfresh. rewrite <-Permutation_cons_append. split; [|done]. cbn. constructor; [|done].
  intros (p & Hp1 & Hp)%list_elem_of_fmap. specialize (Hfresh p Hp). lia.
Qed.

Lemma buckets_new n its LS i l :
  buckets_ok n its LS → (0 ≤ i < n)%Z → slot_ok LS (Z.to_nat i) None →
  buckets_ok n (<[Z.to_nat i := Some l]> its) (LS ++ [(l, mk_items [] i)]).
Proof.
  intros [Hpos Hlen Hslot Hnd Hmod Hrange] Hi Hfree. split; [done|by rewrite length_insert| | | |].
  - intros j o [(<- & <- & _)|(Hne & Ho)]%list_lookup_insert_Some.
    + cbn. exists (mk_items [] i). split; [|cbn; lia]. rewrite elem_of_app, list_elem_of_singleton. by right.
    + specialize (Hslot j o Ho). destruct o as [l'|]; cbn in *.
      * destruct Hslot as (L & ? & ?). exists L. split; [|done]. apply elem_of_app. by left.
      * intros p. rewrite elem_of_app, list_elem_of_singleton. intros [Hp| ->]; [by apply Hslot|cbn; lia].
  - rewrite fmap_app. cbn. rewrite <-Permutation_cons_append. constructor; [|done].
    intros (p & Hp1 & Hp)%list_elem_of_fmap. apply (Hfree p Hp). rewrite <-Hp1. lia.
  - intros p it. rewrite elem_of_app, list_elem_of_singleton. intros [Hp| ->]; [by apply Hmod|]. cbn. by intros ?%elem_of_nil.
  - intros p. rewrite elem_of_app, list_elem_of_singleton. intros [Hp| ->]; [by apply Hrange|]. done.
Qed.

Lemma rep_new_list t t' LS m i :
  rep t LS m → (0 ≤ i < size t)%Z → slot_ok LS (Z.to_nat i) None → let l := next_list t in
  shape t' = (size t, max_size t, seed t, <[Z.to_nat i := Some l]> (items t), iterator_list t ++ [l], Pos.succ l) →
  lists t' = <[l := mk_items [] i]> (lists t) → count t' = count t →
  rep t' (LS ++ [(l, mk_items [] i)]) m.
Proof.
  intros [Hheap Hfresh Hiter Hb Hhash Hholds Hcount Hsize Hmax] Hi Hfree l Hsh Hl Hc. injection Hsh as Hs1 Hs2 Hs3 Hs4 Hs5 Hs6.
  assert (all_items (LS ++ [(l, mk_items [] i)]) = all_items LS) as Hall.
  { rewrite all_items_app. cbn. by rewrite app_nil_r. }
  split; rewrite ?Hall, ?Hs1, ?Hs2, ?Hs3, ?Hs4, ?Hs5, ?Hs6, ?Hl, ?Hc; try done.
  - by apply heap_is_new.
  - intros p. rewrite elem_of_app, list_elem_of_singleton. intros [Hp| ->]; [specialize (Hfresh p Hp)|cbn]; lia.
  - by rewrite Hiter, fmap_app.
  - by apply buckets_new.
Qed.

(** ** Growth *)
Section Grow.
Context (granted : nat → bool).
Hypothesis Hgrant : ∀ n, granted n = true.

(** Half way: the lists [New] are filled, the lists [Rest] still to be emptied. *)
Definition moving (n : Z) (New Rest : list bucket) (t : hashtable) : Prop :=
  heap_is (lists t) (New ++ Rest) ∧ (∀ p, p ∈ New ++ Rest → (p.1 < next_list t)%positive) ∧ buckets_ok n (items t) New.
(** What moving leaves alone. *)
Definition moved (t t' : hashtable) : Prop := ∃ a b c d, t' = set_mallocs a (set_items b (set_lists c d t)).
Lemma moved_refl t : moved t t.
Proof. exists (mallocs t), (items t), (lists t), (next_list t). by destruct t. Qed.
Lemma moved_trans t1 t2 t3 : moved t1 t2 → moved t2 t3 → moved t1 t3.
Proof. intros (a & b & c & d & ->) (a' & b' & c' & d' & ->). by exists a', b', c', d'. Qed.

Lemma push_moved_ok n l L it A B Rest t :
  moving n (A ++ (l, L) :: B) Rest t → (hash it `mod` n)%Z = index L →
  ∃ t', push_item l it t = Ret (tt, t') ∧ moved t t'
    ∧ moving n (A ++ (l, mk_items (head L ++ [it]) (index L)) :: B) Rest t'.
Proof.
  intros (Hheap & Hfresh & Hb) Hi. assert (lists t !! l = Some L) as Hl.
  { eapply heap_elem; [done|]. rewrite !elem_of_app, elem_of_cons. auto. }
  eexists. split; [unfold push_item, upd_list, ld_list, mbind, st_bind, st_get; rewrite Hl; reflexivity|]. unfold moving. split_and!.
  - exists (mallocs t), (items t), (<[l:=mk_items (head L ++ [it]) (index L)]> (lists t)), (next_list t). by destruct t.
  - cbn. rewrite <-app_assoc in *. cbn [app] in *. by eapply heap_is_put.
  - cbn. intros p. rewrite <-app_assoc in *. cbn [app] in *. rewrite elem_of_app, elem_of_cons. intros [Hp|[->|Hp]].
    + apply Hfresh. apply elem_of_app. by left.
    + apply (Hfresh (l, L)). rewrite elem_of_app, elem_of_cons. auto.
    + apply Hfresh. rewrite elem_of_app, elem_of_cons. auto.
  - cbn. eapply buckets_relist; [done|done|]. cbn. intros x. rewrite elem_of_app, list_elem_of_singleton.
    intros [Hx| ->]; [|done]. destruct Hb as [_ _ _ _ Hmod _]. apply (Hmod (l, L)); [|done]. rewrite elem_of_app, elem_of_cons. auto.
Qed.

Lemma move_item_ok n it New Rest t :
  moving n New Rest t → ∃ New' t', move_item granted n it New.*1 t = Ret (New'.*1, t') ∧ moved t t' ∧ moving n New' Rest t'
    ∧ all_items New' ≡ₚ it :: all_items New.
Proof.
  intros Hmv. destruct Hmv as (Hheap & Hfresh & Hb). pose proof Hb as [Hpos Hlen Hslot _ _ _].
  pose proof (mod_range (hash it) n Hpos) as Hr. set (i := (hash it `mod` n)%Z) in *.
  destruct (lookup_lt_is_Some_2 (items t) (Z.to_nat i)) as [o Ho]; [lia|]. specialize (Hslot _ _ Ho).
  unfold move_item, item_at, mbind, st_bind, st_get. fold i. rewrite Ho. cbn. destruct o as [l|].
  - destruct Hslot as (L & Hin & Hidx). rewrite Z2Nat.id in Hidx by lia. apply list_elem_of_split in Hin as (A & B & ->).
    destruct (push_moved_ok n l L it A B Rest t) as (t' & Hrun & Hm & Hmv'); [done|by rewrite Hidx|].
    exists (A ++ (l, mk_items (head L ++ [it]) (index L)) :: B), t'. rewrite Hrun. split_and!; [cbn|done|done|].
    + do 2 f_equal. by rewrite !fmap_app.
    + rewrite !all_items_mid. cbn. rewrite <-app_assoc. cbn. by rewrite <-Permutation_middle.
  - ht_exec. rewrite Hgrant. cbn. rewrite Ho. cbn. set (l := next_list t).
    set (t1 := set_items _ _).
    destruct (push_moved_ok n l (mk_items [] i) it New [] Rest t1) as (t' & Hrun & Hm & Hmv'); [|done|].
    { unfold moving. split_and!; unfold t1; cbn.
      - rewrite <-app_assoc. cbn. rewrite <-Permutation_middle. rewrite Permutation_cons_append. by apply heap_is_new.
      - intros p. rewrite <-app_assoc. cbn. rewrite elem_of_app, elem_of_cons. intros Hp.
        assert (p.1 = l ∨ p ∈ New ++ Rest) as [->|Hp'] by (rewrite elem_of_app; destruct Hp as [|[->|]]; auto); [lia|].
        specialize (Hfresh p Hp'). lia.
      - by apply buckets_new. }
    exists (New ++ [(l, mk_items [it] i)]), t'. rewrite Hrun. split_and!.
    + do 2 f_equal. by rewrite fmap_app.
    + eapply moved_trans; [|done]. by eexists _, _, _, _.
    + done.
    + rewrite all_items_mid. by rewrite app_nil_r.
Qed.

Lemma move_items_ok n its New Rest t :
  moving n New Rest t → ∃ New' t', move_items granted n its New.*1 t = Ret (New'.*1, t') ∧ moved t t' ∧ moving n New' Rest t'
    ∧ all_items New' ≡ₚ its ++ all_items New.
Proof.
  revert New t. induction its as [|it its IH]; intros New t Hmv; [exists New, t; eauto using moved_refl|].
  destruct (move_item_ok n it New Rest t Hmv) as (N1 & t1 & Hrun & Hm & Hmv1 & Hp).
  destruct (IH N1 t1 Hmv1) as (N2 & t2 & Hrun2 & Hm2 & Hmv2 & Hp2). exists N2, t2. split_and!; [|by eapply moved_trans|done|].
  - cbn. unfold mbind, st_bind. by rewrite Hrun.
  - rewrite Hp2, Hp. cbn. by rewrite Permutation_middle.
Qed.

Lemma move_lists_ok n Rest New t :
  moving n New Rest t → ∃ New' t', move_lists granted n Rest.*1 New.*1 t = Ret (New'.*1, t') ∧ moved t t' ∧ moving n New' [] t'
    ∧ all_items New' ≡ₚ all_items Rest ++ all_items New.
Proof.
  revert New t. induction Rest as [|[l L] Rest IH]; intros New t Hmv; [exists New, t; eauto using moved_refl|].
  destruct (move_items_ok n (head L) New ((l, L) :: Rest) t Hmv) as (N1 & t1 & Hrun & Hm & (Hheap1 & Hfresh1 & Hb1) & Hp).
  assert (lists t !! l = Some L) as Hl. { destruct Hmv as [Hheap _]. eapply heap_elem; [done|]. rewrite elem_of_app, elem_of_cons. auto. }
  assert (lists t1 !! l = Some L) as Hl1. { eapply heap_elem; [done|]. rewrite elem_of_app, elem_of_cons. auto. }
  set (t2 := set_lists (delete l (lists t1)) (next_list t1) t1).
  destruct (IH N1 t2) as (N3 & t3 & Hrun3 & Hm3 & Hmv3 & Hp3).
  { unfold moving. split_and!; cbn; [|intros p Hp'; apply Hfresh1; rewrite elem_of_app, elem_of_cons; rewrite elem_of_app in Hp'; tauto|done].
    rewrite <-Permutation_middle in Hheap1. by apply heap_is_cons in Hheap1 as (_ & _ & ?). }
  exists N3, t3. split_and!; [| |done|].
  - cbn. unfold ld_list, mbind, st_bind, st_get. rewrite Hl. cbn. rewrite Hrun.
    unfold free_list, ld_list, mbind, st_bind, st_get. rewrite Hl1. cbn. exact Hrun3.
  - eapply moved_trans; [done|]. eapply moved_trans; [|done].
    exists (mallocs t1), (items t1), (delete l (lists t1)), (next_list t1). by destruct t1.
  - rewrite Hp3, Hp. change (all_items ((l, L) :: Rest)) with (head L ++ all_items Rest).
    rewrite !app_assoc. apply Permutation_app_tail, Permutation_app_comm.
Qed.

(** The fields growth leaves alone. *)
Definition contents (t : hashtable) : Z * Z * Z * gmap ptr (list Z) * ptr * list (option ptr) :=
  (max_size t, count t, seed t, blocks t, next_block t, freed t).

Lemma grown_size_range t :
  (0 < size t)%Z → (size t < 2 ^ 61)%Z → (0 ≤ max_size t)%Z → (0 < grown_size t < 2 ^ 62)%Z.
Proof.
  intros. unfold grown_size. rewrite Z.shiftl_mul_pow2 by lia. rewrite u64_id by (unfold in_u64; lia).
  repeat case_bool_decide; cbn; lia.
Qed.

Lemma ht_grow_ok t m :
  ht_is t m → (size t < 2 ^ 61)%Z → ∃ t', ht_grow_table granted t = Ret (tt, t') ∧ ht_is t' m ∧ contents t' = contents t.
Proof.
  intros (LS & Hrep) Hlt. pose proof Hrep as [Hheap Hfresh Hiter [Hpos Hlen _ _ _ _] Hhash Hholds Hcount Hsize Hmax].
  unfold ht_grow_table. ht_exec.
  destruct (bool_decide (max_size t ≠ 0)%Z && bool_decide (size t >= max_size t)%Z) eqn:Hfull.
  { exists t. split_and!; [done|by exists LS|done]. }
  pose proof (grown_size_range t Hpos Hlt Hmax) as Hn. set (n := grown_size t) in *. do 2 (rewrite Hgrant; cbn).
  set (t1 := set_size _ _).
  destruct (move_lists_ok n LS [] t1) as (New & t' & Hrun & (a & b & c & d & ->) & (Hheap' & Hfresh' & Hb') & Hp).
  { unfold moving. split_and!; cbn; [done|done|]. split; cbn; [lia|by rewrite length_replicate| |constructor| |].
    - intros i o (-> & _)%lookup_replicate. cbn. by intros ? ?%elem_of_nil.
    - by intros ? ? ?%elem_of_nil.
    - by intros ? ?%elem_of_nil. }
  cbn in Hrun. rewrite Hiter, Hrun. eexists. split_and!; [reflexivity| |done]. rewrite app_nil_r in *. exists New.
  split; cbn in *; try done; try lia; [intros it; rewrite Hp; by apply Hhash|by rewrite Hp..].
Qed.
End Grow.
