(* ===== verification/HashTableOps.v ===== *)
(** * The hash table: its operations on the represented map

    [store] is the abstract state, the map with the memory behind its data
    pointers and the log of freed data; each operation has a specification on
    stores, defined whenever the memory it copies or compares is there. *)
From S2P Require Import Prelude Heap HashTable HashTableRep.

Notation data_map := (gmap (list Z) (option ptr * Z)).

Record store := mk_store {
  s_map : data_map;
  s_blocks : gmap ptr (list Z);
  s_next : ptr;
  s_freed : list (option ptr)
}.
Definition put_map (f : data_map → data_map) (σ : store) : store := mk_store (f (s_map σ)) (s_blocks σ) (s_next σ) (s_freed σ).
Definition ht_abs (t : hashtable) (σ : store) : Prop :=
  ht_is t (s_map σ) ∧ blocks t = s_blocks σ ∧ next_block t = s_next σ ∧ freed t = s_freed σ.

(** ** Specifications *)
Section Spec.
Context (free_item_cb : bool).
Definition free_spec (d : option ptr) (σ : store) : store :=
  if free_item_cb then mk_store (s_map σ) (s_blocks σ) (s_next σ) (s_freed σ ++ [d]) else σ.
Definition bytes_spec (p : option ptr) (n : Z) (σ : store) : option (list Z) :=
  p ← p; bs ← s_blocks σ !! p; if bool_decide (n ≤ Z.of_nat (length bs))%Z then Some (take (Z.to_nat n) bs) else None.
Definition copy_spec (p : option ptr) (n : Z) (σ : store) : option (option ptr * store) :=
  bs ← bytes_spec p n σ;
  Some (Some (s_next σ), mk_store (s_map σ) (<[s_next σ := bs]> (s_blocks σ)) (Pos.succ (s_next σ)) (s_freed σ)).
Definition data_spec (copy : bool) (d : option ptr) (n : Z) (σ : store) : option (option ptr * store) :=
  if copy then copy_spec d n σ else Some (d, σ).

Definition set_spec (k : list Z) (d : option ptr) (n : Z) (prev_data prev_len copy inx : bool) (σ : store) : option (set_result * store) :=
  match s_map σ !! k with
  | Some (Some prev, plen) =>
      let outs := (if prev_data then Some (Some prev) else None, if prev_len then Some plen else None) in
      if inx then Some ((1%Z, outs.1, outs.2), σ)
      else
        '(d, σ) ← data_spec copy d n σ;
        Some ((0%Z, outs.1, outs.2), (if prev_data then id else free_spec (Some prev)) (put_map <[k := (d, n)]> σ))
  | _ =>
      '(d, σ) ← data_spec copy d n σ;
      Some ((0%Z, if prev_data then Some None else None, if prev_len then Some 0%Z else None), put_map <[k := (d, n)]> σ)
  end.
Definition get_spec (k : list Z) (copy : bool) (σ : store) : option (get_out * store) :=
  match s_map σ !! k with
  | None => Some ((None, None), σ)
  | Some (d, n) => '(d, σ) ← data_spec copy d n σ; Some ((d, Some n), σ)
  end.
Definition delete_spec (k : list Z) (prev_data prev_len : bool) (match_ : option ptr) (match_size : Z) (σ : store) :
    option ((Z * prev_out) * store) :=
  match s_map σ !! k with
  | None => Some (((-1)%Z, (None, None)), σ)
  | Some (d, n) =>
      same ← (match match_ with
              | None => Some true
              | Some _ => if bool_decide (match_size ≠ n) then Some false
                          else a ← bytes_spec match_ n σ; b ← bytes_spec d n σ; Some (bool_decide (a = b))
              end);
      if same : bool then
        Some ((0%Z, (if prev_data then Some d else None, if prev_len then Some n else None)),
              put_map (delete k) ((if prev_data then id else free_spec d) σ))
      else Some (((-1)%Z, (None, None)), σ)
  end.
Definition same_spec (v : option ptr) (vlen : Z) (match_ : ptr) (match_size : Z) (σ : store) : option bool :=
  if bool_decide (match_size = vlen) then
    a ← bytes_spec v 1 σ; b ← bytes_spec (Some match_) 1 σ;
    if bool_decide (a = b) then
      a ← bytes_spec v match_size σ; b ← bytes_spec (Some match_) match_size σ; Some (bool_decide (a = b))
    else Some false
  else Some false.
Definition set_if_spec (k : list Z) (d : option ptr) (n : Z) (match_ : ptr) (match_size : Z) (prev_data prev_len : bool) (σ : store) :
    option ((Z * prev_out) * store) :=
  match s_map σ !! k with
  | None => Some (((-1)%Z, (None, None)), σ)
  | Some (v, vlen) =>
      let outs := (if prev_data then Some v else None, if prev_len then Some vlen else None) in
      same ← same_spec v vlen match_ match_size σ;
      if same : bool then
        Some ((0%Z, outs), put_map <[k := (d, n)]> ((if prev_data then id else free_spec v) σ))
      else Some ((1%Z, outs), σ)
  end.
End Spec.

(** ** Reading memory *)
Lemma ld_bytes_abs t σ p n bs : ht_abs t σ → bytes_spec p n σ = Some bs → ld_bytes p n t = Ret (bs, t).
Proof.
  intros (_ & Hb & _ & _) Hs. unfold ld_bytes. ht_exec. rewrite Hb. unfold bytes_spec in Hs. destruct p as [p|]; [|done]. cbn in *.
  destruct (s_blocks σ !! p) as [x|]; [|done]. cbn in *. case_bool_decide; by simplify_eq.
Qed.

(** States that differ in the memory or the counters only. *)
Definition table_of (t : hashtable) : Z * Z * Z * Z * list (option loc) * list loc * gmap loc ht_items_list * loc :=
  (size t, max_size t, count t, seed t, items t, iterator_list t, lists t, next_list t).
Lemma rep_ext t t' LS m : rep t LS m → table_of t' = table_of t → rep t' LS m.
Proof.
  intros [] Heq. injection Heq as E1 E2 E3 E4 E5 E6 E7 E8.
  split; rewrite ?E1, ?E2, ?E3, ?E4, ?E5, ?E6, ?E7, ?E8; done.
Qed.
Lemma ht_is_ext t t' m : ht_is t m → table_of t' = table_of t → ht_is t' m.
Proof. intros (LS & Hr) ?. exists LS. by eapply rep_ext. Qed.

Lemma delete_insert_same {A} (l : list A) i x : delete i (<[i := x]> l) = delete i l.
Proof. revert i. induction l as [|y l IH]; intros [|i]; cbn; [done..|]. by rewrite IH. Qed.

Lemma assoc_run {S A B C} (m : st S A) (k : A → st S B) (k' : B → st S C) s : (m ≫= λ a, k a ≫= k') s = ((m ≫= k) ≫= k') s.
Proof. unfold mbind, st_bind. by destruct (m s) as [[]|]. Qed.

Section Ops.
Context (free_item_cb : bool) (granted : nat → bool).
Hypothesis Hgrant : ∀ n, granted n = true.
Notation ht_set_internal := (ht_set_internal free_item_cb granted).
Notation set_spec := (set_spec free_item_cb).

Lemma malloc_run t : malloc granted t = Ret (true, set_mallocs (S (mallocs t)) t).
Proof. unfold malloc, mbind, st_bind, st_get, st_modify, mret, st_ret. by rewrite Hgrant. Qed.

Lemma call_free_abs t σ d : ht_abs t σ →
  ∃ t', call_free free_item_cb d t = Ret (tt, t') ∧ ht_abs t' (free_spec free_item_cb d σ) ∧ table_of t' = table_of t.
Proof.
  intros (Hi & Hb & Hn & Hf). unfold call_free, free_spec. destruct free_item_cb; ht_exec.
  - eexists. split; [done|]. split; [|done]. split_and!; cbn; [by eapply ht_is_ext|done|done|by rewrite Hf].
  - exists t. done.
Qed.

Lemma copy_block_abs t σ p n d σ' : ht_abs t σ → copy_spec p n σ = Some (d, σ') →
  ∃ t', copy_block granted p n t = Ret (d, t') ∧ ht_abs t' σ' ∧ table_of t' = table_of t ∧ is_Some d ∧ s_map σ' = s_map σ.
Proof.
  intros Habs Hs. unfold copy_spec in Hs. destruct (bytes_spec p n σ) as [bs|] eqn:Hbs; [|done]. cbn in Hs. simplify_eq.
  set (t1 := set_mallocs (S (mallocs t)) t).
  assert (ht_abs t1 σ) as Habs1. { destruct Habs as (Hi & Hb). split; [by eapply ht_is_ext|done]. }
  unfold copy_block, malloc, mbind, st_bind, st_get, st_modify, mret, st_ret. rewrite Hgrant. cbn. fold t1.
  rewrite (ld_bytes_abs _ _ _ _ _ Habs1 Hbs). cbn. destruct Habs as (Hi & Hb & Hn & Hf). eexists. split_and!; [rewrite <-Hn; reflexivity| |done|by eexists|done].
  split_and!; cbn; [by eapply ht_is_ext|by rewrite Hb, Hn|by rewrite Hn|done].
Qed.

(** ** Setting *)
Lemma ht_abs_count t σ : ht_abs t σ → count t = Z.of_nat (base.size (s_map σ)).
Proof. intros [Hi _]. by apply ht_is_count. Qed.

Lemma set_finish_abs t σ prev plen prev_data prev_len :
  ht_abs t σ → (count t ≤ 2 ^ 60)%Z →
  ∃ t', set_finish free_item_cb granted prev plen prev_data prev_len t
      = Ret ((0%Z, if prev_data then Some prev else None, if prev_len then Some plen else None), t')
    ∧ ht_abs t' (match prev with Some p => if prev_data then σ else free_spec free_item_cb (Some p) σ | None => σ end).
Proof.
  intros Habs Hcount. unfold set_finish.
  assert (∃ t1, (if bool_decide (count t > u64 (size t + size t `div` 3))%Z &&
          (bool_decide (max_size t = 0)%Z || bool_decide (size t < max_size t)%Z) then ht_grow_table granted else mret tt) t = Ret (tt, t1)
          ∧ ht_abs t1 σ) as (t1 & Hg & Habs1).
  { destruct Habs as (Hi & Hb & Hn & Hf). pose proof Hi as (LS & [_ _ _ [Hpos _ _ _ _ _] _ _ _ Hsz _]). case_bool_decide as Hc; cbn; [|by exists t].
    destruct (_ || _); [|by exists t]. rewrite u64_id in Hc by (unfold in_u64; pose proof (Z.div_lt_upper_bound (size t) 3 (2 ^ 62)); pose proof (Z.div_pos (size t) 3); lia).
    destruct (ht_grow_ok granted Hgrant t (s_map σ) Hi) as (t1 & Hrun & Hi1 & Hcont); [pose proof (Z.div_pos (size t) 3); lia|].
    exists t1. split; [done|]. injection Hcont as ? ? ? ? ? ?. split_and!; congruence. }
  unfold mbind, st_bind, st_get. rewrite Hg. cbn. destruct prev as [p|]; cbn; [|by exists t1].
  destruct prev_data; cbn; [by exists t1|].
  destruct (call_free_abs t1 σ (Some p) Habs1) as (t2 & Hrun & Habs2 & _). rewrite Hrun. by exists t2.
Qed.

Lemma new_data_abs t σ copy d n d' σ' :
  ht_abs t σ → data_spec copy d n σ = Some (d', σ') → (copy = true → n ≠ 0%Z) →
  ∃ t', new_data granted d n copy t = Ret (Some d', t') ∧ ht_abs t' σ' ∧ table_of t' = table_of t ∧ s_map σ' = s_map σ.
Proof.
  intros Habs Hs Hn. unfold new_data, data_spec in *. destruct copy; [|simplify_eq; by exists t].
  rewrite bool_decide_true by auto. destruct (copy_block_abs t σ d n d' σ' Habs Hs) as (t' & Hrun & Habs' & Ht & [p ->] & Hm).
  exists t'. split; [|done]. unfold mbind, st_bind. by rewrite Hrun.
Qed.

(** The bucket list of a key, created if there was none. *)
Definition at_bucket (t : hashtable) (k : list Z) (l : loc) (L : ht_items_list) (LS : list bucket) (m : data_map) : Prop :=
  rep t LS m ∧ (l, L) ∈ LS ∧ bucket_says t k (Some l) LS m ∧ lists t !! l = Some L.

Lemma at_bucket_ext t t' k l L LS m : at_bucket t k l L LS m → table_of t' = table_of t → at_bucket t' k l L LS m.
Proof.
  intros (Hr & Hin & Hs & Hl) Heq. pose proof Heq as E. injection E as E1 E2 E3 E4 E5 E6 E7 E8.
  unfold at_bucket, bucket_says. rewrite E7, E4, E1. split_and!; [by eapply rep_ext|done..].
Qed.

Lemma bucket_ok t σ k :
  ht_abs t σ → let h := ht_hash_one_at_a_time (seed t) k in
  ∃ l L LS t', (o ← ht_get_list h; match o with Some l => mret (Some l) | None => ht_set_list granted h end) t = Ret (Some l, t')
    ∧ at_bucket t' k l L LS (s_map σ) ∧ seed t' = seed t ∧ ht_abs t' σ.
Proof.
  intros Habs h. pose proof Habs as ((LS & Hr) & Hb & Hn & Hf). destruct (locate t LS (s_map σ) k Hr) as (o & Hget & Hsays & Hslot).
  fold h in Hget, Hslot. unfold mbind at 1, st_bind. rewrite Hget. destruct o as [l|].
  - destruct Hsays as (L & Hin & Hl & Hsays). exists l, L, LS, t. split_and!; [done| |done|done].
    split_and!; [done|done| |done]. by exists L.
  - set (i := (h `mod` size t)%Z) in *. set (l := next_list t).
    assert (0 ≤ i < size t)%Z as Hi by (apply mod_range; by destruct Hr as [_ _ _ []]).
    assert (items t !! Z.to_nat i = Some None) as Ho.
    { unfold ht_get_list, item_at, mbind, st_bind, st_get, mret, st_ret in Hget. fold i in Hget. by destruct (items t !! Z.to_nat i); simplify_eq/=. }
    unfold ht_set_list. ht_exec. rewrite Hgrant. cbn. fold i. rewrite Ho. cbn. rewrite Ho. cbn. fold l. set (t' := set_iter _ _).
    assert (rep t' (LS ++ [(l, mk_items [] i)]) (s_map σ)) as Hr' by by eapply rep_new_list.
    exists l, (mk_items [] i), (LS ++ [(l, mk_items [] i)]), t'. split_and!; [done| |done|].
    + assert ((l, mk_items [] i) ∈ LS ++ [(l, mk_items [] i)]) as Hin by (rewrite elem_of_app, list_elem_of_singleton; auto).
      assert (lists t' !! l = Some (mk_items [] i)) as Hl by apply lookup_insert_eq.
      split_and!; [done|done| |done]. exists (mk_items [] i). done.
    + split_and!; [by eexists|done..].
Qed.

Lemma insert_item_abs t σ l L LS k d n copy d' σ' :
  ht_abs t σ → at_bucket t k l L LS (s_map σ) → k ≠ [] → s_map σ !! k = None →
  data_spec copy d n σ = Some (d', σ') → (copy = true → n ≠ 0%Z) → (count t < 2 ^ 60)%Z →
  ∃ t', insert_item granted l (ht_hash_one_at_a_time (seed t) k) k d n copy t = Ret (true, t')
    ∧ ht_abs t' (put_map <[k := (d', n)]> σ') ∧ (count t' ≤ 2 ^ 60)%Z.
Proof.
  intros Habs Hat Hk Hno Hs Hcopy Hcount. unfold insert_item, mbind, st_bind. rewrite malloc_run. cbn.
  assert (∃ a, (if bool_decide (KBUF_SIZE < length k) then malloc granted else mret true) (set_mallocs (S (mallocs t)) t)
    = Ret (true, set_mallocs a t)) as [a ->].
  { case_bool_decide; [rewrite malloc_run|]; by eexists. }
  cbn. destruct (new_data_abs (set_mallocs a t) σ copy d n d' σ') as (t1 & -> & Habs1 & Ht & Hm); [|done..|].
  { destruct Habs as (Hi & ?). split; [by eapply ht_is_ext|done]. }
  assert (at_bucket t1 k l L LS (s_map σ)) as Hat1 by by eapply at_bucket_ext.
  destruct Hat1 as (Hr & Hin & (L' & Hin' & Hl' & Hidx & _) & Hl). assert (L' = L) as -> by congruence.
  unfold push_item. ht_exec. rewrite Hl. cbn. injection Ht as E1 E2 E3 E4 E5 E6 E7 E8. cbn in *.
  assert (0 ≤ count t)%Z by (rewrite (ht_abs_count t σ Habs); lia).
  assert (u64 (count t1 + 1) = (count t + 1)%Z) as Hu by (rewrite E3; apply u64_id; unfold in_u64; lia).
  rewrite Hu. eexists. split; [done|]. cbn. split; [|lia]. destruct Habs1 as (_ & Hb & Hn & Hf).
  split_and!; cbn; [|done..]. rewrite Hm. rewrite <-E4.
  eapply (rep_push t1 _ LS (s_map σ) l L k d' n); try done. cbn. by rewrite E3.
Qed.

Lemma replace_item_abs t σ l L LS k i it d n copy d' σ' :
  ht_abs t σ → at_bucket t k l L LS (s_map σ) → find_item k (head L) = Some (i, it) →
  data_spec copy d n σ = Some (d', σ') →
  ∃ t', replace_item granted l i d n copy t = Ret (true, t') ∧ ht_abs t' (put_map <[k := (d', n)]> σ') ∧ count t' = count t.
Proof.
  intros Habs (Hr & Hin & (L' & _ & Hl' & _ & Hfound) & Hl) Hf Hs. assert (L' = L) as -> by congruence.
  rewrite Hf in Hfound. destruct Hfound as (Hi & <- & Hm).
  unfold replace_item. ht_exec. rewrite Hl. cbn. rewrite (alter_insert _ _ _ _ Hi). set (t1 := set_lists _ _ t).
  pose proof Habs as (_ & Hb & Hnb & Hfr).
  assert (ht_abs t1 (put_map <[key it := (data it, n)]> σ)) as Habs1.
  { split_and!; [|done..]. cbn. by eapply rep_put. }
  assert (∀ t2 d2, lists t2 = lists t1 → shape t2 = shape t → count t2 = count t →
    ht_is (set_lists (<[l := mk_items (alter (λ it, mk_item (hash it) (key it) d2 (dlen it)) i
              (<[i := mk_item (hash it) (key it) (data it) n]> (head L))) (index L)]> (lists t2)) (next_list t2) t2)
      (<[key it := (d2, n)]> (s_map σ))) as Hput.
  { intros t2 d2 H1 H2 H3. pose proof H2 as E. injection E as E1 E2 E3 E4 E5 E6.
    eapply (rep_put t _ LS (s_map σ) l L i it); [done|done|done|done| |done]. cbn. rewrite H1. cbn. rewrite insert_insert_eq. do 2 f_equal.
    assert (i < length (head L)) by by eapply lookup_lt_Some.
    rewrite (alter_insert _ _ _ (mk_item (hash it) (key it) (data it) n)) by by apply list_lookup_insert_eq.
    by rewrite list_insert_insert_eq. }
  destruct copy.
  - destruct (copy_block_abs t1 (put_map <[key it := (data it, n)]> σ) d n d' (put_map <[key it := (data it, n)]> σ')) as (t2 & Hrun & Habs2 & Ht & [p ->] & Hm2); [done| |].
    { unfold data_spec, copy_spec, bytes_spec in *. cbn. destruct d as [dp|]; [|done]. cbn in *. destruct (s_blocks σ !! dp); [|done]. cbn in *.
      case_bool_decide; [|done]. cbn in *. by simplify_eq. }
    rewrite Hrun. cbn. injection Ht as E1 E2 E3 E4 E5 E6 E7 E8. cbn in *. rewrite E7. rewrite lookup_insert_eq. cbn.
    eexists. split; [done|]. split; [|done]. destruct Habs2 as (_ & Hb2 & Hn2 & Hf2). split_and!; [|done..]. cbn.
    assert (s_map σ' = s_map σ) as ->.
    { unfold copy_spec in Hs. destruct (bytes_spec d n σ); by simplify_eq/=. }
    apply Hput; [done| |done]. unfold shape. by rewrite E1, E2, E4, E5, E6, E8.
  - cbn in Hs. simplify_eq. unfold t1. cbn. rewrite lookup_insert_eq. cbn. eexists. split; [done|]. split; [|done]. split_and!; [|done..]. cbn.
    by apply (Hput t1).
Qed.

Lemma ht_set_internal_abs t σ k d n prev_data prev_len copy inx r σ' :
  ht_abs t σ → k ≠ [] → (∀ n', s_map σ !! k ≠ Some (None, n')) → (copy = true → n ≠ 0%Z) → (count t < 2 ^ 60)%Z →
  set_spec k d n prev_data prev_len copy inx σ = Some (r, σ') →
  ∃ t', ht_set_internal k d n prev_data prev_len copy inx t = Ret (r, t') ∧ ht_abs t' σ'.
Proof.
  intros Habs Hk Hnull Hcopy Hcount Hs. unfold ht_set_internal. rewrite bool_decide_false by done.
  unfold mbind at 1, st_bind at 1, st_get at 1. rewrite (assoc_run (ht_get_list _)). unfold mbind at 1, st_bind at 1.
  destruct (bucket_ok t σ k Habs) as (l & L & LS & t1 & Hrun & Hat & Hseed & Habs1). rewrite Hrun.
  assert (count t1 = count t) as Hc by by rewrite (ht_abs_count t σ), (ht_abs_count t1 σ).
  pose proof Hat as (Hr & Hin & (L' & _ & Hl' & _ & Hfound) & Hl). assert (L' = L) as -> by congruence.
  unfold ld_list. unfold mbind at 1, st_bind at 1. unfold mbind at 1, st_bind at 1, st_get at 1. rewrite Hl.
  unfold mret at 1, st_ret at 1. cbv beta iota. unfold set_spec in Hs. destruct (find_item k (head L)) as [[i it]|] eqn:Hf.
  - destruct Hfound as (Hi & Hkey & Hm). rewrite Hm in Hs. destruct (data it) as [prev|] eqn:Hd; [|by destruct (Hnull (dlen it))].
    destruct inx; [simplify_eq; by exists t1|]. destruct (data_spec copy d n σ) as [[d' σ1]|] eqn:Hds; [|done]. cbn in Hs. simplify_eq.
    destruct (replace_item_abs t1 σ l L LS (key it) i it d n copy d' σ1) as (t2 & Hrun2 & Habs2 & Hc2); [done..|].
    unfold mbind, st_bind. rewrite Hrun2.
    destruct (set_finish_abs t2 _ (Some prev) (dlen it) prev_data prev_len Habs2) as (t3 & -> & Habs3); [lia|].
    exists t3. split; [done|]. by destruct prev_data.
  - rewrite Hfound in Hs. destruct (data_spec copy d n σ) as [[d' σ1]|] eqn:Hds; [|done]. cbn in Hs. simplify_eq.
    destruct (insert_item_abs t1 σ l L LS k d n copy d' σ1) as (t2 & Hrun2 & Habs2 & Hc2); [done..|lia|].
    rewrite <-Hseed. unfold mbind, st_bind. rewrite Hrun2.
    destruct (set_finish_abs t2 _ None 0 prev_data prev_len Habs2) as (t3 & -> & Habs3); [lia|]. by exists t3.
Qed.

(** ** Calls on an item *)
Section Call.
Context {U : Type} (k : list Z) (cb : pair_callback (U := U)) (user : U).

Lemma call_None t σ : ht_abs t σ → s_map σ !! k = None → ∀ f, ht_call_internal k f user t = Ret (((-1)%Z, user), t).
Proof.
  intros ((LS & Hr) & _) Hno f. destruct (locate t LS _ k Hr) as (o & Hget & Hsays & _).
  unfold ht_call_internal, mbind, st_bind, st_get. rewrite Hget. destruct o as [l|]; [|done].
  destruct Hsays as (L & _ & Hl & _ & Hf). unfold ld_list, mbind, st_bind, st_get. rewrite Hl. cbn.
  destruct (find_item k (head L)) as [[i it]|]; [|done]. destruct Hf as (_ & _ & Hf). congruence.
Qed.

(** The item the call reaches. *)
Lemma call_at t σ d n : ht_abs t σ → s_map σ !! k = Some (d, n) →
  ∃ l L LS i h, at_bucket t k l L LS (s_map σ) ∧ find_item k (head L) = Some (i, mk_item h k d n)
    ∧ ht_get_list (ht_hash_one_at_a_time (seed t) k) t = Ret (Some l, t).
Proof.
  intros ((LS & Hr) & _) Hm. destruct (locate t LS _ k Hr) as (o & Hget & Hsays & _). destruct o as [l|]; [|cbn in Hsays; congruence].
  pose proof Hsays as (L & Hin & Hl & _ & Hf). destruct (find_item k (head L)) as [[i it]|] eqn:Hfind; [|congruence].
  destruct Hf as (Hi & Hk & Hm'). exists l, L, LS, i, (hash it). split_and!; [done| |done]. rewrite Hfind. destruct it; cbn in *. congruence.
Qed.

Lemma call_exists t σ d n : ht_abs t σ → s_map σ !! k = Some (d, n) → ht_call_internal k None user t = Ret ((0%Z, user), t).
Proof.
  intros Habs Hm. destruct (call_at t σ d n Habs Hm) as (l & L & LS & i & h & (Hr & Hin & _ & Hl) & Hf & Hget).
  unfold ht_call_internal, ld_list, mbind, st_bind, st_get. rewrite Hget, Hl. cbn. by rewrite Hf.
Qed.

Lemma call_Some t σ d n ret d' n' user' t1 σ1 :
  ht_abs t σ → (count t < 2 ^ 64)%Z → s_map σ !! k = Some (d, n) → cb user d n t = Ret ((ret, d', n', user'), t1) →
  ht_abs t1 σ1 → table_of t1 = table_of t → s_map σ1 = s_map σ →
  ∃ t', ht_call_internal k (Some cb) user t = Ret ((if bool_decide (ret = 1)%Z then 0%Z else ret, user'), t')
    ∧ ht_abs t' (put_map (if bool_decide (ret = 1)%Z then delete k else <[k := (d', n')]>) σ1) ∧ size t' = size t.
Proof.
  intros Habs Hlt Hm Hcb Habs1 Ht Hm1. destruct (call_at t σ d n Habs Hm) as (l & L & LS & i & h & Hat & Hf & Hget).
  pose proof (at_bucket_ext _ _ _ _ _ _ _ Hat Ht) as (Hr1 & Hin & _ & Hl1). destruct Hat as (Hr & _ & _ & Hl).
  assert (head L !! i = Some (mk_item h k d n)) as Hi by by apply find_item_Some in Hf as [? _].
  unfold ht_call_internal, ld_list, mbind, st_bind, st_get. rewrite Hget, Hl. cbn. rewrite Hf. cbn. rewrite Hcb.
  ht_exec. rewrite Hl1. cbn. destruct Habs1 as (_ & Hb & Hn & Hfr).
  assert (0 < count t1 < 2 ^ 64)%Z as Hc.
  { pose proof (ht_abs_count t σ Habs) as Hcount. injection Ht as E1 E2 E3 E4 E5 E6 E7 E8. rewrite E3. split; [|done].
    rewrite Hcount. destruct (base.size (s_map σ)) eqn:Hz; [|lia]. apply map_size_empty_inv in Hz. by rewrite Hz in Hm. }
  case_bool_decide as H1.
  - ht_exec. cbn. rewrite lookup_insert_eq. cbn. rewrite insert_insert_eq, delete_insert_same.
    eexists. split; [done|]. split; [|cbn; injection Ht; congruence]. split_and!; [|done..]. cbn. rewrite Hm1. eapply (rep_delete t1 _ LS _ l L i _ Hr1 Hin Hi); [done|done|].
    cbn. apply u64_id. unfold in_u64. lia.
  - eexists. split; [done|]. split; [|cbn; injection Ht; congruence]. split_and!; [|done..]. cbn. rewrite Hm1. by eapply (rep_put t1 _ LS _ l L i _ d' n' Hr1 Hin Hi).
Qed.
End Call.

Lemma put_same σ k x : s_map σ !! k = Some x → put_map <[k := x]> σ = σ.
Proof. intros H. unfold put_map. rewrite insert_id by done. by destruct σ. Qed.

Lemma ht_get_abs t σ k copy r σ' :
  ht_abs t σ → (count t < 2 ^ 64)%Z → get_spec k copy σ = Some (r, σ') →
  ∃ t', ht_get_internal granted k copy None t = Ret (r, t') ∧ ht_abs t' σ'.
Proof.
  intros Habs Hc Hs. unfold get_spec in Hs. unfold ht_get_internal, mbind, st_bind. destruct (s_map σ !! k) as [[d n]|] eqn:Hm.
  2:{ rewrite (call_None k _ t σ Habs Hm). simplify_eq. by exists t. }
  destruct (data_spec copy d n σ) as [[d' σ1]|] eqn:Hd; [|done]. cbn in Hs. simplify_eq.
  assert (∃ t1, ht_get_helper granted copy None (None, None) d n t = Ret ((0%Z, d, n, (d', Some n)), t1) ∧ ht_abs t1 σ'
    ∧ table_of t1 = table_of t ∧ s_map σ' = s_map σ) as (t1 & Hcb & Habs1 & Ht & Hm1).
  { unfold ht_get_helper, data_spec in *. destruct copy; [|simplify_eq; by exists t].
    destruct (copy_block_abs t σ d n d' σ' Habs Hd) as (t1 & Hrun & Habs1 & Ht & [p ->] & Hm1).
    exists t1. unfold mbind, st_bind. by rewrite Hrun. }
  destruct (call_Some k _ _ t σ d n _ _ _ _ t1 σ' Habs Hc Hm Hcb Habs1 Ht Hm1) as (t' & -> & Habs' & _). cbn in *. exists t'. split; [done|].
  by rewrite bool_decide_false, put_same in Habs' by congruence.
Qed.

Lemma ht_exists_abs t σ k : ht_abs t σ → ht_exists k t = Ret (bool_decide (is_Some (s_map σ !! k)), t).
Proof.
  intros Habs. unfold ht_exists, mbind, st_bind. destruct (s_map σ !! k) as [[d n]|] eqn:Hm.
  - by rewrite (call_exists k _ t σ d n Habs Hm).
  - by rewrite (call_None k _ t σ Habs Hm).
Qed.

Lemma maybe_free_abs t σ (prev_data : bool) d : ht_abs t σ →
  ∃ t', (if prev_data then mret tt else call_free free_item_cb d) t = Ret (tt, t')
    ∧ ht_abs t' ((if prev_data then id else free_spec free_item_cb d) σ) ∧ table_of t' = table_of t.
Proof. intros Habs. destruct prev_data; [by exists t|]. by apply call_free_abs. Qed.
Lemma s_map_free (prev_data : bool) d σ : s_map ((if prev_data then id else free_spec free_item_cb d) σ) = s_map σ.
Proof. unfold free_spec. by destruct prev_data, free_item_cb. Qed.

Lemma delete_helper_abs t σ prev_data prev_len match_ msize out d n same :
  ht_abs t σ →
  (match match_ with
   | None => Some true
   | Some _ => if bool_decide (msize ≠ n) then Some false
               else a ← bytes_spec match_ n σ; b ← bytes_spec d n σ; Some (bool_decide (a = b))
   end) = Some same →
  ∃ t', ht_delete_helper free_item_cb false prev_data prev_len match_ msize out d n t
      = Ret (if same then (1%Z, d, n, (if prev_data then Some d else None, if prev_len then Some n else None)) else ((-1)%Z, d, n, out), t')
    ∧ ht_abs t' (if same then (if prev_data then id else free_spec free_item_cb d) σ else σ) ∧ table_of t' = table_of t.
Proof.
  intros Habs Hsame. destruct (maybe_free_abs t σ prev_data d Habs) as (t' & Hfree & Habs' & Ht).
  unfold ht_delete_helper. unfold mbind at 1, st_bind at 1. destruct match_ as [q|]; [case_bool_decide as Hn|].
  - injection Hsame as <-. exists t. done.
  - destruct (bytes_spec (Some q) n σ) as [a|] eqn:Ha; [|done]. cbn [mbind option_bind] in Hsame.
    destruct (bytes_spec d n σ) as [b|] eqn:Hb; [|done]. cbn [mbind option_bind] in Hsame. injection Hsame as <-.
    unfold mbind, st_bind. rewrite (ld_bytes_abs _ _ _ _ _ Habs Ha), (ld_bytes_abs _ _ _ _ _ Habs Hb). unfold mret, st_ret at 1.
    destruct (decide (a = b)) as [->|Hab].
    + rewrite (bool_decide_false (b ≠ b)) by (intros Hbb; by apply Hbb). rewrite (bool_decide_true (b = b)) by done. unfold mret in Hfree. rewrite Hfree. by exists t'.
    + rewrite (bool_decide_true (a ≠ b)), (bool_decide_false (a = b)) by done. by exists t.
  - injection Hsame as <-. unfold mbind, st_bind, mret at 1, st_ret at 1. rewrite Hfree. by exists t'.
Qed.

Lemma ht_delete_abs t σ k prev_data prev_len match_ msize r σ' :
  ht_abs t σ → (count t < 2 ^ 64)%Z → delete_spec free_item_cb k prev_data prev_len match_ msize σ = Some (r, σ') →
  ∃ t', ht_delete_internal free_item_cb k prev_data prev_len match_ msize t = Ret (r, t') ∧ ht_abs t' σ'.
Proof.
  intros Habs Hc Hs. unfold delete_spec in Hs. unfold ht_delete_internal. destruct (s_map σ !! k) as [[d n]|] eqn:Hm.
  2:{ rewrite (call_None k _ t σ Habs Hm). simplify_eq. by exists t. }
  match type of Hs with (?x ≫= _) = _ => destruct x as [same|] eqn:Hsame; [|done] end. cbn in Hs.
  destruct (delete_helper_abs t σ prev_data prev_len match_ msize (None, None) d n same Habs Hsame) as (t1 & Hcb & Habs1 & Ht).
  destruct same; cbn in Hs; injection Hs as <- <-.
  - destruct (call_Some k _ _ t σ d n _ _ _ _ t1 _ Habs Hc Hm Hcb Habs1 Ht) as (t' & -> & Habs' & _); [apply s_map_free|]. by exists t'.
  - destruct (call_Some k _ _ t σ d n _ _ _ _ t1 _ Habs Hc Hm Hcb Habs1 Ht) as (t' & -> & Habs' & _); [done|]. cbn in *.
    exists t'. split; [done|]. by rewrite bool_decide_false, put_same in Habs' by congruence.
Qed.

Lemma set_if_helper_abs t σ (prev_data prev_len : bool) d n q msize out v vlen same :
  ht_abs t σ →
  same_spec v vlen q msize σ = Some same →
  let outs := (if prev_data then Some v else None, if prev_len then Some vlen else None) in
  ∃ t', ht_set_if_equals_helper free_item_cb prev_data prev_len d n (Some q) msize out v vlen t
      = Ret (if same then (0%Z, d, n, (true, outs)) else (0%Z, v, vlen, (out.1, outs)), t')
    ∧ ht_abs t' (if same then (if prev_data then id else free_spec free_item_cb v) σ else σ) ∧ table_of t' = table_of t.
Proof.
  intros Habs Hsame outs. destruct (maybe_free_abs t σ prev_data v Habs) as (t' & Hfree & Habs' & Ht). destruct out as [mt out0].
  unfold ht_set_if_equals_helper.
  assert (equals_match v vlen (Some q) msize t = Ret (same, t)) as Heq.
  { unfold equals_match, same_spec in *. case_bool_decide; [|by simplify_eq].
    destruct (bytes_spec v 1 σ) as [a|] eqn:Ha; [|done]. cbn [mbind option_bind] in Hsame. destruct (bytes_spec (Some q) 1 σ) as [b|] eqn:Hb; [|done].
    cbn [mbind option_bind] in Hsame. unfold mbind, st_bind. rewrite (ld_bytes_abs _ _ _ _ _ Habs Ha), (ld_bytes_abs _ _ _ _ _ Habs Hb).
    case_bool_decide; [|by simplify_eq].
    destruct (bytes_spec v msize σ) as [a'|] eqn:Ha'; [|done]. cbn [mbind option_bind] in Hsame. destruct (bytes_spec (Some q) msize σ) as [b'|] eqn:Hb'; [|done].
    cbn [mbind option_bind] in Hsame. rewrite (ld_bytes_abs _ _ _ _ _ Habs Ha'), (ld_bytes_abs _ _ _ _ _ Habs Hb'). by simplify_eq. }
  unfold mbind at 1, st_bind at 1. rewrite Heq. destruct same; [|by exists t].
  unfold mbind, st_bind. rewrite Hfree. by exists t'.
Qed.

Lemma ht_set_if_equals_abs t σ k d n q msize prev_data prev_len r σ' :
  ht_abs t σ → (count t < 2 ^ 64)%Z → set_if_spec free_item_cb k d n q msize prev_data prev_len σ = Some (r, σ') →
  ∃ t', ht_set_if_equals free_item_cb granted k d n (Some q) msize prev_data prev_len t = Ret (r, t') ∧ ht_abs t' σ'.
Proof.
  intros Habs Hc Hs. unfold set_if_spec in Hs. unfold ht_set_if_equals. cbn [negb andb]. rewrite (bool_decide_false (Some q = None)) by done. cbn.
  unfold mbind, st_bind. destruct (s_map σ !! k) as [[v vlen]|] eqn:Hm.
  2:{ rewrite (call_None k _ t σ Habs Hm). simplify_eq. by exists t. }
  match type of Hs with (?x ≫= _) = _ => destruct x as [same|] eqn:Hsame; [|done] end. cbn in Hs.
  destruct (set_if_helper_abs t σ prev_data prev_len d n q msize (false, (None, None)) v vlen same Habs Hsame) as (t1 & Hcb & Habs1 & Ht).
  destruct same; cbn in Hs; injection Hs as <- <-.
  - destruct (call_Some k _ _ t σ v vlen _ _ _ _ t1 _ Habs Hc Hm Hcb Habs1 Ht) as (t' & -> & Habs' & _); [apply s_map_free|]. by exists t'.
  - destruct (call_Some k _ _ t σ v vlen _ _ _ _ t1 _ Habs Hc Hm Hcb Habs1 Ht) as (t' & -> & Habs' & _); [done|]. cbn in *.
    exists t'. split; [done|]. by rewrite bool_decide_false, put_same in Habs' by congruence.
Qed.
End Ops.
