(* ===== verification/HashTableTheorems.v ===== *)
(** * Theorems about the hash table *)
From S2P Require Import Prelude Heap LinkedList LinkedListRep LinkedListSpec HashTable HashTableRep HashTableOps.

(** ** Runs of operations *)
Inductive op :=
  | OpSet (k : list Z) (p : ptr) (n : Z)
  | OpSetNew (k : list Z) (p : ptr) (n : Z)
  | OpGetOrSet (k : list Z) (p : ptr) (n : Z) (cur_data cur_len : bool)
  | OpGetAndSet (k : list Z) (p : ptr) (n : Z) (prev_data prev_len : bool)
  | OpSetCopy (k : list Z) (p : ptr) (n : Z) (prev_data prev_len : bool)
  | OpSetIf (k : list Z) (p : ptr) (n : Z) (q : ptr) (msize : Z) (prev_data prev_len : bool)
  | OpDelete (k : list Z) (prev_data prev_len : bool)
  | OpDeleteIf (k : list Z) (q : ptr) (msize : Z)
  | OpGet (k : list Z)
  | OpGetCopy (k : list Z)
  | OpExists (k : list Z)
  | OpCount.
Inductive result :=
  | RInt (r : Z) | RSet (r : set_result) | RPrev (r : Z * prev_out) | RGet (r : get_out) | RBool (b : bool).

(** Keys that are set are not empty, and a copy has at least one byte. *)
Definition op_ok (o : op) : Prop :=
  match o with
  | OpSet k _ _ | OpSetNew k _ _ | OpGetOrSet k _ _ _ _ | OpGetAndSet k _ _ _ _ => k ≠ []
  | OpSetCopy k _ n _ _ => k ≠ [] ∧ n ≠ 0%Z
  | _ => True
  end.

Section Run.
Context (free_item_cb : bool) (granted : nat → bool).

Definition exec (o : op) : st hashtable result :=
  match o with
  | OpSet k p n => r ← ht_set free_item_cb granted k (Some p) n; mret (RInt r)
  | OpSetNew k p n => r ← ht_set_if_not_exists free_item_cb granted k (Some p) n; mret (RInt r)
  | OpGetOrSet k p n cd cl => r ← ht_get_or_set free_item_cb granted k (Some p) n cd cl; mret (RSet r)
  | OpGetAndSet k p n pd pl => r ← ht_get_and_set free_item_cb granted k (Some p) n pd pl; mret (RSet r)
  | OpSetCopy k p n pd pl => r ← ht_set_copy free_item_cb granted k (Some p) n pd pl; mret (RSet r)
  | OpSetIf k p n q msize pd pl => r ← ht_set_if_equals free_item_cb granted k (Some p) n (Some q) msize pd pl; mret (RPrev r)
  | OpDelete k pd pl => r ← ht_delete free_item_cb k pd pl; mret (RPrev r)
  | OpDeleteIf k q msize => r ← ht_delete_if_equals free_item_cb k (Some q) msize; mret (RInt r)
  | OpGet k => r ← ht_get granted k; mret (RGet r)
  | OpGetCopy k => r ← ht_get_copy granted k; mret (RGet r)
  | OpExists k => r ← ht_exists k; mret (RBool r)
  | OpCount => r ← ht_count; mret (RInt r)
  end.
Definition spec (o : op) (σ : store) : option (result * store) :=
  match o with
  | OpSet k p n => '((r, _, _), σ) ← set_spec free_item_cb k (Some p) n false false false false σ; Some (RInt r, σ)
  | OpSetNew k p n => '((r, _, _), σ) ← set_spec free_item_cb k (Some p) n false false false true σ; Some (RInt r, σ)
  | OpGetOrSet k p n cd cl => '(r, σ) ← set_spec free_item_cb k (Some p) n cd cl false true σ; Some (RSet r, σ)
  | OpGetAndSet k p n pd pl => '(r, σ) ← set_spec free_item_cb k (Some p) n pd pl false false σ; Some (RSet r, σ)
  | OpSetCopy k p n pd pl => '(r, σ) ← set_spec free_item_cb k (Some p) n pd pl true false σ; Some (RSet r, σ)
  | OpSetIf k p n q msize pd pl => '(r, σ) ← set_if_spec free_item_cb k (Some p) n q msize pd pl σ; Some (RPrev r, σ)
  | OpDelete k pd pl => '(r, σ) ← delete_spec free_item_cb k pd pl None 0 σ; Some (RPrev r, σ)
  | OpDeleteIf k q msize => '((r, _), σ) ← delete_spec free_item_cb k false false (Some q) msize σ; Some (RInt r, σ)
  | OpGet k => '(r, σ) ← get_spec k false σ; Some (RGet r, σ)
  | OpGetCopy k => '(r, σ) ← get_spec k true σ; Some (RGet r, σ)
  | OpExists k => Some (RBool (bool_decide (is_Some (s_map σ !! k))), σ)
  | OpCount => Some (RInt (Z.of_nat (base.size (s_map σ))), σ)
  end.
Fixpoint exec_all (os : list op) : st hashtable (list result) :=
  match os with [] => mret [] | o :: os => r ← exec o; rs ← exec_all os; mret (r :: rs) end.
Fixpoint spec_all (os : list op) (σ : store) : option (list result * store) :=
  match os with
  | [] => Some ([], σ)
  | o :: os => '(r, σ) ← spec o σ; '(rs, σ) ← spec_all os σ; Some (r :: rs, σ)
  end.

(** ** Data pointers stay non-NULL, and an operation adds one key at most *)
Definition live (σ : store) : Prop := map_Forall (λ _ x, is_Some x.1) (s_map σ).
Definition grows (σ σ' : store) : Prop := live σ' ∧ base.size (s_map σ') ≤ S (base.size (s_map σ)).

Lemma store_grows_refl σ : live σ → grows σ σ.
Proof. split; [done|lia]. Qed.
Lemma grows_put σ σ1 k d n : live σ → s_map σ1 = s_map σ → is_Some d → grows σ (put_map <[k := (d, n)]> σ1).
Proof.
  intros Hl Hm Hd. unfold grows, live. cbn. rewrite Hm. split; [by apply map_Forall_insert_2|].
  destruct (s_map σ !! k) eqn:Hk; [rewrite map_size_insert_Some by done|rewrite map_size_insert_None by done]; lia.
Qed.
Lemma grows_delete σ σ1 k : live σ → s_map σ1 = s_map σ → grows σ (put_map (delete k) σ1).
Proof.
  intros Hl Hm. unfold grows, live. cbn. rewrite Hm. split; [by apply map_Forall_delete|]. rewrite map_size_delete. destruct (s_map σ !! k); unfold id; lia.
Qed.
Lemma grows_free σ σ1 (b : bool) d : grows σ σ1 → grows σ ((if b then id else free_spec free_item_cb d) σ1).
Proof. unfold grows, live. by rewrite s_map_free. Qed.

Lemma data_spec_map copy d n σ d' σ' : is_Some d → data_spec copy d n σ = Some (d', σ') → s_map σ' = s_map σ ∧ is_Some d'.
Proof.
  intros Hd. unfold data_spec, copy_spec. destruct copy; [|intros; by simplify_eq].
  destruct (bytes_spec d n σ); cbn; [|done]. intros. simplify_eq. split; [done|by eexists].
Qed.

Lemma set_spec_grows k p n pd pl copy inx σ r σ' :
  live σ → set_spec free_item_cb k (Some p) n pd pl copy inx σ = Some (r, σ') → grows σ σ'.
Proof.
  intros Hl Hs. unfold set_spec in Hs.
  assert (∀ d' σ1, data_spec copy (Some p) n σ = Some (d', σ1) → grows σ (put_map <[k := (d', n)]> σ1)) as Hput.
  { intros d' σ1 Hd. apply data_spec_map in Hd as [Hm Hd]; [by apply grows_put|by eexists]. }
  destruct (s_map σ !! k) as [[[prev|] plen]|]; [destruct inx; [simplify_eq; by apply store_grows_refl|]|..].
  all: destruct (data_spec copy (Some p) n σ) as [[d' σ1]|] eqn:Hd; [|done]; cbn in Hs; simplify_eq; [try apply grows_free; by apply Hput..].
Qed.
Lemma delete_spec_grows k pd pl mt ms σ r σ' :
  live σ → delete_spec free_item_cb k pd pl mt ms σ = Some (r, σ') → grows σ σ'.
Proof.
  intros Hl Hs. unfold delete_spec in Hs. destruct (s_map σ !! k) as [[d n]|]; [|simplify_eq; by apply store_grows_refl].
  match type of Hs with (?x ≫= _) = _ => destruct x as [[]|]; [..|done] end; cbn in Hs; simplify_eq; [|by apply store_grows_refl].
  apply grows_delete; [done|apply s_map_free].
Qed.
Lemma set_if_spec_grows k p n q ms pd pl σ r σ' :
  live σ → set_if_spec free_item_cb k (Some p) n q ms pd pl σ = Some (r, σ') → grows σ σ'.
Proof.
  intros Hl Hs. unfold set_if_spec in Hs. destruct (s_map σ !! k) as [[d n']|]; [|simplify_eq; by apply store_grows_refl].
  destruct (same_spec d n' q ms σ) as [[]|]; cbn in Hs; simplify_eq; [|by apply store_grows_refl].
  apply grows_put; [done|apply s_map_free|by eexists].
Qed.
Lemma get_spec_grows k copy σ r σ' : live σ → get_spec k copy σ = Some (r, σ') → grows σ σ'.
Proof.
  intros Hl Hs. unfold get_spec in Hs. destruct (s_map σ !! k) as [[d n]|] eqn:Hk; [|simplify_eq; by apply store_grows_refl].
  destruct (data_spec copy d n σ) as [[d' σ1]|] eqn:Hd; cbn in Hs; [|done]. simplify_eq.
  apply data_spec_map in Hd as [Hm _]; [|by apply (Hl k (d, n))]. unfold grows, live. rewrite Hm. split; [done|lia].
Qed.

(** ** Operations implement their specifications *)
Hypothesis Hgrant : ∀ n, granted n = true.

(** Takes apart a specification that is a bind, and runs the operation that implements it. *)
Ltac open_spec Hs :=
  match type of Hs with (?x ≫= _) = _ => destruct x as [[? ?]|] eqn:?Hsp; [|done] end; cbn in Hs.

Lemma exec_abs t σ o r σ' :
  ht_abs t σ → live σ → (Z.of_nat (base.size (s_map σ)) < 2 ^ 60)%Z → op_ok o → spec o σ = Some (r, σ') →
  ∃ t', exec o t = Ret (r, t') ∧ ht_abs t' σ' ∧ grows σ σ'.
Proof.
  intros Habs Hl Hsize Hok Hs. pose proof (ht_abs_count t σ Habs) as Hc.
  assert (∀ k n', s_map σ !! k ≠ Some (None, n')) as Hnull by (intros k n' Hk; by destruct (Hl k _ Hk)).
  assert (∀ k d n pd pl copy inx r1 σ1, k ≠ [] → (copy = true → n ≠ 0%Z) → set_spec free_item_cb k (Some d) n pd pl copy inx σ = Some (r1, σ1) →
    ∃ t', ht_set_internal free_item_cb granted k (Some d) n pd pl copy inx t = Ret (r1, t') ∧ ht_abs t' σ1 ∧ grows σ σ1) as Hset.
  { intros k d n pd pl copy inx r1 σ1 Hk Hcopy Hs1. pose proof (set_spec_grows _ _ _ _ _ _ _ _ _ _ Hl Hs1).
    destruct (ht_set_internal_abs free_item_cb granted Hgrant t σ k (Some d) n pd pl copy inx r1 σ1) as (t' & ? & ?); [done..|lia|done|]. eauto. }
  destruct o; cbn in Hs, Hok; unfold exec, ht_set, ht_set_if_not_exists, ht_get_or_set, ht_get_and_set, ht_set_copy; try open_spec Hs.
  1-2: destruct s as [[z o1] o2]; simplify_eq; edestruct Hset as (t' & Hrun & ? & ?); [| |exact Hsp|]; [done|done|];
    exists t'; unfold mbind, st_bind; by rewrite Hrun.
  1-3: simplify_eq; edestruct Hset as (t' & Hrun & ? & ?); [| |exact Hsp|]; [tauto|naive_solver|]; exists t'; unfold mbind, st_bind; by rewrite Hrun.
  - simplify_eq. pose proof (set_if_spec_grows _ _ _ _ _ _ _ _ _ _ Hl Hsp).
    edestruct (ht_set_if_equals_abs free_item_cb granted t σ) as (t' & Hrun & ?); [done|lia|done|].
    exists t'. unfold mbind, st_bind. by rewrite Hrun.
  - simplify_eq. pose proof (delete_spec_grows _ _ _ _ _ _ _ _ Hl Hsp).
    edestruct (ht_delete_abs free_item_cb t σ) as (t' & Hrun & ?); [done|lia|done|].
    exists t'. unfold ht_delete, mbind, st_bind. by rewrite Hrun.
  - destruct p as [z o1]. simplify_eq. pose proof (delete_spec_grows _ _ _ _ _ _ _ _ Hl Hsp).
    edestruct (ht_delete_abs free_item_cb t σ) as (t' & Hrun & ?); [done|lia|done|].
    exists t'. unfold ht_delete_if_equals, mbind, st_bind. by rewrite Hrun.
  - simplify_eq. pose proof (get_spec_grows _ _ _ _ _ Hl Hsp).
    edestruct (ht_get_abs granted Hgrant t σ) as (t' & Hrun & ?); [done|lia|done|].
    exists t'. unfold ht_get, mbind, st_bind. by rewrite Hrun.
  - simplify_eq. pose proof (get_spec_grows _ _ _ _ _ Hl Hsp).
    edestruct (ht_get_abs granted Hgrant t σ) as (t' & Hrun & ?); [done|lia|done|].
    exists t'. unfold ht_get_copy, mbind, st_bind. by rewrite Hrun.
  - simplify_eq. exists t. unfold mbind, st_bind. rewrite (ht_exists_abs t σ' k Habs). eauto using store_grows_refl.
  - simplify_eq. exists t. unfold ht_count, mbind, st_bind, st_get. cbn. rewrite Hc. eauto using store_grows_refl.
Qed.

Lemma exec_all_abs os t σ rs σ' :
  ht_abs t σ → live σ → (Z.of_nat (base.size (s_map σ) + length os) ≤ 2 ^ 60)%Z → Forall op_ok os → spec_all os σ = Some (rs, σ') →
  ∃ t', exec_all os t = Ret (rs, t') ∧ ht_abs t' σ'.
Proof.
  revert t σ rs. induction os as [|o os IH]; intros t σ rs Habs Hl Hsize Hok Hs; cbn in Hs; [simplify_eq; by exists t|].
  inversion_clear Hok. destruct (spec o σ) as [[r σ1]|] eqn:Ho; [|done]. cbn in Hs. open_spec Hs. simplify_eq. cbn in Hsize.
  destruct (exec_abs t σ o r σ1) as (t1 & Hrun & Habs1 & Hl1 & Hs1); [done|done|lia|done|done|].
  destruct (IH t1 σ1 l) as (t2 & Hrun2 & Habs2); [done|done|lia|done|done|].
  exists t2. cbn. unfold mbind, st_bind. by rewrite Hrun, Hrun2.
Qed.

Lemma create_abs mem nb initial max random :
  (initial < 2 ^ 62)%Z → (0 ≤ max)%Z →
  ∃ t, ht_create granted mem nb initial max random = Ret (Some t) ∧ ht_abs t (mk_store ∅ mem nb []).
Proof.
  intros Hi Hmax. unfold ht_create. rewrite malloc_run by done. cbn. unfold ht_init, mbind, st_bind.
  do 2 (rewrite malloc_run by done; cbn). unfold outcome_bind, st_modify, mret, st_ret. cbn. eexists. split; [done|].
  split_and!; [|done..]. exists []. set (n := if bool_decide _ then _ else _).
  assert (0 < n < 2 ^ 62)%Z by (unfold n, HT_SIZE_MIN; case_bool_decide; lia).
  split; cbn; try done; try lia.
  - split; [constructor|done].
  - by intros ? ?%elem_of_nil.
  - split; cbn; [lia|by rewrite length_replicate|intros i o (-> & _)%lookup_replicate; cbn; by intros ? ?%elem_of_nil|constructor
      |by intros ? ? ?%elem_of_nil|by intros ? ?%elem_of_nil].
  - by intros ? ?%elem_of_nil.
  - split; [constructor|done].
Qed.

End Run.

(** C7: a hash table is a finite map, when every allocation succeeds.  Any run of
    the operations on a table just created, where no operation sets an empty key
    or NULL data or copies zero bytes, gives the results that the same run gives
    on an abstract map with its memory, provided that this run only copies and
    compares memory that is there; growing the table never shows. *)
Theorem ht_refines_map free_item_cb granted (Hgrant : ∀ n, granted n = true) mem nb initial max random os rs σ :
  (initial < 2 ^ 62)%Z → (0 ≤ max)%Z → (Z.of_nat (length os) ≤ 2 ^ 60)%Z → Forall op_ok os →
  spec_all free_item_cb os (mk_store ∅ mem nb []) = Some (rs, σ) →
  ∃ t t', ht_create granted mem nb initial max random = Ret (Some t) ∧ exec_all free_item_cb granted os t = Ret (rs, t') ∧ ht_abs t' σ.
Proof.
  intros Hi Hm Hlen Hok Hs. destruct (create_abs granted Hgrant mem nb initial max random Hi Hm) as (t & Hc & Habs).
  destruct (exec_all_abs free_item_cb granted Hgrant os t _ rs σ Habs) as (t' & Hrun & Habs'); [apply map_Forall_empty|cbn [s_map]; rewrite map_size_empty; lia|done|done|].
  by exists t, t'.
Qed.

Definition always (n : nat) : bool := true.
(** ** Witnesses *)
Definition one_block : gmap ptr (list Z) := {[1%positive := [7; 8]%Z]}.
Definition eight_ops : list op :=
  [OpSet [97]%Z 1%positive 2; OpSetCopy [98]%Z 1%positive 2 false false; OpGet [97]%Z; OpSetIf [97]%Z 5%positive 1 1%positive 2 true true;
   OpDeleteIf [98]%Z 1%positive 2; OpExists [98]%Z; OpGet [97]%Z; OpCount].
Definition eight_results : list result :=
  [RInt 0; RSet (0%Z, None, None); RGet (Some 1%positive, Some 2%Z); RPrev (0%Z, (Some (Some 1%positive), Some 2%Z));
   RInt 0; RBool false; RGet (Some 5%positive, Some 1%Z); RInt 1].
Lemma ht_refines_map_witness :
  ∃ t t', ht_create always one_block 2 0 0 41 = Ret (Some t) ∧ exec_all true always eight_ops t = Ret (eight_results, t')
    ∧ ht_abs t' (mk_store {[[97]%Z := (Some 5%positive, 1%Z)]} (<[2%positive := [7; 8]%Z]> one_block) 3 [Some 2%positive]).
Proof.
  apply (ht_refines_map true always); [done|lia|lia|cbn; lia| |vm_compute; reflexivity].
  repeat constructor; done.
Defined.
