(* ===== verification/HashTableIter.v ===== *)
(** * The hash table: clearing, iteration, and what goes wrong *)
From S2P Require Import Prelude Heap LinkedList LinkedListRep LinkedListSpec HashTable HashTableRep HashTableOps HashTableTheorems.

(** ** Clearing *)
Lemma holds_tail its its' m : holds (its ++ its') m → ∃ m', holds its' m'.
Proof. intros [Hnd _]. eexists. split; [|reflexivity]. rewrite fmap_app in Hnd. by apply NoDup_app in Hnd as (_ & _ & ?). Qed.

Lemma buckets_drop n its l L LS :
  buckets_ok n its ((l, L) :: LS) → buckets_ok n (<[Z.to_nat (index L) := None]> its) LS.
Proof.
  intros [Hpos Hlen Hslot Hnd Hmod Hrange]. apply NoDup_cons in Hnd as [Hni Hnd].
  assert (0 ≤ index L < n)%Z as Hr by (apply (Hrange (l, L)); apply elem_of_cons; auto).
  split; [done|by rewrite length_insert| |done| |].
  - intros i o [(<- & <- & _)|(Hne & Ho)]%list_lookup_insert_Some.
    + cbn. intros p Hp Hi. apply Hni. apply list_elem_of_fmap. exists p. split; [cbn; lia|done].
    + specialize (Hslot i o Ho). destruct o as [l'|]; cbn in *.
      * destruct Hslot as (L' & Hin & Hi). apply elem_of_cons in Hin as [[= -> ->]|Hin]; [lia|]. eauto.
      * intros p Hp. apply Hslot, elem_of_cons. by right.
  - intros p it Hp. apply Hmod, elem_of_cons. by right.
  - intros p Hp. apply Hrange, elem_of_cons. by right.
Qed.

(** The calls of the callback, if there is one. *)
Definition logged (free_item_cb : bool) (l : list (option ptr)) : list (option ptr) := if free_item_cb then l else [].

Lemma filter_drop_self (l : loc) (ls : list loc) : l ∉ ls → filter (λ l', l' ≠ l) (l :: ls) = ls.
Proof.
  intros Hni. rewrite filter_cons_False by (intros H; by apply H). induction ls as [|x ls IH]; [done|].
  apply not_elem_of_cons in Hni as [Hx Hni]. rewrite filter_cons_True by congruence. by rewrite IH.
Qed.

Lemma clear_items_ok free_item_cb its t :
  (Z.of_nat (length its) ≤ count t < 2 ^ 64)%Z →
  ∃ t', clear_items free_item_cb its t = Ret (tt, t') ∧ shape t' = shape t ∧ lists t' = lists t
    ∧ count t' = (count t - Z.of_nat (length its))%Z ∧ freed t' = freed t ++ logged free_item_cb (data <$> its).
Proof.
  revert t. induction its as [|it its IH]; intros t Hc; cbn in *.
  { exists t. split_and!; try done; [lia|]. unfold logged. destruct free_item_cb; by rewrite app_nil_r. }
  unfold call_free. destruct free_item_cb; cbn in *.
  - destruct (IH (set_count (u64 (count t - 1)) (add_freed (data it) t))) as (t' & Hrun & Hsh & Hl & Hct & Hf).
    { cbn. rewrite u64_id by (unfold in_u64; lia). lia. }
    exists t'. split_and!; [exact Hrun|done|done| |].
    + rewrite Hct. cbn. rewrite u64_id by (unfold in_u64; lia). lia.
    + rewrite Hf. cbn. by rewrite <-app_assoc.
  - destruct (IH (set_count (u64 (count t - 1)) t)) as (t' & Hrun & Hsh & Hl & Hct & Hf).
    { cbn. rewrite u64_id by (unfold in_u64; lia). lia. }
    exists t'. split_and!; [exact Hrun|done|done| |done].
    rewrite Hct. cbn. rewrite u64_id by (unfold in_u64; lia). lia.
Qed.

Lemma clear_lists_ok free_item_cb LS t m :
  rep t LS m → (count t < 2 ^ 64)%Z →
  ∃ t', clear_lists free_item_cb LS.*1 t = Ret (tt, t') ∧ rep t' [] ∅ ∧ freed t' = freed t ++ logged free_item_cb (data <$> all_items LS).
Proof.
  revert t m. induction LS as [|[l L] LS IH]; intros t m Hr Hlt.
  { exists t. split_and!; [done| |unfold logged; cbn; destruct free_item_cb; by rewrite app_nil_r].
    assert (m = ∅) as -> by by destruct Hr as [_ _ _ _ _ [_ ->] _ _ _]. done. }
  pose proof Hr as [Hheap Hfresh Hiter Hb Hhash Hholds Hcount Hsize Hmax].
  change (all_items ((l, L) :: LS)) with (head L ++ all_items LS) in *. rewrite length_app in Hcount.
  assert (lists t !! l = Some L) as Hl by (eapply heap_elem; [done|]; apply elem_of_cons; auto).
  destruct (clear_items_ok free_item_cb (head L) t) as (t1 & Hrun & Hsh & Hl1 & Hc1 & Hf1); [lia|].
  injection Hsh as E1 E2 E3 E4 E5 E6. pose proof Hb as [Hpos Hlen _ _ _ Hrange].
  assert (0 ≤ index L < size t)%Z as Hi by (apply (Hrange (l, L)), elem_of_cons; auto).
  destruct (lookup_lt_is_Some_2 (items t) (Z.to_nat (index L))) as [o Ho]; [lia|].
  set (t2 := set_lists (delete l (lists t)) (next_list t1) (set_iter LS.*1 (set_items (<[Z.to_nat (index L) := None]> (items t)) t1))).
  destruct (holds_tail _ _ _ Hholds) as [m' Hm'].
  destruct (IH t2 m') as (t' & Hrun' & Hr' & Hf').
  { split; cbn; rewrite ?E1, ?E2, ?E3, ?E6; try done.
    - by apply heap_is_cons in Hheap as (_ & _ & ?).
    - intros p Hp. apply Hfresh, elem_of_cons. by right.
    - by eapply buckets_drop.
    - intros it Hit. apply Hhash, elem_of_app. by right.
    - lia. }
  { cbn. lia. }
  exists t'. split_and!; [|done|].
  - cbn. unfold ld_list at 1, mbind, st_bind, st_get. rewrite Hl. cbn. rewrite Hrun. ht_exec. rewrite E4, Ho. cbn. rewrite Hl1, Hl. cbn.
    rewrite <-Hrun'. f_equal. unfold t2. rewrite Hl1, E4. do 2 f_equal. rewrite E5, Hiter. destruct Hheap as [Hnd _].
    apply NoDup_cons in Hnd as [Hni _]. rewrite fmap_cons. by apply filter_drop_self.
  - rewrite Hf'. cbn. rewrite Hf1, <-app_assoc. f_equal. unfold logged. destruct free_item_cb; [|done]. by rewrite fmap_app.
Qed.

(** The data of all items, in some order. *)
Definition all_data (m : data_map) : list (option ptr) := (λ x, x.2.1) <$> map_to_list m.
Lemma holds_entries its m : holds its m → entry <$> its ≡ₚ map_to_list m.
Proof. intros [Hnd ->]. rewrite map_to_list_to_map; [done|]. by rewrite fst_entry. Qed.
Lemma holds_data its m : holds its m → data <$> its ≡ₚ all_data m.
Proof.
  intros Hh. unfold all_data. rewrite <-(holds_entries its m Hh), <-list_fmap_compose. done.
Qed.

(** Clearing empties the table, and destroying it frees every bucket list
    and hands the data of every item to the free callback exactly once. *)
Theorem ht_destroy_frees free_item_cb t m :
  ht_is t m → (count t < 2 ^ 64)%Z →
  ∃ t' l, ht_clear free_item_cb t = Ret (tt, t') ∧ ht_is t' ∅ ∧ l ≡ₚ all_data m
    ∧ ht_destroy free_item_cb t = Ret (∅, freed t ++ if free_item_cb then l else []).
Proof.
  intros (LS & Hr) Hlt. destruct (clear_lists_ok free_item_cb LS t m Hr Hlt) as (t' & Hrun & Hr' & Hf).
  assert (ht_clear free_item_cb t = Ret (tt, t')) as Hclear.
  { unfold ht_clear, mbind, st_bind, st_get. destruct Hr as [_ _ -> _ _ _ _ _ _]. done. }
  exists t', (data <$> all_items LS). split_and!; [done|by exists []|apply holds_data; by destruct Hr|].
  unfold ht_destroy. rewrite Hclear. cbn. rewrite Hf. destruct Hr' as [Hh _ _ _ _ _ _ _ _]. by rewrite (heap_is_nil _ Hh).
Qed.

(** ** Iteration *)
Section Foreach.
Context {D : Type} (cb : D → list Z → option ptr → Z → outcome (D * Z)).
(** The callback on a sequence of pairs. *)
Fixpoint visit (l : list (list Z * (option ptr * Z))) (user : D) : outcome D :=
  match l with [] => Ret user | (k, (d, n)) :: l => '(user, _) ← cb user k d n; visit l user end.
Lemma visit_app l1 l2 user : visit (l1 ++ l2) user = u ← visit l1 user; visit l2 u.
Proof.
  revert user. induction l1 as [|[k [d n]] l1 IH]; intros user; [done|]. cbn. destruct (cb user k d n) as [[u rc]|]; cbn; [apply IH|done].
Qed.
(** The callback always answers that the iteration goes on. *)
Hypothesis Hcb : ∀ u k d n u' rc, cb u k d n = Ret (u', rc) → (rc > 0)%Z.

Lemma foreach_items_ok its i user : foreach_items cb its i user = u ← visit (entry <$> its) user; Ret (u, None).
Proof.
  revert i user. induction its as [|it its IH]; intros i user; [done|]. cbn.
  destruct (cb user (key it) (data it) (dlen it)) as [[u rc]|] eqn:Hc; cbn; [|done].
  rewrite bool_decide_false by (apply Hcb in Hc; lia). apply IH.
Qed.
Lemma foreach_lists_ok free_item_cb LS t user :
  (∀ l L, (l, L) ∈ LS → lists t !! l = Some L) →
  foreach_lists free_item_cb cb LS.*1 user t = u ← visit (entry <$> all_items LS) user; Ret (u, t).
Proof.
  revert user. induction LS as [|[l L] LS IH]; intros user Hl; [done|].
  cbn. unfold ld_list, mbind, st_bind, st_get. rewrite (Hl l L) by (apply elem_of_cons; auto). cbn. rewrite foreach_items_ok.
  change (all_items ((l, L) :: LS)) with (head L ++ all_items LS). rewrite fmap_app, visit_app.
  destruct (visit (entry <$> head L) user) as [u|]; cbn; [|done]. apply IH. intros l' L' Hin. apply Hl, elem_of_cons. by right.
Qed.

Lemma foreach_pair_ok free_item_cb t m user :
  ht_is t m → ∃ l, l ≡ₚ map_to_list m ∧ ht_foreach_pair free_item_cb cb user t = u ← visit l user; Ret (u, t).
Proof.
  intros (LS & Hr). exists (entry <$> all_items LS). split; [apply holds_entries; by destruct Hr|].
  unfold ht_foreach_pair, mbind, st_bind, st_get. rewrite (r_iter _ _ _ Hr). apply foreach_lists_ok.
  intros l L Hin. eapply heap_elem; [by destruct Hr|done].
Qed.

(** An iteration whose callback never stops it visits every pair of the
    table once, and leaves the table alone. *)
Theorem ht_foreach_pair_visits free_item_cb t m user :
  ht_is t m → ∃ l, l ≡ₚ map_to_list m ∧ ht_foreach_pair free_item_cb cb user t = u ← visit l user; Ret (u, t).
Proof. apply foreach_pair_ok. Qed.
End Foreach.

(** ** Lists of all keys and values *)
Section Collect.
Context (granted : nat → bool).
Hypothesis Hgrant : ∀ n, granted n = true.

Lemma mallocs_ok_run n t : ∃ a, mallocs_ok granted n t = Ret (true, set_mallocs a t).
Proof.
  revert t. induction n as [|n IH]; intros t; [exists (mallocs t); by destruct t|].
  cbn. unfold mbind, st_bind. rewrite malloc_run by done. destruct (IH (set_mallocs (S (mallocs t)) t)) as [a ->]. by exists a.
Qed.

Lemma collect_items_ok {A} n (mk : ht_item → A) its output vs t :
  list_is output vs → (Z.of_nat (length vs + length its) ≤ MAX_LEN)%Z →
  ∃ out a, collect_items granted n mk its output t = Ret (Some out, set_mallocs a t) ∧ list_is out (vs ++ (Some ∘ mk <$> its)).
Proof.
  revert output vs t. induction its as [|it its IH]; intros output vs t Hl Hlen; cbn in *.
  { exists output, (mallocs t). rewrite app_nil_r. split; [by destruct t|done]. }
  unfold mbind at 1, st_bind. destruct (mallocs_ok_run n t) as [a ->].
  destruct (list_push_value_is output vs (Some (mk it)) Hl) as (o1 & Hpush & Hl1); [lia|].
  unfold mbind at 1, st_bind. rewrite Hpush. cbn.
  destruct (IH o1 (vs ++ [Some (mk it)]) (set_mallocs a t)) as (out & b & Hrun & Hl2); [done|rewrite length_app; cbn; lia|].
  exists out, b. split; [exact Hrun|]. by rewrite <-app_assoc in Hl2.
Qed.

Lemma collect_lists_ok {A} n (mk : ht_item → A) LS output vs t :
  (∀ l L, (l, L) ∈ LS → lists t !! l = Some L) → list_is output vs → (Z.of_nat (length vs + length (all_items LS)) ≤ MAX_LEN)%Z →
  ∃ out a, collect_lists granted n mk LS.*1 output t = Ret (Some out, set_mallocs a t)
    ∧ list_is out (vs ++ (Some ∘ mk <$> all_items LS)).
Proof.
  revert output vs t. induction LS as [|[l L] LS IH]; intros output vs t Hls Hl Hlen.
  { exists output, (mallocs t). rewrite app_nil_r. split; [by destruct t|done]. }
  change (all_items ((l, L) :: LS)) with (head L ++ all_items LS) in *. rewrite length_app in Hlen.
  cbn. unfold ld_list, mbind, st_bind, st_get. rewrite (Hls l L) by (apply elem_of_cons; auto). cbn.
  destruct (collect_items_ok n mk (head L) output vs t Hl) as (o1 & a & -> & Hl1); [lia|].
  destruct (IH o1 (vs ++ (Some ∘ mk <$> head L)) (set_mallocs a t)) as (out & b & Hrun & Hl2); [|exact Hl1|rewrite length_app, length_fmap; lia|].
  { intros l' L' Hin. apply Hls, elem_of_cons. by right. }
  exists out, b. split; [exact Hrun|]. by rewrite fmap_app, app_assoc.
Qed.

(** Ht_get_all_values lists every pair of the table once, and
    ht_get_all_keys every key with the length of its data. *)
Theorem ht_get_all_lists t m :
  ht_is t m → (count t ≤ MAX_LEN)%Z →
  ∃ l keys values t1 t2, l ≡ₚ map_to_list m
    ∧ ht_get_all_keys granted t = Ret (Some keys, t1) ∧ list_is keys ((λ x, Some (mk_hkey x.1 x.2.2)) <$> l)
    ∧ ht_get_all_values granted t = Ret (Some values, t2) ∧ list_is values ((λ x, Some (mk_hvalue x.2.1 x.2.2 x.1)) <$> l)
    ∧ ht_is t1 m ∧ ht_is t2 m.
Proof.
  intros (LS & Hr) Hlen. pose proof Hr as [Hheap _ Hiter _ _ Hholds Hcount _ _].
  assert (∀ l L, (l, L) ∈ LS → lists t !! l = Some L) as Hls by (intros l L Hin; by eapply heap_elem).
  destruct (collect_lists_ok 2 (λ it, mk_hkey (key it) (dlen it)) LS list_create [] t Hls) as (keys & a & Hk & Hlk); [apply list_is_create|cbn; lia|].
  destruct (collect_lists_ok 1 (λ it, mk_hvalue (data it) (dlen it) (key it)) LS list_create [] t Hls) as (vals & b & Hv & Hlv); [apply list_is_create|cbn; lia|].
  exists (entry <$> all_items LS), keys, vals, (set_mallocs a t), (set_mallocs b t).
  split_and!; [by apply holds_entries| | | | |exists LS; by eapply rep_ext..].
  - unfold ht_get_all_keys, mbind, st_bind, st_get. by rewrite Hiter.
  - by rewrite <-list_fmap_compose.
  - unfold ht_get_all_values, mbind, st_bind, st_get. by rewrite Hiter.
  - by rewrite <-list_fmap_compose.
Qed.
End Collect.

(** ** What goes wrong *)
Section Wrong.
Context (free_item_cb : bool) (granted : nat → bool).
Hypothesis Hgrant : ∀ n, granted n = true.

Lemma find_item_app k its it its' : find_item k its = Some it → find_item k (its ++ its') = Some it.
Proof. destruct it as [i it]. apply list_find_app_l. Qed.

(** A set of a key whose data is NULL returns 0, but adds a second item behind the first, which is the one a search finds. *)
Lemma set_null_lost t m k p n n0 :
  ht_is t m → k ≠ [] → m !! k = Some (None, n0) → (count t + 1 ≤ size t + size t `div` 3)%Z →
  ∃ t' t'', ht_set free_item_cb granted k (Some p) n t = Ret (0%Z, t') ∧ ht_get granted k t' = Ret ((None, Some n0), t'')
    ∧ count t' = (count t + 1)%Z.
Proof.
  intros Hi Hk Hm Hsize. pose proof (ht_is_count t m Hi) as Hc. pose proof Hi as (LS0 & [_ _ _ [Hpos _ _ _ _ _] _ _ _ Hsz _]).
  assert (ht_abs t (mk_store m (blocks t) (next_block t) (freed t))) as Habs by by split_and!.
  destruct (call_at k t _ None n0 Habs Hm) as (l & L & LS & i & h & (Hr & Hin & _ & Hl) & Hf & Hget).
  assert (u64 (count t + 1) = (count t + 1)%Z) as Hu.
  { apply u64_id. pose proof (Z.div_lt_upper_bound (size t) 3 (2 ^ 62)). unfold in_u64. lia. }
  set (hk := ht_hash_one_at_a_time (seed t) k) in *.
  assert (∃ a, insert_item granted l hk k (Some p) n false t = Ret (true, set_count (count t + 1) (set_lists
      (<[l := mk_items (head L ++ [mk_item hk k (Some p) n]) (index L)]> (lists t)) (next_list t) (set_mallocs a t)))) as [a Hins].
  { unfold insert_item, mbind, st_bind. rewrite malloc_run by done. cbn.
    assert (∃ a, (if bool_decide (KBUF_SIZE < length k) then malloc granted else mret true) (set_mallocs (S (mallocs t)) t)
      = Ret (true, set_mallocs a t)) as [a ->] by (case_bool_decide; [rewrite malloc_run by done|]; by eexists).
    exists a. unfold push_item. ht_exec. cbn. rewrite Hl. cbn. by rewrite Hu. }
  set (t' := set_count _ _) in Hins.
  assert (ht_set free_item_cb granted k (Some p) n t = Ret (0%Z, t')) as Hset.
  { unfold ht_set, ht_set_internal. rewrite bool_decide_false by done. unfold mbind, st_bind, st_get. fold hk. rewrite Hget.
    unfold ld_list, mbind, st_bind, st_get, mret, st_ret. rewrite Hl. rewrite Hf. cbn [data]. rewrite Hins.
    unfold set_finish, mbind, st_bind, st_get. cbn. rewrite bool_decide_false; [done|].
    rewrite u64_id; [lia|]. pose proof (Z.div_lt_upper_bound (size t) 3 (2 ^ 62)). pose proof (Z.div_pos (size t) 3). unfold in_u64. lia. }
  assert (lists t' !! l = Some (mk_items (head L ++ [mk_item hk k (Some p) n]) (index L))) as Hl' by apply lookup_insert_eq.
  assert (ht_get_list hk t' = Ret (Some l, t')) as Hget'.
  { unfold ht_get_list, item_at, mbind, st_bind, st_get, mret, st_ret in *. cbn in *. by destruct (items t !! _); simplify_eq/=. }
  eexists t', _. split_and!; [done| |done].
  unfold ht_get, ht_get_internal, ht_call_internal. unfold mbind, st_bind, st_get. change (seed t') with (seed t). fold hk. rewrite Hget'.
  unfold ld_list at 1, mbind, st_bind, st_get. rewrite Hl'. unfold mret, st_ret. cbn [head]. rewrite (find_item_app _ _ _ _ Hf). cbn.
  unfold upd_list, ld_list, mbind, st_bind, st_get. rewrite Hl'. done.
Qed.

(** A key that ht_unset has cleared cannot be set again: ht_set reports
    success and counts another item, but the item with NULL data stays in front
    of the new one, and ht_get still answers NULL. *)
Theorem ht_unset_loses_key t m k d n0 p n :
  ht_is t m → k ≠ [] → m !! k = Some (d, n0) → (count t + 1 ≤ size t + size t `div` 3)%Z →
  ∃ out t1 t2 t3, ht_unset free_item_cb k false false t = Ret ((0%Z, out), t1)
    ∧ ht_set free_item_cb granted k (Some p) n t1 = Ret (0%Z, t2)
    ∧ ht_get granted k t2 = Ret ((None, Some 0%Z), t3) ∧ count t2 = (count t + 1)%Z.
Proof.
  intros Hi Hk Hm Hsize. pose proof Hi as (LS0 & [_ _ _ _ _ _ _ Hsz _]).
  assert (count t < 2 ^ 64)%Z as Hlt by (pose proof (Z.div_lt_upper_bound (size t) 3 (2 ^ 62)); lia).
  set (σ := mk_store m (blocks t) (next_block t) (freed t)). assert (ht_abs t σ) as Habs by by split_and!.
  destruct (call_free_abs free_item_cb t σ d Habs) as (t0 & Hfree & Habs0 & Ht0).
  destruct (call_Some k (ht_delete_helper free_item_cb true false false None 0) (None, None) t σ d n0 0 None 0 (None, None) t0
    (free_spec free_item_cb d σ) Habs Hlt Hm) as (t1 & Hrun & Habs1 & Hs1); [|exact Habs0|done|apply (s_map_free free_item_cb false d σ)|].
  { unfold ht_delete_helper, mbind, st_bind, mret, st_ret. by rewrite Hfree. }
  rewrite bool_decide_false in Hrun, Habs1 by done.
  assert (ht_is t1 (<[k := (None, 0%Z)]> m)) as Hi1.
  { destruct Habs1 as [Hi1 _]. cbn in Hi1. by rewrite (s_map_free free_item_cb false d σ) in Hi1. }
  assert (count t1 = count t) as Hc1 by (rewrite (ht_is_count t1 _ Hi1), (ht_is_count t _ Hi); by rewrite map_size_insert_Some).
  destruct (set_null_lost t1 (<[k := (None, 0%Z)]> m) k p n 0) as (t2 & t3 & Hset & Hget & Hc); [done|done|by rewrite lookup_insert_eq|by rewrite Hc1, Hs1|].
  exists (None, None), t1, t2, t3. split_and!; [exact Hrun|done|done|lia].
Qed.
End Wrong.

(** When the copy of ht_set_copy cannot be allocated for a key that is
    there, the call reports failure and keeps the old data, but the item is left
    with the new length: reading it then runs over the end of the old data. *)
Theorem ht_set_copy_failure free_item_cb granted t m k q n0 d n prev_data prev_len :
  ht_is t m → k ≠ [] → m !! k = Some (Some q, n0) → granted (mallocs t) = false →
  ∃ t', ht_set_copy free_item_cb granted k d n prev_data prev_len t = Ret (failed, t') ∧ ht_is t' (<[k := (Some q, n)]> m).
Proof.
  intros Hi Hk Hm Hno. set (σ := mk_store m (blocks t) (next_block t) (freed t)). assert (ht_abs t σ) as Habs by by split_and!.
  destruct (call_at k t σ (Some q) n0 Habs Hm) as (l & L & LS & i & h & (Hr & Hin & _ & Hl) & Hf & Hget).
  pose proof (find_item_Some _ _ _ _ Hf) as [Hit _].
  eexists. split.
  - unfold ht_set_copy, ht_set_internal. rewrite bool_decide_false by done. unfold mbind, st_bind, st_get. rewrite Hget.
    unfold ld_list, mbind, st_bind, st_get, mret, st_ret. rewrite Hl, Hf. cbn [data].
    unfold replace_item. ht_exec. rewrite Hl. cbn. rewrite (alter_insert _ _ _ _ Hit).
    unfold copy_block, malloc, mbind, st_bind, st_get, st_modify, mret, st_ret. cbn. rewrite Hno. reflexivity.
  - by eapply (rep_put t _ LS m l L i _ _ _ Hr Hin Hit).
Qed.

(** ** A concrete table *)
(** A new table with the keys "a" and "b". *)
Definition two_keys : hashtable :=
  match (o ← ht_create always one_block 2 0 0 41; t ← deref o; exec_all true always [OpSet [97]%Z 1%positive 2; OpSet [98]%Z 1%positive 2] t) with
  | Ret (_, t) => t
  | Fault => ht_zero ∅ 1
  end.
Definition two_keys_map : data_map := <[[98]%Z := (Some 1%positive, 2%Z)]> {[[97]%Z := (Some 1%positive, 2%Z)]}.
Lemma two_keys_is : ht_is two_keys two_keys_map.
Proof.
  destruct (create_abs always (λ _, eq_refl) one_block 2 0 0 41) as (t & Hc & Habs); [lia..|].
  destruct (exec_all_abs true always (λ _, eq_refl) [OpSet [97]%Z 1%positive 2; OpSet [98]%Z 1%positive 2] t _ [RInt 0; RInt 0]
    (mk_store two_keys_map one_block 2 []) Habs) as (t' & Hrun & [Hi _]).
  - apply map_Forall_empty.
  - vm_compute. discriminate.
  - repeat constructor; done.
  - vm_compute. reflexivity.
  - unfold two_keys. rewrite Hc. cbn [mbind outcome_bind deref]. by rewrite Hrun.
Qed.

(** The items that an iteration removes stay counted: after a callback has
    removed both items of a table with two keys, neither key exists, the
    callback free_item_cb has been called for both, and ht_count still says 2. *)
Theorem ht_foreach_remove_miscounts :
  ('(_, t) ← ht_foreach_pair true (λ u _ _ _, Ret (u, HT_ITERATOR_REMOVE)) tt two_keys;
   '(a, t) ← ht_exists [97]%Z t; '(b, t) ← ht_exists [98]%Z t; '(n, t) ← ht_count t; Ret (a, b, n, freed t))
  = Ret (false, false, 2%Z, [Some 1%positive; Some 1%positive]).
Proof. vm_compute. reflexivity. Qed.

(** ** Witnesses *)
Lemma ht_destroy_frees_witness :
  ∃ t' l, ht_clear true two_keys = Ret (tt, t') ∧ ht_is t' ∅ ∧ l ≡ₚ all_data two_keys_map
    ∧ ht_destroy true two_keys = Ret (∅, freed two_keys ++ if true then l else []).
Proof. apply (ht_destroy_frees true two_keys two_keys_map two_keys_is). vm_compute. reflexivity. Defined.

Lemma ht_foreach_pair_visits_witness :
  let cb (u : Z) (_ : list Z) (_ : option ptr) n := Ret (u + n, 1)%Z in
  ∃ l, l ≡ₚ map_to_list two_keys_map ∧ ht_foreach_pair true cb 0%Z two_keys = u ← visit cb l 0%Z; Ret (u, two_keys).
Proof.
  intros cb. apply (ht_foreach_pair_visits cb); [|exact two_keys_is]. intros u k d n u' rc H. injection H as _ <-. reflexivity.
Defined.

Lemma ht_get_all_lists_witness :
  ∃ l keys values t1 t2, l ≡ₚ map_to_list two_keys_map
    ∧ ht_get_all_keys always two_keys = Ret (Some keys, t1) ∧ list_is keys ((λ x, Some (mk_hkey x.1 x.2.2)) <$> l)
    ∧ ht_get_all_values always two_keys = Ret (Some values, t2) ∧ list_is values ((λ x, Some (mk_hvalue x.2.1 x.2.2 x.1)) <$> l)
    ∧ ht_is t1 two_keys_map ∧ ht_is t2 two_keys_map.
Proof. apply (ht_get_all_lists always (λ _, eq_refl) two_keys two_keys_map two_keys_is). vm_compute. discriminate. Defined.

Lemma ht_unset_loses_key_witness :
  ∃ out t1 t2 t3, ht_unset true [97]%Z false false two_keys = Ret ((0%Z, out), t1)
    ∧ ht_set true always [97]%Z (Some 5%positive) 2 t1 = Ret (0%Z, t2)
    ∧ ht_get always [97]%Z t2 = Ret ((None, Some 0%Z), t3) ∧ count t2 = (count two_keys + 1)%Z.
Proof.
  apply (ht_unset_loses_key true always (λ _, eq_refl) two_keys two_keys_map [97]%Z (Some 1%positive) 2 5 2 two_keys_is);
    [discriminate|reflexivity|vm_compute; discriminate].
Defined.

Lemma ht_set_copy_failure_witness :
  ∃ t', ht_set_copy true (λ _, false) [97]%Z (Some 1%positive) 1 false false two_keys = Ret (failed, t')
    ∧ ht_is t' (<[[97]%Z := (Some 1%positive, 1%Z)]> two_keys_map).
Proof.
  apply (ht_set_copy_failure true (λ _, false) two_keys two_keys_map [97]%Z 1 2 (Some 1%positive) 1 false false two_keys_is);
    [discriminate|reflexivity|reflexivity].
Defined.
