(* ===== verification/HashTableSync.v ===== *)
(** * The hash table: the status word that threads share

    Every access to the bucket array goes through the word status: readers
    (ht_get_list) count themselves in it above HT_STATUS_IDLE, and a writer
    (ht_set_list, ht_grow_table, ht_clear) takes it from HT_STATUS_IDLE to its
    own code.  A thread is a program counter, and [tstep] runs it up to its next
    atomic instruction; the table is reduced to its size, which tells the
    positions of the buckets.  A result is the position a thread uses with the
    size of the table at that moment. *)
From S2P Require Import Prelude HashTable.

Definition HT_STATUS_CLEAR : Z := 0.
Definition HT_STATUS_WRITE : Z := 1.
Definition HT_STATUS_GROW : Z := 2.
Definition HT_STATUS_IDLE : Z := 3.
Definition HT_STATUS_READ : Z := 4.

Record shared := mk_shared { status : Z; bsize : Z }.
Definition set_status v (s : shared) : shared := mk_shared v (bsize s).

(** ATOMIC_CAS_RETURN and ATOMIC_CAS on the status. *)
Definition cas_return (old new : Z) (s : shared) : Z * shared :=
  (status s, if bool_decide (status s = old) then set_status new s else s).
Definition cas (old new : Z) (s : shared) : bool * shared :=
  let '(v, s) := cas_return old new s in (bool_decide (v = old), s).

Inductive writer := Clear | Write | Grow.
Definition code (w : writer) : Z := match w with Clear => HT_STATUS_CLEAR | Write => HT_STATUS_WRITE | Grow => HT_STATUS_GROW end.
#[export] Instance writer_eq_dec : EqDecision writer.
Proof. solve_decision. Defined.

Inductive pc :=
  | RStart (h : Z)                     (* ht_get_list called with a hash *)
  | RTry (i : Z)                       (* at the CAS of the do loop *)
  | RWait (i st : Z)                   (* at the condition of the while loop *)
  | RRetry (i : Z)                     (* at the CAS in the while loop *)
  | RIn (i st : Z)                     (* counted in the status, before the read of the bucket *)
  | ROut (r : Z * Z) (st : Z)          (* bucket read, at the first CAS of the last loop *)
  | RDec (r : Z * Z)                   (* at the second CAS of the last loop *)
  | RDone (r : Z * Z)
  | WTry (w : writer) (h : Z)          (* at the CAS that takes the status *)
  | WIn (w : writer) (h : Z)           (* in the section *)
  | WRel (w : writer) (r : Z * Z)      (* at the CAS that gives the status back *)
  | WDone (r : Z * Z)
  | WSkip.                             (* growth given up *)

(** The size of a grown table; only that it may be any other positive size matters here. *)
Section Step.
Context (grown : Z → Z).

(** One step; [fails] says what sched_yield returns in the do loop. *)
Definition tstep (fails : bool) (s : shared) (p : pc) : shared * pc :=
  match p with
  | RStart h => (s, RTry (h `mod` bsize s))
  | RTry i =>
      let '(st, s) := cas_return HT_STATUS_IDLE HT_STATUS_READ s in
      (s, if bool_decide (st < HT_STATUS_IDLE)%Z && negb fails then RTry i else RWait i st)
  | RWait i st =>
      if bool_decide (st = HT_STATUS_IDLE) then (s, RIn i (u32 (st + 1)))
      else if bool_decide (st >= HT_STATUS_READ)%Z then
        let '(ok, s) := cas st (u32 (st + 1)) s in (s, if ok : bool then RIn i (u32 (st + 1)) else RRetry i)
      else (s, RRetry i)
  | RRetry i => let '(st, s) := cas_return HT_STATUS_IDLE HT_STATUS_READ s in (s, RWait i st)
  | RIn i st => (s, ROut (i, bsize s) st)
  | ROut r st => let '(ok, s) := cas st (st - 1) s in (s, if ok : bool then RDone r else RDec r)
  | RDec r =>
      let '(st, s) := cas_return HT_STATUS_READ HT_STATUS_IDLE s in
      (s, if bool_decide (st > HT_STATUS_READ)%Z then ROut r st else RDone r)
  | WTry w h =>
      let '(ok, s) := cas HT_STATUS_IDLE (code w) s in
      (s, if ok : bool then WIn w h else if bool_decide (w = Grow) then WSkip else WTry w h)
  | WIn w h =>
      let s := if bool_decide (w = Grow) then mk_shared (status s) (grown (bsize s)) else s in
      (s, WRel w (h `mod` bsize s, bsize s)%Z)
  | WRel w r => let '(_, s) := cas (code w) HT_STATUS_IDLE s in (s, WDone r)
  | RDone _ | WDone _ | WSkip => (s, p)
  end.

Inductive step : shared * list pc → shared * list pc → Prop :=
  | do_step fails s ps i p : ps !! i = Some p → step (s, ps) ((tstep fails s p).1, <[i := (tstep fails s p).2]> ps).

(** Threads that have not started. *)
Definition fresh (p : pc) : Prop := match p with RStart _ | WTry _ _ => True | _ => False end.
Inductive reachable (n : Z) (ps : list pc) : shared * list pc → Prop :=
  | reach_start : Forall fresh ps → reachable n ps (mk_shared HT_STATUS_IDLE n, ps)
  | reach_next c c' : reachable n ps c → step c c' → reachable n ps c'.

(** ** Who is in *)
Definition reading (p : pc) : bool :=
  match p with RWait _ st => bool_decide (st = HT_STATUS_IDLE) | RIn _ _ | ROut _ _ | RDec _ => true | _ => false end.
Definition writing (p : pc) : bool := match p with WIn _ _ | WRel _ _ => true | _ => false end.
Definition holds_code (v : Z) (p : pc) : Prop := match p with WIn w _ | WRel w _ => v = code w | _ => True end.

(** The status word tells who is in: readers, or one writer, or nobody. *)
Definition sync_ok (c : shared * list pc) : Prop :=
  let '(s, ps) := c in
  (cnt writing ps = 0 ∧ status s = (HT_STATUS_IDLE + Z.of_nat (cnt reading ps))%Z)
  ∨ (cnt writing ps = 1 ∧ cnt reading ps = 0 ∧ (status s < HT_STATUS_IDLE)%Z ∧ Forall (holds_code (status s)) ps).
End Step.

Lemma not_writing_code v p : writing p = false → holds_code v p.
Proof. by destruct p. Qed.
Lemma no_writer_codes v ps : cnt writing ps = 0 → Forall (holds_code v) ps.
Proof.
  intros H0. apply Forall_lookup_2. intros i p Hi. apply not_writing_code. by eapply cnt_zero.
Qed.

(** Decides the tests of a step. *)
Ltac decide_tests :=
  repeat (unfold cas, cas_return, set_status, HT_STATUS_IDLE, HT_STATUS_READ in *; cbn in *; case_bool_decide); cbn in *;
  unfold HT_STATUS_IDLE, HT_STATUS_READ in *.

Lemma sync_step grown c c' :
  (Z.of_nat (length c.2) < 2 ^ 32 - 4)%Z → sync_ok c → step grown c c' → sync_ok c' ∧ length c'.2 = length c.2.
Proof.
  intros Hlen Hok Hstep. destruct Hstep as [fails s ps i p Hi]. cbn in Hlen. split; [|cbn; apply length_insert].
  set (p' := (tstep grown fails s p).2). set (s' := (tstep grown fails s p).1).
  pose proof (cnt_insert reading ps i p p' Hi) as Hr. pose proof (cnt_insert writing ps i p p' Hi) as Hw.
  pose proof (cnt_le reading ps) as Hle. cbn in Hok |- *. fold s' p'.
  destruct Hok as [[Hw0 Hst]|(Hw1 & Hr0 & Hst & Hcodes)].
  - pose proof (cnt_zero writing ps i p Hw0 Hi) as Hnw.
    destruct p; try discriminate; subst p' s'; decide_tests; try (left; split; lia).
    + left. split; [lia|]. unfold u32 in *. rewrite Z.mod_small in * by lia. lia.
    + right. split_and!; [lia|lia|destruct w; cbn; unfold HT_STATUS_CLEAR, HT_STATUS_WRITE, HT_STATUS_GROW; lia|].
      apply Forall_insert; [by apply no_writer_codes|done].
  - pose proof (cnt_zero reading ps i p Hr0 Hi) as Hnr. pose proof (Forall_lookup_1 _ _ _ _ Hcodes Hi) as Hcode.
    destruct fails, p; subst p' s'; decide_tests; try discriminate; try lia; try (left; split; lia);
      try (right; split_and!; [lia|lia|lia|by apply Forall_insert]).
Qed.

Lemma reachable_ok grown n ps c :
  (Z.of_nat (length ps) < 2 ^ 32 - 4)%Z → reachable grown n ps c → sync_ok c ∧ length c.2 = length ps.
Proof.
  intros Hlen. induction 1 as [Hf|c c' _ [IH Hl] Hs].
  - split; [|done]. left. rewrite !cnt_none; [done|..]; eapply Forall_impl; [exact Hf| |exact Hf|]; by intros [].
  - rewrite <-Hl in Hlen |- *. by eapply sync_step.
Qed.

Lemma status_excluded n ps grown s qs :
  (Z.of_nat (length ps) < 2 ^ 32 - 4)%Z → reachable grown n ps (s, qs) →
  ∀ i j p q, qs !! i = Some p → qs !! j = Some q → i ≠ j → writing p = true → reading q = false ∧ writing q = false.
Proof.
  intros Hlen [Hok _]%reachable_ok; [|done]. intros i j p q Hi Hj Hne Hp. destruct Hok as [[Hw _]|(Hw & Hr & _)].
  { by rewrite (cnt_zero _ _ _ _ Hw Hi) in Hp. }
  split; [by eapply cnt_zero|]. pose proof (cnt_insert writing qs i p WSkip Hi) as Hc. rewrite Hp, Hw in Hc. cbn in Hc.
  apply (cnt_zero writing (<[i := WSkip]> qs) j q); [lia|]. by rewrite list_lookup_insert_ne.
Qed.

(** C14: the status word excludes.  In any reachable state of any number of
    threads, while one is in the section of a writer no other thread is in the
    section of a reader or a writer; and a status of HT_STATUS_IDLE means that
    nobody is in a section. *)
Theorem status_excludes grown n ps s qs :
  (Z.of_nat (length ps) < 2 ^ 32 - 4)%Z → reachable grown n ps (s, qs) →
  (∀ i j p q, qs !! i = Some p → qs !! j = Some q → i ≠ j → writing p = true → reading q = false ∧ writing q = false)
  ∧ (status s = HT_STATUS_IDLE → ∀ i p, qs !! i = Some p → reading p = false ∧ writing p = false).
Proof.
  intros Hlen Hreach. split; [by eapply status_excluded|]. intros Hidle i p Hi.
  apply reachable_ok in Hreach as [Hok _]; [|done]. destruct Hok as [[Hw Hst]|(_ & _ & Hst & _)]; [|lia].
  split; [apply (cnt_zero reading qs i p); [lia|done]|by apply (cnt_zero writing qs i p)].
Qed.

(** ** The bucket array does not change under a section *)
(** The size a thread has seen in the section it is still in. *)
Definition seen (p : pc) : option Z :=
  match p with ROut r _ | RDec r | WRel _ r => Some r.2 | _ => None end.
Lemma seen_in p v : seen p = Some v → reading p = true ∨ writing p = true.
Proof. destruct p; cbn; auto; discriminate. Qed.

Lemma seen_step grown fails s p v : seen (tstep grown fails s p).2 = Some v → v = bsize (tstep grown fails s p).1 ∨ seen p = Some v.
Proof. destruct p; cbn; unfold cas, cas_return; repeat case_match; cbn; intros; simplify_eq/=; auto. Qed.
Lemma size_step grown fails s p : bsize (tstep grown fails s p).1 = bsize s ∨ writing p = true ∧ seen p = None.
Proof. destruct p; cbn; unfold cas, cas_return; repeat case_match; cbn; simplify_eq/=; auto. Qed.

(** No growth happens under a reader or a writer: as long as a thread that
    has read or replaced its bucket is in its section, the size of the table is
    the one it saw there. *)
Theorem section_stable grown n ps s qs i p v :
  (Z.of_nat (length ps) < 2 ^ 32 - 4)%Z → reachable grown n ps (s, qs) → qs !! i = Some p → seen p = Some v → bsize s = v.
Proof.
  intros Hlen Hreach. remember (s, qs) as c eqn:Hc. revert s qs i p v Hc.
  induction Hreach as [Hf|c c' Hreach IH Hstep]; intros s qs i p v Hc Hi Hv.
  - simplify_eq. rewrite Forall_lookup in Hf. specialize (Hf i p Hi). by destruct p.
  - destruct (reachable_ok _ _ _ _ Hlen Hreach) as [Hok _]. destruct Hstep as [fails s0 ps0 j q Hj]. simplify_eq.
    destruct (decide (j = i)) as [<-|Hne].
    + rewrite list_lookup_insert_eq in Hi by by eapply lookup_lt_Some. simplify_eq.
      destruct (seen_step grown fails s0 q v Hv) as [->|Hq]; [done|].
      destruct (size_step grown fails s0 q) as [->|[_ Hn]]; [by eapply IH|congruence].
    + rewrite list_lookup_insert_ne in Hi by done.
      destruct (size_step grown fails s0 q) as [->|[Hw _]]; [by eapply IH|]. exfalso.
      destruct (status_excluded n ps grown s0 ps0 Hlen Hreach j i q p Hj Hi Hne Hw) as [Hr' Hw'].
      destruct (seen_in p v Hv); congruence.
Qed.

(** ** A reader that runs alone *)
Definition is_reader (p : pc) : bool :=
  match p with RStart _ | RTry _ | RWait _ _ | RRetry _ | RIn _ _ | ROut _ _ | RDec _ | RDone _ => true | _ => false end.
Section Solo.
Context (grown : Z → Z) (fails : bool).
Definition solo (k : nat) (c : shared * pc) : shared * pc := Nat.iter k (λ c, tstep grown fails c.1 c.2) c.
Definition finishes (k : nat) (s : shared) (p : pc) : Prop := ∃ s' r, solo k (s, p) = (s', RDone r).

Lemma finishes_step k s p : finishes k (tstep grown fails s p).1 (tstep grown fails s p).2 → finishes (S k) s p.
Proof. unfold finishes, solo. intros (s' & r & H). exists s', r. rewrite Nat.iter_succ_r. cbn. by rewrite <-surjective_pairing in H. Qed.
Lemma finishes_more k s p : finishes k s p → finishes (S k) s p.
Proof. unfold finishes, solo. intros (s' & r & H). exists s', r. by rewrite Nat.iter_succ, H. Qed.
Lemma finishes_le k k' s p : finishes k s p → k ≤ k' → finishes k' s p.
Proof. induction 2; auto using finishes_more. Qed.

(** Counted alone last, or with others behind. *)
Lemma out_now s r : finishes 1 s (ROut r (status s)).
Proof. apply finishes_step. cbn. unfold cas, cas_return. rewrite !bool_decide_true by done. cbn. by eexists _, _. Qed.
Lemma dec_late s r : (status s > HT_STATUS_IDLE)%Z → finishes 2 s (RDec r).
Proof.
  intros Hst. apply finishes_step. cbn. unfold HT_STATUS_READ, HT_STATUS_IDLE in *. destruct (decide (status s = 4%Z)) as [H4|H4].
  - rewrite H4, (bool_decide_false (4 > 4)%Z) by lia. by eexists _, _.
  - rewrite (bool_decide_false (status s = 4%Z)), (bool_decide_true (status s > 4)%Z) by lia. apply out_now.
Qed.
Lemma out_late s r st : (status s > HT_STATUS_IDLE)%Z → finishes 3 s (ROut r st).
Proof.
  intros Hst. destruct (decide (status s = st)) as [<-|Hne]; [apply (finishes_le 1); [apply out_now|lia]|].
  apply finishes_step. cbn. unfold cas, cas_return. rewrite !bool_decide_false by done. by apply dec_late.
Qed.
Lemma in_now s i : finishes 2 s (RIn i (status s)).
Proof. apply finishes_step. cbn. apply (out_now s). Qed.
Lemma in_late s i st : (status s > HT_STATUS_IDLE)%Z → finishes 4 s (RIn i st).
Proof. intros. apply finishes_step. by apply out_late. Qed.

(** A CAS from HT_STATUS_IDLE that has just been made. *)
Lemma wait_now s i :
  (HT_STATUS_IDLE ≤ status s < 2 ^ 32 - 1)%Z → let '(st, s) := cas_return HT_STATUS_IDLE HT_STATUS_READ s in finishes 3 s (RWait i st).
Proof.
  intros Hst. cbn. unfold HT_STATUS_IDLE, HT_STATUS_READ in *. apply finishes_step.
  destruct (decide (status s = 3%Z)) as [H3|H3]; cbn; unfold HT_STATUS_IDLE, HT_STATUS_READ.
  - rewrite !(bool_decide_true (status s = 3%Z)) by done. cbn. rewrite H3. apply (in_now (set_status 4 s)).
  - rewrite !(bool_decide_false (status s = 3%Z)), (bool_decide_true (status s >= 4)%Z) by lia.
    unfold cas, cas_return. rewrite !bool_decide_true by done. apply (in_now (set_status (u32 (status s + 1)) s)).
Qed.
Lemma retry_now s i : (HT_STATUS_IDLE ≤ status s < 2 ^ 32 - 1)%Z → finishes 4 s (RRetry i).
Proof. intros Hst. apply finishes_step. apply (wait_now s i Hst). Qed.
Lemma try_now s i : (HT_STATUS_IDLE ≤ status s < 2 ^ 32 - 1)%Z → finishes 4 s (RTry i).
Proof.
  intros Hst. apply finishes_step. cbn. rewrite (bool_decide_false (status s < _)%Z) by lia. apply (wait_now s i Hst).
Qed.
Lemma wait_late s i st :
  (HT_STATUS_IDLE ≤ status s < 2 ^ 32 - 1)%Z → (st = HT_STATUS_IDLE → status s > HT_STATUS_IDLE)%Z → finishes 5 s (RWait i st).
Proof.
  intros Hst Hin. apply finishes_step. cbn. case_bool_decide as H1; [by apply in_late, Hin|].
  case_bool_decide as H2; [|by apply retry_now]. unfold cas, cas_return. case_bool_decide as H3; cbn.
  - rewrite ?bool_decide_true by done. apply (finishes_le 2); [|lia]. apply (in_now (set_status _ _)).
  - rewrite ?bool_decide_false by done. by apply retry_now.
Qed.
End Solo.

(** A reader that runs alone finishes.  In any reachable state in which no
    thread is in the section of a writer, a thread inside ht_get_list returns
    after at most five of its own steps, whatever the other readers have left in
    the status word. *)
Theorem reader_finishes grown fails n ps s qs i p :
  (Z.of_nat (length ps) < 2 ^ 32 - 4)%Z → reachable grown n ps (s, qs) → cnt writing qs = 0 →
  qs !! i = Some p → is_reader p = true → ∃ s' r, solo grown fails 5 (s, p) = (s', RDone r).
Proof.
  intros Hlen Hreach Hw Hi Hp. apply reachable_ok in Hreach as [Hok Hl]; [|done]. cbn in Hl.
  assert (status s = HT_STATUS_IDLE + Z.of_nat (cnt reading qs))%Z as Hst by (destruct Hok as [[_ ?]|[? _]]; [done|lia]).
  pose proof (cnt_le reading qs) as Hle. unfold HT_STATUS_IDLE in Hst.
  assert (reading p = true → status s > HT_STATUS_IDLE)%Z as Hcounted.
  { intros Hr. unfold HT_STATUS_IDLE. destruct (cnt reading qs) eqn:H0; [|lia]. by rewrite (cnt_zero _ _ _ _ H0 Hi) in Hr. }
  assert (HT_STATUS_IDLE ≤ status s < 2 ^ 32 - 1)%Z as Hrange by (unfold HT_STATUS_IDLE; lia).
  change (finishes grown fails 5 s p). destruct p; try discriminate.
  - apply finishes_step. by apply try_now.
  - by apply finishes_more, try_now.
  - apply wait_late; [done|]. intros ->. by apply Hcounted.
  - by apply finishes_more, retry_now.
  - by apply finishes_more, in_late, Hcounted.
  - by apply (finishes_le _ _ 3); [apply out_late, Hcounted|lia].
  - by apply (finishes_le _ _ 2); [apply dec_late, Hcounted|lia].
  - apply (finishes_le _ _ 0); [by eexists _, _|lia].
Qed.

(** ** Schedules *)
(** Runs the threads in the given order; [None] when a thread does not exist. *)
Fixpoint play (grown : Z → Z) (sched : list nat) (c : shared * list pc) : option (shared * list pc) :=
  match sched with
  | [] => Some c
  | i :: sched => p ← c.2 !! i; play grown sched ((tstep grown false c.1 p).1, <[i := (tstep grown false c.1 p).2]> c.2)
  end.
Lemma play_reachable grown n ps sched c c' : reachable grown n ps c → play grown sched c = Some c' → reachable grown n ps c'.
Proof.
  revert c. induction sched as [|i sched IH]; intros [s qs] Hr Hp; cbn in Hp; [by simplify_eq|].
  destruct (qs !! i) as [p|] eqn:Hi; [|done]. cbn in Hp. eapply IH; [|exact Hp]. eapply reach_next; [exact Hr|]. by constructor.
Qed.

(** A table of 128 buckets that doubles, a reader of hash 200 and a growth. *)
Definition double (n : Z) : Z := u64 (Z.shiftl n 1).
Definition reader_and_growth : list pc := [RStart 200; WTry Grow 0].
Lemma reader_and_growth_reach sched c :
  play double sched (mk_shared HT_STATUS_IDLE 128, reader_and_growth) = Some c → reachable double 128 reader_and_growth c.
Proof. apply play_reachable. constructor. by repeat constructor. Qed.

(** Ht_get_list computes the position of its bucket before it enters the
    section of a reader.  When the table grows in between, it reads the bucket
    of a wrong position: here an item of hash 200 belongs to bucket 200 of 256,
    and the reader is handed bucket 72. *)
Theorem stale_bucket_index :
  ∃ s qs i n, reachable double 128 reader_and_growth (s, qs) ∧ qs !! 0 = Some (RDone (i, n)) ∧ n = bsize s ∧ i ≠ (200 `mod` n)%Z.
Proof.
  eexists _, _, 72%Z, 256%Z. split_and!.
  - apply (reader_and_growth_reach [0; 1; 1; 1; 0; 0; 0; 0]). vm_compute. reflexivity.
  - vm_compute. reflexivity.
  - vm_compute. reflexivity.
  - vm_compute. discriminate.
Qed.

(** ** Witnesses *)
(** The growth is in its section and the reader waits. *)
Lemma growing_reach : reachable double 128 reader_and_growth (mk_shared HT_STATUS_GROW 128, [RTry 72; WIn Grow 0]).
Proof. apply (reader_and_growth_reach [0; 1; 0]). vm_compute. reflexivity. Qed.
Lemma status_excludes_witness :
  let qs := [RTry 72; WIn Grow 0] in
  (∀ i j p q, qs !! i = Some p → qs !! j = Some q → i ≠ j → writing p = true → reading q = false ∧ writing q = false)
  ∧ (HT_STATUS_GROW = HT_STATUS_IDLE → ∀ i p, qs !! i = Some p → reading p = false ∧ writing p = false).
Proof. apply (status_excludes double 128 reader_and_growth (mk_shared HT_STATUS_GROW 128)); [vm_compute; reflexivity|apply growing_reach]. Defined.

(** The reader has read its bucket. *)
Lemma reading_reach : reachable double 128 reader_and_growth (mk_shared HT_STATUS_READ 128, [ROut (72, 128)%Z 4; WTry Grow 0]).
Proof. apply (reader_and_growth_reach [0; 0; 0; 0]). vm_compute. reflexivity. Qed.
Lemma section_stable_witness : bsize (mk_shared HT_STATUS_READ 128) = 128%Z.
Proof.
  apply (section_stable double 128 reader_and_growth (mk_shared HT_STATUS_READ 128) [ROut (72, 128)%Z 4; WTry Grow 0] 0 (ROut (72, 128)%Z 4) 128); [vm_compute; reflexivity|apply reading_reach|reflexivity|reflexivity].
Defined.
Lemma reader_finishes_witness : ∃ s' r, solo double true 5 (mk_shared HT_STATUS_READ 128, ROut (72, 128)%Z 4) = (s', RDone r).
Proof.
  apply (reader_finishes double true 128 reader_and_growth (mk_shared HT_STATUS_READ 128) [ROut (72, 128)%Z 4; WTry Grow 0] 0 (ROut (72, 128)%Z 4));
    [vm_compute; reflexivity|apply reading_reach|reflexivity|reflexivity|reflexivity].
Defined.
