(* ===== verification/Spi.v ===== *)
(** * The plug-in interface of string indexes (index/spi/spi.c and the string plug-ins)

    A string index is one of four structures, chosen on every call by the
    environment variable MIQS_STR_IDX_IMPL; calling an operation of one structure
    on another is undefined behaviour, a fault.  Data pointers are addresses;
    [local] is the address of the parameter data in the frame of
    insert_string_to_trie.  The radix tree reads [oob] behind a key, [beyond] is
    the memory behind a block that has no terminating zero, about which nothing is
    known, [junk] the memory
    that trie iteration grows into, and [granted] says which allocations of the
    hash table succeed. *)
From S2P Require Import Prelude Heap LinkedList RbTree Comparators Art HashTable Trie StringUtils.
From stdpp Require Import strings.

Inductive idx_impl := HASHTABLE | SBST | TRIE | ART.
(** The value of the environment variable. *)
Definition string_impl (env : option string) : idx_impl :=
  match env with
  | Some s =>
      if String.eqb s "HASHTABLE" then HASHTABLE
      else if String.eqb s "SBST" then SBST
      else if String.eqb s "TRIE" then TRIE
      else ART
  | None => ART
  end.

Inductive string_index :=
  | IHash (t : hashtable)
  | IRbt (t : rbt ptr)
  | ITrie (t : trie ptr)
  | IArt (t : art_tree ptr).

Section Spi.
Context (oob : list Z → nat → Z) (beyond : list Z → list Z) (junk : nat → Z) (granted : nat → bool) (local : ptr).

(** A plug-in function with its test of index_root against NULL. *)
Definition with_root {T A} (null : A) (m : st T A) : st (option T) A :=
  λ root, match root with None => Ret (null, None) | Some t => '(a, t) ← m t; Ret (a, Some t) end.

Definition outcome_st {S A} (o : outcome A) : st S A := λ s, a ← o; Ret (a, s).

(** ** Hash table *)
Definition create_hashtable (random : Z) (mem : gmap ptr (list Z)) (nb : ptr) : outcome (Z * option hashtable) :=
  table ← ht_create granted mem nb 256 0 random; Ret (0%Z, table).
Definition insert_string_to_hashtable (key : list Z) (data : ptr) : st (option hashtable) Z :=
  with_root 0%Z (ht_set false granted key (Some data) 8).
(** The result and *out; [len] bytes of the key are looked up. *)
Definition search_string_in_hashtable (key : list Z) (len : Z) (out : option ptr) : st (option hashtable) (Z * option ptr) :=
  with_root (0%Z, out) ('(data, dlen) ← ht_get granted (take (Z.to_nat len) key); mret (i32 (default (-1)%Z dlen), data)).
(** A stored key read as a C string: the buffer of 32 bytes is zeroed, a longer key has no terminator. *)
Definition stored_string (key : list Z) : list Z :=
  if bool_decide (length key < KBUF_SIZE) then cstr_of key else as_string beyond key.
Definition ht_affix_match_cb (affix : affix_t) (collector : linked_list ptr) (key : list Z) (value : option ptr) (vlen : Z) :
    outcome (linked_list ptr * Z) :=
  if bool_decide (is_matching_given_affix (stored_string key) affix ≠ 0%Z) then
    '(_, collector) ← list_push_value value collector; Ret (collector, HT_ITERATOR_CONTINUE)
  else Ret (collector, HT_ITERATOR_CONTINUE).
Definition search_affix_in_hashtable (afx_type : pattern_type_t) (affix : list Z) : st (option hashtable) (option (linked_list ptr)) :=
  with_root None (
    rst ← ht_foreach_pair false (ht_affix_match_cb (create_affix_info affix (Z.of_nat (length affix)) afx_type)) list_create;
    mret (Some rst)).

(** ** Red-black tree *)
(** libhl_cmp_keys_string, which is strcmp, on two keys of the tree: rbt_add has
    copied them into blocks of exactly strlen(key) bytes, so that strcmp reads on
    into whatever lies [beyond] a block. *)
Definition rbt_string_cmp (k1 k2 : list Z) : Z := libhl_cmp_keys_string (as_string beyond k1) (as_string beyond k2).
(** The same on a key of the tree and the key of a search, which is a C string of the caller. *)
Definition rbt_search_cmp (k1 k2 : list Z) : Z := libhl_cmp_keys_string (as_string beyond k1) (cstr_of k2).
Definition create_rbtree : Z * option (rbt ptr) := (0%Z, Some rbt_create).
Definition insert_string_to_rbtree (key : list Z) (data : ptr) : st (option (rbt ptr)) Z :=
  with_root (-1)%Z (rbt_add (Some rbt_string_cmp) true key data).
Definition search_string_in_rbtree (key : list Z) (out : option ptr) : st (option (rbt ptr)) (Z * option ptr) :=
  with_root ((-1)%Z, out) ('(r, found) ← rbt_find (Some rbt_search_cmp) key; mret (r, match found with Some v => Some v | None => out end)).
(** The collector as the walks thread it, with the result of the push. *)
Definition push (v : option ptr) (collector : outcome (linked_list ptr)) : outcome (linked_list ptr) * Z :=
  match l ← collector; list_push_value v l with
  | Ret (r, l) => (Ret l, r)
  | Fault => (Fault, 0%Z)
  end.
Definition rbt_affix_match_cb (affix : affix_t) (collector : outcome (linked_list ptr)) (key : list Z) (value : ptr) :
    outcome (linked_list ptr) * Z :=
  (if bool_decide (is_matching_given_affix (as_string beyond key) affix ≠ 0%Z) then (push (Some value) collector).1 else collector,
   RBT_WALK_CONTINUE).
Definition search_affix_in_rbtree (afx_type : pattern_type_t) (affix : list Z) : st (option (rbt ptr)) (option (linked_list ptr)) :=
  with_root None (
    '(rst, _) ← rbt_walk (Some rbt_string_cmp) true (rbt_affix_match_cb (create_affix_info affix (Z.of_nat (length affix)) afx_type)) (Ret list_create);
    l ← outcome_st rst; mret (Some l)).

(** ** Trie *)
Definition create_trie : Z * option (trie ptr) := (0%Z, Some trie_create).
Definition insert_string_to_trie (key : list Z) (data : ptr) : st (option (trie ptr)) Z :=
  with_root (-1)%Z (
    _ ← trie_insert false key (Some local) 8 false;
    trie_insert false (reverse_str key) (Some data) 8 false).
Definition search_string_in_trie (key : list Z) (out : option ptr) : st (option (trie ptr)) (Z * option ptr) :=
  with_root ((-1)%Z, out) ('(data, _) ← trie_find key; mret (0%Z, data)).
(** The callbacks, on the calls of an iteration. *)
Fixpoint collect_calls (keep : list Z → bool) (calls : list (list Z * ptr)) (collector : outcome (linked_list ptr)) : outcome (linked_list ptr) :=
  match calls with
  | [] => collector
  | (key_on_node, value) :: calls =>
      collect_calls keep calls (if keep key_on_node then (push (Some value) collector).1 else collector)
  end.
Definition trie_iter_infix_cb (infix key_on_node : list Z) : bool := bool_decide (contains key_on_node infix ≠ 0%Z).
Definition search_affix_in_trie (afx_type : pattern_type_t) (affix : list Z) : st (option (trie ptr)) (option (linked_list ptr)) :=
  with_root None (λ t,
    rst ← match afx_type with
          | PATTERN_MIDDLE => '(_, calls) ← trie_iter_all junk t; collect_calls (trie_iter_infix_cb affix) calls (Ret list_create)
          | PATTERN_PREFIX => '(_, calls) ← trie_iter_prefix junk t affix; collect_calls (λ _, true) calls (Ret list_create)
          | PATTERN_SUFFIX => '(_, calls) ← trie_iter_prefix junk t (reverse_str affix); collect_calls (λ _, true) calls (Ret list_create)
          | PATTERN_EXACT => '((_, data), _) ← search_string_in_trie affix None (Some t); (push data (Ret list_create)).1
          end;
    Ret (Some rst, t)).

(** ** Adaptive radix tree *)
Definition create_art : Z * option (art_tree ptr) := (0%Z, Some art_tree_init).
Definition insert_string_to_art (key : list Z) (data : ptr) : st (option (art_tree ptr)) Z :=
  with_root (-1)%Z (λ t, '(t, _) ← art_insert oob t key data; Ret (0%Z, t)).
Definition search_string_in_art (key : list Z) (out : option ptr) : st (option (art_tree ptr)) (Z * option ptr) :=
  with_root ((-1)%Z, out) (λ t, Ret ((0%Z, art_search oob t key), t)).
(** infix_callback; [infix] is the field of its argument. *)
Definition infix_callback (infix : option (list Z)) (rst : outcome (linked_list ptr)) (key : list Z) (value : ptr) : outcome (linked_list ptr) * Z :=
  match infix with
  | None => (rst, 0%Z)
  | Some infix => if bool_decide (contains (as_string beyond key) infix ≠ 0%Z) then push (Some value) rst else (rst, 0%Z)
  end.
Definition prefix_callback (rst : outcome (linked_list ptr)) (key : list Z) (value : ptr) : outcome (linked_list ptr) * Z :=
  push (Some value) rst.
(** The argument of the infix search is calloc'ed: its field infix is NULL. *)
Definition search_affix_in_art (afx_type : pattern_type_t) (affix : list Z) : st (option (art_tree ptr)) (option (linked_list ptr)) :=
  with_root None (λ t,
    rst ← match afx_type with
          | PATTERN_PREFIX | PATTERN_SUFFIX => '(rst, _) ← art_iter_prefix oob t affix prefix_callback (Ret list_create); rst
          | PATTERN_MIDDLE => (art_iter t (infix_callback None) (Ret list_create)).1
          | PATTERN_EXACT => '((_, out), _) ← search_string_in_art affix None (Some t); (push out (Ret list_create)).1
          end;
    Ret (Some rst, t)).

(** ** Dispatch *)
(** Runs a function of one structure on the index; [prj] reads the index as that structure. *)
Definition on_structure {I T A} (inj : T → I) (prj : I → option T) (m : st (option T) A) : st (option I) A :=
  λ root,
  let run (o : option T) := match m o with Ret (a, t) => Ret (a, inj <$> t) | Fault => Fault end in
  match root with
  | None => run None
  | Some i => match prj i with Some t => run (Some t) | None => Fault end
  end.
Definition on_hash {A} : st (option hashtable) A → st (option string_index) A :=
  on_structure IHash (λ i, match i with IHash t => Some t | _ => None end).
Definition on_rbt {A} : st (option (rbt ptr)) A → st (option string_index) A :=
  on_structure IRbt (λ i, match i with IRbt t => Some t | _ => None end).
Definition on_trie {A} : st (option (trie ptr)) A → st (option string_index) A :=
  on_structure ITrie (λ i, match i with ITrie t => Some t | _ => None end).
Definition on_art {A} : st (option (art_tree ptr)) A → st (option string_index) A :=
  on_structure IArt (λ i, match i with IArt t => Some t | _ => None end).

Definition create_string_index (env : option string) (random : Z) (mem : gmap ptr (list Z)) (nb : ptr) : outcome (Z * option string_index) :=
  match string_impl env with
  | HASHTABLE => match create_hashtable random mem nb with Ret (r, t) => Ret (r, IHash <$> t) | Fault => Fault end
  | SBST => let '(r, t) := create_rbtree in Ret (r, IRbt <$> t)
  | TRIE => let '(r, t) := create_trie in Ret (r, ITrie <$> t)
  | ART => let '(r, t) := create_art in Ret (r, IArt <$> t)
  end.
Definition insert_string (env : option string) (key : list Z) (data : ptr) : st (option string_index) Z :=
  match string_impl env with
  | HASHTABLE => on_hash (insert_string_to_hashtable key data)
  | SBST => on_rbt (insert_string_to_rbtree key data)
  | TRIE => rst ← on_trie (insert_string_to_trie key data);
            rst' ← on_trie (insert_string_to_trie (reverse_str key) data); mret (Z.lor rst rst')
  | ART => rst ← on_art (insert_string_to_art key data);
           rst' ← on_art (insert_string_to_art (reverse_str key) data); mret (Z.lor rst rst')
  end.
(** delete_string, update_string and destroy_string_index do nothing. *)
Definition destroy_string_index : st (option string_index) Z := mret (-1)%Z.
Definition delete_string (key : list Z) (data : ptr) : st (option string_index) Z := mret (-1)%Z.
Definition update_string (key : list Z) (newdata : ptr) : st (option string_index) Z := mret (-1)%Z.
(** The result of the search in the structure is dropped. *)
Definition search_string (env : option string) (key : list Z) (len : Z) (out : option ptr) : st (option string_index) (Z * option ptr) :=
  '(_, out) ← match string_impl env with
              | HASHTABLE => on_hash (search_string_in_hashtable key len out)
              | SBST => on_rbt (search_string_in_rbtree key out)
              | TRIE => on_trie (search_string_in_trie key out)
              | ART => on_art (search_string_in_art key out)
              end;
  mret ((-1)%Z, out).
Definition search_affix (env : option string) (afx_type : pattern_type_t) (affix : list Z) : st (option string_index) (option (linked_list ptr)) :=
  match string_impl env with
  | HASHTABLE => on_hash (search_affix_in_hashtable afx_type affix)
  | SBST => on_rbt (search_affix_in_rbtree afx_type affix)
  | TRIE => on_trie (search_affix_in_trie afx_type affix)
  | ART => on_art (search_affix_in_art afx_type affix)
  end.
End Spi.
