(* ===== verification/SpiTheorems.v ===== *)
(** * String indexes behind the plug-in interface

    [StringStore] is what the interface promises of a structure: what a run of
    insertions leaves in it and what a search answers.  The four structures are
    instances; the theorem about runs is proved from the class. *)
From S2P Require Import Prelude Heap LinkedList LinkedListRep LinkedListSpec RbTree RbTreeAdd RbTreeMap Comparators RbTreeTheorems OnDiskIndex Art ArtNode ArtTree ArtInsert ArtMap IndexInv HashTable HashTableRep HashTableOps HashTableTheorems HashTableIter Trie TrieRep TrieRemove TrieTheorems StringUtils Spi.
From stdpp Require Import strings.

(** ** Comparing strings orders them *)
Lemma strcmp_anti a b : strcmp b a = (- strcmp a b)%Z.
Proof. revert b. induction a as [|x a IH]; intros [|y b]; cbn; [done|lia|done|]. repeat case_bool_decide; try congruence; try lia; apply IH. Qed.
Lemma strcmp_trans a b c : cstr a → cstr b → cstr c → (strcmp a b < 0)%Z → (strcmp b c < 0)%Z → (strcmp a c < 0)%Z.
Proof.
  intros Ha. revert b c. induction Ha as [|x a Hx Ha IH]; intros [|y b] [|z c] Hb Hc; cbn; try lia.
  - inv Hc. lia.
  - inv Hb. lia.
  - inv Hb. inv Hc. repeat case_bool_decide; subst; try lia; try congruence; eauto.
Qed.

(** Words: C strings of ASCII characters, not empty. *)
Definition word (k : list Z) : Prop := k ≠ [] ∧ Forall ascii k.
Lemma word_cstr k : word k → cstr k.
Proof. intros [_ Hk]. eapply Forall_impl; [exact Hk|]. unfold ascii. intros. cbn in *. lia. Qed.
Lemma word_reverse k : word k → word (reverse k).
Proof. intros [Hne Hk]. split; [|by apply Forall_reverse]. intros H. apply Hne. apply (f_equal reverse) in H. by rewrite reverse_involutive in H. Qed.

(** Comparators that agree on the keys describe the same trees. *)
Lemma rbt_is_ext {V} `{EqDecision V} (c c' : list Z → list Z → Z) (P : list Z → Prop) (t : rbt V) m :
  (∀ a b, P a → P b → c a b = c' a b) → rbt_is (Some c) P t m → rbt_is (Some c') P t m.
Proof.
  intros Hc (x & [Hat Hb [Ho HP] Hv] & Hm). exists x. split; [|done]. split; try done. split; [|done]. cbn in *.
  revert Ho HP. generalize ((inorder x).*1). clear -Hc. intros l. induction 1 as [|a l Hs IH Ha]; [constructor|].
  intros [Pa Pl]%Forall_cons. constructor; [by apply IH|]. rewrite Forall_forall in *. intros b Hin. rewrite <-Hc by auto. by apply Ha.
Qed.

Section Stores.
Context (oob : list Z → nat → Z) (beyond : list Z → list Z) (granted : nat → bool) (local : ptr).
Notation cmp := (rbt_string_cmp beyond).
Notation insert_string := (insert_string oob beyond granted local).
Notation search_string := (search_string oob beyond granted).

(** What inserting a word does to the represented map. *)
Definition entered (i : idx_impl) (k : list Z) (d : ptr) (m : gmap (list Z) ptr) : gmap (list Z) ptr :=
  match i with
  | HASHTABLE | SBST => <[k := d]> m
  | TRIE => <[k := d]> (<[reverse k := local]> m)
  | ART => <[reverse k := d]> (<[k := d]> m)
  end.
Definition in_table (m : gmap (list Z) ptr) : data_map := (λ p, (Some p, 8%Z)) <$> m.
Definition index_is (i : idx_impl) (root : option string_index) (m : gmap (list Z) ptr) : Prop :=
  match i, root with
  | HASHTABLE, Some (IHash t) => ht_is t (in_table m)
  | SBST, Some (IRbt t) => rbt_is (Some cmp) cstr t m
  | TRIE, Some (ITrie t) => trie_holds t m
  | ART, Some (IArt t) => art_is t m
  | _, _ => False
  end.

Class StringStore (env : option string) : Prop := {
  ss_create random mem nb : ∃ root, create_string_index granted env random mem nb = Ret (0%Z, root) ∧ index_is (string_impl env) root ∅;
  ss_insert root m k d : index_is (string_impl env) root m → word k → (Z.of_nat (base.size m) < 2 ^ 60)%Z →
    ∃ r root', insert_string env k d root = Ret (r, root') ∧ index_is (string_impl env) root' (entered (string_impl env) k d m);
  ss_search root m k : index_is (string_impl env) root m → word k → (Z.of_nat (base.size m) < 2 ^ 60)%Z →
    ∃ root', search_string env k (Z.of_nat (length k)) None root = Ret (((-1)%Z, m !! k), root') ∧ index_is (string_impl env) root' m
}.

Lemma table_store t m : ht_is t (in_table m) → ht_abs t (mk_store (in_table m) (blocks t) (next_block t) (HashTable.freed t)) ∧
  HashTable.count t = Z.of_nat (base.size m).
Proof. intros Ht. split; [by split_and!|]. rewrite (ht_is_count t _ Ht). unfold in_table. by rewrite map_size_fmap. Qed.

Lemma hash_store env : (∀ n, granted n = true) → string_impl env = HASHTABLE → StringStore env.
Proof.
  intros Hgrant He. split; unfold create_string_index, Spi.insert_string, Spi.search_string; rewrite He.
  - intros random mem nb. destruct (create_abs granted Hgrant mem nb 256 0 random) as (t & Hc & Habs & _); [lia..|].
    exists (Some (IHash t)). unfold create_hashtable. rewrite Hc. split; [done|]. cbn in *. unfold in_table. by rewrite fmap_empty.
  - intros root m k d Hr [Hk _] Hsize. destruct root as [[t| | |]|]; try done. cbn in Hr |- *.
    destruct (table_store t m Hr) as [Habs Hc]. set (σ := mk_store _ _ _ _) in Habs.
    assert (set_spec false k (Some d) 8 false false false false σ = Some ((0%Z, None, None), put_map <[k := (Some d, 8%Z)]> σ)) as Hs.
    { unfold set_spec. cbn. unfold in_table. rewrite lookup_fmap. by destruct (m !! k). }
    destruct (ht_set_internal_abs false granted Hgrant t σ k (Some d) 8 false false false false
      (0%Z, None, None) (put_map <[k := (Some d, 8%Z)]> σ) Habs Hk) as (t' & Hrun & Habs'); [|done|lia|exact Hs|].
    { intros n'. cbn. unfold in_table. rewrite lookup_fmap. by destruct (m !! k). }
    exists 0%Z, (Some (IHash t')). unfold on_hash, on_structure, insert_string_to_hashtable, with_root, ht_set, mbind, st_bind. rewrite Hrun.
    split; [done|]. destruct Habs' as [Hi _]. cbn in *. unfold in_table in *. by rewrite fmap_insert.
  - intros root m k Hr [Hk _] Hsize. destruct root as [[t| | |]|]; try done. cbn in Hr.
    destruct (table_store t m Hr) as [Habs Hc]. set (σ := mk_store _ _ _ _) in Habs.
    assert (get_spec k false σ = Some ((m !! k, (λ _, 8%Z) <$> m !! k), σ)) as Hs.
    { unfold get_spec. cbn. unfold in_table. rewrite lookup_fmap. by destruct (m !! k). }
    destruct (ht_get_abs granted Hgrant t σ k false _ _ Habs ltac:(lia) Hs) as (t' & Hrun & Habs').
    exists (Some (IHash t')). unfold on_hash, on_structure, search_string_in_hashtable, with_root, ht_get, mbind, st_bind.
    rewrite Nat2Z.id, take_ge by done. rewrite Hrun. split; [done|]. by destruct Habs' as [Hi _].
Qed.

(** ** Red-black tree whose keys happen to be followed by a NUL byte *)
Definition terminated : Prop := ∀ buf, list.head (beyond buf) = Some 0%Z.
Section Terminated.
Hypothesis Hbeyond : terminated.
Lemma strcmp_order (c : list Z → list Z → Z) : (∀ a b, cstr a → cstr b → c a b = strcmp a b) → KeyOrder cstr (rbt_compare_keys (Some c)).
Proof.
  intros Hcmp. split; cbn.
  - intros a Ha. rewrite Hcmp by done. apply strcmp_refl.
  - intros a b Ha Hb. rewrite Hcmp by done. by apply strcmp_eq.
  - intros a b Ha Hb. rewrite !Hcmp by done. rewrite (strcmp_anti a b). lia.
  - intros a b c' Ha Hb Hc. rewrite !Hcmp by done. by apply strcmp_trans.
Qed.
Lemma string_cmp_id a b : cstr a → cstr b → cmp a b = strcmp a b.
Proof using Hbeyond. intros Ha Hb. unfold rbt_string_cmp. by rewrite !as_string_id. Qed.
Lemma search_cmp_id a b : cstr a → cstr b → rbt_search_cmp beyond a b = strcmp a b.
Proof using Hbeyond. intros Ha Hb. unfold rbt_search_cmp. by rewrite as_string_id, cstr_of_id. Qed.
#[local] Instance string_order : KeyOrder cstr (rbt_compare_keys (Some cmp)).
Proof using Hbeyond. apply strcmp_order, string_cmp_id. Qed.
#[local] Instance search_order : KeyOrder cstr (rbt_compare_keys (Some (rbt_search_cmp beyond))).
Proof using Hbeyond. apply strcmp_order, search_cmp_id. Qed.

Lemma sbst_store env : string_impl env = SBST → StringStore env.
Proof using Hbeyond.
  intros He. split; unfold create_string_index, Spi.insert_string, Spi.search_string; rewrite He.
  - intros random mem nb. exists (Some (IRbt rbt_create)). split; [done|]. cbn. apply rbt_is_create.
  - intros root m k d Hr Hk%word_cstr _. destruct root as [[|t| |]|]; try done. cbn in Hr |- *.
    destruct (store_add (MapStore := rbt_store (Some cmp) true cstr) t m k d Hr Hk) as (r & t' & Hrun & Hr').
    exists r, (Some (IRbt t')). unfold on_rbt, on_structure, insert_string_to_rbtree, with_root. by rewrite Hrun.
  - intros root m k Hr Hk%word_cstr _. destruct root as [[|t| |]|]; try done. cbn in Hr.
    assert (∀ a b, cstr a → cstr b → cmp a b = rbt_search_cmp beyond a b) as Heq
      by (intros; by rewrite string_cmp_id, search_cmp_id).
    apply (rbt_is_ext cmp (rbt_search_cmp beyond) cstr) in Hr; [|done].
    destruct (store_find (MapStore := rbt_store (Some (rbt_search_cmp beyond)) true cstr) t m k Hr Hk) as (t' & Hrun & Hr'). exists (Some (IRbt t')).
    unfold on_rbt, on_structure, search_string_in_rbtree, with_root, mbind, st_bind. rewrite Hrun. split; [by destruct (m !! k)|].
    cbn. apply (rbt_is_ext (rbt_search_cmp beyond) cmp cstr); [|done]. intros. by rewrite Heq.
Qed.
End Terminated.

Lemma trie_store env : string_impl env = TRIE → StringStore env.
Proof.
  intros He. split; unfold create_string_index, Spi.insert_string, Spi.search_string; rewrite He.
  - intros random mem nb. exists (Some (ITrie trie_create)). split; [done|]. cbn. apply trie_holds_create.
  - intros root m k d Hr Hk _. destruct root as [[| |t|]|]; try done. cbn in Hr |- *.
    pose proof (word_cstr k Hk) as Hc. pose proof (word_reverse k Hk) as Hkr. destruct Hk as [_ Ha], Hkr as [_ Har].
    destruct (insert_holds false t m k local 8 false Hr Ha) as (r1 & t1 & H1 & Ht1 & _).
    destruct (insert_holds false t1 _ (reverse k) d 8 false Ht1 Har) as (r2 & t2 & H2 & Ht2 & _).
    destruct (insert_holds false t2 _ (reverse k) local 8 false Ht2 Har) as (r3 & t3 & H3 & Ht3 & _).
    destruct (insert_holds false t3 _ k d 8 false Ht3 Ha) as (r4 & t4 & H4 & Ht4 & _).
    exists (Z.lor r2 r4), (Some (ITrie t4)). split.
    + unfold on_trie, on_structure, insert_string_to_trie, with_root, mbind, st_bind. rewrite H1.
      rewrite !reverse_str_ok by (done || by apply Forall_reverse). rewrite H2. cbn. rewrite reverse_involutive, H3, H4. done.
    + cbn. cut (<[k:=d]> (<[reverse k:=local]> m) = <[k:=d]> (<[reverse k:=local]> (<[reverse k:=d]> (<[k:=local]> m)))); [by intros ->|].
      rewrite insert_insert_eq. apply map_eq. intros q. destruct (decide (q = k)) as [->|Hq]; [by rewrite !lookup_insert_eq|].
      rewrite !(lookup_insert_ne _ k q) by done. destruct (decide (q = reverse k)) as [->|Hq']; [by rewrite !lookup_insert_eq|].
      by rewrite !lookup_insert_ne.
  - intros root m k Hr [_ Ha] _. destruct root as [[| |t|]|]; try done. cbn in Hr.
    destruct (find_holds t m k Hr Ha) as [sz Hf]. exists (Some (ITrie t)).
    unfold on_trie, on_structure, search_string_in_trie, with_root, mbind, st_bind. by rewrite Hf.
Qed.

Lemma art_string_store env : string_impl env = ART → StringStore env.
Proof.
  intros He. split; unfold create_string_index, Spi.insert_string, Spi.search_string; rewrite He.
  - intros random mem nb. exists (Some (IArt art_tree_init)). split; [done|]. split; [apply art_ok_init|done].
  - intros root m k d Hr Hk _. destruct root as [[| | |t]|]; try done. destruct Hr as [Hok <-].
    pose proof (word_cstr k Hk) as Hc. pose proof (word_cstr _ (word_reverse k Hk)) as Hcr.
    destruct (art_insert_map oob t k d Hok Hc) as (t1 & H1 & Hok1 & Hm1).
    destruct (art_insert_map oob t1 (reverse k) d Hok1 Hcr) as (t2 & H2 & Hok2 & Hm2).
    exists 0%Z, (Some (IArt t2)). split; [|split; [done|by rewrite Hm2, Hm1]].
    unfold on_art, on_structure, insert_string_to_art, with_root, mbind, st_bind. cbn. rewrite H1. cbn. rewrite reverse_str_ok by done.
    rewrite H2. done.
  - intros root m k Hr Hk%word_cstr _. destruct root as [[| | |t]|]; try done. destruct Hr as [Hok <-].
    exists (Some (IArt t)). split; [|done]. unfold on_art, on_structure, search_string_in_art, with_root, mbind, st_bind. cbn.
    by rewrite (art_search_map oob t k Hok Hk).
Qed.

Lemma string_store env :
  (string_impl env = HASHTABLE → ∀ n, granted n = true) → (string_impl env = SBST → terminated) → StringStore env.
Proof. intros Hg Hb. destruct (string_impl env) eqn:He; [apply hash_store; auto|apply sbst_store; auto|by apply trie_store|by apply art_string_store]. Qed.

(** ** Runs of insertions *)
Fixpoint insert_strings (env : option string) (kvs : list (list Z * ptr)) : st (option string_index) unit :=
  match kvs with
  | [] => mret tt
  | (k, d) :: kvs => _ ← insert_string env k d; insert_strings env kvs
  end.
Definition entered_all (i : idx_impl) (kvs : list (list Z * ptr)) (m : gmap (list Z) ptr) : gmap (list Z) ptr :=
  foldl (λ m x, entered i x.1 x.2 m) m kvs.

Lemma size_entered i k d m : base.size (entered i k d m) ≤ 2 + base.size m.
Proof.
  assert (∀ (q : list Z) x (n : gmap (list Z) ptr), base.size (<[q := x]> n) ≤ S (base.size n)) as H.
  { intros q x n. destruct (n !! q) eqn:Hq; [rewrite map_size_insert_Some by done|rewrite map_size_insert_None by done]; lia. }
  pose proof (H k d m). pose proof (H (reverse k) local m). destruct i; cbn; [lia|lia|..].
  - pose proof (H k d (<[reverse k := local]> m)). lia.
  - pose proof (H (reverse k) d (<[k := d]> m)). lia.
Qed.

Section Client.
Context (env : option string) `{!StringStore env}.
Lemma insert_strings_ok kvs root m :
  index_is (string_impl env) root m → Forall (λ x, word x.1) kvs → (Z.of_nat (base.size m + 2 * length kvs) < 2 ^ 60)%Z →
  ∃ root', insert_strings env kvs root = Ret (tt, root') ∧ index_is (string_impl env) root' (entered_all (string_impl env) kvs m).
Proof.
  intros Hr Hk. revert root m Hr. induction Hk as [|[k d] kvs Hk Hks IH]; intros root m Hr Hsize; [by exists root|]. cbn [length] in Hsize.
  destruct (ss_insert root m k d Hr Hk) as (r & r1 & Hrun & Hr1); [lia|].
  pose proof (size_entered (string_impl env) k d m).
  destruct (IH r1 _ Hr1) as (r2 & Hrun2 & Hr2); [lia|]. exists r2. cbn. unfold mbind, st_bind. by rewrite Hrun, Hrun2.
Qed.
End Client.

Lemma search_run env random mem nb kvs k :
  (string_impl env = HASHTABLE → ∀ n, granted n = true) → (string_impl env = SBST → terminated) →
  Forall (λ x, word x.1) kvs → word k → (Z.of_nat (2 * length kvs) < 2 ^ 60)%Z →
  ∃ r0 r1 r2, create_string_index granted env random mem nb = Ret (0%Z, r0) ∧ insert_strings env kvs r0 = Ret (tt, r1)
    ∧ search_string env k (Z.of_nat (length k)) None r1 = Ret (((-1)%Z, entered_all (string_impl env) kvs ∅ !! k), r2).
Proof.
  intros Hg Hb Hks Hk Hlen. pose proof (string_store env Hg Hb) as Hstore.
  destruct (ss_create random mem nb) as (r0 & Hc & Hr0).
  destruct (insert_strings_ok env kvs r0 ∅ Hr0 Hks) as (r1 & Hrun & Hr1); [rewrite map_size_empty; lia|].
  assert (base.size (entered_all (string_impl env) kvs ∅) ≤ 2 * length kvs) as Hsize.
  { cut (∀ m, base.size (entered_all (string_impl env) kvs m) ≤ base.size m + 2 * length kvs);
      [intros H; specialize (H ∅); by rewrite map_size_empty in H|].
    clear. induction kvs as [|x kvs IH]; intros m; cbn; [lia|]. etrans; [apply IH|]. pose proof (size_entered (string_impl env) x.1 x.2 m). lia. }
  destruct (ss_search r1 _ k Hr1 Hk) as (r2 & Hs & _); [lia|]. by exists r0, r1, r2.
Qed.
(** C12: exact search through the plug-in interface.  After any run of
    insertions of non-empty ASCII words into a new index, search_string hands
    back through out what the run left under the word: the data last inserted
    under it in a hash table whose allocations succeed; the same in a red-black
    tree, provided that the byte behind every block with a key is NUL, since the
    tree compares keys it has stored without a terminator with strcmp; in a radix
    tree the data last inserted under the word or under the word read backwards;
    in a trie the same, except that the reversed word is left with the address of
    a parameter of a finished call.  Its result is always -1. *)
Theorem search_string_after_inserts env random mem nb kvs k :
  (string_impl env = HASHTABLE → ∀ n, granted n = true) →
  (string_impl env = SBST → ∀ buf, list.head (beyond buf) = Some 0%Z) →
  Forall (λ x, word x.1) kvs → word k → (Z.of_nat (2 * length kvs) < 2 ^ 60)%Z →
  ∃ r0 r1 r2, create_string_index granted env random mem nb = Ret (0%Z, r0) ∧ insert_strings env kvs r0 = Ret (tt, r1)
    ∧ search_string env k (Z.of_nat (length k)) None r1 = Ret (((-1)%Z, entered_all (string_impl env) kvs ∅ !! k), r2).
Proof. apply search_run. Qed.

(** Without that NUL byte a red-black tree does not find the only word it holds. *)
Definition one_word (k : list Z) (d : ptr) : outcome (Z * rbt ptr) := rbt_add (Some cmp) true k d rbt_create.
Lemma one_word_missed k d t r :
  cstr k → (rbt_search_cmp beyond k k ≠ 0)%Z → one_word k d = Ret (r, t) → rbt_find (Some (rbt_search_cmp beyond)) k t = Ret (((-1)%Z, None), t).
Proof.
  intros Hk Hne Hrun. unfold one_word in Hrun. vm_compute in Hrun. injection Hrun as <- <-.
  unfold rbt_find, mbind, st_bind, st_get. cbn [heap rroot].
  match goal with |- context [base.size ?h] => change (base.size h) with 1 end. cbn [rbt_find_internal].
  unfold mbind, st_bind, RbTree.ld at 1. cbn [heap].
  match goal with |- context [?h !! 1%positive] => let v := eval vm_compute in (h !! 1%positive) in change (h !! 1%positive) with v end.
  cbn [RbTree.key left right rbt_compare_keys]. rewrite bool_decide_eq_false_2 by done. by case_bool_decide.
Qed.
Lemma strcmp_longer k x rest : cstr k → x ≠ 0%Z → strcmp (cstr_of (k ++ x :: rest)) k ≠ 0%Z.
Proof.
  intros Hk Hx. induction Hk as [|c k Hc Hk IH]; simpl; [by rewrite bool_decide_eq_false_2|].
  rewrite bool_decide_eq_false_2 by lia. simpl. by rewrite bool_decide_eq_true_2.
Qed.
Theorem rbt_unterminated_word_missed env random mem nb k d x rest :
  string_impl env = SBST → word k → beyond k = x :: rest → x ≠ 0%Z →
  ∃ r0 r1, create_string_index granted env random mem nb = Ret (0%Z, r0) ∧ insert_strings env [(k, d)] r0 = Ret (tt, r1)
    ∧ search_string env k (Z.of_nat (length k)) None r1 = Ret (((-1)%Z, None), r1).
Proof.
  intros He Hk%word_cstr Hx Hnz. assert (rbt_search_cmp beyond k k ≠ 0%Z) as Hne.
  { unfold rbt_search_cmp, libhl_cmp_keys_string, as_string. rewrite Hx, (cstr_of_id k) by done. by apply strcmp_longer. }
  destruct (one_word k d) as [[r t]|] eqn:Hrun; [|done].
  exists (Some (IRbt rbt_create)), (Some (IRbt t)). unfold create_string_index. rewrite He. split_and!; [done| |].
  - cbn. unfold Spi.insert_string. rewrite He. unfold on_rbt, on_structure, insert_string_to_rbtree, with_root, mbind, st_bind.
    unfold one_word in Hrun. by rewrite Hrun.
  - unfold Spi.search_string. rewrite He. unfold on_rbt, on_structure, search_string_in_rbtree, with_root, mbind, st_bind.
    by rewrite (one_word_missed k d t r Hk Hne Hrun).
Qed.

(** A word and its mirror image share their data in the radix tree, the
    default structure: inserting "ba" after "ab" replaces the data of "ab". *)
Theorem art_mirror_overwrites env random mem nb k d1 d2 :
  string_impl env = ART → word k →
  ∃ r0 r1 r2, create_string_index granted env random mem nb = Ret (0%Z, r0) ∧ insert_strings env [(k, d1); (reverse k, d2)] r0 = Ret (tt, r1)
    ∧ search_string env k (Z.of_nat (length k)) None r1 = Ret (((-1)%Z, Some d2), r2).
Proof.
  intros He Hk. destruct (search_run env random mem nb [(k, d1); (reverse k, d2)] k) as (r0 & r1 & r2 & H0 & H1 & H2).
  - congruence.
  - congruence.
  - repeat constructor; cbn; [apply Hk|apply Hk|apply word_reverse, Hk|apply word_reverse, Hk].
  - done.
  - cbn. lia.
  - exists r0, r1, r2. split_and!; [done|done|]. rewrite H2. do 3 f_equal. rewrite He. unfold entered_all. cbn [foldl entered fst snd]. rewrite reverse_involutive. apply lookup_insert_eq.
Qed.

(** In a trie the reversed word of an inserted word that is no palindrome
    is left with the address of a parameter of a finished call, which a search
    for it hands out. *)
Theorem trie_reversed_dangles env random mem nb k d :
  string_impl env = TRIE → word k → k ≠ reverse k →
  ∃ r0 r1 r2, create_string_index granted env random mem nb = Ret (0%Z, r0) ∧ insert_strings env [(k, d)] r0 = Ret (tt, r1)
    ∧ search_string env (reverse k) (Z.of_nat (length (reverse k))) None r1 = Ret (((-1)%Z, Some local), r2).
Proof.
  intros He Hk Hne. destruct (search_run env random mem nb [(k, d)] (reverse k)) as (r0 & r1 & r2 & H0 & H1 & H2).
  - congruence.
  - congruence.
  - repeat constructor; apply Hk.
  - by apply word_reverse.
  - cbn. lia.
  - exists r0, r1, r2. split_and!; [done|done|]. rewrite H2. do 3 f_equal. rewrite He. unfold entered_all. cbn [foldl entered fst snd]. rewrite lookup_insert_ne by done. apply lookup_insert_eq.
Qed.

(** ** Affix search *)
Definition affix_test (ty : pattern_type_t) (affix k : list Z) : bool :=
  match ty with
  | PATTERN_PREFIX => bool_decide (affix `prefix_of` k)
  | PATTERN_SUFFIX => bool_decide (affix `suffix_of` k)
  | PATTERN_MIDDLE => infixb affix k
  | PATTERN_EXACT => false
  end.
Lemma is_matching_spec ty affix n k :
  cstr k → cstr affix → is_matching_given_affix k (create_affix_info affix n ty) = Z.b2z (affix_test ty affix k).
Proof.
  intros Hk Ha. destruct ty; cbn; [done|apply startsWith_spec|by apply endsWith_spec|apply contains_spec].
Qed.

(** The data of the pairs that match. *)
Definition matching_data ty affix (l : list (list Z * ptr)) : list ptr := (filter (λ x, affix_test ty affix x.1 = true) l).*2.

Lemma push_result_ok v l vs : list_is l vs → (Z.of_nat (length vs) < MAX_LEN)%Z → ∃ l', push v (Ret l) = (Ret l', 0%Z) ∧ list_is l' (vs ++ [v]).
Proof. intros Hl Hlen. destruct (list_push_value_is l vs v Hl Hlen) as (l' & Hp & Hl'). exists l'. unfold push. cbn. by rewrite Hp. Qed.

Lemma match_cb_ok ty affix rst k d n :
  cstr affix → cstr k → length k < KBUF_SIZE →
  ht_affix_match_cb beyond (create_affix_info affix (Z.of_nat (length affix)) ty) rst k (Some d) n
  = if affix_test ty affix k then '(_, rst) ← list_push_value (Some d) rst; Ret (rst, HT_ITERATOR_CONTINUE) else Ret (rst, HT_ITERATOR_CONTINUE).
Proof.
  intros Ha Hk Hlen. unfold ht_affix_match_cb, stored_string. rewrite (bool_decide_true (length k < KBUF_SIZE)) by done.
  rewrite cstr_of_id, is_matching_spec by done. by destruct (affix_test ty affix k).
Qed.
Lemma visit_affix ty affix l rst vs :
  cstr affix → Forall (λ x, cstr x.1 ∧ length x.1 < KBUF_SIZE) l → list_is rst (Some <$> vs) → (Z.of_nat (length vs + length l) ≤ MAX_LEN)%Z →
  ∃ rst', visit (ht_affix_match_cb beyond (create_affix_info affix (Z.of_nat (length affix)) ty)) ((λ x, (x.1, (Some x.2, 8%Z))) <$> l) rst = Ret rst'
    ∧ list_is rst' (Some <$> vs ++ matching_data ty affix l).
Proof.
  intros Ha Hl. revert rst vs. induction Hl as [|[k d] l [Hk Hlen] Hl IH]; intros rst vs Hrst Hmax; cbn [length] in Hmax.
  { exists rst. by rewrite app_nil_r. }
  cbn [fmap list_fmap visit fst snd]. rewrite match_cb_ok by done. unfold matching_data. rewrite filter_cons. cbn [fst].
  destruct (affix_test ty affix k).
  - destruct (list_push_value_is rst _ (Some d) Hrst) as (r1 & Hp & Hr1); [rewrite length_fmap; lia|].
    rewrite Hp. cbn [mbind outcome_bind]. destruct (IH r1 (vs ++ [d])) as (r2 & Hv & Hr2); [by rewrite fmap_app|rewrite length_app; cbn; lia|].
    exists r2. rewrite Hv. split; [done|]. rewrite decide_True by done. by rewrite <-app_assoc in Hr2.
  - cbn [mbind outcome_bind]. destruct (IH rst vs Hrst) as (r2 & Hv & Hr2); [lia|].
    exists r2. rewrite Hv. split; [done|]. by rewrite decide_False by done.
Qed.
Lemma run_affix ty affix l rst vs :
  terminated → cstr affix → Forall (λ x, cstr x.1) l → list_is rst (Some <$> vs) → (Z.of_nat (length vs + length l) ≤ MAX_LEN)%Z →
  ∃ rst', run (rbt_affix_match_cb beyond (create_affix_info affix (Z.of_nat (length affix)) ty)) (Ret rst) l = Ret rst'
    ∧ list_is rst' (Some <$> vs ++ matching_data ty affix l).
Proof.
  intros Hbeyond Ha Hl. revert rst vs. induction Hl as [|[k d] l Hk Hl IH]; intros rst vs Hrst Hmax; cbn [length] in Hmax.
  { exists rst. by rewrite app_nil_r. }
  unfold run. cbn [foldl fst snd]. fold (run (rbt_affix_match_cb beyond (create_affix_info affix (Z.of_nat (length affix)) ty))).
  unfold rbt_affix_match_cb at 2. rewrite as_string_id, is_matching_spec by done. unfold matching_data. rewrite filter_cons. cbn [fst].
  destruct (affix_test ty affix k); cbn [Z.b2z].
  - rewrite bool_decide_true, decide_True by done. destruct (push_result_ok (Some d) rst _ Hrst) as (r1 & Hp & Hr1); [rewrite length_fmap; lia|].
    rewrite Hp. destruct (IH r1 (vs ++ [d])) as (r2 & Hv & Hr2); [by rewrite fmap_app|rewrite length_app; cbn; lia|].
    exists r2. split; [exact Hv|]. by rewrite <-app_assoc in Hr2.
  - rewrite bool_decide_false by naive_solver. rewrite decide_False by done. by apply IH; [|lia].
Qed.

Lemma size_keys_Forall (P : list Z → Prop) (m : gmap (list Z) ptr) l :
  l ≡ₚ map_to_list m → (∀ k, is_Some (m !! k) → P k) → Forall (λ x, P x.1) l ∧ length l = base.size m.
Proof.
  intros Hl HP. split; [|rewrite Hl; by rewrite length_map_to_list]. apply Forall_forall. intros [k v] Hin.
  rewrite Hl, elem_of_map_to_list in Hin. apply HP. by eexists.
Qed.

Lemma hash_affix t m ty affix :
  ht_is t (in_table m) → cstr affix → (∀ k, is_Some (m !! k) → cstr k ∧ length k < KBUF_SIZE) → (Z.of_nat (base.size m) ≤ MAX_LEN)%Z →
  ∃ rst l, ht_foreach_pair false (ht_affix_match_cb beyond (create_affix_info affix (Z.of_nat (length affix)) ty)) list_create t = Ret (rst, t)
    ∧ l ≡ₚ map_to_list m ∧ list_is rst (Some <$> matching_data ty affix l).
Proof.
  intros Ht Ha Hkeys Hsize. set (cb := ht_affix_match_cb _ _).
  destruct (foreach_pair_ok cb) with (free_item_cb := false) (t := t) (m := in_table m) (user := list_create (V := ptr)) as (l0 & Hl0 & Hrun); [|done|].
  { intros u k d n u' rc. unfold cb, ht_affix_match_cb. case_bool_decide; [destruct (list_push_value d u) as [[? ?]|]; cbn|]; intros; by simplify_eq. }
  unfold in_table in Hl0. rewrite map_to_list_fmap in Hl0.
  apply Permutation_map_inv in Hl0 as (l & -> & Hl). symmetry in Hl.
  destruct (size_keys_Forall _ m l Hl Hkeys) as [Hf Hlen].
  destruct (visit_affix ty affix l list_create [] Ha Hf) as (rst & Hv & Hrst); [apply list_is_create|cbn; lia|].
  exists rst, l. split; [|done]. rewrite Hrun.
  assert (map (prod_map id (λ p : ptr, (Some p, 8%Z))) l = (λ x : list Z * ptr, (x.1, (Some x.2, 8%Z))) <$> l) as ->
    by (apply list_fmap_ext; by intros i [] _).
  unfold cb. by rewrite Hv.
Qed.

Lemma sbst_affix t m ty affix :
  terminated → rbt_is (Some cmp) cstr t m → cstr affix → (∀ k, is_Some (m !! k) → cstr k) → (Z.of_nat (base.size m) ≤ MAX_LEN)%Z →
  ∃ rst n l, rbt_walk (Some cmp) true (rbt_affix_match_cb beyond (create_affix_info affix (Z.of_nat (length affix)) ty)) (Ret list_create) t = Ret ((Ret rst, n), t)
    ∧ l ≡ₚ map_to_list m ∧ list_is rst (Some <$> matching_data ty affix l).
Proof.
  intros Hbeyond Ht Ha Hkeys Hsize. pose proof (string_order Hbeyond).
  destruct (rbt_walk_correct cmp true cstr (rbt_affix_match_cb beyond (create_affix_info affix (Z.of_nat (length affix)) ty)) t m (Ret list_create) Ht)
    as (l & Hrun & Hl); [by intros ???|].
  destruct (size_keys_Forall _ m l Hl Hkeys) as [Hf Hlen].
  destruct (run_affix ty affix l list_create [] Hbeyond Ha Hf) as (rst & Hv & Hrst); [apply list_is_create|cbn; lia|].
  rewrite Hv in Hrun. by eexists rst, _, l.
Qed.

(** Affix search by scanning.  In a hash table or a red-black tree
    search_affix collects the data of exactly the words that start with, end
    with or contain the affix, each once (words of less than 32 bytes, whose
    copies in the table are terminated; in a tree, if a NUL byte lies behind the
    stored keys); an exact pattern matches nothing. *)
Theorem search_affix_scans junk env root m ty affix :
  string_impl env = HASHTABLE ∨ string_impl env = SBST ∧ terminated → index_is (string_impl env) root m → cstr affix →
  (∀ k, is_Some (m !! k) → cstr k ∧ length k < KBUF_SIZE) → (Z.of_nat (base.size m) ≤ MAX_LEN)%Z →
  ∃ rst l, search_affix oob beyond junk env ty affix root = Ret (Some rst, root)
    ∧ l ≡ₚ map_to_list m ∧ list_is rst (Some <$> matching_data ty affix l).
Proof.
  intros He Hr Ha Hkeys Hsize. unfold search_affix. destruct He as [He|[He Hb]]; rewrite He in *; destruct root as [[t|t| |]|]; try done; cbn in Hr.
  - destruct (hash_affix t m ty affix Hr Ha Hkeys Hsize) as (rst & l & Hrun & Hl & Hrst). exists rst, l. split; [|done].
    unfold on_hash, on_structure, search_affix_in_hashtable, with_root, mbind, st_bind. by rewrite Hrun.
  - destruct (sbst_affix t m ty affix Hb Hr Ha) as (rst & n & l & Hrun & Hl & Hrst); [naive_solver|done|]. exists rst, l. split; [|done].
    unfold on_rbt, on_structure, search_affix_in_rbtree, with_root, mbind, st_bind. by rewrite Hrun.
Qed.

Lemma iter_push l rst vs :
  list_is rst (Some <$> vs) → (Z.of_nat (length vs + length l) ≤ MAX_LEN)%Z →
  ∃ rst', iter_list prefix_callback l (Ret rst) = (Ret rst', 0%Z) ∧ list_is rst' (Some <$> vs ++ l.*2).
Proof.
  revert rst vs. induction l as [|[k d] l IH]; intros rst vs Hrst Hlen; cbn [length] in Hlen; [exists rst; by rewrite app_nil_r|].
  destruct (push_result_ok (Some d) rst _ Hrst) as (r1 & Hp & Hr1); [rewrite length_fmap; lia|].
  destruct (IH r1 (vs ++ [d])) as (r2 & Hi & Hr2); [by rewrite fmap_app|rewrite length_app; cbn; lia|].
  exists r2. cbn. unfold prefix_callback at 1. rewrite Hp. split; [exact Hi|]. by rewrite <-app_assoc in Hr2.
Qed.
Lemma iter_infix l rst : iter_list (infix_callback beyond None) l rst = (rst, 0%Z).
Proof. by induction l as [|[k d] l IH]. Qed.

(** Affix search in a radix tree.  For a prefix of some stored key,
    search_affix collects the data of exactly the keys that start with it, each
    once; but it does the same for a suffix pattern, without reversing the
    affix; and a search for an infix finds nothing, whatever the tree holds. *)
Theorem search_affix_art junk env root m ty affix :
  string_impl env = ART → index_is ART root m → cstr affix → (Z.of_nat (base.size m) ≤ MAX_LEN)%Z →
  ((ty = PATTERN_PREFIX ∨ ty = PATTERN_SUFFIX) → (∃ k, is_Some (m !! k) ∧ affix `prefix_of` k) →
    ∃ rst l, search_affix oob beyond junk env ty affix root = Ret (Some rst, root) ∧ NoDup l.*1
      ∧ (∀ k v, (k, v) ∈ l ↔ m !! k = Some v ∧ affix `prefix_of` k) ∧ list_is rst (Some <$> l.*2))
  ∧ (ty = PATTERN_MIDDLE → ∃ rst, search_affix oob beyond junk env ty affix root = Ret (Some rst, root) ∧ list_is rst []).
Proof.
  intros He Hr Ha Hsize. destruct root as [[| | |t]|]; try done. destruct Hr as [Hok <-]. unfold search_affix. rewrite He.
  unfold on_art, on_structure, search_affix_in_art, with_root. split.
  - intros Hty Hex. set (l := filter (λ kv : list Z * ptr, affix `prefix_of` kv.1) (ArtMap.contents t)).
    assert (length l ≤ base.size (art_map t)) as Hlen by (rewrite <-length_contents by done; apply length_filter).
    destruct (iter_push l list_create []) as (rst & Hi & Hrst); [apply list_is_create|cbn; lia|].
    assert (art_iter_prefix oob t affix prefix_callback (Ret list_create) = Ret (Ret rst, 0%Z)) as Hrun.
    { rewrite art_iter_prefix_list by done. fold l. by rewrite Hi. }
    exists rst, l. split_and!; [|by apply matching_NoDup, contents_NoDup| |done].
    + destruct Hty as [-> | ->]; rewrite Hrun; done.
    + intros k v. unfold l. rewrite list_elem_of_filter, art_map_lookup by done. cbn. tauto.
  - intros ->. exists list_create. split; [|apply list_is_create]. rewrite (art_iter_list t _ _ Hok), iter_infix. done.
Qed.

Lemma ht_no_empty_key t m : ht_is t m → m !! [] = None.
Proof.
  intros (LS & Hr). apply (holds_None _ _ _ (r_holds _ _ _ Hr)). intros it Hit. by apply (r_hash _ _ _ Hr it Hit).
Qed.

(** The comment of search_string calls a length of 0 an exact search, but
    with a hash table it looks up the empty key: no word is ever found. *)
Theorem hash_search_length_zero env root m k out :
  string_impl env = HASHTABLE → index_is HASHTABLE root m →
  search_string env k 0 out root = Ret (((-1)%Z, None), root).
Proof.
  intros He Hr. destruct root as [[t| | |]|]; try done. cbn in Hr. destruct (table_store t m Hr) as [Habs _].
  unfold Spi.search_string. rewrite He. unfold on_hash, on_structure, search_string_in_hashtable, with_root, ht_get, ht_get_internal, mbind, st_bind.
  cbn [Z.to_nat take]. rewrite (call_None [] _ t _ Habs (ht_no_empty_key t _ Hr)). done.
Qed.
End Stores.

(** ** Witnesses *)
Definition zero_behind (buf : list Z) : list Z := [0%Z].
Definition nothing_read (k : list Z) (i : nat) : Z := 0%Z.
Definition ab : list Z := [97; 98]%Z.
Lemma word_ab : word ab.
Proof. split; [done|]. repeat constructor; unfold ascii; lia. Qed.
Definition ab_cd : list (list Z * ptr) := [(ab, 1%positive); ([99; 100]%Z, 2%positive)].
Lemma words_ab_cd : Forall (λ x, word x.1) ab_cd.
Proof. repeat constructor; cbn; try done; unfold ascii; lia. Qed.

Lemma search_string_after_inserts_witness :
  ∃ r0 r1 r2, create_string_index always (Some "SBST"%string) 41 ∅ 1 = Ret (0%Z, r0)
    ∧ insert_strings nothing_read zero_behind always 9 (Some "SBST"%string) ab_cd r0 = Ret (tt, r1)
    ∧ search_string nothing_read zero_behind always (Some "SBST"%string) ab 2 None r1 = Ret (((-1)%Z, entered_all 9 SBST ab_cd ∅ !! ab), r2).
Proof.
  apply (search_string_after_inserts nothing_read zero_behind always 9 (Some "SBST"%string) 41 ∅ 1 ab_cd ab (λ _ _, eq_refl) (λ _ _, eq_refl) words_ab_cd word_ab).
  vm_compute. reflexivity.
Defined.

Lemma art_mirror_overwrites_witness :
  ∃ r0 r1 r2, create_string_index always None 41 ∅ 1 = Ret (0%Z, r0)
    ∧ insert_strings nothing_read zero_behind always 9 None [(ab, 1%positive); (reverse ab, 2%positive)] r0 = Ret (tt, r1)
    ∧ search_string nothing_read zero_behind always None ab 2 None r1 = Ret (((-1)%Z, Some 2%positive), r2).
Proof. apply (art_mirror_overwrites nothing_read zero_behind always 9 None 41 ∅ 1 ab 1 2 eq_refl word_ab). Defined.

Lemma trie_reversed_dangles_witness :
  ∃ r0 r1 r2, create_string_index always (Some "TRIE"%string) 41 ∅ 1 = Ret (0%Z, r0)
    ∧ insert_strings nothing_read zero_behind always 9 (Some "TRIE"%string) [(ab, 1%positive)] r0 = Ret (tt, r1)
    ∧ search_string nothing_read zero_behind always (Some "TRIE"%string) (reverse ab) 2 None r1 = Ret (((-1)%Z, Some 9%positive), r2).
Proof.
  apply (trie_reversed_dangles nothing_read zero_behind always 9 (Some "TRIE"%string) 41 ∅ 1 ab 1 eq_refl word_ab).
  vm_compute. discriminate.
Defined.

(** An index that holds the two words. *)
Lemma ab_cd_index env : ∃ root, index_is zero_behind (string_impl env) root (entered_all 9 (string_impl env) ab_cd ∅).
Proof.
  pose proof (string_store nothing_read zero_behind always 9 env (λ _ _, eq_refl) (λ _ _, eq_refl)) as Hstore.
  destruct (@ss_create _ _ _ _ _ Hstore 41 ∅ 1) as (r0 & _ & Hr0).
  destruct (insert_strings_ok nothing_read zero_behind always 9 env ab_cd r0 ∅ Hr0 words_ab_cd) as (r1 & _ & Hr1); [vm_compute; reflexivity|].
  by exists r1.
Qed.
Lemma search_affix_scans_witness :
  ∃ root, index_is zero_behind HASHTABLE root (entered_all 9 HASHTABLE ab_cd ∅)
  ∧ ∃ rst l, search_affix nothing_read zero_behind (λ _, 0%Z) (Some "HASHTABLE"%string) PATTERN_SUFFIX [98]%Z root = Ret (Some rst, root)
    ∧ l ≡ₚ map_to_list (entered_all 9 HASHTABLE ab_cd ∅) ∧ list_is rst (Some <$> matching_data PATTERN_SUFFIX [98]%Z l).
Proof.
  destruct (ab_cd_index (Some "HASHTABLE"%string)) as [root Hr]. exists root. split; [exact Hr|].
  apply (search_affix_scans nothing_read zero_behind (λ _, 0%Z) (Some "HASHTABLE"%string) root _ PATTERN_SUFFIX [98]%Z).
  - left. reflexivity.
  - exact Hr.
  - repeat constructor; lia.
  - intros k [v Hv]. cbn in Hv. unfold entered_all in Hv. cbn in Hv. rewrite !lookup_insert_Some, lookup_empty in Hv.
    destruct Hv as [[<- _]|(_ & [[<- _]|(_ & [=])])]; (split; [repeat constructor; lia|cbn; unfold KBUF_SIZE; lia]).
  - vm_compute. discriminate.
Defined.
Lemma search_affix_art_witness :
  ∃ root, index_is zero_behind ART root (entered_all 9 ART ab_cd ∅)
  ∧ ((PATTERN_SUFFIX = PATTERN_PREFIX ∨ PATTERN_SUFFIX = PATTERN_SUFFIX) →
      (∃ k, is_Some (entered_all 9 ART ab_cd ∅ !! k) ∧ [97]%Z `prefix_of` k) →
      ∃ rst l, search_affix nothing_read zero_behind (λ _, 0%Z) None PATTERN_SUFFIX [97]%Z root = Ret (Some rst, root) ∧ NoDup l.*1
        ∧ (∀ k v, (k, v) ∈ l ↔ entered_all 9 ART ab_cd ∅ !! k = Some v ∧ [97]%Z `prefix_of` k) ∧ list_is rst (Some <$> l.*2))
  ∧ (PATTERN_SUFFIX = PATTERN_MIDDLE →
      ∃ rst, search_affix nothing_read zero_behind (λ _, 0%Z) None PATTERN_SUFFIX [97]%Z root = Ret (Some rst, root) ∧ list_is rst []).
Proof.
  destruct (ab_cd_index None) as [root Hr]. exists root. split; [exact Hr|].
  apply (search_affix_art nothing_read zero_behind (λ _, 0%Z) None root _ PATTERN_SUFFIX [97]%Z eq_refl Hr).
  - repeat constructor; lia.
  - vm_compute. discriminate.
Defined.
Lemma hash_search_length_zero_witness :
  ∃ root, index_is zero_behind HASHTABLE root (entered_all 9 HASHTABLE ab_cd ∅)
  ∧ search_string nothing_read zero_behind always (Some "HASHTABLE"%string) ab 0 None root = Ret (((-1)%Z, None), root).
Proof.
  destruct (ab_cd_index (Some "HASHTABLE"%string)) as [root Hr]. exists root. split; [exact Hr|].
  apply (hash_search_length_zero nothing_read zero_behind always (Some "HASHTABLE"%string) root _ ab None eq_refl Hr).
Defined.
