(* ===== verification/NumberSpi.v ===== *)
(** * The plug-in interface of number indexes (index/spi/spi.c and the number plug-ins)

    A number index is a sparse array, a red-black tree or a skip list, chosen on
    every call by the environment variable MIQS_NUM_IDX_IMPL, and otherwise a
    tree of the C library's tsearch.  The structures keep the callbacks that
    LIBHL_CHOOSE_CMP_CB chose for the type of the keys; the constructors of
    [number_index] carry them.  The tsearch plug-in never writes the root of its
    tree, so that every non-null root it could be given is a structure of
    another plug-in, a fault.  [realloc] says which arrays realloc grants, and an
    insertion comes with the results of the calls of random() it makes. *)
From S2P Require Import Prelude Heap LinkedList RbTree Comparators SkipList SkipListTheorems SparseArray HashTable Spi.
From stdpp Require Import strings.

Inductive num_impl := SPARSEARRAY | NSBST | SKIPLIST | TSEARCH.
Definition number_impl (env : option string) : num_impl :=
  match env with
  | Some s =>
      if String.eqb s "SPARSEARRAY" then SPARSEARRAY
      else if String.eqb s "SBST" then NSBST
      else if String.eqb s "SKIPLIST" then SKIPLIST
      else TSEARCH
  | None => TSEARCH
  end.

Notation cmp_fun := (list Z → list Z → Z).
Inductive number_index :=
  | ISpa (locate_cb : option (list Z → Z)) (t : sparse_array ptr)
  | INRbt (cmp_cb : option cmp_fun) (t : rbt ptr)
  | ISkl (cmp_cb : option cmp_fun) (t : skiplist ptr).

(** What a search stores through out: the data, or the list of a cell. *)
Inductive found := Data (p : ptr) | Cell (l : linked_list ptr).
(** The result of a range query: data, or lists of cells. *)
Inductive collected := AllData (l : linked_list ptr) | AllCells (l : linked_list (linked_list ptr)).

Section NumberSpi.
Context (realloc : Z → bool).

(** ** Red-black tree (rbtree_number_index.c) *)
Definition create_rbtree_number_index (dt : DATA_TYPE) : Z * option number_index :=
  (0%Z, Some (INRbt (fst <$> LIBHL_CHOOSE_CMP_CB dt) rbt_create)).
Definition insert_number_to_rbtree (cmp : option cmp_fun) (k : list Z) (d : ptr) : st (option (rbt ptr)) Z :=
  with_root (-1)%Z (rbt_add cmp false k d).
Definition search_number_from_rbtree (cmp : option cmp_fun) (k : list Z) (out : option found) : st (option (rbt ptr)) (Z * option found) :=
  with_root ((-1)%Z, out) ('(r, v) ← rbt_find cmp k; mret (r, match v with Some v => Some (Data v) | None => out end)).
Definition rbt_walk_cb (rst : outcome (linked_list ptr)) (key : list Z) (value : ptr) : outcome (linked_list ptr) * Z :=
  ((push (Some value) rst).1, RBT_WALK_CONTINUE).
Definition search_numeric_range_from_rbtree (cmp : option cmp_fun) (b e : list Z) : st (option (rbt ptr)) (option collected) :=
  with_root None ('(rst, _) ← rbt_range_walk cmp false rbt_walk_cb b e (Ret list_create); l ← outcome_st rst; mret (Some (AllData l))).

(** ** Skip list: a NULL comparator is called as soon as there is an item *)
Definition with_cmp {A} (cmp : option cmp_fun) (m : cmp_fun → st (skiplist ptr) A) : st (skiplist ptr) A :=
  λ s, match cmp with
       | Some c => m c s
       | None => if bool_decide (Forall (λ L, tqh_first L = None) (layers s)) then m (λ _ _, 0%Z) s else Fault
       end.

(** ** Tree of tsearch (tsearch_number_index.c): nothing but the tests against NULL *)
Definition tsearch_op {A} (null : A) : st (option number_index) A :=
  λ root, match root with None => Ret (null, None) | Some _ => Fault end.

(** ** Dispatch *)
Definition on_spa {A} (m : option (list Z → Z) → st (option (sparse_array ptr)) A) : st (option number_index) A :=
  λ root, let f := match root with Some (ISpa f _) => f | _ => None end in
  on_structure (ISpa f) (λ i, match i with ISpa _ t => Some t | _ => None end) (m f) root.
Definition on_nrbt {A} (m : option cmp_fun → st (option (rbt ptr)) A) : st (option number_index) A :=
  λ root, let f := match root with Some (INRbt f _) => f | _ => None end in
  on_structure (INRbt f) (λ i, match i with INRbt _ t => Some t | _ => None end) (m f) root.
Definition on_skl {A} (m : option cmp_fun → st (option (skiplist ptr)) A) : st (option number_index) A :=
  λ root, let f := match root with Some (ISkl f _) => f | _ => None end in
  on_structure (ISkl f) (λ i, match i with ISkl _ t => Some t | _ => None end) (m f) root.

(** [old] is what the caller's pointer holds before the call. *)
Definition create_number_index (env : option string) (dt : DATA_TYPE) (old : option number_index) : Z * option number_index :=
  match number_impl env with
  | SPARSEARRAY => (0%Z, Some (ISpa (snd <$> LIBHL_CHOOSE_CMP_CB dt) create_sparse_array_index))
  | NSBST => create_rbtree_number_index dt
  | SKIPLIST => (0%Z, Some (ISkl (fst <$> LIBHL_CHOOSE_CMP_CB dt) create_skiplist_index))
  | TSEARCH => (0%Z, old)
  end.
Definition insert_number (env : option string) (random : nat → Z) (k : list Z) (d : ptr) : st (option number_index) Z :=
  match number_impl env with
  | SPARSEARRAY => on_spa (λ locate_cb, with_root (-1)%Z (insert_number_to_sparse_array locate_cb realloc k (Some d)))
  | NSBST => on_nrbt (λ cmp, insert_number_to_rbtree cmp k d)
  | SKIPLIST => on_skl (λ cmp, with_root (-1)%Z (with_cmp cmp (λ c, insert_number_to_skiplist c random k d)))
  | TSEARCH => tsearch_op (-1)%Z
  end.
(** delete_number, update_number and destroy_number_index do nothing. *)
Definition destroy_number_index : st (option number_index) Z := mret (-1)%Z.
Definition delete_number (k : list Z) : st (option number_index) Z := mret (-1)%Z.
Definition update_number (k : list Z) (newdata : ptr) : st (option number_index) Z := mret (-1)%Z.
Definition search_number (env : option string) (k : list Z) (out : option found) : st (option number_index) (Z * option found) :=
  match number_impl env with
  | SPARSEARRAY => on_spa (λ locate_cb, with_root ((-1)%Z, out)
      (l ← search_number_from_sparse_array locate_cb k; mret (0%Z, Cell <$> l)))
  | NSBST => on_nrbt (λ cmp, search_number_from_rbtree cmp k out)
  | SKIPLIST => on_skl (λ cmp, with_root ((-1)%Z, out)
      (v ← with_cmp cmp (λ c, search_number_from_skiplist c k); mret (0%Z, Data <$> v)))
  | TSEARCH => tsearch_op ((-1)%Z, out)
  end.
Definition search_numeric_range (env : option string) (b e : list Z) : st (option number_index) (option collected) :=
  match number_impl env with
  | SPARSEARRAY => on_spa (λ locate_cb, with_root None
      (l ← search_numeric_range_from_sparse_array locate_cb b e; mret (Some (AllCells l))))
  | NSBST => on_nrbt (λ cmp, search_numeric_range_from_rbtree cmp b e)
  | SKIPLIST => on_skl (λ cmp, with_root None
      (l ← with_cmp cmp (λ c, search_numeric_range_from_skiplist c b e); mret (Some (AllData l))))
  | TSEARCH => tsearch_op None
  end.
End NumberSpi.
