(* ===== verification/NumberSpiTheorems.v ===== *)
(** * The plug-in interface of number indexes: theorems

    The class [NumberStore] states what a number index promises as long as no
    key comes below the first one; the red-black tree and the skip list are
    instances, and a client that uses the class cannot tell them apart.  The
    fallback to tsearch stores nothing. *)
From S2P Require Import Prelude Heap LinkedList LinkedListRep LinkedListSpec RbTree RbTreeAdd RbTreeMap RbTreeTheorems Comparators SkipList SkipListRep SkipListInsert SkipListTheorems SparseArray HashTable HashTableRep IndexInv Spi SpiTheorems NumberSpi.
From stdpp Require Import strings.

Section Stores.
Context (realloc : Z → bool) (dt : DATA_TYPE) (cmp : cmp_fun) (locate : list Z → Z) (P : list Z → Prop).
Context (Hdt : LIBHL_CHOOSE_CMP_CB dt = Some (cmp, locate)) `{!KeyOrder P cmp}.
Implicit Types (m : gmap (list Z) ptr) (root : option number_index).

(** The index represents a map. *)
Definition number_is (i : num_impl) root m : Prop :=
  match i, root with
  | NSBST, Some (INRbt f t) => f = Some cmp ∧ rbt_is (Some cmp) P t m
  | SKIPLIST, Some (ISkl f t) => f = Some cmp ∧ skl_is cmp P t m
  | _, _ => False
  end.
(** The least key is there already. *)
Definition above_first m (k : list Z) : Prop := m = ∅ ∨ ∃ k', is_Some (m !! k') ∧ (cmp k' k <= 0)%Z.
(** The data of the keys from [b] to [e], the end excluded. *)
Definition in_bounds (b e : list Z) m : list ptr := (filter (λ p, in_span cmp b e p.1) (map_to_list m)).*2.

Class NumberStore (env : option string) : Prop := {
  ns_create old : ∃ root, create_number_index env dt old = (0%Z, root) ∧ number_is (number_impl env) root ∅;
  ns_insert root m random k d : number_is (number_impl env) root m → P k → above_first m k →
    ∃ root', insert_number realloc env random k d root = Ret (if bool_decide (is_Some (m !! k)) then 1%Z else 0%Z, root')
      ∧ number_is (number_impl env) root' (<[k := d]> m);
  ns_search root m k : number_is (number_impl env) root m → P k →
    ∃ r, search_number env k None root = Ret ((r, Data <$> m !! k), root);
  ns_range root m b e : number_is (number_impl env) root m → P b → (cmp b e < 0)%Z → (Z.of_nat (base.size m) ≤ MAX_LEN)%Z →
    ∃ rst vs, search_numeric_range env b e root = Ret (Some (AllData rst), root) ∧ list_is rst (Some <$> vs) ∧ vs ≡ₚ in_bounds b e m
}.

(** The walk of the red-black tree pushes the data it is called with. *)
Lemma run_walk_cb l rst vs :
  list_is rst (Some <$> vs) → (Z.of_nat (length vs + length l) ≤ MAX_LEN)%Z →
  ∃ rst', run rbt_walk_cb (Ret rst) l = Ret rst' ∧ list_is rst' (Some <$> vs ++ l.*2).
Proof.
  revert rst vs. induction l as [|[k v] l IH]; intros rst vs Hl Hlen; cbn in *.
  { exists rst. by rewrite app_nil_r. }
  destruct (push_result_ok (Some v) rst _ Hl) as (r1 & Hp & Hl1); [rewrite length_fmap; lia|].
  destruct (IH r1 (vs ++ [v])) as (r2 & Hr2 & Hl2); [by rewrite fmap_app|rewrite length_app; cbn; lia|].
  exists r2. unfold run in *. cbn [foldl fst snd]. change (rbt_walk_cb (Ret rst) k v).1 with (push (Some v) (Ret rst)).1. rewrite Hp. split; [exact Hr2|]. by rewrite <-app_assoc in Hl2.
Qed.

Lemma in_range_span b e l :
  (cmp b e < 0)%Z → P b → Forall (λ x : list Z * ptr, P x.1) l →
  filter (λ p, in_range cmp b e p.1) l = filter (λ p, in_span cmp b e p.1) l.
Proof.
  intros Hbe HPb. induction 1 as [|[k v] l HP _ IH]; [done|]. cbn in HP.
  assert (in_range cmp b e k = in_span cmp b e k) as Heq.
  { unfold in_range, in_span. destruct (decide (cmp k b = 0%Z)) as [H0|Hne].
    - rewrite (ko_eq k b) in * by done. rewrite ko_refl by done. rewrite (bool_decide_true (cmp b e < 0)%Z) by done. done.
    - rewrite bool_decide_false by done. cbn. f_equal. apply bool_decide_ext. lia. }
  rewrite !filter_cons. cbn [fst]. rewrite Heq, IH. done.
Qed.

Lemma sbst_number_store env : number_impl env = NSBST → NumberStore env.
Proof using Hdt KeyOrder0.
  intros He. split; unfold create_number_index, insert_number, search_number, search_numeric_range; rewrite He.
  - intros old. unfold create_rbtree_number_index. rewrite Hdt. eexists. split; [done|]. split; [done|]. apply (rbt_is_create (Some cmp) P).
  - intros root m random k d Hr Hk _. destruct root as [[|f t|]|]; try done. destruct Hr as [-> Hr].
    destruct (rbt_add_is (Some cmp) false P t m k d Hr Hk) as (t' & Hrun & Hr').
    exists (Some (INRbt (Some cmp) t')). unfold on_nrbt, on_structure, insert_number_to_rbtree, with_root. cbn. rewrite Hrun.
    split; [|done]. by destruct (m !! k).
  - intros root m k Hr Hk. destruct root as [[|f t|]|]; try done. destruct Hr as [-> Hr].
    destruct Hr as (T & Hr & <-). unfold on_nrbt, on_structure, search_number_from_rbtree, with_root, mbind, st_bind. cbn.
    rewrite (rbt_find_rep (Some cmp) P t T k Hr Hk). destruct (tree_map T !! k); by eexists.
  - intros root m b e Hr Hb Hbe Hsize. destruct root as [[|f t|]|]; try done. destruct Hr as [-> Hr].
    destruct (range_walk_unsorted cmp false P rbt_walk_cb t m b e (Ret list_create) Hr) as (l & n & Hrun & Hl & Hkeys); [by intros ???|done|].
    destruct (size_keys_Forall P m l Hl Hkeys) as [Hf Hlen]. rewrite in_range_span in Hrun by done.
    set (L := filter _ l) in Hrun. destruct (run_walk_cb L list_create []) as (rst & Hrst & Hlist).
    { apply list_is_create. }
    { cbn. pose proof (length_filter (λ p, in_span cmp b e p.1) l) as Hle. fold L in Hle. lia. }
    exists rst, L.*2. unfold on_nrbt, on_structure, search_numeric_range_from_rbtree, with_root, mbind, st_bind. cbn. rewrite Hrun.
    split; [by rewrite Hrst|]. split; [done|]. unfold in_bounds, L. by rewrite Hl.
Qed.

Lemma skiplist_number_store env : number_impl env = SKIPLIST → NumberStore env.
Proof using Hdt KeyOrder0.
  intros He. split; unfold create_number_index, insert_number, search_number, search_numeric_range; rewrite He.
  - intros old. rewrite Hdt. eexists. split; [done|]. split; [done|]. apply skl_is_create. lia.
  - intros root m random k d Hr Hk Hmin. destruct root as [[| |f t]|]; try done. destruct Hr as [-> Hr].
    destruct (insert_is cmp false P random t m k d Hr Hk Hmin) as (t' & Hrun & Hr').
    exists (Some (ISkl (Some cmp) t')). unfold on_skl, on_structure, with_root, with_cmp, insert_number_to_skiplist. cbn. by rewrite Hrun.
  - intros root m k Hr Hk. destruct root as [[| |f t]|]; try done. destruct Hr as [-> Hr]. exists 0%Z.
    unfold on_skl, on_structure, with_root, with_cmp, search_number_from_skiplist, mbind, st_bind. cbn. by rewrite (search_is cmp P t m k Hr Hk).
  - intros root m b e Hr Hb Hbe Hsize. destruct root as [[| |f t]|]; try done. destruct Hr as [-> Hr].
    destruct (range_is cmp P t m b e Hr Hb Hbe) as (l & Hrange & _ & Hperm).
    assert (length l = base.size m) as Hlen by (by rewrite Hperm, length_map_to_list).
    set (L := filter _ l) in Hrange. destruct (collect_calls_ok L list_create []) as (rst & Hcol & Hrst).
    { apply list_is_create. }
    { cbn. pose proof (length_filter (λ p, in_span cmp b e p.1) l) as Hle. fold L in Hle. lia. }
    exists rst, L.*2. unfold on_skl, on_structure, with_root, with_cmp, search_numeric_range_from_skiplist, mbind, st_bind. cbn.
    rewrite Hrange. cbn. rewrite Hcol. split; [done|]. split; [done|]. unfold in_bounds, L. by rewrite Hperm.
Qed.

(** ** Runs of insertions *)
Fixpoint insert_all (env : option string) (kvs : list ((nat → Z) * (list Z * ptr))) : st (option number_index) unit :=
  match kvs with
  | [] => mret tt
  | (random, (k, d)) :: kvs => _ ← insert_number realloc env random k d; insert_all env kvs
  end.

Section Client.
Context (env : option string) `{!NumberStore env}.
Lemma insert_all_ok k0 kvs root m :
  number_is (number_impl env) root m → is_Some (m !! k0) → Forall (λ x, P x.2.1 ∧ (cmp k0 x.2.1 <= 0)%Z) kvs →
  ∃ root', insert_all env kvs root = Ret (tt, root') ∧ number_is (number_impl env) root' (assigned kvs m).
Proof.
  intros Hr H0 Hk. revert root m Hr H0. induction Hk as [|[random [k d]] kvs [HP Hle] _ IH]; intros root m Hr H0; [by exists root|].
  cbn in HP, Hle. destruct (ns_insert root m random k d Hr HP) as (r1 & Hrun & Hr1); [right; by exists k0|].
  destruct (IH r1 _ Hr1) as (r2 & Hrun2 & Hr2); [rewrite lookup_insert_is_Some'; by right|].
  exists r2. cbn. unfold mbind, st_bind. by rewrite Hrun, Hrun2.
Qed.
(** What a client of the interface sees after a run that starts with its least key. *)
Lemma client_answers r0 k0 d0 kvs k b e old :
  P k0 → Forall (λ x, P x.2.1 ∧ (cmp k0 x.2.1 <= 0)%Z) kvs → P k → P b → (cmp b e < 0)%Z → (Z.of_nat (S (length kvs)) ≤ MAX_LEN)%Z →
  let m := assigned kvs {[k0 := d0]} in
  ∃ root r rst vs, insert_all env ((r0, (k0, d0)) :: kvs) (create_number_index env dt old).2 = Ret (tt, root)
    ∧ search_number env k None root = Ret ((r, Data <$> m !! k), root)
    ∧ search_numeric_range env b e root = Ret (Some (AllData rst), root) ∧ list_is rst (Some <$> vs) ∧ vs ≡ₚ in_bounds b e m.
Proof.
  intros H0 Hk HPk HPb Hbe Hlen m. destruct (ns_create old) as (root0 & -> & Hr0). cbn [snd].
  destruct (ns_insert root0 ∅ r0 k0 d0 Hr0 H0) as (root1 & Hrun1 & Hr1); [by left|].
  destruct (insert_all_ok k0 kvs root1 {[k0 := d0]}) as (root & Hrun & Hr); [done|by rewrite lookup_singleton_eq|done|].
  destruct (ns_search root m k Hr HPk) as [r Hs].
  destruct (ns_range root m b e Hr HPb Hbe) as (rst & vs & Hrange & Hl & Hvs).
  { pose proof (size_assigned kvs {[k0 := d0]}) as Hm. fold m in Hm. rewrite map_size_singleton in Hm. lia. }
  exists root, r, rst, vs. split_and!; try done. cbn. unfold mbind, st_bind. by rewrite Hrun1.
Qed.
End Client.

(** C11: the ordered number indexes agree.  For any run of insertions that starts
    with its least key, under any key type whose comparator orders the keys, a
    client of spi.c gets the same data from a red-black tree (SBST) and from a
    skip list (SKIPLIST): a search gives the data inserted last under the key,
    NULL if there is none, and a range query gives the data of the keys from [b]
    to [e], the end excluded, up to order; nothing faults. *)
Theorem number_backends_agree env1 env2 r0 k0 d0 kvs k b e old1 old2 :
  number_impl env1 = NSBST → number_impl env2 = SKIPLIST →
  P k0 → Forall (λ x, P x.2.1 ∧ (cmp k0 x.2.1 <= 0)%Z) kvs → P k → P b → (cmp b e < 0)%Z → (Z.of_nat (S (length kvs)) ≤ MAX_LEN)%Z →
  ∃ root1 root2 r1 r2 out rst1 rst2 vs1 vs2,
    (insert_all env1 ((r0, (k0, d0)) :: kvs) (create_number_index env1 dt old1).2 = Ret (tt, root1)
      ∧ insert_all env2 ((r0, (k0, d0)) :: kvs) (create_number_index env2 dt old2).2 = Ret (tt, root2))
    ∧ (search_number env1 k None root1 = Ret ((r1, out), root1) ∧ search_number env2 k None root2 = Ret ((r2, out), root2)
      ∧ out = Data <$> (assigned kvs {[k0 := d0]} : gmap (list Z) ptr) !! k)
    ∧ search_numeric_range env1 b e root1 = Ret (Some (AllData rst1), root1) ∧ list_is rst1 (Some <$> vs1)
    ∧ search_numeric_range env2 b e root2 = Ret (Some (AllData rst2), root2) ∧ list_is rst2 (Some <$> vs2)
    ∧ vs1 ≡ₚ vs2 ∧ vs1 ≡ₚ in_bounds b e (assigned kvs {[k0 := d0]}).
Proof using Hdt KeyOrder0.
  intros H1%sbst_number_store H2%skiplist_number_store H0 Hk HPk HPb Hbe Hlen.
  destruct (client_answers env1 r0 k0 d0 kvs k b e old1) as (root1 & r1 & rst1 & vs1 & Hi1 & Hs1 & Hr1 & Hl1 & Hv1); [done..|].
  destruct (client_answers env2 r0 k0 d0 kvs k b e old2) as (root2 & r2 & rst2 & vs2 & Hi2 & Hs2 & Hr2 & Hl2 & Hv2); [done..|].
  eexists root1, root2, r1, r2, _, rst1, rst2, vs1, vs2. split_and!; try done. by rewrite Hv1, Hv2.
Qed.
End Stores.

(** The fallback stores nothing.  Without a known name in MIQS_NUM_IDX_IMPL
    an index whose pointer starts as NULL stays NULL: after any run of
    insertions, each refused with -1, every search fails with -1 and leaves out
    as it was, and a range query returns NULL; a pointer that was not NULL
    before the call makes the first insertion fault. *)
Theorem tsearch_stores_nothing realloc env dt kvs k b e out old :
  number_impl env = TSEARCH →
  create_number_index env dt old = (0%Z, old)
  ∧ insert_all realloc env kvs None = Ret (tt, None)
  ∧ (∀ random d, insert_number realloc env random k d None = Ret ((-1)%Z, None))
  ∧ search_number env k out None = Ret (((-1)%Z, out), None)
  ∧ search_numeric_range env b e None = Ret (None, None)
  ∧ (old ≠ None → ∀ random d, insert_number realloc env random k d old = Fault).
Proof.
  intros He. assert (∀ random k d root, insert_number realloc env random k d root = tsearch_op (-1)%Z root) as Hins.
  { intros. unfold insert_number. by rewrite He. }
  split_and!.
  - unfold create_number_index. by rewrite He.
  - induction kvs as [|[random [k' d]] kvs IH]; [done|]. cbn. unfold mbind, st_bind. rewrite Hins. cbn. exact IH.
  - intros. by rewrite Hins.
  - unfold search_number. by rewrite He.
  - unfold search_numeric_range. by rewrite He.
  - intros Hold random d. rewrite Hins. by destruct old.
Qed.

(** ** Witnesses *)
Definition four : list ((nat → Z) * (list Z * ptr)) :=
  [(heads 3, (int_bytes 9, 2%positive)); (heads 1, (int_bytes 6, 3%positive)); (heads 0, (int_bytes 9, 4%positive))].
Lemma number_backends_agree_witness :
  ∃ root1 root2 r1 r2 out rst1 rst2 vs1 vs2,
    (insert_all (λ _, true) (Some "SBST"%string) ((heads 2, (int_bytes 5, 1%positive)) :: four) (create_number_index (Some "SBST"%string) INT None).2 = Ret (tt, root1)
      ∧ insert_all (λ _, true) (Some "SKIPLIST"%string) ((heads 2, (int_bytes 5, 1%positive)) :: four) (create_number_index (Some "SKIPLIST"%string) INT None).2 = Ret (tt, root2))
    ∧ (search_number (Some "SBST"%string) (int_bytes 9) None root1 = Ret ((r1, out), root1)
      ∧ search_number (Some "SKIPLIST"%string) (int_bytes 9) None root2 = Ret ((r2, out), root2)
      ∧ out = Data <$> (assigned four {[int_bytes 5 := 1%positive]} : gmap (list Z) ptr) !! int_bytes 9)
    ∧ search_numeric_range (Some "SBST"%string) (int_bytes 5) (int_bytes 9) root1 = Ret (Some (AllData rst1), root1) ∧ list_is rst1 (Some <$> vs1)
    ∧ search_numeric_range (Some "SKIPLIST"%string) (int_bytes 5) (int_bytes 9) root2 = Ret (Some (AllData rst2), root2) ∧ list_is rst2 (Some <$> vs2)
    ∧ vs1 ≡ₚ vs2 ∧ vs1 ≡ₚ in_bounds libhl_cmp_keys_int (int_bytes 5) (int_bytes 9) (assigned four {[int_bytes 5 := 1%positive]}).
Proof.
  apply (number_backends_agree (λ _, true) INT libhl_cmp_keys_int libhl_cast_int_to_int int_key eq_refl
    (Some "SBST"%string) (Some "SKIPLIST"%string) (heads 2) (int_bytes 5) 1%positive four (int_bytes 9) (int_bytes 5) (int_bytes 9) None None eq_refl eq_refl).
  - apply int_key_small. lia.
  - repeat constructor; try (apply int_key_small; lia); vm_compute; discriminate.
  - apply int_key_small. lia.
  - apply int_key_small. lia.
  - vm_compute. reflexivity.
  - vm_compute. discriminate.
Defined.
Lemma tsearch_stores_nothing_witness :
  create_number_index None INT None = (0%Z, None)
  ∧ insert_all (λ _, true) None four None = Ret (tt, None)
  ∧ (∀ random d, insert_number (λ _, true) None random (int_bytes 9) d None = Ret ((-1)%Z, None))
  ∧ search_number None (int_bytes 9) None None = Ret (((-1)%Z, None), None)
  ∧ search_numeric_range None (int_bytes 5) (int_bytes 9) None = Ret (None, None)
  ∧ ((None : option number_index) ≠ None → ∀ random d, insert_number (λ _, true) None random (int_bytes 9) d None = Fault).
Proof. apply (tsearch_stores_nothing (λ _, true) None INT four (int_bytes 9) (int_bytes 5) (int_bytes 9) None None eq_refl). Defined.
